(* ===== verification/_CoqProject ===== *)
-Q . S2P
Prelude.v
Soroban.v
TokenModel.v
TokenVesting.v
TokenVestingProofs.v
FeeDistribution.v
FeeDistributionProofs.v
AccessControl.v
Escrow.v
EscrowProofs.v
MultiSigWallet.v
MultiSigProofs.v
AmmMath.v
Amm.v
AmmProofs.v
Staking.v
StakingProofs.v
Vault.v
VaultProofs.v
Governance.v
GovernanceProofs.v
Membership.v
MembershipProofs.v
CollateralMath.v
Collateral.v
CollateralProofs.v
PredictionMath.v
Prediction.v
PredictionProofs.v
OracleMath.v
Oracle.v
OracleProofs.v
Insurance.v
InsuranceProofs.v
Workflow.v
Hub.v
HubProofs.v
MarketTypes.v
Marketplace.v
MarketSpec.v
MarketProofs.v
MarketEscrow.v
MarketFees.v
MarketLink.v
Bridge.v
BridgeProofs.v
CrossBridge.v
CrossBridgeProofs.v
Compliance.v
ComplianceProofs.v
PortfolioTypes.v
Portfolio.v
PortfolioProofs.v
Atomic.v
AuditTrail.v
Proxy.v
