(* ===== verification/Prelude.v ===== *)
(** * StellAIverse contracts: a verification development

    The program is a workspace of Soroban (Stellar) smart contracts in Rust,
    one crate per directory of src/contracts/.  Each contract owns its storage,
    is driven by transactions that call its entry points, and talks to the rest
    of the world through token contracts, through the ledger clock and through
    signatures ([require_auth]).  Contracts meet each other where one is linked
    to another (the escrow asks the access-control contract who is an
    administrator, the marketplace runs its sales through the execution hub) and
    in the shared library src/lib.

    ** Files

    Every contract has a model file, which is the translation of its source, and
    a proofs file with invariants, theorems and a demo module (a concrete
    history evaluated by the kernel, on which the theorems are instantiated).

    - Prelude: tactics ([zbool], [use_tests]), the hint database [contracts],
      sums over maps and lists ([msum], [lsum]), removal of a first occurrence,
      division.
    - Soroban: the host.  [Address]; the integer widths u32, u64, u128, i128 with the
      checked, saturating and plain operators (the release profile compiles with
      overflow-checks, so the plain ones panic); [Env] (time, ledger sequence,
      own address, who has signed); [invoke], a call of another contract, which
      may change the rest of the ledger or trap; [TokenHost], the token contracts as
      parameters, and [TokenLaws], what SEP-41 promises of a transfer; the monad
      [M] of contract functions with outcomes [Ok], [Err], [Panic] (the latter
      two roll back, so they carry no world); the inversion tactic [minv]; and
      [step], the transaction system: a call at a time that does not decrease,
      or other contracts moving tokens, which can never spend this contract's
      balance; [step_in], the same restricted to the calls that a predicate allows in
      the storage they meet, for the contracts that can be used before they are
      initialized and whose initialization resets their counters (execution hub,
      marketplace, prediction markets): their theorems hold in the histories, from
      deployment, in which the initialization does not come late.
    - TokenModel: a token ledger that satisfies [TokenLaws], and scripts of
      calls, for the demos.
    - TokenVesting, TokenVestingProofs: src/contracts/token-vesting/src/lib.rs.
    - FeeDistribution, FeeDistributionProofs: src/contracts/fee-distribution/src/lib.rs.
    - AccessControl: src/contracts/access-control/src/lib.rs, with its theorems;
      it implements the interface RoleRegistry that the escrow is proved against.
    - Escrow, EscrowProofs: src/contracts/escrow/src/lib.rs.
    - MultiSigWallet, MultiSigProofs: src/contracts/multisig-wallet/src/lib.rs.
    - AmmMath, Amm, AmmProofs: src/contracts/amm/src/math.rs; storage.rs, types.rs,
      lib.rs and the admin check of src/lib/src/rbac.rs.
    - Staking, StakingProofs: src/contracts/staking/src/lib.rs.
    - Vault, VaultProofs: src/contracts/vault/src/lib.rs.
    - Governance, GovernanceProofs: src/contracts/governance/src/ (contract.rs,
      types.rs, utils.rs, errors.rs, storage_keys.rs).
    - Membership, MembershipProofs: src/contracts/membership-subscription/src/lib.rs.
    - CollateralMath, Collateral, CollateralProofs: src/contracts/collateral-management/src/
      (math.rs; lib.rs, storage.rs, types.rs).  The price oracle it asks is the
      parameter [PriceOracle].
    - PredictionMath, Prediction, PredictionProofs: src/contracts/prediction-markets/src/
      (math.rs; lib.rs, storage.rs, types.rs).
    - OracleMath, Oracle, OracleProofs: src/contracts/oracle/src/ (types.rs,
      errors.rs and price_aggregator.rs; storage_keys.rs, circuit_breaker.rs,
      rate_limiter.rs, incentives.rs and contract.rs).
    - Insurance, InsuranceProofs: src/contracts/insurance-protocol/src/ (contract.rs,
      types.rs, storage_keys.rs, errors.rs).
    - Workflow, Hub, HubProofs: the workflow types of src/lib/src/types.rs;
      src/contracts/execution-hub/src/lib.rs.  The contracts its steps call are
      the parameter [WorkflowTargets].
    - MarketTypes, Marketplace: the agent, listing, auction and royalty types of
      src/lib/src/types.rs and src/contracts/marketplace/src/lib.rs.  The hub it
      asks to run a sale is the parameter [HubClient].
    - MarketSpec: the market as an abstract machine ([Market], [mstep]) and the
      refinement of it by the calls of the contract; MarketProofs: its invariant,
      auctions and the ownership of agents; MarketEscrow: agents in escrow, with any
      hub, as long as no purchase has succeeded, and the interface [CallsBack] of the
      hubs with which none does; MarketFees: the encoding of workflow arguments, the
      Dutch price and the fees of a settlement; MarketLink: the marketplace linked to
      the hub of Hub.v, which implements [CallsBack], and the demo.
    - Bridge, BridgeProofs: src/contracts/bridge/src/ (contract.rs, storage.rs) and
      the bridge types of src/shared/src/lib.rs.  As it is written the contract
      cannot be initialized (a theorem); the others hold of a bridge whose storage
      is what its [initialize_bridge] writes.
    - CrossBridge, CrossBridgeProofs: src/contracts/cross-chain-bridge/src/.  Minting
      and burning, signature verification and the decoding of addresses are the
      parameter [BridgeHost].
    - Compliance, ComplianceProofs: src/contracts/compliance-integration/src/lib.rs and
      the roles of src/lib/src/rbac.rs.  As it is written the contract cannot
      install its first administrator (a theorem); the others hold whatever roles
      are in its storage at the start, none included.
    - PortfolioTypes, Portfolio, PortfolioProofs: src/contracts/portfolio-manager/src/
      (types.rs; contract.rs, storage.rs, templates.rs).
    - Atomic, AuditTrail, Proxy: of the shared library, src/lib/src/atomic.rs, audit.rs (with
      the logging helpers of audit_helpers.rs) and proxy.rs, each with its theorems.

    In a model file the storage is the record [State] with one field per
    constructor of the contract's [DataKey] (an option for a single key, a
    finite map for a keyed family; absence is the unset key), events are the
    inductive [Event], each Rust function is the definition of the same name,
    with its guards in the order of the code, and [Call], [exec] and [call_ok]
    collect the entry points (and the non-negativity of unsigned arguments).
    A loop over a vector is [foldM] over the list; the body of a loop and a
    storage write that recurs are definitions of their own, mapped to their lines.

    ** What the theorems show

    - Custody: what a contract owes is covered by its token balance in every
      reachable world (vesting schedules, undistributed fees, escrow balances,
      wallet, pools and rewards of the AMM, markets, orders and stakes of the
      prediction markets, insurance pools), or is covered up to an amount the
      theorem names (staking: the rewards paid; vault: the gains reported;
      collateral: the principal lent).
    - Books: counters, indexes and totals agree with the records they summarise
      (vesting, fees, stakes, vault shares and queue, votes and delegations,
      subscriptions, loans and collateral, insurance shares and ballots, the
      positions, weights and share supply of a portfolio).
    - Exactness: what each payment is, on every branch (claims, early
      withdrawals, distribution with its remainder, unstaking, execution); what a
      page of the audit log holds.
    - Refinement and equivalence: linear vesting against a pure specification,
      the integer square root against the mathematical one, the escrow's
      administrators against the role registry, the states a proposal is reported in
      against its life cycle, the marketplace against the abstract market, pending-reward
      views against the settlement, previews against withdrawals, the
      health check of a withdrawal against the health after it,
      the time-weighted price against the sum over every second, the signature check
      of the cross-chain bridge against the signatures it accepts, the execution order
      of an atomic transaction against the steps that can ever run.
    - Fairness and bounds: swaps never lower the product of the reserves, deposits
      and withdrawals (vault, portfolios) never lower the assets per share of the
      others, rewards
      stay within the emission schedule, spending and bridged volumes within daily
      and rate limits;
      a minority of hostile providers cannot move the oracle's price; a Dutch price
      falls between its bounds, royalties stay within the payment and the platform
      fee within a tenth of it.
    - State machines: transactions of the escrow are final, wallet transactions
      execute in nonce order, a proposal executes once and not before its
      timelock, a subscription changes only by its member or when due, a market
      is resolved after its window and disputed with a stake, a tripped circuit
      breaker stops a feed until its cooldown is over, an insurance claim is
      decided after its deadline and paid at most once, a workflow of the hub
      runs its steps in order and ends once, an agent's action nonce is used once,
      an auction takes bids until its end and is closed once, an agent changes
      hands only by an auction or a pending sale and is for sale in one place, a
      bridge transfer is validated, completed, disputed or cancelled in order and
      its source transaction is used once, a cross-chain transfer stays locked,
      a KYC record follows its transition table, a closed portfolio stays closed,
      audit entries are never altered, a proxy changes its implementation only by an
      upgrade that its administrator has signed.
    - Solvency of positions: a loan or a withdrawal leaves the borrower at or
      above the liquidation threshold, a liquidation needs a borrower below it
      and takes what the formula says of the most valuable collateral.
    - Round trips: deposit then withdraw (vault, portfolios), pause then resume, buy then sell.
    - Liveness: from every reachable state a prediction market can be resolved.
    - Behaviour that is not intended is stated as theorems too and listed as
      findings: seizures that ignore the price scale, LP shares that redeem
      another pool, unbacked sell orders, double payment of repeated ids in a
      staking batch, the price that trips the oracle's breaker being stored,
      insurance claims beyond the coverage, vault harvests without a signature,
      delegated tokens that vote twice, refunds of trials and of referral rewards,
      repeated claims of AMM rewards, initializations that come late and let new
      records replace old ones, vault losses beyond the assets, proposals whose outcome
      changes with the quorum, marketplace sales that the host must refuse
      because the hub calls back, Dutch auctions whose agent is stuck, a bridge that
      cannot start and whose validators can approve twice, another whose transfers
      are never paid, KYC decisions without a signature, a portfolio whose
      rebalancing sets its value and whose dividends cannot be claimed, a proxy whose
      upgrade ends an emergency stop.

    ** Fuel and bounds

    A loop without a list or a counter to follow is Newton's iteration of
    [isqrt]; it has fuel 130, and [isqrt_correct] proves that every i128 input
    reaches its fixed point within it, so the fuel never shows (the portfolio's
    copy of the loop likewise, [portfolio_isqrt_correct]).  The bridge looks
    for the first free index of a key family; its fuel is one more than the number
    of keys stored, and [bridge_fee_exact] proves that it does not run out.  The passes
    over the steps of a transaction have one unit per step and one more
    ([rounds_total]), the loop of an audit query one per id and one more
    ([collect_spec]).  The history
    view of the fee contract counts down a stored u64 and is proved total.  All
    other recursion is structural.  Integers are [Z] with the width named at
    each operation; nothing is assumed not to overflow, a theorem about a
    successful call holds because an overflow is a panic.

    ** What is not modelled

    Token contracts are parameters with [TokenLaws] as hypotheses (TokenModel
    shows that they can hold).  Storage lifetimes (TTL), resource limits and the
    byte encoding of storage are not modelled; nor is re-entrancy, which the host
    refuses.  Not modelled of the workspace: the rest of src/lib and src/shared
    (types and helpers that the modelled contracts do not use).  Left aside: amm-protocol,
    derivatives-swaps and lending-protocol (sketches outside the Cargo workspace),
    archive, contracts_backup, and the Kani harnesses of formal-verification. *)

From stdpp Require Import gmap strings list fin_maps.
Open Scope Z_scope.

(** ** Hint database and tactics of the development *)

Create HintDb contracts.

(** Turn boolean integer tests and [bool_decide]s in the context into
    propositions, so that [lia] and [congruence] can use them. *)
Ltac zbool :=
  repeat match goal with
  | H : (_ <? _) = true |- _ => apply Z.ltb_lt in H
  | H : (_ <? _) = false |- _ => apply Z.ltb_ge in H
  | H : (_ <=? _) = true |- _ => apply Z.leb_le in H
  | H : (_ <=? _) = false |- _ => apply Z.leb_gt in H
  | H : (_ >? _) = true |- _ => apply Z.gtb_gt in H
  | H : (_ >? _) = false |- _ => rewrite Z.gtb_ltb in H; apply Z.ltb_ge in H
  | H : (_ >=? _) = true |- _ => rewrite Z.geb_leb in H; apply Z.leb_le in H
  | H : (_ >=? _) = false |- _ => rewrite Z.geb_leb in H; apply Z.leb_gt in H
  | H : (_ =? _) = true |- _ => apply Z.eqb_eq in H
  | H : (_ =? _) = false |- _ => apply Z.eqb_neq in H
  | H : bool_decide _ = true |- _ => apply bool_decide_eq_true_1 in H
  | H : bool_decide _ = false |- _ => apply bool_decide_eq_false_1 in H
  | H : ¬ (_ ≠ _) |- _ => apply dec_stable in H
  | H : negb _ = true |- _ => apply negb_true_iff in H
  | H : negb _ = false |- _ => apply negb_false_iff in H
  | H : (_ && _) = true |- _ => apply andb_prop in H; destruct H
  | H : (_ || _) = false |- _ => apply orb_false_elim in H; destruct H
  end.

(** Replace in the goal the boolean tests a run has decided. *)
Ltac use_tests :=
  repeat match goal with
  | Hc : ?b = true |- context [?b] => rewrite Hc
  | Hc : ?b = false |- context [?b] => rewrite Hc
  end.

(** ** Sums over finite maps

    The total a contract owes is a sum over the records of a storage map;
    solvency invariants compare such sums with token balances. *)

Section msum.
Context `{Countable K} {V : Type}.
Implicit Types (f g : K → V → Z) (m : gmap K V).

Definition msum (f : K → V → Z) (m : gmap K V) : Z :=
  map_fold (λ k v acc, f k v + acc) 0 m.

Lemma msum_empty f : msum f ∅ = 0.
Proof. apply map_fold_empty. Qed.

Lemma msum_insert_fresh f m k v :
  m !! k = None → msum f (<[k:=v]> m) = f k v + msum f m.
Proof.
  intros Hk. unfold msum.
  rewrite map_fold_insert_L; [done| |done].
  intros; lia.
Qed.

Lemma msum_delete f m k v :
  m !! k = Some v → msum f m = f k v + msum f (delete k m).
Proof.
  intros Hk. rewrite <- (insert_delete_id m k v Hk) at 1.
  apply msum_insert_fresh. apply lookup_delete_eq.
Qed.

Lemma msum_insert_update f m k v v' :
  m !! k = Some v → msum f (<[k:=v']> m) = msum f m - f k v + f k v'.
Proof.
  intros Hk. rewrite <- insert_delete_eq, msum_insert_fresh.
  - rewrite (msum_delete f m k v Hk). lia.
  - apply lookup_delete_eq.
Qed.

(** Writing a key replaces the term it had, if any. *)
Lemma msum_insert f m k v :
  msum f (<[k:=v]> m) = msum f m - from_option (f k) 0 (m !! k) + f k v.
Proof.
  destruct (m !! k) as [v0|] eqn:Hk; simpl.
  - by apply msum_insert_update.
  - rewrite msum_insert_fresh by done. lia.
Qed.

Lemma msum_ext f g m :
  (∀ k v, m !! k = Some v → f k v = g k v) → msum f m = msum g m.
Proof.
  induction m as [|k v m Hk IH] using map_ind; intros Hfg.
  - by rewrite !msum_empty.
  - rewrite !msum_insert_fresh by done. rewrite IH, (Hfg k v).
    + done.
    + apply lookup_insert_eq.
    + intros k' v' Hk'. apply Hfg. rewrite lookup_insert_ne; [done|congruence].
Qed.

Lemma msum_nonneg f m :
  (∀ k v, m !! k = Some v → 0 ≤ f k v) → 0 ≤ msum f m.
Proof.
  induction m as [|k v m Hk IH] using map_ind; intros Hf.
  - by rewrite msum_empty.
  - rewrite msum_insert_fresh by done.
    assert (0 ≤ f k v) by (apply Hf, lookup_insert_eq).
    assert (0 ≤ msum f m); [|lia].
    apply IH. intros k' v' Hk'. apply Hf.
    rewrite lookup_insert_ne; [done|congruence].
Qed.

(** One term of a sum of non-negative terms is at most the sum. *)
Lemma msum_lookup_le f m k v :
  (∀ k v, m !! k = Some v → 0 ≤ f k v) →
  m !! k = Some v → f k v ≤ msum f m.
Proof.
  intros Hf Hk. rewrite (msum_delete f m k v Hk).
  assert (0 ≤ msum f (delete k m)); [|lia].
  apply msum_nonneg. intros k' v' [_ Hk']%lookup_delete_Some. eauto.
Qed.
End msum.

(** ** Sums over lists *)

Definition lsum {A} (f : A → Z) (l : list A) : Z :=
  foldr (λ x acc, f x + acc) 0 l.

Lemma lsum_app {A} (f : A → Z) l1 l2 : lsum f (l1 ++ l2) = lsum f l1 + lsum f l2.
Proof. induction l1 as [|x l1 IH]; simpl; [done|]. rewrite IH. lia. Qed.

Lemma lsum_nonneg {A} (f : A → Z) l : (∀ x, x ∈ l → 0 ≤ f x) → 0 ≤ lsum f l.
Proof.
  induction l as [|x l IH]; simpl; intros Hf; [done|].
  assert (0 ≤ f x) by (apply Hf; left).
  assert (0 ≤ lsum f l); [|lia]. apply IH. intros y Hy. apply Hf. by right.
Qed.

Lemma lsum_ext {A} (f g : A → Z) l :
  (∀ x, x ∈ l → f x = g x) → lsum f l = lsum g l.
Proof.
  induction l as [|x l IH]; simpl; intros Hfg; [done|].
  rewrite (Hfg x) by left. rewrite IH; [done|]. intros y Hy. apply Hfg. by right.
Qed.

Lemma lsum_zip_snd {A} (l1 : list A) (l2 : list Z) :
  length l1 = length l2 → lsum snd (zip l1 l2) = lsum id l2.
Proof.
  revert l2. induction l1 as [|x l1 IH]; intros [|y l2]; simpl; intros Hl; try done.
  rewrite IH by lia. done.
Qed.

Lemma msum_zero `{Countable K} {V} (f : K → V → Z) (m : gmap K V) :
  (∀ k v, m !! k = Some v → f k v = 0) → msum f m = 0.
Proof.
  intros Hf. rewrite (msum_ext _ (λ _ _, 0) m) by done. clear Hf.
  induction m as [|k v m Hk IH] using map_ind; [by rewrite msum_empty|]. by rewrite msum_insert_fresh, IH.
Qed.

(** A sum over a map is the sum over a list of keys outside which it vanishes. *)
Lemma msum_support `{Countable K} {V} (f : K → V → Z) (m : gmap K V) (ks : list K) :
  NoDup ks → (∀ k, k ∈ ks → is_Some (m !! k)) → (∀ k v, m !! k = Some v → k ∉ ks → f k v = 0) →
  msum f m = lsum (λ k, from_option (f k) 0 (m !! k)) ks.
Proof.
  revert m. induction ks as [|k ks IH]; intros m Hnd Hks Hf.
  - apply msum_zero. intros k v Hk. apply (Hf k v Hk). apply not_elem_of_nil.
  - apply NoDup_cons in Hnd as [Hk Hnd]. destruct (Hks k ltac:(left)) as [v Hv]. simpl.
    rewrite (msum_delete f m k v Hv), Hv. simpl. f_equal. rewrite (IH (delete k m)).
    + apply lsum_ext. intros x Hx. rewrite lookup_delete_ne; [done|]. by intros ->.
    + done.
    + intros x Hx. rewrite lookup_delete_ne; [apply Hks; by right|]. by intros ->.
    + intros x y [Hne Hx]%lookup_delete_Some Hnin. apply (Hf x y Hx). rewrite not_elem_of_cons. done.
Qed.

(** A sum over a map is the sum over any list of its keys. *)
Lemma msum_keys `{Countable K} {V} (f : K → V → Z) (m : gmap K V) (ks : list K) :
  NoDup ks → (∀ k, k ∈ ks ↔ is_Some (m !! k)) →
  msum f m = lsum (λ k, from_option (f k) 0 (m !! k)) ks.
Proof.
  intros Hnd Hks. apply msum_support; [done|by intros k; apply Hks|].
  intros k v Hk Hnin. exfalso. apply Hnin, Hks. eauto.
Qed.

(** ** Removing the first occurrence of an element

    Several contracts scan a vector for an element, remove the entry at the
    index found and stop. *)

Section remove_first.
Context `{EqDecision A}.
Implicit Types (x y : A) (l : list A).

Fixpoint remove_first (x : A) (l : list A) : list A :=
  match l with
  | [] => []
  | y :: l' => if bool_decide (y = x) then l' else y :: remove_first x l'
  end.

Lemma remove_first_notin x l : x ∉ l → remove_first x l = l.
Proof.
  induction l as [|y l IH]; simpl; intros Hx; [done|].
  case_bool_decide; subst; [set_solver|]. rewrite IH; set_solver.
Qed.

Lemma remove_first_perm x l : x ∈ l → x :: remove_first x l ≡ₚ l.
Proof.
  induction l as [|y l IH]; simpl; intros Hx; [by apply not_elem_of_nil in Hx|].
  case_bool_decide as Hd; [by subst|].
  rewrite Permutation_swap, IH; [done|set_solver].
Qed.

Lemma length_remove_first x l : x ∈ l → length l = S (length (remove_first x l)).
Proof. intros Hx. by rewrite <- (remove_first_perm x l Hx) at 1. Qed.

Lemma elem_of_remove_first x y l : y ∈ remove_first x l → y ∈ l.
Proof.
  induction l as [|z l IH]; simpl; [done|]. case_bool_decide; set_solver.
Qed.

Lemma NoDup_remove_first x l : NoDup l → NoDup (remove_first x l).
Proof.
  induction l as [|y l IH]; simpl; intros Hnd; [done|].
  apply NoDup_cons in Hnd as [Hy Hnd]. case_bool_decide; [done|].
  apply NoDup_cons. split; [|auto]. intros Hin. by apply elem_of_remove_first in Hin.
Qed.

Lemma elem_of_remove_first_NoDup x y l :
  NoDup l → (y ∈ remove_first x l ↔ y ∈ l ∧ y ≠ x).
Proof.
  induction l as [|z l IH]; simpl; intros Hnd; [set_solver|].
  apply NoDup_cons in Hnd as [Hz Hnd]. case_bool_decide as Hd; [set_solver|].
  rewrite !elem_of_cons, IH by done. set_solver.
Qed.
End remove_first.

(** ** Appending a fresh element *)

Lemma NoDup_snoc {A} (l : list A) x : NoDup l → x ∉ l → NoDup (l ++ [x]).
Proof.
  intros Hl Hx. apply NoDup_app. split_and!; [done| |apply NoDup_singleton].
  intros y Hy ->%list_elem_of_singleton. done.
Qed.

(** ** Finite maps *)

(** A key that is bound: writing it is altering it. *)
Lemma insert_alter `{Countable K} {A} (f : A → A) (m : gmap K A) i x : m !! i = Some x → <[i := f x]> m = alter f i m.
Proof.
  intros Hx. apply map_eq. intros j. destruct (decide (j = i)) as [->|Hne].
  - by rewrite lookup_insert_eq, lookup_alter_eq, Hx.
  - by rewrite lookup_insert_ne, lookup_alter_ne.
Qed.

Lemma is_Some_insert `{Countable K} {V} (m : gmap K V) k v k' :
  is_Some (m !! k') → is_Some (<[k := v]> m !! k').
Proof. intros [y Hy]. rewrite lookup_insert. case_decide; eauto. Qed.

(** ** Division: Rust's [/] on integers truncates towards zero *)

Lemma quot_div_nonneg a b : 0 ≤ a → 0 < b → a `quot` b = a `div` b.
Proof. intros. by apply Z.quot_div_nonneg. Qed.

Lemma div_le_of_le_mul a b c : 0 < b → a ≤ c * b → a `div` b ≤ c.
Proof. intros Hb Hac. apply Z.div_le_upper_bound; [done|]. lia. Qed.

#[export] Hint Resolve NoDup_snoc NoDup_remove_first : contracts.
