(* ===== verification/Soroban.v ===== *)
(** * The Soroban host as the contracts see it

    What a contract uses of [soroban_sdk]: addresses and symbols, fixed-width
    integers with checked arithmetic, the ledger time, [require_auth], the
    contract's own storage, events, panics and typed errors, and calls to
    token contracts.  A contract function is a value of the monad [M]: it
    reads the environment of the invocation and maps the world (storage,
    token ledger, event log) to an outcome.  A panic and a returned error
    both roll the invocation back, so they carry no world. *)

From stdpp Require Import gmap strings list fin_maps.
From S2P Require Import Prelude.
Open Scope Z_scope.

(** ** Addresses, symbols, strings *)

(** An [Address] is compared and used as a storage key, nothing else. *)
Record Address := mkAddress { strkey : string }.

#[global] Instance Address_eq_dec : EqDecision Address.
Proof. solve_decision. Defined.
#[global] Instance Address_countable : Countable Address.
Proof. apply (inj_countable' strkey mkAddress). by intros []. Defined.
#[global] Instance Address_inhabited : Inhabited Address := populate (mkAddress "").

(** [Symbol] and [String] of the SDK. *)
Abbreviation Symbol := string.

(** ** Fixed-width integers

    Every integer is a [Z]; an operation names its width.  The release
    profile sets [overflow-checks = true], so the plain operators panic on
    overflow exactly where [checked_*] returns [None]. *)

Inductive IntTy := U32 | U64 | U128 | I128.

Definition int_min (ty : IntTy) : Z :=
  match ty with U32 | U64 | U128 => 0 | I128 => - 2 ^ 127 end.

Definition int_max (ty : IntTy) : Z :=
  match ty with U32 => 2 ^ 32 - 1 | U64 => 2 ^ 64 - 1 | U128 => 2 ^ 128 - 1 | I128 => 2 ^ 127 - 1 end.

Definition in_range (ty : IntTy) (z : Z) : bool :=
  (int_min ty <=? z) && (z <=? int_max ty).

Definition checked (ty : IntTy) (z : Z) : option Z :=
  if in_range ty z then Some z else None.

Definition checked_add (ty : IntTy) (a b : Z) : option Z := checked ty (a + b).
Definition checked_sub (ty : IntTy) (a b : Z) : option Z := checked ty (a - b).
Definition checked_mul (ty : IntTy) (a b : Z) : option Z := checked ty (a * b).

Definition saturate (ty : IntTy) (z : Z) : Z := Z.max (int_min ty) (Z.min z (int_max ty)).
Definition saturating_add (ty : IntTy) (a b : Z) : Z := saturate ty (a + b).
Definition saturating_sub (ty : IntTy) (a b : Z) : Z := saturate ty (a - b).
Definition saturating_mul (ty : IntTy) (a b : Z) : Z := saturate ty (a * b).

Lemma checked_Some ty z z' : checked ty z = Some z' ↔ z' = z ∧ int_min ty ≤ z ≤ int_max ty.
Proof.
  unfold checked, in_range.
  destruct (int_min ty <=? z) eqn:E1, (z <=? int_max ty) eqn:E2; simpl; zbool;
    split; intros; destruct_and?; simplify_eq; try lia; split; auto with lia.
Qed.

Lemma checked_in ty z : int_min ty ≤ z ≤ int_max ty → checked ty z = Some z.
Proof. intros Hz. by apply checked_Some. Qed.

Lemma checked_add_Some ty a b c :
  checked_add ty a b = Some c ↔ c = a + b ∧ int_min ty ≤ a + b ≤ int_max ty.
Proof. apply checked_Some. Qed.
Lemma checked_sub_Some ty a b c :
  checked_sub ty a b = Some c ↔ c = a - b ∧ int_min ty ≤ a - b ≤ int_max ty.
Proof. apply checked_Some. Qed.
Lemma checked_mul_Some ty a b c :
  checked_mul ty a b = Some c ↔ c = a * b ∧ int_min ty ≤ a * b ≤ int_max ty.
Proof. apply checked_Some. Qed.

(** ** Token contracts

    A token is code outside the repository (any SEP-41 contract).  Its
    ledger is an abstract type and its entry points are parameters; [None]
    is a trap of the token contract, which aborts the calling invocation. *)

Record Env := mkEnv {
  timestamp : Z;                       (* ledger close time, u64 *)
  current_contract_address : Address;
  authorized : Address → bool;         (* addresses whose [require_auth] succeeds *)
  sequence : Z;                        (* ledger sequence number, u32 *)
}.

Class TokenHost := {
  Ledger : Type;
  tok_balance : Ledger → Address → Address → Z;
  tok_allowance : Ledger → Address → Address → Address → Z;
  (* environment, ledger, token, from, to, amount *)
  tok_transfer : Env → Ledger → Address → Address → Address → Z → option Ledger;
  (* environment, ledger, token, spender, from, to, amount *)
  tok_transfer_from : Env → Ledger → Address → Address → Address → Address → Z → option Ledger;
}.

(** What the contracts rely on, from the SEP-41 token interface: a transfer
    that returns has moved exactly [amount], between the two accounts named,
    of that token only. *)

Definition moved `{TokenHost} (l l' : Ledger) (tk from to : Address) (amount : Z) : Prop :=
  ∀ tk' a, tok_balance l' tk' a =
    tok_balance l tk' a
    + (if bool_decide (tk' = tk ∧ a = to) then amount else 0)
    - (if bool_decide (tk' = tk ∧ a = from) then amount else 0).

Class TokenLaws `{TokenHost} : Prop := {
  transfer_moved e l tk from to amount l' :
    tok_transfer e l tk from to amount = Some l' → moved l l' tk from to amount;
  transfer_nonneg e l tk from to amount l' :
    tok_transfer e l tk from to amount = Some l' → 0 ≤ amount;
  transfer_from_moved e l tk sp from to amount l' :
    tok_transfer_from e l tk sp from to amount = Some l' → moved l l' tk from to amount;
  transfer_from_nonneg e l tk sp from to amount l' :
    tok_transfer_from e l tk sp from to amount = Some l' → 0 ≤ amount;
}.

(** ** Outcomes and the contract monad *)

Inductive Outcome (E A : Type) :=
| Ok (a : A)
| Err (e : E)
| Panic (msg : string).
Arguments Ok {E A} a.
Arguments Err {E A} e.
Arguments Panic {E A} msg.

Record World `{TokenHost} (S Ev : Type) := mkWorld {
  store : S;
  ledger : Ledger;
  log : list Ev;
}.
Arguments mkWorld {_ S Ev} _ _ _.
Arguments store {_ S Ev} _.
Arguments ledger {_ S Ev} _.
Arguments log {_ S Ev} _.

Definition M `{TokenHost} (S E Ev A : Type) : Type :=
  Env → World S Ev → Outcome E (A * World S Ev).

Section monad.
Context `{TokenHost} {S E Ev : Type}.

#[global] Instance M_ret : MRet (M S E Ev) := λ A a _ w, Ok (a, w).
#[global] Instance M_bind : MBind (M S E Ev) := λ A B k m e w,
  match m e w with
  | Ok (a, w') => k a e w'
  | Err x => Err x
  | Panic msg => Panic msg
  end.

Definition panic {A} (msg : string) : M S E Ev A := λ _ _, Panic msg.
Definition throw {A} (x : E) : M S E Ev A := λ _ _, Err x.
Definition panic_if (c : bool) (msg : string) : M S E Ev () := λ _ w,
  if c then Panic msg else Ok (tt, w).
Definition throw_if (c : bool) (x : E) : M S E Ev () := λ _ w,
  if c then Err x else Ok (tt, w).
(** [Option::expect] / [unwrap] and [ok_or(..)?]. *)
Definition expect {A} (o : option A) (msg : string) : M S E Ev A := λ _ w,
  match o with Some a => Ok (a, w) | None => Panic msg end.
Definition ok_or {A} (o : option A) (x : E) : M S E Ev A := λ _ w,
  match o with Some a => Ok (a, w) | None => Err x end.

(** The plain operators, which panic on overflow. *)
Definition plain_add (ty : IntTy) (a b : Z) : M S E Ev Z :=
  expect (checked_add ty a b) "attempt to add with overflow".
Definition plain_sub (ty : IntTy) (a b : Z) : M S E Ev Z :=
  expect (checked_sub ty a b) "attempt to subtract with overflow".
Definition plain_mul (ty : IntTy) (a b : Z) : M S E Ev Z :=
  expect (checked_mul ty a b) "attempt to multiply with overflow".

(** [/] truncates towards zero; it panics on a zero divisor. *)
Definition plain_div (ty : IntTy) (a b : Z) : M S E Ev Z :=
  if b =? 0 then panic "attempt to divide by zero"
  else expect (checked ty (a `quot` b)) "attempt to divide with overflow".
(** [abs] panics on the least value. *)
Definition plain_abs (ty : IntTy) (a : Z) : M S E Ev Z :=
  expect (checked ty (Z.abs a)) "attempt to negate with overflow".

(** [env.storage().instance().get/set]: a contract's storage is the record
    [S]; a read is a projection and a write a record update. *)
Definition gets {A} (f : S → A) : M S E Ev A := λ _ w, Ok (f (store w), w).
Definition modify (f : S → S) : M S E Ev () := λ _ w,
  Ok (tt, {| w with store := f (store w) |}).

Definition now : M S E Ev Z := λ e w, Ok (timestamp e, w).
Definition ledger_sequence : M S E Ev Z := λ e w, Ok (sequence e, w).
Definition self_address : M S E Ev Address := λ e w, Ok (current_contract_address e, w).
Definition require_auth (a : Address) : M S E Ev () := λ e w,
  if authorized e a then Ok (tt, w) else Panic "unauthorized".
Definition publish (ev : Ev) : M S E Ev () := λ _ w,
  Ok (tt, {| w with log := log w ++ [ev] |}).

(** [TokenClient::transfer], [transfer_from], [balance], [allowance]. *)
Definition token_transfer (tk from to : Address) (amount : Z) : M S E Ev () := λ e w,
  match tok_transfer e (ledger w) tk from to amount with
  | Some l' => Ok (tt, {| w with ledger := l' |})
  | None => Panic "token trap"
  end.
Definition token_transfer_from (tk spender from to : Address) (amount : Z) : M S E Ev () := λ e w,
  match tok_transfer_from e (ledger w) tk spender from to amount with
  | Some l' => Ok (tt, {| w with ledger := l' |})
  | None => Panic "token trap"
  end.
Definition token_balance (tk a : Address) : M S E Ev Z := λ _ w,
  Ok (tok_balance (ledger w) tk a, w).
Definition token_allowance (tk owner spender : Address) : M S E Ev Z := λ _ w,
  Ok (tok_allowance (ledger w) tk owner spender, w).

(** [Env::invoke_contract]: another contract runs on the rest of the ledger; its
    trap is the caller's. *)
Definition invoke {A} (f : Env → Ledger → option (A * Ledger)) : M S E Ev A := λ e w,
  match f e (ledger w) with
  | Some (a, l') => Ok (a, {| w with ledger := l' |})
  | None => Panic "callee trap"
  end.

(** Loops over a vector, with and without an accumulator. *)
Fixpoint foldM {A B} (f : B → A → M S E Ev B) (b : B) (l : list A) : M S E Ev B :=
  match l with
  | [] => mret b
  | a :: l' => b' ← f b a; foldM f b' l'
  end.

(** *** Inversion: what a successful run says *)

Lemma bind_Ok {A B} (m : M S E Ev A) (k : A → M S E Ev B) e w b w' :
  (m ≫= k) e w = Ok (b, w') ↔ ∃ a w1, m e w = Ok (a, w1) ∧ k a e w1 = Ok (b, w').
Proof.
  unfold mbind, M_bind. destruct (m e w) as [[a w1]|x|msg].
  - split; [eauto|]. by intros (a' & w1' & ? & ?); simplify_eq.
  - split; [done|]. by intros (a' & w1' & ? & ?).
  - split; [done|]. by intros (a' & w1' & ? & ?).
Qed.

Lemma bind_run {A B} (m : M S E Ev A) (k : A → M S E Ev B) e w a w1 :
  m e w = Ok (a, w1) → (m ≫= k) e w = k a e w1.
Proof. intros Hm. unfold mbind, M_bind. by rewrite Hm. Qed.

Lemma ret_Ok {A} (a b : A) e (w w' : World S Ev) :
  (mret a : M S E Ev A) e w = Ok (b, w') ↔ b = a ∧ w' = w.
Proof. unfold mret, M_ret. naive_solver. Qed.

Lemma panic_if_Ok c msg e (w w' : World S Ev) u :
  (panic_if c msg : M S E Ev ()) e w = Ok (u, w') ↔ c = false ∧ w' = w.
Proof. unfold panic_if. destruct c, u; naive_solver. Qed.

Lemma throw_if_Ok c x e (w w' : World S Ev) u :
  throw_if c x e w = Ok (u, w') ↔ c = false ∧ w' = w.
Proof. unfold throw_if. destruct c, u; naive_solver. Qed.

Lemma expect_Ok {A} (o : option A) msg e (w w' : World S Ev) a :
  (expect o msg : M S E Ev A) e w = Ok (a, w') ↔ o = Some a ∧ w' = w.
Proof. unfold expect. destruct o; naive_solver. Qed.

Lemma ok_or_Ok {A} (o : option A) x e (w w' : World S Ev) a :
  ok_or o x e w = Ok (a, w') ↔ o = Some a ∧ w' = w.
Proof. unfold ok_or. destruct o; naive_solver. Qed.

Lemma plain_div_Ok ty a b e (w w' : World S Ev) c :
  (plain_div ty a b : M S E Ev Z) e w = Ok (c, w') ↔ b ≠ 0 ∧ checked ty (a `quot` b) = Some c ∧ w' = w.
Proof.
  unfold plain_div. destruct (b =? 0) eqn:Hb; zbool.
  - unfold panic. naive_solver.
  - rewrite expect_Ok. naive_solver.
Qed.

Lemma gets_Ok {A} (f : S → A) e (w w' : World S Ev) a :
  (gets f : M S E Ev A) e w = Ok (a, w') ↔ a = f (store w) ∧ w' = w.
Proof. unfold gets. naive_solver. Qed.

Lemma modify_Ok (f : S → S) e (w w' : World S Ev) u :
  (modify f : M S E Ev ()) e w = Ok (u, w') ↔
  w' = {| w with store := f (store w) |}.
Proof. unfold modify. destruct u; naive_solver. Qed.

Lemma now_Ok e (w w' : World S Ev) t :
  (now : M S E Ev Z) e w = Ok (t, w') ↔ t = timestamp e ∧ w' = w.
Proof. unfold now. naive_solver. Qed.

Lemma ledger_sequence_Ok e (w w' : World S Ev) n :
  (ledger_sequence : M S E Ev Z) e w = Ok (n, w') ↔ n = sequence e ∧ w' = w.
Proof. unfold ledger_sequence. naive_solver. Qed.

Lemma self_address_Ok e (w w' : World S Ev) a :
  (self_address : M S E Ev Address) e w = Ok (a, w') ↔
  a = current_contract_address e ∧ w' = w.
Proof. unfold self_address. naive_solver. Qed.

Lemma require_auth_Ok a e (w w' : World S Ev) u :
  (require_auth a : M S E Ev ()) e w = Ok (u, w') ↔ authorized e a = true ∧ w' = w.
Proof. unfold require_auth. destruct (authorized e a), u; naive_solver. Qed.

Lemma publish_Ok ev e (w w' : World S Ev) u :
  (publish ev : M S E Ev ()) e w = Ok (u, w') ↔ w' = {| w with log := log w ++ [ev] |}.
Proof. unfold publish. destruct u; naive_solver. Qed.

Lemma token_transfer_Ok tk from to amount e (w w' : World S Ev) u :
  (token_transfer tk from to amount : M S E Ev ()) e w = Ok (u, w') ↔
  ∃ l', tok_transfer e (ledger w) tk from to amount = Some l' ∧ w' = {| w with ledger := l' |}.
Proof.
  unfold token_transfer. destruct (tok_transfer _ _ _ _ _ _), u; naive_solver.
Qed.

Lemma token_transfer_from_Ok tk sp from to amount e (w w' : World S Ev) u :
  (token_transfer_from tk sp from to amount : M S E Ev ()) e w = Ok (u, w') ↔
  ∃ l', tok_transfer_from e (ledger w) tk sp from to amount = Some l' ∧
        w' = {| w with ledger := l' |}.
Proof.
  unfold token_transfer_from. destruct (tok_transfer_from _ _ _ _ _ _ _), u; naive_solver.
Qed.

Lemma invoke_Ok {A} (f : Env → Ledger → option (A * Ledger)) e (w w' : World S Ev) a :
  (invoke f : M S E Ev A) e w = Ok (a, w') ↔ ∃ l', f e (ledger w) = Some (a, l') ∧ w' = {| w with ledger := l' |}.
Proof. unfold invoke. destruct (f e (ledger w)) as [[b l]|]; naive_solver. Qed.

Lemma token_balance_Ok tk a e (w w' : World S Ev) z :
  (token_balance tk a : M S E Ev Z) e w = Ok (z, w') ↔
  z = tok_balance (ledger w) tk a ∧ w' = w.
Proof. unfold token_balance. naive_solver. Qed.

Lemma token_allowance_Ok tk a b e (w w' : World S Ev) z :
  (token_allowance tk a b : M S E Ev Z) e w = Ok (z, w') ↔
  z = tok_allowance (ledger w) tk a b ∧ w' = w.
Proof. unfold token_allowance. naive_solver. Qed.

(** A relation preserved by every iteration of a loop holds of the loop. *)
Lemma foldM_inv {A B} (f : B → A → M S E Ev B) (P : B → World S Ev → Prop) l e b w b' w' :
  foldM f b l e w = Ok (b', w') →
  P b w →
  (∀ a b w b' w', a ∈ l → P b w → f b a e w = Ok (b', w') → P b' w') →
  P b' w'.
Proof.
  revert b w. induction l as [|a l IH]; simpl; intros b w Hrun HP Hf.
  - by apply ret_Ok in Hrun as [-> ->].
  - apply bind_Ok in Hrun as (b1 & w1 & H1 & H2).
    eapply IH; [exact H2|eapply Hf; [|exact HP|exact H1]; set_solver|].
    intros; eapply Hf; eauto; set_solver.
Qed.

(** A loop whose body only reads leaves the world alone. *)
Lemma foldM_pure {A B} (f : B → A → M S E Ev B) l e b w b' w' :
  foldM f b l e w = Ok (b', w') →
  (∀ a b w b' w', f b a e w = Ok (b', w') → w' = w) → w' = w.
Proof.
  intros Hrun Hf. apply (foldM_inv _ (λ _ w0, w0 = w) _ _ _ _ _ _ Hrun); [done|].
  intros a b0 w0 b1 w1 _ -> Hone. by eapply Hf.
Qed.

Lemma foldM_app {A B} (f : B → A → M S E Ev B) l1 l2 b e w b1 w1 :
  foldM f b l1 e w = Ok (b1, w1) → foldM f b (l1 ++ l2) e w = foldM f b1 l2 e w1.
Proof.
  revert b w. induction l1 as [|a l1 IH]; intros b w Hr; simpl in *.
  - by apply ret_Ok in Hr as [-> ->].
  - apply bind_Ok in Hr as (b2 & w2 & H1 & H2). rewrite (bind_run _ _ _ _ _ _ H1). by apply IH.
Qed.

(** Two loops of queries whose rounds answer alike, each in its own world. *)
Lemma foldM_replay {A B} (f g : B → A → M S E Ev B) l e b w1 w2 b' w' :
  foldM f b l e w1 = Ok (b', w') →
  (∀ a b b' w', a ∈ l → f b a e w1 = Ok (b', w') → w' = w1 ∧ g b a e w2 = Ok (b', w2)) →
  w' = w1 ∧ foldM g b l e w2 = Ok (b', w2).
Proof.
  revert b. induction l as [|a l IH]; intros b Hr Hfg; simpl in *.
  - by apply ret_Ok in Hr as [-> ->].
  - apply bind_Ok in Hr as (b1 & w3 & H1 & H2).
    destruct (Hfg a b b1 w3) as [-> Hg]; [left|done|]. rewrite (bind_run _ _ _ _ _ _ Hg).
    apply IH; [done|]. intros a' c c' w4 Ha. apply Hfg. by right.
Qed.
(** *** Computations that read nothing of the environment but the time

    Such a computation asks for no signature. *)

Definition time_only {A} (m : M S E Ev A) : Prop :=
  ∀ e e' w, timestamp e = timestamp e' → m e w = m e' w.

Lemma time_only_bind {A B} (m : M S E Ev A) (k : A → M S E Ev B) :
  time_only m → (∀ a, time_only (k a)) → time_only (m ≫= k).
Proof.
  intros Hm Hk e e' w Ht. unfold mbind, M_bind. rewrite (Hm e e' w Ht).
  destruct (m e' w) as [[a w1]| |]; [by apply Hk|done|done].
Qed.

Lemma time_only_if {A} (c : bool) (m1 m2 : M S E Ev A) :
  time_only m1 → time_only m2 → time_only (if c then m1 else m2).
Proof. by destruct c. Qed.

Lemma time_only_ret {A} (a : A) : time_only (mret a).
Proof. done. Qed.
Lemma time_only_panic_if c msg : time_only (panic_if c msg).
Proof. done. Qed.
Lemma time_only_expect {A} (o : option A) msg : time_only (expect o msg).
Proof. done. Qed.
Lemma time_only_gets {A} (f : S → A) : time_only (gets f).
Proof. done. Qed.
Lemma time_only_modify f : time_only (modify f).
Proof. done. Qed.
Lemma time_only_publish ev : time_only (publish ev).
Proof. done. Qed.
Lemma time_only_now : time_only now.
Proof. intros e e' w Ht. unfold now. by rewrite Ht. Qed.

(** *** Queries: computations that write nothing, and whose answer is the same
    in every storage that [R] relates to the one they ran in. *)

Definition reads (R : S → S → Prop) {A} (m : M S E Ev A) : Prop :=
  ∀ e w1 w2 a w', R (store w1) (store w2) → m e w1 = Ok (a, w') → w' = w1 ∧ m e w2 = Ok (a, w2).

Section reads.
Context (R : S → S → Prop).

Lemma reads_bind {A B} (m : M S E Ev A) (k : A → M S E Ev B) :
  reads R m → (∀ a, reads R (k a)) → reads R (m ≫= k).
Proof.
  intros Hm Hk e w1 w2 b w' HR Hr. apply bind_Ok in Hr as (a & w3 & H1 & H2).
  destruct (Hm _ _ _ _ _ HR H1) as [-> H1']. destruct (Hk a _ _ _ _ _ HR H2) as [-> H2'].
  split; [done|]. by rewrite (bind_run _ _ _ _ _ _ H1').
Qed.

Lemma reads_ret {A} (a : A) : reads R (mret a).
Proof. intros e w1 w2 b w' _ Hr. apply ret_Ok in Hr as [-> ->]. done. Qed.
Lemma reads_if {A} (c : bool) (m1 m2 : M S E Ev A) :
  reads R m1 → reads R m2 → reads R (if c then m1 else m2).
Proof. by destruct c. Qed.
Lemma reads_option {A B} (o : option A) (k : A → M S E Ev B) m :
  (∀ a, reads R (k a)) → reads R m → reads R (match o with Some a => k a | None => m end).
Proof. by destruct o. Qed.
Lemma reads_panic {A} msg : reads R (panic msg : M S E Ev A).
Proof. done. Qed.
Lemma reads_panic_if c msg : reads R (panic_if c msg).
Proof. intros e w1 w2 b w' _ Hr. apply panic_if_Ok in Hr as [-> ->]. by destruct b. Qed.
Lemma reads_expect {A} (o : option A) msg : reads R (expect o msg).
Proof. intros e w1 w2 b w' _ Hr. apply expect_Ok in Hr as [-> ->]. done. Qed.
Lemma reads_now : reads R now.
Proof. intros e w1 w2 b w' _ Hr. apply now_Ok in Hr as [-> ->]. done. Qed.
Lemma reads_sequence : reads R ledger_sequence.
Proof. intros e w1 w2 b w' _ Hr. apply ledger_sequence_Ok in Hr as [-> ->]. done. Qed.
Lemma reads_throw_if c x : reads R (throw_if c x).
Proof. intros e w1 w2 b w' _ Hr. apply throw_if_Ok in Hr as [-> ->]. by destruct b. Qed.
Lemma reads_ok_or {A} (o : option A) x : reads R (ok_or o x).
Proof. intros e w1 w2 b w' _ Hr. apply ok_or_Ok in Hr as [-> ->]. done. Qed.
Lemma reads_plain_add ty a b : reads R (plain_add ty a b).
Proof. apply reads_expect. Qed.
Lemma reads_plain_sub ty a b : reads R (plain_sub ty a b).
Proof. apply reads_expect. Qed.
Lemma reads_plain_mul ty a b : reads R (plain_mul ty a b).
Proof. apply reads_expect. Qed.
Lemma reads_plain_div ty a b : reads R (plain_div ty a b).
Proof. unfold plain_div. apply reads_if; [apply reads_panic|apply reads_expect]. Qed.
Lemma reads_gets {A} (f : S → A) : (∀ s1 s2, R s1 s2 → f s1 = f s2) → reads R (gets f).
Proof.
  intros Hf e w1 w2 b w' HR Hr. apply gets_Ok in Hr as [-> ->]. split; [done|].
  unfold gets. by rewrite (Hf _ _ HR).
Qed.
Lemma reads_foldM {A B} (f : B → A → M S E Ev B) l b :
  (∀ b a, reads R (f b a)) → reads R (foldM f b l).
Proof.
  intros Hf. revert b. induction l as [|a l IH]; intros b; simpl; [apply reads_ret|].
  apply reads_bind; [apply Hf|done].
Qed.
End reads.

(** *** Frames: computations that leave a part of the storage alone *)

Definition keeps {A B} (f : S → B) (m : M S E Ev A) : Prop :=
  ∀ e w a w', m e w = Ok (a, w') → f (store w') = f (store w).

Section keeps.
Context {B : Type} (f : S → B).

Lemma keeps_bind {A A'} (m : M S E Ev A) (k : A → M S E Ev A') :
  keeps f m → (∀ a, keeps f (k a)) → keeps f (m ≫= k).
Proof.
  intros Hm Hk e w a w' Hr. apply bind_Ok in Hr as (a1 & w1 & H1 & H2).
  by rewrite (Hk a1 _ _ _ _ H2), (Hm _ _ _ _ H1).
Qed.
Lemma keeps_reads {A} (m : M S E Ev A) : reads eq m → keeps f m.
Proof. intros Hm e w a w' Hr. by destruct (Hm _ _ w _ _ eq_refl Hr) as [-> _]. Qed.
Lemma keeps_modify g : (∀ s, f (g s) = f s) → keeps f (modify g).
Proof. intros Hg e w a w' Hr. apply modify_Ok in Hr as ->. apply Hg. Qed.
Lemma keeps_publish ev : keeps f (publish ev).
Proof. intros e w a w' Hr. by apply publish_Ok in Hr as ->. Qed.
Lemma keeps_transfer tk from to n : keeps f (token_transfer tk from to n).
Proof. intros e w a w' Hr. by apply token_transfer_Ok in Hr as (l & _ & ->). Qed.
Lemma keeps_transfer_from tk sp from to n : keeps f (token_transfer_from tk sp from to n).
Proof. intros e w a w' Hr. by apply token_transfer_from_Ok in Hr as (l & _ & ->). Qed.
Lemma keeps_invoke {A} (g : Env → Ledger → option (A * Ledger)) : keeps f (invoke g).
Proof. intros e w a w' Hr. by apply invoke_Ok in Hr as (l & _ & ->). Qed.
Lemma keeps_balance tk a : keeps f (token_balance tk a).
Proof. intros e w b w' Hr. by apply token_balance_Ok in Hr as [_ ->]. Qed.
Lemma keeps_self : keeps f self_address.
Proof. intros e w b w' Hr. by apply self_address_Ok in Hr as [_ ->]. Qed.
Lemma keeps_auth a : keeps f (require_auth a).
Proof. intros e w b w' Hr. by apply require_auth_Ok in Hr as [_ ->]. Qed.
Lemma keeps_throw_if c x : keeps f (throw_if c x).
Proof. intros e w b w' Hr. by apply throw_if_Ok in Hr as [_ ->]. Qed.
Lemma keeps_ok_or {A} (o : option A) x : keeps f (ok_or o x).
Proof. intros e w b w' Hr. by apply ok_or_Ok in Hr as [_ ->]. Qed.
Lemma keeps_throw {A} x : keeps f (throw x : M S E Ev A).
Proof. done. Qed.
Lemma keeps_if {A} (c : bool) (m1 m2 : M S E Ev A) :
  keeps f m1 → keeps f m2 → keeps f (if c then m1 else m2).
Proof. by destruct c. Qed.
Lemma keeps_option {A A'} (o : option A) (k : A → M S E Ev A') m :
  (∀ a, keeps f (k a)) → keeps f m → keeps f (match o with Some a => k a | None => m end).
Proof. by destruct o. Qed.
Lemma keeps_foldM {A A'} (g : A' → A → M S E Ev A') l b :
  (∀ b a, keeps f (g b a)) → keeps f (foldM g b l).
Proof.
  intros Hg. revert b. induction l as [|a l IH]; intros b; simpl.
  - apply keeps_reads, reads_ret.
  - apply keeps_bind; [apply Hg|done].
Qed.
End keeps.

(** A query that ran left the world as it was. *)
Lemma reads_pure {A} (m : M S E Ev A) e w a w' :
  reads eq m → m e w = Ok (a, w') → w' = w.
Proof. intros Hm Hr. by destruct (Hm _ _ w _ _ eq_refl Hr). Qed.
End monad.

#[export] Hint Resolve reads_bind reads_ret reads_if reads_option reads_panic reads_panic_if
  reads_expect reads_now reads_sequence reads_throw_if reads_ok_or
  reads_plain_add reads_plain_sub reads_plain_mul reads_plain_div
  reads_gets reads_foldM : contracts.

(** [frame]: a computation built of the operations above keeps a part of the
    storage that none of its writes touches. *)
Ltac frame_step :=
  lazymatch goal with
  | |- keeps _ (_ ≫= _) => apply keeps_bind; [|intros ?]
  | |- keeps _ (if _ then _ else _) => apply keeps_if
  | |- keeps _ (match _ with Some _ => _ | None => _ end) => apply keeps_option; [intros ?|]
  | |- keeps _ (match ?p with (_, _) => _ end) => destruct p
  | |- keeps _ (let _ := _ in _) => cbv zeta
  | |- keeps _ (modify _) => apply keeps_modify; intros ?; reflexivity
  | |- keeps _ (publish _) => apply keeps_publish
  | |- keeps _ (token_transfer _ _ _ _) => apply keeps_transfer
  | |- keeps _ (token_transfer_from _ _ _ _ _) => apply keeps_transfer_from
  | |- keeps _ (invoke _) => apply keeps_invoke
  | |- keeps _ (token_balance _ _) => apply keeps_balance
  | |- keeps _ self_address => apply keeps_self
  | |- keeps _ (require_auth _) => apply keeps_auth
  | |- keeps _ (throw_if _ _) => apply keeps_throw_if
  | |- keeps _ (ok_or _ _) => apply keeps_ok_or
  | |- keeps _ (throw _) => apply keeps_throw
  | |- keeps _ (foldM _ _ _) => apply keeps_foldM; intros ? ?
  | |- keeps _ (gets _) => apply keeps_reads, reads_gets; by intros ? ? ->
  | |- keeps _ _ => first [by auto with contracts | apply keeps_reads; by auto with contracts]
  end.
Ltac frame := intros; repeat frame_step.

#[export] Hint Resolve time_only_bind time_only_if time_only_ret time_only_panic_if time_only_expect
  time_only_gets time_only_modify time_only_publish time_only_now : contracts.

(** [minv H]: decompose a successful run into the facts that made it
    succeed, stopping at the calls it does not know.  [mred] reduces the
    projections of record values; each contract extends it with its own
    records, so that a chain of record updates stays small. *)
Ltac mred v := eval cbn [store ledger log] in v.
Ltac msimpl H :=
  let T := type of H in let T' := mred T in change T' in H; cbv beta in H.

Ltac msplit H := let Hw := fresh in destruct H as [H Hw]; msimpl H; msimpl Hw; simplify_eq.
Ltac mtoken H :=
  let l := fresh "l" in let Hw := fresh in
  destruct H as (l & H & Hw); msimpl H; msimpl Hw; simplify_eq.

Ltac minv_step H :=
  lazymatch type of H with
  | (_ ≫= _) _ _ = Ok (_, _) =>
      let a := fresh "a" in let w := fresh "w" in let H1 := fresh "Hr" in
      apply bind_Ok in H; destruct H as (a & w & H1 & H);
      lazymatch type of a with unit => destruct a | _ => idtac end;
      minv_step H1; minv_step H
  | mret _ _ _ = Ok (_, _) => apply ret_Ok in H; msplit H
  | panic_if _ _ _ _ = Ok (_, _) => apply panic_if_Ok in H; msplit H
  | throw_if _ _ _ _ = Ok (_, _) => apply throw_if_Ok in H; msplit H
  | expect _ _ _ _ = Ok (_, _) => apply expect_Ok in H; msplit H
  | ok_or _ _ _ _ = Ok (_, _) => apply ok_or_Ok in H; msplit H
  | gets _ _ _ = Ok (_, _) => apply gets_Ok in H; msplit H
  | modify _ _ _ = Ok (_, _) => apply modify_Ok in H; msimpl H; simplify_eq
  | publish _ _ _ = Ok (_, _) => apply publish_Ok in H; msimpl H; simplify_eq
  | now _ _ = Ok (_, _) => apply now_Ok in H; msplit H
  | ledger_sequence _ _ = Ok (_, _) => apply ledger_sequence_Ok in H; msplit H
  | self_address _ _ = Ok (_, _) => apply self_address_Ok in H; msplit H
  | require_auth _ _ _ = Ok (_, _) => apply require_auth_Ok in H; msplit H
  | token_transfer _ _ _ _ _ _ = Ok (_, _) => apply token_transfer_Ok in H; mtoken H
  | token_transfer_from _ _ _ _ _ _ _ = Ok (_, _) =>
      apply token_transfer_from_Ok in H; mtoken H
  | invoke _ _ _ = Ok (_, _) => apply invoke_Ok in H; mtoken H
  | token_balance _ _ _ _ = Ok (_, _) => apply token_balance_Ok in H; msplit H
  | token_allowance _ _ _ _ _ = Ok (_, _) => apply token_allowance_Ok in H; msplit H
  | plain_add _ _ _ _ _ = Ok (_, _) => unfold plain_add in H; apply expect_Ok in H; msplit H
  | plain_sub _ _ _ _ _ = Ok (_, _) => unfold plain_sub in H; apply expect_Ok in H; msplit H
  | plain_mul _ _ _ _ _ = Ok (_, _) => unfold plain_mul in H; apply expect_Ok in H; msplit H
  | plain_div _ _ _ _ _ = Ok (_, _) =>
      let Hb := fresh "Hdiv" in apply plain_div_Ok in H; destruct H as [Hb H]; msplit H
  | plain_abs _ _ _ _ = Ok (_, _) => unfold plain_abs in H; apply expect_Ok in H; msplit H
  | panic _ _ _ = Ok (_, _) => discriminate H
  | throw _ _ _ = Ok (_, _) => discriminate H
  | (if ?c then _ else _) _ _ = Ok (_, _) =>
      let Hc := fresh "Hc" in destruct c eqn:Hc; minv_step H
  | (match ?o with Some _ => _ | None => _ end) _ _ = Ok (_, _) =>
      let Ho := fresh "Ho" in destruct o eqn:Ho; minv_step H
  | (match ?p with (_, _) => _ end) _ _ = Ok (_, _) =>
      let Hp := fresh "Hp" in
      first [is_var p; destruct p | destruct p eqn:Hp]; minv_step H
  | (let x := ?v in @?b x) ?e ?w = ?r =>
      let v' := mred v in change (b v' e w = r) in H; cbv beta in H; minv_step H
  | Ok (_, _) = Ok (_, _) => simplify_eq
  | _ => msimpl H
  end.
Tactic Notation "minv" hyp(H) := minv_step H.
Tactic Notation "minv" hyp(H) "using" reference(f) := unfold f in H; minv H.

(** ** Transactions

    A contract's life is a sequence of transactions.  A call runs one entry
    point in an environment whose time is not before the previous one's; a
    call that panics or returns an error changes nothing.  Between calls other
    contracts move tokens; none of them can spend this contract's balance,
    because a contract's own address authorizes only what that contract calls. *)

Record wf_env (self : Address) (e : Env) : Prop := {
  wf_self : current_contract_address e = self;
  wf_time : 0 ≤ timestamp e ≤ int_max U64;
  (* the host refuses re-entrant calls, so a contract never signs for itself *)
  wf_auth : authorized e self = false;
  wf_sequence : 0 ≤ sequence e ≤ int_max U32;
}.

Lemma wf_auth_ne self e a : wf_env self e → authorized e a = true → a ≠ self.
Proof. intros [_ _ Hself _] Ha ->. congruence. Qed.
#[export] Hint Resolve wf_auth_ne : contracts.

Section system.
Context `{TokenHost} {S E Ev Call : Type}.
Context (exec : Call → M S E Ev ()) (call_ok : Call → Prop) (self : Address).

Inductive step : Z * World S Ev → Z * World S Ev → Prop :=
| step_call t c e w w' :
    wf_env self e → t ≤ timestamp e → call_ok c →
    exec c e w = Ok (tt, w') →
    step (t, w) (timestamp e, w')
| step_other t t' w l' :
    t ≤ t' →
    (∀ tk, tok_balance (ledger w) tk self ≤ tok_balance l' tk self) →
    step (t, w) (t', {| w with ledger := l' |}).

(** An invariant of the calls that survives the passage of time and outside
    token movements holds in every reachable world. *)
Lemma reach_inv_world (P : Z → World S Ev → Prop) :
  (∀ t c e w w', wf_env self e → t ≤ timestamp e → call_ok c →
     P t w → exec c e w = Ok (tt, w') → P (timestamp e) w') →
  (∀ t t' w l', t ≤ t' → (∀ tk, tok_balance (ledger w) tk self ≤ tok_balance l' tk self) →
     P t w → P t' {| w with ledger := l' |}) →
  ∀ c1 c2, rtc step c1 c2 → P c1.1 c1.2 → P c2.1 c2.2.
Proof.
  intros Hcall Hother c1 c2 Hsteps. induction Hsteps as [c|c1 c2 c3 Hstep _ IH]; [done|].
  intros HP. apply IH. destruct Hstep; simpl in *; eauto.
Qed.

(** The same for an invariant of the storage and the ledger alone. *)
Lemma reach_inv (P : Z → S → Ledger → Prop) :
  (∀ t c e w w', wf_env self e → t ≤ timestamp e → call_ok c →
     P t (store w) (ledger w) → exec c e w = Ok (tt, w') →
     P (timestamp e) (store w') (ledger w')) →
  (∀ t t' s l l', t ≤ t' → (∀ tk, tok_balance l tk self ≤ tok_balance l' tk self) →
     P t s l → P t' s l') →
  ∀ c1 c2, rtc step c1 c2 →
  P c1.1 (store c1.2) (ledger c1.2) → P c2.1 (store c2.2) (ledger c2.2).
Proof.
  intros Hcall Hother. apply (reach_inv_world (λ t w, P t (store w) (ledger w))); [done|].
  simpl. eauto.
Qed.
End system.

(** ** Restricted histories

    The histories in which every call is one that [allowed] accepts in the
    storage it meets.  A contract that can be used before it is initialized, and
    whose initialization resets a counter, is only correct when nothing was
    created before that reset; [allowed] says so, and no more. *)

Section restricted.
Context `{TokenHost} {S E Ev Call : Type}.
Context (exec : Call → M S E Ev ()) (call_ok : Call → Prop) (allowed : Call → S → bool) (self : Address).

Inductive step_in : Z * World S Ev → Z * World S Ev → Prop :=
| step_in_call t c e w w' :
    wf_env self e → t ≤ timestamp e → call_ok c → allowed c (store w) = true →
    exec c e w = Ok (tt, w') →
    step_in (t, w) (timestamp e, w')
| step_in_other t t' w l' :
    t ≤ t' →
    (∀ tk, tok_balance (ledger w) tk self ≤ tok_balance l' tk self) →
    step_in (t, w) (t', {| w with ledger := l' |}).

Lemma reach_in_inv_world (P : Z → World S Ev → Prop) :
  (∀ t c e w w', wf_env self e → t ≤ timestamp e → call_ok c → allowed c (store w) = true →
     P t w → exec c e w = Ok (tt, w') → P (timestamp e) w') →
  (∀ t t' w l', t ≤ t' → (∀ tk, tok_balance (ledger w) tk self ≤ tok_balance l' tk self) →
     P t w → P t' {| w with ledger := l' |}) →
  ∀ c1 c2, rtc step_in c1 c2 → P c1.1 c1.2 → P c2.1 c2.2.
Proof.
  intros Hcall Hother c1 c2 Hsteps. induction Hsteps as [c|c1 c2 c3 Hstep _ IH]; [done|].
  intros HP. apply IH. destruct Hstep; simpl in *; eauto.
Qed.
End restricted.

Definition discard `{TokenHost} {S E Ev A} (m : M S E Ev A) : M S E Ev () := m;; mret tt.

Lemma discard_Ok `{TokenHost} {S E Ev A} (m : M S E Ev A) e w u w' :
  discard m e w = Ok (u, w') ↔ ∃ a, m e w = Ok (a, w').
Proof.
  unfold discard. rewrite bind_Ok. split.
  - intros (a & w1 & Hm & Hr). apply ret_Ok in Hr as [_ ->]. eauto.
  - intros (a & Hm). exists a, w'. split; [done|]. apply ret_Ok. by destruct u.
Qed.

(** ** Balances after a transfer *)

Section moved.
Context `{TokenHost}.

Lemma moved_in l l' tk from self n tk' :
  moved l l' tk from self n → from ≠ self →
  tok_balance l' tk' self = tok_balance l tk' self + (if bool_decide (tk' = tk) then n else 0).
Proof. intros Hm Hne. rewrite Hm. repeat case_bool_decide; naive_solver lia. Qed.

Lemma moved_out l l' tk self to n tk' :
  moved l l' tk self to n → to ≠ self →
  tok_balance l' tk' self = tok_balance l tk' self - (if bool_decide (tk' = tk) then n else 0).
Proof. intros Hm Hne. rewrite Hm. repeat case_bool_decide; naive_solver lia. Qed.

(** Whoever receives it, the contract loses at most [n]. *)
Lemma moved_out_ge l l' tk self to n tk' :
  moved l l' tk self to n → 0 ≤ n →
  tok_balance l tk' self - (if bool_decide (tk' = tk) then n else 0) ≤ tok_balance l' tk' self.
Proof. intros Hm Hn. rewrite Hm. repeat case_bool_decide; naive_solver lia. Qed.
End moved.

(** [arith]: read the checked operations and the boolean tests of a run as
    arithmetic facts. *)
Ltac inv_checked :=
  repeat match goal with
  | H : checked_add _ _ _ = Some _ |- _ => apply checked_add_Some in H as [? H]
  | H : checked_sub _ _ _ = Some _ |- _ => apply checked_sub_Some in H as [? H]
  | H : checked_mul _ _ _ = Some _ |- _ => apply checked_mul_Some in H as [? H]
  | H : checked _ _ = Some _ |- _ => apply checked_Some in H as [? H]
  end; simplify_eq.
Ltac arith := inv_checked; zbool; simplify_eq.

(** [spec lem as pat]: apply a specification lemma to the run it describes,
    wherever that run is in the context. *)
Tactic Notation "spec" uconstr(lem) "as" simple_intropattern(p) :=
  match goal with H : _ _ _ = Ok (_, _) |- _ => eapply lem in H as p end.
