(* ===== verification/TokenModel.v ===== *)
(** * A concrete token ledger

    The contracts are modelled over any [TokenHost]; this file gives one that
    satisfies [TokenLaws]: balances in a finite map, transfers that need the
    sender's authorization (or the sender to be the calling contract) and a
    sufficient balance.  Concrete runs of the contracts use it. *)

From stdpp Require Import gmap strings list fin_maps.
From S2P Require Import Prelude Soroban.
Open Scope Z_scope.

Record SimpleLedger := mkSimpleLedger {
  sl_balances : gmap (Address * Address) Z;
  sl_allowances : gmap (Address * Address * Address) Z;
}.

Definition sl_balance (l : SimpleLedger) (tk a : Address) : Z :=
  default 0 (sl_balances l !! (tk, a)).

Definition sl_allowance (l : SimpleLedger) (tk owner spender : Address) : Z :=
  default 0 (sl_allowances l !! (tk, owner, spender)).

Definition sl_credit (l : SimpleLedger) (tk a : Address) (d : Z) : SimpleLedger :=
  {| l with sl_balances := <[(tk, a) := sl_balance l tk a + d]> (sl_balances l) |}.

Definition sl_move (l : SimpleLedger) (tk from to : Address) (amount : Z) : option SimpleLedger :=
  if (amount <? 0) || (sl_balance l tk from <? amount) then None
  else Some (sl_credit (sl_credit l tk from (- amount)) tk to amount).

Definition sl_transfer (e : Env) (l : SimpleLedger) (tk from to : Address) (amount : Z)
    : option SimpleLedger :=
  if authorized e from || bool_decide (from = current_contract_address e)
  then sl_move l tk from to amount else None.

Definition sl_transfer_from (e : Env) (l : SimpleLedger) (tk sp from to : Address) (amount : Z)
    : option SimpleLedger :=
  if sl_allowance l tk from sp <? amount then None
  else
    l' ← sl_move l tk from to amount;
    Some {| l' with sl_allowances :=
      <[(tk, from, sp) := sl_allowance l tk from sp - amount]> (sl_allowances l') |}.

#[global] Instance simple_tokens : TokenHost := {|
  Ledger := SimpleLedger;
  tok_balance := sl_balance;
  tok_allowance := sl_allowance;
  tok_transfer := sl_transfer;
  tok_transfer_from := sl_transfer_from;
|}.

Lemma sl_balance_credit l tk a d tk' a' :
  sl_balance (sl_credit l tk a d) tk' a' =
  sl_balance l tk' a' + (if bool_decide (tk' = tk ∧ a' = a) then d else 0).
Proof.
  unfold sl_credit, sl_balance at 1; cbn [sl_balances].
  rewrite lookup_insert. case_decide as Hd; case_bool_decide as Hb; simplify_eq; simpl.
  - done.
  - naive_solver.
  - naive_solver.
  - unfold sl_balance. lia.
Qed.

Lemma sl_move_moved l tk from to amount l' :
  sl_move l tk from to amount = Some l' → 0 ≤ amount ∧ @moved simple_tokens l l' tk from to amount.
Proof.
  unfold sl_move. destruct (amount <? 0) eqn:E1, (sl_balance l tk from <? amount) eqn:E2;
    simpl; intros; simplify_eq. zbool. split; [done|].
  intros tk' a. cbn. rewrite !sl_balance_credit. repeat case_bool_decide; lia.
Qed.

#[global] Instance simple_token_laws : TokenLaws.
Proof.
  split; cbn.
  - intros e l tk from to amount l' Ht. unfold sl_transfer in Ht. case_match; [|done].
    by apply sl_move_moved in Ht as [_ ?].
  - intros e l tk from to amount l' Ht. unfold sl_transfer in Ht. case_match; [|done].
    by apply sl_move_moved in Ht as [? _].
  - intros e l tk sp from to amount l' Ht. unfold sl_transfer_from in Ht. case_match; [done|].
    apply bind_Some in Ht as (l1 & Hm & Hl). simplify_eq/=.
    apply sl_move_moved in Hm as [_ Hm]. exact Hm.
  - intros e l tk sp from to amount l' Ht. unfold sl_transfer_from in Ht. case_match; [done|].
    apply bind_Some in Ht as (l1 & Hm & Hl). by apply sl_move_moved in Hm as [? _].
Qed.

(** An environment in which the listed addresses have signed, in a given ledger
    or in the first one. *)
Definition env_in (t seq : Z) (self : Address) (signers : list Address) : Env :=
  mkEnv t self (λ a, bool_decide (a ∈ signers)) seq.
Definition env_at (t : Z) (self : Address) (signers : list Address) : Env := env_in t 0 self signers.

(** A ledger given by its balances, and the outcome of a run as a world. *)
Definition sl_of (l : list (Address * Address * Z)) : SimpleLedger :=
  mkSimpleLedger (foldr (λ '(tk, a, n) m, <[(tk, a) := n]> m) ∅ l) ∅.

Lemma sl_of_nonneg l tk a :
  forallb (λ '(_, _, n), 0 <=? n) l = true → 0 ≤ sl_balance (sl_of l) tk a.
Proof.
  unfold sl_of, sl_balance; cbn [sl_balances].
  induction l as [|[[tk0 a0] n] l IH]; simpl; intros Hl.
  - by rewrite lookup_empty.
  - zbool. rewrite lookup_insert. case_decide; simpl; auto.
Qed.

Definition world_of `{TokenHost} {S E Ev A} (o : Outcome E (A * World S Ev)) (d : World S Ev) : World S Ev :=
  match o with Ok (_, w) => w | _ => d end.

Definition value_of `{TokenHost} {S E Ev A} (o : Outcome E (A * World S Ev)) (d : A) : A :=
  match o with Ok (a, _) => a | _ => d end.

Definition is_ok {E A} (o : Outcome E A) : bool := match o with Ok _ => true | _ => false end.

(** A run that evaluates to [Ok] is [Ok] of its value and its world: evaluating
    the boolean is cheaper than normalizing both sides. *)
Lemma run_ok `{TokenHost} {S E Ev A} (o : Outcome E (A * World S Ev)) a w :
  is_ok o = true → o = Ok (value_of o a, world_of o w).
Proof. by destruct o as [[]| |]. Qed.

Lemma run_ok_unit `{TokenHost} {S E Ev} (o : Outcome E (() * World S Ev)) w :
  is_ok o = true → o = Ok (tt, world_of o w).
Proof. by destruct o as [[[] ?]| |]. Qed.

Lemma run_ok_val `{TokenHost} {S E Ev A} (o : Outcome E (A * World S Ev)) (a d : A) w :
  is_ok o = true → value_of o d = a → o = Ok (a, world_of o w).
Proof. intros Ho <-. by apply run_ok. Qed.

Lemma env_at_wf self t signers :
  (0 <=? t) && (t <=? int_max U64) && negb (bool_decide (self ∈ signers)) = true →
  wf_env self (env_at t self signers).
Proof. intros Hb. zbool. split; cbn; [done|done| |done]. by apply bool_decide_eq_false_2. Qed.

Lemma env_in_wf self t seq signers :
  (0 <=? t) && (t <=? int_max U64) && (0 <=? seq) && (seq <=? int_max U32)
    && negb (bool_decide (self ∈ signers)) = true →
  wf_env self (env_in t seq self signers).
Proof. intros Hb. zbool. split; cbn; [done|done| |done]. by apply bool_decide_eq_false_2. Qed.

(** ** Scripts

    A script is a list of calls with their times and signers.  A script whose
    calls all succeed, at times that do not decrease, is a path of the
    transaction system; that is decided by evaluation. *)

Section script.
Context `{TokenHost} {S E Ev Call : Type} (exec : Call → M S E Ev ()) (call_ok : Call → Prop) (self : Address).

Fixpoint run_script (cs : list (Z * list Address * Call)) (w : World S Ev) : World S Ev :=
  match cs with
  | [] => w
  | (t, signers, c) :: cs' => run_script cs' (world_of (exec c (env_at t self signers) w) w)
  end.

Fixpoint script_end (t0 : Z) (cs : list (Z * list Address * Call)) : Z :=
  match cs with
  | [] => t0
  | (t, _, _) :: cs' => script_end t cs'
  end.

Fixpoint script_ok (t0 : Z) (cs : list (Z * list Address * Call)) (w : World S Ev) : bool :=
  match cs with
  | [] => true
  | (t, signers, c) :: cs' =>
      let o := exec c (env_at t self signers) w in
      (t0 <=? t) && ((0 <=? t) && (t <=? int_max U64) && negb (bool_decide (self ∈ signers)))
      && is_ok o && script_ok t cs' (world_of o w)
  end.

Lemma run_script_reach t0 cs w :
  script_ok t0 cs w = true → Forall (λ c, call_ok c.2) cs →
  rtc (step exec call_ok self) (t0, w) (script_end t0 cs, run_script cs w).
Proof.
  revert t0 w. induction cs as [|[[t signers] c] cs IH]; intros t0 w Hok Hcs.
  - done.
  - cbn [script_ok] in Hok.
    apply andb_prop in Hok as [Hok Hrest]. apply andb_prop in Hok as [Hok Hrun].
    apply andb_prop in Hok as [Ht Hwf]. apply Z.leb_le in Ht.
    apply Forall_cons in Hcs as [Hc Hcs].
    eapply rtc_l; [|by apply IH].
    apply (step_call exec call_ok self t0 c (env_at t self signers)); [by apply env_at_wf|done|done|].
    by apply run_ok_unit.
Qed.

(** The same for the histories restricted by [allowed]. *)
Fixpoint script_allowed (allowed : Call → S → bool) (cs : list (Z * list Address * Call)) (w : World S Ev) : bool :=
  match cs with
  | [] => true
  | (t, signers, c) :: cs' =>
      allowed c (store w) && script_allowed allowed cs' (world_of (exec c (env_at t self signers) w) w)
  end.

Lemma run_script_reach_in allowed t0 cs w :
  script_ok t0 cs w = true → script_allowed allowed cs w = true → Forall (λ c, call_ok c.2) cs →
  rtc (step_in exec call_ok allowed self) (t0, w) (script_end t0 cs, run_script cs w).
Proof.
  revert t0 w. induction cs as [|[[t signers] c] cs IH]; intros t0 w Hok Hal Hcs; [done|].
  cbn [script_ok script_allowed] in Hok, Hal. apply andb_prop in Hal as [Hc' Hal].
  apply andb_prop in Hok as [Hok Hrest]. apply andb_prop in Hok as [Hok Hrun].
  apply andb_prop in Hok as [Ht Hwf]. apply Z.leb_le in Ht.
  apply Forall_cons in Hcs as [Hc Hcs].
  eapply rtc_l; [|by apply IH].
  apply (step_in_call exec call_ok allowed self t0 c (env_at t self signers)); [by apply env_at_wf|done..|].
  by apply run_ok_unit.
Qed.
End script.
