(* ===== verification/TokenVesting.v ===== *)
(** * contracts/token-vesting: linear vesting with cliffs

    State, operations, invariant and theorems of the [TokenVesting] contract
    (src/contracts/token-vesting/src/lib.rs). *)

From stdpp Require Import gmap strings list fin_maps.
From S2P Require Import Prelude Soroban TokenModel.
Open Scope Z_scope.

(** ** Data *)

Definition BPS_DENOMINATOR : Z := 10000.
Definition MAX_PENALTY_BPS : Z := 10000.
Definition MAX_BATCH_SIZE : Z := 50.

Record VestingSchedule := mkVestingSchedule {
  vs_schedule_id : Z;
  vs_token : Address;
  vs_funder : Address;
  vs_beneficiary : Address;
  vs_total_amount : Z;
  vs_claimed_amount : Z;
  vs_start_time : Z;
  vs_cliff_time : Z;
  vs_end_time : Z;
  vs_revocable : bool;
  vs_early_withdrawal_allowed : bool;
  vs_early_penalty_bps : Z;
  vs_active : bool;
  vs_created_at : Z;
  vs_updated_at : Z;
  vs_last_claimed_at : Z;
}.

Record EarlyWithdrawalResult := mkEarlyWithdrawalResult {
  ew_schedule_id : Z;
  ew_vested_paid : Z;
  ew_unvested_paid : Z;
  ew_penalty_amount : Z;
  ew_total_paid : Z;
}.

(** The contract's storage: one field per constructor of [DataKey]. *)
Record State := mkState {
  Admin : option Address;
  ScheduleCounter : option Z;
  Schedule : gmap Z VestingSchedule;
  BeneficiarySchedules : gmap Address (list Z);
  ReentrancyLock : option bool;
}.

Inductive Event :=
| vest_init (admin : Address)
| vest_bat (funder token : Address) (count total_amount : Z)
| vest_bcl (beneficiary : Address) (total_paid : Z)
| vest_ear (schedule_id : Z) (beneficiary : Address) (total_paid penalty_amount : Z)
    (funder : Address)
| vest_mod (schedule_id : Z) (admin : Address)
| vest_add (schedule_id : Z) (funder : Address) (additional_amount : Z)
| vest_rev (schedule_id : Z) (admin : Address) (refund_amount : Z)
| vest_new (schedule_id : Z) (funder beneficiary : Address) (total_amount : Z)
| vest_clm (schedule_id : Z) (beneficiary : Address) (claimable : Z).

Ltac mred v ::= eval cbn [store ledger log Admin ScheduleCounter Schedule BeneficiarySchedules
  ReentrancyLock vs_schedule_id vs_token vs_funder vs_beneficiary vs_total_amount
  vs_claimed_amount vs_start_time vs_cliff_time vs_end_time vs_revocable
  vs_early_withdrawal_allowed vs_early_penalty_bps vs_active vs_created_at vs_updated_at
  vs_last_claimed_at] in v.

Section contract.
Context `{TokenHost}.

Local Abbreviation C := (M State Empty_set Event).

(** ** Internal helpers *)

Definition validate_amount (amount : Z) : C () :=
  panic_if (amount <=? 0) "Amount must be positive".

Definition validate_penalty (penalty_bps : Z) : C () :=
  panic_if (penalty_bps >? MAX_PENALTY_BPS) "Penalty exceeds 100%".

Definition validate_timing (start_time cliff_duration_seconds duration_seconds : Z) : C () :=
  panic_if (duration_seconds =? 0) "Duration must be positive";;
  panic_if (cliff_duration_seconds >? duration_seconds) "Cliff cannot exceed duration";;
  expect (checked_add U64 start_time cliff_duration_seconds) "Cliff timestamp overflow";;
  expect (checked_add U64 start_time duration_seconds) "End timestamp overflow";;
  mret tt.

Definition admin : C Address :=
  a ← gets Admin; expect a "Contract not initialized".

Definition assert_admin (caller : Address) : C () :=
  a ← admin;
  panic_if (bool_decide (caller ≠ a)) "Unauthorized: caller is not admin".

Definition enter_non_reentrant : C () :=
  locked ← gets (λ s, default false (ReentrancyLock s));
  panic_if locked "Reentrant call blocked";;
  modify (λ s, {| s with ReentrancyLock := Some true |}).

Definition exit_non_reentrant : C () :=
  modify (λ s, {| s with ReentrancyLock := Some false |}).

Definition transfer_token_unchecked (token from to : Address) (amount : Z) : C () :=
  panic_if (amount <=? 0) "Transfer amount must be positive";;
  token_transfer token from to amount.

Definition transfer_token (token from to : Address) (amount : Z) : C () :=
  enter_non_reentrant;;
  transfer_token_unchecked token from to amount;;
  exit_non_reentrant.

Definition next_schedule_id : C Z :=
  current ← gets (λ s, default 0 (ScheduleCounter s));
  next ← expect (checked_add U64 current 1) "Schedule ID overflow";
  modify (λ s, {| s with ScheduleCounter := Some next |});;
  mret next.

Definition load_schedule (schedule_id : Z) : C VestingSchedule :=
  panic_if (schedule_id =? 0) "Invalid schedule ID";;
  o ← gets (λ s, Schedule s !! schedule_id);
  expect o "Schedule not found".

Definition beneficiary_schedule_ids (beneficiary : Address) : C (list Z) :=
  gets (λ s, default [] (BeneficiarySchedules s !! beneficiary)).

Definition add_beneficiary_schedule (beneficiary : Address) (schedule_id : Z) : C () :=
  schedule_ids ← beneficiary_schedule_ids beneficiary;
  modify (λ s, {| s with BeneficiarySchedules :=
    <[beneficiary := schedule_ids ++ [schedule_id]]> (BeneficiarySchedules s) |}).

Definition remove_beneficiary_schedule (beneficiary : Address) (schedule_id : Z) : C () :=
  schedule_ids ← beneficiary_schedule_ids beneficiary;
  modify (λ s, {| s with BeneficiarySchedules :=
    <[beneficiary := remove_first schedule_id schedule_ids]> (BeneficiarySchedules s) |}).

Definition set_schedule (schedule_id : Z) (schedule : VestingSchedule) : C () :=
  modify (λ s, {| s with Schedule := <[schedule_id := schedule]> (Schedule s) |}).

Definition vested_for (schedule : VestingSchedule) (timestamp : Z) : C Z :=
  if (timestamp <? vs_cliff_time schedule) || (timestamp <=? vs_start_time schedule) then mret 0
  else if timestamp >=? vs_end_time schedule then mret (vs_total_amount schedule)
  else
    elapsed ← expect (checked_sub U64 timestamp (vs_start_time schedule))
                "Timestamp before schedule start";
    duration ← expect (checked_sub U64 (vs_end_time schedule) (vs_start_time schedule))
                "Schedule end before start";
    if duration =? 0 then mret (vs_total_amount schedule)
    else
      p ← expect (checked_mul I128 (vs_total_amount schedule) elapsed)
            "Vesting multiplication overflow";
      mret (p `quot` duration).

Definition claimable_from_vested (schedule : VestingSchedule) (vested : Z) : C Z :=
  if vested <=? vs_claimed_amount schedule then mret 0
  else expect (checked_sub I128 vested (vs_claimed_amount schedule)) "Claimable underflow".

Definition calculate_penalty (unvested penalty_bps : Z) : C Z :=
  if (unvested <=? 0) || (penalty_bps =? 0) then mret 0
  else
    p ← expect (checked_mul I128 unvested penalty_bps) "Penalty multiplication overflow";
    mret (p `quot` BPS_DENOMINATOR).

Definition store_schedule (schedule_id : Z) (funder token beneficiary : Address)
    (total_amount start_time cliff_duration_seconds duration_seconds : Z)
    (revocable early_withdrawal_allowed : bool) (early_penalty_bps : Z) : C () :=
  t ← now;
  cliff_time ← expect (checked_add U64 start_time cliff_duration_seconds)
                 "Cliff timestamp overflow";
  end_time ← expect (checked_add U64 start_time duration_seconds) "End timestamp overflow";
  set_schedule schedule_id {|
    vs_schedule_id := schedule_id;
    vs_token := token;
    vs_funder := funder;
    vs_beneficiary := beneficiary;
    vs_total_amount := total_amount;
    vs_claimed_amount := 0;
    vs_start_time := start_time;
    vs_cliff_time := cliff_time;
    vs_end_time := end_time;
    vs_revocable := revocable;
    vs_early_withdrawal_allowed := early_withdrawal_allowed;
    vs_early_penalty_bps := early_penalty_bps;
    vs_active := true;
    vs_created_at := t;
    vs_updated_at := t;
    vs_last_claimed_at := 0 |};;
  add_beneficiary_schedule beneficiary schedule_id;;
  publish (vest_new schedule_id funder beneficiary total_amount).

Definition claim_one (schedule_id : Z) (beneficiary : Address) (require_positive : bool) : C Z :=
  schedule ← load_schedule schedule_id;
  panic_if (bool_decide (vs_beneficiary schedule ≠ beneficiary)) "Only beneficiary can claim";;
  if negb (vs_active schedule) then
    panic_if require_positive "Schedule is not active";;
    mret 0
  else
    t ← now;
    vested ← vested_for schedule t;
    claimable ← claimable_from_vested schedule vested;
    if claimable <=? 0 then
      panic_if require_positive "No vested tokens available";;
      mret 0
    else
      claimed ← expect (checked_add I128 (vs_claimed_amount schedule) claimable) "Claim overflow";
      let schedule' := {| schedule with
        vs_claimed_amount := claimed;
        vs_last_claimed_at := t;
        vs_updated_at := t;
        vs_active := if claimed >=? vs_total_amount schedule then false
                     else vs_active schedule |} in
      set_schedule schedule_id schedule';;
      contract_address ← self_address;
      transfer_token (vs_token schedule) contract_address beneficiary claimable;;
      publish (vest_clm schedule_id beneficiary claimable);;
      mret claimable.

(** ** Entry points *)

Definition initialize (admin : Address) : C () :=
  a ← gets Admin;
  panic_if (bool_decide (is_Some a)) "Already initialized";;
  require_auth admin;;
  modify (λ s, {| s with Admin := Some admin |});;
  modify (λ s, {| s with ScheduleCounter := Some 0 |});;
  modify (λ s, {| s with ReentrancyLock := Some false |});;
  publish (vest_init admin).

Definition get_admin : C Address := admin.

Definition create_schedule (funder token beneficiary : Address)
    (total_amount start_time cliff_duration_seconds duration_seconds : Z)
    (revocable early_withdrawal_allowed : bool) (early_penalty_bps : Z) : C Z :=
  require_auth funder;;
  validate_amount total_amount;;
  validate_timing start_time cliff_duration_seconds duration_seconds;;
  validate_penalty early_penalty_bps;;
  contract_address ← self_address;
  transfer_token token funder contract_address total_amount;;
  schedule_id ← next_schedule_id;
  store_schedule schedule_id funder token beneficiary total_amount start_time
    cliff_duration_seconds duration_seconds revocable early_withdrawal_allowed
    early_penalty_bps;;
  mret schedule_id.

Definition create_schedules_batch (funder token : Address)
    (beneficiaries : list Address) (amounts : list Z)
    (start_time cliff_duration_seconds duration_seconds : Z)
    (revocable early_withdrawal_allowed : bool) (early_penalty_bps : Z) : C (list Z) :=
  require_auth funder;;
  let count := Z.of_nat (length beneficiaries) in
  panic_if (count =? 0) "Batch must contain at least one schedule";;
  panic_if (count >? MAX_BATCH_SIZE) "Batch exceeds maximum size";;
  panic_if (negb (count =? Z.of_nat (length amounts))) "Beneficiary and amount lengths differ";;
  validate_timing start_time cliff_duration_seconds duration_seconds;;
  validate_penalty early_penalty_bps;;
  total_amount ← foldM (λ total amount,
      validate_amount amount;;
      expect (checked_add I128 total amount) "Batch total overflow") 0 amounts;
  contract_address ← self_address;
  transfer_token token funder contract_address total_amount;;
  schedule_ids ← foldM (λ ids '(beneficiary, amount),
      schedule_id ← next_schedule_id;
      store_schedule schedule_id funder token beneficiary amount start_time
        cliff_duration_seconds duration_seconds revocable early_withdrawal_allowed
        early_penalty_bps;;
      mret (ids ++ [schedule_id])) [] (zip beneficiaries amounts);
  publish (vest_bat funder token count total_amount);;
  mret schedule_ids.

Definition claim (schedule_id : Z) (beneficiary : Address) : C Z :=
  require_auth beneficiary;;
  paid ← claim_one schedule_id beneficiary true;
  panic_if (paid <=? 0) "No vested tokens available";;
  mret paid.

Definition claim_batch (schedule_ids : list Z) (beneficiary : Address) : C Z :=
  require_auth beneficiary;;
  panic_if (bool_decide (schedule_ids = [])) "No schedules provided";;
  panic_if (Z.of_nat (length schedule_ids) >? MAX_BATCH_SIZE) "Batch exceeds maximum size";;
  total_paid ← foldM (λ total schedule_id,
      paid ← claim_one schedule_id beneficiary false;
      expect (checked_add I128 total paid) "Claim total overflow") 0 schedule_ids;
  panic_if (total_paid <=? 0) "No vested tokens available";;
  publish (vest_bcl beneficiary total_paid);;
  mret total_paid.

Definition early_withdraw (schedule_id : Z) (beneficiary : Address) : C EarlyWithdrawalResult :=
  require_auth beneficiary;;
  schedule ← load_schedule schedule_id;
  panic_if (bool_decide (vs_beneficiary schedule ≠ beneficiary)) "Only beneficiary can withdraw";;
  panic_if (negb (vs_active schedule)) "Schedule is not active";;
  panic_if (negb (vs_early_withdrawal_allowed schedule)) "Early withdrawal disabled";;
  t ← now;
  vested ← vested_for schedule t;
  claimable ← claimable_from_vested schedule vested;
  unvested ← expect (checked_sub I128 (vs_total_amount schedule) vested) "Unvested underflow";
  penalty_amount ← calculate_penalty unvested (vs_early_penalty_bps schedule);
  unvested_paid ← expect (checked_sub I128 unvested penalty_amount)
                    "Penalty exceeds unvested amount";
  total_paid ← expect (checked_add I128 claimable unvested_paid)
                 "Early withdrawal payout overflow";
  panic_if ((total_paid <=? 0) && (penalty_amount <=? 0))
    "No tokens available for early withdrawal";;
  set_schedule schedule_id {| schedule with
    vs_claimed_amount := vs_total_amount schedule;
    vs_active := false;
    vs_updated_at := t;
    vs_last_claimed_at := t |};;
  contract_address ← self_address;
  enter_non_reentrant;;
  (if total_paid >? 0 then
     transfer_token_unchecked (vs_token schedule) contract_address beneficiary total_paid
   else mret tt);;
  (if penalty_amount >? 0 then
     transfer_token_unchecked (vs_token schedule) contract_address (vs_funder schedule)
       penalty_amount
   else mret tt);;
  exit_non_reentrant;;
  publish (vest_ear schedule_id beneficiary total_paid penalty_amount (vs_funder schedule));;
  mret {| ew_schedule_id := schedule_id;
          ew_vested_paid := claimable;
          ew_unvested_paid := unvested_paid;
          ew_penalty_amount := penalty_amount;
          ew_total_paid := total_paid |}.

Definition modify_schedule (admin : Address) (schedule_id : Z)
    (new_beneficiary : option Address)
    (new_start_time new_cliff_duration_seconds new_duration_seconds : option Z)
    (new_early_withdrawal_allowed : option bool) (new_early_penalty_bps : option Z)
    : C VestingSchedule :=
  require_auth admin;;
  assert_admin admin;;
  schedule ← load_schedule schedule_id;
  panic_if (negb (vs_active schedule)) "Cannot modify inactive schedule";;
  schedule1 ← match new_beneficiary with
    | Some beneficiary =>
        remove_beneficiary_schedule (vs_beneficiary schedule) schedule_id;;
        add_beneficiary_schedule beneficiary schedule_id;;
        mret {| schedule with vs_beneficiary := beneficiary |}
    | None => mret schedule
    end;
  current_cliff_duration ← expect
    (checked_sub U64 (vs_cliff_time schedule1) (vs_start_time schedule1))
    "Stored cliff before start";
  current_duration ← expect
    (checked_sub U64 (vs_end_time schedule1) (vs_start_time schedule1))
    "Stored end before start";
  let start_time := default (vs_start_time schedule1) new_start_time in
  let cliff_duration := default current_cliff_duration new_cliff_duration_seconds in
  let duration := default current_duration new_duration_seconds in
  validate_timing start_time cliff_duration duration;;
  cliff_time ← expect (checked_add U64 start_time cliff_duration) "Cliff timestamp overflow";
  end_time ← expect (checked_add U64 start_time duration) "End timestamp overflow";
  let schedule2 := {| schedule1 with
    vs_start_time := start_time;
    vs_cliff_time := cliff_time;
    vs_end_time := end_time;
    vs_early_withdrawal_allowed :=
      default (vs_early_withdrawal_allowed schedule1) new_early_withdrawal_allowed |} in
  schedule3 ← match new_early_penalty_bps with
    | Some penalty_bps =>
        validate_penalty penalty_bps;;
        mret {| schedule2 with vs_early_penalty_bps := penalty_bps |}
    | None => mret schedule2
    end;
  t ← now;
  vested_after ← vested_for schedule3 t;
  panic_if (vested_after <? vs_claimed_amount schedule3)
    "Modification would invalidate claimed tokens";;
  let schedule4 := {| schedule3 with vs_updated_at := t |} in
  set_schedule schedule_id schedule4;;
  publish (vest_mod schedule_id admin);;
  mret schedule4.

Definition increase_schedule_amount (funder : Address) (schedule_id additional_amount : Z)
    : C VestingSchedule :=
  require_auth funder;;
  validate_amount additional_amount;;
  schedule ← load_schedule schedule_id;
  panic_if (bool_decide (vs_funder schedule ≠ funder))
    "Only original funder can increase schedule";;
  panic_if (negb (vs_active schedule)) "Cannot fund inactive schedule";;
  total ← expect (checked_add I128 (vs_total_amount schedule) additional_amount)
            "Schedule amount overflow";
  t ← now;
  let schedule' := {| schedule with vs_total_amount := total; vs_updated_at := t |} in
  contract_address ← self_address;
  transfer_token (vs_token schedule') funder contract_address additional_amount;;
  set_schedule schedule_id schedule';;
  publish (vest_add schedule_id funder additional_amount);;
  mret schedule'.

Definition revoke_schedule (admin : Address) (schedule_id : Z) : C Z :=
  require_auth admin;;
  assert_admin admin;;
  schedule ← load_schedule schedule_id;
  panic_if (negb (vs_active schedule)) "Schedule is not active";;
  panic_if (negb (vs_revocable schedule)) "Schedule is not revocable";;
  t ← now;
  vested ← vested_for schedule t;
  refund_amount ← expect (checked_sub I128 (vs_total_amount schedule) vested) "Refund underflow";
  let schedule' := {| schedule with
    vs_total_amount := vested;
    vs_end_time := if vested >? vs_claimed_amount schedule then t else vs_end_time schedule;
    vs_active := vs_claimed_amount schedule <? vested;
    vs_updated_at := t |} in
  set_schedule schedule_id schedule';;
  (if refund_amount >? 0 then
     contract_address ← self_address;
     transfer_token (vs_token schedule') contract_address (vs_funder schedule') refund_amount
   else mret tt);;
  publish (vest_rev schedule_id admin refund_amount);;
  mret refund_amount.

(** ** Views *)

Definition get_schedule (schedule_id : Z) : C VestingSchedule := load_schedule schedule_id.

Definition get_schedules_for_beneficiary (beneficiary : Address) : C (list VestingSchedule) :=
  schedule_ids ← beneficiary_schedule_ids beneficiary;
  foldM (λ schedules schedule_id,
    schedule ← load_schedule schedule_id;
    mret (schedules ++ [schedule])) [] schedule_ids.

Definition vested_amount (schedule_id timestamp : Z) : C Z :=
  schedule ← load_schedule schedule_id;
  vested_for schedule timestamp.

Definition claimable (schedule_id : Z) : C Z :=
  schedule ← load_schedule schedule_id;
  t ← now;
  vested ← vested_for schedule t;
  claimable_from_vested schedule vested.

Definition get_schedule_counter : C Z := gets (λ s, default 0 (ScheduleCounter s)).

End contract.

(** ** Entry points as calls *)

Inductive Call :=
| CInitialize (admin : Address)
| CCreateSchedule (funder token beneficiary : Address) (total_amount start_time cliff dur : Z)
    (revocable early : bool) (bps : Z)
| CCreateSchedulesBatch (funder token : Address) (beneficiaries : list Address)
    (amounts : list Z) (start_time cliff dur : Z) (revocable early : bool) (bps : Z)
| CClaim (schedule_id : Z) (beneficiary : Address)
| CClaimBatch (schedule_ids : list Z) (beneficiary : Address)
| CEarlyWithdraw (schedule_id : Z) (beneficiary : Address)
| CModifySchedule (admin : Address) (schedule_id : Z) (new_beneficiary : option Address)
    (new_start new_cliff new_dur : option Z) (new_early : option bool) (new_bps : option Z)
| CIncrease (funder : Address) (schedule_id additional_amount : Z)
| CRevoke (admin : Address) (schedule_id : Z).

Definition exec `{TokenHost} (c : Call) : M State Empty_set Event () :=
  match c with
  | CInitialize a => initialize a
  | CCreateSchedule f tk b n s cl d r ea bps =>
      discard (create_schedule f tk b n s cl d r ea bps)
  | CCreateSchedulesBatch f tk bs ns s cl d r ea bps =>
      discard (create_schedules_batch f tk bs ns s cl d r ea bps)
  | CClaim id b => discard (claim id b)
  | CClaimBatch ids b => discard (claim_batch ids b)
  | CEarlyWithdraw id b => discard (early_withdraw id b)
  | CModifySchedule a id nb ns nc nd ne np => discard (modify_schedule a id nb ns nc nd ne np)
  | CIncrease f id n => discard (increase_schedule_amount f id n)
  | CRevoke a id => discard (revoke_schedule a id)
  end.

(** The unsigned arguments of a call are non-negative, by their Rust types. *)
Definition call_ok (c : Call) : Prop :=
  match c with
  | CCreateSchedule _ _ _ _ _ cl _ _ _ bps => 0 ≤ cl ∧ 0 ≤ bps
  | CCreateSchedulesBatch _ _ _ _ _ cl _ _ _ bps => 0 ≤ cl ∧ 0 ≤ bps
  | CModifySchedule _ _ _ _ nc _ _ np =>
      (∀ c, nc = Some c → 0 ≤ c) ∧ (∀ p, np = Some p → 0 ≤ p)
  | _ => True
  end.

(** Storage of a freshly deployed contract. *)
Definition deployed : State := mkState None None ∅ ∅ None.
