(* ===== verification/TokenVestingProofs.v ===== *)
(** * contracts/token-vesting: invariant and theorems

    The vesting curve as a mathematical function, what each operation of
    [TokenVesting] does to the storage and to the token ledger, the invariant
    that every operation preserves, and the theorems drawn from it. *)

From stdpp Require Import gmap strings list fin_maps.
From S2P Require Import Prelude Soroban TokenModel TokenVesting.
Open Scope Z_scope.

(** ** Specification of the vesting curve

    The amount vested at time [t]: nothing before the cliff, everything from
    the end on, and the exact linear share, rounded down, in between. *)

Definition vested_spec (s : VestingSchedule) (t : Z) : Z :=
  if (t <? vs_cliff_time s) || (t <=? vs_start_time s) then 0
  else if vs_end_time s <=? t then vs_total_amount s
  else (vs_total_amount s * (t - vs_start_time s)) `div` (vs_end_time s - vs_start_time s).

Lemma vested_spec_bounds s t :
  0 ≤ vs_total_amount s → 0 ≤ vested_spec s t ≤ vs_total_amount s.
Proof.
  intros Ht. unfold vested_spec.
  destruct (t <? vs_cliff_time s) eqn:E1, (t <=? vs_start_time s) eqn:E2; simpl; try lia.
  destruct (vs_end_time s <=? t) eqn:E3; zbool; [lia|]. split.
  - apply Z.div_pos; nia.
  - apply div_le_of_le_mul; nia.
Qed.

Lemma vested_spec_mono s t1 t2 :
  0 ≤ vs_total_amount s → t1 ≤ t2 → vested_spec s t1 ≤ vested_spec s t2.
Proof.
  intros Ht Hle. pose proof (vested_spec_bounds s t1 Ht). pose proof (vested_spec_bounds s t2 Ht).
  unfold vested_spec in *.
  destruct (t1 <? vs_cliff_time s) eqn:E1, (t1 <=? vs_start_time s) eqn:E2; simpl in *; try lia.
  destruct (t2 <? vs_cliff_time s) eqn:E3, (t2 <=? vs_start_time s) eqn:E4; simpl in *; zbool; try lia.
  destruct (vs_end_time s <=? t1) eqn:E5, (vs_end_time s <=? t2) eqn:E6; zbool; try lia.
  apply Z.div_le_mono; nia.
Qed.

(** A larger total vests at least as much. *)
Lemma vested_spec_total_mono s s' t :
  vs_cliff_time s' = vs_cliff_time s → vs_start_time s' = vs_start_time s →
  vs_end_time s' = vs_end_time s → vs_total_amount s ≤ vs_total_amount s' →
  vested_spec s t ≤ vested_spec s' t.
Proof.
  intros Hc Hs He Ht. unfold vested_spec. rewrite Hc, Hs, He.
  destruct ((t <? _) || _) eqn:E1; [done|]. destruct (vs_end_time s <=? t) eqn:E2; [done|].
  zbool. apply Z.div_le_mono; nia.
Qed.

(** ** What the helpers do when they succeed *)

Section specs.
Context `{TokenHost}.
Implicit Types (w : World State Event) (e : Env).

Lemma vested_for_spec s t e w v w' :
  0 ≤ vs_total_amount s →
  vested_for s t e w = Ok (v, w') → v = vested_spec s t ∧ w' = w.
Proof.
  intros Ht Hr. unfold vested_for in Hr. unfold vested_spec.
  rewrite Z.geb_leb in Hr. minv Hr; try done; arith; [lia|].
  split; [|done]. apply quot_div_nonneg; [nia|lia].
Qed.

(** [vested_for] returns whenever the product fits, hence always when
    [total_amount * (end - start)] does. *)
Lemma vested_for_total s t e w :
  0 ≤ vs_total_amount s → 0 ≤ vs_start_time s < vs_end_time s →
  0 ≤ t ≤ int_max U64 → vs_end_time s ≤ int_max U64 →
  vs_total_amount s * (vs_end_time s - vs_start_time s) ≤ int_max I128 →
  vested_for s t e w = Ok (vested_spec s t, w).
Proof.
  intros Ht Hse Hti He Hmul. unfold vested_for, vested_spec. rewrite Z.geb_leb.
  destruct (_ || _) eqn:E1; [done|]. destruct (vs_end_time s <=? t) eqn:E2; [done|].
  zbool. cbn [int_max] in *.
  unfold mbind, M_bind, expect.
  rewrite (proj2 (checked_sub_Some U64 t (vs_start_time s) _)) by (split; [done|cbn; lia]).
  rewrite (proj2 (checked_sub_Some U64 (vs_end_time s) (vs_start_time s) _))
    by (split; [done|cbn; lia]).
  rewrite (proj2 (checked_mul_Some I128 (vs_total_amount s) (t - vs_start_time s) _))
    by (split; [done|cbn; nia]).
  destruct (_ =? 0) eqn:E3; zbool; [lia|]. unfold mret, M_ret. do 2 f_equal.
  apply quot_div_nonneg; nia.
Qed.

Lemma claimable_from_vested_spec s v e w c w' :
  claimable_from_vested s v e w = Ok (c, w') →
  c = Z.max 0 (v - vs_claimed_amount s) ∧ w' = w.
Proof.
  intros Hr. minv Hr using claimable_from_vested; arith; split; auto; lia.
Qed.

Lemma calculate_penalty_spec u bps e w p w' :
  0 ≤ u → 0 ≤ bps ≤ MAX_PENALTY_BPS →
  calculate_penalty u bps e w = Ok (p, w') →
  p = (u * bps) `div` BPS_DENOMINATOR ∧ 0 ≤ p ≤ u ∧ w' = w.
Proof.
  unfold MAX_PENALTY_BPS, BPS_DENOMINATOR. intros Hu Hb Hr.
  minv Hr using calculate_penalty.
  - apply orb_prop in Hc as [Hc|Hc]; zbool.
    + assert (u = 0) as -> by lia. done.
    + subst. rewrite Z.mul_0_r. split; [done|]. split; [lia|done].
  - arith. unfold BPS_DENOMINATOR. rewrite quot_div_nonneg by nia.
    split; [done|]. split; [|done]. split; [apply Z.div_pos; nia|].
    apply div_le_of_le_mul; nia.
Qed.

Lemma vesting_transfer_token_spec tk from to n e w u w' :
  transfer_token tk from to n e w = Ok (u, w') →
  0 < n ∧ default false (ReentrancyLock (store w)) = false ∧
  ∃ l', tok_transfer e (ledger w) tk from to n = Some l' ∧
        w' = mkWorld {| (store w) with ReentrancyLock := Some false |} l' (log w).
Proof.
  intros Hr. unfold transfer_token, enter_non_reentrant, transfer_token_unchecked,
    exit_non_reentrant in Hr. minv Hr. arith. eauto 10.
Qed.

Lemma load_schedule_spec id e w s w' :
  load_schedule id e w = Ok (s, w') → Schedule (store w) !! id = Some s ∧ w' = w.
Proof. intros Hr. minv Hr using load_schedule. done. Qed.

Lemma set_schedule_spec id s e w u w' :
  set_schedule id s e w = Ok (u, w') →
  w' = {| w with store := {| (store w) with Schedule := <[id := s]> (Schedule (store w)) |} |}.
Proof. intros Hr. by minv Hr using set_schedule. Qed.

Lemma vesting_assert_admin_spec a e w u w' :
  assert_admin a e w = Ok (u, w') → Admin (store w) = Some a ∧ w' = w.
Proof. intros Hr. unfold assert_admin, admin in Hr. minv Hr. arith. done. Qed.

Lemma validate_timing_spec s c d e w u w' :
  validate_timing s c d e w = Ok (u, w') →
  d ≠ 0 ∧ c ≤ d ∧ s + c ≤ int_max U64 ∧ s + d ≤ int_max U64 ∧ w' = w.
Proof. intros Hr. minv Hr using validate_timing. arith. split_and!; lia || done. Qed.
End specs.

(** ** The invariant

    [owed s] is what the contract still holds for schedule [s]; the
    liability in a token is the sum over the schedules in that token. *)

Definition owed (s : VestingSchedule) : Z := vs_total_amount s - vs_claimed_amount s.

Definition liability (tk : Address) (st : State) : Z :=
  msum (λ _ s, if bool_decide (vs_token s = tk) then owed s else 0) (Schedule st).

(** A well-formed schedule, at time [t], in the contract at [self]. *)
Record sched_ok (self : Address) (t : Z) (counter id : Z) (s : VestingSchedule) : Prop := {
  so_id : vs_schedule_id s = id;
  so_range : 1 ≤ id ≤ counter;
  so_cliff : vs_start_time s ≤ vs_cliff_time s ≤ vs_end_time s;
  so_times : vs_start_time s < vs_end_time s;
  so_penalty : 0 ≤ vs_early_penalty_bps s ≤ MAX_PENALTY_BPS;
  so_amounts : 0 ≤ vs_claimed_amount s ≤ vs_total_amount s;
  so_vested : vs_active s = true → vs_claimed_amount s ≤ vested_spec s t;
  so_settled : vs_active s = false → vs_claimed_amount s = vs_total_amount s;
  so_funder : vs_funder s ≠ self;
}.

Record inv `{TokenHost} (self : Address) (t : Z) (st : State) (l : Ledger) : Prop := {
  inv_admin : is_Some (Admin st);
  inv_lock : ReentrancyLock st = Some false;
  inv_counter : 0 ≤ default 0 (ScheduleCounter st);
  inv_sched id s : Schedule st !! id = Some s →
    sched_ok self t (default 0 (ScheduleCounter st)) id s;
  inv_index b id : id ∈ default [] (BeneficiarySchedules st !! b) ↔
    ∃ s, Schedule st !! id = Some s ∧ vs_beneficiary s = b;
  inv_nodup b : NoDup (default [] (BeneficiarySchedules st !! b));
  inv_solvent tk : liability tk st ≤ tok_balance l tk self;
}.

Lemma sched_ok_mono self t t' c c' id s :
  t ≤ t' → c ≤ c' → sched_ok self t c id s → sched_ok self t' c' id s.
Proof.
  intros Ht Hc []. split; try done; [lia|].
  intros Ha. etransitivity; [by apply so_vested0|]. apply vested_spec_mono; lia.
Qed.

Section invariant.
Context `{Laws : TokenLaws}.
Implicit Types (w : World State Event) (e : Env) (st : State) (l : Ledger).

Lemma vesting_inv_mono self t t' st l l' :
  t ≤ t' → (∀ tk, tok_balance l tk self ≤ tok_balance l' tk self) →
  inv self t st l → inv self t' st l'.
Proof.
  intros Ht Hl []. split; eauto.
  - intros id s Hs. eapply sched_ok_mono; [done| |eauto]. done.
  - intros tk. etransitivity; eauto.
Qed.

(** Replacing one schedule keeps the invariant when the new one is well
    formed, keeps its token, is listed under its beneficiary only, and the
    contract's balance changes by at least what the schedule's claim does. *)
Lemma inv_replace_gen self t st l st' l' id s s' :
  inv self t st l →
  Schedule st !! id = Some s →
  Admin st' = Admin st → ReentrancyLock st' = Some false →
  ScheduleCounter st' = ScheduleCounter st →
  Schedule st' = <[id := s']> (Schedule st) →
  (∀ b i, i ∈ default [] (BeneficiarySchedules st' !! b) ↔
     if bool_decide (i = id) then b = vs_beneficiary s'
     else i ∈ default [] (BeneficiarySchedules st !! b)) →
  (∀ b, NoDup (default [] (BeneficiarySchedules st' !! b))) →
  vs_token s' = vs_token s →
  sched_ok self t (default 0 (ScheduleCounter st)) id s' →
  (∀ tk, tok_balance l tk self + (if bool_decide (tk = vs_token s) then owed s' - owed s else 0)
         ≤ tok_balance l' tk self) →
  inv self t st' l'.
Proof.
  intros Hinv Hs Ha Hlk Hc Hsch Hidx Hnd Htk Hok Hbal. destruct Hinv. split.
  - by rewrite Ha.
  - done.
  - by rewrite Hc.
  - rewrite Hsch, Hc. intros id' s0 [[<- <-]|[Hne Hl]]%lookup_insert_Some; eauto.
  - intros b i. rewrite Hidx, Hsch. case_bool_decide as Hd.
    + subst. rewrite lookup_insert_eq. naive_solver.
    + by rewrite inv_index0, lookup_insert_ne.
  - done.
  - intros tk. specialize (inv_solvent0 tk). specialize (Hbal tk). unfold liability in *.
    rewrite Hsch, (msum_insert_update _ _ _ _ _ Hs), Htk.
    repeat case_bool_decide; simplify_eq; lia.
Qed.

Lemma vesting_inv_replace self t st l st' l' id s s' :
  inv self t st l →
  Schedule st !! id = Some s →
  Admin st' = Admin st → ReentrancyLock st' = Some false →
  ScheduleCounter st' = ScheduleCounter st →
  Schedule st' = <[id := s']> (Schedule st) →
  BeneficiarySchedules st' = BeneficiarySchedules st →
  vs_beneficiary s' = vs_beneficiary s → vs_token s' = vs_token s →
  sched_ok self t (default 0 (ScheduleCounter st)) id s' →
  (∀ tk, tok_balance l tk self + (if bool_decide (tk = vs_token s) then owed s' - owed s else 0)
         ≤ tok_balance l' tk self) →
  inv self t st' l'.
Proof.
  intros Hinv Hs Ha Hlk Hc Hsch Hben Hb Htk Hok Hbal.
  eapply inv_replace_gen; eauto; intros b; rewrite Hben; [|apply Hinv].
  intros i. case_bool_decide as Hd; [subst|done].
  rewrite (inv_index _ _ _ _ Hinv). naive_solver.
Qed.

(** *** Claims *)

Definition after_claim (s : VestingSchedule) (t paid : Z) : VestingSchedule :=
  {| s with
     vs_claimed_amount := vs_claimed_amount s + paid;
     vs_last_claimed_at := t;
     vs_updated_at := t;
     vs_active := if vs_claimed_amount s + paid >=? vs_total_amount s then false
                  else vs_active s |}.

(** [claim_one] either pays nothing and changes nothing, or pays exactly the
    vested amount not yet claimed. *)
Lemma vesting_claim_one_spec self t id b rp e w paid w' :
  inv self t (store w) (ledger w) →
  claim_one id b rp e w = Ok (paid, w') →
  ∃ s, Schedule (store w) !! id = Some s ∧ vs_beneficiary s = b ∧
    ( (paid = 0 ∧ w' = w ∧ rp = false ∧
        (vs_active s = false ∨ vested_spec s (timestamp e) ≤ vs_claimed_amount s))
    ∨ (vs_active s = true ∧ paid = vested_spec s (timestamp e) - vs_claimed_amount s ∧
       0 < paid ∧
       ∃ l', tok_transfer e (ledger w) (vs_token s) (current_contract_address e) b paid = Some l' ∧
         w' = mkWorld {| (store w) with
                Schedule := <[id := after_claim s (timestamp e) paid]> (Schedule (store w));
                ReentrancyLock := Some false |}
              l' (log w ++ [vest_clm id b paid]))).
Proof.
  intros Hinv Hr. unfold claim_one in Hr. minv Hr.
  all: spec load_schedule_spec as [Hs ->]; zbool; subst.
  all: exists a; split; [done|split; [done|]].
  all: destruct (inv_sched _ _ _ _ Hinv _ _ Hs) as [].
  - subst. left. eauto 10.
  - spec vested_for_spec as [-> ->]; [|lia].
    spec claimable_from_vested_spec as [-> ->]. arith. left.
    split_and!; auto. right. lia.
  - spec vested_for_spec as [-> ->]; [|lia].
    spec claimable_from_vested_spec as [-> ->]. arith.
    spec set_schedule_spec as ->.
    spec vesting_transfer_token_spec as (? & ? & l' & Ht & ->). simpl in *.
    right. assert (Z.max 0 (vested_spec a (timestamp e) - vs_claimed_amount a) =
      vested_spec a (timestamp e) - vs_claimed_amount a) as Hmax by lia.
    rewrite Hmax in *. eauto 10.
Qed.

Lemma after_claim_ok self t c id s paid :
  sched_ok self t c id s → vs_active s = true →
  paid = vested_spec s t - vs_claimed_amount s → 0 < paid →
  sched_ok self t c id (after_claim s t paid).
Proof.
  intros [] Ha -> Hp. pose proof (vested_spec_bounds s t ltac:(lia)).
  split; cbn [after_claim vs_schedule_id vs_start_time vs_cliff_time vs_end_time
    vs_early_penalty_bps vs_claimed_amount vs_total_amount vs_active vs_funder]; try done.
  - lia.
  - intros _. change (vested_spec (after_claim _ _ _) t) with (vested_spec s t). lia.
  - rewrite Ha. case_match; [|done]. zbool. intros _. lia.
Qed.

Lemma vesting_claim_one_inv self id b rp e w paid w' :
  wf_env self e → b ≠ self →
  inv self (timestamp e) (store w) (ledger w) →
  claim_one id b rp e w = Ok (paid, w') →
  inv self (timestamp e) (store w') (ledger w').
Proof.
  intros Hwf Hb Hinv Hr.
  eapply vesting_claim_one_spec in Hr as (s & Hs & <- & [(-> & -> & _)|(Ha & Hp & Hpos & l' & Ht & ->)]);
    [done| |done].
  eapply vesting_inv_replace; eauto; simpl.
  - apply after_claim_ok; eauto. by eapply inv_sched.
  - intros tk. rewrite (wf_self _ _ Hwf) in Ht.
    rewrite (moved_out _ _ _ _ _ _ tk (transfer_moved _ _ _ _ _ _ _ Ht) Hb).
    unfold owed; simpl. repeat case_bool_decide; lia.
Qed.

(** *** Early withdrawal *)

Definition after_early (s : VestingSchedule) (t : Z) : VestingSchedule :=
  {| s with
     vs_claimed_amount := vs_total_amount s;
     vs_active := false;
     vs_updated_at := t;
     vs_last_claimed_at := t |}.

(** A conditional payment out of the contract. *)
Definition paid_out (e : Env) (tk to : Address) (n : Z) (l l' : Ledger) : Prop :=
  if n >? 0 then tok_transfer e l tk (current_contract_address e) to n = Some l' else l' = l.

Lemma paid_out_balance self e tk to n l l' tk' :
  wf_env self e → 0 ≤ n → to ≠ self → paid_out e tk to n l l' →
  tok_balance l' tk' self = tok_balance l tk' self - (if bool_decide (tk' = tk) then n else 0).
Proof.
  intros Hwf Hn Hto Hp. unfold paid_out in Hp. rewrite (wf_self _ _ Hwf) in Hp.
  destruct (n >? 0) eqn:E; zbool.
  - eapply moved_out; [|done]. by eapply transfer_moved.
  - subst. assert (n = 0) as -> by lia. case_bool_decide; lia.
Qed.

Lemma paid_out_moved e tk to n l l' :
  0 ≤ n → paid_out e tk to n l l' → moved l l' tk (current_contract_address e) to n.
Proof.
  intros Hn Hp. unfold paid_out in Hp. destruct (n >? 0) eqn:E; zbool.
  - by eapply transfer_moved.
  - subst. assert (n = 0) as -> by lia. intros tk' a. repeat case_bool_decide; lia.
Qed.

Lemma early_withdraw_spec self id b e w r w' :
  inv self (timestamp e) (store w) (ledger w) →
  early_withdraw id b e w = Ok (r, w') →
  ∃ s l1 l2, Schedule (store w) !! id = Some s ∧ vs_beneficiary s = b ∧
    vs_active s = true ∧ vs_early_withdrawal_allowed s = true ∧ authorized e b = true ∧
    let vested := vested_spec s (timestamp e) in
    let unvested := vs_total_amount s - vested in
    ew_schedule_id r = id ∧
    ew_vested_paid r = vested - vs_claimed_amount s ∧
    ew_penalty_amount r = (unvested * vs_early_penalty_bps s) `div` BPS_DENOMINATOR ∧
    ew_unvested_paid r = unvested - ew_penalty_amount r ∧
    ew_total_paid r = ew_vested_paid r + ew_unvested_paid r ∧
    0 ≤ ew_penalty_amount r ≤ unvested ∧
    paid_out e (vs_token s) b (ew_total_paid r) (ledger w) l1 ∧
    paid_out e (vs_token s) (vs_funder s) (ew_penalty_amount r) l1 l2 ∧
    w' = mkWorld {| (store w) with
           Schedule := <[id := after_early s (timestamp e)]> (Schedule (store w));
           ReentrancyLock := Some false |}
         l2 (log w ++ [vest_ear id b (ew_total_paid r) (ew_penalty_amount r) (vs_funder s)]).
Proof.
  intros Hinv Hr. unfold early_withdraw, enter_non_reentrant, transfer_token_unchecked,
    exit_non_reentrant in Hr. minv Hr.
  all: spec load_schedule_spec as [Hs ->]; zbool; subst.
  all: match type of Hs with _ = Some ?x => rename x into s end.
  all: pose proof (inv_sched _ _ _ _ Hinv _ _ Hs) as Hok.
  all: pose proof (so_amounts _ _ _ _ _ Hok); pose proof (so_vested _ _ _ _ _ Hok ltac:(done)).
  all: spec vested_for_spec as [-> ->]; [|lia].
  all: spec claimable_from_vested_spec as [-> ->].
  all: inv_checked.
  all: pose proof (vested_spec_bounds s (timestamp e) ltac:(lia)).
  all: spec calculate_penalty_spec as (-> & Hpen & ->); [|lia|apply Hok].
  all: spec set_schedule_spec as ->.
  all: rewrite (Z.max_r 0) in * by lia; simpl in *.
  all: exists s; do 2 eexists; split_and!;
    [done|done|done|done|done|done|done|done|done|done|lia|lia|..];
    unfold paid_out; cbn [ew_total_paid ew_penalty_amount].
  all: repeat case_match; zbool; done || lia.
Qed.

Lemma early_withdraw_inv self id b e w r w' :
  wf_env self e →
  inv self (timestamp e) (store w) (ledger w) →
  early_withdraw id b e w = Ok (r, w') →
  inv self (timestamp e) (store w') (ledger w').
Proof.
  intros Hwf Hinv Hr.
  eapply early_withdraw_spec in Hr as (s & l1 & l2 & Hs & <- & Ha & Hal & Hau & Hid & Hv & Hp & Hu
    & Ht & Hpb & Hl1 & Hl2 & ->); [|done].
  pose proof (inv_sched _ _ _ _ Hinv _ _ Hs) as Hok. destruct Hok.
  pose proof (vested_spec_bounds s (timestamp e) ltac:(lia)).
  specialize (so_vested0 Ha).
  eapply vesting_inv_replace; eauto; simpl.
  - split; simpl; try done; lia.
  - intros tk.
    assert (0 ≤ ew_penalty_amount r ∧ 0 ≤ ew_total_paid r) as [Hn1 Hn2] by lia.
    rewrite (paid_out_balance _ _ _ _ _ _ _ tk Hwf Hn1 so_funder0 Hl2).
    rewrite (paid_out_balance _ _ _ _ _ _ _ tk Hwf Hn2 (wf_auth_ne _ _ _ Hwf Hau) Hl1).
    unfold owed; simpl. repeat case_bool_decide; lia.
Qed.

(** *** Modification *)

(** [modify_schedule] returns the schedule it stores: timing, beneficiary,
    early-exit flag and penalty as requested, everything else unchanged. *)
Lemma modify_schedule_spec self adm id nb ns nc nd ne np e w r w' :
  inv self (timestamp e) (store w) (ledger w) →
  (∀ c, nc = Some c → 0 ≤ c) → (∀ p, np = Some p → 0 ≤ p) →
  modify_schedule adm id nb ns nc nd ne np e w = Ok (r, w') →
  ∃ s, Schedule (store w) !! id = Some s ∧ vs_active s = true ∧
    Admin (store w) = Some adm ∧ authorized e adm = true ∧
    r = {| s with
      vs_beneficiary := default (vs_beneficiary s) nb;
      vs_start_time := default (vs_start_time s) ns;
      vs_cliff_time := default (vs_start_time s) ns +
        default (vs_cliff_time s - vs_start_time s) nc;
      vs_end_time := default (vs_start_time s) ns +
        default (vs_end_time s - vs_start_time s) nd;
      vs_early_withdrawal_allowed := default (vs_early_withdrawal_allowed s) ne;
      vs_early_penalty_bps := default (vs_early_penalty_bps s) np;
      vs_updated_at := timestamp e |} ∧
    sched_ok self (timestamp e) (default 0 (ScheduleCounter (store w))) id r ∧
    w' = mkWorld {| (store w) with
        Schedule := <[id := r]> (Schedule (store w));
        BeneficiarySchedules := match nb with
          | Some b =>
              let idx := <[vs_beneficiary s := remove_first id
                  (default [] (BeneficiarySchedules (store w) !! vs_beneficiary s))]>
                (BeneficiarySchedules (store w)) in
              <[b := default [] (idx !! b) ++ [id]]> idx
          | None => BeneficiarySchedules (store w)
          end |} (ledger w) (log w ++ [vest_mod id adm]).
Proof.
  intros Hinv Hnc Hnp Hr. unfold modify_schedule, remove_beneficiary_schedule,
    add_beneficiary_schedule, beneficiary_schedule_ids, validate_penalty in Hr. minv Hr.
  all: spec vesting_assert_admin_spec as [Hadm ->]; spec load_schedule_spec as [Hs ->].
  all: match type of Hs with _ = Some ?x => rename x into s end.
  all: pose proof (inv_sched _ _ _ _ Hinv _ _ Hs) as Hok.
  all: spec validate_timing_spec as (Hd0 & Hcd & Hsc & Hsd & ->).
  all: spec vested_for_spec as [-> ->]; [|simpl; destruct Hok; lia].
  all: spec set_schedule_spec as ->.
  all: inv_checked; zbool; cbn [vs_cliff_time vs_start_time vs_end_time vs_claimed_amount] in *.
  all: assert (0 ≤ default (vs_cliff_time s - vs_start_time s) nc)
         by (destruct nc; simpl in *; [by apply Hnc|lia]).
  all: exists s; split_and!; try done.
  all: destruct Hok; split; simpl; try done; try lia.
  all: specialize (Hnp _ eq_refl); lia.
Qed.

Lemma modify_schedule_inv self adm id nb ns nc nd ne np e w r w' :
  (∀ c, nc = Some c → 0 ≤ c) → (∀ p, np = Some p → 0 ≤ p) →
  inv self (timestamp e) (store w) (ledger w) →
  modify_schedule adm id nb ns nc nd ne np e w = Ok (r, w') →
  inv self (timestamp e) (store w') (ledger w').
Proof.
  intros Hnc Hnp Hinv Hr.
  eapply modify_schedule_spec in Hr as (s & Hs & Ha & Hadm & _ & Hreq & Hok & ->); [|done..].
  eapply inv_replace_gen; eauto; simpl.
  - apply Hinv.
  - intros b i. pose proof (inv_index _ _ _ _ Hinv) as Hi. subst r; simpl. destruct nb as [b'|]; simpl.
    + set (idx := <[vs_beneficiary s:=_]> _).
      assert (∀ b i, i ∈ default [] (idx !! b) ↔
        i ≠ id ∧ i ∈ default [] (BeneficiarySchedules (store w) !! b)) as Hidx.
      { intros b0 i0. unfold idx. rewrite lookup_insert. case_decide as Hd; simpl.
        - subst. rewrite elem_of_remove_first_NoDup by apply Hinv. naive_solver.
        - rewrite !Hi. split; [|naive_solver]. intros (s0 & Hs0 & <-). split; [|eauto].
          intros ->. naive_solver. }
      rewrite lookup_insert. case_decide as Hd; simpl.
      * subst. rewrite elem_of_app, Hidx, list_elem_of_singleton.
        case_bool_decide; naive_solver.
      * rewrite Hidx. case_bool_decide; naive_solver.
    + case_bool_decide as Hd; [subst|done]. rewrite Hi. naive_solver.
  - intros b. pose proof (inv_nodup _ _ _ _ Hinv) as Hnd. destruct nb as [b'|]; simpl; [|done].
    set (idx := <[vs_beneficiary s:=_]> _).
    assert (∀ b, NoDup (default [] (idx !! b)) ∧ id ∉ default [] (idx !! b)) as Hidx.
    { intros b0. unfold idx. rewrite lookup_insert. case_decide as Hd; simpl.
      - split; [auto with contracts|].
        rewrite elem_of_remove_first_NoDup by done. naive_solver.
      - split; [done|]. rewrite (inv_index _ _ _ _ Hinv). naive_solver. }
    rewrite lookup_insert. case_decide; simpl; [apply NoDup_snoc|]; apply Hidx.
  - by subst.
  - intros tk. subst r. unfold owed; simpl. case_bool_decide; lia.
Qed.

(** *** Top-up and revocation *)

Lemma increase_schedule_amount_spec f id n e w r w' :
  increase_schedule_amount f id n e w = Ok (r, w') →
  ∃ s l', Schedule (store w) !! id = Some s ∧ vs_funder s = f ∧ vs_active s = true ∧
    authorized e f = true ∧ 0 < n ∧
    r = {| s with vs_total_amount := vs_total_amount s + n; vs_updated_at := timestamp e |} ∧
    tok_transfer e (ledger w) (vs_token s) f (current_contract_address e) n = Some l' ∧
    w' = mkWorld {| (store w) with
           Schedule := <[id := r]> (Schedule (store w));
           ReentrancyLock := Some false |} l' (log w ++ [vest_add id f n]).
Proof.
  intros Hr. unfold increase_schedule_amount, validate_amount in Hr. minv Hr.
  spec load_schedule_spec as [Hs ->].
  spec vesting_transfer_token_spec as (? & ? & l' & Ht & ->).
  spec set_schedule_spec as ->. arith. simpl. eauto 15.
Qed.

Lemma increase_schedule_amount_inv self f id n e w r w' :
  wf_env self e →
  inv self (timestamp e) (store w) (ledger w) →
  increase_schedule_amount f id n e w = Ok (r, w') →
  inv self (timestamp e) (store w') (ledger w').
Proof.
  intros Hwf Hinv Hr.
  apply increase_schedule_amount_spec in Hr as (s & l' & Hs & <- & Ha & Hau & Hn & -> & Ht & ->).
  pose proof (inv_sched _ _ _ _ Hinv _ _ Hs) as []. specialize (so_vested0 Ha).
  eapply vesting_inv_replace; eauto; simpl.
  - split; simpl; try done; [lia| |congruence].
    intros _. etransitivity; [done|]. apply vested_spec_total_mono; simpl; lia || done.
  - intros tk. rewrite (wf_self _ _ Hwf) in Ht.
    rewrite (moved_in _ _ _ _ _ _ tk (transfer_moved _ _ _ _ _ _ _ Ht) so_funder0).
    unfold owed; simpl. case_bool_decide; lia.
Qed.

Definition after_revoke (s : VestingSchedule) (t : Z) : VestingSchedule :=
  {| s with
     vs_total_amount := vested_spec s t;
     vs_end_time := if vested_spec s t >? vs_claimed_amount s then t else vs_end_time s;
     vs_active := vs_claimed_amount s <? vested_spec s t;
     vs_updated_at := t |}.

Lemma revoke_schedule_spec self adm id e w refund w' :
  inv self (timestamp e) (store w) (ledger w) →
  revoke_schedule adm id e w = Ok (refund, w') →
  ∃ s l', Schedule (store w) !! id = Some s ∧ vs_active s = true ∧ vs_revocable s = true ∧
    Admin (store w) = Some adm ∧ authorized e adm = true ∧
    refund = vs_total_amount s - vested_spec s (timestamp e) ∧
    paid_out e (vs_token s) (vs_funder s) refund (ledger w) l' ∧
    w' = mkWorld {| (store w) with
           Schedule := <[id := after_revoke s (timestamp e)]> (Schedule (store w)) |}
         l' (log w ++ [vest_rev id adm refund]).
Proof.
  intros Hinv Hr. unfold revoke_schedule in Hr. minv Hr.
  all: spec vesting_assert_admin_spec as [Hadm ->]; spec load_schedule_spec as [Hs ->].
  all: pose proof (inv_sched _ _ _ _ Hinv _ _ Hs) as Hok.
  all: spec vested_for_spec as [-> ->]; [|destruct Hok; lia].
  all: spec set_schedule_spec as ->; inv_checked.
  - spec vesting_transfer_token_spec as (? & ? & l' & Ht & ->). simpl in *. zbool.
    do 2 eexists. split_and!; try done.
    + unfold paid_out. case_match; zbool; [done|lia].
    + by rewrite (inv_lock _ _ _ _ Hinv).
  - zbool. do 2 eexists. split_and!; try done.
    unfold paid_out. case_match; zbool; [lia|done].
Qed.

Lemma vested_after_revoke s t :
  vs_claimed_amount s < vested_spec s t → 0 ≤ vs_claimed_amount s →
  vested_spec (after_revoke s t) t = vested_spec s t.
Proof.
  intros Hlt Hc. unfold after_revoke. rewrite (proj2 (Z.gtb_gt _ _)) by lia.
  unfold vested_spec at 1; simpl. rewrite Z.leb_refl.
  destruct (_ || _) eqn:E; [|done]. revert Hlt. unfold vested_spec. rewrite E. lia.
Qed.

Lemma after_revoke_ok self t c id s :
  sched_ok self t c id s → vs_active s = true → sched_ok self t c id (after_revoke s t).
Proof.
  intros [] Ha. specialize (so_vested0 Ha).
  pose proof (vested_spec_bounds s t ltac:(lia)).
  assert (vs_claimed_amount s < vested_spec s t → vs_cliff_time s ≤ t ∧ vs_start_time s < t) as Hpos.
  { intros Hlt. revert Hlt. unfold vested_spec. destruct (_ || _) eqn:E; [lia|]. zbool. lia. }
  split; unfold after_revoke; simpl; try done; try lia.
  - destruct (_ >? _) eqn:E; zbool; lia.
  - destruct (_ >? _) eqn:E; zbool; lia.
  - intros Hlt. zbool. fold (after_revoke s t). rewrite vested_after_revoke; lia.
Qed.

Lemma revoke_schedule_inv self adm id e w r w' :
  wf_env self e →
  inv self (timestamp e) (store w) (ledger w) →
  revoke_schedule adm id e w = Ok (r, w') →
  inv self (timestamp e) (store w') (ledger w').
Proof.
  intros Hwf Hinv Hr.
  eapply revoke_schedule_spec in Hr as (s & l' & Hs & Ha & Hrev & Hadm & Hau & -> & Hp & ->); [|done].
  pose proof (inv_sched _ _ _ _ Hinv _ _ Hs) as Hok.
  pose proof (vested_spec_bounds s (timestamp e) ltac:(destruct Hok; lia)) as Hb.
  eapply vesting_inv_replace; eauto; simpl.
  - apply Hinv.
  - by apply after_revoke_ok.
  - intros tk. assert (0 ≤ vs_total_amount s - vested_spec s (timestamp e)) as Hn by lia.
    rewrite (paid_out_balance _ _ _ _ _ _ _ tk Hwf Hn (so_funder _ _ _ _ _ Hok) Hp).
    unfold owed; simpl. case_bool_decide; lia.
Qed.

(** *** Creation *)

(** Storing one new schedule, already paid for. *)
Lemma inv_add self t st l st' s :
  let c := default 0 (ScheduleCounter st) in
  inv self t st l →
  Admin st' = Admin st → ReentrancyLock st' = Some false →
  ScheduleCounter st' = Some (c + 1) →
  Schedule st' = <[c + 1 := s]> (Schedule st) →
  BeneficiarySchedules st' =
    <[vs_beneficiary s := default [] (BeneficiarySchedules st !! vs_beneficiary s) ++ [c + 1]]>
      (BeneficiarySchedules st) →
  sched_ok self t (c + 1) (c + 1) s →
  (∀ tk, liability tk st + (if bool_decide (tk = vs_token s) then owed s else 0)
         ≤ tok_balance l tk self) →
  inv self t st' l ∧
  (∀ tk, liability tk st' = liability tk st + (if bool_decide (tk = vs_token s) then owed s else 0)).
Proof.
  intros c Hinv Ha Hlk Hc Hsch Hben Hok Hbal.
  pose proof (inv_counter _ _ _ _ Hinv) as Hc0. fold c in Hc0.
  assert (Schedule st !! (c + 1) = None) as Hnone.
  { destruct (Schedule st !! (c + 1)) as [s0|] eqn:Hs0; [|done].
    apply (inv_sched _ _ _ _ Hinv) in Hs0 as []. fold c in so_range0. lia. }
  assert (∀ tk, liability tk st' =
    liability tk st + (if bool_decide (tk = vs_token s) then owed s else 0)) as Hl.
  { intros tk. unfold liability. rewrite Hsch, msum_insert_fresh by done.
    repeat case_bool_decide; simplify_eq; lia. }
  split; [|done]. destruct Hinv. split.
  - by rewrite Ha.
  - done.
  - rewrite Hc. simpl. lia.
  - rewrite Hsch, Hc. intros id' s0 [[<- <-]|[Hne Hl0]]%lookup_insert_Some; [done|].
    eapply sched_ok_mono; [done| |eauto]. simpl. lia.
  - intros b i. rewrite Hben, Hsch, lookup_insert. case_decide as Hd; simpl.
    + subst. rewrite elem_of_app, inv_index0, list_elem_of_singleton.
      destruct (decide (i = c + 1)) as [->|Hne].
      * rewrite lookup_insert_eq. naive_solver.
      * rewrite lookup_insert_ne by done. naive_solver.
    + rewrite inv_index0. destruct (decide (i = c + 1)) as [->|Hne].
      * rewrite lookup_insert_eq. naive_solver.
      * by rewrite lookup_insert_ne by done.
  - intros b. rewrite Hben, lookup_insert. case_decide; simpl; [|done].
    subst. apply NoDup_snoc; [done|]. rewrite inv_index0. naive_solver.
  - intros tk. rewrite Hl. apply Hbal.
Qed.

Definition new_schedule (id : Z) (f tk b : Address) (n start cliff dur : Z)
    (rev early : bool) (bps t : Z) : VestingSchedule := {|
  vs_schedule_id := id; vs_token := tk; vs_funder := f; vs_beneficiary := b;
  vs_total_amount := n; vs_claimed_amount := 0;
  vs_start_time := start; vs_cliff_time := start + cliff; vs_end_time := start + dur;
  vs_revocable := rev; vs_early_withdrawal_allowed := early; vs_early_penalty_bps := bps;
  vs_active := true; vs_created_at := t; vs_updated_at := t; vs_last_claimed_at := 0 |}.

Lemma new_schedule_ok self t id f tk b n start cliff dur rev early bps :
  1 ≤ id → 0 ≤ cliff ≤ dur → dur ≠ 0 → 0 ≤ bps ≤ MAX_PENALTY_BPS → 0 < n → f ≠ self →
  sched_ok self t id id (new_schedule id f tk b n start cliff dur rev early bps t).
Proof.
  intros. split; simpl; try done; try lia. intros _. by apply vested_spec_bounds; simpl; lia.
Qed.

(** Taking the next id and storing a schedule under it. *)
Lemma store_next_spec f tk b n start cliff dur rev early bps e w id w1 w' :
  next_schedule_id e w = Ok (id, w1) →
  store_schedule id f tk b n start cliff dur rev early bps e w1 = Ok (tt, w') →
  id = default 0 (ScheduleCounter (store w)) + 1 ∧
  w' = mkWorld {| (store w) with
      ScheduleCounter := Some id;
      Schedule := <[id := new_schedule id f tk b n start cliff dur rev early bps (timestamp e)]>
        (Schedule (store w));
      BeneficiarySchedules :=
        <[b := default [] (BeneficiarySchedules (store w) !! b) ++ [id]]>
          (BeneficiarySchedules (store w)) |}
    (ledger w) (log w ++ [vest_new id f b n]).
Proof.
  intros H1 H2. minv H1 using next_schedule_id. inv_checked.
  unfold store_schedule, set_schedule, add_beneficiary_schedule, beneficiary_schedule_ids in H2.
  minv H2. inv_checked. done.
Qed.

(** The arguments of a creation, checked once for a whole batch. *)
Record terms_ok (self f : Address) (start cliff dur bps : Z) : Prop := {
  tm_cliff : 0 ≤ cliff ≤ dur;
  tm_dur : dur ≠ 0;
  tm_bps : 0 ≤ bps ≤ MAX_PENALTY_BPS;
  tm_funder : f ≠ self;
}.

Lemma store_next_inv self f tk b n start cliff dur rev early bps e w id w1 w' :
  terms_ok self f start cliff dur bps → 0 < n →
  inv self (timestamp e) (store w) (ledger w) →
  (∀ tk', liability tk' (store w) + (if bool_decide (tk' = tk) then n else 0)
          ≤ tok_balance (ledger w) tk' self) →
  next_schedule_id e w = Ok (id, w1) →
  store_schedule id f tk b n start cliff dur rev early bps e w1 = Ok (tt, w') →
  inv self (timestamp e) (store w') (ledger w') ∧ ledger w' = ledger w ∧
  (∀ tk', liability tk' (store w') =
     liability tk' (store w) + (if bool_decide (tk' = tk) then n else 0)).
Proof.
  intros [] Hn Hinv Hbal H1 H2. pose proof (inv_counter _ _ _ _ Hinv) as Hc.
  destruct (store_next_spec _ _ _ _ _ _ _ _ _ _ _ _ _ _ _ H1 H2) as [-> ->]. simpl.
  set (c := default 0 (ScheduleCounter (store w))) in *.
  set (s0 := new_schedule (c + 1) f tk b n start cliff dur rev early bps (timestamp e)).
  assert (owed s0 = n) as Hn' by (unfold owed; simpl; lia).
  match goal with |- inv _ _ ?st' _ ∧ _ =>
    destruct (inv_add self (timestamp e) (store w) (ledger w) st' s0) as [? Hli] end; try done.
  - apply Hinv.
  - apply new_schedule_ok; lia || done.
  - simpl. by rewrite Hn'.
  - split_and!; [done|done|]. intros tk'. rewrite Hli. by rewrite Hn'.
Qed.

(** A payment into the contract leaves it with that much to spare. *)
Lemma vesting_deposit_inv self tk f n e w u w' :
  wf_env self e → f ≠ self →
  inv self (timestamp e) (store w) (ledger w) →
  transfer_token tk f (current_contract_address e) n e w = Ok (u, w') →
  0 < n ∧ store w' = store w ∧ inv self (timestamp e) (store w') (ledger w') ∧
  (∀ tk', liability tk' (store w') + (if bool_decide (tk' = tk) then n else 0)
          ≤ tok_balance (ledger w') tk' self).
Proof.
  intros Hwf Hf Hinv Hr. apply vesting_transfer_token_spec in Hr as (Hn & _ & l' & Ht & ->). simpl.
  rewrite (wf_self _ _ Hwf) in Ht.
  assert ({| (store w) with ReentrancyLock := Some false |} = store w) as ->.
  { rewrite <- (inv_lock _ _ _ _ Hinv). by destruct (store w). }
  assert (∀ tk', tok_balance l' tk' self =
    tok_balance (ledger w) tk' self + (if bool_decide (tk' = tk) then n else 0)) as Hb.
  { intros tk'. eapply moved_in; [|done]. by eapply transfer_moved. }
  split_and!; try done.
  - eapply vesting_inv_mono; [done| |done]. intros tk'. rewrite Hb. case_bool_decide; lia.
  - intros tk'. rewrite Hb. pose proof (inv_solvent _ _ _ _ Hinv tk'). lia.
Qed.

(** A creation's effect on the schedules and the counter. *)
Lemma create_schedule_run f tk b n start cliff dur rev early bps e w id w' :
  create_schedule f tk b n start cliff dur rev early bps e w = Ok (id, w') →
  id = default 0 (ScheduleCounter (store w)) + 1 ∧
  Schedule (store w') =
    <[id := new_schedule id f tk b n start cliff dur rev early bps (timestamp e)]>
      (Schedule (store w)) ∧
  ScheduleCounter (store w') = Some id.
Proof.
  intros Hr. unfold create_schedule, validate_amount, validate_penalty in Hr. minv Hr.
  spec validate_timing_spec as (? & ? & ? & ? & ->).
  spec vesting_transfer_token_spec as (? & ? & l' & ? & ->).
  match goal with H1 : next_schedule_id _ _ = _, H2 : store_schedule _ _ _ _ _ _ _ _ _ _ _ _ _ = _ |- _ =>
    destruct (store_next_spec _ _ _ _ _ _ _ _ _ _ _ _ _ _ _ H1 H2) as [-> ->] end.
  done.
Qed.

Lemma create_schedule_inv self f tk b n start cliff dur rev early bps e w id w' :
  wf_env self e → 0 ≤ cliff → 0 ≤ bps →
  inv self (timestamp e) (store w) (ledger w) →
  create_schedule f tk b n start cliff dur rev early bps e w = Ok (id, w') →
  inv self (timestamp e) (store w') (ledger w').
Proof.
  intros Hwf Hcl Hbp Hinv Hr. unfold create_schedule, validate_amount, validate_penalty in Hr.
  minv Hr. spec validate_timing_spec as (? & ? & ? & ? & ->). arith.
  spec vesting_deposit_inv as (? & ? & ? & ?); [|eauto using wf_auth_ne..].
  by eapply store_next_inv; eauto; split; eauto using wf_auth_ne.
Qed.

Lemma batch_total_spec amounts e w total total' w' :
  foldM (λ total amount,
      validate_amount amount;;
      expect (checked_add I128 total amount) "Batch total overflow") total amounts e w
    = Ok (total', w') →
  total' = total + lsum id amounts ∧ Forall (λ a, 0 < a) amounts ∧ w' = w.
Proof.
  revert total. induction amounts as [|a l IH]; simpl; intros total Hr.
  - minv Hr. split_and!; [lia|constructor|done].
  - unfold validate_amount in Hr. minv Hr. apply IH in Hr as (-> & ? & ->). arith.
    split_and!; [unfold id; lia|by constructor|done].
Qed.

Lemma batch_store_inv self f tk start cliff dur rev early bps e (l : list (Address * Z)) ids ids' w w' :
  terms_ok self f start cliff dur bps → Forall (λ p, 0 < p.2) l →
  inv self (timestamp e) (store w) (ledger w) →
  (∀ tk', liability tk' (store w) + (if bool_decide (tk' = tk) then lsum snd l else 0)
          ≤ tok_balance (ledger w) tk' self) →
  foldM (λ ids '(beneficiary, amount),
      schedule_id ← next_schedule_id;
      store_schedule schedule_id f tk beneficiary amount start cliff dur rev early bps;;
      mret (ids ++ [schedule_id])) ids l e w = Ok (ids', w') →
  inv self (timestamp e) (store w') (ledger w').
Proof.
  intros Htm. revert ids w. induction l as [|[b n] l IH]; simpl; intros ids w Hpos Hinv Hbal Hr.
  - by minv Hr.
  - apply Forall_cons in Hpos as [Hn Hpos]. minv Hr. simpl in Hn.
    assert (0 ≤ lsum snd l).
    { apply lsum_nonneg. intros x Hx. rewrite Forall_forall in Hpos. specialize (Hpos x Hx). lia. }
    edestruct store_next_inv as (Hinv' & Hl & Hli); [exact Htm|exact Hn|exact Hinv| |done..|].
    + intros tk'. specialize (Hbal tk'). case_bool_decide; lia.
    + eapply IH; [done|exact Hinv'| |exact Hr].
      intros tk'. rewrite Hl, Hli. specialize (Hbal tk'). case_bool_decide; lia.
Qed.

Lemma create_schedules_batch_inv self f tk bs ns start cliff dur rev early bps e w ids w' :
  wf_env self e → 0 ≤ cliff → 0 ≤ bps →
  inv self (timestamp e) (store w) (ledger w) →
  create_schedules_batch f tk bs ns start cliff dur rev early bps e w = Ok (ids, w') →
  inv self (timestamp e) (store w') (ledger w').
Proof.
  intros Hwf Hcl Hbp Hinv Hr. unfold create_schedules_batch, validate_penalty in Hr.
  minv Hr. spec validate_timing_spec as (? & ? & ? & ? & ->). arith.
  spec batch_total_spec as (-> & Hpos & ->).
  spec vesting_deposit_inv as (? & ? & ? & Hbal); [|eauto using wf_auth_ne..].
  assert (length bs = length ns) as Hlen by lia.
  spec batch_store_inv as Hi; [done|split; eauto using wf_auth_ne| |done|].
  - apply Forall_forall. intros [b n] Hin%elem_of_zip_r. simpl. by rewrite Forall_forall in Hpos; apply Hpos.
  - intros tk'. specialize (Hbal tk'). rewrite lsum_zip_snd by done. done.
Qed.

Lemma vesting_initialize_inv self adm e w w' :
  wf_env self e → store w = deployed → (∀ tk, 0 ≤ tok_balance (ledger w) tk self) →
  initialize adm e w = Ok (tt, w') →
  inv self (timestamp e) (store w') (ledger w').
Proof.
  intros Hwf Hs Hb Hr. minv Hr using initialize. rewrite Hs. split; simpl; try done.
  - intros b id. rewrite lookup_empty; simpl. set_solver.
  - intros b. rewrite lookup_empty. constructor.
Qed.

Lemma initialize_again self t adm e w w' :
  inv self t (store w) (ledger w) → initialize adm e w = Ok (tt, w') → False.
Proof.
  intros Hinv Hr. minv Hr using initialize. zbool.
  destruct (inv_admin _ _ _ _ Hinv) as [a Ha]. naive_solver.
Qed.

Lemma vesting_claim_batch_inv self ids b e w r w' :
  wf_env self e →
  inv self (timestamp e) (store w) (ledger w) →
  claim_batch ids b e w = Ok (r, w') →
  inv self (timestamp e) (store w') (ledger w').
Proof.
  intros Hwf Hinv Hr. minv Hr using claim_batch.
  spec (foldM_inv _ (λ _ w, inv self (timestamp e) (store w) (ledger w))) as Hfin;
    [exact Hfin|exact Hinv|].
  intros id tot wa tot' wb _ Hi Hrun. minv Hrun.
  eapply vesting_claim_one_inv; eauto using wf_auth_ne.
Qed.

Lemma vesting_exec_inv self t c e w w' :
  wf_env self e → t ≤ timestamp e → call_ok c →
  inv self t (store w) (ledger w) → exec c e w = Ok (tt, w') →
  inv self (timestamp e) (store w') (ledger w').
Proof.
  intros Hwf Ht Hok Hinv0 Hr.
  assert (inv self (timestamp e) (store w) (ledger w)) as Hinv by by eapply vesting_inv_mono.
  clear Hinv0. destruct c; simpl in Hr, Hok; try (apply discard_Ok in Hr as [r Hr]).
  - exfalso. eapply initialize_again; eauto.
  - destruct Hok. by eapply create_schedule_inv; [..|exact Hr].
  - destruct Hok. by eapply create_schedules_batch_inv; [..|exact Hr].
  - minv Hr using claim. eapply vesting_claim_one_inv; eauto using wf_auth_ne.
  - eapply vesting_claim_batch_inv; eauto.
  - eapply early_withdraw_inv; eauto.
  - destruct Hok. by eapply modify_schedule_inv; [..|exact Hr].
  - eapply increase_schedule_amount_inv; eauto.
  - eapply revoke_schedule_inv; eauto.
Qed.
End invariant.

(** ** Reachable worlds

    The contract at [self] was deployed with empty storage, initialized, and
    then took any sequence of calls and outside token movements. *)

Definition reachable `{TokenHost} (self : Address) (t : Z) (w : World State Event) : Prop :=
  ∃ e0 w0 adm w1, wf_env self e0 ∧ store w0 = deployed ∧
    (∀ tk, 0 ≤ tok_balance (ledger w0) tk self) ∧
    initialize adm e0 w0 = Ok (tt, w1) ∧
    rtc (step exec call_ok self) (timestamp e0, w1) (t, w).

Lemma vesting_reachable_inv `{TokenLaws} self t (w : World State Event) :
  reachable self t w → inv self t (store w) (ledger w).
Proof.
  intros (e0 & w0 & adm & w1 & Hwf & Hs & Hb & Hinit & Hsteps).
  apply (reach_inv exec call_ok self (inv self)) in Hsteps; [done| | |].
  - intros; by eapply vesting_exec_inv.
  - intros; by eapply vesting_inv_mono.
  - by eapply vesting_initialize_inv.
Qed.

Lemma reachable_now `{TokenLaws} self t e (w : World State Event) :
  reachable self t w → t ≤ timestamp e → inv self (timestamp e) (store w) (ledger w).
Proof. intros Hr Ht. eapply vesting_inv_mono; [done| |by apply vesting_reachable_inv]. done. Qed.

(** ** Theorems *)

Section theorems.
Context `{Laws : TokenLaws}.
Implicit Types (w : World State Event) (e : Env).

(** C1: in every reachable world, for every token, the contract holds at
    least the sum over its schedules of what they have not yet paid out. *)
Theorem vesting_solvent self t w tk :
  reachable self t w → liability tk (store w) ≤ tok_balance (ledger w) tk self.
Proof. intros Hr. by apply (inv_solvent _ _ _ _ (vesting_reachable_inv _ _ _ Hr)). Qed.

(** Every stored schedule is well formed at the current time: its id is
    its key, start <= cliff <= end with start < end, the penalty is at most
    100%, 0 <= claimed <= total, an active schedule has claimed no more than
    has vested and an inactive one is fully settled. *)
Theorem vesting_schedules_ok self t w id s :
  reachable self t w → Schedule (store w) !! id = Some s →
  sched_ok self t (default 0 (ScheduleCounter (store w))) id s.
Proof. intros Hr. apply (inv_sched _ _ _ _ (vesting_reachable_inv _ _ _ Hr)). Qed.

(** The per-beneficiary index is exact: an id is listed under [b] exactly
    when its schedule's beneficiary is [b], and it is listed once. *)
Theorem vesting_index_exact self t w b :
  reachable self t w →
  NoDup (default [] (BeneficiarySchedules (store w) !! b)) ∧
  ∀ id, id ∈ default [] (BeneficiarySchedules (store w) !! b) ↔
    ∃ s, Schedule (store w) !! id = Some s ∧ vs_beneficiary s = b.
Proof.
  intros Hr. pose proof (vesting_reachable_inv _ _ _ Hr) as Hinv. split; [apply Hinv|].
  intros id. apply Hinv.
Qed.

(** C2: [vested_for] computes the vesting curve exactly: on a well-formed
    schedule it panics only when [total_amount * elapsed] does not fit in an
    i128 in the linear part, and returns the curve's value otherwise. *)
Theorem vested_for_refines s t e w :
  0 ≤ vs_total_amount s → 0 ≤ vs_start_time s < vs_end_time s →
  vs_end_time s ≤ int_max U64 → 0 ≤ t ≤ int_max U64 →
  vested_for s t e w =
    if (vs_cliff_time s <=? t) && (vs_start_time s <? t) && (t <? vs_end_time s)
       && negb (in_range I128 (vs_total_amount s * (t - vs_start_time s)))
    then Panic "Vesting multiplication overflow"
    else Ok (vested_spec s t, w).
Proof.
  intros Ht Hse He Hti. unfold vested_for, vested_spec. rewrite Z.geb_leb.
  destruct (t <? vs_cliff_time s) eqn:E1, (t <=? vs_start_time s) eqn:E2,
    (vs_cliff_time s <=? t) eqn:E3, (vs_start_time s <? t) eqn:E4; zbool; try lia; try done.
  destruct (vs_end_time s <=? t) eqn:E5, (t <? vs_end_time s) eqn:E6; zbool; try lia; [done|].
  cbn [int_max] in *. unfold mbind, M_bind, expect, orb, andb.
  rewrite !(proj2 (checked_sub_Some U64 _ _ _)) by (split; [done|cbn; lia]).
  destruct (_ =? 0) eqn:E7; zbool; [lia|]. unfold checked_mul, checked.
  destruct (in_range _ _) eqn:E8; simpl; [|done]. unfold mret, M_ret. do 2 f_equal.
  apply quot_div_nonneg; nia.
Qed.

(** Vesting never runs backwards and never exceeds the total: of two
    successful evaluations the later gives at least as much, between 0 and
    [total_amount]. *)
Theorem vested_for_monotone s t1 t2 e1 e2 w1 w2 v1 v2 w1' w2' :
  0 ≤ vs_total_amount s → t1 ≤ t2 →
  vested_for s t1 e1 w1 = Ok (v1, w1') → vested_for s t2 e2 w2 = Ok (v2, w2') →
  0 ≤ v1 ≤ v2 ∧ v2 ≤ vs_total_amount s.
Proof.
  intros Ht Hle H1 H2.
  apply vested_for_spec in H1 as [-> _], H2 as [-> _]; [|done..].
  pose proof (vested_spec_bounds s t1 Ht). pose proof (vested_spec_bounds s t2 Ht).
  pose proof (vested_spec_mono s t1 t2 Ht Hle). lia.
Qed.

(** A successful claim by the beneficiary pays exactly the vested amount
    not yet claimed, which is positive; it records it, moves it from the
    contract to the beneficiary, touches no other account and no other
    schedule, and a second claim at the same time fails. *)
Theorem claim_pays_vested self t id b e w paid w' :
  wf_env self e → reachable self t w → t ≤ timestamp e →
  claim id b e w = Ok (paid, w') →
  ∃ s, Schedule (store w) !! id = Some s ∧ vs_beneficiary s = b ∧ vs_active s = true ∧
    paid = vested_spec s (timestamp e) - vs_claimed_amount s ∧ 0 < paid ∧
    Schedule (store w') = <[id := after_claim s (timestamp e) paid]> (Schedule (store w)) ∧
    moved (ledger w) (ledger w') (vs_token s) self b paid ∧
    (∀ e2 r, timestamp e2 = timestamp e → claim id b e2 w' ≠ Ok r).
Proof.
  intros Hwf Hreach Ht Hr. pose proof (reachable_now _ _ e _ Hreach Ht) as Hinv.
  assert (Hinv' : inv self (timestamp e) (store w') (ledger w')).
  { apply (vesting_exec_inv self (timestamp e) (CClaim id b) e w w'); try done. simpl.
    apply discard_Ok. eauto. }
  minv Hr using claim. zbool.
  spec vesting_claim_one_spec as (s & Hs & Hb & [(-> & _)|(Ha & Hp & Hpos & l' & Htr & ->)]);
    [lia| |exact Hinv].
  exists s. rewrite (wf_self _ _ Hwf) in Htr. split_and!; try done.
  - by eapply transfer_moved.
  - intros e2 [r w2] Hte Hagain. minv Hagain using claim. zbool. rewrite <- Hte in *.
    spec vesting_claim_one_spec as (s2 & Hs2 & Hb2 & [(-> & _)|(Ha2 & Hp2 & Hpos2 & _)]);
      [lia| |exact Hinv'].
    simpl in Hs2. rewrite lookup_insert_eq in Hs2. simplify_eq/=.
    change (vested_spec (after_claim s (timestamp e2) _) (timestamp e2))
      with (vested_spec s (timestamp e2)) in Hpos2. lia.
Qed.

(** An early withdrawal settles the schedule and conserves tokens: the
    beneficiary gets the vested remainder plus the unvested part less a
    penalty of [bps] of it, the funder gets the penalty, and together that is
    everything the schedule still held. *)
Theorem early_withdraw_conserves self t id b e w r w' :
  wf_env self e → reachable self t w → t ≤ timestamp e →
  early_withdraw id b e w = Ok (r, w') →
  ∃ s, Schedule (store w) !! id = Some s ∧ vs_beneficiary s = b ∧
    vs_early_withdrawal_allowed s = true ∧
    Schedule (store w') = <[id := after_early s (timestamp e)]> (Schedule (store w)) ∧
    ew_penalty_amount r = ((vs_total_amount s - vested_spec s (timestamp e))
                           * vs_early_penalty_bps s) `div` BPS_DENOMINATOR ∧
    ew_total_paid r + ew_penalty_amount r = owed s ∧
    0 ≤ ew_total_paid r ∧ 0 ≤ ew_penalty_amount r ∧
    (∀ tk, tok_balance (ledger w') tk self =
       tok_balance (ledger w) tk self - (if bool_decide (tk = vs_token s) then owed s else 0)) ∧
    (b ≠ vs_funder s →
       tok_balance (ledger w') (vs_token s) b =
         tok_balance (ledger w) (vs_token s) b + ew_total_paid r ∧
       tok_balance (ledger w') (vs_token s) (vs_funder s) =
         tok_balance (ledger w) (vs_token s) (vs_funder s) + ew_penalty_amount r).
Proof.
  intros Hwf Hreach Ht Hr. pose proof (reachable_now _ _ e _ Hreach Ht) as Hinv.
  eapply early_withdraw_spec in Hr as (s & l1 & l2 & Hs & Hb & Ha & Hal & Hau & Hid & Hv & Hp & Hu
    & Htp & Hpb & Hl1 & Hl2 & ->); [|done].
  pose proof (inv_sched _ _ _ _ Hinv _ _ Hs) as [].
  specialize (so_vested0 Ha). pose proof (wf_auth_ne _ _ _ Hwf Hau) as Hbs.
  assert (0 ≤ ew_penalty_amount r ∧ 0 ≤ ew_total_paid r) as [Hn1 Hn2] by lia.
  exists s. split_and!; try done.
  - unfold owed. lia.
  - intros tk. simpl.
    rewrite (paid_out_balance _ _ _ _ _ _ _ tk Hwf Hn1 so_funder0 Hl2).
    rewrite (paid_out_balance _ _ _ _ _ _ _ tk Hwf Hn2 Hbs Hl1).
    unfold owed. case_bool_decide; lia.
  - intros Hbf. simpl. apply paid_out_moved in Hl1, Hl2; [|done..].
    rewrite !Hl2, !Hl1, (wf_self _ _ Hwf). repeat case_bool_decide; naive_solver lia.
Qed.

(** Revoking refunds exactly the unvested part to the funder and leaves
    the vested part intact: the amount the beneficiary can claim is, from then
    on and for ever, what it was at the moment of the revocation. *)
Theorem revoke_keeps_vested self t adm id e w refund w' :
  wf_env self e → reachable self t w → t ≤ timestamp e →
  revoke_schedule adm id e w = Ok (refund, w') →
  ∃ s s', Schedule (store w) !! id = Some s ∧ Schedule (store w') !! id = Some s' ∧
    vs_revocable s = true ∧ Admin (store w) = Some adm ∧
    refund = vs_total_amount s - vested_spec s (timestamp e) ∧
    (∀ tk, tok_balance (ledger w') tk self =
       tok_balance (ledger w) tk self - (if bool_decide (tk = vs_token s) then refund else 0)) ∧
    vs_claimed_amount s' = vs_claimed_amount s ∧
    owed s' = vested_spec s (timestamp e) - vs_claimed_amount s ∧
    (vs_active s' = true →
       ∀ t2, timestamp e ≤ t2 → vested_spec s' t2 = vested_spec s (timestamp e)).
Proof.
  intros Hwf Hreach Ht Hr. pose proof (reachable_now _ _ e _ Hreach Ht) as Hinv.
  eapply revoke_schedule_spec in Hr as (s & l' & Hs & Ha & Hrev & Hadm & Hau & -> & Hp & ->); [|done].
  pose proof (inv_sched _ _ _ _ Hinv _ _ Hs) as Hok.
  pose proof (vested_spec_bounds s (timestamp e) ltac:(destruct Hok; lia)) as Hb.
  exists s, (after_revoke s (timestamp e)). split_and!; try done.
  - apply lookup_insert_eq.
  - intros tk. eapply paid_out_balance; [done|lia| |done]. apply Hok.
  - simpl. intros Hact t2 Ht2. zbool.
    pose proof (after_revoke_ok _ _ _ _ _ Hok Ha) as Hok'.
    pose proof (vested_spec_mono (after_revoke s (timestamp e)) (timestamp e) t2 ltac:(simpl; lia) Ht2).
    pose proof (vested_spec_bounds (after_revoke s (timestamp e)) t2 ltac:(simpl; lia)) as Hb2.
    assert (vested_spec (after_revoke s (timestamp e)) (timestamp e) = vested_spec s (timestamp e));
      [|simpl in *; lia].
    apply vested_after_revoke; destruct Hok; lia.
Qed.

(** Before [initialize] the contract already creates schedules, and
    [initialize] then resets the id counter: the next schedule created takes
    the id of the first one and overwrites it, although the contract keeps
    the tokens paid for it. *)
Theorem create_before_initialize_overwrites
    f tk b n st cl du re ea bps e w id w1 adm e1 w2 f' tk' b' n' st' cl' du' re' ea' bps' e2 id' w3 :
  store w = deployed →
  create_schedule f tk b n st cl du re ea bps e w = Ok (id, w1) →
  initialize adm e1 w1 = Ok (tt, w2) →
  create_schedule f' tk' b' n' st' cl' du' re' ea' bps' e2 w2 = Ok (id', w3) →
  id' = id ∧
  Schedule (store w1) = {[ id := new_schedule id f tk b n st cl du re ea bps (timestamp e) ]} ∧
  Schedule (store w3) =
    {[ id := new_schedule id f' tk' b' n' st' cl' du' re' ea' bps' (timestamp e2) ]}.
Proof.
  intros Hs H1 H2 H3.
  apply create_schedule_run in H1 as (-> & Hs1 & Hc1). rewrite Hs in *; simpl in *.
  minv H2 using initialize.
  apply create_schedule_run in H3 as (-> & Hs3 & Hc3). simpl in *.
  rewrite Hs3, Hs1, insert_insert_eq. split_and!; done.
Qed.
End theorems.

(** ** Concrete runs

    One contract on the concrete ledger: initialized at time 0, a schedule of
    1000 tokens over 100 seconds created at time 10. *)

Module VestingDemo.

Definition self := mkAddress "C".
Definition adm := mkAddress "ADM".
Definition fund := mkAddress "FUND".
Definition ben := mkAddress "BEN".
Definition tok := mkAddress "TOK".

Definition e0 := env_at 0 self [adm].
Definition e1 := env_at 10 self [fund].
Definition e2 := env_at 60 self [ben].
Definition e3 := env_at 60 self [adm].

Definition w0 : World State Event := mkWorld deployed (sl_of [(tok, fund, 1500)]) [].
Definition w1 := world_of (initialize adm e0 w0) w0.
Definition create1 := CCreateSchedule fund tok ben 1000 10 20 100 true true 2500.
Definition w2 := world_of (exec create1 e1 w1) w0.
Definition s1 := new_schedule 1 fund tok ben 1000 10 20 100 true true 2500 10.

Lemma wf_at t signers : 0 ≤ t ≤ int_max U64 → bool_decide (self ∈ signers) = false →
  wf_env self (env_at t self signers).
Proof. intros Ht Hs. by split. Qed.

Lemma vesting_w1_init : initialize adm e0 w0 = Ok (tt, w1).
Proof. apply run_ok_unit. vm_compute. reflexivity. Qed.

Lemma vesting_w2_reachable : reachable self 10 w2.
Proof.
  exists e0, w0, adm, w1. split_and!.
  - apply wf_at; [vm_compute; split; discriminate|reflexivity].
  - reflexivity.
  - intros tk. apply (sl_of_nonneg [(tok, fund, 1500)]). reflexivity.
  - apply vesting_w1_init.
  - apply rtc_once. apply (step_call exec call_ok self 0 create1 e1 w1 w2).
    + apply wf_at; [vm_compute; split; discriminate|reflexivity].
    + discriminate.
    + split; discriminate.
    + apply run_ok_unit. vm_compute. reflexivity.
Qed.

Lemma vesting_wf_e2 : wf_env self e2.
Proof. apply wf_at; [vm_compute; split; discriminate|reflexivity]. Qed.

Lemma wf_e3 : wf_env self e3.
Proof. apply wf_at; [vm_compute; split; discriminate|reflexivity]. Qed.

Lemma s1_stored : Schedule (store w2) !! 1 = Some s1.
Proof. vm_compute. reflexivity. Qed.

Lemma vesting_solvent_witness :
  liability tok (store w2) = 1000 ∧
  liability tok (store w2) ≤ tok_balance (ledger w2) tok self.
Proof. split; [vm_compute; reflexivity|]. apply (vesting_solvent self 10 w2 tok vesting_w2_reachable). Defined.

Lemma vesting_schedules_ok_witness : sched_ok self 10 1 1 s1.
Proof. apply (vesting_schedules_ok self 10 w2 1 s1 vesting_w2_reachable s1_stored). Defined.

Lemma vesting_index_exact_witness :
  1 ∈ default [] (BeneficiarySchedules (store w2) !! ben) ↔
  ∃ s, Schedule (store w2) !! 1 = Some s ∧ vs_beneficiary s = ben.
Proof. apply (vesting_index_exact self 10 w2 ben vesting_w2_reachable). Defined.

Lemma vested_for_refines_witness :
  vested_for s1 60 e2 w2 = Ok (500, w2) ∧
  vested_for {| s1 with vs_total_amount := 2 ^ 126 |} 60 e2 w2
    = Panic "Vesting multiplication overflow".
Proof.
  split.
  - rewrite (vested_for_refines s1 60 e2 w2) by (repeat split; discriminate). reflexivity.
  - rewrite (vested_for_refines _ 60 e2 w2) by (repeat split; discriminate). reflexivity.
Defined.

Lemma vested_for_monotone_witness : 0 ≤ 200 ≤ 500 ∧ 500 ≤ 1000.
Proof.
  apply (vested_for_monotone s1 30 60 e2 e2 w2 w2 200 500 w2 w2);
    [discriminate|discriminate|reflexivity|reflexivity].
Defined.

Lemma claim_pays_vested_witness :
  ∃ w', claim 1 ben e2 w2 = Ok (500, w') ∧ moved (ledger w2) (ledger w') tok self ben 500.
Proof.
  exists (world_of (claim 1 ben e2 w2) w0).
  assert (claim 1 ben e2 w2 = Ok (500, world_of (claim 1 ben e2 w2) w0)) as Hc
    by (apply (run_ok_val _ 500 0); vm_compute; reflexivity).
  split; [exact Hc|].
  destruct (claim_pays_vested self 10 1 ben e2 w2 _ _ vesting_wf_e2 vesting_w2_reachable ltac:(discriminate) Hc)
    as (s & Hs & _ & _ & _ & _ & _ & Hm & _).
  rewrite s1_stored in Hs. injection Hs as <-. assumption.
Defined.

Lemma early_withdraw_conserves_witness :
  ∃ r w', early_withdraw 1 ben e2 w2 = Ok (r, w') ∧
    ew_total_paid r = 875 ∧ ew_penalty_amount r = 125 ∧
    ew_total_paid r + ew_penalty_amount r = owed s1.
Proof.
  set (d := mkEarlyWithdrawalResult 0 0 0 0 0).
  exists (value_of (early_withdraw 1 ben e2 w2) d), (world_of (early_withdraw 1 ben e2 w2) w0).
  assert (early_withdraw 1 ben e2 w2 = Ok (value_of (early_withdraw 1 ben e2 w2) d,
    world_of (early_withdraw 1 ben e2 w2) w0)) as Hc
    by (apply run_ok; vm_compute; reflexivity).
  split_and!; [exact Hc|vm_compute; reflexivity..|].
  destruct (early_withdraw_conserves self 10 1 ben e2 w2 _ _ vesting_wf_e2 vesting_w2_reachable
    ltac:(discriminate) Hc) as (s & Hs & _ & _ & _ & _ & Hsum & _).
  rewrite s1_stored in Hs. injection Hs as <-. assumption.
Defined.

Lemma revoke_keeps_vested_witness :
  ∃ w', revoke_schedule adm 1 e3 w2 = Ok (500, w') ∧
    ∃ s', Schedule (store w') !! 1 = Some s' ∧ owed s' = 500.
Proof.
  exists (world_of (revoke_schedule adm 1 e3 w2) w0).
  assert (revoke_schedule adm 1 e3 w2 = Ok (500, world_of (revoke_schedule adm 1 e3 w2) w0)) as Hc
    by (apply (run_ok_val _ 500 0); vm_compute; reflexivity).
  split; [exact Hc|].
  destruct (revoke_keeps_vested self 10 adm 1 e3 w2 _ _ wf_e3 vesting_w2_reachable
    ltac:(discriminate) Hc) as (s & s' & Hs & Hs' & _ & _ & _ & _ & _ & Ho & _).
  exists s'. split; [exact Hs'|]. rewrite s1_stored in Hs. injection Hs as <-.
  rewrite Ho. vm_compute. reflexivity.
Defined.

(** A schedule of 1000 tokens created before initialization is replaced by
    one of 300; the contract then holds 1300 and owes 300. *)
Definition b1 := world_of (create_schedule fund tok ben 1000 10 20 100 true true 2500 e1 w0) w0.
Definition b2 := world_of (initialize adm e3 b1) b1.
Definition b3 := world_of (create_schedule fund tok adm 300 10 0 50 true true 0 e1 b2) b2.

Lemma create_before_initialize_overwrites_witness :
  Schedule (store b3) = {[ 1 := new_schedule 1 fund tok adm 300 10 0 50 true true 0 10 ]} ∧
  tok_balance (ledger b3) tok self = 1300 ∧ liability tok (store b3) = 300.
Proof.
  split; [|split; [vm_compute; reflexivity|vm_compute; reflexivity]].
  apply (create_before_initialize_overwrites fund tok ben 1000 10 20 100 true true 2500 e1 w0 1 b1
    adm e3 b2 fund tok adm 300 10 0 50 true true 0 e1 1 b3).
  - reflexivity.
  - apply (run_ok_val _ 1 0); vm_compute; reflexivity.
  - apply run_ok_unit. vm_compute. reflexivity.
  - apply (run_ok_val _ 1 0); vm_compute; reflexivity.
Defined.
End VestingDemo.
