(* ===== verification/FeeDistribution.v ===== *)
(** * contracts/fee-distribution: protocol fees, shares and claims

    State and operations of the [FeeDistribution] contract
    (src/contracts/fee-distribution/src/lib.rs). *)

From stdpp Require Import gmap strings list fin_maps.
From S2P Require Import Prelude Soroban.
Open Scope Z_scope.

(** ** Data *)

Definition BPS_DENOMINATOR : Z := 10000.
Definition HARD_CAP_FEE_RATE_BPS : Z := 2000.
Definition MAX_FEE_RATE_STEP_BPS : Z := 500.
Definition MAX_CATEGORIES : Z := 20.
Definition MAX_BATCH_SIZE : Z := 50.
Definition MAX_HISTORY_LIMIT : Z := 100.

Record RecipientCategory := mkRecipientCategory {
  rc_category_id : Symbol;
  rc_recipient : Address;
  rc_share_bps : Z;
  rc_total_allocated : Z;
  rc_total_claimed : Z;
  rc_active : bool;
}.

Record CategoryAllocation := mkCategoryAllocation {
  ca_category_id : Symbol;
  ca_amount : Z;
}.

Record DistributionRecord := mkDistributionRecord {
  dr_distribution_id : Z;
  dr_total_amount : Z;
  dr_category_count : Z;
  dr_timestamp : Z;
  dr_allocations : list CategoryAllocation;
}.

Record State := mkState {
  Admin : option Address;
  Token : option Address;
  Paused : option bool;
  FeeRateBps : option Z;
  MaxFeeRateBps : option Z;
  TotalCollected : option Z;
  TotalAllocated : option Z;
  TotalSharesBps : option Z;
  CategoryIds : option (list Symbol);
  Category : gmap Symbol RecipientCategory;
  Exempt : gmap Address bool;
  DistributionCounter : option Z;
  Distribution : gmap Z DistributionRecord;
  ReentrancyLock : option bool;
}.

Inductive Event :=
| fee_init (admin token : Address) (fee_rate_bps : Z)
| fee_pause (admin : Address)
| fee_resm (admin : Address)
| fee_rate_ev (admin : Address) (new_rate_bps : Z)
| fee_emg (admin : Address) (new_rate_bps : Z)
| fee_maxr (admin : Address) (new_max_bps : Z)
| fee_cat (category_id : Symbol) (recipient : Address) (share_bps : Z)
| fee_catu (category_id : Symbol) (admin : Address)
| fee_catr (category_id : Symbol) (admin : Address)
| fee_catv (category_id : Symbol) (admin : Address)
| fee_exm (account : Address) (exempt : bool)
| fee_col (payer : Address) (gross_amount fee : Z)
| fee_dist (distribution_id pending active_count : Z)
| fee_bclm (recipient : Address) (total_paid count : Z)
| fee_clm (category_id : Symbol) (recipient : Address) (claimable : Z).

Ltac mred v ::= eval cbn [store ledger log Admin Token Paused FeeRateBps MaxFeeRateBps
  TotalCollected TotalAllocated TotalSharesBps CategoryIds Category Exempt DistributionCounter
  Distribution ReentrancyLock rc_category_id rc_recipient rc_share_bps rc_total_allocated
  rc_total_claimed rc_active] in v.

Section contract.
Context `{TokenHost}.

Local Abbreviation C := (M State Empty_set Event).

(** ** Internal helpers *)

Definition load_category (category_id : Symbol) : C RecipientCategory :=
  o ← gets (λ s, Category s !! category_id);
  expect o "Category not found".

Definition set_category (category_id : Symbol) (category : RecipientCategory) : C () :=
  modify (λ s, {| s with Category := <[category_id := category]> (Category s) |}).

Definition category_ids : C (list Symbol) := gets (λ s, default [] (CategoryIds s)).
Definition total_shares_bps : C Z := gets (λ s, default 0 (TotalSharesBps s)).
Definition total_collected : C Z := gets (λ s, default 0 (TotalCollected s)).
Definition total_allocated : C Z := gets (λ s, default 0 (TotalAllocated s)).

Definition fee_rate : C Z :=
  o ← gets FeeRateBps; expect o "Contract not initialized".
Definition max_fee_rate : C Z :=
  o ← gets MaxFeeRateBps; expect o "Contract not initialized".
Definition paused : C bool := gets (λ s, default false (Paused s)).
Definition token : C Address :=
  o ← gets Token; expect o "Contract not initialized".
Definition admin : C Address :=
  o ← gets Admin; expect o "Contract not initialized".

Definition assert_admin (caller : Address) : C () :=
  a ← admin;
  panic_if (bool_decide (caller ≠ a)) "Unauthorized: caller is not admin".

Definition validate_share (share_bps : Z) : C () :=
  panic_if ((share_bps =? 0) || (share_bps >? BPS_DENOMINATOR))
    "Share must be between 1 and 10000 bps".

Definition validate_max_rate (max_fee_rate_bps : Z) : C () :=
  panic_if ((max_fee_rate_bps =? 0) || (max_fee_rate_bps >? HARD_CAP_FEE_RATE_BPS))
    "Max fee rate exceeds hard cap".

Definition enter_non_reentrant : C () :=
  locked ← gets (λ s, default false (ReentrancyLock s));
  panic_if locked "Reentrant call blocked";;
  modify (λ s, {| s with ReentrancyLock := Some true |}).

Definition exit_non_reentrant : C () :=
  modify (λ s, {| s with ReentrancyLock := Some false |}).

Definition transfer_token (token from to : Address) (amount : Z) : C () :=
  enter_non_reentrant;;
  panic_if (amount <=? 0) "Transfer amount must be positive";;
  token_transfer token from to amount;;
  exit_non_reentrant.

Definition next_distribution_id : C Z :=
  current ← gets (λ s, default 0 (DistributionCounter s));
  next ← expect (checked_add U64 current 1) "Distribution ID overflow";
  modify (λ s, {| s with DistributionCounter := Some next |});;
  mret next.

Definition claim_one (category_id : Symbol) (recipient : Address) (require_positive : bool)
    : C Z :=
  category ← load_category category_id;
  if bool_decide (rc_recipient category ≠ recipient) then
    panic_if require_positive "Only recipient can claim";;
    mret 0
  else
    claimable ← expect
      (checked_sub I128 (rc_total_allocated category) (rc_total_claimed category))
      "Claimable underflow";
    if claimable <=? 0 then
      panic_if require_positive "Nothing to claim";;
      mret 0
    else
      claimed ← expect (checked_add I128 (rc_total_claimed category) claimable)
                  "Claimed overflow";
      set_category category_id {| category with rc_total_claimed := claimed |};;
      tk ← token;
      contract_address ← self_address;
      transfer_token tk contract_address recipient claimable;;
      publish (fee_clm category_id recipient claimable);;
      mret claimable.

(** ** Administration *)

Definition initialize (admin token : Address) (fee_rate_bps max_fee_rate_bps : Z) : C () :=
  a ← gets Admin;
  panic_if (bool_decide (is_Some a)) "Already initialized";;
  require_auth admin;;
  validate_max_rate max_fee_rate_bps;;
  panic_if (fee_rate_bps >? max_fee_rate_bps) "Fee rate exceeds max fee rate";;
  modify (λ s, {| s with Admin := Some admin |});;
  modify (λ s, {| s with Token := Some token |});;
  modify (λ s, {| s with Paused := Some false |});;
  modify (λ s, {| s with FeeRateBps := Some fee_rate_bps |});;
  modify (λ s, {| s with MaxFeeRateBps := Some max_fee_rate_bps |});;
  modify (λ s, {| s with TotalCollected := Some 0 |});;
  modify (λ s, {| s with TotalAllocated := Some 0 |});;
  modify (λ s, {| s with TotalSharesBps := Some 0 |});;
  modify (λ s, {| s with CategoryIds := Some [] |});;
  modify (λ s, {| s with DistributionCounter := Some 0 |});;
  modify (λ s, {| s with ReentrancyLock := Some false |});;
  publish (fee_init admin token fee_rate_bps).

Definition pause (admin : Address) : C () :=
  require_auth admin;;
  assert_admin admin;;
  p ← paused;
  panic_if p "Already paused";;
  modify (λ s, {| s with Paused := Some true |});;
  publish (fee_pause admin).

Definition unpause (admin : Address) : C () :=
  require_auth admin;;
  assert_admin admin;;
  p ← paused;
  panic_if (negb p) "Not paused";;
  modify (λ s, {| s with Paused := Some false |});;
  publish (fee_resm admin).

Definition set_fee_rate (admin : Address) (new_rate_bps : Z) : C () :=
  require_auth admin;;
  assert_admin admin;;
  max_rate ← max_fee_rate;
  panic_if (new_rate_bps >? max_rate) "Fee rate exceeds max fee rate";;
  current ← fee_rate;
  let delta := Z.abs (new_rate_bps - current) in
  panic_if (delta >? MAX_FEE_RATE_STEP_BPS)
    "Rate change exceeds max step; use emergency_set_fee_rate";;
  modify (λ s, {| s with FeeRateBps := Some new_rate_bps |});;
  publish (fee_rate_ev admin new_rate_bps).

Definition emergency_set_fee_rate (admin : Address) (new_rate_bps : Z) : C () :=
  require_auth admin;;
  assert_admin admin;;
  max_rate ← max_fee_rate;
  panic_if (new_rate_bps >? max_rate) "Fee rate exceeds max fee rate";;
  modify (λ s, {| s with FeeRateBps := Some new_rate_bps |});;
  publish (fee_emg admin new_rate_bps).

Definition set_max_fee_rate (admin : Address) (new_max_bps : Z) : C () :=
  require_auth admin;;
  assert_admin admin;;
  validate_max_rate new_max_bps;;
  modify (λ s, {| s with MaxFeeRateBps := Some new_max_bps |});;
  rate ← fee_rate;
  (if rate >? new_max_bps then modify (λ s, {| s with FeeRateBps := Some new_max_bps |})
   else mret tt);;
  publish (fee_maxr admin new_max_bps).

Definition add_category (admin : Address) (category_id : Symbol) (recipient : Address)
    (share_bps : Z) : C () :=
  require_auth admin;;
  assert_admin admin;;
  o ← gets (λ s, Category s !! category_id);
  panic_if (bool_decide (is_Some o)) "Category already exists";;
  validate_share share_bps;;
  ids ← category_ids;
  panic_if (Z.of_nat (length ids) >=? MAX_CATEGORIES) "Maximum categories reached";;
  total_shares ← total_shares_bps;
  new_total ← expect (checked_add U32 total_shares share_bps) "Share total overflow";
  panic_if (new_total >? BPS_DENOMINATOR) "Total shares exceed 100%";;
  set_category category_id {|
    rc_category_id := category_id; rc_recipient := recipient; rc_share_bps := share_bps;
    rc_total_allocated := 0; rc_total_claimed := 0; rc_active := true |};;
  modify (λ s, {| s with CategoryIds := Some (ids ++ [category_id]) |});;
  modify (λ s, {| s with TotalSharesBps := Some new_total |});;
  publish (fee_cat category_id recipient share_bps).

Definition update_category (admin : Address) (category_id : Symbol)
    (new_recipient : option Address) (new_share_bps : option Z) : C RecipientCategory :=
  require_auth admin;;
  assert_admin admin;;
  category ← load_category category_id;
  panic_if (negb (rc_active category)) "Category is not active";;
  category1 ← match new_share_bps with
    | Some share_bps =>
        validate_share share_bps;;
        total_shares ← total_shares_bps;
        remaining ← expect (checked_sub U32 total_shares (rc_share_bps category))
                      "Share total underflow";
        new_total ← expect (checked_add U32 remaining share_bps) "Share total overflow";
        panic_if (new_total >? BPS_DENOMINATOR) "Total shares exceed 100%";;
        modify (λ s, {| s with TotalSharesBps := Some new_total |});;
        mret {| category with rc_share_bps := share_bps |}
    | None => mret category
    end;
  let category2 := match new_recipient with
    | Some recipient => {| category1 with rc_recipient := recipient |}
    | None => category1
    end in
  set_category category_id category2;;
  publish (fee_catu category_id admin);;
  mret category2.

Definition remove_category (admin : Address) (category_id : Symbol) : C () :=
  require_auth admin;;
  assert_admin admin;;
  category ← load_category category_id;
  panic_if (negb (rc_active category)) "Category already inactive";;
  total_shares ← total_shares_bps;
  new_total ← expect (checked_sub U32 total_shares (rc_share_bps category))
                "Share total underflow";
  modify (λ s, {| s with TotalSharesBps := Some new_total |});;
  set_category category_id {| category with rc_active := false; rc_share_bps := 0 |};;
  publish (fee_catr category_id admin).

Definition reactivate_category (admin : Address) (category_id : Symbol) (share_bps : Z) : C () :=
  require_auth admin;;
  assert_admin admin;;
  category ← load_category category_id;
  panic_if (rc_active category) "Category already active";;
  validate_share share_bps;;
  total_shares ← total_shares_bps;
  new_total ← expect (checked_add U32 total_shares share_bps) "Share total overflow";
  panic_if (new_total >? BPS_DENOMINATOR) "Total shares exceed 100%";;
  modify (λ s, {| s with TotalSharesBps := Some new_total |});;
  set_category category_id {| category with rc_active := true; rc_share_bps := share_bps |};;
  publish (fee_catv category_id admin).

Definition set_exempt (admin account : Address) (exempt : bool) : C () :=
  require_auth admin;;
  assert_admin admin;;
  modify (λ s, {| s with Exempt := <[account := exempt]> (Exempt s) |});;
  publish (fee_exm account exempt).

(** ** Fee collection *)

Definition is_exempt (account : Address) : C bool :=
  gets (λ s, default false (Exempt s !! account)).

Definition calculate_fee (amount : Z) : C Z :=
  panic_if (amount <=? 0) "Amount must be positive";;
  rate ← fee_rate;
  p ← expect (checked_mul I128 amount rate) "Fee multiplication overflow";
  mret (p `quot` BPS_DENOMINATOR).

Definition collect_fee (payer : Address) (gross_amount : Z) : C Z :=
  require_auth payer;;
  p ← paused;
  panic_if p "Fee collection is paused";;
  panic_if (gross_amount <=? 0) "Amount must be positive";;
  exempt ← is_exempt payer;
  if (exempt : bool) then
    publish (fee_col payer gross_amount 0);;
    mret 0
  else
    fee ← calculate_fee gross_amount;
    if fee <=? 0 then mret 0
    else
      tk ← token;
      contract_address ← self_address;
      transfer_token tk payer contract_address fee;;
      collected ← total_collected;
      total ← expect (checked_add I128 collected fee) "Total collected overflow";
      modify (λ s, {| s with TotalCollected := Some total |});;
      publish (fee_col payer gross_amount fee);;
      mret fee.

(** ** Distribution *)

(** The body of the first loop: count the active categories. *)
Definition count_active (active_count : Z) (category_id : Symbol) : C Z :=
  category ← load_category category_id;
  if rc_active category && (rc_share_bps category >? 0)
  then plain_add U32 active_count 1
  else mret active_count.

(** The body of the second loop: allocate one category's part of [pending];
    the accumulator is the allocations so far, their sum and their number. *)
Definition allocate_one (pending active_count : Z)
    (acc : list CategoryAllocation * Z * Z) (category_id : Symbol)
    : C (list CategoryAllocation * Z * Z) :=
  let '(allocations, allocated_sum, processed) := acc in
  category ← load_category category_id;
  if negb (rc_active category) || (rc_share_bps category =? 0) then mret acc
  else
    processed' ← plain_add U32 processed 1;
    p ← expect (checked_mul I128 pending (rc_share_bps category))
          "Allocation multiplication overflow";
    amount ← (if processed' =? active_count then
        r1 ← expect (checked_sub I128 pending allocated_sum) "Remainder underflow";
        remainder ← expect (checked_sub I128 r1 (p `quot` BPS_DENOMINATOR))
                      "Remainder underflow";
        expect (checked_add I128 (p `quot` BPS_DENOMINATOR) remainder) "Remainder overflow"
      else mret (p `quot` BPS_DENOMINATOR));
    total ← expect (checked_add I128 (rc_total_allocated category) amount)
              "Category allocation overflow";
    set_category category_id {| category with rc_total_allocated := total |};;
    sum' ← expect (checked_add I128 allocated_sum amount) "Allocated sum overflow";
    mret (allocations ++ [{| ca_category_id := category_id; ca_amount := amount |}],
          sum', processed').

Definition distribute : C DistributionRecord :=
  total_shares ← total_shares_bps;
  panic_if (negb (total_shares =? BPS_DENOMINATOR)) "Recipient shares are not fully configured";;
  collected ← total_collected;
  allocated ← total_allocated;
  pending ← expect (checked_sub I128 collected allocated) "Pending underflow";
  panic_if (pending <=? 0) "No pending fees to distribute";;
  ids ← category_ids;
  active_count ← foldM count_active 0 ids;
  panic_if (active_count =? 0) "No active recipient categories";;
  '(allocations, _, _) ← foldM (allocate_one pending active_count) ([], 0, 0) ids;
  new_total_allocated ← expect (checked_add I128 allocated pending) "Total allocated overflow";
  modify (λ s, {| s with TotalAllocated := Some new_total_allocated |});;
  distribution_id ← next_distribution_id;
  t ← now;
  let record := {|
    dr_distribution_id := distribution_id;
    dr_total_amount := pending;
    dr_category_count := active_count;
    dr_timestamp := t;
    dr_allocations := allocations |} in
  modify (λ s, {| s with Distribution := <[distribution_id := record]> (Distribution s) |});;
  publish (fee_dist distribution_id pending active_count);;
  mret record.

Definition claim (category_id : Symbol) (recipient : Address) : C Z :=
  require_auth recipient;;
  paid ← claim_one category_id recipient true;
  panic_if (paid <=? 0) "Nothing to claim";;
  mret paid.

Definition claim_batch (ids : list Symbol) (recipient : Address) : C Z :=
  require_auth recipient;;
  panic_if (bool_decide (ids = [])) "No categories provided";;
  panic_if (Z.of_nat (length ids) >? MAX_BATCH_SIZE) "Batch exceeds maximum size";;
  total_paid ← foldM (λ total category_id,
      paid ← claim_one category_id recipient false;
      expect (checked_add I128 total paid) "Claim total overflow") 0 ids;
  panic_if (total_paid <=? 0) "Nothing to claim";;
  publish (fee_bclm recipient total_paid (Z.of_nat (length ids)));;
  mret total_paid.

(** ** Views *)

Definition get_claimable (category_id : Symbol) : C Z :=
  category ← load_category category_id;
  expect (checked_sub I128 (rc_total_allocated category) (rc_total_claimed category))
    "Claimable underflow".

Definition get_total_claimed : C Z :=
  ids ← category_ids;
  foldM (λ total category_id,
    category ← load_category category_id;
    expect (checked_add I128 total (rc_total_claimed category)) "Total claimed overflow") 0 ids.

Definition get_pending_distribution : C Z :=
  collected ← total_collected;
  allocated ← total_allocated;
  expect (checked_sub I128 collected allocated) "Pending underflow".

Definition get_distribution_counter : C Z := gets (λ s, default 0 (DistributionCounter s)).

Definition get_distribution (distribution_id : Z) : C DistributionRecord :=
  o ← gets (λ s, Distribution s !! distribution_id);
  expect o "Distribution not found".

(** The loop of [get_distribution_history]: [n] is [bounded_limit - fetched],
    which every iteration decreases. *)
Fixpoint fetch_history (n : nat) (records : list DistributionRecord) (id : Z)
    : C (list DistributionRecord) :=
  match n with
  | O => mret records
  | S n' =>
      if id >=? 1 then
        r ← get_distribution id;
        id' ← plain_sub U64 id 1;
        fetch_history n' (records ++ [r]) id'
      else mret records
  end.

Definition get_distribution_history (offset limit : Z) : C (list DistributionRecord) :=
  let bounded_limit := if limit >? MAX_HISTORY_LIMIT then MAX_HISTORY_LIMIT else limit in
  counter ← get_distribution_counter;
  if (bounded_limit =? 0) || (counter <=? offset) then mret []
  else
    start ← plain_sub U64 counter offset;
    fetch_history (Z.to_nat bounded_limit) [] start.

End contract.

(** ** Entry points as calls *)

Inductive Call :=
| CInitialize (admin token : Address) (rate max : Z)
| CPause (admin : Address)
| CUnpause (admin : Address)
| CSetFeeRate (admin : Address) (rate : Z)
| CEmergencySetFeeRate (admin : Address) (rate : Z)
| CSetMaxFeeRate (admin : Address) (max : Z)
| CAddCategory (admin : Address) (id : Symbol) (recipient : Address) (share : Z)
| CUpdateCategory (admin : Address) (id : Symbol) (recipient : option Address) (share : option Z)
| CRemoveCategory (admin : Address) (id : Symbol)
| CReactivateCategory (admin : Address) (id : Symbol) (share : Z)
| CSetExempt (admin account : Address) (exempt : bool)
| CCollectFee (payer : Address) (gross : Z)
| CDistribute
| CClaim (id : Symbol) (recipient : Address)
| CClaimBatch (ids : list Symbol) (recipient : Address).

Definition exec `{TokenHost} (c : Call) : M State Empty_set Event () :=
  match c with
  | CInitialize a t r m => initialize a t r m
  | CPause a => pause a
  | CUnpause a => unpause a
  | CSetFeeRate a r => set_fee_rate a r
  | CEmergencySetFeeRate a r => emergency_set_fee_rate a r
  | CSetMaxFeeRate a m => set_max_fee_rate a m
  | CAddCategory a i r s => add_category a i r s
  | CUpdateCategory a i r s => discard (update_category a i r s)
  | CRemoveCategory a i => remove_category a i
  | CReactivateCategory a i s => reactivate_category a i s
  | CSetExempt a x b => set_exempt a x b
  | CCollectFee p g => discard (collect_fee p g)
  | CDistribute => discard distribute
  | CClaim i r => discard (claim i r)
  | CClaimBatch is_ r => discard (claim_batch is_ r)
  end.

(** The u32 arguments of a call are non-negative, by their Rust types. *)
Definition call_ok (c : Call) : Prop :=
  match c with
  | CInitialize _ _ r m => 0 ≤ r ∧ 0 ≤ m
  | CSetFeeRate _ r | CEmergencySetFeeRate _ r => 0 ≤ r
  | CSetMaxFeeRate _ m => 0 ≤ m
  | CAddCategory _ _ _ s | CReactivateCategory _ _ s => 0 ≤ s
  | CUpdateCategory _ _ _ s => ∀ x, s = Some x → 0 ≤ x
  | _ => True
  end.

Definition deployed : State :=
  mkState None None None None None None None None None ∅ ∅ None ∅ None.
