(* ===== verification/FeeDistributionProofs.v ===== *)
(** * contracts/fee-distribution: invariant and theorems

    The accounting of [FeeDistribution]: what is collected, allocated and
    claimed, per category and in total, and that the contract always holds
    the difference. *)

From stdpp Require Import gmap strings list fin_maps.
From S2P Require Import Prelude Soroban TokenModel FeeDistribution.
Open Scope Z_scope.

(** ** The invariant *)

Definition sum_shares (st : State) : Z := msum (λ _ c, rc_share_bps c) (Category st).
Definition sum_allocated (st : State) : Z := msum (λ _ c, rc_total_allocated c) (Category st).
Definition sum_claimed (st : State) : Z := msum (λ _ c, rc_total_claimed c) (Category st).
Definition sum_distributed (st : State) : Z := msum (λ _ d, dr_total_amount d) (Distribution st).

Definition share_ok (c : RecipientCategory) : Prop :=
  if rc_active c then 1 ≤ rc_share_bps c ≤ BPS_DENOMINATOR else rc_share_bps c = 0.

Record cat_ok (id : Symbol) (c : RecipientCategory) : Prop := {
  co_id : rc_category_id c = id;
  co_claimed : 0 ≤ rc_total_claimed c ≤ rc_total_allocated c;
  co_share : share_ok c;
}.

Record record_ok (id : Z) (d : DistributionRecord) : Prop := {
  ro_id : dr_distribution_id d = id;
  ro_positive : 0 < dr_total_amount d;
  ro_sum : lsum ca_amount (dr_allocations d) = dr_total_amount d;
}.

(** Categories: listed once each, well formed, shares adding up. *)
Record cats_inv (st : State) : Prop := {
  ci_ok id c : Category st !! id = Some c → cat_ok id c;
  ci_nodup : NoDup (default [] (CategoryIds st));
  ci_ids id : id ∈ default [] (CategoryIds st) ↔ is_Some (Category st !! id);
  ci_max : Z.of_nat (length (default [] (CategoryIds st))) ≤ MAX_CATEGORIES;
  ci_shares : default 0 (TotalSharesBps st) = sum_shares st;
  ci_total : sum_shares st ≤ BPS_DENOMINATOR;
}.

(** Distributions: numbered 1, 2, ..., and adding up to what is allocated. *)
Record hist_inv (st : State) : Prop := {
  hi_counter : 0 ≤ default 0 (DistributionCounter st) ≤ int_max U64;
  hi_ids i : is_Some (Distribution st !! i) ↔ 1 ≤ i ≤ default 0 (DistributionCounter st);
  hi_ok i d : Distribution st !! i = Some d → record_ok i d;
}.

Record inv `{TokenHost} (self : Address) (st : State) (l : Ledger) : Prop := {
  inv_admin : is_Some (Admin st);
  inv_token : is_Some (Token st);
  inv_lock : ReentrancyLock st = Some false;
  inv_rate : ∃ r m, FeeRateBps st = Some r ∧ MaxFeeRateBps st = Some m ∧
    0 ≤ r ≤ m ∧ 1 ≤ m ≤ HARD_CAP_FEE_RATE_BPS;
  inv_cats : cats_inv st;
  inv_hist : hist_inv st;
  inv_allocated : default 0 (TotalAllocated st) = sum_allocated st;
  inv_distributed : default 0 (TotalAllocated st) = sum_distributed st;
  inv_collected : default 0 (TotalAllocated st) ≤ default 0 (TotalCollected st);
  inv_solvent tk : Token st = Some tk →
    default 0 (TotalCollected st) - sum_claimed st ≤ tok_balance l tk self;
}.

Section specs.
Context `{TokenHost}.
Implicit Types (w : World State Event) (e : Env).

Lemma load_category_spec id e w c w' :
  load_category id e w = Ok (c, w') → Category (store w) !! id = Some c ∧ w' = w.
Proof. intros Hr. minv Hr using load_category. done. Qed.

Lemma set_category_spec id c e w u w' :
  set_category id c e w = Ok (u, w') →
  w' = {| w with store := {| (store w) with Category := <[id := c]> (Category (store w)) |} |}.
Proof. intros Hr. by minv Hr using set_category. Qed.

Lemma fees_assert_admin_spec a e w u w' :
  assert_admin a e w = Ok (u, w') → Admin (store w) = Some a ∧ w' = w.
Proof. intros Hr. unfold assert_admin, admin in Hr. minv Hr. arith. done. Qed.

Lemma fees_transfer_token_spec tk from to n e w u w' :
  transfer_token tk from to n e w = Ok (u, w') →
  0 < n ∧ default false (ReentrancyLock (store w)) = false ∧
  ∃ l', tok_transfer e (ledger w) tk from to n = Some l' ∧
        w' = mkWorld {| (store w) with ReentrancyLock := Some false |} l' (log w).
Proof.
  intros Hr. unfold transfer_token, enter_non_reentrant, exit_non_reentrant in Hr.
  minv Hr. arith. eauto 10.
Qed.

(** The fee is the rate's share of the amount, rounded down. *)
Lemma calculate_fee_spec n e w fee w' :
  calculate_fee n e w = Ok (fee, w') →
  ∃ r, FeeRateBps (store w) = Some r ∧ 0 < n ∧
    fee = (n * r) `quot` BPS_DENOMINATOR ∧ w' = w.
Proof.
  intros Hr. unfold calculate_fee, fee_rate in Hr. minv Hr. arith. eauto 10.
Qed.
End specs.

Section invariant.
Context `{Laws : TokenLaws}.
Implicit Types (w : World State Event) (e : Env) (st : State) (l : Ledger).

Lemma fees_inv_mono self st l l' :
  (∀ tk, tok_balance l tk self ≤ tok_balance l' tk self) → inv self st l → inv self st l'.
Proof. intros Hl []. split; auto. intros tk Htk. specialize (Hl tk). specialize (inv_solvent0 tk Htk). lia. Qed.

(** Replacing one category by another well-formed one. *)
Lemma fees_inv_replace self st l st' l' id c c' :
  inv self st l → Category st !! id = Some c →
  Admin st' = Admin st → Token st' = Token st → ReentrancyLock st' = Some false →
  FeeRateBps st' = FeeRateBps st → MaxFeeRateBps st' = MaxFeeRateBps st →
  CategoryIds st' = CategoryIds st →
  DistributionCounter st' = DistributionCounter st → Distribution st' = Distribution st →
  TotalCollected st' = TotalCollected st → TotalAllocated st' = TotalAllocated st →
  Category st' = <[id := c']> (Category st) →
  cat_ok id c' → rc_total_allocated c' = rc_total_allocated c →
  default 0 (TotalSharesBps st') =
    default 0 (TotalSharesBps st) - rc_share_bps c + rc_share_bps c' →
  default 0 (TotalSharesBps st') ≤ BPS_DENOMINATOR →
  (∀ tk, Token st = Some tk →
     tok_balance l tk self - (rc_total_claimed c' - rc_total_claimed c) ≤ tok_balance l' tk self) →
  inv self st' l'.
Proof.
  intros [] Hc Ha Htk Hlk Hr Hm Hids Hdc Hd Hcol Hall Hcat Hok Hal Hsh Hmax Hbal.
  assert (∀ f, msum f (Category st') = msum f (Category st) - f id c + f id c') as Hsum.
  { intros f. rewrite Hcat. by apply msum_insert_update. }
  split.
  - by rewrite Ha.
  - by rewrite Htk.
  - done.
  - by rewrite Hr, Hm.
  - destruct inv_cats0. unfold sum_shares in *. split; rewrite ?Hids, ?Hcat; try done.
    + intros i x [[<- <-]|[_ Hx]]%lookup_insert_Some; eauto.
    + intros i. rewrite ci_ids0, lookup_insert_is_Some'. naive_solver.
    + unfold sum_shares. rewrite Hsum. lia.
    + unfold sum_shares. rewrite Hsum. lia.
  - destruct inv_hist0. split; by rewrite ?Hdc, ?Hd.
  - unfold sum_allocated in *. rewrite Hall, Hsum. lia.
  - unfold sum_distributed in *. by rewrite Hall, Hd.
  - by rewrite Hall, Hcol.
  - intros tk Ht. rewrite Htk in Ht. specialize (Hbal tk Ht). specialize (inv_solvent0 tk Ht).
    unfold sum_claimed in *. rewrite Hcol, Hsum. lia.
Qed.

(** *** Administration *)

(** Changing only the pause flag, the exemptions or the rate (within bounds). *)
Lemma inv_config self st l st' :
  inv self st l →
  Admin st' = Admin st → Token st' = Token st → ReentrancyLock st' = ReentrancyLock st →
  CategoryIds st' = CategoryIds st → Category st' = Category st →
  DistributionCounter st' = DistributionCounter st → Distribution st' = Distribution st →
  TotalCollected st' = TotalCollected st → TotalAllocated st' = TotalAllocated st →
  TotalSharesBps st' = TotalSharesBps st →
  (∃ r m, FeeRateBps st' = Some r ∧ MaxFeeRateBps st' = Some m ∧
    0 ≤ r ≤ m ∧ 1 ≤ m ≤ HARD_CAP_FEE_RATE_BPS) →
  inv self st' l.
Proof.
  intros [] Ha Htk Hlk Hids Hcat Hdc Hd Hcol Hall Hsh Hr.
  split; unfold sum_allocated, sum_claimed, sum_distributed in *;
    rewrite ?Ha, ?Htk, ?Hlk, ?Hcol, ?Hall, ?Hcat, ?Hd; try done.
  - destruct inv_cats0. split; unfold sum_shares in *; rewrite ?Hids, ?Hcat, ?Hsh; done.
  - destruct inv_hist0. split; rewrite ?Hdc, ?Hd; done.
Qed.

Lemma set_fee_rate_inv self a r e w w' :
  0 ≤ r → inv self (store w) (ledger w) →
  set_fee_rate a r e w = Ok (tt, w') → inv self (store w') (ledger w').
Proof.
  intros Hr0 Hinv Hr. unfold set_fee_rate, max_fee_rate, fee_rate in Hr. minv Hr.
  spec fees_assert_admin_spec as [_ ->]. arith.
  destruct (inv_rate _ _ _ Hinv) as (r0 & m & ? & ? & ? & ?). simplify_eq.
  eapply inv_config; eauto. do 2 eexists. split_and!; try done; lia.
Qed.

Lemma emergency_set_fee_rate_inv self a r e w w' :
  0 ≤ r → inv self (store w) (ledger w) →
  emergency_set_fee_rate a r e w = Ok (tt, w') → inv self (store w') (ledger w').
Proof.
  intros Hr0 Hinv Hr. unfold emergency_set_fee_rate, max_fee_rate in Hr. minv Hr.
  spec fees_assert_admin_spec as [_ ->]. arith.
  destruct (inv_rate _ _ _ Hinv) as (r0 & m & ? & ? & ? & ?). simplify_eq.
  eapply inv_config; eauto. do 2 eexists. split_and!; try done; lia.
Qed.

Lemma set_max_fee_rate_inv self a m e w w' :
  0 ≤ m → inv self (store w) (ledger w) →
  set_max_fee_rate a m e w = Ok (tt, w') → inv self (store w') (ledger w').
Proof.
  intros Hm0 Hinv Hr. unfold set_max_fee_rate, validate_max_rate, fee_rate in Hr. minv Hr.
  all: spec fees_assert_admin_spec as [_ ->]; arith.
  all: destruct (inv_rate _ _ _ Hinv) as (r0 & m0 & ? & ? & ? & ?); simplify_eq.
  all: eapply inv_config; eauto; do 2 eexists; split_and!; try done; lia.
Qed.

(** *** Categories *)

Lemma add_category_inv self a id rcp sh e w w' :
  0 ≤ sh → inv self (store w) (ledger w) →
  add_category a id rcp sh e w = Ok (tt, w') → inv self (store w') (ledger w').
Proof.
  intros Hsh0 Hinv Hr. unfold add_category, validate_share, category_ids, total_shares_bps in Hr.
  minv Hr. spec fees_assert_admin_spec as [_ ->]. spec set_category_spec as ->. arith.
  assert (Category (store w) !! id = None) as Hnone by by apply eq_None_not_Some.
  destruct Hinv. simpl.
  unfold sum_allocated, sum_claimed, sum_distributed in *. split; simpl; try done.
  - destruct inv_cats0. unfold sum_shares in *. split; simpl; unfold sum_shares; simpl.
    + intros i x [[<- <-]|[_ Hx]]%lookup_insert_Some; [|eauto]. split; unfold share_ok; simpl; [done|lia|lia].
    + apply NoDup_snoc; [done|]. by rewrite ci_ids0.
    + intros i. rewrite elem_of_app, ci_ids0, list_elem_of_singleton, lookup_insert_is_Some'.
      naive_solver.
    + rewrite length_app; simpl. lia.
    + rewrite msum_insert_fresh by done. simpl. lia.
    + rewrite msum_insert_fresh by done. simpl. lia.
  - destruct inv_hist0. by split.
  - unfold sum_allocated; simpl. rewrite msum_insert_fresh by done. done.
  - intros tk Ht. unfold sum_claimed; simpl. rewrite msum_insert_fresh by done. simpl.
    specialize (inv_solvent0 tk Ht). lia.
Qed.

Lemma update_category_inv self a id nr ns e w r w' :
  (∀ x, ns = Some x → 0 ≤ x) → inv self (store w) (ledger w) →
  update_category a id nr ns e w = Ok (r, w') → inv self (store w') (ledger w').
Proof.
  intros Hns Hinv Hr. unfold update_category, validate_share, total_shares_bps in Hr.
  minv Hr.
  all: spec fees_assert_admin_spec as [_ ->]; spec load_category_spec as [Hc ->].
  all: spec set_category_spec as ->; arith.
  all: pose proof (ci_ok _ (inv_cats _ _ _ Hinv) _ _ Hc) as [Hid Hcl Hsh]; unfold share_ok in Hsh.
  all: pose proof (ci_shares _ (inv_cats _ _ _ Hinv)); pose proof (ci_total _ (inv_cats _ _ _ Hinv)).
  all: pose proof (inv_lock _ _ _ Hinv).
  all: repeat match goal with H : rc_active _ = true |- _ => rewrite H in Hsh end.
  all: destruct nr; eapply fees_inv_replace; eauto; simpl; try lia.
  all: try (intros; lia).
  all: split; unfold share_ok; simpl; try done; try lia.
  all: case_match; try done; specialize (Hns _ eq_refl); lia.
Qed.

Lemma remove_category_inv self a id e w w' :
  inv self (store w) (ledger w) →
  remove_category a id e w = Ok (tt, w') → inv self (store w') (ledger w').
Proof.
  intros Hinv Hr. unfold remove_category, total_shares_bps in Hr. minv Hr.
  spec fees_assert_admin_spec as [_ ->]. spec load_category_spec as [Hc ->].
  spec set_category_spec as ->. arith.
  pose proof (ci_ok _ (inv_cats _ _ _ Hinv) _ _ Hc) as [Hid Hcl Hsh]; unfold share_ok in Hsh.
  pose proof (ci_shares _ (inv_cats _ _ _ Hinv)). pose proof (ci_total _ (inv_cats _ _ _ Hinv)).
  pose proof (inv_lock _ _ _ Hinv).
  match goal with H : rc_active _ = true |- _ => rewrite H in Hsh end.
  eapply fees_inv_replace; eauto; simpl; try (intros; lia). split; unfold share_ok; simpl; done.
Qed.

Lemma reactivate_category_inv self a id sh e w w' :
  0 ≤ sh → inv self (store w) (ledger w) →
  reactivate_category a id sh e w = Ok (tt, w') → inv self (store w') (ledger w').
Proof.
  intros Hsh0 Hinv Hr. unfold reactivate_category, validate_share, total_shares_bps in Hr. minv Hr.
  spec fees_assert_admin_spec as [_ ->]. spec load_category_spec as [Hc ->].
  spec set_category_spec as ->. arith.
  pose proof (ci_ok _ (inv_cats _ _ _ Hinv) _ _ Hc) as [Hid Hcl Hsh]; unfold share_ok in Hsh.
  pose proof (inv_lock _ _ _ Hinv).
  match goal with H : rc_active _ = false |- _ => rewrite H in Hsh end.
  eapply fees_inv_replace; eauto; simpl; try (intros; lia). split; unfold share_ok; simpl; try done. lia.
Qed.

(** *** Collection *)

Lemma fees_collect_fee_spec p n e w fee w' :
  collect_fee p n e w = Ok (fee, w') →
  authorized e p = true ∧ default false (Paused (store w)) = false ∧ 0 < n ∧
  if default false (Exempt (store w) !! p)
  then fee = 0 ∧ store w' = store w ∧ ledger w' = ledger w
  else ∃ r, FeeRateBps (store w) = Some r ∧
    let owed := (n * r) `quot` BPS_DENOMINATOR in
    if owed <=? 0 then fee = 0 ∧ w' = w
    else fee = owed ∧ ∃ tk l', Token (store w) = Some tk ∧
      tok_transfer e (ledger w) tk p (current_contract_address e) fee = Some l' ∧
      w' = mkWorld {| (store w) with
             TotalCollected := Some (default 0 (TotalCollected (store w)) + fee);
             ReentrancyLock := Some false |} l' (log w ++ [fee_col p n fee]).
Proof.
  intros Hr. unfold collect_fee, paused, is_exempt, token, total_collected in Hr. minv Hr.
  - zbool. split_and!; done.
  - spec calculate_fee_spec as (r & Hrate & Hn & -> & ->). zbool.
    split_and!; try done. exists r. split; [done|]. cbv zeta. case_match; zbool; [done|lia].
  - spec calculate_fee_spec as (r & Hrate & Hn & -> & ->).
    spec fees_transfer_token_spec as (Hpos & Hlk & l' & Ht & ->). arith. simpl in *.
    split_and!; try done. exists r. split; [done|]. cbv zeta. case_match; zbool; [lia|].
    split; [done|]. eauto 10.
Qed.

Lemma collect_fee_inv self p n e w fee w' :
  wf_env self e → inv self (store w) (ledger w) →
  collect_fee p n e w = Ok (fee, w') → inv self (store w') (ledger w').
Proof.
  intros Hwf Hinv Hr. apply fees_collect_fee_spec in Hr as (Hau & _ & Hn & Hr).
  case_match.
  - destruct Hr as (_ & -> & ->). done.
  - destruct Hr as (r & Hrate & Hr). cbv zeta in Hr. case_match eqn:E; [by destruct Hr as [_ ->]|].
    destruct Hr as (-> & tk & l' & Htk & Ht & ->). zbool.
    rewrite (wf_self _ _ Hwf) in Ht. apply transfer_moved in Ht.
    pose proof (wf_auth_ne _ _ _ Hwf Hau) as Hp.
    destruct Hinv. split; simpl; try done.
    + destruct inv_cats0. by split.
    + destruct inv_hist0. by split.
    + lia.
    + intros tk' Htk'. specialize (inv_solvent0 tk' Htk'). rewrite (moved_in _ _ _ _ _ _ tk' Ht Hp).
      simplify_eq. unfold sum_claimed in *; simpl. rewrite bool_decide_eq_true_2 by done. lia.
Qed.

(** *** Claims *)

Lemma fees_claim_one_spec id rcp rp e w paid w' :
  claim_one id rcp rp e w = Ok (paid, w') →
  ∃ c, Category (store w) !! id = Some c ∧
    ( (paid = 0 ∧ w' = w ∧ rp = false ∧
        (rc_recipient c ≠ rcp ∨ rc_total_allocated c ≤ rc_total_claimed c))
    ∨ (rc_recipient c = rcp ∧ paid = rc_total_allocated c - rc_total_claimed c ∧ 0 < paid ∧
       ∃ tk l', Token (store w) = Some tk ∧
         tok_transfer e (ledger w) tk (current_contract_address e) rcp paid = Some l' ∧
         w' = mkWorld {| (store w) with
                Category := <[id := {| c with rc_total_claimed := rc_total_allocated c |}]>
                  (Category (store w));
                ReentrancyLock := Some false |}
              l' (log w ++ [fee_clm id rcp paid]))).
Proof.
  intros Hr. unfold claim_one, token in Hr. minv Hr.
  all: spec load_category_spec as [Hcat ->].
  all: eexists; split; [done|].
  - zbool. subst. left. eauto 10.
  - arith. left. split_and!; auto. right. lia.
  - arith. right. spec set_category_spec as ->.
    spec fees_transfer_token_spec as (Hpos & Hlk & l' & Ht & ->). simpl in *.
    rewrite Zplus_minus. split_and!; try done. eauto 10.
Qed.

Lemma fees_claim_one_inv self id rcp rp e w paid w' :
  wf_env self e → rcp ≠ self → inv self (store w) (ledger w) →
  claim_one id rcp rp e w = Ok (paid, w') → inv self (store w') (ledger w').
Proof.
  intros Hwf Hne Hinv Hr.
  apply fees_claim_one_spec in Hr as (c & Hc & [(_ & -> & _)|(Hrc & -> & Hpos & tk & l' & Htk & Ht & ->)]);
    [done|].
  rewrite (wf_self _ _ Hwf) in Ht. apply transfer_moved in Ht.
  pose proof (ci_ok _ (inv_cats _ _ _ Hinv) _ _ Hc) as [Hid Hcl Hsh]; unfold share_ok in Hsh.
  pose proof (ci_shares _ (inv_cats _ _ _ Hinv)). pose proof (ci_total _ (inv_cats _ _ _ Hinv)).
  eapply fees_inv_replace; eauto; simpl; try lia.
  - split; unfold share_ok; simpl; try done. lia.
  - intros tk' Htk'. rewrite (moved_out _ _ _ _ _ _ tk' Ht Hne). simplify_eq.
    rewrite bool_decide_eq_true_2 by done. lia.
Qed.

(** *** Distribution

    [allocations pending sum cats] is what the second loop allocates: to each
    active category its share of [pending] rounded down, except that the last
    one gets all that is left. *)

Definition is_active (c : RecipientCategory) : bool := rc_active c && (rc_share_bps c >? 0).

Fixpoint active_shares (cats : gmap Symbol RecipientCategory) (ids : list Symbol)
    : list (Symbol * Z) :=
  match ids with
  | [] => []
  | id :: ids' =>
      match cats !! id with
      | Some c => if is_active c then (id, rc_share_bps c) :: active_shares cats ids'
                  else active_shares cats ids'
      | None => active_shares cats ids'
      end
  end.

Fixpoint allocations (pending sum : Z) (l : list (Symbol * Z)) : list CategoryAllocation :=
  match l with
  | [] => []
  | [(id, _)] => [mkCategoryAllocation id (pending - sum)]
  | (id, sh) :: l' =>
      let a := (pending * sh) `div` BPS_DENOMINATOR in
      mkCategoryAllocation id a :: allocations pending (sum + a) l'
  end.

Definition credit (cats : gmap Symbol RecipientCategory) (a : CategoryAllocation)
    : gmap Symbol RecipientCategory :=
  alter (λ c, {| c with rc_total_allocated := rc_total_allocated c + ca_amount a |})
    (ca_category_id a) cats.

Lemma lookup_credit cats a id :
  credit cats a !! id =
  (λ c, {| c with rc_total_allocated := rc_total_allocated c +
             (if bool_decide (ca_category_id a = id) then ca_amount a else 0) |}) <$> cats !! id.
Proof.
  unfold credit. rewrite lookup_alter. case_decide as Hd; [subst|].
  - by rewrite bool_decide_eq_true_2.
  - rewrite bool_decide_eq_false_2 by done. destruct (cats !! id) as [[]|]; simpl; [|done].
    by rewrite Z.add_0_r.
Qed.

Lemma credit_insert cats a c :
  cats !! ca_category_id a = Some c →
  credit cats a = <[ca_category_id a :=
    {| c with rc_total_allocated := rc_total_allocated c + ca_amount a |}]> cats.
Proof.
  intros Hc. apply map_eq. intros i. unfold credit. rewrite lookup_alter, lookup_insert.
  case_decide; [subst; by rewrite Hc|done].
Qed.

Lemma active_shares_credit cats a ids : active_shares (credit cats a) ids = active_shares cats ids.
Proof.
  induction ids as [|id ids IH]; simpl; [done|]. rewrite lookup_credit, IH.
  by destruct (cats !! id).
Qed.

Lemma count_active_spec ids e w n m w' :
  foldM count_active n ids e w = Ok (m, w') →
  m = n + Z.of_nat (length (active_shares (Category (store w)) ids)) ∧ w' = w ∧
  ∀ id, id ∈ ids → is_Some (Category (store w) !! id).
Proof.
  revert n. induction ids as [|id ids IH]; simpl; intros n Hr.
  - minv Hr. split_and!; [lia|done|]. intros id Hid. by apply not_elem_of_nil in Hid.
  - minv Hr. minv Hr0 using count_active.
    all: spec load_category_spec as [Hc' ->]; apply IH in Hr as (-> & -> & Hids).
    all: unfold is_active; rewrite Hc'; simpl; rewrite Hc; simpl; inv_checked.
    all: split_and!; [lia|done|]; intros i [->|Hi]%elem_of_cons; eauto.
Qed.

Lemma lsum_allocations pending sum (shs : list (Symbol * Z)) :
  shs ≠ [] → lsum ca_amount (allocations pending sum shs) = pending - sum.
Proof.
  revert sum. induction shs as [|[id sh] shs IH]; intros sum Hne; [done|].
  destruct shs as [|p shs]; [simpl; lia|].
  set (a := (pending * sh) `div` BPS_DENOMINATOR).
  change (a + lsum ca_amount (allocations pending (sum + a) (p :: shs)) = pending - sum).
  rewrite IH by done. lia.
Qed.

(** One iteration of the second loop. *)
Lemma allocate_one_spec pending active allocs sum processed id e w res w' :
  0 ≤ pending → (∀ id c, Category (store w) !! id = Some c → share_ok c) →
  allocate_one pending active (allocs, sum, processed) id e w = Ok (res, w') →
  ∃ c, Category (store w) !! id = Some c ∧
    if is_active c then
      let a := mkCategoryAllocation id
        (if processed + 1 =? active then pending - sum
         else (pending * rc_share_bps c) `div` BPS_DENOMINATOR) in
      res = (allocs ++ [a], sum + ca_amount a, processed + 1) ∧
      w' = {| w with store := {| (store w) with Category := credit (Category (store w)) a |} |}
    else res = (allocs, sum, processed) ∧ w' = w.
Proof.
  intros Hp Hshs Hr. unfold allocate_one in Hr. minv Hr.
  all: spec load_category_spec as [Hcat ->]; eexists; split; [done|].
  all: pose proof (Hshs _ _ Hcat) as Hsh; unfold is_active; unfold share_ok in Hsh.
  1: destruct (rc_active _); simpl in *; [zbool; lia|done].
  all: spec set_category_spec as ->; arith.
  all: match goal with H : rc_active _ = true |- _ => rename H into Hact end.
  all: rewrite Hact in Hsh |- *; simpl.
  all: rewrite (proj2 (Z.gtb_lt _ _)) by lia; erewrite credit_insert by exact Hcat.
  all: case_match; zbool; try lia; cbn [ca_amount ca_category_id].
  all: rewrite ?Zplus_minus, ?quot_div_nonneg by (unfold BPS_DENOMINATOR in *; nia).
  all: by rewrite Hact.
Qed.

(** The second loop, from any point of it. *)
Lemma allocate_spec pending active ids e w allocs sum processed res w' :
  0 ≤ pending → (∀ id c, Category (store w) !! id = Some c → share_ok c) →
  foldM (allocate_one pending active) (allocs, sum, processed) ids e w = Ok (res, w') →
  active - processed = Z.of_nat (length (active_shares (Category (store w)) ids)) →
  let new := allocations pending sum (active_shares (Category (store w)) ids) in
  res.1.1 = allocs ++ new ∧
  w' = {| w with store := {| (store w) with
          Category := foldl credit (Category (store w)) new |} |}.
Proof.
  intros Hp. revert w allocs sum processed. induction ids as [|id ids IH]; cbn [foldM];
    intros w allocs sum processed Hsh Hr Hact.
  - minv Hr. simpl. rewrite app_nil_r. split; [done|]. by destruct w as [[] ? ?].
  - minv Hr. apply allocate_one_spec in Hr0 as (c & Hc & Hres); [|done..].
    cbn [active_shares] in *. rewrite Hc in *.
    destruct (is_active c); destruct Hres as [-> ->]; [|by eapply IH].
    set (a := mkCategoryAllocation id _) in *. set (shs := active_shares _ ids) in *.
    assert (allocations pending sum ((id, rc_share_bps c) :: shs)
            = a :: allocations pending (sum + ca_amount a) shs) as ->.
    { unfold a. destruct shs; simpl in Hact.
      - by rewrite (proj2 (Z.eqb_eq _ _)) by lia.
      - by rewrite (proj2 (Z.eqb_neq _ _)) by lia. }
    eapply IH in Hr as [Hr1 Hr2]; cbn [store Category] in *.
    + rewrite active_shares_credit in Hr1, Hr2. rewrite Hr1, Hr2, <- (assoc_L (++)). done.
    + intros i c' Hc'. rewrite lookup_credit in Hc'.
      apply fmap_Some in Hc' as (c0 & Hc0 & ->). exact (Hsh i c0 Hc0).
    + rewrite active_shares_credit. simpl in Hact. fold shs. lia.
Qed.

(** Crediting a list of allocations: only the allocated totals change, by the
    amounts credited. *)
Lemma foldl_credit cats (allocs : list CategoryAllocation) :
  (∀ a, a ∈ allocs → 0 ≤ ca_amount a ∧ is_Some (cats !! ca_category_id a)) →
  (∀ id c, cats !! id = Some c → cat_ok id c) →
  let cats' := foldl credit cats allocs in
  (∀ id c, cats' !! id = Some c → cat_ok id c) ∧
  (∀ id, is_Some (cats' !! id) ↔ is_Some (cats !! id)) ∧
  msum (λ _ c, rc_share_bps c) cats' = msum (λ _ c, rc_share_bps c) cats ∧
  msum (λ _ c, rc_total_claimed c) cats' = msum (λ _ c, rc_total_claimed c) cats ∧
  msum (λ _ c, rc_total_allocated c) cats' =
    msum (λ _ c, rc_total_allocated c) cats + lsum ca_amount allocs.
Proof.
  revert cats. induction allocs as [|a allocs IH]; intros cats Hall Hok; simpl.
  { split_and!; try done. lia. }
  destruct (Hall a) as [Ha [c Hc]]; [left|].
  destruct (IH (credit cats a)) as (H1 & H2 & H3 & H4 & H5).
  - intros b Hb. destruct (Hall b) as [? Hs]; [by right|]. split; [done|].
    rewrite lookup_credit. by apply fmap_is_Some.
  - intros id c' Hc'. rewrite lookup_credit in Hc'. apply fmap_Some in Hc' as (c0 & Hc0 & ->).
    destruct (Hok _ _ Hc0). split; simpl; try done. case_bool_decide; lia.
  - simpl in *. rewrite H3, H4, H5. rewrite (credit_insert cats a c Hc) in *.
    rewrite !(msum_insert_update _ _ _ _ _ Hc). simpl. split_and!; try done; try lia.
    intros id. rewrite H2, lookup_insert_is_Some'. naive_solver.
Qed.

Lemma allocations_ids pending sum shs : ca_category_id <$> allocations pending sum shs = shs.*1.
Proof.
  revert sum. induction shs as [|[id sh] [|p shs] IH]; intros sum; simpl in *; try done.
  f_equal. apply IH.
Qed.

(** The remainder the last category gets is not negative: the shares add up
    to at most 100%. *)
Lemma allocations_nonneg pending sum shs :
  0 ≤ pending → (∀ p, p ∈ shs → 0 ≤ p.2) →
  sum * BPS_DENOMINATOR + pending * lsum snd shs ≤ pending * BPS_DENOMINATOR →
  ∀ a, a ∈ allocations pending sum shs → 0 ≤ ca_amount a.
Proof.
  intros Hp. revert sum. induction shs as [|[id sh] shs IH]; intros sum Hsh Hle a Ha;
    [by apply not_elem_of_nil in Ha|].
  assert (0 ≤ sh) by (apply (Hsh (id, sh)); left).
  assert (0 ≤ lsum snd shs) by (apply lsum_nonneg; intros p' Hp'; apply Hsh; by right).
  change (lsum snd ((id, sh) :: shs)) with (sh + lsum snd shs) in Hle.
  set (q := (pending * sh) `div` BPS_DENOMINATOR).
  assert (0 ≤ q ∧ q * BPS_DENOMINATOR ≤ pending * sh) as [Hq1 Hq2].
  { unfold q, BPS_DENOMINATOR. split; [apply Z.div_pos; nia|].
    rewrite Z.mul_comm. apply Z.mul_div_le. lia. }
  destruct shs as [|p shs].
  - apply list_elem_of_singleton in Ha as ->. simpl. unfold BPS_DENOMINATOR in *. nia.
  - change (a ∈ mkCategoryAllocation id q :: allocations pending (sum + q) (p :: shs)) in Ha.
    apply elem_of_cons in Ha as [->|Ha]; [done|]. revert Ha. apply IH.
    + intros p' Hp'. apply Hsh. by right.
    + lia.
Qed.

Lemma active_shares_sum cats ids :
  (∀ id c, cats !! id = Some c → share_ok c) →
  lsum snd (active_shares cats ids) = lsum (λ k, from_option rc_share_bps 0 (cats !! k)) ids.
Proof.
  intros Hok. induction ids as [|id ids IH]; simpl; [done|]. rewrite <- IH.
  destruct (cats !! id) as [c|] eqn:Hc; simpl; [|done].
  specialize (Hok _ _ Hc). unfold share_ok in Hok. unfold is_active.
  destruct (rc_active c); simpl; [|by rewrite Hok].
  rewrite (proj2 (Z.gtb_lt _ _)) by lia. done.
Qed.

Lemma active_shares_elem cats ids p :
  p ∈ active_shares cats ids → p.1 ∈ ids ∧ 0 < p.2 ∧ is_Some (cats !! p.1).
Proof.
  induction ids as [|id ids IH]; simpl; intros Hp; [by apply not_elem_of_nil in Hp|].
  destruct (cats !! id) as [c|] eqn:Hc; [destruct (is_active c) eqn:Ha|].
  - apply elem_of_cons in Hp as [->|Hp]; [|set_solver]. simpl. unfold is_active in Ha. zbool.
    split_and!; [left|lia|by rewrite Hc].
  - set_solver.
  - set_solver.
Qed.
Definition pending (st : State) : Z :=
  default 0 (TotalCollected st) - default 0 (TotalAllocated st).

(** What a distribution computes, from the state alone. *)
Definition distribution_of (st : State) (t : Z) : DistributionRecord :=
  let shs := active_shares (Category st) (default [] (CategoryIds st)) in
  {| dr_distribution_id := default 0 (DistributionCounter st) + 1;
     dr_total_amount := pending st;
     dr_category_count := Z.of_nat (length shs);
     dr_timestamp := t;
     dr_allocations := allocations (pending st) 0 shs |}.

Lemma distribute_spec e w r w' :
  cats_inv (store w) →
  distribute e w = Ok (r, w') →
  let st := store w in
  default 0 (TotalSharesBps st) = BPS_DENOMINATOR ∧ 0 < pending st ∧
  active_shares (Category st) (default [] (CategoryIds st)) ≠ [] ∧
  r = distribution_of st (timestamp e) ∧ dr_distribution_id r ≤ int_max U64 ∧
  w' = mkWorld {| st with
         Category := foldl credit (Category st) (dr_allocations r);
         TotalAllocated := Some (default 0 (TotalCollected st));
         DistributionCounter := Some (dr_distribution_id r);
         Distribution := <[dr_distribution_id r := r]> (Distribution st) |}
       (ledger w) (log w ++ [fee_dist (dr_distribution_id r) (pending st) (dr_category_count r)]).
Proof.
  intros Hcats Hr. unfold distribute, total_shares_bps, total_collected, total_allocated,
    category_ids, next_distribution_id in Hr. minv Hr. arith.
  spec count_active_spec as (-> & -> & _). fold (pending (store w)) in *.
  match goal with H : foldM (allocate_one _ _) _ _ _ _ = _ |- _ => rename H into Hal end.
  eapply allocate_spec in Hal as [Hal ->]; cbn [fst snd store] in *.
  - subst. split_and!; try done.
    + intros Hnil. rewrite Hnil in *. done.
    + unfold distribution_of; cbn [dr_distribution_id]. lia.
    + unfold distribution_of. simpl. unfold pending. do 2 f_equal. f_equal. lia.
  - lia.
  - intros id c Hc'. apply (ci_ok _ Hcats _ _ Hc').
  - lia.
Qed.

Lemma distribution_of_ok st t :
  cats_inv st → hist_inv st → default 0 (TotalSharesBps st) = BPS_DENOMINATOR →
  0 < pending st → active_shares (Category st) (default [] (CategoryIds st)) ≠ [] →
  record_ok (default 0 (DistributionCounter st) + 1) (distribution_of st t) ∧
  ∀ a, a ∈ dr_allocations (distribution_of st t) →
    0 ≤ ca_amount a ∧ is_Some (Category st !! ca_category_id a).
Proof.
  intros Hcats Hhist Hsh Hp Hne. destruct Hcats. split.
  - split; simpl; [done|done|]. rewrite lsum_allocations by done. lia.
  - simpl. intros a Ha. split.
    + revert Ha. apply allocations_nonneg; [lia| |].
      * intros p (_ & ? & _)%active_shares_elem. lia.
      * rewrite active_shares_sum by (intros ? ? Hc; apply (ci_ok0 _ _ Hc)).
        unfold sum_shares in *. rewrite (msum_keys _ _ _ ci_nodup0 ci_ids0) in *.
        rewrite <- Hsh, ci_shares0. unfold from_option. lia.
    + apply (list_elem_of_fmap_2 ca_category_id) in Ha. rewrite allocations_ids in Ha.
      apply list_elem_of_fmap in Ha as (p & -> & Hp'). by apply active_shares_elem in Hp' as (_ & _ & ?).
Qed.

Lemma distribute_inv self e w r w' :
  inv self (store w) (ledger w) →
  distribute e w = Ok (r, w') → inv self (store w') (ledger w').
Proof.
  intros Hinv Hr. apply distribute_spec in Hr as (Hsh & Hp & Hne & -> & Hid & ->); [|apply Hinv].
  destruct Hinv as [? ? ? ? Hcats Hhist Hall Hdist Hcol Hsol].
  destruct (distribution_of_ok _ (timestamp e) Hcats Hhist Hsh Hp Hne) as [Hrec Hals].
  destruct (foldl_credit (Category (store w)) _ Hals (ci_ok _ Hcats)) as (H1 & H2 & H3 & H4 & H5).
  pose proof (ro_sum _ _ Hrec) as Hsum.
  set (d := distribution_of (store w) (timestamp e)) in *.
  assert (Distribution (store w) !! dr_distribution_id d = None) as Hfresh.
  { apply eq_None_not_Some. rewrite (hi_ids _ Hhist). simpl. lia. }
  unfold sum_allocated, sum_claimed, sum_distributed in *.
  split; cbn [store ledger Admin Token ReentrancyLock FeeRateBps MaxFeeRateBps]; try done.
  - destruct Hcats. unfold sum_shares in *. split; unfold sum_shares;
      cbn [Category CategoryIds TotalSharesBps]; try done.
    + intros id. by rewrite H2.
    + by rewrite H3.
    + by rewrite H3.
  - destruct Hhist. split; cbn [DistributionCounter Distribution].
    + unfold d in *; cbn [dr_distribution_id distribution_of default id] in *. lia.
    + intros i. rewrite lookup_insert_is_Some', hi_ids0. simpl. lia.
    + intros i x [[<- <-]|[_ Hx]]%lookup_insert_Some; eauto.
  - unfold sum_allocated; cbn [Category TotalAllocated]. rewrite H5, Hsum. unfold d; simpl. unfold pending. lia.
  - unfold sum_distributed; simpl. rewrite msum_insert_fresh by done.
    unfold d; simpl; unfold pending. lia.
  - intros tk Htk. unfold sum_claimed; cbn [Category TotalCollected]. rewrite H4. by apply Hsol.
Qed.
(** *** The remaining entry points *)

Lemma fees_initialize_inv self a tk r m e w w' :
  0 ≤ r → 0 ≤ m → store w = deployed → (∀ tk, 0 ≤ tok_balance (ledger w) tk self) →
  initialize a tk r m e w = Ok (tt, w') → inv self (store w') (ledger w').
Proof.
  intros Hr0 Hm0 Hst Hbal Hr. unfold initialize, validate_max_rate in Hr. minv Hr. arith.
  simpl. rewrite Hst in *. simpl. split; simpl; try done.
  - do 2 eexists. split_and!; try done; lia.
  - split; simpl; try done; [constructor|]. intros id. rewrite lookup_empty. split.
    + by intros ?%not_elem_of_nil.
    + by intros [].
  - split; simpl; try done. intros i. rewrite lookup_empty. split; [by intros []|lia].
Qed.

Lemma fees_pause_inv self a e w w' :
  inv self (store w) (ledger w) → pause a e w = Ok (tt, w') → inv self (store w') (ledger w').
Proof.
  intros Hinv Hr. unfold pause, paused in Hr. minv Hr. spec fees_assert_admin_spec as [_ ->].
  eapply inv_config; eauto. apply Hinv.
Qed.

Lemma fees_unpause_inv self a e w w' :
  inv self (store w) (ledger w) → unpause a e w = Ok (tt, w') → inv self (store w') (ledger w').
Proof.
  intros Hinv Hr. unfold unpause, paused in Hr. minv Hr. spec fees_assert_admin_spec as [_ ->].
  eapply inv_config; eauto. apply Hinv.
Qed.

Lemma set_exempt_inv self a x b e w w' :
  inv self (store w) (ledger w) → set_exempt a x b e w = Ok (tt, w') →
  inv self (store w') (ledger w').
Proof.
  intros Hinv Hr. unfold set_exempt in Hr. minv Hr. spec fees_assert_admin_spec as [_ ->].
  eapply inv_config; eauto. apply Hinv.
Qed.

Lemma fees_claim_batch_inv self ids rcp e w n w' :
  wf_env self e → inv self (store w) (ledger w) →
  claim_batch ids rcp e w = Ok (n, w') → inv self (store w') (ledger w').
Proof.
  intros Hwf Hinv Hr. unfold claim_batch in Hr. minv Hr. simpl.
  match goal with H : foldM _ _ _ _ _ = _ |- _ => rename H into Hf end.
  eapply (foldM_inv _ (λ _ w, inv self (store w) (ledger w)) _ _ _ _ _ _ Hf); [done|].
  intros id b w1 b' w2 _ Hinv1 Hstep. minv Hstep.
  eapply fees_claim_one_inv; eauto using wf_auth_ne.
Qed.
End invariant.

Lemma fees_exec_inv `{TokenLaws} self c e (w w' : World State Event) :
  wf_env self e → call_ok c → inv self (store w) (ledger w) →
  exec c e w = Ok (tt, w') → inv self (store w') (ledger w').
Proof.
  intros Hwf Hok Hinv Hr. destruct c; simpl in Hok, Hr;
    try (apply discard_Ok in Hr as [? Hr]).
  - exfalso. minv Hr using initialize. zbool.
    match goal with H : ¬ is_Some _ |- _ => by apply H, (inv_admin _ _ _ Hinv) end.
  - by eapply fees_pause_inv.
  - by eapply fees_unpause_inv.
  - by eapply set_fee_rate_inv.
  - by eapply emergency_set_fee_rate_inv.
  - by eapply set_max_fee_rate_inv.
  - by eapply add_category_inv.
  - by eapply update_category_inv.
  - by eapply remove_category_inv.
  - by eapply reactivate_category_inv.
  - by eapply set_exempt_inv.
  - by eapply collect_fee_inv.
  - by eapply distribute_inv.
  - minv Hr using claim. eapply fees_claim_one_inv; eauto using wf_auth_ne.
  - by eapply fees_claim_batch_inv.
Qed.

(** The worlds reachable after a successful [initialize] on a fresh contract. *)
Definition reachable `{TokenHost} (self : Address) (t : Z) (w : World State Event) : Prop :=
  ∃ e0 w0 a tk r m w1,
    wf_env self e0 ∧ store w0 = deployed ∧ (∀ tk, 0 ≤ tok_balance (ledger w0) tk self) ∧
    0 ≤ r ∧ 0 ≤ m ∧ initialize a tk r m e0 w0 = Ok (tt, w1) ∧
    rtc (step exec call_ok self) (timestamp e0, w1) (t, w).

Lemma fees_reachable_inv `{TokenLaws} self t (w : World State Event) :
  reachable self t w → inv self (store w) (ledger w).
Proof.
  intros (e0 & w0 & a & tk & r & m & w1 & Hwf & Hst & Hbal & Hr & Hm & Hinit & Hsteps).
  apply (reach_inv exec call_ok self (λ _, inv self)) in Hsteps; [done| | |].
  - intros; by eapply fees_exec_inv.
  - intros; by eapply fees_inv_mono.
  - by eapply (fees_initialize_inv self a tk r m).
Qed.

(** ** Lemmas for the theorems *)

Section lemmas.
Context `{Laws : TokenLaws}.
Implicit Types (w : World State Event) (e : Env) (st : State).

(** The allocations, position by position. *)
Lemma allocations_lookup pend sum shs i id sh :
  shs !! i = Some (id, sh) → (S i < length shs)%nat →
  allocations pend sum shs !! i = Some (mkCategoryAllocation id ((pend * sh) `div` BPS_DENOMINATOR)).
Proof.
  revert sum i. induction shs as [|[id0 sh0] [|p shs] IH]; intros sum i Hi Hlt; simpl in Hlt; [lia..|].
  destruct i as [|i]; [by simplify_eq/=|]. apply IH; [done|simpl; lia].
Qed.

(** The last one gets its own part and less than one unit of dust per category. *)
Lemma allocations_last pend sum shs id sh :
  0 ≤ pend → last shs = Some (id, sh) →
  sum * BPS_DENOMINATOR + pend * lsum snd shs = pend * BPS_DENOMINATOR →
  ∃ a, last (allocations pend sum shs) = Some (mkCategoryAllocation id a) ∧
    (pend * sh) `div` BPS_DENOMINATOR ≤ a
      < (pend * sh) `div` BPS_DENOMINATOR + Z.of_nat (length shs).
Proof.
  intros Hp.
  assert (∀ k, Z.of_nat (length shs) ≤ k →
    sum * BPS_DENOMINATOR ≤ pend * BPS_DENOMINATOR - pend * lsum snd shs →
    pend * BPS_DENOMINATOR - pend * lsum snd shs
      ≤ (sum + (k - Z.of_nat (length shs))) * BPS_DENOMINATOR →
    last shs = Some (id, sh) →
    ∃ a, last (allocations pend sum shs) = Some (mkCategoryAllocation id a) ∧
      (pend * sh) `div` BPS_DENOMINATOR ≤ a < (pend * sh) `div` BPS_DENOMINATOR + k) as Hgen.
  { revert sum. induction shs as [|[id0 sh0] shs IH]; intros sum k Hk H1 H2 Hl; [done|].
    change (lsum snd ((id0, sh0) :: shs)) with (sh0 + lsum snd shs) in *.
    pose proof (Z.div_mod (pend * sh0) BPS_DENOMINATOR ltac:(done)) as Hdm.
    pose proof (Z.mod_pos_bound (pend * sh0) BPS_DENOMINATOR ltac:(done)) as Hmb.
    destruct shs as [|p shs].
    - simplify_eq/=. eexists; split; [done|]. unfold BPS_DENOMINATOR in *. nia.
    - set (q := (pend * sh0) `div` BPS_DENOMINATOR) in *.
      change (allocations pend sum ((id0, sh0) :: p :: shs))
        with (mkCategoryAllocation id0 q :: allocations pend (sum + q) (p :: shs)).
      destruct (IH (sum + q) k) as (a & Ha & Hb); cbn [length] in *.
      + lia.
      + unfold BPS_DENOMINATOR in *. lia.
      + unfold BPS_DENOMINATOR in *. lia.
      + done.
      + exists a. split; [|done]. rewrite last_cons, Ha. done. }
  intros Hl Hsum. apply Hgen; [lia| |lia|done]. lia.
Qed.

(** A claim of one category, as a change of its record. *)
Lemma claim_effect self id rcp e w paid w' :
  wf_env self e → inv self (store w) (ledger w) →
  claim id rcp e w = Ok (paid, w') →
  ∃ c tk, Category (store w) !! id = Some c ∧ Token (store w) = Some tk ∧
    authorized e rcp = true ∧ rc_recipient c = rcp ∧
    paid = rc_total_allocated c - rc_total_claimed c ∧ 0 < paid ∧
    moved (ledger w) (ledger w') tk self rcp paid ∧
    store w' = {| (store w) with
      Category := <[id := {| c with rc_total_claimed := rc_total_allocated c |}]>
        (Category (store w)) |}.
Proof.
  intros Hwf Hinv Hr. minv Hr using claim. zbool.
  spec fees_claim_one_spec as (c & Hcat & [(-> & _)|(Hrc & -> & Hpos & tk & l' & Htk & Ht & ->)]); [lia|].
  rewrite (wf_self _ _ Hwf) in Ht. apply transfer_moved in Ht.
  exists c, tk. split_and!; try done. simpl. f_equal. by rewrite (inv_lock _ _ _ Hinv).
Qed.

(** The history loop returns the records [id], [id - 1], ... *)
Lemma fetch_history_spec n acc id e w :
  hist_inv (store w) → 0 ≤ id ≤ default 0 (DistributionCounter (store w)) → id ≤ int_max U64 →
  ∃ recs, fetch_history n acc id e w = Ok (acc ++ recs, w) ∧
    Z.of_nat (length recs) = Z.min (Z.of_nat n) id ∧
    ∀ i r, recs !! i = Some r → Distribution (store w) !! (id - Z.of_nat i) = Some r.
Proof.
  intros Hh. revert acc id. induction n as [|n IH]; intros acc id Hid Hmax; simpl.
  { exists []. rewrite app_nil_r. split_and!; [done|simpl; lia|done]. }
  destruct (id >=? 1) eqn:Hge; zbool.
  - destruct (proj2 (hi_ids _ Hh id)) as [r Hrec]; [lia|].
    destruct (IH (acc ++ [r]) (id - 1)) as (recs & Hrun & Hlen & Hlook); [lia..|].
    exists (r :: recs). split_and!.
    + unfold get_distribution, mbind, M_bind, gets, expect, plain_sub. rewrite Hrec. simpl.
      unfold expect. rewrite (proj2 (checked_sub_Some U64 _ _ _)) by (split; [done|simpl in *; lia]).
      rewrite Hrun, <- (assoc_L (++)). done.
    + simpl. lia.
    + intros [|i] x Hx; simplify_eq/=.
      * rewrite <- Hrec. f_equal. lia.
      * rewrite <- (Hlook i x Hx). f_equal. lia.
  - exists []. rewrite app_nil_r. split_and!; [done|simpl; lia|done].
Qed.
(** Only the three rate setters change the rate. *)
Lemma claim_one_rate id rcp rp e w paid w' :
  claim_one id rcp rp e w = Ok (paid, w') → FeeRateBps (store w') = FeeRateBps (store w).
Proof.
  intros Hr. by apply fees_claim_one_spec in Hr
    as (c & _ & [(_ & -> & _)|(_ & _ & _ & tk & l' & _ & _ & ->)]).
Qed.

Lemma category_rate c e w w' :
  match c with
  | CPause _ | CUnpause _ | CAddCategory _ _ _ _ | CUpdateCategory _ _ _ _
  | CRemoveCategory _ _ | CReactivateCategory _ _ _ | CSetExempt _ _ _ => True
  | _ => False
  end → exec c e w = Ok (tt, w') → FeeRateBps (store w') = FeeRateBps (store w).
Proof.
  intros Hc Hr. destruct c; try done; simpl in Hr; try (apply discard_Ok in Hr as [? Hr]).
  all: unfold pause, unpause, paused, add_category, update_category, remove_category,
    reactivate_category, set_exempt, validate_share, total_shares_bps, category_ids in Hr; minv Hr.
  all: spec fees_assert_admin_spec as [_ ->]; try spec load_category_spec as [_ ->].
  all: try spec set_category_spec as ->; done.
Qed.

Lemma exec_rate self c e w w' :
  inv self (store w) (ledger w) → exec c e w = Ok (tt, w') →
  match c with
  | CSetFeeRate _ _ | CEmergencySetFeeRate _ _ | CSetMaxFeeRate _ _ => True
  | _ => FeeRateBps (store w') = FeeRateBps (store w)
  end.
Proof.
  intros Hinv Hr. destruct c; try done; try (by eapply category_rate in Hr); simpl in Hr;
    try (apply discard_Ok in Hr as [? Hr]).
  - exfalso. minv Hr using initialize. zbool.
    match goal with H : ¬ is_Some _ |- _ => by apply H, (inv_admin _ _ _ Hinv) end.
  - apply fees_collect_fee_spec in Hr as (_ & _ & _ & Hr). case_match; [by destruct Hr as (_ & -> & _)|].
    destruct Hr as (r & _ & Hr). cbv zeta in Hr. case_match; [by destruct Hr as [_ ->]|].
    by destruct Hr as (_ & tk & l' & _ & _ & ->).
  - by apply distribute_spec in Hr as (_ & _ & _ & _ & _ & ->); [|apply Hinv].
  - minv Hr using claim. by spec claim_one_rate as ->.
  - minv Hr using claim_batch. simpl.
    match goal with H : foldM _ _ _ _ _ = _ |- _ =>
      eapply (foldM_inv _ (λ _ w1, FeeRateBps (store w1) = FeeRateBps (store w))) in H; [done..|] end.
    intros id b w1 b' w2 _ Heq Hstep. minv Hstep. by spec claim_one_rate as ->.
Qed.

Lemma moved_zero l tk from to : moved l l tk from to 0.
Proof. intros tk' a. repeat case_bool_decide; lia. Qed.

Lemma moved_trans l1 l2 l3 tk from to n m :
  moved l1 l2 tk from to n → moved l2 l3 tk from to m → moved l1 l3 tk from to (n + m).
Proof. intros H1 H2 tk' a. rewrite H2, H1. repeat case_bool_decide; lia. Qed.

(** A category after its recipient has claimed everything. *)
Definition settled (c : RecipientCategory) : RecipientCategory :=
  {| c with rc_total_claimed := rc_total_allocated c |}.

Definition settle (ids : list Symbol) (rcp : Address) (id : Symbol) (c : RecipientCategory)
    : RecipientCategory :=
  if bool_decide (id ∈ ids ∧ rc_recipient c = rcp) then settled c else c.

Lemma settle_cons id0 ids rcp id c :
  settle (id0 :: ids) rcp id c = settle ids rcp id (settle [id0] rcp id c).
Proof.
  unfold settle. destruct (decide (id = id0)) as [->|Hne], (decide (rc_recipient c = rcp)).
  all: repeat case_bool_decide; try done; set_solver.
Qed.

(** One claim, whether or not it pays, settles its category for the recipient. *)
Lemma claim_one_effect self id rcp rp e w paid w' tk :
  wf_env self e → inv self (store w) (ledger w) → Token (store w) = Some tk →
  claim_one id rcp rp e w = Ok (paid, w') →
  Token (store w') = Some tk ∧ moved (ledger w) (ledger w') tk self rcp paid ∧
  ∀ i, Category (store w') !! i = settle [id] rcp i <$> Category (store w) !! i.
Proof.
  intros Hwf Hinv Htk Hr.
  apply fees_claim_one_spec in Hr as (c & Hc & [(-> & -> & _ & Hno)|(Hrc & -> & _ & tk' & l' & Htk' & Ht & ->)]).
  - split_and!; [done|apply moved_zero|]. intros i.
    destruct (Category (store w) !! i) as [c'|] eqn:Hi; [|done]. simpl. f_equal. unfold settle.
    case_bool_decide as Hd; [|done]. destruct Hd as [->%list_elem_of_singleton Hd]. simplify_eq.
    pose proof (co_claimed _ _ (ci_ok _ (inv_cats _ _ _ Hinv) _ _ Hc)).
    destruct Hno as [|Hno]; [done|]. destruct c; unfold settled; simpl in *. f_equal. lia.
  - rewrite (wf_self _ _ Hwf) in Ht. apply transfer_moved in Ht. simplify_eq.
    split_and!; [done..|]. intros i. simpl. rewrite lookup_insert. case_decide as Hd.
    + subst. rewrite Hc. simpl. f_equal. unfold settle. rewrite bool_decide_eq_true_2; [done|].
      split; [set_solver|done].
    + destruct (Category (store w) !! i); [|done]. simpl. f_equal. unfold settle.
      rewrite bool_decide_eq_false_2; [done|]. set_solver.
Qed.

Lemma claim_loop_effect self ids rcp e b w b' w' tk :
  wf_env self e → rcp ≠ self → inv self (store w) (ledger w) → Token (store w) = Some tk →
  foldM (λ total category_id,
      paid ← claim_one category_id rcp false;
      expect (checked_add I128 total paid) "Claim total overflow") b ids e w = Ok (b', w') →
  moved (ledger w) (ledger w') tk self rcp (b' - b) ∧
  ∀ i, Category (store w') !! i = settle ids rcp i <$> Category (store w) !! i.
Proof.
  intros Hwf Hne. revert b w. induction ids as [|id ids IH]; simpl; intros b w Hinv Htk Hr.
  - minv Hr. rewrite Z.sub_diag. split; [apply moved_zero|]. intros i.
    by destruct (Category _ !! i).
  - apply bind_Ok in Hr as (b1 & w1 & H1 & Hr). minv H1.
    match goal with H : claim_one _ _ _ _ _ = _ |- _ => rename H into Hone end.
    pose proof (fees_claim_one_inv _ _ _ _ _ _ _ _ Hwf Hne Hinv Hone) as Hinv1.
    eapply claim_one_effect in Hone as (Htk1 & Hm1 & Hc1); [|done..]. inv_checked.
    destruct (IH _ _ Hinv1 Htk1 Hr) as [Hm2 Hc2]. split.
    + replace (b' - b) with (a + (b' - (b + a))) by lia. by eapply moved_trans.
    + intros i. rewrite Hc2, Hc1. destruct (Category (store w) !! i); [|done]. simpl.
      by rewrite <- settle_cons.
Qed.
End lemmas.

(** ** Theorems *)

Section theorems.
Context `{Laws : TokenLaws}.
Implicit Types (w : World State Event) (e : Env).

(** C3: in every reachable world the contract's balance of the fee token
    covers everything collected and not yet paid out, hence everything the
    recipients can still claim. *)
Theorem fees_solvent self t w tk :
  reachable self t w → Token (store w) = Some tk →
  sum_allocated (store w) - sum_claimed (store w)
    ≤ default 0 (TotalCollected (store w)) - sum_claimed (store w)
    ≤ tok_balance (ledger w) tk self.
Proof.
  intros Hr Htk. destruct (fees_reachable_inv _ _ _ Hr). specialize (inv_solvent0 _ Htk). lia.
Qed.

(** The books balance in every reachable world: the share total is the
    sum of the categories' shares and at most 100%, the allocated total is
    the sum of the categories' totals and of the distribution records, no
    category has claimed more than it was allocated, and each category is
    listed exactly once among at most 20. *)
Theorem fees_accounting self t w :
  reachable self t w →
  let st := store w in
  default 0 (TotalSharesBps st) = sum_shares st ∧ sum_shares st ≤ BPS_DENOMINATOR ∧
  default 0 (TotalAllocated st) = sum_allocated st ∧
  default 0 (TotalAllocated st) = sum_distributed st ∧
  (∀ id c, Category st !! id = Some c → cat_ok id c) ∧
  (∀ id d, Distribution st !! id = Some d → record_ok id d) ∧
  NoDup (default [] (CategoryIds st)) ∧
  (∀ id, id ∈ default [] (CategoryIds st) ↔ is_Some (Category st !! id)) ∧
  Z.of_nat (length (default [] (CategoryIds st))) ≤ MAX_CATEGORIES.
Proof.
  intros Hr. destruct (fees_reachable_inv _ _ _ Hr) as [_ _ _ _ [] [] ? ? _ _]. by split_and!.
Qed.

(** C4: a distribution allocates the pending fees exactly: the active
    categories in order, every one but the last its share rounded down, the
    last the rest (its own share plus less than one unit per category); the
    parts add up to what was pending, each category is credited with its
    part, the record is stored under the next id and nothing stays pending. *)
Theorem distribute_exact self t e w r w' :
  reachable self t w → distribute e w = Ok (r, w') →
  let st := store w in
  let shs := active_shares (Category st) (default [] (CategoryIds st)) in
  dr_total_amount r = pending st ∧ 0 < pending st ∧
  lsum ca_amount (dr_allocations r) = pending st ∧
  ca_category_id <$> dr_allocations r = shs.*1 ∧
  (∀ i id sh, shs !! i = Some (id, sh) → (S i < length shs)%nat →
     dr_allocations r !! i =
       Some (mkCategoryAllocation id ((pending st * sh) `div` BPS_DENOMINATOR))) ∧
  (∃ id sh a, last shs = Some (id, sh) ∧
     last (dr_allocations r) = Some (mkCategoryAllocation id a) ∧
     (pending st * sh) `div` BPS_DENOMINATOR ≤ a
       < (pending st * sh) `div` BPS_DENOMINATOR + Z.of_nat (length shs)) ∧
  Category (store w') = foldl credit (Category st) (dr_allocations r) ∧
  dr_distribution_id r = default 0 (DistributionCounter st) + 1 ∧
  Distribution (store w') = <[dr_distribution_id r := r]> (Distribution st) ∧
  pending (store w') = 0 ∧ ledger w' = ledger w.
Proof.
  intros Hreach Hr. pose proof (fees_reachable_inv _ _ _ Hreach) as Hinv.
  apply distribute_spec in Hr as (Hsh & Hp & Hne & -> & Hid & ->); [|apply Hinv].
  destruct Hinv as [_ _ _ _ Hcats Hhist _ _ _ _]. cbn zeta.
  set (shs := active_shares _ _) in *.
  assert (lsum snd shs = BPS_DENOMINATOR) as Hsum.
  { unfold shs. rewrite active_shares_sum by (intros ? ? Hc; apply (ci_ok _ Hcats _ _ Hc)).
    rewrite <- Hsh, (ci_shares _ Hcats). unfold sum_shares.
    by rewrite (msum_keys _ _ _ (ci_nodup _ Hcats) (ci_ids _ Hcats)). }
  destruct (last shs) as [[id sh]|] eqn:Hlast; [|by apply last_None in Hlast].
  destruct (allocations_last (pending (store w)) 0 shs id sh) as (a & Ha & Hb); [lia|done|lia|].
  split_and!; try done.
  - simpl. rewrite lsum_allocations by done. lia.
  - apply allocations_ids.
  - intros i id0 sh0. apply allocations_lookup.
  - by exists id, sh, a.
  - unfold pending; simpl. lia.
Qed.

(** A successful claim pays the category's recipient exactly what was
    allocated and not yet claimed, changes no other category, and leaves
    nothing to claim: the same claim fails until the next distribution. *)
Theorem fee_claim_exact self t id rcp e w paid w' :
  wf_env self e → reachable self t w → claim id rcp e w = Ok (paid, w') →
  ∃ c tk, Category (store w) !! id = Some c ∧ Token (store w) = Some tk ∧
    authorized e rcp = true ∧ rc_recipient c = rcp ∧
    paid = rc_total_allocated c - rc_total_claimed c ∧ 0 < paid ∧
    moved (ledger w) (ledger w') tk self rcp paid ∧
    store w' = {| (store w) with Category := <[id := settled c]> (Category (store w)) |} ∧
    (∀ e2 r, wf_env self e2 → claim id rcp e2 w' ≠ Ok r).
Proof.
  intros Hwf Hreach Hr. pose proof (fees_reachable_inv _ _ _ Hreach) as Hinv.
  assert (inv self (store w') (ledger w')) as Hinv'.
  { apply (fees_exec_inv self (CClaim id rcp) e w w'); try done. apply discard_Ok. eauto. }
  eapply claim_effect in Hr as (c & tk & Hc & Htk & Hau & Hrc & -> & Hpos & Hm & Hst); [|done..].
  exists c, tk. split_and!; try done.
  intros e2 [paid2 w2] Hwf2 Hr2.
  eapply claim_effect in Hr2 as (c2 & _ & Hc2 & _ & _ & _ & Hp2 & Hpos2 & _); [|done..].
  rewrite Hst in Hc2. simpl in Hc2. rewrite lookup_insert_eq in Hc2. simplify_eq/=. lia.
Qed.

(** A batch claim settles exactly the listed categories that name the
    caller as recipient, however often each is listed, and pays their sum in
    total; every other category is untouched. *)
Theorem claim_batch_settles self t ids rcp e w paid w' :
  wf_env self e → reachable self t w → claim_batch ids rcp e w = Ok (paid, w') →
  ∃ tk, Token (store w) = Some tk ∧ 0 < paid ∧
    moved (ledger w) (ledger w') tk self rcp paid ∧
    ∀ id, Category (store w') !! id = settle ids rcp id <$> Category (store w) !! id.
Proof.
  intros Hwf Hreach Hr. pose proof (fees_reachable_inv _ _ _ Hreach) as Hinv.
  destruct (inv_token _ _ _ Hinv) as [tk Htk].
  minv Hr using claim_batch. zbool. exists tk.
  spec claim_loop_effect as [Hm Hc]; [|eauto using wf_auth_ne..].
  rewrite Z.sub_0_r in Hm. split_and!; done.
Qed.

(** The fee rate stays within its bounds in every reachable world (at
    most the maximum, itself at most 20%), and a call moves it by at most 5
    percentage points, unless it is the emergency setter or a lower maximum
    that caps it. *)
Theorem fee_rate_controlled self t w :
  reachable self t w →
  ∃ r m, FeeRateBps (store w) = Some r ∧ MaxFeeRateBps (store w) = Some m ∧
    0 ≤ r ≤ m ∧ 1 ≤ m ≤ HARD_CAP_FEE_RATE_BPS ∧
    ∀ c e w', exec c e w = Ok (tt, w') →
      match c with
      | CSetFeeRate a r' => Admin (store w) = Some a ∧ FeeRateBps (store w') = Some r' ∧
          r - MAX_FEE_RATE_STEP_BPS ≤ r' ≤ r + MAX_FEE_RATE_STEP_BPS ∧ r' ≤ m
      | CEmergencySetFeeRate a r' =>
          Admin (store w) = Some a ∧ FeeRateBps (store w') = Some r' ∧ r' ≤ m
      | CSetMaxFeeRate a m' =>
          Admin (store w) = Some a ∧ FeeRateBps (store w') = Some (Z.min r m')
      | _ => FeeRateBps (store w') = Some r
      end.
Proof.
  intros Hreach. pose proof (fees_reachable_inv _ _ _ Hreach) as Hinv.
  destruct (inv_rate _ _ _ Hinv) as (r & m & Hrate & Hmax & Hrm & Hm). exists r, m.
  split_and!; try done; try lia. intros c e w' Hr.
  pose proof (exec_rate _ _ _ _ _ Hinv Hr) as Hsame. rewrite Hrate in Hsame.
  destruct c; try done; clear Hsame; simpl in Hr.
  - unfold set_fee_rate, max_fee_rate, fee_rate in Hr. minv Hr.
    spec fees_assert_admin_spec as [Ha ->]. zbool. simplify_eq. split_and!; try done; lia.
  - unfold emergency_set_fee_rate, max_fee_rate in Hr. minv Hr.
    spec fees_assert_admin_spec as [Ha ->]. zbool. simplify_eq. split_and!; try done; lia.
  - unfold set_max_fee_rate, validate_max_rate, fee_rate in Hr. minv Hr.
    all: spec fees_assert_admin_spec as [Ha ->]; zbool; simplify_eq; split; [done|].
    all: simpl; rewrite ?Hrate; f_equal; lia.
Qed.

(** Collecting a fee from a payer who is not exempt takes the rate's
    share of the gross amount, rounded down and so at most 20% of it, from
    the payer, and adds it to what is pending; an exempt payer pays nothing. *)
Theorem collect_fee_exact self t p n e w fee w' :
  wf_env self e → reachable self t w → collect_fee p n e w = Ok (fee, w') →
  ∃ r tk, FeeRateBps (store w) = Some r ∧ Token (store w) = Some tk ∧
    authorized e p = true ∧ 0 < n ∧
    fee = (if default false (Exempt (store w) !! p) then 0 else (n * r) `div` BPS_DENOMINATOR) ∧
    0 ≤ fee ∧ fee * 5 ≤ n ∧
    moved (ledger w) (ledger w') tk p self fee ∧
    pending (store w') = pending (store w) + fee.
Proof.
  intros Hwf Hreach Hr. pose proof (fees_reachable_inv _ _ _ Hreach) as Hinv.
  destruct (inv_token _ _ _ Hinv) as [tk Htk].
  destruct (inv_rate _ _ _ Hinv) as (r & m & Hrate & _ & Hrm & Hm).
  apply fees_collect_fee_spec in Hr as (Hau & _ & Hn & Hr). exists r, tk.
  unfold HARD_CAP_FEE_RATE_BPS in Hm.
  assert (0 ≤ (n * r) `div` BPS_DENOMINATOR ∧ (n * r) `div` BPS_DENOMINATOR * 5 ≤ n) as [Hf0 Hf5].
  { split; [apply Z.div_pos; unfold BPS_DENOMINATOR; nia|].
    pose proof (Z.mul_div_le (n * r) BPS_DENOMINATOR ltac:(done)). unfold BPS_DENOMINATOR in *. nia. }
  case_match.
  - destruct Hr as (-> & -> & ->). split_and!; try done; try lia. apply moved_zero.
  - destruct Hr as (r' & Hr' & Hr). simplify_eq. cbv zeta in Hr.
    rewrite quot_div_nonneg in Hr by (unfold BPS_DENOMINATOR; nia).
    case_match; zbool.
    + destruct Hr as [-> ->]. split_and!; try done; try lia. apply moved_zero.
    + destruct Hr as (-> & tk' & l' & Htk' & Ht & ->). simplify_eq.
      rewrite (wf_self _ _ Hwf) in Ht. apply transfer_moved in Ht.
      split_and!; try done. unfold pending; simpl. lia.
Qed.

(** The history view is total on reachable worlds and returns the
    records from number [counter - offset] downwards: at most [limit] and at
    most 100 of them, and all that exist below that. *)
Theorem history_view_total self t offset limit e w :
  reachable self t w → 0 ≤ offset → 0 ≤ limit →
  let start := default 0 (DistributionCounter (store w)) - offset in
  ∃ recs, get_distribution_history offset limit e w = Ok (recs, w) ∧
    Z.of_nat (length recs) = Z.min (Z.min limit MAX_HISTORY_LIMIT) (Z.max 0 start) ∧
    ∀ i r, recs !! i = Some r → Distribution (store w) !! (start - Z.of_nat i) = Some r.
Proof.
  intros Hreach Ho Hl start. pose proof (inv_hist _ _ _ (fees_reachable_inv _ _ _ Hreach)) as Hh.
  pose proof (hi_counter _ Hh) as Hc. unfold get_distribution_history, get_distribution_counter.
  unfold mbind, M_bind, gets. set (c := default 0 (DistributionCounter (store w))) in *.
  set (bl := if limit >? MAX_HISTORY_LIMIT then MAX_HISTORY_LIMIT else limit).
  assert (bl = Z.min limit MAX_HISTORY_LIMIT) as Hbl
    by (unfold bl; destruct (limit >? MAX_HISTORY_LIMIT) eqn:E; zbool; lia).
  destruct ((bl =? 0) || (c <=? offset)) eqn:E.
  - exists []. split_and!; [done| |done]. simpl. apply orb_true_iff in E. unfold start.
    destruct E; zbool; unfold MAX_HISTORY_LIMIT in *; lia.
  - zbool. unfold plain_sub, expect.
    rewrite (proj2 (checked_sub_Some U64 _ _ _)) by (split; [done|simpl in *; lia]).
    destruct (fetch_history_spec (Z.to_nat bl) [] start e w Hh) as (recs & Hrun & Hlen & Hlook);
      [unfold start; lia..|].
    exists recs. split_and!; [exact Hrun| |done].
    unfold start, MAX_HISTORY_LIMIT in *. lia.
Qed.
End theorems.

(** ** Concrete runs

    A 10% fee, three categories (50%, 30%, 20%), 1009 tokens of fees collected
    on 10091 and distributed. *)

Module FeeDemo.

Definition self := mkAddress "FEE".
Definition adm := mkAddress "ADM".
Definition payer := mkAddress "PAY".
Definition tok := mkAddress "TOK".
Definition dao := mkAddress "DAO".
Definition ops := mkAddress "OPS".

Definition e0 := env_at 0 self [adm].
Definition e1 := env_at 5 self [payer].
Definition e2 := env_at 9 self [dao].

Definition w0 : World State Event := mkWorld deployed (sl_of [(tok, payer, 20000)]) [].
Definition w1 := world_of (initialize adm tok 1000 2000 e0 w0) w0.

Definition setup : list (Z * list Address * Call) :=
  [ (0, [adm], CAddCategory adm "dao" dao 5000);
    (1, [adm], CAddCategory adm "ops" ops 3000);
    (2, [adm], CAddCategory adm "grants" dao 2000);
    (5, [payer], CCollectFee payer 10091) ].
Definition w5 := run_script exec self setup w1.
Definition w6 := run_script exec self (setup ++ [(5, [payer], CDistribute)]) w1.

Lemma fees_w1_init : initialize adm tok 1000 2000 e0 w0 = Ok (tt, w1).
Proof. apply run_ok_unit. vm_compute. reflexivity. Qed.

Lemma fees_script_reachable cs :
  script_ok exec self 0 cs w1 = true → Forall (λ c, call_ok c.2) cs →
  reachable self (script_end 0 cs) (run_script exec self cs w1).
Proof.
  intros Hok Hcs. exists e0, w0, adm, tok, 1000, 2000, w1. split_and!; [..|by apply run_script_reach].
  - by apply env_at_wf.
  - reflexivity.
  - intros tk. apply (sl_of_nonneg [(tok, payer, 20000)]). reflexivity.
  - discriminate.
  - discriminate.
  - apply fees_w1_init.
Qed.

Lemma w5_reachable : reachable self 5 w5.
Proof. apply (fees_script_reachable setup); [vm_compute; reflexivity|]. repeat constructor; discriminate. Qed.

Lemma w6_reachable : reachable self 5 w6.
Proof.
  apply (fees_script_reachable (setup ++ [(5, [payer], CDistribute)])); [vm_compute; reflexivity|].
  repeat constructor; discriminate.
Qed.

Lemma fees_solvent_witness :
  sum_allocated (store w6) - sum_claimed (store w6) = 1009 ∧
  1009 ≤ tok_balance (ledger w6) tok self.
Proof.
  split; [vm_compute; reflexivity|].
  transitivity (default 0 (TotalCollected (store w6)) - sum_claimed (store w6)).
  - vm_compute; discriminate.
  - apply (fees_solvent self 5 w6 tok w6_reachable). vm_compute. reflexivity.
Defined.

Lemma fees_accounting_witness :
  default 0 (TotalAllocated (store w6)) = 1009 ∧ sum_distributed (store w6) = 1009.
Proof.
  split; [vm_compute; reflexivity|].
  destruct (fees_accounting self 5 w6 w6_reachable) as (_ & _ & _ & H & _).
  rewrite <- H. vm_compute. reflexivity.
Defined.

(** The parts are 504, 302 and, with the dust, 203. *)
Lemma distribute_exact_witness :
  ∃ r w', distribute e1 w5 = Ok (r, w') ∧
    dr_allocations r = [ mkCategoryAllocation "dao" 504; mkCategoryAllocation "ops" 302;
                         mkCategoryAllocation "grants" 203 ] ∧
    pending (store w') = 0.
Proof.
  set (d := mkDistributionRecord 0 0 0 0 []).
  exists (value_of (distribute e1 w5) d), (world_of (distribute e1 w5) w5).
  assert (distribute e1 w5 = Ok (value_of (distribute e1 w5) d, world_of (distribute e1 w5) w5)) as Hc
    by (apply run_ok; vm_compute; reflexivity).
  split_and!; [exact Hc|vm_compute; reflexivity|].
  destruct (distribute_exact self 5 e1 w5 _ _ w5_reachable Hc)
    as (_ & _ & _ & _ & _ & _ & _ & _ & _ & Hp & _).
  exact Hp.
Defined.

Lemma fees_wf_e2 : wf_env self e2.
Proof. apply env_at_wf. reflexivity. Qed.

Lemma fee_claim_exact_witness :
  ∃ w', claim "dao" dao e2 w6 = Ok (504, w') ∧
    ∀ e r, wf_env self e → claim "dao" dao e w' ≠ Ok r.
Proof.
  exists (world_of (claim "dao" dao e2 w6) w0).
  assert (claim "dao" dao e2 w6 = Ok (504, world_of (claim "dao" dao e2 w6) w0)) as Hc
    by (apply (run_ok_val _ 504 0); vm_compute; reflexivity).
  split; [exact Hc|].
  destruct (fee_claim_exact self 5 "dao" dao e2 w6 504 _ fees_wf_e2 w6_reachable Hc)
    as (c & tk & _ & _ & _ & _ & _ & _ & _ & _ & Hno).
  exact Hno.
Defined.

(** Listing a category twice pays it once: 504 + 203. *)
Lemma claim_batch_settles_witness :
  ∃ w', claim_batch ["dao"; "grants"; "dao"; "ops"] dao e2 w6 = Ok (707, w') ∧
    ∀ id, Category (store w') !! id =
      settle ["dao"; "grants"; "dao"; "ops"] dao id <$> Category (store w6) !! id.
Proof.
  set (m := claim_batch ["dao"; "grants"; "dao"; "ops"] dao e2 w6).
  exists (world_of m w0).
  assert (m = Ok (707, world_of m w0)) as Hc by (apply (run_ok_val _ 707 0); vm_compute; reflexivity).
  split; [exact Hc|].
  destruct (claim_batch_settles self 5 _ dao e2 w6 707 _ fees_wf_e2 w6_reachable Hc)
    as (tk & _ & _ & _ & Hs).
  exact Hs.
Defined.

Lemma fee_rate_controlled_witness :
  ∃ r m, FeeRateBps (store w5) = Some r ∧ MaxFeeRateBps (store w5) = Some m ∧
    0 ≤ r ≤ m ∧ 1 ≤ m ≤ HARD_CAP_FEE_RATE_BPS.
Proof.
  destruct (fee_rate_controlled self 5 w5 w5_reachable) as (r & m & H1 & H2 & H3 & H4 & _).
  exists r, m. split_and!; [exact H1|exact H2|apply H3..|apply H4|apply H4].
Defined.

Definition e3 := env_at 7 self [payer].

Lemma collect_fee_exact_witness :
  ∃ w', collect_fee payer 99 e3 w5 = Ok (9, w') ∧ pending (store w') = pending (store w5) + 9.
Proof.
  exists (world_of (collect_fee payer 99 e3 w5) w0).
  assert (collect_fee payer 99 e3 w5 = Ok (9, world_of (collect_fee payer 99 e3 w5) w0)) as Hc
    by (apply (run_ok_val _ 9 0); vm_compute; reflexivity).
  split; [exact Hc|].
  destruct (collect_fee_exact self 5 payer 99 e3 w5 9 _ (env_at_wf self 7 [payer] eq_refl)
    w5_reachable Hc) as (r & tk & _ & _ & _ & _ & _ & _ & _ & _ & Hp).
  exact Hp.
Defined.

Lemma history_view_total_witness :
  ∃ recs, get_distribution_history 0 10 e1 w6 = Ok (recs, w6) ∧ Z.of_nat (length recs) = 1.
Proof.
  destruct (history_view_total self 5 0 10 e1 w6 w6_reachable ltac:(discriminate) ltac:(discriminate))
    as (recs & Hr & Hl & _).
  exists recs. split; [exact Hr|]. rewrite Hl. vm_compute. reflexivity.
Defined.
End FeeDemo.
