(* ===== verification/AccessControl.v ===== *)
(** * contracts/access-control: roles and role admins

    State and operations of the [AccessControl] contract
    (src/contracts/access-control/src/lib.rs), and the interface
    [RoleRegistry] under which other contracts consult it. *)

From stdpp Require Import gmap strings list fin_maps.
From S2P Require Import Prelude Soroban TokenModel.
Open Scope Z_scope.

(** ** Roles and the registry interface *)

Inductive Role := RAdmin | RMinter | RBurner | RPauser | RGovernance.

#[global] Instance Role_eq_dec : EqDecision Role.
Proof. solve_decision. Defined.
#[global] Instance Role_countable : Countable Role.
Proof.
  apply (inj_countable'
    (λ r, match r with RAdmin => 0%nat | RMinter => 1%nat | RBurner => 2%nat
          | RPauser => 3%nat | RGovernance => 4%nat end)
    (λ n, match n with 0%nat => RAdmin | 1%nat => RMinter | 2%nat => RBurner
          | 3%nat => RPauser | _ => RGovernance end)).
  by intros [].
Defined.

(** What a client contract sees of a registry: a membership test, and two
    updates that change that test at one role and account only. *)
Class RoleRegistry (R : Type) := {
  registry_has_role : R → Role → Address → bool;
  registry_grant : R → Role → Address → R;
  registry_revoke : R → Role → Address → R;
}.

Class RoleRegistryLaws (R : Type) `{RoleRegistry R} : Prop := {
  has_role_grant r role a role' a' :
    registry_has_role (registry_grant r role a) role' a' =
    bool_decide (role' = role ∧ a' = a) || registry_has_role r role' a';
  has_role_revoke r role a role' a' :
    registry_has_role (registry_revoke r role a) role' a' =
    negb (bool_decide (role' = role ∧ a' = a)) && registry_has_role r role' a';
}.

Module AccessControl.

(** ** Data *)

Inductive AccessControlError := AlreadyInitialized | Unauthorized | InvalidRole.

Record State := mkState {
  Initialized : option bool;
  Member : gmap (Role * Address) bool;
  RoleAdmin : gmap Role Role;
}.

Inductive Event :=
| RoleGranted (role : Role) (account sender : Address)
| RoleRevoked (role : Role) (account sender : Address)
| RoleAdminChanged (role admin_role : Role) (sender : Address).

Section contract.
Context `{TokenHost}.

Local Abbreviation C := (M State AccessControlError Event).

Definition has_role (s : State) (role : Role) (account : Address) : bool :=
  bool_decide (is_Some (Member s !! (role, account))).

Definition put_member (role : Role) (account : Address) (value : bool) (s : State) : State :=
  if value then {| s with Member := <[(role, account) := true]> (Member s) |}
  else {| s with Member := delete (role, account) (Member s) |}.

Definition set_member (role : Role) (account : Address) (value : bool) : C () :=
  modify (put_member role account value).

Definition all_roles : list Role := [RAdmin; RMinter; RBurner; RPauser; RGovernance].

Definition require_role_admin (role : Role) (sender : Address) : C () :=
  o ← gets (λ s, RoleAdmin s !! role);
  admin_role ← ok_or o InvalidRole;
  b ← gets (λ s, has_role s admin_role sender);
  if (b : bool) then mret tt else throw Unauthorized.

Definition initialize (admin : Address) : C () :=
  i ← gets Initialized;
  throw_if (bool_decide (is_Some i)) AlreadyInitialized;;
  require_auth admin;;
  modify (λ s, {| s with Initialized := Some true |});;
  foldM (λ _ role, modify (λ s, {| s with RoleAdmin := <[role := RAdmin]> (RoleAdmin s) |}))
    tt all_roles;;
  set_member RAdmin admin true;;
  publish (RoleGranted RAdmin admin admin).

Definition get_role_admin (role : Role) : C Role :=
  o ← gets (λ s, RoleAdmin s !! role);
  ok_or o InvalidRole.

Definition grant_role (role : Role) (account sender : Address) : C () :=
  require_auth sender;;
  require_role_admin role sender;;
  b ← gets (λ s, has_role s role account);
  if negb b then
    set_member role account true;;
    publish (RoleGranted role account sender)
  else mret tt.

Definition revoke_role (role : Role) (account sender : Address) : C () :=
  require_auth sender;;
  require_role_admin role sender;;
  b ← gets (λ s, has_role s role account);
  if (b : bool) then
    set_member role account false;;
    publish (RoleRevoked role account sender)
  else mret tt.

Definition set_role_admin (role admin_role : Role) (sender : Address) : C () :=
  require_auth sender;;
  require_role_admin role sender;;
  modify (λ s, {| s with RoleAdmin := <[role := admin_role]> (RoleAdmin s) |});;
  publish (RoleAdminChanged role admin_role sender).

End contract.

(** ** Entry points as calls *)

Inductive Call :=
| CInitialize (admin : Address)
| CGrantRole (role : Role) (account sender : Address)
| CRevokeRole (role : Role) (account sender : Address)
| CSetRoleAdmin (role admin_role : Role) (sender : Address).

Definition exec `{TokenHost} (c : Call) : M State AccessControlError Event () :=
  match c with
  | CInitialize a => initialize a
  | CGrantRole r a s => grant_role r a s
  | CRevokeRole r a s => revoke_role r a s
  | CSetRoleAdmin r ar s => set_role_admin r ar s
  end.

Definition deployed : State := mkState None ∅ ∅.

End AccessControl.

(** ** The contract is a role registry *)

#[global] Instance access_control_registry : RoleRegistry AccessControl.State := {|
  registry_has_role := AccessControl.has_role;
  registry_grant r role a := AccessControl.put_member role a true r;
  registry_revoke r role a := AccessControl.put_member role a false r;
|}.

#[global] Instance access_control_registry_laws : RoleRegistryLaws AccessControl.State.
Proof.
  split; intros r role a role' a'; cbn; unfold AccessControl.has_role; cbn [AccessControl.Member].
  - rewrite lookup_insert. destruct (decide (role' = role ∧ a' = a)) as [[-> ->]|Hne].
    + rewrite decide_True by done. rewrite bool_decide_eq_true_2 by eauto.
      by rewrite bool_decide_eq_true_2.
    + rewrite decide_False by naive_solver. by rewrite (bool_decide_eq_false_2 (role' = role ∧ a' = a)).
  - rewrite lookup_delete. destruct (decide (role' = role ∧ a' = a)) as [[-> ->]|Hne].
    + rewrite decide_True by done. rewrite bool_decide_eq_false_2; [|by intros []].
      by rewrite bool_decide_eq_true_2.
    + rewrite decide_False by naive_solver. by rewrite (bool_decide_eq_false_2 (role' = role ∧ a' = a)).
Qed.

(** ** Specifications *)

Section specs.
Context `{TokenHost}.
Import AccessControl.
Implicit Types (w : World State Event) (e : Env).

(** An account may act on [role] when it holds the role that administers it. *)
Definition administers (s : State) (sender : Address) (role : Role) : bool :=
  match RoleAdmin s !! role with Some ar => has_role s ar sender | None => false end.

(** A guarded call: what it does once the sender has signed and administers
    the role, and how it fails otherwise. *)
Definition guarded (sender : Address) (role : Role) (e : Env) (w w' : World State Event)
    : Outcome AccessControlError (() * World State Event) :=
  if negb (authorized e sender) then Panic "unauthorized"
  else if administers (store w) sender role then Ok (tt, w')
  else match RoleAdmin (store w) !! role with
       | Some _ => Err Unauthorized
       | None => Err InvalidRole
       end.

Lemma guarded_Ok sender role e w w1 u w' :
  guarded sender role e w w1 = Ok (u, w') →
  authorized e sender = true ∧ administers (store w) sender role = true ∧ w' = w1.
Proof. unfold guarded. intros Hg. repeat case_match; simplify_eq; zbool; done. Qed.

Lemma guarded_bind sender role (m : M State AccessControlError Event ()) e w w' :
  m e w = Ok (tt, w') →
  (require_auth sender;; require_role_admin role sender;; m) e w = guarded sender role e w w'.
Proof.
  intros Hm. unfold guarded, require_auth, require_role_admin, administers, mbind, M_bind, gets, ok_or.
  destruct (authorized e sender); [|done].
  destruct (RoleAdmin (store w) !! role) as [ar|]; [|done]. by destruct (has_role _ ar sender).
Qed.

Lemma grant_role_eq role account sender e w :
  grant_role role account sender e w = guarded sender role e w
    (if has_role (store w) role account then w
     else mkWorld (registry_grant (store w) role account) (ledger w)
            (log w ++ [RoleGranted role account sender])).
Proof.
  apply guarded_bind. unfold mbind, M_bind, gets. by destruct (has_role _ role account).
Qed.

Lemma revoke_role_eq role account sender e w :
  revoke_role role account sender e w = guarded sender role e w
    (if has_role (store w) role account
     then mkWorld (registry_revoke (store w) role account) (ledger w)
            (log w ++ [RoleRevoked role account sender])
     else w).
Proof.
  apply guarded_bind. unfold mbind, M_bind, gets. by destruct (has_role _ role account).
Qed.

Lemma set_role_admin_eq role ar sender e w :
  set_role_admin role ar sender e w = guarded sender role e w
    (mkWorld {| (store w) with RoleAdmin := <[role := ar]> (RoleAdmin (store w)) |} (ledger w)
       (log w ++ [RoleAdminChanged role ar sender])).
Proof. by apply guarded_bind. Qed.

(** A grant that finds the role already held, a revocation that finds it not
    held, change nothing; so both always have their interface's effect. *)
Lemma grant_has_role s role account r a :
  has_role (if has_role s role account then s else registry_grant s role account) r a =
  bool_decide (r = role ∧ a = account) || has_role s r a.
Proof.
  destruct (has_role s role account) eqn:Hm; [|exact (has_role_grant s role account r a)].
  case_bool_decide as Hd; [|done]. by destruct Hd as [-> ->].
Qed.

Lemma revoke_has_role s role account r a :
  has_role (if has_role s role account then registry_revoke s role account else s) r a =
  negb (bool_decide (r = role ∧ a = account)) && has_role s r a.
Proof.
  destruct (has_role s role account) eqn:Hm; [exact (has_role_revoke s role account r a)|].
  case_bool_decide as Hd; [|done]. destruct Hd as [-> ->]. by rewrite Hm.
Qed.

(** Once initialized, every role has an administering role, for ever. *)
Definition governed (s : State) : Prop :=
  is_Some (Initialized s) ∧ ∀ r, is_Some (RoleAdmin s !! r).

Lemma roles_initialize_spec admin e w w' :
  initialize admin e w = Ok (tt, w') →
  Initialized (store w) = None ∧ authorized e admin = true ∧ governed (store w') ∧
  (∀ r, RoleAdmin (store w') !! r = Some RAdmin) ∧
  (∀ r a, has_role (store w') r a =
     bool_decide (r = RAdmin ∧ a = admin) || has_role (store w) r a).
Proof.
  intros Hr. unfold initialize, all_roles, set_member in Hr. cbn [foldM] in Hr. minv Hr.
  assert (∀ r, RoleAdmin (put_member RAdmin admin true
    {| Initialized := Some true; Member := Member (store w);
       RoleAdmin := <[RGovernance := RAdmin]> (<[RPauser := RAdmin]> (<[RBurner := RAdmin]>
         (<[RMinter := RAdmin]> (<[RAdmin := RAdmin]> (RoleAdmin (store w))))))
    |}) !! r = Some RAdmin) as Hra.
  { intros []; simpl; by simplify_map_eq. }
  zbool. split_and!; try done.
  - by apply eq_None_not_Some.
  - split; simpl; eauto.
  - intros r a. exact (has_role_grant {| (store w) with Initialized := Some true |} RAdmin admin r a).
Qed.

(** Calls that change nothing but what an administrator of the role asked for. *)
Lemma exec_step c e w w' :
  governed (store w) → exec c e w = Ok (tt, w') →
  governed (store w') ∧
  ∀ r, (∃ a, has_role (store w') r a ≠ has_role (store w) r a) ∨
       RoleAdmin (store w') !! r ≠ RoleAdmin (store w) !! r →
    ∃ sender, authorized e sender = true ∧ administers (store w) sender r = true.
Proof.
  intros [Hi Hg] Hr. destruct c as [adm|role acc sender|role acc sender|role ar sender]; simpl in Hr.
  - apply roles_initialize_spec in Hr as (Hn & _). rewrite Hn in Hi. by destruct Hi.
  - rewrite grant_role_eq in Hr. apply guarded_Ok in Hr as (Hau & Had & ->).
    split; [by destruct (has_role _ role acc)|]. intros r Hr. exists sender. split; [done|].
    destruct (decide (r = role)) as [->|Hne]; [done|exfalso].
    destruct Hr as [[a Ha]|Ha]; apply Ha.
    + pose proof (grant_has_role (store w) role acc r a) as Heq.
      rewrite bool_decide_eq_false_2 in Heq by naive_solver. by destruct (has_role _ role acc).
    + by destruct (has_role _ role acc).
  - rewrite revoke_role_eq in Hr. apply guarded_Ok in Hr as (Hau & Had & ->).
    split; [by destruct (has_role _ role acc)|]. intros r Hr. exists sender. split; [done|].
    destruct (decide (r = role)) as [->|Hne]; [done|exfalso].
    destruct Hr as [[a Ha]|Ha]; apply Ha.
    + pose proof (revoke_has_role (store w) role acc r a) as Heq.
      rewrite bool_decide_eq_false_2 in Heq by naive_solver. by destruct (has_role _ role acc).
    + by destruct (has_role _ role acc).
  - rewrite set_role_admin_eq in Hr. apply guarded_Ok in Hr as (Hau & Had & ->). simpl.
    split; [split; [done|]; intros r; simpl; rewrite lookup_insert; case_decide; eauto|].
    intros r [[a Ha]|Ha]; [done|]. exists sender. split; [done|].
    destruct (decide (r = role)) as [->|Hne]; [done|]. by rewrite lookup_insert_ne in Ha.
Qed.

Lemma exec_administered c e w u w' :
  governed (store w) → exec c e w = Ok (u, w') →
  ∃ sender role, administers (store w) sender role = true.
Proof.
  intros [Hi _] Hr. destruct u, c; simpl in Hr;
    rewrite ?grant_role_eq, ?revoke_role_eq, ?set_role_admin_eq in Hr.
  - apply roles_initialize_spec in Hr as (Hn & _). rewrite Hn in Hi. by destruct Hi.
  - apply guarded_Ok in Hr as (_ & Had & _). eauto.
  - apply guarded_Ok in Hr as (_ & Had & _). eauto.
  - apply guarded_Ok in Hr as (_ & Had & _). eauto.
Qed.
End specs.

(** ** Theorems *)

Section theorems.
Context `{TokenHost}.
Import AccessControl.
Implicit Types (w : World State Event) (e : Env).

(** [grant_role], [revoke_role] and [set_role_admin] on every branch: they
    panic without the sender's signature, return [InvalidRole] for a role
    without administrator, [Unauthorized] for a sender who does not hold the
    administering role, and otherwise succeed and change exactly the one
    membership (or the one administering role) named. *)
Theorem access_control_calls role account sender ar e w :
  grant_role role account sender e w = guarded sender role e w
    (if has_role (store w) role account then w
     else mkWorld (registry_grant (store w) role account) (ledger w)
            (log w ++ [RoleGranted role account sender])) ∧
  revoke_role role account sender e w = guarded sender role e w
    (if has_role (store w) role account
     then mkWorld (registry_revoke (store w) role account) (ledger w)
            (log w ++ [RoleRevoked role account sender])
     else w) ∧
  set_role_admin role ar sender e w = guarded sender role e w
    (mkWorld {| (store w) with RoleAdmin := <[role := ar]> (RoleAdmin (store w)) |} (ledger w)
       (log w ++ [RoleAdminChanged role ar sender])) ∧
  (∀ r a, has_role (registry_grant (store w) role account) r a =
     bool_decide (r = role ∧ a = account) || has_role (store w) r a) ∧
  (∀ r a, has_role (registry_revoke (store w) role account) r a =
     negb (bool_decide (r = role ∧ a = account)) && has_role (store w) r a).
Proof.
  split_and!; [apply grant_role_eq|apply revoke_role_eq|apply set_role_admin_eq|..].
  - intros r a. exact (has_role_grant (store w) role account r a).
  - intros r a. exact (has_role_revoke (store w) role account r a).
Qed.

(** C5: no privilege escalation, over any history after initialization: every
    role keeps an administering role, and a call that changes who holds a
    role, or which role administers it, was signed by an account that
    administered that role before the call. *)
Theorem access_control_no_escalation self admin e0 w0 w1 t w c e w' :
  initialize admin e0 w0 = Ok (tt, w1) →
  rtc (step exec (λ _, True) self) (timestamp e0, w1) (t, w) →
  exec c e w = Ok (tt, w') →
  (∀ r, is_Some (RoleAdmin (store w) !! r)) ∧
  ∀ r, (∃ a, has_role (store w') r a ≠ has_role (store w) r a) ∨
       RoleAdmin (store w') !! r ≠ RoleAdmin (store w) !! r →
    ∃ sender, authorized e sender = true ∧ administers (store w) sender r = true.
Proof.
  intros Hinit Hsteps Hr. apply roles_initialize_spec in Hinit as (_ & _ & Hg & _).
  apply (reach_inv exec (λ _, True) self (λ _ s _, governed s)) in Hsteps; [|..|done].
  - destruct (exec_step _ _ _ _ Hsteps Hr) as [_ Hch]. split; [apply Hsteps|exact Hch].
  - intros ? ? ? ? ? _ _ _ Hgov Hx. by apply exec_step in Hx as [? _].
  - done.
Qed.

(** A registry whose administering roles have no members is frozen: in
    every later world every call fails, so no membership and no administering
    role ever changes again.  The last administrator can bring this about by
    revoking its own role. *)
Theorem access_control_lockout self t w t' w' :
  governed (store w) → (∀ r a, administers (store w) a r = false) →
  rtc (step exec (λ _, True) self) (t, w) (t', w') →
  store w' = store w ∧ ∀ c e r, exec c e w' ≠ Ok r.
Proof.
  intros Hg Hno Hsteps.
  assert (∀ w1 c e r, store w1 = store w → exec c e w1 ≠ Ok r) as Hfail.
  { intros w1 c e [[] w2] Hst Hx. eapply exec_administered in Hx as (s & role & Hs); [|by rewrite Hst].
    by rewrite Hst, Hno in Hs. }
  apply (reach_inv exec (λ _, True) self (λ _ s _, s = store w)) in Hsteps; [|..|done]; [eauto| |done].
  intros t1 c e w1 w2 _ _ _ Hst Hx. by apply Hfail in Hx.
Qed.
End theorems.

(** ** Concrete runs: an administrator appoints a minter, then resigns. *)

Module AccessDemo.
Import AccessControl.

Definition self := mkAddress "AC".
Definition adm := mkAddress "ADM".
Definition bob := mkAddress "BOB".

Definition e0 := env_at 0 self [adm].
Definition w0 : World State Event := mkWorld deployed (sl_of []) [].
Definition w1 := world_of (initialize adm e0 w0) w0.
Definition appoint := (1, [adm], CGrantRole RMinter bob adm).
Definition resign := (2, [adm], CRevokeRole RAdmin adm adm).
Definition w2 := run_script exec self [appoint] w1.
Definition w3 := run_script exec self [resign] w2.

Lemma roles_w1_init : initialize adm e0 w0 = Ok (tt, w1).
Proof. apply run_ok_unit. vm_compute. reflexivity. Qed.

Lemma roles_w2_steps : rtc (step exec (λ _, True) self) (timestamp e0, w1) (1, w2).
Proof.
  apply (run_script_reach exec (λ _, True) self 0 [appoint] w1); [vm_compute; reflexivity|].
  by repeat constructor.
Qed.

Lemma access_control_no_escalation_witness :
  ∃ w', exec (CRevokeRole RAdmin adm adm) (env_at 2 self [adm]) w2 = Ok (tt, w') ∧
    has_role (store w2) RAdmin adm = true ∧ has_role (store w') RAdmin adm = false ∧
    ∃ sender, authorized (env_at 2 self [adm]) sender = true ∧
      administers (store w2) sender RAdmin = true.
Proof.
  exists w3.
  assert (exec (CRevokeRole RAdmin adm adm) (env_at 2 self [adm]) w2 = Ok (tt, w3)) as Hx
    by (apply run_ok_unit; vm_compute; reflexivity).
  split; [exact Hx|]. split; [vm_compute; reflexivity|]. split; [vm_compute; reflexivity|].
  apply (access_control_no_escalation self adm e0 w0 w1 1 w2 _ _ _ roles_w1_init roles_w2_steps Hx).
  left. exists adm. vm_compute. discriminate.
Defined.

Lemma frozen_members s : Member s = {[ (RMinter, bob) := true ]} →
  ∀ r a, has_role s r a = bool_decide (r = RMinter ∧ a = bob).
Proof.
  intros Hm r a. unfold has_role. rewrite Hm. apply bool_decide_ext.
  rewrite lookup_singleton. case_decide; naive_solver.
Qed.

(** After the resignation nobody administers any role: bob stays a minter. *)
Lemma roles_w3_steps : rtc (step exec (λ _, True) self) (2, w3) (9, w3).
Proof.
  apply rtc_once. apply (step_other exec (λ _, True) self 2 9 w3 (ledger w3)); [discriminate|].
  reflexivity.
Qed.

Lemma access_control_lockout_witness : has_role (store w3) RMinter bob = true ∧
  ∀ c e r, exec c e w3 ≠ Ok r.
Proof.
  split; [vm_compute; reflexivity|].
  apply (access_control_lockout self 2 w3 9 w3).
  - split; [vm_compute; eauto|]. intros r. destruct r; vm_compute; eauto.
  - intros r a. unfold administers.
    assert (RoleAdmin (store w3) !! r = Some RAdmin) as -> by (destruct r; vm_compute; reflexivity).
    rewrite (frozen_members (store w3)) by (vm_compute; reflexivity). reflexivity.
  - apply roles_w3_steps.
Defined.
End AccessDemo.
