(* ===== verification/Escrow.v ===== *)
(** * contracts/escrow: M-of-N approved, time-locked, rate-limited payments

    State and operations of the [Escrow] contract
    (src/contracts/escrow/src/lib.rs).  The contract consults an
    access-control contract for its admin checks: the definitions take the
    registries deployed at each address as an argument, behind the
    [RoleRegistry] interface. *)

From stdpp Require Import gmap strings list fin_maps.
From S2P Require Import Prelude Soroban AccessControl.
Open Scope Z_scope.

(** ** Data *)

Definition MIN_AMOUNT : Z := 1.
Definition MAX_SIGNERS : Z := 20.
Definition ZERO_DELAY : Z := 0.

Record EscrowConfig := mkEscrowConfig {
  ec_admin : Address;
  ec_access_control : option Address;
  ec_required_approvals : Z;
  ec_signer_count : Z;
  ec_timelock_delay : Z;
  ec_grace_period : Z;
  ec_rate_limit_window : Z;
  ec_rate_limit_max : Z;
  ec_paused : bool;
}.

Record EscrowRecord := mkEscrowRecord {
  er_id : Z;
  er_token : Address;
  er_is_native : bool;
  er_creator : Address;
  er_purpose : string;
  er_created_at : Z;
  er_active : bool;
}.

Record EscrowTransaction := mkEscrowTransaction {
  et_tx_id : Z;
  et_escrow_id : Z;
  et_recipient : Address;
  et_amount : Z;
  et_submitter : Address;
  et_approvers : list Address;
  et_queued_at : Z;
  et_executed : bool;
  et_cancelled : bool;
  et_executed_at : Z;
}.

Inductive EscrowError :=
| AlreadyInitialized | NotInitialized | Unauthorized | InvalidParam | NotFound | AlreadySigner
| NotASigner | Paused | InsufficientBalance | AlreadyExecuted | AlreadyCancelled | NotApproved
| TimeLocked | GraceExpired | RateLimited | InactiveEscrow | AlreadyApproved | ThresholdTooHigh.

Record State := mkState {
  Config : option EscrowConfig;
  Signer : gmap Address bool;
  SignerList : option (list Address);
  Escrow : gmap Z EscrowRecord;
  EscrowBalance : gmap Z Z;
  Transaction : gmap Z EscrowTransaction;
  GlobalExecutions : option (list Z);
  RecipientExecutions : gmap Address (list Z);
  NextEscrowId : option Z;
  NextTxId : option Z;
}.

Inductive Event :=
| esc_init (admin : Address) (required_approvals signer_count : Z)
| esc_sign (what : string) (signer : Address)
| esc_thr (m : Z)
| esc_tlck (delay grace_period : Z)
| esc_rate (window max : Z)
| esc_pause (paused : bool)
| esc_new (creator : Address) (id : Z) (is_native : bool)
| esc_dep (escrow_id : Z) (from : Address) (amount : Z)
| esc_queue (tx_id escrow_id amount : Z)
| esc_appr (tx_id : Z) (signer : Address) (approvals : Z)
| esc_revk (tx_id : Z) (signer : Address) (approvals : Z)
| esc_exec (tx_id escrow_id : Z) (recipient : Address) (amount now : Z)
| esc_cxl (tx_id : Z) (caller : Address)
| esc_close (escrow_id : Z).

Ltac mred v ::= eval cbn [store ledger log Config Signer SignerList Escrow EscrowBalance
  Transaction GlobalExecutions RecipientExecutions NextEscrowId NextTxId ec_admin
  ec_access_control ec_required_approvals ec_signer_count ec_timelock_delay ec_grace_period
  ec_rate_limit_window ec_rate_limit_max ec_paused er_id er_token er_is_native er_creator
  er_purpose er_created_at er_active et_tx_id et_escrow_id et_recipient et_amount et_submitter
  et_approvers et_queued_at et_executed et_cancelled et_executed_at] in v.

(** ** Vector helpers *)

Definition try_index_of (vec : list Address) (item : Address) : option nat :=
  fst <$> list_find (λ x, x = item) vec.

Definition contains (vec : list Address) (item : Address) : bool :=
  bool_decide (is_Some (try_index_of vec item)).

(** The nested loops of [validate_signer_set]: is an entry equal to a later one? *)
Fixpoint has_repeat (signers : list Address) : bool :=
  match signers with
  | [] => false
  | x :: rest => existsb (λ y, bool_decide (x = y)) rest || has_repeat rest
  end.

Definition prune_window (timestamps : list Z) (cutoff : Z) : list Z :=
  foldl (λ kept v, if v >=? cutoff then kept ++ [v] else kept) [] timestamps.

Section contract.
Context `{TokenHost} {R : Type} `{RoleRegistry R} (registry : Address → option R).

Local Abbreviation C := (M State EscrowError Event).

(** ** Internals *)

Definition config : C EscrowConfig := o ← gets Config; ok_or o NotInitialized.

Definition escrow_record (id : Z) : C EscrowRecord :=
  o ← gets (λ s, Escrow s !! id); ok_or o NotFound.

Definition transaction (id : Z) : C EscrowTransaction :=
  o ← gets (λ s, Transaction s !! id); ok_or o NotFound.

Definition escrow_balance_raw (id : Z) : C Z := gets (λ s, default 0 (EscrowBalance s !! id)).

Definition is_signer (who : Address) : C bool := gets (λ s, default false (Signer s !! who)).

(** Calling an address without a contract traps. *)
Definition is_admin (cfg : EscrowConfig) (who : Address) : C bool :=
  if bool_decide (who = ec_admin cfg) then mret true
  else match ec_access_control cfg with
       | Some ac =>
           client ← expect (registry ac) "contract not found";
           mret (registry_has_role client RAdmin who)
       | None => mret false
       end.

Definition require_admin (cfg : EscrowConfig) (who : Address) : C () :=
  require_auth who;;
  b ← is_admin cfg who;
  throw_if (negb b) Unauthorized.

Definition require_signer (who : Address) : C () :=
  require_auth who;;
  b ← is_signer who;
  throw_if (negb b) NotASigner.

(** [||] and [&&] are lazy: the registry is asked only when needed. *)
Definition require_signer_or_admin (cfg : EscrowConfig) (who : Address) : C () :=
  require_auth who;;
  s ← is_signer who;
  if (s : bool) then mret tt
  else
    a ← is_admin cfg who;
    throw_if (negb a) Unauthorized.

Definition count_in_window (timestamps : list Z) (cutoff : Z) : C Z :=
  foldM (λ count v, if v >=? cutoff then plain_add U32 count 1 else mret count) 0 timestamps.

Definition check_rate_limits (cfg : EscrowConfig) (recipient : Address) : C () :=
  now_ ← now;
  let cutoff := saturating_sub U64 now_ (ec_rate_limit_window cfg) in
  g ← gets GlobalExecutions;
  global ← expect g "called `Option::unwrap()` on a `None` value";
  n ← count_in_window global cutoff;
  throw_if (n >=? ec_rate_limit_max cfg) RateLimited;;
  per_recipient ← gets (λ s, default [] (RecipientExecutions s !! recipient));
  m ← count_in_window per_recipient cutoff;
  throw_if (m >=? ec_rate_limit_max cfg) RateLimited.

Definition index_of (vec : list Address) (item : Address) : C nat :=
  expect (try_index_of vec item) "item not found".

Definition validate_signer_set (signers : list Address) (required_approvals : Z) : C () :=
  throw_if ((required_approvals =? 0) || (required_approvals >? Z.of_nat (length signers))
            || (Z.of_nat (length signers) >? MAX_SIGNERS)) InvalidParam;;
  throw_if (has_repeat signers) InvalidParam.

Definition set_config (cfg : EscrowConfig) : C () := modify (λ s, {| s with Config := Some cfg |}).

Definition set_transaction (tx_id : Z) (tx : EscrowTransaction) : C () :=
  modify (λ s, {| s with Transaction := <[tx_id := tx]> (Transaction s) |}).

(** ** Initialization and configuration *)

Definition initialize (admin : Address) (access_control : option Address) (signers : list Address)
    (required_approvals timelock_delay grace_period rate_limit_window rate_limit_max : Z) : C () :=
  c ← gets Config;
  throw_if (bool_decide (is_Some c)) AlreadyInitialized;;
  require_auth admin;;
  validate_signer_set signers required_approvals;;
  throw_if (grace_period =? ZERO_DELAY) InvalidParam;;
  throw_if ((rate_limit_max =? 0) || (rate_limit_window =? ZERO_DELAY)) InvalidParam;;
  foldM (λ _ a, modify (λ s, {| s with Signer := <[a := true]> (Signer s) |})) tt signers;;
  modify (λ s, {| s with SignerList := Some signers |});;
  modify (λ s, {| s with GlobalExecutions := Some [] |});;
  modify (λ s, {| s with NextEscrowId := Some 1 |});;
  modify (λ s, {| s with NextTxId := Some 1 |});;
  set_config {|
    ec_admin := admin;
    ec_access_control := access_control;
    ec_required_approvals := required_approvals;
    ec_signer_count := Z.of_nat (length signers);
    ec_timelock_delay := timelock_delay;
    ec_grace_period := grace_period;
    ec_rate_limit_window := rate_limit_window;
    ec_rate_limit_max := rate_limit_max;
    ec_paused := false |};;
  publish (esc_init admin required_approvals (Z.of_nat (length signers))).

Definition add_signer (caller signer : Address) : C () :=
  cfg ← config;
  require_admin cfg caller;;
  b ← is_signer signer;
  throw_if b AlreadySigner;;
  throw_if (ec_signer_count cfg >=? MAX_SIGNERS) InvalidParam;;
  modify (λ s, {| s with Signer := <[signer := true]> (Signer s) |});;
  l ← gets SignerList;
  list ← expect l "called `Option::unwrap()` on a `None` value";
  modify (λ s, {| s with SignerList := Some (list ++ [signer]) |});;
  count ← plain_add U32 (ec_signer_count cfg) 1;
  set_config {| cfg with
    ec_signer_count := count;
    ec_required_approvals :=
      if ec_required_approvals cfg >? count then count else ec_required_approvals cfg |};;
  publish (esc_sign "added" signer).

Definition remove_signer (caller signer : Address) : C () :=
  cfg ← config;
  require_admin cfg caller;;
  b ← is_signer signer;
  throw_if (negb b) NotASigner;;
  throw_if (ec_signer_count cfg <=? ec_required_approvals cfg) ThresholdTooHigh;;
  modify (λ s, {| s with Signer := delete signer (Signer s) |});;
  l ← gets SignerList;
  list ← expect l "called `Option::unwrap()` on a `None` value";
  idx ← index_of list signer;
  modify (λ s, {| s with SignerList := Some (delete idx list) |});;
  count ← plain_sub U32 (ec_signer_count cfg) 1;
  set_config {| cfg with ec_signer_count := count |};;
  publish (esc_sign "removed" signer).

Definition set_threshold (caller : Address) (m : Z) : C () :=
  cfg ← config;
  require_admin cfg caller;;
  throw_if ((m =? 0) || (m >? ec_signer_count cfg)) InvalidParam;;
  set_config {| cfg with ec_required_approvals := m |};;
  publish (esc_thr m).

Definition set_timelock (caller : Address) (delay grace_period : Z) : C () :=
  cfg ← config;
  require_admin cfg caller;;
  throw_if ((grace_period =? ZERO_DELAY) || (delay >? int_max U64 - grace_period)) InvalidParam;;
  set_config {| cfg with ec_timelock_delay := delay; ec_grace_period := grace_period |};;
  publish (esc_tlck delay grace_period).

Definition set_rate_limit (caller : Address) (window max : Z) : C () :=
  cfg ← config;
  require_admin cfg caller;;
  throw_if ((window =? ZERO_DELAY) || (max =? 0)) InvalidParam;;
  set_config {| cfg with ec_rate_limit_window := window; ec_rate_limit_max := max |};;
  publish (esc_rate window max).

Definition pause (caller : Address) : C () :=
  cfg ← config;
  require_admin cfg caller;;
  set_config {| cfg with ec_paused := true |};;
  publish (esc_pause true).

Definition unpause (caller : Address) : C () :=
  cfg ← config;
  require_admin cfg caller;;
  set_config {| cfg with ec_paused := false |};;
  publish (esc_pause false).

(** ** Escrow instances *)

Definition create_escrow (creator token : Address) (is_native : bool) (purpose : string) : C Z :=
  cfg ← config;
  throw_if (ec_paused cfg) Paused;;
  require_auth creator;;
  id ← gets (λ s, default 1 (NextEscrowId s));
  t ← now;
  modify (λ s, {| s with Escrow := <[id := {|
    er_id := id; er_token := token; er_is_native := is_native; er_creator := creator;
    er_purpose := purpose; er_created_at := t; er_active := true |}]> (Escrow s) |});;
  modify (λ s, {| s with EscrowBalance := <[id := 0]> (EscrowBalance s) |});;
  next ← plain_add U64 id 1;
  modify (λ s, {| s with NextEscrowId := Some next |});;
  publish (esc_new creator id is_native);;
  mret id.

Definition deposit (escrow_id : Z) (from : Address) (amount : Z) : C () :=
  require_auth from;;
  throw_if (amount <? MIN_AMOUNT) InvalidParam;;
  record ← escrow_record escrow_id;
  throw_if (negb (er_active record)) InactiveEscrow;;
  balance ← escrow_balance_raw escrow_id;
  total ← plain_add I128 balance amount;
  modify (λ s, {| s with EscrowBalance := <[escrow_id := total]> (EscrowBalance s) |});;
  (if negb (er_is_native record) then
     wallet ← self_address;
     token_transfer (er_token record) from wallet amount
   else mret tt);;
  publish (esc_dep escrow_id from amount).

(** ** Transaction queue *)

Definition submit_transaction (submitter : Address) (escrow_id : Z) (recipient : Address)
    (amount : Z) : C Z :=
  cfg ← config;
  throw_if (ec_paused cfg) Paused;;
  require_signer_or_admin cfg submitter;;
  throw_if (amount <? MIN_AMOUNT) InvalidParam;;
  escrow_record escrow_id;;
  balance ← escrow_balance_raw escrow_id;
  throw_if (balance <? amount) InsufficientBalance;;
  tx_id ← gets (λ s, default 1 (NextTxId s));
  t ← now;
  set_transaction tx_id {|
    et_tx_id := tx_id; et_escrow_id := escrow_id; et_recipient := recipient;
    et_amount := amount; et_submitter := submitter; et_approvers := [submitter];
    et_queued_at := t; et_executed := false; et_cancelled := false; et_executed_at := 0 |};;
  next ← plain_add U64 tx_id 1;
  modify (λ s, {| s with NextTxId := Some next |});;
  publish (esc_queue tx_id escrow_id amount);;
  mret tx_id.

Definition approve_transaction (signer : Address) (tx_id : Z) : C () :=
  cfg ← config;
  require_signer signer;;
  tx ← transaction tx_id;
  throw_if (et_executed tx) AlreadyExecuted;;
  throw_if (et_cancelled tx) AlreadyCancelled;;
  throw_if (contains (et_approvers tx) signer) AlreadyApproved;;
  let approvers := et_approvers tx ++ [signer] in
  set_transaction tx_id {| tx with et_approvers := approvers |};;
  publish (esc_appr tx_id signer (Z.of_nat (length approvers))).

Definition revoke_approval (signer : Address) (tx_id : Z) : C () :=
  cfg ← config;
  require_signer signer;;
  tx ← transaction tx_id;
  throw_if (et_executed tx || et_cancelled tx) NotFound;;
  i ← ok_or (try_index_of (et_approvers tx) signer) NotApproved;
  let approvers := delete i (et_approvers tx) in
  set_transaction tx_id {| tx with et_approvers := approvers |};;
  publish (esc_revk tx_id signer (Z.of_nat (length approvers))).

Definition execute_transaction (tx_id : Z) : C () :=
  cfg ← config;
  throw_if (ec_paused cfg) Paused;;
  tx ← transaction tx_id;
  throw_if (et_executed tx) AlreadyExecuted;;
  throw_if (et_cancelled tx) AlreadyCancelled;;
  throw_if (Z.of_nat (length (et_approvers tx)) <? ec_required_approvals cfg) NotApproved;;
  now_ ← now;
  unlock_at ← ok_or (checked_add U64 (et_queued_at tx) (ec_timelock_delay cfg)) InvalidParam;
  throw_if (now_ <? unlock_at) TimeLocked;;
  grace_until ← ok_or (checked_add U64 unlock_at (ec_grace_period cfg)) InvalidParam;
  throw_if (now_ >? grace_until) GraceExpired;;
  check_rate_limits cfg (et_recipient tx);;
  record ← escrow_record (et_escrow_id tx);
  balance ← escrow_balance_raw (et_escrow_id tx);
  throw_if (balance <? et_amount tx) InsufficientBalance;;
  rest ← plain_sub I128 balance (et_amount tx);
  modify (λ s, {| s with EscrowBalance := <[et_escrow_id tx := rest]> (EscrowBalance s) |});;
  (if negb (er_is_native record) then
     self_ ← self_address;
     token_transfer (er_token record) self_ (et_recipient tx) (et_amount tx)
   else mret tt);;
  set_transaction tx_id {| tx with et_executed := true; et_executed_at := now_ |};;
  let cutoff := saturating_sub U64 now_ (ec_rate_limit_window cfg) in
  g ← gets GlobalExecutions;
  global ← expect g "called `Option::unwrap()` on a `None` value";
  modify (λ s, {| s with GlobalExecutions := Some (prune_window (global ++ [now_]) cutoff) |});;
  per_recipient ← gets (λ s, default [] (RecipientExecutions s !! et_recipient tx));
  modify (λ s, {| s with RecipientExecutions :=
    <[et_recipient tx := prune_window (per_recipient ++ [now_]) cutoff]> (RecipientExecutions s) |});;
  publish (esc_exec tx_id (et_escrow_id tx) (et_recipient tx) (et_amount tx) now_).

Definition cancel_transaction (caller : Address) (tx_id : Z) : C () :=
  require_auth caller;;
  cfg ← config;
  tx ← transaction tx_id;
  throw_if (et_executed tx) AlreadyExecuted;;
  throw_if (et_cancelled tx) AlreadyCancelled;;
  is_admin_ ← is_admin cfg caller;
  let is_submitter := bool_decide (caller = et_submitter tx) in
  let unlock_at := saturating_add U64 (et_queued_at tx) (ec_timelock_delay cfg) in
  t ← now;
  let grace_lapsed := t >? saturating_add U64 unlock_at (ec_grace_period cfg) in
  throw_if (negb is_admin_ && negb is_submitter && negb grace_lapsed) Unauthorized;;
  set_transaction tx_id {| tx with et_cancelled := true |};;
  publish (esc_cxl tx_id caller).

Definition close_escrow (caller : Address) (escrow_id : Z) : C () :=
  cfg ← config;
  require_admin cfg caller;;
  record ← escrow_record escrow_id;
  modify (λ s, {| s with Escrow := <[escrow_id := {| record with er_active := false |}]> (Escrow s) |});;
  publish (esc_close escrow_id).

(** ** Views *)

Definition get_signers : C (list Address) :=
  l ← gets SignerList;
  expect l "called `Option::unwrap()` on a `None` value".

End contract.

(** ** Entry points as calls *)

Inductive Call :=
| CInitialize (admin : Address) (ac : option Address) (signers : list Address)
    (m delay grace window max : Z)
| CAddSigner (caller signer : Address)
| CRemoveSigner (caller signer : Address)
| CSetThreshold (caller : Address) (m : Z)
| CSetTimelock (caller : Address) (delay grace : Z)
| CSetRateLimit (caller : Address) (window max : Z)
| CPause (caller : Address)
| CUnpause (caller : Address)
| CCreateEscrow (creator token : Address) (is_native : bool) (purpose : string)
| CDeposit (escrow_id : Z) (from : Address) (amount : Z)
| CSubmit (submitter : Address) (escrow_id : Z) (recipient : Address) (amount : Z)
| CApprove (signer : Address) (tx_id : Z)
| CRevokeApproval (signer : Address) (tx_id : Z)
| CExecute (tx_id : Z)
| CCancel (caller : Address) (tx_id : Z)
| CClose (caller : Address) (escrow_id : Z).

(** A call together with the registries as they are when it runs. *)
Definition exec `{TokenHost} `{RoleRegistry R} (rc : (Address → option R) * Call)
    : M State EscrowError Event () :=
  let '(reg, c) := rc in
  match c with
  | CInitialize a ac s m d g w x => initialize a ac s m d g w x
  | CAddSigner c s => add_signer reg c s
  | CRemoveSigner c s => remove_signer reg c s
  | CSetThreshold c m => set_threshold reg c m
  | CSetTimelock c d g => set_timelock reg c d g
  | CSetRateLimit c w m => set_rate_limit reg c w m
  | CPause c => pause reg c
  | CUnpause c => unpause reg c
  | CCreateEscrow c t n p => discard (create_escrow c t n p)
  | CDeposit i f a => deposit i f a
  | CSubmit s i r a => discard (submit_transaction reg s i r a)
  | CApprove s i => approve_transaction s i
  | CRevokeApproval s i => revoke_approval s i
  | CExecute i => execute_transaction i
  | CCancel c i => cancel_transaction reg c i
  | CClose c i => close_escrow reg c i
  end.

(** The unsigned arguments of a call are in the range of their Rust types. *)
Definition call_ok {R} (rc : (Address → option R) * Call) : Prop :=
  match rc.2 with
  | CInitialize _ _ _ m d g w x => 0 ≤ m ∧ 0 ≤ d ∧ 0 ≤ g ∧ 0 ≤ w ∧ 0 ≤ x ≤ int_max U32
  | CSetThreshold _ m => 0 ≤ m
  | CSetTimelock _ d g => 0 ≤ d ∧ 0 ≤ g
  | CSetRateLimit _ w m => 0 ≤ w ∧ 0 ≤ m ≤ int_max U32
  | _ => True
  end.

Definition deployed : State := mkState None ∅ None ∅ ∅ ∅ None ∅ None None.
