(* ===== verification/EscrowProofs.v ===== *)
(** * contracts/escrow: invariant and theorems

    The signer set and threshold, the life cycle of queued transactions, the
    guards of execution, the rate limiter, and that token escrows are always
    backed by the contract's balance. *)

From stdpp Require Import gmap strings list fin_maps.
From S2P Require Import Prelude Soroban TokenModel AccessControl Escrow.
Open Scope Z_scope.

(** ** Vectors *)

Lemma try_index_of_Some vec item i :
  try_index_of vec item = Some i → item ∈ vec ∧ delete i vec = remove_first item vec.
Proof.
  unfold try_index_of. intros Hi. apply fmap_Some in Hi as ([j x] & Hf & ->). simpl.
  revert j Hf. induction vec as [|y vec IH]; intros j Hf; [done|].
  simpl in Hf. simpl. case_decide as Hd.
  - simplify_eq. rewrite bool_decide_eq_true_2 by done. split; [by left|done].
  - rewrite bool_decide_eq_false_2 by done.
    apply fmap_Some in Hf as ([k z] & Hf & ?); simplify_eq/=.
    destruct (IH _ Hf) as [Hin Hdel]. split; [by right|]. by rewrite Hdel.
Qed.

Lemma try_index_of_is_Some vec item : is_Some (try_index_of vec item) ↔ item ∈ vec.
Proof.
  unfold try_index_of. rewrite fmap_is_Some. split.
  - intros [[i x] Hf]. apply list_find_Some in Hf as (Hi & -> & _). by eapply list_elem_of_lookup_2.
  - intros Hin. by eapply list_find_elem_of.
Qed.

Lemma has_repeat_false l : has_repeat l = false → NoDup l.
Proof.
  induction l as [|x l IH]; simpl; intros Hr; [constructor|].
  apply orb_false_elim in Hr as [Hx Hl]. constructor; [|auto].
  intros Hin. apply not_true_iff_false in Hx. apply Hx. apply existsb_exists.
  exists x. split; [by apply list_elem_of_In|]. by apply bool_decide_eq_true_2.
Qed.

(** Timestamps at or after a cutoff. *)
Definition since (cutoff : Z) (ts : list Z) : list Z := filter (λ v, cutoff ≤ v) ts.
Definition count_since (cutoff : Z) (ts : list Z) : Z := Z.of_nat (length (since cutoff ts)).

Lemma prune_window_since ts cutoff : prune_window ts cutoff = since cutoff ts.
Proof.
  unfold prune_window, since.
  enough (∀ acc, foldl (λ kept v, if v >=? cutoff then kept ++ [v] else kept) acc ts
    = acc ++ filter (λ v, cutoff ≤ v) ts) as Hgen by apply Hgen.
  induction ts as [|v ts IH]; intros acc; simpl; [by rewrite app_nil_r|].
  rewrite IH, filter_cons, Z.geb_leb. destruct (cutoff <=? v) eqn:E; zbool.
  - rewrite decide_True by done. by rewrite <- (assoc_L (++)).
  - by rewrite decide_False by lia.
Qed.

Lemma count_since_app c l1 l2 : count_since c (l1 ++ l2) = count_since c l1 + count_since c l2.
Proof. unfold count_since, since. rewrite filter_app, length_app. lia. Qed.

Lemma count_since_one c v : count_since c [v] = if c <=? v then 1 else 0.
Proof.
  unfold count_since, since. rewrite filter_cons. destruct (c <=? v) eqn:E; zbool.
  - by rewrite decide_True.
  - by rewrite decide_False by lia.
Qed.

(** Pruning at an earlier cutoff does not change a later count. *)
Lemma count_since_since c c' ts : c' ≤ c → count_since c (since c' ts) = count_since c ts.
Proof.
  intros Hc. unfold count_since, since. rewrite list_filter_filter. do 2 f_equal.
  apply list_filter_iff. intros v. lia.
Qed.

Lemma count_since_nonneg c ts : 0 ≤ count_since c ts.
Proof. unfold count_since. lia. Qed.

(** ** The invariant *)

Record cfg_ok (cfg : EscrowConfig) (signers : list Address) (flags : gmap Address bool) : Prop := {
  co_nodup : NoDup signers;
  co_signer a : flags !! a = if bool_decide (a ∈ signers) then Some true else None;
  co_count : ec_signer_count cfg = Z.of_nat (length signers);
  co_threshold : 1 ≤ ec_required_approvals cfg ≤ ec_signer_count cfg;
  co_max : ec_signer_count cfg ≤ MAX_SIGNERS;
  co_delay : 0 ≤ ec_timelock_delay cfg;
  co_grace : 1 ≤ ec_grace_period cfg;
  co_window : 1 ≤ ec_rate_limit_window cfg;
  co_limit : 1 ≤ ec_rate_limit_max cfg ≤ int_max U32;
}.

Record tx_ok (t id : Z) (tx : EscrowTransaction) : Prop := {
  to_id : et_tx_id tx = id;
  to_amount : MIN_AMOUNT ≤ et_amount tx;
  to_approvers : NoDup (et_approvers tx);
  to_queued : 0 ≤ et_queued_at tx ≤ t;
  to_final : et_executed tx = true → et_cancelled tx = false;
  to_when : et_executed tx = true → et_queued_at tx ≤ et_executed_at tx ≤ t;
}.

(** Ids [1 .. next - 1] are in use. *)
Definition numbered {V} (next : option Z) (m : gmap Z V) : Prop :=
  ∃ n, next = Some n ∧ 1 ≤ n ∧ ∀ i, is_Some (m !! i) ↔ 1 ≤ i < n.

Definition backing (st : State) (tk : Address) (i b : Z) : Z :=
  match Escrow st !! i with
  | Some r => if negb (er_is_native r) && bool_decide (er_token r = tk) then b else 0
  | None => 0
  end.

(** What the contract owes in token [tk]: the balances of its token escrows. *)
Definition liability (st : State) (tk : Address) : Z := msum (backing st tk) (EscrowBalance st).

Record inv `{TokenHost} (self : Address) (t : Z) (st : State) (l : Ledger) : Prop := {
  inv_cfg : ∃ cfg signers, Config st = Some cfg ∧ SignerList st = Some signers ∧
    cfg_ok cfg signers (Signer st);
  inv_global : is_Some (GlobalExecutions st);
  inv_escrows : numbered (NextEscrowId st) (Escrow st);
  inv_balances : numbered (NextEscrowId st) (EscrowBalance st);
  inv_txs : numbered (NextTxId st) (Transaction st);
  inv_record i r : Escrow st !! i = Some r → er_id r = i;
  inv_tx i tx : Transaction st !! i = Some tx → tx_ok t i tx ∧ is_Some (Escrow st !! et_escrow_id tx);
  inv_balance i b : EscrowBalance st !! i = Some b → 0 ≤ b ≤ int_max I128;
  inv_solvent tk : liability st tk ≤ tok_balance l tk self;
}.

(** Who passes the admin check, given the registries. *)
Definition admin_of `{RoleRegistry R} (reg : Address → option R) (cfg : EscrowConfig) (who : Address)
    : bool :=
  bool_decide (who = ec_admin cfg)
  || match ec_access_control cfg with
     | Some ac => match reg ac with Some r => registry_has_role r RAdmin who | None => false end
     | None => false
     end.

Section specs.
Context `{TokenHost} `{RoleRegistry R} (reg : Address → option R).
Implicit Types (w : World State Event) (e : Env).

Lemma escrow_config_spec e w cfg w' : config e w = Ok (cfg, w') → Config (store w) = Some cfg ∧ w' = w.
Proof. intros Hr. by minv Hr using config. Qed.

Lemma escrow_record_spec i e w r w' :
  escrow_record i e w = Ok (r, w') → Escrow (store w) !! i = Some r ∧ w' = w.
Proof. intros Hr. by minv Hr using escrow_record. Qed.

Lemma transaction_spec i e w tx w' :
  transaction i e w = Ok (tx, w') → Transaction (store w) !! i = Some tx ∧ w' = w.
Proof. intros Hr. by minv Hr using transaction. Qed.

Lemma is_admin_spec cfg who e w b w' :
  is_admin reg cfg who e w = Ok (b, w') → b = admin_of reg cfg who ∧ w' = w.
Proof.
  intros Hr. unfold is_admin in Hr. unfold admin_of. minv Hr; try done.
  match goal with Hreg : reg _ = Some _ |- _ => by rewrite Hreg end.
Qed.

Lemma escrow_require_admin_spec cfg who e w u w' :
  require_admin reg cfg who e w = Ok (u, w') →
  authorized e who = true ∧ admin_of reg cfg who = true ∧ w' = w.
Proof.
  intros Hr. unfold require_admin in Hr. minv Hr. spec is_admin_spec as [-> ->]. zbool. done.
Qed.

Lemma require_signer_spec who e w u w' :
  require_signer who e w = Ok (u, w') →
  authorized e who = true ∧ default false (Signer (store w) !! who) = true ∧ w' = w.
Proof. intros Hr. unfold require_signer, is_signer in Hr. minv Hr. zbool. done. Qed.

Lemma require_signer_or_admin_spec cfg who e w u w' :
  require_signer_or_admin reg cfg who e w = Ok (u, w') →
  authorized e who = true ∧
  (default false (Signer (store w) !! who) = true ∨ admin_of reg cfg who = true) ∧ w' = w.
Proof.
  intros Hr. unfold require_signer_or_admin, is_signer in Hr. minv Hr; [auto|].
  spec is_admin_spec as [-> ->]. zbool. auto.
Qed.

Lemma count_in_window_spec ts cutoff e w n w' :
  count_in_window ts cutoff e w = Ok (n, w') → n = count_since cutoff ts ∧ w' = w.
Proof.
  unfold count_in_window.
  enough (∀ k, foldM (λ count v, if v >=? cutoff then plain_add U32 count 1 else mret count) k ts e w
    = Ok (n, w') → n = k + count_since cutoff ts ∧ w' = w) as Hgen by (intros Hr%Hgen; lia || apply Hr).
  induction ts as [|v ts IH]; intros k Hr; cbn [foldM] in Hr.
  - minv Hr. split; [|done]. unfold count_since; simpl. lia.
  - change (v :: ts) with ([v] ++ ts). rewrite count_since_app, count_since_one.
    minv Hr; apply IH in Hr as [-> ->]; arith; (split; [|done]); case_match; zbool; lia.
Qed.

Lemma escrow_check_rate_limits_spec cfg rcp e w u w' :
  check_rate_limits cfg rcp e w = Ok (u, w') →
  let cutoff := saturating_sub U64 (timestamp e) (ec_rate_limit_window cfg) in
  (∃ g, GlobalExecutions (store w) = Some g ∧ count_since cutoff g < ec_rate_limit_max cfg) ∧
  count_since cutoff (default [] (RecipientExecutions (store w) !! rcp)) < ec_rate_limit_max cfg ∧
  w' = w.
Proof.
  intros Hr. unfold check_rate_limits in Hr. minv Hr.
  repeat match goal with H : count_in_window _ _ _ _ = Ok _ |- _ =>
    apply count_in_window_spec in H as [-> ->] end.
  zbool. eauto.
Qed.

Lemma set_transaction_spec i tx e w u w' :
  set_transaction i tx e w = Ok (u, w') →
  w' = {| w with store := {| (store w) with Transaction := <[i := tx]> (Transaction (store w)) |} |}.
Proof. intros Hr. by minv Hr using set_transaction. Qed.

Lemma escrow_set_config_spec cfg e w u w' :
  set_config cfg e w = Ok (u, w') →
  w' = {| w with store := {| (store w) with Config := Some cfg |} |}.
Proof. intros Hr. by minv Hr using set_config. Qed.
End specs.

(** ** Preservation *)

Section invariant.
Context `{Laws : TokenLaws} `{RoleRegistry R} (reg : Address → option R).
Implicit Types (w : World State Event) (e : Env) (st : State) (l : Ledger).

Lemma tx_ok_mono t t' i tx : t ≤ t' → tx_ok t i tx → tx_ok t' i tx.
Proof. intros Ht []. split; try done; [lia|]. intros Hx. specialize (to_when0 Hx). lia. Qed.

Lemma escrow_inv_mono self t t' st l l' :
  t ≤ t' → (∀ tk, tok_balance l tk self ≤ tok_balance l' tk self) →
  inv self t st l → inv self t' st l'.
Proof.
  intros Ht Hl []. split; try done.
  - intros i tx Hi. destruct (inv_tx0 i tx Hi). split; [by eapply tx_ok_mono|done].
  - intros tk. etrans; [apply inv_solvent0|apply Hl].
Qed.

Lemma numbered_insert {V} next (m : gmap Z V) i v :
  numbered next m → is_Some (m !! i) → numbered next (<[i := v]> m).
Proof.
  intros (n & Hn & H1 & Hm) Hi. exists n. split_and!; [done..|]. intros j.
  rewrite lookup_insert_is_Some', <- Hm. naive_solver.
Qed.

Lemma numbered_next {V} next (m : gmap Z V) n v :
  numbered next m → default 1 next = n → numbered (Some (n + 1)) (<[n := v]> m).
Proof.
  intros (k & -> & H1 & Hm) <-. exists (k + 1). split_and!; [done|simpl; lia|]. intros j. simpl.
  rewrite lookup_insert_is_Some', Hm. lia.
Qed.

Lemma numbered_fresh {V} next (m : gmap Z V) n : numbered next m → default 1 next = n → m !! n = None.
Proof.
  intros (k & -> & H1 & Hm) <-. apply eq_None_not_Some. rewrite Hm. simpl. lia.
Qed.

(** Changing the configuration and the signer set only. *)
Lemma escrow_inv_set_cfg self t st l st' cfg signers :
  inv self t st l →
  Escrow st' = Escrow st → EscrowBalance st' = EscrowBalance st →
  Transaction st' = Transaction st → GlobalExecutions st' = GlobalExecutions st →
  NextEscrowId st' = NextEscrowId st → NextTxId st' = NextTxId st →
  Config st' = Some cfg → SignerList st' = Some signers →
  cfg_ok cfg signers (Signer st') →
  inv self t st' l.
Proof.
  intros [] He Hb Ht Hg Hne Hnt Hc Hs Hok.
  split; unfold liability, backing in *; rewrite ?He, ?Hb, ?Ht, ?Hg, ?Hne, ?Hnt; eauto.
Qed.

(** Replacing one queued transaction. *)
Lemma inv_set_tx self t st l st' i tx tx' :
  inv self t st l → Transaction st !! i = Some tx →
  st' = {| st with Transaction := <[i := tx']> (Transaction st) |} →
  et_escrow_id tx' = et_escrow_id tx → tx_ok t i tx' →
  inv self t st' l.
Proof.
  intros [] Hi -> Hid Hok. split; try done; simpl.
  - apply numbered_insert; eauto.
  - intros j x [[<- <-]|[_ Hx]]%lookup_insert_Some; [|eauto].
    split; [done|]. rewrite Hid. by eapply inv_tx0.
Qed.

(** Moving an escrow's balance and the tokens behind it. *)
Lemma liability_set st i r b b' tk :
  EscrowBalance st !! i = Some b → Escrow st !! i = Some r →
  msum (backing st tk) (<[i := b']> (EscrowBalance st)) =
  liability st tk + (if negb (er_is_native r) && bool_decide (er_token r = tk) then b' - b else 0).
Proof.
  intros Hb Hr. rewrite (msum_insert_update _ _ _ _ _ Hb). unfold liability, backing at 2 3.
  rewrite Hr. case_match; lia.
Qed.

(** *** Configuration calls *)

Lemma escrow_cfg_ok_same cfg cfg' signers flags :
  cfg_ok cfg signers flags →
  ec_signer_count cfg' = ec_signer_count cfg →
  1 ≤ ec_required_approvals cfg' ≤ ec_signer_count cfg →
  0 ≤ ec_timelock_delay cfg' → 1 ≤ ec_grace_period cfg' →
  1 ≤ ec_rate_limit_window cfg' → 1 ≤ ec_rate_limit_max cfg' ≤ int_max U32 →
  cfg_ok cfg' signers flags.
Proof.
  intros [] Hc Ht Hd Hg Hw Hl. split; rewrite ?Hc; done.
Qed.

Ltac cfg_call Hr Hinv :=
  minv Hr;
  match goal with Hc : config _ _ = Ok _ |- _ => apply escrow_config_spec in Hc as [Hc ->] end;
  match goal with Hq : require_admin _ _ _ _ _ = Ok _ |- _ =>
    apply escrow_require_admin_spec in Hq as (? & ? & ->) end;
  match goal with Hq : set_config _ _ _ = Ok _ |- _ => apply escrow_set_config_spec in Hq as -> end;
  zbool;
  let cfg := fresh "cfg" in let signers := fresh "signers" in
  let Hcfg := fresh "Hcfg" in let Hsl := fresh "Hsl" in let Hok := fresh "Hok" in
  destruct (inv_cfg _ _ _ _ Hinv) as (cfg & signers & Hcfg & Hsl & Hok); simplify_eq;
  eapply escrow_inv_set_cfg; [exact Hinv|done..| |]; simpl; [exact Hsl|];
  pose proof Hok as [].

Lemma set_threshold_inv self t c m e w w' :
  0 ≤ m → inv self t (store w) (ledger w) →
  set_threshold reg c m e w = Ok (tt, w') → inv self t (store w') (ledger w').
Proof.
  intros Hm Hinv Hr. unfold set_threshold in Hr. cfg_call Hr Hinv.
  eapply escrow_cfg_ok_same; eauto; simpl in *; lia.
Qed.

Lemma set_timelock_inv self t c d g e w w' :
  0 ≤ d → 0 ≤ g → inv self t (store w) (ledger w) →
  set_timelock reg c d g e w = Ok (tt, w') → inv self t (store w') (ledger w').
Proof.
  intros Hd Hg Hinv Hr. unfold set_timelock, ZERO_DELAY in Hr. cfg_call Hr Hinv.
  eapply escrow_cfg_ok_same; eauto; simpl in *; lia.
Qed.

Lemma set_rate_limit_inv self t c wd m e w w' :
  0 ≤ wd → 0 ≤ m ≤ int_max U32 → inv self t (store w) (ledger w) →
  set_rate_limit reg c wd m e w = Ok (tt, w') → inv self t (store w') (ledger w').
Proof.
  intros Hd Hg Hinv Hr. unfold set_rate_limit, ZERO_DELAY in Hr. cfg_call Hr Hinv.
  eapply escrow_cfg_ok_same; eauto; simpl in *; lia.
Qed.

Lemma escrow_pause_inv self t c e w w' :
  inv self t (store w) (ledger w) →
  pause reg c e w = Ok (tt, w') → inv self t (store w') (ledger w').
Proof.
  intros Hinv Hr. unfold pause in Hr. cfg_call Hr Hinv. eapply escrow_cfg_ok_same; eauto; simpl in *; lia.
Qed.

Lemma escrow_unpause_inv self t c e w w' :
  inv self t (store w) (ledger w) →
  unpause reg c e w = Ok (tt, w') → inv self t (store w') (ledger w').
Proof.
  intros Hinv Hr. unfold unpause in Hr. cfg_call Hr Hinv. eapply escrow_cfg_ok_same; eauto; simpl in *; lia.
Qed.

Lemma escrow_add_signer_inv self t c s e w w' :
  inv self t (store w) (ledger w) →
  add_signer reg c s e w = Ok (tt, w') → inv self t (store w') (ledger w').
Proof.
  intros Hinv Hr. unfold add_signer, is_signer in Hr. minv Hr.
  spec escrow_config_spec as [Hcfg ->]. spec escrow_require_admin_spec as (Hau & Had & ->).
  spec escrow_set_config_spec as ->. arith.
  destruct (inv_cfg _ _ _ _ Hinv) as (cfg & signers & Hc & Hsl & Hok). simplify_eq.
  eapply escrow_inv_set_cfg; [exact Hinv|done..|]. simpl. destruct Hok.
  match type of co_nodup0 with NoDup ?x => rename x into signers end.
  assert (s ∉ signers) as Hs.
  { intros Hin. rewrite co_signer0, bool_decide_eq_true_2 in * by done. done. }
  split; simpl; try done.
  - auto with contracts.
  - intros x. rewrite lookup_insert, co_signer0. case_decide as Hd; [subst|].
    + rewrite bool_decide_eq_true_2; [done|]. set_solver.
    + by rewrite (bool_decide_ext (x ∈ signers) (x ∈ signers ++ [s])) by set_solver.
  - rewrite length_app; simpl. lia.
  - case_match; zbool; lia.
  - lia.
Qed.

Lemma escrow_remove_signer_inv self t c s e w w' :
  inv self t (store w) (ledger w) →
  remove_signer reg c s e w = Ok (tt, w') → inv self t (store w') (ledger w').
Proof.
  intros Hinv Hr. unfold remove_signer, is_signer, index_of in Hr. minv Hr.
  spec escrow_config_spec as [Hcfg ->]. spec escrow_require_admin_spec as (Hau & Had & ->).
  spec escrow_set_config_spec as ->. arith.
  destruct (inv_cfg _ _ _ _ Hinv) as (cfg & signers & Hc & Hsl & Hok). simplify_eq.
  match goal with H : try_index_of _ _ = Some _ |- _ =>
    apply try_index_of_Some in H as [Hin Hdel]; rewrite Hdel end.
  eapply escrow_inv_set_cfg; [exact Hinv|done..|]. simpl. destruct Hok.
  match type of co_nodup0 with NoDup ?x => rename x into signers end.
  pose proof (length_remove_first _ _ Hin).
  split; simpl; try done; try lia.
  - auto with contracts.
  - intros x. rewrite lookup_delete, co_signer0. case_decide as Hd; [subst|].
    + rewrite bool_decide_eq_false_2; [done|]. rewrite elem_of_remove_first_NoDup by done. naive_solver.
    + rewrite (bool_decide_ext (x ∈ signers) (x ∈ remove_first s signers)); [done|].
      rewrite elem_of_remove_first_NoDup by done. naive_solver.
Qed.
(** *** Deposits and executions *)

Definition paid (e : Env) (native : bool) (l l' : Ledger) (tk from to : Address) (n : Z) : Prop :=
  if native then l' = l else tok_transfer e l tk from to n = Some l'.

Lemma escrow_deposit_spec i from n e w u w' :
  deposit i from n e w = Ok (u, w') →
  ∃ r, Escrow (store w) !! i = Some r ∧ er_active r = true ∧ authorized e from = true ∧
    MIN_AMOUNT ≤ n ∧ default 0 (EscrowBalance (store w) !! i) + n ≤ int_max I128 ∧
    paid e (er_is_native r) (ledger w) (ledger w') (er_token r) from (current_contract_address e) n ∧
    store w' = {| (store w) with EscrowBalance :=
      <[i := default 0 (EscrowBalance (store w) !! i) + n]> (EscrowBalance (store w)) |} ∧
    log w' = log w ++ [esc_dep i from n].
Proof.
  intros Hr. unfold deposit, escrow_balance_raw in Hr. minv Hr.
  all: spec escrow_record_spec as [Hrec ->]; arith; simpl in *.
  all: eexists; split_and!; eauto; unfold paid; try lia.
  all: match goal with H : er_is_native _ = _ |- _ => rewrite H end; done.
Qed.

(** The storage after the execution of [tx] at time [t]. *)
Definition executed (st : State) (i : Z) (tx : EscrowTransaction) (g : list Z) (t window : Z) : State :=
  let cutoff := saturating_sub U64 t window in
  {| st with
     EscrowBalance := <[et_escrow_id tx :=
       default 0 (EscrowBalance st !! et_escrow_id tx) - et_amount tx]> (EscrowBalance st);
     Transaction := <[i := {| tx with et_executed := true; et_executed_at := t |}]> (Transaction st);
     GlobalExecutions := Some (since cutoff (g ++ [t]));
     RecipientExecutions := <[et_recipient tx :=
       since cutoff (default [] (RecipientExecutions st !! et_recipient tx) ++ [t])]>
         (RecipientExecutions st) |}.

(** The conditions under which a queued transaction executes. *)
Record executable (st : State) (t i : Z) (cfg : EscrowConfig) (tx : EscrowTransaction)
    (r : EscrowRecord) (g : list Z) : Prop := {
  ex_cfg : Config st = Some cfg;
  ex_paused : ec_paused cfg = false;
  ex_tx : Transaction st !! i = Some tx;
  ex_pending : et_executed tx = false ∧ et_cancelled tx = false;
  ex_approvals : ec_required_approvals cfg ≤ Z.of_nat (length (et_approvers tx));
  ex_unlocked : et_queued_at tx + ec_timelock_delay cfg ≤ t;
  ex_grace : t ≤ et_queued_at tx + ec_timelock_delay cfg + ec_grace_period cfg;
  ex_range : 0 ≤ et_queued_at tx + ec_timelock_delay cfg ∧
    0 ≤ et_queued_at tx + ec_timelock_delay cfg + ec_grace_period cfg ≤ int_max U64 ∧
    et_queued_at tx + ec_timelock_delay cfg ≤ int_max U64;
  ex_global : GlobalExecutions st = Some g;
  ex_global_rate : count_since (saturating_sub U64 t (ec_rate_limit_window cfg)) g
    < ec_rate_limit_max cfg;
  ex_recipient_rate : count_since (saturating_sub U64 t (ec_rate_limit_window cfg))
    (default [] (RecipientExecutions st !! et_recipient tx)) < ec_rate_limit_max cfg;
  ex_escrow : Escrow st !! et_escrow_id tx = Some r;
  ex_balance : et_amount tx ≤ default 0 (EscrowBalance st !! et_escrow_id tx);
}.

Lemma escrow_execute_spec i e w u w' :
  execute_transaction i e w = Ok (u, w') →
  ∃ cfg tx r g, executable (store w) (timestamp e) i cfg tx r g ∧
    paid e (er_is_native r) (ledger w) (ledger w') (er_token r) (current_contract_address e)
      (et_recipient tx) (et_amount tx) ∧
    store w' = executed (store w) i tx g (timestamp e) (ec_rate_limit_window cfg) ∧
    log w' = log w ++ [esc_exec i (et_escrow_id tx) (et_recipient tx) (et_amount tx) (timestamp e)].
Proof.
  intros Hr. unfold execute_transaction, escrow_balance_raw in Hr. minv Hr.
  all: spec escrow_config_spec as [Hcfg ->]; spec transaction_spec as [Htx ->].
  all: spec escrow_check_rate_limits_spec as ((g & Hg & Hgr) & Hrr & ->).
  all: spec escrow_record_spec as [Hrec ->]; spec set_transaction_spec as ->; arith; simpl in *.
  all: simplify_eq; do 4 eexists; split; [split; eauto; simpl; lia|].
  all: unfold paid; match goal with H : er_is_native _ = _ |- _ => rewrite H end.
  all: split; [done|]; split; [|done].
  all: unfold executed; simpl; by rewrite !prune_window_since.
Qed.

(** An escrow that exists has a recorded, non-negative balance. *)
Lemma inv_has_balance self t st l i r :
  inv self t st l → Escrow st !! i = Some r →
  ∃ b, EscrowBalance st !! i = Some b ∧ 0 ≤ b ≤ int_max I128.
Proof.
  intros Hinv Hi. destruct (inv_escrows _ _ _ _ Hinv) as (n & Hn & _ & He).
  destruct (inv_balances _ _ _ _ Hinv) as (n' & Hn' & _ & Hb). simplify_eq.
  destruct (proj2 (Hb i)) as [b Hbi]; [apply He; eauto|]. exists b. split; [done|].
  by eapply inv_balance.
Qed.

Lemma escrow_deposit_inv self t i from n e w w' :
  wf_env self e → inv self t (store w) (ledger w) →
  deposit i from n e w = Ok (tt, w') → inv self t (store w') (ledger w').
Proof.
  intros Hwf Hinv Hr.
  apply escrow_deposit_spec in Hr as (r & Hrec & _ & Hau & Hn & Hmax & Hpaid & -> & _). unfold MIN_AMOUNT in Hn.
  destruct (inv_has_balance _ _ _ _ _ _ Hinv Hrec) as (b & Hb & Hb0). rewrite Hb in *; simpl in *.
  pose proof (wf_auth_ne _ _ _ Hwf Hau) as Hne. destruct Hinv. split; try done; simpl.
  - apply numbered_insert; eauto.
  - intros j x [[<- <-]|[_ Hx]]%lookup_insert_Some; [lia|eauto].
  - intros tk. unfold liability; simpl.
    change (backing _ tk) with (backing (store w) tk). rewrite (liability_set _ _ _ _ _ _ Hb Hrec).
    specialize (inv_solvent0 tk). unfold paid in Hpaid. destruct (er_is_native r); simpl; [rewrite Hpaid; lia|].
    rewrite (wf_self _ _ Hwf) in Hpaid. apply transfer_moved in Hpaid.
    rewrite (moved_in _ _ _ _ _ _ tk Hpaid Hne). repeat case_bool_decide; simplify_eq; lia.
Qed.

Lemma escrow_execute_inv self i e w w' :
  wf_env self e → inv self (timestamp e) (store w) (ledger w) →
  execute_transaction i e w = Ok (tt, w') → inv self (timestamp e) (store w') (ledger w').
Proof.
  intros Hwf Hinv Hr. apply escrow_execute_spec in Hr as (cfg & tx & r & g & [] & Hpaid & -> & _).
  destruct (inv_has_balance _ _ _ _ _ _ Hinv ex_escrow0) as (b & Hb & Hb0).
  rewrite Hb in ex_balance0; simpl in ex_balance0. unfold executed. rewrite Hb; simpl.
  destruct Hinv. destruct (inv_tx0 _ _ ex_tx0) as [[] Hesc]. unfold MIN_AMOUNT in *.
  split; try done; simpl.
  - apply numbered_insert; eauto.
  - apply numbered_insert; eauto.
  - intros j x [[<- <-]|[_ Hx]]%lookup_insert_Some; [|eauto]. split; [|done].
    split; simpl; try done; [by intros _; destruct ex_pending0|]. intros _. lia.
  - intros j x [[<- <-]|[_ Hx]]%lookup_insert_Some; [simpl in *; lia|eauto].
  - intros tk. unfold liability; simpl.
    change (backing _ tk) with (backing (store w) tk). rewrite (liability_set _ _ _ _ _ _ Hb ex_escrow0).
    specialize (inv_solvent0 tk). unfold paid in Hpaid.
    destruct (er_is_native r); simpl; [rewrite Hpaid; lia|].
    rewrite (wf_self _ _ Hwf) in Hpaid. apply transfer_moved in Hpaid.
    pose proof (moved_out_ge _ _ _ _ _ _ tk Hpaid ltac:(lia)).
    repeat case_bool_decide; simplify_eq; lia.
Qed.

(** *** Queueing, approvals, cancellation, escrow records *)

Lemma create_escrow_inv self t c tk nat_ p e w i w' :
  inv self t (store w) (ledger w) →
  create_escrow c tk nat_ p e w = Ok (i, w') → inv self t (store w') (ledger w').
Proof.
  intros Hinv Hr. unfold create_escrow in Hr. minv Hr. spec escrow_config_spec as [_ ->]. inv_checked.
  pose proof (numbered_fresh _ _ _ (inv_escrows _ _ _ _ Hinv) eq_refl) as Hfe.
  pose proof (numbered_fresh _ _ _ (inv_balances _ _ _ _ Hinv) eq_refl) as Hfb.
  destruct Hinv. split; try done; simpl.
  - by eapply numbered_next; [eassumption|].
  - by eapply numbered_next; [eassumption|].
  - intros j x [[<- <-]|[_ Hx]]%lookup_insert_Some; [done|eauto].
  - intros j x Hx. destruct (inv_tx0 j x Hx) as [? Hsome]. split; [done|].
    apply lookup_insert_is_Some'. by right.
  - intros j x [[<- <-]|[_ Hx]]%lookup_insert_Some; [done|eauto].
  - intros tk'. unfold liability. simpl. rewrite msum_insert_fresh by done.
    rewrite (msum_ext _ (backing (store w) tk')).
    + specialize (inv_solvent0 tk'). unfold liability in inv_solvent0.
      unfold backing at 1; simpl. rewrite lookup_insert_eq. case_match; lia.
    + intros j x Hx. unfold backing; simpl. rewrite lookup_insert_ne; [done|].
      intros <-. by rewrite Hfb in Hx.
Qed.

Lemma escrow_submit_inv self s i rcp n e w k w' :
  wf_env self e → inv self (timestamp e) (store w) (ledger w) →
  submit_transaction reg s i rcp n e w = Ok (k, w') → inv self (timestamp e) (store w') (ledger w').
Proof.
  intros Hwf Hinv Hr. unfold submit_transaction, escrow_balance_raw in Hr. minv Hr.
  spec escrow_config_spec as [_ ->]. spec require_signer_or_admin_spec as (_ & _ & ->).
  spec escrow_record_spec as [Hrec ->]. spec set_transaction_spec as ->. arith. simpl.
  destruct Hinv. split; try done; simpl.
  - by eapply numbered_next; [eassumption|].
  - intros j x [[<- <-]|[_ Hx]]%lookup_insert_Some; [|eauto]. split; [|simpl; eauto].
    split; simpl; try done; [apply NoDup_singleton|]. pose proof (wf_time _ _ Hwf). lia.
Qed.

Lemma approve_inv self t s i e w w' :
  inv self t (store w) (ledger w) →
  approve_transaction s i e w = Ok (tt, w') → inv self t (store w') (ledger w').
Proof.
  intros Hinv Hr. unfold approve_transaction in Hr. minv Hr.
  spec escrow_config_spec as [_ ->]. spec require_signer_spec as (_ & _ & ->).
  spec transaction_spec as [Htx ->]. spec set_transaction_spec as ->. zbool. simpl in *.
  eapply inv_set_tx; eauto. destruct (inv_tx _ _ _ _ Hinv _ _ Htx) as [[] _]. split; simpl; try done.
  apply NoDup_snoc; [done|]. rewrite <- try_index_of_is_Some.
  match goal with H : contains _ _ = false |- _ => unfold contains in H; by zbool end.
Qed.

Lemma revoke_approval_inv self t s i e w w' :
  inv self t (store w) (ledger w) →
  revoke_approval s i e w = Ok (tt, w') → inv self t (store w') (ledger w').
Proof.
  intros Hinv Hr. unfold revoke_approval in Hr. minv Hr.
  spec escrow_config_spec as [_ ->]. spec require_signer_spec as (_ & _ & ->).
  spec transaction_spec as [Htx ->]. spec set_transaction_spec as ->. zbool. simpl in *.
  match goal with H : try_index_of _ _ = Some _ |- _ =>
    apply try_index_of_Some in H as [Hin Hdel] end.
  eapply inv_set_tx; eauto. destruct (inv_tx _ _ _ _ Hinv _ _ Htx) as [[] _]. split; simpl; try done.
  rewrite Hdel. auto with contracts.
Qed.

Lemma escrow_cancel_inv self t c i e w w' :
  inv self t (store w) (ledger w) →
  cancel_transaction reg c i e w = Ok (tt, w') → inv self t (store w') (ledger w').
Proof.
  intros Hinv Hr. unfold cancel_transaction in Hr. minv Hr.
  spec escrow_config_spec as [_ ->]. spec transaction_spec as [Htx ->].
  spec is_admin_spec as [-> ->]. spec set_transaction_spec as ->. zbool. simpl in *.
  eapply inv_set_tx; eauto. destruct (inv_tx _ _ _ _ Hinv _ _ Htx) as [[] _]. split; simpl; try done.
  congruence.
Qed.

Lemma close_inv self t c i e w w' :
  inv self t (store w) (ledger w) →
  close_escrow reg c i e w = Ok (tt, w') → inv self t (store w') (ledger w').
Proof.
  intros Hinv Hr. unfold close_escrow in Hr. minv Hr.
  spec escrow_config_spec as [_ ->]. spec escrow_require_admin_spec as (_ & _ & ->).
  spec escrow_record_spec as [Hrec ->]. simpl in *.
  destruct Hinv. split; try done; simpl.
  - apply numbered_insert; eauto.
  - intros j x [[<- <-]|[_ Hx]]%lookup_insert_Some; [simpl|]; eauto.
  - intros j x Hx. destruct (inv_tx0 j x Hx) as [? Hsome]. split; [done|].
    apply lookup_insert_is_Some'. by right.
  - intros tk. etrans; [|apply inv_solvent0]. unfold liability. simpl. apply Z.eq_le_incl, msum_ext.
    intros j x Hx. unfold backing; simpl. rewrite lookup_insert. case_decide; [subst; by rewrite Hrec|done].
Qed.

Lemma escrow_signer_loop signers e w u w' :
  foldM (λ _ a, modify (λ s, {| s with Signer := <[a := true]> (Signer s) |})) tt signers e w
    = (Ok (u, w') : Outcome EscrowError _) →
  ∃ flags, w' = {| w with store := {| (store w) with Signer := flags |} |} ∧
    ∀ a, flags !! a = if bool_decide (a ∈ signers) then Some true else Signer (store w) !! a.
Proof using Type.
  clear Laws. clear dependent R.
  revert w. induction signers as [|s signers IH]; intros w Hr; cbn [foldM] in Hr.
  - minv Hr. exists (Signer (store w)). split; [by destruct w as [[] ? ?]|]. done.
  - apply bind_Ok in Hr as ([] & w1 & H1 & Hr). minv H1. apply IH in Hr as (flags & -> & Hf).
    exists flags. split; [done|]. intros a. rewrite Hf. simpl. rewrite lookup_insert.
    destruct (decide (s = a)) as [->|Hne].
    + rewrite (bool_decide_eq_true_2 (a ∈ a :: signers)) by set_solver. by case_bool_decide.
    + by rewrite (bool_decide_ext (a ∈ s :: signers) (a ∈ signers)) by set_solver.
Qed.

Lemma escrow_initialize_inv self a ac signers m d g wd mx e w w' :
  0 ≤ m → 0 ≤ d → 0 ≤ g → 0 ≤ wd → 0 ≤ mx ≤ int_max U32 →
  store w = deployed → (∀ tk, 0 ≤ tok_balance (ledger w) tk self) →
  initialize a ac signers m d g wd mx e w = Ok (tt, w') →
  inv self (timestamp e) (store w') (ledger w').
Proof using Laws.
  clear dependent R.
  intros Hm Hd Hg Hw Hmx Hst Hbal Hr.
  unfold initialize, validate_signer_set, ZERO_DELAY in Hr. minv Hr.
  spec escrow_signer_loop as (flags & -> & Hf). spec escrow_set_config_spec as ->. zbool.
  match goal with H : has_repeat _ = false |- _ => apply has_repeat_false in H as Hnd end.
  simpl in *. rewrite Hst in *. simpl in *. split; simpl; try done.
  - do 2 eexists. split_and!; [done..|]. split; simpl; try done; try lia.
  - exists 1. split_and!; [done..|]. intros i. rewrite lookup_empty. split; [by intros []|lia].
  - exists 1. split_and!; [done..|]. intros i. rewrite lookup_empty. split; [by intros []|lia].
  - exists 1. split_and!; [done..|]. intros i. rewrite lookup_empty. split; [by intros []|lia].
Qed.
End invariant.

(** ** Reachable worlds *)

Lemma escrow_exec_inv `{TokenLaws} `{RoleRegistry R} self c e (w w' : World State Event) :
  wf_env self e → call_ok c → inv self (timestamp e) (store w) (ledger w) →
  exec c e w = Ok (tt, w') → inv self (timestamp e) (store w') (ledger w').
Proof.
  intros Hwf Hok Hinv Hr. destruct c as [reg c]. unfold call_ok in Hok.
  destruct c; simpl in Hok, Hr; try (apply discard_Ok in Hr as [? Hr]).
  - exfalso. minv Hr using initialize. zbool.
    destruct (inv_cfg _ _ _ _ Hinv) as (cfg & ? & Hc & _). rewrite Hc in *. eauto.
  - by eapply escrow_add_signer_inv.
  - by eapply escrow_remove_signer_inv.
  - by eapply set_threshold_inv.
  - destruct Hok. by eapply set_timelock_inv; [..|exact Hr].
  - destruct Hok. by eapply set_rate_limit_inv; [..|exact Hr].
  - by eapply escrow_pause_inv.
  - by eapply escrow_unpause_inv.
  - by eapply create_escrow_inv.
  - by eapply escrow_deposit_inv.
  - by eapply escrow_submit_inv.
  - by eapply approve_inv.
  - by eapply revoke_approval_inv.
  - by eapply escrow_execute_inv.
  - by eapply escrow_cancel_inv.
  - by eapply close_inv.
Qed.

(** A successful [initialize] on a fresh contract. *)
Definition started `{TokenHost} (self : Address) (e0 : Env) (w1 : World State Event) : Prop :=
  ∃ w0 a ac signers m d g wd mx,
    wf_env self e0 ∧ store w0 = deployed ∧ log w0 = [] ∧
    (∀ tk, 0 ≤ tok_balance (ledger w0) tk self) ∧
    0 ≤ m ∧ 0 ≤ d ∧ 0 ≤ g ∧ 0 ≤ wd ∧ 0 ≤ mx ≤ int_max U32 ∧
    initialize a ac signers m d g wd mx e0 w0 = Ok (tt, w1).

Section reach.
Context `{Laws : TokenLaws} `{RoleRegistry R}.
Implicit Types (w : World State Event) (e : Env).

(** The worlds reachable from there, the registries answering as they like. *)
Definition reachable (self : Address) (t : Z) w : Prop :=
  ∃ e0 w1, started self e0 w1 ∧
    rtc (step (exec (R := R)) call_ok self) (timestamp e0, w1) (t, w).

Lemma escrow_reachable_inv self t w : reachable self t w → inv self t (store w) (ledger w).
Proof.
  intros (e0 & w1 & (w0 & a & ac & signers & m & d & g & wd & mx & Hwf & Hs & _ & Hb & ? & ? & ? & ? & ?
    & Hinit) & Hsteps).
  apply (reach_inv exec call_ok self (inv self)) in Hsteps; [done| | |].
  - intros t1 c e w2 w3 Hwf1 Ht Hok Hinv Hr. eapply escrow_exec_inv; [done..| |done].
    by eapply escrow_inv_mono.
  - intros; by eapply escrow_inv_mono.
  - by eapply (escrow_initialize_inv self a ac signers m d g wd mx e0 w0).
Qed.
End reach.

(** ** What a call can do

    Every successful call is one of six changes to balances, transactions
    and the execution log; the theorems about histories go by these cases. *)

Definition deposited (evs : list Event) (i : Z) : Z :=
  lsum (λ ev, match ev with esc_dep j _ n => if j =? i then n else 0 | _ => 0 end) evs.

Definition pending (tx : EscrowTransaction) : Prop :=
  et_executed tx = false ∧ et_cancelled tx = false.

(** The same payment: only approvals and status may differ. *)
Definition same_payment (tx tx' : EscrowTransaction) : Prop :=
  et_tx_id tx' = et_tx_id tx ∧ et_escrow_id tx' = et_escrow_id tx ∧
  et_recipient tx' = et_recipient tx ∧ et_amount tx' = et_amount tx ∧
  et_submitter tx' = et_submitter tx ∧ et_queued_at tx' = et_queued_at tx.

Definition window (st : State) : option Z := ec_rate_limit_window <$> Config st.

Section effects.
Context `{Laws : TokenLaws} `{RoleRegistry R}.
Implicit Types (w : World State Event) (e : Env).

Inductive effect (e : Env) w w' : Prop :=
| eff_admin :
    EscrowBalance (store w') = EscrowBalance (store w) →
    Transaction (store w') = Transaction (store w) →
    GlobalExecutions (store w') = GlobalExecutions (store w) →
    (∀ i, deposited (log w') i = deposited (log w) i) → effect e w w'
| eff_create i :
    EscrowBalance (store w) !! i = None →
    EscrowBalance (store w') = <[i := 0]> (EscrowBalance (store w)) →
    Transaction (store w') = Transaction (store w) →
    GlobalExecutions (store w') = GlobalExecutions (store w) →
    (∀ i, deposited (log w') i = deposited (log w) i) → effect e w w'
| eff_deposit i n :
    EscrowBalance (store w') =
      <[i := default 0 (EscrowBalance (store w) !! i) + n]> (EscrowBalance (store w)) →
    Transaction (store w') = Transaction (store w) →
    GlobalExecutions (store w') = GlobalExecutions (store w) →
    (∀ j, deposited (log w') j = deposited (log w) j + (if i =? j then n else 0)) → effect e w w'
| eff_submit i tx :
    EscrowBalance (store w') = EscrowBalance (store w) →
    Transaction (store w) !! i = None → et_executed tx = false →
    Transaction (store w') = <[i := tx]> (Transaction (store w)) →
    GlobalExecutions (store w') = GlobalExecutions (store w) →
    (∀ i, deposited (log w') i = deposited (log w) i) → effect e w w'
| eff_update i tx tx' :
    EscrowBalance (store w') = EscrowBalance (store w) →
    Transaction (store w) !! i = Some tx → pending tx →
    same_payment tx tx' → et_executed tx' = false →
    Transaction (store w') = <[i := tx']> (Transaction (store w)) →
    GlobalExecutions (store w') = GlobalExecutions (store w) →
    (∀ i, deposited (log w') i = deposited (log w) i) → effect e w w'
| eff_execute i cfg tx r g :
    executable (store w) (timestamp e) i cfg tx r g →
    store w' = executed (store w) i tx g (timestamp e) (ec_rate_limit_window cfg) →
    (∀ i, deposited (log w') i = deposited (log w) i) → effect e w w'.

Lemma deposited_snoc evs ev i :
  deposited (evs ++ [ev]) i = deposited evs i +
    match ev with esc_dep j _ n => if j =? i then n else 0 | _ => 0 end.
Proof. unfold deposited. rewrite lsum_app. simpl. lia. Qed.

Ltac read_only :=
  repeat match goal with
  | Hc : config _ _ = Ok _ |- _ => apply escrow_config_spec in Hc as [? ->]
  | Hc : require_admin _ _ _ _ _ = Ok _ |- _ => apply escrow_require_admin_spec in Hc as (? & ? & ->)
  | Hc : require_signer _ _ _ = Ok _ |- _ => apply require_signer_spec in Hc as (? & ? & ->)
  | Hc : require_signer_or_admin _ _ _ _ _ = Ok _ |- _ =>
      apply require_signer_or_admin_spec in Hc as (? & ? & ->)
  | Hc : transaction _ _ _ = Ok _ |- _ => apply transaction_spec in Hc as [? ->]
  | Hc : escrow_record _ _ _ = Ok _ |- _ => apply escrow_record_spec in Hc as [? ->]
  | Hc : is_admin _ _ _ _ _ = Ok _ |- _ => apply is_admin_spec in Hc as [-> ->]
  | Hc : set_config _ _ _ = Ok _ |- _ => apply escrow_set_config_spec in Hc as ->
  | Hc : set_transaction _ _ _ _ = Ok _ |- _ => apply set_transaction_spec in Hc as ->
  end.
Ltac no_deposit := intros ?; cbn [log]; rewrite deposited_snoc; lia.

(** Calls that touch the configuration, the signers or an escrow's flag. *)
Lemma admin_effect reg c e w w' :
  match c with
  | CAddSigner _ _ | CRemoveSigner _ _ | CSetThreshold _ _ | CSetTimelock _ _ _
  | CSetRateLimit _ _ _ | CPause _ | CUnpause _ | CClose _ _ => True
  | _ => False
  end →
  exec (R := R) (reg, c) e w = Ok (tt, w') →
  effect e w w' ∧
  match c with CSetRateLimit _ _ _ => True | _ => window (store w') = window (store w) end.
Proof.
  intros Hc Hr. destruct c; try done; simpl in Hr.
  all: unfold add_signer, remove_signer, set_threshold, set_timelock, set_rate_limit, pause, unpause,
    close_escrow, is_signer, index_of in Hr; minv Hr; read_only; simpl in *.
  all: split; [apply eff_admin; [done..|no_deposit]|]; unfold window; simpl; try done.
  all: match goal with Hcfg : Config _ = Some _ |- _ => by rewrite Hcfg end.
Qed.

Lemma queue_effect reg c e w w' :
  numbered (NextTxId (store w)) (Transaction (store w)) →
  match c with
  | CSubmit _ _ _ _ | CApprove _ _ | CRevokeApproval _ _ | CCancel _ _ => True
  | _ => False
  end →
  exec (R := R) (reg, c) e w = Ok (tt, w') →
  effect e w w' ∧ window (store w') = window (store w).
Proof.
  intros Hnum Hc Hr. destruct c; try done; simpl in Hr; try (apply discard_Ok in Hr as [? Hr]).
  - unfold submit_transaction, escrow_balance_raw in Hr. minv Hr. read_only. simpl. split; [|done].
    eapply eff_submit; [done|by eapply numbered_fresh| |reflexivity|done|no_deposit]; done.
  - unfold approve_transaction in Hr. minv Hr. read_only. simpl in *. split; [|done].
    eapply eff_update; [done|eassumption| | | |reflexivity|done|no_deposit]; done.
  - unfold revoke_approval in Hr. minv Hr. read_only. zbool. simpl in *. split; [|done].
    eapply eff_update; [done|eassumption| | | |reflexivity|done|no_deposit]; done.
  - unfold cancel_transaction in Hr. minv Hr. read_only. simpl in *. split; [|done].
    eapply eff_update; [done|eassumption| | | |reflexivity|done|no_deposit]; done.
Qed.

Lemma exec_effect self t rc e w w' :
  inv self t (store w) (ledger w) → exec (R := R) rc e w = Ok (tt, w') →
  effect e w w' ∧
  match rc.2 with CSetRateLimit _ _ _ => True | _ => window (store w') = window (store w) end.
Proof.
  intros Hinv Hr. destruct rc as [reg c]; cbn [snd].
  destruct c; try (by eapply admin_effect in Hr);
    try (by eapply queue_effect in Hr; [|apply Hinv|]).
  - exfalso. simpl in Hr. minv Hr using initialize. zbool.
    destruct (inv_cfg _ _ _ _ Hinv) as (cfg & ? & Hc & _). rewrite Hc in *. eauto.
  - simpl in Hr. apply discard_Ok in Hr as [i Hr]. unfold create_escrow in Hr. minv Hr. read_only.
    simpl. split; [|done]. eapply eff_create; [|done..|no_deposit].
    eapply numbered_fresh; [apply Hinv|done].
  - simpl in Hr. apply escrow_deposit_spec in Hr as (r & _ & _ & _ & _ & _ & _ & Hst & Hlog).
    rewrite Hst. split; [|done]. eapply eff_deposit; rewrite ?Hst; [done..|].
    intros j. rewrite Hlog, deposited_snoc. done.
  - simpl in Hr. apply escrow_execute_spec in Hr as (cfg & tx & r & g & Hex & _ & Hst & Hlog).
    split; [|by rewrite Hst]. eapply eff_execute; [done|done|].
    intros j. rewrite Hlog, deposited_snoc. lia.
Qed.
End effects.

(** ** Histories *)

(** What the executed transactions of an escrow have paid out in total. *)
Definition paid_out (st : State) (i : Z) : Z :=
  msum (λ _ tx, if et_executed tx && (et_escrow_id tx =? i) then et_amount tx else 0) (Transaction st).

(** How many transactions were executed at or after [c]. *)
Definition executed_since (c : Z) (st : State) : Z :=
  msum (λ _ tx, if et_executed tx && (c <=? et_executed_at tx) then 1 else 0) (Transaction st).

Definition evolves (tx tx' : EscrowTransaction) : Prop :=
  same_payment tx tx' ∧ (et_executed tx = true ∨ et_cancelled tx = true → tx' = tx).

Lemma escrow_evolves_refl tx : evolves tx tx.
Proof. by split. Qed.

Lemma escrow_evolves_trans tx1 tx2 tx3 : evolves tx1 tx2 → evolves tx2 tx3 → evolves tx1 tx3.
Proof.
  intros [(? & ? & ? & ? & ? & ?) Hd1] [(? & ? & ? & ? & ? & ?) Hd2]. split.
  - repeat split; congruence.
  - intros Hd. specialize (Hd1 Hd) as ->. auto.
Qed.

Section histories.
Context `{Laws : TokenLaws} `{RoleRegistry R}.
Implicit Types (w : World State Event) (e : Env).

Lemma effect_evolves e w w' i tx :
  effect e w w' → Transaction (store w) !! i = Some tx →
  ∃ tx', Transaction (store w') !! i = Some tx' ∧ evolves tx tx'.
Proof.
  intros Heff Hi. pose proof (escrow_evolves_refl tx) as Hrefl.
  destruct Heff as [_ -> _ _|? _ _ -> _ _|? ? _ -> _ _|j tx0 _ Hj _ -> _ _
    |j tx0 tx' _ Hj [He Hc] Hs _ -> _ _|j cfg tx0 r g [] -> _]; eauto; simpl.
  - rewrite lookup_insert_ne by congruence. eauto.
  - destruct (decide (j = i)) as [->|Hne]; [|rewrite lookup_insert_ne by done; eauto].
    rewrite lookup_insert_eq. simplify_eq. eexists; split; [done|]. split; [done|].
    rewrite He, Hc. by intros [].
  - destruct (decide (j = i)) as [->|Hne]; [|rewrite lookup_insert_ne by done; eauto].
    rewrite lookup_insert_eq. simplify_eq. destruct ex_pending0 as [He Hc].
    eexists; split; [done|]. split; [done|]. rewrite He, Hc. by intros [].
Qed.

Lemma steps_evolve self t w t' w' i tx :
  inv self t (store w) (ledger w) →
  rtc (step (exec (R := R)) call_ok self) (t, w) (t', w') →
  Transaction (store w) !! i = Some tx →
  ∃ tx', Transaction (store w') !! i = Some tx' ∧ evolves tx tx'.
Proof.
  intros Hinv Hsteps Hi.
  apply (reach_inv exec call_ok self (λ t st l, inv self t st l ∧
    ∃ tx', Transaction st !! i = Some tx' ∧ evolves tx tx')) in Hsteps as [_ ?]; [done|..].
  - intros t1 c e w1 w2 Hwf Ht Hok [Hinv1 (tx1 & Hi1 & Hev1)] Hr.
    assert (inv self (timestamp e) (store w1) (ledger w1)) as Hinv1' by by eapply escrow_inv_mono.
    split; [by eapply escrow_exec_inv|].
    destruct (exec_effect _ _ _ _ _ _ Hinv1 Hr) as [Heff _].
    destruct (effect_evolves _ _ _ _ _ Heff Hi1) as (tx2 & Hi2 & Hev2).
    exists tx2. split; [done|]. by eapply escrow_evolves_trans.
  - intros t1 t2 st l1 l2 Ht Hl [Hinv1 ?]. split; [by eapply escrow_inv_mono|done].
  - split; [done|]. exists tx. split; [done|apply escrow_evolves_refl].
Qed.

(** Balances are deposits less payments. *)
Definition conserved w : Prop :=
  ∀ i, default 0 (EscrowBalance (store w) !! i) = deposited (log w) i - paid_out (store w) i.

Lemma effect_conserved e w w' : effect e w w' → conserved w → conserved w'.
Proof.
  intros Heff Hcons i. specialize (Hcons i). unfold paid_out in *.
  destruct Heff as [Hb Ht _ Hd|j Hj Hb Ht _ Hd|j n Hb Ht _ Hd|j tx Hb Hj He Ht _ Hd
    |j tx tx' Hb Hj [He _] _ He' Ht _ Hd|j cfg tx r g [] Hst Hd].
  - by rewrite Hb, Ht, Hd.
  - rewrite Hb, Ht, Hd, lookup_insert. case_decide; [subst|done]. by rewrite Hj in Hcons.
  - rewrite Hb, Ht, Hd, lookup_insert. destruct (j =? i) eqn:E; zbool.
    + subst. rewrite decide_True by done. simpl. lia.
    + rewrite decide_False by done. lia.
  - rewrite Hb, Ht, Hd, msum_insert_fresh by done. rewrite He. simpl. lia.
  - rewrite Hb, Ht, Hd, (msum_insert_update _ _ _ _ _ Hj). rewrite He, He'. simpl. lia.
  - rewrite Hst, Hd. unfold executed; simpl. rewrite (msum_insert_update _ _ _ _ _ ex_tx0). simpl.
    destruct ex_pending0 as [-> _]. rewrite lookup_insert. simpl.
    destruct (et_escrow_id tx =? i) eqn:E; zbool.
    + rewrite E, decide_True by done. simpl. lia.
    + rewrite decide_False by done. lia.
Qed.

(** While the window is [W], the rate limiter's list accounts for every
    execution of the last [W] seconds. *)
Definition tracked (W t : Z) (st : State) : Prop :=
  window st = Some W ∧
  ∀ c, saturating_sub U64 t W ≤ c →
    executed_since c st ≤ count_since c (default [] (GlobalExecutions st)).

Lemma saturating_sub_mono t t' W : t ≤ t' → saturating_sub U64 t W ≤ saturating_sub U64 t' W.
Proof. unfold saturating_sub, saturate. lia. Qed.

Lemma tracked_mono W t t' st : t ≤ t' → tracked W t st → tracked W t' st.
Proof.
  intros Ht [Hw Hc]. split; [done|]. intros c Hle. apply Hc.
  etrans; [by apply saturating_sub_mono|done].
Qed.

Lemma effect_tracked W e w w' :
  effect e w w' → window (store w') = window (store w) →
  tracked W (timestamp e) (store w) → tracked W (timestamp e) (store w').
Proof.
  intros Heff Hwin [Hw Hc]. split; [by rewrite Hwin|]. intros c Hle. specialize (Hc c Hle).
  unfold executed_since in *.
  destruct Heff as [_ Ht Hg _|j _ _ Ht Hg _|j n _ Ht Hg _|j tx _ Hj He Ht Hg _
    |j tx tx' _ Hj [He _] _ He' Ht Hg _|j cfg tx r g [] Hst _].
  - by rewrite Ht, Hg.
  - by rewrite Ht, Hg.
  - by rewrite Ht, Hg.
  - rewrite Ht, Hg, msum_insert_fresh by done. by rewrite He.
  - rewrite Ht, Hg, (msum_insert_update _ _ _ _ _ Hj). rewrite He, He'. simpl. lia.
  - unfold window in Hw. rewrite ex_cfg0 in Hw. simplify_eq/=.
    rewrite Hst. unfold executed; cbn [Transaction GlobalExecutions default].
    rewrite (msum_insert_update _ _ _ _ _ ex_tx0). simpl. destruct ex_pending0 as [-> _].
    rewrite count_since_since, count_since_app, count_since_one by done.
    rewrite ex_global0 in Hc. simpl in *. lia.
Qed.
End histories.

(** ** When execution succeeds *)

Section enabled.
Context `{TokenHost}.
Implicit Types (w : World State Event) (e : Env).

Lemma count_in_window_run ts cutoff e w :
  count_since cutoff ts ≤ int_max U32 →
  count_in_window ts cutoff e w = (Ok (count_since cutoff ts, w) : Outcome EscrowError _).
Proof.
  unfold count_in_window.
  enough (∀ k, 0 ≤ k → k + count_since cutoff ts ≤ int_max U32 →
    foldM (λ count v, if v >=? cutoff then plain_add U32 count 1 else mret count) k ts e w
    = (Ok (k + count_since cutoff ts, w) : Outcome EscrowError _)) as Hgen
    by (intros Hmax; apply (Hgen 0); lia).
  induction ts as [|v ts IH]; intros k Hk Hmax; cbn [foldM].
  - unfold count_since; simpl. by rewrite Z.add_0_r.
  - change (v :: ts) with ([v] ++ ts) in *. rewrite count_since_app, count_since_one in *.
    pose proof (count_since_nonneg cutoff ts). unfold mbind, M_bind. rewrite Z.geb_leb.
    destruct (cutoff <=? v).
    + unfold plain_add, expect.
      rewrite (proj2 (checked_add_Some U32 _ _ _)) by (split; [done|simpl in *; lia]).
      rewrite IH by lia. do 2 f_equal. lia.
    + unfold mret, M_ret. rewrite IH by lia. done.
Qed.

Lemma check_rate_limits_run cfg rcp g e w :
  let cutoff := saturating_sub U64 (timestamp e) (ec_rate_limit_window cfg) in
  ec_rate_limit_max cfg ≤ int_max U32 →
  GlobalExecutions (store w) = Some g → count_since cutoff g < ec_rate_limit_max cfg →
  count_since cutoff (default [] (RecipientExecutions (store w) !! rcp)) < ec_rate_limit_max cfg →
  check_rate_limits cfg rcp e w = Ok (tt, w).
Proof.
  intros cutoff Hmax Hg H1 H2. unfold check_rate_limits, mbind, M_bind, now, gets, expect, throw_if.
  rewrite Hg. fold cutoff.
  do 2 (rewrite count_in_window_run, Z.geb_leb, (proj2 (Z.leb_gt _ _)) by lia). done.
Qed.

Lemma execute_run i cfg tx r g e w :
  executable (store w) (timestamp e) i cfg tx r g →
  ec_rate_limit_max cfg ≤ int_max U32 → 0 ≤ et_amount tx →
  default 0 (EscrowBalance (store w) !! et_escrow_id tx) ≤ int_max I128 →
  (er_is_native r = true ∨ is_Some (tok_transfer e (ledger w) (er_token r)
     (current_contract_address e) (et_recipient tx) (et_amount tx))) →
  ∃ w', execute_transaction i e w = Ok (tt, w').
Proof.
  intros [] Hmax Ha Hb Htr. destruct ex_pending0 as [He Hc].
  unfold execute_transaction, config, transaction, escrow_record, escrow_balance_raw.
  unfold mbind, M_bind, gets, ok_or, throw_if, now.
  rewrite ex_cfg0, ex_paused0, ex_tx0, He, Hc, (proj2 (Z.ltb_ge _ _)) by lia.
  rewrite (proj2 (checked_add_Some U64 (et_queued_at tx) _ _)) by (split; [done|simpl in *; lia]).
  rewrite (proj2 (Z.ltb_ge _ _)) by lia.
  rewrite (proj2 (checked_add_Some U64 _ (ec_grace_period cfg) _)) by (split; [done|simpl in *; lia]).
  rewrite Z.gtb_ltb, (proj2 (Z.ltb_ge _ _)) by lia.
  rewrite (check_rate_limits_run _ _ g) by done.
  rewrite ex_escrow0, (proj2 (Z.ltb_ge _ _)) by lia. unfold plain_sub, expect.
  rewrite (proj2 (checked_sub_Some I128 _ _ _)) by (split; [done|simpl in *; lia]).
  unfold modify. simpl. destruct (er_is_native r); simpl.
  - unfold mret, M_ret. simpl. rewrite ex_global0. simpl. eauto.
  - destruct Htr as [?|[l' Hl']]; [done|]. unfold self_address, token_transfer. simpl. rewrite Hl'. simpl.
    rewrite ex_global0. simpl. eauto.
Qed.
End enabled.

(** The calls behind the admin check, and their caller. *)
Definition gated (c : Call) : option Address :=
  match c with
  | CAddSigner x _ | CRemoveSigner x _ | CSetThreshold x _ | CSetTimelock x _ _
  | CSetRateLimit x _ _ | CPause x | CUnpause x | CClose x _ => Some x
  | _ => None
  end.

(** ** Theorems *)

Section theorems.
Context `{Laws : TokenLaws} `{RoleRegistry R}.
Implicit Types (w : World State Event) (e : Env).

(** C6: in every reachable world, whatever the role registries answered, the
    contract's balance of each token covers the recorded balances of its
    token escrows, none of which is negative. *)
Theorem escrow_solvent self t w tk :
  reachable (R := R) self t w →
  liability (store w) tk ≤ tok_balance (ledger w) tk self ∧
  ∀ i b, EscrowBalance (store w) !! i = Some b → 0 ≤ b ≤ int_max I128.
Proof.
  intros Hr. pose proof (escrow_reachable_inv _ _ _ Hr) as Hinv. split; [by eapply inv_solvent|].
  intros i b Hb. by eapply inv_balance.
Qed.

(** The signer set is consistent in every reachable world: no signer
    twice, flags and list and count agree, the threshold is between 1 and the
    number of signers, which is at most 20, and every queued transaction has
    each of its approvers once, a positive amount and at most one final state. *)
Theorem escrow_signers_consistent self t w :
  reachable (R := R) self t w →
  (∃ cfg signers, Config (store w) = Some cfg ∧ SignerList (store w) = Some signers ∧
     cfg_ok cfg signers (Signer (store w))) ∧
  ∀ i tx, Transaction (store w) !! i = Some tx → tx_ok t i tx.
Proof.
  intros Hr. pose proof (escrow_reachable_inv _ _ _ Hr) as Hinv. split; [apply Hinv|].
  intros i tx Hi. by apply (inv_tx _ _ _ _ Hinv) in Hi as [? _].
Qed.

(** A queued transaction keeps its escrow, recipient, amount, submitter
    and queueing time through any history, and once executed or cancelled it
    never changes again: it cannot be executed twice or cancelled later. *)
Theorem escrow_tx_final self t w t' w' i tx :
  reachable (R := R) self t w → rtc (step (exec (R := R)) call_ok self) (t, w) (t', w') →
  Transaction (store w) !! i = Some tx →
  ∃ tx', Transaction (store w') !! i = Some tx' ∧ same_payment tx tx' ∧
    (et_executed tx = true ∨ et_cancelled tx = true → tx' = tx).
Proof.
  intros Hr Hsteps Hi. eapply steps_evolve in Hsteps as (tx' & Hi' & Hs & Hf);
    [|by apply escrow_reachable_inv|done]. eauto.
Qed.

(** On a reachable world a transaction executes exactly when it is still
    pending, has at least the required approvals, lies between its time-lock
    and the end of its grace period, passes both rate limits, is covered by
    its escrow's balance, the contract is not paused, and (for a token
    escrow) the token accepts the transfer. *)
Theorem execute_iff_executable self t i e w :
  reachable (R := R) self t w →
  (∃ w', execute_transaction i e w = Ok (tt, w')) ↔
  ∃ cfg tx r g, executable (store w) (timestamp e) i cfg tx r g ∧
    (er_is_native r = true ∨ is_Some (tok_transfer e (ledger w) (er_token r)
       (current_contract_address e) (et_recipient tx) (et_amount tx))).
Proof.
  intros Hr. pose proof (escrow_reachable_inv _ _ _ Hr) as Hinv. split.
  - intros [w' Hx]. apply escrow_execute_spec in Hx as (cfg & tx & r & g & Hex & Hp & _).
    exists cfg, tx, r, g. split; [done|]. unfold paid in Hp. destruct (er_is_native r); eauto.
  - intros (cfg & tx & r & g & Hex & Htr).
    destruct (inv_cfg _ _ _ _ Hinv) as (cfg' & ? & Hc & _ & []).
    destruct (inv_tx _ _ _ _ Hinv _ _ (ex_tx _ _ _ _ _ _ _ Hex)) as [[] _].
    destruct (inv_has_balance _ _ _ _ _ _ Hinv (ex_escrow _ _ _ _ _ _ _ Hex)) as (b & Hb & Hb0).
    pose proof (ex_cfg _ _ _ _ _ _ _ Hex). simplify_eq. unfold MIN_AMOUNT in *.
    eapply execute_run; [done|lia|lia| |done]. rewrite Hb. simpl. apply Hb0.
Qed.

(** An execution pays the recipient the queued amount out of its escrow,
    marks that transaction executed now, touches no other transaction and no
    other escrow's balance. *)
Theorem execute_pays self i e w w' :
  wf_env self e → execute_transaction i e w = Ok (tt, w') →
  ∃ tx r, Transaction (store w) !! i = Some tx ∧ Escrow (store w) !! et_escrow_id tx = Some r ∧
    Transaction (store w') =
      <[i := {| tx with et_executed := true; et_executed_at := timestamp e |}]>
        (Transaction (store w)) ∧
    EscrowBalance (store w') = <[et_escrow_id tx :=
      default 0 (EscrowBalance (store w) !! et_escrow_id tx) - et_amount tx]> (EscrowBalance (store w)) ∧
    (if er_is_native r then ledger w' = ledger w
     else moved (ledger w) (ledger w') (er_token r) self (et_recipient tx) (et_amount tx)).
Proof.
  intros Hwf Hx. apply escrow_execute_spec in Hx as (cfg & tx & r & g & [] & Hp & -> & _).
  exists tx, r. split_and!; try done. unfold paid in Hp. rewrite (wf_self _ _ Hwf) in Hp.
  destruct (er_is_native r); [done|]. by eapply transfer_moved.
Qed.

(** Every escrow's balance is the sum of the deposits made into it less
    the sum of the executed transactions out of it. *)
Theorem escrow_conserved self t w i :
  reachable (R := R) self t w →
  default 0 (EscrowBalance (store w) !! i) = deposited (log w) i - paid_out (store w) i.
Proof.
  intros (e0 & w1 & Hst & Hsteps). revert i. change (conserved w).
  apply (reach_inv_world exec call_ok self (λ t w, inv self t (store w) (ledger w) ∧ conserved w))
    in Hsteps as [_ ?]; [done|..].
  - intros t1 c e w2 w3 Hwf Ht Hok [Hinv Hcons] Hr.
    assert (inv self (timestamp e) (store w2) (ledger w2)) as Hinv' by by eapply escrow_inv_mono.
    split; [by eapply escrow_exec_inv|].
    eapply exec_effect in Hr as [Heff _]; [|done]. by eapply effect_conserved.
  - intros t1 t2 w2 l' Ht Hl [Hinv Hcons]. split; [by eapply escrow_inv_mono|done].
  - split.
    + apply (escrow_reachable_inv (R := R) self (timestamp e0) w1). exists e0, w1. by split.
    + destruct Hst as (w0 & a & ac & signers & m & d & g & wd & mx & _ & Hs & Hlog & _ & _ & _ & _ & _
        & _ & Hinit).
      unfold initialize, validate_signer_set in Hinit. minv Hinit.
      spec escrow_signer_loop as (flags & -> & _). spec escrow_set_config_spec as ->. intros i.
      unfold paid_out. simpl. rewrite Hs, Hlog. simpl. done.
Qed.

(** As long as the admin does not change the rate limit, each execution
    leaves at most [rate_limit_max] transactions executed within the window
    that ends now. *)
Theorem escrow_rate_limited self e0 w1 t w i e w' :
  started self e0 w1 →
  rtc (step (exec (R := R))
    (λ c, call_ok c ∧ match c.2 with CSetRateLimit _ _ _ => False | _ => True end) self)
    (timestamp e0, w1) (t, w) →
  t ≤ timestamp e → execute_transaction i e w = Ok (tt, w') →
  ∃ cfg, Config (store w') = Some cfg ∧
    executed_since (saturating_sub U64 (timestamp e) (ec_rate_limit_window cfg)) (store w')
      ≤ ec_rate_limit_max cfg.
Proof.
  intros Hst Hsteps Ht Hx.
  assert (inv self (timestamp e0) (store w1) (ledger w1)) as Hinv1
    by (apply (escrow_reachable_inv (R := R)); exists e0, w1; by split).
  destruct (inv_cfg _ _ _ _ Hinv1) as (cfg1 & _ & Hcfg1 & _).
  set (W := ec_rate_limit_window cfg1).
  assert (inv self t (store w) (ledger w) ∧ tracked W t (store w)) as [Hinv Htr].
  { apply (reach_inv exec _ self (λ t st l, inv self t st l ∧ tracked W t st)) in Hsteps; [done|..].
    - intros t1 c e1 w2 w3 Hwf Ht1 [Hok Hno] [Hinv Htr] Hr.
      assert (inv self (timestamp e1) (store w2) (ledger w2)) as Hinv' by by eapply escrow_inv_mono.
      split; [by eapply escrow_exec_inv|].
      eapply exec_effect in Hr as [Heff Hwin]; [|done].
      eapply effect_tracked; [done| |by eapply tracked_mono]. by destruct (c.2).
    - intros t1 t2 st l l' Ht1 Hl [Hinv Htr]. split; [by eapply escrow_inv_mono|by eapply tracked_mono].
    - split; [done|]. cbn [snd]. split; [unfold window; by rewrite Hcfg1|]. intros c _.
      destruct Hst as (w0 & a & ac & signers & m & d & g & wd & mx & _ & Hs & _ & _ & _ & _ & _ & _
        & _ & Hinit).
      unfold initialize, validate_signer_set in Hinit. minv Hinit.
      spec escrow_signer_loop as (flags & -> & _). spec escrow_set_config_spec as ->.
      unfold executed_since. simpl. rewrite Hs. simpl. apply count_since_nonneg. }
  apply (tracked_mono _ _ _ _ Ht) in Htr.
  apply escrow_execute_spec in Hx as (cfg & tx & r & g & Hex & _ & Hst' & Hlog).
  assert (effect e w w') as Heff.
  { eapply eff_execute; [done|done|]. intros j. rewrite Hlog, deposited_snoc. lia. }
  eapply effect_tracked in Htr as [Hw Hc]; [|done|by rewrite Hst'].
  exists cfg. destruct Hex. rewrite Hst' in *. split; [done|].
  unfold window in Hw. simpl in Hw. rewrite ex_cfg0 in Hw. injection Hw as Hw. rewrite <- Hw in Hc.
  etrans; [by apply Hc|]. unfold executed; cbn [GlobalExecutions default id].
  rewrite count_since_since, count_since_app, count_since_one by done. case_match; lia.
Qed.

(** C7: the admin gate follows the linked registry: an account other than the
    stored admin is let through right after it is granted the Admin role
    there, and every admin-gated call of it returns [Unauthorized] right
    after the role is revoked.  Proved for any registry that satisfies the
    interface's laws. *)
Theorem escrow_admin_follows_registry `{!RoleRegistryLaws R} cfg ac (r : R) x reg e w c :
  Config (store w) = Some cfg → ec_access_control cfg = Some ac → x ≠ ec_admin cfg →
  authorized e x = true →
  (reg ac = Some (registry_grant r RAdmin x) → require_admin reg cfg x e w = Ok (tt, w)) ∧
  (reg ac = Some (registry_revoke r RAdmin x) → gated c = Some x →
     exec (reg, c) e w = Err Unauthorized).
Proof.
  intros Hcfg Hac Hne Hau. split.
  - intros Hreg. unfold require_admin, is_admin, mbind, M_bind, require_auth, expect, throw_if.
    rewrite Hau, bool_decide_eq_false_2, Hac, Hreg, has_role_grant by done.
    by rewrite bool_decide_eq_true_2.
  - intros Hreg Hg.
    assert (∀ A (k : EscrowConfig → () → M State EscrowError Event A),
      (config ≫= λ cfg, require_admin reg cfg x ≫= k cfg) e w = Err Unauthorized) as Hgate.
    { intros A k. unfold config, require_admin, is_admin, mbind, M_bind, gets, ok_or, require_auth,
        expect, throw_if.
      rewrite Hcfg, Hau, bool_decide_eq_false_2, Hac, Hreg, has_role_revoke by done.
      by rewrite bool_decide_eq_true_2. }
    destruct c; simplify_eq/=; unfold add_signer, remove_signer, set_threshold, set_timelock,
      set_rate_limit, pause, unpause, close_escrow; apply (Hgate _ (λ cfg _, _)).
Qed.

(** Execution and outside cancellation exclude each other in time: until
    the end of the grace period only an admin or the submitter can cancel a
    pending transaction, and after it anyone can, while nobody can execute. *)
Theorem escrow_cancel_window self t reg cfg tx i x e w :
  wf_env self e → reachable (R := R) self t w →
  Config (store w) = Some cfg → Transaction (store w) !! i = Some tx → pending tx →
  authorized e x = true → (ec_access_control cfg = None ∨ ∀ a, is_Some (reg a)) →
  let deadline := et_queued_at tx + ec_timelock_delay cfg + ec_grace_period cfg in
  deadline ≤ int_max U64 →
  ((∃ w', cancel_transaction reg x i e w = Ok (tt, w')) ↔
     admin_of reg cfg x = true ∨ x = et_submitter tx ∨ deadline < timestamp e) ∧
  (deadline < timestamp e → ∀ r, execute_transaction i e w ≠ Ok r).
Proof.
  intros Hwf Hreach Hcfg Htx [He Hc] Hau Hreg deadline Hmax.
  pose proof (escrow_reachable_inv _ _ _ Hreach) as Hinv.
  destruct (inv_cfg _ _ _ _ Hinv) as (cfg' & ? & Hc' & _ & []). simplify_eq.
  destruct (inv_tx _ _ _ _ Hinv _ _ Htx) as [[] _]. split.
  - assert (is_admin reg cfg x e w = (Ok (admin_of reg cfg x, w) : Outcome EscrowError _)) as Hadm.
    { unfold is_admin, admin_of. case_bool_decide; [done|].
      destruct (ec_access_control cfg) as [ac|]; [|done]. destruct Hreg as [|Hreg]; [done|].
      destruct (Hreg ac) as [r Hr]. unfold mbind, M_bind, expect. by rewrite Hr. }
    unfold cancel_transaction, config, transaction, mbind, M_bind, require_auth, gets, ok_or, throw_if, now.
    rewrite Hau, Hcfg, Htx, He, Hc, Hadm. unfold saturating_add, saturate.
    replace (Z.max _ _) with deadline by (unfold deadline in *; simpl in *; lia).
    rewrite Z.gtb_ltb. destruct (admin_of reg cfg x), (deadline <? timestamp e) eqn:Hd; zbool;
      case_bool_decide; simpl; unfold set_transaction, modify, publish; split; try (by eauto).
    + intros [? ?]. done.
    + intros [|[|]]; [done|done|lia].
  - intros Hlate [u w'] Hx. apply escrow_execute_spec in Hx as (cfg' & tx' & r & g & [] & _).
    simplify_eq. unfold deadline in *. lia.
Qed.

(** An approval survives the approver's removal from the signer set: a
    transaction that could execute before [remove_signer] can execute after
    it, even when only approvals of the removed signer make up the threshold. *)
Theorem removed_signer_still_counts reg c s e w w' t i cfg tx r g :
  remove_signer reg c s e w = Ok (tt, w') → executable (store w) t i cfg tx r g →
  ∃ cfg', executable (store w') t i cfg' tx r g ∧ Signer (store w') !! s = None ∧
    ec_required_approvals cfg' = ec_required_approvals cfg.
Proof.
  intros Hr []. unfold remove_signer, is_signer, index_of in Hr. minv Hr.
  spec escrow_config_spec as [Hcfg ->]. spec escrow_require_admin_spec as (Hau & Had & ->).
  spec escrow_set_config_spec as ->. simplify_eq. simpl. eexists. split_and!.
  - split; simpl; eauto.
  - apply lookup_delete_eq.
  - done.
Qed.
End theorems.

(** ** Concrete runs

    A 2-of-3 escrow linked to an access-control registry: 500 tokens
    deposited, a payment of 200 queued and approved by two signers. *)

Module EscrowDemo.

Definition self := mkAddress "ESC".
Definition adm := mkAddress "ADM".
Definition root := mkAddress "ROOT".
Definition s1 := mkAddress "S1".
Definition s2 := mkAddress "S2".
Definition s3 := mkAddress "S3".
Definition cust := mkAddress "CUST".
Definition bob := mkAddress "BOB".
Definition tok := mkAddress "TOK".
Definition ac := mkAddress "AC".

Definition acs : AccessControl.State :=
  AccessControl.mkState (Some true) {[ (RAdmin, root) := true ]} {[ RAdmin := RAdmin ]}.
Definition reg (a : Address) : option AccessControl.State :=
  if bool_decide (a = ac) then Some acs else None.

Definition e0 := env_at 0 self [adm].
Definition w0 : World State Event := mkWorld deployed (sl_of [(tok, cust, 900)]) [].
Definition w1 := world_of (initialize adm (Some ac) [s1; s2; s3] 2 10 100 50 2 e0 w0) w0.

Definition Step : Type := Z * list Address * ((Address → option AccessControl.State) * Call).
Definition setup : list Step :=
  [ (1, [cust], (reg, CCreateEscrow cust tok false "rent"));
    (2, [cust], (reg, CDeposit 1 cust 500));
    (3, [s1], (reg, CSubmit s1 1 bob 200));
    (4, [s2], (reg, CApprove s2 1)) ].
Definition w2 := run_script exec self setup w1.

Definition e20 := env_at 20 self [].
Definition pay : list Step := [(20, [], (reg, CExecute 1))].
Definition w3 := run_script exec self pay w2.

Lemma escrow_w1_started : started self e0 w1.
Proof.
  exists w0, adm, (Some ac), [s1; s2; s3], 2, 10, 100, 50, 2. split_and!; try discriminate.
  - by apply env_at_wf.
  - reflexivity.
  - reflexivity.
  - intros tk. apply (sl_of_nonneg [(tok, cust, 900)]). reflexivity.
  - apply run_ok_unit. vm_compute. reflexivity.
Qed.

Lemma escrow_script_reachable (cs : list Step) :
  script_ok exec self 0 cs w1 = true → Forall (λ c, call_ok c.2) cs →
  reachable (R := AccessControl.State) self (script_end 0 cs) (run_script exec self cs w1).
Proof.
  intros Hok Hcs. exists e0, w1. split; [apply escrow_w1_started|]. by apply run_script_reach.
Qed.

Lemma escrow_w2_reachable : reachable (R := AccessControl.State) self 4 w2.
Proof. apply (escrow_script_reachable setup); [vm_compute; reflexivity|]. by repeat constructor. Qed.

Lemma w2_w3 : rtc (step (exec (R := AccessControl.State)) call_ok self) (4, w2) (20, w3).
Proof.
  unfold w3. apply (run_script_reach exec call_ok self 4 pay w2); [vm_compute; reflexivity|].
  repeat constructor.
Qed.

Lemma escrow_w3_reachable : reachable (R := AccessControl.State) self 20 w3.
Proof.
  destruct escrow_w2_reachable as (e & w & Hst & Hsteps). exists e, w. split; [exact Hst|].
  etrans; [exact Hsteps|exact w2_w3].
Qed.

Definition tx0 := mkEscrowTransaction 1 1 bob 200 s1 [s1; s2] 3 false false 0.
Lemma w2_tx : Transaction (store w2) !! 1 = Some tx0.
Proof. vm_compute. reflexivity. Qed.

Lemma escrow_solvent_witness :
  liability (store w3) tok = 300 ∧ 300 ≤ tok_balance (ledger w3) tok self.
Proof.
  assert (liability (store w3) tok = 300) as Hl by (vm_compute; reflexivity).
  split; [exact Hl|]. destruct (escrow_solvent self 20 w3 tok escrow_w3_reachable) as [Hs _].
  rewrite Hl in Hs. exact Hs.
Defined.

Lemma escrow_signers_consistent_witness : tx_ok 4 1 tx0.
Proof.
  destruct (escrow_signers_consistent self 4 w2 escrow_w2_reachable) as [_ Htx]. exact (Htx 1 tx0 w2_tx).
Defined.

Lemma escrow_tx_final_witness :
  ∃ tx', Transaction (store w3) !! 1 = Some tx' ∧ same_payment tx0 tx' ∧ et_executed tx' = true.
Proof.
  destruct (escrow_tx_final self 4 w2 20 w3 1 tx0 escrow_w2_reachable w2_w3 w2_tx) as (tx' & Hi & Hs & _).
  exists tx'. split; [exact Hi|]. split; [exact Hs|].
  assert (et_executed <$> (Transaction (store w3) !! 1) = Some true) as He by (vm_compute; reflexivity).
  rewrite Hi in He. by injection He.
Defined.

Lemma execute_iff_executable_witness :
  ∃ cfg tx r g, executable (store w2) 20 1 cfg tx r g.
Proof.
  destruct (proj1 (execute_iff_executable self 4 1 e20 w2 escrow_w2_reachable)) as (cfg & tx & r & g & Hex & _).
  - exists (world_of (execute_transaction 1 e20 w2) w0). apply run_ok_unit. vm_compute. reflexivity.
  - exists cfg, tx, r, g. exact Hex.
Defined.

Lemma exec_e20 :
  execute_transaction 1 e20 w2 = Ok (tt, world_of (execute_transaction 1 e20 w2) w0).
Proof. apply run_ok_unit. vm_compute. reflexivity. Qed.

Lemma execute_pays_witness :
  ∃ w', execute_transaction 1 e20 w2 = Ok (tt, w') ∧
    ∃ tx r, Transaction (store w2) !! 1 = Some tx ∧ Escrow (store w2) !! et_escrow_id tx = Some r.
Proof.
  exists (world_of (execute_transaction 1 e20 w2) w0). split; [exact exec_e20|].
  destruct (execute_pays self 1 e20 w2 _ (env_at_wf self 20 [] eq_refl) exec_e20)
    as (tx & r & Htx & Hr & _).
  exists tx, r. split; [exact Htx|exact Hr].
Defined.

Lemma escrow_conserved_witness :
  default 0 (EscrowBalance (store w3) !! 1) = 300 ∧ 300 = 500 - paid_out (store w3) 1.
Proof.
  assert (default 0 (EscrowBalance (store w3) !! 1) = 300) as Hb by (vm_compute; reflexivity).
  split; [exact Hb|]. pose proof (escrow_conserved self 20 w3 1 escrow_w3_reachable) as Hc.
  rewrite Hb in Hc. exact Hc.
Defined.

Lemma escrow_w2_steps : rtc (step (exec (R := AccessControl.State))
  (λ c, call_ok c ∧ match c.2 with CSetRateLimit _ _ _ => False | _ => True end) self)
  (timestamp e0, w1) (4, w2).
Proof.
  unfold w2. apply (run_script_reach exec _ self 0 setup w1); [vm_compute; reflexivity|].
  repeat constructor.
Qed.

Lemma escrow_rate_limited_witness :
  ∃ w' cfg, execute_transaction 1 e20 w2 = Ok (tt, w') ∧ Config (store w') = Some cfg ∧
    executed_since (saturating_sub U64 20 (ec_rate_limit_window cfg)) (store w')
      ≤ ec_rate_limit_max cfg.
Proof.
  exists (world_of (execute_transaction 1 e20 w2) w0).
  destruct (escrow_rate_limited (R := AccessControl.State) self e0 w1 4 w2 1 e20 _ escrow_w1_started
    escrow_w2_steps ltac:(discriminate) exec_e20) as (cfg & Hcfg & Hle).
  exists cfg. split; [exact exec_e20|]. split; [exact Hcfg|exact Hle].
Defined.

(** Granting bob the Admin role lets bob in; revoking it locks bob out. *)
Definition cfg0 := mkEscrowConfig adm (Some ac) 2 3 10 100 50 2 false.
Definition reg_of (s : AccessControl.State) (a : Address) : option AccessControl.State :=
  if bool_decide (a = ac) then Some s else None.

Lemma escrow_admin_follows_registry_witness :
  require_admin (reg_of (registry_grant acs RAdmin bob)) cfg0 bob (env_at 9 self [bob]) w2
    = Ok (tt, w2) ∧
  exec (reg_of (registry_revoke acs RAdmin bob), CPause bob) (env_at 9 self [bob]) w2
    = Err Unauthorized.
Proof.
  assert (Config (store w2) = Some cfg0) as Hc by (vm_compute; reflexivity).
  split.
  - apply (escrow_admin_follows_registry cfg0 ac acs bob (reg_of (registry_grant acs RAdmin bob))
      (env_at 9 self [bob]) w2 (CPause bob) Hc eq_refl); [discriminate|reflexivity|reflexivity].
  - apply (escrow_admin_follows_registry cfg0 ac acs bob (reg_of (registry_revoke acs RAdmin bob))
      (env_at 9 self [bob]) w2 (CPause bob) Hc eq_refl); [discriminate|reflexivity..].
Defined.

Lemma escrow_cancel_window_witness :
  (∃ w', cancel_transaction (λ _, Some acs) bob 1 (env_at 114 self [bob]) w2 = Ok (tt, w')) ∧
  ∀ r, execute_transaction 1 (env_at 114 self [bob]) w2 ≠ Ok r.
Proof.
  destruct (escrow_cancel_window self 4 (λ _, Some acs) cfg0 tx0 1 bob (env_at 114 self [bob]) w2
    (env_at_wf self 114 [bob] eq_refl) escrow_w2_reachable) as [Hc Hx].
  - vm_compute. reflexivity.
  - apply w2_tx.
  - split; reflexivity.
  - reflexivity.
  - right. intros a. exists acs. reflexivity.
  - discriminate.
  - split; [apply Hc; right; right; reflexivity|apply Hx; reflexivity].
Defined.

Lemma removed_signer_still_counts_witness :
  ∃ w' cfg', remove_signer reg adm s2 (env_at 9 self [adm]) w2 = Ok (tt, w') ∧
    ∃ tx r g, executable (store w') 20 1 cfg' tx r g ∧ Signer (store w') !! s2 = None.
Proof.
  set (m := remove_signer reg adm s2 (env_at 9 self [adm]) w2).
  exists (world_of m w0).
  assert (m = Ok (tt, world_of m w0)) as Hm by (apply run_ok_unit; vm_compute; reflexivity).
  destruct execute_iff_executable_witness as (cfg & tx & r & g & Hex).
  destruct (removed_signer_still_counts reg adm s2 (env_at 9 self [adm]) w2 _ 20 1 cfg tx r g Hm Hex)
    as (cfg' & Hex' & Hs & _).
  exists cfg'. split; [exact Hm|]. exists tx, r, g. split; [exact Hex'|exact Hs].
Defined.
End EscrowDemo.
