(* ===== verification/MultiSigWallet.v ===== *)
(** * contracts/multisig-wallet: an M-of-N wallet with ordered execution

    State and operations of the [MultiSigWallet] contract
    (src/contracts/multisig-wallet/src/lib.rs). *)

From stdpp Require Import gmap strings list fin_maps.
From S2P Require Import Prelude Soroban.
Open Scope Z_scope.

(** ** Data *)

Definition MAX_SIGNERS : Z := 20.
Definition MAX_HISTORY_LIMIT : Z := 100.
Definition MAX_MEMO_LENGTH : Z := 128.
Definition DAY_SECONDS : Z := 86400.

Record WalletConfig := mkWalletConfig {
  wc_admin : Address;
  wc_required_confirmations : Z;
  wc_signer_count : Z;
  wc_daily_limit : Z;
  wc_next_tx_id : Z;
  wc_next_nonce : Z;
  wc_next_executable_nonce : Z;
}.

Record WalletTransaction := mkWalletTransaction {
  wt_tx_id : Z;
  wt_nonce : Z;
  wt_token : Address;
  wt_recipient : Address;
  wt_amount : Z;
  wt_submitted_by : Address;
  wt_executed : bool;
  wt_created_at : Z;
  wt_executed_at : Z;
  wt_memo : string;
}.

Record ExecutionReceipt := mkExecutionReceipt {
  xr_tx_id : Z;
  xr_nonce : Z;
  xr_token : Address;
  xr_recipient : Address;
  xr_amount : Z;
  xr_confirmation_count : Z;
  xr_executed_at : Z;
}.

Record State := mkState {
  Config : option WalletConfig;
  Signer : gmap Address bool;
  SignerList : option (list Address);
  Whitelist : gmap Address bool;
  Transaction : gmap Z WalletTransaction;
  Confirmations : gmap Z (list Address);
  ExecutionHistory : option (list Z);
  DailySpent : gmap (Address * Z) Z;
  ReentrancyLock : option bool;
}.

Inductive Event :=
| msig_init (admin : Address) (required signer_count : Z)
| msig_dep (from token : Address) (amount : Z)
| msig_sub (tx_id nonce : Z) (signer token recipient : Address) (amount : Z)
| msig_con (tx_id : Z) (signer : Address) (count : Z)
| msig_rev (tx_id : Z) (signer : Address) (count : Z)
| msig_exe (tx_id nonce : Z) (signer recipient : Address) (amount : Z)
| msig_add (admin new_signer : Address)
| msig_rem (admin signer : Address)
| msig_req (admin : Address) (required : Z)
| msig_lim (admin : Address) (daily_limit : Z)
| msig_wht (admin recipient : Address) (allowed : bool).

Ltac mred v ::= eval cbn [store ledger log Config Signer SignerList Whitelist Transaction
  Confirmations ExecutionHistory DailySpent ReentrancyLock wc_admin wc_required_confirmations
  wc_signer_count wc_daily_limit wc_next_tx_id wc_next_nonce wc_next_executable_nonce wt_tx_id
  wt_nonce wt_token wt_recipient wt_amount wt_submitted_by wt_executed wt_created_at
  wt_executed_at wt_memo] in v.

(** ** Vector helpers *)

Definition vec_contains_address (addresses : list Address) (needle : Address) : bool :=
  existsb (λ a, bool_decide (a = needle)) addresses.

(** The vector after the call, and whether the address was found. *)
Fixpoint remove_address (addresses : list Address) (needle : Address) : list Address * bool :=
  match addresses with
  | [] => ([], false)
  | a :: rest =>
      if bool_decide (a = needle) then (rest, true)
      else let '(rest', removed) := remove_address rest needle in (a :: rest', removed)
  end.

Section contract.
Context `{TokenHost}.

Local Abbreviation C := (M State Empty_set Event).

(** ** Internals *)

Definition config : C WalletConfig := o ← gets Config; expect o "Wallet not initialized".
Definition set_config (cfg : WalletConfig) : C () := modify (λ s, {| s with Config := Some cfg |}).
Definition signer_list : C (list Address) := gets (λ s, default [] (SignerList s)).
Definition history_ids : C (list Z) := gets (λ s, default [] (ExecutionHistory s)).

Definition load_transaction (tx_id : Z) : C WalletTransaction :=
  panic_if (tx_id =? 0) "Invalid transaction ID";;
  o ← gets (λ s, Transaction s !! tx_id);
  expect o "Transaction not found".

Definition confirmations (tx_id : Z) : C (list Address) :=
  load_transaction tx_id;;
  gets (λ s, default [] (Confirmations s !! tx_id)).

Definition is_signer_inner (address : Address) : C bool :=
  gets (λ s, default false (Signer s !! address)).
Definition is_whitelisted_inner (recipient : Address) : C bool :=
  gets (λ s, default false (Whitelist s !! recipient)).

Definition assert_admin (caller : Address) : C () :=
  cfg ← config;
  panic_if (bool_decide (caller ≠ wc_admin cfg)) "Unauthorized: caller is not admin".

Definition assert_signer (caller : Address) : C () :=
  b ← is_signer_inner caller;
  panic_if (negb b) "Caller is not signer".

Definition active_confirmation_count (confs : list Address) : C Z :=
  foldM (λ count signer,
    b ← is_signer_inner signer;
    if (b : bool) then expect (checked_add U32 count 1) "Confirmation count overflow"
    else mret count) 0 confs.

Definition validate_amount (amount : Z) : C () := panic_if (amount <=? 0) "Amount must be positive".
Definition validate_daily_limit (daily_limit : Z) : C () :=
  panic_if (daily_limit <=? 0) "Daily limit must be positive".
Definition validate_memo (memo : string) : C () :=
  panic_if (Z.of_nat (String.length memo) >? MAX_MEMO_LENGTH) "Memo exceeds maximum length".

Definition validate_signer_set (signers : list Address) (required_confirmations : Z) : C () :=
  panic_if (bool_decide (signers = [])) "At least one signer required";;
  panic_if (Z.of_nat (length signers) >? MAX_SIGNERS) "Too many signers";;
  panic_if ((required_confirmations =? 0) || (required_confirmations >? Z.of_nat (length signers)))
    "Invalid confirmation requirement";;
  foldM (λ seen signer,
    panic_if (vec_contains_address seen signer) "Duplicate signer";;
    mret (seen ++ [signer])) [] signers;;
  mret tt.

Definition enter_non_reentrant : C () :=
  locked ← gets (λ s, default false (ReentrancyLock s));
  panic_if locked "Reentrant call blocked";;
  modify (λ s, {| s with ReentrancyLock := Some true |}).
Definition exit_non_reentrant : C () := modify (λ s, {| s with ReentrancyLock := Some false |}).

Definition transfer_token (token from to : Address) (amount : Z) : C () :=
  enter_non_reentrant;;
  token_transfer token from to amount;;
  exit_non_reentrant.

Definition append_history (tx_id : Z) : C () :=
  history ← history_ids;
  modify (λ s, {| s with ExecutionHistory := Some (history ++ [tx_id]) |}).

Definition apply_daily_limit (tx : WalletTransaction) : C () :=
  b ← is_whitelisted_inner (wt_recipient tx);
  if (b : bool) then mret tt
  else
    cfg ← config;
    t ← now;
    let day_index := t `div` DAY_SECONDS in
    spent ← gets (λ s, default 0 (DailySpent s !! (wt_token tx, day_index)));
    new_spent ← expect (checked_add I128 spent (wt_amount tx)) "Daily spent overflow";
    panic_if (new_spent >? wc_daily_limit cfg) "Daily spending limit exceeded";;
    modify (λ s, {| s with DailySpent := <[(wt_token tx, day_index) := new_spent]> (DailySpent s) |}).

(** ** Entry points *)

Definition initialize (admin : Address) (signers : list Address)
    (required_confirmations daily_limit : Z) : C () :=
  c ← gets Config;
  panic_if (bool_decide (is_Some c)) "Already initialized";;
  require_auth admin;;
  validate_daily_limit daily_limit;;
  validate_signer_set signers required_confirmations;;
  foldM (λ _ a, modify (λ s, {| s with Signer := <[a := true]> (Signer s) |})) tt signers;;
  modify (λ s, {| s with SignerList := Some signers |});;
  modify (λ s, {| s with ExecutionHistory := Some [] |});;
  modify (λ s, {| s with ReentrancyLock := Some false |});;
  set_config {|
    wc_admin := admin;
    wc_required_confirmations := required_confirmations;
    wc_signer_count := Z.of_nat (length signers);
    wc_daily_limit := daily_limit;
    wc_next_tx_id := 1;
    wc_next_nonce := 1;
    wc_next_executable_nonce := 1 |};;
  publish (msig_init admin required_confirmations (Z.of_nat (length signers))).

Definition deposit (from token : Address) (amount : Z) : C () :=
  require_auth from;;
  validate_amount amount;;
  wallet ← self_address;
  transfer_token token from wallet amount;;
  publish (msig_dep from token amount).

Definition submit_transaction (signer token recipient : Address) (amount : Z) (memo : string) : C Z :=
  require_auth signer;;
  assert_signer signer;;
  validate_amount amount;;
  validate_memo memo;;
  cfg ← config;
  let tx_id := wc_next_tx_id cfg in
  let nonce := wc_next_nonce cfg in
  next_tx_id ← expect (checked_add U64 (wc_next_tx_id cfg) 1) "Tx ID overflow";
  next_nonce ← expect (checked_add U64 (wc_next_nonce cfg) 1) "Nonce overflow";
  t ← now;
  modify (λ s, {| s with Transaction := <[tx_id := {|
    wt_tx_id := tx_id; wt_nonce := nonce; wt_token := token; wt_recipient := recipient;
    wt_amount := amount; wt_submitted_by := signer; wt_executed := false; wt_created_at := t;
    wt_executed_at := 0; wt_memo := memo |}]> (Transaction s) |});;
  modify (λ s, {| s with Confirmations := <[tx_id := [signer]]> (Confirmations s) |});;
  set_config {| cfg with wc_next_tx_id := next_tx_id; wc_next_nonce := next_nonce |};;
  publish (msig_sub tx_id nonce signer token recipient amount);;
  mret tx_id.

Definition confirm_transaction (signer : Address) (tx_id : Z) : C Z :=
  require_auth signer;;
  assert_signer signer;;
  tx ← load_transaction tx_id;
  panic_if (wt_executed tx) "Transaction already executed";;
  confs ← confirmations tx_id;
  panic_if (vec_contains_address confs signer) "Transaction already confirmed by signer";;
  modify (λ s, {| s with Confirmations := <[tx_id := confs ++ [signer]]> (Confirmations s) |});;
  count ← active_confirmation_count (confs ++ [signer]);
  publish (msig_con tx_id signer count);;
  mret count.

Definition revoke_confirmation (signer : Address) (tx_id : Z) : C Z :=
  require_auth signer;;
  assert_signer signer;;
  tx ← load_transaction tx_id;
  panic_if (wt_executed tx) "Transaction already executed";;
  confs ← confirmations tx_id;
  let '(confs', removed) := remove_address confs signer in
  panic_if (negb removed) "Signer has not confirmed transaction";;
  modify (λ s, {| s with Confirmations := <[tx_id := confs']> (Confirmations s) |});;
  count ← active_confirmation_count confs';
  publish (msig_rev tx_id signer count);;
  mret count.

Definition execute_transaction (signer : Address) (tx_id : Z) : C ExecutionReceipt :=
  require_auth signer;;
  assert_signer signer;;
  cfg ← config;
  tx ← load_transaction tx_id;
  panic_if (wt_executed tx) "Transaction already executed";;
  panic_if (negb (wt_nonce tx =? wc_next_executable_nonce cfg)) "Transaction nonce is not next";;
  confs ← confirmations tx_id;
  confirmation_count ← active_confirmation_count confs;
  panic_if (confirmation_count <? wc_required_confirmations cfg) "Insufficient confirmations";;
  apply_daily_limit tx;;
  t ← now;
  modify (λ s, {| s with Transaction :=
    <[tx_id := {| tx with wt_executed := true; wt_executed_at := t |}]> (Transaction s) |});;
  next ← expect (checked_add U64 (wc_next_executable_nonce cfg) 1) "Executable nonce overflow";
  set_config {| cfg with wc_next_executable_nonce := next |};;
  wallet ← self_address;
  transfer_token (wt_token tx) wallet (wt_recipient tx) (wt_amount tx);;
  append_history tx_id;;
  publish (msig_exe tx_id (wt_nonce tx) signer (wt_recipient tx) (wt_amount tx));;
  mret {| xr_tx_id := tx_id; xr_nonce := wt_nonce tx; xr_token := wt_token tx;
          xr_recipient := wt_recipient tx; xr_amount := wt_amount tx;
          xr_confirmation_count := confirmation_count; xr_executed_at := t |}.

Definition add_signer (admin new_signer : Address) : C () :=
  require_auth admin;;
  assert_admin admin;;
  b ← is_signer_inner new_signer;
  panic_if b "Address is already signer";;
  signers ← signer_list;
  panic_if (Z.of_nat (length signers) >=? MAX_SIGNERS) "Maximum signer count reached";;
  let signers' := signers ++ [new_signer] in
  modify (λ s, {| s with Signer := <[new_signer := true]> (Signer s) |});;
  modify (λ s, {| s with SignerList := Some signers' |});;
  cfg ← config;
  set_config {| cfg with wc_signer_count := Z.of_nat (length signers') |};;
  publish (msig_add admin new_signer).

Definition remove_signer (admin signer : Address) : C () :=
  require_auth admin;;
  assert_admin admin;;
  b ← is_signer_inner signer;
  panic_if (negb b) "Address is not signer";;
  signers ← signer_list;
  let '(signers', _) := remove_address signers signer in
  panic_if (bool_decide (signers' = [])) "Cannot remove last signer";;
  cfg ← config;
  panic_if (wc_required_confirmations cfg >? Z.of_nat (length signers'))
    "Required confirmations exceed signer count";;
  modify (λ s, {| s with Signer := <[signer := false]> (Signer s) |});;
  modify (λ s, {| s with SignerList := Some signers' |});;
  set_config {| cfg with wc_signer_count := Z.of_nat (length signers') |};;
  publish (msig_rem admin signer).

Definition change_requirement (admin : Address) (required_confirmations : Z) : C () :=
  require_auth admin;;
  assert_admin admin;;
  cfg ← config;
  panic_if ((required_confirmations =? 0) || (required_confirmations >? wc_signer_count cfg))
    "Invalid confirmation requirement";;
  set_config {| cfg with wc_required_confirmations := required_confirmations |};;
  publish (msig_req admin required_confirmations).

Definition set_daily_limit (admin : Address) (daily_limit : Z) : C () :=
  require_auth admin;;
  assert_admin admin;;
  validate_daily_limit daily_limit;;
  cfg ← config;
  set_config {| cfg with wc_daily_limit := daily_limit |};;
  publish (msig_lim admin daily_limit).

Definition set_whitelist (admin recipient : Address) (allowed : bool) : C () :=
  require_auth admin;;
  assert_admin admin;;
  modify (λ s, {| s with Whitelist := <[recipient := allowed]> (Whitelist s) |});;
  publish (msig_wht admin recipient allowed).

(** ** Views *)

Definition confirmation_count (tx_id : Z) : C Z :=
  confs ← confirmations tx_id;
  active_confirmation_count confs.

Definition get_transaction_history (limit : Z) : C (list WalletTransaction) :=
  panic_if (limit >? MAX_HISTORY_LIMIT) "History limit too large";;
  history_ids ← history_ids;
  let len := Z.of_nat (length history_ids) in
  let start := if len >? limit then len - limit else 0 in
  foldM (λ history tx_id,
    tx ← load_transaction tx_id;
    mret (history ++ [tx])) [] (drop (Z.to_nat start) history_ids).

Definition daily_spent (token : Address) (day_index : Z) : C Z :=
  gets (λ s, default 0 (DailySpent s !! (token, day_index))).

End contract.

(** ** Entry points as calls *)

Inductive Call :=
| CInitialize (admin : Address) (signers : list Address) (required limit : Z)
| CDeposit (from token : Address) (amount : Z)
| CSubmit (signer token recipient : Address) (amount : Z) (memo : string)
| CConfirm (signer : Address) (tx_id : Z)
| CRevoke (signer : Address) (tx_id : Z)
| CExecute (signer : Address) (tx_id : Z)
| CAddSigner (admin signer : Address)
| CRemoveSigner (admin signer : Address)
| CChangeRequirement (admin : Address) (required : Z)
| CSetDailyLimit (admin : Address) (limit : Z)
| CSetWhitelist (admin recipient : Address) (allowed : bool).

Definition exec `{TokenHost} (c : Call) : M State Empty_set Event () :=
  match c with
  | CInitialize a s r l => initialize a s r l
  | CDeposit f t n => deposit f t n
  | CSubmit s t r n m => discard (submit_transaction s t r n m)
  | CConfirm s i => discard (confirm_transaction s i)
  | CRevoke s i => discard (revoke_confirmation s i)
  | CExecute s i => discard (execute_transaction s i)
  | CAddSigner a s => add_signer a s
  | CRemoveSigner a s => remove_signer a s
  | CChangeRequirement a r => change_requirement a r
  | CSetDailyLimit a l => set_daily_limit a l
  | CSetWhitelist a r b => set_whitelist a r b
  end.

(** The unsigned arguments of a call are non-negative, by their Rust types. *)
Definition call_ok (c : Call) : Prop :=
  match c with
  | CInitialize _ _ r _ | CChangeRequirement _ r => 0 ≤ r
  | _ => True
  end.

Definition deployed : State := mkState None ∅ None ∅ ∅ ∅ None ∅ None.
