(* ===== verification/MultiSigProofs.v ===== *)
(** * contracts/multisig-wallet: invariant and theorems

    Signer set and threshold, strictly ordered execution, the confirmations
    behind each execution, the daily limit, and that the wallet's tokens
    leave it only through executed transactions. *)

From stdpp Require Import gmap strings list fin_maps.
From S2P Require Import Prelude Soroban TokenModel MultiSigWallet.
Open Scope Z_scope.

(** ** Vectors *)

Lemma vec_contains_spec l a : vec_contains_address l a = bool_decide (a ∈ l).
Proof.
  unfold vec_contains_address. induction l as [|x l IH]; simpl; [done|]. rewrite IH.
  apply eq_bool_prop_intro. rewrite orb_True, !bool_decide_spec. set_solver.
Qed.

Lemma remove_address_spec l a : remove_address l a = (remove_first a l, bool_decide (a ∈ l)).
Proof.
  induction l as [|x l IH]; [done|]. cbn [remove_address remove_first].
  destruct (decide (x = a)) as [->|Hne].
  - rewrite (bool_decide_eq_true_2 (a = a)), (bool_decide_eq_true_2 (a ∈ a :: l)) by set_solver. done.
  - rewrite (bool_decide_eq_false_2 (x = a)), IH by done. f_equal. apply bool_decide_ext. set_solver.
Qed.

(** ** The invariant *)

(** The confirmations that count: those of current signers. *)
Definition active (st : State) (confs : list Address) : list Address :=
  filter (λ a, Signer st !! a = Some true) confs.

Record cfg_ok (cfg : WalletConfig) (signers : list Address) (flags : gmap Address bool) : Prop := {
  co_nodup : NoDup signers;
  co_signer a : flags !! a = Some true ↔ a ∈ signers;
  co_count : wc_signer_count cfg = Z.of_nat (length signers);
  co_required : 1 ≤ wc_required_confirmations cfg ≤ wc_signer_count cfg;
  co_max : wc_signer_count cfg ≤ MAX_SIGNERS;
  co_limit : 0 < wc_daily_limit cfg;
  co_nonce : wc_next_nonce cfg = wc_next_tx_id cfg;
  co_order : 1 ≤ wc_next_executable_nonce cfg ≤ wc_next_tx_id cfg;
}.

Record tx_ok (cfg : WalletConfig) (confs : gmap Z (list Address)) (i : Z) (tx : WalletTransaction)
    : Prop := {
  to_id : wt_tx_id tx = i;
  to_nonce : wt_nonce tx = i;
  to_amount : 0 < wt_amount tx;
  to_executed : wt_executed tx = bool_decide (i < wc_next_executable_nonce cfg);
  to_confirmations : NoDup (default [] (confs !! i));
}.

Record wallet_inv (st : State) : Prop := {
  inv_cfg : ∃ cfg signers, Config st = Some cfg ∧ SignerList st = Some signers ∧
    cfg_ok cfg signers (Signer st) ∧
    (∀ i, is_Some (Transaction st !! i) ↔ 1 ≤ i < wc_next_tx_id cfg) ∧
    (∀ i tx, Transaction st !! i = Some tx → tx_ok cfg (Confirmations st) i tx) ∧
    ExecutionHistory st = Some (seqZ 1 (wc_next_executable_nonce cfg - 1));
  inv_lock : ReentrancyLock st = Some false;
}.

(** What the executed transactions have paid out in a token. *)
Definition paid_out (st : State) (tk : Address) : Z :=
  msum (λ _ tx, if wt_executed tx && bool_decide (wt_token tx = tk) then wt_amount tx else 0)
    (Transaction st).

(** ... and in a token on a given day. *)
Definition paid_on (st : State) (tk : Address) (day : Z) : Z :=
  msum (λ _ tx, if wt_executed tx && bool_decide (wt_token tx = tk)
                   && (wt_executed_at tx `div` DAY_SECONDS =? day) then wt_amount tx else 0)
    (Transaction st).

Section specs.
Context `{TokenHost}.
Implicit Types (w : World State Event) (e : Env).

Lemma wallet_config_spec e w cfg w' : config e w = Ok (cfg, w') → Config (store w) = Some cfg ∧ w' = w.
Proof. intros Hr. by minv Hr using config. Qed.

Lemma wallet_set_config_spec cfg e w u w' :
  set_config cfg e w = Ok (u, w') → w' = {| w with store := {| (store w) with Config := Some cfg |} |}.
Proof. intros Hr. by minv Hr using set_config. Qed.

Lemma load_transaction_spec i e w tx w' :
  load_transaction i e w = Ok (tx, w') → Transaction (store w) !! i = Some tx ∧ w' = w.
Proof. intros Hr. by minv Hr using load_transaction. Qed.

Lemma confirmations_spec i e w cs w' :
  confirmations i e w = Ok (cs, w') → cs = default [] (Confirmations (store w) !! i) ∧ w' = w.
Proof. intros Hr. minv Hr using confirmations. spec load_transaction_spec as [_ ->]. done. Qed.

Lemma wallet_assert_admin_spec a e w u w' :
  assert_admin a e w = Ok (u, w') → (∃ cfg, Config (store w) = Some cfg ∧ wc_admin cfg = a) ∧ w' = w.
Proof.
  intros Hr. unfold assert_admin in Hr. minv Hr. spec wallet_config_spec as [Hc ->]. zbool. subst. eauto.
Qed.

Lemma assert_signer_spec a e w u w' :
  assert_signer a e w = Ok (u, w') → Signer (store w) !! a = Some true ∧ w' = w.
Proof.
  intros Hr. unfold assert_signer, is_signer_inner in Hr. minv Hr. zbool.
  by destruct (Signer (store w) !! a) as [[]|].
Qed.

Lemma active_count_spec cs e w n w' :
  active_confirmation_count cs e w = Ok (n, w') →
  n = Z.of_nat (length (active (store w) cs)) ∧ w' = w.
Proof.
  unfold active_confirmation_count.
  enough (∀ k, foldM (λ count signer,
      b ← is_signer_inner signer;
      if (b : bool) then expect (checked_add U32 count 1) "Confirmation count overflow"
      else mret count) k cs e w = Ok (n, w') →
    n = k + Z.of_nat (length (active (store w) cs)) ∧ w' = w) as Hgen
    by (intros [-> ->]%Hgen; split; [lia|done]).
  induction cs as [|c cs IH]; intros k Hr; cbn [foldM] in Hr.
  - minv Hr. split; [simpl; lia|done].
  - apply bind_Ok in Hr as (k1 & w1 & Hone & Hr). unfold is_signer_inner in Hone.
    unfold active. rewrite filter_cons. minv Hone; apply IH in Hr as [-> ->]; arith.
    all: destruct (Signer (store w) !! c) as [[]|] eqn:Hs; simpl in *; try done.
    all: split; [|done]; unfold active; lia.
Qed.

Lemma wallet_transfer_token_spec tk from to n e w u w' :
  transfer_token tk from to n e w = Ok (u, w') →
  default false (ReentrancyLock (store w)) = false ∧
  ∃ l', tok_transfer e (ledger w) tk from to n = Some l' ∧
        w' = mkWorld {| (store w) with ReentrancyLock := Some false |} l' (log w).
Proof.
  intros Hr. unfold transfer_token, enter_non_reentrant, exit_non_reentrant in Hr.
  minv Hr. eauto 10.
Qed.

(** The daily-limit check: what it adds to the day's spending. *)
Definition spent_after (st : State) (tx : WalletTransaction) (t : Z) : gmap (Address * Z) Z :=
  let key := (wt_token tx, t `div` DAY_SECONDS) in
  if default false (Whitelist st !! wt_recipient tx) then DailySpent st
  else <[key := default 0 (DailySpent st !! key) + wt_amount tx]> (DailySpent st).

Lemma apply_daily_limit_spec tx e w u w' :
  apply_daily_limit tx e w = Ok (u, w') →
  (default false (Whitelist (store w) !! wt_recipient tx) = false →
     ∃ cfg, Config (store w) = Some cfg ∧
       default 0 (DailySpent (store w) !! (wt_token tx, timestamp e `div` DAY_SECONDS)) + wt_amount tx
         ≤ wc_daily_limit cfg) ∧
  w' = {| w with store := {| (store w) with DailySpent := spent_after (store w) tx (timestamp e) |} |}.
Proof.
  intros Hr. unfold apply_daily_limit, is_whitelisted_inner in Hr. unfold spent_after. minv Hr.
  - split; [done|]. by destruct w as [[] ? ?].
  - spec wallet_config_spec as [Hcfg ->]. arith. eauto.
Qed.

(** The storage after the execution of [tx] at time [t]. *)
Definition executed (st : State) (cfg : WalletConfig) (i : Z) (tx : WalletTransaction) (t : Z) : State :=
  {| st with
     DailySpent := spent_after st tx t;
     Transaction := <[i := {| tx with wt_executed := true; wt_executed_at := t |}]> (Transaction st);
     Config := Some {| cfg with wc_next_executable_nonce := wc_next_executable_nonce cfg + 1 |};
     ReentrancyLock := Some false;
     ExecutionHistory := Some (default [] (ExecutionHistory st) ++ [i]) |}.

Lemma wallet_execute_spec s i e w r w' :
  execute_transaction s i e w = Ok (r, w') →
  ∃ cfg tx, Config (store w) = Some cfg ∧ Transaction (store w) !! i = Some tx ∧
    authorized e s = true ∧ Signer (store w) !! s = Some true ∧ wt_executed tx = false ∧
    wt_nonce tx = wc_next_executable_nonce cfg ∧
    wc_required_confirmations cfg
      ≤ Z.of_nat (length (active (store w) (default [] (Confirmations (store w) !! i)))) ∧
    (default false (Whitelist (store w) !! wt_recipient tx) = false →
       default 0 (DailySpent (store w) !! (wt_token tx, timestamp e `div` DAY_SECONDS)) + wt_amount tx
         ≤ wc_daily_limit cfg) ∧
    tok_transfer e (ledger w) (wt_token tx) (current_contract_address e) (wt_recipient tx)
      (wt_amount tx) = Some (ledger w') ∧
    store w' = executed (store w) cfg i tx (timestamp e) ∧
    r = mkExecutionReceipt i (wt_nonce tx) (wt_token tx) (wt_recipient tx) (wt_amount tx)
          (Z.of_nat (length (active (store w) (default [] (Confirmations (store w) !! i)))))
          (timestamp e).
Proof.
  intros Hr. unfold execute_transaction, append_history, history_ids in Hr. minv Hr.
  spec assert_signer_spec as [Hs ->]. spec wallet_config_spec as [Hcfg ->].
  spec load_transaction_spec as [Htx ->]. spec confirmations_spec as [-> ->].
  spec active_count_spec as [-> ->]. spec apply_daily_limit_spec as [Hlim ->].
  spec wallet_set_config_spec as ->. spec wallet_transfer_token_spec as (_ & l' & Ht & ->). arith. simpl in *.
  exists a, a0. split_and!; try done.
  intros Hw. destruct (Hlim Hw) as (cfg & Hc & Hle). by simplify_eq.
Qed.
End specs.

(** ** Preservation *)

Section invariant.
Context `{Laws : TokenLaws}.
Implicit Types (w : World State Event) (e : Env) (st : State).

(** Changing the signer set, the threshold or the limit. *)
Lemma wallet_inv_set_cfg st st' cfg cfg' signers' :
  wallet_inv st → Config st = Some cfg → Config st' = Some cfg' → SignerList st' = Some signers' →
  cfg_ok cfg' signers' (Signer st') →
  wc_next_tx_id cfg' = wc_next_tx_id cfg →
  wc_next_executable_nonce cfg' = wc_next_executable_nonce cfg →
  Transaction st' = Transaction st → Confirmations st' = Confirmations st →
  ExecutionHistory st' = ExecutionHistory st → ReentrancyLock st' = ReentrancyLock st →
  wallet_inv st'.
Proof.
  intros [(cfg0 & ? & Hc & _ & _ & Hids & Htx & Hh) Hlk] Hcfg Hcfg' Hsl Hok Hn Hx Ht Hcf Hhist Hl.
  simplify_eq. split; [|by rewrite Hl]. exists cfg', signers'. rewrite Hn, Hx, Ht, Hhist.
  split_and!; try done. intros i tx Hi. destruct (Htx i tx Hi). split; rewrite ?Hx, ?Hcf; done.
Qed.

(** Replacing the confirmations of one transaction. *)
Lemma inv_set_confs st i cs :
  wallet_inv st → NoDup cs →
  wallet_inv {| st with Confirmations := <[i := cs]> (Confirmations st) |}.
Proof.
  intros [(cfg & signers & Hc & Hsl & Hok & Hids & Htx & Hh) Hlk] Hcs. split; [|done].
  exists cfg, signers. split_and!; try done. intros j tx Hj. destruct (Htx j tx Hj).
  split; try done. simpl. rewrite lookup_insert. by destruct (decide (i = j)).
Qed.

Lemma wallet_cfg_ok_same cfg cfg' signers flags :
  cfg_ok cfg signers flags → wc_signer_count cfg' = wc_signer_count cfg →
  1 ≤ wc_required_confirmations cfg' ≤ wc_signer_count cfg → 0 < wc_daily_limit cfg' →
  wc_next_nonce cfg' = wc_next_nonce cfg → wc_next_tx_id cfg' = wc_next_tx_id cfg →
  wc_next_executable_nonce cfg' = wc_next_executable_nonce cfg → cfg_ok cfg' signers flags.
Proof. intros [] Hc Hr Hl Hn Ht Hx. split; rewrite ?Hc, ?Hn, ?Ht, ?Hx; done. Qed.

Lemma confs_nodup st i : wallet_inv st → is_Some (Transaction st !! i) →
  NoDup (default [] (Confirmations st !! i)).
Proof.
  intros [(cfg & ? & _ & _ & _ & _ & Htx & _) _] [tx Hi]. by destruct (Htx i tx Hi).
Qed.

Lemma wallet_deposit_inv f tk n e w w' :
  wallet_inv (store w) → deposit f tk n e w = Ok (tt, w') → wallet_inv (store w').
Proof.
  intros Hinv Hr. unfold deposit, validate_amount in Hr. minv Hr.
  spec wallet_transfer_token_spec as (_ & l' & _ & ->). simpl. destruct Hinv as [Hc Hlk]. by split.
Qed.

Lemma wallet_submit_inv s tk rcp n m e w i w' :
  wallet_inv (store w) → submit_transaction s tk rcp n m e w = Ok (i, w') → wallet_inv (store w').
Proof.
  intros [(cfg & signers & Hc & Hsl & Hok & Hids & Htx & Hh) Hlk] Hr.
  unfold submit_transaction, validate_amount, validate_memo in Hr. minv Hr.
  spec assert_signer_spec as [_ ->]. spec wallet_config_spec as [Hcfg ->].
  spec wallet_set_config_spec as ->. arith. simpl. split; [|done]. do 2 eexists. split_and!; [done..| | | |done].
  - destruct Hok. split; simpl; try done; lia.
  - intros j. simpl. rewrite lookup_insert_is_Some', Hids. destruct Hok. lia.
  - intros j x Hx. simpl in *. destruct Hok. apply lookup_insert_Some in Hx as [[<- <-]|[Hne Hx]].
    + split; simpl; try done; try lia.
      * rewrite bool_decide_eq_false_2; [done|lia].
      * rewrite lookup_insert_eq. apply NoDup_singleton.
    + destruct (Htx j x Hx). split; simpl; try done. by rewrite lookup_insert_ne.
Qed.

Lemma confirm_inv s i e w n w' :
  wallet_inv (store w) → confirm_transaction s i e w = Ok (n, w') → wallet_inv (store w').
Proof.
  intros Hinv Hr. unfold confirm_transaction in Hr. minv Hr.
  spec assert_signer_spec as [_ ->]. spec load_transaction_spec as [Htx ->].
  spec confirmations_spec as [-> ->]. spec active_count_spec as [_ ->]. simpl.
  rewrite vec_contains_spec in *. zbool. apply inv_set_confs; [done|].
  apply NoDup_snoc; [|done]. apply confs_nodup; eauto.
Qed.

Lemma revoke_inv s i e w n w' :
  wallet_inv (store w) → revoke_confirmation s i e w = Ok (n, w') → wallet_inv (store w').
Proof.
  intros Hinv Hr. unfold revoke_confirmation in Hr. minv Hr.
  spec assert_signer_spec as [_ ->]. spec load_transaction_spec as [Htx ->].
  spec confirmations_spec as [-> ->]. rewrite remove_address_spec in *. simplify_eq.
  spec active_count_spec as [_ ->]. simpl. apply inv_set_confs; [done|].
  apply NoDup_remove_first, confs_nodup; eauto.
Qed.

Lemma wallet_execute_inv s i e w r w' :
  wallet_inv (store w) → execute_transaction s i e w = Ok (r, w') → wallet_inv (store w').
Proof.
  intros [(cfg & signers & Hc & Hsl & Hok & Hids & Htx & Hh) Hlk] Hr.
  apply wallet_execute_spec in Hr as (cfg' & tx & Hc' & Hi & _ & _ & He & Hn & _ & _ & _ & -> & _).
  simplify_eq. destruct (Htx _ _ Hi). assert (i = wc_next_executable_nonce cfg) as -> by congruence.
  assert (1 ≤ wc_next_executable_nonce cfg < wc_next_tx_id cfg) as Hb by (apply Hids; eauto).
  unfold executed. split; [|done]. do 2 eexists. split_and!; [done|done| | | |]; simpl.
  - destruct Hok. split; simpl; try done; lia.
  - intros j. rewrite lookup_insert_is_Some', Hids. lia.
  - intros j x [[<- <-]|[Hne Hx]]%lookup_insert_Some.
    + split; simpl; try done. rewrite bool_decide_eq_true_2; [done|lia].
    + destruct (Htx j x Hx). split; simpl; try done. rewrite to_executed1. apply bool_decide_ext. lia.
  - rewrite Hh. simpl. f_equal.
    replace (wc_next_executable_nonce cfg + 1 - 1) with (wc_next_executable_nonce cfg - 1 + 1) by lia.
    rewrite seqZ_app by lia. f_equal. unfold seqZ; simpl. f_equal. lia.
Qed.

Ltac admin_call Hr :=
  minv Hr; spec wallet_assert_admin_spec as [_ ->]; spec wallet_config_spec as [? ->]; spec wallet_set_config_spec as ->;
  arith; simpl in *.

Lemma wallet_add_signer_inv a s e w w' :
  wallet_inv (store w) → add_signer a s e w = Ok (tt, w') → wallet_inv (store w').
Proof.
  intros Hinv Hr. unfold add_signer, is_signer_inner, signer_list in Hr. admin_call Hr.
  pose proof Hinv as [(cfg & signers & Hc & Hsl & Hok & _) _]. rewrite Hsl in *. simpl in *. simplify_eq.
  eapply wallet_inv_set_cfg; try done; simpl; try done. destruct Hok. split; simpl; try done.
  - apply NoDup_snoc; [done|]. intros Hin%co_signer0. by rewrite Hin in *.
  - intros x. rewrite lookup_insert, elem_of_app, list_elem_of_singleton, <- co_signer0.
    case_decide; naive_solver.
  - rewrite length_app; simpl. lia.
  - rewrite length_app; simpl. lia.
Qed.

Lemma wallet_remove_signer_inv a s e w w' :
  wallet_inv (store w) → remove_signer a s e w = Ok (tt, w') → wallet_inv (store w').
Proof.
  intros Hinv Hr. unfold remove_signer, is_signer_inner, signer_list in Hr. admin_call Hr.
  pose proof Hinv as [(cfg & signers & Hc & Hsl & Hok & _) _]. rewrite Hsl in *. simpl in *.
  rewrite remove_address_spec in *. simplify_eq.
  eapply wallet_inv_set_cfg; try done; simpl; try done. destruct Hok.
  assert (s ∈ signers) as Hin by (apply co_signer0; by destruct (Signer (store w) !! s) as [[]|]).
  pose proof (length_remove_first _ _ Hin). split; simpl; try done; try lia.
  - auto with contracts.
  - intros x. rewrite lookup_insert, elem_of_remove_first_NoDup, <- co_signer0 by done.
    case_decide; naive_solver.
Qed.

Lemma change_requirement_inv a r e w w' :
  0 ≤ r → wallet_inv (store w) → change_requirement a r e w = Ok (tt, w') → wallet_inv (store w').
Proof.
  intros Hr0 Hinv Hr. unfold change_requirement in Hr. admin_call Hr.
  pose proof Hinv as [(cfg & signers & Hc & Hsl & Hok & _) _]. simplify_eq.
  eapply wallet_inv_set_cfg; try done; simpl; try done. pose proof Hok as [].
  eapply wallet_cfg_ok_same; eauto; simpl; lia.
Qed.

Lemma set_daily_limit_inv a n e w w' :
  wallet_inv (store w) → set_daily_limit a n e w = Ok (tt, w') → wallet_inv (store w').
Proof.
  intros Hinv Hr. unfold set_daily_limit, validate_daily_limit in Hr. admin_call Hr.
  pose proof Hinv as [(cfg & signers & Hc & Hsl & Hok & _) _]. simplify_eq.
  eapply wallet_inv_set_cfg; try done; simpl; try done. pose proof Hok as [].
  eapply wallet_cfg_ok_same; eauto; simpl; lia.
Qed.

Lemma set_whitelist_inv a x b e w w' :
  wallet_inv (store w) → set_whitelist a x b e w = Ok (tt, w') → wallet_inv (store w').
Proof.
  intros Hinv Hr. unfold set_whitelist in Hr. minv Hr. spec wallet_assert_admin_spec as [_ ->].
  pose proof Hinv as [(cfg & signers & Hc & Hsl & Hok & _) _].
  eapply wallet_inv_set_cfg; try done.
Qed.
(** *** Initialization *)

Lemma seen_loop signers seen e w r w' :
  NoDup seen →
  foldM (λ seen signer,
    panic_if (vec_contains_address seen signer) "Duplicate signer";;
    mret (seen ++ [signer])) seen signers e w = (Ok (r, w') : Outcome Empty_set _) →
  NoDup (seen ++ signers) ∧ w' = w.
Proof.
  revert seen. induction signers as [|s signers IH]; intros seen Hnd Hr; cbn [foldM] in Hr.
  - minv Hr. by rewrite app_nil_r.
  - apply bind_Ok in Hr as (seen1 & w1 & Hone & Hr). minv Hone.
    rewrite vec_contains_spec in *. zbool. apply IH in Hr as [Hnd' ->]; [|auto with contracts].
    split; [|done]. by rewrite <- (assoc_L (++)) in Hnd'.
Qed.

Lemma wallet_signer_loop signers e w u w' :
  foldM (λ _ a, modify (λ s, {| s with Signer := <[a := true]> (Signer s) |})) tt signers e w
    = (Ok (u, w') : Outcome Empty_set _) →
  ∃ flags, w' = {| w with store := {| (store w) with Signer := flags |} |} ∧
    ∀ a, flags !! a = if bool_decide (a ∈ signers) then Some true else Signer (store w) !! a.
Proof.
  revert w. induction signers as [|s signers IH]; intros w Hr; cbn [foldM] in Hr.
  - minv Hr. exists (Signer (store w)). split; [by destruct w as [[] ? ?]|]. done.
  - apply bind_Ok in Hr as ([] & w1 & Hone & Hr). minv Hone. apply IH in Hr as (flags & -> & Hf).
    exists flags. split; [done|]. intros a. rewrite Hf. simpl. rewrite lookup_insert.
    destruct (decide (s = a)) as [->|Hne].
    + rewrite (bool_decide_eq_true_2 (a ∈ a :: signers)) by set_solver. by case_bool_decide.
    + by rewrite (bool_decide_ext (a ∈ s :: signers) (a ∈ signers)) by set_solver.
Qed.

Lemma wallet_initialize_spec a signers r limit e w w' :
  0 ≤ r → store w = deployed → initialize a signers r limit e w = Ok (tt, w') →
  wallet_inv (store w') ∧ Transaction (store w') = ∅ ∧ Whitelist (store w') = ∅ ∧
  DailySpent (store w') = ∅ ∧ ledger w' = ledger w ∧
  wc_daily_limit <$> Config (store w') = Some limit.
Proof.
  intros Hr0 Hst Hr. unfold initialize, validate_daily_limit, validate_signer_set in Hr. minv Hr.
  spec wallet_signer_loop as (flags & -> & Hf).
  match goal with H : foldM _ [] _ _ _ = Ok _ |- _ => apply seen_loop in H as [Hnd ->]; [|constructor] end.
  spec wallet_set_config_spec as ->. zbool. simpl in *. rewrite Hst in *. simpl in *.
  split_and!; try done. split; [|done]. do 2 eexists. split_and!; [done..| | | |done]; simpl.
  - split; simpl; try done; try lia.
    intros x. rewrite Hf. case_bool_decide; [done|]. rewrite lookup_empty. done.
  - intros i. rewrite lookup_empty. split; [by intros []|lia].
  - done.
Qed.

(** ** What a call can do *)

(** Every call but an execution leaves payments and the day's spending as
    they are and takes no token out of the wallet. *)
Lemma frame_effect self c e w w' :
  wf_env self e → wallet_inv (store w) → exec c e w = Ok (tt, w') →
  match c with CExecute _ _ => False | _ => True end →
  (∀ f : WalletTransaction → Z, (∀ tx, wt_executed tx = false → f tx = 0) →
     msum (λ _ tx, f tx) (Transaction (store w')) = msum (λ _ tx, f tx) (Transaction (store w))) ∧
  DailySpent (store w') = DailySpent (store w) ∧
  (∀ tk, tok_balance (ledger w) tk self ≤ tok_balance (ledger w') tk self) ∧
  (match c with CSetWhitelist _ _ _ => False | _ => True end →
     Whitelist (store w') = Whitelist (store w)) ∧
  (match c with CSetDailyLimit _ _ => False | _ => True end →
     wc_daily_limit <$> Config (store w') = wc_daily_limit <$> Config (store w)).
Proof.
  intros Hwf Hinv Hr Hc. destruct c; try done; simpl in Hr; try (apply discard_Ok in Hr as [? Hr]).
  - exfalso. unfold initialize in Hr. minv Hr. zbool.
    destruct (inv_cfg _ Hinv) as (cfg & ? & Hcfg & _). rewrite Hcfg in *. eauto.
  - unfold deposit, validate_amount in Hr. minv Hr.
    spec wallet_transfer_token_spec as (_ & l' & Ht & ->). simpl. zbool.
    rewrite (wf_self _ _ Hwf) in Ht. apply transfer_moved in Ht. split_and!; try done.
    intros tk. rewrite (moved_in _ _ _ _ _ _ tk Ht); [case_bool_decide; lia|].
    eauto with contracts.
  - unfold submit_transaction, validate_amount, validate_memo in Hr. minv Hr.
    spec assert_signer_spec as [_ ->]. spec wallet_config_spec as [Hcfg ->].
    spec wallet_set_config_spec as ->. simpl. split_and!; try done.
    + intros f Hf. rewrite msum_insert_fresh; [by rewrite Hf|]. apply eq_None_not_Some.
      destruct (inv_cfg _ Hinv) as (cfg & ? & Hcfg' & _ & _ & Hids & _). simplify_eq. rewrite Hids. lia.
    + intros _. by rewrite Hcfg.
  - unfold confirm_transaction in Hr. minv Hr.
    spec assert_signer_spec as [_ ->]. spec load_transaction_spec as [Htx ->].
    spec confirmations_spec as [-> ->]. spec active_count_spec as [_ ->]. done.
  - unfold revoke_confirmation in Hr. minv Hr.
    spec assert_signer_spec as [_ ->]. spec load_transaction_spec as [Htx ->].
    spec confirmations_spec as [-> ->]. spec active_count_spec as [_ ->]. done.
  - unfold add_signer, is_signer_inner, signer_list in Hr. admin_call Hr.
    split_and!; try done. intros _. by match goal with H : Config _ = Some _ |- _ => rewrite H end.
  - unfold remove_signer, is_signer_inner, signer_list in Hr. admin_call Hr.
    split_and!; try done. intros _. by match goal with H : Config _ = Some _ |- _ => rewrite H end.
  - unfold change_requirement in Hr. admin_call Hr.
    split_and!; try done. intros _. by match goal with H : Config _ = Some _ |- _ => rewrite H end.
  - unfold set_daily_limit, validate_daily_limit in Hr. admin_call Hr. done.
  - unfold set_whitelist in Hr. minv Hr. spec wallet_assert_admin_spec as [_ ->]. done.
Qed.

Lemma wallet_exec_inv c e w w' :
  call_ok c → wallet_inv (store w) → exec c e w = Ok (tt, w') → wallet_inv (store w').
Proof.
  intros Hok Hinv Hr. destruct c; simpl in Hok, Hr; try (apply discard_Ok in Hr as [? Hr]).
  - exfalso. unfold initialize in Hr. minv Hr. zbool.
    destruct (inv_cfg _ Hinv) as (cfg & ? & Hcfg & _). rewrite Hcfg in *. eauto.
  - by eapply wallet_deposit_inv.
  - by eapply wallet_submit_inv.
  - by eapply confirm_inv.
  - by eapply revoke_inv.
  - by eapply wallet_execute_inv.
  - by eapply wallet_add_signer_inv.
  - by eapply wallet_remove_signer_inv.
  - by eapply change_requirement_inv.
  - by eapply set_daily_limit_inv.
  - by eapply set_whitelist_inv.
Qed.

(** The payments after an execution. *)
Lemma executed_msum st cfg i tx t (f : WalletTransaction → Z) :
  Transaction st !! i = Some tx → f tx = 0 →
  msum (λ _ tx, f tx) (Transaction (executed st cfg i tx t)) =
  msum (λ _ tx, f tx) (Transaction st) + f {| tx with wt_executed := true; wt_executed_at := t |}.
Proof.
  intros Hi Hf. unfold executed; simpl. rewrite (msum_insert_update _ _ _ _ _ Hi), Hf. lia.
Qed.
End invariant.

Lemma execute_or_not c :
  (∃ s i, c = CExecute s i) ∨ match c with CExecute _ _ => False | _ => True end.
Proof. destruct c; eauto. Qed.

(** ** Reachable worlds *)

(** A successful [initialize] on a fresh wallet. *)
Definition started `{TokenHost} (self : Address) (e0 : Env) (limit : Z) (w1 : World State Event) : Prop :=
  ∃ w0 a signers r, wf_env self e0 ∧ store w0 = deployed ∧ 0 ≤ r ∧
    initialize a signers r limit e0 w0 = Ok (tt, w1).

Definition reachable `{TokenHost} (self : Address) (t : Z) (w : World State Event) : Prop :=
  ∃ e0 limit w1, started self e0 limit w1 ∧
    rtc (step exec call_ok self) (timestamp e0, w1) (t, w).

(** A history in which neither the limit nor the whitelist was touched. *)
Definition unchanged_limits (c : Call) : Prop :=
  call_ok c ∧ match c with CSetDailyLimit _ _ | CSetWhitelist _ _ _ => False | _ => True end.

Lemma wallet_reachable_inv `{TokenLaws} self t (w : World State Event) :
  reachable self t w → wallet_inv (store w).
Proof.
  intros (e0 & limit & w1 & (w0 & a & signers & r & Hwf & Hst & Hr & Hinit) & Hsteps).
  apply wallet_initialize_spec in Hinit as (Hinv & _); [|done..].
  apply (reach_inv exec call_ok self (λ _ st _, wallet_inv st)) in Hsteps; [done| |done|done].
  intros; by eapply wallet_exec_inv.
Qed.

(** ** Theorems *)

Section theorems.
Context `{Laws : TokenLaws}.
Implicit Types (w : World State Event) (e : Env).

(** The wallet's configuration is consistent in every reachable world
    (distinct signers, flags and list and count in agreement, a threshold
    between 1 and the number of signers, which is at most 20), transactions
    are numbered consecutively with nonce equal to id, and no confirmation is
    counted twice. *)
Theorem wallet_consistent self t w :
  reachable self t w →
  ∃ cfg signers, Config (store w) = Some cfg ∧ SignerList (store w) = Some signers ∧
    cfg_ok cfg signers (Signer (store w)) ∧
    (∀ i, is_Some (Transaction (store w) !! i) ↔ 1 ≤ i < wc_next_tx_id cfg) ∧
    (∀ i tx, Transaction (store w) !! i = Some tx → tx_ok cfg (Confirmations (store w)) i tx).
Proof.
  intros Hr. destruct (wallet_reachable_inv _ _ _ Hr) as [(cfg & signers & Hc & Hs & Hok & Hi & Ht & _) _].
  exists cfg, signers. by split_and!.
Qed.

(** C8: transactions execute strictly in nonce order: the execution history
    is 1, 2, ..., n without gap or repetition, and a transaction is executed
    only when every earlier one is.  One that cannot execute therefore
    blocks all later ones. *)
Theorem wallet_strict_order self t w :
  reachable self t w →
  ∃ n, 0 ≤ n ∧ ExecutionHistory (store w) = Some (seqZ 1 n) ∧
    (∀ i tx, Transaction (store w) !! i = Some tx → wt_executed tx = true ↔ i ≤ n) ∧
    (∀ i j tx, Transaction (store w) !! i = Some tx → wt_executed tx = true → 1 ≤ j ≤ i →
       ∃ tx', Transaction (store w) !! j = Some tx' ∧ wt_executed tx' = true).
Proof.
  intros Hr. destruct (wallet_reachable_inv _ _ _ Hr) as [(cfg & signers & Hc & Hs & [] & Hi & Ht & Hh) _].
  assert (∀ i tx, Transaction (store w) !! i = Some tx →
    wt_executed tx = true ↔ i ≤ wc_next_executable_nonce cfg - 1) as Hex.
  { intros i tx Htx. rewrite (to_executed _ _ _ _ (Ht i tx Htx)), bool_decide_eq_true. lia. }
  exists (wc_next_executable_nonce cfg - 1). split_and!; [lia|done|done|].
  intros i j tx Htx He Hj. apply (Hex _ _ Htx) in He.
  assert (1 ≤ i < wc_next_tx_id cfg) by (apply Hi; eauto).
  destruct (proj2 (Hi j)) as [tx' Htx']; [lia|]. exists tx'. split; [done|]. apply (Hex _ _ Htx'). lia.
Qed.

(** An execution is backed by at least the required number of distinct
    accounts that are signers now, is requested by a signer, is next in
    order, and pays exactly the amount submitted to the recipient submitted. *)
Theorem wallet_execute_confirmed self t s i e w r w' :
  wf_env self e → reachable self t w → execute_transaction s i e w = Ok (r, w') →
  ∃ cfg tx voters, Config (store w) = Some cfg ∧ Transaction (store w) !! i = Some tx ∧
    authorized e s = true ∧ Signer (store w) !! s = Some true ∧
    i = wc_next_executable_nonce cfg ∧ wt_executed tx = false ∧
    NoDup voters ∧ (∀ v, v ∈ voters ↔
      v ∈ default [] (Confirmations (store w) !! i) ∧ Signer (store w) !! v = Some true) ∧
    wc_required_confirmations cfg ≤ Z.of_nat (length voters) ∧
    xr_confirmation_count r = Z.of_nat (length voters) ∧
    moved (ledger w) (ledger w') (wt_token tx) self (wt_recipient tx) (wt_amount tx) ∧
    Transaction (store w') =
      <[i := {| tx with wt_executed := true; wt_executed_at := timestamp e |}]> (Transaction (store w)).
Proof.
  intros Hwf Hreach Hr. pose proof (wallet_reachable_inv _ _ _ Hreach) as Hinv.
  apply wallet_execute_spec in Hr as (cfg & tx & Hc & Hi & Hau & Hs & He & Hn & Hconf & _ & Ht & -> & ->).
  rewrite (wf_self _ _ Hwf) in Ht. apply transfer_moved in Ht.
  exists cfg, tx, (active (store w) (default [] (Confirmations (store w) !! i))).
  assert (NoDup (default [] (Confirmations (store w) !! i))) as Hnd by (apply confs_nodup; eauto).
  destruct Hinv as [(cfg' & ? & Hc' & _ & _ & _ & Htx & _) _]. destruct (Htx _ _ Hi).
  split_and!; try done; [congruence|by apply NoDup_filter|].
  intros v. unfold active. rewrite list_elem_of_filter. naive_solver.
Qed.

(** Tokens leave the wallet only through executed transactions: at any
    time its balance is at least what it held after initialization less the
    sum of the executed transactions in that token. *)
Theorem wallet_funds_safe self e0 limit w1 t w tk :
  started self e0 limit w1 → rtc (step exec call_ok self) (timestamp e0, w1) (t, w) →
  tok_balance (ledger w1) tk self - paid_out (store w) tk ≤ tok_balance (ledger w) tk self.
Proof.
  intros (w0 & a & signers & r & Hwf & Hst & Hr0 & Hinit) Hsteps.
  apply wallet_initialize_spec in Hinit as (Hinv & Htx & _); [|done..].
  apply (reach_inv exec call_ok self (λ _ st l, wallet_inv st ∧
    tok_balance (ledger w1) tk self - paid_out st tk ≤ tok_balance l tk self)) in Hsteps as [_ ?];
    [done|..].
  - intros t1 c e w2 w3 Hwf2 Ht Hok [Hinv2 Hb] Hr. split; [by eapply wallet_exec_inv|].
    destruct (execute_or_not c) as [(s & i & ->)|Hno].
    + simpl in Hr. apply discard_Ok in Hr as [x Hr].
      apply wallet_execute_spec in Hr as (cfg & tx & _ & Hi & _ & _ & He & _ & _ & _ & Ht3 & -> & _).
      unfold paid_out in *. rewrite executed_msum by (try done; by rewrite He). simpl.
      rewrite (wf_self _ _ Hwf2) in Ht3. pose proof (transfer_nonneg _ _ _ _ _ _ _ Ht3).
      apply transfer_moved in Ht3. pose proof (moved_out_ge _ _ _ _ _ _ tk Ht3 ltac:(done)).
      repeat case_bool_decide; simplify_eq; lia.
    + eapply frame_effect in Hr as (Hf & _ & Hbal & _); [|done..].
      unfold paid_out in *. rewrite Hf; [|by intros tx ->]. specialize (Hbal tk). lia.
  - intros t1 t2 st l l' _ Hl [Hinv2 Hb]. split; [done|]. specialize (Hl tk). lia.
  - split; [done|]. simpl. unfold paid_out. rewrite Htx, msum_empty. lia.
Qed.

(** As long as the admin changes neither the limit nor the whitelist, the
    transactions executed on any one day in any one token add up to at most
    the daily limit. *)
Theorem wallet_daily_limit self e0 limit w1 t w tk day :
  started self e0 limit w1 → rtc (step exec unchanged_limits self) (timestamp e0, w1) (t, w) →
  paid_on (store w) tk day ≤ limit.
Proof.
  intros (w0 & a & signers & r & Hwf & Hst & Hr0 & Hinit) Hsteps.
  apply wallet_initialize_spec in Hinit as (Hinv & Htx & Hwl & Hds & _ & Hlim); [|done..].
  set (P := λ st : State, wallet_inv st ∧ Whitelist st = ∅ ∧
    wc_daily_limit <$> Config st = Some limit ∧
    ∀ tk day, default 0 (DailySpent st !! (tk, day)) = paid_on st tk day ∧ paid_on st tk day ≤ limit).
  apply (reach_inv exec unchanged_limits self (λ _ st _, P st)) in Hsteps as (_ & _ & _ & Hp).
  - by apply Hp.
  - intros t1 c e w2 w3 Hwf2 Ht [Hok Hno] (Hinv2 & Hw2 & Hl2 & Hd2) Hr. split; [by eapply wallet_exec_inv|].
    destruct (execute_or_not c) as [(s & i & ->)|Hne].
    + simpl in Hr. apply discard_Ok in Hr as [x Hr].
      apply wallet_execute_spec in Hr as (cfg & tx & Hc & Hi & _ & _ & He & _ & _ & Hle & _ & -> & _).
      rewrite Hc in Hl2. simplify_eq/=. split_and!; try done. rewrite Hw2, lookup_empty in Hle. specialize (Hle eq_refl).
      intros tk' day'. unfold paid_on. rewrite executed_msum by (try done; by rewrite He). simpl.
      unfold spent_after. rewrite Hw2, lookup_empty. cbn [default].
      rewrite lookup_insert.
      pose proof (Hd2 tk' day') as [Hs1 Hs2]. unfold paid_on in *.
      case_decide as Hd; simplify_eq; simpl.
      * rewrite bool_decide_eq_true_2, Z.eqb_refl by done. simpl. lia.
      * destruct (bool_decide (wt_token tx = tk') && (timestamp e `div` DAY_SECONDS =? day')) eqn:E;
          [zbool; naive_solver|]. lia.
    + eapply frame_effect in Hr as (Hf & Hsp & _ & Hwl' & Hl'); [|done..].
      rewrite Hwl', Hl' by (by destruct c). split_and!; try done.
      intros tk' day'. rewrite Hsp. unfold paid_on. rewrite Hf; [apply Hd2|]. by intros tx ->.
  - intros t1 t2 st l l' _ _ HP. exact HP.
  - split_and!; try done. intros tk' day'. simpl. unfold paid_on. rewrite Hds, Htx, msum_empty.
    rewrite lookup_empty. destruct (inv_cfg _ Hinv) as (cfg & ? & Hc & _ & [] & _).
    rewrite Hc in Hlim. simplify_eq/=. split; [done|lia].
Qed.
End theorems.

(** ** Concrete runs

    A 2-of-3 wallet with a daily limit of 500: two payments submitted and
    confirmed, the first executed. *)

Module WalletDemo.

Definition self := mkAddress "WAL".
Definition adm := mkAddress "ADM".
Definition s1 := mkAddress "S1".
Definition s2 := mkAddress "S2".
Definition s3 := mkAddress "S3".
Definition bob := mkAddress "BOB".
Definition tok := mkAddress "TOK".

Definition e0 := env_at 0 self [adm].
Definition w0 : World State Event := mkWorld deployed (sl_of [(tok, self, 900)]) [].
Definition w1 := world_of (initialize adm [s1; s2; s3] 2 500 e0 w0) w0.

Definition setup : list (Z * list Address * Call) :=
  [ (1, [s1], CSubmit s1 tok bob 200 "rent");
    (2, [s2], CSubmit s2 tok bob 300 "power");
    (3, [s3], CConfirm s3 1);
    (4, [s1], CConfirm s1 2) ].
Definition w2 := run_script exec self setup w1.
Definition e9 := env_at 9 self [s2].
Definition pay : list (Z * list Address * Call) := [(9, [s2], CExecute s2 1)].
Definition w3 := run_script exec self pay w2.

Lemma wallet_w1_started : started self e0 500 w1.
Proof.
  exists w0, adm, [s1; s2; s3], 2. split; [by apply env_at_wf|]. split; [reflexivity|].
  split; [discriminate|]. apply run_ok_unit. vm_compute. reflexivity.
Qed.

Lemma wallet_w2_steps : rtc (step exec unchanged_limits self) (timestamp e0, w1) (4, w2).
Proof.
  unfold w2. apply (run_script_reach exec _ self 0 setup w1); [vm_compute; reflexivity|].
  repeat constructor.
Qed.

Lemma wallet_w3_steps : rtc (step exec unchanged_limits self) (timestamp e0, w1) (9, w3).
Proof.
  etrans; [exact wallet_w2_steps|]. unfold w3.
  apply (run_script_reach exec _ self 4 pay w2); [vm_compute; reflexivity|]. repeat constructor.
Qed.

Lemma unchanged_call_ok c1 c2 :
  rtc (step exec unchanged_limits self) c1 c2 → rtc (step exec call_ok self) c1 c2.
Proof.
  apply rtc_subrel. intros x y Hxy. destruct Hxy as [t c e w w' Hwf Ht [Hok _] Hx|t t' w l' Ht Hl].
  - by eapply step_call.
  - by eapply step_other.
Qed.

Lemma wallet_w2_reachable : reachable self 4 w2.
Proof. exists e0, 500, w1. split; [exact wallet_w1_started|]. apply unchanged_call_ok, wallet_w2_steps. Qed.
Lemma wallet_w3_reachable : reachable self 9 w3.
Proof. exists e0, 500, w1. split; [exact wallet_w1_started|]. apply unchanged_call_ok, wallet_w3_steps. Qed.

Lemma wallet_consistent_witness :
  ∃ cfg signers, Config (store w2) = Some cfg ∧ SignerList (store w2) = Some signers ∧
    cfg_ok cfg signers (Signer (store w2)).
Proof.
  destruct (wallet_consistent self 4 w2 wallet_w2_reachable) as (cfg & signers & Hc & Hs & Hok & _).
  exists cfg, signers. split; [exact Hc|]. split; [exact Hs|exact Hok].
Defined.

(** Only the first of the two confirmed payments is executed. *)
Lemma wallet_strict_order_witness :
  ∃ n, ExecutionHistory (store w3) = Some (seqZ 1 n) ∧ n = 1.
Proof.
  destruct (wallet_strict_order self 9 w3 wallet_w3_reachable) as (n & Hn & Hh & _).
  exists n. split; [exact Hh|].
  assert (length <$> ExecutionHistory (store w3) = Some 1%nat) as Hl by (vm_compute; reflexivity).
  rewrite Hh in Hl. simpl in Hl. injection Hl as Hl. rewrite length_seqZ in Hl. lia.
Defined.

Definition run1 := execute_transaction s2 1 e9 w2.

Lemma wallet_execute_confirmed_witness :
  ∃ r w', execute_transaction s2 1 e9 w2 = Ok (r, w') ∧ xr_confirmation_count r = 2 ∧
    ∃ cfg, Config (store w2) = Some cfg ∧ 1 = wc_next_executable_nonce cfg.
Proof.
  set (d := mkExecutionReceipt 0 0 tok bob 0 0 0).
  exists (value_of run1 d), (world_of run1 w0).
  assert (execute_transaction s2 1 e9 w2 = Ok (value_of run1 d, world_of run1 w0)) as Hx
    by (apply (run_ok (execute_transaction s2 1 e9 w2)); vm_compute; reflexivity).
  split; [exact Hx|]. split; [vm_compute; reflexivity|].
  destruct (wallet_execute_confirmed self 4 s2 1 e9 w2 _ _ (env_at_wf self 9 [s2] eq_refl)
    wallet_w2_reachable Hx) as (cfg & tx & voters & Hc & _ & _ & _ & Hi & _).
  exists cfg. split; [exact Hc|exact Hi].
Defined.

Lemma wallet_funds_safe_witness :
  paid_out (store w3) tok = 200 ∧
  tok_balance (ledger w1) tok self - paid_out (store w3) tok ≤ tok_balance (ledger w3) tok self.
Proof.
  split; [vm_compute; reflexivity|].
  apply (wallet_funds_safe self e0 500 w1 9 w3 tok wallet_w1_started (unchanged_call_ok _ _ wallet_w3_steps)).
Defined.

Lemma wallet_daily_limit_witness : paid_on (store w3) tok 0 = 200 ∧ paid_on (store w3) tok 0 ≤ 500.
Proof.
  split; [vm_compute; reflexivity|].
  apply (wallet_daily_limit self e0 500 w1 9 w3 tok 0 wallet_w1_started wallet_w3_steps).
Defined.
End WalletDemo.
