(* ===== verification/Amm.v ===== *)
(** * contracts/amm: constant-product pools, routing and risk limits

    State and operations of the [Amm] contract (src/contracts/amm/src/lib.rs,
    storage.rs, types.rs) and the admin check of src/lib/src/rbac.rs it calls;
    its arithmetic is in [AmmMath]. *)

From stdpp Require Import gmap strings list fin_maps pretty.
From S2P Require Import Prelude Soroban AmmMath.
Open Scope Z_scope.

(** ** Data *)

Definition BPS_DENOMINATOR : Z := 10000.
Definition MAX_FEE_BPS : Z := 1000.
Definition MAX_PROTOCOL_FEE_SHARE_BPS : Z := 5000.
Definition DEPOSIT_RATIO_TOLERANCE_BPS : Z := 500.
Definition PRICE_SCALE : Z := 1000000.

Record Pool := mkPool {
  p_pool_id : Z;
  p_token_a : Address;
  p_token_b : Address;
  p_reserve_a : Z;
  p_reserve_b : Z;
  p_lp_total_supply : Z;
  p_fee_bps : Z;
}.

Record Hop := mkHop {
  h_pool_id : Z;
  h_token_in : Address;
  h_token_out : Address;
  h_amount_in : Z;
  h_min_amount_out : Z;
}.

Record Route := mkRoute {
  r_token_in : Address;
  r_token_out : Address;
  r_amount_in : Z;
  r_amount_out : Z;
  r_total_fee_bps : Z;
  r_hops : list Hop;
  r_created_at : Z;
}.

Record RiskParams := mkRiskParams {
  rp_max_position_per_user : Z;
  rp_max_position_per_asset : Z;
  rp_concentration_threshold_bps : Z;
  rp_circuit_breaker_threshold_bps : Z;
  rp_circuit_breaker_cooldown : Z;
  rp_min_lp_token_threshold : Z;
}.

Record UserPosition := mkUserPosition {
  up_user : Address;
  up_token : Address;
  up_position_size : Z;
  up_last_updated : Z;
}.

Record CircuitBreakerState := mkCircuitBreakerState {
  cb_is_active : bool;
  cb_triggered_at : Z;
  cb_reason : string;
  cb_cooldown_until : Z;
}.

(** One field per key of [DataKey] that the contract uses, and the admin key.
    The two caches are only ever removed: their keys are kept, not values. *)
Record State := mkState {
  Admin : option Address;
  PoolCounter : option Z;
  PoolAt : gmap Z Pool;
  LpBalance : gmap (Z * Address) Z;
  PriceCache : gset Z;
  ReserveCache : gset Z;
  TradingPaused : option bool;
  CircuitBreakerActive : option CircuitBreakerState;
  RiskParamsAt : option RiskParams;
  UserPositionAt : gmap (Address * Address) UserPosition;
  GovernanceCollector : option Address;
  ProtocolFeeShareBps : option Z;
  LpRewardBalance : gmap (Z * Address) Z;
  ReentrancyLock : option bool;
}.

Inductive Event :=
| amm_init (admin : Address)
| PoolCreated (pool_id : Z) (token_a token_b : Address) (fee_bps : Z)
| CacheInvalidated (pool_id timestamp : Z)
| FlashSwap (pool_id : Z) (borrower token_out token_in : Address) (amount_out amount_in : Z)
| LpRewardsDeposited (pool_id : Z) (token : Address) (amount : Z)
| LpRewardsClaimed (pool_id : Z) (provider : Address) (share_a share_b : Z)
| HopCompleted (hop_index pool_id : Z) (token_in token_out : Address) (output : Z)
| MultiHopSwapCompleted (user token_in token_out : Address) (amount_in amount_out : Z)
    (hops total_fees : Z)
| TradingPausedBy (admin : Address) (timestamp : Z)
| TradingResumedBy (admin : Address) (timestamp : Z)
| AdminUpdated (current_admin new_admin : Address)
| FeeConfigUpdated (governance_collector : Address) (protocol_fee_share_bps : Z)
| RiskParamsUpdated (per_user per_asset concentration_bps breaker_bps : Z)
| CircuitBreakerTriggered (reason : string) (timestamp : Z)
| LiquidityAdded (pool_id : Z) (provider : Address) (amount_a amount_b lp_minted : Z)
| LiquidityRemoved (pool_id : Z) (provider : Address) (amount_a amount_b lp_amount : Z)
| Swapped (pool_id : Z) (user token_in : Address) (amount_in amount_out : Z).

Ltac mred v ::= eval cbn [store ledger log Admin PoolCounter PoolAt LpBalance PriceCache
  ReserveCache TradingPaused CircuitBreakerActive RiskParamsAt UserPositionAt
  GovernanceCollector ProtocolFeeShareBps LpRewardBalance ReentrancyLock p_pool_id p_token_a
  p_token_b p_reserve_a p_reserve_b p_lp_total_supply p_fee_bps] in v.

Section contract.
Context `{TokenHost}.

Local Abbreviation C := (M State Empty_set Event).

(** ** storage.rs *)

Definition get_pool_counter : C Z := gets (λ s, default 0 (PoolCounter s)).
Definition set_pool_counter (counter : Z) : C () :=
  modify (λ s, {| s with PoolCounter := Some counter |}).

Definition set_pool (pool : Pool) : C () :=
  modify (λ s, {| s with PoolAt := <[p_pool_id pool := pool]> (PoolAt s) |}).
Definition get_pool (pool_id : Z) : C Pool :=
  o ← gets (λ s, PoolAt s !! pool_id);
  expect o "Pool not found".

Definition get_lp_balance (pool_id : Z) (provider : Address) : C Z :=
  gets (λ s, default 0 (LpBalance s !! (pool_id, provider))).
Definition set_lp_balance (pool_id : Z) (provider : Address) (amount : Z) : C () :=
  modify (λ s, {| s with LpBalance := <[(pool_id, provider) := amount]> (LpBalance s) |}).

Definition invalidate_query_cache (pool_id : Z) : C () :=
  modify (λ s, {| s with PriceCache := PriceCache s ∖ {[pool_id]} |});;
  modify (λ s, {| s with ReserveCache := ReserveCache s ∖ {[pool_id]} |});;
  t ← now;
  publish (CacheInvalidated pool_id t).

Definition is_trading_paused : C bool := gets (λ s, default false (TradingPaused s)).
Definition set_trading_paused (paused : bool) : C () :=
  modify (λ s, {| s with TradingPaused := Some paused |}).

Definition get_circuit_breaker_state : C (option CircuitBreakerState) := gets CircuitBreakerActive.
Definition set_circuit_breaker_state (state : CircuitBreakerState) : C () :=
  modify (λ s, {| s with CircuitBreakerActive := Some state |}).

Definition default_risk_params : RiskParams :=
  mkRiskParams 1000000000 10000000000 3000 1500 3600 1000.
Definition get_risk_params : C RiskParams := gets (λ s, default default_risk_params (RiskParamsAt s)).
Definition set_risk_params (params : RiskParams) : C () :=
  modify (λ s, {| s with RiskParamsAt := Some params |}).

Definition get_user_position (user token : Address) : C (option UserPosition) :=
  gets (λ s, UserPositionAt s !! (user, token)).
Definition set_user_position (user token : Address) (position : UserPosition) : C () :=
  modify (λ s, {| s with UserPositionAt := <[(user, token) := position]> (UserPositionAt s) |}).

Definition get_min_lp_token_threshold : C Z :=
  params ← get_risk_params;
  mret (rp_min_lp_token_threshold params).

Definition get_governance_collector : C (option Address) := gets GovernanceCollector.
Definition set_governance_collector (collector : Address) : C () :=
  modify (λ s, {| s with GovernanceCollector := Some collector |}).

Definition get_protocol_fee_share_bps : C Z := gets (λ s, default 0 (ProtocolFeeShareBps s)).
Definition set_protocol_fee_share_bps (bps : Z) : C () :=
  modify (λ s, {| s with ProtocolFeeShareBps := Some bps |}).

Definition get_lp_reward_balance (pool_id : Z) (token : Address) : C Z :=
  gets (λ s, default 0 (LpRewardBalance s !! (pool_id, token))).
Definition set_lp_reward_balance (pool_id : Z) (token : Address) (amount : Z) : C () :=
  modify (λ s, {| s with LpRewardBalance := <[(pool_id, token) := amount]> (LpRewardBalance s) |}).

Definition is_reentrancy_locked : C bool := gets (λ s, default false (ReentrancyLock s)).
Definition set_reentrancy_lock (locked : bool) : C () :=
  modify (λ s, {| s with ReentrancyLock := Some locked |}).

(** ** rbac.rs: the admin check *)

(** The two errors of [ContractError] that the admin check returns. *)
Inductive AdminError := Unauthorized | RoleEscalationAttempt.

Definition get_admin : C (AdminError + Address) :=
  gets (λ s, match Admin s with Some a => inr a | None => inl Unauthorized end).

Definition require_admin (caller : Address) : C (AdminError + ()) :=
  r ← get_admin;
  match r with
  | inl err => mret (inl err)
  | inr admin =>
      mret (if bool_decide (caller ≠ admin) then inl RoleEscalationAttempt else inr tt)
  end.

(** ** Internal helpers *)

Definition assert_admin (caller : Address) : C () :=
  r ← require_admin caller;
  match r with
  | inl RoleEscalationAttempt | inl Unauthorized => panic "Unauthorized"
  | inr _ => mret tt
  end.

Definition with_reentrancy_guard {R} (f : C R) : C R :=
  locked ← is_reentrancy_locked;
  panic_if locked "Reentrancy detected";;
  set_reentrancy_lock true;;
  result ← f;
  set_reentrancy_lock false;;
  mret result.

Definition calculate_swap_fee (amount_in fee_bps : Z) : C Z :=
  p ← plain_mul I128 amount_in fee_bps;
  plain_div I128 p BPS_DENOMINATOR.

Definition reserves_for_token (pool : Pool) (token_in : Address) : C (Z * Z) :=
  if bool_decide (token_in = p_token_a pool) then mret (p_reserve_a pool, p_reserve_b pool)
  else if bool_decide (token_in = p_token_b pool) then mret (p_reserve_b pool, p_reserve_a pool)
  else panic "Token not in pool".

Definition validate_pool_tokens (pool : Pool) (token_a token_b : Address) : C () :=
  let valid :=
    bool_decide (token_a = p_token_a pool) && bool_decide (token_b = p_token_b pool)
    || bool_decide (token_a = p_token_b pool) && bool_decide (token_b = p_token_a pool) in
  panic_if (negb valid) "Token not in pool".

Definition reserves_for_pair (pool : Pool) (token_in token_out : Address) : C (Z * Z * bool) :=
  validate_pool_tokens pool token_in token_out;;
  if bool_decide (token_in = p_token_a pool) && bool_decide (token_out = p_token_b pool)
  then mret (p_reserve_a pool, p_reserve_b pool, false)
  else mret (p_reserve_b pool, p_reserve_a pool, true).

(** ** Liquidity *)

(** [lp_minted] of [add_liquidity_internal]. *)
Definition mint_amount (pool : Pool) (min_threshold amount_a amount_b : Z) : C Z :=
  if p_lp_total_supply pool =? 0 then
    p ← plain_mul I128 amount_a amount_b;
    lp_tokens ← isqrt p;
    panic_if (lp_tokens <? min_threshold) "Liquidity too small - minimum LP tokens required";;
    mret lp_tokens
  else
    p_a ← plain_mul I128 amount_a (p_lp_total_supply pool);
    lp_a ← ceil_div p_a (p_reserve_a pool);
    p_b ← plain_mul I128 amount_b (p_lp_total_supply pool);
    lp_b ← ceil_div p_b (p_reserve_b pool);
    let lp_tokens := if lp_a <? lp_b then lp_a else lp_b in
    panic_if (lp_tokens <? min_threshold) "Liquidity too small - minimum LP tokens required";;
    mret lp_tokens.

(** The ratio check of [add_liquidity_internal]. *)
Definition check_deposit_ratio (pool : Pool) (amount_a amount_b : Z) : C () :=
  if (p_reserve_a pool >? 0) && (p_reserve_b pool >? 0) then
    p ← plain_mul I128 (p_reserve_a pool) 10000;
    pool_ratio ← plain_div I128 p (p_reserve_b pool);
    d ← plain_mul I128 amount_a 10000;
    deposit_ratio ← plain_div I128 d amount_b;
    ratio_diff ← (if pool_ratio >? deposit_ratio then plain_sub I128 pool_ratio deposit_ratio
                  else plain_sub I128 deposit_ratio pool_ratio);
    panic_if (ratio_diff >? DEPOSIT_RATIO_TOLERANCE_BPS)
      "Deposit ratio deviates too much from pool ratio"
  else mret tt.

Definition add_liquidity_internal (provider : Address) (pool_id amount_a amount_b : Z) : C Z :=
  panic_if ((amount_a <=? 0) || (amount_b <=? 0)) "Amounts must be positive";;
  pool ← get_pool pool_id;
  min_threshold ← get_min_lp_token_threshold;
  lp_minted ← mint_amount pool min_threshold amount_a amount_b;
  panic_if (lp_minted <=? 0) "Insufficient liquidity minted";;
  check_deposit_ratio pool amount_a amount_b;;
  contract_addr ← self_address;
  token_transfer (p_token_a pool) provider contract_addr amount_a;;
  token_transfer (p_token_b pool) provider contract_addr amount_b;;
  reserve_a ← plain_add I128 (p_reserve_a pool) amount_a;
  reserve_b ← plain_add I128 (p_reserve_b pool) amount_b;
  lp_total_supply ← plain_add I128 (p_lp_total_supply pool) lp_minted;
  set_pool {| pool with p_reserve_a := reserve_a; p_reserve_b := reserve_b;
    p_lp_total_supply := lp_total_supply |};;
  current_lp ← get_lp_balance pool_id provider;
  new_lp ← plain_add I128 current_lp lp_minted;
  set_lp_balance pool_id provider new_lp;;
  invalidate_query_cache pool_id;;
  publish (LiquidityAdded pool_id provider amount_a amount_b lp_minted);;
  mret lp_minted.

Definition remove_liquidity_internal (provider : Address) (pool_id lp_amount : Z) : C (Z * Z) :=
  panic_if (lp_amount <=? 0) "LP amount must be positive";;
  current_lp ← get_lp_balance pool_id provider;
  panic_if (current_lp <? lp_amount) "Insufficient LP balance";;
  pool ← get_pool pool_id;
  panic_if (p_lp_total_supply pool <=? 0) "Pool has no liquidity";;
  remaining_lp ← plain_sub I128 current_lp lp_amount;
  min_threshold ← get_min_lp_token_threshold;
  panic_if ((remaining_lp >? 0) && (remaining_lp <? min_threshold))
    "Remaining LP tokens below minimum threshold";;
  p_a ← plain_mul I128 lp_amount (p_reserve_a pool);
  amount_a ← floor_div p_a (p_lp_total_supply pool);
  p_b ← plain_mul I128 lp_amount (p_reserve_b pool);
  amount_b ← floor_div p_b (p_lp_total_supply pool);
  panic_if ((amount_a <=? 0) || (amount_b <=? 0)) "Withdrawal amounts too small";;
  reserve_a ← plain_sub I128 (p_reserve_a pool) amount_a;
  reserve_b ← plain_sub I128 (p_reserve_b pool) amount_b;
  lp_total_supply ← plain_sub I128 (p_lp_total_supply pool) lp_amount;
  set_pool {| pool with p_reserve_a := reserve_a; p_reserve_b := reserve_b;
    p_lp_total_supply := lp_total_supply |};;
  set_lp_balance pool_id provider remaining_lp;;
  contract_addr ← self_address;
  token_transfer (p_token_a pool) contract_addr provider amount_a;;
  token_transfer (p_token_b pool) contract_addr provider amount_b;;
  invalidate_query_cache pool_id;;
  publish (LiquidityRemoved pool_id provider amount_a amount_b lp_amount);;
  mret (amount_a, amount_b).

(** ** Swaps *)

(** The protocol's share of the swap fee, paid to the collector if there is one. *)
Definition pay_protocol_fee (token_in : Address) (protocol_fee : Z) : C () :=
  if protocol_fee >? 0 then
    collector ← get_governance_collector;
    match collector with
    | Some collector =>
        contract_addr ← self_address;
        token_transfer token_in contract_addr collector protocol_fee
    | None => mret tt
    end
  else mret tt.

Definition swap_internal (user : Address) (pool_id : Z) (token_in : Address)
    (amount_in min_amount_out : Z) (collect_protocol_fee : bool) : C Z :=
  panic_if (amount_in <=? 0) "Input amount must be positive";;
  pool ← get_pool pool_id;
  panic_if ((p_reserve_a pool <=? 0) || (p_reserve_b pool <=? 0)) "Pool has no liquidity";;
  r ← (if bool_decide (token_in = p_token_a pool) then
         mret (p_reserve_a pool, p_reserve_b pool, true)
       else if bool_decide (token_in = p_token_b pool) then
         mret (p_reserve_b pool, p_reserve_a pool, false)
       else panic "Token not in pool");
  let '(reserve_in, reserve_out, is_a_to_b) := (r : Z * Z * bool) in
  amount_out ← get_amount_out amount_in reserve_in reserve_out (p_fee_bps pool);
  panic_if (amount_out <? min_amount_out) "Slippage tolerance exceeded";;
  panic_if (amount_out <=? 0) "Output amount is zero";;
  contract_addr ← self_address;
  token_transfer token_in user contract_addr amount_in;;
  let token_out := if is_a_to_b : bool then p_token_b pool else p_token_a pool in
  protocol_share_bps ← get_protocol_fee_share_bps;
  fee_amount ← calculate_swap_fee amount_in (p_fee_bps pool);
  protocol_fee ← (if collect_protocol_fee then
                    p ← plain_mul I128 fee_amount protocol_share_bps;
                    plain_div I128 p BPS_DENOMINATOR
                  else mret 0);
  pay_protocol_fee token_in protocol_fee;;
  net_amount_in ← plain_sub I128 amount_in protocol_fee;
  token_transfer token_out contract_addr user amount_out;;
  pool' ← (if is_a_to_b then
             reserve_a ← plain_add I128 (p_reserve_a pool) net_amount_in;
             reserve_b ← plain_sub I128 (p_reserve_b pool) amount_out;
             mret {| pool with p_reserve_a := reserve_a; p_reserve_b := reserve_b |}
           else
             reserve_b ← plain_add I128 (p_reserve_b pool) net_amount_in;
             reserve_a ← plain_sub I128 (p_reserve_a pool) amount_out;
             mret {| pool with p_reserve_a := reserve_a; p_reserve_b := reserve_b |});
  set_pool pool';;
  invalidate_query_cache pool_id;;
  publish (Swapped pool_id user token_in amount_in amount_out);;
  mret amount_out.

Definition check_trading_allowed : C () :=
  paused ← is_trading_paused;
  panic_if paused "Trading is currently paused";;
  o ← get_circuit_breaker_state;
  match o with
  | Some state =>
      if cb_is_active state then
        t ← now;
        if t <? cb_cooldown_until state then panic "Circuit breaker is active"
        else set_circuit_breaker_state {| state with cb_is_active := false |}
      else mret tt
  | None => mret tt
  end.

(** The body of [flash_swap] under the reentrancy guard. *)
Definition flash_swap_body (borrower : Address) (pool_id : Z) (token_out : Address)
    (amount_out : Z) (token_in : Address) (max_amount_in : Z) : C Z :=
  pool ← get_pool pool_id;
  validate_pool_tokens pool token_in token_out;;
  r ← reserves_for_pair pool token_in token_out;
  let '(reserve_in, reserve_out, out_is_a) := (r : Z * Z * bool) in
  panic_if (reserve_out <=? amount_out) "Insufficient pool liquidity for flash swap";;
  amount_in_required ← get_amount_in amount_out reserve_in reserve_out (p_fee_bps pool);
  panic_if (amount_in_required >? max_amount_in) "Flash swap repayment exceeds max_amount_in";;
  contract_addr ← self_address;
  token_transfer token_out contract_addr borrower amount_out;;
  token_transfer token_in borrower contract_addr amount_in_required;;
  protocol_share_bps ← get_protocol_fee_share_bps;
  fee_amount ← calculate_swap_fee amount_in_required (p_fee_bps pool);
  p ← plain_mul I128 fee_amount protocol_share_bps;
  protocol_fee ← plain_div I128 p BPS_DENOMINATOR;
  pay_protocol_fee token_in protocol_fee;;
  net_in ← plain_sub I128 amount_in_required protocol_fee;
  pool' ← (if out_is_a : bool then
             reserve_a ← plain_sub I128 (p_reserve_a pool) amount_out;
             reserve_b ← plain_add I128 (p_reserve_b pool) net_in;
             mret {| pool with p_reserve_a := reserve_a; p_reserve_b := reserve_b |}
           else
             reserve_b ← plain_sub I128 (p_reserve_b pool) amount_out;
             reserve_a ← plain_add I128 (p_reserve_a pool) net_in;
             mret {| pool with p_reserve_a := reserve_a; p_reserve_b := reserve_b |});
  set_pool pool';;
  invalidate_query_cache pool_id;;
  publish (FlashSwap pool_id borrower token_out token_in amount_out amount_in_required);;
  mret amount_in_required.

(** ** Positions and risk *)

Definition get_user_position_for_token (user token : Address) : C Z :=
  o ← get_user_position user token;
  mret (from_option up_position_size 0 o).

(** [total += pos.position_size.abs()], when the user has a position. *)
Definition add_position_size (user token : Address) (total : Z) : C Z :=
  o ← get_user_position user token;
  match o with
  | Some pos => size ← plain_abs I128 (up_position_size pos); plain_add I128 total size
  | None => mret total
  end.

Definition get_user_total_position (user : Address) : C Z :=
  pool_counter ← get_pool_counter;
  foldM (λ total pool_id,
    pool ← get_pool pool_id;
    total ← add_position_size user (p_token_a pool) total;
    add_position_size user (p_token_b pool) total) 0 (seqZ 0 pool_counter).

(** [max_concentration.max(..)] for one token; [as u32] truncates. *)
Definition max_concentration_step (user token : Address) (total max_concentration : Z) : C Z :=
  o ← get_user_position user token;
  match o with
  | Some pos =>
      size ← plain_abs I128 (up_position_size pos);
      p ← plain_mul I128 size 10000;
      concentration ← plain_div I128 p total;
      mret (Z.max max_concentration (concentration `mod` 2 ^ 32))
  | None => mret max_concentration
  end.

Definition calculate_concentration_score (user : Address) : C Z :=
  total ← get_user_total_position user;
  if total =? 0 then mret 0
  else
    pool_counter ← get_pool_counter;
    foldM (λ max_concentration pool_id,
      pool ← get_pool pool_id;
      m ← max_concentration_step user (p_token_a pool) total max_concentration;
      max_concentration_step user (p_token_b pool) total m) 0 (seqZ 0 pool_counter).

Definition check_position_limits (user token : Address) (amount : Z) : C () :=
  params ← get_risk_params;
  current_position ← get_user_position_for_token user token;
  new_position ← plain_add I128 current_position amount;
  user_total ← get_user_total_position user;
  t ← plain_add I128 user_total amount;
  panic_if (t >? rp_max_position_per_user params) "Exceeds maximum position per user";;
  panic_if (new_position >? rp_max_position_per_asset params) "Exceeds maximum position per asset";;
  concentration ← calculate_concentration_score user;
  panic_if (concentration >? rp_concentration_threshold_bps params)
    "Portfolio concentration too high".

Definition update_user_position (user token : Address) (amount_change : Z) : C () :=
  current ← get_user_position_for_token user token;
  new_position ← plain_add I128 current amount_change;
  if new_position =? 0 then
    modify (λ s, {| s with UserPositionAt := delete (user, token) (UserPositionAt s) |})
  else
    t ← now;
    set_user_position user token (mkUserPosition user token new_position t).

(** ** Routing *)

Definition try_direct_route (pool_id : Z) (token_in token_out : Address) (amount_in : Z)
    : C (option Route) :=
  pool ← get_pool pool_id;
  let reserves :=
    if bool_decide (token_in = p_token_a pool) && bool_decide (token_out = p_token_b pool)
    then Some (p_reserve_a pool, p_reserve_b pool)
    else if bool_decide (token_in = p_token_b pool) && bool_decide (token_out = p_token_a pool)
    then Some (p_reserve_b pool, p_reserve_a pool)
    else None in
  match reserves with
  | None => mret None
  | Some (reserve_in, reserve_out) =>
      if (reserve_in <=? 0) || (reserve_out <=? 0) then mret None
      else
        amount_out ← get_amount_out amount_in reserve_in reserve_out (p_fee_bps pool);
        if amount_out <=? 0 then mret None
        else
          p ← plain_mul I128 amount_out 95;
          min_amount_out ← plain_div I128 p 100;
          t ← now;
          mret (Some (mkRoute token_in token_out amount_in amount_out (p_fee_bps pool)
            [mkHop pool_id token_in token_out amount_in min_amount_out] t))
  end.

Definition find_intermediate_token (pool_1 pool_2 : Pool) (token_in token_out : Address)
    : option Address :=
  let candidates := [p_token_a pool_1; p_token_b pool_1] in
  find (λ t1,
    negb (bool_decide (t1 = token_in) || bool_decide (t1 = token_out))
    && (bool_decide (t1 = p_token_a pool_2) || bool_decide (t1 = p_token_b pool_2))) candidates.

Definition try_two_hop_route (pool_id_1 pool_id_2 : Z) (token_in token_out : Address)
    (amount_in : Z) : C (option Route) :=
  pool_1 ← get_pool pool_id_1;
  pool_2 ← get_pool pool_id_2;
  match find_intermediate_token pool_1 pool_2 token_in token_out with
  | None => mret None
  | Some intermediate_token =>
      o1 ← try_direct_route pool_id_1 token_in intermediate_token amount_in;
      match o1 with
      | None => mret None
      | Some route_1 =>
          o2 ← try_direct_route pool_id_2 intermediate_token token_out (r_amount_out route_1);
          match o2 with
          | None => mret None
          | Some route_2 =>
              hop_1 ← expect (r_hops route_1 !! 0%nat) "unwrap";
              hop_2 ← expect (r_hops route_2 !! 0%nat) "unwrap";
              fees ← plain_add U32 (p_fee_bps pool_1) (p_fee_bps pool_2);
              t ← now;
              mret (Some (mkRoute token_in token_out amount_in (r_amount_out route_2) fees
                [hop_1; hop_2] t))
          end
      end
  end.

(** Keep the better of the best route so far and a candidate. *)
Definition better_route (best : option Route * Z) (candidate : option Route) : option Route * Z :=
  match candidate with
  | Some route => if r_amount_out route >? best.2 then (Some route, r_amount_out route) else best
  | None => best
  end.

Definition find_best_route (token_in token_out : Address) (amount_in max_hops : Z) : C Route :=
  panic_if (amount_in <=? 0) "Input amount must be positive";;
  panic_if (bool_decide (token_in = token_out)) "Tokens must be different";;
  panic_if ((max_hops =? 0) || (max_hops >? 5)) "Invalid max hops (1-5)";;
  check_trading_allowed;;
  pool_counter ← get_pool_counter;
  best ← foldM (λ best pool_id,
    o ← try_direct_route pool_id token_in token_out amount_in;
    mret (better_route best o)) (None, 0) (seqZ 0 pool_counter);
  best ← (if max_hops >=? 2 then
      foldM (λ best pool_id_1,
        foldM (λ best pool_id_2,
          if pool_id_1 =? pool_id_2 then mret best
          else
            o ← try_two_hop_route pool_id_1 pool_id_2 token_in token_out amount_in;
            mret (better_route best o)) best (seqZ 0 pool_counter))
        best (seqZ 0 pool_counter)
    else mret best);
  expect best.1 "No valid route found".

(** One hop of [execute_multi_hop_swap]; the loop carries the hop's index, the
    amount and token it starts from, and the fees so far. *)
Definition execute_hop (user : Address) (acc : Z * Z * Address * Z) (hop : Hop)
    : C (Z * Z * Address * Z) :=
  let '(i, current_amount, current_token, total_fees) := acc in
  let hop_index := i `mod` 2 ^ 32 in
  panic_if (negb (h_amount_in hop =? current_amount))
    ("Hop amount mismatch at hop " +:+ pretty hop_index);;
  panic_if (bool_decide (h_token_in hop ≠ current_token))
    ("Hop token mismatch at hop " +:+ pretty hop_index);;
  pool ← get_pool (h_pool_id hop);
  actual_output ← swap_internal user (h_pool_id hop) (h_token_in hop) (h_amount_in hop)
    (h_min_amount_out hop) false;
  total_fees ← plain_add U32 total_fees (p_fee_bps pool);
  publish (HopCompleted hop_index (h_pool_id hop) (h_token_in hop) (h_token_out hop)
    actual_output);;
  mret (i + 1, actual_output, h_token_out hop, total_fees).

Definition execute_multi_hop_swap (user : Address) (route : Route) (min_amount_out : Z) : C Z :=
  require_auth user;;
  panic_if (r_amount_in route <=? 0) "Invalid route amount";;
  panic_if (r_amount_out route <? min_amount_out) "Route output below slippage tolerance";;
  check_trading_allowed;;
  check_position_limits user (r_token_in route) (r_amount_in route);;
  r ← foldM (execute_hop user) (0, r_amount_in route, r_token_in route, 0) (r_hops route);
  let '(_, current_amount, current_token, total_fees) := (r : Z * Z * Address * Z) in
  panic_if (current_amount <? min_amount_out) "Final output below slippage tolerance";;
  panic_if (bool_decide (current_token ≠ r_token_out route)) "Final token mismatch";;
  spent ← plain_sub I128 0 (r_amount_in route);
  update_user_position user (r_token_in route) spent;;
  update_user_position user (r_token_out route) current_amount;;
  publish (MultiHopSwapCompleted user (r_token_in route) (r_token_out route) (r_amount_in route)
    current_amount (Z.of_nat (length (r_hops route))) total_fees);;
  mret current_amount.

(** ** Entry points *)

Definition initialize (admin : Address) (governance_collector : option Address) : C () :=
  has ← gets Admin;
  panic_if (bool_decide (is_Some has)) "Contract already initialized";;
  require_auth admin;;
  modify (λ s, {| s with Admin := Some admin |});;
  set_pool_counter 0;;
  set_trading_paused false;;
  set_protocol_fee_share_bps 0;;
  set_reentrancy_lock false;;
  match governance_collector with
  | Some collector => set_governance_collector collector
  | None => mret tt
  end;;
  publish (amm_init admin).

Definition create_pool (admin token_a token_b : Address) (fee_bps : Z) : C Z :=
  require_auth admin;;
  assert_admin admin;;
  panic_if (bool_decide (token_a = token_b)) "Token addresses must differ";;
  panic_if (fee_bps >? MAX_FEE_BPS) "Fee cannot exceed 10%";;
  pool_id ← get_pool_counter;
  set_pool (mkPool pool_id token_a token_b 0 0 0 fee_bps);;
  next ← plain_add U64 pool_id 1;
  set_pool_counter next;;
  publish (PoolCreated pool_id token_a token_b fee_bps);;
  mret pool_id.

Definition add_liquidity (provider : Address) (pool_id amount_a amount_b : Z) : C Z :=
  require_auth provider;;
  with_reentrancy_guard (add_liquidity_internal provider pool_id amount_a amount_b).

Definition remove_liquidity (provider : Address) (pool_id lp_amount : Z) : C (Z * Z) :=
  require_auth provider;;
  with_reentrancy_guard (remove_liquidity_internal provider pool_id lp_amount).

Definition swap (user : Address) (pool_id : Z) (token_in : Address)
    (amount_in min_amount_out : Z) : C Z :=
  require_auth user;;
  check_trading_allowed;;
  with_reentrancy_guard (swap_internal user pool_id token_in amount_in min_amount_out true).

Definition quote_swap (pool_id : Z) (token_in : Address) (amount_in : Z) : C Z :=
  panic_if (amount_in <=? 0) "Input amount must be positive";;
  pool ← get_pool pool_id;
  r ← reserves_for_token pool token_in;
  let '(reserve_in, reserve_out) := (r : Z * Z) in
  get_amount_out amount_in reserve_in reserve_out (p_fee_bps pool).

Definition flash_swap (borrower : Address) (pool_id : Z) (token_out : Address)
    (amount_out : Z) (token_in : Address) (max_amount_in : Z) : C Z :=
  require_auth borrower;;
  check_trading_allowed;;
  panic_if (amount_out <=? 0) "Flash swap amount must be positive";;
  with_reentrancy_guard
    (flash_swap_body borrower pool_id token_out amount_out token_in max_amount_in).

Definition deposit_lp_rewards (admin : Address) (pool_id : Z) (token : Address) (amount : Z)
    : C () :=
  require_auth admin;;
  assert_admin admin;;
  panic_if (amount <=? 0) "Reward amount must be positive";;
  pool ← get_pool pool_id;
  panic_if (bool_decide (token ≠ p_token_a pool) && bool_decide (token ≠ p_token_b pool))
    "Token not in pool";;
  contract_addr ← self_address;
  token_transfer token admin contract_addr amount;;
  current ← get_lp_reward_balance pool_id token;
  total ← plain_add I128 current amount;
  set_lp_reward_balance pool_id token total;;
  publish (LpRewardsDeposited pool_id token amount).

(** One token's part of [claim_lp_rewards]. *)
Definition pay_reward (provider : Address) (pool_id : Z) (token : Address) (reward share : Z)
    : C () :=
  if share >? 0 then
    contract_addr ← self_address;
    token_transfer token contract_addr provider share;;
    rest ← plain_sub I128 reward share;
    set_lp_reward_balance pool_id token rest
  else mret tt.

Definition claim_lp_rewards_body (provider : Address) (pool_id : Z) : C (Z * Z) :=
  pool ← get_pool pool_id;
  lp_balance ← get_lp_balance pool_id provider;
  panic_if ((lp_balance <=? 0) || (p_lp_total_supply pool <=? 0)) "No LP tokens to claim rewards";;
  reward_a ← get_lp_reward_balance pool_id (p_token_a pool);
  reward_b ← get_lp_reward_balance pool_id (p_token_b pool);
  n_a ← plain_mul I128 reward_a lp_balance;
  share_a ← floor_div n_a (p_lp_total_supply pool);
  n_b ← plain_mul I128 reward_b lp_balance;
  share_b ← floor_div n_b (p_lp_total_supply pool);
  panic_if ((share_a <=? 0) && (share_b <=? 0)) "No rewards to claim";;
  pay_reward provider pool_id (p_token_a pool) reward_a share_a;;
  pay_reward provider pool_id (p_token_b pool) reward_b share_b;;
  publish (LpRewardsClaimed pool_id provider share_a share_b);;
  mret (share_a, share_b).

Definition claim_lp_rewards (provider : Address) (pool_id : Z) : C (Z * Z) :=
  require_auth provider;;
  with_reentrancy_guard (claim_lp_rewards_body provider pool_id).

Definition get_price (pool_id : Z) (token : Address) : C Z :=
  pool ← get_pool pool_id;
  panic_if ((p_reserve_a pool <=? 0) || (p_reserve_b pool <=? 0)) "Pool has no liquidity";;
  if bool_decide (token = p_token_a pool) then
    p ← plain_mul I128 (p_reserve_b pool) PRICE_SCALE;
    plain_div I128 p (p_reserve_a pool)
  else if bool_decide (token = p_token_b pool) then
    p ← plain_mul I128 (p_reserve_a pool) PRICE_SCALE;
    plain_div I128 p (p_reserve_b pool)
  else panic "Token not in pool".

Definition get_pending_lp_rewards (pool_id : Z) (provider : Address) : C (Z * Z) :=
  pool ← get_pool pool_id;
  lp_balance ← get_lp_balance pool_id provider;
  if (lp_balance <=? 0) || (p_lp_total_supply pool <=? 0) then mret (0, 0)
  else
    reward_a ← get_lp_reward_balance pool_id (p_token_a pool);
    reward_b ← get_lp_reward_balance pool_id (p_token_b pool);
    n_a ← plain_mul I128 reward_a lp_balance;
    share_a ← floor_div n_a (p_lp_total_supply pool);
    n_b ← plain_mul I128 reward_b lp_balance;
    share_b ← floor_div n_b (p_lp_total_supply pool);
    mret (share_a, share_b).

(** ** Administration *)

Definition pause_trading (admin : Address) : C () :=
  require_auth admin;;
  assert_admin admin;;
  set_trading_paused true;;
  t ← now;
  publish (TradingPausedBy admin t).

Definition resume_trading (admin : Address) : C () :=
  require_auth admin;;
  assert_admin admin;;
  set_trading_paused false;;
  t ← now;
  publish (TradingResumedBy admin t).

Definition set_admin (current_admin new_admin : Address) : C () :=
  require_auth current_admin;;
  assert_admin current_admin;;
  modify (λ s, {| s with Admin := Some new_admin |});;
  publish (AdminUpdated current_admin new_admin).

Definition set_fee_config (admin governance_collector : Address) (protocol_fee_share_bps : Z)
    : C () :=
  require_auth admin;;
  assert_admin admin;;
  panic_if (protocol_fee_share_bps >? MAX_PROTOCOL_FEE_SHARE_BPS)
    "Protocol fee share cannot exceed 50%";;
  set_governance_collector governance_collector;;
  set_protocol_fee_share_bps protocol_fee_share_bps;;
  publish (FeeConfigUpdated governance_collector protocol_fee_share_bps).

Definition set_risk_parameters (admin : Address) (params : RiskParams) : C () :=
  require_auth admin;;
  assert_admin admin;;
  panic_if (rp_max_position_per_user params <=? 0) "Invalid max position per user";;
  panic_if (rp_max_position_per_asset params <=? 0) "Invalid max position per asset";;
  panic_if (rp_concentration_threshold_bps params >? 10000) "Invalid concentration threshold";;
  panic_if (rp_circuit_breaker_threshold_bps params >? 10000) "Invalid circuit breaker threshold";;
  panic_if (rp_circuit_breaker_cooldown params =? 0) "Invalid cooldown period";;
  panic_if (rp_min_lp_token_threshold params <=? 0) "Invalid LP token threshold";;
  set_risk_params params;;
  publish (RiskParamsUpdated (rp_max_position_per_user params) (rp_max_position_per_asset params)
    (rp_concentration_threshold_bps params) (rp_circuit_breaker_threshold_bps params)).

Definition get_risk_metrics (user : Address) : C (Z * Z * Z) :=
  params ← get_risk_params;
  user_total_position ← get_user_total_position user;
  concentration_score ← calculate_concentration_score user;
  mret (user_total_position, concentration_score, rp_concentration_threshold_bps params).

Definition trigger_circuit_breaker (admin : Address) (reason : string) : C () :=
  require_auth admin;;
  assert_admin admin;;
  params ← get_risk_params;
  t ← now;
  until ← plain_add U64 t (rp_circuit_breaker_cooldown params);
  set_circuit_breaker_state (mkCircuitBreakerState true t reason until);;
  publish (CircuitBreakerTriggered reason t).

End contract.

(** ** Entry points as calls *)

Inductive Call :=
| CInitialize (admin : Address) (governance_collector : option Address)
| CCreatePool (admin token_a token_b : Address) (fee_bps : Z)
| CAddLiquidity (provider : Address) (pool_id amount_a amount_b : Z)
| CRemoveLiquidity (provider : Address) (pool_id lp_amount : Z)
| CSwap (user : Address) (pool_id : Z) (token_in : Address) (amount_in min_amount_out : Z)
| CFlashSwap (borrower : Address) (pool_id : Z) (token_out : Address) (amount_out : Z)
    (token_in : Address) (max_amount_in : Z)
| CDepositLpRewards (admin : Address) (pool_id : Z) (token : Address) (amount : Z)
| CClaimLpRewards (provider : Address) (pool_id : Z)
| CFindBestRoute (token_in token_out : Address) (amount_in max_hops : Z)
| CExecuteMultiHopSwap (user : Address) (route : Route) (min_amount_out : Z)
| CPauseTrading (admin : Address)
| CResumeTrading (admin : Address)
| CSetAdmin (current_admin new_admin : Address)
| CSetFeeConfig (admin governance_collector : Address) (protocol_fee_share_bps : Z)
| CSetRiskParameters (admin : Address) (params : RiskParams)
| CTriggerCircuitBreaker (admin : Address) (reason : string).

Section calls.
Context `{TokenHost}.

Definition exec (c : Call) : M State Empty_set Event () :=
  match c with
  | CInitialize admin collector => initialize admin collector
  | CCreatePool admin token_a token_b fee => discard (create_pool admin token_a token_b fee)
  | CAddLiquidity provider pool a b => discard (add_liquidity provider pool a b)
  | CRemoveLiquidity provider pool lp => discard (remove_liquidity provider pool lp)
  | CSwap user pool token_in n out => discard (swap user pool token_in n out)
  | CFlashSwap borrower pool token_out n token_in max =>
      discard (flash_swap borrower pool token_out n token_in max)
  | CDepositLpRewards admin pool token n => deposit_lp_rewards admin pool token n
  | CClaimLpRewards provider pool => discard (claim_lp_rewards provider pool)
  | CFindBestRoute token_in token_out n hops =>
      discard (find_best_route token_in token_out n hops)
  | CExecuteMultiHopSwap user route out => discard (execute_multi_hop_swap user route out)
  | CPauseTrading admin => pause_trading admin
  | CResumeTrading admin => resume_trading admin
  | CSetAdmin current new => set_admin current new
  | CSetFeeConfig admin collector share => set_fee_config admin collector share
  | CSetRiskParameters admin params => set_risk_parameters admin params
  | CTriggerCircuitBreaker admin reason => trigger_circuit_breaker admin reason
  end.

(** The u32 arguments are in range. *)
Definition call_ok (c : Call) : Prop :=
  match c with
  | CCreatePool _ _ _ fee => 0 ≤ fee
  | CSetFeeConfig _ _ share => 0 ≤ share
  | _ => True
  end.
End calls.

(** The storage of a contract just deployed. *)
Definition deployed : State := {|
  Admin := None; PoolCounter := None; PoolAt := ∅; LpBalance := ∅; PriceCache := ∅;
  ReserveCache := ∅; TradingPaused := None; CircuitBreakerActive := None; RiskParamsAt := None;
  UserPositionAt := ∅; GovernanceCollector := None; ProtocolFeeShareBps := None;
  LpRewardBalance := ∅; ReentrancyLock := None |}.
