(* ===== verification/AmmProofs.v ===== *)
(** * contracts/amm: invariant and theorems

    Well-formed pools whose LP supply is the sum of the providers' balances,
    solvency of reserves and rewards, the constant-product law of every trade
    and the LP share a withdrawal leaves, and what a reward claim pays. *)

From stdpp Require Import gmap strings list fin_maps.
From S2P Require Import Prelude Soroban TokenModel AmmMath Amm.
Open Scope Z_scope.

(** ** The invariant *)

Record pool_ok (i : Z) (pool : Pool) : Prop := {
  po_id : p_pool_id pool = i;
  po_tokens : p_token_a pool ≠ p_token_b pool;
  po_fee : 0 ≤ p_fee_bps pool ≤ MAX_FEE_BPS;
  po_reserve_a : 0 ≤ p_reserve_a pool;
  po_reserve_b : 0 ≤ p_reserve_b pool;
  po_supply : 0 ≤ p_lp_total_supply pool;
  po_empty_a : p_lp_total_supply pool = 0 ↔ p_reserve_a pool = 0;
  po_empty_b : p_lp_total_supply pool = 0 ↔ p_reserve_b pool = 0;
}.

(** The LP tokens of a pool that providers hold. *)
Definition lp_held (lp : gmap (Z * Address) Z) (i : Z) : Z :=
  msum (λ k n, if k.1 =? i then n else 0) lp.

Record amm_inv (st : State) : Prop := {
  ai_pools i : is_Some (PoolAt st !! i) ↔ 0 ≤ i < default 0 (PoolCounter st);
  ai_pool i pool : PoolAt st !! i = Some pool → pool_ok i pool;
  ai_counter : 0 ≤ default 0 (PoolCounter st);
  ai_admin : Admin st = None → default 0 (PoolCounter st) = 0;
  ai_lp k n : LpBalance st !! k = Some n → 0 ≤ n;
  ai_supply i : lp_held (LpBalance st) i = from_option p_lp_total_supply 0 (PoolAt st !! i);
  ai_rewards k n : LpRewardBalance st !! k = Some n → 0 ≤ n;
  ai_share : 0 ≤ default 0 (ProtocolFeeShareBps st) ≤ MAX_PROTOCOL_FEE_SHARE_BPS;
  ai_collector : GovernanceCollector st = None → default 0 (ProtocolFeeShareBps st) = 0;
}.

(** What the contract owes in a token: the reserves and the LP rewards. *)
Definition pool_owes (tk : Address) (pool : Pool) : Z :=
  (if bool_decide (p_token_a pool = tk) then p_reserve_a pool else 0)
  + (if bool_decide (p_token_b pool = tk) then p_reserve_b pool else 0).

Definition owed (st : State) (tk : Address) : Z :=
  msum (λ _ pool, pool_owes tk pool) (PoolAt st)
  + msum (λ k n, if bool_decide (k.2 = tk) then n else 0) (LpRewardBalance st).

Definition product (pool : Pool) : Z := p_reserve_a pool * p_reserve_b pool.

(** The reserve pair of a pool, seen from the token that comes in. *)
Definition reserve_in (a_in : bool) (pool : Pool) : Z :=
  if a_in then p_reserve_a pool else p_reserve_b pool.
Definition reserve_out (a_in : bool) (pool : Pool) : Z :=
  if a_in then p_reserve_b pool else p_reserve_a pool.
Definition pool_token (a : bool) (pool : Pool) : Address :=
  if a then p_token_a pool else p_token_b pool.

Definition after_trade (pool : Pool) (a_in : bool) (net out : Z) : Pool :=
  if a_in
  then {| pool with p_reserve_a := p_reserve_a pool + net; p_reserve_b := p_reserve_b pool - out |}
  else {| pool with p_reserve_a := p_reserve_a pool - out; p_reserve_b := p_reserve_b pool + net |}.

(** A fair exchange: the pool pays out less than it has and the product of
    its reserves does not shrink. *)
Record fair (pool : Pool) (a_in : bool) (net out : Z) : Prop := {
  fair_in : 0 ≤ net;
  fair_reserve : 0 < reserve_in a_in pool;
  fair_out : 0 < out < reserve_out a_in pool;
  fair_product : product pool ≤ product (after_trade pool a_in net out);
}.

(** ** Arithmetic of the two formulas *)

(** The fee leaves at least what the pricing formula counted as input. *)
Lemma fee_split x f share :
  0 ≤ x → 0 ≤ f ≤ MAX_FEE_BPS → 0 ≤ share ≤ MAX_PROTOCOL_FEE_SHARE_BPS →
  let pf := ((x * f) `div` 10000 * share) `div` 10000 in
  0 ≤ pf ∧ (x * (10000 - f)) `div` 10000 ≤ x - pf ∧ x * (10000 - f) ≤ 10000 * (x - pf).
Proof.
  unfold MAX_FEE_BPS, MAX_PROTOCOL_FEE_SHARE_BPS. intros Hx Hf Hs. cbv zeta.
  assert (0 ≤ x * f) by nia. set (g := (x * f) `div` 10000).
  assert (0 ≤ g) by (apply Z.div_pos; lia).
  assert (10000 * g ≤ x * f) by (apply Z.mul_div_le; lia).
  assert (0 ≤ (g * share) `div` 10000 ≤ g).
  { split; [apply Z.div_pos; nia|apply Z.div_le_upper_bound; nia]. }
  split_and!; [lia| |lia]. apply Z.div_le_upper_bound; lia.
Qed.

Lemma swap_out_spec rin rout y :
  0 < rin → 0 < rout → 0 ≤ y →
  let out := (rout * y) `div` (rin + y) in
  out < rout ∧ ∀ net, y ≤ net → rin * rout ≤ (rin + net) * (rout - out).
Proof.
  intros Hin Hout Hy. cbv zeta. set (out := (rout * y) `div` (rin + y)).
  assert ((rin + y) * out ≤ rout * y) by (apply Z.mul_div_le; lia).
  assert (out < rout) by (apply Z.div_lt_upper_bound; nia).
  split; [done|]. intros net Hnet. nia.
Qed.

Lemma flash_in_spec rin rout out req f net :
  0 < rin → 0 < out < rout → 0 ≤ f ≤ MAX_FEE_BPS →
  rin * out * 10000 ≤ req * ((rout - out) * (10000 - f)) →
  req * (10000 - f) ≤ 10000 * net →
  rin * rout ≤ (rin + net) * (rout - out).
Proof.
  intros Hin Hout Hf Hreq Hnet. assert (req * (10000 - f) * (rout - out) ≤ 10000 * net * (rout - out)).
  { apply Z.mul_le_mono_nonneg_r; lia. }
  nia.
Qed.

Lemma ceil_div_le a b : 0 ≤ a → 0 < b → a ≤ (a + b - 1) `div` b * b.
Proof. intros Ha Hb. pose proof (Z.mul_succ_div_gt (a + b - 1) b Hb). nia. Qed.

(** ** Specifications of the helpers *)

Section specs.
Context `{TokenHost}.
Implicit Types (w : World State Event) (e : Env).
Local Abbreviation C := (M State Empty_set Event).

Lemma amm_assert_admin_spec a e w u w' :
  assert_admin a e w = Ok (u, w') → Admin (store w) = Some a ∧ w' = w.
Proof.
  intros Hr. unfold assert_admin, require_admin, get_admin in Hr.
  apply bind_Ok in Hr as (r & w1 & Hreq & Hr). apply bind_Ok in Hreq as (r0 & w0 & Hget & Hreq).
  minv Hget. destruct (Admin (store w)) as [admin|]; minv Hreq.
  destruct (bool_decide (a ≠ admin)) eqn:Hd; minv Hr. zbool. by subst.
Qed.

Lemma check_trading_allowed_spec e w u w' :
  check_trading_allowed e w = Ok (u, w') →
  TradingPaused (store w) ≠ Some true ∧
  ∃ cb, w' = {| w with store := {| (store w) with CircuitBreakerActive := cb |} |}.
Proof.
  intros Hr. unfold check_trading_allowed, is_trading_paused, get_circuit_breaker_state,
    set_circuit_breaker_state in Hr. minv Hr.
  all: split; [by intros Heq; rewrite Heq in *|].
  all: destruct w as [[] l ls]; cbn in *; eauto.
Qed.

Lemma guard_spec {R} (f : M State Empty_set Event R) e w r w' :
  with_reentrancy_guard f e w = Ok (r, w') →
  ∃ w1, f e {| w with store := {| (store w) with ReentrancyLock := Some true |} |} = Ok (r, w1) ∧
        w' = {| w1 with store := {| (store w1) with ReentrancyLock := Some false |} |}.
Proof.
  intros Hr. unfold with_reentrancy_guard, is_reentrancy_locked, set_reentrancy_lock in Hr.
  minv Hr. eauto.
Qed.

Lemma get_pool_spec i e w pool w' :
  get_pool i e w = Ok (pool, w') → PoolAt (store w) !! i = Some pool ∧ w' = w.
Proof. intros Hr. by minv Hr using get_pool. Qed.

(** Invalidating the caches touches nothing else. *)
Definition uncached (st : State) (i : Z) : State :=
  {| st with PriceCache := PriceCache st ∖ {[i]}; ReserveCache := ReserveCache st ∖ {[i]} |}.

Lemma invalidate_spec i e w u w' :
  invalidate_query_cache i e w = Ok (u, w') → store w' = uncached (store w) i ∧ ledger w' = ledger w.
Proof. intros Hr. by minv Hr using invalidate_query_cache. Qed.

Lemma floor_div_spec a b e w c w' :
  (floor_div a b : C Z) e w = Ok (c, w') → 0 < b ∧ c = a `quot` b ∧ w' = w.
Proof. intros Hr. minv Hr using floor_div. arith. done. Qed.

Lemma ceil_div_spec a b e w c w' :
  (ceil_div a b : C Z) e w = Ok (c, w') → 0 ≤ a ∧ 0 < b ∧ c = (a + b - 1) `div` b ∧ w' = w.
Proof.
  intros Hr. minv Hr using ceil_div. arith. rewrite quot_div_nonneg by lia. done.
Qed.

Lemma get_amount_out_spec x rin rout f e w out w' :
  (get_amount_out x rin rout f : C Z) e w = Ok (out, w') →
  0 < x → 0 < rin → 0 < rout → 0 ≤ f ≤ MAX_FEE_BPS →
  let y := (x * (10000 - f)) `div` 10000 in out = (rout * y) `div` (rin + y) ∧ w' = w.
Proof.
  unfold MAX_FEE_BPS. intros Hr Hx Hin Hout Hf. unfold get_amount_out in Hr. minv Hr; arith.
  - apply orb_prop in Hc as [[Hc|Hc]%orb_prop|Hc]; zbool; lia.
  - rewrite (quot_div_nonneg (x * (10000 - f))) in * by nia.
    assert (0 ≤ (x * (10000 - f)) `div` 10000) by (apply Z.div_pos; nia).
    rewrite quot_div_nonneg by nia. done.
Qed.

Lemma get_amount_in_spec out rin rout f e w req w' :
  (get_amount_in out rin rout f : C Z) e w = Ok (req, w') → 0 ≤ f ≤ MAX_FEE_BPS →
  0 < out < rout ∧ 0 < rin ∧ 0 ≤ req ∧
  rin * out * 10000 ≤ req * ((rout - out) * (10000 - f)) ∧ w' = w.
Proof.
  unfold MAX_FEE_BPS. intros Hr Hf. unfold get_amount_in in Hr. minv Hr. spec ceil_div_spec as (Ha & Hb & -> & ->).
  arith. split_and!; try lia; [apply Z.div_pos; lia|by apply ceil_div_le|done].
Qed.

(** ** Trades *)

Context `{!TokenLaws} (self : Address).

Definition at_least (l l' : Ledger) (tk_in : Address) (n_in : Z) (tk_out : Address) (n_out : Z)
    : Prop :=
  ∀ tk, tok_balance l tk self + (if bool_decide (tk = tk_in) then n_in else 0)
          - (if bool_decide (tk = tk_out) then n_out else 0) ≤ tok_balance l' tk self.

(** What a trade does to the world: one pool's reserves change by a fair
    exchange and the contract's balances follow. *)
Record trade (w w' : World State Event) (i : Z) (pool : Pool) (a_in : bool) (net out : Z)
    : Prop := {
  tr_pool : PoolAt (store w) !! i = Some pool;
  tr_fair : fair pool a_in net out;
  tr_store : store w' = uncached
    {| (store w) with PoolAt := <[i := after_trade pool a_in net out]> (PoolAt (store w)) |} i;
  tr_ledger : at_least (ledger w) (ledger w') (pool_token a_in pool) net
    (pool_token (negb a_in) pool) out;
}.

Lemma pay_protocol_fee_spec tk n e w u w' :
  wf_env self e → 0 ≤ n → pay_protocol_fee tk n e w = Ok (u, w') →
  ∃ l', w' = {| w with ledger := l' |} ∧
    ∀ tk', tok_balance (ledger w) tk' self - (if bool_decide (tk' = tk) then n else 0)
             ≤ tok_balance l' tk' self.
Proof.
  intros Hwf Hn Hr. unfold pay_protocol_fee, get_governance_collector in Hr. minv Hr.
  - rewrite (wf_self _ _ Hwf) in *. eexists. split; [done|].
    intros tk'. by eapply moved_out_ge; [eapply transfer_moved|].
  - exists (ledger w). split; [by destruct w|]. intros tk'. case_bool_decide; lia.
  - exists (ledger w). split; [by destruct w|]. intros tk'. case_bool_decide; lia.
Qed.

Lemma calculate_swap_fee_spec x f e w c w' :
  calculate_swap_fee x f e w = Ok (c, w') → c = (x * f) `quot` 10000 ∧ w' = w.
Proof. intros Hr. minv Hr using calculate_swap_fee. arith. done. Qed.

Lemma set_pool_spec pool e w u w' :
  set_pool pool e w = Ok (u, w') →
  w' = {| w with store := {| (store w) with PoolAt := <[p_pool_id pool := pool]> (PoolAt (store w)) |} |}.
Proof. intros Hr. by minv Hr using set_pool. Qed.

(** The balances behind a trade, in the order of [swap] and of [flash_swap]. *)
Lemma swap_ledger l l1 l2 l3 tk_in tk_out user x pf out :
  user ≠ self → moved l l1 tk_in user self x →
  (∀ tk, tok_balance l1 tk self - (if bool_decide (tk = tk_in) then pf else 0) ≤ tok_balance l2 tk self) →
  moved l2 l3 tk_out self user out →
  at_least l l3 tk_in (x - pf) tk_out out.
Proof.
  intros Hu Hin Hpf Hout tk. rewrite (moved_out _ _ _ _ _ _ tk Hout Hu). specialize (Hpf tk).
  rewrite (moved_in _ _ _ _ _ _ tk Hin Hu) in Hpf. repeat case_bool_decide; lia.
Qed.

Lemma flash_ledger l l1 l2 l3 tk_in tk_out user x pf out :
  user ≠ self → moved l l1 tk_out self user out → moved l1 l2 tk_in user self x →
  (∀ tk, tok_balance l2 tk self - (if bool_decide (tk = tk_in) then pf else 0) ≤ tok_balance l3 tk self) →
  at_least l l3 tk_in (x - pf) tk_out out.
Proof.
  intros Hu Hout Hin Hpf tk. specialize (Hpf tk).
  rewrite (moved_in _ _ _ _ _ _ tk Hin Hu), (moved_out _ _ _ _ _ _ tk Hout Hu) in Hpf.
  repeat case_bool_decide; lia.
Qed.

(** A swap priced by [get_amount_out] is fair, whatever part of the fee stays. *)
Lemma swap_fair pool a_in y net out :
  0 < p_reserve_a pool → 0 < p_reserve_b pool → 0 ≤ y ≤ net → 0 < out →
  out = (reserve_out a_in pool * y) `div` (reserve_in a_in pool + y) →
  fair pool a_in net out.
Proof.
  intros Ha Hb Hy Hpos Hout.
  destruct (swap_out_spec (reserve_in a_in pool) (reserve_out a_in pool) y) as [Hlt Hprod];
    [by destruct a_in|by destruct a_in|lia|]. cbv zeta in *. rewrite <- Hout in *.
  specialize (Hprod net ltac:(lia)).
  destruct a_in; cbn in *; split; unfold product; cbn; lia.
Qed.

(** ... and so is a flash swap repaid with [get_amount_in]. *)
Lemma flash_fair pool a_in req net out i :
  pool_ok i pool → 0 < reserve_in a_in pool → 0 < out < reserve_out a_in pool → 0 ≤ net →
  reserve_in a_in pool * out * 10000
    ≤ req * ((reserve_out a_in pool - out) * (10000 - p_fee_bps pool)) →
  req * (10000 - p_fee_bps pool) ≤ 10000 * net →
  fair pool a_in net out.
Proof.
  intros Hok Hin Hout Hnet Hreq Hfee. split; [done..|].
  pose proof (flash_in_spec _ _ _ _ _ _ Hin Hout (po_fee _ _ Hok) Hreq Hfee).
  destruct a_in; unfold product; cbn in *; lia.
Qed.

(** The protocol fee, as the code computes it. *)
Definition protocol_fee (x f share : Z) : Z := ((x * f) `quot` 10000 * share) `quot` 10000.

Lemma protocol_fee_split x i pool st :
  amm_inv st → pool_ok i pool → 0 ≤ x →
  let pf := protocol_fee x (p_fee_bps pool) (default 0 (ProtocolFeeShareBps st)) in
  0 ≤ pf ∧ (x * (10000 - p_fee_bps pool)) `div` 10000 ≤ x - pf
  ∧ x * (10000 - p_fee_bps pool) ≤ 10000 * (x - pf).
Proof.
  intros Hinv Hok Hx. pose proof (po_fee _ _ Hok). pose proof (ai_share _ Hinv).
  cbv zeta. unfold protocol_fee. rewrite (quot_div_nonneg (x * p_fee_bps pool)) by nia.
  rewrite quot_div_nonneg.
  - by apply fee_split.
  - assert (0 ≤ (x * p_fee_bps pool) `div` 10000) by (apply Z.div_pos; nia). nia.
  - lia.
Qed.

(** What the last part of [swap_internal] does, once the amounts are known. *)
Lemma swap_trade user i pool a_in x pf y out e w l w3 l0 w4 w5 ev :
  wf_env self e → user ≠ self → pool_ok i pool → PoolAt (store w) !! i = Some pool →
  0 < p_reserve_a pool → 0 < p_reserve_b pool → 0 ≤ pf → 0 ≤ y ≤ x - pf → 0 < out →
  out = (reserve_out a_in pool * y) `div` (reserve_in a_in pool + y) →
  tok_transfer e (ledger w) (pool_token a_in pool) user self x = Some l →
  pay_protocol_fee (pool_token a_in pool) pf e {| w with ledger := l |} = Ok (tt, w3) →
  tok_transfer e (ledger w3) (pool_token (negb a_in) pool) self user out = Some l0 →
  set_pool (after_trade pool a_in (x - pf) out) e {| w3 with ledger := l0 |} = Ok (tt, w4) →
  invalidate_query_cache i e w4 = Ok (tt, w5) →
  trade w {| w5 with log := ev |} i pool a_in (x - pf) out.
Proof.
  intros Hwf Hu Hok Hpool Ha Hb Hpf Hy Hpos Hout Hin Hpay Hto Hset Hcache.
  apply (pay_protocol_fee_spec _ _ _ _ _ _ Hwf Hpf) in Hpay as (l1 & -> & Hl1).
  apply set_pool_spec in Hset as ->. apply invalidate_spec in Hcache as [Hst Hl].
  apply transfer_moved in Hin, Hto. cbn in *.
  split; [done|by eapply swap_fair| |].
  - cbn. rewrite Hst. destruct a_in; cbn; by rewrite (po_id _ _ Hok).
  - cbn. rewrite Hl. by eapply swap_ledger.
Qed.

Lemma swap_internal_spec user i tk x min_out b e w out w' :
  wf_env self e → user ≠ self → amm_inv (store w) →
  swap_internal user i tk x min_out b e w = Ok (out, w') →
  ∃ pool a_in net, trade w w' i pool a_in net out ∧ tk = pool_token a_in pool ∧
    0 < x ∧ min_out ≤ out ∧
    out = let y := (x * (10000 - p_fee_bps pool)) `div` 10000 in
          (reserve_out a_in pool * y) `div` (reserve_in a_in pool + y).
Proof.
  intros Hwf Hu Hinv Hr. unfold swap_internal, get_protocol_fee_share_bps in Hr.
  minv Hr. all: spec get_pool_spec as [Hpool ->]. all: rewrite (wf_self _ _ Hwf) in *.
  all: pose proof (ai_pool _ Hinv _ _ Hpool) as Hok; pose proof (po_fee _ _ Hok) as Hf; zbool.
  all: spec get_amount_out_spec as [Hout ->]; [|lia..].
  all: spec calculate_swap_fee_spec as [-> ->]; inv_checked.
  all: destruct (protocol_fee_split x i a (store w)) as (Hpf & Hnet & _); [done|done|lia|].
  all: assert (0 ≤ (x * (10000 - p_fee_bps a)) `div` 10000)
    by (apply Z.div_pos; [unfold MAX_FEE_BPS in *; nia|done]).
  all: assert ((x * (10000 - p_fee_bps a)) `div` 10000 ≤ x - 0) by lia.
  all: fold (protocol_fee x (p_fee_bps a) (default 0 (ProtocolFeeShareBps (store w)))) in *.
  all: set (pf := protocol_fee x (p_fee_bps a) (default 0 (ProtocolFeeShareBps (store w)))) in *.
  all: [> exists a, true, (x - pf)|exists a, true, (x - 0)
         |exists a, false, (x - pf)|exists a, false, (x - 0)].
  all: split_and!; [eapply (swap_trade user i a _ x _ ((x * (10000 - p_fee_bps a)) `div` 10000));
    try done; try exact Hr6|done..].
Qed.

Lemma flash_trade user i pool a_in req pf out e w l l2 w3 w4 w5 ev :
  wf_env self e → user ≠ self → pool_ok i pool → PoolAt (store w) !! i = Some pool →
  fair pool a_in (req - pf) out → 0 ≤ pf →
  tok_transfer e (ledger w) (pool_token (negb a_in) pool) self user out = Some l →
  tok_transfer e l (pool_token a_in pool) user self req = Some l2 →
  pay_protocol_fee (pool_token a_in pool) pf e {| w with ledger := l2 |} = Ok (tt, w3) →
  set_pool (after_trade pool a_in (req - pf) out) e w3 = Ok (tt, w4) →
  invalidate_query_cache i e w4 = Ok (tt, w5) →
  trade w {| w5 with log := ev |} i pool a_in (req - pf) out.
Proof.
  intros Hwf Hu Hok Hpool Hfair Hpf Hout Hin Hpay Hset Hcache.
  apply (pay_protocol_fee_spec _ _ _ _ _ _ Hwf Hpf) in Hpay as (l1 & -> & Hl1).
  apply set_pool_spec in Hset as ->. apply invalidate_spec in Hcache as [Hst Hl].
  apply transfer_moved in Hin, Hout. cbn in *.
  split; [done|done| |].
  - cbn. rewrite Hst. destruct a_in; cbn; by rewrite (po_id _ _ Hok).
  - cbn. rewrite Hl. by eapply flash_ledger.
Qed.

(** The tokens of a validated pair are the pool's, in one of the two orders. *)
Lemma reserves_for_pair_spec pool tk_in tk_out e w r w' :
  reserves_for_pair pool tk_in tk_out e w = Ok (r, w') → w' = w ∧
  ∃ a_in, r = (reserve_in a_in pool, reserve_out a_in pool, negb a_in) ∧
    tk_in = pool_token a_in pool ∧ tk_out = pool_token (negb a_in) pool.
Proof.
  intros Hr. unfold reserves_for_pair, validate_pool_tokens in Hr. minv Hr; zbool.
  - split; [done|]. exists true. by subst.
  - split; [done|]. exists false. destruct (orb_prop _ _ Hr0) as [Hv|Hv]; [congruence|].
    zbool. by subst.
Qed.

Lemma flash_swap_body_spec user i tk_out out tk_in max_in e w req w' :
  wf_env self e → user ≠ self → amm_inv (store w) →
  flash_swap_body user i tk_out out tk_in max_in e w = Ok (req, w') →
  ∃ pool a_in net, trade w w' i pool a_in net out ∧ tk_in = pool_token a_in pool ∧ req ≤ max_in.
Proof.
  intros Hwf Hu Hinv Hr. unfold flash_swap_body, get_protocol_fee_share_bps in Hr.
  unfold validate_pool_tokens in Hr.
  minv Hr. all: spec get_pool_spec as [Hpool ->]. all: rewrite (wf_self _ _ Hwf) in *.
  all: pose proof (ai_pool _ Hinv _ _ Hpool) as Hok; pose proof (po_fee _ _ Hok) as Hf; zbool.
  all: spec reserves_for_pair_spec as [-> (a_in & Hr2 & -> & ->)]; destruct a_in; simplify_eq.
  all: spec get_amount_in_spec as (Hout & Hin & Hreq & Hprice & ->); [|done].
  all: spec calculate_swap_fee_spec as [-> ->]; inv_checked.
  all: destruct (protocol_fee_split a0 i a (store w)) as (Hpf & Hnet & Hfee); [done..|].
  all: assert (0 ≤ (a0 * (10000 - p_fee_bps a)) `div` 10000)
    by (apply Z.div_pos; [unfold MAX_FEE_BPS in *; nia|done]).
  all: fold (protocol_fee a0 (p_fee_bps a) (default 0 (ProtocolFeeShareBps (store w)))) in *.
  all: set (pf := protocol_fee a0 (p_fee_bps a) (default 0 (ProtocolFeeShareBps (store w)))) in *.
  all: [> exists a, false, (a0 - pf)|exists a, true, (a0 - pf)].
  all: split_and!; [|done|lia].
  all: eapply (flash_trade user i a _ a0 pf out); try done; try exact Hr6.
  all: eapply (flash_fair _ _ a0); try done; lia.
Qed.
End specs.

(** ** Sums over the storage maps *)

Definition rewards_in (rw : gmap (Z * Address) Z) (tk : Address) : Z :=
  msum (λ k n, if bool_decide (k.2 = tk) then n else 0) rw.

Lemma lp_held_insert lp i a n j :
  lp_held (<[(i, a) := n]> lp) j
  = lp_held lp j + (if i =? j then n - default 0 (lp !! (i, a)) else 0).
Proof.
  unfold lp_held. rewrite msum_insert; cbn. destruct (i =? j); destruct (lp !! (i, a)); cbn; lia.
Qed.

Lemma rewards_in_insert rw i tk n tk' :
  rewards_in (<[(i, tk) := n]> rw) tk'
  = rewards_in rw tk' + (if bool_decide (tk = tk') then n - default 0 (rw !! (i, tk)) else 0).
Proof.
  unfold rewards_in. rewrite msum_insert; cbn.
  case_bool_decide; destruct (rw !! (i, tk)); cbn; lia.
Qed.

Lemma lp_balance_nonneg st k : amm_inv st → 0 ≤ default 0 (LpBalance st !! k).
Proof. intros Hinv. destruct (LpBalance st !! k) as [n|] eqn:Hk; [by eapply ai_lp|done]. Qed.

Lemma reward_nonneg st k : amm_inv st → 0 ≤ default 0 (LpRewardBalance st !! k).
Proof. intros Hinv. destruct (LpRewardBalance st !! k) as [n|] eqn:Hk; [by eapply ai_rewards|done]. Qed.

(** One provider holds at most the whole supply. *)
Lemma lp_balance_le st i a pool :
  amm_inv st → PoolAt st !! i = Some pool →
  default 0 (LpBalance st !! (i, a)) ≤ p_lp_total_supply pool.
Proof.
  intros Hinv Hpool. pose proof (ai_supply _ Hinv i) as Hsum. rewrite Hpool in Hsum. simpl in Hsum.
  destruct (LpBalance st !! (i, a)) as [n|] eqn:Hk; simpl; [|eapply po_supply, ai_pool; eauto].
  rewrite <- Hsum. unfold lp_held.
  pose proof (msum_lookup_le (λ k n, if k.1 =? i then n else 0) (LpBalance st) (i, a) n) as Hle.
  simpl in Hle. rewrite Z.eqb_refl in Hle. apply Hle; [|done].
  intros k v Hv. destruct (_ =? _); [by eapply ai_lp|done].
Qed.

Lemma pool_owes_nonneg i pool tk : pool_ok i pool → 0 ≤ pool_owes tk pool.
Proof. intros []. unfold pool_owes. repeat case_bool_decide; lia. Qed.

(** ** Replacing one pool *)

Record pool_replaced (st st' : State) (i : Z) (pool pool' : Pool) : Prop := {
  pr_pool : PoolAt st !! i = Some pool;
  pr_pools : PoolAt st' = <[i := pool']> (PoolAt st);
  pr_rewards : LpRewardBalance st' = LpRewardBalance st;
  pr_admin : Admin st' = Admin st;
  pr_counter : PoolCounter st' = PoolCounter st;
  pr_share : ProtocolFeeShareBps st' = ProtocolFeeShareBps st;
  pr_collector : GovernanceCollector st' = GovernanceCollector st;
}.

Lemma owed_replaced st st' i pool pool' tk :
  pool_replaced st st' i pool pool' →
  owed st' tk = owed st tk - pool_owes tk pool + pool_owes tk pool'.
Proof.
  intros []. unfold owed. rewrite pr_pools0, pr_rewards0, (msum_insert_update _ _ _ pool) by done. lia.
Qed.

Lemma inv_replaced st st' i pool pool' :
  amm_inv st → pool_replaced st st' i pool pool' → pool_ok i pool' →
  (∀ k n, LpBalance st' !! k = Some n → 0 ≤ n) →
  (∀ j, lp_held (LpBalance st') j = lp_held (LpBalance st) j
     + (if i =? j then p_lp_total_supply pool' - p_lp_total_supply pool else 0)) →
  amm_inv st'.
Proof.
  intros Hinv [] Hok Hlp Hheld. split; rewrite ?pr_pools0, ?pr_admin0, ?pr_counter0, ?pr_share0, ?pr_collector0, ?pr_rewards0.
  - intros j. rewrite lookup_insert. case_decide; subst; [|apply ai_pools; done].
    rewrite <- (ai_pools _ Hinv), pr_pool0. by split.
  - intros j p. rewrite lookup_insert. case_decide; subst; [naive_solver|by apply ai_pool].
  - by apply ai_counter.
  - by apply ai_admin.
  - done.
  - intros j. rewrite Hheld, lookup_insert, (ai_supply _ Hinv).
    case_decide as Hd; subst; [rewrite Z.eqb_refl, pr_pool0; simpl; lia|].
    rewrite (proj2 (Z.eqb_neq i j)) by done. lia.
  - by apply ai_rewards.
  - by apply ai_share.
  - by apply ai_collector.
Qed.

(** ** Sound worlds *)

(** The products of the reserves do not shrink. *)
Definition pools_grow (st st' : State) : Prop :=
  ∀ i pool, PoolAt st !! i = Some pool →
  ∃ pool', PoolAt st' !! i = Some pool' ∧ product pool ≤ product pool'.

#[global] Instance pools_grow_preorder : PreOrder pools_grow.
Proof.
  split.
  - intros st i pool Hp. exists pool. split; [done|lia].
  - intros s1 s2 s3 H12 H23 i pool Hp. destruct (H12 i pool Hp) as (p2 & Hp2 & Hle).
    destruct (H23 i p2 Hp2) as (p3 & Hp3 & Hle'). exists p3. split; [done|lia].
Qed.

Lemma replaced_grows st st' i pool pool' :
  pool_replaced st st' i pool pool' → product pool ≤ product pool' → pools_grow st st'.
Proof.
  intros [] Hle j p Hp. rewrite pr_pools0, lookup_insert. case_decide; subst; [|exists p; split; [done|lia]].
  simplify_eq. eauto.
Qed.

(** The share of a reserve that [lp] of [supply] tokens are worth, rounded down. *)
Lemma share_facts lp r supply :
  0 < lp ≤ supply → 0 ≤ r →
  let q := (lp * r) `div` supply in
  0 ≤ q ≤ r ∧ (lp = supply → q = r) ∧ (lp < supply → 0 < r → q < r)
  ∧ r * (supply - lp) ≤ (r - q) * supply.
Proof.
  intros Hlp Hr. cbv zeta. set (q := (lp * r) `div` supply).
  assert (supply * q ≤ lp * r) by (apply Z.mul_div_le; lia).
  split_and!.
  - apply Z.div_pos; nia.
  - apply Z.div_le_upper_bound; nia.
  - intros ->. unfold q. rewrite Z.mul_comm. apply Z.div_mul. lia.
  - intros. apply Z.div_lt_upper_bound; nia.
  - nia.
Qed.

Section sound.
Context `{TokenHost} `{!TokenLaws} (self : Address).
Implicit Types (w : World State Event) (e : Env).

Definition sound w : Prop :=
  amm_inv (store w) ∧ ∀ tk, owed (store w) tk ≤ tok_balance (ledger w) tk self.

(** Two worlds with the same books differ only in caches, switches, limits,
    positions and events; nothing here depends on those. *)
Definition books w :=
  (Admin (store w), PoolCounter (store w), PoolAt (store w), LpBalance (store w),
   LpRewardBalance (store w), ProtocolFeeShareBps (store w), GovernanceCollector (store w), ledger w).
Definition same_books w w' : Prop := books w = books w'.

#[global] Instance same_books_equiv : Equivalence same_books.
Proof. unfold same_books. split; repeat intro; congruence. Qed.

#[global] Instance sound_proper : Proper (same_books ==> iff) sound.
Proof.
  assert (∀ w w', same_books w w' → sound w → sound w') as Hgen.
  { intros [st l ls] [st' l' ls'] Hb [Hinv Hsol]. unfold same_books, books in Hb. cbn in *.
    destruct st, st'; cbn in *; simplify_eq. split; [by destruct Hinv; split|done]. }
  intros w w' Hb. split; apply Hgen; [done|by symmetry].
Qed.

Lemma same_books_pools w w' : same_books w w' → PoolAt (store w) = PoolAt (store w').
Proof. unfold same_books, books. congruence. Qed.

Definition grows w w' : Prop := pools_grow (store w) (store w').

#[global] Instance grows_preorder : PreOrder grows.
Proof.
  split; unfold grows.
  - intros w. apply (reflexivity (R := pools_grow)).
  - intros w1 w2 w3. apply (transitivity (R := pools_grow)).
Qed.

Lemma grows_same w w' : PoolAt (store w') = PoolAt (store w) → grows w w'.
Proof. intros Hp i pool Hi. exists pool. rewrite Hp. split; [done|lia]. Qed.

#[global] Instance grows_proper : Proper (same_books ==> same_books ==> iff) grows.
Proof.
  intros w1 w1' Hb1%same_books_pools w2 w2' Hb2%same_books_pools.
  unfold grows, pools_grow. by rewrite Hb1, Hb2.
Qed.

(** A step that leaves the books alone, before or after a sound one. *)
Lemma sound_after w w1 w' : same_books w1 w' → sound w1 ∧ grows w w1 → sound w' ∧ grows w w'.
Proof. intros Hb. by rewrite Hb. Qed.

Lemma sound_before w w1 w' : same_books w w1 → (sound w1 → sound w' ∧ grows w1 w') → sound w → sound w' ∧ grows w w'.
Proof. intros Hb. by rewrite Hb. Qed.

Lemma trade_sound w w' i pool a_in net out :
  trade self w w' i pool a_in net out → sound w →
  sound w' ∧ grows w w'.
Proof.
  intros [Hpool Hfair Hst Hl] [Hinv Hsol]. destruct (ai_pool _ Hinv _ _ Hpool).
  assert (pool_replaced (store w) (store w') i pool (after_trade pool a_in net out)) as Hrep.
  { rewrite Hst. by split. }
  destruct Hfair. split; [split|].
  - apply (inv_replaced _ _ _ _ _ Hinv Hrep).
    + destruct a_in; cbn in *; split; cbn; try done; lia.
    + rewrite Hst. cbn. by apply Hinv.
    + intros j. rewrite Hst. destruct a_in; cbn; destruct (_ =? _); lia.
  - intros tk. rewrite (owed_replaced _ _ _ _ _ _ Hrep). specialize (Hl tk). specialize (Hsol tk).
    destruct a_in; unfold pool_owes; cbn in *; repeat case_bool_decide; naive_solver lia.
  - by eapply replaced_grows.
Qed.

(** ** Liquidity *)

(** Minting rounds up, by less than one LP token. *)
Lemma mint_amount_spec i pool min_lp a b e w lp w' :
  pool_ok i pool → 0 < a → 0 < b →
  mint_amount pool min_lp a b e w = Ok (lp, w') →
  lp * p_reserve_a pool ≤ a * p_lp_total_supply pool + p_reserve_a pool ∧
  lp * p_reserve_b pool ≤ b * p_lp_total_supply pool + p_reserve_b pool ∧
  min_lp ≤ lp ∧ w' = w.
Proof.
  intros [] Ha Hb Hr. unfold mint_amount in Hr. minv Hr.
  - spec isqrt_pure as ->. zbool. rewrite (proj1 po_empty_a0), (proj1 po_empty_b0) by done. split_and!; lia || done.
  - repeat (spec ceil_div_spec as (? & ? & -> & ->)). arith.
    pose proof (Z.mul_div_le (a * p_lp_total_supply pool + p_reserve_a pool - 1) (p_reserve_a pool) ltac:(lia)).
    pose proof (Z.mul_div_le (b * p_lp_total_supply pool + p_reserve_b pool - 1) (p_reserve_b pool) ltac:(lia)).
    split_and!; [destruct (_ <? _) eqn:Hlt; zbool; nia..|lia|done].
Qed.

Lemma check_deposit_ratio_spec pool a b e w u w' :
  check_deposit_ratio pool a b e w = Ok (u, w') → w' = w.
Proof. intros Hr. by minv Hr using check_deposit_ratio. Qed.

Lemma add_liquidity_internal_spec provider i a b e w lp w' :
  wf_env self e → provider ≠ self → amm_inv (store w) →
  add_liquidity_internal provider i a b e w = Ok (lp, w') →
  0 < a ∧ 0 < b ∧ 0 < lp ∧ ∃ pool,
  lp * p_reserve_a pool ≤ a * p_lp_total_supply pool + p_reserve_a pool ∧
  lp * p_reserve_b pool ≤ b * p_lp_total_supply pool + p_reserve_b pool ∧
  pool_replaced (store w) (store w') i pool
    {| pool with p_reserve_a := p_reserve_a pool + a; p_reserve_b := p_reserve_b pool + b;
       p_lp_total_supply := p_lp_total_supply pool + lp |} ∧
  LpBalance (store w') =
    <[(i, provider) := default 0 (LpBalance (store w) !! (i, provider)) + lp]> (LpBalance (store w)) ∧
  ∀ tk, tok_balance (ledger w') tk self = tok_balance (ledger w) tk self
    + (if bool_decide (tk = p_token_a pool) then a else 0)
    + (if bool_decide (tk = p_token_b pool) then b else 0).
Proof.
  intros Hwf Hne Hinv Hr. unfold add_liquidity_internal, get_min_lp_token_threshold, get_risk_params,
    get_lp_balance, set_lp_balance, set_pool in Hr. minv Hr.
  spec get_pool_spec as [Hpool ->]. rewrite (wf_self _ _ Hwf) in *. zbool.
  pose proof (ai_pool _ Hinv _ _ Hpool) as Hok.
  spec mint_amount_spec as (Ha & Hb & _ & ->); [|done..]. spec check_deposit_ratio_spec as ->.
  spec invalidate_spec as [Hst Hl]. inv_checked. cbn in *.
  split_and!; [done..|]. exists a0. rewrite Hst, Hl, (po_id _ _ Hok). cbn.
  split_and!; [done|done|by split|done|].
  intros tk. apply transfer_moved in Hr5, Hr6.
  by rewrite (moved_in _ _ _ _ _ _ tk Hr6 Hne), (moved_in _ _ _ _ _ _ tk Hr5 Hne).
Qed.

Lemma remove_liquidity_internal_spec provider i lp e w r w' :
  wf_env self e → provider ≠ self → amm_inv (store w) →
  remove_liquidity_internal provider i lp e w = Ok (r, w') →
  0 < lp ≤ default 0 (LpBalance (store w) !! (i, provider)) ∧ ∃ pool,
  r = ((lp * p_reserve_a pool) `div` p_lp_total_supply pool,
       (lp * p_reserve_b pool) `div` p_lp_total_supply pool) ∧
  pool_replaced (store w) (store w') i pool
    {| pool with p_reserve_a := p_reserve_a pool - r.1; p_reserve_b := p_reserve_b pool - r.2;
       p_lp_total_supply := p_lp_total_supply pool - lp |} ∧
  LpBalance (store w') =
    <[(i, provider) := default 0 (LpBalance (store w) !! (i, provider)) - lp]> (LpBalance (store w)) ∧
  ∀ tk, tok_balance (ledger w') tk self = tok_balance (ledger w) tk self
    - (if bool_decide (tk = p_token_a pool) then r.1 else 0)
    - (if bool_decide (tk = p_token_b pool) then r.2 else 0).
Proof.
  intros Hwf Hne Hinv Hr. unfold remove_liquidity_internal, get_min_lp_token_threshold, get_risk_params,
    get_lp_balance, set_lp_balance, set_pool in Hr. minv Hr.
  spec get_pool_spec as [Hpool ->]. rewrite (wf_self _ _ Hwf) in *. zbool.
  pose proof (ai_pool _ Hinv _ _ Hpool) as Hok.
  pose proof (po_reserve_a _ _ Hok). pose proof (po_reserve_b _ _ Hok).
  repeat (spec floor_div_spec as (? & -> & ->)). spec invalidate_spec as [Hst Hl]. inv_checked. cbn in *.
  rewrite !quot_div_nonneg in * by nia.
  split_and!; [done..|]. exists a. rewrite Hst, Hl. cbn. rewrite (po_id _ _ Hok).
  split_and!; [done|by split|done|].
  intros tk. apply transfer_moved in Hr14, Hr15.
  by rewrite (moved_out _ _ _ _ _ _ tk Hr15 Hne), (moved_out _ _ _ _ _ _ tk Hr14 Hne).
Qed.

Lemma add_liquidity_sound provider i a b e w lp w' :
  wf_env self e → provider ≠ self → sound w →
  add_liquidity_internal provider i a b e w = Ok (lp, w') →
  sound w' ∧ grows w w'.
Proof.
  intros Hwf Hne [Hinv Hsol] Hr.
  apply add_liquidity_internal_spec in Hr as (Ha & Hb & Hlp & pool & _ & _ & Hrep & Hbal & Hl); [|done..].
  destruct (ai_pool _ Hinv _ _ (pr_pool _ _ _ _ _ Hrep)). split; [split|].
  - apply (inv_replaced _ _ _ _ _ Hinv Hrep).
    + split; cbn; try done; lia.
    + rewrite Hbal. intros k n. rewrite lookup_insert. case_decide; [|by apply ai_lp].
      pose proof (lp_balance_nonneg _ (i, provider) Hinv). intros. simplify_eq. lia.
    + intros j. rewrite Hbal, lp_held_insert. cbn. destruct (i =? j); lia.
  - intros tk. rewrite (owed_replaced _ _ _ _ _ _ Hrep), Hl. specialize (Hsol tk).
    unfold pool_owes; cbn. repeat case_bool_decide; naive_solver lia.
  - eapply replaced_grows; [done|]. unfold product. cbn. nia.
Qed.

Lemma remove_liquidity_sound provider i lp e w r w' :
  wf_env self e → provider ≠ self → sound w →
  remove_liquidity_internal provider i lp e w = Ok (r, w') → sound w'.
Proof.
  intros Hwf Hne [Hinv Hsol] Hr.
  apply remove_liquidity_internal_spec in Hr as (Hlp & pool & -> & Hrep & Hbal & Hl); [|done..].
  pose proof (pr_pool _ _ _ _ _ Hrep) as Hpool. pose proof (lp_balance_le _ _ provider _ Hinv Hpool).
  destruct (ai_pool _ Hinv _ _ Hpool).
  destruct (share_facts lp (p_reserve_a pool) (p_lp_total_supply pool)) as (Ha1 & Ha2 & Ha3 & _); [lia|done|].
  destruct (share_facts lp (p_reserve_b pool) (p_lp_total_supply pool)) as (Hb1 & Hb2 & Hb3 & _); [lia|done|].
  cbv zeta in *. split.
  - apply (inv_replaced _ _ _ _ _ Hinv Hrep).
    + split; cbn; try done; lia.
    + rewrite Hbal. intros k n. rewrite lookup_insert. case_decide; [|by apply ai_lp].
      intros. simplify_eq. lia.
    + intros j. rewrite Hbal, lp_held_insert. cbn. destruct (i =? j); lia.
  - intros tk. rewrite (owed_replaced _ _ _ _ _ _ Hrep), Hl. specialize (Hsol tk).
    unfold pool_owes; cbn. repeat case_bool_decide; naive_solver lia.
Qed.

(** ** Rewards *)

(** The reward balances after [n] of a pool's token is paid out. *)
Record rewards_paid (rw rw' : gmap (Z * Address) Z) (i : Z) (tk : Address) (n : Z) : Prop := {
  rp_balance k : default 0 (rw' !! k) = default 0 (rw !! k) - (if bool_decide (k = (i, tk)) then n else 0);
  rp_total tk' : rewards_in rw' tk' = rewards_in rw tk' - (if bool_decide (tk = tk') then n else 0);
}.

Lemma pay_reward_spec provider i tk reward share e w u w' :
  wf_env self e → 0 ≤ share → reward = default 0 (LpRewardBalance (store w) !! (i, tk)) →
  pay_reward provider i tk reward share e w = Ok (u, w') →
  ∃ l' rw', w' = {| w with store := {| (store w) with LpRewardBalance := rw' |}; ledger := l' |} ∧
    moved (ledger w) l' tk self provider share ∧
    rewards_paid (LpRewardBalance (store w)) rw' i tk share.
Proof.
  intros Hwf Hs -> Hr. unfold pay_reward, set_lp_reward_balance in Hr. minv Hr; arith.
  - rewrite (wf_self _ _ Hwf) in *. apply transfer_moved in Hr0. eexists _, _. split_and!; [done..|].
    split.
    + intros k. rewrite lookup_insert. case_decide as Hk; case_bool_decide; subst; simpl; try done. lia.
    + intros tk'. rewrite rewards_in_insert. case_bool_decide; lia.
  - assert (share = 0) as -> by lia. exists (ledger w), (LpRewardBalance (store w)).
    split_and!; [by destruct w as [[] ? ?]| |].
    + intros tk' a. repeat case_bool_decide; lia.
    + split; intros; case_bool_decide; lia.
Qed.

(** What a claim does: both shares are paid and subtracted, nothing else. *)
Record claimed_rewards (w w' : World State Event) (i : Z) (provider : Address) (pool : Pool)
    (sa sb : Z) : Prop := {
  cl_pool : PoolAt (store w) !! i = Some pool;
  cl_balance : 0 < default 0 (LpBalance (store w) !! (i, provider));
  cl_share_a : sa = (default 0 (LpRewardBalance (store w) !! (i, p_token_a pool))
    * default 0 (LpBalance (store w) !! (i, provider))) `div` p_lp_total_supply pool;
  cl_share_b : sb = (default 0 (LpRewardBalance (store w) !! (i, p_token_b pool))
    * default 0 (LpBalance (store w) !! (i, provider))) `div` p_lp_total_supply pool;
  cl_store : ∃ rw1 rw2, store w' = {| (store w) with LpRewardBalance := rw2 |} ∧
    rewards_paid (LpRewardBalance (store w)) rw1 i (p_token_a pool) sa ∧
    rewards_paid rw1 rw2 i (p_token_b pool) sb;
  cl_ledger : ∃ l1, moved (ledger w) l1 (p_token_a pool) self provider sa ∧
    moved l1 (ledger w') (p_token_b pool) self provider sb;
  cl_supply : 0 < p_lp_total_supply pool;
  cl_range tk : tk = p_token_a pool ∨ tk = p_token_b pool →
    default 0 (LpRewardBalance (store w) !! (i, tk)) * default 0 (LpBalance (store w) !! (i, provider))
      ≤ int_max I128;
}.

(** A holder's share of a reward is between zero and the whole. *)
Lemma reward_share_le st i pool tk provider :
  amm_inv st → PoolAt st !! i = Some pool → 0 < p_lp_total_supply pool →
  let r := default 0 (LpRewardBalance st !! (i, tk)) in
  0 ≤ (r * default 0 (LpBalance st !! (i, provider))) `div` p_lp_total_supply pool ≤ r.
Proof.
  intros Hinv Hpool Hs. cbv zeta. pose proof (reward_nonneg _ (i, tk) Hinv).
  pose proof (lp_balance_le _ _ provider _ Hinv Hpool). pose proof (lp_balance_nonneg _ (i, provider) Hinv).
  split; [apply Z.div_pos; nia|apply Z.div_le_upper_bound; nia].
Qed.

Lemma claim_spec provider i e w sa sb w' :
  wf_env self e → amm_inv (store w) →
  claim_lp_rewards_body provider i e w = Ok ((sa, sb), w') →
  ∃ pool, claimed_rewards w w' i provider pool sa sb.
Proof.
  intros Hwf Hinv Hr. unfold claim_lp_rewards_body, get_lp_balance, get_lp_reward_balance in Hr. minv Hr.
  spec get_pool_spec as [Hpool ->]. repeat (spec floor_div_spec as (? & -> & ->)). inv_checked. zbool.
  pose proof (reward_nonneg _ (i, p_token_a a) Hinv). pose proof (reward_nonneg _ (i, p_token_b a) Hinv).
  rewrite !quot_div_nonneg in * by nia.
  pose proof (reward_share_le _ _ _ (p_token_a a) provider Hinv Hpool ltac:(done)) as Hsa.
  pose proof (reward_share_le _ _ _ (p_token_b a) provider Hinv Hpool ltac:(done)) as Hsb. cbv zeta in *.
  apply pay_reward_spec in Hr7 as (l1 & rw1 & -> & Hm1 & Hp1); [|done|lia|done]. cbn [store ledger] in *.
  assert (default 0 (LpRewardBalance (store w) !! (i, p_token_b a)) = default 0 (rw1 !! (i, p_token_b a))) as Hb.
  { rewrite (rp_balance _ _ _ _ _ Hp1), bool_decide_eq_false_2; [lia|]. intros [= Heq].
    by apply (po_tokens _ _ (ai_pool _ Hinv _ _ Hpool)). }
  apply pay_reward_spec in Hr8 as (l2 & rw2 & -> & Hm2 & Hp2); [|done|lia|done].
  exists a. split; cbn [store ledger]; [done..|by eauto 10|by eauto|done|].
  intros tk [->| ->]; lia.
Qed.

Lemma rewards_paid_nonneg rw rw' i tk n :
  rewards_paid rw rw' i tk n → n ≤ default 0 (rw !! (i, tk)) →
  (∀ k m, rw !! k = Some m → 0 ≤ m) → ∀ k m, rw' !! k = Some m → 0 ≤ m.
Proof.
  intros Hp Hn Hrw k m Hk. pose proof (rp_balance _ _ _ _ _ Hp k) as Hb. rewrite Hk in Hb. simpl in Hb.
  assert (0 ≤ default 0 (rw !! k)) by (destruct (rw !! k) eqn:?; [by eapply Hrw|done]).
  case_bool_decide; subst; lia.
Qed.

Lemma inv_rewards st rw :
  amm_inv st → (∀ k n, rw !! k = Some n → 0 ≤ n) → amm_inv {| st with LpRewardBalance := rw |}.
Proof. intros [] Hrw. by split. Qed.

Lemma claim_sound provider i e w r w' :
  wf_env self e → provider ≠ self → sound w →
  claim_lp_rewards_body provider i e w = Ok (r, w') → sound w' ∧ PoolAt (store w') = PoolAt (store w).
Proof.
  intros Hwf Hne [Hinv Hsol] Hr. destruct r as [sa sb].
  apply claim_spec in Hr as (pool & Hcl); [|done..].
  destruct Hcl as [Hpool _ Hsa Hsb (rw1 & rw2 & Hst & Hp1 & Hp2) (l1 & Hm1 & Hm2) Hs _].
  pose proof (po_tokens _ _ (ai_pool _ Hinv _ _ Hpool)) as Htk.
  pose proof (reward_share_le _ _ _ (p_token_a pool) provider Hinv Hpool Hs) as Ha. cbv zeta in Ha.
  pose proof (reward_share_le _ _ _ (p_token_b pool) provider Hinv Hpool Hs) as Hb. cbv zeta in Hb.
  rewrite <- Hsa in Ha. rewrite <- Hsb in Hb.
  split; [|by rewrite Hst]. split.
  - rewrite Hst. apply inv_rewards; [done|].
    apply (rewards_paid_nonneg _ _ _ _ _ Hp2).
    { rewrite (rp_balance _ _ _ _ _ Hp1), bool_decide_eq_false_2; [lia|]. congruence. }
    apply (rewards_paid_nonneg _ _ _ _ _ Hp1); [lia|]. by apply ai_rewards.
  - intros tk. rewrite (moved_out _ _ _ _ _ _ tk Hm2 Hne), (moved_out _ _ _ _ _ _ tk Hm1 Hne), Hst.
    specialize (Hsol tk). unfold owed in *. cbn [PoolAt LpRewardBalance] in *.
    fold (rewards_in rw2 tk). fold (rewards_in (LpRewardBalance (store w)) tk) in Hsol.
    rewrite (rp_total _ _ _ _ _ Hp2), (rp_total _ _ _ _ _ Hp1).
    repeat case_bool_decide; simplify_eq; lia.
Qed.

Lemma deposit_rewards_sound admin i tk n e w u w' :
  wf_env self e → sound w → deposit_lp_rewards admin i tk n e w = Ok (u, w') →
  sound w' ∧ PoolAt (store w') = PoolAt (store w).
Proof.
  intros Hwf [Hinv Hsol] Hr. unfold deposit_lp_rewards, get_lp_reward_balance, set_lp_reward_balance in Hr.
  minv Hr. spec amm_assert_admin_spec as [_ ->]. spec get_pool_spec as [Hpool ->].
  rewrite (wf_self _ _ Hwf) in *. arith. split; [|done]. split; cbn [store ledger].
  - apply inv_rewards; [done|]. intros k m [[<- <-]|[_ Hk]]%lookup_insert_Some; [|by eapply ai_rewards].
    pose proof (reward_nonneg _ (i, tk) Hinv). lia.
  - intros tk'. apply transfer_moved in Hr5. clear Hr4.
    rewrite (moved_in _ _ _ _ _ _ tk' Hr5) by eauto with contracts.
    specialize (Hsol tk'). unfold owed in *. cbn [PoolAt LpRewardBalance] in *.
    fold (rewards_in (LpRewardBalance (store w)) tk') in Hsol.
    match goal with |- context [msum _ (<[(i, tk) := ?m]> ?rw)] =>
      fold (rewards_in (<[(i, tk) := m]> rw) tk') end.
    rewrite rewards_in_insert. repeat case_bool_decide; simplify_eq; lia.
Qed.

(** ** Reading the positions and the routes changes nothing *)

Lemma get_user_total_position_pure user e w n w' :
  get_user_total_position user e w = Ok (n, w') → w' = w.
Proof.
  intros Hr. unfold get_user_total_position, get_pool_counter in Hr. minv Hr.
  apply (foldM_pure _ _ _ _ _ _ _ Hr). intros a b w0 b' w1 Hone. unfold add_position_size, get_user_position in Hone. minv Hone.
  all: by spec get_pool_spec as [_ ->].
Qed.

Lemma concentration_pure user e w n w' :
  calculate_concentration_score user e w = Ok (n, w') → w' = w.
Proof.
  intros Hr. unfold calculate_concentration_score, get_pool_counter in Hr. minv Hr.
  all: spec get_user_total_position_pure as ->; try done.
  apply (foldM_pure _ _ _ _ _ _ _ Hr). intros a0 b w0 b' w1 Hone. unfold max_concentration_step, get_user_position in Hone. minv Hone.
  all: by spec get_pool_spec as [_ ->].
Qed.

Lemma check_position_limits_pure user tk n e w u w' :
  check_position_limits user tk n e w = Ok (u, w') → w' = w.
Proof.
  intros Hr. unfold check_position_limits, get_risk_params, get_user_position_for_token,
    get_user_position in Hr. minv Hr.
  spec concentration_pure as ->. spec get_user_total_position_pure as ->. done.
Qed.

Lemma update_user_position_spec user tk n e w u w' :
  update_user_position user tk n e w = Ok (u, w') →
  same_books w w'.
Proof.
  intros Hr. unfold update_user_position, get_user_position_for_token, get_user_position,
    set_user_position in Hr. by minv Hr.
Qed.

Lemma get_amount_out_pure x rin rout f e w r w' :
  (get_amount_out x rin rout f : M State Empty_set Event Z) e w = Ok (r, w') → w' = w.
Proof. intros Hr. by minv Hr using get_amount_out. Qed.

Lemma try_direct_route_pure i tk_in tk_out x e w r w' :
  try_direct_route i tk_in tk_out x e w = Ok (r, w') → w' = w.
Proof.
  intros Hr. unfold try_direct_route in Hr. minv Hr.
  all: spec get_pool_spec as [_ ->]; try spec get_amount_out_pure as ->; done.
Qed.

Lemma try_two_hop_route_pure i j tk_in tk_out x e w r w' :
  try_two_hop_route i j tk_in tk_out x e w = Ok (r, w') → w' = w.
Proof.
  intros Hr. unfold try_two_hop_route in Hr. minv Hr.
  all: repeat (spec get_pool_spec as [_ ->]); repeat (spec try_direct_route_pure as ->); done.
Qed.

Lemma find_best_route_spec tk_in tk_out x hops e w r w' :
  find_best_route tk_in tk_out x hops e w = Ok (r, w') →
  ∃ cb, w' = {| w with store := {| (store w) with CircuitBreakerActive := cb |} |}.
Proof.
  intros Hr. unfold find_best_route, get_pool_counter in Hr. minv Hr.
  all: spec check_trading_allowed_spec as [_ [cb Hw]]; exists cb; rewrite <- Hw; clear Hw.
  all: apply foldM_pure in Hr4 as ->;
    [|intros j b w0' b' w1' Hone; minv Hone; by spec try_direct_route_pure as ->]; try done.
  apply (foldM_pure _ _ _ _ _ _ _ Hr5). intros j b w0' b' w1' Hone.
  apply (foldM_pure _ _ _ _ _ _ _ Hone). intros j' b0 w0'' b0' w1'' Htwo. minv Htwo; [done|].
  by spec try_two_hop_route_pure as ->.
Qed.

(** ** Multi-hop swaps *)

Lemma execute_hop_sound user acc hop e w acc' w' :
  wf_env self e → user ≠ self → sound w → execute_hop user acc hop e w = Ok (acc', w') →
  sound w' ∧ grows w w'.
Proof.
  intros Hwf Hne Hs Hr. unfold execute_hop in Hr. minv Hr. spec get_pool_spec as [_ ->].
  spec swap_internal_spec as (pool & a_in & net & Ht & _); [|done|done|apply Hs].
  destruct (trade_sound _ _ _ _ _ _ _ Ht Hs). done.
Qed.

Lemma multi_hop_sound user route min_out e w r w' :
  wf_env self e → sound w → execute_multi_hop_swap user route min_out e w = Ok (r, w') →
  sound w' ∧ grows w w'.
Proof.
  intros Hwf Hs Hr. unfold execute_multi_hop_swap in Hr. minv Hr.
  assert (user ≠ self) as Hne by eauto with contracts.
  spec check_trading_allowed_spec as [_ [cb ->]]. spec check_position_limits_pure as ->.
  apply update_user_position_spec in Hr9, Hr10.
  eapply sound_after; [etrans; [exact Hr9|exact Hr10]|].
  eapply (foldM_inv _ (λ _ w0, sound w0 ∧ grows w w0) _ _ _ _ _ _ Hr5).
  - by eapply (sound_after _ w).
  - intros hop acc w0 acc' w1 _ [Hs0 Hg0] Hone.
    eapply execute_hop_sound in Hone as [Hs1 Hg1]; [|done..]. split; [done|by etrans].
Qed.

(** ** Every call *)

Lemma guard_sound {R} (f : M State Empty_set Event R) e w r w' :
  (∀ w1 w2, sound w1 → f e w1 = Ok (r, w2) → sound w2 ∧ grows w1 w2) →
  sound w → with_reentrancy_guard f e w = Ok (r, w') → sound w' ∧ grows w w'.
Proof.
  intros Hf Hs Hr. apply guard_spec in Hr as (w1 & Hr & ->).
  eapply (sound_after _ w1); [done|]. revert Hs.
  eapply sound_before; [|intros Hs; by eapply Hf]. done.
Qed.

Lemma create_pool_sound admin ta tb fee e w r w' :
  0 ≤ fee → sound w → create_pool admin ta tb fee e w = Ok (r, w') → sound w' ∧ grows w w'.
Proof.
  intros Hfee [Hinv Hsol] Hr. unfold create_pool, get_pool_counter, set_pool_counter, set_pool in Hr.
  minv Hr. spec amm_assert_admin_spec as [Hadm ->]. arith.
  pose proof (ai_counter _ Hinv) as Hn. set (n := default 0 (PoolCounter (store w))) in *.
  assert (PoolAt (store w) !! n = None) as Hfresh.
  { apply eq_None_not_Some. rewrite (ai_pools _ Hinv). fold n. lia. }
  split; [split|].
  - split; cbn [store Admin PoolCounter PoolAt LpBalance LpRewardBalance ProtocolFeeShareBps
      GovernanceCollector from_option id]; try lia; try congruence; try apply Hinv.
    + intros j. rewrite lookup_insert_is_Some', (ai_pools _ Hinv). fold n. simpl. lia.
    + intros j p [[<- <-]|[_ Hp]]%lookup_insert_Some; [|by eapply ai_pool]. by split.
    + intros j. rewrite (ai_supply _ Hinv), lookup_insert. case_decide; [|done]. subst j. by rewrite Hfresh.
  - intros tk. specialize (Hsol tk). unfold owed in *. cbn [store ledger PoolAt LpRewardBalance] in *.
    rewrite msum_insert_fresh by done. unfold pool_owes at 1. cbn. repeat case_bool_decide; lia.
  - intros j p Hp. exists p. split; [|lia]. cbn [store PoolAt]. rewrite lookup_insert_ne; congruence.
Qed.

Lemma initialize_sound admin collector e w u w' :
  sound w → initialize admin collector e w = Ok (u, w') → sound w' ∧ grows w w'.
Proof.
  intros [Hinv Hsol] Hr. unfold initialize, set_pool_counter, set_trading_paused,
    set_protocol_fee_share_bps, set_reentrancy_lock, set_governance_collector in Hr. minv Hr; zbool.
  all: assert (Admin (store w) = None) as Hnone by (by apply eq_None_not_Some).
  all: pose proof (ai_admin _ Hinv Hnone) as Hzero.
  all: split; [split; [|done]|by apply grows_same].
  all: destruct Hinv; split; cbn [store Admin PoolCounter PoolAt LpBalance LpRewardBalance
    ProtocolFeeShareBps GovernanceCollector from_option id]; try done; intros j; by rewrite ai_pools0, Hzero.
Qed.

Lemma set_fee_config_sound admin collector share e w u w' :
  0 ≤ share → sound w → set_fee_config admin collector share e w = Ok (u, w') → sound w' ∧ grows w w'.
Proof.
  intros Hshare [Hinv Hsol] Hr. unfold set_fee_config, set_governance_collector,
    set_protocol_fee_share_bps in Hr. minv Hr. spec amm_assert_admin_spec as [Hadm ->]. zbool.
  split; [split; [|done]|by apply grows_same]. destruct Hinv. by split.
Qed.

Lemma set_admin_sound admin new e w u w' :
  sound w → set_admin admin new e w = Ok (u, w') → sound w' ∧ grows w w'.
Proof.
  intros [Hinv Hsol] Hr. unfold set_admin in Hr. minv Hr. spec amm_assert_admin_spec as [Hadm ->].
  split; [split; [|done]|by apply grows_same]. destruct Hinv. by split.
Qed.

Lemma sound_same w w' : same_books w w' → sound w → sound w' ∧ grows w w'.
Proof. intros Hb Hs. by eapply sound_after. Qed.

(** Withdrawals apart, every call keeps the world sound and the products growing. *)
Definition is_withdrawal (c : Call) : bool :=
  match c with CRemoveLiquidity _ _ _ => true | _ => false end.

Lemma check_trading_same e w u w' : check_trading_allowed e w = Ok (u, w') → same_books w w'.
Proof. by intros [_ [cb ->]]%check_trading_allowed_spec. Qed.

Lemma exec_grows c e w w' :
  wf_env self e → call_ok c → sound w → is_withdrawal c = false →
  exec c e w = Ok (tt, w') → sound w' ∧ grows w w'.
Proof.
  intros Hwf Hc Hs Hw Hr. destruct c; try discriminate Hw; cbn [exec] in Hr;
    try (apply discard_Ok in Hr; destruct Hr as [r Hr]).
  - by eapply initialize_sound.
  - by eapply create_pool_sound.
  - minv Hr using add_liquidity. eapply guard_sound; [|done|done]. intros w1 w2 Hs1 Hone.
    eapply add_liquidity_sound; [done|eauto with contracts|done|done].
  - minv Hr using swap. apply check_trading_same in Hr1.
    eapply sound_before; [exact Hr1|intros Hs1|exact Hs].
    eapply guard_sound; [|exact Hs1|exact Hr]. intros w1 w2 Hs2 Hone.
    eapply swap_internal_spec in Hone as (pool & a_in & net & Ht & _);
      [|done|eauto with contracts|apply Hs2]. by eapply trade_sound.
  - minv Hr using flash_swap. apply check_trading_same in Hr1.
    eapply sound_before; [exact Hr1|intros Hs1|exact Hs].
    eapply guard_sound; [|exact Hs1|exact Hr]. intros w1 w2 Hs2 Hone.
    eapply flash_swap_body_spec in Hone as (pool & a_in & net & Ht & _);
      [|done|eauto with contracts|apply Hs2]. by eapply trade_sound.
  - apply deposit_rewards_sound in Hr as [Hs' Hp]; [|done..].
    split; [done|by apply grows_same].
  - minv Hr using claim_lp_rewards. eapply guard_sound; [|done|done]. intros w1 w2 Hs1 Hone.
    apply claim_sound in Hone as [Hs' Hp]; [|done|eauto with contracts|done].
    split; [done|by apply grows_same].
  - apply find_best_route_spec in Hr as [cb ->]. by eapply sound_same.
  - by eapply multi_hop_sound.
  - unfold pause_trading, set_trading_paused in Hr. minv Hr. spec amm_assert_admin_spec as [_ ->]. by eapply sound_same.
  - unfold resume_trading, set_trading_paused in Hr. minv Hr. spec amm_assert_admin_spec as [_ ->]. by eapply sound_same.
  - by eapply set_admin_sound.
  - by eapply set_fee_config_sound.
  - unfold set_risk_parameters, set_risk_params in Hr. minv Hr. spec amm_assert_admin_spec as [_ ->]. by eapply sound_same.
  - unfold trigger_circuit_breaker, get_risk_params, set_circuit_breaker_state in Hr. minv Hr. spec amm_assert_admin_spec as [_ ->].
    by eapply sound_same.
Qed.

Lemma exec_sound c e w w' :
  wf_env self e → call_ok c → sound w → exec c e w = Ok (tt, w') → sound w'.
Proof.
  intros Hwf Hc Hs Hr. destruct (is_withdrawal c) eqn:Hw; [|by eapply exec_grows].
  destruct c; try discriminate Hw. cbn [exec] in Hr. apply discard_Ok in Hr as [r Hr].
  minv Hr using remove_liquidity. apply guard_spec in Hr as (w1 & Hr & ->).
  apply remove_liquidity_sound in Hr; [|done|eauto with contracts|by eapply (sound_same w)].
  by eapply (sound_same w1).
Qed.

Lemma inv_lock st b : amm_inv st → amm_inv {| st with ReentrancyLock := b |}.
Proof. intros []. by split. Qed.

(** ** Reachable worlds *)

Definition reachable (t : Z) w : Prop :=
  ∃ t0 w0, store w0 = deployed ∧ (∀ tk, 0 ≤ tok_balance (ledger w0) tk self) ∧
    rtc (step exec call_ok self) (t0, w0) (t, w).

Lemma deployed_sound w0 :
  store w0 = deployed → (∀ tk, 0 ≤ tok_balance (ledger w0) tk self) → sound w0.
Proof.
  intros Hst Hbal. unfold sound. rewrite Hst. split.
  - split; cbn; try done. intros i. rewrite lookup_empty. split; [by intros []|lia].
  - intros tk. unfold owed. cbn. rewrite !msum_empty. apply Hbal.
Qed.

Lemma reachable_sound t w : reachable t w → sound w.
Proof.
  intros (t0 & w0 & Hst & Hbal & Hsteps).
  apply (reach_inv_world exec call_ok self (λ _, sound)) in Hsteps; [done| | |].
  - intros; by eapply exec_sound.
  - intros t1 t2 w1 l' _ Hl [Hinv Hsol]. split; [done|]. intros tk. cbn. specialize (Hl tk).
    specialize (Hsol tk). cbn in *. lia.
  - by apply deployed_sound.
Qed.

(** What each call may do to a pool. *)
Definition call_fair (c : Call) (pool pool' : Pool) : Prop :=
  match c with
  | CRemoveLiquidity _ _ _ =>
      p_reserve_a pool * p_lp_total_supply pool' ≤ p_reserve_a pool' * p_lp_total_supply pool ∧
      p_reserve_b pool * p_lp_total_supply pool' ≤ p_reserve_b pool' * p_lp_total_supply pool
  | CAddLiquidity _ _ _ _ =>
      p_reserve_a pool * p_lp_total_supply pool'
        ≤ p_reserve_a pool' * p_lp_total_supply pool + p_reserve_a pool ∧
      p_reserve_b pool * p_lp_total_supply pool'
        ≤ p_reserve_b pool' * p_lp_total_supply pool + p_reserve_b pool
  | _ => product pool ≤ product pool'
  end.

Lemma replaced_fair c st st' i pool pool' j p :
  (∀ q, call_fair c q q ∨ ¬ (0 ≤ p_reserve_a q ∧ 0 ≤ p_reserve_b q)) →
  amm_inv st → PoolAt st !! i = Some pool → PoolAt st' = <[i := pool']> (PoolAt st) →
  call_fair c pool pool' → PoolAt st !! j = Some p → ∃ p', PoolAt st' !! j = Some p' ∧ call_fair c p p'.
Proof.
  intros Hrefl Hinv Hpool Hpools Hfair Hp. rewrite Hpools, lookup_insert. case_decide; subst.
  - simplify_eq. eauto.
  - exists p. split; [done|]. destruct (ai_pool _ Hinv _ _ Hp). destruct (Hrefl p); [done|]. tauto.
Qed.

Lemma remove_fair provider i lp e w w' j p :
  wf_env self e → sound w → exec (CRemoveLiquidity provider i lp) e w = Ok (tt, w') →
  PoolAt (store w) !! j = Some p →
  ∃ p', PoolAt (store w') !! j = Some p' ∧ call_fair (CRemoveLiquidity provider i lp) p p'.
Proof.
  intros Hwf [Hinv Hsol] Hr. cbn [exec] in Hr. apply discard_Ok in Hr as [r Hr].
  minv Hr using remove_liquidity. apply guard_spec in Hr as (w1 & Hr & ->).
  apply remove_liquidity_internal_spec in Hr as (Hlp & pool & -> & Hrep & _);
    [|done|eauto with contracts|by apply inv_lock].
  pose proof (pr_pool _ _ _ _ _ Hrep) as Hpool. cbn in Hlp, Hpool.
  pose proof (lp_balance_le _ _ provider _ Hinv Hpool).
  destruct (ai_pool _ Hinv _ _ Hpool).
  destruct (share_facts lp (p_reserve_a pool) (p_lp_total_supply pool)) as (_ & _ & _ & Ha); [lia|done|].
  destruct (share_facts lp (p_reserve_b pool) (p_lp_total_supply pool)) as (_ & _ & _ & Hb); [lia|done|].
  eapply (replaced_fair _ (store w) _ i pool);
    [|done|exact (pr_pool _ _ _ _ _ Hrep)|exact (pr_pools _ _ _ _ _ Hrep)|].
  - intros q. left. split; lia.
  - split; cbn; lia.
Qed.

Lemma add_fair provider i a b e w w' j p :
  wf_env self e → sound w → exec (CAddLiquidity provider i a b) e w = Ok (tt, w') →
  PoolAt (store w) !! j = Some p →
  ∃ p', PoolAt (store w') !! j = Some p' ∧ call_fair (CAddLiquidity provider i a b) p p'.
Proof.
  intros Hwf [Hinv Hsol] Hr. cbn [exec] in Hr. apply discard_Ok in Hr as [r Hr].
  minv Hr using add_liquidity. apply guard_spec in Hr as (w1 & Hr & ->).
  apply add_liquidity_internal_spec in Hr as (Ha & Hb & Hlp & pool & Hma & Hmb & Hrep & _);
    [|done|eauto with contracts|by apply inv_lock].
  eapply (replaced_fair _ (store w) _ i pool);
    [|done|exact (pr_pool _ _ _ _ _ Hrep)|exact (pr_pools _ _ _ _ _ Hrep)|].
  - intros q. destruct (decide (0 ≤ p_reserve_a q ∧ 0 ≤ p_reserve_b q)) as [[? ?]|]; [left|by right].
    split; lia.
  - split; cbn; lia.
Qed.

(** ** Claiming again *)

Lemma pending_run i provider pool e w :
  PoolAt (store w) !! i = Some pool →
  let lp := default 0 (LpBalance (store w) !! (i, provider)) in
  let ra := default 0 (LpRewardBalance (store w) !! (i, p_token_a pool)) in
  let rb := default 0 (LpRewardBalance (store w) !! (i, p_token_b pool)) in
  0 < lp ≤ p_lp_total_supply pool → 0 ≤ ra → 0 ≤ rb →
  ra * lp ≤ int_max I128 → rb * lp ≤ int_max I128 →
  get_pending_lp_rewards i provider e w
  = Ok (((ra * lp) `div` p_lp_total_supply pool, (rb * lp) `div` p_lp_total_supply pool), w).
Proof.
  intros Hpool lp ra rb Hlp Ha Hb Hra Hrb.
  unfold get_pending_lp_rewards.
  assert (get_pool i e w = Ok (pool, w)) as Hget.
  { unfold get_pool. rewrite (bind_run _ _ _ _ (Some pool) w); [done|]. unfold gets. by rewrite Hpool. }
  rewrite (bind_run _ _ _ _ _ _ Hget), (bind_run _ _ _ _ lp w) by done.
  rewrite (proj2 (Z.leb_gt lp 0)), (proj2 (Z.leb_gt (p_lp_total_supply pool) 0)) by lia. cbn [orb].
  rewrite (bind_run _ _ _ _ ra w), (bind_run _ _ _ _ rb w) by done.
  rewrite (bind_run _ _ _ _ (ra * lp) w) by (apply plain_mul_run; cbn in *; nia).
  rewrite (bind_run _ _ _ _ ((ra * lp) `div` p_lp_total_supply pool) w) by (apply floor_div_run; nia).
  rewrite (bind_run _ _ _ _ (rb * lp) w) by (apply plain_mul_run; cbn in *; nia).
  rewrite (bind_run _ _ _ _ ((rb * lp) `div` p_lp_total_supply pool) w) by (apply floor_div_run; nia).
  done.
Qed.

(** What a claim leaves: the rest of both rewards, everything else as it was. *)
Lemma claimed_rest w w' i provider pool sa sb :
  amm_inv (store w) → claimed_rewards w w' i provider pool sa sb →
  default 0 (LpRewardBalance (store w') !! (i, p_token_a pool))
    = default 0 (LpRewardBalance (store w) !! (i, p_token_a pool)) - sa ∧
  default 0 (LpRewardBalance (store w') !! (i, p_token_b pool))
    = default 0 (LpRewardBalance (store w) !! (i, p_token_b pool)) - sb ∧
  PoolAt (store w') = PoolAt (store w) ∧ LpBalance (store w') = LpBalance (store w) ∧
  0 ≤ sa ≤ default 0 (LpRewardBalance (store w) !! (i, p_token_a pool)) ∧
  0 ≤ sb ≤ default 0 (LpRewardBalance (store w) !! (i, p_token_b pool)).
Proof.
  intros Hinv [Hpool _ -> -> (rw1 & rw2 & -> & Hp1 & Hp2) _ Hs _].
  pose proof (po_tokens _ _ (ai_pool _ Hinv _ _ Hpool)) as Htk. cbn [LpRewardBalance PoolAt LpBalance].
  rewrite !(rp_balance _ _ _ _ _ Hp2), !(rp_balance _ _ _ _ _ Hp1).
  pose proof (reward_share_le _ _ _ (p_token_a pool) provider Hinv Hpool Hs) as Ha.
  pose proof (reward_share_le _ _ _ (p_token_b pool) provider Hinv Hpool Hs) as Hb. cbv zeta in Ha, Hb.
  split_and!; try done; try lia; repeat case_bool_decide; simplify_eq; lia.
Qed.

Lemma claimed_pays w w' i provider pool sa sb tk :
  provider ≠ self → claimed_rewards w w' i provider pool sa sb →
  tok_balance (ledger w') tk provider = tok_balance (ledger w) tk provider
    + (if bool_decide (tk = p_token_a pool) then sa else 0)
    + (if bool_decide (tk = p_token_b pool) then sb else 0).
Proof.
  intros Hne [_ _ _ _ _ (l1 & Hm1 & Hm2) _ _].
  rewrite (moved_in _ _ _ _ _ _ tk Hm2), (moved_in _ _ _ _ _ _ tk Hm1) by congruence. done.
Qed.
End sound.

(** ** The theorems *)

Section theorems.
Context `{Laws : TokenLaws}.
Implicit Types (w : World State Event) (e : Env).

(** C10: in every reachable world the AMM holds, of every token, at least the
    reserves of all its pools and all the LP rewards it has not paid out. *)
Theorem amm_solvent self t w tk :
  reachable self t w →
  msum (λ _ pool, pool_owes tk pool) (PoolAt (store w)) + rewards_in (LpRewardBalance (store w)) tk
    ≤ tok_balance (ledger w) tk self.
Proof. intros Hr. apply (reachable_sound self) in Hr as [_ Hsol]. apply Hsol. Qed.

(** In every reachable world the pools are numbered 0 .. PoolCounter-1
    and well formed (two distinct tokens, a fee of at most 10%, reserves that
    are empty exactly when there are no LP tokens), every pool's LP supply is
    the sum of its providers' balances, no balance is negative, and the
    protocol's share of the fees is at most half, and zero without a collector. *)
Theorem amm_pools_ok self t w : reachable self t w → amm_inv (store w).
Proof. intros Hr. by apply (reachable_sound self) in Hr as [Hinv _]. Qed.

(** C11: what each call may do to the pools.  A swap, a flash swap, a multi-hop
    swap or any other call except the two below leaves the product of every
    pool's reserves at least as large; a withdrawal leaves at least as much
    of both reserves per remaining LP token; a deposit mints, because it
    rounds up, at most one LP token more than the proportion of either reserve
    it pays in. *)
Theorem amm_calls_fair self t w c e w' i pool :
  reachable self t w → wf_env self e → call_ok c → exec c e w = Ok (tt, w') →
  PoolAt (store w) !! i = Some pool →
  ∃ pool', PoolAt (store w') !! i = Some pool' ∧ call_fair c pool pool'.
Proof.
  intros Hr Hwf Hc Hx Hp. apply (reachable_sound self) in Hr as Hs.
  destruct (is_withdrawal c) eqn:Hw; [destruct c; try discriminate Hw; by eapply remove_fair|].
  destruct c; try by eapply add_fair.
  all: eapply exec_grows in Hx as [_ Hg]; [|done..].
  all: destruct (Hg i pool Hp) as (pool' & Hp' & Hle); by exists pool'.
Qed.

(** A reward claim pays the provider exactly its LP share, rounded down,
    of what is left of each token's rewards and takes that much out of the
    books; it leaves every LP balance as it was and records nothing else, so
    the provider can claim the same share of the remainder again, and
    [get_pending_lp_rewards] says so. *)
Theorem claim_lp_rewards_repeats self t w e provider i sa sb w' :
  reachable self t w → wf_env self e → claim_lp_rewards provider i e w = Ok ((sa, sb), w') →
  ∃ pool, PoolAt (store w) !! i = Some pool ∧
    let lp := default 0 (LpBalance (store w) !! (i, provider)) in
    let supply := p_lp_total_supply pool in
    let reward tk := default 0 (LpRewardBalance (store w) !! (i, tk)) in
    let reward' tk := default 0 (LpRewardBalance (store w') !! (i, tk)) in
    sa = (reward (p_token_a pool) * lp) `div` supply ∧
    sb = (reward (p_token_b pool) * lp) `div` supply ∧
    reward' (p_token_a pool) = reward (p_token_a pool) - sa ∧
    reward' (p_token_b pool) = reward (p_token_b pool) - sb ∧
    (∀ tk, tok_balance (ledger w') tk provider = tok_balance (ledger w) tk provider
       + (if bool_decide (tk = p_token_a pool) then sa else 0)
       + (if bool_decide (tk = p_token_b pool) then sb else 0)) ∧
    LpBalance (store w') = LpBalance (store w) ∧
    ∀ e', get_pending_lp_rewards i provider e' w' =
      Ok (((reward' (p_token_a pool) * lp) `div` supply,
           (reward' (p_token_b pool) * lp) `div` supply), w').
Proof.
  intros Hr Hwf Hx. apply (reachable_sound self) in Hr as [Hinv _]. minv Hx using claim_lp_rewards.
  apply guard_spec in Hx as (w1 & Hx & ->).
  apply (claim_spec self) in Hx as (pool & Hcl); [|done|by apply inv_lock].
  pose proof Hcl as Hrest.
  apply claimed_rest in Hrest as (Ha & Hb & HP & HL & Hna & Hnb); [|by apply inv_lock].
  pose proof (λ tk, claimed_pays self _ _ _ _ _ _ _ tk (wf_auth_ne _ _ _ Hwf Hr) Hcl) as Hpays.
  destruct Hcl as [Hpool Hlp Hsa Hsb _ _ Hs Hrange].
  cbn [store ledger PoolAt LpBalance LpRewardBalance] in *.
  exists pool. cbv zeta. rewrite Ha, Hb, HL. split_and!; try done. intros e'.
  pose proof (lp_balance_le _ _ provider _ Hinv Hpool).
  pose proof (Hrange (p_token_a pool) ltac:(by left)). pose proof (Hrange (p_token_b pool) ltac:(by right)).
  rewrite (pending_run i provider pool); cbn [store PoolAt LpBalance LpRewardBalance];
    rewrite ?HP, ?HL, ?Ha, ?Hb; try done; nia.
Qed.
End theorems.

(** ** A concrete history *)

Module AmmDemo.

Definition self := mkAddress "AMM".
Definition adm := mkAddress "ADM".
Definition gov := mkAddress "GOV".
Definition alice := mkAddress "ALICE".
Definition bob := mkAddress "BOB".
Definition carol := mkAddress "CAROL".
Definition ta := mkAddress "TA".
Definition tb := mkAddress "TB".

Definition w0 : World State Event := mkWorld deployed
  (sl_of [(ta, adm, 1000); (ta, alice, 10000); (tb, alice, 40000); (ta, bob, 10000);
          (tb, bob, 40000); (ta, carol, 3000)]) [].

Definition setup : list (Z * list Address * Call) :=
  [ (1, [adm], CInitialize adm (Some gov));
    (2, [adm], CSetFeeConfig adm gov 2000);
    (3, [adm], CCreatePool adm ta tb 30);
    (4, [alice], CAddLiquidity alice 0 10000 40000);
    (5, [bob], CAddLiquidity bob 0 10000 40000);
    (6, [adm], CDepositLpRewards adm 0 ta 1000);
    (7, [carol], CSwap carol 0 ta 2000 1) ].
Definition w1 := run_script exec self setup w0.

Definition more : list (Z * list Address * Call) :=
  [ (8, [alice], CClaimLpRewards alice 0);
    (9, [alice], CClaimLpRewards alice 0);
    (10, [bob], CRemoveLiquidity bob 0 5000) ].
Definition w2 := run_script exec self more w1.

Lemma amm_w1_reachable : reachable self 7 w1.
Proof.
  exists 0, w0. split; [reflexivity|]. split.
  - intros tk. apply sl_of_nonneg. reflexivity.
  - unfold w1. apply (run_script_reach exec call_ok self 0 setup w0); [vm_compute; reflexivity|].
    repeat constructor; cbn; lia.
Qed.

Lemma amm_w2_reachable : reachable self 10 w2.
Proof.
  destruct amm_w1_reachable as (t0 & w & Hst & Hbal & Hsteps). exists t0, w. split_and!; [done..|].
  etrans; [exact Hsteps|]. unfold w2.
  apply (run_script_reach exec call_ok self 7 more w1); [vm_compute; reflexivity|].
  repeat constructor.
Qed.

Lemma amm_solvent_witness :
  tok_balance (ledger w2) ta self = 19500 ∧
  msum (λ _ pool, pool_owes ta pool) (PoolAt (store w2)) + rewards_in (LpRewardBalance (store w2)) ta
    ≤ tok_balance (ledger w2) ta self.
Proof.
  split; [vm_compute; reflexivity|]. exact (amm_solvent self 10 w2 ta amm_w2_reachable).
Defined.

Lemma amm_pools_ok_witness : amm_inv (store w2).
Proof. exact (amm_pools_ok self 10 w2 amm_w2_reachable). Defined.

Definition e8 := env_at 8 self [carol].
Definition p1 := mkPool 0 ta tb 21999 72748 40000 30.
Definition w3 := world_of (exec (CSwap carol 0 ta 500 1) e8 w1) w1.

Lemma amm_calls_fair_witness :
  ∃ pool', PoolAt (store w3) !! 0 = Some pool' ∧ product p1 ≤ product pool'.
Proof.
  apply (amm_calls_fair self 7 w1 (CSwap carol 0 ta 500 1) e8 w3 0 p1).
  - exact amm_w1_reachable.
  - apply env_at_wf. reflexivity.
  - exact I.
  - unfold w3. apply run_ok_unit. vm_compute. reflexivity.
  - vm_compute. reflexivity.
Defined.

Definition e9 := env_at 9 self [alice].
Definition w4 := world_of (claim_lp_rewards alice 0 e9 w1) w1.

(** With half of the LP tokens, a second claim pays half of what is left. *)
Lemma claim_lp_rewards_repeats_witness :
  ∃ pool, PoolAt (store w1) !! 0 = Some pool ∧
    ∀ e', get_pending_lp_rewards 0 alice e' w4 =
      Ok (((default 0 (LpRewardBalance (store w4) !! (0, p_token_a pool))
             * default 0 (LpBalance (store w1) !! (0, alice))) `div` p_lp_total_supply pool,
           (default 0 (LpRewardBalance (store w4) !! (0, p_token_b pool))
             * default 0 (LpBalance (store w1) !! (0, alice))) `div` p_lp_total_supply pool), w4).
Proof.
  assert (claim_lp_rewards alice 0 e9 w1 = Ok ((500, 0), w4)) as Hclaim.
  { unfold w4. apply (run_ok_val _ _ (0, 0)); vm_compute; reflexivity. }
  assert (wf_env self e9) as Hwf by (apply env_at_wf; reflexivity).
  destruct (claim_lp_rewards_repeats self 7 w1 e9 alice 0 500 0 w4 amm_w1_reachable Hwf Hclaim)
    as (pool & Hpool & _ & _ & _ & _ & _ & _ & Hpending).
  exact (ex_intro _ pool (conj Hpool Hpending)).
Defined.
End AmmDemo.
