(* ===== verification/Staking.v ===== *)
(** * contracts/staking: tiered staking with a reward accumulator

    State and operations of the [Staking] contract
    (src/contracts/staking/src/lib.rs): tiers, stake positions, the global
    reward-per-token accumulator, claims, early-withdrawal penalties and the
    admin's emergency withdrawals. *)

From stdpp Require Import gmap strings list fin_maps.
From S2P Require Import Prelude Soroban.
Open Scope Z_scope.

(** ** Data *)

Definition BPS_DENOMINATOR : Z := 10000.
Definition PRECISION_FACTOR : Z := 1000000000000000000.
Definition MAX_TIERS : Z := 10.
Definition MAX_BATCH_SIZE : Z := 50.
Definition MAX_PENALTY_BPS : Z := 10000.

Record StakePosition := mkStakePosition {
  sp_stake_id : Z;
  sp_user : Address;
  sp_amount : Z;
  sp_tier_id : Z;
  sp_stake_time : Z;
  sp_lock_end_time : Z;
  sp_reward_per_token_paid : Z;
  sp_active : bool;
}.

Record StakingTier := mkStakingTier {
  st_tier_id : Z;
  st_name : Symbol;
  st_min_stake_amount : Z;
  st_lock_duration_seconds : Z;
  st_reward_multiplier_bps : Z;
  st_penalty_bps : Z;
  st_active : bool;
  st_created_at : Z;
}.

Record StakingInfo := mkStakingInfo {
  si_admin : Address;
  si_reward_token : Address;
  si_total_staked : Z;
  si_total_rewards_distributed : Z;
  si_reward_rate_per_second : Z;
  si_last_reward_time : Z;
  si_paused : bool;
  si_tier_count : Z;
}.

Record StakeResult := mkStakeResult {
  sr_stake_id : Z;
  sr_amount : Z;
  sr_tier_id : Z;
  sr_lock_end_time : Z;
}.

Record UnstakeResult := mkUnstakeResult {
  ur_stake_id : Z;
  ur_principal_returned : Z;
  ur_rewards_claimed : Z;
  ur_penalty_amount : Z;
  ur_total_returned : Z;
}.

(** One field per key of [DataKey]; [None] and absence are the unset key. *)
Record State := mkState {
  Admin : option Address;
  RewardToken : option Address;
  Paused : option bool;
  RewardRatePerSecond : option Z;
  LastRewardTime : option Z;
  RewardPerTokenStored : option Z;
  TotalWeightedStake : option Z;
  TotalStaked : option Z;
  TotalRewardsDistributed : option Z;
  StakeCounter : option Z;
  StakePositionAt : gmap Z StakePosition;
  UserStakeIds : gmap Address (list Z);
  TierCounter : option Z;
  Tier : gmap Z StakingTier;
  TierIds : option (list Z);
  ReentrancyLock : option bool;
}.

Inductive Event :=
| stk_init (admin reward_token : Address) (rate : Z)
| stk_pause (admin : Address)
| stk_unpse (admin : Address)
| stk_rate (admin : Address) (new_rate : Z)
| stk_tier (tier_id : Z) (name : Symbol) (min lock multiplier penalty : Z)
| stk_tupd (tier_id : Z) (admin : Address)
| stk_tdis (tier_id : Z) (admin : Address)
| stk_new (stake_id : Z) (user : Address) (amount tier_id lock_end_time : Z)
| stk_unst (stake_id : Z) (user : Address) (principal rewards penalty : Z)
| stk_claim (stake_id : Z) (user : Address) (rewards : Z)
| stk_bclm (user : Address) (total stakes : Z)
| stk_emw (stake_id : Z) (user : Address) (principal : Z)
| stk_emwa (user : Address) (total : Z)
| stk_fund (funder : Address) (amount : Z).

Ltac mred v ::= eval cbn [store ledger log Admin RewardToken Paused RewardRatePerSecond
  LastRewardTime RewardPerTokenStored TotalWeightedStake TotalStaked TotalRewardsDistributed
  StakeCounter StakePositionAt UserStakeIds TierCounter Tier TierIds ReentrancyLock sp_stake_id
  sp_user sp_amount sp_tier_id sp_stake_time sp_lock_end_time sp_reward_per_token_paid sp_active
  st_tier_id st_name st_min_stake_amount st_lock_duration_seconds st_reward_multiplier_bps
  st_penalty_bps st_active st_created_at] in v.

Section contract.
Context `{TokenHost}.

Local Abbreviation C := (M State Empty_set Event).

(** ** Internals *)

Definition user_stake_ids (user : Address) : C (list Z) :=
  gets (λ s, default [] (UserStakeIds s !! user)).
Definition tier_ids : C (list Z) := gets (λ s, default [] (TierIds s)).
Definition stake_counter : C Z := gets (λ s, default 0 (StakeCounter s)).
Definition tier_counter : C Z := gets (λ s, default 0 (TierCounter s)).
Definition total_staked : C Z := gets (λ s, default 0 (TotalStaked s)).
Definition total_weighted_stake : C Z := gets (λ s, default 0 (TotalWeightedStake s)).
Definition total_rewards_distributed : C Z := gets (λ s, default 0 (TotalRewardsDistributed s)).
Definition last_reward_time : C Z := gets (λ s, default 0 (LastRewardTime s)).
Definition reward_per_token_stored : C Z := gets (λ s, default 0 (RewardPerTokenStored s)).
Definition reward_rate_per_second : C Z := gets (λ s, default 0 (RewardRatePerSecond s)).
Definition paused : C bool := gets (λ s, default false (Paused s)).
Definition reward_token : C Address := o ← gets RewardToken; expect o "Contract not initialized".
Definition admin : C Address := o ← gets Admin; expect o "Contract not initialized".

Definition assert_admin (caller : Address) : C () :=
  a ← admin;
  panic_if (bool_decide (caller ≠ a)) "Unauthorized: caller is not admin".

Definition load_stake (stake_id : Z) : C StakePosition :=
  panic_if (stake_id =? 0) "Invalid stake ID";;
  o ← gets (λ s, StakePositionAt s !! stake_id);
  expect o "Stake not found".
Definition set_stake (stake_id : Z) (position : StakePosition) : C () :=
  modify (λ s, {| s with StakePositionAt := <[stake_id := position]> (StakePositionAt s) |}).

Definition load_tier (tier_id : Z) : C StakingTier :=
  panic_if (tier_id =? 0) "Invalid tier ID";;
  o ← gets (λ s, Tier s !! tier_id);
  expect o "Tier not found".
Definition set_tier (tier_id : Z) (tier : StakingTier) : C () :=
  modify (λ s, {| s with Tier := <[tier_id := tier]> (Tier s) |}).

Definition next_stake_id : C Z :=
  current ← stake_counter;
  next ← expect (checked_add U64 current 1) "Stake ID overflow";
  modify (λ s, {| s with StakeCounter := Some next |});;
  mret next.

Definition next_tier_id : C Z :=
  current ← tier_counter;
  next ← expect (checked_add U32 current 1) "Tier ID overflow";
  modify (λ s, {| s with TierCounter := Some next |});;
  mret next.

Definition add_user_stake (user : Address) (stake_id : Z) : C () :=
  stake_ids ← user_stake_ids user;
  modify (λ s, {| s with UserStakeIds := <[user := stake_ids ++ [stake_id]]> (UserStakeIds s) |}).

Definition enter_non_reentrant : C () :=
  locked ← gets (λ s, default false (ReentrancyLock s));
  panic_if locked "Reentrant call blocked";;
  modify (λ s, {| s with ReentrancyLock := Some true |}).
Definition exit_non_reentrant : C () := modify (λ s, {| s with ReentrancyLock := Some false |}).

Definition transfer_token_unchecked (token from to : Address) (amount : Z) : C () :=
  panic_if (amount <=? 0) "Transfer amount must be positive";;
  token_transfer token from to amount.

Definition transfer_token (token from to : Address) (amount : Z) : C () :=
  enter_non_reentrant;;
  transfer_token_unchecked token from to amount;;
  exit_non_reentrant.

(** *** Rewards *)

Definition calculate_weight (amount multiplier_bps : Z) : C Z :=
  p ← expect (checked_mul I128 amount multiplier_bps) "Weight overflow";
  mret (p `quot` BPS_DENOMINATOR).

Definition calculate_penalty (amount penalty_bps : Z) : C Z :=
  if penalty_bps =? 0 then mret 0
  else
    p ← expect (checked_mul I128 amount penalty_bps) "Penalty multiplication overflow";
    mret (p `quot` BPS_DENOMINATOR).

Definition update_pool : C () :=
  last ← last_reward_time;
  t ← now;
  if t <=? last then mret tt
  else
    total_weighted ← total_weighted_stake;
    current_rpt ← reward_per_token_stored;
    if total_weighted <=? 0 then
      modify (λ s, {| s with LastRewardTime := Some t |})
    else
      reward_rate ← reward_rate_per_second;
      elapsed ← expect (checked_sub U64 t last) "Time elapsed underflow";
      p ← expect (checked_mul I128 reward_rate elapsed) "Reward increment overflow";
      q ← expect (checked_mul I128 p PRECISION_FACTOR) "Reward increment precision overflow";
      new_rpt ← expect (checked_add I128 current_rpt (q `quot` total_weighted))
                  "Reward per token overflow";
      modify (λ s, {| s with RewardPerTokenStored := Some new_rpt |});;
      modify (λ s, {| s with LastRewardTime := Some t |}).

Definition calculate_pending_rewards_static (position : StakePosition) (multiplier_bps : Z) : C Z :=
  if negb (sp_active position) then mret 0
  else
    total_weighted ← total_weighted_stake;
    if total_weighted <=? 0 then mret 0
    else
      last ← last_reward_time;
      t ← now;
      current_rpt ← reward_per_token_stored;
      future_rpt ← (if t >? last then
          reward_rate ← reward_rate_per_second;
          elapsed ← plain_sub U64 t last;
          p ← expect (checked_mul I128 reward_rate elapsed) "Reward increment overflow";
          q ← expect (checked_mul I128 p PRECISION_FACTOR) "Reward increment precision overflow";
          expect (checked_add I128 current_rpt (q `quot` total_weighted)) "Reward per token overflow"
        else mret current_rpt);
      user_weight ← calculate_weight (sp_amount position) multiplier_bps;
      rpt_diff ← expect (checked_sub I128 future_rpt (sp_reward_per_token_paid position))
                   "RPT diff underflow";
      p ← expect (checked_mul I128 rpt_diff user_weight) "Pending rewards overflow";
      mret (p `quot` PRECISION_FACTOR).

(** ** Entry points *)

Definition initialize (admin reward_token : Address) (reward_rate_per_second : Z) : C () :=
  has ← gets Admin;
  panic_if (bool_decide (is_Some has)) "Already initialized";;
  require_auth admin;;
  panic_if (reward_rate_per_second <? 0) "Reward rate cannot be negative";;
  t ← now;
  modify (λ s, {| s with Admin := Some admin |});;
  modify (λ s, {| s with RewardToken := Some reward_token |});;
  modify (λ s, {| s with Paused := Some false |});;
  modify (λ s, {| s with RewardRatePerSecond := Some reward_rate_per_second |});;
  modify (λ s, {| s with LastRewardTime := Some t |});;
  modify (λ s, {| s with RewardPerTokenStored := Some 0 |});;
  modify (λ s, {| s with TotalWeightedStake := Some 0 |});;
  modify (λ s, {| s with TotalStaked := Some 0 |});;
  modify (λ s, {| s with TotalRewardsDistributed := Some 0 |});;
  modify (λ s, {| s with StakeCounter := Some 0 |});;
  modify (λ s, {| s with TierCounter := Some 0 |});;
  modify (λ s, {| s with TierIds := Some [] |});;
  modify (λ s, {| s with ReentrancyLock := Some false |});;
  publish (stk_init admin reward_token reward_rate_per_second).

Definition pause (admin : Address) : C () :=
  require_auth admin;;
  assert_admin admin;;
  b ← paused;
  panic_if b "Already paused";;
  modify (λ s, {| s with Paused := Some true |});;
  publish (stk_pause admin).

Definition unpause (admin : Address) : C () :=
  require_auth admin;;
  assert_admin admin;;
  b ← paused;
  panic_if (negb b) "Not paused";;
  modify (λ s, {| s with Paused := Some false |});;
  publish (stk_unpse admin).

Definition set_reward_rate (admin : Address) (new_rate : Z) : C () :=
  require_auth admin;;
  assert_admin admin;;
  panic_if (new_rate <? 0) "Reward rate cannot be negative";;
  update_pool;;
  modify (λ s, {| s with RewardRatePerSecond := Some new_rate |});;
  publish (stk_rate admin new_rate).

(** *** Tiers *)

Definition add_tier (admin : Address) (name : Symbol)
    (min_stake_amount lock_duration_seconds reward_multiplier_bps penalty_bps : Z) : C Z :=
  require_auth admin;;
  assert_admin admin;;
  panic_if (min_stake_amount <=? 0) "Minimum stake amount must be positive";;
  panic_if (lock_duration_seconds =? 0) "Lock duration must be positive";;
  panic_if (reward_multiplier_bps =? 0) "Reward multiplier must be positive";;
  panic_if (penalty_bps >? MAX_PENALTY_BPS) "Penalty exceeds 100%";;
  ids ← tier_ids;
  panic_if (Z.of_nat (length ids) >=? MAX_TIERS) "Maximum tiers reached";;
  tier_id ← next_tier_id;
  t ← now;
  set_tier tier_id (mkStakingTier tier_id name min_stake_amount lock_duration_seconds
    reward_multiplier_bps penalty_bps true t);;
  modify (λ s, {| s with TierIds := Some (ids ++ [tier_id]) |});;
  publish (stk_tier tier_id name min_stake_amount lock_duration_seconds reward_multiplier_bps
    penalty_bps);;
  mret tier_id.

(** [if let Some(x) = new { check; field = x }]: the field after an optional update. *)
Definition new_field {A} (new : option A) (bad : A → bool) (msg : string) (old : A) : C A :=
  match new with
  | Some x => panic_if (bad x) msg;; mret x
  | None => mret old
  end.

Definition update_tier (admin : Address) (tier_id : Z) (new_name : option Symbol)
    (new_min_stake_amount new_lock_duration_seconds new_reward_multiplier_bps
     new_penalty_bps : option Z) : C StakingTier :=
  require_auth admin;;
  assert_admin admin;;
  tier ← load_tier tier_id;
  panic_if (negb (st_active tier)) "Tier is not active";;
  name ← new_field new_name (λ _, false) "" (st_name tier);
  min ← new_field new_min_stake_amount (λ a, a <=? 0) "Minimum stake amount must be positive"
          (st_min_stake_amount tier);
  lock ← new_field new_lock_duration_seconds (λ d, d =? 0) "Lock duration must be positive"
          (st_lock_duration_seconds tier);
  multiplier ← new_field new_reward_multiplier_bps (λ m, m =? 0)
          "Reward multiplier must be positive" (st_reward_multiplier_bps tier);
  penalty ← new_field new_penalty_bps (λ p, p >? MAX_PENALTY_BPS) "Penalty exceeds 100%"
          (st_penalty_bps tier);
  let tier' := {| tier with st_name := name; st_min_stake_amount := min;
    st_lock_duration_seconds := lock; st_reward_multiplier_bps := multiplier;
    st_penalty_bps := penalty |} in
  set_tier tier_id tier';;
  publish (stk_tupd tier_id admin);;
  mret tier'.

Definition deactivate_tier (admin : Address) (tier_id : Z) : C () :=
  require_auth admin;;
  assert_admin admin;;
  tier ← load_tier tier_id;
  panic_if (negb (st_active tier)) "Tier already inactive";;
  set_tier tier_id {| tier with st_active := false |};;
  publish (stk_tdis tier_id admin).

(** *** Staking *)

Definition stake (user : Address) (amount tier_id : Z) : C StakeResult :=
  require_auth user;;
  b ← paused;
  panic_if b "Staking is paused";;
  panic_if (amount <=? 0) "Stake amount must be positive";;
  tier ← load_tier tier_id;
  panic_if (negb (st_active tier)) "Tier is not active";;
  panic_if (amount <? st_min_stake_amount tier) "Amount below tier minimum";;
  update_pool;;
  t ← now;
  lock_end_time ← expect (checked_add U64 t (st_lock_duration_seconds tier))
                    "Lock end time overflow";
  current_rpt ← reward_per_token_stored;
  stake_id ← next_stake_id;
  set_stake stake_id (mkStakePosition stake_id user amount tier_id t lock_end_time current_rpt true);;
  add_user_stake user stake_id;;
  total ← total_staked;
  new_total ← expect (checked_add I128 total amount) "Total staked overflow";
  modify (λ s, {| s with TotalStaked := Some new_total |});;
  user_weight ← calculate_weight amount (st_reward_multiplier_bps tier);
  weighted ← total_weighted_stake;
  new_weighted ← expect (checked_add I128 weighted user_weight) "Total weighted overflow";
  modify (λ s, {| s with TotalWeightedStake := Some new_weighted |});;
  token ← reward_token;
  contract_address ← self_address;
  transfer_token token user contract_address amount;;
  publish (stk_new stake_id user amount tier_id lock_end_time);;
  mret (mkStakeResult stake_id amount tier_id lock_end_time).

(** Deactivating a position and taking it out of the totals, as [unstake] and
    the emergency withdrawals do. *)
Definition close_position (stake_id : Z) (position : StakePosition) (multiplier_bps : Z) : C () :=
  set_stake stake_id {| position with sp_active := false |};;
  total ← total_staked;
  new_total ← expect (checked_sub I128 total (sp_amount position)) "Total staked underflow";
  modify (λ s, {| s with TotalStaked := Some new_total |});;
  user_weight ← calculate_weight (sp_amount position) multiplier_bps;
  weighted ← total_weighted_stake;
  new_weighted ← expect (checked_sub I128 weighted user_weight) "Total weighted underflow";
  modify (λ s, {| s with TotalWeightedStake := Some new_weighted |}).

Definition add_rewards_distributed (amount : Z) : C () :=
  total ← total_rewards_distributed;
  new_total ← expect (checked_add I128 total amount) "Total rewards overflow";
  modify (λ s, {| s with TotalRewardsDistributed := Some new_total |}).

Definition unstake (user : Address) (stake_id : Z) : C UnstakeResult :=
  require_auth user;;
  position ← load_stake stake_id;
  panic_if (bool_decide (sp_user position ≠ user)) "Only staker can unstake";;
  panic_if (negb (sp_active position)) "Stake is not active";;
  tier ← load_tier (sp_tier_id position);
  t ← now;
  pending_rewards ← calculate_pending_rewards_static position (st_reward_multiplier_bps tier);
  update_pool;;
  r ← (if t <? sp_lock_end_time position then
         penalty ← calculate_penalty (sp_amount position) (st_penalty_bps tier);
         net_principal ← expect (checked_sub I128 (sp_amount position) penalty)
                           "Penalty exceeds principal";
         mret (penalty, net_principal)
       else mret (0, sp_amount position));
  let '(penalty_amount, principal_returned) := (r : Z * Z) in
  total_returned ← expect (checked_add I128 principal_returned pending_rewards)
                     "Total returned overflow";
  close_position stake_id position (st_reward_multiplier_bps tier);;
  (if pending_rewards >? 0 then add_rewards_distributed pending_rewards else mret tt);;
  token ← reward_token;
  contract_address ← self_address;
  enter_non_reentrant;;
  (if principal_returned >? 0 then
     transfer_token_unchecked token contract_address user principal_returned else mret tt);;
  (if pending_rewards >? 0 then
     transfer_token_unchecked token contract_address user pending_rewards else mret tt);;
  exit_non_reentrant;;
  publish (stk_unst stake_id user principal_returned pending_rewards penalty_amount);;
  mret (mkUnstakeResult stake_id principal_returned pending_rewards penalty_amount total_returned).

Definition claim_rewards (user : Address) (stake_id : Z) : C Z :=
  require_auth user;;
  position ← load_stake stake_id;
  panic_if (bool_decide (sp_user position ≠ user)) "Only staker can claim";;
  panic_if (negb (sp_active position)) "Stake is not active";;
  tier ← load_tier (sp_tier_id position);
  pending_rewards ← calculate_pending_rewards_static position (st_reward_multiplier_bps tier);
  panic_if (pending_rewards <=? 0) "No rewards to claim";;
  update_pool;;
  rpt ← reward_per_token_stored;
  set_stake stake_id {| position with sp_reward_per_token_paid := rpt |};;
  add_rewards_distributed pending_rewards;;
  token ← reward_token;
  contract_address ← self_address;
  enter_non_reentrant;;
  transfer_token_unchecked token contract_address user pending_rewards;;
  exit_non_reentrant;;
  publish (stk_claim stake_id user pending_rewards);;
  mret pending_rewards.

(** The two passes of [claim_rewards_batch]. *)
Definition batch_pending (user : Address) (pending_list : list Z) (stake_id : Z) : C (list Z) :=
  position ← load_stake stake_id;
  panic_if (bool_decide (sp_user position ≠ user)) "Only staker can claim";;
  panic_if (negb (sp_active position)) "Stake is not active";;
  tier ← load_tier (sp_tier_id position);
  pending ← calculate_pending_rewards_static position (st_reward_multiplier_bps tier);
  mret (pending_list ++ [pending]).

Definition batch_settle (current_rpt : Z) (total_claimed : Z) (entry : Z * Z) : C Z :=
  let '(stake_id, pending) := entry in
  if pending >? 0 then
    position ← load_stake stake_id;
    set_stake stake_id {| position with sp_reward_per_token_paid := current_rpt |};;
    expect (checked_add I128 total_claimed pending) "Total claimed overflow"
  else mret total_claimed.

Definition claim_rewards_batch (user : Address) (stake_ids : list Z) : C Z :=
  require_auth user;;
  panic_if (bool_decide (stake_ids = [])) "No stakes provided";;
  panic_if (Z.of_nat (length stake_ids) >? MAX_BATCH_SIZE) "Batch exceeds maximum size";;
  pending_list ← foldM (batch_pending user) [] stake_ids;
  update_pool;;
  current_rpt ← reward_per_token_stored;
  total_claimed ← foldM (batch_settle current_rpt) 0 (zip stake_ids pending_list);
  panic_if (total_claimed <=? 0) "No rewards to claim";;
  add_rewards_distributed total_claimed;;
  token ← reward_token;
  contract_address ← self_address;
  enter_non_reentrant;;
  transfer_token_unchecked token contract_address user total_claimed;;
  exit_non_reentrant;;
  publish (stk_bclm user total_claimed (Z.of_nat (length stake_ids)));;
  mret total_claimed.

(** *** Emergency withdrawal *)

Definition emergency_withdraw (admin user : Address) (stake_id : Z) : C UnstakeResult :=
  require_auth admin;;
  assert_admin admin;;
  position ← load_stake stake_id;
  panic_if (bool_decide (sp_user position ≠ user)) "Stake does not belong to user";;
  panic_if (negb (sp_active position)) "Stake is not active";;
  tier ← load_tier (sp_tier_id position);
  let principal_returned := sp_amount position in
  close_position stake_id position (st_reward_multiplier_bps tier);;
  token ← reward_token;
  contract_address ← self_address;
  enter_non_reentrant;;
  transfer_token_unchecked token contract_address user principal_returned;;
  exit_non_reentrant;;
  publish (stk_emw stake_id user principal_returned);;
  mret (mkUnstakeResult stake_id principal_returned 0 0 principal_returned).

(** One round of the loop of [emergency_withdraw_all]. *)
Definition emergency_close (user : Address) (total_returned : Z) (stake_id : Z) : C Z :=
  position ← load_stake stake_id;
  if bool_decide (sp_user position ≠ user) || negb (sp_active position) then mret total_returned
  else
    tier ← load_tier (sp_tier_id position);
    close_position stake_id position (st_reward_multiplier_bps tier);;
    expect (checked_add I128 total_returned (sp_amount position)) "Total returned overflow".

Definition emergency_withdraw_all (admin user : Address) : C Z :=
  require_auth admin;;
  assert_admin admin;;
  stake_ids ← user_stake_ids user;
  total_returned ← foldM (emergency_close user) 0 stake_ids;
  (if total_returned >? 0 then
     token ← reward_token;
     contract_address ← self_address;
     enter_non_reentrant;;
     transfer_token_unchecked token contract_address user total_returned;;
     exit_non_reentrant
   else mret tt);;
  publish (stk_emwa user total_returned);;
  mret total_returned.

Definition fund_rewards (funder : Address) (amount : Z) : C () :=
  require_auth funder;;
  panic_if (amount <=? 0) "Amount must be positive";;
  token ← reward_token;
  contract_address ← self_address;
  transfer_token token funder contract_address amount;;
  publish (stk_fund funder amount).

(** ** Views *)

Definition get_admin : C Address := admin.
Definition get_reward_token : C Address := reward_token.
Definition is_paused : C bool := paused.
Definition get_reward_rate : C Z := reward_rate_per_second.
Definition get_total_staked : C Z := total_staked.
Definition get_total_rewards_distributed : C Z := total_rewards_distributed.
Definition get_last_reward_time : C Z := last_reward_time.
Definition get_stake (stake_id : Z) : C StakePosition := load_stake stake_id.
Definition get_tier (tier_id : Z) : C StakingTier := load_tier tier_id.
Definition get_tier_ids : C (list Z) := tier_ids.
Definition get_stake_counter : C Z := stake_counter.

Definition get_user_stakes (user : Address) : C (list StakePosition) :=
  stake_ids ← user_stake_ids user;
  foldM (λ stakes stake_id, position ← load_stake stake_id; mret (stakes ++ [position])) [] stake_ids.

Definition get_pending_rewards (stake_id : Z) : C Z :=
  position ← load_stake stake_id;
  if negb (sp_active position) then mret 0
  else
    tier ← load_tier (sp_tier_id position);
    calculate_pending_rewards_static position (st_reward_multiplier_bps tier).

Definition get_staking_info : C StakingInfo :=
  si_admin ← admin;
  si_reward_token ← reward_token;
  si_total_staked ← total_staked;
  si_total_rewards_distributed ← total_rewards_distributed;
  si_reward_rate_per_second ← reward_rate_per_second;
  si_last_reward_time ← last_reward_time;
  si_paused ← paused;
  ids ← tier_ids;
  mret (mkStakingInfo si_admin si_reward_token si_total_staked si_total_rewards_distributed
    si_reward_rate_per_second si_last_reward_time si_paused (Z.of_nat (length ids))).

Definition calculate_apy (tier_id : Z) : C Z :=
  tier ← load_tier tier_id;
  staked ← total_staked;
  reward_rate ← reward_rate_per_second;
  if (staked <=? 0) || (reward_rate <=? 0) then mret 0
  else
    annual_rewards ← expect (checked_mul I128 reward_rate 31557600) "Annual rewards overflow";
    adjusted_rewards ← expect (checked_mul I128 annual_rewards (st_reward_multiplier_bps tier))
                         "Adjusted rewards overflow";
    p ← expect (checked_mul I128 adjusted_rewards PRECISION_FACTOR) "APY overflow";
    mret ((p `quot` staked) `quot` BPS_DENOMINATOR).

End contract.

(** ** Entry points as calls *)

Inductive Call :=
| CInitialize (admin reward_token : Address) (rate : Z)
| CPause (admin : Address)
| CUnpause (admin : Address)
| CSetRewardRate (admin : Address) (new_rate : Z)
| CAddTier (admin : Address) (name : Symbol) (min lock multiplier penalty : Z)
| CUpdateTier (admin : Address) (tier_id : Z) (name : option Symbol)
    (min lock multiplier penalty : option Z)
| CDeactivateTier (admin : Address) (tier_id : Z)
| CStake (user : Address) (amount tier_id : Z)
| CUnstake (user : Address) (stake_id : Z)
| CClaimRewards (user : Address) (stake_id : Z)
| CClaimRewardsBatch (user : Address) (stake_ids : list Z)
| CEmergencyWithdraw (admin user : Address) (stake_id : Z)
| CEmergencyWithdrawAll (admin user : Address)
| CFundRewards (funder : Address) (amount : Z).

Section calls.
Context `{TokenHost}.

Definition exec (c : Call) : M State Empty_set Event () :=
  match c with
  | CInitialize admin token rate => initialize admin token rate
  | CPause admin => pause admin
  | CUnpause admin => unpause admin
  | CSetRewardRate admin rate => set_reward_rate admin rate
  | CAddTier admin name min lock multiplier penalty =>
      discard (add_tier admin name min lock multiplier penalty)
  | CUpdateTier admin tier_id name min lock multiplier penalty =>
      discard (update_tier admin tier_id name min lock multiplier penalty)
  | CDeactivateTier admin tier_id => deactivate_tier admin tier_id
  | CStake user amount tier_id => discard (stake user amount tier_id)
  | CUnstake user stake_id => discard (unstake user stake_id)
  | CClaimRewards user stake_id => discard (claim_rewards user stake_id)
  | CClaimRewardsBatch user stake_ids => discard (claim_rewards_batch user stake_ids)
  | CEmergencyWithdraw admin user stake_id => discard (emergency_withdraw admin user stake_id)
  | CEmergencyWithdrawAll admin user => discard (emergency_withdraw_all admin user)
  | CFundRewards funder amount => fund_rewards funder amount
  end.

(** The unsigned arguments of a call are non-negative, by their Rust types. *)
Definition call_ok (c : Call) : Prop :=
  match c with
  | CAddTier _ _ _ lock multiplier penalty => 0 ≤ lock ∧ 0 ≤ multiplier ∧ 0 ≤ penalty
  | CUpdateTier _ _ _ _ lock multiplier penalty =>
      0 ≤ default 0 lock ∧ 0 ≤ default 0 multiplier ∧ 0 ≤ default 0 penalty
  | _ => True
  end.
End calls.

Definition deployed : State :=
  mkState None None None None None None None None None None ∅ ∅ None ∅ None None.
