(* ===== verification/StakingProofs.v ===== *)
(** * contracts/staking: invariants and theorems

    The books of positions and principal, what is covered by the contract's
    balance, the reward accumulator against the emission schedule, and the
    exact effect of unstaking and of claiming. *)

From stdpp Require Import gmap strings list fin_maps.
From S2P Require Import Prelude Soroban TokenModel Staking.
Open Scope Z_scope.

(** ** Pure readings of the reward arithmetic *)

Definition rpt (st : State) : Z := default 0 (RewardPerTokenStored st).
Definition weighted (st : State) : Z := default 0 (TotalWeightedStake st).
Definition last_time (st : State) : Z := default 0 (LastRewardTime st).
Definition rate (st : State) : Z := default 0 (RewardRatePerSecond st).
Definition staked (st : State) : Z := default 0 (TotalStaked st).
Definition distributed (st : State) : Z := default 0 (TotalRewardsDistributed st).

(** The accumulator at time [t]. *)
Definition rpt_at (st : State) (t : Z) : Z :=
  if (last_time st <? t) && (0 <? weighted st)
  then rpt st + (rate st * (t - last_time st) * PRECISION_FACTOR) `quot` weighted st
  else rpt st.

(** The state after [update_pool] at time [t]. *)
Definition pooled (st : State) (t : Z) : State :=
  if last_time st <? t then
    {| st with
       RewardPerTokenStored :=
         if 0 <? weighted st then Some (rpt_at st t) else RewardPerTokenStored st;
       LastRewardTime := Some t |}
  else st.

Definition weight_of (amount multiplier : Z) : Z := (amount * multiplier) `quot` BPS_DENOMINATOR.

Definition pending_of (st : State) (t : Z) (p : StakePosition) (multiplier : Z) : Z :=
  if negb (sp_active p) || (weighted st <=? 0) then 0
  else ((rpt_at st t - sp_reward_per_token_paid p) * weight_of (sp_amount p) multiplier)
         `quot` PRECISION_FACTOR.

Lemma rpt_pooled st t : rpt (pooled st t) = rpt_at st t.
Proof.
  unfold pooled, rpt, rpt_at. destruct (last_time st <? t) eqn:E1; [|done]. cbn.
  by destruct (0 <? weighted st).
Qed.

Lemma pooled_idem st t : rpt_at (pooled st t) t = rpt_at st t.
Proof.
  unfold rpt_at at 1. rewrite rpt_pooled.
  assert ((last_time (pooled st t) <? t) = false) as ->; [|done].
  unfold pooled. destruct (last_time st <? t) eqn:E; [|done]. cbn. apply Z.ltb_irrefl.
Qed.

(** [update_pool] writes two fields only. *)
Lemma pooled_frame st t :
  let st' := pooled st t in
  Admin st' = Admin st ∧ RewardToken st' = RewardToken st ∧ rate st' = rate st ∧
  TotalWeightedStake st' = TotalWeightedStake st ∧ TotalStaked st' = TotalStaked st ∧
  TotalRewardsDistributed st' = TotalRewardsDistributed st ∧ StakeCounter st' = StakeCounter st ∧
  StakePositionAt st' = StakePositionAt st ∧ UserStakeIds st' = UserStakeIds st ∧
  Tier st' = Tier st ∧ TierCounter st' = TierCounter st ∧ ReentrancyLock st' = ReentrancyLock st.
Proof. unfold pooled, rate. cbv zeta. by destruct (last_time st <? t). Qed.

Section specs.
Context `{TokenHost}.
Implicit Types (w : World State Event) (e : Env).

Lemma staking_assert_admin_spec a e w u w' :
  assert_admin a e w = Ok (u, w') → Admin (store w) = Some a ∧ w' = w.
Proof. intros Hr. unfold assert_admin, admin in Hr. minv Hr. zbool. by subst. Qed.

Lemma load_stake_spec i e w p w' :
  load_stake i e w = Ok (p, w') → StakePositionAt (store w) !! i = Some p ∧ w' = w.
Proof. intros Hr. by minv Hr using load_stake. Qed.

Lemma load_tier_spec i e w p w' :
  load_tier i e w = Ok (p, w') → Tier (store w) !! i = Some p ∧ w' = w.
Proof. intros Hr. by minv Hr using load_tier. Qed.

Lemma calculate_weight_spec a m e w r w' :
  calculate_weight a m e w = Ok (r, w') → r = weight_of a m ∧ w' = w.
Proof. intros Hr. minv Hr using calculate_weight. arith. done. Qed.

Lemma staking_calculate_penalty_spec a b e w r w' :
  calculate_penalty a b e w = Ok (r, w') → r = (a * b) `quot` BPS_DENOMINATOR ∧ w' = w.
Proof.
  intros Hr. minv Hr using calculate_penalty; arith; [|done]. by rewrite Z.mul_0_r.
Qed.

Lemma update_pool_spec e w u w' :
  update_pool e w = Ok (u, w') → w' = {| w with store := pooled (store w) (timestamp e) |}.
Proof.
  intros Hr. unfold update_pool, last_reward_time, total_weighted_stake, reward_per_token_stored,
    reward_rate_per_second in Hr.
  unfold pooled, rpt_at, last_time, weighted, rpt, rate. minv Hr; arith.
  - rewrite (proj2 (Z.ltb_ge _ _)) by done. by destruct w.
  - rewrite (proj2 (Z.ltb_lt _ _)), (proj2 (Z.ltb_ge _ _)) by lia. done.
  - rewrite !(proj2 (Z.ltb_lt _ _)) by lia. done.
Qed.

Lemma pending_spec p m e w r w' :
  calculate_pending_rewards_static p m e w = Ok (r, w') →
  r = pending_of (store w) (timestamp e) p m ∧ w' = w.
Proof.
  intros Hr. unfold calculate_pending_rewards_static, last_reward_time, total_weighted_stake,
    reward_per_token_stored, reward_rate_per_second in Hr.
  unfold pending_of, rpt_at, last_time, weighted, rpt, rate. minv Hr.
  - done.
  - done.
  - spec calculate_weight_spec as [-> ->]. arith. rewrite !(proj2 (Z.ltb_lt _ _)) by lia. done.
  - spec calculate_weight_spec as [-> ->]. arith. rewrite (proj2 (Z.ltb_ge _ _)) by lia. done.
Qed.

Lemma staking_transfer_token_spec tk from to n e w u w' :
  transfer_token tk from to n e w = Ok (u, w') →
  0 < n ∧ ∃ l', tok_transfer e (ledger w) tk from to n = Some l' ∧
    w' = mkWorld {| (store w) with ReentrancyLock := Some false |} l' (log w).
Proof.
  intros Hr. unfold transfer_token, enter_non_reentrant, transfer_token_unchecked,
    exit_non_reentrant in Hr. minv Hr. arith. eauto 10.
Qed.

(** What closing a position writes. *)
Definition closed (st : State) (i : Z) (p : StakePosition) (m : Z) : State :=
  {| st with StakePositionAt := <[i := {| p with sp_active := false |}]> (StakePositionAt st);
     TotalStaked := Some (staked st - sp_amount p);
     TotalWeightedStake := Some (weighted st - weight_of (sp_amount p) m) |}.

Lemma close_position_spec i p m e w u w' :
  close_position i p m e w = Ok (u, w') → w' = {| w with store := closed (store w) i p m |}.
Proof.
  intros Hr. unfold close_position, set_stake, total_staked, total_weighted_stake in Hr. minv Hr.
  spec calculate_weight_spec as [-> ->]. arith. done.
Qed.

Lemma add_rewards_spec n e w u w' :
  add_rewards_distributed n e w = Ok (u, w') →
  w' = {| w with store := {| (store w) with TotalRewardsDistributed := Some (distributed (store w) + n) |} |}.
Proof.
  intros Hr. unfold add_rewards_distributed, total_rewards_distributed in Hr. minv Hr. arith. done.
Qed.
End specs.

Lemma alter_lookup_insert {A} (f : A → A) (m : gmap Z A) i x :
  m !! i = Some x → alter f i m = <[i := f x]> m.
Proof.
  intros Hi. apply map_eq. intros j. destruct (decide (i = j)) as [<-|].
  - by rewrite lookup_alter_eq, Hi, lookup_insert_eq.
  - by rewrite lookup_alter_ne, lookup_insert_ne.
Qed.

(** ** The books *)

(** A sum over the active positions. *)
Definition active_sum (f : StakePosition → Z) (m : gmap Z StakePosition) : Z :=
  msum (λ _ p, if sp_active p then f p else 0) m.

Lemma active_sum_replace f m i p p' :
  m !! i = Some p →
  active_sum f (<[i := p']> m) = active_sum f m - (if sp_active p then f p else 0)
                                 + (if sp_active p' then f p' else 0).
Proof. intros Hi. unfold active_sum. by rewrite (msum_insert_update _ _ _ p). Qed.

Lemma active_sum_ext f g m :
  (∀ i p, m !! i = Some p → sp_active p = true → f p = g p) → active_sum f m = active_sum g m.
Proof.
  intros Hfg. apply msum_ext. intros i p Hi. destruct (sp_active p) eqn:Ha; [by eapply Hfg|done].
Qed.

Record position_ok (counter acc : Z) (tiers : gmap Z StakingTier) (i : Z) (p : StakePosition)
    : Prop := {
  pk_id : sp_stake_id p = i;
  pk_range : 1 ≤ i ≤ counter;
  pk_amount : 0 < sp_amount p;
  pk_paid : 0 ≤ sp_reward_per_token_paid p ≤ acc;
  pk_tier : is_Some (tiers !! sp_tier_id p);
}.

Record tier_ok (tr : StakingTier) : Prop := {
  tk_multiplier : 0 < st_reward_multiplier_bps tr;
  tk_penalty : 0 ≤ st_penalty_bps tr ≤ MAX_PENALTY_BPS;
}.

Record books (st : State) : Prop := {
  bk_position i p : StakePositionAt st !! i = Some p →
    position_ok (default 0 (StakeCounter st)) (rpt st) (Tier st) i p;
  bk_tier i tr : Tier st !! i = Some tr → tier_ok tr;
  bk_tiers i : is_Some (Tier st !! i) → 1 ≤ i ≤ default 0 (TierCounter st);
  bk_staked : staked st = active_sum sp_amount (StakePositionAt st);
  bk_index u i : i ∈ default [] (UserStakeIds st !! u) ↔
    ∃ p, StakePositionAt st !! i = Some p ∧ sp_user p = u;
  bk_nodup u : NoDup (default [] (UserStakeIds st !! u));
  bk_rate : 0 ≤ rate st;
  bk_rpt : 0 ≤ rpt st;
  bk_counters : 0 ≤ default 0 (StakeCounter st) ∧ 0 ≤ default 0 (TierCounter st);
  bk_distributed : 0 ≤ distributed st;
  bk_admin : is_Some (Admin st);
}.

Lemma rpt_at_le st t : books st → rpt st ≤ rpt_at st t.
Proof.
  intros Hb. unfold rpt_at. destruct (_ && _) eqn:E; [|lia]. zbool. pose proof (bk_rate _ Hb).
  assert (0 ≤ (rate st * (t - last_time st) * PRECISION_FACTOR) `quot` weighted st); [|lia].
  apply Z.quot_pos; [|lia]. unfold PRECISION_FACTOR. nia.
Qed.

Lemma weight_nonneg a m : 0 ≤ a → 0 ≤ m → 0 ≤ weight_of a m.
Proof. intros. apply Z.quot_pos; [nia|done]. Qed.

Lemma pending_nonneg st t i p tr :
  books st → StakePositionAt st !! i = Some p → Tier st !! sp_tier_id p = Some tr →
  0 ≤ pending_of st t p (st_reward_multiplier_bps tr).
Proof.
  intros Hb Hp Htr. unfold pending_of. destruct (_ || _); [done|].
  destruct (bk_position _ Hb _ _ Hp), (bk_tier _ Hb _ _ Htr). pose proof (rpt_at_le st t Hb).
  apply Z.quot_pos; [|done]. apply Z.mul_nonneg_nonneg; [lia|]. apply weight_nonneg; lia.
Qed.

(** *** The writes that keep the books *)

Lemma books_pooled st t : books st → books (pooled st t).
Proof.
  intros Hb. pose proof (rpt_at_le st t Hb) as Hle.
  destruct (pooled_frame st t) as (F1 & F2 & F3 & F4 & F5 & F6 & F7 & F8 & F9 & F10 & F11 & F12).
  split; unfold staked, distributed; rewrite ?F1, ?F2, ?F3, ?F4, ?F5, ?F6, ?F7, ?F8, ?F9, ?F10, ?F11, ?rpt_pooled;
    try apply Hb.
  - intros i p Hp. destruct (bk_position _ Hb _ _ Hp).
    split; rewrite ?F7, ?F10, ?rpt_pooled; try done; lia.
  - pose proof (bk_rpt _ Hb). lia.
Qed.

(** Rewriting a position without touching its identity or its principal. *)
Lemma books_touch st i p paid :
  books st → StakePositionAt st !! i = Some p → 0 ≤ paid ≤ rpt st →
  books {| st with StakePositionAt :=
    <[i := {| p with sp_reward_per_token_paid := paid |}]> (StakePositionAt st) |}.
Proof.
  intros Hb Hp Hpaid. destruct (bk_position _ Hb _ _ Hp). split; try (by apply Hb); cbn.
  - intros j q [[<- <-]|[_ Hq]]%lookup_insert_Some; [by split|].
    destruct (bk_position _ Hb _ _ Hq). by split.
  - unfold staked in *. cbn. rewrite (active_sum_replace _ _ _ p) by done. cbn.
    rewrite (bk_staked _ Hb : default 0 (TotalStaked st) = _). destruct (sp_active p); lia.
  - intros u j. rewrite (bk_index _ Hb). split.
    + intros (q & Hq & <-). destruct (decide (i = j)) as [<-|].
      * simplify_eq. eexists. rewrite lookup_insert_eq. split; [done|done].
      * exists q. by rewrite lookup_insert_ne.
    + intros (q & [[<- <-]|[_ Hq]]%lookup_insert_Some & <-); eauto.
Qed.

(** The index of a user survives any rewrite that keeps the owner. *)
Lemma index_replace (m : gmap Z StakePosition) i p p' u j :
  m !! i = Some p → sp_user p' = sp_user p →
  (∃ q, <[i := p']> m !! j = Some q ∧ sp_user q = u) ↔ (∃ q, m !! j = Some q ∧ sp_user q = u).
Proof.
  intros Hi Hu. split.
  - intros (q & [[<- <-]|[_ Hq]]%lookup_insert_Some & <-); eauto.
  - intros (q & Hq & <-). destruct (decide (i = j)) as [<-|].
    + simplify_eq. exists p'. by rewrite lookup_insert_eq.
    + exists q. by rewrite lookup_insert_ne.
Qed.

Lemma books_closed st i p m :
  books st → StakePositionAt st !! i = Some p → sp_active p = true → books (closed st i p m).
Proof.
  intros Hb Hp Ha. destruct (bk_position _ Hb _ _ Hp). split; try (by apply Hb); cbn.
  - intros j q [[<- <-]|[_ Hq]]%lookup_insert_Some; [by split|].
    destruct (bk_position _ Hb _ _ Hq). by split.
  - rewrite (active_sum_replace _ _ _ p) by done. rewrite Ha. cbn.
    rewrite <- (bk_staked _ Hb). unfold staked. cbn. lia.
  - intros u j. by rewrite (bk_index _ Hb), index_replace.
Qed.

(** The state after a stake, before the tokens move. *)
Definition opened (st : State) (p : StakePosition) (m : Z) : State :=
  let i := default 0 (StakeCounter st) + 1 in
  {| st with StakeCounter := Some i;
     StakePositionAt := <[i := p]> (StakePositionAt st);
     UserStakeIds := <[sp_user p := default [] (UserStakeIds st !! sp_user p) ++ [i]]> (UserStakeIds st);
     TotalStaked := Some (staked st + sp_amount p);
     TotalWeightedStake := Some (weighted st + weight_of (sp_amount p) m) |}.

Lemma books_opened st p m :
  books st → sp_stake_id p = default 0 (StakeCounter st) + 1 → 0 < sp_amount p →
  sp_reward_per_token_paid p = rpt st → is_Some (Tier st !! sp_tier_id p) → sp_active p = true →
  books (opened st p m).
Proof.
  intros Hb Hid Hamt Hpaid Htier Ha. unfold opened. set (i := default 0 (StakeCounter st) + 1) in *.
  assert (StakePositionAt st !! i = None) as Hfresh.
  { destruct (StakePositionAt st !! i) as [q|] eqn:Hq; [|done]. destruct (bk_position _ Hb _ _ Hq). lia. }
  pose proof (bk_counters _ Hb) as [Hc _]. pose proof (bk_rpt _ Hb).
  split; try (by apply Hb); cbn; try done.
  - intros j q [[<- <-]|[_ Hq]]%lookup_insert_Some.
    + split; cbn; [done|lia|done|unfold rpt in *; cbn; lia|done].
    + destruct (bk_position _ Hb _ _ Hq). split; cbn; [done|lia|done|done|done].
  - unfold active_sum. rewrite msum_insert_fresh, Ha by done. fold (active_sum sp_amount (StakePositionAt st)).
    rewrite <- (bk_staked _ Hb). unfold staked. cbn. lia.
  - intros u j. rewrite lookup_insert. case_decide as Hu; simpl.
    + rewrite elem_of_app, list_elem_of_singleton, (bk_index _ Hb). subst u. split.
      * intros [(q & Hq & Hqu)| ->]; [exists q; rewrite lookup_insert_ne; [done|congruence]|].
        exists p. by rewrite lookup_insert_eq.
      * intros (q & [[<- <-]|[_ Hq]]%lookup_insert_Some & Hqu); [by right|]. left. eauto.
    + rewrite (bk_index _ Hb). split.
      * intros (q & Hq & <-). exists q. rewrite lookup_insert_ne; [done|congruence].
      * intros (q & [[<- <-]|[_ Hq]]%lookup_insert_Some & <-); [done|]. eauto.
  - intros u. rewrite lookup_insert. case_decide; [|apply Hb]. simpl. subst u.
    apply NoDup_snoc; [apply Hb|]. rewrite (bk_index _ Hb). intros (q & Hq & _). congruence.
  - split; [lia|exact (proj2 (bk_counters _ Hb))].
Qed.

(** ** What each operation does *)

Definition unlocked_state (st : State) : State := {| st with ReentrancyLock := Some false |}.

Definition new_position (st : State) (user : Address) (amount tid t lock : Z) : StakePosition :=
  mkStakePosition (default 0 (StakeCounter st) + 1) user amount tid t (t + lock) (rpt st) true.

(** The early-withdrawal penalty at time [t]. *)
Definition penalty_at (p : StakePosition) (tr : StakingTier) (t : Z) : Z :=
  if t <? sp_lock_end_time p then (sp_amount p * st_penalty_bps tr) `quot` BPS_DENOMINATOR else 0.

Definition with_rewards (st : State) (n : Z) : State :=
  {| st with TotalRewardsDistributed := Some (distributed st + n) |}.

(** A payment that is skipped when there is nothing to pay. *)
Definition pays `{TokenHost} (e : Env) (l l' : Ledger) (tk to : Address) (n : Z) : Prop :=
  if n >? 0 then tok_transfer e l tk (current_contract_address e) to n = Some l' else l' = l.

Section op_specs.
Context `{TokenHost}.
Implicit Types (w : World State Event) (e : Env).

Lemma stake_spec user amount tid e w r w' :
  stake user amount tid e w = Ok (r, w') →
  authorized e user = true ∧ 0 < amount ∧
  ∃ tr tk, Tier (store w) !! tid = Some tr ∧ st_active tr = true ∧
    RewardToken (store w) = Some tk ∧
    tok_transfer e (ledger w) tk user (current_contract_address e) amount = Some (ledger w') ∧
    store w' = unlocked_state (opened (pooled (store w) (timestamp e))
      (new_position (pooled (store w) (timestamp e)) user amount tid (timestamp e)
         (st_lock_duration_seconds tr))
      (st_reward_multiplier_bps tr)).
Proof.
  intros Hr. unfold stake, paused, reward_per_token_stored, next_stake_id, stake_counter, set_stake,
    add_user_stake, user_stake_ids, total_staked, total_weighted_stake, reward_token, calculate_weight,
    transfer_token, enter_non_reentrant, transfer_token_unchecked, exit_non_reentrant in Hr.
  minv Hr. spec load_tier_spec as [Htr ->]. spec update_pool_spec as Hw. zbool.
  destruct (pooled_frame (store w) (timestamp e)) as (_ & F2 & _).
  assert (store w1 = pooled (store w) (timestamp e)) as Hst by (by rewrite Hw).
  assert (ledger w1 = ledger w) as Hl by (by rewrite Hw). clear Hw.
  rewrite <- Hst in *. inv_checked. split_and!; [done..|]. exists a, a5. by rewrite <- F2, <- Hl.
Qed.

Lemma unstake_spec user i e w r w' :
  unstake user i e w = Ok (r, w') →
  authorized e user = true ∧
  ∃ p tr tk l1, StakePositionAt (store w) !! i = Some p ∧ sp_user p = user ∧ sp_active p = true ∧
    Tier (store w) !! sp_tier_id p = Some tr ∧ RewardToken (store w) = Some tk ∧
    let t := timestamp e in
    let penalty := penalty_at p tr t in
    let pending := pending_of (store w) t p (st_reward_multiplier_bps tr) in
    r = mkUnstakeResult i (sp_amount p - penalty) pending penalty (sp_amount p - penalty + pending) ∧
    pays e (ledger w) l1 tk user (sp_amount p - penalty) ∧
    pays e l1 (ledger w') tk user pending ∧
    let st1 := closed (pooled (store w) t) i p (st_reward_multiplier_bps tr) in
    store w' = unlocked_state (if pending >? 0 then with_rewards st1 pending else st1).
Proof.
  intros Hr. unfold unstake, reward_token, close_position, set_stake, total_staked, total_weighted_stake,
    calculate_weight, add_rewards_distributed, total_rewards_distributed, calculate_penalty,
    enter_non_reentrant, transfer_token_unchecked, exit_non_reentrant in Hr.
  apply bind_Ok in Hr as ([] & w0 & Hauth & Hr). minv Hauth. split; [done|].
  apply bind_Ok in Hr as (p & w0 & Hload & Hr). apply load_stake_spec in Hload as [Hp ->].
  apply bind_Ok in Hr as ([] & w0 & Hu & Hr). minv Hu. apply bind_Ok in Hr as ([] & w0 & Ha & Hr). minv Ha.
  apply bind_Ok in Hr as (tr & w0 & Hload & Hr). apply load_tier_spec in Hload as [Htr ->].
  apply bind_Ok in Hr as (t & w0 & Ht & Hr). minv Ht.
  apply bind_Ok in Hr as (pend & w0 & Hpend & Hr). apply pending_spec in Hpend as [-> ->].
  set (pend := pending_of _ _ _ _) in *.
  apply bind_Ok in Hr as ([] & w1 & Hpool & Hr). apply update_pool_spec in Hpool.
  destruct (pooled_frame (store w) (timestamp e)) as (_ & F2 & _).
  assert (store w1 = pooled (store w) (timestamp e)) as Hst by (by rewrite Hpool).
  assert (ledger w1 = ledger w) as Hl by (by rewrite Hpool). clear Hpool.
  rewrite <- Hst in *. rewrite <- Hl. rewrite <- F2. zbool.
  apply bind_Ok in Hr as ([pen net] & w2 & Hpen & Hr).
  assert (pen = penalty_at p tr (timestamp e) ∧ net = sp_amount p - pen ∧ w2 = w1) as (-> & -> & ->).
  { unfold penalty_at. minv Hpen; arith; split_and!; try done; try lia.
    by rewrite Hc0, Z.mul_0_r. }
  clear Hpen. set (pen := penalty_at p tr (timestamp e)) in *.
  exists p, tr. unfold pays. cbv zeta. rewrite <- Hst. fold pen pend.
  destruct (sp_amount p - pen >? 0) eqn:Hnet, (pend >? 0) eqn:Hpos; minv Hr; inv_checked.
  all: eexists _, _; split_and!; try done. by rewrite <- Hl.
Qed.

Lemma claim_rewards_spec user i e w r w' :
  claim_rewards user i e w = Ok (r, w') →
  authorized e user = true ∧
  ∃ p tr tk, StakePositionAt (store w) !! i = Some p ∧ sp_user p = user ∧ sp_active p = true ∧
    Tier (store w) !! sp_tier_id p = Some tr ∧ RewardToken (store w) = Some tk ∧
    r = pending_of (store w) (timestamp e) p (st_reward_multiplier_bps tr) ∧ 0 < r ∧
    tok_transfer e (ledger w) tk (current_contract_address e) user r = Some (ledger w') ∧
    let st1 := pooled (store w) (timestamp e) in
    store w' = unlocked_state (with_rewards {| st1 with StakePositionAt :=
      <[i := {| p with sp_reward_per_token_paid := rpt st1 |}]> (StakePositionAt st1) |} r).
Proof.
  intros Hr. unfold claim_rewards, reward_token, set_stake, add_rewards_distributed,
    total_rewards_distributed, reward_per_token_stored, enter_non_reentrant, transfer_token_unchecked,
    exit_non_reentrant in Hr. minv Hr.
  spec load_stake_spec as [Hp ->]. spec load_tier_spec as [Htr ->]. spec pending_spec as [-> ->].
  spec update_pool_spec as Hw. destruct (pooled_frame (store w) (timestamp e)) as (_ & F2 & _).
  assert (store w3 = pooled (store w) (timestamp e)) as Hst by (by rewrite Hw).
  assert (ledger w3 = ledger w) as Hl by (by rewrite Hw). clear Hw. rewrite <- Hst in *. inv_checked. zbool.
  split; [done|]. exists a, a0. eexists. cbv zeta. rewrite <- ?Hst, <- Hl, <- F2. by split_and!.
Qed.

Lemma emergency_withdraw_spec adm user i e w r w' :
  emergency_withdraw adm user i e w = Ok (r, w') →
  Admin (store w) = Some adm ∧
  ∃ p tr tk, StakePositionAt (store w) !! i = Some p ∧ sp_user p = user ∧ sp_active p = true ∧
    Tier (store w) !! sp_tier_id p = Some tr ∧ RewardToken (store w) = Some tk ∧
    tok_transfer e (ledger w) tk (current_contract_address e) user (sp_amount p) = Some (ledger w') ∧
    store w' = unlocked_state (closed (store w) i p (st_reward_multiplier_bps tr)).
Proof.
  intros Hr. unfold emergency_withdraw, reward_token, enter_non_reentrant, transfer_token_unchecked,
    exit_non_reentrant, close_position, set_stake, total_staked, total_weighted_stake,
    calculate_weight in Hr. minv Hr.
  spec staking_assert_admin_spec as [Hadm ->]. spec load_stake_spec as [Hp ->].
  spec load_tier_spec as [Htr ->]. inv_checked. zbool. split; [done|]. eexists _, _, _. by split_and!.
Qed.

(** *** Batches *)

(** An entry of the first pass: a position of the user and its pending rewards. *)
Definition pending_entry (st : State) (t : Z) (user : Address) (i x : Z) : Prop :=
  ∃ p tr, StakePositionAt st !! i = Some p ∧ sp_user p = user ∧ sp_active p = true ∧
    Tier st !! sp_tier_id p = Some tr ∧ x = pending_of st t p (st_reward_multiplier_bps tr).

Lemma batch_pending_spec user ids acc e w l w' :
  foldM (batch_pending user) acc ids e w = Ok (l, w') →
  w' = w ∧ ∃ ps, l = acc ++ ps ∧ Forall2 (pending_entry (store w) (timestamp e) user) ids ps.
Proof.
  revert acc. induction ids as [|i ids IH]; intros acc Hr; cbn [foldM] in Hr.
  - minv Hr. split; [done|]. exists []. by rewrite app_nil_r.
  - apply bind_Ok in Hr as (acc1 & w1 & Hone & Hr). unfold batch_pending in Hone. minv Hone.
    spec load_stake_spec as [Hp ->]. spec load_tier_spec as [Htr ->]. spec pending_spec as [-> ->]. zbool.
    apply IH in Hr as (-> & ps & -> & Hps). split; [done|].
    eexists (_ :: ps). rewrite <- app_assoc. split; [done|]. constructor; [|done].
    exists a, a0. by split_and!.
Qed.

Definition settled (r : Z) (m : gmap Z StakePosition) (entry : Z * Z) : gmap Z StakePosition :=
  if entry.2 >? 0 then alter (λ p, {| p with sp_reward_per_token_paid := r |}) entry.1 m else m.

Lemma batch_settle_spec r tot es e w tot' w' :
  foldM (batch_settle r) tot es e w = Ok (tot', w') →
  tot' = tot + lsum (λ x, Z.max 0 x.2) es ∧
  w' = {| w with store := {| (store w) with StakePositionAt :=
           foldl (settled r) (StakePositionAt (store w)) es |} |}.
Proof.
  revert tot w. induction es as [|[i x] es IH]; intros tot w Hr; cbn [foldM] in Hr.
  - minv Hr. split; [simpl; lia|]. by destruct w as [[] ? ?].
  - apply bind_Ok in Hr as (tot1 & w1 & Hone & Hr). unfold batch_settle, set_stake in Hone.
    cbn [foldl lsum foldr snd]. unfold settled at 2. cbn [fst snd]. fold (lsum (λ x, Z.max 0 x.2) es).
    minv Hone; arith; apply IH in Hr as [-> ->].
    + spec load_stake_spec as [Hp ->]. cbn. split; [lia|]. by rewrite (alter_lookup_insert _ _ _ _ Hp).
    + split; [lia|done].
Qed.

Lemma claim_batch_spec user ids e w tot w' :
  claim_rewards_batch user ids e w = Ok (tot, w') →
  authorized e user = true ∧
  ∃ ps tk, Forall2 (pending_entry (store w) (timestamp e) user) ids ps ∧
    tot = lsum (λ x, Z.max 0 x.2) (zip ids ps) ∧ 0 < tot ∧ RewardToken (store w) = Some tk ∧
    tok_transfer e (ledger w) tk (current_contract_address e) user tot = Some (ledger w') ∧
    let st1 := pooled (store w) (timestamp e) in
    store w' = unlocked_state (with_rewards {| st1 with StakePositionAt :=
      foldl (settled (rpt st1)) (StakePositionAt st1) (zip ids ps) |} tot).
Proof.
  intros Hr. unfold claim_rewards_batch, reward_token, reward_per_token_stored, add_rewards_distributed,
    total_rewards_distributed, enter_non_reentrant, transfer_token_unchecked, exit_non_reentrant in Hr.
  minv Hr. spec batch_pending_spec as (-> & ps & -> & Hps).
  apply update_pool_spec in Hr4 as Hw. apply batch_settle_spec in Hr5 as [-> Hw2].
  destruct (pooled_frame (store w) (timestamp e)) as (_ & F2 & _).
  assert (store w1 = pooled (store w) (timestamp e)) as Hst by (by rewrite Hw).
  assert (ledger w1 = ledger w) as Hl by (by rewrite Hw). rewrite <- Hst in *. clear Hw Hr4.
  assert (RewardToken (store w2) = RewardToken (store w1)) as F2' by (by rewrite Hw2).
  assert (ledger w2 = ledger w1) as Hl' by (by rewrite Hw2).
  inv_checked. zbool. split; [done|]. exists ps. eexists. cbv zeta.
  rewrite <- ?Hst, <- Hl, <- Hl', <- F2, <- F2'. split_and!; try done; by rewrite Hw2.
Qed.
End op_specs.

(** ** Sound worlds *)

Section sound.
Context `{TokenHost} `{!TokenLaws} (self : Address).
Implicit Types (w : World State Event) (e : Env).

(** The principal is covered by the balance, up to the rewards paid out. *)
Definition covered (st : State) (l : Ledger) : Prop :=
  ∀ tk, RewardToken st = Some tk → staked st ≤ tok_balance l tk self + distributed st.

Definition sound w : Prop := books (store w) ∧ covered (store w) (ledger w).

Lemma books_unlocked st : books st → books (unlocked_state st).
Proof. intros []. by split. Qed.

Lemma books_with_rewards st n : books st → 0 ≤ n → books (with_rewards st n).
Proof.
  intros Hb Hn. pose proof (bk_distributed _ Hb). destruct Hb. split; try done.
  unfold with_rewards, distributed in *. cbn. lia.
Qed.

Lemma pays_ge e l l' tk to n tk' :
  wf_env self e → pays e l l' tk to n → 0 ≤ n →
  tok_balance l tk' self - (if bool_decide (tk' = tk) then n else 0) ≤ tok_balance l' tk' self.
Proof.
  intros Hwf Hp Hn. unfold pays in Hp. destruct (n >? 0) eqn:Hpos; zbool.
  - rewrite (wf_self _ _ Hwf) in Hp. by eapply moved_out_ge; [eapply transfer_moved|].
  - subst. case_bool_decide; lia.
Qed.

Lemma stake_sound user amount tid e w r w' :
  wf_env self e → sound w → stake user amount tid e w = Ok (r, w') → sound w'.
Proof.
  intros Hwf [Hb Hc] Hr. apply stake_spec in Hr as (Hauth & Hpos & tr & tk & Htr & Ha & Htk & Ht & Hst).
  destruct (pooled_frame (store w) (timestamp e)) as (F1 & F2 & F3 & F4 & F5 & F6 & F7 & F8 & F9 & F10 & F11 & F12).
  rewrite (wf_self _ _ Hwf) in Ht. apply transfer_moved in Ht.
  unfold sound. rewrite Hst. split.
  - apply books_unlocked, books_opened; [by apply books_pooled|done|done|done| |done].
    cbn. rewrite F10. eauto.
  - intros tk' Htk'. cbn in Htk'. rewrite F2 in Htk'. simplify_eq. specialize (Hc _ Htk).
    rewrite (moved_in _ _ _ _ _ _ tk Ht) by eauto with contracts. rewrite bool_decide_eq_true_2 by done.
    unfold staked, distributed in *. cbn. rewrite F6. unfold staked. rewrite F5. lia.
Qed.

Lemma penalty_bounds p tr t :
  0 < sp_amount p → tier_ok tr → 0 ≤ penalty_at p tr t ≤ sp_amount p.
Proof.
  intros Hp [_ Hpen]. unfold penalty_at, MAX_PENALTY_BPS, BPS_DENOMINATOR in *.
  destruct (_ <? _); [|lia]. rewrite quot_div_nonneg by nia.
  split; [apply Z.div_pos; nia|apply Z.div_le_upper_bound; nia].
Qed.

Lemma unstake_sound user i e w r w' :
  wf_env self e → sound w → unstake user i e w = Ok (r, w') → sound w'.
Proof.
  intros Hwf [Hb Hc] Hr. apply unstake_spec in Hr
    as (_ & p & tr & tk & l1 & Hp & _ & Ha & Htr & Htk & _ & Hpay1 & Hpay2 & Hst).
  destruct (bk_position _ Hb _ _ Hp). pose proof (bk_tier _ Hb _ _ Htr) as Htok.
  pose proof (penalty_bounds p tr (timestamp e) pk_amount0 Htok) as Hpen.
  pose proof (pending_nonneg _ (timestamp e) _ _ _ Hb Hp Htr) as Hpend.
  destruct (pooled_frame (store w) (timestamp e)) as (F1 & F2 & F3 & F4 & F5 & F6 & F7 & F8 & F9 & F10 & F11 & F12).
  set (pend := pending_of _ _ _ _) in *.
  assert (books (closed (pooled (store w) (timestamp e)) i p (st_reward_multiplier_bps tr))) as Hb'.
  { apply books_closed; [by apply books_pooled|by rewrite F8|done]. }
  unfold sound. rewrite Hst. split.
  - apply books_unlocked. destruct (pend >? 0); [|done]. by apply books_with_rewards.
  - intros tk' Htk'. assert (tk' = tk) as ->.
    { destruct (pend >? 0); cbn in Htk'; rewrite F2 in Htk'; congruence. }
    specialize (Hc _ Htk).
    pose proof (pays_ge _ _ _ _ _ _ tk Hwf Hpay1 ltac:(lia)) as H1.
    pose proof (pays_ge _ _ _ _ _ _ tk Hwf Hpay2 Hpend) as H2.
    rewrite !bool_decide_eq_true_2 in H1, H2 by done.
    destruct (pend >? 0) eqn:Hgt; zbool; unfold staked, distributed in *; cbn;
      unfold staked, distributed; cbn; rewrite F5, F6; lia.
Qed.

(** Paying rewards keeps the principal covered: the balance falls by what is
    added to the total distributed. *)
Lemma covered_reward st l l' st' tk to n e :
  wf_env self e → covered st l → RewardToken st = Some tk →
  tok_transfer e l tk (current_contract_address e) to n = Some l' →
  RewardToken st' = RewardToken st → staked st' = staked st → distributed st' = distributed st + n →
  covered st' l'.
Proof.
  intros Hwf Hc Htk Ht Htk' Hs Hd tk0 Heq. rewrite Htk', Htk in Heq. simplify_eq.
  specialize (Hc _ Htk). rewrite (wf_self _ _ Hwf) in Ht.
  pose proof (transfer_nonneg _ _ _ _ _ _ _ Ht) as Hn. apply transfer_moved in Ht.
  pose proof (moved_out_ge _ _ _ _ _ _ tk0 Ht Hn) as Hge. rewrite bool_decide_eq_true_2 in Hge by done.
  lia.
Qed.

Lemma claim_rewards_sound user i e w r w' :
  wf_env self e → sound w → claim_rewards user i e w = Ok (r, w') → sound w'.
Proof.
  intros Hwf [Hb Hc] Hr. apply claim_rewards_spec in Hr
    as (_ & p & tr & tk & Hp & _ & Ha & Htr & Htk & _ & Hpos & Ht & Hst).
  destruct (pooled_frame (store w) (timestamp e)) as (F1 & F2 & F3 & F4 & F5 & F6 & F7 & F8 & F9 & F10 & F11 & F12).
  pose proof (books_pooled _ (timestamp e) Hb) as Hb1. pose proof (bk_rpt _ Hb1).
  unfold sound. rewrite Hst. split.
  - apply books_unlocked, books_with_rewards; [|lia]. apply books_touch; [done|by rewrite F8|lia].
  - eapply (covered_reward (store w)); try done; unfold staked, distributed; cbn;
      unfold staked, distributed; cbn; by rewrite ?F5, ?F6, ?F2.
Qed.

Lemma settled_books st r es :
  books st → 0 ≤ r ≤ rpt st →
  (∀ i x, (i, x) ∈ es → is_Some (StakePositionAt st !! i)) →
  books {| st with StakePositionAt := foldl (settled r) (StakePositionAt st) es |}.
Proof.
  revert st. induction es as [|[i x] es IH]; intros st Hb Hr Hes; cbn [foldl].
  - by destruct Hb; split.
  - assert (is_Some (StakePositionAt st !! i)) as [p Hp] by (eapply Hes; left).
    unfold settled at 2. cbn [fst snd]. destruct (x >? 0); [|apply IH; set_solver].
    rewrite (alter_lookup_insert _ _ _ _ Hp).
    refine (IH _ (books_touch _ _ _ _ Hb Hp Hr) Hr _).
    intros j y Hin. cbn. apply lookup_insert_is_Some'. right. eapply Hes. by right.
Qed.

Lemma batch_sound user ids e w r w' :
  wf_env self e → sound w → claim_rewards_batch user ids e w = Ok (r, w') → sound w'.
Proof.
  intros Hwf [Hb Hc] Hr.
  apply claim_batch_spec in Hr as (_ & ps & tk & Hps & _ & Hpos & Htk & Ht & Hst).
  destruct (pooled_frame (store w) (timestamp e)) as (F1 & F2 & F3 & F4 & F5 & F6 & F7 & F8 & F9 & F10 & F11 & F12).
  pose proof (books_pooled _ (timestamp e) Hb) as Hb1. pose proof (bk_rpt _ Hb1).
  unfold sound. rewrite Hst. split.
  - apply books_unlocked, books_with_rewards; [|lia]. apply settled_books; [done|lia|].
    intros i x Hin%elem_of_zip_l. rewrite F8. apply list_elem_of_lookup in Hin as [k Hk].
    eapply Forall2_lookup_l in Hps as (y & _ & p & tr & Hp & _); [|done]. eauto.
  - eapply (covered_reward (store w)); try done; unfold staked, distributed; cbn;
      unfold staked, distributed; cbn; by rewrite ?F5, ?F6, ?F2.
Qed.

Lemma emergency_withdraw_sound adm user i e w r w' :
  wf_env self e → sound w → emergency_withdraw adm user i e w = Ok (r, w') → sound w'.
Proof.
  intros Hwf [Hb Hc] Hr. apply emergency_withdraw_spec in Hr
    as (_ & p & tr & tk & Hp & _ & Ha & Htr & Htk & Ht & Hst).
  unfold sound. rewrite Hst. split; [by apply books_unlocked, books_closed|].
  intros tk' Htk'. cbn in Htk'. simplify_eq. specialize (Hc _ Htk).
  rewrite (wf_self _ _ Hwf) in Ht. pose proof (transfer_nonneg _ _ _ _ _ _ _ Ht) as Hn.
  apply transfer_moved in Ht. pose proof (moved_out_ge _ _ _ _ _ _ tk Ht Hn) as Hge.
  rewrite bool_decide_eq_true_2 in Hge by done. unfold staked, distributed in *. cbn. unfold staked. lia.
Qed.

(** One round of the emergency loop: skip, or close an active position. *)
Lemma emergency_close_spec user tot i e w tot' w' :
  emergency_close user tot i e w = Ok (tot', w') →
  ∃ p, StakePositionAt (store w) !! i = Some p ∧
  ((sp_user p ≠ user ∨ sp_active p = false) ∧ tot' = tot ∧ w' = w ∨
   sp_user p = user ∧ sp_active p = true ∧ tot' = tot + sp_amount p ∧
   ∃ tr, Tier (store w) !! sp_tier_id p = Some tr ∧
     w' = {| w with store := closed (store w) i p (st_reward_multiplier_bps tr) |}).
Proof.
  intros Hr. unfold emergency_close in Hr. minv Hr; spec load_stake_spec as [Hp ->]; exists a; split; try done.
  - left. split; [|done]. apply orb_prop in Hc as [Hc|Hc]; zbool; auto.
  - right. spec load_tier_spec as [Htr ->]. spec close_position_spec as ->. arith. split_and!; eauto.
Qed.

(** What the emergency loop keeps: the books, the ledger, and principal. *)
Lemma emergency_loop_inv user ids tot e w tot' w' :
  books (store w) → foldM (emergency_close user) tot ids e w = Ok (tot', w') →
  books (store w') ∧ ledger w' = ledger w ∧ RewardToken (store w') = RewardToken (store w) ∧
  distributed (store w') = distributed (store w) ∧
  staked (store w') + tot' = staked (store w) + tot ∧ tot ≤ tot'.
Proof.
  intros Hb Hr.
  apply (foldM_inv _ (λ tot0 w0, books (store w0) ∧ ledger w0 = ledger w ∧
    RewardToken (store w0) = RewardToken (store w) ∧ distributed (store w0) = distributed (store w) ∧
    staked (store w0) + tot0 = staked (store w) + tot ∧ tot ≤ tot0) _ _ _ _ _ _ Hr).
  { split_and!; done || lia. }
  intros i tot0 w0 tot1 w1 _ (Hb0 & Hl & Htk & Hd & Hs & Hle) Hone.
  apply emergency_close_spec in Hone as (p & Hp & [(_ & -> & ->)|(_ & Ha & -> & tr & Htr & ->)]).
  { by split_and!. }
  destruct (bk_position _ Hb0 _ _ Hp). split_and!; try done; [by apply books_closed| |lia].
  unfold staked at 1. cbn. lia.
Qed.

Lemma emergency_all_sound adm user e w r w' :
  wf_env self e → sound w → emergency_withdraw_all adm user e w = Ok (r, w') → sound w'.
Proof.
  intros Hwf [Hb Hc] Hr. unfold emergency_withdraw_all, user_stake_ids, reward_token, enter_non_reentrant,
    transfer_token_unchecked, exit_non_reentrant in Hr. minv Hr.
  all: spec staking_assert_admin_spec as [_ ->]; spec emergency_loop_inv as (Hb' & Hl & Htk & Hd & Hs & Hle); [|done].
  all: split; [try exact (books_unlocked _ Hb'); by destruct Hb'; split|].
  - intros tk Heq. cbn in *. rewrite Htk in *. specialize (Hc _ Heq).
    rewrite (wf_self _ _ Hwf) in *. match goal with Ht : tok_transfer _ _ _ _ _ _ = Some _ |- _ =>
      pose proof (transfer_nonneg _ _ _ _ _ _ _ Ht) as Hn; apply transfer_moved in Ht;
      pose proof (moved_out_ge _ _ _ _ _ _ tk Ht Hn) as Hge end.
    rewrite Hl in Hge. unfold staked, distributed in *. cbn. case_bool_decide; simplify_eq; lia.
  - intros tk Heq. cbn in *. rewrite Htk in *. specialize (Hc _ Heq). rewrite Hl.
    unfold staked, distributed in *. cbn. zbool. lia.
Qed.

(** *** Tiers *)

Lemma books_tier st i tr :
  books st → tier_ok tr → is_Some (Tier st !! i) →
  books {| st with Tier := <[i := tr]> (Tier st) |}.
Proof.
  intros Hb Htr Hi. split; try (by apply Hb); cbn.
  - intros j p Hp. destruct (bk_position _ Hb _ _ Hp). split; try done.
    apply lookup_insert_is_Some'. by right.
  - intros j tr' [[<- <-]|[_ Hj]]%lookup_insert_Some; [done|by eapply bk_tier].
  - intros j [<-|Hj]%lookup_insert_is_Some'; by apply Hb.
Qed.

Lemma new_field_spec {A} (new : option A) bad msg old e w x w' :
  new_field new bad msg old e w = Ok (x, w') →
  w' = w ∧ x = default old new ∧ (∀ y, new = Some y → bad y = false).
Proof. intros Hr. unfold new_field in Hr. minv Hr; naive_solver. Qed.

Lemma update_tier_spec adm i name min lock mult pen e w r w' :
  update_tier adm i name min lock mult pen e w = Ok (r, w') →
  ∃ tr, Tier (store w) !! i = Some tr ∧ ledger w' = ledger w ∧
    st_reward_multiplier_bps r = default (st_reward_multiplier_bps tr) mult ∧
    st_penalty_bps r = default (st_penalty_bps tr) pen ∧
    (∀ m, mult = Some m → m ≠ 0) ∧ (∀ q, pen = Some q → q ≤ MAX_PENALTY_BPS) ∧
    store w' = {| (store w) with Tier := <[i := r]> (Tier (store w)) |}.
Proof.
  intros Hr. unfold update_tier, set_tier in Hr. minv Hr. spec staking_assert_admin_spec as [_ ->].
  spec load_tier_spec as [Htr ->]. repeat (spec new_field_spec as (-> & -> & ?)).
  eexists. split_and!; try done.
  - intros m ->. match goal with Hm : ∀ y, Some m = Some y → _ |- _ => specialize (Hm _ eq_refl) end. by zbool.
  - intros q ->. match goal with Hm : ∀ y, Some q = Some y → _ |- _ => specialize (Hm _ eq_refl) end. by zbool.
Qed.

Lemma add_tier_spec adm name min lock mult pen e w i w' :
  add_tier adm name min lock mult pen e w = Ok (i, w') →
  ledger w' = ledger w ∧ mult ≠ 0 ∧ pen ≤ MAX_PENALTY_BPS ∧ i = default 0 (TierCounter (store w)) + 1 ∧
  ∃ ids, store w' = {| (store w) with TierCounter := Some i; TierIds := ids;
    Tier := <[i := mkStakingTier i name min lock mult pen true (timestamp e)]> (Tier (store w)) |}.
Proof.
  intros Hr. unfold add_tier, set_tier, tier_ids, next_tier_id, tier_counter in Hr. minv Hr.
  spec staking_assert_admin_spec as [_ ->]. arith. split_and!; eauto.
Qed.

Lemma books_new_tier st i tr ids :
  books st → tier_ok tr → i = default 0 (TierCounter st) + 1 →
  books {| st with TierCounter := Some i; TierIds := ids; Tier := <[i := tr]> (Tier st) |}.
Proof.
  intros Hb Htr ->. pose proof (bk_counters _ Hb) as [Hc1 Hc2]. split; try (by apply Hb); cbn.
  - intros j p Hp. destruct (bk_position _ Hb _ _ Hp). split; try done.
    apply lookup_insert_is_Some'. by right.
  - intros j tr' [[<- <-]|[_ Hj]]%lookup_insert_Some; [done|by eapply bk_tier].
  - intros j [<-|Hj]%lookup_insert_is_Some'; [lia|]. pose proof (bk_tiers _ Hb _ Hj). lia.
  - split; [done|lia].
Qed.

(** Worlds that differ only in switches and events. *)
Lemma sound_frame w w' :
  sound w → books (store w') → ledger w' = ledger w → RewardToken (store w') = RewardToken (store w) →
  staked (store w') = staked (store w) → distributed (store w') = distributed (store w) → sound w'.
Proof.
  intros [Hb Hc] Hb' Hl Htk Hs Hd. split; [done|]. intros tk Heq. rewrite Hl, Hs, Hd. apply Hc. congruence.
Qed.

Lemma set_rate_spec adm r e w u w' :
  set_reward_rate adm r e w = Ok (u, w') →
  0 ≤ r ∧ ledger w' = ledger w ∧
  store w' = {| (pooled (store w) (timestamp e)) with RewardRatePerSecond := Some r |}.
Proof.
  intros Hr. unfold set_reward_rate in Hr. minv Hr. spec staking_assert_admin_spec as [_ ->].
  spec update_pool_spec as ->. by zbool.
Qed.

Lemma fund_spec funder n e w u w' :
  fund_rewards funder n e w = Ok (u, w') →
  authorized e funder = true ∧
  ∃ tk, RewardToken (store w) = Some tk ∧ store w' = unlocked_state (store w) ∧
    tok_transfer e (ledger w) tk funder (current_contract_address e) n = Some (ledger w').
Proof.
  intros Hr. unfold fund_rewards, reward_token in Hr. minv Hr.
  spec staking_transfer_token_spec as (_ & l' & Ht & ->). eauto 10.
Qed.

Lemma initialize_spec adm tk r e w u w' :
  initialize adm tk r e w = Ok (u, w') →
  Admin (store w) = None ∧ 0 ≤ r ∧ ledger w' = ledger w ∧
  store w' = {| (store w) with Admin := Some adm; RewardToken := Some tk; Paused := Some false;
    RewardRatePerSecond := Some r; LastRewardTime := Some (timestamp e);
    RewardPerTokenStored := Some 0; TotalWeightedStake := Some 0; TotalStaked := Some 0;
    TotalRewardsDistributed := Some 0; StakeCounter := Some 0; TierCounter := Some 0;
    TierIds := Some []; ReentrancyLock := Some false |}.
Proof. intros Hr. unfold initialize in Hr. minv Hr. zbool. by split_and!; [apply eq_None_not_Some|..]. Qed.

(** ** Every call *)

Lemma staking_exec_sound c e w w' :
  wf_env self e → call_ok c → sound w → exec c e w = Ok (tt, w') → sound w'.
Proof.
  intros Hwf Hok Hs Hr. destruct c; cbn [exec] in Hr; try (apply discard_Ok in Hr; destruct Hr as [r Hr]).
  - apply initialize_spec in Hr as (Hnone & _). destruct (bk_admin _ (proj1 Hs)). congruence.
  - unfold pause, paused in Hr. minv Hr. spec staking_assert_admin_spec as [_ ->].
    eapply sound_frame; try done. by destruct Hs as [[] _]; split.
  - unfold unpause, paused in Hr. minv Hr. spec staking_assert_admin_spec as [_ ->].
    eapply sound_frame; try done. by destruct Hs as [[] _]; split.
  - apply set_rate_spec in Hr as (Hrate & Hl & Hst).
    destruct (pooled_frame (store w) (timestamp e)) as (F1 & F2 & F3 & F4 & F5 & F6 & _).
    assert (books (store w')) as Hb'.
    { rewrite Hst. by destruct (books_pooled _ (timestamp e) (proj1 Hs)); split. }
    eapply sound_frame; try done; rewrite Hst; unfold staked, distributed; cbn; by rewrite ?F2, ?F5, ?F6.
  - apply add_tier_spec in Hr as (Hl & Hm & Hp & Hi & ids & Hst). cbn in Hok.
    eapply sound_frame; try done; rewrite Hst; try done.
    apply books_new_tier; [apply Hs|split; cbn; lia|done].
  - apply update_tier_spec in Hr as (tr & Htr & Hl & Hmult & Hpen & Hm & Hp & Hst). cbn in Hok.
    eapply sound_frame; try done; rewrite Hst; try done.
    destruct (bk_tier _ (proj1 Hs) _ _ Htr). apply books_tier; [apply Hs| |eauto].
    split; [rewrite Hmult|rewrite Hpen].
    + destruct multiplier as [m|]; [|done]. specialize (Hm _ eq_refl). simpl in *. lia.
    + destruct penalty as [q|]; [|done]. specialize (Hp _ eq_refl). simpl in *. lia.
  - unfold deactivate_tier, set_tier in Hr. minv Hr. spec staking_assert_admin_spec as [_ ->].
    spec load_tier_spec as [Htr ->]. eapply sound_frame; try done.
    destruct (bk_tier _ (proj1 Hs) _ _ Htr).
    destruct (books_tier (store w) tier_id {| a with st_active := false |} (proj1 Hs)); [by split|eauto|by split].
  - by eapply stake_sound.
  - by eapply unstake_sound.
  - by eapply claim_rewards_sound.
  - by eapply batch_sound.
  - by eapply emergency_withdraw_sound.
  - by eapply emergency_all_sound.
  - apply fund_spec in Hr as (Hauth & tk & Htk & Hst & Ht). destruct Hs as [Hb Hc].
    rewrite (wf_self _ _ Hwf) in Ht. pose proof (transfer_nonneg _ _ _ _ _ _ _ Ht) as Hn. apply transfer_moved in Ht.
    unfold sound. rewrite Hst. split; [by apply books_unlocked|]. intros tk' Heq. cbn in Heq. specialize (Hc _ Heq).
    rewrite (moved_in _ _ _ _ _ _ tk' Ht) by eauto with contracts.
    unfold staked, distributed in *. cbn. case_bool_decide; lia.
Qed.

(** ** Reachable worlds: from a successful [initialize] on a fresh contract *)

Definition started (e0 : Env) w1 : Prop :=
  ∃ w0 adm tk r, wf_env self e0 ∧ store w0 = deployed ∧
    (∀ tk, 0 ≤ tok_balance (ledger w0) tk self) ∧ initialize adm tk r e0 w0 = Ok (tt, w1).

Lemma started_sound e0 w1 : started e0 w1 → sound w1.
Proof.
  intros (w0 & adm & tk & r & Hwf & Hst & Hbal & Hinit).
  apply initialize_spec in Hinit as (_ & Hr & Hl & Hst1). unfold sound. rewrite Hst1, Hst, Hl. split.
  - split; cbn; try done; try lia.
    + intros i Hi. rewrite lookup_empty in Hi. by destruct Hi.
    + intros u i. rewrite lookup_empty. simpl. split; [set_solver|]. by intros (p & Hp & _).
    + intros u. rewrite lookup_empty. apply NoDup_nil_2.
  - intros tk' _. unfold staked, distributed. cbn. specialize (Hbal tk'). lia.
Qed.

Lemma staking_reachable_sound e0 w1 t w :
  started e0 w1 → rtc (step exec call_ok self) (timestamp e0, w1) (t, w) → sound w.
Proof.
  intros Hstart Hsteps.
  apply (reach_inv_world exec call_ok self (λ _, sound)) in Hsteps; [done| | |by eapply started_sound].
  - intros; by eapply staking_exec_sound.
  - intros t1 t2 w2 l' _ Hl [Hb Hc]. split; [done|]. intros tk Htk. specialize (Hc tk Htk).
    specialize (Hl tk). cbn in *. lia.
Qed.
End sound.


(** ** The emission schedule

    As long as the admin never changes a tier's multiplier and no batch names a
    position twice, what has been paid and what is still owed never exceed the
    rate times the time since initialization. *)

Definition position_weight (tiers : gmap Z StakingTier) (p : StakePosition) : Z :=
  weight_of (sp_amount p) (from_option st_reward_multiplier_bps 0 (tiers !! sp_tier_id p)).

(** What the accumulator owes a position, scaled by [PRECISION_FACTOR]. *)
Definition accrued (acc : Z) (tiers : gmap Z StakingTier) (p : StakePosition) : Z :=
  (acc - sp_reward_per_token_paid p) * position_weight tiers p.

Record emission (R t0 t : Z) (st : State) : Prop := {
  em_weight : weighted st = active_sum (position_weight (Tier st)) (StakePositionAt st);
  em_rate : rate st ≤ R;
  em_time : t0 ≤ last_time st ≤ t;
  em_bound : PRECISION_FACTOR * distributed st
    + active_sum (accrued (rpt st) (Tier st)) (StakePositionAt st)
    ≤ PRECISION_FACTOR * (R * (last_time st - t0));
}.

Lemma active_sum_shift c f g h m :
  (∀ p, f p = g p + c * h p) → active_sum f m = active_sum g m + c * active_sum h m.
Proof.
  intros Hf. unfold active_sum. induction m as [|i p m Hi IH] using map_ind.
  - rewrite !msum_empty. lia.
  - rewrite !msum_insert_fresh, IH by done. destruct (sp_active p); [rewrite Hf|]; lia.
Qed.

Lemma active_sum_insert_fresh f m i p :
  m !! i = None → active_sum f (<[i := p]> m) = (if sp_active p then f p else 0) + active_sum f m.
Proof. apply msum_insert_fresh. Qed.

Lemma position_weight_nonneg st i p :
  books st → StakePositionAt st !! i = Some p → 0 ≤ position_weight (Tier st) p.
Proof.
  intros Hb Hp. destruct (bk_position _ Hb _ _ Hp). destruct pk_tier0 as [tr Htr].
  unfold position_weight. rewrite Htr. simpl. destruct (bk_tier _ Hb _ _ Htr). apply weight_nonneg; lia.
Qed.

Lemma accrued_nonneg st i p :
  books st → StakePositionAt st !! i = Some p → 0 ≤ accrued (rpt st) (Tier st) p.
Proof.
  intros Hb Hp. pose proof (position_weight_nonneg _ _ _ Hb Hp). destruct (bk_position _ Hb _ _ Hp).
  unfold accrued. apply Z.mul_nonneg_nonneg; lia.
Qed.

Lemma emission_pooled R t0 t t' st :
  0 ≤ R → t ≤ t' → books st → emission R t0 t st → emission R t0 t' (pooled st t').
Proof.
  intros HR Ht Hb [Hw Hrate Htime Hbound]. pose proof (bk_rate _ Hb) as Hrate0.
  destruct (pooled_frame st t') as (F1 & F2 & F3 & F4 & F5 & F6 & F7 & F8 & F9 & F10 & _).
  split; unfold weighted, distributed in *; rewrite ?F3, ?F4, ?F6, ?F8, ?F10, ?rpt_pooled; try done.
  - unfold pooled. destruct (last_time st <? t') eqn:E; zbool; [unfold last_time; cbn|]; lia.
  - unfold rpt_at, pooled. destruct (last_time st <? t') eqn:E; zbool; [|by cbn]. cbn [andb].
    unfold last_time at 2. cbn [LastRewardTime from_option id].
    assert (R * (last_time st - t0) ≤ R * (t' - t0)) by nia.
    destruct (0 <? weighted st) eqn:EW; zbool; [|unfold PRECISION_FACTOR in *; lia].
    set (inc := (rate st * (t' - last_time st) * PRECISION_FACTOR) `quot` weighted st).
    rewrite (active_sum_shift inc _ (accrued (rpt st) (Tier st)) (position_weight (Tier st)))
      by (intros; unfold accrued; lia).
    rewrite <- Hw. fold (weighted st).
    assert (inc * weighted st ≤ rate st * (t' - last_time st) * PRECISION_FACTOR).
    { unfold inc. rewrite quot_div_nonneg by (unfold PRECISION_FACTOR; nia).
      rewrite Z.mul_comm. apply Z.mul_div_le. lia. }
    assert (rate st * (t' - last_time st) ≤ R * (t' - last_time st)) by nia.
    unfold PRECISION_FACTOR in *. lia.
Qed.

(** *** The writes and the emission bound *)

(** Rewards are rounded down: what is paid is at most what accrued. *)
Lemma pending_le_accrued st t i p tr :
  books st → StakePositionAt st !! i = Some p → Tier st !! sp_tier_id p = Some tr →
  PRECISION_FACTOR * pending_of st t p (st_reward_multiplier_bps tr)
    ≤ accrued (rpt_at st t) (Tier st) p.
Proof.
  intros Hb Hp Htr. pose proof (position_weight_nonneg _ _ _ Hb Hp) as Hw.
  pose proof (rpt_at_le st t Hb). destruct (bk_position _ Hb _ _ Hp).
  unfold accrued, position_weight, pending_of in *. rewrite Htr in *. simpl in *.
  assert (0 ≤ (rpt_at st t - sp_reward_per_token_paid p) * weight_of (sp_amount p) (st_reward_multiplier_bps tr))
    by (apply Z.mul_nonneg_nonneg; lia).
  destruct (_ || _); [lia|]. rewrite quot_div_nonneg by done. by apply Z.mul_div_le.
Qed.

Lemma emission_opened R t0 t st p tr :
  books st → emission R t0 t st → sp_active p = true → sp_reward_per_token_paid p = rpt st →
  Tier st !! sp_tier_id p = Some tr →
  emission R t0 t (opened st p (st_reward_multiplier_bps tr)).
Proof.
  intros Hb [Hw Hrate Htime Hbound] Ha Hpaid Htr.
  assert (StakePositionAt st !! (default 0 (StakeCounter st) + 1) = None) as Hfresh.
  { destruct (StakePositionAt st !! _) as [q|] eqn:Hq; [|done]. destruct (bk_position _ Hb _ _ Hq). lia. }
  split; [|done|done|]; unfold weighted, distributed, rpt, last_time in *; cbn in *;
    rewrite active_sum_insert_fresh, Ha by done.
  - unfold position_weight at 1. rewrite Htr. simpl. unfold weighted. lia.
  - unfold accrued at 1. rewrite Hpaid. lia.
Qed.

Lemma emission_closed R t0 t st i p tr n :
  emission R t0 t st → StakePositionAt st !! i = Some p → sp_active p = true →
  Tier st !! sp_tier_id p = Some tr → PRECISION_FACTOR * n ≤ accrued (rpt st) (Tier st) p →
  emission R t0 t (with_rewards (closed st i p (st_reward_multiplier_bps tr)) n).
Proof.
  intros [Hw Hrate Htime Hbound] Hp Ha Htr Hn.
  split; [|done|done|]; unfold weighted, distributed, rpt, last_time in *; cbn in *;
    rewrite (active_sum_replace _ _ _ p), Ha by done; cbn.
  - unfold position_weight at 2. rewrite Htr. simpl. unfold weighted. lia.
  - unfold distributed. cbn. lia.
Qed.

(** A state without a recorded reward is the one with a reward of zero. *)
Lemma emission_reward_zero R t0 t st : emission R t0 t (with_rewards st 0) → emission R t0 t st.
Proof.
  intros [Hw Hrate Htime Hbound]. split; try done.
  unfold with_rewards, distributed in *. cbn in *. unfold distributed in Hbound. by rewrite Z.add_0_r in Hbound.
Qed.

Lemma emission_touch R t0 t st i p n :
  emission R t0 t st → StakePositionAt st !! i = Some p → sp_active p = true →
  PRECISION_FACTOR * n ≤ accrued (rpt st) (Tier st) p →
  emission R t0 t (with_rewards {| st with StakePositionAt :=
    <[i := {| p with sp_reward_per_token_paid := rpt st |}]> (StakePositionAt st) |} n).
Proof.
  intros [Hw Hrate Htime Hbound] Hp Ha Hn.
  split; [|done|done|]; unfold weighted, distributed, rpt, last_time in *; cbn in *;
    rewrite (active_sum_replace _ _ _ p), Ha by done; cbn.
  - unfold position_weight at 3. cbn [sp_amount sp_tier_id]. fold (position_weight (Tier st) p). lia.
  - unfold accrued at 3. cbn. unfold distributed. cbn. lia.
Qed.

Lemma emission_unlocked R t0 t st : emission R t0 t st → emission R t0 t (unlocked_state st).
Proof. by intros []; split. Qed.

(** Tiers may be added or edited as long as the multipliers in use stay. *)
Lemma emission_tiers R t0 t st st' :
  emission R t0 t st →
  StakePositionAt st' = StakePositionAt st → weighted st' = weighted st → rate st' = rate st →
  last_time st' = last_time st → rpt st' = rpt st → distributed st' = distributed st →
  (∀ i p, StakePositionAt st !! i = Some p → position_weight (Tier st') p = position_weight (Tier st) p) →
  emission R t0 t st'.
Proof.
  intros [Hw Hrate Htime Hbound] Hpos Hwt Hr Hl Hrpt Hd Hsame.
  split; rewrite ?Hpos, ?Hwt, ?Hr, ?Hl, ?Hrpt, ?Hd; try done.
  - rewrite Hw. apply active_sum_ext. intros i p Hp _. symmetry. eauto.
  - rewrite (active_sum_ext _ (accrued (rpt st) (Tier st))); [done|].
    intros i p Hp _. unfold accrued. by erewrite Hsame.
Qed.

(** A batch in which no position occurs twice. *)
Lemma emission_settled R t0 t st es :
  emission R t0 t st → NoDup es.*1 →
  (∀ i x, (i, x) ∈ es → ∃ p, StakePositionAt st !! i = Some p ∧ sp_active p = true ∧
     PRECISION_FACTOR * x ≤ accrued (rpt st) (Tier st) p) →
  emission R t0 t (with_rewards {| st with StakePositionAt :=
    foldl (settled (rpt st)) (StakePositionAt st) es |} (lsum (λ x, Z.max 0 x.2) es)).
Proof.
  revert st. induction es as [|[i x] es IH]; intros st Hem Hnd Hes; cbn [foldl].
  - simpl. destruct Hem as [Hw Hrate Htime Hbound]. split; try done.
    unfold with_rewards, distributed in *. cbn in *. unfold distributed. cbn. by rewrite Z.add_0_r.
  - apply NoDup_cons in Hnd as [Hi Hnd]. cbn [fst] in Hi.
    destruct (Hes i x ltac:(left)) as (p & Hp & Ha & Hx).
    unfold settled at 2. cbn [fst snd lsum foldr]. fold (lsum (λ x : Z * Z, Z.max 0 x.2) es).
    destruct (x >? 0) eqn:Hpos; zbool.
    + rewrite (alter_lookup_insert _ _ _ _ Hp).
      pose proof (emission_touch _ _ _ _ _ _ _ Hem Hp Ha Hx) as Hem1.
      match type of Hem1 with emission _ _ _ ?st1 => specialize (IH st1 Hem1 Hnd) end.
      assert (∀ n, Z.max 0 x + n = x + n) as Hmax by lia. rewrite Hmax.
      unfold with_rewards in *. cbn in *. unfold distributed in *. cbn in *. rewrite Z.add_assoc.
      apply IH. intros j y Hin. destruct (Hes j y ltac:(by right)) as (q & Hq & Hqa & Hy).
      exists q. rewrite lookup_insert_ne; [done|]. intros ->. apply Hi.
      by apply (list_elem_of_fmap_2' fst _ (j, y)).
    + assert (∀ n, Z.max 0 x + n = n) as Hmax by lia. rewrite Hmax. apply IH; [done|done|].
      intros j y Hin. apply Hes. by right.
Qed.

(** The calls for which the bound holds, with reward rates of at most [R]. *)
Definition disciplined (R : Z) (c : Call) : Prop :=
  call_ok c ∧
  match c with
  | CSetRewardRate _ r => r ≤ R
  | CUpdateTier _ _ _ _ _ multiplier _ => multiplier = None
  | CClaimRewardsBatch _ ids => NoDup ids
  | _ => True
  end.

Lemma emission_later R t0 t t' st : emission R t0 t st → t ≤ t' → emission R t0 t' st.
Proof. intros [] Ht. split; try done. lia. Qed.

Section emitted.
Context `{TokenHost} (R t0 : Z).
Implicit Types (w : World State Event) (e : Env).

Lemma unstake_emission user i e t w r w' :
  0 ≤ R → t ≤ timestamp e → books (store w) → emission R t0 t (store w) →
  unstake user i e w = Ok (r, w') → emission R t0 (timestamp e) (store w').
Proof.
  intros HR Ht Hb Hem Hr. apply unstake_spec in Hr
    as (_ & p & tr & tk & l1 & Hp & _ & Ha & Htr & Htk & _ & _ & _ & ->).
  destruct (pooled_frame (store w) (timestamp e)) as (F1 & F2 & F3 & F4 & F5 & F6 & F7 & F8 & F9 & F10 & _).
  pose proof (emission_pooled _ _ _ _ _ HR Ht Hb Hem) as Hem1.
  pose proof (pending_le_accrued _ (timestamp e) _ _ _ Hb Hp Htr) as Hle.
  pose proof (pending_nonneg _ (timestamp e) _ _ _ Hb Hp Htr) as Hge.
  set (pend := pending_of _ _ _ _) in *. apply emission_unlocked.
  assert (emission R t0 (timestamp e) (with_rewards (closed (pooled (store w) (timestamp e)) i p
    (st_reward_multiplier_bps tr)) pend)) as Hem2.
  { apply emission_closed; rewrite ?F8, ?F10, ?rpt_pooled; done. }
  destruct (pend >? 0) eqn:Hpos; [done|]. zbool.
  assert (pend = 0) as Hz by lia. rewrite Hz in Hem2. by apply emission_reward_zero.
Qed.

Lemma claim_emission user i e t w r w' :
  0 ≤ R → t ≤ timestamp e → books (store w) → emission R t0 t (store w) →
  claim_rewards user i e w = Ok (r, w') → emission R t0 (timestamp e) (store w').
Proof.
  intros HR Ht Hb Hem Hr. apply claim_rewards_spec in Hr
    as (_ & p & tr & tk & Hp & _ & Ha & Htr & Htk & -> & _ & _ & ->).
  destruct (pooled_frame (store w) (timestamp e)) as (F1 & F2 & F3 & F4 & F5 & F6 & F7 & F8 & F9 & F10 & _).
  apply emission_unlocked, emission_touch; rewrite ?F8, ?F10, ?rpt_pooled; try done.
  - by eapply emission_pooled.
  - by eapply pending_le_accrued.
Qed.

Lemma batch_emission user ids e t w r w' :
  0 ≤ R → t ≤ timestamp e → books (store w) → emission R t0 t (store w) → NoDup ids →
  claim_rewards_batch user ids e w = Ok (r, w') → emission R t0 (timestamp e) (store w').
Proof.
  intros HR Ht Hb Hem Hnd Hr. apply claim_batch_spec in Hr as (_ & ps & tk & Hps & -> & _ & _ & _ & ->).
  destruct (pooled_frame (store w) (timestamp e)) as (F1 & F2 & F3 & F4 & F5 & F6 & F7 & F8 & F9 & F10 & _).
  apply emission_unlocked, emission_settled.
  - by eapply emission_pooled.
  - by rewrite fst_zip by (erewrite Forall2_length; [|done]; done).
  - intros i x Hin. apply list_elem_of_lookup in Hin as [k Hk].
    apply lookup_zip_Some in Hk as [Hk1 Hk2].
    destruct (Forall2_lookup_lr _ _ _ _ _ _ Hps Hk1 Hk2) as (p & tr & Hp & _ & Ha & Htr & ->).
    exists p. rewrite F8, F10, rpt_pooled. split_and!; [done..|]. by eapply pending_le_accrued.
Qed.

Lemma close_emission t st i p tr :
  books st → emission R t0 t st → StakePositionAt st !! i = Some p → sp_active p = true →
  Tier st !! sp_tier_id p = Some tr → emission R t0 t (closed st i p (st_reward_multiplier_bps tr)).
Proof.
  intros Hb Hem Hp Ha Htr. apply emission_reward_zero, emission_closed; try done.
  rewrite Z.mul_0_r. by eapply accrued_nonneg.
Qed.
End emitted.

Section bounded.
Context `{TokenHost} `{!TokenLaws} (self : Address) (R : Z).
Implicit Types (w : World State Event) (e : Env).

Lemma exec_emission t0 c e t w w' :
  0 ≤ R → t ≤ timestamp e → disciplined R c → books (store w) → emission R t0 t (store w) →
  exec c e w = Ok (tt, w') → emission R t0 (timestamp e) (store w').
Proof.
  intros HR Ht [Hok Hd] Hb Hem Hr. pose proof (emission_later _ _ _ _ _ Hem Ht) as Hlater.
  destruct c; cbn [exec] in Hr; try (apply discard_Ok in Hr; destruct Hr as [r Hr]).
  - apply initialize_spec in Hr as (Hnone & _). destruct (bk_admin _ Hb). congruence.
  - unfold pause, paused in Hr. minv Hr. spec staking_assert_admin_spec as [_ ->]. by destruct Hlater; split.
  - unfold unpause, paused in Hr. minv Hr. spec staking_assert_admin_spec as [_ ->]. by destruct Hlater; split.
  - apply set_rate_spec in Hr as (_ & _ & ->).
    by destruct (emission_pooled _ _ _ _ _ HR Ht Hb Hem); split.
  - apply add_tier_spec in Hr as (_ & _ & _ & Hi & ids & ->).
    eapply emission_tiers; try done. intros j p Hp. unfold position_weight. cbn [Tier].
    destruct (bk_position _ Hb _ _ Hp). pose proof (bk_tiers _ Hb _ pk_tier0).
    rewrite lookup_insert_ne; [done|lia].
  - apply update_tier_spec in Hr as (tr & Htr & _ & Hmult & _ & _ & _ & ->). subst multiplier.
    eapply emission_tiers; try done. intros j p Hp. unfold position_weight. cbn [Tier].
    rewrite lookup_insert. case_decide; [|done]. subst tier_id. rewrite Htr. simpl. by rewrite Hmult.
  - unfold deactivate_tier, set_tier in Hr. minv Hr. spec staking_assert_admin_spec as [_ ->].
    spec load_tier_spec as [Htr ->].
    eapply emission_tiers; try done. intros j p Hp. unfold position_weight. cbn [Tier store].
    rewrite lookup_insert. case_decide; [|done]. subst tier_id. by rewrite Htr.
  - apply stake_spec in Hr as (_ & _ & tr & tk & Htr & _ & _ & _ & ->).
    apply emission_unlocked, emission_opened; try done.
    + by apply books_pooled.
    + by eapply emission_pooled.
    + by destruct (pooled_frame (store w) (timestamp e)) as (_ & _ & _ & _ & _ & _ & _ & _ & _ & -> & _).
  - by eapply unstake_emission.
  - by eapply claim_emission.
  - by eapply batch_emission.
  - apply emergency_withdraw_spec in Hr as (_ & p & tr & tk & Hp & _ & Ha & Htr & _ & _ & ->).
    by apply emission_unlocked, close_emission.
  - unfold emergency_withdraw_all, user_stake_ids, reward_token, enter_non_reentrant,
      transfer_token_unchecked, exit_non_reentrant in Hr.
    minv Hr. all: spec staking_assert_admin_spec as [_ ->].
    all: match goal with Hf : foldM _ _ _ _ _ = Ok (_, ?w1) |- _ =>
      assert (books (store w1) ∧ emission R t0 (timestamp e) (store w1)) as [_ Hem1] end.
    1,3: eapply (foldM_inv _ (λ _ w0, books (store w0) ∧ emission R t0 (timestamp e) (store w0)));
      [eassumption|done|].
    1,2: intros i tot0 w0 tot1 w0' _ [Hb0 Hem0] Hone;
      apply emergency_close_spec in Hone as (p & Hp & [(_ & -> & ->)|(_ & Ha & -> & tr & Htr & ->)]);
      [done|split; [by apply books_closed|by apply close_emission]].
    all: by destruct Hem1; split.
  - apply fund_spec in Hr as (_ & tk & _ & -> & _). by apply emission_unlocked.
Qed.

Lemma reachable_emission e0 w1 t w :
  0 ≤ R → started self e0 w1 → rate (store w1) ≤ R →
  rtc (step exec (disciplined R) self) (timestamp e0, w1) (t, w) →
  sound self w ∧ emission R (timestamp e0) t (store w).
Proof.
  intros HR Hstart Hrate Hsteps. pose proof (started_sound _ _ _ Hstart) as Hs1.
  apply (reach_inv_world exec (disciplined R) self (λ t w, sound self w ∧ emission R (timestamp e0) t (store w)))
    in Hsteps; [done| | |].
  - intros t1 c e w2 w3 Hwf Ht Hd [Hs Hem] Hx. split; [eapply staking_exec_sound; [done|apply Hd|done|done]|].
    eapply exec_emission; [done|done|done|apply Hs|done|done].
  - intros t1 t2 w2 l' Ht Hl [[Hb Hc] Hem]. split; [split; [done|]|by eapply emission_later].
    intros tk Htk. specialize (Hc tk Htk). specialize (Hl tk). cbn in *. lia.
  - cbn. split; [done|]. destruct Hstart as (w0 & adm & tk & r & Hwf & Hst & _ & Hinit).
    apply initialize_spec in Hinit as (_ & Hr & _ & Hst1). rewrite Hst1 in *. rewrite Hst in *.
    split; cbn; try done; unfold weighted, last_time, distributed, active_sum; cbn; rewrite ?msum_empty; lia.
Qed.
End bounded.

(** ** The view and the settlement agree *)

Section view.
Context `{TokenHost}.
Implicit Types (w : World State Event) (e : Env).

(** A pool just updated needs no second update. *)
Lemma pending_pooled st t p m : pending_of (pooled st t) t p m = pending_of st t p m.
Proof.
  unfold pending_of, weighted. rewrite pooled_idem.
  by destruct (pooled_frame st t) as (_ & _ & _ & -> & _).
Qed.

Lemma pending_of_settled st t p m :
  pending_of st t p m =
  if negb (sp_active p) || (weighted st <=? 0) then 0
  else ((rpt (pooled st t) - sp_reward_per_token_paid p) * weight_of (sp_amount p) m)
         `quot` PRECISION_FACTOR.
Proof. unfold pending_of. by rewrite rpt_pooled. Qed.

(** The computation cannot fail right after an update if it did not before. *)
Lemma pending_run_pooled p m e w r w' :
  calculate_pending_rewards_static p m e w = Ok (r, w') →
  calculate_pending_rewards_static p m e {| w with store := pooled (store w) (timestamp e) |}
    = Ok (r, {| w with store := pooled (store w) (timestamp e) |}).
Proof.
  intros Hr. set (st1 := pooled (store w) (timestamp e)). set (w1 := {| w with store := st1 |}).
  assert (timestamp e ≤ default 0 (LastRewardTime st1)) as Hlast.
  { unfold st1, pooled. destruct (last_time (store w) <? timestamp e) eqn:E; zbool; [done|exact E]. }
  assert (default 0 (TotalWeightedStake st1) = default 0 (TotalWeightedStake (store w))) as Hw.
  { unfold st1. by destruct (pooled_frame (store w) (timestamp e)) as (_ & _ & _ & -> & _). }
  assert (default 0 (RewardPerTokenStored st1) = rpt_at (store w) (timestamp e)) as Hrpt by apply rpt_pooled.
  unfold calculate_pending_rewards_static in Hr |- *.
  destruct (negb (sp_active p)); [by minv Hr|].
  unfold total_weighted_stake, last_reward_time, reward_per_token_stored, reward_rate_per_second,
    calculate_weight in *.
  rewrite (bind_run _ _ _ _ (default 0 (TotalWeightedStake (store w))) w1) by (unfold gets; by rewrite <- Hw).
  apply bind_Ok in Hr as (tw & w0 & Htw & Hr). minv Htw.
  destruct (default 0 (TotalWeightedStake (store w)) <=? 0) eqn:EW; [by minv Hr|].
  rewrite (bind_run _ _ _ _ (default 0 (LastRewardTime st1)) w1) by done.
  rewrite (bind_run _ _ _ _ (timestamp e) w1) by done.
  rewrite (bind_run _ _ _ _ (rpt_at (store w) (timestamp e)) w1) by (unfold gets; by rewrite <- Hrpt).
  assert ((timestamp e >? default 0 (LastRewardTime st1)) = false) as ->
    by (rewrite Z.gtb_ltb; apply Z.ltb_ge; lia).
  rewrite (bind_run _ _ _ _ (rpt_at (store w) (timestamp e)) w1) by done.
  unfold rpt_at, last_time, rate, rpt, weighted. zbool.
  minv Hr; arith.
  - rewrite !(proj2 (Z.ltb_lt _ _)) by lia. cbn [andb].
    unfold mbind, M_bind, expect, checked_mul, checked_sub.
    repeat (rewrite checked_in by done; cbv beta iota delta [mret M_ret]). done.
  - rewrite (proj2 (Z.ltb_ge _ _)) by lia. cbn [andb].
    unfold mbind, M_bind, expect, checked_mul, checked_sub.
    repeat (rewrite checked_in by done; cbv beta iota delta [mret M_ret]). done.
Qed.
End view.

(** What a payment from the contract gives its receiver. *)
Lemma pays_received `{TokenHost} `{!TokenLaws} self e l l' tk to n :
  wf_env self e → to ≠ self → pays e l l' tk to n → 0 ≤ n →
  tok_balance l' tk to = tok_balance l tk to + n.
Proof.
  intros Hwf Hne Hp Hn. unfold pays in Hp. destruct (n >? 0) eqn:Hpos; zbool; [|subst; lia].
  rewrite (wf_self _ _ Hwf) in Hp. apply transfer_moved in Hp. rewrite Hp.
  repeat case_bool_decide; naive_solver lia.
Qed.

(** A batch that succeeds has a view value for its first entry. *)
Lemma batch_head_pending `{TokenHost} user i ids e (w : World State Event) tot w' :
  claim_rewards_batch user (i :: ids) e w = Ok (tot, w') →
  ∃ p tr, StakePositionAt (store w) !! i = Some p ∧ Tier (store w) !! sp_tier_id p = Some tr ∧
    get_pending_rewards i e w =
      Ok (pending_of (store w) (timestamp e) p (st_reward_multiplier_bps tr), w).
Proof.
  intros Hr. unfold claim_rewards_batch in Hr.
  apply bind_Ok in Hr as ([] & w1 & Hg1 & Hr). minv Hg1.
  apply bind_Ok in Hr as ([] & w1 & Hg2 & Hr). minv Hg2.
  apply bind_Ok in Hr as ([] & w1 & Hg3 & Hr). minv Hg3.
  apply bind_Ok in Hr as (l & w1 & Hf & _). cbn [foldM] in Hf.
  apply bind_Ok in Hf as (l0 & w2 & Hf & _). unfold batch_pending in Hf.
  apply bind_Ok in Hf as (p & w3 & Hload & Hf). pose proof (load_stake_spec _ _ _ _ _ Hload) as [Hp ->].
  apply bind_Ok in Hf as ([] & w3 & Hg4 & Hf). minv Hg4.
  apply bind_Ok in Hf as ([] & w3 & Hg5 & Hf). minv Hg5.
  apply bind_Ok in Hf as (tr & w3 & Htier & Hf). pose proof (load_tier_spec _ _ _ _ _ Htier) as [Htr ->].
  apply bind_Ok in Hf as (x & w3 & Hpend & _). pose proof (pending_spec _ _ _ _ _ _ Hpend) as [-> ->].
  exists p, tr. split_and!; [done..|]. unfold get_pending_rewards.
  rewrite (bind_run _ _ _ _ p w) by done.
  match goal with Hc : negb (sp_active p) = false |- _ => rewrite Hc end.
  by rewrite (bind_run _ _ _ _ tr w).
Qed.

(** ** Theorems *)

Section theorems.
Context `{TokenHost} `{!TokenLaws} (self : Address).
Implicit Types (w : World State Event) (e : Env).

(** C12: in every reachable world the recorded total stake is the sum of the
    active positions, and the contract's balance of the reward token together
    with the rewards already paid out covers all of it: principal can only be
    short by what was paid as rewards. *)
Theorem staking_principal_covered e0 w1 t w tk :
  started self e0 w1 → rtc (step exec call_ok self) (timestamp e0, w1) (t, w) →
  RewardToken (store w) = Some tk →
  staked (store w) = active_sum sp_amount (StakePositionAt (store w)) ∧
  active_sum sp_amount (StakePositionAt (store w))
    ≤ tok_balance (ledger w) tk self + distributed (store w).
Proof.
  intros Hs Hr Htk. destruct (staking_reachable_sound self _ _ _ _ Hs Hr) as [Hb Hc].
  specialize (Hc _ Htk). rewrite <- (bk_staked _ Hb). done.
Qed.

(** While no tier's multiplier is edited, no batch names a position
    twice and the reward rate stays at most [R], the rewards distributed never
    exceed the emission [R * elapsed time], and even adding everything accrued
    but unclaimed stays within the schedule. *)
Theorem staking_rewards_bounded R e0 w1 t w :
  0 ≤ R → started self e0 w1 → rate (store w1) ≤ R →
  rtc (step exec (disciplined R) self) (timestamp e0, w1) (t, w) →
  weighted (store w) = active_sum (position_weight (Tier (store w))) (StakePositionAt (store w)) ∧
  0 ≤ distributed (store w) ≤ R * (t - timestamp e0) ∧
  PRECISION_FACTOR * distributed (store w)
    + active_sum (accrued (rpt (store w)) (Tier (store w))) (StakePositionAt (store w))
    ≤ PRECISION_FACTOR * (R * (last_time (store w) - timestamp e0)).
Proof.
  intros HR Hs Hrate Hr.
  destruct (reachable_emission self R _ _ _ _ HR Hs Hrate Hr) as [[Hb _] [Hw _ Htime Hbound]].
  split_and!; [done|by apply Hb| |done].
  assert (0 ≤ active_sum (accrued (rpt (store w)) (Tier (store w))) (StakePositionAt (store w))) as Hpos.
  { apply msum_nonneg. intros i p Hp. destruct (sp_active p); [by eapply accrued_nonneg|done]. }
  assert (R * (last_time (store w) - timestamp e0) ≤ R * (t - timestamp e0)) by nia.
  unfold PRECISION_FACTOR in *. nia.
Qed.

(** C13: the pending rewards computed without touching the pool (the view and
    the claims project the accumulator to the current time) are those computed
    after the pool is updated, and they are the reference formula on the stored
    accumulator. *)
Theorem pending_view_settles p m e w r w1 w2 :
  calculate_pending_rewards_static p m e w = Ok (r, w1) →
  update_pool e w = Ok (tt, w2) →
  w1 = w ∧
  calculate_pending_rewards_static p m e w2 = Ok (r, w2) ∧
  r = if negb (sp_active p) || (weighted (store w) <=? 0) then 0
      else ((rpt (store w2) - sp_reward_per_token_paid p) * weight_of (sp_amount p) m)
             `quot` PRECISION_FACTOR.
Proof.
  intros Hp Hu. apply update_pool_spec in Hu. pose proof (pending_run_pooled _ _ _ _ _ _ Hp) as Hp2.
  rewrite <- Hu in Hp2. apply pending_spec in Hp as [-> ->].
  split_and!; [done|done|]. rewrite pending_of_settled, Hu. done.
Qed.

(** A successful [unstake] by [user] closes the user's active position, pays
    the user exactly [total_returned], which is the principal less the penalty
    plus the pending rewards; the penalty is between zero and the principal and
    is zero once the lock has ended; the totals fall by exactly this position. *)
Theorem unstake_exact e0 w1 t w user i e r w' :
  started self e0 w1 → rtc (step exec call_ok self) (timestamp e0, w1) (t, w) →
  wf_env self e → unstake user i e w = Ok (r, w') →
  ∃ p tr tk, StakePositionAt (store w) !! i = Some p ∧ sp_user p = user ∧
    sp_active p = true ∧ Tier (store w) !! sp_tier_id p = Some tr ∧ RewardToken (store w) = Some tk ∧
    0 ≤ ur_penalty_amount r ≤ sp_amount p ∧
    (sp_lock_end_time p ≤ timestamp e → ur_penalty_amount r = 0) ∧
    ur_rewards_claimed r = pending_of (store w) (timestamp e) p (st_reward_multiplier_bps tr) ∧
    ur_total_returned r = sp_amount p - ur_penalty_amount r + ur_rewards_claimed r ∧
    tok_balance (ledger w') tk user = tok_balance (ledger w) tk user + ur_total_returned r ∧
    StakePositionAt (store w') = <[i := {| p with sp_active := false |}]> (StakePositionAt (store w)) ∧
    staked (store w') = staked (store w) - sp_amount p ∧
    distributed (store w') = distributed (store w) + ur_rewards_claimed r.
Proof.
  intros Hs Hr Hwf Hx. destruct (staking_reachable_sound self _ _ _ _ Hs Hr) as [Hb _].
  apply unstake_spec in Hx
    as (Hauth & p & tr & tk & l1 & Hp & Hu & Ha & Htr & Htk & -> & Hpay1 & Hpay2 & ->).
  destruct (bk_position _ Hb _ _ Hp). pose proof (bk_tier _ Hb _ _ Htr) as Htok.
  pose proof (penalty_bounds p tr (timestamp e) pk_amount0 Htok) as Hpen.
  pose proof (pending_nonneg _ (timestamp e) _ _ _ Hb Hp Htr) as Hpend.
  destruct (pooled_frame (store w) (timestamp e)) as (_ & _ & _ & _ & F5 & F6 & _ & F8 & _).
  assert (user ≠ self) as Hne by eauto with contracts.
  pose proof (pays_received self _ _ _ _ _ _ Hwf Hne Hpay1 ltac:(lia)) as H1.
  pose proof (pays_received self _ _ _ _ _ _ Hwf Hne Hpay2 Hpend) as H2.
  exists p, tr, tk. cbn [ur_penalty_amount ur_rewards_claimed ur_total_returned].
  set (pend := pending_of _ _ _ _) in *.
  split_and!; try done; try lia.
  - intros Hend. unfold penalty_at. by rewrite (proj2 (Z.ltb_ge _ _)).
  - by destruct (pend >? 0); cbn; rewrite F8.
  - unfold staked. by destruct (pend >? 0); cbn; unfold staked; rewrite F5.
  - unfold distributed. destruct (pend >? 0) eqn:E; zbool; cbn; unfold distributed; cbn; rewrite F6; lia.
Qed.

(** A batch that names one position twice pays its pending rewards twice
    (the first pass computes every entry before the second settles any), so the
    distinctness hypothesis of the emission bound is necessary. *)
Theorem batch_duplicates_overpay e0 w1 t w user i e tot w' :
  started self e0 w1 → rtc (step exec call_ok self) (timestamp e0, w1) (t, w) →
  wf_env self e → claim_rewards_batch user [i; i] e w = Ok (tot, w') →
  ∃ tk pending, RewardToken (store w) = Some tk ∧ 0 < pending ∧
    get_pending_rewards i e w = Ok (pending, w) ∧ tot = 2 * pending ∧
    tok_balance (ledger w') tk user = tok_balance (ledger w) tk user + 2 * pending.
Proof.
  intros Hs Hr Hwf Hx. destruct (staking_reachable_sound self _ _ _ _ Hs Hr) as [Hb _].
  pose proof (batch_head_pending _ _ _ _ _ _ _ Hx) as (p & tr & Hp & Htr & Hview).
  apply claim_batch_spec in Hx as (Hauth & ps & tk & Hps & Htot & Hpos & Htk & Hpay & _).
  inversion Hps as [|? y1 ? ? He1 Hps1]; subst. inversion Hps1 as [|? y2 ? ? He2 Hps2]; subst.
  inversion Hps2; subst.
  destruct He1 as (p1 & tr1 & Hp1 & _ & Ha1 & Htr1 & ->), He2 as (p2 & tr2 & Hp2 & _ & _ & Htr2 & ->).
  simplify_eq. set (pend := pending_of _ _ _ _) in *.
  exists tk, pend. cbn [zip_with zip lsum foldr snd] in *.
  assert (0 < pend) as Hpp by lia.
  replace (Z.max 0 pend + (Z.max 0 pend + 0)) with (2 * pend) in * by lia.
  split_and!; try done. rewrite (wf_self _ _ Hwf) in Hpay.
  assert (user ≠ self) as Hne by eauto with contracts.
  apply transfer_moved in Hpay. rewrite Hpay. repeat case_bool_decide; naive_solver lia.
Qed.
End theorems.

(** ** A concrete history *)

Module StakingDemo.

Definition self := mkAddress "STAKING".
Definition adm := mkAddress "ADM".
Definition alice := mkAddress "ALICE".
Definition bob := mkAddress "BOB".
Definition tk := mkAddress "RWD".

Definition w0 : World State Event := mkWorld deployed
  (sl_of [(tk, adm, 100000); (tk, alice, 5000); (tk, bob, 5000)]) [].
Definition e0 := env_at 100 self [adm].
Definition w1 := world_of (initialize adm tk 10 e0 w0) w0.

Definition history : list (Z * list Address * Call) :=
  [ (101, [adm], CAddTier adm "gold" 100 1000 20000 1000);
    (102, [adm], CFundRewards adm 50000);
    (110, [alice], CStake alice 1000 1);
    (120, [bob], CStake bob 3000 1);
    (130, [alice], CClaimRewards alice 1);
    (140, [bob], CUnstake bob 2);
    (150, [adm], CSetRewardRate adm 7) ].
Definition w2 := run_script exec self history w1.

Lemma staking_demo_started : started self e0 w1.
Proof.
  exists w0, adm, tk, 10. split_and!.
  - apply env_at_wf. reflexivity.
  - reflexivity.
  - intros tk'. apply sl_of_nonneg. reflexivity.
  - unfold w1. apply run_ok_unit. vm_compute. reflexivity.
Qed.

Lemma staking_demo_steps : rtc (step exec (disciplined 10) self) (timestamp e0, w1) (150, w2).
Proof.
  unfold w2. apply (run_script_reach exec (disciplined 10) self 100 history w1); [vm_compute; reflexivity|].
  repeat constructor; cbn; lia.
Qed.

Lemma staking_demo_reach : rtc (step exec call_ok self) (timestamp e0, w1) (150, w2).
Proof.
  unfold w2. apply (run_script_reach exec call_ok self 100 history w1); [vm_compute; reflexivity|].
  repeat constructor; cbn; lia.
Qed.

Lemma staking_principal_covered_witness :
  staked (store w2) = 1000 ∧
  active_sum sp_amount (StakePositionAt (store w2))
    ≤ tok_balance (ledger w2) tk self + distributed (store w2).
Proof.
  split; [vm_compute; reflexivity|].
  apply (staking_principal_covered self e0 w1 150 w2 tk staking_demo_started staking_demo_reach).
  vm_compute. reflexivity.
Defined.

Lemma staking_rewards_bounded_witness :
  distributed (store w2) = 275 ∧ 0 ≤ distributed (store w2) ≤ 10 * (150 - 100).
Proof.
  split; [vm_compute; reflexivity|].
  apply (staking_rewards_bounded self 10 e0 w1 150 w2 ltac:(lia) staking_demo_started).
  - vm_compute. discriminate.
  - exact staking_demo_steps.
Defined.

Definition pos1 : StakePosition := mkStakePosition 1 alice 1000 1 110 1110 62500000000000000 true.
Definition e3 := env_at 200 self [alice].
Definition w3 := world_of (update_pool e3 w2) w2.

Lemma pending_view_settles_witness :
  StakePositionAt (store w2) !! 1 = Some pos1 ∧
  calculate_pending_rewards_static pos1 20000 e3 w3 = Ok (475, w3).
Proof.
  split; [vm_compute; reflexivity|].
  apply (pending_view_settles pos1 20000 e3 w2 475
    (world_of (calculate_pending_rewards_static pos1 20000 e3 w2) w2) w3).
  - apply (run_ok_val _ _ 0); vm_compute; reflexivity.
  - unfold w3. apply run_ok_unit. vm_compute. reflexivity.
Defined.

Definition r4 := mkUnstakeResult 1 900 475 100 1375.
Definition w4 := world_of (unstake alice 1 e3 w2) w2.

Lemma unstake_exact_witness :
  ∃ p, StakePositionAt (store w2) !! 1 = Some p ∧ sp_amount p = 1000 ∧
    tok_balance (ledger w4) tk alice = tok_balance (ledger w2) tk alice + 1375.
Proof.
  destruct (unstake_exact self e0 w1 150 w2 alice 1 e3 r4 w4 staking_demo_started staking_demo_reach)
    as (p & tr & tk' & Hp & _ & _ & _ & Htk & _ & _ & _ & _ & Hbal & _).
  - apply env_at_wf. reflexivity.
  - unfold w4. apply (run_ok_val _ _ r4); vm_compute; reflexivity.
  - exists p. split; [exact Hp|].
    assert (Some tk = Some tk') as [= <-] by (rewrite <- Htk; vm_compute; reflexivity).
    split; [|exact Hbal].
    assert (Some pos1 = Some p) as [= <-] by (rewrite <- Hp; vm_compute; reflexivity). reflexivity.
Defined.

Definition w5 := world_of (claim_rewards_batch alice [1; 1] e3 w2) w2.

Lemma batch_duplicates_overpay_witness :
  ∃ pending, get_pending_rewards 1 e3 w2 = Ok (pending, w2) ∧ 950 = 2 * pending.
Proof.
  destruct (batch_duplicates_overpay self e0 w1 150 w2 alice 1 e3 950 w5 staking_demo_started
    staking_demo_reach) as (tk' & pending & _ & _ & Hview & Htot & _).
  - apply env_at_wf. reflexivity.
  - unfold w5. apply (run_ok_val _ _ 0); vm_compute; reflexivity.
  - exact (ex_intro _ pending (conj Hview Htot)).
Defined.

(** Raising a multiplier applies to rewards already accrued and leaves the
    total weight behind: a later unstake underflows the recorded weight, or the
    contract pays more than the schedule emitted. *)
Definition raised : list (Z * list Address * Call) :=
  [ (101, [adm], CAddTier adm "gold" 100 1000 20000 1000);
    (102, [adm], CFundRewards adm 50000);
    (110, [alice], CStake alice 1000 1);
    (200, [adm], CUpdateTier adm 1 None None None (Some 40000) None);
    (200, [alice], CClaimRewards alice 1) ].

Example update_tier_overpays :
  script_ok exec self 100 raised w1 = true ∧
  distributed (store (run_script exec self raised w1)) = 1800 ∧ 10 * (200 - 110) = 900.
Proof. split_and!; vm_compute; reflexivity. Qed.
End StakingDemo.
