(* ===== verification/Vault.v ===== *)
(** * contracts/vault: a share-based yield vault

    State and operations of the [Vault] contract (src/contracts/vault/src/lib.rs):
    deposits and withdrawals against shares, performance fees over a high-water
    mark, strategies with their allocations and harvests, and the withdrawal
    queue. *)

From stdpp Require Import gmap strings list fin_maps.
From S2P Require Import Prelude Soroban.
Open Scope Z_scope.

(** ** Data *)

Definition BPS_DENOMINATOR : Z := 10000.
Definition DEFAULT_PERFORMANCE_FEE_BPS : Z := 2000.
Definition MAX_STRATEGIES : Z := 20.
Definition DEFAULT_MIN_QUEUED_WITHDRAWAL : Z := 1000.

Record VaultUserDeposit := mkVaultUserDeposit {
  ud_shares : Z;
  ud_total_deposited : Z;
  ud_total_withdrawn : Z;
  ud_last_deposit_at : Z;
  ud_last_withdrawal_at : Z;
}.

Record StrategyConfig := mkStrategyConfig {
  sc_strategy_id : Symbol;
  sc_strategy_address : Address;
  sc_allocated_assets : Z;
  sc_current_balance : Z;
  sc_total_gains : Z;
  sc_total_losses : Z;
  sc_is_active : bool;
  sc_created_at : Z;
  sc_last_harvest_at : Z;
}.

Record WithdrawalQueueItem := mkWithdrawalQueueItem {
  wq_request_id : Z;
  wq_user : Address;
  wq_shares : Z;
  wq_estimated_assets : Z;
  wq_requested_at : Z;
  wq_processed : bool;
}.

Record HarvestResult := mkHarvestResult {
  hr_strategy_id : Symbol;
  hr_gains : Z;
  hr_performance_fee : Z;
  hr_new_total_assets : Z;
  hr_new_high_water_mark : Z;
}.

Record VaultInfo := mkVaultInfo {
  vi_admin : Address;
  vi_token : Address;
  vi_total_assets : Z;
  vi_total_supply : Z;
  vi_total_deposits : Z;
  vi_total_withdrawals : Z;
  vi_total_fees_collected : Z;
  vi_share_price : Z;
  vi_performance_fee_bps : Z;
  vi_high_water_mark : Z;
  vi_paused : bool;
}.

(** One field per key of [DataKey]; [None] and absence are the unset key. *)
Record State := mkState {
  Admin : option Address;
  Token : option Address;
  Paused : option bool;
  PerformanceFeeBps : option Z;
  TotalAssets : option Z;
  TotalSupply : option Z;
  TotalDeposits : option Z;
  TotalWithdrawals : option Z;
  TotalFeesCollected : option Z;
  HighWaterMark : option Z;
  UserDeposit : gmap Address VaultUserDeposit;
  StrategyCounter : option Z;
  Strategy : gmap Symbol StrategyConfig;
  StrategyIds : option (list Symbol);
  StrategyAllocBps : gmap Symbol Z;
  WithdrawalQueueCounter : option Z;
  QueueItem : gmap Z WithdrawalQueueItem;
  WithdrawalQueueIds : option (list Z);
  MinQueuedWithdrawal : option Z;
  ReentrancyLock : option bool;
}.

Inductive Event :=
| v_init (admin token : Address)
| v_dep (user : Address) (amount shares total_assets total_supply : Z)
| v_wth (user : Address) (shares gross fee net total_assets total_supply : Z)
| v_emw (user : Address) (shares assets total_assets total_supply : Z)
| v_gov (admin recipient : Address) (amount total_assets : Z)
| v_pause (admin : Address)
| v_unpse (admin : Address)
| v_fee (admin : Address) (fee_bps : Z)
| v_fewd (admin recipient : Address) (total_fees : Z)
| v_sadd (strategy_id : Symbol) (strategy_address : Address)
| v_srem (strategy_id : Symbol)
| v_salc (strategy_id : Symbol) (alloc_bps allocated : Z)
| v_smig (from_id to_id : Symbol) (amount : Z)
| v_harv (strategy_id : Symbol) (gains losses fee total_assets hwm : Z)
| v_semg (strategy_id : Symbol) (recalled : Z)
| v_wq (user : Address) (request_id shares estimated : Z)
| v_wqpr (request_id : Z) (user : Address) (shares assets : Z).

Ltac mred v ::= eval cbn [store ledger log Admin Token Paused PerformanceFeeBps TotalAssets
  TotalSupply TotalDeposits TotalWithdrawals TotalFeesCollected HighWaterMark UserDeposit
  StrategyCounter Strategy StrategyIds StrategyAllocBps WithdrawalQueueCounter QueueItem
  WithdrawalQueueIds MinQueuedWithdrawal ReentrancyLock ud_shares ud_total_deposited
  ud_total_withdrawn ud_last_deposit_at ud_last_withdrawal_at sc_strategy_id sc_strategy_address
  sc_allocated_assets sc_current_balance sc_total_gains sc_total_losses sc_is_active sc_created_at
  sc_last_harvest_at wq_request_id wq_user wq_shares wq_estimated_assets wq_requested_at
  wq_processed] in v.

Section contract.
Context `{TokenHost}.

Local Abbreviation C := (M State Empty_set Event).

(** ** Internals *)

Definition admin : C Address := o ← gets Admin; expect o "Not initialized".
Definition token : C Address := o ← gets Token; expect o "Not initialized".
Definition is_paused_fn : C bool := gets (λ s, default false (Paused s)).
Definition assert_admin (caller : Address) : C () :=
  a ← admin;
  panic_if (bool_decide (caller ≠ a)) "Unauthorized: caller is not admin".

Definition total_assets : C Z := gets (λ s, default 0 (TotalAssets s)).
Definition total_supply : C Z := gets (λ s, default 0 (TotalSupply s)).
Definition total_deposits : C Z := gets (λ s, default 0 (TotalDeposits s)).
Definition total_withdrawals : C Z := gets (λ s, default 0 (TotalWithdrawals s)).
Definition total_fees_collected : C Z := gets (λ s, default 0 (TotalFeesCollected s)).
Definition high_water_mark : C Z := gets (λ s, default 0 (HighWaterMark s)).
Definition performance_fee_bps : C Z :=
  gets (λ s, default DEFAULT_PERFORMANCE_FEE_BPS (PerformanceFeeBps s)).

Definition load_user_deposit (user : Address) : C VaultUserDeposit :=
  gets (λ s, default (mkVaultUserDeposit 0 0 0 0 0) (UserDeposit s !! user)).
Definition set_user_deposit (user : Address) (d : VaultUserDeposit) : C () :=
  modify (λ s, {| s with UserDeposit := <[user := d]> (UserDeposit s) |}).

Definition load_strategy (strategy_id : Symbol) : C StrategyConfig :=
  o ← gets (λ s, Strategy s !! strategy_id);
  expect o "Strategy not found".
Definition set_strategy (strategy_id : Symbol) (config : StrategyConfig) : C () :=
  modify (λ s, {| s with Strategy := <[strategy_id := config]> (Strategy s) |}).

Definition strategy_ids : C (list Symbol) := gets (λ s, default [] (StrategyIds s)).
Definition strategy_counter : C Z := gets (λ s, default 0 (StrategyCounter s)).
Definition strategy_alloc_bps (strategy_id : Symbol) : C Z :=
  gets (λ s, default 0 (StrategyAllocBps s !! strategy_id)).
Definition set_strategy_alloc (strategy_id : Symbol) (alloc_bps : Z) : C () :=
  modify (λ s, {| s with StrategyAllocBps := <[strategy_id := alloc_bps]> (StrategyAllocBps s) |}).

(** One round of the loop of [total_allocation_bps]. *)
Definition add_allocation (total : Z) (id : Symbol) : C Z :=
  config ← load_strategy id;
  if sc_is_active config then
    alloc ← strategy_alloc_bps id;
    expect (checked_add U32 total alloc) "Overflow"
  else mret total.
Definition total_allocation_bps : C Z :=
  ids ← strategy_ids;
  foldM add_allocation 0 ids.

Definition load_queue_item (request_id : Z) : C WithdrawalQueueItem :=
  o ← gets (λ s, QueueItem s !! request_id);
  expect o "Request not found".
Definition set_queue_item (request_id : Z) (item : WithdrawalQueueItem) : C () :=
  modify (λ s, {| s with QueueItem := <[request_id := item]> (QueueItem s) |}).
Definition withdrawal_queue_ids : C (list Z) := gets (λ s, default [] (WithdrawalQueueIds s)).
Definition withdrawal_queue_counter : C Z := gets (λ s, default 0 (WithdrawalQueueCounter s)).
Definition next_withdrawal_queue_id : C Z :=
  current ← withdrawal_queue_counter;
  next ← expect (checked_add U64 current 1) "Overflow";
  modify (λ s, {| s with WithdrawalQueueCounter := Some next |});;
  mret next.
Definition min_queued_withdrawal : C Z :=
  gets (λ s, default DEFAULT_MIN_QUEUED_WITHDRAWAL (MinQueuedWithdrawal s)).

Definition calculate_shares_for_deposit (amount total_assets total_supply : Z) : C Z :=
  if (total_assets <=? 0) || (total_supply <=? 0) then mret amount
  else
    p ← expect (checked_mul I128 amount total_supply) "Overflow";
    plain_div I128 p total_assets.

Definition calculate_assets_for_withdrawal (shares total_assets total_supply : Z) : C Z :=
  p ← expect (checked_mul I128 shares total_assets) "Overflow";
  plain_div I128 p total_supply.

Definition share_price : C Z :=
  supply ← total_supply;
  if supply <=? 0 then mret 10000
  else
    assets ← total_assets;
    p ← expect (checked_mul I128 assets 10000) "Price overflow";
    plain_div I128 p supply.

Definition collect_fee (fee : Z) : C () :=
  if fee <=? 0 then mret tt
  else
    fees ← total_fees_collected;
    new_total ← expect (checked_add I128 fees fee) "Overflow";
    modify (λ s, {| s with TotalFeesCollected := Some new_total |}).

Definition enter_non_reentrant : C () :=
  locked ← gets (λ s, default false (ReentrancyLock s));
  panic_if locked "Reentrant call blocked";;
  modify (λ s, {| s with ReentrancyLock := Some true |}).
Definition exit_non_reentrant : C () := modify (λ s, {| s with ReentrancyLock := Some false |}).

Definition transfer_token_unchecked (tk from to : Address) (amount : Z) : C () :=
  panic_if (amount <=? 0) "Transfer amount must be positive";;
  token_transfer tk from to amount.

Definition transfer_token (tk from to : Address) (amount : Z) : C () :=
  enter_non_reentrant;;
  transfer_token_unchecked tk from to amount;;
  exit_non_reentrant.

Definition set_total_assets (n : Z) : C () := modify (λ s, {| s with TotalAssets := Some n |}).
Definition set_total_supply (n : Z) : C () := modify (λ s, {| s with TotalSupply := Some n |}).
Definition set_total_withdrawals (n : Z) : C () :=
  modify (λ s, {| s with TotalWithdrawals := Some n |}).

(** ** Entry points *)

Definition initialize (admin token : Address) : C () :=
  has ← gets Admin;
  panic_if (bool_decide (is_Some has)) "Already initialized";;
  require_auth admin;;
  modify (λ s, {| s with Admin := Some admin |});;
  modify (λ s, {| s with Token := Some token |});;
  modify (λ s, {| s with Paused := Some false |});;
  modify (λ s, {| s with PerformanceFeeBps := Some DEFAULT_PERFORMANCE_FEE_BPS |});;
  modify (λ s, {| s with TotalAssets := Some 0 |});;
  modify (λ s, {| s with TotalSupply := Some 0 |});;
  modify (λ s, {| s with TotalDeposits := Some 0 |});;
  modify (λ s, {| s with TotalWithdrawals := Some 0 |});;
  modify (λ s, {| s with TotalFeesCollected := Some 0 |});;
  modify (λ s, {| s with HighWaterMark := Some 0 |});;
  modify (λ s, {| s with StrategyCounter := Some 0 |});;
  modify (λ s, {| s with StrategyIds := Some [] |});;
  modify (λ s, {| s with WithdrawalQueueCounter := Some 0 |});;
  modify (λ s, {| s with WithdrawalQueueIds := Some [] |});;
  modify (λ s, {| s with MinQueuedWithdrawal := Some DEFAULT_MIN_QUEUED_WITHDRAWAL |});;
  modify (λ s, {| s with ReentrancyLock := Some false |});;
  publish (v_init admin token).

(** *** Deposit and withdrawal *)

Definition deposit (user : Address) (amount : Z) : C Z :=
  require_auth user;;
  b ← is_paused_fn;
  panic_if b "Vault is paused";;
  panic_if (amount <=? 0) "Deposit amount must be positive";;
  assets ← total_assets;
  supply ← total_supply;
  shares ← calculate_shares_for_deposit amount assets supply;
  tk ← token;
  contract_address ← self_address;
  transfer_token tk user contract_address amount;;
  new_total_assets ← expect (checked_add I128 assets amount) "Total assets overflow";
  new_total_supply ← expect (checked_add I128 supply shares) "Total supply overflow";
  deposits ← total_deposits;
  new_total_deposits ← expect (checked_add I128 deposits amount) "Total deposits overflow";
  set_total_assets new_total_assets;;
  set_total_supply new_total_supply;;
  modify (λ s, {| s with TotalDeposits := Some new_total_deposits |});;
  hwm ← high_water_mark;
  (if new_total_assets >? hwm then
     modify (λ s, {| s with HighWaterMark := Some new_total_assets |}) else mret tt);;
  user_deposit ← load_user_deposit user;
  user_shares ← expect (checked_add I128 (ud_shares user_deposit) shares) "User shares overflow";
  deposited ← expect (checked_add I128 (ud_total_deposited user_deposit) amount)
                "User deposited overflow";
  t ← now;
  set_user_deposit user {| user_deposit with ud_shares := user_shares;
    ud_total_deposited := deposited; ud_last_deposit_at := t |};;
  publish (v_dep user amount shares new_total_assets new_total_supply);;
  mret shares.

Definition withdraw (user : Address) (shares : Z) : C Z :=
  require_auth user;;
  panic_if (shares <=? 0) "Shares must be positive";;
  user_deposit ← load_user_deposit user;
  panic_if (ud_shares user_deposit <? shares) "Insufficient shares";;
  assets ← total_assets;
  supply ← total_supply;
  panic_if (supply <=? 0) "No assets in vault";;
  gross_assets ← calculate_assets_for_withdrawal shares assets supply;
  hwm ← high_water_mark;
  performance_fee ← (if assets >? hwm then
      gains ← expect (checked_sub I128 assets hwm) "Gains underflow";
      bps ← performance_fee_bps;
      p ← expect (checked_mul I128 gains bps) "Fee calc overflow";
      mret (p `quot` BPS_DENOMINATOR)
    else mret 0);
  net_assets ← expect (checked_sub I128 gross_assets performance_fee) "Net assets underflow";
  new_total_supply ← expect (checked_sub I128 supply shares) "Total supply underflow";
  new_total_assets ← expect (checked_sub I128 assets gross_assets) "Total assets underflow";
  withdrawals ← total_withdrawals;
  new_total_withdrawals ← expect (checked_add I128 withdrawals net_assets)
                            "Total withdrawals overflow";
  set_total_supply new_total_supply;;
  set_total_assets new_total_assets;;
  set_total_withdrawals new_total_withdrawals;;
  (if performance_fee >? 0 then collect_fee performance_fee else mret tt);;
  user_shares ← expect (checked_sub I128 (ud_shares user_deposit) shares) "User shares underflow";
  withdrawn ← expect (checked_add I128 (ud_total_withdrawn user_deposit) net_assets)
                "User withdrawn overflow";
  t ← now;
  set_user_deposit user {| user_deposit with ud_shares := user_shares;
    ud_total_withdrawn := withdrawn; ud_last_withdrawal_at := t |};;
  tk ← token;
  contract_address ← self_address;
  enter_non_reentrant;;
  transfer_token_unchecked tk contract_address user net_assets;;
  exit_non_reentrant;;
  publish (v_wth user shares gross_assets performance_fee net_assets new_total_assets
    new_total_supply);;
  mret net_assets.

Definition emergency_withdraw (user : Address) : C Z :=
  require_auth user;;
  user_deposit ← load_user_deposit user;
  panic_if (ud_shares user_deposit <=? 0) "No shares to withdraw";;
  let shares := ud_shares user_deposit in
  total ← total_assets;
  supply ← total_supply;
  panic_if (supply <=? 0) "No assets in vault";;
  assets ← calculate_assets_for_withdrawal shares total supply;
  new_total_supply ← expect (checked_sub I128 supply shares) "Total supply underflow";
  new_total_assets ← expect (checked_sub I128 total assets) "Total assets underflow";
  withdrawals ← total_withdrawals;
  new_total_withdrawals ← expect (checked_add I128 withdrawals assets) "Total withdrawals overflow";
  set_total_supply new_total_supply;;
  set_total_assets new_total_assets;;
  set_total_withdrawals new_total_withdrawals;;
  withdrawn ← expect (checked_add I128 (ud_total_withdrawn user_deposit) assets)
                "User withdrawn overflow";
  t ← now;
  set_user_deposit user (mkVaultUserDeposit 0 (ud_total_deposited user_deposit) withdrawn
    (ud_last_deposit_at user_deposit) t);;
  tk ← token;
  contract_address ← self_address;
  enter_non_reentrant;;
  transfer_token_unchecked tk contract_address user assets;;
  exit_non_reentrant;;
  publish (v_emw user shares assets new_total_assets new_total_supply);;
  mret assets.

(** *** Administration *)

Definition governance_withdraw (admin recipient : Address) (amount : Z) : C () :=
  require_auth admin;;
  assert_admin admin;;
  panic_if (amount <=? 0) "Amount must be positive";;
  assets ← total_assets;
  panic_if (amount >? assets) "Insufficient vault assets";;
  new_total_assets ← expect (checked_sub I128 assets amount) "Underflow";
  set_total_assets new_total_assets;;
  tk ← token;
  contract_address ← self_address;
  enter_non_reentrant;;
  transfer_token_unchecked tk contract_address recipient amount;;
  exit_non_reentrant;;
  publish (v_gov admin recipient amount new_total_assets).

Definition pause (admin : Address) : C () :=
  require_auth admin;;
  assert_admin admin;;
  b ← is_paused_fn;
  panic_if b "Already paused";;
  modify (λ s, {| s with Paused := Some true |});;
  publish (v_pause admin).

Definition unpause (admin : Address) : C () :=
  require_auth admin;;
  assert_admin admin;;
  b ← is_paused_fn;
  panic_if (negb b) "Not paused";;
  modify (λ s, {| s with Paused := Some false |});;
  publish (v_unpse admin).

Definition set_performance_fee (admin : Address) (fee_bps : Z) : C () :=
  require_auth admin;;
  assert_admin admin;;
  panic_if (fee_bps >? 5000) "Fee exceeds maximum of 50%";;
  modify (λ s, {| s with PerformanceFeeBps := Some fee_bps |});;
  publish (v_fee admin fee_bps).

Definition withdraw_fees (admin recipient : Address) : C () :=
  require_auth admin;;
  assert_admin admin;;
  total_fees ← total_fees_collected;
  panic_if (total_fees <=? 0) "No fees to withdraw";;
  tk ← token;
  contract_address ← self_address;
  enter_non_reentrant;;
  transfer_token_unchecked tk contract_address recipient total_fees;;
  exit_non_reentrant;;
  modify (λ s, {| s with TotalFeesCollected := Some 0 |});;
  publish (v_fewd admin recipient total_fees).

(** *** Strategies *)

Definition add_strategy (admin : Address) (strategy_id : Symbol) (strategy_address : Address) : C () :=
  require_auth admin;;
  assert_admin admin;;
  o ← gets (λ s, Strategy s !! strategy_id);
  panic_if (bool_decide (is_Some o)) "Strategy already exists";;
  ids ← strategy_ids;
  panic_if (Z.of_nat (length ids) >=? MAX_STRATEGIES) "Maximum strategies reached";;
  t ← now;
  set_strategy strategy_id (mkStrategyConfig strategy_id strategy_address 0 0 0 0 true t 0);;
  set_strategy_alloc strategy_id 0;;
  counter ← strategy_counter;
  next ← plain_add U32 counter 1;
  modify (λ s, {| s with StrategyCounter := Some next |});;
  modify (λ s, {| s with StrategyIds := Some (ids ++ [strategy_id]) |});;
  publish (v_sadd strategy_id strategy_address).

Definition remove_strategy (admin : Address) (strategy_id : Symbol) : C () :=
  require_auth admin;;
  assert_admin admin;;
  config ← load_strategy strategy_id;
  panic_if (negb (sc_is_active config)) "Strategy not active";;
  panic_if (sc_allocated_assets config >? 0)
    "Cannot remove strategy with allocated assets. Migrate first.";;
  set_strategy strategy_id {| config with sc_is_active := false |};;
  set_strategy_alloc strategy_id 0;;
  publish (v_srem strategy_id).

Definition set_strategy_allocation (admin : Address) (strategy_id : Symbol) (alloc_bps : Z) : C () :=
  require_auth admin;;
  assert_admin admin;;
  config ← load_strategy strategy_id;
  panic_if (negb (sc_is_active config)) "Strategy not active";;
  old_alloc ← strategy_alloc_bps strategy_id;
  total_alloc ← total_allocation_bps;
  rest ← expect (checked_sub I128 total_alloc old_alloc) "Total alloc underflow";
  new_total ← expect (checked_add I128 rest alloc_bps) "Total alloc overflow";
  panic_if (new_total >? BPS_DENOMINATOR) "Total allocations exceed 100%";;
  set_strategy_alloc strategy_id alloc_bps;;
  assets ← total_assets;
  p ← expect (checked_mul I128 assets alloc_bps) "Target calc overflow";
  let new_target := p `quot` BPS_DENOMINATOR in
  set_strategy strategy_id {| config with sc_allocated_assets := new_target;
    sc_current_balance := new_target |};;
  publish (v_salc strategy_id alloc_bps new_target).

Definition migrate_strategy (admin : Address) (from_strategy_id to_strategy_id : Symbol) : C () :=
  require_auth admin;;
  assert_admin admin;;
  from_config ← load_strategy from_strategy_id;
  panic_if (negb (sc_is_active from_config)) "Source strategy not active";;
  to_config ← load_strategy to_strategy_id;
  panic_if (negb (sc_is_active to_config)) "Target strategy not active";;
  let migrated_amount := sc_allocated_assets from_config in
  panic_if (migrated_amount <=? 0) "No assets to migrate";;
  set_strategy from_strategy_id {| from_config with sc_allocated_assets := 0 |};;
  allocated ← expect (checked_add I128 (sc_allocated_assets to_config) migrated_amount)
                "Target alloc overflow";
  set_strategy to_strategy_id {| to_config with sc_allocated_assets := allocated |};;
  publish (v_smig from_strategy_id to_strategy_id migrated_amount).

Definition harvest_strategy (strategy_id : Symbol) (reported_balance : Z) : C HarvestResult :=
  config ← load_strategy strategy_id;
  panic_if (negb (sc_is_active config)) "Strategy not active";;
  let current_balance := reported_balance in
  gains ← (if current_balance >? sc_current_balance config then
      expect (checked_sub I128 current_balance (sc_current_balance config)) "Gains underflow"
    else mret 0);
  losses ← (if current_balance <? sc_current_balance config then
      expect (checked_sub I128 (sc_current_balance config) current_balance) "Losses underflow"
    else mret 0);
  performance_fee ← (if gains >? 0 then
      bps ← performance_fee_bps;
      p ← expect (checked_mul I128 gains bps) "Fee calc overflow";
      mret (p `quot` BPS_DENOMINATOR)
    else mret 0);
  assets ← total_assets;
  new_total_assets ← (if current_balance >? sc_current_balance config then
      net_gain ← expect (checked_sub I128 gains performance_fee) "Net gain underflow";
      expect (checked_add I128 assets net_gain) "Total assets overflow"
    else if current_balance <? sc_current_balance config then
      net_loss ← expect (checked_sub I128 (sc_current_balance config) current_balance)
                   "Net loss underflow";
      expect (checked_sub I128 assets net_loss) "Total assets underflow"
    else mret assets);
  hwm ← high_water_mark;
  let new_hwm := if new_total_assets >? hwm then new_total_assets else hwm in
  total_gains ← expect (checked_add I128 (sc_total_gains config) gains) "Gains overflow";
  total_losses ← expect (checked_add I128 (sc_total_losses config) losses) "Losses overflow";
  t ← now;
  set_strategy strategy_id {| config with sc_current_balance := current_balance;
    sc_total_gains := total_gains; sc_total_losses := total_losses; sc_last_harvest_at := t |};;
  set_total_assets new_total_assets;;
  modify (λ s, {| s with HighWaterMark := Some new_hwm |});;
  (if performance_fee >? 0 then collect_fee performance_fee else mret tt);;
  publish (v_harv strategy_id gains losses performance_fee new_total_assets new_hwm);;
  mret (mkHarvestResult strategy_id gains performance_fee new_total_assets new_hwm).

Definition emergency_strategy_withdrawal (admin : Address) (strategy_id : Symbol) : C () :=
  require_auth admin;;
  assert_admin admin;;
  config ← load_strategy strategy_id;
  panic_if (negb (sc_is_active config)) "Strategy not active";;
  let recalled_amount := sc_allocated_assets config in
  if recalled_amount <=? 0 then mret tt
  else
    set_strategy strategy_id {| config with sc_allocated_assets := 0; sc_current_balance := 0 |};;
    publish (v_semg strategy_id recalled_amount).

(** *** The withdrawal queue *)

Definition queue_withdrawal (user : Address) (shares : Z) : C Z :=
  require_auth user;;
  panic_if (shares <=? 0) "Shares must be positive";;
  user_deposit ← load_user_deposit user;
  panic_if (ud_shares user_deposit <? shares) "Insufficient shares";;
  assets ← total_assets;
  supply ← total_supply;
  panic_if (supply <=? 0) "No assets in vault";;
  estimated_assets ← calculate_assets_for_withdrawal shares assets supply;
  min_queued ← min_queued_withdrawal;
  panic_if (estimated_assets <? min_queued) "Below minimum queued withdrawal amount";;
  user_shares ← expect (checked_sub I128 (ud_shares user_deposit) shares) "Underflow";
  t ← now;
  set_user_deposit user {| user_deposit with ud_shares := user_shares; ud_last_withdrawal_at := t |};;
  request_id ← next_withdrawal_queue_id;
  set_queue_item request_id (mkWithdrawalQueueItem request_id user shares estimated_assets t false);;
  queue_ids ← withdrawal_queue_ids;
  modify (λ s, {| s with WithdrawalQueueIds := Some (queue_ids ++ [request_id]) |});;
  publish (v_wq user request_id shares estimated_assets);;
  mret request_id.

Definition process_withdrawal_queue (request_id : Z) : C Z :=
  item ← load_queue_item request_id;
  panic_if (wq_processed item) "Already processed";;
  total ← total_assets;
  supply ← total_supply;
  assets ← calculate_assets_for_withdrawal (wq_shares item) total supply;
  new_total_supply ← expect (checked_sub I128 supply (wq_shares item)) "Underflow";
  new_total_assets ← expect (checked_sub I128 total assets) "Underflow";
  set_total_supply new_total_supply;;
  set_total_assets new_total_assets;;
  withdrawals ← total_withdrawals;
  new_total_withdrawals ← expect (checked_add I128 withdrawals assets) "Overflow";
  set_total_withdrawals new_total_withdrawals;;
  set_queue_item request_id {| item with wq_processed := true |};;
  tk ← token;
  contract_address ← self_address;
  enter_non_reentrant;;
  transfer_token_unchecked tk contract_address (wq_user item) assets;;
  exit_non_reentrant;;
  publish (v_wqpr request_id (wq_user item) (wq_shares item) assets);;
  mret assets.

(** ** Views *)

Definition get_admin : C Address := admin.
Definition get_token : C Address := token.
Definition is_paused : C bool := is_paused_fn.
Definition get_total_assets : C Z := total_assets.
Definition get_total_supply : C Z := total_supply.
Definition get_total_deposits : C Z := total_deposits.
Definition get_total_withdrawals : C Z := total_withdrawals.
Definition get_total_fees_collected : C Z := total_fees_collected.
Definition get_performance_fee_bps : C Z := performance_fee_bps.
Definition get_high_water_mark : C Z := high_water_mark.
Definition get_user_deposit (user : Address) : C VaultUserDeposit := load_user_deposit user.
Definition get_share_price : C Z := share_price.
Definition get_strategy (strategy_id : Symbol) : C StrategyConfig := load_strategy strategy_id.
Definition get_strategy_ids : C (list Symbol) := strategy_ids.
Definition get_strategy_alloc_bps (strategy_id : Symbol) : C Z := strategy_alloc_bps strategy_id.
Definition get_total_allocation_bps : C Z := total_allocation_bps.
Definition get_min_queued_withdrawal : C Z := min_queued_withdrawal.
Definition get_withdrawal_queue_counter : C Z := withdrawal_queue_counter.
Definition get_withdrawal_queue_item (request_id : Z) : C WithdrawalQueueItem :=
  load_queue_item request_id.
Definition get_withdrawal_queue_ids : C (list Z) := withdrawal_queue_ids.
Definition preview_deposit (amount : Z) : C Z :=
  assets ← total_assets;
  supply ← total_supply;
  calculate_shares_for_deposit amount assets supply.
Definition preview_withdraw (shares : Z) : C Z :=
  assets ← total_assets;
  supply ← total_supply;
  calculate_assets_for_withdrawal shares assets supply.

Definition get_vault_info : C VaultInfo :=
  vi_admin ← admin;
  vi_token ← token;
  vi_total_assets ← total_assets;
  vi_total_supply ← total_supply;
  vi_total_deposits ← total_deposits;
  vi_total_withdrawals ← total_withdrawals;
  vi_total_fees_collected ← total_fees_collected;
  vi_share_price ← share_price;
  vi_performance_fee_bps ← performance_fee_bps;
  vi_high_water_mark ← high_water_mark;
  vi_paused ← is_paused_fn;
  mret (mkVaultInfo vi_admin vi_token vi_total_assets vi_total_supply vi_total_deposits
    vi_total_withdrawals vi_total_fees_collected vi_share_price vi_performance_fee_bps
    vi_high_water_mark vi_paused).

End contract.

(** ** Entry points as calls *)

Inductive Call :=
| CInitialize (admin token : Address)
| CDeposit (user : Address) (amount : Z)
| CWithdraw (user : Address) (shares : Z)
| CEmergencyWithdraw (user : Address)
| CGovernanceWithdraw (admin recipient : Address) (amount : Z)
| CPause (admin : Address)
| CUnpause (admin : Address)
| CSetPerformanceFee (admin : Address) (fee_bps : Z)
| CWithdrawFees (admin recipient : Address)
| CAddStrategy (admin : Address) (strategy_id : Symbol) (strategy_address : Address)
| CRemoveStrategy (admin : Address) (strategy_id : Symbol)
| CSetStrategyAllocation (admin : Address) (strategy_id : Symbol) (alloc_bps : Z)
| CMigrateStrategy (admin : Address) (from_id to_id : Symbol)
| CHarvestStrategy (strategy_id : Symbol) (reported_balance : Z)
| CEmergencyStrategyWithdrawal (admin : Address) (strategy_id : Symbol)
| CQueueWithdrawal (user : Address) (shares : Z)
| CProcessWithdrawalQueue (request_id : Z).

Section calls.
Context `{TokenHost}.

Definition exec (c : Call) : M State Empty_set Event () :=
  match c with
  | CInitialize admin token => initialize admin token
  | CDeposit user amount => discard (deposit user amount)
  | CWithdraw user shares => discard (withdraw user shares)
  | CEmergencyWithdraw user => discard (emergency_withdraw user)
  | CGovernanceWithdraw admin recipient amount => governance_withdraw admin recipient amount
  | CPause admin => pause admin
  | CUnpause admin => unpause admin
  | CSetPerformanceFee admin fee_bps => set_performance_fee admin fee_bps
  | CWithdrawFees admin recipient => withdraw_fees admin recipient
  | CAddStrategy admin id address => add_strategy admin id address
  | CRemoveStrategy admin id => remove_strategy admin id
  | CSetStrategyAllocation admin id alloc_bps => set_strategy_allocation admin id alloc_bps
  | CMigrateStrategy admin from_id to_id => migrate_strategy admin from_id to_id
  | CHarvestStrategy id reported => discard (harvest_strategy id reported)
  | CEmergencyStrategyWithdrawal admin id => emergency_strategy_withdrawal admin id
  | CQueueWithdrawal user shares => discard (queue_withdrawal user shares)
  | CProcessWithdrawalQueue request_id => discard (process_withdrawal_queue request_id)
  end.

(** The unsigned arguments of a call are non-negative, by their Rust types. *)
Definition call_ok (c : Call) : Prop :=
  match c with
  | CSetPerformanceFee _ fee_bps => 0 ≤ fee_bps
  | CSetStrategyAllocation _ _ alloc_bps => 0 ≤ alloc_bps
  | _ => True
  end.
End calls.

Definition deployed : State :=
  mkState None None None None None None None None None None ∅ None ∅ None ∅ None ∅ None None None.
