(* ===== verification/VaultProofs.v ===== *)
(** * contracts/vault: invariants and theorems

    Shares are conserved, assets are backed by tokens up to the gains that
    harvests report, share prices are fair to the other holders, allocations
    stay within 100%, and what the performance fee and the unauthenticated
    harvest amount to. *)

From stdpp Require Import gmap strings list fin_maps.
From S2P Require Import Prelude Soroban TokenModel Vault.
Open Scope Z_scope.

(** ** Pure readings *)

Definition assets (st : State) : Z := default 0 (TotalAssets st).
Definition supply (st : State) : Z := default 0 (TotalSupply st).
Definition fees (st : State) : Z := default 0 (TotalFeesCollected st).
Definition hwm (st : State) : Z := default 0 (HighWaterMark st).
Definition fee_bps (st : State) : Z := default DEFAULT_PERFORMANCE_FEE_BPS (PerformanceFeeBps st).
Definition user_of (users : gmap Address VaultUserDeposit) (u : Address) : VaultUserDeposit :=
  default (mkVaultUserDeposit 0 0 0 0 0) (users !! u).

Definition minted (amount A S : Z) : Z :=
  if (A <=? 0) || (S <=? 0) then amount else (amount * S) `quot` A.
Definition redeemed (shares A S : Z) : Z := (shares * A) `quot` S.
Definition fee_on (gains bps : Z) : Z := (gains * bps) `quot` BPS_DENOMINATOR.

(** What the strategies have reported, gains less losses. *)
Definition reported (strs : gmap Symbol StrategyConfig) : Z :=
  msum (λ _ c, sc_total_gains c - sc_total_losses c) strs.

(** The net effect of a report on the total assets, and its fee. *)
Definition harvest_gain (c : StrategyConfig) (r : Z) : Z := Z.max 0 (r - sc_current_balance c).
Definition harvest_loss (c : StrategyConfig) (r : Z) : Z := Z.max 0 (sc_current_balance c - r).
Definition harvest_fee (st : State) (c : StrategyConfig) (r : Z) : Z :=
  fee_on (harvest_gain c r) (fee_bps st).

Section specs.
Context `{TokenHost}.
Implicit Types (w : World State Event) (e : Env).

Lemma vault_assert_admin_spec a e w u w' :
  assert_admin a e w = Ok (u, w') → Admin (store w) = Some a ∧ w' = w.
Proof. intros Hr. unfold assert_admin, admin in Hr. minv Hr. zbool. by subst. Qed.

Lemma load_strategy_spec i e w c w' :
  load_strategy i e w = Ok (c, w') → Strategy (store w) !! i = Some c ∧ w' = w.
Proof. intros Hr. by minv Hr using load_strategy. Qed.

Lemma minted_spec n A S e w r w' :
  calculate_shares_for_deposit n A S e w = Ok (r, w') → r = minted n A S ∧ w' = w.
Proof.
  intros Hr. unfold calculate_shares_for_deposit in Hr. unfold minted. by minv Hr; inv_checked.
Qed.

Lemma redeemed_spec n A S e w r w' :
  calculate_assets_for_withdrawal n A S e w = Ok (r, w') → S ≠ 0 ∧ r = redeemed n A S ∧ w' = w.
Proof. intros Hr. unfold redeemed. minv Hr using calculate_assets_for_withdrawal. by inv_checked. Qed.

Lemma vault_collect_fee_spec n e w u w' :
  collect_fee n e w = Ok (u, w') → 0 < n →
  w' = {| w with store := {| (store w) with TotalFeesCollected := Some (fees (store w) + n) |} |}.
Proof.
  intros Hr Hn. unfold collect_fee, total_fees_collected in Hr. minv Hr; arith; [lia|done].
Qed.

Definition new_deposit (d : VaultUserDeposit) (n amount t : Z) : VaultUserDeposit :=
  {| d with ud_shares := ud_shares d + n; ud_total_deposited := ud_total_deposited d + amount;
     ud_last_deposit_at := t |}.

Lemma vault_deposit_spec user amount e w n w' :
  deposit user amount e w = Ok (n, w') →
  authorized e user = true ∧ 0 < amount ∧ n = minted amount (assets (store w)) (supply (store w)) ∧
  ∃ tk, Token (store w) = Some tk ∧
    tok_transfer e (ledger w) tk user (current_contract_address e) amount = Some (ledger w') ∧
    store w' = {| (store w) with
      TotalAssets := Some (assets (store w) + amount);
      TotalSupply := Some (supply (store w) + n);
      TotalDeposits := Some (default 0 (TotalDeposits (store w)) + amount);
      HighWaterMark := if assets (store w) + amount >? hwm (store w)
                       then Some (assets (store w) + amount) else HighWaterMark (store w);
      UserDeposit := <[user := new_deposit (user_of (UserDeposit (store w)) user) n amount
                                 (timestamp e)]> (UserDeposit (store w));
      ReentrancyLock := Some false |}.
Proof.
  intros Hr. unfold deposit, is_paused_fn, total_assets, total_supply, token, transfer_token,
    enter_non_reentrant, transfer_token_unchecked, exit_non_reentrant, total_deposits, set_total_assets,
    set_total_supply, high_water_mark, load_user_deposit, set_user_deposit in Hr.
  minv Hr; spec minted_spec as [-> ->]; inv_checked; zbool; split_and!; try done; eexists; split_and!; try done;
    unfold assets, hwm, new_deposit, user_of.
  - rewrite (proj2 (Z.gtb_gt _ _)) by done. done.
  - rewrite Z.gtb_ltb, (proj2 (Z.ltb_ge _ _)) by done. done.
Qed.

(** The fee [withdraw] takes: on the excess of the assets over the mark. *)
Definition withdraw_fee (st : State) : Z :=
  if assets st >? hwm st then fee_on (assets st - hwm st) (fee_bps st) else 0.

Definition paid_deposit (d : VaultUserDeposit) (n net t : Z) : VaultUserDeposit :=
  {| d with ud_shares := ud_shares d - n; ud_total_withdrawn := ud_total_withdrawn d + net;
     ud_last_withdrawal_at := t |}.

(** What redeeming [n] shares for [gross] writes, [net] of it paid out. *)
Definition redeem (st : State) (n gross net : Z) : State :=
  {| st with TotalSupply := Some (supply st - n); TotalAssets := Some (assets st - gross);
     TotalWithdrawals := Some (default 0 (TotalWithdrawals st) + net);
     ReentrancyLock := Some false |}.

Lemma vault_withdraw_spec user n e w net w' :
  withdraw user n e w = Ok (net, w') →
  authorized e user = true ∧ 0 < n ≤ ud_shares (user_of (UserDeposit (store w)) user) ∧
  0 < supply (store w) ∧ 0 < net ∧
  let gross := redeemed n (assets (store w)) (supply (store w)) in
  let fee := withdraw_fee (store w) in
  net = gross - fee ∧
  ∃ tk, Token (store w) = Some tk ∧
    tok_transfer e (ledger w) tk (current_contract_address e) user net = Some (ledger w') ∧
    store w' = {| (redeem (store w) n gross net) with
      TotalFeesCollected := if fee >? 0 then Some (fees (store w) + fee)
                            else TotalFeesCollected (store w);
      UserDeposit := <[user := paid_deposit (user_of (UserDeposit (store w)) user) n net
                                 (timestamp e)]> (UserDeposit (store w)) |}.
Proof.
  intros Hr. unfold withdraw, total_assets, total_supply, token, enter_non_reentrant,
    transfer_token_unchecked, exit_non_reentrant, total_withdrawals, set_total_assets, set_total_supply,
    set_total_withdrawals, high_water_mark, load_user_deposit, set_user_deposit, performance_fee_bps,
    collect_fee, total_fees_collected in Hr.
  minv Hr; spec redeemed_spec as (_ & -> & ->); inv_checked; cbv zeta;
    unfold withdraw_fee, assets, hwm, fee_bps, fee_on; use_tests; zbool; split_and!; try done; try lia;
    eexists; split_and!; done.
Qed.

Lemma vault_emergency_withdraw_spec user e w n w' :
  emergency_withdraw user e w = Ok (n, w') →
  let d := user_of (UserDeposit (store w)) user in
  authorized e user = true ∧ 0 < ud_shares d ∧ 0 < supply (store w) ∧ 0 < n ∧
  n = redeemed (ud_shares d) (assets (store w)) (supply (store w)) ∧
  ∃ tk, Token (store w) = Some tk ∧
    tok_transfer e (ledger w) tk (current_contract_address e) user n = Some (ledger w') ∧
    store w' = {| (redeem (store w) (ud_shares d) n n) with
      UserDeposit := <[user := mkVaultUserDeposit 0 (ud_total_deposited d) (ud_total_withdrawn d + n)
                                 (ud_last_deposit_at d) (timestamp e)]> (UserDeposit (store w)) |}.
Proof.
  intros Hr. unfold emergency_withdraw, total_assets, total_supply, token, enter_non_reentrant,
    transfer_token_unchecked, exit_non_reentrant, total_withdrawals, set_total_assets, set_total_supply,
    set_total_withdrawals, load_user_deposit, set_user_deposit in Hr.
  minv Hr. spec redeemed_spec as (_ & -> & ->). inv_checked. zbool.
  split_and!; try done. eexists. split_and!; done.
Qed.

Lemma vault_process_spec i e w n w' :
  process_withdrawal_queue i e w = Ok (n, w') →
  ∃ q tk, QueueItem (store w) !! i = Some q ∧ wq_processed q = false ∧ 0 < n ∧
    supply (store w) ≠ 0 ∧ n = redeemed (wq_shares q) (assets (store w)) (supply (store w)) ∧
    Token (store w) = Some tk ∧
    tok_transfer e (ledger w) tk (current_contract_address e) (wq_user q) n = Some (ledger w') ∧
    store w' = {| (redeem (store w) (wq_shares q) n n) with
      QueueItem := <[i := {| q with wq_processed := true |}]> (QueueItem (store w)) |}.
Proof.
  intros Hr. unfold process_withdrawal_queue, total_assets, total_supply, token, enter_non_reentrant,
    transfer_token_unchecked, exit_non_reentrant, total_withdrawals, set_total_assets, set_total_supply,
    set_total_withdrawals, load_queue_item, set_queue_item in Hr.
  minv Hr. spec redeemed_spec as (? & -> & ->). inv_checked. zbool.
  eexists _, _. split_and!; done.
Qed.

Lemma queue_spec user n e w i w' :
  queue_withdrawal user n e w = Ok (i, w') →
  let d := user_of (UserDeposit (store w)) user in
  authorized e user = true ∧ 0 < n ≤ ud_shares d ∧ 0 < supply (store w) ∧
  i = default 0 (WithdrawalQueueCounter (store w)) + 1 ∧ ledger w' = ledger w ∧
  store w' = {| (store w) with
    UserDeposit := <[user := {| d with ud_shares := ud_shares d - n;
                                  ud_last_withdrawal_at := timestamp e |}]> (UserDeposit (store w));
    WithdrawalQueueCounter := Some i;
    QueueItem := <[i := mkWithdrawalQueueItem i user n
                    (redeemed n (assets (store w)) (supply (store w))) (timestamp e) false]>
                 (QueueItem (store w));
    WithdrawalQueueIds := Some (default [] (WithdrawalQueueIds (store w)) ++ [i]) |}.
Proof.
  intros Hr. unfold queue_withdrawal, total_assets, total_supply, load_user_deposit, set_user_deposit,
    min_queued_withdrawal, next_withdrawal_queue_id, withdrawal_queue_counter, set_queue_item,
    withdrawal_queue_ids in Hr.
  minv Hr. spec redeemed_spec as (_ & -> & ->). inv_checked. zbool. split_and!; done.
Qed.

Lemma governance_spec adm to n e w u w' :
  governance_withdraw adm to n e w = Ok (u, w') →
  Admin (store w) = Some adm ∧ 0 < n ≤ assets (store w) ∧
  ∃ tk, Token (store w) = Some tk ∧
    tok_transfer e (ledger w) tk (current_contract_address e) to n = Some (ledger w') ∧
    store w' = {| (store w) with TotalAssets := Some (assets (store w) - n);
                  ReentrancyLock := Some false |}.
Proof.
  intros Hr. unfold governance_withdraw, total_assets, token, enter_non_reentrant,
    transfer_token_unchecked, exit_non_reentrant, set_total_assets in Hr.
  minv Hr. spec vault_assert_admin_spec as [? ->]. inv_checked. zbool.
  split_and!; try done. eexists. split_and!; done.
Qed.

Lemma withdraw_fees_spec adm to e w u w' :
  withdraw_fees adm to e w = Ok (u, w') →
  Admin (store w) = Some adm ∧ 0 < fees (store w) ∧
  ∃ tk, Token (store w) = Some tk ∧
    tok_transfer e (ledger w) tk (current_contract_address e) to (fees (store w)) = Some (ledger w') ∧
    store w' = {| (store w) with TotalFeesCollected := Some 0; ReentrancyLock := Some false |}.
Proof.
  intros Hr. unfold withdraw_fees, total_fees_collected, token, enter_non_reentrant,
    transfer_token_unchecked, exit_non_reentrant in Hr.
  minv Hr. spec vault_assert_admin_spec as [? ->]. zbool. split_and!; try done. eexists. split_and!; done.
Qed.

Definition harvested (st : State) (i : Symbol) (c : StrategyConfig) (r t : Z) : State :=
  let A := assets st + (harvest_gain c r - harvest_fee st c r) - harvest_loss c r in
  {| st with
     Strategy := <[i := {| c with sc_current_balance := r;
       sc_total_gains := sc_total_gains c + harvest_gain c r;
       sc_total_losses := sc_total_losses c + harvest_loss c r; sc_last_harvest_at := t |}]>
       (Strategy st);
     TotalAssets := Some A;
     HighWaterMark := Some (Z.max A (hwm st));
     TotalFeesCollected := if harvest_fee st c r >? 0 then Some (fees st + harvest_fee st c r)
                           else TotalFeesCollected st |}.

Lemma harvest_spec i r e w h w' :
  harvest_strategy i r e w = Ok (h, w') →
  ∃ c, Strategy (store w) !! i = Some c ∧ sc_is_active c = true ∧ ledger w' = ledger w ∧
    h = mkHarvestResult i (harvest_gain c r) (harvest_fee (store w) c r)
          (assets (store w) + (harvest_gain c r - harvest_fee (store w) c r) - harvest_loss c r)
          (hwm (store w')) ∧
    store w' = harvested (store w) i c r (timestamp e).
Proof.
  intros Hr. unfold harvest_strategy, performance_fee_bps, total_assets, high_water_mark, set_strategy,
    set_total_assets, collect_fee, total_fees_collected in Hr.
  apply bind_Ok in Hr as (c & w0 & Hload & Hr). apply load_strategy_spec in Hload as [Hc ->].
  exists c. split; [done|].
  assert (harvest_gain c r = if r >? sc_current_balance c then r - sc_current_balance c else 0) as HG.
  { unfold harvest_gain. destruct (r >? _) eqn:E; zbool; lia. }
  assert (harvest_loss c r = if r <? sc_current_balance c then sc_current_balance c - r else 0) as HL.
  { unfold harvest_loss. destruct (r <? _) eqn:E; zbool; lia. }
  assert (∀ a b, Z.max a b = if a >? b then a else b) as Hmax.
  { intros a b. destruct (a >? b) eqn:E; zbool; lia. }
  destruct (r >? sc_current_balance c) eqn:E1, (r <? sc_current_balance c) eqn:E2;
    [exfalso; zbool; lia| | |]; minv Hr; inv_checked;
    unfold harvested, harvest_fee, fee_on, fee_bps; rewrite HG, HL, ?Hmax; use_tests;
    cbn [Z.mul Z.quot Z.quotrem fst]; change (0 - 0) with 0; rewrite ?Z.sub_0_r, ?Z.add_0_r; zbool;
    split_and!; try done; try lia.
Qed.
End specs.

(** ** Shares *)

Definition queued (q : gmap Z WithdrawalQueueItem) : Z :=
  msum (λ _ it, if wq_processed it then 0 else wq_shares it) q.
Definition held (users : gmap Address VaultUserDeposit) : Z := msum (λ _ d, ud_shares d) users.

Record shares_ok (users : gmap Address VaultUserDeposit) (q : gmap Z WithdrawalQueueItem)
    (counter : Z) (ids : list Z) (S : Z) : Prop := {
  sh_supply : S = held users + queued q;
  sh_users u d : users !! u = Some d → 0 ≤ ud_shares d;
  sh_queue i it : q !! i = Some it → wq_request_id it = i ∧ 1 ≤ i ≤ counter ∧ 0 < wq_shares it;
  sh_counter : 0 ≤ counter;
  sh_ids i : i ∈ ids ↔ is_Some (q !! i);
  sh_nodup : NoDup ids;
}.

Lemma vault_held_insert users u d :
  held (<[u := d]> users) = held users - ud_shares (user_of users u) + ud_shares d.
Proof. unfold held, user_of. rewrite msum_insert. by destruct (users !! u). Qed.

Lemma user_of_nonneg users q c ids S u : shares_ok users q c ids S → 0 ≤ ud_shares (user_of users u).
Proof.
  intros Hs. unfold user_of. destruct (users !! u) as [d|] eqn:Hd; simpl; [|lia]. by eapply sh_users.
Qed.

Lemma shares_user users q c ids S u d n :
  shares_ok users q c ids S → ud_shares d = ud_shares (user_of users u) + n → 0 ≤ ud_shares d →
  shares_ok (<[u := d]> users) q c ids (S + n).
Proof.
  intros Hs Hd Hpos. split; try by apply Hs.
  - rewrite vault_held_insert, (sh_supply _ _ _ _ _ Hs). lia.
  - intros v d' [[<- <-]|[_ Hv]]%lookup_insert_Some; [done|by eapply sh_users].
Qed.

Lemma shares_queue users q c ids S it :
  shares_ok users q c ids S → wq_request_id it = c + 1 → 0 < wq_shares it → wq_processed it = false →
  shares_ok users (<[c + 1 := it]> q) (c + 1) (ids ++ [c + 1]) (S + wq_shares it).
Proof.
  intros Hs Hid Hpos Hnew. pose proof (sh_counter _ _ _ _ _ Hs).
  assert (q !! (c + 1) = None) as Hfresh.
  { destruct (q !! (c + 1)) as [it'|] eqn:Hq; [|done]. apply (sh_queue _ _ _ _ _ Hs) in Hq. lia. }
  split; try by apply Hs.
  - unfold queued. rewrite msum_insert_fresh, Hnew by done. fold (queued q). rewrite (sh_supply _ _ _ _ _ Hs). lia.
  - intros i it' [[<- <-]|[_ Hi]]%lookup_insert_Some; [lia|].
    apply (sh_queue _ _ _ _ _ Hs) in Hi. lia.
  - lia.
  - intros i. rewrite elem_of_app, list_elem_of_singleton, (sh_ids _ _ _ _ _ Hs), lookup_insert_is_Some'.
    naive_solver.
  - apply NoDup_snoc; [apply Hs|]. rewrite (sh_ids _ _ _ _ _ Hs), Hfresh. by intros [].
Qed.

Lemma shares_process users q c ids S i it :
  shares_ok users q c ids S → q !! i = Some it → wq_processed it = false →
  shares_ok users (<[i := {| it with wq_processed := true |}]> q) c ids (S - wq_shares it).
Proof.
  intros Hs Hi Hnew. split; try by apply Hs.
  - unfold queued. rewrite (msum_insert_update _ _ _ it), Hnew by done. cbn. fold (queued q).
    rewrite (sh_supply _ _ _ _ _ Hs). lia.
  - intros j it' [[<- <-]|[_ Hj]]%lookup_insert_Some; [exact (sh_queue _ _ _ _ _ Hs _ _ Hi)|].
    by eapply (sh_queue _ _ _ _ _ Hs).
  - intros j. rewrite (sh_ids _ _ _ _ _ Hs), lookup_insert_is_Some'. naive_solver.
Qed.

(** ** Strategies *)

Definition allocation (strs : gmap Symbol StrategyConfig) (allocs : gmap Symbol Z) (i : Symbol) : Z :=
  match strs !! i with
  | Some c => if sc_is_active c then default 0 (allocs !! i) else 0
  | None => 0
  end.

Record strategies_ok (strs : gmap Symbol StrategyConfig) (allocs : gmap Symbol Z) (ids : list Symbol)
    : Prop := {
  so_ids i : i ∈ ids ↔ is_Some (strs !! i);
  so_nodup : NoDup ids;
  so_alloc i n : allocs !! i = Some n → 0 ≤ n;
  so_total : lsum (allocation strs allocs) ids ≤ BPS_DENOMINATOR;
}.

Lemma allocation_nonneg strs allocs ids i : strategies_ok strs allocs ids → 0 ≤ allocation strs allocs i.
Proof.
  intros Hs. unfold allocation. destruct (strs !! i) as [c|]; [|done]. destruct (sc_is_active c); [|done].
  destruct (allocs !! i) as [n|] eqn:Hn; simpl; [by eapply so_alloc|done].
Qed.

(** A sum over distinct elements changes where the function does. *)
Lemma lsum_change {A} `{EqDecision A} (f g : A → Z) l x :
  NoDup l → x ∈ l → (∀ y, y ≠ x → g y = f y) → lsum g l = lsum f l - f x + g x.
Proof.
  intros Hnd Hx Hfg. induction l as [|y l IH]; [by apply not_elem_of_nil in Hx|].
  apply NoDup_cons in Hnd as [Hy Hnd]. simpl. apply elem_of_cons in Hx as [<-|Hx].
  - rewrite (lsum_ext g f l); [lia|]. intros z Hz. apply Hfg. by intros ->.
  - rewrite IH by done. rewrite (Hfg y); [lia|]. by intros ->.
Qed.

(** Editing a strategy without changing whether it is active. *)
Lemma strategies_edit strs allocs ids i c c' :
  strategies_ok strs allocs ids → strs !! i = Some c → sc_is_active c' = sc_is_active c →
  strategies_ok (<[i := c']> strs) allocs ids.
Proof.
  intros Hs Hi Ha. split; try by apply Hs.
  - intros j. rewrite (so_ids _ _ _ Hs), lookup_insert_is_Some'. naive_solver.
  - rewrite (lsum_ext _ (allocation strs allocs)); [by apply Hs|]. intros j _. unfold allocation.
    rewrite lookup_insert. case_decide; [|done]. subst j. by rewrite Hi, Ha.
Qed.

Lemma strategies_add strs allocs ids i c :
  strategies_ok strs allocs ids → strs !! i = None →
  strategies_ok (<[i := c]> strs) (<[i := 0]> allocs) (ids ++ [i]).
Proof.
  intros Hs Hi. split.
  - intros j. rewrite elem_of_app, list_elem_of_singleton, (so_ids _ _ _ Hs), lookup_insert_is_Some'. naive_solver.
  - apply NoDup_snoc; [apply Hs|]. rewrite (so_ids _ _ _ Hs), Hi. by intros [].
  - intros j n [[_ <-]|[_ Hj]]%lookup_insert_Some; [done|by eapply so_alloc].
  - rewrite lsum_app. simpl. unfold allocation at 2. rewrite !lookup_insert_eq. simpl.
    rewrite (lsum_ext _ (allocation strs allocs)).
    + pose proof (so_total _ _ _ Hs). destruct (sc_is_active c); lia.
    + intros j Hj. unfold allocation. rewrite !lookup_insert_ne; [done| |];
        intros <-; apply (so_ids _ _ _ Hs) in Hj as [? ?]; congruence.
Qed.

(** Setting an allocation and editing the strategy at once. *)
Lemma strategies_set strs allocs ids i c c' n :
  strategies_ok strs allocs ids → strs !! i = Some c → 0 ≤ n →
  lsum (allocation strs allocs) ids - allocation strs allocs i
    + (if sc_is_active c' then n else 0) ≤ BPS_DENOMINATOR →
  strategies_ok (<[i := c']> strs) (<[i := n]> allocs) ids.
Proof.
  intros Hs Hi Hn Htot. split; try by apply Hs.
  - intros j. rewrite (so_ids _ _ _ Hs), lookup_insert_is_Some'. naive_solver.
  - intros j m [[_ <-]|[_ Hj]]%lookup_insert_Some; [done|by eapply so_alloc].
  - rewrite (lsum_change (allocation strs allocs) _ _ i).
    + unfold allocation at 3. rewrite !lookup_insert_eq. done.
    + apply Hs.
    + apply (so_ids _ _ _ Hs). eauto.
    + intros j Hj. unfold allocation. by rewrite !lookup_insert_ne.
Qed.

Lemma reported_edit strs i c c' :
  strs !! i = Some c →
  reported (<[i := c']> strs) = reported strs - (sc_total_gains c - sc_total_losses c)
                                + (sc_total_gains c' - sc_total_losses c').
Proof. intros Hi. unfold reported. by rewrite (msum_insert_update _ _ _ c). Qed.

Lemma total_allocation_spec `{TokenHost} e (w : World State Event) n w' :
  total_allocation_bps e w = Ok (n, w') →
  n = lsum (allocation (Strategy (store w)) (StrategyAllocBps (store w)))
        (default [] (StrategyIds (store w))) ∧ w' = w.
Proof.
  intros Hr. unfold total_allocation_bps, strategy_ids in Hr.
  apply bind_Ok in Hr as (ids & w1 & Hids & Hr). minv Hids. generalize dependent (default [] (StrategyIds (store w))).
  intros ids. rewrite <- (Z.add_0_l (lsum _ _)). generalize 0 as m.
  induction ids as [|i ids IH]; intros m Hr; cbn [foldM] in Hr.
  - minv Hr. simpl. split; [lia|done].
  - apply bind_Ok in Hr as (m1 & w1 & Hone & Hr). unfold add_allocation, strategy_alloc_bps in Hone.
    apply bind_Ok in Hone as (c & w2 & Hload & Hone). apply load_strategy_spec in Hload as [Hi ->].
    assert (m1 = m + allocation (Strategy (store w)) (StrategyAllocBps (store w)) i ∧ w1 = w) as [-> ->].
    { unfold allocation. rewrite Hi. minv Hone; inv_checked; split; done || lia. }
    apply IH in Hr as [-> ->]. simpl. split; [lia|done].
Qed.

(** ** Sound worlds *)

Record vault_inv (st : State) : Prop := {
  iv_shares : shares_ok (UserDeposit st) (QueueItem st) (default 0 (WithdrawalQueueCounter st))
    (default [] (WithdrawalQueueIds st)) (supply st);
  iv_strategies : strategies_ok (Strategy st) (StrategyAllocBps st) (default [] (StrategyIds st));
  iv_mark : assets st ≤ hwm st;
  iv_fee : 0 ≤ fee_bps st ≤ 5000;
  iv_fees : 0 ≤ fees st;
  iv_admin : is_Some (Admin st);
}.

Section sound.
Context `{TokenHost} `{!TokenLaws} (self : Address).
Implicit Types (w : World State Event) (e : Env).

(** Assets and fees are backed by tokens, up to what the strategies reported. *)
Definition backed (st : State) (l : Ledger) : Prop :=
  ∀ tk, Token st = Some tk → assets st + fees st ≤ tok_balance l tk self + reported (Strategy st).

Definition sound w : Prop := vault_inv (store w) ∧ backed (store w) (ledger w).

(** Paying [n] out keeps the backing when assets and fees fall by [n]. *)
Lemma backed_paid st l l' st' tk to n e :
  wf_env self e → backed st l → Token st = Some tk →
  tok_transfer e l tk (current_contract_address e) to n = Some l' →
  Token st' = Token st → Strategy st' = Strategy st →
  assets st' + fees st' = assets st + fees st - n → backed st' l'.
Proof.
  intros Hwf Hb Htk Ht Htk' Hstr Hsum tk0 Heq. rewrite Htk', Htk in Heq. simplify_eq.
  specialize (Hb _ Htk). rewrite (wf_self _ _ Hwf) in Ht.
  pose proof (transfer_nonneg _ _ _ _ _ _ _ Ht) as Hn. apply transfer_moved in Ht.
  pose proof (moved_out_ge _ _ _ _ _ _ tk0 Ht Hn) as Hge. rewrite bool_decide_eq_true_2 in Hge by done.
  rewrite Hstr. lia.
Qed.

Lemma fee_on_nonneg g b : 0 ≤ g → 0 ≤ b → 0 ≤ fee_on g b.
Proof. intros. apply Z.quot_pos; [nia|done]. Qed.

Lemma withdraw_fee_mark st : assets st ≤ hwm st → withdraw_fee st = 0.
Proof. intros Hle. unfold withdraw_fee. by rewrite Z.gtb_ltb, (proj2 (Z.ltb_ge _ _)). Qed.

Lemma withdraw_fee_zero st : vault_inv st → withdraw_fee st = 0.
Proof. intros Hi. apply withdraw_fee_mark, Hi. Qed.

Lemma vault_minted_nonneg n A S : 0 < n → 0 ≤ minted n A S.
Proof.
  intros Hn. unfold minted. destruct (_ || _) eqn:E; [lia|]. zbool. apply Z.quot_pos; nia.
Qed.

Lemma deposit_sound user n e w r w' :
  wf_env self e → sound w → deposit user n e w = Ok (r, w') → sound w'.
Proof.
  intros Hwf [Hi Hb] Hr. apply vault_deposit_spec in Hr as (Hauth & Hn & -> & tk & Htk & Ht & Hst).
  rewrite (wf_self _ _ Hwf) in Ht. apply transfer_moved in Ht.
  pose proof (vault_minted_nonneg n (assets (store w)) (supply (store w)) Hn) as Hm.
  pose proof (user_of_nonneg _ _ _ _ _ user (iv_shares _ Hi)).
  unfold sound. rewrite Hst. split.
  - split; try by apply Hi; cbn.
    + apply shares_user; [apply Hi|done|cbn; lia].
    + unfold assets, hwm. cbn. fold (assets (store w)) (hwm (store w)). destruct (_ >? _) eqn:E; zbool; cbn; [lia|].
      fold (hwm (store w)). lia.
  - intros tk' Htk'. cbn in Htk'. rewrite Htk in Htk'. simplify_eq. specialize (Hb _ Htk).
    rewrite (moved_in _ _ _ _ _ _ tk' Ht) by eauto with contracts. rewrite bool_decide_eq_true_2 by done.
    unfold assets, fees in *. cbn. unfold assets. lia.
Qed.

Lemma withdraw_sound user n e w r w' :
  wf_env self e → sound w → withdraw user n e w = Ok (r, w') → sound w'.
Proof.
  intros Hwf [Hi Hb] Hr. apply vault_withdraw_spec in Hr as (_ & Hn & HS & Hnet & Heq & tk & Htk & Ht & Hst).
  rewrite (withdraw_fee_zero _ Hi) in Heq, Hst. cbn [Z.gtb Z.compare] in Hst.
  set (gross := redeemed _ _ _) in *. unfold sound. rewrite Hst. split.
  - split; try by apply Hi; cbn.
    + refine (shares_user _ _ _ _ _ _ _ (- n) (iv_shares _ Hi) _ _); cbn; lia.
    + pose proof (iv_mark _ Hi). unfold assets, hwm in *. cbn. unfold assets. lia.
  - eapply (backed_paid (store w)); try done. unfold assets, fees. cbn. unfold assets. lia.
Qed.

Lemma vault_emergency_sound user e w r w' :
  wf_env self e → sound w → emergency_withdraw user e w = Ok (r, w') → sound w'.
Proof.
  intros Hwf [Hi Hb] Hr. apply vault_emergency_withdraw_spec in Hr as (_ & Hn & HS & Hr0 & _ & tk & Htk & Ht & Hst).
  unfold sound. rewrite Hst. split.
  - split; try by apply Hi; cbn.
    + refine (shares_user _ _ _ _ _ _ _ (- _) (iv_shares _ Hi) _ _); cbn; lia.
    + pose proof (iv_mark _ Hi). unfold assets, hwm in *. cbn. unfold assets. lia.
  - eapply (backed_paid (store w)); try done. unfold assets, fees. cbn. unfold assets. lia.
Qed.

Lemma process_sound i e w r w' :
  wf_env self e → sound w → process_withdrawal_queue i e w = Ok (r, w') → sound w'.
Proof.
  intros Hwf [Hi Hb] Hr. apply vault_process_spec in Hr as (q & tk & Hq & Hnew & Hr0 & _ & _ & Htk & Ht & Hst).
  unfold sound. rewrite Hst. split.
  - split; try by apply Hi; cbn.
    + exact (shares_process _ _ _ _ _ _ _ (iv_shares _ Hi) Hq Hnew).
    + pose proof (iv_mark _ Hi). unfold assets, hwm in *. cbn. unfold assets. lia.
  - eapply (backed_paid (store w)); try done. unfold assets, fees. cbn. unfold assets. lia.
Qed.

Lemma queue_sound user n e w r w' :
  sound w → queue_withdrawal user n e w = Ok (r, w') → sound w'.
Proof.
  intros [Hi Hb] Hr. apply queue_spec in Hr as (_ & Hn & HS & -> & Hl & Hst).
  unfold sound. rewrite Hst, Hl. split; [|exact Hb].
  split; try by apply Hi; cbn.
  pose proof (shares_user _ _ _ _ _ user {| (user_of (UserDeposit (store w)) user) with
    ud_shares := ud_shares (user_of (UserDeposit (store w)) user) - n;
    ud_last_withdrawal_at := timestamp e |} (- n) (iv_shares _ Hi) ltac:(cbn; lia) ltac:(cbn; lia)) as Hs.
  match goal with |- context [mkWithdrawalQueueItem ?a ?b ?c ?d ?f ?g] =>
    pose proof (shares_queue _ _ _ _ _ (mkWithdrawalQueueItem a b c d f g) Hs eq_refl ltac:(cbn; lia) eq_refl) as Hs' end.
  cbn [wq_shares] in Hs'. replace (supply (store w) + - n + n) with (supply (store w)) in Hs' by lia. exact Hs'.
Qed.

Lemma harvest_sound i r e w h w' :
  sound w → harvest_strategy i r e w = Ok (h, w') → sound w'.
Proof.
  intros [Hi Hb] Hr. apply harvest_spec in Hr as (c & Hc & Ha & Hl & _ & Hst).
  assert (0 ≤ harvest_fee (store w) c r) as Hfee.
  { apply fee_on_nonneg; [unfold harvest_gain; lia|apply Hi]. }
  unfold sound. rewrite Hst, Hl. split.
  - split; try by apply Hi; cbn.
    + by apply (strategies_edit _ _ _ _ c); [apply Hi| |].
    + unfold assets, hwm. cbn. unfold assets, hwm. lia.
    + pose proof (iv_fees _ Hi). unfold fees in *. cbn. destruct (_ >? _) eqn:E; cbn; zbool; [unfold fees; lia|done].
  - intros tk Htk. cbn in Htk. specialize (Hb _ Htk). cbn [Strategy harvested].
    rewrite (reported_edit _ _ c) by done. cbn. unfold assets, fees in *. cbn.
    unfold assets, fees. destruct (harvest_fee _ _ _ >? 0) eqn:E; cbn; zbool; lia.
Qed.

(** Edits of the strategies that keep the reported totals. *)
Lemma sound_strategies w st' l' :
  sound w →
  strategies_ok (Strategy st') (StrategyAllocBps st') (default [] (StrategyIds st')) →
  reported (Strategy st') = reported (Strategy (store w)) →
  UserDeposit st' = UserDeposit (store w) → QueueItem st' = QueueItem (store w) →
  WithdrawalQueueCounter st' = WithdrawalQueueCounter (store w) →
  WithdrawalQueueIds st' = WithdrawalQueueIds (store w) → supply st' = supply (store w) →
  assets st' = assets (store w) → hwm st' = hwm (store w) → fee_bps st' = fee_bps (store w) →
  fees st' = fees (store w) → Admin st' = Admin (store w) → Token st' = Token (store w) →
  sound (mkWorld st' (ledger w) l').
Proof.
  intros [Hi Hb] Hs Hrep E1 E2 E3 E4 E5 E6 E7 E8 E9 E10 E11.
  split; cbn; [split; rewrite ?E1, ?E2, ?E3, ?E4, ?E5, ?E6, ?E7, ?E8, ?E9, ?E10; try apply Hi; done|].
  intros tk Htk. rewrite E11 in Htk. specialize (Hb _ Htk). by rewrite Hrep, E6, E9.
Qed.

Lemma migrate_sound adm i j e w u w' :
  sound w → migrate_strategy adm i j e w = Ok (u, w') → sound w'.
Proof.
  intros Hs Hr. unfold migrate_strategy, set_strategy in Hr. minv Hr. spec vault_assert_admin_spec as [_ ->].
  apply load_strategy_spec in Hr2 as [Hi ->]. apply load_strategy_spec in Hr4 as [Hj ->]. zbool.
  destruct (Hs) as [Hinv _].
  assert (∃ x, <[i := {| a with sc_allocated_assets := 0 |}]> (Strategy (store w)) !! j = Some x ∧
    sc_is_active x = true ∧ sc_total_gains x = sc_total_gains a0 ∧ sc_total_losses x = sc_total_losses a0)
    as (x & Hx & Hxa & Hxg & Hxl).
  { rewrite lookup_insert. case_decide; [subst; simplify_eq; eauto 10|exists a0; done]. }
  apply (sound_strategies w); try done; cbn.
  - apply (strategies_edit _ _ _ _ x); [|done|cbn; congruence].
    by apply (strategies_edit _ _ _ _ a); [apply Hinv| |].
  - rewrite (reported_edit _ _ x), (reported_edit _ _ a) by done. cbn. lia.
Qed.

Lemma set_allocation_sound adm i n e w u w' :
  sound w → 0 ≤ n → set_strategy_allocation adm i n e w = Ok (u, w') → sound w'.
Proof.
  intros Hs Hn Hr. unfold set_strategy_allocation, strategy_alloc_bps, set_strategy_alloc, total_assets,
    set_strategy in Hr. minv Hr. spec vault_assert_admin_spec as [_ ->].
  apply load_strategy_spec in Hr2 as [Hi ->]. spec total_allocation_spec as [-> ->]. inv_checked. zbool.
  destruct (Hs) as [Hinv _]. apply (sound_strategies w); try done; cbn.
  - eapply strategies_set; [apply Hinv|done|done|]. cbn. unfold allocation at 2. rewrite Hi, Hr3. lia.
  - rewrite (reported_edit _ _ a) by done. cbn. lia.
Qed.

Lemma initialize_fresh adm tk e w u w' :
  initialize adm tk e w = Ok (u, w') → Admin (store w) = None.
Proof.
  intros Hr. unfold initialize in Hr. apply bind_Ok in Hr as (o & w1 & Ho & Hr). minv Ho.
  apply bind_Ok in Hr as ([] & w1 & Hp & _). minv Hp. zbool. by apply eq_None_not_Some.
Qed.

Lemma vault_exec_sound c e w w' :
  wf_env self e → call_ok c → sound w → exec c e w = Ok (tt, w') → sound w'.
Proof.
  intros Hwf Hok Hs Hr. destruct c; cbn [exec] in Hr; try (apply discard_Ok in Hr; destruct Hr as [r Hr]).
  - apply initialize_fresh in Hr. destruct Hs as [Hi _]. destruct (iv_admin _ Hi). congruence.
  - by eapply deposit_sound.
  - by eapply withdraw_sound.
  - by eapply vault_emergency_sound.
  - apply governance_spec in Hr as (_ & Hn & tk & Htk & Ht & Hst). destruct Hs as [Hi Hb].
    unfold sound. rewrite Hst. split.
    + split; try by apply Hi; cbn. pose proof (iv_mark _ Hi). unfold assets, hwm in *. cbn. unfold assets. lia.
    + eapply (backed_paid (store w)); try done. unfold assets, fees. cbn. unfold assets. lia.
  - unfold pause, is_paused_fn in Hr. minv Hr. spec vault_assert_admin_spec as [_ ->].
    destruct (Hs) as [Hi _]. apply (sound_strategies w); try done. apply Hi.
  - unfold unpause, is_paused_fn in Hr. minv Hr. spec vault_assert_admin_spec as [_ ->].
    destruct (Hs) as [Hi _]. apply (sound_strategies w); try done. apply Hi.
  - unfold set_performance_fee in Hr. minv Hr. spec vault_assert_admin_spec as [_ ->]. zbool.
    destruct Hs as [Hi Hb]. split; [|exact Hb]. split; try by apply Hi; cbn. done.
  - apply withdraw_fees_spec in Hr as (_ & Hn & tk & Htk & Ht & Hst). destruct Hs as [Hi Hb].
    unfold sound. rewrite Hst. split.
    + by split; try by apply Hi; cbn.
    + eapply (backed_paid (store w)); try done. unfold fees in *. cbn. unfold assets. cbn. lia.
  - unfold add_strategy, strategy_ids, set_strategy, set_strategy_alloc, strategy_counter in Hr. minv Hr.
    spec vault_assert_admin_spec as [_ ->]. zbool.
    assert (Strategy (store w) !! strategy_id = None) as Hnew by (by apply eq_None_not_Some).
    destruct (Hs) as [Hi _]. apply (sound_strategies w); try done; cbn.
    + by apply strategies_add; [apply Hi|].
    + unfold reported. rewrite msum_insert_fresh by done. done.
  - unfold remove_strategy, set_strategy, set_strategy_alloc in Hr. minv Hr.
    spec vault_assert_admin_spec as [_ ->]. spec load_strategy_spec as [Hc ->]. zbool.
    destruct (Hs) as [Hi _]. apply (sound_strategies w); try done; cbn.
    + eapply strategies_set; [apply Hi|done|done|]. cbn.
      pose proof (allocation_nonneg _ _ _ strategy_id (iv_strategies _ Hi)).
      pose proof (so_total _ _ _ (iv_strategies _ Hi)). lia.
    + rewrite (reported_edit _ _ a) by done. cbn. lia.
  - by eapply set_allocation_sound.
  - by eapply migrate_sound.
  - by eapply harvest_sound.
  - unfold emergency_strategy_withdrawal, set_strategy in Hr. minv Hr; spec vault_assert_admin_spec as [_ ->];
      spec load_strategy_spec as [Hc' ->]; [done|].
    destruct (Hs) as [Hi _]. apply (sound_strategies w); try done; cbn.
    + by eapply strategies_edit; [apply Hi| |].
    + rewrite (reported_edit _ _ a) by done. cbn. lia.
  - by eapply queue_sound.
  - by eapply process_sound.
Qed.

(** ** Reachable worlds: from a successful [initialize] on a fresh contract *)

Definition started (e0 : Env) w1 : Prop :=
  ∃ w0 adm tk, wf_env self e0 ∧ store w0 = deployed ∧
    (∀ tk, 0 ≤ tok_balance (ledger w0) tk self) ∧ initialize adm tk e0 w0 = Ok (tt, w1).

Definition reachable (t : Z) w : Prop :=
  ∃ e0 w1, started e0 w1 ∧ rtc (step exec call_ok self) (timestamp e0, w1) (t, w).

Lemma vault_started_sound e0 w1 : started e0 w1 → sound w1.
Proof.
  intros (w0 & adm & tk & Hwf & Hst & Hbal & Hr). unfold initialize in Hr. minv Hr. rewrite Hst. split; cbn.
  - split; cbn; try done.
    + split; unfold held, queued; rewrite ?msum_empty; try done; [|apply NoDup_nil_2].
      intros i. rewrite lookup_empty. split; [set_solver|by intros []].
    + split; try done; [|apply NoDup_nil_2]. intros i. rewrite lookup_empty. split; [set_solver|by intros []].
  - intros tk' _. unfold assets, fees, reported. cbn. rewrite msum_empty. specialize (Hbal tk'). lia.
Qed.

Lemma vault_reachable_sound t w : reachable t w → sound w.
Proof.
  intros (e0 & w1 & Hstart & Hsteps).
  apply (reach_inv_world exec call_ok self (λ _, sound)) in Hsteps; [done| | |by eapply vault_started_sound].
  - intros; by eapply vault_exec_sound.
  - intros t1 t2 w2 l' _ Hl [Hi Hb]. split; [done|]. intros tk Htk. specialize (Hb tk Htk).
    specialize (Hl tk). cbn in *. lia.
Qed.
End sound.

(** ** Share prices *)

Lemma redeemed_le n A S : 0 ≤ n → 0 ≤ A → 0 < S → 0 ≤ redeemed n A S ∧ redeemed n A S * S ≤ n * A.
Proof.
  intros. unfold redeemed. rewrite quot_div_nonneg by nia.
  split; [apply Z.div_pos; nia|]. rewrite Z.mul_comm. apply Z.mul_div_le. lia.
Qed.

Lemma minted_le n A S : 0 < n → 0 < A → 0 < S → 0 ≤ minted n A S ∧ minted n A S * A ≤ n * S.
Proof.
  intros. split; [by apply vault_minted_nonneg|]. unfold minted.
  rewrite (proj2 (Z.leb_gt _ _)), (proj2 (Z.leb_gt _ _)) by done. cbn [orb].
  rewrite quot_div_nonneg by nia. rewrite Z.mul_comm. apply Z.mul_div_le. lia.
Qed.

(** Redeeming right after minting gives back at most what was put in. *)
Lemma mint_redeem_le n A S :
  0 < n → 0 ≤ S → 0 < S ∨ A ≤ 0 → 0 < S + minted n A S →
  redeemed (minted n A S) (A + n) (S + minted n A S) ≤ n.
Proof.
  intros Hn HS Hcase Hpos. pose proof (vault_minted_nonneg n A S Hn) as Hm.
  assert (minted n A S * (A + n) ≤ n * (S + minted n A S)) as Hle.
  { unfold minted in *. destruct ((A <=? 0) || (S <=? 0)) eqn:E.
    - apply orb_prop in E as [E|E]; zbool; nia.
    - zbool. rewrite quot_div_nonneg in * by nia. pose proof (Z.mul_div_le (n * S) A). nia. }
  unfold redeemed. destruct (Z.le_gt_cases 0 (A + n)).
  - rewrite quot_div_nonneg by nia. apply Z.div_le_upper_bound; lia.
  - assert ((minted n A S * (A + n)) `quot` (S + minted n A S) ≤ 0); [|lia].
    rewrite <- (Z.opp_involutive (minted n A S * (A + n))), Z.quot_opp_l by lia.
    assert (0 ≤ (- (minted n A S * (A + n))) `quot` (S + minted n A S)); [|lia]. apply Z.quot_pos; nia.
Qed.

(** The calls that neither report a strategy's balance nor withdraw as governance. *)
Definition ordinary (c : Call) : bool :=
  match c with CGovernanceWithdraw _ _ _ | CHarvestStrategy _ _ => false | _ => true end.

Lemma supply_nonneg st : vault_inv st → 0 ≤ supply st.
Proof.
  intros Hi. rewrite (sh_supply _ _ _ _ _ (iv_shares _ Hi)).
  assert (0 ≤ held (UserDeposit st)) by (apply msum_nonneg, (sh_users _ _ _ _ _ (iv_shares _ Hi))).
  assert (0 ≤ queued (QueueItem st)); [|lia]. apply msum_nonneg. intros i it Hit.
  destruct (sh_queue _ _ _ _ _ (iv_shares _ Hi) _ _ Hit) as (_ & _ & ?). destruct (wq_processed it); lia.
Qed.

Lemma withdraw_runs_preview `{TokenHost} user n e (w : World State Event) net w' :
  withdraw user n e w = Ok (net, w') →
  preview_withdraw n e w = Ok (redeemed n (assets (store w)) (supply (store w)), w).
Proof.
  intros Hr. unfold withdraw, load_user_deposit in Hr.
  apply bind_Ok in Hr as ([] & w1 & Hg1 & Hr). minv Hg1. apply bind_Ok in Hr as ([] & w1 & Hg2 & Hr). minv Hg2.
  apply bind_Ok in Hr as (d & w1 & Hg3 & Hr). minv Hg3. apply bind_Ok in Hr as ([] & w1 & Hg4 & Hr). minv Hg4.
  unfold preview_withdraw.
  apply bind_Ok in Hr as (A & w1 & Hg5 & Hr). rewrite (bind_run _ _ _ _ _ _ Hg5). minv Hg5 using total_assets.
  apply bind_Ok in Hr as (S & w1 & Hg6 & Hr). rewrite (bind_run _ _ _ _ _ _ Hg6). minv Hg6 using total_supply.
  apply bind_Ok in Hr as ([] & w1 & Hg7 & Hr). minv Hg7. apply bind_Ok in Hr as (gross & w1 & Hg8 & _).
  pose proof (redeemed_spec _ _ _ _ _ _ _ Hg8) as (_ & -> & ->). exact Hg8.
Qed.

(** Harvesting reads nothing of the environment but the time. *)
Lemma harvest_time_only `{TokenHost} i r :
  time_only (S := State) (E := Empty_set) (Ev := Event) (harvest_strategy i r).
Proof.
  unfold harvest_strategy, load_strategy, performance_fee_bps, total_assets, high_water_mark, set_strategy,
    set_total_assets, collect_fee, total_fees_collected.
  repeat first [progress (apply time_only_bind; [|intros ?])|apply time_only_if|progress cbv zeta|progress auto with contracts].
Qed.

(** The allocation loop runs through when every total on the way fits. *)
Lemma total_allocation_runs `{TokenHost} e (w : World State Event) all ids m n :
  strategies_ok (Strategy (store w)) (StrategyAllocBps (store w)) all →
  (∀ i, i ∈ ids → is_Some (Strategy (store w) !! i)) → 0 ≤ m → n ≤ BPS_DENOMINATOR →
  n = m + lsum (allocation (Strategy (store w)) (StrategyAllocBps (store w))) ids →
  foldM add_allocation m ids e w = Ok (n, w).
Proof.
  intros Hs. revert m. induction ids as [|i ids IH]; intros m Hids Hm Hn Heq; cbn [foldM].
  - simpl in Heq. by replace n with m by lia.
  - destruct (Hids i ltac:(left)) as [c Hc]. simpl in Heq.
    set (a := allocation (Strategy (store w)) (StrategyAllocBps (store w)) i) in *.
    assert (0 ≤ a) as Ha by (by eapply allocation_nonneg).
    assert (0 ≤ lsum (allocation (Strategy (store w)) (StrategyAllocBps (store w))) ids)
      by (apply lsum_nonneg; intros; by eapply allocation_nonneg).
    rewrite (bind_run _ _ _ _ (m + a) w); [apply IH; [set_solver|lia|lia|lia]|].
    unfold add_allocation, load_strategy, strategy_alloc_bps.
    rewrite (bind_run _ _ _ _ c w); [|unfold mbind, M_bind, gets, expect; by rewrite Hc].
    unfold a, allocation in *. rewrite Hc in *. destruct (sc_is_active c); [|by rewrite Z.add_0_r].
    rewrite (bind_run _ _ _ _ (default 0 (StrategyAllocBps (store w) !! i)) w) by done.
    unfold expect, checked_add. rewrite checked_in; [done|]. unfold BPS_DENOMINATOR in *. cbn. lia.
Qed.

Section theorems.
Context `{TokenHost} `{!TokenLaws} (self : Address).
Implicit Types (w : World State Event) (e : Env).

(** C14: in every reachable world the total supply is the sum of the users'
    shares and of the shares in unprocessed withdrawal requests; users' shares
    are not negative, requests are numbered from one and indexed exactly once. *)
Theorem vault_shares_conserved t w :
  reachable self t w →
  shares_ok (UserDeposit (store w)) (QueueItem (store w))
    (default 0 (WithdrawalQueueCounter (store w))) (default [] (WithdrawalQueueIds (store w)))
    (supply (store w)).
Proof. intros Hr. destruct (vault_reachable_sound self _ _ Hr) as [Hi _]. apply Hi. Qed.

(** In every reachable world the recorded assets and fees are covered by the
    vault's token balance plus the gains less losses that harvests have
    reported; without harvests they are fully covered. *)
Theorem vault_backed t w tk :
  reachable self t w → Token (store w) = Some tk →
  assets (store w) + fees (store w) ≤ tok_balance (ledger w) tk self + reported (Strategy (store w)).
Proof. intros Hr Htk. destruct (vault_reachable_sound self _ _ Hr) as [_ Hb]. by apply Hb. Qed.

(** C15: in every reachable world that has shares and whose recorded assets are
    not negative (losses reported by harvests can make them so, and nothing is
    claimed then), a deposit, a withdrawal of any kind, a queued request, or any
    other call that is neither a harvest nor a governance withdrawal never lowers
    the assets per share of the holders that were there before. *)
Theorem vault_price_fair t w c e w' :
  reachable self t w → wf_env self e → call_ok c → ordinary c = true →
  0 ≤ assets (store w) → 0 < supply (store w) → exec c e w = Ok (tt, w') →
  assets (store w) * supply (store w') ≤ assets (store w') * supply (store w).
Proof.
  intros Hreach Hwf Hok Hord HA HS Hr. pose proof (vault_reachable_sound self _ _ Hreach) as [Hi _].
  destruct c; try done; cbn [exec] in Hr; try (apply discard_Ok in Hr; destruct Hr as [r Hr]).
  - apply initialize_fresh in Hr. destruct (iv_admin _ Hi). congruence.
  - apply vault_deposit_spec in Hr as (_ & Hn & -> & tk & _ & _ & ->). unfold assets, supply in *. cbn.
    unfold assets, supply in *. destruct (Z.eq_dec (default 0 (TotalAssets (store w))) 0) as [->|]; [nia|].
    pose proof (minted_le amount (default 0 (TotalAssets (store w))) (default 0 (TotalSupply (store w)))). nia.
  - apply vault_withdraw_spec in Hr as (_ & Hn & _ & _ & _ & tk & _ & _ & ->).
    pose proof (redeemed_le shares (assets (store w)) (supply (store w))). unfold assets, supply in *. cbn.
    unfold assets, supply in *. nia.
  - apply vault_emergency_withdraw_spec in Hr as (_ & Hn & _ & _ & -> & tk & _ & _ & ->).
    match goal with |- context [redeemed ?n _ _] => pose proof (redeemed_le n (assets (store w)) (supply (store w))) end.
    unfold assets, supply in *. cbn. unfold assets, supply in *. nia.
  - unfold pause, is_paused_fn in Hr. minv Hr. spec vault_assert_admin_spec as [_ ->]. done.
  - unfold unpause, is_paused_fn in Hr. minv Hr. spec vault_assert_admin_spec as [_ ->]. done.
  - unfold set_performance_fee in Hr. minv Hr. spec vault_assert_admin_spec as [_ ->]. done.
  - apply withdraw_fees_spec in Hr as (_ & _ & tk & _ & _ & ->). done.
  - unfold add_strategy, strategy_ids, set_strategy, set_strategy_alloc, strategy_counter in Hr. minv Hr.
    spec vault_assert_admin_spec as [_ ->]. done.
  - unfold remove_strategy, set_strategy, set_strategy_alloc in Hr. minv Hr.
    spec vault_assert_admin_spec as [_ ->]. spec load_strategy_spec as [_ ->]. done.
  - unfold set_strategy_allocation, strategy_alloc_bps, set_strategy_alloc, total_assets,
      set_strategy in Hr. minv Hr. spec vault_assert_admin_spec as [_ ->].
    spec load_strategy_spec as [_ ->]. spec total_allocation_spec as [_ ->]. done.
  - unfold migrate_strategy, set_strategy in Hr. minv Hr. spec vault_assert_admin_spec as [_ ->].
    spec load_strategy_spec as [_ ->]. spec load_strategy_spec as [_ ->]. done.
  - unfold emergency_strategy_withdrawal, set_strategy in Hr. minv Hr; spec vault_assert_admin_spec as [_ ->];
      spec load_strategy_spec as [_ ->]; done.
  - apply queue_spec in Hr as (_ & _ & _ & _ & _ & ->). done.
  - apply vault_process_spec in Hr as (q & tk & Hq & _ & _ & _ & -> & _ & _ & ->).
    destruct (sh_queue _ _ _ _ _ (iv_shares _ Hi) _ _ Hq) as (_ & _ & Hpos).
    pose proof (redeemed_le (wq_shares q) (assets (store w)) (supply (store w))).
    unfold assets, supply in *. cbn. unfold assets, supply in *. nia.
Qed.

(** Withdrawing exactly the shares a deposit minted, before anything else
    happens, pays at most what was deposited: rounding never favours the
    depositor (unless assets were left behind by the last holder). *)
Theorem deposit_withdraw_roundtrip t w user amount n e1 e2 w1 net w2 :
  reachable self t w → 0 < supply (store w) ∨ assets (store w) ≤ 0 →
  deposit user amount e1 w = Ok (n, w1) → withdraw user n e2 w1 = Ok (net, w2) →
  net ≤ amount.
Proof.
  intros Hreach Hcase Hd Hw. pose proof (vault_reachable_sound self _ _ Hreach) as [Hi _].
  pose proof (supply_nonneg _ Hi) as HS.
  apply vault_deposit_spec in Hd as (_ & Hpos & -> & tk & _ & _ & Hst).
  apply vault_withdraw_spec in Hw as (_ & Hn & HS1 & _ & Heq & _).
  assert (supply (store w1) = supply (store w) + minted amount (assets (store w)) (supply (store w))) as E1
    by (by rewrite Hst).
  assert (assets (store w1) = assets (store w) + amount) as E2 by (by rewrite Hst).
  assert (assets (store w1) ≤ hwm (store w1)) as Hmark.
  { rewrite E2, Hst. unfold hwm at 1. cbn. destruct (_ >? _) eqn:E; cbn; zbool; [lia|]. exact E. }
  pose proof (withdraw_fee_mark _ Hmark) as Hfee.
  rewrite Hfee, E1, E2 in Heq. rewrite E1 in HS1.
  pose proof (mint_redeem_le amount (assets (store w)) (supply (store w)) Hpos HS Hcase HS1). lia.
Qed.

(** In every reachable world [withdraw] pays exactly what [preview_withdraw]
    announces and collects no performance fee: the assets never exceed the
    high-water mark, so the fee branch of [withdraw] is dead. *)
Theorem withdraw_pays_preview t w user n e net w' :
  reachable self t w → wf_env self e → withdraw user n e w = Ok (net, w') →
  assets (store w) ≤ hwm (store w) ∧
  preview_withdraw n e w = Ok (net, w) ∧ fees (store w') = fees (store w) ∧
  ∀ tk, Token (store w) = Some tk →
    tok_balance (ledger w') tk user = tok_balance (ledger w) tk user + net.
Proof.
  intros Hreach Hwf Hr. pose proof (vault_reachable_sound self _ _ Hreach) as [Hi _].
  pose proof (withdraw_runs_preview _ _ _ _ _ _ Hr) as Hpre.
  apply vault_withdraw_spec in Hr as (Hauth & Hn & _ & _ & Heq & tk & Htk & Ht & Hst).
  pose proof (withdraw_fee_zero _ Hi) as Hfee. rewrite Hfee in Heq, Hst. rewrite Z.sub_0_r in Heq. subst net.
  split_and!; [apply Hi|done|by rewrite Hst|]. intros tk' Htk'. simplify_eq.
  rewrite (wf_self _ _ Hwf) in Ht. apply transfer_moved in Ht. rewrite Ht.
  assert (user ≠ self) by eauto with contracts. repeat case_bool_decide; naive_solver lia.
Qed.

(** In every reachable world the total allocation is computed without
    error and never exceeds 100%. *)
Theorem vault_allocations_bounded t w e :
  reachable self t w →
  ∃ n, get_total_allocation_bps e w = Ok (n, w) ∧ 0 ≤ n ≤ BPS_DENOMINATOR.
Proof.
  intros Hreach. pose proof (vault_reachable_sound self _ _ Hreach) as [Hi _].
  pose proof (iv_strategies _ Hi) as Hs. pose proof (so_total _ _ _ Hs) as Htot.
  exists (lsum (allocation (Strategy (store w)) (StrategyAllocBps (store w))) (default [] (StrategyIds (store w)))).
  split; [|split; [apply lsum_nonneg; intros i _; by eapply allocation_nonneg|done]].
  unfold get_total_allocation_bps, total_allocation_bps, strategy_ids.
  rewrite (bind_run _ _ _ _ (default [] (StrategyIds (store w))) w) by done.
  eapply total_allocation_runs; [done| |lia|done|lia].
  intros i Hin. by apply (so_ids _ _ _ Hs).
Qed.

(** [harvest_strategy] asks for no signature: a report that is accepted in
    one environment is accepted with the same result in every environment of
    the same time, whoever has signed, and it moves the vault's recorded assets
    by the reported gain or loss (less the fee) although no token has moved. *)
Theorem harvest_unauthenticated w i r e h w' :
  harvest_strategy i r e w = Ok (h, w') →
  (∀ e', timestamp e' = timestamp e → harvest_strategy i r e' w = Ok (h, w')) ∧
  ledger w' = ledger w ∧ supply (store w') = supply (store w) ∧
  ∃ c, Strategy (store w) !! i = Some c ∧ sc_is_active c = true ∧
    assets (store w') = assets (store w) + (harvest_gain c r - harvest_fee (store w) c r)
                        - harvest_loss c r.
Proof.
  intros Hr. split.
  - intros e' Ht. rewrite <- Hr. by apply harvest_time_only.
  - apply harvest_spec in Hr as (c & Hc & Ha & Hl & _ & Hst). rewrite Hst, Hl. split_and!; try done.
    exists c. done.
Qed.
End theorems.

(** Migrating a strategy to itself doubles its recorded allocation: the target
    is read before the source is cleared. *)
Lemma migrate_self_doubles `{TokenHost} adm i e (w : World State Event) u w' :
  migrate_strategy adm i i e w = Ok (u, w') →
  ∃ c c', Strategy (store w) !! i = Some c ∧ Strategy (store w') !! i = Some c' ∧
    0 < sc_allocated_assets c ∧ sc_allocated_assets c' = 2 * sc_allocated_assets c.
Proof.
  intros Hr. unfold migrate_strategy, set_strategy in Hr. minv Hr. spec vault_assert_admin_spec as [_ ->].
  apply load_strategy_spec in Hr2 as [Hi ->]. apply load_strategy_spec in Hr4 as [Hj ->]. inv_checked. zbool.
  eexists _, _. cbn. rewrite lookup_insert_eq. split_and!; try done. cbn. lia.
Qed.

(** ** A concrete history *)

Module VaultDemo.

Definition self := mkAddress "VAULT".
Definition adm := mkAddress "ADM".
Definition alice := mkAddress "ALICE".
Definition bob := mkAddress "BOB".
Definition tk := mkAddress "USD".

Definition w0 : World State Event := mkWorld deployed (sl_of [(tk, alice, 10000); (tk, bob, 10000)]) [].
Definition e0 := env_at 10 self [adm].
Definition w1 := world_of (initialize adm tk e0 w0) w0.

Definition history : list (Z * list Address * Call) :=
  [ (11, [alice], CDeposit alice 4000);
    (12, [adm], CAddStrategy adm "lend" (mkAddress "LEND"));
    (13, [adm], CSetStrategyAllocation adm "lend" 5000);
    (14, [], CHarvestStrategy "lend" 2500);
    (15, [bob], CDeposit bob 3000);
    (16, [alice], CQueueWithdrawal alice 1000);
    (17, [bob], CWithdraw bob 500) ].
Definition w2 := run_script exec self history w1.

Lemma vault_demo_reachable : reachable self 17 w2.
Proof.
  exists e0, w1. split.
  - exists w0, adm, tk. split_and!.
    + apply env_at_wf. reflexivity.
    + reflexivity.
    + intros tk'. apply sl_of_nonneg. reflexivity.
    + unfold w1. apply run_ok_unit. vm_compute. reflexivity.
  - unfold w2. apply (run_script_reach exec call_ok self 10 history w1); [vm_compute; reflexivity|].
    repeat constructor; cbn; lia.
Qed.

Lemma vault_shares_conserved_witness :
  queued (QueueItem (store w2)) = 1000 ∧
  supply (store w2) = held (UserDeposit (store w2)) + queued (QueueItem (store w2)).
Proof.
  split; [vm_compute; reflexivity|].
  exact (sh_supply _ _ _ _ _ (vault_shares_conserved self 17 w2 vault_demo_reachable)).
Defined.

Lemma vault_backed_witness :
  reported (Strategy (store w2)) = 500 ∧
  assets (store w2) + fees (store w2) ≤ tok_balance (ledger w2) tk self + reported (Strategy (store w2)).
Proof.
  split; [vm_compute; reflexivity|].
  apply (vault_backed self 17 w2 tk vault_demo_reachable). vm_compute. reflexivity.
Defined.

(** Anyone may report a loss larger than what the vault has: the recorded assets
    become negative, and nobody can withdraw. *)
Definition w_loss := world_of (exec (CHarvestStrategy "lend" (-10000)) (env_at 20 self []) w2) w2.
Example harvest_below_zero :
  is_ok (exec (CHarvestStrategy "lend" (-10000)) (env_at 20 self []) w2) = true ∧ assets (store w_loss) < 0 ∧
  is_ok (exec (CWithdraw bob 100) (env_at 20 self [bob]) w2) = true ∧
  is_ok (exec (CWithdraw bob 100) (env_at 20 self [bob]) w_loss) = false.
Proof. vm_compute. split_and!; reflexivity. Qed.

Definition e3 := env_at 20 self [bob].
Definition w3 := world_of (exec (CDeposit bob 777) e3 w2) w2.

Lemma vault_price_fair_witness :
  assets (store w2) * supply (store w3) ≤ assets (store w3) * supply (store w2).
Proof.
  apply (vault_price_fair self 17 w2 (CDeposit bob 777) e3 w3 vault_demo_reachable).
  - apply env_at_wf. reflexivity.
  - exact I.
  - reflexivity.
  - vm_compute. discriminate.
  - vm_compute. reflexivity.
  - unfold w3. apply run_ok_unit. vm_compute. reflexivity.
Defined.

Definition w4 := world_of (deposit bob 777 e3 w2) w2.
Definition w5 := world_of (withdraw bob 706 e3 w4) w4.

Lemma deposit_withdraw_roundtrip_witness :
  deposit bob 777 e3 w2 = Ok (706, w4) ∧ withdraw bob 706 e3 w4 = Ok (776, w5) ∧ 776 ≤ 777.
Proof.
  assert (deposit bob 777 e3 w2 = Ok (706, w4)) as Hd.
  { unfold w4. apply (run_ok_val _ _ 0); vm_compute; reflexivity. }
  assert (withdraw bob 706 e3 w4 = Ok (776, w5)) as Hw.
  { unfold w5. apply (run_ok_val _ _ 0); vm_compute; reflexivity. }
  split; [exact Hd|split; [exact Hw|]].
  refine (deposit_withdraw_roundtrip self 17 w2 bob 777 706 e3 e3 w4 776 w5 vault_demo_reachable _ Hd Hw).
  left. vm_compute. reflexivity.
Defined.

Definition e6 := env_at 20 self [alice].
Definition w6 := world_of (withdraw alice 1000 e6 w2) w2.

Lemma withdraw_pays_preview_witness : preview_withdraw 1000 e6 w2 = Ok (1100, w2).
Proof.
  apply (withdraw_pays_preview self 17 w2 alice 1000 e6 1100 w6 vault_demo_reachable).
  - apply env_at_wf. reflexivity.
  - unfold w6. apply (run_ok_val _ _ 0); vm_compute; reflexivity.
Defined.

Lemma vault_allocations_bounded_witness :
  ∃ n, get_total_allocation_bps e6 w2 = Ok (n, w2) ∧ 0 ≤ n ≤ BPS_DENOMINATOR.
Proof. exact (vault_allocations_bounded self 17 w2 e6 vault_demo_reachable). Defined.

Definition nobody := env_at 20 self [].
Definition h7 := mkHarvestResult "lend" 7500 1500 12850 12850.
Definition w7 := world_of (harvest_strategy "lend" 10000 nobody w2) w2.

Lemma harvest_unauthenticated_witness :
  value_of (harvest_strategy "lend" 10000 nobody w2) h7 = h7 ∧
  ledger w7 = ledger w2 ∧ supply (store w7) = supply (store w2).
Proof.
  split; [vm_compute; reflexivity|].
  destruct (harvest_unauthenticated w2 "lend" 10000 nobody h7 w7) as (_ & Hl & Hs & _).
  - unfold w7. apply (run_ok_val _ _ h7); vm_compute; reflexivity.
  - exact (conj Hl Hs).
Defined.

(** A report nobody signed, then a withdrawal: Alice takes almost twice what her
    shares were worth, out of Bob's deposit. *)
Definition attack : list (Z * list Address * Call) :=
  [ (18, [], CHarvestStrategy "lend" 10000);
    (19, [alice], CWithdraw alice 2500) ].

Example reported_gain_is_withdrawn :
  script_ok exec self 17 attack w2 = true ∧
  tok_balance (ledger (run_script exec self attack w2)) tk alice
    - tok_balance (ledger w2) tk alice = 5158 ∧
  value_of (preview_withdraw 2500 nobody w2) 0 = 2750.
Proof. split_and!; vm_compute; reflexivity. Qed.
End VaultDemo.
