(* ===== verification/Governance.v ===== *)
(** * contracts/governance: proposals, votes, delegation and vote-escrow locks

    State and operations of [GovernanceContract]
    (src/contracts/governance/src/contract.rs, types.rs, utils.rs, errors.rs,
    storage_keys.rs).  Voting windows are measured in ledger sequence numbers,
    the timelock and the locks in ledger time. *)

From stdpp Require Import gmap strings list fin_maps.
From Stdlib Require Import Init.Byte.
From S2P Require Import Prelude Soroban.
Open Scope Z_scope.

(** ** Data *)

Inductive ProposalState :=
  Pending | Active | Canceled | Defeated | Succeeded | Queued | Expired | Executed.
#[global] Instance ProposalState_eq_dec : EqDecision ProposalState.
Proof. solve_decision. Defined.

Inductive VoteType := Against | For | Abstain.
#[global] Instance VoteType_eq_dec : EqDecision VoteType.
Proof. solve_decision. Defined.

Inductive ProposalAction := Transfer (token to : Address) (amount : Z).

(** The codes of [GovernanceError]; the contract panics with the number. *)
Inductive GovernanceError :=
| AlreadyInitialized | Unauthorized | ProposalNotFound | ProposalAlreadyExecuted
| ProposalNotActive | VotingPeriodNotEnded | VotingPeriodEnded | AlreadyVoted
| InsufficientVotingPower | QuorumNotMet | ThresholdNotMet | TimelockNotExpired
| InvalidProposalState | InvalidInput | ProposalCancelled | DelegationToSelf
| AlreadyDelegated | CannotCancelExecuted | InvalidVoteType | InsufficientBalance
| TimelockAlreadyQueued | ProposalNotQueued | LockAlreadyExists | LockNotExpired
| NoLockFound | LockAmountZero | InvalidLockDuration.

Definition error_code (x : GovernanceError) : string :=
  match x with
  | AlreadyInitialized => "1" | Unauthorized => "2" | ProposalNotFound => "3"
  | ProposalAlreadyExecuted => "4" | ProposalNotActive => "5" | VotingPeriodNotEnded => "6"
  | VotingPeriodEnded => "7" | AlreadyVoted => "8" | InsufficientVotingPower => "9"
  | QuorumNotMet => "10" | ThresholdNotMet => "11" | TimelockNotExpired => "12"
  | InvalidProposalState => "13" | InvalidInput => "14" | ProposalCancelled => "15"
  | DelegationToSelf => "16" | AlreadyDelegated => "17" | CannotCancelExecuted => "18"
  | InvalidVoteType => "19" | InsufficientBalance => "20" | TimelockAlreadyQueued => "21"
  | ProposalNotQueued => "22" | LockAlreadyExists => "23" | LockNotExpired => "24"
  | NoLockFound => "25" | LockAmountZero => "26" | InvalidLockDuration => "27"
  end.

Record Proposal := mkProposal {
  pr_id : Z;
  pr_proposer : Address;
  pr_description : string;
  pr_targets : list Address;
  pr_functions : list string;
  pr_calldatas : list (list byte);
  pr_vote_start : Z;
  pr_vote_end : Z;
  pr_eta : Z;
  pr_for_votes : Z;
  pr_against_votes : Z;
  pr_abstain_votes : Z;
  pr_actions : list ProposalAction;
  pr_canceled : bool;
  pr_executed : bool;
  pr_created_at : Z;
}.

Record ProposalVote := mkProposalVote {
  pv_has_voted : bool;
  pv_vote_type : VoteType;
  pv_weight : Z;
}.

Record Delegation := mkDelegation {
  dl_delegator : Address;
  dl_delegatee : Address;
  dl_amount : Z;
  dl_timestamp : Z;
}.

Record VeTokenLock := mkVeTokenLock {
  ve_account : Address;
  ve_amount : Z;
  ve_lock_end : Z;
  ve_created_at : Z;
}.

Record GovernanceSettings := mkGovernanceSettings {
  gs_admin : Address;
  gs_voting_token : Address;
  gs_voting_delay : Z;
  gs_voting_period : Z;
  gs_timelock_delay : Z;
  gs_quorum : Z;
  gs_approval_threshold : Z;
  gs_proposal_threshold : Z;
}.

(** One field per key of [DataKey]; [None] and absence are the unset key. *)
Record State := mkState {
  Admin : option Address;
  VotingToken : option Address;
  ProposalCount : option Z;
  VotingDelay : option Z;
  VotingPeriod : option Z;
  TimelockDelay : option Z;
  Quorum : option Z;
  ApprovalThreshold : option Z;
  ProposalThreshold : option Z;
  TotalSupply : option Z;
  ProposalAt : gmap Z Proposal;
  Vote : gmap (Z * Address) ProposalVote;
  DelegationOf : gmap Address Delegation;
  DelegatedPower : gmap Address Z;
  VeLock : gmap Address VeTokenLock;
}.

Inductive Event :=
| contract_initialized (admin token : Address) (t : Z)
| proposal_created (id : Z) (proposer : Address) (vote_start vote_end : Z)
| vote_cast (id : Z) (voter : Address) (vote_type : VoteType) (power : Z)
| proposal_queued (id eta t : Z)
| proposal_executed (id : Z) (caller : Address) (t : Z)
| proposal_canceled (id : Z) (caller : Address) (t : Z)
| delegation_created (delegator delegatee : Address) (amount t : Z)
| delegation_revoked (delegator : Address) (t : Z)
| tokens_locked (account : Address) (amount duration t : Z)
| tokens_withdrawn (account : Address) (amount t : Z)
| params_updated (t : Z).

Ltac mred v ::= eval cbn [store ledger log Admin VotingToken ProposalCount VotingDelay VotingPeriod
  TimelockDelay Quorum ApprovalThreshold ProposalThreshold TotalSupply ProposalAt Vote DelegationOf
  DelegatedPower VeLock pr_id pr_proposer pr_description pr_targets pr_functions pr_calldatas
  pr_vote_start pr_vote_end pr_eta pr_for_votes pr_against_votes pr_abstain_votes pr_actions
  pr_canceled pr_executed pr_created_at pv_has_voted pv_vote_type pv_weight dl_delegator
  dl_delegatee dl_amount dl_timestamp ve_account ve_amount ve_lock_end ve_created_at] in v.

Definition MAX_LOCK_DURATION : Z := 4 * 365 * 24 * 60 * 60.
Definition MIN_LOCK_DURATION : Z := 7 * 24 * 60 * 60.

Section contract.
Context `{TokenHost}.

Local Abbreviation C := (M State Empty_set Event).

(** ** utils.rs *)

Definition safe_add (a b : Z) : C Z := expect (checked_add I128 a b) "Overflow in addition".
Definition safe_sub (a b : Z) : C Z := expect (checked_sub I128 a b) "Underflow in subtraction".
Definition calculate_bps (amount bps : Z) : C Z :=
  p ← plain_mul I128 amount bps;
  mret (p `quot` 10000).
Definition get_timestamp : C Z := now.
Definition get_block_number : C Z := ledger_sequence.

(** ** Internal functions *)

Definition unwrap {A} (o : option A) : C A :=
  expect o "called `Option::unwrap()` on a `None` value".

Definition get_proposal_from_storage (proposal_id : Z) : C Proposal :=
  o ← gets (λ s, ProposalAt s !! proposal_id);
  expect o (error_code ProposalNotFound).
Definition set_proposal (proposal_id : Z) (proposal : Proposal) : C () :=
  modify (λ s, {| s with ProposalAt := <[proposal_id := proposal]> (ProposalAt s) |}).

Definition quorum_reached (proposal : Proposal) : C bool :=
  v ← plain_add I128 (pr_for_votes proposal) (pr_against_votes proposal);
  total_votes ← plain_add I128 v (pr_abstain_votes proposal);
  total_supply ← gets (λ s, default 0 (TotalSupply s));
  o ← gets Quorum;
  quorum ← unwrap o;
  if total_supply =? 0 then mret false
  else
    a ← plain_mul I128 total_votes 10000;
    b ← plain_mul I128 total_supply quorum;
    mret (a >=? b).

Definition threshold_reached (proposal : Proposal) : C bool :=
  total_votes_cast ← plain_add I128 (pr_for_votes proposal) (pr_against_votes proposal);
  if total_votes_cast =? 0 then mret false
  else
    o ← gets ApprovalThreshold;
    threshold ← unwrap o;
    a ← plain_mul I128 (pr_for_votes proposal) 10000;
    b ← plain_mul I128 total_votes_cast threshold;
    mret (a >=? b).

(** The grace period after [eta]: 14 days. *)
Definition grace_period : Z := 14 * 24 * 60 * 60.

Definition state (proposal : Proposal) : C ProposalState :=
  if pr_canceled proposal then mret Canceled
  else
    current_block ← ledger_sequence;
    if current_block <? pr_vote_start proposal then mret Pending
    else if current_block <=? pr_vote_end proposal then mret Active
    else
      q ← quorum_reached proposal;
      passed ← (if negb q then mret false else threshold_reached proposal);
      if negb passed then mret Defeated
      else if pr_executed proposal then mret Executed
      else if pr_eta proposal =? 0 then mret Succeeded
      else
        t ← now;
        last ← plain_add U64 (pr_eta proposal) grace_period;
        if (t >? last) && negb (pr_executed proposal) then mret Expired
        else mret Queued.

Definition get_delegated_power (account : Address) : C Z :=
  gets (λ s, default 0 (DelegatedPower s !! account)).

Definition calculate_ve_balance (account : Address) : C Z :=
  o ← gets (λ s, VeLock s !! account);
  match o with
  | None => mret 0
  | Some lock =>
      t ← now;
      if t >=? ve_lock_end lock then mret 0
      else
        remaining ← plain_sub U64 (ve_lock_end lock) t;
        total_duration ← plain_sub U64 (ve_lock_end lock) (ve_created_at lock);
        if total_duration =? 0 then mret 0
        else
          p ← plain_mul I128 (ve_amount lock) remaining;
          plain_div I128 p total_duration
  end.

Definition get_token_balance (account : Address) : C Z :=
  o ← gets VotingToken;
  voting_token ← unwrap o;
  token_balance voting_token account.

Definition get_voting_power (account : Address) : C Z :=
  token_balance ← get_token_balance account;
  ve_balance ← calculate_ve_balance account;
  delegated_power ← get_delegated_power account;
  a ← safe_add token_balance ve_balance;
  safe_add a delegated_power.

(** ** Entry points *)

Definition initialize (admin voting_token : Address) (voting_delay voting_period timelock_delay
    quorum approval_threshold proposal_threshold total_supply : Z) : C () :=
  has ← gets Admin;
  panic_if (bool_decide (is_Some has)) (error_code AlreadyInitialized);;
  require_auth admin;;
  modify (λ s, {| s with Admin := Some admin |});;
  modify (λ s, {| s with VotingToken := Some voting_token |});;
  modify (λ s, {| s with VotingDelay := Some voting_delay |});;
  modify (λ s, {| s with VotingPeriod := Some voting_period |});;
  modify (λ s, {| s with TimelockDelay := Some timelock_delay |});;
  modify (λ s, {| s with Quorum := Some quorum |});;
  modify (λ s, {| s with ApprovalThreshold := Some approval_threshold |});;
  modify (λ s, {| s with ProposalThreshold := Some proposal_threshold |});;
  modify (λ s, {| s with ProposalCount := Some 0 |});;
  modify (λ s, {| s with TotalSupply := Some total_supply |});;
  t ← now;
  publish (contract_initialized admin voting_token t).

(** *** Proposals *)

Definition propose (proposer : Address) (description : string) (targets : list Address)
    (functions : list string) (calldatas : list (list byte)) (actions : list ProposalAction) : C Z :=
  require_auth proposer;;
  voting_power ← get_voting_power proposer;
  o ← gets ProposalThreshold;
  proposal_threshold ← unwrap o;
  panic_if (voting_power <? proposal_threshold) (error_code InsufficientVotingPower);;
  panic_if (negb (bool_decide (actions = []))
            && (negb (Nat.eqb (length targets) (length functions))
                || negb (Nat.eqb (length targets) (length calldatas)))) (error_code InvalidInput);;
  od ← gets VotingDelay;
  voting_delay ← unwrap od;
  op ← gets VotingPeriod;
  voting_period ← unwrap op;
  current_block ← ledger_sequence;
  vote_start ← plain_add U64 current_block voting_delay;
  vote_end ← plain_add U64 vote_start voting_period;
  proposal_id ← gets (λ s, default 0 (ProposalCount s));
  proposal_count ← plain_add U64 proposal_id 1;
  modify (λ s, {| s with ProposalCount := Some proposal_count |});;
  t ← now;
  set_proposal proposal_id (mkProposal proposal_id proposer description targets functions calldatas
    vote_start vote_end 0 0 0 0 actions false false t);;
  publish (proposal_created proposal_id proposer vote_start vote_end);;
  mret proposal_id.

(** The tally with [power] added on the side voted for. *)
Definition add_vote (proposal : Proposal) (vote_type : VoteType) (power : Z) : C Proposal :=
  match vote_type with
  | For => n ← safe_add (pr_for_votes proposal) power; mret {| proposal with pr_for_votes := n |}
  | Against =>
      n ← safe_add (pr_against_votes proposal) power; mret {| proposal with pr_against_votes := n |}
  | Abstain =>
      n ← safe_add (pr_abstain_votes proposal) power; mret {| proposal with pr_abstain_votes := n |}
  end.

Definition cast_vote (voter : Address) (proposal_id : Z) (vote_type : VoteType) : C () :=
  require_auth voter;;
  proposal ← get_proposal_from_storage proposal_id;
  current_state ← state proposal;
  panic_if (bool_decide (current_state ≠ Active)) (error_code ProposalNotActive);;
  o ← gets (λ s, Vote s !! (proposal_id, voter));
  panic_if (bool_decide (is_Some o)) (error_code AlreadyVoted);;
  voting_power ← get_voting_power voter;
  proposal' ← add_vote proposal vote_type voting_power;
  modify (λ s, {| s with Vote := <[(proposal_id, voter) :=
    mkProposalVote true vote_type voting_power]> (Vote s) |});;
  set_proposal proposal_id proposal';;
  publish (vote_cast proposal_id voter vote_type voting_power).

Definition queue (caller : Address) (proposal_id : Z) : C () :=
  require_auth caller;;
  proposal ← get_proposal_from_storage proposal_id;
  current_state ← state proposal;
  panic_if (bool_decide (current_state ≠ Succeeded)) (error_code InvalidProposalState);;
  o ← gets TimelockDelay;
  timelock_delay ← unwrap o;
  t ← now;
  eta ← plain_add U64 t timelock_delay;
  set_proposal proposal_id {| proposal with pr_eta := eta |};;
  publish (proposal_queued proposal_id eta t).

Definition execute_action (_ : ()) (action : ProposalAction) : C () :=
  match action with
  | Transfer token to amount =>
      gov_addr ← self_address;
      token_transfer token gov_addr to amount
  end.

Definition execute (caller : Address) (proposal_id : Z) : C () :=
  require_auth caller;;
  proposal ← get_proposal_from_storage proposal_id;
  current_state ← state proposal;
  panic_if (bool_decide (current_state ≠ Queued)) (error_code ProposalNotQueued);;
  t ← now;
  panic_if (t <? pr_eta proposal) (error_code TimelockNotExpired);;
  foldM execute_action tt (pr_actions proposal);;
  set_proposal proposal_id {| proposal with pr_executed := true |};;
  publish (proposal_executed proposal_id caller t).

Definition cancel (caller : Address) (proposal_id : Z) : C () :=
  require_auth caller;;
  proposal ← get_proposal_from_storage proposal_id;
  panic_if (pr_executed proposal) (error_code CannotCancelExecuted);;
  o ← gets Admin;
  admin ← unwrap o;
  panic_if (bool_decide (caller ≠ pr_proposer proposal) && bool_decide (caller ≠ admin))
    (error_code Unauthorized);;
  set_proposal proposal_id {| proposal with pr_canceled := true |};;
  t ← now;
  publish (proposal_canceled proposal_id caller t).

(** *** Delegation *)

Definition delegate (delegator delegatee : Address) (amount : Z) : C () :=
  require_auth delegator;;
  panic_if (bool_decide (delegator = delegatee)) (error_code DelegationToSelf);;
  o ← gets (λ s, DelegationOf s !! delegator);
  panic_if (bool_decide (is_Some o)) (error_code AlreadyDelegated);;
  balance ← get_token_balance delegator;
  panic_if (balance <? amount) (error_code InsufficientBalance);;
  t ← now;
  modify (λ s, {| s with DelegationOf := <[delegator := mkDelegation delegator delegatee amount t]>
    (DelegationOf s) |});;
  current_delegated ← get_delegated_power delegatee;
  new_delegated ← safe_add current_delegated amount;
  modify (λ s, {| s with DelegatedPower := <[delegatee := new_delegated]> (DelegatedPower s) |});;
  publish (delegation_created delegator delegatee amount t).

Definition revoke_delegation (delegator : Address) : C () :=
  require_auth delegator;;
  o ← gets (λ s, DelegationOf s !! delegator);
  delegation ← expect o (error_code ProposalNotFound);
  modify (λ s, {| s with DelegationOf := delete delegator (DelegationOf s) |});;
  current_delegated ← get_delegated_power (dl_delegatee delegation);
  new_delegated ← plain_sub I128 current_delegated (dl_amount delegation);
  modify (λ s, {| s with DelegatedPower :=
    <[dl_delegatee delegation := new_delegated]> (DelegatedPower s) |});;
  t ← now;
  publish (delegation_revoked delegator t).

(** *** Vote-escrow locks *)

Definition lock_tokens (account : Address) (amount lock_duration : Z) : C () :=
  require_auth account;;
  panic_if (amount <=? 0) (error_code LockAmountZero);;
  panic_if (negb ((MIN_LOCK_DURATION <=? lock_duration) && (lock_duration <=? MAX_LOCK_DURATION)))
    (error_code InvalidLockDuration);;
  o ← gets (λ s, VeLock s !! account);
  panic_if (bool_decide (is_Some o)) (error_code LockAlreadyExists);;
  balance ← get_token_balance account;
  panic_if (balance <? amount) (error_code InsufficientBalance);;
  t ← now;
  lock_end ← plain_add U64 t lock_duration;
  modify (λ s, {| s with VeLock := <[account := mkVeTokenLock account amount lock_end t]> (VeLock s) |});;
  publish (tokens_locked account amount lock_duration t).

Definition withdraw_tokens (account : Address) : C () :=
  require_auth account;;
  o ← gets (λ s, VeLock s !! account);
  lock ← expect o (error_code NoLockFound);
  t ← now;
  panic_if (t <? ve_lock_end lock) (error_code LockNotExpired);;
  modify (λ s, {| s with VeLock := delete account (VeLock s) |});;
  publish (tokens_withdrawn account (ve_amount lock) t).

(** *** Administration *)

(** [if let Some(x) = new { set(key, x) }]. *)
Definition set_if {A} (new : option A) (write : A → State → State) : C () :=
  match new with Some x => modify (write x) | None => mret tt end.

Definition set_voting_params (admin : Address) (voting_delay voting_period timelock_delay quorum
    approval_threshold : option Z) : C () :=
  require_auth admin;;
  o ← gets Admin;
  stored_admin ← unwrap o;
  panic_if (bool_decide (admin ≠ stored_admin)) (error_code Unauthorized);;
  set_if voting_delay (λ x s, {| s with VotingDelay := Some x |});;
  set_if voting_period (λ x s, {| s with VotingPeriod := Some x |});;
  set_if timelock_delay (λ x s, {| s with TimelockDelay := Some x |});;
  set_if quorum (λ x s, {| s with Quorum := Some x |});;
  set_if approval_threshold (λ x s, {| s with ApprovalThreshold := Some x |});;
  t ← now;
  publish (params_updated t).

(** ** Queries *)

Definition get_proposal (proposal_id : Z) : C Proposal := get_proposal_from_storage proposal_id.

Definition get_proposal_state (proposal_id : Z) : C ProposalState :=
  proposal ← get_proposal_from_storage proposal_id;
  state proposal.

Definition get_proposal_results (proposal_id : Z) : C (Z * Z * Z * ProposalState) :=
  proposal ← get_proposal_from_storage proposal_id;
  s ← state proposal;
  mret (pr_for_votes proposal, pr_against_votes proposal, pr_abstain_votes proposal, s).

Definition get_proposal_ids : C (list Z) :=
  count ← gets (λ s, default 0 (ProposalCount s));
  foldM (λ ids i, mret (ids ++ [i])) [] (seqZ 0 count).

Definition get_vote_info (proposal_id : Z) (voter : Address) : C (option ProposalVote) :=
  gets (λ s, Vote s !! (proposal_id, voter)).
Definition get_delegation_info (delegator : Address) : C (option Delegation) :=
  gets (λ s, DelegationOf s !! delegator).
Definition get_ve_lock (account : Address) : C (option VeTokenLock) :=
  gets (λ s, VeLock s !! account).
Definition get_voting_power_view (account : Address) : C Z := get_voting_power account.

Definition get_settings : C GovernanceSettings :=
  o1 ← gets Admin; admin ← unwrap o1;
  o2 ← gets VotingToken; voting_token ← unwrap o2;
  o3 ← gets VotingDelay; voting_delay ← unwrap o3;
  o4 ← gets VotingPeriod; voting_period ← unwrap o4;
  o5 ← gets TimelockDelay; timelock_delay ← unwrap o5;
  o6 ← gets Quorum; quorum ← unwrap o6;
  o7 ← gets ApprovalThreshold; approval_threshold ← unwrap o7;
  o8 ← gets ProposalThreshold; proposal_threshold ← unwrap o8;
  mret (mkGovernanceSettings admin voting_token voting_delay voting_period timelock_delay quorum
    approval_threshold proposal_threshold).

End contract.

(** ** Entry points as calls *)

Inductive Call :=
| CInitialize (admin voting_token : Address) (delay period timelock quorum approval threshold supply : Z)
| CPropose (proposer : Address) (description : string) (targets : list Address)
    (functions : list string) (calldatas : list (list byte)) (actions : list ProposalAction)
| CCastVote (voter : Address) (proposal_id : Z) (vote_type : VoteType)
| CQueue (caller : Address) (proposal_id : Z)
| CExecute (caller : Address) (proposal_id : Z)
| CCancel (caller : Address) (proposal_id : Z)
| CDelegate (delegator delegatee : Address) (amount : Z)
| CRevokeDelegation (delegator : Address)
| CLockTokens (account : Address) (amount duration : Z)
| CWithdrawTokens (account : Address)
| CSetVotingParams (admin : Address) (delay period timelock quorum approval : option Z).

Section calls.
Context `{TokenHost}.

Definition exec (c : Call) : M State Empty_set Event () :=
  match c with
  | CInitialize admin token delay period timelock quorum approval threshold supply =>
      initialize admin token delay period timelock quorum approval threshold supply
  | CPropose proposer description targets functions calldatas actions =>
      discard (propose proposer description targets functions calldatas actions)
  | CCastVote voter id vote_type => cast_vote voter id vote_type
  | CQueue caller id => queue caller id
  | CExecute caller id => execute caller id
  | CCancel caller id => cancel caller id
  | CDelegate delegator delegatee amount => delegate delegator delegatee amount
  | CRevokeDelegation delegator => revoke_delegation delegator
  | CLockTokens account amount duration => lock_tokens account amount duration
  | CWithdrawTokens account => withdraw_tokens account
  | CSetVotingParams admin delay period timelock quorum approval =>
      set_voting_params admin delay period timelock quorum approval
  end.
End calls.

(** The unsigned arguments of a call are non-negative, by their Rust types. *)
Definition call_ok (c : Call) : Prop :=
  match c with
  | CInitialize _ _ delay period timelock _ _ _ _ => 0 ≤ delay ∧ 0 ≤ period ∧ 0 ≤ timelock
  | CSetVotingParams _ delay period timelock _ _ =>
      0 ≤ default 0 delay ∧ 0 ≤ default 0 period ∧ 0 ≤ default 0 timelock
  | _ => True
  end.

Definition deployed : State :=
  mkState None None None None None None None None None None ∅ ∅ ∅ ∅ ∅.
