(* ===== verification/GovernanceProofs.v ===== *)
(** * contracts/governance: invariants and theorems

    The life cycle of a proposal as a state machine over calls and ledgers, the
    tallies against the recorded votes, delegated power against the recorded
    delegations, and how delegation and locks count voting power. *)

From stdpp Require Import gmap strings list fin_maps.
From S2P Require Import Prelude Soroban TokenModel Governance.
Open Scope Z_scope.

(** ** Pure readings *)

Definition count (st : State) : Z := default 0 (ProposalCount st).
Definition delegated (st : State) (a : Address) : Z := default 0 (DelegatedPower st !! a).

Definition passed (st : State) (p : Proposal) : bool :=
  let cast := pr_for_votes p + pr_against_votes p in
  let supply := default 0 (TotalSupply st) in
  negb (supply =? 0) && ((cast + pr_abstain_votes p) * 10000 >=? supply * default 0 (Quorum st))
  && (negb (cast =? 0) && (pr_for_votes p * 10000 >=? cast * default 0 (ApprovalThreshold st))).

(** The answer of [state] for a proposal at time [t] in ledger [n], as a function. *)
Definition state_of (st : State) (p : Proposal) (t n : Z) : ProposalState :=
  if pr_canceled p then Canceled
  else if n <? pr_vote_start p then Pending
  else if n <=? pr_vote_end p then Active
  else if negb (passed st p) then Defeated
  else if pr_executed p then Executed
  else if pr_eta p =? 0 then Succeeded
  else if t >? pr_eta p + grace_period then Expired
  else Queued.

(** The boost of a lock: it falls linearly to zero at its end. *)
Definition ve_of (o : option VeTokenLock) (t : Z) : Z :=
  match o with
  | Some k => if t >=? ve_lock_end k then 0
              else (ve_amount k * (ve_lock_end k - t)) `quot` (ve_lock_end k - ve_created_at k)
  | None => 0
  end.

Definition power_of `{TokenHost} (w : World State Event) (t : Z) (a : Address) : Z :=
  match VotingToken (store w) with
  | Some tk => tok_balance (ledger w) tk a + ve_of (VeLock (store w) !! a) t + delegated (store w) a
  | None => 0
  end.

Definition voted (p : Proposal) (ty : VoteType) (n : Z) : Proposal :=
  match ty with
  | For => {| p with pr_for_votes := pr_for_votes p + n |}
  | Against => {| p with pr_against_votes := pr_against_votes p + n |}
  | Abstain => {| p with pr_abstain_votes := pr_abstain_votes p + n |}
  end.

(** The transfers of a proposal, in order. *)
Fixpoint pay_all `{TokenHost} (e : Env) (l : Ledger) (acts : list ProposalAction) : option Ledger :=
  match acts with
  | [] => Some l
  | Transfer tk to n :: acts' =>
      l1 ← tok_transfer e l tk (current_contract_address e) to n; pay_all e l1 acts'
  end.

Section specs.
Context `{TokenHost}.
Implicit Types (w : World State Event) (e : Env).

Lemma get_proposal_spec i e w p w' :
  get_proposal_from_storage i e w = Ok (p, w') → ProposalAt (store w) !! i = Some p ∧ w' = w.
Proof. intros Hr. by minv Hr using get_proposal_from_storage. Qed.

Lemma quorum_spec p e w b w' :
  quorum_reached p e w = Ok (b, w') →
  b = negb (default 0 (TotalSupply (store w)) =? 0)
      && ((pr_for_votes p + pr_against_votes p + pr_abstain_votes p) * 10000
            >=? default 0 (TotalSupply (store w)) * default 0 (Quorum (store w))) ∧ w' = w.
Proof.
  intros Hr. unfold quorum_reached, unwrap in Hr. minv Hr; inv_checked; by rewrite ?Hr0, ?Hr2, ?Hr3.
Qed.

Lemma threshold_spec p e w b w' :
  threshold_reached p e w = Ok (b, w') →
  b = negb (pr_for_votes p + pr_against_votes p =? 0)
      && (pr_for_votes p * 10000
            >=? (pr_for_votes p + pr_against_votes p) * default 0 (ApprovalThreshold (store w))) ∧ w' = w.
Proof.
  intros Hr. unfold threshold_reached, unwrap in Hr.
  apply bind_Ok in Hr as (cast & w1 & Hc & Hr). minv Hc. inv_checked.
  destruct (pr_for_votes p + pr_against_votes p =? 0); minv Hr; inv_checked; [done|]. by rewrite Hr0.
Qed.

Lemma state_spec p e w s w' :
  state p e w = Ok (s, w') → s = state_of (store w) p (timestamp e) (sequence e) ∧ w' = w.
Proof.
  intros Hr. unfold state in Hr. unfold state_of.
  destruct (pr_canceled p); [by minv Hr|].
  apply bind_Ok in Hr as (n & w1 & Hn & Hr). minv Hn.
  destruct (sequence e <? pr_vote_start p); [by minv Hr|].
  destruct (sequence e <=? pr_vote_end p); [by minv Hr|].
  apply bind_Ok in Hr as (q & w1 & Hq & Hr). apply quorum_spec in Hq as [Hq ->].
  apply bind_Ok in Hr as (b & w1 & Hb & Hr).
  assert (b = passed (store w) p ∧ w1 = w) as [-> ->].
  { unfold passed. cbv zeta. destruct q; cbn [negb] in Hb.
    - apply threshold_spec in Hb as [-> ->]. by rewrite <- Hq.
    - minv Hb. by rewrite <- Hq. }
  destruct (negb (passed (store w) p)); [by minv Hr|].
  destruct (pr_executed p); [by minv Hr|]. destruct (pr_eta p =? 0); [by minv Hr|].
  cbn [negb] in Hr. minv Hr; inv_checked; rewrite andb_true_r in *; by use_tests.
Qed.

Lemma get_token_balance_spec a e w n w' :
  get_token_balance a e w = Ok (n, w') →
  w' = w ∧ ∃ tk, VotingToken (store w) = Some tk ∧ n = tok_balance (ledger w) tk a.
Proof. intros Hr. unfold get_token_balance, unwrap in Hr. minv Hr. eauto. Qed.

Lemma ve_balance_spec a e w n w' :
  calculate_ve_balance a e w = Ok (n, w') → n = ve_of (VeLock (store w) !! a) (timestamp e) ∧ w' = w.
Proof.
  intros Hr. unfold calculate_ve_balance in Hr. unfold ve_of.
  apply bind_Ok in Hr as (o & w1 & Ho & Hr). minv Ho. destruct (VeLock (store w) !! a) as [k|]; [|by minv Hr].
  minv Hr; inv_checked; try done; zbool. rewrite Hc0. by destruct (ve_amount k * _).
Qed.

Lemma power_spec a e w n w' :
  get_voting_power a e w = Ok (n, w') →
  n = power_of w (timestamp e) a ∧ is_Some (VotingToken (store w)) ∧ w' = w.
Proof.
  intros Hr. unfold get_voting_power, get_delegated_power, safe_add in Hr.
  apply bind_Ok in Hr as (b & w1 & Hb & Hr). apply get_token_balance_spec in Hb as (-> & tk & Htk & ->).
  apply bind_Ok in Hr as (v & w1 & Hv & Hr). apply ve_balance_spec in Hv as [-> ->].
  minv Hr. inv_checked. unfold power_of. rewrite Htk. eauto.
Qed.

Lemma add_vote_spec p ty n e w p' w' :
  add_vote p ty n e w = Ok (p', w') → p' = voted p ty n ∧ w' = w.
Proof. intros Hr. destruct ty; unfold add_vote, safe_add in Hr; minv Hr; by inv_checked. Qed.

Lemma pay_all_spec acts u e w u' w' :
  foldM execute_action u acts e w = Ok (u', w') →
  ∃ l', pay_all e (ledger w) acts = Some l' ∧ w' = {| w with ledger := l' |}.
Proof.
  revert u w. induction acts as [|[tk to n] acts IH]; intros u w Hr; cbn [foldM] in Hr.
  - minv Hr. exists (ledger w). by destruct w.
  - apply bind_Ok in Hr as ([] & w1 & H1 & Hr). minv H1 using execute_action.
    apply IH in Hr as (l' & Hl' & ->). exists l'. cbn in *. by rewrite H1.
Qed.
End specs.

(** ** What each operation does *)

Section op_specs.
Context `{TokenHost}.
Implicit Types (w : World State Event) (e : Env).

Definition new_proposal (i : Z) (proposer : Address) (d : string) (tg : list Address) (fn : list string)
    (cd : list (list Byte.byte)) (acts : list ProposalAction) (vs ve t : Z) : Proposal :=
  mkProposal i proposer d tg fn cd vs ve 0 0 0 0 acts false false t.

Lemma propose_spec proposer d tg fn cd acts e w i w' :
  propose proposer d tg fn cd acts e w = Ok (i, w') →
  authorized e proposer = true ∧ i = count (store w) ∧ i + 1 ≤ int_max U64 ∧
  default 0 (ProposalThreshold (store w)) ≤ power_of w (timestamp e) proposer ∧
  ∃ delay period, VotingDelay (store w) = Some delay ∧ VotingPeriod (store w) = Some period ∧
    let vs := sequence e + delay in
    ledger w' = ledger w ∧
    store w' = {| (store w) with ProposalCount := Some (i + 1);
      ProposalAt := <[i := new_proposal i proposer d tg fn cd acts vs (vs + period) (timestamp e)]>
                      (ProposalAt (store w)) |}.
Proof.
  intros Hr. unfold propose, unwrap, set_proposal in Hr. minv Hr. spec power_spec as (-> & _ & ->).
  inv_checked. zbool. split_and!; try done; [cbn in *; unfold count; lia|by rewrite Hr2|].
  eexists _, _. split_and!; done.
Qed.

Lemma cast_vote_spec voter i ty e w u w' :
  cast_vote voter i ty e w = Ok (u, w') →
  authorized e voter = true ∧
  ∃ p, ProposalAt (store w) !! i = Some p ∧
    state_of (store w) p (timestamp e) (sequence e) = Active ∧
    Vote (store w) !! (i, voter) = None ∧ ledger w' = ledger w ∧
    let n := power_of w (timestamp e) voter in
    store w' = {| (store w) with
      Vote := <[(i, voter) := mkProposalVote true ty n]> (Vote (store w));
      ProposalAt := <[i := voted p ty n]> (ProposalAt (store w)) |}.
Proof.
  intros Hr. unfold cast_vote, set_proposal in Hr. minv Hr. spec get_proposal_spec as [Hp ->].
  spec state_spec as [-> ->]. spec power_spec as (-> & _ & ->). spec add_vote_spec as [-> ->]. zbool.
  split; [done|]. eexists. split_and!; try done. by apply eq_None_not_Some.
Qed.

Lemma gov_queue_spec caller i e w u w' :
  queue caller i e w = Ok (u, w') →
  authorized e caller = true ∧
  ∃ p delay, ProposalAt (store w) !! i = Some p ∧ TimelockDelay (store w) = Some delay ∧
    state_of (store w) p (timestamp e) (sequence e) = Succeeded ∧ ledger w' = ledger w ∧
    store w' = {| (store w) with
      ProposalAt := <[i := {| p with pr_eta := timestamp e + delay |}]> (ProposalAt (store w)) |}.
Proof.
  intros Hr. unfold queue, set_proposal, unwrap in Hr. minv Hr. spec get_proposal_spec as [Hp ->].
  spec state_spec as [-> ->]. inv_checked. zbool. split; [done|]. eexists _, _. split_and!; done.
Qed.

Lemma gov_execute_spec caller i e w u w' :
  execute caller i e w = Ok (u, w') →
  authorized e caller = true ∧
  ∃ p, ProposalAt (store w) !! i = Some p ∧ pr_eta p ≤ timestamp e ∧
    state_of (store w) p (timestamp e) (sequence e) = Queued ∧
    pay_all e (ledger w) (pr_actions p) = Some (ledger w') ∧
    store w' = {| (store w) with
      ProposalAt := <[i := {| p with pr_executed := true |}]> (ProposalAt (store w)) |}.
Proof.
  intros Hr. unfold execute, set_proposal in Hr. minv Hr. spec get_proposal_spec as [Hp ->].
  spec state_spec as [-> ->]. apply pay_all_spec in Hr5 as (l' & Hl & ->). zbool.
  split; [done|]. eexists. split_and!; done.
Qed.

Lemma gov_cancel_spec caller i e w u w' :
  cancel caller i e w = Ok (u, w') →
  authorized e caller = true ∧
  ∃ p adm, ProposalAt (store w) !! i = Some p ∧ pr_executed p = false ∧ Admin (store w) = Some adm ∧
    (caller = pr_proposer p ∨ caller = adm) ∧ ledger w' = ledger w ∧
    store w' = {| (store w) with
      ProposalAt := <[i := {| p with pr_canceled := true |}]> (ProposalAt (store w)) |}.
Proof.
  intros Hr. unfold cancel, set_proposal, unwrap in Hr. minv Hr. spec get_proposal_spec as [Hp ->].
  split; [done|]. eexists _, _. split_and!; try done.
  match goal with Hc : _ && _ = false |- _ => apply andb_false_iff in Hc as [Hc|Hc]; zbool; auto end.
Qed.

Lemma delegate_spec a b n e w u w' :
  delegate a b n e w = Ok (u, w') →
  authorized e a = true ∧ a ≠ b ∧ DelegationOf (store w) !! a = None ∧ ledger w' = ledger w ∧
  (∃ tk, VotingToken (store w) = Some tk ∧ n ≤ tok_balance (ledger w) tk a) ∧
  store w' = {| (store w) with
    DelegationOf := <[a := mkDelegation a b n (timestamp e)]> (DelegationOf (store w));
    DelegatedPower := <[b := delegated (store w) b + n]> (DelegatedPower (store w)) |}.
Proof.
  intros Hr. unfold delegate, get_delegated_power, safe_add in Hr. minv Hr.
  spec get_token_balance_spec as (-> & tk & Htk & ->). inv_checked. zbool.
  split_and!; try done; [by apply eq_None_not_Some|eauto].
Qed.

Lemma revoke_delegation_spec a e w u w' :
  revoke_delegation a e w = Ok (u, w') →
  authorized e a = true ∧ ledger w' = ledger w ∧
  ∃ d, DelegationOf (store w) !! a = Some d ∧
    store w' = {| (store w) with
      DelegationOf := delete a (DelegationOf (store w));
      DelegatedPower := <[dl_delegatee d := delegated (store w) (dl_delegatee d) - dl_amount d]>
                          (DelegatedPower (store w)) |}.
Proof.
  intros Hr. unfold revoke_delegation, get_delegated_power in Hr. minv Hr. inv_checked.
  split_and!; try done. eexists. split; done.
Qed.

Lemma lock_spec a n d e w u w' :
  lock_tokens a n d e w = Ok (u, w') →
  authorized e a = true ∧ 0 < n ∧ MIN_LOCK_DURATION ≤ d ≤ MAX_LOCK_DURATION ∧
  VeLock (store w) !! a = None ∧ ledger w' = ledger w ∧
  (∃ tk, VotingToken (store w) = Some tk ∧ n ≤ tok_balance (ledger w) tk a) ∧
  store w' = {| (store w) with
    VeLock := <[a := mkVeTokenLock a n (timestamp e + d) (timestamp e)]> (VeLock (store w)) |}.
Proof.
  intros Hr. unfold lock_tokens in Hr. minv Hr. spec get_token_balance_spec as (-> & tk & Htk & ->).
  inv_checked. zbool. split_and!; try done; [by apply eq_None_not_Some|eauto].
Qed.

(** The calls that leave proposals, votes and delegations alone. *)
Definition same_books (st st' : State) : Prop :=
  ProposalAt st' = ProposalAt st ∧ Vote st' = Vote st ∧ ProposalCount st' = ProposalCount st ∧
  DelegationOf st' = DelegationOf st ∧ DelegatedPower st' = DelegatedPower st ∧ Admin st' = Admin st.

Lemma withdraw_tokens_same a e w u w' :
  withdraw_tokens a e w = Ok (u, w') → same_books (store w) (store w').
Proof. intros Hr. unfold withdraw_tokens in Hr. minv Hr. by split_and!. Qed.

Lemma same_books_trans st1 st2 st3 : same_books st1 st2 → same_books st2 st3 → same_books st1 st3.
Proof. unfold same_books. intuition congruence. Qed.

Lemma set_if_same {A} (o : option A) f e w u w' :
  (∀ x s, same_books s (f x s)) → set_if o f e w = Ok (u, w') → same_books (store w) (store w').
Proof. intros Hf Hr. unfold set_if in Hr. minv Hr; [apply Hf|by split_and!]. Qed.

Lemma set_params_same a d p t q th e w u w' :
  set_voting_params a d p t q th e w = Ok (u, w') → same_books (store w) (store w').
Proof.
  intros Hr. unfold set_voting_params, unwrap in Hr. minv Hr.
  repeat match goal with
  | Hs : set_if _ _ _ _ = Ok _ |- _ => apply set_if_same in Hs; [|intros; by split_and!] end.
  repeat match goal with
  | H1 : same_books (store ?x) (store ?y), H2 : same_books (store ?y) _ |- _ =>
      pose proof (same_books_trans _ _ _ H1 H2); clear H1 H2 end.
  done.
Qed.
End op_specs.

(** ** Invariant *)

Definition tally (votes : gmap (Z * Address) ProposalVote) (i : Z) (ty : VoteType) : Z :=
  msum (λ k v, if bool_decide (k.1 = i ∧ pv_vote_type v = ty) then pv_weight v else 0) votes.

Definition delegated_to (ds : gmap Address Delegation) (a : Address) : Z :=
  msum (λ _ d, if bool_decide (dl_delegatee d = a) then dl_amount d else 0) ds.

Record proposal_ok (n : Z) (votes : gmap (Z * Address) ProposalVote) (i : Z) (p : Proposal) : Prop := {
  po_id : pr_id p = i;
  po_for : pr_for_votes p = tally votes i For;
  po_against : pr_against_votes p = tally votes i Against;
  po_abstain : pr_abstain_votes p = tally votes i Abstain;
  po_queued : pr_eta p ≠ 0 → pr_vote_end p < n;
  po_executed : pr_executed p = true → pr_eta p ≠ 0;
}.

Record gov_inv (n : Z) (st : State) : Prop := {
  gi_ids i : is_Some (ProposalAt st !! i) ↔ 0 ≤ i < count st;
  gi_proposal i p : ProposalAt st !! i = Some p → proposal_ok n (Vote st) i p;
  gi_vote i v x : Vote st !! (i, v) = Some x → is_Some (ProposalAt st !! i);
  gi_count : 0 ≤ count st;
  gi_delegated a : delegated st a = delegated_to (DelegationOf st) a;
  gi_delegation a d : DelegationOf st !! a = Some d → dl_delegator d = a ∧ dl_delegatee d ≠ a;
  gi_admin : is_Some (Admin st);
}.

Lemma state_active st p t n :
  state_of st p t n = Active → pr_canceled p = false ∧ pr_vote_start p ≤ n ≤ pr_vote_end p.
Proof. unfold state_of. intros Hs. repeat case_match; try done. zbool. done. Qed.

Lemma state_succeeded st p t n :
  state_of st p t n = Succeeded →
  pr_canceled p = false ∧ pr_executed p = false ∧ pr_eta p = 0 ∧ pr_vote_end p < n ∧ passed st p = true.
Proof. unfold state_of. intros Hs. repeat case_match; try done. zbool. done. Qed.

Lemma state_queued st p t n :
  state_of st p t n = Queued →
  pr_canceled p = false ∧ pr_executed p = false ∧ pr_eta p ≠ 0 ∧ pr_vote_end p < n ∧
  passed st p = true ∧ t ≤ pr_eta p + grace_period.
Proof. unfold state_of. intros Hs. repeat case_match; try done. zbool. done. Qed.

Lemma tally_insert votes i v x j ty :
  votes !! (i, v) = None →
  tally (<[(i, v) := x]> votes) j ty =
    tally votes j ty + (if bool_decide (i = j ∧ pv_vote_type x = ty) then pv_weight x else 0).
Proof. intros Hnew. unfold tally. rewrite msum_insert_fresh by done. cbn. lia. Qed.

Lemma tally_none votes i ty : (∀ v, votes !! (i, v) = None) → tally votes i ty = 0.
Proof.
  intros Hnone. unfold tally. rewrite (msum_ext _ (λ _ _, 0)).
  - clear Hnone. induction votes as [|k x m Hk IH] using map_ind; [done|]. by rewrite msum_insert_fresh, IH.
  - intros [j v] x Hx. rewrite bool_decide_eq_false_2; [done|]. intros [Heq _]. cbn in Heq. subst j.
    rewrite Hnone in Hx. done.
Qed.

Lemma proposal_later n n' votes i p : n ≤ n' → proposal_ok n votes i p → proposal_ok n' votes i p.
Proof. intros Hn []. split; try done. intros He. specialize (po_queued0 He). lia. Qed.

Lemma gov_inv_later n n' st : n ≤ n' → gov_inv n st → gov_inv n' st.
Proof. intros Hn []. split; try done. intros i p Hp. eapply proposal_later; eauto. Qed.

Lemma gov_inv_same n st st' : gov_inv n st → same_books st st' → gov_inv n st'.
Proof.
  intros Hi (E1 & E2 & E3 & E4 & E5 & E6).
  destruct Hi. split; unfold count, delegated; rewrite ?E1, ?E2, ?E3, ?E4, ?E5, ?E6; done.
Qed.

(** Rewriting one proposal, its votes unchanged. *)
Lemma gov_inv_edit n st i p p' :
  gov_inv n st → ProposalAt st !! i = Some p → proposal_ok n (Vote st) i p' →
  gov_inv n {| st with ProposalAt := <[i := p']> (ProposalAt st) |}.
Proof.
  intros Hi Hp Hok. split; cbn; try exact (gi_count _ _ Hi); try exact (gi_delegated _ _ Hi);
    try exact (gi_delegation _ _ Hi); try exact (gi_admin _ _ Hi).
  - intros j. rewrite lookup_insert_is_Some', <- (gi_ids _ _ Hi). naive_solver.
  - intros j q [[<- <-]|[_ Hj]]%lookup_insert_Some; [done|by apply (gi_proposal _ _ Hi)].
  - intros j v x Hx. apply lookup_insert_is_Some'. right. by eapply gi_vote.
Qed.

Lemma gov_inv_propose n st i p :
  gov_inv n st → i = count st → pr_id p = i → pr_for_votes p = 0 → pr_against_votes p = 0 →
  pr_abstain_votes p = 0 → pr_eta p = 0 → pr_executed p = false →
  gov_inv n {| st with ProposalCount := Some (i + 1); ProposalAt := <[i := p]> (ProposalAt st) |}.
Proof.
  intros Hi -> Hid H1 H2 H3 H4 H5. pose proof (gi_count _ _ Hi).
  assert (ProposalAt st !! count st = None) as Hnew.
  { apply eq_None_not_Some. rewrite (gi_ids _ _ Hi). lia. }
  split; cbn; try exact (gi_delegated _ _ Hi);
    try exact (gi_delegation _ _ Hi); try exact (gi_admin _ _ Hi); unfold count at 1; cbn.
  - intros j. rewrite lookup_insert_is_Some', (gi_ids _ _ Hi). unfold count in *. destruct (decide (j = default 0 (ProposalCount st))); naive_solver lia.
  - intros j q [[<- <-]|[_ Hj]]%lookup_insert_Some; [|by apply (gi_proposal _ _ Hi)].
    assert (∀ ty, tally (Vote st) (count st) ty = 0) as Hz.
    { intros ty. apply tally_none. intros v. apply eq_None_not_Some. intros [x Hx].
      apply (gi_vote _ _ Hi) in Hx as [q Hq]. congruence. }
    split; rewrite ?Hz; try done; congruence.
  - intros j v x Hx. apply lookup_insert_is_Some'. right. by eapply gi_vote.
  - unfold count in *. cbn. lia.
Qed.

Lemma gov_inv_vote n st i voter p ty k :
  gov_inv n st → ProposalAt st !! i = Some p → Vote st !! (i, voter) = None →
  gov_inv n {| st with Vote := <[(i, voter) := mkProposalVote true ty k]> (Vote st);
                       ProposalAt := <[i := voted p ty k]> (ProposalAt st) |}.
Proof.
  intros Hi Hp Hnew. destruct (gi_proposal _ _ Hi _ _ Hp). split; cbn; try exact (gi_count _ _ Hi); try exact (gi_delegated _ _ Hi);
    try exact (gi_delegation _ _ Hi); try exact (gi_admin _ _ Hi).
  - intros j. rewrite lookup_insert_is_Some', <- (gi_ids _ _ Hi). naive_solver.
  - intros j q [[<- <-]|[Hne Hj]]%lookup_insert_Some.
    + split; rewrite ?tally_insert by done; cbn; destruct ty; cbn; try done;
        repeat case_bool_decide; try lia; naive_solver.
    + destruct (gi_proposal _ _ Hi _ _ Hj).
      split; rewrite ?tally_insert by done; cbn; try done; rewrite bool_decide_eq_false_2 by naive_solver; lia.
  - intros j v x Hx. apply lookup_insert_is_Some'. apply lookup_insert_Some in Hx as [[[= -> ->] _]|[_ Hx]]; [by left|].
    right. by eapply gi_vote.
Qed.

Lemma gov_inv_delegate n st a b k t :
  gov_inv n st → a ≠ b → DelegationOf st !! a = None →
  gov_inv n {| st with DelegationOf := <[a := mkDelegation a b k t]> (DelegationOf st);
                       DelegatedPower := <[b := delegated st b + k]> (DelegatedPower st) |}.
Proof.
  intros Hi Hab Hnew. split; cbn; try exact (gi_ids _ _ Hi); try exact (gi_proposal _ _ Hi);
    try exact (gi_vote _ _ Hi); try exact (gi_count _ _ Hi); try exact (gi_admin _ _ Hi).
  - intros c. pose proof (gi_delegated _ _ Hi c) as Hc. unfold delegated, delegated_to in *. cbn.
    rewrite msum_insert_fresh, <- Hc by done. cbn. rewrite lookup_insert.
    case_decide; case_bool_decide; simpl; subst; try done; lia.
  - intros c d [[<- <-]|[_ Hd]]%lookup_insert_Some; [done|by apply (gi_delegation _ _ Hi)].
Qed.

Lemma gov_inv_revoke n st a d :
  gov_inv n st → DelegationOf st !! a = Some d →
  gov_inv n {| st with DelegationOf := delete a (DelegationOf st);
    DelegatedPower := <[dl_delegatee d := delegated st (dl_delegatee d) - dl_amount d]> (DelegatedPower st) |}.
Proof.
  intros Hi Hd. split; cbn; try exact (gi_ids _ _ Hi); try exact (gi_proposal _ _ Hi);
    try exact (gi_vote _ _ Hi); try exact (gi_count _ _ Hi); try exact (gi_admin _ _ Hi).
  - intros c. pose proof (gi_delegated _ _ Hi c) as Hc. unfold delegated, delegated_to in *. cbn.
    rewrite (msum_delete _ _ a d) in Hc by done. cbn in Hc. rewrite lookup_insert.
    case_decide; case_bool_decide; simpl; subst; try done; lia.
  - intros c d' [_ Hd']%lookup_delete_Some. by apply (gi_delegation _ _ Hi).
Qed.

(** ** Evolution of one proposal

    What may happen to a proposal after ledger [n]. *)

Definition fixed_part (p : Proposal) :=
  (pr_id p, pr_proposer p, pr_description p, (pr_targets p, pr_functions p, pr_calldatas p, pr_actions p),
   (pr_vote_start p, pr_vote_end p), pr_created_at p).
Definition votes_part (p : Proposal) := (pr_for_votes p, pr_against_votes p, pr_abstain_votes p).

Record evolves (n : Z) (p p' : Proposal) : Prop := {
  ev_fixed : fixed_part p' = fixed_part p;
  ev_canceled : pr_canceled p = true → pr_canceled p' = true;
  ev_executed : pr_executed p = true → p' = p;
  ev_eta : pr_eta p ≠ 0 → pr_eta p' = pr_eta p;
  ev_votes : pr_vote_end p < n → votes_part p' = votes_part p;
}.

Lemma gov_evolves_refl n p : evolves n p p.
Proof. by split. Qed.

Lemma gov_evolves_trans n n' p p' p'' : n ≤ n' → evolves n p p' → evolves n' p' p'' → evolves n p p''.
Proof.
  intros Hn [F1 C1 X1 E1 V1] [F2 C2 X2 E2 V2]. split.
  - congruence.
  - auto.
  - intros Hx. specialize (X1 Hx). subst p'. auto.
  - intros He. rewrite E2; [auto|]. by rewrite E1.
  - intros Hv. rewrite V2; [auto|]. unfold fixed_part in F1. simplify_eq. lia.
Qed.

Section machine.
Context `{TokenHost} (self : Address).
Implicit Types (w : World State Event) (e : Env).

(** A configuration: ledger time, ledger sequence number, world.  Neither clock
    runs backwards, and token balances change between the calls. *)
Inductive gov_step : Z * Z * World State Event → Z * Z * World State Event → Prop :=
| gov_call t n c e w w' :
    wf_env self e → t ≤ timestamp e → n ≤ sequence e → call_ok c → exec c e w = Ok (tt, w') →
    gov_step (t, n, w) (timestamp e, sequence e, w')
| gov_other t n t' n' w l' :
    t ≤ t' → n ≤ n' → gov_step (t, n, w) (t', n', {| w with ledger := l' |}).

Definition started (e0 : Env) w1 : Prop :=
  ∃ w0 adm tk delay period timelock quorum approval threshold supply,
    wf_env self e0 ∧ store w0 = deployed ∧
    initialize adm tk delay period timelock quorum approval threshold supply e0 w0 = Ok (tt, w1).

Definition reachable (t n : Z) w : Prop :=
  ∃ e0 w1, started e0 w1 ∧ rtc gov_step (timestamp e0, sequence e0, w1) (t, n, w).

Lemma gov_initialize_fresh adm tk a b c d f g h e w u w' :
  initialize adm tk a b c d f g h e w = Ok (u, w') → Admin (store w) = None.
Proof.
  intros Hr. unfold initialize in Hr. apply bind_Ok in Hr as (o & w1 & Ho & Hr). minv Ho.
  apply bind_Ok in Hr as ([] & w1 & Hp & _). minv Hp. zbool. by apply eq_None_not_Some.
Qed.

Lemma gov_exec_inv n c e w w' :
  n ≤ sequence e → gov_inv n (store w) → exec c e w = Ok (tt, w') → gov_inv (sequence e) (store w').
Proof.
  intros Hn Hi Hr. apply (gov_inv_later _ _ _ Hn) in Hi.
  destruct c; cbn [exec] in Hr; try (apply discard_Ok in Hr; destruct Hr as [r Hr]).
  - apply gov_initialize_fresh in Hr. destruct (gi_admin _ _ Hi). congruence.
  - apply propose_spec in Hr as (_ & Hc & _ & _ & dl & pd & _ & _ & _ & ->). by apply gov_inv_propose.
  - apply cast_vote_spec in Hr as (_ & p & Hp & _ & Hnew & _ & ->). by apply gov_inv_vote.
  - apply gov_queue_spec in Hr as (_ & p & dl & Hp & _ & Hs & _ & ->).
    apply state_succeeded in Hs as (_ & Hx & _ & Hend & _).
    apply (gov_inv_edit _ _ _ p); [done|done|]. destruct (gi_proposal _ _ Hi _ _ Hp). split; try done. cbn. congruence.
  - apply gov_execute_spec in Hr as (_ & p & Hp & _ & Hs & _ & ->).
    apply state_queued in Hs as (_ & _ & Heta & Hend & _).
    apply (gov_inv_edit _ _ _ p); [done|done|]. by destruct (gi_proposal _ _ Hi _ _ Hp); split.
  - apply gov_cancel_spec in Hr as (_ & p & adm & Hp & _ & _ & _ & _ & ->).
    apply (gov_inv_edit _ _ _ p); [done|done|]. by destruct (gi_proposal _ _ Hi _ _ Hp); split.
  - apply delegate_spec in Hr as (_ & Hab & Hnew & _ & _ & ->). by apply gov_inv_delegate.
  - apply revoke_delegation_spec in Hr as (_ & _ & d & Hd & ->). by apply gov_inv_revoke.
  - apply lock_spec in Hr as (_ & _ & _ & _ & _ & _ & ->). by apply (gov_inv_same _ (store w)).
  - apply withdraw_tokens_same in Hr. by eapply gov_inv_same.
  - apply set_params_same in Hr. by eapply gov_inv_same.
Qed.

(** An edit of one proposal that evolves it evolves every proposal. *)
Lemma evolves_edit n (m : gmap Z Proposal) i p0 p1 j p :
  m !! i = Some p0 → evolves n p0 p1 → m !! j = Some p →
  ∃ p', <[i := p1]> m !! j = Some p' ∧ evolves n p p'.
Proof.
  intros Hi Hev Hj. rewrite lookup_insert. case_decide.
  - subst. simplify_eq. eauto.
  - eauto using gov_evolves_refl.
Qed.

Lemma gov_exec_evolves n c e w w' i p :
  n ≤ sequence e → gov_inv n (store w) → exec c e w = Ok (tt, w') →
  ProposalAt (store w) !! i = Some p →
  ∃ p', ProposalAt (store w') !! i = Some p' ∧ evolves n p p'.
Proof.
  intros Hn Hi Hr Hp.
  destruct c; cbn [exec] in Hr; try (apply discard_Ok in Hr; destruct Hr as [r Hr]).
  - apply gov_initialize_fresh in Hr. destruct (gi_admin _ _ Hi). congruence.
  - apply propose_spec in Hr as (_ & Hc & _ & _ & dl & pd & _ & _ & _ & ->). cbn.
    exists p. split; [|apply gov_evolves_refl]. rewrite lookup_insert_ne; [done|].
    assert (0 ≤ i < count (store w)) by (apply (gi_ids _ _ Hi); eauto). lia.
  - apply cast_vote_spec in Hr as (_ & p0 & Hp0 & Hs & _ & _ & ->).
    apply state_active in Hs as (_ & _ & Hend). destruct (gi_proposal _ _ Hi _ _ Hp0).
    eapply evolves_edit; [done| |done]. destruct vote_type; split; try done; cbn; intros ?; try lia;
      exfalso; specialize (po_queued0 ltac:(auto)); lia.
  - apply gov_queue_spec in Hr as (_ & p0 & dl & Hp0 & _ & Hs & _ & ->).
    apply state_succeeded in Hs as (_ & Hx & Heta & _).
    eapply evolves_edit; [done| |done]. split; try done; congruence.
  - apply gov_execute_spec in Hr as (_ & p0 & Hp0 & _ & Hs & _ & ->).
    apply state_queued in Hs as (_ & Hx & _). eapply evolves_edit; [done| |done]. split; try done; congruence.
  - apply gov_cancel_spec in Hr as (_ & p0 & adm & Hp0 & Hx & _ & _ & _ & ->).
    eapply evolves_edit; [done| |done]. split; try done; congruence.
  - apply delegate_spec in Hr as (_ & _ & _ & _ & _ & ->). eauto using gov_evolves_refl.
  - apply revoke_delegation_spec in Hr as (_ & _ & d & _ & ->). eauto using gov_evolves_refl.
  - apply lock_spec in Hr as (_ & _ & _ & _ & _ & _ & ->). eauto using gov_evolves_refl.
  - apply withdraw_tokens_same in Hr as (-> & _). eauto using gov_evolves_refl.
  - apply set_params_same in Hr as (-> & _). eauto using gov_evolves_refl.
Qed.

Lemma gov_steps_inv t n w t' n' w' :
  rtc gov_step (t, n, w) (t', n', w') → gov_inv n (store w) → n ≤ n' ∧ gov_inv n' (store w').
Proof.
  intros Hsteps. remember (t, n, w) as c1 eqn:E1. remember (t', n', w') as c2 eqn:E2.
  revert t n w E1 t' n' w' E2.
  induction Hsteps as [c|c1 c2 c3 Hstep _ IH]; intros t n w E1 t' n' w' E2 Hi; [by simplify_eq|].
  subst. inversion Hstep; subst.
  - destruct (IH _ _ _ eq_refl _ _ _ eq_refl) as [? ?]; [by eapply gov_exec_inv|]. split; [lia|done].
  - destruct (IH _ _ _ eq_refl _ _ _ eq_refl) as [? ?]; [by eapply gov_inv_later|]. split; [lia|done].
Qed.

Lemma gov_reachable_inv t n w : reachable t n w → gov_inv n (store w).
Proof.
  intros (e0 & w1 & Hstart & Hsteps). eapply gov_steps_inv; [exact Hsteps|].
  destruct Hstart as (w0 & adm & tk & ? & ? & ? & ? & ? & ? & ? & _ & Hst & Hr).
  unfold initialize in Hr. minv Hr. rewrite Hst. split; cbn; try done.
  - intros i. rewrite lookup_empty. unfold count. cbn. split; [by intros []|lia].
Qed.

Lemma gov_steps_evolve t n w t' n' w' i p :
  rtc gov_step (t, n, w) (t', n', w') → gov_inv n (store w) → ProposalAt (store w) !! i = Some p →
  ∃ p', ProposalAt (store w') !! i = Some p' ∧ evolves n p p'.
Proof.
  intros Hsteps. remember (t, n, w) as c1 eqn:E1. remember (t', n', w') as c2 eqn:E2.
  revert t n w E1 t' n' w' E2 p.
  induction Hsteps as [c|c1 c2 c3 Hstep Hrest IH]; intros t n w E1 t' n' w' E2 p Hi Hp.
  - simplify_eq. eauto using gov_evolves_refl.
  - subst. inversion Hstep; subst.
    + assert (∃ p1, ProposalAt (store w'0) !! i = Some p1 ∧ evolves n p p1) as (p1 & Hp1 & Hev)
        by (by eapply gov_exec_evolves).
      destruct (IH _ _ _ eq_refl _ _ _ eq_refl p1) as (p2 & Hp2 & Hev2); [by eapply gov_exec_inv|done|].
      exists p2. split; [done|]. by eapply gov_evolves_trans.
    + destruct (IH _ _ _ eq_refl _ _ _ eq_refl p) as (p2 & Hp2 & Hev2); [by eapply gov_inv_later|done|].
      exists p2. split; [done|]. eapply gov_evolves_trans; [done|apply gov_evolves_refl|done].
Qed.

(** Only [execute] marks a proposal executed, and only while it is queued. *)
Lemma executed_by_execute c e w w' i p p' :
  gov_inv (sequence e) (store w) → exec c e w = Ok (tt, w') →
  ProposalAt (store w) !! i = Some p → ProposalAt (store w') !! i = Some p' →
  pr_executed p = false → pr_executed p' = true → state_of (store w) p (timestamp e) (sequence e) = Queued.
Proof.
  intros Hi Hr Hp Hp' Hx Hx'.
  assert (∀ j q q', ProposalAt (store w) !! j = Some q → pr_executed q' = pr_executed q →
    ProposalAt (store w') = <[j := q']> (ProposalAt (store w)) → False) as Hkeep.
  { intros j q q' Hj Hq Hst. rewrite Hst in Hp'. apply lookup_insert_Some in Hp' as [[<- <-]|[_ Hp']]; congruence. }
  destruct c; cbn [exec] in Hr; try (apply discard_Ok in Hr; destruct Hr as [r Hr]).
  - apply gov_initialize_fresh in Hr. destruct (gi_admin _ _ Hi). congruence.
  - apply propose_spec in Hr as (_ & Hc & _ & _ & dl & pd & _ & _ & _ & Hst). rewrite Hst in Hp'. cbn in Hp'.
    rewrite lookup_insert_ne in Hp'; [congruence|]. assert (0 ≤ i < count (store w)) by (apply (gi_ids _ _ Hi); eauto). lia.
  - apply cast_vote_spec in Hr as (_ & p0 & Hp0 & _ & _ & _ & Hst). exfalso.
    eapply (Hkeep _ p0); [done| |by rewrite Hst]. by destruct vote_type.
  - apply gov_queue_spec in Hr as (_ & p0 & dl & Hp0 & _ & _ & _ & Hst). exfalso. eapply (Hkeep _ p0); [done| |by rewrite Hst]. done.
  - apply gov_execute_spec in Hr as (_ & p0 & Hp0 & _ & Hs & _ & Hst). rewrite Hst in Hp'. cbn in Hp'.
    apply lookup_insert_Some in Hp' as [[<- _]|[_ Hp']]; congruence.
  - apply gov_cancel_spec in Hr as (_ & p0 & adm & Hp0 & _ & _ & _ & _ & Hst). exfalso. eapply (Hkeep _ p0); [done| |by rewrite Hst]. done.
  - apply delegate_spec in Hr as (_ & _ & _ & _ & _ & Hst). rewrite Hst in Hp'. cbn in Hp'. congruence.
  - apply revoke_delegation_spec in Hr as (_ & _ & d & _ & Hst). rewrite Hst in Hp'. cbn in Hp'. congruence.
  - apply lock_spec in Hr as (_ & _ & _ & _ & _ & _ & Hst). rewrite Hst in Hp'. cbn in Hp'. congruence.
  - apply withdraw_tokens_same in Hr as (Hst & _). rewrite Hst in Hp'. congruence.
  - apply set_params_same in Hr as (Hst & _). rewrite Hst in Hp'. congruence.
Qed.

Lemma gov_steps_time t n w t' n' w' : rtc gov_step (t, n, w) (t', n', w') → t ≤ t'.
Proof.
  intros Hsteps. remember (t, n, w) as c1 eqn:E1. remember (t', n', w') as c2 eqn:E2. revert t n w E1.
  induction Hsteps as [c|c1 c2 c3 Hstep _ IH]; intros t n w E1; subst; [by simplify_eq|].
  inversion Hstep; subst; specialize (IH eq_refl _ _ _ eq_refl); lia.
Qed.

(** A proposal whose grace period is over is never executed afterwards. *)
Lemma gov_steps_expired t n w t' n' w' i p p' :
  rtc gov_step (t, n, w) (t', n', w') → gov_inv n (store w) →
  ProposalAt (store w) !! i = Some p → ProposalAt (store w') !! i = Some p' →
  pr_eta p ≠ 0 → pr_eta p + grace_period < t → pr_executed p = false → pr_executed p' = false.
Proof.
  intros Hsteps. remember (t, n, w) as c1 eqn:E1. remember (t', n', w') as c2 eqn:E2.
  revert t n w E1 t' n' w' E2 p.
  induction Hsteps as [c|c1 c2 c3 Hstep Hrest IH]; intros t n w E1 t' n' w' E2 p Hi Hp Hp' Heta Ht Hx.
  { by simplify_eq. }
  subst. inversion Hstep; subst.
  - match goal with Hn : n ≤ sequence e |- _ => pose proof (gov_inv_later _ _ _ Hn Hi) as Hi' end.
    destruct (gov_exec_evolves n c e w w'0 i p) as (p1 & Hp1 & Hev); [done..|].
    destruct (pr_executed p1) eqn:Hx1.
    + eapply executed_by_execute in Hx1; [|done..]. apply state_queued in Hx1 as (_ & _ & _ & _ & _ & Hg). lia.
    + apply (IH _ _ _ eq_refl _ _ _ eq_refl p1); try done; [by eapply gov_exec_inv|..];
        rewrite (ev_eta _ _ _ Hev Heta); [done|lia].
  - apply (IH _ _ _ eq_refl _ _ _ eq_refl p); try done; [by eapply gov_inv_later|lia].
Qed.
End machine.

(** ** The life cycle *)

(** One move of a proposal from state to state. *)
Inductive next : ProposalState → ProposalState → Prop :=
| next_active : next Pending Active
| next_defeated : next Active Defeated
| next_succeeded : next Active Succeeded
| next_queued : next Succeeded Queued
| next_executed : next Queued Executed
| next_expired : next Queued Expired
| next_canceled s : s ≠ Executed → s ≠ Canceled → next s Canceled.

(** Before the vote, during it, decided, canceled. *)
Definition phase (s : ProposalState) : Z :=
  match s with Pending => 0 | Active => 1 | Canceled => 3 | _ => 2 end.

Lemma queued_rtc s : s = Executed ∨ s = Expired ∨ s = Queued ∨ s = Canceled → rtc next Queued s.
Proof. intros [-> | [-> | [-> | ->]]]; [by apply rtc_once; constructor..|done|by apply rtc_once; constructor]. Qed.

Lemma succeeded_rtc s :
  s = Succeeded ∨ s = Executed ∨ s = Expired ∨ s = Queued ∨ s = Canceled → rtc next Succeeded s.
Proof. intros [->|Hs]; [done|]. eapply rtc_l; [constructor|by apply queued_rtc]. Qed.

Lemma active_rtc s : s ≠ Pending → rtc next Active s.
Proof.
  intros Hs. destruct s; try done; try (by apply rtc_once; constructor);
    (eapply rtc_l; [apply next_succeeded|apply succeeded_rtc; tauto]).
Qed.

Lemma pending_rtc s : rtc next Pending s.
Proof. destruct (decide (s = Pending)) as [->|]; [done|]. eapply rtc_l; [constructor|by apply active_rtc]. Qed.

(** ** Theorems *)

Section theorems.
Context `{TokenHost} (self : Address).
Implicit Types (w : World State Event) (e : Env).

(** C16: along every run, a proposal keeps its content and its voting window; a
    cancellation and an execution time once set are kept; an executed proposal
    never changes again; and once a ledger after the end of voting is reached
    its tallies are final. *)
Theorem proposal_lifecycle t n w t' n' w' i p :
  reachable self t n w → rtc (gov_step self) (t, n, w) (t', n', w') →
  ProposalAt (store w) !! i = Some p →
  ∃ p', ProposalAt (store w') !! i = Some p' ∧ evolves n p p'.
Proof. intros Hr Hsteps Hp. eapply gov_steps_evolve; [done| |done]. by eapply gov_reachable_inv. Qed.

(** A proposal is executed only when it is neither canceled nor executed, its
    voting has ended with quorum and approval reached, and the time is within
    the grace period after its execution time; its transfers are those proposed,
    in order; and no later call can execute it again. *)
Theorem execute_once t n w caller i e w1 :
  reachable self t n w → n ≤ sequence e → execute caller i e w = Ok (tt, w1) →
  (∃ p, ProposalAt (store w) !! i = Some p ∧ pr_canceled p = false ∧ pr_executed p = false ∧
     pr_vote_end p < sequence e ∧ passed (store w) p = true ∧
     pr_eta p ≤ timestamp e ≤ pr_eta p + grace_period ∧
     pay_all e (ledger w) (pr_actions p) = Some (ledger w1)) ∧
  ∀ t2 n2 w2 caller2 e2 r,
    rtc (gov_step self) (timestamp e, sequence e, w1) (t2, n2, w2) → execute caller2 i e2 w2 ≠ Ok r.
Proof.
  intros Hreach Hn Hx. pose proof (gov_reachable_inv self _ _ _ Hreach) as Hi.
  pose proof (gov_exec_inv _ (CExecute caller i) _ _ _ Hn Hi Hx) as Hi1.
  apply gov_execute_spec in Hx as (_ & p & Hp & Heta & Hs & Hpay & Hst).
  apply state_queued in Hs as (Hc & Hex & _ & Hend & Hpass & Hgrace).
  split; [exists p; split_and!; done|].
  intros t2 n2 w2 caller2 e2 [[] w3] Hsteps Hx2.
  assert (ProposalAt (store w1) !! i = Some {| p with pr_executed := true |}) as Hp1.
  { rewrite Hst. apply lookup_insert_eq. }
  destruct (gov_steps_evolve self _ _ _ _ _ _ _ _ Hsteps Hi1 Hp1) as (p2 & Hp2 & Hev).
  pose proof (ev_executed _ _ _ Hev eq_refl) as ->.
  apply gov_execute_spec in Hx2 as (_ & p3 & Hp3 & _ & Hs3 & _). simplify_eq.
  apply state_queued in Hs3 as (_ & Hex3 & _). done.
Qed.

(** A queued proposal executes no earlier than the timelock delay in force
    when it was queued, whatever the parameters are changed to afterwards. *)
Theorem timelock_respected t n w e1 q i w1 delay t2 n2 w2 e2 c w3 :
  reachable self t n w → n ≤ sequence e1 → TimelockDelay (store w) = Some delay →
  queue q i e1 w = Ok (tt, w1) →
  rtc (gov_step self) (timestamp e1, sequence e1, w1) (t2, n2, w2) →
  wf_env self e2 → execute c i e2 w2 = Ok (tt, w3) →
  timestamp e1 + delay ≤ timestamp e2.
Proof.
  intros Hreach Hn Hdelay Hq Hsteps Hwf Hx. pose proof (gov_reachable_inv self _ _ _ Hreach) as Hi.
  pose proof (gov_exec_inv _ (CQueue q i) _ _ _ Hn Hi Hq) as Hi1.
  apply gov_queue_spec in Hq as (_ & p & delay' & Hp & Hd & _ & _ & Hst). simplify_eq.
  assert (ProposalAt (store w1) !! i = Some {| p with pr_eta := timestamp e1 + delay |}) as Hp1.
  { rewrite Hst. apply lookup_insert_eq. }
  destruct (gov_steps_evolve self _ _ _ _ _ _ _ _ Hsteps Hi1 Hp1) as (p2 & Hp2 & Hev).
  apply gov_execute_spec in Hx as (_ & p3 & Hp3 & Heta & _). simplify_eq.
  destruct (Z.eq_dec (timestamp e1 + delay) 0) as [Hz|Hz].
  - rewrite Hz. apply Hwf.
  - pose proof (ev_eta _ _ _ Hev Hz) as Heq. cbn in Heq. by rewrite <- Heq.
Qed.

(** In every reachable world proposals are numbered from zero without gaps, a
    vote is recorded only for an existing proposal and once per voter, and the
    tallies of a proposal are the sums of the recorded weights. *)
Theorem votes_tally t n w i p :
  reachable self t n w → ProposalAt (store w) !! i = Some p →
  0 ≤ i < count (store w) ∧ pr_id p = i ∧
  pr_for_votes p = tally (Vote (store w)) i For ∧
  pr_against_votes p = tally (Vote (store w)) i Against ∧
  pr_abstain_votes p = tally (Vote (store w)) i Abstain.
Proof.
  intros Hreach Hp. pose proof (gov_reachable_inv self _ _ _ Hreach) as Hi.
  destruct (gi_proposal _ _ Hi _ _ Hp). split_and!; try done; apply (gi_ids _ _ Hi); eauto.
Qed.

(** In every reachable world the power delegated to an account is the sum of
    the delegations recorded for it, and nobody delegates to itself. *)
Theorem delegated_power_exact t n w a :
  reachable self t n w →
  delegated (store w) a = delegated_to (DelegationOf (store w)) a ∧
  ∀ d, DelegationOf (store w) !! a = Some d → dl_delegator d = a ∧ dl_delegatee d ≠ a.
Proof.
  intros Hreach. pose proof (gov_reachable_inv self _ _ _ Hreach) as Hi.
  split; [apply (gi_delegated _ _ Hi)|intros d; apply (gi_delegation _ _ Hi)].
Qed.

(** A delegation adds its amount to the delegatee's voting power and takes
    nothing from the delegator's, at every later time: the same tokens vote
    twice (and with a negative amount, which is accepted, the delegatee's power
    is reduced). *)
Theorem delegation_double_counts a b k e w w' :
  delegate a b k e w = Ok (tt, w') →
  ∀ t, power_of w' t a = power_of w t a ∧ power_of w' t b = power_of w t b + k.
Proof.
  intros Hr t. apply delegate_spec in Hr as (_ & Hab & _ & Hl & (tk & Htk & _) & Hst).
  unfold power_of. rewrite Hst, Hl. cbn. rewrite Htk. unfold delegated. cbn.
  rewrite lookup_insert_ne, lookup_insert_eq by done. simpl. unfold delegated. split; [done|lia].
Qed.

(** What decides the outcome of a vote. *)
Definition settings (st : State) := (Quorum st, ApprovalThreshold st, TotalSupply st).

Lemma passed_same st st' p p' :
  settings st' = settings st → votes_part p' = votes_part p → passed st' p' = passed st p.
Proof. unfold settings, votes_part, passed. intros [= -> -> ->] [= -> -> ->]. done. Qed.

Lemma state_moves st st' p p' t n t' n' :
  evolves n p p' → t ≤ t' → n ≤ n' →
  (pr_eta p ≠ 0 → pr_eta p + grace_period < t → pr_executed p = false → pr_executed p' = false) →
  phase (state_of st p t n) ≤ phase (state_of st' p' t' n') ∧
  (settings st' = settings st → rtc next (state_of st p t n) (state_of st' p' t' n')).
Proof.
  intros [Hf Hc Hx Heta Hv] Ht Hn Hexp. unfold fixed_part in Hf. injection Hf as _ _ _ _ _ _ _ Hs He _.
  unfold state_of. rewrite Hs, He. destruct (pr_canceled p) eqn:Ec; [by rewrite (Hc eq_refl)|].
  destruct (n <? pr_vote_start p) eqn:E1; [split; [repeat case_match; done|intros; apply pending_rtc]|].
  zbool. rewrite (proj2 (Z.ltb_ge n' _)) by lia. destruct (n <=? pr_vote_end p) eqn:E2.
  { split; [repeat case_match; done|]. intros _. apply active_rtc. by repeat case_match. }
  zbool. rewrite (proj2 (Z.leb_gt n' _)) by lia. split; [repeat case_match; done|]. intros Hset.
  rewrite (passed_same st st' p p') by auto. destruct (passed st p) eqn:Ep; cbn [negb].
  - destruct (pr_executed p) eqn:Ex.
    { rewrite (Hx eq_refl), Ec, Ex. done. }
    destruct (pr_eta p =? 0) eqn:Ez; zbool; [apply succeeded_rtc; repeat case_match; tauto|].
    rewrite (Heta Ez), (proj2 (Z.eqb_neq _ _) Ez). destruct (t >? _) eqn:Eg; zbool.
    + rewrite (Hexp Ez) by (done || lia). rewrite (proj2 (Z.gtb_lt t' _)) by lia.
      destruct (pr_canceled p'); [by apply rtc_once; constructor|done].
    + apply queued_rtc. repeat case_match; tauto.
  - destruct (pr_canceled p'); [by apply rtc_once; constructor|done].
Qed.

(** C17: between two queries of a proposal's state, whatever calls come between, its
    phase never goes back (before the vote, during it, decided, canceled); and if
    the quorum, the approval threshold and the total supply are the same at both,
    the second state is reached from the first along the life cycle: pending,
    active, defeated or succeeded, queued, executed or expired, with cancellation
    from every state but executed.  (A change of the quorum or of the threshold
    changes the outcome of votes long decided, also of executed proposals.) *)
Theorem states_follow_lifecycle t n w e t' n' w' e' i s s' w1 w2 :
  reachable self t n w → t ≤ timestamp e → n ≤ sequence e →
  get_proposal_state i e w = Ok (s, w1) →
  rtc (gov_step self) (timestamp e, sequence e, w) (t', n', w') → t' ≤ timestamp e' → n' ≤ sequence e' →
  get_proposal_state i e' w' = Ok (s', w2) →
  phase s ≤ phase s' ∧ (settings (store w') = settings (store w) → rtc next s s').
Proof.
  intros Hreach Ht Hn Hq Hsteps Ht' Hn' Hq'.
  pose proof (gov_inv_later _ _ _ Hn (gov_reachable_inv self _ _ _ Hreach)) as Hi.
  unfold get_proposal_state in Hq, Hq'. minv Hq. spec get_proposal_spec as [Hp ->]. apply state_spec in Hq as [-> _].
  minv Hq'. spec get_proposal_spec as [Hp' ->]. apply state_spec in Hq' as [-> _].
  destruct (gov_steps_evolve self _ _ _ _ _ _ _ _ Hsteps Hi Hp) as (p1 & Hp1 & Hev). simplify_eq.
  destruct (gov_steps_inv self _ _ _ _ _ _ Hsteps Hi) as [Hnn _].
  pose proof (gov_steps_time self _ _ _ _ _ _ Hsteps) as Htt.
  apply state_moves; [done|lia|lia|]. intros He Hg Hx. by eapply (gov_steps_expired self).
Qed.

(** A lock moves no tokens, and at once adds its whole amount to the power of
    the account that keeps them. *)
Lemma lock_boost_is_free a k d e w w' :
  lock_tokens a k d e w = Ok (tt, w') →
  ledger w' = ledger w ∧ power_of w' (timestamp e) a = power_of w (timestamp e) a + k.
Proof.
  intros Hr. apply lock_spec in Hr as (_ & Hk & Hd & Hnew & Hl & (tk & Htk & _) & Hst).
  split; [done|]. unfold power_of. rewrite Hst, Hl. cbn. rewrite Htk, lookup_insert_eq, Hnew. cbn.
  unfold MIN_LOCK_DURATION in Hd. rewrite (Z.geb_leb (timestamp e)), (proj2 (Z.leb_gt _ _)) by lia.
  replace (timestamp e + d - timestamp e) with d by lia. rewrite Z.quot_mul by lia.
  unfold delegated. cbn. lia.
Qed.
End theorems.

(** ** A concrete history *)

Module GovernanceDemo.

Definition self := mkAddress "GOV".
Definition adm := mkAddress "ADM".
Definition alice := mkAddress "ALICE".
Definition bob := mkAddress "BOB".
Definition carol := mkAddress "CAROL".
Definition tk := mkAddress "VOTE".

Definition w0 : World State Event := mkWorld deployed
  (sl_of [(tk, alice, 600); (tk, bob, 300); (tk, self, 50)]) [].
Definition e0 := env_in 1000 10 self [adm].
Definition w1 := world_of (initialize adm tk 5 20 100 2000 5000 100 1000 e0 w0) w0.

(** A script of calls with their times and ledgers. *)
Fixpoint run (cs : list (Z * Z * list Address * Call)) (w : World State Event) : World State Event :=
  match cs with
  | [] => w
  | (t, n, signers, c) :: cs' => run cs' (world_of (exec c (env_in t n self signers) w) w)
  end.

Fixpoint script_runs (t0 n0 : Z) (cs : list (Z * Z * list Address * Call)) (w : World State Event) : bool :=
  match cs with
  | [] => true
  | (t, n, signers, c) :: cs' =>
      let o := exec c (env_in t n self signers) w in
      (t0 <=? t) && (n0 <=? n)
      && ((0 <=? t) && (t <=? int_max U64) && (0 <=? n) && (n <=? int_max U32)
          && negb (bool_decide (self ∈ signers)))
      && is_ok o && script_runs t n cs' (world_of o w)
  end.

Fixpoint run_end (t0 n0 : Z) (cs : list (Z * Z * list Address * Call)) : Z * Z :=
  match cs with [] => (t0, n0) | (t, n, _, _) :: cs' => run_end t n cs' end.

Lemma run_reach t0 n0 cs w :
  script_runs t0 n0 cs w = true → Forall (λ c, call_ok c.2) cs →
  rtc (gov_step self) (t0, n0, w) (run_end t0 n0 cs, run cs w).
Proof.
  revert t0 n0 w. induction cs as [|[[[t n] signers] c] cs IH]; intros t0 n0 w Hok Hcs; [done|].
  cbn [script_runs] in Hok. apply andb_prop in Hok as [Hok Hrest]. apply andb_prop in Hok as [Hok Hrun].
  apply andb_prop in Hok as [Ht Hwf]. apply andb_prop in Ht as [Ht Hn]. apply Z.leb_le in Ht, Hn.
  apply Forall_cons in Hcs as [Hc Hcs]. eapply rtc_l; [|by apply IH].
  apply (gov_call self t0 n0 c (env_in t n self signers)); try done; [by apply env_in_wf|by apply run_ok_unit].
Qed.

Definition history : list (Z * Z * list Address * Call) :=
  [ (1010, 11, [alice], CPropose alice "pay" [] [] [] []);
    (1020, 20, [alice], CCastVote alice 0 For);
    (1030, 21, [bob], CCastVote bob 0 Against) ].
Definition w2 := run history w1.

Lemma gov_demo_reachable : reachable self 1030 21 w2.
Proof.
  exists e0, w1. split.
  - exists w0, adm, tk, 5, 20, 100, 2000, 5000, 100, 1000. split_and!.
    + apply env_in_wf. reflexivity.
    + reflexivity.
    + unfold w1. apply run_ok_unit. vm_compute. reflexivity.
  - unfold w2. apply (run_reach 1000 10 history w1); [vm_compute; reflexivity|]. repeat constructor.
Qed.

Definition p2 := mkProposal 0 alice "pay" [] [] [] 16 36 0 600 300 0 [] false false 1010.
Definition later : list (Z * Z * list Address * Call) :=
  [ (1200, 40, [bob], CQueue bob 0); (1300, 41, [bob], CExecute bob 0) ].
Definition w3 := run later w2.

Lemma proposal_lifecycle_witness :
  ProposalAt (store w2) !! 0 = Some p2 ∧
  ∃ p', ProposalAt (store w3) !! 0 = Some p' ∧ evolves 21 p2 p'.
Proof.
  split; [vm_compute; reflexivity|].
  apply (proposal_lifecycle self 1030 21 w2 1300 41 w3 0 p2).
  - exact gov_demo_reachable.
  - unfold w3. apply (run_reach 1030 21 later w2); [vm_compute; reflexivity|]. repeat constructor.
  - vm_compute. reflexivity.
Defined.

Definition e4 := env_in 1200 40 self [bob].
Definition w4 := world_of (queue bob 0 e4 w2) w2.
Definition e5 := env_in 1300 41 self [bob].
Definition w5 := world_of (execute bob 0 e5 w4) w4.

Lemma gov_demo_queued : reachable self 1200 40 w4.
Proof.
  destruct gov_demo_reachable as (e & w & Hs & Hsteps). exists e, w. split; [done|]. etrans; [exact Hsteps|].
  apply rtc_once. apply (gov_call self 1030 21 (CQueue bob 0) e4).
  - apply env_in_wf. reflexivity.
  - cbn. lia.
  - cbn. lia.
  - exact I.
  - unfold w4. apply run_ok_unit. vm_compute. reflexivity.
Qed.

Lemma execute_once_witness : is_ok (execute bob 0 e5 w4) = true ∧ execute bob 0 e5 w5 ≠ Ok (tt, w5).
Proof.
  split; [vm_compute; reflexivity|].
  refine (proj2 (execute_once self 1200 40 w4 bob 0 e5 w5 gov_demo_queued _ _)
    1300 41 w5 bob e5 (tt, w5) (rtc_refl _ _)).
  - cbn. lia.
  - unfold w5. apply run_ok_unit. vm_compute. reflexivity.
Defined.

Lemma timelock_respected_witness : 1200 + 100 ≤ timestamp e5.
Proof.
  apply (timelock_respected self 1030 21 w2 e4 bob 0 w4 100 1200 40 w4 e5 bob w5).
  - exact gov_demo_reachable.
  - cbn. lia.
  - vm_compute. reflexivity.
  - unfold w4. apply run_ok_unit. vm_compute. reflexivity.
  - exact (rtc_refl _ _).
  - apply env_in_wf. reflexivity.
  - unfold w5. apply run_ok_unit. vm_compute. reflexivity.
Defined.

Lemma votes_tally_witness : pr_for_votes p2 = tally (Vote (store w2)) 0 For.
Proof.
  apply (votes_tally self 1030 21 w2 0 p2 gov_demo_reachable). vm_compute. reflexivity.
Defined.

Lemma delegated_power_exact_witness :
  delegated (store w2) bob = delegated_to (DelegationOf (store w2)) bob.
Proof. exact (proj1 (delegated_power_exact self 1030 21 w2 bob gov_demo_reachable)). Defined.

Definition e6 := env_in 1100 30 self [alice].
Definition w6 := world_of (delegate alice carol 600 e6 w2) w2.

Lemma delegation_double_counts_witness :
  power_of w6 1100 alice = power_of w2 1100 alice ∧ power_of w6 1100 carol = power_of w2 1100 carol + 600.
Proof.
  apply (delegation_double_counts alice carol 600 e6 w2 w6).
  unfold w6. apply run_ok_unit. vm_compute. reflexivity.
Defined.

Definition e7 := env_in 1400 42 self [adm].

Lemma states_follow_lifecycle_witness : settings (store w5) = settings (store w4) ∧ rtc next Queued Executed.
Proof.
  assert (settings (store w5) = settings (store w4)) as Hs by (vm_compute; reflexivity). split; [exact Hs|].
  refine (proj2 (states_follow_lifecycle self 1200 40 w4 e5 1300 41 w5 e7 0 Queued Executed
    (world_of (get_proposal_state 0 e5 w4) w4) (world_of (get_proposal_state 0 e7 w5) w5) gov_demo_queued _ _ _ _ _ _ _) Hs).
  - cbn. lia.
  - cbn. lia.
  - apply (run_ok_val _ _ Pending); vm_compute; reflexivity.
  - apply rtc_once. apply (gov_call self 1300 41 (CExecute bob 0) e5).
    + apply env_in_wf. reflexivity.
    + cbn. lia.
    + cbn. lia.
    + exact I.
    + unfold w5. apply run_ok_unit. vm_compute. reflexivity.
  - cbn. lia.
  - cbn. lia.
  - apply (run_ok_val _ _ Pending); vm_compute; reflexivity.
Defined.

(** Once the quorum is raised, the executed proposal is reported as defeated. *)
Definition w7 := world_of (exec (CSetVotingParams adm None None None (Some 10000) None) e7 w5) w5.
Example executed_then_defeated :
  is_ok (exec (CSetVotingParams adm None None None (Some 10000) None) e7 w5) = true ∧
  value_of (get_proposal_state 0 e7 w5) Pending = Executed ∧ value_of (get_proposal_state 0 e7 w7) Pending = Defeated.
Proof. vm_compute. split_and!; reflexivity. Qed.
End GovernanceDemo.
