(* ===== verification/Membership.v ===== *)
(** * contracts/membership-subscription: tiers, subscriptions and referrals

    State and operations of [MembershipSubscription]
    (src/contracts/membership-subscription/src/lib.rs).  A [&mut Subscription]
    argument is passed in and returned. *)

From stdpp Require Import gmap strings list fin_maps.
From S2P Require Import Prelude Soroban.
Open Scope Z_scope.

(** ** Data *)

Definition BPS_DENOMINATOR : Z := 10000.
Definition MAX_REFERRAL_REWARD_BPS : Z := 5000.
Definition MAX_TIER_NAME_LENGTH : Z := 64.

Inductive SubscriptionStatus := Trial | Active | Paused | Cancelled | Expired.
#[global] Instance SubscriptionStatus_eq_dec : EqDecision SubscriptionStatus.
Proof. solve_decision. Defined.

Record MembershipTier := mkMembershipTier {
  mt_tier_id : Z;
  mt_name : string;
  mt_price_per_period : Z;
  mt_period_seconds : Z;
  mt_trial_seconds : Z;
  mt_benefit_flags : Z;
  mt_referral_reward_bps : Z;
  mt_active : bool;
  mt_created_at : Z;
  mt_updated_at : Z;
}.

Record Subscription := mkSubscription {
  sb_member : Address;
  sb_tier_id : Z;
  sb_token : Address;
  sb_status : SubscriptionStatus;
  sb_auto_renew : bool;
  sb_started_at : Z;
  sb_current_period_start : Z;
  sb_current_period_end : Z;
  sb_trial_end : Z;
  sb_paused_at : Z;
  sb_paused_accumulated_seconds : Z;
  sb_referrer : option Address;
  sb_total_paid : Z;
  sb_total_referral_rewards : Z;
  sb_updated_at : Z;
}.

Record SubscriptionAnalytics := mkSubscriptionAnalytics {
  an_total_subscriptions : Z;
  an_active_subscriptions : Z;
  an_cancelled_subscriptions : Z;
  an_expired_subscriptions : Z;
  an_paused_subscriptions : Z;
  an_total_revenue : Z;
  an_total_refunds : Z;
  an_total_referral_rewards : Z;
}.

Definition empty : SubscriptionAnalytics := mkSubscriptionAnalytics 0 0 0 0 0 0 0 0.

Record RenewalResult := mkRenewalResult {
  rr_charged_amount : Z;
  rr_referral_reward : Z;
  rr_period_start : Z;
  rr_period_end : Z;
  rr_status : SubscriptionStatus;
}.

Record TierChangeResult := mkTierChangeResult {
  tc_old_tier_id : Z;
  tc_new_tier_id : Z;
  tc_charge_amount : Z;
  tc_refund_amount : Z;
  tc_period_start : Z;
  tc_period_end : Z;
}.

Record ProrationQuote := mkProrationQuote {
  pq_remaining_credit : Z;
  pq_charge_amount : Z;
  pq_refund_amount : Z;
}.

(** One field per key of [DataKey]; [None] and absence are the unset key. *)
Record State := mkState {
  Admin : option Address;
  Tier : gmap Z MembershipTier;
  TierIds : option (list Z);
  SubscriptionOf : gmap Address Subscription;
  Analytics : option SubscriptionAnalytics;
  ReferralRewards : gmap Address Z;
  ReentrancyLock : option bool;
}.

Inductive Event :=
| sub_init (admin : Address)
| tier_new (admin : Address) (tier_id : Z)
| tier_upd (admin : Address) (tier_id : Z) (active : bool)
| sub_new (member : Address) (tier_id : Z) (status : SubscriptionStatus)
| sub_fail (member : Address) (tier_id : Z)
| sub_ren (member : Address) (tier_id price reward : Z)
| sub_can (member : Address) (refund : Z)
| sub_pau (member : Address)
| sub_res (member : Address) (period_end : Z)
| sub_tier (member : Address) (old_tier new_tier charge refund : Z).

Ltac mred v ::= eval cbn [store ledger log Admin Tier TierIds SubscriptionOf Analytics ReferralRewards
  ReentrancyLock mt_tier_id mt_name mt_price_per_period mt_period_seconds mt_trial_seconds
  mt_benefit_flags mt_referral_reward_bps mt_active mt_created_at mt_updated_at sb_member sb_tier_id
  sb_token sb_status sb_auto_renew sb_started_at sb_current_period_start sb_current_period_end
  sb_trial_end sb_paused_at sb_paused_accumulated_seconds sb_referrer sb_total_paid
  sb_total_referral_rewards sb_updated_at an_total_subscriptions an_active_subscriptions
  an_cancelled_subscriptions an_expired_subscriptions an_paused_subscriptions an_total_revenue
  an_total_refunds an_total_referral_rewards pq_remaining_credit pq_charge_amount
  pq_refund_amount fst snd] in v.

Section contract.
Context `{TokenHost}.

Local Abbreviation C := (M State Empty_set Event).

(** ** Internals *)

Definition analytics : C SubscriptionAnalytics := gets (λ s, default empty (Analytics s)).
Definition set_analytics (a : SubscriptionAnalytics) : C () :=
  modify (λ s, {| s with Analytics := Some a |}).
Definition tier_ids : C (list Z) := gets (λ s, default [] (TierIds s)).
Definition maybe_subscription (member : Address) : C (option Subscription) :=
  gets (λ s, SubscriptionOf s !! member).
Definition load_subscription (member : Address) : C Subscription :=
  o ← gets (λ s, SubscriptionOf s !! member);
  expect o "Subscription not found".
Definition set_subscription (member : Address) (sub : Subscription) : C () :=
  modify (λ s, {| s with SubscriptionOf := <[member := sub]> (SubscriptionOf s) |}).
Definition load_tier (tier_id : Z) : C MembershipTier :=
  panic_if (tier_id =? 0) "Invalid tier ID";;
  o ← gets (λ s, Tier s !! tier_id);
  expect o "Tier not found".
Definition set_tier (tier_id : Z) (tier : MembershipTier) : C () :=
  modify (λ s, {| s with Tier := <[tier_id := tier]> (Tier s) |}).
Definition load_active_tier (tier_id : Z) : C MembershipTier :=
  tier ← load_tier tier_id;
  panic_if (negb (mt_active tier)) "Tier is inactive";;
  mret tier.

Definition assert_admin (caller : Address) : C () :=
  o ← gets Admin;
  admin ← expect o "Contract not initialized";
  panic_if (bool_decide (caller ≠ admin)) "Unauthorized: caller is not admin".

Definition validate_tier_terms (name : string) (price_per_period period_seconds
    referral_reward_bps : Z) : C () :=
  panic_if (Z.of_nat (String.length name) >? MAX_TIER_NAME_LENGTH)
    "Tier name exceeds maximum length";;
  panic_if (price_per_period <=? 0) "Tier price must be positive";;
  panic_if (period_seconds =? 0) "Period must be positive";;
  panic_if (referral_reward_bps >? MAX_REFERRAL_REWARD_BPS) "Referral reward too high".

Definition enter_non_reentrant : C () :=
  locked ← gets (λ s, default false (ReentrancyLock s));
  panic_if locked "Reentrant call blocked";;
  modify (λ s, {| s with ReentrancyLock := Some true |}).
Definition exit_non_reentrant : C () := modify (λ s, {| s with ReentrancyLock := Some false |}).

Definition transfer_token (token from to : Address) (amount : Z) : C () :=
  panic_if (amount <=? 0) "Transfer amount must be positive";;
  enter_non_reentrant;;
  token_transfer token from to amount;;
  exit_non_reentrant.

(** *** Analytics *)

Definition record_subscription_created : C () :=
  a ← analytics;
  total ← expect (checked_add U64 (an_total_subscriptions a) 1) "Subscription count overflow";
  active ← expect (checked_add U64 (an_active_subscriptions a) 1) "Active count overflow";
  set_analytics {| a with an_total_subscriptions := total; an_active_subscriptions := active |}.

Definition record_revenue (revenue referral_reward : Z) : C () :=
  a ← analytics;
  r ← expect (checked_add I128 (an_total_revenue a) revenue) "Revenue overflow";
  rr ← expect (checked_add I128 (an_total_referral_rewards a) referral_reward)
         "Referral analytics overflow";
  set_analytics {| a with an_total_revenue := r; an_total_referral_rewards := rr |}.

Definition record_refund (refund : Z) : C () :=
  a ← analytics;
  r ← expect (checked_add I128 (an_total_refunds a) refund) "Refund analytics overflow";
  set_analytics {| a with an_total_refunds := r |}.

Definition record_cancelled (refund : Z) : C () :=
  a ← analytics;
  c ← expect (checked_add U64 (an_cancelled_subscriptions a) 1) "Cancelled count overflow";
  let active := saturating_sub U64 (an_active_subscriptions a) 1 in
  r ← expect (checked_add I128 (an_total_refunds a) refund) "Refund analytics overflow";
  set_analytics {| a with an_cancelled_subscriptions := c; an_active_subscriptions := active;
    an_total_refunds := r |}.

Definition record_expired : C () :=
  a ← analytics;
  x ← expect (checked_add U64 (an_expired_subscriptions a) 1) "Expired count overflow";
  set_analytics {| a with an_expired_subscriptions := x;
    an_active_subscriptions := saturating_sub U64 (an_active_subscriptions a) 1 |}.

Definition record_paused : C () :=
  a ← analytics;
  p ← expect (checked_add U64 (an_paused_subscriptions a) 1) "Paused count overflow";
  set_analytics {| a with an_paused_subscriptions := p |}.

Definition record_resumed : C () :=
  a ← analytics;
  set_analytics {| a with an_paused_subscriptions := saturating_sub U64 (an_paused_subscriptions a) 1 |}.

Definition is_non_terminal (status : SubscriptionStatus) : bool :=
  bool_decide (status = Active) || bool_decide (status = Trial) || bool_decide (status = Paused).

Definition expire_subscription (subscription : Subscription) : C Subscription :=
  t ← now;
  let sub := {| subscription with sb_status := Expired; sb_auto_renew := false;
                sb_updated_at := t |} in
  set_subscription (sb_member sub) sub;;
  record_expired;;
  mret sub.

Definition unused_period_value (subscription : Subscription) : C Z :=
  if bool_decide (sb_status subscription = Trial) then mret 0
  else
    t ← now;
    if sb_current_period_end subscription <=? t then mret 0
    else
      tier ← load_tier (sb_tier_id subscription);
      remaining ← expect (checked_sub U64 (sb_current_period_end subscription) t)
                    "Remaining time underflow";
      p ← expect (checked_mul I128 (mt_price_per_period tier) remaining)
            "Proration multiplication overflow";
      plain_div I128 p (mt_period_seconds tier).

Definition quote_proration_inner (subscription : Subscription) (new_tier : MembershipTier)
    : C ProrationQuote :=
  remaining_credit ← unused_period_value subscription;
  if mt_price_per_period new_tier >? remaining_credit then
    c ← expect (checked_sub I128 (mt_price_per_period new_tier) remaining_credit) "Charge underflow";
    mret (mkProrationQuote remaining_credit c 0)
  else
    r ← expect (checked_sub I128 remaining_credit (mt_price_per_period new_tier)) "Refund underflow";
    mret (mkProrationQuote remaining_credit 0 r).

(** Returns the reward and the updated subscription. *)
Definition pay_referral_reward (tier : MembershipTier) (subscription : Subscription)
    : C (Z * Subscription) :=
  match sb_referrer subscription with
  | None => mret (0, subscription)
  | Some referrer =>
      p ← expect (checked_mul I128 (mt_price_per_period tier) (mt_referral_reward_bps tier))
            "Referral reward overflow";
      let reward := p `quot` BPS_DENOMINATOR in
      if reward <=? 0 then mret (0, subscription)
      else
        wallet ← self_address;
        transfer_token (sb_token subscription) wallet referrer reward;;
        current ← gets (λ s, default 0 (ReferralRewards s !! referrer));
        total ← expect (checked_add I128 current reward) "Referral total overflow";
        modify (λ s, {| s with ReferralRewards := <[referrer := total]> (ReferralRewards s) |});;
        rewards ← expect (checked_add I128 (sb_total_referral_rewards subscription) reward)
                    "Subscription reward overflow";
        mret (reward, {| subscription with sb_total_referral_rewards := rewards |})
  end.

Definition charge_member_direct (member token : Address) (tier : MembershipTier)
    (subscription : Subscription) : C (Z * Subscription) :=
  wallet ← self_address;
  transfer_token token member wallet (mt_price_per_period tier);;
  r ← pay_referral_reward tier subscription;
  paid ← expect (checked_add I128 (sb_total_paid r.2) (mt_price_per_period tier))
           "Subscription paid overflow";
  mret (r.1, {| (r.2) with sb_total_paid := paid |}).

Definition is_active_inner (member : Address) : C bool :=
  o ← maybe_subscription member;
  match o with
  | None => mret false
  | Some sub =>
      if bool_decide (sb_status sub ≠ Active) && bool_decide (sb_status sub ≠ Trial) then mret false
      else
        t ← now;
        mret (t <=? sb_current_period_end sub)
  end.

(** ** Entry points *)

Definition initialize (admin : Address) : C () :=
  has ← gets Admin;
  panic_if (bool_decide (is_Some has)) "Already initialized";;
  require_auth admin;;
  modify (λ s, {| s with Admin := Some admin |});;
  modify (λ s, {| s with TierIds := Some [] |});;
  set_analytics empty;;
  modify (λ s, {| s with ReentrancyLock := Some false |});;
  publish (sub_init admin).

Definition create_tier (admin : Address) (tier_id : Z) (name : string) (price_per_period period_seconds
    trial_seconds benefit_flags referral_reward_bps : Z) : C () :=
  require_auth admin;;
  assert_admin admin;;
  panic_if (tier_id =? 0) "Invalid tier ID";;
  o ← gets (λ s, Tier s !! tier_id);
  panic_if (bool_decide (is_Some o)) "Tier already exists";;
  validate_tier_terms name price_per_period period_seconds referral_reward_bps;;
  t ← now;
  set_tier tier_id (mkMembershipTier tier_id name price_per_period period_seconds trial_seconds
    benefit_flags referral_reward_bps true t t);;
  ids ← tier_ids;
  modify (λ s, {| s with TierIds := Some (ids ++ [tier_id]) |});;
  publish (tier_new admin tier_id).

Definition update_tier (admin : Address) (tier_id : Z) (name : string) (price_per_period period_seconds
    trial_seconds benefit_flags referral_reward_bps : Z) (active : bool) : C MembershipTier :=
  require_auth admin;;
  assert_admin admin;;
  validate_tier_terms name price_per_period period_seconds referral_reward_bps;;
  tier ← load_tier tier_id;
  t ← now;
  let tier' := {| tier with mt_name := name; mt_price_per_period := price_per_period;
    mt_period_seconds := period_seconds; mt_trial_seconds := trial_seconds;
    mt_benefit_flags := benefit_flags; mt_referral_reward_bps := referral_reward_bps;
    mt_active := active; mt_updated_at := t |} in
  set_tier tier_id tier';;
  publish (tier_upd admin tier_id active);;
  mret tier'.

(** The subscription [subscribe] builds before charging. *)
Definition new_subscription (member token : Address) (tier_id : Z) (auto_renew : bool)
    (referrer : option Address) (has_trial : bool) (t period_end : Z) : Subscription :=
  mkSubscription member tier_id token (if has_trial then Trial else Active) auto_renew t t period_end
    (if has_trial then period_end else 0) 0 0 referrer 0 0 t.

Definition subscribe (member token : Address) (tier_id : Z) (auto_renew : bool)
    (referrer : option Address) : C Subscription :=
  require_auth member;;
  tier ← load_active_tier tier_id;
  existing ← maybe_subscription member;
  panic_if (from_option (λ sub, is_non_terminal (sb_status sub)) false existing)
    "Member already has subscription";;
  panic_if (bool_decide (referrer = Some member)) "Member cannot refer themselves";;
  t ← now;
  let has_trial := mt_trial_seconds tier >? 0 in
  period_end ← (if has_trial then expect (checked_add U64 t (mt_trial_seconds tier)) "Trial end overflow"
                else expect (checked_add U64 t (mt_period_seconds tier)) "Period end overflow");
  let subscription := new_subscription member token tier_id auto_renew referrer has_trial t period_end in
  subscription' ← (if negb has_trial then
      r ← charge_member_direct member token tier subscription;
      record_revenue (mt_price_per_period tier) r.1;;
      mret r.2
    else mret subscription);
  set_subscription member subscription';;
  record_subscription_created;;
  publish (sub_new member tier_id (if has_trial then Trial else Active));;
  mret subscription'.

Definition renew_subscription (member : Address) : C RenewalResult :=
  subscription ← load_subscription member;
  panic_if (bool_decide (sb_status subscription = Paused)) "Paused subscription cannot renew";;
  panic_if (negb (is_non_terminal (sb_status subscription))) "Subscription is not renewable";;
  t ← now;
  panic_if (t <? sb_current_period_end subscription) "Subscription is not due";;
  tier ← load_active_tier (sb_tier_id subscription);
  if negb (sb_auto_renew subscription) then
    sub ← expire_subscription subscription;
    mret (mkRenewalResult 0 0 (sb_current_period_start sub) (sb_current_period_end sub) (sb_status sub))
  else
    wallet ← self_address;
    allowance ← token_allowance (sb_token subscription) member wallet;
    balance ← token_balance (sb_token subscription) member;
    if (allowance <? mt_price_per_period tier) || (balance <? mt_price_per_period tier) then
      sub ← expire_subscription subscription;
      publish (sub_fail member (mt_tier_id tier));;
      mret (mkRenewalResult 0 0 (sb_current_period_start sub) (sb_current_period_end sub) (sb_status sub))
    else
      enter_non_reentrant;;
      token_transfer_from (sb_token subscription) wallet member wallet (mt_price_per_period tier);;
      exit_non_reentrant;;
      r ← pay_referral_reward tier subscription;
      paid ← expect (checked_add I128 (sb_total_paid r.2) (mt_price_per_period tier))
               "Subscription paid overflow";
      period_end ← expect (checked_add U64 t (mt_period_seconds tier)) "Period end overflow";
      let sub := {| (r.2) with sb_total_paid := paid; sb_status := Active;
        sb_current_period_start := t; sb_current_period_end := period_end; sb_trial_end := 0;
        sb_updated_at := t |} in
      set_subscription member sub;;
      record_revenue (mt_price_per_period tier) r.1;;
      publish (sub_ren member (mt_tier_id tier) (mt_price_per_period tier) r.1);;
      mret (mkRenewalResult (mt_price_per_period tier) r.1 t period_end Active).

Definition cancel_subscription (member : Address) : C Z :=
  require_auth member;;
  subscription ← load_subscription member;
  panic_if (negb (is_non_terminal (sb_status subscription))) "Subscription already terminal";;
  refund ← unused_period_value subscription;
  t ← now;
  set_subscription member {| subscription with sb_status := Cancelled; sb_auto_renew := false;
    sb_updated_at := t |};;
  record_cancelled refund;;
  (if refund >? 0 then
     wallet ← self_address;
     transfer_token (sb_token subscription) wallet member refund
   else mret tt);;
  publish (sub_can member refund);;
  mret refund.

Definition pause_subscription (member : Address) : C () :=
  require_auth member;;
  subscription ← load_subscription member;
  panic_if (bool_decide (sb_status subscription ≠ Active) && bool_decide (sb_status subscription ≠ Trial))
    "Subscription cannot be paused";;
  t ← now;
  set_subscription member {| subscription with sb_status := Paused; sb_paused_at := t;
    sb_updated_at := t |};;
  record_paused;;
  publish (sub_pau member).

Definition resume_subscription (member : Address) : C Subscription :=
  require_auth member;;
  subscription ← load_subscription member;
  panic_if (bool_decide (sb_status subscription ≠ Paused)) "Subscription is not paused";;
  t ← now;
  paused_duration ← expect (checked_sub U64 t (sb_paused_at subscription)) "Resume before pause";
  accumulated ← expect (checked_add U64 (sb_paused_accumulated_seconds subscription) paused_duration)
                  "Paused duration overflow";
  period_end ← expect (checked_add U64 (sb_current_period_end subscription) paused_duration)
                 "Period extension overflow";
  trial_end ← (if (sb_trial_end subscription >=? sb_paused_at subscription)
                  && (sb_trial_end subscription >? 0) then
      expect (checked_add U64 (sb_trial_end subscription) paused_duration) "Trial extension overflow"
    else mret (sb_trial_end subscription));
  let sub := {| subscription with sb_paused_accumulated_seconds := accumulated;
    sb_current_period_end := period_end; sb_trial_end := trial_end;
    sb_status := if trial_end >? t then Trial else Active; sb_paused_at := 0; sb_updated_at := t |} in
  set_subscription member sub;;
  record_resumed;;
  publish (sub_res member period_end);;
  mret sub.

Definition change_tier (member : Address) (new_tier_id : Z) : C TierChangeResult :=
  require_auth member;;
  subscription ← load_subscription member;
  panic_if (bool_decide (sb_status subscription ≠ Active) && bool_decide (sb_status subscription ≠ Trial))
    "Subscription is not active";;
  old_tier ← load_tier (sb_tier_id subscription);
  new_tier ← load_active_tier new_tier_id;
  quote ← quote_proration_inner subscription new_tier;
  wallet ← self_address;
  paid ← (if pq_charge_amount quote >? 0 then
      transfer_token (sb_token subscription) member wallet (pq_charge_amount quote);;
      p ← expect (checked_add I128 (sb_total_paid subscription) (pq_charge_amount quote))
            "Subscription paid overflow";
      record_revenue (pq_charge_amount quote) 0;;
      mret p
    else mret (sb_total_paid subscription));
  (if pq_refund_amount quote >? 0 then
     transfer_token (sb_token subscription) wallet member (pq_refund_amount quote);;
     record_refund (pq_refund_amount quote)
   else mret tt);;
  t ← now;
  period_end ← expect (checked_add U64 t (mt_period_seconds new_tier)) "Period end overflow";
  set_subscription member {| subscription with sb_total_paid := paid; sb_tier_id := new_tier_id;
    sb_status := Active; sb_current_period_start := t; sb_current_period_end := period_end;
    sb_trial_end := 0; sb_updated_at := t |};;
  publish (sub_tier member (mt_tier_id old_tier) new_tier_id (pq_charge_amount quote)
    (pq_refund_amount quote));;
  mret (mkTierChangeResult (mt_tier_id old_tier) new_tier_id (pq_charge_amount quote)
    (pq_refund_amount quote) t period_end).

(** ** Views *)

Definition quote_tier_change (member : Address) (new_tier_id : Z) : C ProrationQuote :=
  subscription ← load_subscription member;
  new_tier ← load_active_tier new_tier_id;
  quote_proration_inner subscription new_tier.

Definition has_benefit (member : Address) (benefit_flag : Z) : C bool :=
  if benefit_flag =? 0 then mret false
  else
    active ← is_active_inner member;
    if negb active then mret false
    else
      subscription ← load_subscription member;
      tier ← load_tier (sb_tier_id subscription);
      mret (Z.land (mt_benefit_flags tier) benefit_flag =? benefit_flag).

Definition is_active (member : Address) : C bool := is_active_inner member.
Definition get_subscription (member : Address) : C Subscription := load_subscription member.
Definition get_tier (tier_id : Z) : C MembershipTier := load_tier tier_id.
Definition get_tiers : C (list MembershipTier) :=
  ids ← tier_ids;
  foldM (λ tiers id, tier ← load_tier id; mret (tiers ++ [tier])) [] ids.
Definition get_analytics : C SubscriptionAnalytics := analytics.
Definition referral_rewards (referrer : Address) : C Z :=
  gets (λ s, default 0 (ReferralRewards s !! referrer)).

End contract.

(** ** Entry points as calls *)

Inductive Call :=
| CInitialize (admin : Address)
| CCreateTier (admin : Address) (tier_id : Z) (name : string) (price period trial flags bps : Z)
| CUpdateTier (admin : Address) (tier_id : Z) (name : string) (price period trial flags bps : Z)
    (active : bool)
| CSubscribe (member token : Address) (tier_id : Z) (auto_renew : bool) (referrer : option Address)
| CRenew (member : Address)
| CCancel (member : Address)
| CPause (member : Address)
| CResume (member : Address)
| CChangeTier (member : Address) (new_tier_id : Z).

Section calls.
Context `{TokenHost}.

Definition exec (c : Call) : M State Empty_set Event () :=
  match c with
  | CInitialize admin => initialize admin
  | CCreateTier admin id name price period trial flags bps =>
      create_tier admin id name price period trial flags bps
  | CUpdateTier admin id name price period trial flags bps active =>
      discard (update_tier admin id name price period trial flags bps active)
  | CSubscribe member token id auto_renew referrer =>
      discard (subscribe member token id auto_renew referrer)
  | CRenew member => discard (renew_subscription member)
  | CCancel member => discard (cancel_subscription member)
  | CPause member => pause_subscription member
  | CResume member => discard (resume_subscription member)
  | CChangeTier member id => discard (change_tier member id)
  end.
End calls.

(** The unsigned arguments of a call are non-negative, by their Rust types. *)
Definition call_ok (c : Call) : Prop :=
  match c with
  | CCreateTier _ id _ _ period trial flags bps | CUpdateTier _ id _ _ period trial flags bps _ =>
      0 ≤ id ∧ 0 ≤ period ∧ 0 ≤ trial ∧ 0 ≤ flags ∧ 0 ≤ bps
  | _ => True
  end.

Definition deployed : State := mkState None ∅ None ∅ None ∅ None.
