(* ===== verification/MembershipProofs.v ===== *)
(** * contracts/membership-subscription: invariants and theorems

    The analytics against the stored subscriptions, who may change a
    subscription, pause and resume, and two ways in which refunds exceed what
    was paid. *)

From stdpp Require Import gmap strings list fin_maps.
From S2P Require Import Prelude Soroban TokenModel Membership.
Open Scope Z_scope.

(** ** Specifications of the internals *)

Definition reward_of (tier : MembershipTier) : Z :=
  (mt_price_per_period tier * mt_referral_reward_bps tier) `quot` BPS_DENOMINATOR.

Definition rewarded (sub : Subscription) (r : Z) : Subscription :=
  {| sub with sb_total_referral_rewards := sb_total_referral_rewards sub + r |}.

(** The parts of the state a payment does not touch. *)
Definition same_subs (st st' : State) : Prop :=
  SubscriptionOf st' = SubscriptionOf st ∧ Analytics st' = Analytics st ∧ Tier st' = Tier st ∧
  Admin st' = Admin st.

Definition stats (st : State) : SubscriptionAnalytics := default empty (Analytics st).

Section specs.
Context `{TokenHost}.
Implicit Types (w : World State Event) (e : Env).

Lemma load_subscription_spec m e w s w' :
  load_subscription m e w = Ok (s, w') → SubscriptionOf (store w) !! m = Some s ∧ w' = w.
Proof. intros Hr. by minv Hr using load_subscription. Qed.

Lemma member_load_tier_spec i e w t w' :
  load_tier i e w = Ok (t, w') → Tier (store w) !! i = Some t ∧ w' = w.
Proof. intros Hr. by minv Hr using load_tier. Qed.

Lemma load_active_tier_spec i e w t w' :
  load_active_tier i e w = Ok (t, w') → Tier (store w) !! i = Some t ∧ mt_active t = true ∧ w' = w.
Proof.
  intros Hr. unfold load_active_tier in Hr. minv Hr. spec member_load_tier_spec as [? ->]. zbool. done.
Qed.

Lemma member_assert_admin_spec a e w u w' :
  assert_admin a e w = Ok (u, w') → Admin (store w) = Some a ∧ w' = w.
Proof. intros Hr. unfold assert_admin in Hr. minv Hr. zbool. by subst. Qed.

Lemma member_transfer_spec tk from to n e w u w' :
  transfer_token tk from to n e w = Ok (u, w') →
  0 < n ∧ tok_transfer e (ledger w) tk from to n = Some (ledger w') ∧ same_subs (store w) (store w').
Proof.
  intros Hr. unfold transfer_token, enter_non_reentrant, exit_non_reentrant in Hr. minv Hr. zbool. by split_and!.
Qed.

Lemma pay_referral_spec tier sub e w r sub' w' :
  pay_referral_reward tier sub e w = Ok ((r, sub'), w') →
  sub' = rewarded sub r ∧ same_subs (store w) (store w') ∧
  (r = 0 ∧ (sb_referrer sub = None ∨ reward_of tier ≤ 0) ∧ ledger w' = ledger w ∨
   ∃ ref, sb_referrer sub = Some ref ∧ r = reward_of tier ∧ 0 < r ∧
     tok_transfer e (ledger w) (sb_token sub) (current_contract_address e) ref r = Some (ledger w')).
Proof.
  intros Hr. unfold pay_referral_reward in Hr.
  assert (rewarded sub 0 = sub) as Hzero by (destruct sub; unfold rewarded; cbn; by rewrite Z.add_0_r).
  destruct (sb_referrer sub) as [ref|] eqn:Href.
  - minv Hr; inv_checked.
    + zbool. split_and!; try done; left; auto.
    + spec member_transfer_spec as (Hpos & Ht & F1 & F2 & F3 & F4).
      unfold rewarded. rewrite Href. split_and!; try done. right. exists ref. by split_and!.
  - minv Hr. split_and!; try done; left; auto.
Qed.

Lemma unused_spec sub e w v w' :
  unused_period_value sub e w = Ok (v, w') →
  w' = w ∧ (v = 0 ∨ sb_status sub ≠ Trial ∧ timestamp e < sb_current_period_end sub ∧
    ∃ tier, Tier (store w) !! sb_tier_id sub = Some tier ∧ mt_period_seconds tier ≠ 0 ∧
      v = (mt_price_per_period tier * (sb_current_period_end sub - timestamp e))
            `quot` mt_period_seconds tier).
Proof.
  intros Hr. unfold unused_period_value in Hr. minv Hr; zbool; try (split; [done|by left]).
  spec member_load_tier_spec as [Htier ->]. inv_checked. split; [done|]. right. split_and!; try done. eauto.
Qed.
End specs.

(** ** Counting subscriptions *)

Definition live_one (s : Subscription) : Z := if is_non_terminal (sb_status s) then 1 else 0.
Definition live (subs : gmap Address Subscription) : Z := msum (λ _ s, live_one s) subs.

Record counts_ok (subs : gmap Address Subscription) (a : SubscriptionAnalytics) : Prop := {
  co_active : an_active_subscriptions a = live subs;
  co_total : an_total_subscriptions a =
    an_active_subscriptions a + an_cancelled_subscriptions a + an_expired_subscriptions a;
  co_range : an_active_subscriptions a ≤ int_max U64;
  co_member m s : subs !! m = Some s → sb_member s = m;
}.

Lemma live_one_bound s : 0 ≤ live_one s ≤ 1.
Proof. unfold live_one. destruct (is_non_terminal _); lia. Qed.

Lemma live_pos subs m s :
  subs !! m = Some s → is_non_terminal (sb_status s) = true → 1 ≤ live subs.
Proof.
  intros Hm Ha. pose proof (msum_lookup_le (λ _ s, live_one s) subs m s) as Hle.
  unfold live. unfold live_one in Hle at 2. rewrite Ha in Hle. apply Hle; [|done].
  intros k v _. apply live_one_bound.
Qed.

(** The counters after a subscription appears, ends or changes. *)
Lemma counts_put subs a a' m s d :
  counts_ok subs a → sb_member s = m →
  live_one s - from_option live_one 0 (subs !! m) = d →
  an_active_subscriptions a' = an_active_subscriptions a + d →
  an_total_subscriptions a' =
    an_active_subscriptions a' + an_cancelled_subscriptions a' + an_expired_subscriptions a' →
  an_active_subscriptions a' ≤ int_max U64 →
  counts_ok (<[m := s]> subs) a'.
Proof.
  intros Hc Hmem Hd Ha Ht Hr. split; [|done|done|].
  - rewrite Ha, (co_active _ _ Hc). unfold live. rewrite msum_insert. destruct (subs !! m); simpl in *; lia.
  - intros k x [[<- <-]|[_ Hk]]%lookup_insert_Some; [done|by apply (co_member _ _ Hc)].
Qed.

Lemma counts_keep subs a a' m s s' :
  counts_ok subs a → subs !! m = Some s → sb_member s' = m → live_one s' = live_one s →
  an_active_subscriptions a' = an_active_subscriptions a →
  an_total_subscriptions a' = an_total_subscriptions a →
  an_cancelled_subscriptions a' = an_cancelled_subscriptions a →
  an_expired_subscriptions a' = an_expired_subscriptions a →
  counts_ok (<[m := s']> subs) a'.
Proof.
  intros Hc Hm Hmem Hl E1 E2 E3 E4. apply (counts_put subs a a' m s' 0); try done.
  - rewrite Hm. simpl. lia.
  - lia.
  - rewrite E1, E2, E3, E4. apply Hc.
  - rewrite E1. apply Hc.
Qed.

Lemma saturating_pred x : 1 ≤ x ≤ int_max U64 → saturating_sub U64 x 1 = x - 1.
Proof. intros Hx. unfold saturating_sub, saturate. cbn in *. lia. Qed.

Lemma counts_end subs a a' m s s' :
  counts_ok subs a → subs !! m = Some s → is_non_terminal (sb_status s) = true →
  sb_member s' = sb_member s → is_non_terminal (sb_status s') = false →
  an_active_subscriptions a' = saturating_sub U64 (an_active_subscriptions a) 1 →
  an_total_subscriptions a' = an_total_subscriptions a →
  an_cancelled_subscriptions a' + an_expired_subscriptions a' =
    an_cancelled_subscriptions a + an_expired_subscriptions a + 1 →
  counts_ok (<[m := s']> subs) a'.
Proof.
  intros Hc Hm Hn Hmem Ht E1 E2 E3. pose proof (live_pos _ _ _ Hm Hn) as Hpos.
  pose proof (co_active _ _ Hc) as Hact. pose proof (co_total _ _ Hc) as Htot. pose proof (co_range _ _ Hc).
  rewrite saturating_pred in E1 by lia. apply (counts_put _ a _ _ _ (-1)); try done; try lia.
  - rewrite Hmem. by apply (co_member _ _ Hc).
  - rewrite Hm. simpl. unfold live_one. by rewrite Hn, Ht.
Qed.

Definition member_inv (st : State) : Prop := counts_ok (SubscriptionOf st) (stats st) ∧ is_Some (Admin st).

Section ops.
Context `{TokenHost}.
Implicit Types (w : World State Event) (e : Env).

Lemma expire_spec sub e w s w' :
  expire_subscription sub e w = Ok (s, w') →
  member_inv (store w) → SubscriptionOf (store w) !! sb_member sub = Some sub →
  is_non_terminal (sb_status sub) = true →
  ledger w' = ledger w ∧ member_inv (store w') ∧ Tier (store w') = Tier (store w) ∧
  (∀ k, k ≠ sb_member sub → SubscriptionOf (store w') !! k = SubscriptionOf (store w) !! k).
Proof.
  intros Hr [Hc Ha] Hm Hn. unfold expire_subscription, set_subscription, record_expired, analytics,
    set_analytics in Hr. minv Hr. inv_checked. cbn. split_and!; try done.
  - split; [|done]. unfold stats in *. cbn.
    eapply counts_end; [exact Hc|exact Hm|exact Hn|done|done|done|done|cbn; lia].
  - intros k Hk. by rewrite lookup_insert_ne.
Qed.

Lemma renew_inv m e w r w' :
  member_inv (store w) → renew_subscription m e w = Ok (r, w') →
  member_inv (store w') ∧
  (∃ s, SubscriptionOf (store w) !! m = Some s ∧ (sb_status s = Active ∨ sb_status s = Trial) ∧
     sb_current_period_end s ≤ timestamp e) ∧
  (∀ k, k ≠ m → SubscriptionOf (store w') !! k = SubscriptionOf (store w) !! k).
Proof.
  intros Hi Hr. destruct (Hi) as [Hc Ha]. unfold renew_subscription in Hr.
  apply bind_Ok in Hr as (s & w1 & Hl & Hr). apply load_subscription_spec in Hl as [Hm ->].
  apply bind_Ok in Hr as ([] & w1 & Hg1 & Hr). minv Hg1. apply bind_Ok in Hr as ([] & w1 & Hg2 & Hr). minv Hg2.
  apply bind_Ok in Hr as (t & w1 & Hg3 & Hr). minv Hg3. apply bind_Ok in Hr as ([] & w1 & Hg4 & Hr). minv Hg4.
  apply bind_Ok in Hr as (tier & w1 & Hg5 & Hr). apply load_active_tier_spec in Hg5 as (_ & _ & ->). zbool.
  assert (∃ s, SubscriptionOf (store w) !! m = Some s ∧ (sb_status s = Active ∨ sb_status s = Trial) ∧
     sb_current_period_end s ≤ timestamp e) as Hdue.
  { exists s. split_and!; [done| |done]. destruct (sb_status s); auto; done. }
  assert (∀ s1 w1, expire_subscription s e w = Ok (s1, w1) → member_inv (store w1) ∧
    ∀ k, k ≠ m → SubscriptionOf (store w1) !! k = SubscriptionOf (store w) !! k) as Hexp.
  { intros s1 w1 Hx. pose proof (co_member _ _ Hc _ _ Hm) as Hmem. rewrite <- Hmem in Hm. apply expire_spec in Hx as (_ & Hinv & _ & Hk); [|done|done|done].
    rewrite Hmem in Hk. done. }
  unfold enter_non_reentrant, exit_non_reentrant, set_subscription, record_revenue, analytics,
    set_analytics in Hr.
  minv Hr.
  1,2: match goal with Hx : expire_subscription _ _ _ = Ok _ |- _ => destruct (Hexp _ _ Hx) end; by split_and!.
  - match goal with Hp : pay_referral_reward _ _ _ _ = Ok (?r, _) |- _ =>
      destruct r as [rw s']; apply pay_referral_spec in Hp as (-> & (F1 & F2 & F3 & F4) & _) end.
    inv_checked. cbn in *. unfold member_inv, stats. cbn. rewrite F1, F2, F4. cbn. split_and!; try done.
    + eapply counts_keep; try done; [exact (co_member _ _ Hc _ _ Hm)|]. unfold live_one, rewarded. cbn. by rewrite Hg2.
    + intros k Hk. by rewrite lookup_insert_ne.
Qed.

Lemma member_cancel_inv m e w r w' :
  member_inv (store w) → cancel_subscription m e w = Ok (r, w') →
  authorized e m = true ∧ member_inv (store w') ∧
  (∀ k, k ≠ m → SubscriptionOf (store w') !! k = SubscriptionOf (store w) !! k).
Proof.
  intros [Hc Ha] Hr. unfold cancel_subscription, set_subscription, record_cancelled, analytics, set_analytics in Hr.
  minv Hr; spec load_subscription_spec as [Hm ->]; spec unused_spec as [-> _]; inv_checked; zbool.
  - spec member_transfer_spec as (_ & _ & F1 & F2 & F3 & F4). cbn in *. unfold member_inv, stats in *.
    rewrite F1, F2, F4. split_and!; try done; [|intros k Hk; by rewrite lookup_insert_ne].
    eapply counts_end; [exact Hc|exact Hm|exact Hr2|done|done|done|done|cbn; lia].
  - unfold member_inv, stats in *. cbn. split_and!; try done; [|intros k Hk; by rewrite lookup_insert_ne].
    eapply counts_end; [exact Hc|exact Hm|exact Hr2|done|done|done|done|cbn; lia].
Qed.

Lemma subscribe_inv m tk i ar rf e w s w' :
  member_inv (store w) → subscribe m tk i ar rf e w = Ok (s, w') →
  authorized e m = true ∧ member_inv (store w') ∧
  (∀ k, k ≠ m → SubscriptionOf (store w') !! k = SubscriptionOf (store w) !! k).
Proof.
  intros [Hc Ha] Hr. unfold subscribe, maybe_subscription, set_subscription, record_subscription_created,
    charge_member_direct, record_revenue, analytics, set_analytics in Hr.
  minv Hr; spec load_active_tier_spec as (_ & _ & ->); inv_checked; zbool.
  all: assert (from_option live_one 0 (SubscriptionOf (store w) !! m) = 0) as Hterm
    by (destruct (SubscriptionOf (store w) !! m) as [s0|]; [simpl in *; unfold live_one; by use_tests|done]).
  all: try match goal with Hp : pay_referral_reward _ _ _ _ = Ok (?r, _) |- _ =>
    destruct r as [rw s1]; apply pay_referral_spec in Hp as (-> & (F1 & F2 & F3 & F4) & _) end.
  all: try (spec member_transfer_spec as (_ & _ & G1 & G2 & G3 & G4)).
  all: cbn in *; unfold member_inv, stats in *; cbn; rewrite ?F1, ?F2, ?F4, ?G1, ?G2, ?G4 in *;
    pose proof (co_total _ _ Hc); split_and!; try done;
    try (intros k Hk; by rewrite lookup_insert_ne);
    (eapply (counts_put _ _ _ _ _ 1); [done|done| | | |]; try done;
     [rewrite Hterm; done|cbn; lia|cbn; lia]).
Qed.
(** A subscription rewritten by its member stays live. *)
Lemma pause_spec m e w u w' :
  pause_subscription m e w = Ok (u, w') →
  authorized e m = true ∧ ledger w' = ledger w ∧
  ∃ s, SubscriptionOf (store w) !! m = Some s ∧ (sb_status s = Active ∨ sb_status s = Trial) ∧
    store w' = {| (store w) with
      SubscriptionOf := <[m := {| s with sb_status := Paused; sb_paused_at := timestamp e;
                                  sb_updated_at := timestamp e |}]> (SubscriptionOf (store w));
      Analytics := Some {| (stats (store w)) with
        an_paused_subscriptions := an_paused_subscriptions (stats (store w)) + 1 |} |}.
Proof.
  intros Hr. unfold pause_subscription, set_subscription, record_paused, analytics, set_analytics in Hr.
  minv Hr. spec load_subscription_spec as [Hm ->]. inv_checked. split_and!; try done. eexists. split_and!; try done.
  match goal with Hx : _ && _ = false |- _ => apply andb_false_iff in Hx as [Hx|Hx]; zbool; auto end.
Qed.

Definition resumed (s : Subscription) (t : Z) : Subscription :=
  let d := t - sb_paused_at s in
  let trial := if (sb_trial_end s >=? sb_paused_at s) && (sb_trial_end s >? 0)
               then sb_trial_end s + d else sb_trial_end s in
  {| s with sb_paused_accumulated_seconds := sb_paused_accumulated_seconds s + d;
     sb_current_period_end := sb_current_period_end s + d; sb_trial_end := trial;
     sb_status := if trial >? t then Trial else Active; sb_paused_at := 0; sb_updated_at := t |}.

Lemma resume_spec m e w r w' :
  resume_subscription m e w = Ok (r, w') →
  authorized e m = true ∧ ledger w' = ledger w ∧
  ∃ s, SubscriptionOf (store w) !! m = Some s ∧ sb_status s = Paused ∧ sb_paused_at s ≤ timestamp e ∧
    r = resumed s (timestamp e) ∧
    store w' = {| (store w) with SubscriptionOf := <[m := r]> (SubscriptionOf (store w));
      Analytics := Some {| (stats (store w)) with an_paused_subscriptions :=
        saturating_sub U64 (an_paused_subscriptions (stats (store w))) 1 |} |}.
Proof.
  intros Hr. unfold resume_subscription, set_subscription, record_resumed, analytics, set_analytics in Hr.
  minv Hr; spec load_subscription_spec as [Hm ->]; inv_checked; split_and!; try done;
    exists a; unfold resumed; use_tests; zbool; split_and!; try done; cbn in *; lia.
Qed.

Lemma change_tier_inv m i e w r w' :
  member_inv (store w) → change_tier m i e w = Ok (r, w') →
  authorized e m = true ∧ member_inv (store w') ∧
  (∀ k, k ≠ m → SubscriptionOf (store w') !! k = SubscriptionOf (store w) !! k).
Proof.
  intros [Hc Ha] Hr. unfold change_tier, set_subscription, record_revenue, record_refund, analytics,
    set_analytics, quote_proration_inner in Hr.
  minv Hr; spec load_subscription_spec as [Hm ->]; spec member_load_tier_spec as [_ ->];
    spec load_active_tier_spec as (_ & _ & ->); spec unused_spec as [-> _]; inv_checked.
  all: assert (is_non_terminal (sb_status a) = true) as Hlive
    by (destruct (sb_status a); done).
  all: repeat match goal with Ht : transfer_token _ _ _ _ _ _ = Ok _ |- _ =>
    apply member_transfer_spec in Ht as (_ & _ & ? & ? & ? & ?) end.
  all: cbn in *; unfold member_inv, stats in *; cbn;
    repeat match goal with Hs : SubscriptionOf (store ?x) = _ |- _ => rewrite Hs in *; clear Hs
    | Hs : Analytics (store ?x) = _ |- _ => rewrite Hs in *; clear Hs
    | Hs : Admin (store ?x) = _ |- _ => rewrite Hs in *; clear Hs end.
  all: split_and!; try done; try (intros k Hk; by rewrite lookup_insert_ne).
  all: (eapply counts_keep; [exact Hc|exact Hm|exact (co_member _ _ Hc _ _ Hm)| |done..];
    unfold live_one; cbn; by rewrite Hlive).
Qed.

Lemma validate_spec n p d b e w u w' :
  validate_tier_terms n p d b e w = Ok (u, w') → 0 < p ∧ d ≠ 0 ∧ b ≤ MAX_REFERRAL_REWARD_BPS ∧ w' = w.
Proof. intros Hr. unfold validate_tier_terms in Hr. minv Hr. by zbool. Qed.

Lemma member_initialize_fresh a e w u w' : initialize a e w = Ok (u, w') → Admin (store w) = None.
Proof.
  intros Hr. unfold initialize in Hr. apply bind_Ok in Hr as (o & w1 & Ho & Hr). minv Ho.
  apply bind_Ok in Hr as ([] & w1 & Hp & _). minv Hp. zbool. by apply eq_None_not_Some.
Qed.

(** What a call may do to the subscriptions: keep the counters exact, and touch
    only the subscription of a member who signed, or one that is due. *)
Definition may_change e w (c : Call) (m : Address) : Prop :=
  authorized e m = true ∨
  c = CRenew m ∧ ∃ s, SubscriptionOf (store w) !! m = Some s ∧
    (sb_status s = Active ∨ sb_status s = Trial) ∧ sb_current_period_end s ≤ timestamp e.

Lemma member_exec_inv c e w w' :
  member_inv (store w) → exec c e w = Ok (tt, w') →
  member_inv (store w') ∧
  ∀ m, SubscriptionOf (store w') !! m ≠ SubscriptionOf (store w) !! m → may_change e w c m.
Proof.
  intros Hi Hr. destruct (Hi) as [Hc Ha].
  assert (∀ m0, (∀ k, k ≠ m0 → SubscriptionOf (store w') !! k = SubscriptionOf (store w) !! k) →
    may_change e w c m0 → ∀ m, SubscriptionOf (store w') !! m ≠ SubscriptionOf (store w) !! m →
    may_change e w c m) as Honly.
  { intros m0 Hk Hmay m Hne. destruct (decide (m = m0)) as [->|]; [done|]. destruct Hne. by apply Hk. }
  destruct c; cbn [exec] in Hr; try (apply discard_Ok in Hr; destruct Hr as [r Hr]).
  - apply member_initialize_fresh in Hr. destruct Ha. congruence.
  - unfold create_tier, set_tier, tier_ids in Hr. minv Hr. spec member_assert_admin_spec as [_ ->].
    spec validate_spec as (_ & _ & _ & ->). done.
  - unfold update_tier, set_tier in Hr. minv Hr. spec member_assert_admin_spec as [_ ->].
    spec validate_spec as (_ & _ & _ & ->). spec member_load_tier_spec as [_ ->]. done.
  - apply subscribe_inv in Hr as (Hauth & Hi' & Hk); [|done]. split; [done|]. apply (Honly member); [done|by left].
  - apply renew_inv in Hr as (Hi' & Hdue & Hk); [|done]. split; [done|]. apply (Honly member); [done|right; by split].
  - apply member_cancel_inv in Hr as (Hauth & Hi' & Hk); [|done]. split; [done|]. apply (Honly member); [done|by left].
  - apply pause_spec in Hr as (Hauth & _ & s & Hm & Hs & Hst). split.
    + rewrite Hst. split; [|done]. unfold stats at 1. cbn.
      eapply counts_keep; [exact Hc|exact Hm|exact (co_member _ _ Hc _ _ Hm)| |done..].
      unfold live_one. cbn. by destruct Hs as [-> | ->].
    + apply (Honly member); [|by left]. intros k Hk. rewrite Hst. cbn. by rewrite lookup_insert_ne.
  - apply resume_spec in Hr as (Hauth & _ & s & Hm & Hs & _ & -> & Hst). split.
    + rewrite Hst. split; [|done]. unfold stats at 1. cbn.
      eapply counts_keep; [exact Hc|exact Hm|exact (co_member _ _ Hc _ _ Hm)| |done..].
      unfold live_one, resumed. cbn. rewrite Hs. by repeat case_match.
    + apply (Honly member); [|by left]. intros k Hk. rewrite Hst. cbn. by rewrite lookup_insert_ne.
  - apply change_tier_inv in Hr as (Hauth & Hi' & Hk); [|done]. split; [done|]. apply (Honly member); [done|by left].
Qed.
End ops.

(** ** Reachable worlds: from a successful [initialize] on a fresh contract *)

Section reach.
Context `{TokenHost} (self : Address).
Implicit Types (w : World State Event) (e : Env).

Definition reachable (t : Z) w : Prop :=
  ∃ e0 w0 w1 adm, store w0 = deployed ∧ initialize adm e0 w0 = Ok (tt, w1) ∧
    rtc (step exec call_ok self) (timestamp e0, w1) (t, w).

Lemma member_reachable_inv t w : reachable t w → member_inv (store w).
Proof.
  intros (e0 & w0 & w1 & adm & Hst & Hr & Hsteps).
  apply (reach_inv_world exec call_ok self (λ _ w, member_inv (store w))) in Hsteps; [done| | |].
  - intros t1 c e w2 w3 _ _ _ Hi Hx. by apply (member_exec_inv c e w2).
  - done.
  - unfold initialize, set_analytics in Hr. minv Hr. cbn. rewrite Hst. split; [|done].
    split; unfold live; cbn; rewrite ?msum_empty; done.
Qed.
End reach.

(** ** Refunds *)

Definition refund_of (st : State) (s : Subscription) (t : Z) : Z :=
  if bool_decide (sb_status s = Trial) then 0
  else if sb_current_period_end s <=? t then 0
  else match Tier st !! sb_tier_id s with
       | Some tier => (mt_price_per_period tier * (sb_current_period_end s - t)) `quot` mt_period_seconds tier
       | None => 0
       end.

Section refunds.
Context `{TokenHost}.
Implicit Types (w : World State Event) (e : Env).

Lemma unused_refund s e w v w' :
  unused_period_value s e w = Ok (v, w') → v = refund_of (store w) s (timestamp e) ∧ w' = w.
Proof.
  intros Hr. unfold unused_period_value in Hr. unfold refund_of. minv Hr; try done.
  spec member_load_tier_spec as [Htier ->]. inv_checked. by rewrite Htier.
Qed.

(** What subscribing to a tier without a trial does. *)
Lemma subscribe_paid m tk i ar rf e w s w1 tier :
  subscribe m tk i ar rf e w = Ok (s, w1) → Tier (store w) !! i = Some tier → mt_trial_seconds tier ≤ 0 →
  authorized e m = true ∧ Tier (store w1) = Tier (store w) ∧ SubscriptionOf (store w1) !! m = Some s ∧
  sb_status s = Active ∧ sb_token s = tk ∧ sb_tier_id s = i ∧
  sb_current_period_end s = timestamp e + mt_period_seconds tier ∧ 0 < mt_price_per_period tier ∧
  ∃ l1, tok_transfer e (ledger w) tk m (current_contract_address e) (mt_price_per_period tier) = Some l1 ∧
    (sb_total_referral_rewards s = 0 ∧ (rf = None ∨ reward_of tier ≤ 0) ∧ ledger w1 = l1 ∨
     ∃ ref, rf = Some ref ∧ sb_total_referral_rewards s = reward_of tier ∧ 0 < reward_of tier ∧
       tok_transfer e l1 tk (current_contract_address e) ref (reward_of tier) = Some (ledger w1)).
Proof.
  intros Hr Htier Htrial. unfold subscribe, maybe_subscription, set_subscription, record_subscription_created,
    charge_member_direct, record_revenue, analytics, set_analytics in Hr.
  minv Hr; spec load_active_tier_spec as (Htier' & _ & ->); simplify_eq; inv_checked; zbool; try lia.
  match goal with Hp : pay_referral_reward _ _ _ _ = Ok (?r, _) |- _ =>
    destruct r as [rw s1]; apply pay_referral_spec in Hp as (-> & (F1 & F2 & F3 & F4) & Hpay) end.
  spec member_transfer_spec as (Hpos & Ht & G1 & G2 & G3 & G4). cbn in *. rewrite lookup_insert_eq.
  split_and!; try done; [congruence|]. eexists. split; [exact Ht|].
  destruct Hpay as [(-> & Hwhy & Hl)|(ref & Href & -> & Hrpos & Hpay)]; [left; done|].
  right. exists ref. done.
Qed.

(** A cancellation pays the unused value of the subscription it finds. *)
Lemma cancel_refund m e w v w' :
  cancel_subscription m e w = Ok (v, w') →
  ∃ s, SubscriptionOf (store w) !! m = Some s ∧ v = refund_of (store w) s (timestamp e).
Proof.
  intros Hr. unfold cancel_subscription in Hr. apply bind_Ok in Hr as ([] & w1 & Hg1 & Hr). minv Hg1.
  apply bind_Ok in Hr as (s & w1 & Hl & Hr). apply load_subscription_spec in Hl as [Hm ->].
  apply bind_Ok in Hr as ([] & w1 & Hg2 & Hr). minv Hg2.
  apply bind_Ok in Hr as (v' & w1 & Hv & Hr). apply unused_refund in Hv as [-> ->].
  exists s. split; [done|]. unfold set_subscription, record_cancelled, analytics, set_analytics in Hr.
  by minv Hr.
Qed.

Lemma cancel_pays m e w v w' s :
  cancel_subscription m e w = Ok (v, w') → SubscriptionOf (store w) !! m = Some s →
  authorized e m = true ∧
  (if v >? 0 then tok_transfer e (ledger w) (sb_token s) (current_contract_address e) m v = Some (ledger w')
   else ledger w' = ledger w).
Proof.
  intros Hr Hm. unfold cancel_subscription, set_subscription, record_cancelled, analytics, set_analytics in Hr.
  minv Hr; spec load_subscription_spec as [Hm' ->]; spec unused_spec as [-> _]; simplify_eq; use_tests; [|done].
  spec member_transfer_spec as (_ & Ht & _). done.
Qed.
End refunds.

(** ** Theorems *)

Section theorems.
Context `{TokenHost} `{!TokenLaws} (self : Address).
Implicit Types (w : World State Event) (e : Env).

(** C18: in every reachable world the analytics are exact: the active count is the
    number of subscriptions in trial, active or paused, and every subscription
    ever created is active, cancelled or expired. *)
Theorem membership_counts t w :
  reachable self t w →
  an_active_subscriptions (stats (store w)) = live (SubscriptionOf (store w)) ∧
  an_total_subscriptions (stats (store w)) =
    an_active_subscriptions (stats (store w)) + an_cancelled_subscriptions (stats (store w))
    + an_expired_subscriptions (stats (store w)).
Proof. intros Hr. destruct (member_reachable_inv self _ _ Hr) as [Hc _]. split; apply Hc. Qed.

(** A call changes a member's subscription only if that member signed it, or
    it is a renewal of a subscription in trial or active whose period is over. *)
Theorem member_controls_subscription t w c e w' m :
  reachable self t w → exec c e w = Ok (tt, w') →
  SubscriptionOf (store w') !! m ≠ SubscriptionOf (store w) !! m → may_change e w c m.
Proof. intros Hr Hx. by apply (member_exec_inv c e w w' (member_reachable_inv self _ _ Hr) Hx). Qed.

(** Pausing a subscription and resuming it later leaves exactly the time that
    was left when it was paused, and puts it back in trial exactly when the
    trial was still running. *)
Theorem pause_resume_keeps_remaining m e1 e2 w s w1 r w2 :
  SubscriptionOf (store w) !! m = Some s → 0 ≤ timestamp e1 →
  pause_subscription m e1 w = Ok (tt, w1) → resume_subscription m e2 w1 = Ok (r, w2) →
  timestamp e1 ≤ timestamp e2 ∧ SubscriptionOf (store w2) !! m = Some r ∧
  sb_current_period_end r - timestamp e2 = sb_current_period_end s - timestamp e1 ∧
  sb_status r = (if sb_trial_end s >? timestamp e1 then Trial else Active) ∧
  sb_tier_id r = sb_tier_id s ∧ sb_total_paid r = sb_total_paid s ∧ ledger w2 = ledger w.
Proof.
  intros Hm Ht Hp Hr. apply pause_spec in Hp as (_ & Hl1 & s0 & Hs0 & _ & Hst1). simplify_eq.
  apply resume_spec in Hr as (_ & Hl2 & s1 & Hs1 & _ & Hle & -> & Hst2).
  rewrite Hst1 in Hs1. cbn in Hs1. rewrite lookup_insert_eq in Hs1. injection Hs1 as <-.
  cbn in Hle. rewrite Hst2, Hl2, Hl1. unfold resumed. cbn. rewrite lookup_insert_eq.
  split_and!; try done; [lia|].
  destruct (sb_trial_end s >=? timestamp e1) eqn:E1, (sb_trial_end s >? 0) eqn:E2,
    (sb_trial_end s >? timestamp e1) eqn:E3; cbn; zbool; try lia;
    match goal with |- (if ?b then _ else _) = _ => destruct b eqn:E4; zbool; done || lia end.
Qed.

(** A member who subscribes without a trial, with a referrer, and cancels in
    the same instant gets the whole price back while the referrer keeps the
    reward: the contract loses the reward, out of other members' payments. *)
Theorem subscribe_cancel_drains m tk i ar ref e1 e2 w s w1 refund w2 :
  wf_env self e1 → wf_env self e2 → timestamp e2 = timestamp e1 → ref ≠ self →
  (* the tier has no trial *)
  from_option mt_trial_seconds 0 (Tier (store w) !! i) ≤ 0 →
  0 < from_option mt_period_seconds 0 (Tier (store w) !! i) →
  subscribe m tk i ar (Some ref) e1 w = Ok (s, w1) → cancel_subscription m e2 w1 = Ok (refund, w2) →
  refund = from_option mt_price_per_period 0 (Tier (store w) !! i) ∧
  tok_balance (ledger w2) tk self = tok_balance (ledger w) tk self - sb_total_referral_rewards s ∧
  (0 < from_option reward_of 0 (Tier (store w) !! i) →
   sb_total_referral_rewards s = from_option reward_of 0 (Tier (store w) !! i)).
Proof.
  intros Hwf1 Hwf2 Heq Href Htr Hper Hsub Hcan.
  destruct (Tier (store w) !! i) as [tier|] eqn:Htier; [|cbn in Hper; lia]. cbn in Htr, Hper |- *.
  destruct (subscribe_paid _ _ _ _ _ _ _ _ _ _ Hsub Htier Htr)
    as (Hauth & HT & Hm & Hact & <- & <- & Hend & Hpos & l1 & Hin & Hrew).
  destruct (cancel_refund _ _ _ _ _ Hcan) as (s' & Hs' & Hv). simplify_eq.
  destruct (cancel_pays _ _ _ _ _ _ Hcan Hm) as [_ Hpay].
  assert (refund_of (store w1) s (timestamp e2) = mt_price_per_period tier) as Hval.
  { unfold refund_of. rewrite Hact, HT, Htier, Heq, Hend. cbn.
    rewrite (proj2 (Z.leb_gt _ _)) by lia. replace (_ + _ - _) with (mt_period_seconds tier) by lia.
    apply Z.quot_mul. lia. }
  rewrite Hval in *. rewrite (proj2 (Z.gtb_gt _ _)) in Hpay by lia.
  rewrite (wf_self _ _ Hwf1) in Hin, Hrew. rewrite (wf_self _ _ Hwf2) in Hpay.
  assert (m ≠ self) as Hne by eauto with contracts.
  apply transfer_moved in Hin, Hpay. split; [done|].
  rewrite (moved_out _ _ _ _ _ _ (sb_token s) Hpay) by done. rewrite bool_decide_eq_true_2 by done.
  pose proof (moved_in _ _ _ _ _ _ (sb_token s) Hin Hne) as Hb. rewrite bool_decide_eq_true_2 in Hb by done.
  destruct Hrew as [(-> & [?|?] & ->)|(ref' & [= <-] & -> & _ & Hout)]; [done|split; lia|].
  apply transfer_moved in Hout. rewrite (moved_out _ _ _ _ _ _ (sb_token s) Hout) by done.
  rewrite bool_decide_eq_true_2 by done. split; [lia|done].
Qed.

(** Cancelling a subscription in trial refunds nothing, but pausing it first and
    cancelling then pays out the price of the remaining time, although nothing
    was ever paid. *)
Theorem paused_trial_refund m e1 e2 w s tier w1 refund w2 :
  SubscriptionOf (store w) !! m = Some s → sb_status s = Trial →
  Tier (store w) !! sb_tier_id s = Some tier →
  timestamp e2 < sb_current_period_end s →
  pause_subscription m e1 w = Ok (tt, w1) → cancel_subscription m e2 w1 = Ok (refund, w2) →
  refund = (mt_price_per_period tier * (sb_current_period_end s - timestamp e2))
             `quot` mt_period_seconds tier ∧
  ∀ refund' w', cancel_subscription m e2 w = Ok (refund', w') → refund' = 0.
Proof.
  intros Hm Htrial Htier Hend Hp Hcan. apply pause_spec in Hp as (_ & _ & s0 & Hs0 & _ & Hst1). simplify_eq.
  split.
  - apply cancel_refund in Hcan as (s1 & Hs1 & Hv). rewrite Hst1 in Hs1. cbn in Hs1.
    rewrite lookup_insert_eq in Hs1. injection Hs1 as <-. unfold refund_of in Hv. cbn in Hv.
    rewrite Hst1 in Hv. cbn in Hv. rewrite Htier in Hv. rewrite (proj2 (Z.leb_gt _ _)) in Hv by done. done.
  - intros refund' w' Hc'. apply cancel_refund in Hc' as (s1 & Hs1 & Hv). simplify_eq.
    unfold refund_of. by rewrite Htrial.
Qed.
End theorems.

(** ** A concrete history *)

Module MembershipDemo.

Definition self := mkAddress "CLUB".
Definition adm := mkAddress "ADM".
Definition alice := mkAddress "ALICE".
Definition bob := mkAddress "BOB".
Definition carol := mkAddress "CAROL".
Definition tk := mkAddress "USD".

Definition w0 : World State Event := mkWorld deployed
  (sl_of [(tk, alice, 10000); (tk, bob, 10000)]) [].
Definition e0 := env_at 10 self [adm].
Definition w1 := world_of (initialize adm e0 w0) w0.

(** A monthly tier without a trial, and one with a week of trial. *)
Definition history : list (Z * list Address * Call) :=
  [ (11, [adm], CCreateTier adm 1 "gold" 1000 2592000 0 7 5000);
    (12, [adm], CCreateTier adm 2 "try" 1000 2592000 604800 3 0);
    (20, [alice], CSubscribe alice tk 1 true None);
    (30, [bob], CSubscribe bob tk 2 false None) ].
Definition w2 := run_script exec self history w1.

Lemma member_demo_reachable : reachable self 30 w2.
Proof.
  exists e0, w0, w1, adm. split; [reflexivity|]. split.
  - unfold w1. apply run_ok_unit. vm_compute. reflexivity.
  - unfold w2. apply (run_script_reach exec call_ok self 10 history w1); [vm_compute; reflexivity|].
    repeat constructor; cbn; lia.
Qed.

Lemma membership_counts_witness :
  live (SubscriptionOf (store w2)) = 2 ∧
  an_active_subscriptions (stats (store w2)) = live (SubscriptionOf (store w2)).
Proof.
  split; [vm_compute; reflexivity|]. exact (proj1 (membership_counts self 30 w2 member_demo_reachable)).
Defined.

Definition e3 := env_at 40 self [bob].
Definition w3 := world_of (pause_subscription bob e3 w2) w2.

Lemma member_controls_subscription_witness : may_change e3 w2 (CPause bob) bob.
Proof.
  apply (member_controls_subscription self 30 w2 (CPause bob) e3 w3 bob member_demo_reachable).
  - unfold w3. apply run_ok_unit. vm_compute. reflexivity.
  - vm_compute. discriminate.
Defined.

Definition s2 := mkSubscription bob 2 tk Trial false 30 30 604830 604830 0 0 None 0 0 30.
Definition s5 := mkSubscription bob 2 tk Trial false 30 30 605790 605790 0 960 None 0 0 1000.
Definition e5 := env_at 1000 self [bob].
Definition w5 := world_of (resume_subscription bob e5 w3) w3.

Lemma pause_resume_keeps_remaining_witness :
  sb_current_period_end s5 - 1000 = sb_current_period_end s2 - 40.
Proof.
  apply (pause_resume_keeps_remaining bob e3 e5 w2 s2 w3 s5 w5).
  - vm_compute. reflexivity.
  - vm_compute. discriminate.
  - unfold w3. apply run_ok_unit. vm_compute. reflexivity.
  - unfold w5. apply (run_ok_val _ _ s2); vm_compute; reflexivity.
Defined.

Definition e6 := env_at 50 self [carol; bob].
Definition w6 := world_of (cancel_subscription bob e6 w2) w2.
Definition w7 := world_of (subscribe bob tk 1 true (Some carol) e6 w6) w6.
Definition s7 := mkSubscription bob 1 tk Active true 50 50 2592050 0 0 0 (Some carol) 1000 500 50.
Definition w8 := world_of (cancel_subscription bob e6 w7) w7.

(** Bob gets his 1000 back, Carol has 500, and the contract has lost 500. *)
Lemma subscribe_cancel_drains_witness :
  tok_balance (ledger w8) tk self = tok_balance (ledger w6) tk self - 500.
Proof.
  refine (proj1 (proj2 (subscribe_cancel_drains self bob tk 1 true carol e6 e6 w6 s7 w7 1000 w8 _ _ _ _ _ _ _ _))).
  - apply env_at_wf. reflexivity.
  - apply env_at_wf. reflexivity.
  - reflexivity.
  - discriminate.
  - vm_compute. discriminate.
  - vm_compute. reflexivity.
  - unfold w7. apply (run_ok_val _ _ s2); vm_compute; reflexivity.
  - unfold w8. apply (run_ok_val _ _ 0); vm_compute; reflexivity.
Defined.

Definition tier2 := mkMembershipTier 2 "try" 1000 2592000 604800 3 0 true 12 12.
Definition w9 := world_of (cancel_subscription bob e3 w3) w3.

Lemma paused_trial_refund_witness :
  233 = (mt_price_per_period tier2 * (sb_current_period_end s2 - 40)) `quot` mt_period_seconds tier2.
Proof.
  apply (paused_trial_refund bob e3 e3 w2 s2 tier2 w3 233 w9).
  - vm_compute. reflexivity.
  - reflexivity.
  - vm_compute. reflexivity.
  - vm_compute. reflexivity.
  - unfold w3. apply run_ok_unit. vm_compute. reflexivity.
  - unfold w9. apply (run_ok_val _ _ 0); vm_compute; reflexivity.
Defined.

(** A paused subscription that is cancelled stays in the count of paused ones. *)
Example paused_count_stays :
  an_paused_subscriptions (stats (store w9)) = 1 ∧
  option_map sb_status (SubscriptionOf (store w9) !! bob) = Some Cancelled.
Proof. split; vm_compute; reflexivity. Qed.
End MembershipDemo.
