(* ===== verification/CollateralMath.v ===== *)
(** * contracts/collateral-management: the arithmetic

    src/contracts/collateral-management/src/math.rs: utilization, interest
    rates, accrued interest, health factors and liquidation amounts.  The
    operators are the plain ones, which panic on overflow. *)

From stdpp Require Import gmap strings list fin_maps.
From S2P Require Import Prelude Soroban.
Open Scope Z_scope.

Definition BPS_DENOMINATOR : Z := 10000.
Definition SECONDS_PER_YEAR : Z := 365 * 24 * 60 * 60.

Record ProtocolParams := mkProtocolParams {
  pp_debt_ceiling : Z;
  pp_liq_health_threshold_bps : Z;
  pp_base_interest_rate_bps : Z;
  pp_interest_slope1_bps : Z;
  pp_interest_slope2_bps : Z;
  pp_optimal_utilization_bps : Z;
  pp_max_borrow_per_user : Z;
  pp_max_collateral_per_user : Z;
}.

Record HealthFactor := mkHealthFactor {
  hf_health_factor_bps : Z;
  hf_total_collateral_value : Z;
  hf_total_debt : Z;
  hf_is_healthy : bool;
}.

(** [as u32]: the low 32 bits. *)
Definition as_u32 (x : Z) : Z := x `mod` 2 ^ 32.

Section math.
Context `{TokenHost} {S E Ev : Type}.

Local Abbreviation C := (M S E Ev).

Definition calculate_utilization (total_borrowed total_deposits : Z) : C Z :=
  if total_deposits <=? 0 then mret 0
  else
    p ← plain_mul I128 total_borrowed BPS_DENOMINATOR;
    util_bps ← plain_div I128 p total_deposits;
    mret (if util_bps >? 10000 then 10000 else if util_bps <? 0 then 0 else as_u32 util_bps).

Definition calculate_interest_rate (params : ProtocolParams) (util : Z) : C Z :=
  let base := pp_base_interest_rate_bps params in
  let slope1 := pp_interest_slope1_bps params in
  let slope2 := pp_interest_slope2_bps params in
  let optimal := pp_optimal_utilization_bps params in
  if optimal <=? 0 then mret (as_u32 base)
  else
    rate_bps ← (if util <=? optimal then
        p ← plain_mul I128 slope1 util;
        q ← plain_div I128 p optimal;
        plain_add I128 base q
      else
        excess ← plain_sub I128 util optimal;
        max_excess ← plain_sub I128 BPS_DENOMINATOR optimal;
        s ← plain_add I128 base slope1;
        if max_excess <=? 0 then plain_add I128 s slope2
        else
          p ← plain_mul I128 slope2 excess;
          q ← plain_div I128 p max_excess;
          plain_add I128 s q);
    mret (as_u32 (Z.min rate_bps (2 ^ 32 - 1))).

Definition calculate_accrued_interest (principal annual_rate_bps time_delta_seconds : Z) : C Z :=
  if (principal <=? 0) || (annual_rate_bps =? 0) || (time_delta_seconds <=? 0) then mret 0
  else
    p ← plain_mul I128 principal annual_rate_bps;
    q ← plain_mul I128 p time_delta_seconds;
    d ← plain_mul I128 BPS_DENOMINATOR SECONDS_PER_YEAR;
    plain_div I128 q d.

Definition calculate_health_factor (total_collateral_value total_debt weighted_threshold_bps : Z)
    : C HealthFactor :=
  if total_debt <=? 0 then
    mret (mkHealthFactor (int_max I128 `quot` 2) total_collateral_value 0 true)
  else if total_collateral_value <=? 0 then mret (mkHealthFactor 0 0 total_debt false)
  else
    p ← plain_mul I128 total_collateral_value weighted_threshold_bps;
    hf_bps ← plain_div I128 p total_debt;
    mret (mkHealthFactor hf_bps total_collateral_value total_debt (hf_bps >=? BPS_DENOMINATOR)).

Definition calculate_max_borrow (collateral_value ltv_bps : Z) : C Z :=
  p ← plain_mul I128 collateral_value ltv_bps;
  plain_div I128 p BPS_DENOMINATOR.

(** The collateral seized, rounded up, and the bonus. *)
Definition calculate_liquidation_seizure (debt_to_cover collateral_price liquidation_bonus_bps : Z)
    : C (Z * Z) :=
  if (debt_to_cover <=? 0) || (collateral_price <=? 0) then mret (0, 0)
  else
    bonus_factor ← plain_add I128 BPS_DENOMINATOR liquidation_bonus_bps;
    numerator ← plain_mul I128 debt_to_cover bonus_factor;
    denominator ← plain_mul I128 collateral_price BPS_DENOMINATOR;
    n ← plain_add I128 numerator denominator;
    n' ← plain_sub I128 n 1;
    collateral_seized ← plain_div I128 n' denominator;
    b ← plain_mul I128 debt_to_cover liquidation_bonus_bps;
    bonus_amount ← plain_div I128 b BPS_DENOMINATOR;
    mret (collateral_seized, bonus_amount).

Definition calculate_weighted_liquidation_threshold (collateral_values : list (Z * Z))
    (total_collateral_value : Z) : C Z :=
  if total_collateral_value <=? 0 then mret 0
  else
    weighted_sum ← foldM (λ acc entry,
        p ← plain_mul I128 (fst entry) (snd entry);
        plain_add I128 acc p) 0 collateral_values;
    weighted ← plain_div I128 weighted_sum total_collateral_value;
    mret (as_u32 (Z.min weighted (2 ^ 32 - 1))).

End math.
