(* ===== verification/Collateral.v ===== *)
(** * contracts/collateral-management: collateral, loans and liquidation

    State and operations of [CollateralManagement]
    (src/contracts/collateral-management/src/lib.rs, storage.rs, types.rs,
    errors.rs), with the admin check of src/lib/src/rbac.rs.  The price oracle
    is another contract, reached by address: a parameter. *)

From stdpp Require Import gmap strings list fin_maps.
From S2P Require Import Prelude Soroban CollateralMath.
Open Scope Z_scope.

(** The oracle contract: the answer of [get_price] for a feed, [None] if the
    call traps.  A query changes neither this contract nor any token. *)
Class PriceOracle := {
  oracle_get_price : Env → Address → Symbol → option Z;
}.

(** ** Data *)

Definition MAX_LTV_BPS : Z := 9500.
Definition MAX_LIQ_THRESHOLD_BPS : Z := 9800.
Definition MAX_LIQ_BONUS_BPS : Z := 2000.

Record CollateralTypeConfig := mkCollateralTypeConfig {
  ct_token : Address;
  ct_oracle_feed : Symbol;
  ct_ltv_bps : Z;
  ct_liq_threshold_bps : Z;
  ct_liq_bonus_bps : Z;
  ct_collateral_cap : Z;
  ct_is_active : bool;
  ct_price_scale : Z;
}.

Record UserCollateral := mkUserCollateral {
  uc_user : Address;
  uc_token : Address;
  uc_amount : Z;
  uc_last_updated : Z;
}.

Record Loan := mkLoan {
  ln_loan_id : Z;
  ln_borrower : Address;
  ln_borrow_token : Address;
  ln_principal : Z;
  ln_accrued_interest : Z;
  ln_total_debt : Z;
  ln_interest_rate_bps : Z;
  ln_created_at : Z;
  ln_last_accrual_update : Z;
  ln_is_liquidated : bool;
  ln_is_repaid : bool;
}.

(** One field per key of [DataKey], and [AdminKey] for the library's ADMIN_KEY;
    [None] and absence are the unset key. *)
Record State := mkState {
  Initialized : option bool;
  Admin : option Address;
  AdminKey : option Address;
  Oracle : option Address;
  Treasury : option Address;
  LoanCounter : option Z;
  CollateralType : gmap Address CollateralTypeConfig;
  CollateralTokens : option (list Address);
  UserCollateralAt : gmap (Address * Address) UserCollateral;
  Params : option ProtocolParams;
  TotalDebt : gmap Address Z;
  Paused : option bool;
  ReentrancyLock : option bool;
  TotalCollateral : gmap Address Z;
  LendingPoolDeposits : gmap Address Z;
  LoanAt : gmap Z Loan;
  UserLoanIds : gmap Address (list Z);
  PriceCache : gmap Symbol Z;
}.

Inductive Event :=
| cm_init (admin oracle : Address) (t : Z)
| col_reg (token : Address) (ltv threshold bonus : Z)
| col_upd (token : Address) (ltv threshold : Z)
| col_off (token : Address)
| col_on (token : Address)
| proto_upd (ceiling threshold : Z)
| price_set (feed : Symbol) (price t : Z)
| col_dep (user token : Address) (amount t : Z)
| col_wd (user token : Address) (amount t : Z)
| loan_new (loan_id : Z) (user token : Address) (amount rate : Z)
| loan_rpy (loan_id : Z) (user : Address) (amount : Z) (closed : bool) (t : Z)
| loan_liq (loan_id : Z) (borrower liquidator : Address) (covered seized bonus t : Z)
| int_accr (loan_id interest total_debt t : Z)
| cm_pause (t : Z)
| cm_unp (t : Z).

Ltac mred v ::= eval cbn [store ledger log Initialized Admin AdminKey Oracle Treasury LoanCounter
  CollateralType CollateralTokens UserCollateralAt Params TotalDebt Paused ReentrancyLock
  TotalCollateral LendingPoolDeposits LoanAt UserLoanIds PriceCache ct_token ct_oracle_feed
  ct_ltv_bps ct_liq_threshold_bps ct_liq_bonus_bps ct_collateral_cap ct_is_active ct_price_scale
  uc_user uc_token uc_amount uc_last_updated ln_loan_id ln_borrower ln_borrow_token ln_principal
  ln_accrued_interest ln_total_debt ln_interest_rate_bps ln_created_at ln_last_accrual_update
  ln_is_liquidated ln_is_repaid hf_health_factor_bps hf_total_collateral_value hf_total_debt
  hf_is_healthy fst snd] in v.

Section contract.
Context `{TokenHost} `{PriceOracle}.

Local Abbreviation C := (M State Empty_set Event).

(** ** storage.rs *)

Definition is_initialized : C bool := gets (λ s, bool_decide (is_Some (Initialized s))).
Definition set_initialized : C () := modify (λ s, {| s with Initialized := Some true |}).
Definition get_admin : C Address := o ← gets Admin; expect o "admin not set".
Definition set_admin (admin : Address) : C () := modify (λ s, {| s with Admin := Some admin |}).
Definition get_oracle : C Address := o ← gets Oracle; expect o "oracle not set".
Definition set_oracle (oracle : Address) : C () := modify (λ s, {| s with Oracle := Some oracle |}).
Definition get_treasury : C (option Address) := gets Treasury.
Definition set_treasury (treasury : Address) : C () :=
  modify (λ s, {| s with Treasury := Some treasury |}).
Definition is_paused : C bool := gets (λ s, default false (Paused s)).
Definition set_paused (paused : bool) : C () := modify (λ s, {| s with Paused := Some paused |}).
Definition is_reentrancy_locked : C bool := gets (λ s, default false (ReentrancyLock s)).
Definition set_reentrancy_lock (locked : bool) : C () :=
  modify (λ s, {| s with ReentrancyLock := Some locked |}).
Definition get_loan_counter : C Z := gets (λ s, default 0 (LoanCounter s)).
Definition set_loan_counter (counter : Z) : C () :=
  modify (λ s, {| s with LoanCounter := Some counter |}).
Definition get_collateral_config (token : Address) : C (option CollateralTypeConfig) :=
  gets (λ s, CollateralType s !! token).
Definition set_collateral_config (config : CollateralTypeConfig) : C () :=
  modify (λ s, {| s with CollateralType := <[ct_token config := config]> (CollateralType s) |}).
Definition get_collateral_tokens : C (list Address) := gets (λ s, default [] (CollateralTokens s)).
Definition set_collateral_tokens (tokens : list Address) : C () :=
  modify (λ s, {| s with CollateralTokens := Some tokens |}).
Definition add_collateral_token (token : Address) : C () :=
  tokens ← get_collateral_tokens;
  set_collateral_tokens (tokens ++ [token]).
Definition get_user_collateral (user token : Address) : C UserCollateral :=
  gets (λ s, default (mkUserCollateral user token 0 0) (UserCollateralAt s !! (user, token))).
Definition set_user_collateral (collateral : UserCollateral) : C () :=
  modify (λ s, {| s with UserCollateralAt :=
    <[(uc_user collateral, uc_token collateral) := collateral]> (UserCollateralAt s) |}).
Definition get_loan (loan_id : Z) : C (option Loan) := gets (λ s, LoanAt s !! loan_id).
Definition set_loan (loan : Loan) : C () :=
  modify (λ s, {| s with LoanAt := <[ln_loan_id loan := loan]> (LoanAt s) |}).
Definition get_user_loan_ids (user : Address) : C (list Z) :=
  gets (λ s, default [] (UserLoanIds s !! user)).
Definition set_user_loan_ids (user : Address) (ids : list Z) : C () :=
  modify (λ s, {| s with UserLoanIds := <[user := ids]> (UserLoanIds s) |}).
Definition add_user_loan_id (user : Address) (loan_id : Z) : C () :=
  ids ← get_user_loan_ids user;
  set_user_loan_ids user (ids ++ [loan_id]).
Definition get_protocol_params : C ProtocolParams :=
  gets (λ s, default (mkProtocolParams 0 10000 200 400 7500 8000 0 0) (Params s)).
Definition set_protocol_params (params : ProtocolParams) : C () :=
  modify (λ s, {| s with Params := Some params |}).
Definition get_total_debt (token : Address) : C Z := gets (λ s, default 0 (TotalDebt s !! token)).
Definition set_total_debt (token : Address) (amount : Z) : C () :=
  modify (λ s, {| s with TotalDebt := <[token := amount]> (TotalDebt s) |}).
Definition get_total_collateral_for_type (token : Address) : C Z :=
  gets (λ s, default 0 (TotalCollateral s !! token)).
Definition set_total_collateral_for_type (token : Address) (amount : Z) : C () :=
  modify (λ s, {| s with TotalCollateral := <[token := amount]> (TotalCollateral s) |}).
Definition get_lending_pool_deposits (token : Address) : C Z :=
  gets (λ s, default 0 (LendingPoolDeposits s !! token)).
Definition set_lending_pool_deposits (token : Address) (amount : Z) : C () :=
  modify (λ s, {| s with LendingPoolDeposits := <[token := amount]> (LendingPoolDeposits s) |}).
Definition get_price_cache (feed_id : Symbol) : C (option Z) := gets (λ s, PriceCache s !! feed_id).
Definition set_price_cache (feed_id : Symbol) (price : Z) : C () :=
  modify (λ s, {| s with PriceCache := <[feed_id := price]> (PriceCache s) |}).

(** ** Module-level helpers *)

(** [rbac::require_admin]: both of its errors become the same panic. *)
Definition assert_admin (caller : Address) : C () :=
  o ← gets AdminKey;
  match o with
  | None => panic "Unauthorized"
  | Some admin => panic_if (bool_decide (caller ≠ admin)) "Unauthorized"
  end.

Definition check_paused : C () :=
  b ← is_paused;
  panic_if b "Protocol is paused".

Definition with_guard {R} (f : C R) : C R :=
  locked ← is_reentrancy_locked;
  panic_if locked "Reentrancy detected";;
  set_reentrancy_lock true;;
  result ← f;
  set_reentrancy_lock false;;
  mret result.

(** ** Prices, values and health *)

Definition get_oracle_price (feed_id : Symbol) (_price_scale : Z) : C Z :=
  o ← get_price_cache feed_id;
  match o with
  | Some price => mret price
  | None =>
      oracle_addr ← get_oracle;
      result ← (λ e w, match oracle_get_price e oracle_addr feed_id with
                       | Some r => Ok (r, w) | None => Panic "oracle trap" end);
      panic_if (result <=? 0) "Oracle price unavailable";;
      mret result
  end.

(** The value of [amt] tokens of one collateral type. *)
Definition value_of_type (cfg : CollateralTypeConfig) (amt : Z) : C Z :=
  price ← get_oracle_price (ct_oracle_feed cfg) (ct_price_scale cfg);
  p ← plain_mul I128 amt price;
  plain_div I128 p (ct_price_scale cfg).

(** The amounts a valuation uses: those stored, or one of them replaced. *)
Definition stored_amount (user tok : Address) : C Z :=
  uc ← get_user_collateral user tok;
  mret (uc_amount uc).
Definition override_amount (user override_token : Address) (override_amt : Z) (tok : Address) : C Z :=
  if bool_decide (tok = override_token) then mret override_amt else stored_amount user tok.

(** One round of the valuation loops. *)
Definition value_step (amount : Address → C Z) (total : Z) (tok : Address) : C Z :=
  amt ← amount tok;
  if amt >? 0 then
    o ← get_collateral_config tok;
    match o with
    | Some cfg => value ← value_of_type cfg amt; plain_add I128 total value
    | None => mret total
    end
  else mret total.

Definition total_collateral_value (user : Address) : C Z :=
  tokens ← get_collateral_tokens;
  foldM (value_step (stored_amount user)) 0 tokens.

Definition total_collateral_value_override (user override_token : Address) (override_amt : Z) : C Z :=
  tokens ← get_collateral_tokens;
  foldM (value_step (override_amount user override_token override_amt)) 0 tokens.

Definition threshold_step (amount : Address → C Z) (acc : Z * Z) (tok : Address) : C (Z * Z) :=
  amt ← amount tok;
  if amt >? 0 then
    o ← get_collateral_config tok;
    match o with
    | Some cfg =>
        value ← value_of_type cfg amt;
        total_value ← plain_add I128 (snd acc) value;
        p ← plain_mul I128 value (ct_liq_threshold_bps cfg);
        weighted_sum ← plain_add I128 (fst acc) p;
        mret (weighted_sum, total_value)
    | None => mret acc
    end
  else mret acc.

Definition threshold_of_sums (acc : Z * Z) : C Z :=
  if snd acc <=? 0 then mret 0
  else
    q ← plain_div I128 (fst acc) (snd acc);
    mret (as_u32 (Z.min q (2 ^ 32 - 1))).

Definition weighted_threshold (user : Address) : C Z :=
  tokens ← get_collateral_tokens;
  acc ← foldM (threshold_step (stored_amount user)) (0, 0) tokens;
  threshold_of_sums acc.

Definition weighted_threshold_override (user override_token : Address) (override_amt : Z) : C Z :=
  tokens ← get_collateral_tokens;
  acc ← foldM (threshold_step (override_amount user override_token override_amt)) (0, 0) tokens;
  threshold_of_sums acc.

(** One round of the debt loops: loans that satisfy [counts]. *)
Definition debt_step (counts : Loan → bool) (total : Z) (loan_id : Z) : C Z :=
  o ← get_loan loan_id;
  loan ← expect o "Loan not found";
  if counts loan then plain_add I128 total (ln_total_debt loan) else mret total.

Definition user_total_debt (user : Address) : C Z :=
  ids ← get_user_loan_ids user;
  foldM (debt_step (λ loan, negb (ln_is_liquidated loan) && negb (ln_is_repaid loan)
    && bool_decide (ln_borrower loan = user))) 0 ids.

Definition user_debt_for_token (user token : Address) : C Z :=
  ids ← get_user_loan_ids user;
  foldM (debt_step (λ loan, negb (ln_is_liquidated loan) && negb (ln_is_repaid loan)
    && bool_decide (ln_borrower loan = user) && bool_decide (ln_borrow_token loan = token))) 0 ids.

Definition calc_user_health (user : Address) : C HealthFactor :=
  debt ← user_total_debt user;
  value ← total_collateral_value user;
  wt ← weighted_threshold user;
  calculate_health_factor value debt wt.

Definition best_step (borrower : Address) (best : option (Address * CollateralTypeConfig * Z))
    (tok : Address) : C (option (Address * CollateralTypeConfig * Z)) :=
  uc ← get_user_collateral borrower tok;
  if uc_amount uc >? 0 then
    o ← get_collateral_config tok;
    match o with
    | Some cfg =>
        value ← value_of_type cfg (uc_amount uc);
        mret (match best with
              | None => Some (tok, cfg, value)
              | Some (_, _, best_val) => if value >? best_val then Some (tok, cfg, value) else best
              end)
    | None => mret best
    end
  else mret best.

Definition best_seize_collateral (borrower : Address) : C (option (Address * CollateralTypeConfig)) :=
  tokens ← get_collateral_tokens;
  best ← foldM (best_step borrower) None tokens;
  mret (option_map fst best).

Definition require_user_loan (borrower : Address) (loan_id : Z) : C Loan :=
  ids ← get_user_loan_ids borrower;
  if existsb (Z.eqb loan_id) ids then
    o ← get_loan loan_id;
    expect o "Loan not found"
  else panic "Loan not found".

(** ** Interest *)

Definition accrue_loan (loan : Loan) : C Loan :=
  if ln_is_liquidated loan || ln_is_repaid loan then mret loan
  else
    t ← now;
    delta ← plain_sub I128 t (ln_last_accrual_update loan);
    if delta <=? 0 then mret loan
    else
      interest ← calculate_accrued_interest (ln_principal loan) (ln_interest_rate_bps loan) delta;
      if interest >? 0 then
        accrued ← plain_add I128 (ln_accrued_interest loan) interest;
        debt ← plain_add I128 (ln_principal loan) accrued;
        current ← get_total_debt (ln_borrow_token loan);
        total ← plain_add I128 current interest;
        set_total_debt (ln_borrow_token loan) total;;
        publish (int_accr (ln_loan_id loan) interest debt t);;
        mret {| loan with ln_accrued_interest := accrued; ln_total_debt := debt;
                ln_last_accrual_update := t |}
      else mret loan.

Definition accrue_one (borrower : Address) (loan_id : Z) : C () :=
  loan ← require_user_loan borrower loan_id;
  loan' ← accrue_loan loan;
  set_loan loan'.

Definition accrue_all (borrower : Address) (ids : list Z) : C () :=
  foldM (λ _ id, accrue_one borrower id) tt ids.

(** A payment of [amount] on a loan: interest first, then principal.  [close]
    marks the loan when nothing is left. *)
Definition pay_loan (loan : Loan) (amount : Z) (close : Loan → Loan) : C Loan :=
  new_debt ← plain_sub I128 (ln_total_debt loan) amount;
  let interest_paid := Z.min amount (ln_accrued_interest loan) in
  principal_paid ← plain_sub I128 amount interest_paid;
  accrued ← plain_sub I128 (ln_accrued_interest loan) interest_paid;
  principal ← plain_sub I128 (ln_principal loan) principal_paid;
  mret (if new_debt <=? 0 then
          close {| loan with ln_accrued_interest := 0; ln_principal := 0; ln_total_debt := 0 |}
        else {| loan with ln_accrued_interest := accrued; ln_principal := principal;
                ln_total_debt := new_debt |}).

(** ** Internal operations *)

Definition withdraw_internal (user token : Address) (amount : Z) : C () :=
  panic_if (amount <=? 0) "Invalid amount";;
  user_coll ← get_user_collateral user token;
  panic_if (uc_amount user_coll <? amount) "Insufficient collateral balance";;
  remaining ← plain_sub I128 (uc_amount user_coll) amount;
  total_debt ← user_total_debt user;
  (if total_debt >? 0 then
     total_value ← total_collateral_value_override user token remaining;
     wt ← weighted_threshold_override user token remaining;
     hf ← calculate_health_factor total_value total_debt wt;
     params ← get_protocol_params;
     panic_if (hf_health_factor_bps hf <? pp_liq_health_threshold_bps params)
       "Withdrawal would undercollateralize position"
   else mret tt);;
  contract_addr ← self_address;
  token_transfer token contract_addr user amount;;
  t ← now;
  set_user_collateral {| user_coll with uc_amount := remaining; uc_last_updated := t |};;
  total ← get_total_collateral_for_type token;
  new_total ← plain_sub I128 total amount;
  set_total_collateral_for_type token new_total;;
  publish (col_wd user token amount t).

Definition borrow_internal (user borrow_token : Address) (amount : Z) : C () :=
  panic_if (amount <=? 0) "Invalid amount";;
  params ← get_protocol_params;
  (if pp_max_borrow_per_user params >? 0 then
     existing ← user_debt_for_token user borrow_token;
     s ← plain_add I128 existing amount;
     panic_if (s >? pp_max_borrow_per_user params) "Per-user borrow cap exceeded"
   else mret tt);;
  (if pp_debt_ceiling params >? 0 then
     current ← get_total_debt borrow_token;
     s ← plain_add I128 current amount;
     panic_if (s >? pp_debt_ceiling params) "Protocol debt ceiling exceeded"
   else mret tt);;
  ids ← get_user_loan_ids user;
  accrue_all user ids;;
  existing_debt ← user_total_debt user;
  total_debt_after ← plain_add I128 existing_debt amount;
  total_value ← total_collateral_value user;
  (if total_debt_after >? 0 then
     panic_if (total_value <=? 0) "Health factor below liquidation threshold";;
     wt ← weighted_threshold user;
     hf ← calculate_health_factor total_value total_debt_after wt;
     panic_if (hf_health_factor_bps hf <? pp_liq_health_threshold_bps params)
       "Health factor below liquidation threshold"
   else mret tt);;
  debt ← get_total_debt borrow_token;
  deposits ← get_lending_pool_deposits borrow_token;
  util ← calculate_utilization debt deposits;
  rate ← calculate_interest_rate params util;
  loan_id ← get_loan_counter;
  t ← now;
  set_loan (mkLoan loan_id user borrow_token amount 0 amount rate t t false false);;
  add_user_loan_id user loan_id;;
  next ← plain_add U64 loan_id 1;
  set_loan_counter next;;
  new_debt ← plain_add I128 debt amount;
  set_total_debt borrow_token new_debt;;
  contract_addr ← self_address;
  token_transfer borrow_token contract_addr user amount;;
  publish (loan_new loan_id user borrow_token amount rate).

Definition repay_internal (user : Address) (loan_id amount : Z) : C () :=
  panic_if (amount <=? 0) "Invalid amount";;
  loan0 ← require_user_loan user loan_id;
  panic_if (ln_is_liquidated loan0) "Loan already liquidated";;
  panic_if (ln_is_repaid loan0) "Loan already repaid";;
  loan ← accrue_loan loan0;
  panic_if (amount >? ln_total_debt loan) "Repayment exceeds outstanding debt";;
  contract_addr ← self_address;
  token_transfer (ln_borrow_token loan) user contract_addr amount;;
  loan' ← pay_loan loan amount (λ l, {| l with ln_is_repaid := true |});
  set_loan loan';;
  current ← get_total_debt (ln_borrow_token loan);
  total ← plain_sub I128 current amount;
  set_total_debt (ln_borrow_token loan) total;;
  t ← now;
  publish (loan_rpy loan_id user amount (ln_is_repaid loan') t).

Definition liquidate_internal (liquidator borrower : Address) (loan_id debt_to_cover : Z) : C () :=
  panic_if (debt_to_cover <=? 0) "Invalid amount";;
  loan0 ← require_user_loan borrower loan_id;
  panic_if (ln_is_liquidated loan0) "Loan already liquidated";;
  panic_if (ln_is_repaid loan0) "Loan already repaid";;
  loan ← accrue_loan loan0;
  hf ← calc_user_health borrower;
  params ← get_protocol_params;
  panic_if (hf_health_factor_bps hf >=? pp_liq_health_threshold_bps params)
    "Health factor below liquidation threshold";;
  let actual_covered := Z.min debt_to_cover (ln_total_debt loan) in
  o ← best_seize_collateral borrower;
  best ← expect o "No collateral available to seize";
  let coll_token := fst best in
  let coll_config := snd best in
  oracle_price ← get_oracle_price (ct_oracle_feed coll_config) (ct_price_scale coll_config);
  seizure ← calculate_liquidation_seizure actual_covered oracle_price (ct_liq_bonus_bps coll_config);
  let coll_seized := fst seizure in
  user_coll ← get_user_collateral borrower coll_token;
  panic_if (uc_amount user_coll <? coll_seized) "No collateral available to seize";;
  contract_addr ← self_address;
  token_transfer (ln_borrow_token loan) liquidator contract_addr actual_covered;;
  token_transfer coll_token contract_addr liquidator coll_seized;;
  left ← plain_sub I128 (uc_amount user_coll) coll_seized;
  t ← now;
  set_user_collateral {| user_coll with uc_amount := left; uc_last_updated := t |};;
  total ← get_total_collateral_for_type coll_token;
  new_total ← plain_sub I128 total coll_seized;
  set_total_collateral_for_type coll_token new_total;;
  loan' ← pay_loan loan actual_covered (λ l, {| l with ln_is_liquidated := true |});
  set_loan loan';;
  current_debt ← get_total_debt (ln_borrow_token loan);
  debt ← plain_sub I128 current_debt actual_covered;
  set_total_debt (ln_borrow_token loan) debt;;
  publish (loan_liq loan_id borrower liquidator actual_covered coll_seized (snd seizure) t).

(** ** Entry points *)

Definition initialize (admin oracle : Address) (treasury : option Address) : C () :=
  b ← is_initialized;
  panic_if b "Contract already initialized";;
  require_auth admin;;
  modify (λ s, {| s with AdminKey := Some admin |});;
  set_oracle oracle;;
  (match treasury with Some t => set_treasury t | None => mret tt end);;
  set_initialized;;
  set_paused false;;
  set_reentrancy_lock false;;
  set_loan_counter 0;;
  t ← now;
  publish (cm_init admin oracle t).

(** The checks of the risk parameters shared by registration and update. *)
Definition check_risk_params (ltv_bps liq_threshold_bps liq_bonus_bps : Z) : C () :=
  panic_if (ltv_bps >? MAX_LTV_BPS) "Invalid LTV parameter";;
  panic_if ((liq_threshold_bps >? MAX_LIQ_THRESHOLD_BPS) || (liq_threshold_bps <? ltv_bps))
    "Invalid liquidation parameters";;
  panic_if (liq_bonus_bps >? MAX_LIQ_BONUS_BPS) "Invalid liquidation parameters".

Definition register_collateral_type (admin token : Address) (oracle_feed : Symbol)
    (ltv_bps liq_threshold_bps liq_bonus_bps collateral_cap price_scale : Z) : C () :=
  require_auth admin;;
  assert_admin admin;;
  check_paused;;
  o ← get_collateral_config token;
  panic_if (bool_decide (is_Some o)) "Collateral type already exists";;
  check_risk_params ltv_bps liq_threshold_bps liq_bonus_bps;;
  panic_if ((collateral_cap <? 0) || (price_scale <=? 0)) "Invalid amount";;
  set_collateral_config (mkCollateralTypeConfig token oracle_feed ltv_bps liq_threshold_bps
    liq_bonus_bps collateral_cap true price_scale);;
  add_collateral_token token;;
  publish (col_reg token ltv_bps liq_threshold_bps liq_bonus_bps).

Definition update_collateral_type (admin token : Address)
    (ltv_bps liq_threshold_bps liq_bonus_bps collateral_cap : Z) : C () :=
  require_auth admin;;
  assert_admin admin;;
  check_paused;;
  o ← get_collateral_config token;
  config ← expect o "Collateral type not found";
  check_risk_params ltv_bps liq_threshold_bps liq_bonus_bps;;
  set_collateral_config {| config with ct_ltv_bps := ltv_bps;
    ct_liq_threshold_bps := liq_threshold_bps; ct_liq_bonus_bps := liq_bonus_bps;
    ct_collateral_cap := collateral_cap |};;
  publish (col_upd token ltv_bps liq_threshold_bps).

Definition deactivate_collateral_type (admin token : Address) : C () :=
  require_auth admin;;
  assert_admin admin;;
  o ← get_collateral_config token;
  config ← expect o "Collateral type not found";
  set_collateral_config {| config with ct_is_active := false |};;
  publish (col_off token).

Definition reactivate_collateral_type (admin token : Address) : C () :=
  require_auth admin;;
  assert_admin admin;;
  o ← get_collateral_config token;
  config ← expect o "Collateral type not found";
  set_collateral_config {| config with ct_is_active := true |};;
  publish (col_on token).

Definition set_protocol_parameters (admin : Address) (params : ProtocolParams) : C () :=
  require_auth admin;;
  assert_admin admin;;
  set_protocol_params params;;
  publish (proto_upd (pp_debt_ceiling params) (pp_liq_health_threshold_bps params)).

Definition set_price (admin : Address) (feed_id : Symbol) (price : Z) : C () :=
  require_auth admin;;
  assert_admin admin;;
  panic_if (price <=? 0) "Invalid amount";;
  set_price_cache feed_id price;;
  t ← now;
  publish (price_set feed_id price t).

Definition deposit_collateral (user token : Address) (amount : Z) : C () :=
  require_auth user;;
  check_paused;;
  panic_if (amount <=? 0) "Invalid amount";;
  o ← get_collateral_config token;
  config ← expect o "Collateral type not found";
  panic_if (negb (ct_is_active config)) "Collateral type inactive";;
  (if ct_collateral_cap config >? 0 then
     current ← get_total_collateral_for_type token;
     s ← plain_add I128 current amount;
     panic_if (s >? ct_collateral_cap config) "Collateral cap exceeded"
   else mret tt);;
  params ← get_protocol_params;
  (if pp_max_collateral_per_user params >? 0 then
     user_coll ← get_user_collateral user token;
     s ← plain_add I128 (uc_amount user_coll) amount;
     panic_if (s >? pp_max_collateral_per_user params) "Per-user collateral cap exceeded"
   else mret tt);;
  contract_addr ← self_address;
  token_transfer token user contract_addr amount;;
  user_coll ← get_user_collateral user token;
  new_amount ← plain_add I128 (uc_amount user_coll) amount;
  t ← now;
  set_user_collateral {| user_coll with uc_amount := new_amount; uc_last_updated := t |};;
  total ← get_total_collateral_for_type token;
  new_total ← plain_add I128 total amount;
  set_total_collateral_for_type token new_total;;
  publish (col_dep user token amount t).

Definition withdraw_collateral (user token : Address) (amount : Z) : C () :=
  require_auth user;;
  check_paused;;
  with_guard (withdraw_internal user token amount).

Definition borrow (user borrow_token : Address) (amount : Z) : C () :=
  require_auth user;;
  check_paused;;
  with_guard (borrow_internal user borrow_token amount).

Definition repay_loan (user : Address) (loan_id amount : Z) : C () :=
  require_auth user;;
  check_paused;;
  with_guard (repay_internal user loan_id amount).

Definition liquidate (liquidator borrower : Address) (loan_id debt_to_cover : Z) : C () :=
  require_auth liquidator;;
  check_paused;;
  with_guard (liquidate_internal liquidator borrower loan_id debt_to_cover).

Definition accrue_interest (borrower : Address) (loan_id : Z) : C () := accrue_one borrower loan_id.

Definition accrue_all_interest (borrower : Address) : C () :=
  ids ← get_user_loan_ids borrower;
  accrue_all borrower ids.

Definition pause (admin : Address) : C () :=
  require_auth admin;;
  assert_admin admin;;
  set_paused true;;
  t ← now;
  publish (cm_pause t).

Definition unpause (admin : Address) : C () :=
  require_auth admin;;
  assert_admin admin;;
  set_paused false;;
  t ← now;
  publish (cm_unp t).

(** ** Views *)

Definition get_interest_rate (borrow_token : Address) : C Z :=
  params ← get_protocol_params;
  debt ← get_total_debt borrow_token;
  deposits ← get_lending_pool_deposits borrow_token;
  util ← calculate_utilization debt deposits;
  calculate_interest_rate params util.

Definition get_health_factor (user : Address) : C HealthFactor := calc_user_health user.
Definition get_user_loan (borrower : Address) (loan_id : Z) : C Loan :=
  require_user_loan borrower loan_id.
Definition get_collateral_type (token : Address) : C CollateralTypeConfig :=
  o ← get_collateral_config token;
  expect o "Collateral type not found".
Definition get_all_collateral_tokens : C (list Address) := get_collateral_tokens.
Definition get_protocol_parameters : C ProtocolParams := get_protocol_params.
Definition get_total_protocol_debt (borrow_token : Address) : C Z := get_total_debt borrow_token.
Definition get_total_collateral (token : Address) : C Z := get_total_collateral_for_type token.

Definition can_liquidate (borrower : Address) (loan_id : Z) : C bool :=
  loan ← require_user_loan borrower loan_id;
  if ln_is_liquidated loan || ln_is_repaid loan then mret false
  else
    hf ← calc_user_health borrower;
    params ← get_protocol_params;
    mret (hf_health_factor_bps hf <? pp_liq_health_threshold_bps params).

End contract.

(** ** The contract as a transaction system *)

Inductive Call :=
| CInitialize (admin oracle : Address) (treasury : option Address)
| CRegister (admin token : Address) (feed : Symbol) (ltv threshold bonus cap scale : Z)
| CUpdate (admin token : Address) (ltv threshold bonus cap : Z)
| CDeactivate (admin token : Address)
| CReactivate (admin token : Address)
| CSetParameters (admin : Address) (params : ProtocolParams)
| CSetPrice (admin : Address) (feed : Symbol) (price : Z)
| CDeposit (user token : Address) (amount : Z)
| CWithdraw (user token : Address) (amount : Z)
| CBorrow (user token : Address) (amount : Z)
| CRepay (user : Address) (loan_id amount : Z)
| CLiquidate (liquidator borrower : Address) (loan_id debt_to_cover : Z)
| CAccrue (borrower : Address) (loan_id : Z)
| CAccrueAll (borrower : Address)
| CPause (admin : Address)
| CUnpause (admin : Address).

Definition exec `{TokenHost} `{PriceOracle} (c : Call) : M State Empty_set Event () :=
  match c with
  | CInitialize admin oracle treasury => initialize admin oracle treasury
  | CRegister admin token feed ltv threshold bonus cap scale =>
      register_collateral_type admin token feed ltv threshold bonus cap scale
  | CUpdate admin token ltv threshold bonus cap =>
      update_collateral_type admin token ltv threshold bonus cap
  | CDeactivate admin token => deactivate_collateral_type admin token
  | CReactivate admin token => reactivate_collateral_type admin token
  | CSetParameters admin params => set_protocol_parameters admin params
  | CSetPrice admin feed price => set_price admin feed price
  | CDeposit user token amount => deposit_collateral user token amount
  | CWithdraw user token amount => withdraw_collateral user token amount
  | CBorrow user token amount => borrow user token amount
  | CRepay user loan_id amount => repay_loan user loan_id amount
  | CLiquidate liquidator borrower loan_id n => liquidate liquidator borrower loan_id n
  | CAccrue borrower loan_id => accrue_interest borrower loan_id
  | CAccrueAll borrower => accrue_all_interest borrower
  | CPause admin => pause admin
  | CUnpause admin => unpause admin
  end.

(** The unsigned arguments of a registration are non-negative, by their Rust
    types. *)
Definition call_ok (c : Call) : Prop :=
  match c with
  | CRegister _ _ _ ltv threshold bonus _ _ => 0 ≤ ltv ∧ 0 ≤ threshold ∧ 0 ≤ bonus
  | CUpdate _ _ ltv threshold bonus _ => 0 ≤ ltv ∧ 0 ≤ threshold ∧ 0 ≤ bonus
  | _ => True
  end.

Definition deployed : State :=
  mkState None None None None None None ∅ None ∅ None ∅ None None ∅ ∅ ∅ ∅ ∅.
