(* ===== verification/CollateralProofs.v ===== *)
(** * contracts/collateral-management: invariants and theorems

    The books of loans and collateral, the cover of the deposited collateral,
    what the health checks of borrowing and withdrawing guarantee afterwards,
    and when and how a loan is liquidated. *)

From stdpp Require Import gmap strings list fin_maps.
From S2P Require Import Prelude Soroban TokenModel CollateralMath Collateral.
Open Scope Z_scope.

(** ** What the valuations and the debts read *)

Definition same_prices (s1 s2 : State) : Prop :=
  CollateralType s1 = CollateralType s2 ∧ PriceCache s1 = PriceCache s2 ∧ Oracle s1 = Oracle s2.

Definition same_holdings (s1 s2 : State) : Prop :=
  same_prices s1 s2 ∧ CollateralTokens s1 = CollateralTokens s2 ∧
  UserCollateralAt s1 = UserCollateralAt s2.

Definition same_loans (s1 s2 : State) : Prop :=
  LoanAt s1 = LoanAt s2 ∧ UserLoanIds s1 = UserLoanIds s2.

Section queries.
Context `{TokenHost} `{PriceOracle} (R : State → State → Prop).

Lemma reads_math_health v d t : reads R (calculate_health_factor v d t : M State Empty_set Event _).
Proof. unfold calculate_health_factor. eauto 10 with contracts. Qed.

Section prices.
Hypothesis HR : ∀ s1 s2, R s1 s2 → same_prices s1 s2.

Lemma reads_oracle_price feed scale : reads R (get_oracle_price feed scale).
Proof.
  unfold get_oracle_price, get_price_cache, get_oracle.
  apply reads_bind; [apply reads_gets; intros s1 s2 (_ & -> & _)%HR; done|].
  intros [price|]; [apply reads_ret|].
  apply reads_bind; [apply reads_bind; [apply reads_gets; intros s1 s2 (_ & _ & ->)%HR; done|
    intros; apply reads_expect]|].
  intros addr. apply reads_bind; [|eauto 12 with contracts].
  intros e w1 w2 a w' _ Hr. cbn in *. destruct (oracle_get_price _ _ _); by simplify_eq.
Qed.

Lemma reads_config tok : reads R (get_collateral_config tok).
Proof. apply reads_gets. intros s1 s2 (-> & _)%HR. done. Qed.

Lemma reads_value_of_type cfg n : reads R (value_of_type cfg n).
Proof. unfold value_of_type. eauto 12 using reads_oracle_price with contracts. Qed.

Lemma reads_value_step amount v tok : reads R (amount tok) → reads R (value_step amount v tok).
Proof.
  intros Ha. unfold value_step. apply reads_bind; [done|]. intros n. apply reads_if; [|apply reads_ret].
  apply reads_bind; [apply reads_config|]. eauto 12 using reads_value_of_type with contracts.
Qed.

Lemma reads_threshold_step amount acc tok :
  reads R (amount tok) → reads R (threshold_step amount acc tok).
Proof.
  intros Ha. unfold threshold_step. apply reads_bind; [done|]. intros n. apply reads_if; [|apply reads_ret].
  apply reads_bind; [apply reads_config|]. eauto 12 using reads_value_of_type with contracts.
Qed.

Lemma reads_threshold_of_sums acc : reads R (threshold_of_sums acc).
Proof. unfold threshold_of_sums. eauto 12 with contracts. Qed.
End prices.

Section holdings.
Hypothesis HR : ∀ s1 s2, R s1 s2 → same_holdings s1 s2.

Let HP s1 s2 (Hs : R s1 s2) : same_prices s1 s2 := proj1 (HR s1 s2 Hs).

Lemma reads_tokens : reads R get_collateral_tokens.
Proof. apply reads_gets. intros s1 s2 (_ & -> & _)%HR. done. Qed.

Lemma reads_user_collateral u tok : reads R (get_user_collateral u tok).
Proof. apply reads_gets. intros s1 s2 (_ & _ & ->)%HR. done. Qed.

Lemma reads_stored_amount u tok : reads R (stored_amount u tok).
Proof. unfold stored_amount. eauto 12 using reads_user_collateral with contracts. Qed.

Lemma reads_override_amount u tk n tok : reads R (override_amount u tk n tok).
Proof. unfold override_amount. eauto 12 using reads_stored_amount with contracts. Qed.

Lemma reads_total_value u : reads R (total_collateral_value u).
Proof.
  apply reads_bind; [apply reads_tokens|]. intros ts. apply reads_foldM. intros.
  apply reads_value_step, reads_stored_amount. exact HP.
Qed.

Lemma reads_total_value_override u tk n : reads R (total_collateral_value_override u tk n).
Proof.
  apply reads_bind; [apply reads_tokens|]. intros ts. apply reads_foldM. intros.
  apply reads_value_step, reads_override_amount. exact HP.
Qed.

Lemma reads_threshold u : reads R (weighted_threshold u).
Proof.
  apply reads_bind; [apply reads_tokens|]. intros ts. apply reads_bind; [|apply reads_threshold_of_sums].
  apply reads_foldM. intros. apply reads_threshold_step, reads_stored_amount. exact HP.
Qed.

Lemma reads_threshold_override u tk n : reads R (weighted_threshold_override u tk n).
Proof.
  apply reads_bind; [apply reads_tokens|]. intros ts. apply reads_bind; [|apply reads_threshold_of_sums].
  apply reads_foldM. intros. apply reads_threshold_step, reads_override_amount. exact HP.
Qed.

Lemma reads_best_seize u : reads R (best_seize_collateral u).
Proof.
  apply reads_bind; [apply reads_tokens|]. intros ts. apply reads_bind; [|eauto 12 with contracts].
  apply reads_foldM. intros best tok. unfold best_step.
  apply reads_bind; [apply reads_user_collateral|]. intros uc. apply reads_if; [|apply reads_ret].
  apply reads_bind; [apply (reads_config HP)|].
  pose proof (reads_value_of_type HP). eauto 12 with contracts.
Qed.
End holdings.

Section loans.
Hypothesis HR : ∀ s1 s2, R s1 s2 → same_loans s1 s2.

Lemma reads_loan i : reads R (get_loan i).
Proof. apply reads_gets. intros s1 s2 (-> & _)%HR. done. Qed.

Lemma reads_loan_ids u : reads R (get_user_loan_ids u).
Proof. apply reads_gets. intros s1 s2 (_ & ->)%HR. done. Qed.

Lemma reads_debts counts u : reads R (ids ← get_user_loan_ids u; foldM (debt_step counts) 0 ids).
Proof.
  apply reads_bind; [apply reads_loan_ids|]. intros ids. apply reads_foldM. intros.
  unfold debt_step. eauto 12 using reads_loan with contracts.
Qed.

Lemma reads_user_loan u i : reads R (require_user_loan u i).
Proof.
  unfold require_user_loan. eauto 12 using reads_loan_ids, reads_loan with contracts.
Qed.
End loans.
End queries.

(** ** The books *)

(** A sum over the loans of one token, and over the collateral of one token. *)
Definition owed (f : Loan → Z) (tk : Address) (m : gmap Z Loan) : Z :=
  msum (λ _ l, if bool_decide (ln_borrow_token l = tk) then f l else 0) m.

Definition held (tk : Address) (m : gmap (Address * Address) UserCollateral) : Z :=
  msum (λ k uc, if bool_decide (snd k = tk) then uc_amount uc else 0) m.

Definition total_at (d : gmap Address Z) (tk : Address) : Z := default 0 (d !! tk).

Record loan_ok (counter i : Z) (l : Loan) : Prop := {
  lk_id : ln_loan_id l = i;
  lk_range : 0 ≤ i < counter;
  lk_principal : 0 ≤ ln_principal l;
  lk_interest : 0 ≤ ln_accrued_interest l;
  lk_total : ln_total_debt l = ln_principal l + ln_accrued_interest l;
  lk_closed : ln_is_liquidated l || ln_is_repaid l = true → ln_total_debt l = 0;
}.

Record loans_ok (m : gmap Z Loan) (idx : gmap Address (list Z)) (counter : Z)
    (d : gmap Address Z) : Prop := {
  lo_loan i l : m !! i = Some l → loan_ok counter i l;
  lo_debt tk : total_at d tk = owed ln_total_debt tk m;
  lo_index u i : i ∈ default [] (idx !! u) ↔ ∃ l, m !! i = Some l ∧ ln_borrower l = u;
  lo_nodup u : NoDup (default [] (idx !! u));
}.

Record coll_ok (m : gmap (Address * Address) UserCollateral) (tot : gmap Address Z) : Prop := {
  co_key u tk uc : m !! (u, tk) = Some uc → uc_user uc = u ∧ uc_token uc = tk ∧ 0 ≤ uc_amount uc;
  co_total tk : total_at tot tk = held tk m;
}.

Lemma total_at_insert d tk n tk' :
  total_at (<[tk := n]> d) tk' = if bool_decide (tk' = tk) then n else total_at d tk'.
Proof.
  unfold total_at. case_bool_decide as Ht.
  - subst. by rewrite lookup_insert_eq.
  - by rewrite lookup_insert_ne.
Qed.

Lemma total_at_add d tk n tk' :
  total_at (<[tk := total_at d tk + n]> d) tk' =
    total_at d tk' + (if bool_decide (tk' = tk) then n else 0).
Proof. rewrite total_at_insert. case_bool_decide; subst; lia. Qed.

Lemma owed_replace f tk m i l l' :
  m !! i = Some l → ln_borrow_token l' = ln_borrow_token l →
  owed f tk (<[i := l']> m) =
    owed f tk m + (if bool_decide (tk = ln_borrow_token l) then f l' - f l else 0).
Proof.
  intros Hi Ht. unfold owed. rewrite (msum_insert_update _ _ _ l) by done. rewrite Ht.
  repeat case_bool_decide; subst; naive_solver lia.
Qed.

(** Rewriting a loan keeps the books when the total debt of its token moves by
    the change of the loan's debt. *)
Lemma loans_replace m idx c d d' i l l' :
  loans_ok m idx c d → m !! i = Some l → loan_ok c i l' →
  ln_borrower l' = ln_borrower l → ln_borrow_token l' = ln_borrow_token l →
  (∀ tk, total_at d' tk = total_at d tk
     + (if bool_decide (tk = ln_borrow_token l) then ln_total_debt l' - ln_total_debt l else 0)) →
  loans_ok (<[i := l']> m) idx c d'.
Proof.
  intros Hlo Hi Hok Hb Ht Hd. split.
  - intros j q [[<- <-]|[_ Hq]]%lookup_insert_Some; [done|]. by apply (lo_loan _ _ _ _ Hlo).
  - intros tk. rewrite Hd, (lo_debt _ _ _ _ Hlo). by rewrite (owed_replace _ _ _ _ l).
  - intros u j. rewrite (lo_index _ _ _ _ Hlo). split.
    + intros (q & Hq & <-). destruct (decide (i = j)) as [<-|].
      * simplify_eq. exists l'. by rewrite lookup_insert_eq.
      * exists q. by rewrite lookup_insert_ne.
    + intros (q & [[<- <-]|[_ Hq]]%lookup_insert_Some & <-); eauto.
  - apply Hlo.
Qed.

Lemma loans_fresh m idx c d : loans_ok m idx c d → m !! c = None.
Proof.
  intros Hlo. destruct (m !! c) as [l|] eqn:Hl; [|done].
  pose proof (lk_range _ _ _ (lo_loan _ _ _ _ Hlo _ _ Hl)). lia.
Qed.

(** A new loan takes the counter as its identifier. *)
Lemma loans_open m idx c d l :
  loans_ok m idx c d → 0 ≤ c → loan_ok (c + 1) c l →
  loans_ok (<[c := l]> m) (<[ln_borrower l := default [] (idx !! ln_borrower l) ++ [c]]> idx) (c + 1)
    (<[ln_borrow_token l := total_at d (ln_borrow_token l) + ln_total_debt l]> d).
Proof.
  intros Hlo Hc Hok. pose proof (loans_fresh _ _ _ _ Hlo) as Hfresh. split.
  - intros j q [[<- <-]|[_ Hq]]%lookup_insert_Some; [done|].
    destruct (lo_loan _ _ _ _ Hlo _ _ Hq). split; [done|lia|done..].
  - intros tk. rewrite total_at_insert. unfold owed. rewrite msum_insert_fresh by done.
    fold (owed ln_total_debt tk m). rewrite <- (lo_debt _ _ _ _ Hlo).
    repeat case_bool_decide; subst; naive_solver lia.
  - intros u j. rewrite lookup_insert. case_decide as Hu; simpl.
    + rewrite elem_of_app, list_elem_of_singleton, (lo_index _ _ _ _ Hlo). subst u. split.
      * intros [(q & Hq & Hqu)| ->]; [exists q; rewrite lookup_insert_ne; [done|congruence]|].
        exists l. by rewrite lookup_insert_eq.
      * intros (q & [[<- <-]|[_ Hq]]%lookup_insert_Some & Hqu); [by right|]. left. eauto.
    + rewrite (lo_index _ _ _ _ Hlo). split.
      * intros (q & Hq & <-). exists q. rewrite lookup_insert_ne; [done|congruence].
      * intros (q & [[<- <-]|[_ Hq]]%lookup_insert_Some & <-); [done|]. eauto.
  - intros u. rewrite lookup_insert. case_decide; [|apply Hlo]. simpl. subst u.
    apply NoDup_snoc; [apply Hlo|]. rewrite (lo_index _ _ _ _ Hlo). intros (q & Hq & _). congruence.
Qed.

Lemma collateral_held_insert tk m u tk0 uc :
  held tk (<[(u, tk0) := uc]> m) = held tk m
    + (if bool_decide (tk = tk0) then uc_amount uc - from_option uc_amount 0 (m !! (u, tk0)) else 0).
Proof.
  unfold held. rewrite msum_insert. simpl. destruct (m !! (u, tk0)); simpl;
    repeat case_bool_decide; subst; naive_solver lia.
Qed.

(** Rewriting one user's collateral keeps the books when the total moves along. *)
Lemma coll_replace m tot tot' u tk uc :
  coll_ok m tot → uc_user uc = u → uc_token uc = tk → 0 ≤ uc_amount uc →
  (∀ tk', total_at tot' tk' = total_at tot tk'
     + (if bool_decide (tk' = tk) then uc_amount uc - from_option uc_amount 0 (m !! (u, tk)) else 0)) →
  coll_ok (<[(u, tk) := uc]> m) tot'.
Proof.
  intros Hco Hu Ht Hn Htot. split.
  - intros u' tk' q [[? <-]|[_ Hq]]%lookup_insert_Some; [by simplify_eq|].
    by apply (co_key _ _ Hco).
  - intros tk'. rewrite Htot, collateral_held_insert. by rewrite (co_total _ _ Hco).
Qed.

(** ** What the steps of the operations do *)

Section steps.
Context `{TokenHost} `{PriceOracle}.
Implicit Types (w : World State Event) (e : Env).

Lemma collateral_assert_admin_spec a e w u w' :
  assert_admin a e w = Ok (u, w') → AdminKey (store w) = Some a ∧ w' = w.
Proof. intros Hr. minv Hr using assert_admin. zbool. by subst. Qed.

Lemma require_user_loan_spec b i e w l w' :
  require_user_loan b i e w = Ok (l, w') →
  i ∈ default [] (UserLoanIds (store w) !! b) ∧ LoanAt (store w) !! i = Some l ∧ w' = w.
Proof.
  intros Hr. unfold require_user_loan, get_user_loan_ids, get_loan in Hr. minv Hr.
  apply existsb_exists in Hc as (j & Hj & ->%Z.eqb_eq). by rewrite list_elem_of_In.
Qed.

(** Accrual adds some interest to the loan and the same amount to the total
    debt of its token. *)
Lemma accrue_loan_spec c i l e w l' w' :
  accrue_loan l e w = Ok (l', w') → loan_ok c i l →
  loan_ok c i l' ∧ ln_borrower l' = ln_borrower l ∧ ln_borrow_token l' = ln_borrow_token l ∧
  ln_principal l' = ln_principal l ∧ ln_is_liquidated l' = ln_is_liquidated l ∧
  ln_is_repaid l' = ln_is_repaid l ∧ ln_total_debt l ≤ ln_total_debt l' ∧ ledger w' = ledger w ∧
  ∃ d', store w' = {| (store w) with TotalDebt := d' |} ∧
    ∀ tk, total_at d' tk = total_at (TotalDebt (store w)) tk
      + (if bool_decide (tk = ln_borrow_token l) then ln_total_debt l' - ln_total_debt l else 0).
Proof.
  intros Hr Hok.
  assert (∀ tk, total_at (TotalDebt (store w)) tk = total_at (TotalDebt (store w)) tk
    + (if bool_decide (tk = ln_borrow_token l) then ln_total_debt l - ln_total_debt l else 0)) as Hsame
    by (intros; case_bool_decide; lia).
  assert (store w = {| (store w) with TotalDebt := TotalDebt (store w) |}) as Heta by by destruct (store w).
  unfold accrue_loan, get_total_debt, set_total_debt in Hr.
  destruct (ln_is_liquidated l || ln_is_repaid l) eqn:Hclosed.
  { minv Hr. split_and!; eauto; lia. }
  apply bind_Ok in Hr as (t & w0 & Ht & Hr). minv Ht.
  apply bind_Ok in Hr as (delta & w0 & Hdelta & Hr). minv Hdelta.
  destruct (delta <=? 0); [minv Hr; split_and!; eauto; lia|].
  apply bind_Ok in Hr as (n & w1 & Hn & Hr).
  assert (w1 = w) as -> by (eapply reads_pure; [|exact Hn]; unfold calculate_accrued_interest; eauto 10 with contracts).
  destruct (n >? 0) eqn:Hpos; [|minv Hr; split_and!; eauto; lia].
  minv Hr. arith. pose proof (lk_total _ _ _ Hok) as Htot. destruct Hok. split_and!; cbn; try done; try lia.
  - split; cbn; try done; try lia. by use_tests.
  - eexists. split; [done|]. intros tk. rewrite total_at_insert. unfold total_at.
    repeat case_bool_decide; subst; lia.
Qed.

(** What marking a loan as closed may change. *)
Definition closing (close : Loan → Loan) : Prop :=
  ∀ l, ∃ b1 b2, close l = {| l with ln_is_liquidated := b1; ln_is_repaid := b2 |}.

Lemma pay_loan_spec c i l n close e w l' w' :
  pay_loan l n close e w = Ok (l', w') → closing close → loan_ok c i l →
  ln_is_liquidated l || ln_is_repaid l = false → 0 ≤ n ≤ ln_total_debt l →
  w' = w ∧ loan_ok c i l' ∧ ln_borrower l' = ln_borrower l ∧ ln_borrow_token l' = ln_borrow_token l ∧
  ln_total_debt l' = ln_total_debt l - n ∧ ln_principal l - n ≤ ln_principal l' ≤ ln_principal l.
Proof.
  intros Hr Hclose [Hid Hrange Hp Hi Ht _] Hopen Hn. minv Hr using pay_loan. arith.
  split; [done|]. destruct (ln_total_debt l - n <=? 0) eqn:Hd; zbool.
  - destruct (Hclose {| l with ln_accrued_interest := 0; ln_principal := 0; ln_total_debt := 0 |})
      as (b1 & b2 & ->). cbn. split_and!; try done; try lia.
  - split_and!; cbn; try done; try lia. split; cbn; try done; try lia. by use_tests.
Qed.
End steps.

(** ** The invariant *)

Definition counter (st : State) : Z := default 0 (LoanCounter st).

(** The protocol parameters in force. *)
Definition params_of (st : State) : ProtocolParams :=
  default (mkProtocolParams 0 10000 200 400 7500 8000 0 0) (Params st).

(** The risk parameters of a collateral type. *)
Record config_ok (cfg : CollateralTypeConfig) : Prop := {
  cf_ltv : 0 ≤ ct_ltv_bps cfg ≤ ct_liq_threshold_bps cfg;
  cf_threshold : ct_liq_threshold_bps cfg ≤ MAX_LIQ_THRESHOLD_BPS;
  cf_bonus : 0 ≤ ct_liq_bonus_bps cfg ≤ MAX_LIQ_BONUS_BPS;
  cf_scale : 0 < ct_price_scale cfg;
}.

Record market_ok (types : gmap Address CollateralTypeConfig) (prices : gmap Symbol Z) : Prop := {
  mk_config tk cfg : types !! tk = Some cfg → config_ok cfg;
  mk_price feed p : prices !! feed = Some p → 0 < p;
}.

Record books (st : State) : Prop := {
  bo_loans : loans_ok (LoanAt st) (UserLoanIds st) (counter st) (TotalDebt st);
  bo_coll : coll_ok (UserCollateralAt st) (TotalCollateral st);
  bo_counter : 0 ≤ counter st;
  bo_init : Initialized st = None → AdminKey st = None;
  bo_before : AdminKey st = None → CollateralTokens st = None ∧ LoanAt st = ∅;
  bo_market : market_ok (CollateralType st) (PriceCache st);
}.

(** The collateral of a token is in the contract, or lent. *)
Definition covered `{TokenHost} (self : Address) (st : State) (l : Ledger) : Prop :=
  ∀ tk, total_at (TotalCollateral st) tk ≤ tok_balance l tk self + owed ln_principal tk (LoanAt st).

Section preservation.
Context `{TokenHost} `{!TokenLaws} `{PriceOracle} (self : Address).
Implicit Types (w : World State Event) (e : Env).

Definition inv (w : World State Event) : Prop := books (store w) ∧ covered self (store w) (ledger w).

Lemma accrue_one_inv b i e w u w' : accrue_one b i e w = Ok (u, w') → inv w → inv w'.
Proof.
  intros Hr [Hb Hc]. apply bind_Ok in Hr as (l & w0 & Hl & Hr).
  apply require_user_loan_spec in Hl as (_ & Hl & ->).
  apply bind_Ok in Hr as (l' & w1 & Ha & Hr). pose proof (lo_loan _ _ _ _ (bo_loans _ Hb) _ _ Hl) as Hok.
  apply (accrue_loan_spec (counter (store w)) i) in Ha
    as (Hok' & Hbo & Htk & Hpr & _ & _ & _ & Hled & d' & Hst & Hd); [|done].
  minv Hr using set_loan. rewrite (lk_id _ _ _ Hok'), Hst. split; cbn.
  - split; cbn; try apply Hb.
    + by eapply loans_replace; [apply Hb|..].
    + intros Hk. destruct (bo_before _ Hb Hk) as [? Hm]. rewrite Hm in Hl. by rewrite lookup_empty in Hl.
  - intros tk. rewrite Hled. cbn. rewrite (owed_replace _ _ _ _ l) by done. specialize (Hc tk).
    case_bool_decide; lia.
Qed.

Lemma accrue_all_inv b ids e w u w' : accrue_all b ids e w = Ok (u, w') → inv w → inv w'.
Proof.
  intros Hr Hi. apply (foldM_inv _ (λ _, inv) _ _ _ _ _ _ Hr); [done|].
  intros i [] w1 [] w2 _ Hi1 Hone. by eapply accrue_one_inv.
Qed.

(** The record a user's collateral is read as carries its own key. *)
Lemma user_collateral_key st u tk uc :
  books st → uc = default (mkUserCollateral u tk 0 0) (UserCollateralAt st !! (u, tk)) →
  uc_user uc = u ∧ uc_token uc = tk ∧ 0 ≤ uc_amount uc ∧
  uc_amount uc = from_option uc_amount 0 (UserCollateralAt st !! (u, tk)).
Proof.
  intros Hb ->. destruct (UserCollateralAt st !! (u, tk)) as [uc|] eqn:Huc; simpl; [|done].
  by destruct (co_key _ _ (bo_coll _ Hb) _ _ _ Huc) as (? & ? & ?).
Qed.

(** One user's collateral and the total of its token move together. *)
Definition recollateralize (st : State) (u tk : Address) (uc : UserCollateral) (d : Z) : State :=
  {| st with UserCollateralAt := <[(u, tk) := uc]> (UserCollateralAt st);
     TotalCollateral := <[tk := total_at (TotalCollateral st) tk + d]> (TotalCollateral st) |}.

Lemma books_recollateralize st u tk uc d :
  books st → uc_user uc = u → uc_token uc = tk → 0 ≤ uc_amount uc →
  uc_amount uc = from_option uc_amount 0 (UserCollateralAt st !! (u, tk)) + d →
  books (recollateralize st u tk uc d).
Proof.
  intros Hb Hu Ht Hn Hd. split; cbn; try apply Hb.
  apply (coll_replace _ (TotalCollateral st)); [apply Hb|done..|]. intros tk'. rewrite total_at_insert.
  repeat case_bool_decide; subst; lia.
Qed.

(** The health check of a withdrawal, in the world it runs in. *)
Definition passes_override (u tk : Address) (rest debt : Z) (e : Env) (w : World State Event) : Prop :=
  ∃ v t hf, total_collateral_value_override u tk rest e w = Ok (v, w) ∧
    weighted_threshold_override u tk rest e w = Ok (t, w) ∧
    (calculate_health_factor v debt t : M State Empty_set Event _) e w = Ok (hf, w) ∧
    pp_liq_health_threshold_bps (params_of (store w)) ≤ hf_health_factor_bps hf.

Lemma withdraw_internal_spec u tk n e w r w' :
  withdraw_internal u tk n e w = Ok (r, w') → books (store w) →
  0 < n ∧ ∃ uc, uc_amount uc + n = from_option uc_amount 0 (UserCollateralAt (store w) !! (u, tk)) ∧
    uc_user uc = u ∧ uc_token uc = tk ∧ 0 ≤ uc_amount uc ∧
    tok_transfer e (ledger w) tk (current_contract_address e) u n = Some (ledger w') ∧
    store w' = recollateralize (store w) u tk uc (- n) ∧
    ∃ debt, user_total_debt u e w = Ok (debt, w) ∧
      (0 < debt → passes_override u tk (uc_amount uc) debt e w).
Proof.
  intros Hr Hb. unfold withdraw_internal, get_user_collateral in Hr.
  apply bind_Ok in Hr as ([] & w0 & Hn & Hr). minv Hn. zbool. split; [done|].
  apply bind_Ok in Hr as (uc & w0 & Huc & Hr). apply gets_Ok in Huc as [Huc ->].
  destruct (user_collateral_key _ _ _ _ Hb Huc) as (Hu & Ht & Hpos & Hval). clear Huc.
  apply bind_Ok in Hr as ([] & w0 & Hge & Hr). minv Hge. zbool.
  apply bind_Ok in Hr as (rest & w0 & Hrest & Hr). minv Hrest. arith.
  apply bind_Ok in Hr as (debt & w0 & Hdebt & Hr).
  assert (w0 = w) as -> by (eapply reads_pure; [|exact Hdebt]; by apply reads_debts; intros ? ? ->).
  apply bind_Ok in Hr as ([] & w0 & Hchk & Hr).
  exists {| uc with uc_amount := uc_amount uc - n; uc_last_updated := timestamp e |}. cbn.
  assert (w0 = w ∧ (0 < debt → passes_override (uc_user uc) (uc_token uc) (uc_amount uc - n) debt e w))
    as [-> Hhealth].
  { destruct (debt >? 0) eqn:Hd; [|minv Hchk; zbool; split; [done|lia]].
    unfold get_protocol_params in Hchk. minv Hchk.
    assert (w1 = w) as -> by (eapply reads_pure; [|exact Hr0]; by apply reads_total_value_override; intros ? ? ->).
    assert (w2 = w) as -> by (eapply reads_pure; [|exact Hr1]; by apply reads_threshold_override; intros ? ? ->).
    assert (w3 = w) as -> by (eapply reads_pure; [|exact Hr2]; by apply reads_math_health).
    zbool. split; [done|]. intros _. exists a, a0, a1. done. }
  unfold set_user_collateral, get_total_collateral_for_type, set_total_collateral_for_type in Hr.
  clear Hchk. minv Hr. arith.
  split_and!; try done; try lia. eauto.
Qed.

Lemma withdraw_internal_inv u tk n e w r w' :
  withdraw_internal u tk n e w = Ok (r, w') → current_contract_address e = self → u ≠ self →
  inv w → inv w'.
Proof.
  intros Hr Hself Hu [Hb Hc].
  destruct (withdraw_internal_spec _ _ _ _ _ _ _ Hr Hb) as (Hn & uc & Hamt & ? & ? & ? & Htr & Hst & _).
  rewrite Hself in Htr. apply transfer_moved in Htr. unfold inv. rewrite Hst. split.
  - apply books_recollateralize; try done; lia.
  - intros tk'. cbn. rewrite total_at_insert. specialize (Hc tk').
    rewrite (moved_out _ _ _ _ _ _ _ Htr Hu). repeat case_bool_decide; subst; lia.
Qed.

(** A deposit. *)
Lemma collateral_deposit_inv u tk n e w r w' :
  deposit_collateral u tk n e w = Ok (r, w') → wf_env self e → inv w → inv w'.
Proof.
  intros Hr He [Hb Hc]. unfold deposit_collateral, check_paused, is_paused, get_collateral_config, get_user_collateral,
    get_protocol_params, set_user_collateral, get_total_collateral_for_type,
    set_total_collateral_for_type in Hr.
  apply bind_Ok in Hr as ([] & w0 & Hauth & Hr). minv Hauth.
  apply bind_Ok in Hr as ([] & w0 & Hp & Hr). minv Hp. apply bind_Ok in Hr as ([] & w0 & Hn & Hr). minv Hn.
  apply bind_Ok in Hr as (o & w0 & Ho & Hr). minv Ho. apply bind_Ok in Hr as (cfg & w0 & Hcfg & Hr). minv Hcfg.
  apply bind_Ok in Hr as ([] & w0 & Hact & Hr). minv Hact. apply bind_Ok in Hr as ([] & w0 & Hcap & Hr).
  assert (w0 = w) as -> by (minv Hcap; done).
  apply bind_Ok in Hr as (ps & w0 & Hps & Hr). minv Hps. apply bind_Ok in Hr as ([] & w0 & Hmax & Hr).
  assert (w0 = w) as -> by (minv Hmax; done). clear Hcap Hmax.
  apply bind_Ok in Hr as (a & w0 & Ha & Hr). minv Ha.
  apply bind_Ok in Hr as ([] & w0 & Htr & Hr). apply token_transfer_Ok in Htr as (l' & Htr & ->).
  rewrite (wf_self _ _ He) in Htr. apply transfer_moved in Htr.
  apply bind_Ok in Hr as (uc & w0 & Huc & Hr). apply gets_Ok in Huc as [Huc ->]. cbn in Huc.
  destruct (user_collateral_key _ _ _ _ Hb Huc) as (Hu & Ht & Hpos & Hval). clear Huc.
  minv Hr. arith. unfold total_at. split; cbn.
  - apply (books_recollateralize _ _ _ {| uc with uc_amount := uc_amount uc + n; uc_last_updated := timestamp e |} n);
      cbn; try done; lia.
  - intros tk'. cbn. rewrite total_at_insert. specialize (Hc tk').
    rewrite (moved_in _ _ _ _ _ _ _ Htr) by (exact (wf_auth_ne _ _ _ He Hauth)).
    repeat case_bool_decide; subst; unfold total_at in *; lia.
Qed.

(** The health check of a loan of [n], in the world it runs in. *)
Definition passes_with (u : Address) (n : Z) (e : Env) (w : World State Event) : Prop :=
  ∃ debt v t hf, user_total_debt u e w = Ok (debt, w) ∧ total_collateral_value u e w = Ok (v, w) ∧
    0 < v ∧ weighted_threshold u e w = Ok (t, w) ∧ int_min I128 ≤ debt + n ≤ int_max I128 ∧
    (calculate_health_factor v (debt + n) t : M State Empty_set Event _) e w = Ok (hf, w) ∧
    (0 < debt + n → pp_liq_health_threshold_bps (params_of (store w)) ≤ hf_health_factor_bps hf).

(** The storage after a loan is opened. *)
Definition opened (st : State) (u tk : Address) (n rate t : Z) : State :=
  let i := counter st in
  {| st with LoanAt := <[i := mkLoan i u tk n 0 n rate t t false false]> (LoanAt st);
     UserLoanIds := <[u := default [] (UserLoanIds st !! u) ++ [i]]> (UserLoanIds st);
     LoanCounter := Some (i + 1);
     TotalDebt := <[tk := total_at (TotalDebt st) tk + n]> (TotalDebt st) |}.

Lemma accrue_one_params b i e w u w' :
  accrue_one b i e w = Ok (u, w') → Params (store w') = Params (store w) ∧ AdminKey (store w') = AdminKey (store w).
Proof.
  intros Hr. unfold accrue_one, set_loan in Hr. apply bind_Ok in Hr as (l & w0 & Hl & Hr).
  apply require_user_loan_spec in Hl as (_ & _ & ->). apply bind_Ok in Hr as (l' & w1 & Ha & Hr). minv Hr. cbn.
  unfold accrue_loan, get_total_debt, set_total_debt in Ha. minv Ha; try done;
    spec reads_pure as Hw; subst; try done; unfold calculate_accrued_interest; eauto 10 with contracts.
Qed.

Lemma accrue_all_params b ids e w u w' :
  accrue_all b ids e w = Ok (u, w') → Params (store w') = Params (store w) ∧ AdminKey (store w') = AdminKey (store w).
Proof.
  intros Hr. apply (foldM_inv _ (λ _ w1, Params (store w1) = Params (store w) ∧ AdminKey (store w1) = AdminKey (store w))
    _ _ _ _ _ _ Hr); [done|].
  intros i [] w1 [] w2 _ [<- <-] Hone. by eapply accrue_one_params.
Qed.

(** The checks of the caps write nothing. *)
Lemma borrow_caps_pure ps u tk n e w r w' :
  (if pp_max_borrow_per_user ps >? 0 then
     existing ← user_debt_for_token u tk;
     s ← plain_add I128 existing n;
     panic_if (s >? pp_max_borrow_per_user ps) "Per-user borrow cap exceeded"
   else mret tt) e w = Ok (r, w') → w' = w.
Proof.
  intros Hr. eapply reads_pure; [|exact Hr]. apply reads_if; [|apply reads_ret].
  apply reads_bind; [by apply reads_debts; intros ? ? ->|]. eauto with contracts.
Qed.

(** The health check of [borrow_internal]. *)
Lemma borrow_check_spec u debt n v ps e w r w' :
  user_total_debt u e w = Ok (debt, w) → total_collateral_value u e w = Ok (v, w) →
  0 < n → 0 ≤ debt → int_min I128 ≤ debt + n ≤ int_max I128 → ps = params_of (store w) →
  (if debt + n >? 0 then
     panic_if (v <=? 0) "Health factor below liquidation threshold";;
     wt ← weighted_threshold u;
     hf ← calculate_health_factor v (debt + n) wt;
     panic_if (hf_health_factor_bps hf <? pp_liq_health_threshold_bps ps)
       "Health factor below liquidation threshold"
   else mret tt) e w = Ok (r, w') → w' = w ∧ passes_with u n e w.
Proof.
  intros Hdebt Hv Hn Hnn Hrange -> Hr. destruct (debt + n >? 0) eqn:Hpos; zbool; [|lia].
  apply bind_Ok in Hr as ([] & w0 & Hv0 & Hr). minv Hv0. zbool.
  apply bind_Ok in Hr as (t & w0 & Ht & Hr).
  assert (w0 = w) as -> by (eapply reads_pure; [|exact Ht]; by apply reads_threshold; intros ? ? ->).
  apply bind_Ok in Hr as (hf & w0 & Hhf & Hr).
  assert (w0 = w) as -> by (eapply reads_pure; [|exact Hhf]; by apply reads_math_health).
  minv Hr. zbool. split; [done|]. exists debt, v, t, hf. done.
Qed.

Lemma user_debt_nonneg u e w d w' :
  user_total_debt u e w = Ok (d, w') → books (store w) → 0 ≤ d.
Proof.
  intros Hr Hb. unfold user_total_debt in Hr. apply bind_Ok in Hr as (ids & w0 & Hids & Hr).
  minv Hids using get_user_loan_ids.
  apply (foldM_inv _ (λ d w1, 0 ≤ d ∧ w1 = w) _ _ _ _ _ _ Hr); [done|].
  intros i b w1 b' w2 _ [Hb0 ->] Hone.
  unfold debt_step, get_loan in Hone. apply bind_Ok in Hone as (o & w3 & Ho & Hone). minv Ho.
  apply bind_Ok in Hone as (ln & w3 & Hln & Hone). minv Hln.
  destruct (lo_loan _ _ _ _ (bo_loans _ Hb) _ _ Hln). minv Hone; arith; split; try done; lia.
Qed.

Lemma borrow_internal_spec u tk n e w r w' :
  borrow_internal u tk n e w = Ok (r, w') → inv w →
  0 < n ∧ ∃ w1 rate, accrue_all u (default [] (UserLoanIds (store w) !! u)) e w = Ok (tt, w1) ∧
    passes_with u n e w1 ∧
    tok_transfer e (ledger w1) tk (current_contract_address e) u n = Some (ledger w') ∧
    store w' = opened (store w1) u tk n rate (timestamp e).
Proof.
  intros Hr Hi. unfold borrow_internal, get_protocol_params in Hr.
  apply bind_Ok in Hr as ([] & w0 & Hn & Hr). minv Hn. zbool. split; [done|].
  apply bind_Ok in Hr as (ps & w0 & Hps & Hr). apply gets_Ok in Hps as [Hps ->]. fold (params_of (store w)) in Hps.
  apply bind_Ok in Hr as ([] & w0 & Hcap & Hr). apply borrow_caps_pure in Hcap as ->.
  apply bind_Ok in Hr as ([] & w0 & Hceil & Hr).
  assert (w0 = w) as -> by (minv Hceil using get_total_debt; done). clear Hceil.
  apply bind_Ok in Hr as (ids & w0 & Hids & Hr). minv Hids using get_user_loan_ids.
  apply bind_Ok in Hr as ([] & w1 & Hacc & Hr). exists w1.
  pose proof (proj1 (accrue_all_params _ _ _ _ _ _ Hacc)) as Hpar.
  assert (params_of (store w) = params_of (store w1)) as Hps by (unfold params_of; by rewrite Hpar).
  pose proof (accrue_all_inv _ _ _ _ _ _ Hacc Hi) as [Hb1 _].
  apply bind_Ok in Hr as (debt & w0 & Hdebt & Hr).
  assert (w0 = w1) as -> by (eapply reads_pure; [|exact Hdebt]; by apply reads_debts; intros ? ? ->).
  pose proof (user_debt_nonneg _ _ _ _ _ Hdebt Hb1).
  apply bind_Ok in Hr as (after & w0 & Hafter & Hr). minv Hafter. arith.
  apply bind_Ok in Hr as (v & w0 & Hv & Hr).
  assert (w0 = w1) as -> by (eapply reads_pure; [|exact Hv]; by apply reads_total_value; intros ? ? ->).
  apply bind_Ok in Hr as ([] & w0 & Hchk & Hr).
  apply (borrow_check_spec _ debt) in Hchk as [-> Hchk]; try done.
  unfold get_total_debt, get_lending_pool_deposits, get_loan_counter, set_loan, add_user_loan_id,
    get_user_loan_ids, set_user_loan_ids, set_loan_counter, set_total_debt in Hr.
  apply bind_Ok in Hr as (d & w0 & Hd & Hr). minv Hd. apply bind_Ok in Hr as (dep & w0 & Hdep & Hr). minv Hdep.
  apply bind_Ok in Hr as (util & w0 & Hutil & Hr).
  assert (w0 = w1) as -> by (eapply reads_pure; [|exact Hutil]; unfold calculate_utilization; eauto with contracts).
  apply bind_Ok in Hr as (rate & w0 & Hrate & Hr). exists rate.
  assert (w0 = w1) as -> by (eapply reads_pure; [|exact Hrate]; unfold calculate_interest_rate; eauto 12 with contracts).
  clear Hrate Hutil. minv Hr. arith. split_and!; done.
Qed.

(** A collateral value above zero needs a registered collateral type. *)
Lemma value_registered u e w v w' :
  total_collateral_value u e w = Ok (v, w') → 0 < v → CollateralTokens (store w) ≠ None.
Proof.
  intros Hr Hv Hn. unfold total_collateral_value, get_collateral_tokens in Hr.
  apply bind_Ok in Hr as (ts & w0 & Hts & Hr). minv Hts. rewrite Hn in Hr. simpl in Hr. minv Hr. lia.
Qed.

Lemma borrow_internal_inv u tk n e w r w' :
  borrow_internal u tk n e w = Ok (r, w') → current_contract_address e = self → u ≠ self →
  inv w → inv w'.
Proof.
  intros Hr Hself Hu Hi.
  destruct (borrow_internal_spec _ _ _ _ _ _ _ Hr Hi) as (Hn & w1 & rate & Hacc & Hpass & Htr & Hst).
  apply accrue_all_inv in Hacc as [Hb Hc]; [|done]. pose proof (bo_counter _ Hb) as Hcnt.
  rewrite Hself in Htr. apply transfer_moved in Htr. unfold inv. rewrite Hst.
  pose proof (loans_fresh _ _ _ _ (bo_loans _ Hb)) as Hfresh. split.
  - split; cbn; try apply Hb; [| |].
    + apply (loans_open _ _ _ _ (mkLoan (counter (store w1)) u tk n 0 n rate (timestamp e) (timestamp e) false false));
        [apply Hb|done|]. split; cbn; try done; lia.
    + unfold counter in *. cbn. lia.
    + intros Hk. destruct Hpass as (d & v & t & hf & _ & Hv & Hpos & _).
      destruct (bo_before _ Hb Hk). by destruct (value_registered _ _ _ _ _ Hv Hpos).
  - intros tk'. cbn. unfold owed. rewrite msum_insert_fresh by done. fold (owed ln_principal tk' (LoanAt (store w1))).
    cbn. specialize (Hc tk'). rewrite (moved_out _ _ _ _ _ _ _ Htr Hu).
    repeat case_bool_decide; subst; try done; lia.
Qed.
(** The storage after a payment of [n] turned a loan into [l'], where accrual
    had turned the total debts into [d]. *)
Definition paid (st : State) (d : gmap Address Z) (l' : Loan) (n : Z) : State :=
  {| st with LoanAt := <[ln_loan_id l' := l']> (LoanAt st);
     TotalDebt := <[ln_borrow_token l' := total_at d (ln_borrow_token l') - n]> d |}.

(** A payment of [n] on the open loan [i], after accrual; [d] are the total
    debts accrual leaves. *)
Record payment (e : Env) (w : World State Event) (close : Loan → Loan) (i n : Z) (l l1 l' : Loan)
    (d : gmap Address Z) : Prop := {
  pm_loan : LoanAt (store w) !! i = Some l;
  pm_open : ln_is_liquidated l || ln_is_repaid l = false;
  pm_accrue : ∃ w1, accrue_loan l e w = Ok (l1, w1) ∧ TotalDebt (store w1) = d;
  pm_pay : ∃ w1, pay_loan l1 n close e w1 = Ok (l', w1);
  pm_amount : 0 ≤ n ≤ ln_total_debt l1;
}.

Lemma payment_books e w close i n l l1 l' d :
  payment e w close i n l l1 l' d → closing close → books (store w) →
  books (paid (store w) d l' n) ∧ ln_borrow_token l' = ln_borrow_token l ∧
  ∀ tk, owed ln_principal tk (LoanAt (store w)) - (if bool_decide (tk = ln_borrow_token l) then n else 0)
    ≤ owed ln_principal tk (LoanAt (paid (store w) d l' n)).
Proof.
  intros [Hl Hopen (w1 & Ha & Hd) (w2 & Hp) Hn] Hclose Hb.
  pose proof (lo_loan _ _ _ _ (bo_loans _ Hb) _ _ Hl) as Hok.
  destruct (accrue_loan_spec _ _ _ _ _ _ _ Ha Hok) as (Hok1 & Hb1 & Ht1 & Hp1 & Hq1 & Hr1 & _ & _ & d1 & Hst & Hd1).
  rewrite Hst in Hd. cbn in Hd. subst d1.
  destruct (pay_loan_spec _ _ _ _ _ _ _ _ _ Hp Hclose Hok1) as (_ & Hok' & Hb' & Ht' & Htot & Hpr);
    [congruence|done|]. unfold paid. rewrite (lk_id _ _ _ Hok'). split_and!; [|congruence|].
  - split; cbn; try apply Hb.
    + eapply loans_replace; [apply Hb|exact Hl|done|congruence|congruence|].
      intros tk. rewrite total_at_insert. rewrite Ht', Ht1. case_bool_decide; subst.
      * rewrite Hd1, bool_decide_eq_true_2 by done. lia.
      * rewrite Hd1, bool_decide_eq_false_2 by done. lia.
    + intros Hk. destruct (bo_before _ Hb Hk) as [? Hm]. rewrite Hm in Hl. by rewrite lookup_empty in Hl.
  - intros tk. cbn. rewrite (owed_replace _ _ _ _ l) by (done || congruence). case_bool_decide; lia.
Qed.

Lemma closing_repaid : closing (λ l, {| l with ln_is_repaid := true |}).
Proof. intros l. exists (ln_is_liquidated l), true. by destruct l. Qed.
Lemma closing_liquidated : closing (λ l, {| l with ln_is_liquidated := true |}).
Proof. intros l. exists true, (ln_is_repaid l). by destruct l. Qed.

Lemma pay_loan_reads l n close : reads eq (pay_loan l n close : M State Empty_set Event _).
Proof. unfold pay_loan. eauto 12 with contracts. Qed.

(** Accrual and payment touch the ledger and the rest of the storage not at all. *)
Lemma accrue_loan_frame l e w l' w' :
  accrue_loan l e w = Ok (l', w') →
  (∃ d lg, w' = mkWorld {| (store w) with TotalDebt := d |} (ledger w) lg) ∧
  ln_loan_id l' = ln_loan_id l ∧ ln_borrow_token l' = ln_borrow_token l.
Proof.
  intros Hr. unfold accrue_loan, get_total_debt, set_total_debt in Hr.
  assert (∃ d lg, w = mkWorld {| (store w) with TotalDebt := d |} (ledger w) lg) as Heta
    by (exists (TotalDebt (store w)), (log w); by destruct w as [[]]).
  destruct (_ || _); [minv Hr; eauto|].
  apply bind_Ok in Hr as (t & w0 & Ht & Hr). minv Ht.
  apply bind_Ok in Hr as (delta & w0 & Hdelta & Hr). minv Hdelta. destruct (_ <=? _); [minv Hr; eauto|].
  apply bind_Ok in Hr as (n & w1 & Hn & Hr).
  assert (w1 = w) as -> by (eapply reads_pure; [|exact Hn]; unfold calculate_accrued_interest; eauto 10 with contracts).
  destruct (_ >? _); minv Hr; eauto 6.
Qed.

Lemma repay_internal_spec u i n e w r w' :
  repay_internal u i n e w = Ok (r, w') → books (store w) →
  0 < n ∧ ∃ l l1 l' d, i ∈ default [] (UserLoanIds (store w) !! u) ∧
    payment e w (λ l, {| l with ln_is_repaid := true |}) i n l l1 l' d ∧
    tok_transfer e (ledger w) (ln_borrow_token l) u (current_contract_address e) n = Some (ledger w') ∧
    store w' = paid (store w) d l' n.
Proof.
  intros Hr Hb. unfold repay_internal, set_loan, get_total_debt, set_total_debt in Hr.
  apply bind_Ok in Hr as ([] & w0 & Hn & Hr). minv Hn. zbool. split; [done|].
  apply bind_Ok in Hr as (l & w0 & Hl & Hr). apply require_user_loan_spec in Hl as (Hin & Hl & ->).
  apply bind_Ok in Hr as ([] & w0 & Hliq & Hr). minv Hliq.
  apply bind_Ok in Hr as ([] & w0 & Hrep & Hr). minv Hrep.
  apply bind_Ok in Hr as (l1 & w1 & Ha & Hr). destruct (accrue_loan_frame _ _ _ _ _ Ha) as ((d & lg & ->) & _ & Htk).
  apply bind_Ok in Hr as ([] & w0 & Hle & Hr). minv Hle. zbool.
  apply bind_Ok in Hr as (a & w0 & Hself & Hr). minv Hself.
  apply bind_Ok in Hr as ([] & w0 & Htr & Hr). apply token_transfer_Ok in Htr as (l0 & Htr & ->).
  apply bind_Ok in Hr as (l' & w2 & Hp & Hr). pose proof (reads_pure _ _ _ _ _ (pay_loan_reads _ _ _) Hp) as ->.
  assert (payment e w (λ l, {| l with ln_is_repaid := true |}) i n l l1 l' d) as Hpay.
  { split; [done|by rewrite Hliq|by eexists|by eexists|lia]. }
  destruct (payment_books _ _ _ _ _ _ _ _ _ Hpay closing_repaid Hb) as (_ & Htk' & _).
  minv Hr. arith. exists l, l1, l', d. rewrite <- Htk. split_and!; try done.
  unfold paid, total_at. cbn. by rewrite Htk', Htk.
Qed.

Lemma repay_internal_inv u i n e w r w' :
  repay_internal u i n e w = Ok (r, w') → current_contract_address e = self → u ≠ self →
  inv w → inv w'.
Proof.
  intros Hr Hself Hu [Hb Hc].
  destruct (repay_internal_spec _ _ _ _ _ _ _ Hr Hb) as (Hn & l & l1 & l' & d & _ & Hpay & Htr & Hst).
  destruct (payment_books _ _ _ _ _ _ _ _ _ Hpay closing_repaid Hb) as (Hb' & _ & Hpr).
  rewrite Hself in Htr. apply transfer_moved in Htr. unfold inv. rewrite Hst. split; [done|].
  intros tk. specialize (Hc tk). specialize (Hpr tk). rewrite (moved_in _ _ _ _ _ _ _ Htr Hu).
  cbn [paid TotalCollateral] in *. lia.
Qed.
(** Every loan-independent query gives in [w'] what it gave in [w] when only the
    total debts differ. *)
Lemma reads_health u : reads (λ s1 s2, same_holdings s1 s2 ∧ same_loans s1 s2) (calc_user_health u).
Proof.
  apply reads_bind; [apply reads_debts; by intros s1 s2 [_ ?]|]. intros d.
  apply reads_bind; [apply reads_total_value; by intros s1 s2 [? _]|]. intros v.
  apply reads_bind; [apply reads_threshold; by intros s1 s2 [? _]|]. intros t. apply reads_math_health.
Qed.

(** What a liquidation does: the borrower's health, as the view computes it,
    is below the threshold; the liquidator pays [n], at most the accrued debt,
    and takes the seized amount of the collateral chosen. *)
Record liquidated (lq b : Address) (i cover : Z) (e : Env) (w w' : World State Event)
    (l l1 l' : Loan) (d : gmap Address Z) (hf : HealthFactor) (tk : Address)
    (cfg : CollateralTypeConfig) (price n seized bonus : Z) (uc : UserCollateral) : Prop := {
  lq_loan : i ∈ default [] (UserLoanIds (store w) !! b);
  lq_payment : payment e w (λ l, {| l with ln_is_liquidated := true |}) i n l l1 l' d;
  lq_health : calc_user_health b e w = Ok (hf, w);
  lq_unhealthy : hf_health_factor_bps hf < pp_liq_health_threshold_bps (params_of (store w));
  lq_cover : n = Z.min cover (ln_total_debt l1);
  lq_best : best_seize_collateral b e w = Ok (Some (tk, cfg), w);
  lq_price : get_oracle_price (ct_oracle_feed cfg) (ct_price_scale cfg) e w = Ok (price, w);
  lq_seized : (calculate_liquidation_seizure n price (ct_liq_bonus_bps cfg) : M State Empty_set Event _) e w
    = Ok ((seized, bonus), w);
  lq_user : uc_user uc = b ∧ uc_token uc = tk ∧ 0 ≤ uc_amount uc;
  lq_amount : uc_amount uc + seized = from_option uc_amount 0 (UserCollateralAt (store w) !! (b, tk));
  lq_moves : ∃ l0, tok_transfer e (ledger w) (ln_borrow_token l) lq (current_contract_address e) n = Some l0 ∧
    tok_transfer e l0 tk (current_contract_address e) lq seized = Some (ledger w');
  lq_store : store w' = recollateralize (paid (store w) d l' n) b tk uc (- seized);
}.

Lemma reads_seizure R n price b :
  reads R (calculate_liquidation_seizure n price b : M State Empty_set Event _).
Proof. unfold calculate_liquidation_seizure. eauto 20 with contracts. Qed.

Lemma liquidate_internal_spec lq b i cover e w r w' :
  liquidate_internal lq b i cover e w = Ok (r, w') → books (store w) →
  0 < cover ∧ ∃ l l1 l' d hf tk cfg price n seized bonus uc,
    liquidated lq b i cover e w w' l l1 l' d hf tk cfg price n seized bonus uc.
Proof.
  intros Hr Hb. unfold liquidate_internal, get_protocol_params, get_user_collateral in Hr.
  apply bind_Ok in Hr as ([] & w0 & Hn & Hr). minv Hn. zbool. split; [done|].
  apply bind_Ok in Hr as (l & w0 & Hl & Hr). apply require_user_loan_spec in Hl as (Hin & Hl & ->).
  apply bind_Ok in Hr as ([] & w0 & Hliq & Hr). minv Hliq.
  apply bind_Ok in Hr as ([] & w0 & Hrep & Hr). minv Hrep.
  apply bind_Ok in Hr as (l1 & w1 & Ha & Hr). destruct (accrue_loan_frame _ _ _ _ _ Ha) as ((d & lg & Hw1) & _ & Htk).
  assert (same_holdings (store w1) (store w) ∧ same_loans (store w1) (store w)) as Hsame by by rewrite Hw1.
  assert (store w1 = {| (store w) with TotalDebt := d |} ∧ ledger w1 = ledger w) as [Hst1 Hled] by by rewrite Hw1.
  clear Hw1.
  apply bind_Ok in Hr as (hf & w0 & Hhf & Hr).
  destruct (reads_health b e w1 w hf w0 Hsame Hhf) as [-> Hhf'].
  apply bind_Ok in Hr as (ps & w0 & Hps & Hr). apply gets_Ok in Hps as [Hps ->].
  apply bind_Ok in Hr as ([] & w0 & Hunh & Hr). minv Hunh. zbool.
  set (n := Z.min cover (ln_total_debt l1)) in *. cbv zeta in Hr.
  apply bind_Ok in Hr as (o & w0 & Hbest & Hr).
  destruct (reads_best_seize same_holdings (λ _ _ h, h) b e w1 w o w0 (proj1 Hsame) Hbest) as [-> Hbest'].
  apply bind_Ok in Hr as ([tk cfg] & w0 & Ho & Hr). minv Ho. cbn [fst snd] in Hr.
  apply bind_Ok in Hr as (price & w0 & Hprice & Hr).
  destruct (reads_oracle_price same_prices (λ _ _ h, h) _ _ e w1 w price w0 (proj1 (proj1 Hsame)) Hprice) as [-> Hprice'].
  apply bind_Ok in Hr as ([seized bonus] & w0 & Hseize & Hr).
  destruct (reads_seizure eq _ _ _ e w1 w1 _ _ eq_refl Hseize) as [-> _].
  cbv zeta in Hr. cbn [fst snd] in Hr.
  assert ((calculate_liquidation_seizure n price (ct_liq_bonus_bps cfg) : M State Empty_set Event _) e w
    = Ok ((seized, bonus), w)) as Hseize'.
  { by destruct (reads_seizure (λ _ _, True) _ _ _ e w1 w _ _ I Hseize). }
  apply bind_Ok in Hr as (uc & w0 & Huc & Hr). apply gets_Ok in Huc as [Huc ->]. rewrite Hst1 in Huc. cbn in Huc.
  destruct (user_collateral_key _ _ _ _ Hb Huc) as (Hu & Ht & Hpos & Hval). clear Huc.
  apply bind_Ok in Hr as ([] & w0 & Hge & Hr). minv Hge. zbool.
  apply bind_Ok in Hr as (a & w0 & Hself & Hr). minv Hself.
  apply bind_Ok in Hr as ([] & w0 & Htr & Hr). apply token_transfer_Ok in Htr as (l0 & Htr & ->).
  apply bind_Ok in Hr as ([] & w0 & Htr2 & Hr). apply token_transfer_Ok in Htr2 as (l2 & Htr2 & ->). cbn in Htr2.
  apply bind_Ok in Hr as (left & w0 & Hleft & Hr). minv Hleft. arith.
  apply bind_Ok in Hr as (t & w0 & Ht & Hr). minv Ht.
  unfold set_user_collateral, get_total_collateral_for_type, set_total_collateral_for_type, set_loan,
    get_total_debt, set_total_debt in Hr.
  apply bind_Ok in Hr as ([] & w0 & Hs & Hr). minv Hs. apply bind_Ok in Hr as (tot & w0 & Htot & Hr). minv Htot.
  apply bind_Ok in Hr as (tot' & w0 & Htot & Hr). minv Htot. arith.
  apply bind_Ok in Hr as ([] & w0 & Hs & Hr). minv Hs.
  apply bind_Ok in Hr as (l' & w2 & Hp & Hr). pose proof (reads_pure _ _ _ _ _ (pay_loan_reads _ _ _) Hp) as ->.
  assert (payment e w (λ l, {| l with ln_is_liquidated := true |}) i n l l1 l' d) as Hpay.
  { pose proof (lo_loan _ _ _ _ (bo_loans _ Hb) _ _ Hl) as Hok.
    apply (accrue_loan_spec _ _ _ _ _ _ _ Ha) in Hok as [Hok _]. destruct Hok.
    split; [done|by rewrite Hliq|eexists; split; [done|by rewrite Hst1]|by eexists|lia]. }
  destruct (payment_books _ _ _ _ _ _ _ _ _ Hpay closing_liquidated Hb) as (_ & Htk' & _).
  minv Hr. arith. exists l, l1, l', d, hf, (uc_token uc), cfg, price, n, seized, bonus,
    {| uc with uc_amount := uc_amount uc - seized; uc_last_updated := timestamp e |}.
  rewrite Hled, Htk in Htr. rewrite Hst1. split; cbn; try done; try lia; eauto.
  - by rewrite Hst1 in Hunh.
  - split_and!; [done..|lia].
  - unfold recollateralize, paid, total_at. cbn. by rewrite Htk', Htk.
Qed.

Lemma liquidate_internal_inv lq b i cover e w r w' :
  liquidate_internal lq b i cover e w = Ok (r, w') → current_contract_address e = self → lq ≠ self →
  inv w → inv w'.
Proof.
  intros Hr Hself Hu [Hb Hc].
  destruct (liquidate_internal_spec _ _ _ _ _ _ _ _ Hr Hb)
    as (_ & l & l1 & l' & d & hf & tk & cfg & price & n & seized & bonus & uc & Hq).
  destruct (payment_books _ _ _ _ _ _ _ _ _ (lq_payment _ _ _ _ _ _ _ _ _ _ _ _ _ _ _ _ _ _ _ Hq)
    closing_liquidated Hb) as (Hb' & _ & Hpr).
  destruct Hq as [_ _ _ _ _ _ _ _ (? & ? & ?) Hamt (l0 & Htr1 & Htr2) Hst].
  rewrite Hself in Htr1, Htr2. apply transfer_moved in Htr1, Htr2. unfold inv. rewrite Hst. split.
  - apply books_recollateralize; try done. cbn. lia.
  - intros tk'. specialize (Hc tk'). specialize (Hpr tk'). cbn in *. rewrite total_at_add.
    rewrite (moved_out _ _ _ _ _ _ _ Htr2 Hu), (moved_in _ _ _ _ _ _ _ Htr1 Hu).
    repeat case_bool_decide; lia.
Qed.
(** The guard of the four operations. *)
Definition locked (b : bool) (w : World State Event) : World State Event :=
  {| w with store := {| (store w) with ReentrancyLock := Some b |} |}.

Lemma inv_locked b w : inv w → inv (locked b w).
Proof. intros [Hb Hc]. split; [split; apply Hb|exact Hc]. Qed.

Lemma with_guard_spec {R} (f : M State Empty_set Event R) e w r w' :
  with_guard f e w = Ok (r, w') → ∃ w1, f e (locked true w) = Ok (r, w1) ∧ w' = locked false w1.
Proof.
  intros Hr. unfold with_guard, is_reentrancy_locked, set_reentrancy_lock in Hr. minv Hr. eauto.
Qed.

(** A guarded operation of a signer. *)
Lemma guarded_inv {R} (f : M State Empty_set Event R) u e w r w' :
  (require_auth u;; check_paused;; with_guard f) e w = Ok (r, w') → wf_env self e →
  (∀ w r w', f e w = Ok (r, w') → current_contract_address e = self → u ≠ self → inv w → inv w') →
  inv w → inv w'.
Proof.
  intros Hr He Hf Hi. apply bind_Ok in Hr as ([] & w0 & Hauth & Hr). minv Hauth.
  apply bind_Ok in Hr as ([] & w0 & Hp & Hr). unfold check_paused, is_paused in Hp. minv Hp.
  apply with_guard_spec in Hr as (w1 & Hr & ->). apply inv_locked.
  eapply Hf; [exact Hr|apply He|exact (wf_auth_ne _ _ _ He Hauth)|by apply inv_locked].
Qed.

(** What the books and the cover read. *)
Lemma inv_frame w w' :
  inv w → ledger w' = ledger w → LoanAt (store w') = LoanAt (store w) →
  UserLoanIds (store w') = UserLoanIds (store w) → LoanCounter (store w') = LoanCounter (store w) →
  TotalDebt (store w') = TotalDebt (store w) → UserCollateralAt (store w') = UserCollateralAt (store w) →
  TotalCollateral (store w') = TotalCollateral (store w) →
  (Initialized (store w') = None → AdminKey (store w') = None) →
  (AdminKey (store w') = None → CollateralTokens (store w') = None ∧ LoanAt (store w') = ∅) →
  market_ok (CollateralType (store w')) (PriceCache (store w')) → inv w'.
Proof.
  intros [Hb Hc] El E1 E2 E3 E4 E5 E6 H1' H2' Hm. split.
  - split; unfold counter; rewrite ?E1, ?E2, ?E3, ?E4, ?E5, ?E6; try apply Hb; [done| |done]. by rewrite <- E1.
  - intros tk. rewrite El, E6, E1. apply Hc.
Qed.

Lemma initialize_inv a o tr e w r w' : initialize a o tr e w = Ok (r, w') → inv w → inv w'.
Proof.
  intros Hr [Hb Hc]. unfold initialize, is_initialized, set_oracle, set_treasury, set_initialized, set_paused,
    set_reentrancy_lock, set_loan_counter in Hr.
  assert (Initialized (store w) = None ∧ LoanAt (store w') = LoanAt (store w) ∧
    UserLoanIds (store w') = UserLoanIds (store w) ∧ counter (store w') = 0 ∧
    TotalDebt (store w') = TotalDebt (store w) ∧ UserCollateralAt (store w') = UserCollateralAt (store w) ∧
    TotalCollateral (store w') = TotalCollateral (store w) ∧ is_Some (Initialized (store w')) ∧
    is_Some (AdminKey (store w')) ∧ ledger w' = ledger w ∧ CollateralType (store w') = CollateralType (store w) ∧
    PriceCache (store w') = PriceCache (store w))
    as (Hn & E1 & E2 & E3 & E4 & E5 & E6 & [? E7] & [? E8] & E9 & E10 & E11).
  { minv Hr; zbool; cbn; split_and!; try done; by apply eq_None_not_Some. }
  destruct (bo_before _ Hb (bo_init _ Hb Hn)) as [_ Hm]. split.
  - split; rewrite ?E1, ?E2, ?E3, ?E4, ?E5, ?E6, ?E7, ?E8, ?E10, ?E11; try apply Hb; try done.
    destruct (bo_loans _ Hb) as [H1' H2' H3' H4']. split; try done. rewrite Hm. intros i l. by rewrite lookup_empty.
  - intros tk. rewrite E6, E1, E9. apply Hc.
Qed.

(** A new version of one type's configuration. *)
Lemma market_config types prices tk cfg :
  market_ok types prices → config_ok cfg → market_ok (<[tk := cfg]> types) prices.
Proof.
  intros Hm Hc. split; [|apply Hm]. intros tk' cfg' [[<- <-]|[_ Hl]]%lookup_insert_Some; [done|].
  by eapply mk_config.
Qed.

Lemma market_price types prices feed p :
  market_ok types prices → 0 < p → market_ok types (<[feed := p]> prices).
Proof.
  intros Hm Hc. split; [apply Hm|]. intros f q [[<- <-]|[_ Hl]]%lookup_insert_Some; [done|].
  by eapply mk_price.
Qed.

Lemma collateral_exec_inv c e w w' :
  exec c e w = Ok (tt, w') → wf_env self e → call_ok c → inv w → inv w'.
Proof.
  intros Hr He Hok Hi. pose proof (bo_init _ (proj1 Hi)). pose proof (bo_before _ (proj1 Hi)).
  pose proof (bo_market _ (proj1 Hi)) as Hm. destruct c; cbn [exec call_ok] in Hr, Hok.
  - by eapply initialize_inv.
  - unfold register_collateral_type, check_paused, is_paused, get_collateral_config, check_risk_params,
      set_collateral_config, add_collateral_token, get_collateral_tokens, set_collateral_tokens in Hr.
    minv Hr. spec collateral_assert_admin_spec as [Ha ->]. zbool.
    eapply inv_frame; [done|..]; cbn; try done; try congruence. by apply market_config; [|split; cbn; lia].
  - unfold update_collateral_type, check_paused, is_paused, get_collateral_config, check_risk_params,
      set_collateral_config in Hr.
    minv Hr. spec collateral_assert_admin_spec as [Ha ->]. zbool.
    eapply inv_frame; [done|..]; cbn; try done. apply market_config; [done|].
    destruct (mk_config _ _ Hm _ _ ltac:(eassumption)). split; cbn; lia.
  - unfold deactivate_collateral_type, get_collateral_config, set_collateral_config in Hr.
    minv Hr. spec collateral_assert_admin_spec as [Ha ->]. eapply inv_frame; [done|..]; cbn; try done.
    apply market_config; [done|]. by destruct (mk_config _ _ Hm _ _ ltac:(eassumption)).
  - unfold reactivate_collateral_type, get_collateral_config, set_collateral_config in Hr.
    minv Hr. spec collateral_assert_admin_spec as [Ha ->]. eapply inv_frame; [done|..]; cbn; try done.
    apply market_config; [done|]. by destruct (mk_config _ _ Hm _ _ ltac:(eassumption)).
  - unfold set_protocol_parameters, set_protocol_params in Hr.
    minv Hr. spec collateral_assert_admin_spec as [Ha ->]. by eapply inv_frame.
  - unfold set_price, set_price_cache in Hr. minv Hr. spec collateral_assert_admin_spec as [Ha ->]. zbool.
    eapply inv_frame; [done|..]; cbn; try done. by apply market_price.
  - by eapply collateral_deposit_inv.
  - eapply guarded_inv; [exact Hr|done| |done]. intros. by eapply withdraw_internal_inv.
  - eapply guarded_inv; [exact Hr|done| |done]. intros. by eapply borrow_internal_inv.
  - eapply guarded_inv; [exact Hr|done| |done]. intros. by eapply repay_internal_inv.
  - eapply guarded_inv; [exact Hr|done| |done]. intros. by eapply liquidate_internal_inv.
  - by eapply accrue_one_inv.
  - apply bind_Ok in Hr as (ids & w0 & Hids & Hr). minv Hids using get_user_loan_ids. by eapply accrue_all_inv.
  - unfold pause, set_paused in Hr. minv Hr. spec collateral_assert_admin_spec as [Ha ->]. by eapply inv_frame.
  - unfold unpause, set_paused in Hr. minv Hr. spec collateral_assert_admin_spec as [Ha ->]. by eapply inv_frame.
Qed.

Lemma inv_deployed l lg : (∀ tk, 0 ≤ tok_balance l tk self) → inv (mkWorld deployed l lg).
Proof.
  intros Hl. split; [split; cbn; try done|].
  - split; try done.
    + intros u i. cbn. split; [set_solver|]. by intros (l0 & ? & _).
    + intros u. apply NoDup_nil_2.
  - intros tk. specialize (Hl tk). change (0 ≤ tok_balance l tk self + owed ln_principal tk ∅).
    unfold owed. rewrite msum_empty. lia.
Qed.

Lemma collateral_reach_inv c1 c2 :
  rtc (step exec call_ok self) c1 c2 → inv c1.2 → inv c2.2.
Proof.
  intros Hs. apply (reach_inv_world exec call_ok self (λ _, inv)); [| |done].
  - intros t c e w w' He _ Hok Hi Hr. by eapply collateral_exec_inv.
  - intros t t' w l' _ Hl [Hb Hc]. split; [done|]. intros tk. specialize (Hc tk). specialize (Hl tk).
    cbn in *. lia.
Qed.
End preservation.

(** ** Health after an operation *)

Section health.
Context `{TokenHost} `{!TokenLaws} `{PriceOracle}.
Implicit Types (w : World State Event) (e : Env).

(** The rounds of the valuation loops depend on the amounts they are given and
    on the prices. *)
Lemma value_step_replay am1 am2 v tok e w1 w2 r w' :
  same_prices (store w1) (store w2) →
  (∀ a w', am1 tok e w1 = Ok (a, w') → w' = w1 ∧ am2 tok e w2 = Ok (a, w2)) →
  value_step am1 v tok e w1 = Ok (r, w') → w' = w1 ∧ value_step am2 v tok e w2 = Ok (r, w2).
Proof.
  intros Hp Ham Hr. apply bind_Ok in Hr as (a & w3 & Ha & Hr). destruct (Ham _ _ Ha) as [-> Ha2].
  unfold value_step at 1. rewrite (bind_run _ _ _ _ _ _ Ha2).
  refine (reads_if same_prices _ _ _ _ _ e w1 w2 r w' Hp Hr); [|apply reads_ret].
  apply reads_bind; [by apply reads_config|]. intros o. apply reads_option; [|apply reads_ret].
  intros cfg. apply reads_bind; [by apply reads_value_of_type|]. eauto with contracts.
Qed.

Lemma threshold_step_replay am1 am2 acc tok e w1 w2 r w' :
  same_prices (store w1) (store w2) →
  (∀ a w', am1 tok e w1 = Ok (a, w') → w' = w1 ∧ am2 tok e w2 = Ok (a, w2)) →
  threshold_step am1 acc tok e w1 = Ok (r, w') → w' = w1 ∧ threshold_step am2 acc tok e w2 = Ok (r, w2).
Proof.
  intros Hp Ham Hr. apply bind_Ok in Hr as (a & w3 & Ha & Hr). destruct (Ham _ _ Ha) as [-> Ha2].
  unfold threshold_step at 1. rewrite (bind_run _ _ _ _ _ _ Ha2).
  refine (reads_if same_prices _ _ _ _ _ e w1 w2 r w' Hp Hr); [|apply reads_ret].
  apply reads_bind; [by apply reads_config|]. intros o. apply reads_option; [|apply reads_ret].
  intros cfg. apply reads_bind; [by apply reads_value_of_type|]. eauto 10 with contracts.
Qed.

(** The amounts read with one of them replaced are those stored after it is. *)
Lemma override_amount_stored u tk uc w1 w2 e tok a w' :
  UserCollateralAt (store w2) = <[(u, tk) := uc]> (UserCollateralAt (store w1)) →
  override_amount u tk (uc_amount uc) tok e w1 = Ok (a, w') →
  w' = w1 ∧ stored_amount u tok e w2 = Ok (a, w2).
Proof.
  intros Hm Hr. unfold override_amount, stored_amount, get_user_collateral in *.
  unfold mbind, M_bind, gets, mret, M_ret. rewrite Hm.
  destruct (bool_decide (tok = tk)) eqn:Ht; zbool.
  - subst. rewrite lookup_insert_eq. by minv Hr.
  - rewrite lookup_insert_ne by congruence. by minv Hr.
Qed.

Lemma value_override_stored u tk uc w1 w2 e v :
  same_prices (store w1) (store w2) → CollateralTokens (store w2) = CollateralTokens (store w1) →
  UserCollateralAt (store w2) = <[(u, tk) := uc]> (UserCollateralAt (store w1)) →
  total_collateral_value_override u tk (uc_amount uc) e w1 = Ok (v, w1) →
  total_collateral_value u e w2 = Ok (v, w2).
Proof.
  intros Hp Ht Hm Hr. apply bind_Ok in Hr as (ts & w0 & Hts & Hr). minv Hts using get_collateral_tokens.
  unfold total_collateral_value, get_collateral_tokens. unfold mbind, M_bind, gets. rewrite Ht.
  apply (foldM_replay _ _ _ _ _ _ _ _ _ Hr). intros tok b b' w' _. apply value_step_replay; [done|].
  intros a w0. by apply override_amount_stored.
Qed.

Lemma threshold_override_stored u tk uc w1 w2 e v :
  same_prices (store w1) (store w2) → CollateralTokens (store w2) = CollateralTokens (store w1) →
  UserCollateralAt (store w2) = <[(u, tk) := uc]> (UserCollateralAt (store w1)) →
  weighted_threshold_override u tk (uc_amount uc) e w1 = Ok (v, w1) →
  weighted_threshold u e w2 = Ok (v, w2).
Proof.
  intros Hp Ht Hm Hr. apply bind_Ok in Hr as (ts & w0 & Hts & Hr). minv Hts using get_collateral_tokens.
  apply bind_Ok in Hr as (acc & w3 & Hacc & Hr).
  unfold weighted_threshold, get_collateral_tokens. unfold mbind at 1, M_bind at 1, gets. rewrite Ht.
  destruct (foldM_replay _ (threshold_step (stored_amount u)) _ _ _ _ w2 _ _ Hacc) as [-> Hacc2].
  { intros tok b b' w' _. apply threshold_step_replay; [done|]. intros a w0. by apply override_amount_stored. }
  rewrite (bind_run _ _ _ _ _ _ Hacc2).
  by destruct (reads_threshold_of_sums (λ _ _, True) acc e w1 w2 v w1 I Hr).
Qed.
(** The health of [u] from its parts. *)
Lemma health_of_parts u e w d v t hf :
  user_total_debt u e w = Ok (d, w) → total_collateral_value u e w = Ok (v, w) →
  weighted_threshold u e w = Ok (t, w) →
  (calculate_health_factor v d t : M State Empty_set Event _) e w = Ok (hf, w) →
  calc_user_health u e w = Ok (hf, w).
Proof.
  intros H1' H2' H3' H4'. unfold calc_user_health. rewrite (bind_run _ _ _ _ _ _ H1').
  rewrite (bind_run _ _ _ _ _ _ H2'). by rewrite (bind_run _ _ _ _ _ _ H3').
Qed.

Lemma health_factor_anywhere v d t e w1 w2 hf w' :
  (calculate_health_factor v d t : M State Empty_set Event _) e w1 = Ok (hf, w') →
  (calculate_health_factor v d t : M State Empty_set Event _) e w2 = Ok (hf, w2).
Proof. intros Hr. by destruct (reads_math_health (λ _ _, True) v d t e w1 w2 hf w' I Hr). Qed.

(** The debt of a user who has just opened a loan. *)
Lemma user_debt_opened u tk n rate t e w1 w2 d :
  books (store w1) → LoanAt (store w2) = LoanAt (opened (store w1) u tk n rate t) →
  UserLoanIds (store w2) = UserLoanIds (opened (store w1) u tk n rate t) →
  user_total_debt u e w1 = Ok (d, w1) → int_min I128 ≤ d + n ≤ int_max I128 →
  user_total_debt u e w2 = Ok (d + n, w2).
Proof.
  intros Hb Hl Hids Hr Hrange. apply bind_Ok in Hr as (ids & w0 & Hi & Hr). minv Hi using get_user_loan_ids.
  unfold user_total_debt, get_user_loan_ids. unfold mbind at 1, M_bind at 1, gets. rewrite Hids. cbn.
  rewrite lookup_insert_eq. cbn [default from_option id].
  match type of Hr with foldM ?f _ _ _ _ = _ =>
    destruct (foldM_replay f f _ _ _ _ w2 _ _ Hr) as [_ Hr2] end.
  2: { rewrite (foldM_app _ _ _ _ _ _ _ _ Hr2). cbn [foldM]. unfold debt_step at 1, get_loan.
       unfold mbind, M_bind, gets. rewrite Hl. cbn. rewrite lookup_insert_eq. cbn.
       rewrite bool_decide_eq_true_2 by done. unfold plain_add, checked_add. by rewrite checked_in. }
  intros i b b' w' Hin. apply (lo_index _ _ _ _ (bo_loans _ Hb)) in Hin as (l & Hi & _).
  assert (LoanAt (store w2) !! i = Some l) as Hi2.
  { rewrite Hl. cbn. rewrite lookup_insert_ne; [done|]. intros <-.
    pose proof (loans_fresh _ _ _ _ (bo_loans _ Hb)). congruence. }
  unfold debt_step, get_loan. unfold mbind, M_bind, gets. rewrite Hi, Hi2. cbn.
  destruct (_ && _); [|by intros [= -> ->]]. unfold plain_add, expect.
  destruct (checked_add _ _ _); [|done]. by intros [= -> ->].
Qed.
End health.

(** ** The collateral a liquidation takes *)

Section best.
Context `{TokenHost} `{PriceOracle}.
Implicit Types (w : World State Event) (e : Env).

(** [tok] is collateral of [b], and [v] is its value. *)
Definition candidate (b : Address) (e : Env) (w : World State Event) (tok : Address)
    (cfg : CollateralTypeConfig) (v : Z) : Prop :=
  CollateralType (store w) !! tok = Some cfg ∧
  ∃ n, n = from_option uc_amount 0 (UserCollateralAt (store w) !! (b, tok)) ∧ 0 < n ∧
    value_of_type cfg n e w = Ok (v, w).

(** [best] is at least as good as [best0] and as every candidate of [ts]. *)
Definition at_least (best : option (Address * CollateralTypeConfig * Z)) (v : Z) : Prop :=
  ∃ tk cfg v', best = Some (tk, cfg, v') ∧ v ≤ v'.

Lemma best_step_spec b best0 tok e w best w' :
  best_step b best0 tok e w = Ok (best, w') →
  w' = w ∧ (best = best0 ∨ ∃ cfg v, best = Some (tok, cfg, v) ∧ candidate b e w tok cfg v) ∧
  (∀ v, at_least best0 v → at_least best v) ∧ (∀ cfg v, candidate b e w tok cfg v → at_least best v).
Proof.
  intros Hr. unfold best_step, get_user_collateral, get_collateral_config in Hr.
  apply bind_Ok in Hr as (uc & w0 & Huc & Hr). apply gets_Ok in Huc as [Huc ->].
  assert (uc_amount uc = from_option uc_amount 0 (UserCollateralAt (store w) !! (b, tok))) as Hn
    by (subst uc; by destruct (UserCollateralAt (store w) !! (b, tok))).
  clear Huc. destruct (uc_amount uc >? 0) eqn:Hpos; zbool.
  2: { minv Hr. split_and!; [done|by left|done|]. intros cfg v (_ & n & -> & Hn0 & _). lia. }
  apply bind_Ok in Hr as (o & w0 & Ho & Hr). apply gets_Ok in Ho as [Ho ->]. destruct o as [cfg|].
  2: { minv Hr. split_and!; [done|by left|done|]. intros cfg v (Hcfg & _). congruence. }
  apply bind_Ok in Hr as (v & w0 & Hv & Hr).
  assert (w0 = w) as -> by (eapply reads_pure; [|exact Hv]; by apply reads_value_of_type; intros ? ? ->).
  apply ret_Ok in Hr as [-> ->]. rewrite Hn in Hv, Hpos.
  assert (candidate b e w tok cfg v) as Hcand.
  { split; [done|]. exists (from_option uc_amount 0 (UserCollateralAt (store w) !! (b, tok))).
    split_and!; [done|lia|done]. }
  assert (∀ cfg' v', candidate b e w tok cfg' v' → v' = v) as Huniq.
  { intros cfg' v' (Hcfg & n & -> & _ & Hv'). congruence. }
  split; [done|]. destruct best0 as [[[tk0 cfg0] v0]|].
  - destruct (v >? v0) eqn:Hc; zbool; split_and!; [right; by exists cfg, v| | |by left|done|].
    + intros x (? & ? & ? & [= <- <- <-] & ?). exists tok, cfg, v. split; [done|lia].
    + intros cfg' v' ->%Huniq. exists tok, cfg, v. split; [done|lia].
    + intros cfg' v' ->%Huniq. exists tk0, cfg0, v0. by split.
  - split_and!; [right; by exists cfg, v| |].
    + by intros x (? & ? & ? & ? & ?).
    + intros cfg' v' ->%Huniq. exists tok, cfg, v. by split.
Qed.

Lemma best_fold_spec b ts best0 e w best w' :
  foldM (best_step b) best0 ts e w = Ok (best, w') →
  w' = w ∧ (best = best0 ∨ ∃ tok cfg v, tok ∈ ts ∧ best = Some (tok, cfg, v) ∧ candidate b e w tok cfg v) ∧
  (∀ v, at_least best0 v → at_least best v) ∧
  (∀ tok cfg v, tok ∈ ts → candidate b e w tok cfg v → at_least best v).
Proof.
  revert best0. induction ts as [|tok ts IH]; intros best0 Hr; simpl in Hr.
  - apply ret_Ok in Hr as [-> ->]. split_and!; [done|by left|done|]. intros tok cfg v []%not_elem_of_nil.
  - apply bind_Ok in Hr as (b1 & w1 & H1' & H2'). apply best_step_spec in H1' as (-> & Hin1 & Hup1 & Hall1).
    apply IH in H2' as (-> & Hin & Hup & Hall). split_and!; [done| |by auto|].
    + destruct Hin as [->|(tk & cfg & v & ? & ? & ?)]; [|right; exists tk, cfg, v; set_solver].
      destruct Hin1 as [->|(cfg & v & ? & ?)]; [by left|right; exists tok, cfg, v; set_solver].
    + intros tk cfg v [->|Htk]%elem_of_cons Hcand; [|by eauto]. eauto.
Qed.

(** The chosen collateral is one of the borrower's, of the highest value. *)
Lemma best_seize_spec b e w tk cfg w' :
  best_seize_collateral b e w = Ok (Some (tk, cfg), w') →
  tk ∈ default [] (CollateralTokens (store w)) ∧ ∃ v, candidate b e w tk cfg v ∧
    ∀ tk' cfg' v', tk' ∈ default [] (CollateralTokens (store w)) → candidate b e w tk' cfg' v' → v' ≤ v.
Proof.
  intros Hr. unfold best_seize_collateral, get_collateral_tokens in Hr.
  apply bind_Ok in Hr as (ts & w0 & Hts & Hr). minv Hts.
  apply bind_Ok in Hr as (best & w0 & Hbest & Hr).
  apply best_fold_spec in Hbest as (-> & Hin & _ & Hall). apply ret_Ok in Hr as [Hb ->].
  destruct Hin as [->|(tk0 & cfg0 & v & Htk & -> & Hcand)]; [done|]. simplify_eq/=.
  split; [done|]. exists v. split; [done|]. intros tk' cfg' v' Htk' Hc'.
  destruct (Hall _ _ _ Htk' Hc') as (? & ? & ? & [= <- <- <-] & ?). done.
Qed.

Lemma oracle_price_pos feed scale e w p w' :
  get_oracle_price feed scale e w = Ok (p, w') → market_ok (CollateralType (store w)) (PriceCache (store w)) →
  0 < p.
Proof.
  intros Hr Hm. unfold get_oracle_price, get_price_cache, get_oracle in Hr.
  apply bind_Ok in Hr as (o & w0 & Ho & Hr). apply gets_Ok in Ho as [Ho ->]. destruct o as [q|].
  - apply ret_Ok in Hr as [-> ->]. by apply (mk_price _ _ Hm feed).
  - minv Hr. zbool. lia.
Qed.

(** The seized amount, rounded up, at the price. *)
Lemma seizure_spec n price bonus e w sz bn w' :
  (calculate_liquidation_seizure n price bonus : M State Empty_set Event _) e w = Ok ((sz, bn), w') →
  0 ≤ n → 0 < price → 0 ≤ bonus →
  n * (BPS_DENOMINATOR + bonus) ≤ sz * price * BPS_DENOMINATOR
    < n * (BPS_DENOMINATOR + bonus) + price * BPS_DENOMINATOR.
Proof.
  intros Hr Hn Hp Hb. unfold calculate_liquidation_seizure, BPS_DENOMINATOR in *.
  destruct (n <=? 0) eqn:Hn0; cbn [orb] in Hr.
  { apply ret_Ok in Hr as [[= -> ->] _]. zbool. nia. }
  destruct (price <=? 0) eqn:Hp0; zbool; [lia|]. minv Hr. arith.
  rewrite Z.quot_div_nonneg by nia. set (d := price * 10000).
  pose proof (Z.div_mod (n * (10000 + bonus) + d - 1) d ltac:(lia)).
  pose proof (Z.mod_pos_bound (n * (10000 + bonus) + d - 1) d ltac:(lia)). nia.
Qed.
End best.

(** ** Theorems *)

Section theorems.
Context `{TokenHost} `{!TokenLaws} `{PriceOracle} (self : Address).
Implicit Types (w : World State Event) (e : Env).

(** A world reached from the deployment of the contract, at time [t]. *)
Definition reachable (t : Z) (w : World State Event) : Prop :=
  ∃ t0 l lg, (∀ tk, 0 ≤ tok_balance l tk self) ∧
    rtc (step exec call_ok self) (t0, mkWorld deployed l lg) (t, w).

Lemma collateral_reachable_inv t w : reachable t w → inv self w.
Proof.
  intros (t0 & l & lg & Hl & Hs). by apply (collateral_reach_inv self _ _ Hs), inv_deployed.
Qed.

(** C19: in every reachable world and for every token, the
    recorded total debt is the sum of the debts of the loans, the recorded total
    collateral is the sum of what the users deposited, and the contract's
    balance together with the principal lent out covers that collateral; the
    debt of a loan is its principal and interest, and a closed loan owes
    nothing. *)
Theorem collateral_books_balance t w tk :
  reachable t w →
  total_at (TotalDebt (store w)) tk = owed ln_total_debt tk (LoanAt (store w)) ∧
  total_at (TotalCollateral (store w)) tk = held tk (UserCollateralAt (store w)) ∧
  held tk (UserCollateralAt (store w))
    ≤ tok_balance (ledger w) tk self + owed ln_principal tk (LoanAt (store w)) ∧
  (∀ i l, LoanAt (store w) !! i = Some l →
     ln_total_debt l = ln_principal l + ln_accrued_interest l ∧ 0 ≤ ln_principal l ∧
     (ln_is_liquidated l || ln_is_repaid l = true → ln_total_debt l = 0)).
Proof.
  intros [Hb Hc]%collateral_reachable_inv. specialize (Hc tk). rewrite <- (co_total _ _ (bo_coll _ Hb)).
  split_and!; [apply Hb|done|done|]. intros i l Hl.
  by destruct (lo_loan _ _ _ _ (bo_loans _ Hb) _ _ Hl).
Qed.

(** C20: after a loan is granted, the borrower's health factor
    as [get_health_factor] then reports it, the new loan included, exists and is
    at least the protocol's liquidation threshold. *)
Theorem borrow_keeps_healthy t w u tk n e w' :
  reachable t w → borrow u tk n e w = Ok (tt, w') →
  ∃ hf, get_health_factor u e w' = Ok (hf, w') ∧
    pp_liq_health_threshold_bps (params_of (store w')) ≤ hf_health_factor_bps hf.
Proof.
  intros Hi%collateral_reachable_inv Hr. apply bind_Ok in Hr as ([] & w0 & Hauth & Hr). minv Hauth.
  apply bind_Ok in Hr as ([] & w0 & Hp & Hr). unfold check_paused, is_paused in Hp. minv Hp.
  apply with_guard_spec in Hr as (w2 & Hr & ->). apply inv_locked with (b := true) in Hi.
  destruct (borrow_internal_spec self _ _ _ _ _ _ _ Hr Hi) as (Hn & w1 & rate & Hacc & Hpass & _ & Hst).
  destruct (accrue_all_inv self _ _ _ _ _ _ Hacc Hi) as [Hb1 _].
  destruct Hpass as (d & v & th & hf & Hd & Hv & _ & Ht & Hrange & Hhf & Hge).
  pose proof (user_debt_nonneg _ _ _ _ _ Hd Hb1).
  assert (same_holdings (store w1) (store (locked false w2))) as Hsame by (cbn; by rewrite Hst).
  exists hf. split; [|cbn; rewrite Hst; unfold params_of in *; cbn; apply Hge; lia].
  apply (health_of_parts _ _ _ (d + n) v th).
  - eapply user_debt_opened; [done|cbn; by rewrite Hst|cbn; by rewrite Hst|done|done].
  - by destruct (reads_total_value same_holdings (λ _ _ h, h) u e w1 (locked false w2) v w1 Hsame Hv).
  - by destruct (reads_threshold same_holdings (λ _ _ h, h) u e w1 (locked false w2) th w1 Hsame Ht).
  - by eapply health_factor_anywhere.
Qed.

(** The check of a withdrawal values the position with
    the remaining amount in place of the stored one, before anything is written;
    it agrees with the valuation afterwards, so a user who still owes something
    is at or above the liquidation threshold once the tokens have left. *)
Theorem withdraw_keeps_healthy t w u tk n e w' :
  reachable t w → withdraw_collateral u tk n e w = Ok (tt, w') →
  ∃ debt, user_total_debt u e w' = Ok (debt, w') ∧
    (0 < debt → ∃ hf, get_health_factor u e w' = Ok (hf, w') ∧
       pp_liq_health_threshold_bps (params_of (store w')) ≤ hf_health_factor_bps hf).
Proof.
  intros Hi%collateral_reachable_inv Hr. apply bind_Ok in Hr as ([] & w0 & Hauth & Hr). minv Hauth.
  apply bind_Ok in Hr as ([] & w0 & Hp & Hr). unfold check_paused, is_paused in Hp. minv Hp.
  apply with_guard_spec in Hr as (w2 & Hr & ->). apply inv_locked with (b := true) in Hi as [Hb _].
  destruct (withdraw_internal_spec _ _ _ _ _ _ _ Hr Hb)
    as (_ & uc & _ & _ & _ & _ & _ & Hst & debt & Hd & Hpass).
  set (w1 := locked true w) in *. set (w3 := locked false w2).
  assert (same_loans (store w1) (store w3)) as Hloans by (cbn; by rewrite Hst).
  assert (same_prices (store w1) (store w3)) as Hprices by (cbn; by rewrite Hst).
  assert (user_total_debt u e w3 = Ok (debt, w3)) as Hd3
    by (by destruct (reads_debts same_loans (λ _ _ h, h) _ u e w1 w3 debt w1 Hloans Hd)).
  exists debt. split; [done|]. intros (v & th & hf & Hv & Ht & Hhf & Hge)%Hpass.
  exists hf. split; [|unfold w3; cbn; rewrite Hst; unfold params_of in *; done].
  apply (health_of_parts _ _ _ debt v th); [done| | |by eapply health_factor_anywhere].
  - eapply (value_override_stored _ tk uc w1); [done|..|done]; unfold w3; cbn; by rewrite Hst.
  - eapply (threshold_override_stored _ tk uc w1); [done|..|done]; unfold w3; cbn; by rewrite Hst.
Qed.

(** The interest a loan has accrued since its last accrual, at time [t]. *)
Definition interest_due (l : Loan) (t : Z) : Z :=
  if t <=? ln_last_accrual_update l then 0
  else Z.max 0 ((ln_principal l * ln_interest_rate_bps l * (t - ln_last_accrual_update l))
                  `quot` (BPS_DENOMINATOR * SECONDS_PER_YEAR)).

Lemma accrue_loan_due c i l e w l1 w1 :
  accrue_loan l e w = Ok (l1, w1) → loan_ok c i l → ln_is_liquidated l || ln_is_repaid l = false →
  ln_total_debt l1 = ln_total_debt l + interest_due l (timestamp e).
Proof.
  intros Hr Hok Hopen. unfold accrue_loan, get_total_debt, set_total_debt in Hr. rewrite Hopen in Hr.
  pose proof (lk_total _ _ _ Hok) as Htot. pose proof (lk_principal _ _ _ Hok).
  apply bind_Ok in Hr as (t & w0 & Ht & Hr). minv Ht.
  apply bind_Ok in Hr as (delta & w0 & Hdelta & Hr). minv Hdelta. arith. unfold interest_due.
  destruct (_ - _ <=? 0) eqn:Hd.
  { minv Hr. zbool. rewrite (proj2 (Z.leb_le _ _)) by lia. lia. }
  zbool. rewrite (proj2 (Z.leb_gt _ _)) by lia.
  apply bind_Ok in Hr as (k & w2 & Hk & Hr). unfold calculate_accrued_interest in Hk.
  set (q := _ `quot` _). assert (k = q ∧ w2 = w) as [-> ->].
  { destruct (ln_principal l <=? 0) eqn:Hp; cbn [orb] in Hk.
    { apply ret_Ok in Hk as [-> ->]. zbool. split; [|done]. unfold q.
      by assert (ln_principal l = 0) as -> by lia. }
    destruct (ln_interest_rate_bps l =? 0) eqn:Hz; cbn [orb] in Hk.
    { apply ret_Ok in Hk as [-> ->]. zbool. split; [|done]. unfold q. by rewrite Hz, Z.mul_0_r. }
    rewrite (proj2 (Z.leb_gt _ _)) in Hk by lia. minv Hk. by arith. }
  destruct (q >? 0) eqn:Hq; minv Hr; arith; cbn; lia.
Qed.

(** The guard changes no valuation. *)
Lemma same_locked x w : same_holdings (store (locked x w)) (store w) ∧ same_loans (store (locked x w)) (store w).
Proof. done. Qed.

Lemma candidate_same b e w1 w2 tk cfg v :
  same_holdings (store w1) (store w2) → candidate b e w1 tk cfg v → candidate b e w2 tk cfg v.
Proof.
  intros [Hp [_ Hu]] (Hcfg & n & Hn & Hpos & Hv). split; [by destruct Hp as (<- & _)|].
  exists n. rewrite <- Hu. split_and!; [done|done|].
  by destruct (reads_value_of_type same_prices (λ _ _ h, h) cfg n e w1 w2 v w1 Hp Hv).
Qed.

Lemma can_liquidate_true b i e w l hf :
  i ∈ default [] (UserLoanIds (store w) !! b) → LoanAt (store w) !! i = Some l →
  ln_is_liquidated l || ln_is_repaid l = false → calc_user_health b e w = Ok (hf, w) →
  hf_health_factor_bps hf < pp_liq_health_threshold_bps (params_of (store w)) →
  can_liquidate b i e w = Ok (true, w).
Proof.
  intros Hin Hl Hopen Hhf Hlt. unfold can_liquidate.
  assert (require_user_loan b i e w = Ok (l, w)) as Hreq.
  { unfold require_user_loan, get_user_loan_ids, get_loan, mbind, M_bind, gets.
    rewrite (proj2 (existsb_exists _ _)) by (exists i; by rewrite <- list_elem_of_In, Z.eqb_refl).
    by rewrite Hl. }
  rewrite (bind_run _ _ _ _ _ _ Hreq), Hopen, (bind_run _ _ _ _ _ _ Hhf).
  unfold get_protocol_params. unfold mbind, M_bind. cbn. fold (params_of (store w)).
  by rewrite (proj2 (Z.ltb_lt _ _)).
Qed.

Lemma payment_loan e w close i n l l1 l' d :
  payment e w close i n l l1 l' d → closing close → books (store w) →
  LoanAt (paid (store w) d l' n) !! i = Some l' ∧
  ln_total_debt l1 = ln_total_debt l + interest_due l (timestamp e) ∧
  ln_total_debt l' = ln_total_debt l1 - n.
Proof.
  intros [Hl Hopen (w1 & Ha & _) (w2 & Hp) Hn] Hclose Hb.
  pose proof (lo_loan _ _ _ _ (bo_loans _ Hb) _ _ Hl) as Hok.
  destruct (accrue_loan_spec _ _ _ _ _ _ _ Ha Hok) as (Hok1 & _ & _ & _ & Hq1 & Hr1 & _).
  destruct (pay_loan_spec _ _ _ _ _ _ _ _ _ Hp Hclose Hok1) as (_ & Hok' & _ & _ & Htot & _);
    [congruence|done|]. split_and!; [|by eapply accrue_loan_due|done].
  cbn. rewrite (lk_id _ _ _ Hok'). by rewrite lookup_insert_eq.
Qed.

(** C21: a liquidation succeeds only if [can_liquidate] answers
    true just before it.  It covers the amount asked for, at most the debt with
    the interest due; the loan owes that much less; the collateral taken is the
    borrower's most valuable one, and the amount taken is the covered debt with
    the bonus, divided by the price and rounded up, and it is taken from that
    entry of the borrower alone; the liquidator's payment and
    the seized tokens are the only movements of the contract's balances. *)
Theorem liquidation_exact t w lq b i cover e w' :
  reachable t w → wf_env self e → liquidate lq b i cover e w = Ok (tt, w') →
  can_liquidate b i e w = Ok (true, w) ∧
  ∃ l l' tk cfg price n seized v,
    LoanAt (store w) !! i = Some l ∧ LoanAt (store w') !! i = Some l' ∧
    n = Z.min cover (ln_total_debt l + interest_due l (timestamp e)) ∧
    ln_total_debt l' = ln_total_debt l + interest_due l (timestamp e) - n ∧
    get_oracle_price (ct_oracle_feed cfg) (ct_price_scale cfg) e w = Ok (price, w) ∧
    candidate b e w tk cfg v ∧
    (∀ tk' cfg' v', tk' ∈ default [] (CollateralTokens (store w)) →
       candidate b e w tk' cfg' v' → v' ≤ v) ∧
    n * (BPS_DENOMINATOR + ct_liq_bonus_bps cfg) ≤ seized * price * BPS_DENOMINATOR
      < n * (BPS_DENOMINATOR + ct_liq_bonus_bps cfg) + price * BPS_DENOMINATOR ∧
    (∀ tk', held tk' (UserCollateralAt (store w'))
       = held tk' (UserCollateralAt (store w)) - (if bool_decide (tk' = tk) then seized else 0)) ∧
    (∀ k, k ≠ (b, tk) → UserCollateralAt (store w') !! k = UserCollateralAt (store w) !! k) ∧
    (∀ tk', tok_balance (ledger w') tk' self = tok_balance (ledger w) tk' self
       + (if bool_decide (tk' = ln_borrow_token l) then n else 0)
       - (if bool_decide (tk' = tk) then seized else 0)).
Proof.
  intros Hi%collateral_reachable_inv He Hr. apply bind_Ok in Hr as ([] & w0 & Hauth & Hr). minv Hauth.
  apply bind_Ok in Hr as ([] & w0 & Hp & Hr). unfold check_paused, is_paused in Hp. minv Hp.
  pose proof (wf_auth_ne _ _ _ He Hauth) as Hne.
  apply with_guard_spec in Hr as (w2 & Hr & ->). apply inv_locked with (b := true) in Hi as [Hb _].
  destruct (liquidate_internal_spec _ _ _ _ _ _ _ _ Hr Hb)
    as (Hcov & l & l1 & l' & d & hf & tk & cfg & price & n & seized & bonus & uc & Hq).
  destruct (payment_loan _ _ _ _ _ _ _ _ _ (lq_payment _ _ _ _ _ _ _ _ _ _ _ _ _ _ _ _ _ _ _ Hq)
    closing_liquidated Hb) as (Hl' & Hdue & Htot).
  destruct Hq as [Hin Hpay Hhf Hlow -> Hbest Hprice Hseize (Hu & Htk & Hpos) Hamt (l0 & Htr1 & Htr2) Hst].
  destruct (same_locked true w) as [Hsame Hloans].
  destruct (best_seize_spec _ _ _ _ _ _ Hbest) as (_ & v & Hcand & Hmax). split.
  { eapply can_liquidate_true; [done|apply Hpay|apply Hpay| |done].
    by destruct (reads_health b e (locked true w) w hf _ (conj Hsame Hloans) Hhf). }
  exists l, l', tk, cfg, price, (Z.min cover (ln_total_debt l1)), seized, v.
  rewrite (wf_self _ _ He) in Htr1, Htr2. apply transfer_moved in Htr1, Htr2. rewrite <- Hdue.
  pose proof (seizure_spec _ _ _ _ _ _ _ _ Hseize (proj1 (pm_amount _ _ _ _ _ _ _ _ _ Hpay))
    (oracle_price_pos _ _ _ _ _ _ Hprice (bo_market _ Hb))
    (proj1 (cf_bonus _ (mk_config _ _ (bo_market _ Hb) _ _ (proj1 Hcand))))) as Hsz.
  split_and!; try done.
  - apply Hpay.
  - cbn. rewrite Hst. exact Hl'.
  - by destruct (reads_oracle_price same_prices (λ _ _ h, h) _ _ e _ w price _ (proj1 Hsame) Hprice).
  - by eapply candidate_same.
  - intros tk' cfg' v' Htk' Hc'. eapply Hmax; [exact Htk'|]. by apply (candidate_same _ _ w).
  - by apply Hsz.
  - by apply Hsz.
  - intros tk'. cbn. rewrite Hst. cbn. rewrite collateral_held_insert. cbn in Hamt. rewrite <- Hamt. case_bool_decide; lia.
  - intros k Hk. cbn. rewrite Hst. cbn. rewrite lookup_insert_ne; congruence.
  - intros tk'. cbn. rewrite (moved_out _ _ _ _ _ _ _ Htr2 Hne), (moved_in _ _ _ _ _ _ _ Htr1 Hne). done.
Qed.
End theorems.

(** ** The interest rate *)

(** The rate as a function of the utilization: two linear pieces that meet at
    the optimal utilization. *)
Definition rate_curve (p : ProtocolParams) (util : Z) : Z :=
  if util <=? pp_optimal_utilization_bps p
  then pp_base_interest_rate_bps p
       + (pp_interest_slope1_bps p * util) `div` pp_optimal_utilization_bps p
  else pp_base_interest_rate_bps p + pp_interest_slope1_bps p
       + (pp_interest_slope2_bps p * (util - pp_optimal_utilization_bps p))
           `div` (BPS_DENOMINATOR - pp_optimal_utilization_bps p).

Record params_sane (p : ProtocolParams) : Prop := {
  ps_base : 0 ≤ pp_base_interest_rate_bps p;
  ps_slope1 : 0 ≤ pp_interest_slope1_bps p;
  ps_slope2 : 0 ≤ pp_interest_slope2_bps p;
  ps_optimal : 0 < pp_optimal_utilization_bps p;
  ps_max : pp_base_interest_rate_bps p + pp_interest_slope1_bps p + pp_interest_slope2_bps p < 2 ^ 32;
}.

Lemma frac_bounds s a b : 0 ≤ s → 0 ≤ a ≤ b → 0 < b → 0 ≤ (s * a) `div` b ≤ s.
Proof.
  intros Hs Ha Hb. split; [apply Z.div_pos; nia|]. apply div_le_of_le_mul; nia.
Qed.

Lemma frac_mono s a a' b : 0 ≤ s → a ≤ a' → 0 < b → (s * a) `div` b ≤ (s * a') `div` b.
Proof. intros Hs Ha Hb. apply Z.div_le_mono; nia. Qed.

Lemma rate_curve_bounds p u :
  params_sane p → 0 ≤ u ≤ BPS_DENOMINATOR →
  pp_base_interest_rate_bps p ≤ rate_curve p u
    ≤ pp_base_interest_rate_bps p + pp_interest_slope1_bps p + pp_interest_slope2_bps p.
Proof.
  intros [] Hu. unfold rate_curve, BPS_DENOMINATOR in *. destruct (_ <=? _) eqn:Hc; zbool.
  - pose proof (frac_bounds (pp_interest_slope1_bps p) u (pp_optimal_utilization_bps p)). lia.
  - pose proof (frac_bounds (pp_interest_slope2_bps p) (u - pp_optimal_utilization_bps p)
      (10000 - pp_optimal_utilization_bps p)). lia.
Qed.

Lemma rate_curve_mono p u1 u2 :
  params_sane p → 0 ≤ u1 ≤ u2 → u2 ≤ BPS_DENOMINATOR → rate_curve p u1 ≤ rate_curve p u2.
Proof.
  intros [] Hu Hmax. unfold rate_curve, BPS_DENOMINATOR in *.
  destruct (u1 <=? _) eqn:Hc1, (u2 <=? _) eqn:Hc2; zbool; try lia.
  - pose proof (frac_mono (pp_interest_slope1_bps p) u1 u2 (pp_optimal_utilization_bps p)). lia.
  - pose proof (frac_bounds (pp_interest_slope1_bps p) u1 (pp_optimal_utilization_bps p)).
    pose proof (frac_bounds (pp_interest_slope2_bps p) (u2 - pp_optimal_utilization_bps p)
      (10000 - pp_optimal_utilization_bps p)). lia.
  - pose proof (frac_mono (pp_interest_slope2_bps p) (u1 - pp_optimal_utilization_bps p)
      (u2 - pp_optimal_utilization_bps p) (10000 - pp_optimal_utilization_bps p)). lia.
Qed.

Lemma as_u32_small x : 0 ≤ x < 2 ^ 32 → as_u32 (Z.min x (2 ^ 32 - 1)) = x.
Proof. intros Hx. unfold as_u32. rewrite Z.min_l by lia. by apply Z.mod_small. Qed.

Section rate.
Context `{TokenHost} {S E Ev : Type}.

Lemma interest_rate_curve p u e (w : World S Ev) r w' :
  (calculate_interest_rate p u : M S E Ev Z) e w = Ok (r, w') →
  params_sane p → 0 ≤ u ≤ BPS_DENOMINATOR → r = rate_curve p u.
Proof.
  intros Hr Hp Hu. pose proof (rate_curve_bounds p u Hp Hu) as Hb. destruct Hp.
  unfold calculate_interest_rate in Hr. rewrite (proj2 (Z.leb_gt _ _)) in Hr by lia.
  apply bind_Ok in Hr as (x & w1 & Hx & Hr). apply ret_Ok in Hr as [-> _].
  assert (x = rate_curve p u) as ->; [|apply as_u32_small; lia].
  unfold rate_curve in *. destruct (u <=? _) eqn:Hc; zbool.
  - minv Hx. arith. by rewrite Z.quot_div_nonneg by nia.
  - minv Hx; arith; unfold BPS_DENOMINATOR in *; [lia|]. by rewrite Z.quot_div_nonneg by nia.
Qed.

(** For parameters that fit the rate's 32 bits, the rate
    computed for a loan grows with the utilization and stays between the base
    rate and the sum of base rate and both slopes. *)
Theorem interest_rate_monotone p u1 u2 e (w : World S Ev) r1 r2 w1 w2 :
  params_sane p → 0 ≤ u1 ≤ u2 → u2 ≤ BPS_DENOMINATOR →
  (calculate_interest_rate p u1 : M S E Ev Z) e w = Ok (r1, w1) →
  (calculate_interest_rate p u2 : M S E Ev Z) e w = Ok (r2, w2) →
  pp_base_interest_rate_bps p ≤ r1 ∧ r1 ≤ r2 ∧
  r2 ≤ pp_base_interest_rate_bps p + pp_interest_slope1_bps p + pp_interest_slope2_bps p.
Proof.
  intros Hp Hu Hmax H1 H2. rewrite (interest_rate_curve _ _ _ _ _ _ H1 Hp ltac:(lia)),
    (interest_rate_curve _ _ _ _ _ _ H2 Hp ltac:(lia)).
  pose proof (rate_curve_bounds p u1 Hp ltac:(lia)). pose proof (rate_curve_bounds p u2 Hp ltac:(lia)).
  pose proof (rate_curve_mono p u1 u2 Hp Hu Hmax). lia.
Qed.
End rate.

(** ** A concrete market

    Two collateral types; Bob deposits the liquidity, Alice deposits and
    borrows, then the price of her collateral falls. *)

Module CollateralDemo.

Definition self := mkAddress "collateral".
Definition admin := mkAddress "admin".
Definition alice := mkAddress "alice".
Definition bob := mkAddress "bob".
Definition carol := mkAddress "carol".
Definition eth := mkAddress "eth".
Definition usd := mkAddress "usd".

(** The oracle contract is never asked: every feed has a stored price. *)
#[local] Instance no_oracle : PriceOracle := {| oracle_get_price _ _ _ := None |}.

Definition l0 : SimpleLedger := sl_of [(eth, alice, 1000); (usd, bob, 5000); (usd, carol, 5000)].
Definition w0 : World State Event := mkWorld deployed l0 [].

(** An eth is worth 2 usd: its price is 200, its scale 100. *)
Definition opening : list (Z * list Address * Call) :=
  [(10, [admin], CInitialize admin (mkAddress "oracle") None);
   (10, [admin], CRegister admin eth "ETH" 7500 8000 500 0 100);
   (10, [admin], CRegister admin usd "USD" 9000 9500 0 0 1);
   (10, [admin], CSetPrice admin "ETH" 200);
   (10, [admin], CSetPrice admin "USD" 1);
   (20, [bob], CDeposit bob usd 5000);
   (30, [alice], CDeposit alice eth 1000)].
Definition w1 : World State Event := run_script exec self opening w0.

Definition e_borrow := env_at 40 self [alice].
Definition w2 := world_of (borrow alice usd 1000 e_borrow w1) w1.

(** A year later, after a withdrawal. *)
Definition year_later := 40 + SECONDS_PER_YEAR.
Definition loan_open : list (Z * list Address * Call) :=
  opening ++ [(40, [alice], CBorrow alice usd 1000)].
Definition w3 : World State Event := run_script exec self loan_open w0.
Definition e_withdraw := env_at 50 self [alice].
Definition w4 := world_of (withdraw_collateral alice eth 200 e_withdraw w3) w3.

(** The price falls to 1.20: the position is worth 960 and may be liquidated. *)
Definition fallen : list (Z * list Address * Call) :=
  loan_open ++ [(50, [alice], CWithdraw alice eth 200); (60, [admin], CSetPrice admin "ETH" 120)].
Definition w5 : World State Event := run_script exec self fallen w0.
Definition e_liq := env_at year_later self [carol].
Definition w6 := world_of (liquidate carol alice 0 500 e_liq w5) w5.

Lemma collateral_demo_reach (cs : list (Z * list Address * Call)) :
  script_ok exec self 0 cs w0 = true → Forall (λ c, call_ok c.2) cs →
  reachable self (script_end 0 cs) (run_script exec self cs w0).
Proof.
  intros Hs Hok. exists 0, l0, []. split; [|by apply run_script_reach].
  intros tk. by apply sl_of_nonneg.
Qed.

Lemma opening_reach : reachable self 30 w1.
Proof.
  unfold w1. apply (collateral_demo_reach opening); [vm_compute; reflexivity|]. repeat constructor; cbn; lia.
Qed.
Lemma loan_open_reach : reachable self 40 w3.
Proof.
  unfold w3. apply (collateral_demo_reach loan_open); [vm_compute; reflexivity|]. repeat constructor; cbn; lia.
Qed.
Lemma fallen_reach : reachable self 60 w5.
Proof.
  unfold w5. apply (collateral_demo_reach fallen); [vm_compute; reflexivity|]. repeat constructor; cbn; lia.
Qed.

Lemma collateral_books_balance_witness :
  owed ln_principal usd (LoanAt (store w5)) = 1000 ∧
  held usd (UserCollateralAt (store w5)) = 5000 ∧
  held usd (UserCollateralAt (store w5))
    ≤ tok_balance (ledger w5) usd self + owed ln_principal usd (LoanAt (store w5)).
Proof.
  split; [vm_compute; reflexivity|]. split; [vm_compute; reflexivity|].
  destruct (collateral_books_balance self 60 w5 usd fallen_reach) as (_ & _ & Hc & _). exact Hc.
Defined.

Lemma borrow_keeps_healthy_witness :
  ∃ hf, get_health_factor alice e_borrow w2 = Ok (hf, w2) ∧
    pp_liq_health_threshold_bps (params_of (store w2)) ≤ hf_health_factor_bps hf.
Proof.
  apply (borrow_keeps_healthy self 30 w1 alice usd 1000 e_borrow w2 opening_reach).
  unfold w2. apply run_ok_unit. vm_compute. reflexivity.
Defined.

Lemma withdraw_keeps_healthy_witness :
  ∃ debt, user_total_debt alice e_withdraw w4 = Ok (debt, w4) ∧
    (0 < debt → ∃ hf, get_health_factor alice e_withdraw w4 = Ok (hf, w4) ∧
       pp_liq_health_threshold_bps (params_of (store w4)) ≤ hf_health_factor_bps hf).
Proof.
  apply (withdraw_keeps_healthy self 40 w3 alice eth 200 e_withdraw w4 loan_open_reach).
  unfold w4. apply run_ok_unit. vm_compute. reflexivity.
Defined.

Lemma liquidation_exact_witness : can_liquidate alice 0 e_liq w5 = Ok (true, w5).
Proof.
  destruct (liquidation_exact self 60 w5 carol alice 0 500 e_liq w6 fallen_reach) as [Hcan _].
  - apply env_at_wf. reflexivity.
  - unfold w6. apply run_ok_unit. vm_compute. reflexivity.
  - exact Hcan.
Defined.

(** Prices are in units of the collateral's price scale
    everywhere except where the seized amount is computed.  With one eth worth
    1.20 usd, quoted as 120 at scale 100, a liquidator who pays 500 usd receives
    5 eth, worth 6 usd, and not the 437.5 the bonus promises. *)
Theorem seizure_ignores_scale :
  is_ok (liquidate carol alice 0 500 e_liq w5) = true ∧
  tok_balance (ledger w6) usd carol = tok_balance (ledger w5) usd carol - 500 ∧
  tok_balance (ledger w6) eth carol = 5 ∧
  value_of (value_of_type (mkCollateralTypeConfig eth "ETH" 7500 8000 500 0 true 100) 5 e_liq w6) 0 = 6.
Proof. vm_compute. repeat split. Qed.

(** What is lent is the collateral of other users.  Bob has
    no debt, and 5000 usd of collateral; while Alice's loan is open he cannot
    withdraw them. *)
Theorem collateral_lent_out :
  uc_amount (value_of (get_user_collateral bob usd e_borrow w3) (mkUserCollateral bob usd 0 0)) = 5000 ∧
  value_of (user_total_debt bob e_borrow w3) 1 = 0 ∧
  is_ok (withdraw_collateral bob usd 5000 (env_at 50 self [bob]) w1) = true ∧
  is_ok (withdraw_collateral bob usd 5000 (env_at 50 self [bob]) w3) = false.
Proof. vm_compute. repeat split. Qed.

Definition p0 := mkProtocolParams 0 10000 200 400 7500 8000 0 0.

Lemma interest_rate_monotone_witness :
  pp_base_interest_rate_bps p0 ≤ 400 ∧ 400 ≤ 4350 ∧ 4350 ≤ 200 + 400 + 7500.
Proof.
  apply (interest_rate_monotone (S := State) (E := Empty_set) (Ev := Event) p0 4000 9000 e_borrow w0 400 4350 w0 w0).
  - split; cbn; lia.
  - lia.
  - unfold BPS_DENOMINATOR. lia.
  - reflexivity.
  - reflexivity.
Defined.
End CollateralDemo.
