(* ===== verification/PredictionMath.v ===== *)
(** * contracts/prediction-markets: the arithmetic

    src/contracts/prediction-markets/src/math.rs: the constant-product quotes of
    the outcome pools, the shares of liquidity providers and the implied price.
    The operators are the plain ones, which panic on overflow. *)

From stdpp Require Import gmap strings list fin_maps.
From S2P Require Import Prelude Soroban AmmMath.
Open Scope Z_scope.

Definition DECIMAL_FACTOR : Z := 10 ^ 18.

Record OutcomePool := mkOutcomePool {
  op_collateral_reserve : Z;
  op_outcome_reserve : Z;
  op_lp_total_supply : Z;
}.

Section math.
Context `{TokenHost} {S E Ev : Type}.

Local Abbreviation C := (M S E Ev).

(** The same code as in the AMM. *)
Definition isqrt (n : Z) : C Z := AmmMath.isqrt n.
Definition ceil_div (a b : Z) : C Z := AmmMath.ceil_div a b.

Definition calculate_buy_amount (collateral_in collateral_reserve outcome_reserve fee_bps : Z) : C Z :=
  if (collateral_in <=? 0) || (collateral_reserve <=? 0) || (outcome_reserve <=? 0) then mret 0
  else
    fee_factor ← plain_sub I128 10000 fee_bps;
    p ← plain_mul I128 collateral_in fee_factor;
    net_collateral ← plain_div I128 p 10000;
    if net_collateral <=? 0 then mret 0
    else
      numerator ← plain_mul I128 outcome_reserve net_collateral;
      denominator ← plain_add I128 collateral_reserve net_collateral;
      plain_div I128 numerator denominator.

Definition calculate_sell_amount (outcome_amount collateral_reserve outcome_reserve fee_bps : Z) : C Z :=
  if (outcome_amount <=? 0) || (collateral_reserve <=? 0) || (outcome_reserve <=? 0) then mret 0
  else if outcome_amount >=? outcome_reserve then mret 0
  else
    k ← plain_mul I128 collateral_reserve outcome_reserve;
    new_outcome_reserve ← plain_add I128 outcome_reserve outcome_amount;
    new_collateral_reserve ← plain_div I128 k new_outcome_reserve;
    gross_collateral ← plain_sub I128 collateral_reserve new_collateral_reserve;
    fee_factor ← plain_sub I128 10000 fee_bps;
    p ← plain_mul I128 gross_collateral fee_factor;
    plain_div I128 p 10000.

Definition calculate_buy_collateral_required
    (outcome_amount collateral_reserve outcome_reserve fee_bps : Z) : C Z :=
  if (outcome_amount <=? 0) || (collateral_reserve <=? 0) || (outcome_reserve <=? 0) then mret 0
  else if outcome_amount >=? outcome_reserve then mret (int_max I128)
  else
    numerator ← plain_mul I128 collateral_reserve outcome_amount;
    denominator ← plain_sub I128 outcome_reserve outcome_amount;
    net_collateral ← ceil_div numerator denominator;
    fee_factor ← plain_sub I128 10000 fee_bps;
    p ← plain_mul I128 net_collateral 10000;
    ceil_div p fee_factor.

Definition calculate_lp_shares_add (collateral_in outcome_in : Z) (pool : OutcomePool) : C Z :=
  if op_lp_total_supply pool =? 0 then
    p ← plain_mul I128 collateral_in outcome_in;
    isqrt p
  else
    p ← plain_mul I128 collateral_in (op_lp_total_supply pool);
    share_c ← plain_div I128 p (op_collateral_reserve pool);
    q ← plain_mul I128 outcome_in (op_lp_total_supply pool);
    share_o ← plain_div I128 q (op_outcome_reserve pool);
    mret (if share_c <? share_o then share_c else share_o).

Definition calculate_lp_withdraw (lp_amount : Z) (pool : OutcomePool) : C (Z * Z) :=
  p ← plain_mul I128 lp_amount (op_collateral_reserve pool);
  collateral_out ← plain_div I128 p (op_lp_total_supply pool);
  q ← plain_mul I128 lp_amount (op_outcome_reserve pool);
  outcome_out ← plain_div I128 q (op_lp_total_supply pool);
  mret (collateral_out, outcome_out).

Definition get_outcome_price (collateral_reserve outcome_reserve : Z) : C Z :=
  s ← plain_add I128 collateral_reserve outcome_reserve;
  if s =? 0 then mret 0
  else
    p ← plain_mul I128 collateral_reserve DECIMAL_FACTOR;
    plain_div I128 p s.

Definition check_cpmm_invariant (old_k new_collateral new_outcome : Z) : C bool :=
  new_k ← plain_mul I128 new_collateral new_outcome;
  mret (new_k >=? old_k).

End math.
