(* ===== verification/Prediction.v ===== *)
(** * contracts/prediction-markets: markets, pools, orders and disputes

    State and operations of [PredictionMarket]
    (src/contracts/prediction-markets/src/lib.rs, storage.rs, types.rs). *)

From stdpp Require Import gmap strings list fin_maps.
From S2P Require Import Prelude Soroban PredictionMath.
Open Scope Z_scope.

(** ** Data *)

Definition MAX_TRADING_FEE_BPS : Z := 500.
Definition MIN_RESOLUTION_WINDOW : Z := 60.
Definition MAX_RESOLUTION_WINDOW : Z := 365 * 24 * 3600.
Definition MAX_OUTCOMES : Z := 10.

Inductive MarketStatus := Active | PendingResolution | Resolved | Disputed | Closed.
Inductive MarketCategory := Sports | Crypto | Politics | Events | Custom.
Inductive DisputeStatus := Open | Voted | ResolvedUpheld | ResolvedRejected.
Inductive OrderStatus := OrderOpen | OrderFilled | OrderCancelled.
Inductive OrderSide := Buy | Sell.

#[global] Instance MarketStatus_eq_dec : EqDecision MarketStatus.
Proof. solve_decision. Defined.
#[global] Instance DisputeStatus_eq_dec : EqDecision DisputeStatus.
Proof. solve_decision. Defined.
#[global] Instance OrderStatus_eq_dec : EqDecision OrderStatus.
Proof. solve_decision. Defined.
#[global] Instance OrderSide_eq_dec : EqDecision OrderSide.
Proof. solve_decision. Defined.

Record PredictionMarketV2 := mkMarket {
  pm_market_id : Z;
  pm_question : string;
  pm_category : MarketCategory;
  pm_creator : Address;
  pm_collateral_token : Address;
  pm_oracle_source : Address;
  pm_num_outcomes : Z;
  pm_outcome_names : list string;
  pm_status : MarketStatus;
  pm_created_at : Z;
  pm_resolution_window_start : Z;
  pm_resolution_window_end : Z;
  pm_resolved_outcome : option Z;
  pm_total_collateral : Z;
  pm_max_outcome_supply : Z;
  pm_trading_fee_bps : Z;
}.

Record UserOutcomePosition := mkPosition {
  up_market_id : Z;
  up_outcome_index : Z;
  up_owner : Address;
  up_quantity : Z;
  up_avg_entry_price : Z;
  up_realized_pnl : Z;
  up_created_at : Z;
  up_updated_at : Z;
}.

Record LimitOrder := mkOrder {
  lo_order_id : Z;
  lo_market_id : Z;
  lo_owner : Address;
  lo_outcome_index : Z;
  lo_side : OrderSide;
  lo_price : Z;
  lo_quantity : Z;
  lo_filled_quantity : Z;
  lo_status : OrderStatus;
  lo_created_at : Z;
  lo_expires_at : option Z;
}.

Record Dispute := mkDispute {
  di_dispute_id : Z;
  di_market_id : Z;
  di_challenger : Address;
  di_claimed_outcome : Z;
  di_evidence : string;
  di_stake_amount : Z;
  di_status : DisputeStatus;
  di_votes_for : Z;
  di_votes_against : Z;
  di_created_at : Z;
  di_resolved_at : option Z;
}.

Record CreateMarketParams := mkParams {
  cp_question : string;
  cp_category : MarketCategory;
  cp_collateral_token : Address;
  cp_oracle_source : Address;
  cp_num_outcomes : Z;
  cp_outcome_names : list string;
  cp_resolution_window_duration : Z;
  cp_max_outcome_supply : Z;
  cp_trading_fee_bps : Z;
  cp_initial_liquidity : Z;
}.

(** One field per key of [DataKey]; [None] and absence are the unset key. *)
Record State := mkState {
  MarketCounter : option Z;
  Admin : option Address;
  TradingPaused : option bool;
  OracleAddress : option Address;
  FeeShareBps : option Z;
  GovernanceCollector : option Address;
  Market : gmap Z PredictionMarketV2;
  OutcomePoolAt : gmap (Z * Z) OutcomePool;
  OutcomeBalance : gmap (Z * Z * Address) Z;
  MarketCollateral : gmap Z Z;
  LpShares : gmap (Z * Address) Z;
  LpTotalSupply : gmap Z Z;
  LpRewardAccumulator : gmap Z Z;
  OrderCounter : gmap Z Z;
  Order : gmap (Z * Z) LimitOrder;
  UserPosition : gmap (Z * Z * Address) UserOutcomePosition;
  DisputeCounter : gmap Z Z;
  DisputeAt : gmap (Z * Z) Dispute;
  DisputeVote : gmap (Z * Z * Address) Z;
  TotalOutcomeSupply : gmap (Z * Z) Z;
  OracleResultCache : gmap Z Z;
}.

Inductive Event :=
| pm_init (admin oracle : Address) (t : Z)
| MarketCreated (market_id : Z) (creator : Address) (num_outcomes initial_liquidity fee : Z)
| MarketResolved (market_id outcome t : Z)
| MarketClosedEarly (market_id : Z) (caller : Address)
| OutcomeBought (market_id : Z) (buyer : Address) (outcome collateral_in outcome_out : Z)
| OutcomeSold (market_id : Z) (seller : Address) (outcome outcome_amount collateral_out : Z)
| LiquidityAdded (market_id : Z) (provider : Address) (outcome collateral outcomes shares : Z)
| LiquidityRemoved (market_id : Z) (provider : Address) (outcome collateral outcomes shares : Z)
| OrderPlaced (market_id order_id : Z) (owner : Address) (outcome : Z) (side : OrderSide) (price quantity : Z)
| OrderCancelledEv (market_id order_id : Z) (owner : Address)
| OrderMatched (market_id order_id : Z) (seller : Address) (sold received : Z)
| PartialRedemption (market_id : Z) (user : Address) (outcome payout : Z)
| TokensRedeemed (market_id : Z) (user : Address) (outcome balance amount : Z)
| DisputeOpened (market_id dispute_id : Z) (challenger : Address) (outcome stake : Z)
| DisputeVoteCast (market_id dispute_id : Z) (voter : Address) (weight : Z) (support : bool)
| DisputeUpheld (market_id dispute_id outcome stake : Z)
| DisputeRejected (market_id dispute_id stake : Z)
| trd_pause (admin : Address) (t : Z)
| trd_res (admin : Address) (t : Z)
| adm_set (current_admin new_admin : Address).

Ltac mred v ::= eval cbn [store ledger log MarketCounter Admin TradingPaused OracleAddress FeeShareBps
  GovernanceCollector Market OutcomePoolAt OutcomeBalance MarketCollateral LpShares LpTotalSupply
  LpRewardAccumulator OrderCounter Order UserPosition DisputeCounter DisputeAt DisputeVote
  TotalOutcomeSupply OracleResultCache pm_market_id pm_question pm_category pm_creator
  pm_collateral_token pm_oracle_source pm_num_outcomes pm_outcome_names pm_status pm_created_at
  pm_resolution_window_start pm_resolution_window_end pm_resolved_outcome pm_total_collateral
  pm_max_outcome_supply pm_trading_fee_bps up_market_id up_outcome_index up_owner up_quantity
  up_avg_entry_price up_realized_pnl up_created_at up_updated_at lo_order_id lo_market_id lo_owner
  lo_outcome_index lo_side lo_price lo_quantity lo_filled_quantity lo_status lo_created_at
  lo_expires_at di_dispute_id di_market_id di_challenger di_claimed_outcome di_evidence
  di_stake_amount di_status di_votes_for di_votes_against di_created_at di_resolved_at
  op_collateral_reserve op_outcome_reserve op_lp_total_supply fst snd] in v.

Section contract.
Context `{TokenHost}.

Local Abbreviation C := (M State Empty_set Event).

(** ** storage.rs *)

Definition get_admin : C (option Address) := gets Admin.
Definition set_admin (admin : Address) : C () := modify (λ s, {| s with Admin := Some admin |}).
Definition is_trading_paused : C bool := gets (λ s, default false (TradingPaused s)).
Definition set_trading_paused (paused : bool) : C () :=
  modify (λ s, {| s with TradingPaused := Some paused |}).
Definition get_market_counter : C Z := gets (λ s, default 0 (MarketCounter s)).
Definition set_market_counter (counter : Z) : C () :=
  modify (λ s, {| s with MarketCounter := Some counter |}).
Definition get_default_oracle : C (option Address) := gets OracleAddress.
Definition set_default_oracle (oracle : Address) : C () :=
  modify (λ s, {| s with OracleAddress := Some oracle |}).
Definition get_fee_share_bps : C Z := gets (λ s, default 0 (FeeShareBps s)).
Definition set_fee_share_bps (bps : Z) : C () := modify (λ s, {| s with FeeShareBps := Some bps |}).
Definition get_governance_collector : C (option Address) := gets GovernanceCollector.
Definition set_governance_collector (collector : Address) : C () :=
  modify (λ s, {| s with GovernanceCollector := Some collector |}).
Definition get_market (market_id : Z) : C (option PredictionMarketV2) :=
  gets (λ s, Market s !! market_id).
Definition set_market (market : PredictionMarketV2) : C () :=
  modify (λ s, {| s with Market := <[pm_market_id market := market]> (Market s) |}).
Definition require_market (market_id : Z) : C PredictionMarketV2 :=
  o ← get_market market_id;
  expect o "Market not found".
Definition get_outcome_pool (market_id outcome_index : Z) : C (option OutcomePool) :=
  gets (λ s, OutcomePoolAt s !! (market_id, outcome_index)).
Definition set_outcome_pool (market_id outcome_index : Z) (pool : OutcomePool) : C () :=
  modify (λ s, {| s with OutcomePoolAt := <[(market_id, outcome_index) := pool]> (OutcomePoolAt s) |}).
Definition require_outcome_pool (market_id outcome_index : Z) : C OutcomePool :=
  o ← get_outcome_pool market_id outcome_index;
  expect o "Outcome pool not found".
Definition get_outcome_balance (market_id outcome_index : Z) (user : Address) : C Z :=
  gets (λ s, default 0 (OutcomeBalance s !! (market_id, outcome_index, user))).
Definition set_outcome_balance (market_id outcome_index : Z) (user : Address) (amount : Z) : C () :=
  modify (λ s, {| s with OutcomeBalance :=
    if amount <=? 0 then delete (market_id, outcome_index, user) (OutcomeBalance s)
    else <[(market_id, outcome_index, user) := amount]> (OutcomeBalance s) |}).
Definition get_market_collateral (market_id : Z) : C Z :=
  gets (λ s, default 0 (MarketCollateral s !! market_id)).
Definition set_market_collateral (market_id amount : Z) : C () :=
  modify (λ s, {| s with MarketCollateral := <[market_id := amount]> (MarketCollateral s) |}).
Definition get_lp_shares (market_id : Z) (provider : Address) : C Z :=
  gets (λ s, default 0 (LpShares s !! (market_id, provider))).
Definition set_lp_shares (market_id : Z) (provider : Address) (shares : Z) : C () :=
  modify (λ s, {| s with LpShares :=
    if shares <=? 0 then delete (market_id, provider) (LpShares s)
    else <[(market_id, provider) := shares]> (LpShares s) |}).
Definition get_lp_total_supply (market_id : Z) : C Z :=
  gets (λ s, default 0 (LpTotalSupply s !! market_id)).
Definition set_lp_total_supply (market_id supply : Z) : C () :=
  modify (λ s, {| s with LpTotalSupply := <[market_id := supply]> (LpTotalSupply s) |}).
Definition get_lp_reward_accumulator (market_id : Z) : C Z :=
  gets (λ s, default 0 (LpRewardAccumulator s !! market_id)).
Definition set_lp_reward_accumulator (market_id accumulator : Z) : C () :=
  modify (λ s, {| s with LpRewardAccumulator := <[market_id := accumulator]> (LpRewardAccumulator s) |}).
Definition get_order_counter (market_id : Z) : C Z :=
  gets (λ s, default 0 (OrderCounter s !! market_id)).
Definition set_order_counter (market_id counter : Z) : C () :=
  modify (λ s, {| s with OrderCounter := <[market_id := counter]> (OrderCounter s) |}).
Definition get_order (market_id order_id : Z) : C (option LimitOrder) :=
  gets (λ s, Order s !! (market_id, order_id)).
Definition set_order (order : LimitOrder) : C () :=
  modify (λ s, {| s with Order := <[(lo_market_id order, lo_order_id order) := order]> (Order s) |}).
Definition get_user_position (market_id outcome_index : Z) (user : Address)
    : C (option UserOutcomePosition) :=
  gets (λ s, UserPosition s !! (market_id, outcome_index, user)).
Definition set_user_position (position : UserOutcomePosition) : C () :=
  modify (λ s, {| s with UserPosition :=
    <[(up_market_id position, up_outcome_index position, up_owner position) := position]> (UserPosition s) |}).
Definition get_dispute_counter (market_id : Z) : C Z :=
  gets (λ s, default 0 (DisputeCounter s !! market_id)).
Definition set_dispute_counter (market_id counter : Z) : C () :=
  modify (λ s, {| s with DisputeCounter := <[market_id := counter]> (DisputeCounter s) |}).
Definition get_dispute (market_id dispute_id : Z) : C (option Dispute) :=
  gets (λ s, DisputeAt s !! (market_id, dispute_id)).
Definition set_dispute (dispute : Dispute) : C () :=
  modify (λ s, {| s with DisputeAt :=
    <[(di_market_id dispute, di_dispute_id dispute) := dispute]> (DisputeAt s) |}).
Definition has_voted (market_id dispute_id : Z) (voter : Address) : C bool :=
  gets (λ s, bool_decide (is_Some (DisputeVote s !! (market_id, dispute_id, voter)))).
Definition set_vote (market_id dispute_id : Z) (voter : Address) (weight : Z) : C () :=
  modify (λ s, {| s with DisputeVote :=
    <[(market_id, dispute_id, voter) := weight]> (DisputeVote s) |}).
Definition get_total_outcome_supply (market_id outcome_index : Z) : C Z :=
  gets (λ s, default 0 (TotalOutcomeSupply s !! (market_id, outcome_index))).
Definition set_total_outcome_supply (market_id outcome_index supply : Z) : C () :=
  modify (λ s, {| s with TotalOutcomeSupply :=
    <[(market_id, outcome_index) := supply]> (TotalOutcomeSupply s) |}).
Definition get_oracle_result_cache (market_id : Z) : C (option Z) :=
  gets (λ s, OracleResultCache s !! market_id).
Definition set_oracle_result_cache (market_id outcome : Z) : C () :=
  modify (λ s, {| s with OracleResultCache := <[market_id := outcome]> (OracleResultCache s) |}).
Definition clear_oracle_result_cache (market_id : Z) : C () :=
  modify (λ s, {| s with OracleResultCache := delete market_id (OracleResultCache s) |}).

(** ** Internal helpers *)

Definition assert_admin (caller : Address) : C () :=
  o ← get_admin;
  admin ← expect o "Admin not set";
  panic_if (bool_decide (caller ≠ admin)) "Unauthorized".

Definition assert_market_active (market_id : Z) : C () :=
  o ← get_market market_id;
  market ← expect o "Market not found";
  panic_if (bool_decide (pm_status market ≠ Active)) "Market not active".

Definition assert_trading_active (market_id : Z) : C () :=
  b ← is_trading_paused;
  panic_if b "Trading is paused";;
  o ← get_market market_id;
  market ← expect o "Market not found";
  panic_if (bool_decide (pm_status market ≠ Active)) "Market not active".

(** [storage::get_market(..).unwrap()] *)
Definition unwrap_market (market_id : Z) : C PredictionMarketV2 :=
  o ← get_market market_id;
  expect o "called `Option::unwrap()` on a `None` value".

Definition average_price (cost quantity : Z) : C Z :=
  if quantity >? 0 then
    p ← plain_mul I128 cost DECIMAL_FACTOR;
    plain_div I128 p quantity
  else mret 0.

Definition update_position (market_id outcome_index : Z) (user : Address)
    (quantity collateral_spent : Z) : C () :=
  t ← now;
  existing ← get_user_position market_id outcome_index user;
  position ← (match existing with
    | Some pos =>
        p ← plain_mul I128 (up_avg_entry_price pos) (up_quantity pos);
        q ← plain_div I128 p DECIMAL_FACTOR;
        total_cost ← plain_add I128 q collateral_spent;
        quantity' ← plain_add I128 (up_quantity pos) quantity;
        avg ← average_price total_cost quantity';
        mret {| pos with up_quantity := quantity'; up_avg_entry_price := avg; up_updated_at := t |}
    | None =>
        avg ← average_price collateral_spent quantity;
        mret (mkPosition market_id outcome_index user quantity avg 0 t t)
    end);
  set_user_position position.

Definition update_position_on_sell (market_id outcome_index : Z) (user : Address)
    (quantity collateral_received entry_price : Z) : C () :=
  t ← now;
  existing ← get_user_position market_id outcome_index user;
  position ← (match existing with
    | Some pos =>
        p ← plain_mul I128 entry_price quantity;
        cost_basis ← plain_div I128 p DECIMAL_FACTOR;
        pnl ← plain_sub I128 collateral_received cost_basis;
        realized ← plain_add I128 (up_realized_pnl pos) pnl;
        quantity' ← plain_sub I128 (up_quantity pos) quantity;
        mret {| pos with up_quantity := quantity'; up_realized_pnl := realized; up_updated_at := t |}
    | None =>
        neg ← plain_sub I128 0 quantity;
        mret (mkPosition market_id outcome_index user neg 0
          (if quantity >? 0 then collateral_received else 0) t t)
    end);
  if (up_quantity position <=? 0) && (up_realized_pnl position =? 0) then
    modify (λ s, {| s with UserPosition := delete (market_id, outcome_index, user) (UserPosition s) |})
  else set_user_position position.

(** ** Initialization and market life cycle *)

Definition initialize (admin oracle : Address) : C () :=
  o ← get_admin;
  panic_if (bool_decide (is_Some o)) "Already initialized";;
  require_auth admin;;
  set_admin admin;;
  set_default_oracle oracle;;
  set_market_counter 0;;
  set_trading_paused false;;
  t ← now;
  publish (pm_init admin oracle t).

(** One round of the seeding loop of [create_market]. *)
Definition seed_pool (market_id initial_liquidity : Z) (i : Z) : C () :=
  p ← plain_mul I128 initial_liquidity initial_liquidity;
  shares ← isqrt p;
  set_outcome_pool market_id i (mkOutcomePool initial_liquidity initial_liquidity shares);;
  set_total_outcome_supply market_id i 0.

Definition create_market (creator : Address) (params : CreateMarketParams) : C Z :=
  require_auth creator;;
  panic_if ((cp_num_outcomes params <? 2) || (cp_num_outcomes params >? MAX_OUTCOMES))
    "Invalid number of outcomes (2-10)";;
  panic_if (negb (Z.of_nat (length (cp_outcome_names params)) =? cp_num_outcomes params))
    "Outcome names count must match num_outcomes";;
  panic_if (cp_trading_fee_bps params >? MAX_TRADING_FEE_BPS) "Fee too high";;
  panic_if ((cp_resolution_window_duration params <? MIN_RESOLUTION_WINDOW)
    || (cp_resolution_window_duration params >? MAX_RESOLUTION_WINDOW)) "Invalid resolution window";;
  panic_if (cp_initial_liquidity params <=? 0) "Initial liquidity must be positive";;
  panic_if (cp_max_outcome_supply params <=? 0) "Invalid market cap";;
  market_id ← get_market_counter;
  t ← now;
  window_end ← plain_add U64 t (cp_resolution_window_duration params);
  set_market (mkMarket market_id (cp_question params) (cp_category params) creator
    (cp_collateral_token params) (cp_oracle_source params) (cp_num_outcomes params)
    (cp_outcome_names params) Active t t window_end None 0 (cp_max_outcome_supply params)
    (cp_trading_fee_bps params));;
  next ← plain_add U64 market_id 1;
  set_market_counter next;;
  contract_addr ← self_address;
  total_initial ← plain_mul I128 (cp_initial_liquidity params) (cp_num_outcomes params);
  token_transfer (cp_collateral_token params) creator contract_addr total_initial;;
  foldM (λ _ i, seed_pool market_id (cp_initial_liquidity params) i) tt
    (seqZ 0 (cp_num_outcomes params));;
  set_market_collateral market_id total_initial;;
  p ← plain_mul I128 (cp_initial_liquidity params) (cp_initial_liquidity params);
  r ← isqrt p;
  supply ← plain_mul I128 r (cp_num_outcomes params);
  set_lp_total_supply market_id supply;;
  publish (MarketCreated market_id creator (cp_num_outcomes params) (cp_initial_liquidity params)
    (cp_trading_fee_bps params));;
  mret market_id.

Definition resolve_market (oracle_caller : Address) (market_id outcome : Z) : C () :=
  require_auth oracle_caller;;
  o ← get_market market_id;
  market ← expect o "Market not found";
  (if bool_decide (oracle_caller ≠ pm_oracle_source market) then
     d ← get_default_oracle;
     match d with
     | Some default => panic_if (bool_decide (oracle_caller ≠ default)) "Unauthorized oracle"
     | None => panic "Unauthorized oracle"
     end
   else mret tt);;
  panic_if (bool_decide (pm_status market = Resolved)) "Market already resolved";;
  t ← now;
  panic_if (t <=? pm_resolution_window_end market) "Resolution window not closed";;
  panic_if (outcome >=? pm_num_outcomes market) "Invalid outcome index";;
  set_market {| market with pm_status := Resolved; pm_resolved_outcome := Some outcome |};;
  publish (MarketResolved market_id outcome t).

Definition close_market_early (caller : Address) (market_id : Z) : C () :=
  require_auth caller;;
  o ← get_market market_id;
  market ← expect o "Market not found";
  a ← get_admin;
  let is_admin := match a with Some a => bool_decide (a = caller) | None => false end in
  panic_if (negb is_admin && bool_decide (caller ≠ pm_creator market)) "Unauthorized";;
  panic_if (bool_decide (pm_status market ≠ Active)) "Market not active";;
  set_market {| market with pm_status := Closed |};;
  publish (MarketClosedEarly market_id caller).

(** ** Trading *)

Definition buy_outcome (buyer : Address) (market_id outcome_index collateral_in min_outcome_out : Z)
    : C Z :=
  require_auth buyer;;
  assert_trading_active market_id;;
  panic_if (collateral_in <=? 0) "Invalid amount";;
  m ← unwrap_market market_id;
  panic_if (outcome_index >=? pm_num_outcomes m) "Invalid outcome index";;
  o ← get_outcome_pool market_id outcome_index;
  pool ← expect o "Outcome pool not found";
  market ← unwrap_market market_id;
  current_supply ← get_total_outcome_supply market_id outcome_index;
  outcome_out ← calculate_buy_amount collateral_in (op_collateral_reserve pool)
    (op_outcome_reserve pool) (pm_trading_fee_bps market);
  panic_if (outcome_out <=? 0) "Output amount is zero";;
  panic_if (outcome_out <? min_outcome_out) "Slippage exceeded";;
  new_supply ← plain_add I128 current_supply outcome_out;
  panic_if (new_supply >? pm_max_outcome_supply market) "Market cap exceeded";;
  contract_addr ← self_address;
  token_transfer (pm_collateral_token market) buyer contract_addr collateral_in;;
  fee_factor ← plain_sub I128 10000 (pm_trading_fee_bps market);
  p ← plain_mul I128 collateral_in fee_factor;
  net_collateral ← plain_div I128 p 10000;
  new_collateral ← plain_add I128 (op_collateral_reserve pool) net_collateral;
  new_outcome ← plain_sub I128 (op_outcome_reserve pool) outcome_out;
  set_outcome_pool market_id outcome_index
    {| pool with op_collateral_reserve := new_collateral; op_outcome_reserve := new_outcome |};;
  prev_balance ← get_outcome_balance market_id outcome_index buyer;
  new_balance ← plain_add I128 prev_balance outcome_out;
  set_outcome_balance market_id outcome_index buyer new_balance;;
  set_total_outcome_supply market_id outcome_index new_supply;;
  update_position market_id outcome_index buyer outcome_out collateral_in;;
  current_collateral ← get_market_collateral market_id;
  total ← plain_add I128 current_collateral collateral_in;
  set_market_collateral market_id total;;
  publish (OutcomeBought market_id buyer outcome_index collateral_in outcome_out);;
  mret outcome_out.

Definition sell_outcome (seller : Address) (market_id outcome_index outcome_amount min_collateral_out : Z)
    : C Z :=
  require_auth seller;;
  assert_trading_active market_id;;
  panic_if (outcome_amount <=? 0) "Invalid amount";;
  m ← unwrap_market market_id;
  panic_if (outcome_index >=? pm_num_outcomes m) "Invalid outcome index";;
  user_balance ← get_outcome_balance market_id outcome_index seller;
  panic_if (user_balance <? outcome_amount) "Insufficient balance";;
  o ← get_outcome_pool market_id outcome_index;
  pool ← expect o "Outcome pool not found";
  market ← unwrap_market market_id;
  collateral_out ← calculate_sell_amount outcome_amount (op_collateral_reserve pool)
    (op_outcome_reserve pool) (pm_trading_fee_bps market);
  panic_if (collateral_out <=? 0) "Output amount is zero";;
  panic_if (collateral_out <? min_collateral_out) "Slippage exceeded";;
  new_collateral ← plain_sub I128 (op_collateral_reserve pool) collateral_out;
  new_outcome ← plain_add I128 (op_outcome_reserve pool) outcome_amount;
  set_outcome_pool market_id outcome_index
    {| pool with op_collateral_reserve := new_collateral; op_outcome_reserve := new_outcome |};;
  new_balance ← plain_sub I128 user_balance outcome_amount;
  set_outcome_balance market_id outcome_index seller new_balance;;
  contract_addr ← self_address;
  token_transfer (pm_collateral_token market) contract_addr seller collateral_out;;
  entry_price ← (if user_balance >? 0 then
      pos ← get_user_position market_id outcome_index seller;
      mret (match pos with Some p => up_avg_entry_price p | None => 0 end)
    else mret 0);
  update_position_on_sell market_id outcome_index seller outcome_amount collateral_out entry_price;;
  current_collateral ← get_market_collateral market_id;
  total ← plain_sub I128 current_collateral collateral_out;
  set_market_collateral market_id total;;
  current_supply ← get_total_outcome_supply market_id outcome_index;
  supply ← plain_sub I128 current_supply outcome_amount;
  set_total_outcome_supply market_id outcome_index supply;;
  publish (OutcomeSold market_id seller outcome_index outcome_amount collateral_out);;
  mret collateral_out.

Definition quote_buy (market_id outcome_index collateral_in : Z) : C Z :=
  o ← get_outcome_pool market_id outcome_index;
  pool ← expect o "Outcome pool not found";
  market ← unwrap_market market_id;
  calculate_buy_amount collateral_in (op_collateral_reserve pool) (op_outcome_reserve pool)
    (pm_trading_fee_bps market).

Definition quote_sell (market_id outcome_index outcome_amount : Z) : C Z :=
  o ← get_outcome_pool market_id outcome_index;
  pool ← expect o "Outcome pool not found";
  market ← unwrap_market market_id;
  calculate_sell_amount outcome_amount (op_collateral_reserve pool) (op_outcome_reserve pool)
    (pm_trading_fee_bps market).

(** ** Liquidity *)

Definition add_liquidity (provider : Address)
    (market_id outcome_index collateral_amount outcome_amount : Z) : C Z :=
  require_auth provider;;
  assert_market_active market_id;;
  panic_if ((collateral_amount <=? 0) || (outcome_amount <=? 0)) "Amounts must be positive";;
  m ← unwrap_market market_id;
  panic_if (outcome_index >=? pm_num_outcomes m) "Invalid outcome index";;
  o ← get_outcome_pool market_id outcome_index;
  pool ← expect o "Outcome pool not found";
  lp_shares ← calculate_lp_shares_add collateral_amount outcome_amount pool;
  panic_if (lp_shares <=? 0) "Insufficient liquidity minted";;
  contract_addr ← self_address;
  market ← unwrap_market market_id;
  token_transfer (pm_collateral_token market) provider contract_addr collateral_amount;;
  new_collateral ← plain_add I128 (op_collateral_reserve pool) collateral_amount;
  new_outcome ← plain_add I128 (op_outcome_reserve pool) outcome_amount;
  new_supply ← plain_add I128 (op_lp_total_supply pool) lp_shares;
  set_outcome_pool market_id outcome_index (mkOutcomePool new_collateral new_outcome new_supply);;
  prev_shares ← get_lp_shares market_id provider;
  shares ← plain_add I128 prev_shares lp_shares;
  set_lp_shares market_id provider shares;;
  prev_total ← get_lp_total_supply market_id;
  total ← plain_add I128 prev_total lp_shares;
  set_lp_total_supply market_id total;;
  current_collateral ← get_market_collateral market_id;
  collateral ← plain_add I128 current_collateral collateral_amount;
  set_market_collateral market_id collateral;;
  publish (LiquidityAdded market_id provider outcome_index collateral_amount outcome_amount lp_shares);;
  mret lp_shares.

Definition remove_liquidity (provider : Address) (market_id outcome_index lp_amount : Z) : C (Z * Z) :=
  require_auth provider;;
  panic_if (lp_amount <=? 0) "LP amount must be positive";;
  user_shares ← get_lp_shares market_id provider;
  panic_if (user_shares <? lp_amount) "Insufficient LP tokens";;
  o ← get_outcome_pool market_id outcome_index;
  pool ← expect o "Outcome pool not found";
  panic_if (op_lp_total_supply pool <=? 0) "No liquidity";;
  out ← calculate_lp_withdraw lp_amount pool;
  let collateral_out := fst out in
  let outcome_out := snd out in
  contract_addr ← self_address;
  market ← unwrap_market market_id;
  token_transfer (pm_collateral_token market) contract_addr provider collateral_out;;
  new_collateral ← plain_sub I128 (op_collateral_reserve pool) collateral_out;
  new_outcome ← plain_sub I128 (op_outcome_reserve pool) outcome_out;
  new_supply ← plain_sub I128 (op_lp_total_supply pool) lp_amount;
  set_outcome_pool market_id outcome_index (mkOutcomePool new_collateral new_outcome new_supply);;
  shares ← plain_sub I128 user_shares lp_amount;
  set_lp_shares market_id provider shares;;
  prev_total ← get_lp_total_supply market_id;
  total ← plain_sub I128 prev_total lp_amount;
  set_lp_total_supply market_id total;;
  prev_balance ← get_outcome_balance market_id outcome_index provider;
  balance ← plain_add I128 prev_balance outcome_out;
  set_outcome_balance market_id outcome_index provider balance;;
  current_collateral ← get_market_collateral market_id;
  collateral ← plain_sub I128 current_collateral collateral_out;
  set_market_collateral market_id collateral;;
  publish (LiquidityRemoved market_id provider outcome_index collateral_out outcome_out lp_amount);;
  mret (collateral_out, outcome_out).

(** ** Order book *)

(** What a quantity costs at a price. *)
Definition order_cost (price quantity : Z) : C Z :=
  p ← plain_mul I128 price quantity;
  plain_div I128 p DECIMAL_FACTOR.

Definition place_order (owner : Address) (market_id outcome_index : Z) (side : OrderSide)
    (price quantity : Z) : C Z :=
  require_auth owner;;
  assert_trading_active market_id;;
  panic_if ((price <=? 0) || (quantity <=? 0)) "Invalid price or quantity";;
  m ← unwrap_market market_id;
  panic_if (outcome_index >=? pm_num_outcomes m) "Invalid outcome index";;
  (if bool_decide (side = Sell) then
     balance ← get_outcome_balance market_id outcome_index owner;
     panic_if (balance <? quantity) "Insufficient balance for sell order"
   else mret tt);;
  (if bool_decide (side = Buy) then
     cost ← order_cost price quantity;
     contract_addr ← self_address;
     market ← unwrap_market market_id;
     balance ← token_balance (pm_collateral_token market) owner;
     panic_if (balance <? cost) "Insufficient collateral for order";;
     token_transfer (pm_collateral_token market) owner contract_addr cost
   else mret tt);;
  order_id ← get_order_counter market_id;
  t ← now;
  set_order (mkOrder order_id market_id owner outcome_index side price quantity 0 OrderOpen t None);;
  next ← plain_add U64 order_id 1;
  set_order_counter market_id next;;
  publish (OrderPlaced market_id order_id owner outcome_index side price quantity);;
  mret order_id.

Definition cancel_order (owner : Address) (market_id order_id : Z) : C () :=
  require_auth owner;;
  o ← get_order market_id order_id;
  order ← expect o "Order not found";
  panic_if (bool_decide (lo_owner order ≠ owner)) "Unauthorized";;
  panic_if (bool_decide (lo_status order ≠ OrderOpen)) "Order not open";;
  set_order {| order with lo_status := OrderCancelled |};;
  (if bool_decide (lo_side order = Buy) then
     remaining ← plain_sub I128 (lo_quantity order) (lo_filled_quantity order);
     cost ← order_cost (lo_price order) remaining;
     if cost >? 0 then
       contract_addr ← self_address;
       market ← unwrap_market market_id;
       token_transfer (pm_collateral_token market) contract_addr owner cost
     else mret tt
   else mret tt);;
  publish (OrderCancelledEv market_id order_id owner).

(** A buy order a sell order can be matched against. *)
Definition matches (seller : Address) (sell_order buy_order : LimitOrder) : bool :=
  bool_decide (lo_status buy_order = OrderOpen) && bool_decide (lo_side buy_order = Buy)
  && bool_decide (lo_outcome_index buy_order = lo_outcome_index sell_order)
  && bool_decide (lo_owner buy_order ≠ seller) && negb (lo_price buy_order <? lo_price sell_order).

(** One round of the scan: what remains to sell and what has been received.  A
    scan that has nothing left to sell goes on without effect. *)
Definition match_step (seller : Address) (market_id : Z) (sell_order : LimitOrder) (acc : Z * Z)
    (oid : Z) : C (Z * Z) :=
  let '(remaining, received) := acc in
  if remaining <=? 0 then mret acc
  else
    o ← get_order market_id oid;
    match o with
    | None => mret acc
    | Some buy_order =>
        if negb (matches seller sell_order buy_order) then mret acc
        else
          buy_remaining ← plain_sub I128 (lo_quantity buy_order) (lo_filled_quantity buy_order);
          let fill_amount := if remaining <? buy_remaining then remaining else buy_remaining in
          collateral ← order_cost (lo_price buy_order) fill_amount;
          received' ← plain_add I128 received collateral;
          filled ← plain_add I128 (lo_filled_quantity buy_order) fill_amount;
          set_order {| buy_order with lo_filled_quantity := filled;
            lo_status := if filled >=? lo_quantity buy_order then OrderFilled else OrderOpen |};;
          buyer_balance ← get_outcome_balance market_id (lo_outcome_index sell_order) (lo_owner buy_order);
          balance ← plain_add I128 buyer_balance fill_amount;
          set_outcome_balance market_id (lo_outcome_index sell_order) (lo_owner buy_order) balance;;
          remaining' ← plain_sub I128 remaining fill_amount;
          mret (remaining', received')
    end.

Definition match_sell_order (seller : Address) (market_id order_id : Z) : C Z :=
  require_auth seller;;
  o ← get_order market_id order_id;
  sell_order ← expect o "Order not found";
  panic_if (bool_decide (lo_owner sell_order ≠ seller)) "Unauthorized";;
  panic_if (bool_decide (lo_status sell_order ≠ OrderOpen)) "Order not open";;
  panic_if (bool_decide (lo_side sell_order ≠ Sell)) "Not a sell order";;
  remaining0 ← plain_sub I128 (lo_quantity sell_order) (lo_filled_quantity sell_order);
  order_counter ← get_order_counter market_id;
  acc ← foldM (match_step seller market_id sell_order) (remaining0, 0) (seqZ 0 order_counter);
  let remaining := fst acc in
  let total_collateral_received := snd acc in
  sold ← plain_sub I128 (lo_quantity sell_order) remaining;
  set_order {| sell_order with lo_filled_quantity := sold;
    lo_status := if remaining =? 0 then OrderFilled else OrderOpen |};;
  seller_balance ← get_outcome_balance market_id (lo_outcome_index sell_order) seller;
  balance ← plain_sub I128 seller_balance sold;
  set_outcome_balance market_id (lo_outcome_index sell_order) seller balance;;
  (if total_collateral_received >? 0 then
     contract_addr ← self_address;
     market ← unwrap_market market_id;
     token_transfer (pm_collateral_token market) contract_addr seller total_collateral_received
   else mret tt);;
  publish (OrderMatched market_id order_id seller sold total_collateral_received);;
  mret total_collateral_received.

(** ** Redemption *)

Definition redeem_winning_tokens (user : Address) (market_id : Z) : C Z :=
  require_auth user;;
  o ← get_market market_id;
  market ← expect o "Market not found";
  panic_if (bool_decide (pm_status market ≠ Resolved)) "Market not resolved";;
  winning_outcome ← expect (pm_resolved_outcome market) "No resolved outcome";
  balance ← get_outcome_balance market_id winning_outcome user;
  panic_if (balance <=? 0) "No winning tokens to redeem";;
  p ← get_outcome_pool market_id winning_outcome;
  pool ← expect p "Pool not found";
  contract_addr ← self_address;
  if op_collateral_reserve pool <? balance then
    let payout := op_collateral_reserve pool in
    token_transfer (pm_collateral_token market) contract_addr user payout;;
    set_outcome_balance market_id winning_outcome user 0;;
    set_outcome_pool market_id winning_outcome {| pool with op_collateral_reserve := 0 |};;
    current_collateral ← get_market_collateral market_id;
    collateral ← plain_sub I128 current_collateral payout;
    set_market_collateral market_id collateral;;
    publish (PartialRedemption market_id user winning_outcome payout);;
    mret payout
  else
    token_transfer (pm_collateral_token market) contract_addr user balance;;
    set_outcome_balance market_id winning_outcome user 0;;
    reserve ← plain_sub I128 (op_collateral_reserve pool) balance;
    set_outcome_pool market_id winning_outcome {| pool with op_collateral_reserve := reserve |};;
    current_collateral ← get_market_collateral market_id;
    collateral ← plain_sub I128 current_collateral balance;
    set_market_collateral market_id collateral;;
    publish (TokensRedeemed market_id user winning_outcome balance balance);;
    mret balance.

(** ** Disputes *)

Definition open_dispute (challenger : Address) (market_id claimed_outcome : Z) (evidence : string)
    (stake_amount : Z) : C Z :=
  require_auth challenger;;
  o ← get_market market_id;
  market ← expect o "Market not found";
  panic_if (bool_decide (pm_status market ≠ Resolved)) "Market must be resolved to dispute";;
  panic_if (claimed_outcome >=? pm_num_outcomes market) "Invalid outcome index";;
  panic_if (stake_amount <=? 0) "Stake required";;
  contract_addr ← self_address;
  token_transfer (pm_collateral_token market) challenger contract_addr stake_amount;;
  dispute_id ← get_dispute_counter market_id;
  t ← now;
  set_dispute (mkDispute dispute_id market_id challenger claimed_outcome evidence stake_amount Open
    0 0 t None);;
  next ← plain_add U64 dispute_id 1;
  set_dispute_counter market_id next;;
  set_market {| market with pm_status := Disputed |};;
  publish (DisputeOpened market_id dispute_id challenger claimed_outcome stake_amount);;
  mret dispute_id.

Definition vote_dispute (voter : Address) (market_id dispute_id : Z) (support_challenger : bool) : C () :=
  require_auth voter;;
  o ← get_dispute market_id dispute_id;
  dispute ← expect o "Dispute not found";
  panic_if (bool_decide (di_status dispute ≠ Open) && bool_decide (di_status dispute ≠ Voted))
    "Dispute not open";;
  voted ← has_voted market_id dispute_id voter;
  panic_if voted "Already voted";;
  market ← unwrap_market market_id;
  weight ← foldM (λ weight i,
      balance ← get_outcome_balance market_id i voter;
      plain_add I128 weight balance) 0 (seqZ 0 (pm_num_outcomes market));
  panic_if (weight <=? 0) "No tokens to vote with";;
  set_vote market_id dispute_id voter weight;;
  dispute' ← (if support_challenger then
      v ← plain_add I128 (di_votes_for dispute) weight;
      mret {| dispute with di_votes_for := v |}
    else
      v ← plain_add I128 (di_votes_against dispute) weight;
      mret {| dispute with di_votes_against := v |});
  set_dispute {| dispute' with di_status := Voted |};;
  publish (DisputeVoteCast market_id dispute_id voter weight support_challenger).

Definition resolve_dispute (admin : Address) (market_id dispute_id : Z) : C () :=
  require_auth admin;;
  assert_admin admin;;
  o ← get_dispute market_id dispute_id;
  dispute ← expect o "Dispute not found";
  panic_if (bool_decide (di_status dispute = ResolvedUpheld)
    || bool_decide (di_status dispute = ResolvedRejected)) "Dispute already resolved";;
  t ← now;
  if di_votes_for dispute >? di_votes_against dispute then
    market ← unwrap_market market_id;
    set_market {| market with pm_resolved_outcome := Some (di_claimed_outcome dispute);
      pm_status := Resolved |};;
    contract_addr ← self_address;
    token_transfer (pm_collateral_token market) contract_addr (di_challenger dispute)
      (di_stake_amount dispute);;
    set_dispute {| dispute with di_status := ResolvedUpheld; di_resolved_at := Some t |};;
    publish (DisputeUpheld market_id dispute_id (di_claimed_outcome dispute) (di_stake_amount dispute))
  else
    market ← unwrap_market market_id;
    c ← get_governance_collector;
    (match c with
     | Some collector =>
         contract_addr ← self_address;
         token_transfer (pm_collateral_token market) contract_addr collector (di_stake_amount dispute)
     | None => mret tt
     end);;
    set_dispute {| dispute with di_status := ResolvedRejected; di_resolved_at := Some t |};;
    set_market {| market with pm_status := Resolved |};;
    publish (DisputeRejected market_id dispute_id (di_stake_amount dispute)).

(** ** Views *)

Definition query_market (market_id : Z) : C PredictionMarketV2 :=
  o ← get_market market_id; expect o "Market not found".
Definition query_outcome_pool (market_id outcome_index : Z) : C OutcomePool :=
  o ← get_outcome_pool market_id outcome_index; expect o "Outcome pool not found".
Definition query_user_balance (market_id outcome_index : Z) (user : Address) : C Z :=
  get_outcome_balance market_id outcome_index user.
Definition query_user_position (market_id outcome_index : Z) (user : Address)
    : C (option UserOutcomePosition) := get_user_position market_id outcome_index user.
Definition query_lp_shares (market_id : Z) (provider : Address) : C Z := get_lp_shares market_id provider.
Definition query_lp_total_supply (market_id : Z) : C Z := get_lp_total_supply market_id.
Definition query_outcome_price (market_id outcome_index : Z) : C Z :=
  o ← get_outcome_pool market_id outcome_index;
  pool ← expect o "Outcome pool not found";
  get_outcome_price (op_collateral_reserve pool) (op_outcome_reserve pool).
Definition query_total_outcome_supply (market_id outcome_index : Z) : C Z :=
  get_total_outcome_supply market_id outcome_index.
Definition query_order (market_id order_id : Z) : C LimitOrder :=
  o ← get_order market_id order_id; expect o "Order not found".
Definition query_dispute (market_id dispute_id : Z) : C Dispute :=
  o ← get_dispute market_id dispute_id; expect o "Dispute not found".
Definition query_market_collateral (market_id : Z) : C Z := get_market_collateral market_id.

(** ** Administration *)

Definition admin_pause_trading (admin : Address) : C () :=
  require_auth admin;;
  assert_admin admin;;
  set_trading_paused true;;
  t ← now;
  publish (trd_pause admin t).

Definition admin_resume_trading (admin : Address) : C () :=
  require_auth admin;;
  assert_admin admin;;
  set_trading_paused false;;
  t ← now;
  publish (trd_res admin t).

Definition admin_set_admin (current_admin new_admin : Address) : C () :=
  require_auth current_admin;;
  assert_admin current_admin;;
  set_admin new_admin;;
  publish (adm_set current_admin new_admin).

Definition admin_set_fee_config (admin collector : Address) (fee_share_bps : Z) : C () :=
  require_auth admin;;
  assert_admin admin;;
  panic_if (negb ((0 <=? fee_share_bps) && (fee_share_bps <=? 5000))) "Invalid fee config";;
  set_governance_collector collector;;
  set_fee_share_bps fee_share_bps.

Definition admin_set_oracle (admin oracle : Address) : C () :=
  require_auth admin;;
  assert_admin admin;;
  set_default_oracle oracle.

End contract.

(** ** The contract as a transaction system *)

Inductive Call :=
| CInitialize (admin oracle : Address)
| CCreateMarket (creator : Address) (params : CreateMarketParams)
| CResolveMarket (oracle : Address) (market_id outcome : Z)
| CCloseMarketEarly (caller : Address) (market_id : Z)
| CBuyOutcome (buyer : Address) (market_id outcome collateral_in min_out : Z)
| CSellOutcome (seller : Address) (market_id outcome amount min_out : Z)
| CAddLiquidity (provider : Address) (market_id outcome collateral outcomes : Z)
| CRemoveLiquidity (provider : Address) (market_id outcome lp_amount : Z)
| CPlaceOrder (owner : Address) (market_id outcome : Z) (side : OrderSide) (price quantity : Z)
| CCancelOrder (owner : Address) (market_id order_id : Z)
| CMatchSellOrder (seller : Address) (market_id order_id : Z)
| CRedeem (user : Address) (market_id : Z)
| COpenDispute (challenger : Address) (market_id outcome : Z) (evidence : string) (stake : Z)
| CVoteDispute (voter : Address) (market_id dispute_id : Z) (support : bool)
| CResolveDispute (admin : Address) (market_id dispute_id : Z)
| CPauseTrading (admin : Address)
| CResumeTrading (admin : Address)
| CSetAdmin (current_admin new_admin : Address)
| CSetFeeConfig (admin collector : Address) (bps : Z)
| CSetOracle (admin oracle : Address).

Definition exec `{TokenHost} (c : Call) : M State Empty_set Event () :=
  match c with
  | CInitialize admin oracle => initialize admin oracle
  | CCreateMarket creator params => discard (create_market creator params)
  | CResolveMarket oracle m o => resolve_market oracle m o
  | CCloseMarketEarly caller m => close_market_early caller m
  | CBuyOutcome buyer m o n min => discard (buy_outcome buyer m o n min)
  | CSellOutcome seller m o n min => discard (sell_outcome seller m o n min)
  | CAddLiquidity p m o c n => discard (add_liquidity p m o c n)
  | CRemoveLiquidity p m o n => discard (remove_liquidity p m o n)
  | CPlaceOrder owner m o side price q => discard (place_order owner m o side price q)
  | CCancelOrder owner m i => cancel_order owner m i
  | CMatchSellOrder seller m i => discard (match_sell_order seller m i)
  | CRedeem user m => discard (redeem_winning_tokens user m)
  | COpenDispute c m o ev stake => discard (open_dispute c m o ev stake)
  | CVoteDispute voter m d b => vote_dispute voter m d b
  | CResolveDispute admin m d => resolve_dispute admin m d
  | CPauseTrading admin => admin_pause_trading admin
  | CResumeTrading admin => admin_resume_trading admin
  | CSetAdmin a b => admin_set_admin a b
  | CSetFeeConfig a c bps => admin_set_fee_config a c bps
  | CSetOracle a o => admin_set_oracle a o
  end.

(** The unsigned arguments of a call are non-negative, by their Rust types. *)
Definition call_ok (c : Call) : Prop :=
  match c with
  | CCreateMarket _ params => 0 ≤ cp_trading_fee_bps params
  | CResolveMarket _ _ o => 0 ≤ o
  | COpenDispute _ _ o _ _ => 0 ≤ o
  | _ => True
  end.

Definition deployed : State :=
  mkState None None None None None None ∅ ∅ ∅ ∅ ∅ ∅ ∅ ∅ ∅ ∅ ∅ ∅ ∅ ∅ ∅.
