(* ===== verification/PredictionProofs.v ===== *)
(** * contracts/prediction-markets: invariants and theorems

    What the contract owes to pools, open orders and disputes against its
    balances, the constant-product trades, the life cycle of a market, and the
    tally of a dispute. *)

From stdpp Require Import gmap strings list fin_maps.
From S2P Require Import Prelude Soroban TokenModel AmmMath PredictionMath Prediction.
Open Scope Z_scope.

(** ** Liabilities *)

(** Market [m] trades in token [tk]. *)
Definition of_token (mk : gmap Z PredictionMarketV2) (tk : Address) (m : Z) : bool :=
  match mk !! m with Some x => bool_decide (pm_collateral_token x = tk) | None => false end.

(** The collateral an order still holds, and the stake of a dispute that is not
    resolved. *)
Definition lock_of (o : LimitOrder) : Z :=
  if bool_decide (lo_status o = OrderOpen) && bool_decide (lo_side o = Buy)
  then (lo_price o * (lo_quantity o - lo_filled_quantity o)) `quot` DECIMAL_FACTOR else 0.

Definition pending (d : Dispute) : bool :=
  bool_decide (di_status d = Open) || bool_decide (di_status d = Voted).

Definition stake_of (d : Dispute) : Z := if pending d then di_stake_amount d else 0.

Definition booked (mk : gmap Z PredictionMarketV2) (mc : gmap Z Z) (tk : Address) : Z :=
  msum (λ m c, if of_token mk tk m then c else 0) mc.
Definition locked (mk : gmap Z PredictionMarketV2) (od : gmap (Z * Z) LimitOrder) (tk : Address) : Z :=
  msum (λ k o, if of_token mk tk (fst k) then lock_of o else 0) od.
Definition staked (mk : gmap Z PredictionMarketV2) (ds : gmap (Z * Z) Dispute) (tk : Address) : Z :=
  msum (λ k d, if of_token mk tk (fst k) then stake_of d else 0) ds.

(** Everything owed in one token. *)
Definition owed_in (st : State) (tk : Address) : Z :=
  booked (Market st) (MarketCollateral st) tk + locked (Market st) (Order st) tk
  + staked (Market st) (DisputeAt st) tk.

(** The collateral in the pools of one market. *)
Definition reserves (pl : gmap (Z * Z) OutcomePool) (m : Z) : Z :=
  msum (λ k p, if bool_decide (fst k = m) then op_collateral_reserve p else 0) pl.

Lemma of_token_Some mk tk m x :
  mk !! m = Some x → of_token mk tk m = bool_decide (tk = pm_collateral_token x).
Proof. intros Hm. unfold of_token. rewrite Hm. apply bool_decide_ext. naive_solver. Qed.

Lemma of_token_insert mk tk m x x' m' :
  mk !! m = Some x → pm_collateral_token x' = pm_collateral_token x →
  of_token (<[m := x']> mk) tk m' = of_token mk tk m'.
Proof.
  intros Hm Ht. unfold of_token. rewrite lookup_insert. case_decide; subst; [|done]. by rewrite Hm, Ht.
Qed.

Lemma booked_insert mk mc tk m x n :
  mk !! m = Some x →
  booked mk (<[m := n]> mc) tk =
    booked mk mc tk + (if bool_decide (tk = pm_collateral_token x) then n - default 0 (mc !! m) else 0).
Proof.
  intros Hm. unfold booked. rewrite msum_insert, (of_token_Some _ _ _ x) by done.
  destruct (mc !! m); simpl; case_bool_decide; rewrite ?(of_token_Some _ _ _ x) by done; lia.
Qed.

Lemma locked_insert mk od tk m i x o :
  mk !! m = Some x →
  locked mk (<[(m, i) := o]> od) tk =
    locked mk od tk + (if bool_decide (tk = pm_collateral_token x)
                       then lock_of o - from_option lock_of 0 (od !! (m, i)) else 0).
Proof.
  intros Hm. unfold locked. rewrite msum_insert. cbn [fst]. rewrite (of_token_Some _ _ _ x) by done.
  destruct (od !! (m, i)); simpl; case_bool_decide; lia.
Qed.

Lemma staked_insert mk ds tk m i x d :
  mk !! m = Some x →
  staked mk (<[(m, i) := d]> ds) tk =
    staked mk ds tk + (if bool_decide (tk = pm_collateral_token x)
                       then stake_of d - from_option stake_of 0 (ds !! (m, i)) else 0).
Proof.
  intros Hm. unfold staked. rewrite msum_insert. cbn [fst]. rewrite (of_token_Some _ _ _ x) by done.
  destruct (ds !! (m, i)); simpl; case_bool_decide; lia.
Qed.

Lemma reserves_insert pl m i p m' :
  reserves (<[(m, i) := p]> pl) m' =
    reserves pl m' + (if bool_decide (m' = m)
      then op_collateral_reserve p - from_option op_collateral_reserve 0 (pl !! (m, i)) else 0).
Proof.
  unfold reserves. rewrite msum_insert. destruct (pl !! (m, i)); simpl;
    repeat case_bool_decide; simplify_eq/=; naive_solver lia.
Qed.

(** ** Well-formedness *)

Definition market_counter (st : State) : Z := default 0 (MarketCounter st).

Record market_ok (counter m : Z) (x : PredictionMarketV2) : Prop := {
  mo_id : pm_market_id x = m;
  mo_range : 0 ≤ m < counter;
  mo_outcomes : 2 ≤ pm_num_outcomes x ≤ MAX_OUTCOMES;
  mo_fee : 0 ≤ pm_trading_fee_bps x ≤ MAX_TRADING_FEE_BPS;
  mo_outcome o : pm_resolved_outcome x = Some o → 0 ≤ o < pm_num_outcomes x;
  mo_resolved : pm_status x = Resolved ∨ pm_status x = Disputed → is_Some (pm_resolved_outcome x);
}.

Record order_ok (k : Z * Z) (next : Z) (o : LimitOrder) : Prop := {
  ok_key : (lo_market_id o, lo_order_id o) = k;
  ok_next : 0 ≤ snd k < next;
  ok_price : 0 < lo_price o;
  ok_fill : 0 ≤ lo_filled_quantity o ≤ lo_quantity o;
  ok_open : lo_status o = OrderOpen → lo_filled_quantity o < lo_quantity o;
}.

Record dispute_ok (x : PredictionMarketV2) (k : Z * Z) (next : Z) (d : Dispute) : Prop := {
  dk_key : (di_market_id d, di_dispute_id d) = k;
  dk_next : 0 ≤ snd k < next;
  dk_stake : 0 < di_stake_amount d;
  dk_outcome : 0 ≤ di_claimed_outcome d < pm_num_outcomes x;
  dk_resolved : is_Some (pm_resolved_outcome x);
}.

Record wf (st : State) : Prop := {
  wf_market m x : Market st !! m = Some x → market_ok (market_counter st) m x;
  wf_pool m i p : OutcomePoolAt st !! (m, i) = Some p → is_Some (Market st !! m);
  wf_collateral m c : MarketCollateral st !! m = Some c → is_Some (Market st !! m);
  wf_order k o : Order st !! k = Some o →
    is_Some (Market st !! fst k) ∧ order_ok k (default 0 (OrderCounter st !! fst k)) o;
  wf_dispute k d : DisputeAt st !! k = Some d →
    ∃ x, Market st !! fst k = Some x ∧ dispute_ok x k (default 0 (DisputeCounter st !! fst k)) d;
  wf_next m : 0 ≤ default 0 (OrderCounter st !! m) ∧ 0 ≤ default 0 (DisputeCounter st !! m);
  wf_balance k n : OutcomeBalance st !! k = Some n → 0 < n;
  wf_counter : 0 ≤ market_counter st;
  wf_reserves m : reserves (OutcomePoolAt st) m ≤ default 0 (MarketCollateral st !! m);
}.

(** What a set balance leaves in the map. *)
Definition put_balance (b : gmap (Z * Z * Address) Z) (k : Z * Z * Address) (n : Z)
    : gmap (Z * Z * Address) Z := if n <=? 0 then delete k b else <[k := n]> b.

Lemma put_balance_pos b k n k' n' :
  (∀ k n, b !! k = Some n → 0 < n) → put_balance b k n !! k' = Some n' → 0 < n'.
Proof.
  intros Hb. unfold put_balance. destruct (n <=? 0) eqn:Hn; zbool.
  - intros [_ Hk]%lookup_delete_Some. eauto.
  - intros [[_ <-]|[_ Hk]]%lookup_insert_Some; [done|eauto].
Qed.

Section inv.
Context `{TokenHost} (self : Address).
Implicit Types (w : World State Event) (e : Env).

(** The contract's balances cover what it owes and [slack] on top. *)
Definition inv (slack : Address → Z) (w : World State Event) : Prop :=
  wf (store w) ∧ ∀ tk, owed_in (store w) tk + slack tk ≤ tok_balance (ledger w) tk self.

Definition none : Address → Z := λ _, 0.
Definition only (tk : Address) (n : Z) : Address → Z := λ tk', if bool_decide (tk' = tk) then n else 0.

(** *** The moves *)

(** Collateral enters or leaves one pool; the market's books move by [b]. *)
Lemma pool_move_inv w st' l' slack m i x p p' b bal :
  inv slack w → Market (store w) !! m = Some x → OutcomePoolAt (store w) !! (m, i) = Some p →
  op_collateral_reserve p' - op_collateral_reserve p ≤ b →
  (∀ k n, bal !! k = Some n → 0 < n) →
  (∀ tk, tok_balance (ledger w) tk self + (if bool_decide (tk = pm_collateral_token x) then b else 0)
     ≤ tok_balance l' tk self) →
  Market st' = Market (store w) → MarketCounter st' = MarketCounter (store w) →
  OutcomePoolAt st' = <[(m, i) := p']> (OutcomePoolAt (store w)) →
  MarketCollateral st' = <[m := default 0 (MarketCollateral (store w) !! m) + b]> (MarketCollateral (store w)) →
  Order st' = Order (store w) → DisputeAt st' = DisputeAt (store w) →
  OrderCounter st' = OrderCounter (store w) → DisputeCounter st' = DisputeCounter (store w) →
  OutcomeBalance st' = bal → Admin st' = Admin (store w) →
  ∀ lg, inv slack (mkWorld st' l' lg).
Proof.
  intros [Hw Hc] Hx Hp Hle Hbal Hbl E1 E2 E3 E4 E5 E6 E7 E8 E9 E10 lg. split; cbn.
  - split; unfold market_counter; rewrite ?E1, ?E2, ?E3, ?E4, ?E5, ?E6, ?E7, ?E8, ?E9, ?E10; try apply Hw; try done.
    + intros m' i' q [[? <-]|[_ Hq]]%lookup_insert_Some; [by simplify_eq|]. by eapply wf_pool.
    + intros m' c [[<- _]|[_ Hq]]%lookup_insert_Some; [done|]. by eapply wf_collateral.
    + intros m'. pose proof (wf_reserves _ Hw m') as Hres. rewrite reserves_insert, Hp.
      destruct (decide (m' = m)) as [->|Hne].
      * rewrite bool_decide_eq_true_2, lookup_insert_eq by done. simpl in *. lia.
      * rewrite bool_decide_eq_false_2, lookup_insert_ne by done. lia.
  - intros tk. specialize (Hc tk). specialize (Hbl tk). unfold owed_in in *. rewrite E1, E4, E5, E6.
    rewrite (booked_insert _ _ _ _ x) by done. case_bool_decide; lia.
Qed.

(** An order is written; its lock and the slack change by what the balance does. *)
Lemma order_move_inv w st' l' slack slack' m i x o' :
  inv slack w → Market (store w) !! m = Some x →
  order_ok (m, i) (default 0 (OrderCounter st' !! m)) o' →
  (∀ m', default 0 (OrderCounter (store w) !! m') ≤ default 0 (OrderCounter st' !! m')) →
  (∀ k n, OutcomeBalance st' !! k = Some n → 0 < n) →
  (∀ tk, tok_balance (ledger w) tk self - slack tk + slack' tk
     + (if bool_decide (tk = pm_collateral_token x)
        then lock_of o' - from_option lock_of 0 (Order (store w) !! (m, i)) else 0)
     ≤ tok_balance l' tk self) →
  Market st' = Market (store w) → MarketCounter st' = MarketCounter (store w) →
  OutcomePoolAt st' = OutcomePoolAt (store w) → MarketCollateral st' = MarketCollateral (store w) →
  Order st' = <[(m, i) := o']> (Order (store w)) → DisputeAt st' = DisputeAt (store w) →
  DisputeCounter st' = DisputeCounter (store w) → Admin st' = Admin (store w) →
  ∀ lg, inv slack' (mkWorld st' l' lg).
Proof.
  intros [Hw Hc] Hx Ho Hnext Hbal Hbl E1 E2 E3 E4 E5 E6 E7 E8 lg. split; cbn.
  - split; unfold market_counter; rewrite ?E1, ?E2, ?E3, ?E4, ?E5, ?E6, ?E7, ?E8; try apply Hw; try done.
    + intros k o [[<- <-]|[_ Hq]]%lookup_insert_Some; [by split|].
      destruct (wf_order _ Hw _ _ Hq) as [Hm [H1 H2 H3 H4 H5]]. split; [done|].
      specialize (Hnext (fst k)). split; [done|lia|done..].
    + intros m'. destruct (wf_next _ Hw m'). specialize (Hnext m'). lia.
  - intros tk. specialize (Hc tk). specialize (Hbl tk). unfold owed_in in *. rewrite E1, E4, E5, E6.
    rewrite (locked_insert _ _ _ _ _ x) by done. case_bool_decide; lia.
Qed.

(** *** Writing a market record *)

Record same_market (x x' : PredictionMarketV2) : Prop := {
  sm_id : pm_market_id x' = pm_market_id x;
  sm_token : pm_collateral_token x' = pm_collateral_token x;
  sm_num : pm_num_outcomes x' = pm_num_outcomes x;
  sm_resolved : is_Some (pm_resolved_outcome x) → is_Some (pm_resolved_outcome x');
}.

Lemma liabilities_rewrite mk mc od ds m x x' tk :
  mk !! m = Some x → pm_collateral_token x' = pm_collateral_token x →
  booked (<[m := x']> mk) mc tk = booked mk mc tk ∧ locked (<[m := x']> mk) od tk = locked mk od tk ∧
  staked (<[m := x']> mk) ds tk = staked mk ds tk.
Proof.
  intros Hm Ht. split_and!; apply msum_ext; intros; by rewrite (of_token_insert _ _ _ x).
Qed.

(** A dispute and the record of its market are written together. *)
Lemma dispute_move_inv w st' l' slack m i x x' d' :
  inv slack w → Market (store w) !! m = Some x → same_market x x' →
  market_ok (market_counter (store w)) m x' →
  dispute_ok x' (m, i) (default 0 (DisputeCounter st' !! m)) d' →
  (∀ m', default 0 (DisputeCounter (store w) !! m') ≤ default 0 (DisputeCounter st' !! m')) →
  (∀ tk, tok_balance (ledger w) tk self
     + (if bool_decide (tk = pm_collateral_token x)
        then stake_of d' - from_option stake_of 0 (DisputeAt (store w) !! (m, i)) else 0)
     ≤ tok_balance l' tk self) →
  Market st' = <[m := x']> (Market (store w)) → MarketCounter st' = MarketCounter (store w) →
  OutcomePoolAt st' = OutcomePoolAt (store w) → MarketCollateral st' = MarketCollateral (store w) →
  Order st' = Order (store w) → DisputeAt st' = <[(m, i) := d']> (DisputeAt (store w)) →
  OrderCounter st' = OrderCounter (store w) → OutcomeBalance st' = OutcomeBalance (store w) →
  Admin st' = Admin (store w) → ∀ lg, inv slack (mkWorld st' l' lg).
Proof.
  intros [Hw Hc] Hx Hs Hok Hd Hnext Hbl E1 E2 E3 E4 E5 E6 E7 E8 E9 lg. split; cbn.
  - split; unfold market_counter; rewrite ?E1, ?E2, ?E3, ?E4, ?E5, ?E6, ?E7, ?E8, ?E9; try apply Hw; try done.
    + intros m' y [[<- <-]|[_ Hy]]%lookup_insert_Some; [done|]. by apply (wf_market _ Hw).
    + intros m' i' p Hp. apply is_Some_insert. by eapply wf_pool.
    + intros m' c Hp. apply is_Some_insert. by eapply wf_collateral.
    + intros k o Ho. destruct (wf_order _ Hw _ _ Ho) as [Hm Hok']. split; [by apply is_Some_insert|done].
    + intros k d [[<- <-]|[_ Hq]]%lookup_insert_Some; [exists x'; by rewrite lookup_insert_eq|].
      destruct (wf_dispute _ Hw _ _ Hq) as (y & Hy & [H1 H2 H3 H4 H5]). specialize (Hnext (fst k)).
      destruct (decide (m = fst k)) as [->|Hne].
      * exists x'. rewrite lookup_insert_eq. split; [done|]. simplify_eq.
        split; [done|lia|done|by rewrite (sm_num _ _ Hs)|by apply Hs].
      * exists y. rewrite lookup_insert_ne by done. split; [done|]. split; [done|lia|done..].
    + intros m'. destruct (wf_next _ Hw m'). specialize (Hnext m'). lia.
  - intros tk. specialize (Hc tk). specialize (Hbl tk). unfold owed_in in *. rewrite E1, E4, E5, E6.
    destruct (liabilities_rewrite (Market (store w)) (MarketCollateral (store w)) (Order (store w))
      (<[(m, i) := d']> (DisputeAt (store w))) m x x' tk Hx (sm_token _ _ Hs)) as (-> & -> & ->).
    rewrite (staked_insert _ _ _ _ _ x) by done. case_bool_decide; lia.
Qed.

(** A market record alone is written. *)
Lemma market_move_inv w st' slack m x x' :
  inv slack w → Market (store w) !! m = Some x → same_market x x' →
  market_ok (market_counter (store w)) m x' →
  Market st' = <[m := x']> (Market (store w)) → MarketCounter st' = MarketCounter (store w) →
  OutcomePoolAt st' = OutcomePoolAt (store w) → MarketCollateral st' = MarketCollateral (store w) →
  Order st' = Order (store w) → DisputeAt st' = DisputeAt (store w) →
  OrderCounter st' = OrderCounter (store w) → DisputeCounter st' = DisputeCounter (store w) →
  OutcomeBalance st' = OutcomeBalance (store w) → Admin st' = Admin (store w) →
  ∀ lg, inv slack (mkWorld st' (ledger w) lg).
Proof.
  intros [Hw Hc] Hx Hs Hok E1 E2 E3 E4 E5 E6 E7 E8 E9 E10 lg. split; cbn.
  - split; unfold market_counter; rewrite ?E1, ?E2, ?E3, ?E4, ?E5, ?E6, ?E7, ?E8, ?E9, ?E10; try apply Hw; try done.
    + intros m' y [[<- <-]|[_ Hy]]%lookup_insert_Some; [done|]. by apply (wf_market _ Hw).
    + intros m' i' p Hp. apply is_Some_insert. by eapply wf_pool.
    + intros m' c Hp. apply is_Some_insert. by eapply wf_collateral.
    + intros k o Ho. destruct (wf_order _ Hw _ _ Ho) as [Hm Hok']. split; [by apply is_Some_insert|done].
    + intros k d Hq. destruct (wf_dispute _ Hw _ _ Hq) as (y & Hy & [H1 H2 H3 H4 H5]).
      destruct (decide (m = fst k)) as [->|Hne].
      * exists x'. rewrite lookup_insert_eq. simplify_eq. split; [done|].
        split; [done..|by rewrite (sm_num _ _ Hs)|by apply Hs].
      * exists y. rewrite lookup_insert_ne by done. by split.
  - intros tk. specialize (Hc tk). unfold owed_in in *. rewrite E1, E4, E5, E6.
    by destruct (liabilities_rewrite (Market (store w)) (MarketCollateral (store w)) (Order (store w))
      (DisputeAt (store w)) m x x' tk Hx (sm_token _ _ Hs)) as (-> & -> & ->).
Qed.
End inv.

(** ** What the helpers do *)

Section helpers.
Context `{TokenHost}.
Implicit Types (w : World State Event) (e : Env).

Local Abbreviation C := (M State Empty_set Event).

Lemma isqrt_loop_reads R fuel n x y : reads R (isqrt_loop fuel n x y : C Z).
Proof.
  revert x y. induction fuel as [|fuel IH]; intros x y; cbn [isqrt_loop]; eauto 10 with contracts.
Qed.

Lemma prediction_isqrt_reads R n : reads R (isqrt n : C Z).
Proof.
  unfold isqrt, AmmMath.isqrt. apply reads_bind; [apply reads_panic_if|]. intros _.
  apply reads_if; [apply reads_ret|]. apply reads_bind; [apply reads_plain_add|]. intros s.
  apply reads_bind; [apply reads_plain_div|]. intros y. apply isqrt_loop_reads.
Qed.

Lemma buy_amount_reads R a b c d : reads R (calculate_buy_amount a b c d : C Z).
Proof. unfold calculate_buy_amount. eauto 12 with contracts. Qed.

Lemma sell_amount_reads R a b c d : reads R (calculate_sell_amount a b c d : C Z).
Proof. unfold calculate_sell_amount. eauto 14 with contracts. Qed.

Lemma lp_shares_reads R a b p : reads R (calculate_lp_shares_add a b p : C Z).
Proof. unfold calculate_lp_shares_add. pose proof (prediction_isqrt_reads R). eauto 12 with contracts. Qed.

Lemma prediction_assert_admin_spec a e w u w' :
  assert_admin a e w = Ok (u, w') → Admin (store w) = Some a ∧ w' = w.
Proof. intros Hr. unfold assert_admin, get_admin in Hr. minv Hr. zbool. by subst. Qed.

Lemma unwrap_market_spec m e w x w' :
  unwrap_market m e w = Ok (x, w') → Market (store w) !! m = Some x ∧ w' = w.
Proof. intros Hr. unfold unwrap_market, get_market in Hr. by minv Hr. Qed.

Lemma trading_active_spec m e w u w' :
  assert_trading_active m e w = Ok (u, w') →
  (∃ x, Market (store w) !! m = Some x ∧ pm_status x = Active) ∧ TradingPaused (store w) ≠ Some true ∧ w' = w.
Proof.
  intros Hr. unfold assert_trading_active, is_trading_paused, get_market in Hr. minv Hr. zbool.
  split_and!; [by eexists|by destruct (TradingPaused (store w)) as [[]|]|done].
Qed.

Lemma market_active_spec m e w u w' :
  assert_market_active m e w = Ok (u, w') →
  (∃ x, Market (store w) !! m = Some x ∧ pm_status x = Active) ∧ w' = w.
Proof. intros Hr. unfold assert_market_active, get_market in Hr. minv Hr. zbool. by split; [eexists|]. Qed.

(** The positions are bookkeeping of their own. *)
Definition with_positions (w : World State Event) up : World State Event :=
  {| w with store := {| (store w) with UserPosition := up |} |}.

Lemma average_price_reads R c q : reads R (average_price c q).
Proof. unfold average_price. eauto with contracts. Qed.

Lemma update_position_spec m i u q c e w r w' :
  update_position m i u q c e w = Ok (r, w') → ∃ up, w' = with_positions w up.
Proof.
  intros Hr. unfold update_position, get_user_position, set_user_position in Hr.
  apply bind_Ok in Hr as (t & w0 & Ht & Hr). minv Ht. apply bind_Ok in Hr as (o & w0 & Ho & Hr). minv Ho.
  apply bind_Ok in Hr as (p & w0 & Hp & Hr).
  assert (w0 = w) as ->.
  { eapply reads_pure; [|exact Hp]. pose proof (average_price_reads eq). apply reads_option; eauto 10 with contracts. }
  minv Hr. by eexists.
Qed.

Lemma update_position_on_sell_spec m i u q c p e w r w' :
  update_position_on_sell m i u q c p e w = Ok (r, w') → ∃ up, w' = with_positions w up.
Proof.
  intros Hr. unfold update_position_on_sell, get_user_position, set_user_position in Hr.
  apply bind_Ok in Hr as (t & w0 & Ht & Hr). minv Ht. apply bind_Ok in Hr as (o & w0 & Ho & Hr). minv Ho.
  apply bind_Ok in Hr as (p' & w0 & Hp & Hr).
  assert (w0 = w) as -> by (eapply reads_pure; [|exact Hp]; apply reads_option; eauto 10 with contracts).
  minv Hr; by eexists.
Qed.
End helpers.

(** ** Trades *)

(** The net collateral of a purchase, after the fee. *)
Definition net_of (n fee : Z) : Z := (n * (10000 - fee)) `div` 10000.

Definition bought (x y net : Z) : Z := (y * net) `div` (x + net).

Definition sold_for (x y a fee : Z) : Z :=
  ((x - (x * y) `div` (y + a)) * (10000 - fee)) `div` 10000.

Lemma net_of_bounds n fee : 0 ≤ n → 0 ≤ fee ≤ 500 → 0 ≤ net_of n fee ≤ n.
Proof.
  intros Hn Hf. unfold net_of. split; [apply Z.div_pos; nia|]. apply div_le_of_le_mul; nia.
Qed.

(** A purchase takes less than the reserve and keeps the product. *)
Lemma bought_product x y net :
  0 < x → 0 < y → 0 < net → 0 ≤ bought x y net < y ∧ x * y ≤ (x + net) * (y - bought x y net).
Proof.
  intros Hx Hy Hn. unfold bought.
  pose proof (Z.div_mod (y * net) (x + net) ltac:(lia)). pose proof (Z.mod_pos_bound (y * net) (x + net) ltac:(lia)).
  assert (0 ≤ (y * net) `div` (x + net)) by (apply Z.div_pos; nia).
  assert ((y * net) `div` (x + net) < y) by (apply Z.div_lt_upper_bound; nia). nia.
Qed.

(** A sale pays at most what the pool can give up; the product may shrink, by
    less than the new outcome reserve. *)
Lemma sold_for_bounds x y a fee :
  0 < x → 0 < y → 0 < a → 0 ≤ fee ≤ 500 →
  0 ≤ sold_for x y a fee ≤ x - (x * y) `div` (y + a) ∧
  x * y - (y + a) < (x - sold_for x y a fee) * (y + a).
Proof.
  intros Hx Hy Ha Hf. unfold sold_for. set (q := (x * y) `div` (y + a)).
  pose proof (Z.div_mod (x * y) (y + a) ltac:(lia)) as Hdm. fold q in Hdm.
  pose proof (Z.mod_pos_bound (x * y) (y + a) ltac:(lia)) as Hm.
  assert (0 ≤ q) by (apply Z.div_pos; nia). assert (q ≤ x) by (apply div_le_of_le_mul; nia).
  assert (0 ≤ ((x - q) * (10000 - fee)) `div` 10000 ≤ x - q) as Hout.
  { split; [apply Z.div_pos; nia|]. apply div_le_of_le_mul; nia. }
  split; [done|]. nia.
Qed.

Section trades.
Context `{TokenHost}.

Lemma buy_amount_spec n x y fee e (w : World State Event) r w' :
  (calculate_buy_amount n x y fee : M State Empty_set Event Z) e w = Ok (r, w') → 0 < r → 0 ≤ fee ≤ 500 →
  0 < n ∧ 0 < x ∧ 0 < y ∧ 0 < net_of n fee ∧ r = bought x y (net_of n fee).
Proof.
  intros Hr Hpos Hf. unfold calculate_buy_amount in Hr.
  destruct (n <=? 0) eqn:H1; cbn [orb] in Hr; [minv Hr; lia|].
  destruct (x <=? 0) eqn:H2; cbn [orb] in Hr; [minv Hr; lia|].
  destruct (y <=? 0) eqn:H3; [minv Hr; lia|]. zbool.
  apply bind_Ok in Hr as (ff & w0 & Hff & Hr). minv Hff. apply bind_Ok in Hr as (p & w0 & Hp & Hr). minv Hp.
  apply bind_Ok in Hr as (net & w0 & Hnet & Hr). minv Hnet. arith.
  rewrite Z.quot_div_nonneg in * by nia. fold (net_of n fee) in *.
  destruct (_ <=? 0) eqn:H4; zbool; [minv Hr; lia|]. minv Hr. arith.
  rewrite Z.quot_div_nonneg by nia. done.
Qed.

Lemma sell_amount_spec a x y fee e (w : World State Event) r w' :
  (calculate_sell_amount a x y fee : M State Empty_set Event Z) e w = Ok (r, w') → 0 < r → 0 ≤ fee ≤ 500 →
  0 < a < y ∧ 0 < x ∧ 0 < y ∧ r = sold_for x y a fee.
Proof.
  intros Hr Hpos Hf. unfold calculate_sell_amount in Hr.
  destruct (a <=? 0) eqn:H1; cbn [orb] in Hr; [minv Hr; lia|].
  destruct (x <=? 0) eqn:H2; cbn [orb] in Hr; [minv Hr; lia|].
  destruct (y <=? 0) eqn:H3; [minv Hr; lia|]. destruct (a >=? y) eqn:H4; [minv Hr; lia|]. zbool.
  minv Hr. arith. rewrite (Z.quot_div_nonneg (x * y)) by nia.
  assert ((x * y) `div` (y + a) ≤ x) by (apply div_le_of_le_mul; nia).
  rewrite Z.quot_div_nonneg by nia. done.
Qed.
End trades.

(** ** What the operations do *)

Section ops.
Context `{TokenHost} `{!TokenLaws} (self : Address).
Implicit Types (w : World State Event) (e : Env).

(** The storage after a purchase of [out] for [n]. *)
Definition after_buy (st : State) (b : Address) (m i n net out : Z) (p : OutcomePool) up : State :=
  {| st with
     OutcomePoolAt := <[(m, i) := {| p with op_collateral_reserve := op_collateral_reserve p + net;
                                     op_outcome_reserve := op_outcome_reserve p - out |}]> (OutcomePoolAt st);
     OutcomeBalance := put_balance (OutcomeBalance st) (m, i, b)
                         (default 0 (OutcomeBalance st !! (m, i, b)) + out);
     TotalOutcomeSupply := <[(m, i) := default 0 (TotalOutcomeSupply st !! (m, i)) + out]> (TotalOutcomeSupply st);
     UserPosition := up;
     MarketCollateral := <[m := default 0 (MarketCollateral st !! m) + n]> (MarketCollateral st) |}.

Lemma buy_outcome_spec b m i n min e w out w' :
  buy_outcome b m i n min e w = Ok (out, w') → wf (store w) →
  authorized e b = true ∧ 0 < n ∧ min ≤ out ∧ 0 < out ∧
  ∃ x p up, Market (store w) !! m = Some x ∧ pm_status x = Active ∧ i < pm_num_outcomes x ∧
    OutcomePoolAt (store w) !! (m, i) = Some p ∧
    0 < op_collateral_reserve p ∧ 0 < op_outcome_reserve p ∧ 0 < net_of n (pm_trading_fee_bps x) ∧
    (calculate_buy_amount n (op_collateral_reserve p) (op_outcome_reserve p) (pm_trading_fee_bps x)
       : M State Empty_set Event Z) e w = Ok (out, w) ∧
    out = bought (op_collateral_reserve p) (op_outcome_reserve p) (net_of n (pm_trading_fee_bps x)) ∧
    default 0 (TotalOutcomeSupply (store w) !! (m, i)) + out ≤ pm_max_outcome_supply x ∧
    tok_transfer e (ledger w) (pm_collateral_token x) b (current_contract_address e) n = Some (ledger w') ∧
    store w' = after_buy (store w) b m i n (net_of n (pm_trading_fee_bps x)) out p up.
Proof.
  intros Hr Hw. unfold buy_outcome, get_outcome_pool, get_total_outcome_supply, set_outcome_pool,
    get_outcome_balance, set_outcome_balance, set_total_outcome_supply, get_market_collateral,
    set_market_collateral in Hr.
  apply bind_Ok in Hr as ([] & w0 & Ha & Hr). minv Ha. split; [done|].
  apply bind_Ok in Hr as ([] & w0 & Hact & Hr). apply trading_active_spec in Hact as ((x & Hx & Hst) & _ & ->).
  apply bind_Ok in Hr as ([] & w0 & Hn & Hr). minv Hn. zbool. split; [done|].
  apply bind_Ok in Hr as (x' & w0 & Hx' & Hr). apply unwrap_market_spec in Hx' as [Hx' ->]. simplify_eq.
  apply bind_Ok in Hr as ([] & w0 & Hi & Hr). minv Hi. zbool.
  apply bind_Ok in Hr as (o & w0 & Ho & Hr). minv Ho. apply bind_Ok in Hr as (p & w0 & Hp & Hr). minv Hp.
  apply bind_Ok in Hr as (x' & w0 & Hx' & Hr). apply unwrap_market_spec in Hx' as [Hx' ->]. simplify_eq.
  apply bind_Ok in Hr as (sup & w0 & Hsup & Hr). minv Hsup.
  apply bind_Ok in Hr as (r & w0 & Hout & Hr). pose proof (reads_pure _ _ _ _ _ (buy_amount_reads _ _ _ _ _) Hout) as ->.
  apply bind_Ok in Hr as ([] & w0 & Hpos & Hr). minv Hpos. zbool.
  pose proof (mo_fee _ _ _ (wf_market _ Hw _ _ Hx)) as Hfee. unfold MAX_TRADING_FEE_BPS in Hfee.
  destruct (buy_amount_spec _ _ _ _ _ _ _ _ Hout ltac:(lia) Hfee) as (_ & Hc & Hy & Hnet & Hr0).
  apply bind_Ok in Hr as ([] & w0 & Hmin & Hr). minv Hmin. zbool.
  apply bind_Ok in Hr as (sup' & w0 & Hsup & Hr). minv Hsup. apply bind_Ok in Hr as ([] & w0 & Hcap & Hr). minv Hcap.
  arith. apply bind_Ok in Hr as (a & w0 & Hself & Hr). minv Hself.
  apply bind_Ok in Hr as ([] & w0 & Htr & Hr). apply token_transfer_Ok in Htr as (l' & Htr & ->).
  apply bind_Ok in Hr as (ff & w0 & Hff & Hr). minv Hff. apply bind_Ok in Hr as (pr & w0 & Hpr & Hr). minv Hpr.
  apply bind_Ok in Hr as (net & w0 & Hnt & Hr). minv Hnt. arith.
  rewrite Z.quot_div_nonneg in Hr by nia. fold (net_of n (pm_trading_fee_bps x)) in Hr.
  apply bind_Ok in Hr as (nc & w0 & Hnc & Hr). minv Hnc. apply bind_Ok in Hr as (no & w0 & Hno & Hr). minv Hno. arith.
  apply bind_Ok in Hr as ([] & w0 & Hs & Hr). minv Hs. apply bind_Ok in Hr as (pb & w0 & Hpb & Hr). minv Hpb.
  apply bind_Ok in Hr as (nb & w0 & Hnb & Hr). minv Hnb. arith.
  apply bind_Ok in Hr as ([] & w0 & Hs & Hr). minv Hs. apply bind_Ok in Hr as ([] & w0 & Hs & Hr). minv Hs.
  apply bind_Ok in Hr as ([] & w0 & Hup & Hr). apply update_position_spec in Hup as (up & ->).
  minv Hr. arith. split_and!; [lia|lia|]. exists x, p, up. split_and!; try done; lia.
Qed.

(** The storage after a sale of [a] for [out]. *)
Definition after_sell (st : State) (b : Address) (m i a out : Z) (p : OutcomePool) up : State :=
  {| st with
     OutcomePoolAt := <[(m, i) := {| p with op_collateral_reserve := op_collateral_reserve p - out;
                                     op_outcome_reserve := op_outcome_reserve p + a |}]> (OutcomePoolAt st);
     OutcomeBalance := put_balance (OutcomeBalance st) (m, i, b)
                         (default 0 (OutcomeBalance st !! (m, i, b)) - a);
     TotalOutcomeSupply := <[(m, i) := default 0 (TotalOutcomeSupply st !! (m, i)) - a]> (TotalOutcomeSupply st);
     UserPosition := up;
     MarketCollateral := <[m := default 0 (MarketCollateral st !! m) - out]> (MarketCollateral st) |}.

Lemma sell_outcome_spec b m i a min e w out w' :
  sell_outcome b m i a min e w = Ok (out, w') → wf (store w) →
  authorized e b = true ∧ 0 < a ∧ min ≤ out ∧ 0 < out ∧
  ∃ x p up, Market (store w) !! m = Some x ∧ pm_status x = Active ∧ i < pm_num_outcomes x ∧
    OutcomePoolAt (store w) !! (m, i) = Some p ∧ a ≤ default 0 (OutcomeBalance (store w) !! (m, i, b)) ∧
    0 < op_collateral_reserve p ∧ a < op_outcome_reserve p ∧
    (calculate_sell_amount a (op_collateral_reserve p) (op_outcome_reserve p) (pm_trading_fee_bps x)
       : M State Empty_set Event Z) e w = Ok (out, w) ∧
    out = sold_for (op_collateral_reserve p) (op_outcome_reserve p) a (pm_trading_fee_bps x) ∧
    tok_transfer e (ledger w) (pm_collateral_token x) (current_contract_address e) b out = Some (ledger w') ∧
    store w' = after_sell (store w) b m i a out p up.
Proof.
  intros Hr Hw. unfold sell_outcome, get_outcome_pool, get_total_outcome_supply, set_outcome_pool,
    get_outcome_balance, set_outcome_balance, set_total_outcome_supply, get_market_collateral,
    set_market_collateral, get_user_position in Hr.
  apply bind_Ok in Hr as ([] & w0 & Ha & Hr). minv Ha. split; [done|].
  apply bind_Ok in Hr as ([] & w0 & Hact & Hr). apply trading_active_spec in Hact as ((x & Hx & Hst) & _ & ->).
  apply bind_Ok in Hr as ([] & w0 & Hn & Hr). minv Hn. zbool. split; [done|].
  apply bind_Ok in Hr as (x' & w0 & Hx' & Hr). apply unwrap_market_spec in Hx' as [Hx' ->]. simplify_eq.
  apply bind_Ok in Hr as ([] & w0 & Hi & Hr). minv Hi. zbool.
  apply bind_Ok in Hr as (ub & w0 & Hub & Hr). minv Hub. apply bind_Ok in Hr as ([] & w0 & Hge & Hr). minv Hge. zbool.
  apply bind_Ok in Hr as (o & w0 & Ho & Hr). minv Ho. apply bind_Ok in Hr as (p & w0 & Hp & Hr). minv Hp.
  apply bind_Ok in Hr as (x' & w0 & Hx' & Hr). apply unwrap_market_spec in Hx' as [Hx' ->]. simplify_eq.
  apply bind_Ok in Hr as (r & w0 & Hout & Hr). pose proof (reads_pure _ _ _ _ _ (sell_amount_reads _ _ _ _ _) Hout) as ->.
  apply bind_Ok in Hr as ([] & w0 & Hpos & Hr). minv Hpos. zbool.
  pose proof (mo_fee _ _ _ (wf_market _ Hw _ _ Hx)) as Hfee. unfold MAX_TRADING_FEE_BPS in Hfee.
  destruct (sell_amount_spec _ _ _ _ _ _ _ _ Hout ltac:(lia) Hfee) as (Hlt & Hc & _ & Hr0).
  apply bind_Ok in Hr as ([] & w0 & Hmin & Hr). minv Hmin. zbool.
  apply bind_Ok in Hr as (nc & w0 & Hnc & Hr). minv Hnc. apply bind_Ok in Hr as (no & w0 & Hno & Hr). minv Hno. arith.
  apply bind_Ok in Hr as ([] & w0 & Hs & Hr). minv Hs. apply bind_Ok in Hr as (nb & w0 & Hnb & Hr). minv Hnb. arith.
  apply bind_Ok in Hr as ([] & w0 & Hs & Hr). minv Hs. apply bind_Ok in Hr as (sf & w0 & Hself & Hr). minv Hself.
  apply bind_Ok in Hr as ([] & w0 & Htr & Hr). apply token_transfer_Ok in Htr as (l' & Htr & ->).
  apply bind_Ok in Hr as (ep & w0 & Hep & Hr).
  match type of Hep with _ _ ?v = _ => assert (w0 = v) as -> by (minv Hep; done) end. clear Hep.
  apply bind_Ok in Hr as ([] & w0 & Hup & Hr). apply update_position_on_sell_spec in Hup as (up & ->).
  minv Hr. arith. split_and!; [lia|lia|]. exists x, p, up. split_and!; try done; lia.
Qed.

Lemma buy_inv b m i n min e w out w' :
  buy_outcome b m i n min e w = Ok (out, w') → wf_env self e → inv self none w → inv self none w'.
Proof.
  intros Hr He Hi. pose proof (proj1 Hi) as Hw.
  destruct (buy_outcome_spec _ _ _ _ _ _ _ _ _ Hr Hw)
    as (Ha & Hn & _ & _ & x & p & up & Hx & _ & _ & Hp & _ & _ & _ & _ & _ & _ & Htr & Hst).
  pose proof (mo_fee _ _ _ (wf_market _ Hw _ _ Hx)) as Hfee. unfold MAX_TRADING_FEE_BPS in Hfee.
  pose proof (net_of_bounds n (pm_trading_fee_bps x) ltac:(lia) Hfee).
  rewrite (wf_self _ _ He) in Htr. apply transfer_moved in Htr. destruct w' as [st' l' lg']. cbn in Hst, Htr. subst st'.
  eapply (pool_move_inv self w _ _ none m i x p _ n); [done|done|done|..]; try reflexivity.
  - cbn. lia.
  - intros k z. apply put_balance_pos. apply Hw.
  - intros tk. rewrite (moved_in _ _ _ _ _ _ _ Htr (wf_auth_ne _ _ _ He Ha)). lia.
Qed.

Lemma sell_inv b m i a min e w out w' :
  sell_outcome b m i a min e w = Ok (out, w') → wf_env self e → inv self none w → inv self none w'.
Proof.
  intros Hr He Hi. pose proof (proj1 Hi) as Hw.
  destruct (sell_outcome_spec _ _ _ _ _ _ _ _ _ Hr Hw)
    as (Ha & Hn & _ & _ & x & p & up & Hx & _ & _ & Hp & _ & _ & _ & _ & _ & Htr & Hst).
  rewrite (wf_self _ _ He) in Htr. apply transfer_moved in Htr. destruct w' as [st' l' lg']. cbn in Hst, Htr. subst st'.
  eapply (pool_move_inv self w _ _ none m i x p _ (- out)); [done|done|done|..]; try reflexivity.
  - cbn. lia.
  - intros k z. apply put_balance_pos. apply Hw.
  - intros tk. rewrite (moved_out _ _ _ _ _ _ _ Htr (wf_auth_ne _ _ _ He Ha)). case_bool_decide; lia.
Qed.

Lemma add_liquidity_inv b m i c a e w r w' :
  add_liquidity b m i c a e w = Ok (r, w') → wf_env self e → inv self none w → inv self none w'.
Proof.
  intros Hr He Hi. pose proof (proj1 Hi) as Hw. unfold add_liquidity, get_outcome_pool, set_outcome_pool,
    get_lp_shares, set_lp_shares, get_lp_total_supply, set_lp_total_supply, get_market_collateral,
    set_market_collateral in Hr.
  apply bind_Ok in Hr as ([] & w0 & Ha & Hr). minv Ha.
  apply bind_Ok in Hr as ([] & w0 & Hact & Hr). apply market_active_spec in Hact as ((x & Hx & _) & ->).
  apply bind_Ok in Hr as ([] & w0 & Hn & Hr). minv Hn. zbool.
  apply bind_Ok in Hr as (x' & w0 & Hx' & Hr). apply unwrap_market_spec in Hx' as [Hx' ->]. simplify_eq.
  apply bind_Ok in Hr as ([] & w0 & Hb & Hr). minv Hb. zbool.
  apply bind_Ok in Hr as (o & w0 & Ho & Hr). minv Ho. apply bind_Ok in Hr as (p & w0 & Hp & Hr). minv Hp.
  apply bind_Ok in Hr as (sh & w0 & Hsh & Hr). pose proof (reads_pure _ _ _ _ _ (lp_shares_reads _ _ _ _) Hsh) as ->.
  apply bind_Ok in Hr as ([] & w0 & Hpos & Hr). minv Hpos. apply bind_Ok in Hr as (sf & w0 & Hself & Hr). minv Hself.
  apply bind_Ok in Hr as (x' & w0 & Hx' & Hr). apply unwrap_market_spec in Hx' as [Hx' ->]. simplify_eq.
  minv Hr. arith. rewrite (wf_self _ _ He) in *.
  match goal with Ht : tok_transfer _ _ _ _ _ _ = Some _ |- _ => apply transfer_moved in Ht; rename Ht into Htr end.
  eapply (pool_move_inv self w _ _ none m i x p _ c); [done|done|done|..]; try reflexivity.
  - cbn. lia.
  - cbn. apply Hw.
  - intros tk. rewrite (moved_in _ _ _ _ _ _ _ Htr (wf_auth_ne _ _ _ He Ha)). lia.
Qed.

Lemma remove_liquidity_inv b m i n e w r w' :
  remove_liquidity b m i n e w = Ok (r, w') → wf_env self e → inv self none w → inv self none w'.
Proof.
  intros Hr He Hi. pose proof (proj1 Hi) as Hw. unfold remove_liquidity, get_outcome_pool, set_outcome_pool,
    get_lp_shares, set_lp_shares, get_lp_total_supply, set_lp_total_supply, get_market_collateral,
    get_outcome_balance, set_outcome_balance, calculate_lp_withdraw, set_market_collateral in Hr.
  minv Hr. spec unwrap_market_spec as [Hx ->]. arith. rewrite (wf_self _ _ He) in *.
  match goal with Ht : tok_transfer _ _ _ _ _ _ = Some _ |- _ => apply transfer_moved in Ht; rename Ht into Htr end.
  match goal with Hx : Market (store w) !! _ = Some ?x, Hp : OutcomePoolAt (store w) !! _ = Some ?p
    |- context [<[(m, i) := mkOutcomePool (_ - ?c) _ _]>] =>
    eapply (pool_move_inv self w _ _ none m i x p _ (- c)); [done|done|done|..]; try reflexivity end.
  - cbn. lia.
  - intros k z. apply put_balance_pos. apply Hw.
  - intros tk. rewrite (moved_out _ _ _ _ _ _ _ Htr) by (by eapply wf_auth_ne). case_bool_decide; lia.
Qed.

Lemma redeem_inv u m e w r w' :
  redeem_winning_tokens u m e w = Ok (r, w') → wf_env self e → inv self none w → inv self none w'.
Proof.
  intros Hr He Hi. pose proof (proj1 Hi) as Hw. unfold redeem_winning_tokens, get_market, get_outcome_pool,
    set_outcome_pool, get_market_collateral, get_outcome_balance, set_outcome_balance, set_market_collateral in Hr.
  apply bind_Ok in Hr as ([] & w0 & Ha & Hr). minv Ha. pose proof (wf_auth_ne _ _ _ He Ha) as Hne.
  minv Hr; arith; rewrite (wf_self _ _ He) in *;
  match goal with Ht : tok_transfer _ _ _ _ _ ?n = Some _, Hx : Market (store w) !! _ = Some ?x,
      Hp : OutcomePoolAt (store w) !! (_, ?i) = Some ?p |- _ =>
    apply transfer_moved in Ht;
    eapply (pool_move_inv self w _ _ none m i x p _ (- n)); [done|done|done|..]; try reflexivity;
    [cbn; lia|intros k z; apply (put_balance_pos _ (m, i, u) 0), Hw|
     intros tk; rewrite (moved_out _ _ _ _ _ _ _ Ht Hne); case_bool_decide; lia] end.
Qed.

(** *** Orders *)

Lemma quot_split p a b : 0 ≤ p * a → 0 ≤ p * b →
  (p * a) `quot` DECIMAL_FACTOR + (p * b) `quot` DECIMAL_FACTOR ≤ (p * (a + b)) `quot` DECIMAL_FACTOR.
Proof.
  intros Ha Hb. unfold DECIMAL_FACTOR. rewrite !Z.quot_div_nonneg by lia.
  rewrite Z.mul_add_distr_l. apply Z.div_le_lower_bound; [lia|].
  pose proof (Z.mul_div_le (p * a) (10 ^ 18) ltac:(lia)). pose proof (Z.mul_div_le (p * b) (10 ^ 18) ltac:(lia)). lia.
Qed.

Lemma lock_of_buy o : lo_status o = OrderOpen → lo_side o = Buy →
  lock_of o = (lo_price o * (lo_quantity o - lo_filled_quantity o)) `quot` DECIMAL_FACTOR.
Proof. intros H1 H2. unfold lock_of. by rewrite H1, H2. Qed.

Lemma lock_of_other o : lo_status o ≠ OrderOpen ∨ lo_side o ≠ Buy → lock_of o = 0.
Proof. intros Ho. unfold lock_of. repeat case_bool_decide; naive_solver. Qed.

Lemma lock_of_nonneg k next o : order_ok k next o → 0 ≤ lock_of o.
Proof.
  intros []. unfold lock_of. destruct (_ && _); [|done]. apply Z.quot_pos; [nia|done].
Qed.

Lemma order_cost_spec p q e w r w' :
  order_cost p q e w = Ok (r, w') → r = (p * q) `quot` DECIMAL_FACTOR ∧ w' = w.
Proof. intros Hr. minv Hr using order_cost. by arith. Qed.

Lemma place_order_inv u m i side price q e w r w' :
  place_order u m i side price q e w = Ok (r, w') → wf_env self e → inv self none w → inv self none w'.
Proof.
  intros Hr He Hi. pose proof (proj1 Hi) as Hw. unfold place_order, get_outcome_balance, get_order_counter,
    set_order, set_order_counter in Hr.
  apply bind_Ok in Hr as ([] & w0 & Ha & Hr). minv Ha. pose proof (wf_auth_ne _ _ _ He Ha) as Hne.
  apply bind_Ok in Hr as ([] & w0 & Hact & Hr). apply trading_active_spec in Hact as ((x & Hx & _) & _ & ->).
  apply bind_Ok in Hr as ([] & w0 & Hn & Hr). minv Hn. zbool.
  apply bind_Ok in Hr as (x' & w0 & Hx' & Hr). apply unwrap_market_spec in Hx' as [Hx' ->]. simplify_eq.
  apply bind_Ok in Hr as ([] & w0 & Hb & Hr). minv Hb. zbool.
  apply bind_Ok in Hr as ([] & w0 & Hsell & Hr). assert (w0 = w) as -> by (minv Hsell; done).
  clear Hsell. apply bind_Ok in Hr as ([] & w0 & Hbuy & Hr).
  assert (store w0 = store w ∧ ∀ tk, tok_balance (ledger w) tk self
     + (if bool_decide (tk = pm_collateral_token x) then
          lock_of (mkOrder 0 m u i side price q 0 OrderOpen 0 None) else 0) ≤ tok_balance (ledger w0) tk self)
    as [Hst Hbal].
  { destruct (bool_decide (side = Buy)) eqn:Hs; zbool.
    - subst side. apply bind_Ok in Hbuy as (c & w1 & Hc & Hbuy). apply order_cost_spec in Hc as [-> ->].
      minv Hbuy. spec unwrap_market_spec as [Hx' ->]. simplify_eq. split; [done|]. intros tk.
      match goal with Ht : tok_transfer _ _ _ _ _ _ = Some _ |- _ => apply transfer_moved in Ht;
        rewrite (wf_self _ _ He) in Ht; cbn; rewrite (moved_in _ _ _ _ _ _ _ Ht Hne) end.
      rewrite lock_of_buy by done. cbn. rewrite Z.sub_0_r. lia.
    - minv Hbuy. split; [done|]. intros tk. rewrite lock_of_other by (by right). case_bool_decide; lia. }
  clear Hbuy. minv Hr. arith. rewrite Hst. destruct (wf_next _ Hw m) as [Hnext _].
  assert (Order (store w) !! (m, default 0 (OrderCounter (store w) !! m)) = None) as Hfresh.
  { destruct (Order (store w) !! _) as [o|] eqn:Ho; [|done].
    destruct (wf_order _ Hw _ _ Ho) as [_ [_ Hlt _ _ _]]. cbn in Hlt. lia. }
  eapply (order_move_inv self w _ _ none none m _ x); [done|done|..]; try reflexivity.
  - cbn. rewrite lookup_insert_eq. split; cbn; try done; lia.
  - intros m'. cbn. rewrite lookup_insert. case_decide; subst; cbn; lia.
  - cbn. apply Hw.
  - intros tk. specialize (Hbal tk). rewrite Hfresh. cbn [from_option]. unfold none.
    unfold lock_of in *. cbn in *. case_bool_decide; lia.
Qed.

Lemma cancel_order_inv u m i e w r w' :
  cancel_order u m i e w = Ok (r, w') → wf_env self e → inv self none w → inv self none w'.
Proof.
  intros Hr He Hi. pose proof (proj1 Hi) as Hw. unfold cancel_order, get_order, set_order in Hr.
  apply bind_Ok in Hr as ([] & w0 & Ha & Hr). minv Ha. pose proof (wf_auth_ne _ _ _ He Ha) as Hne.
  apply bind_Ok in Hr as (o & w0 & Ho & Hr). minv Ho. apply bind_Ok in Hr as (od & w0 & Hod & Hr). minv Hod.
  destruct (wf_order _ Hw _ _ Hod) as [[x Hx] Hok]. cbn in Hx.
  apply bind_Ok in Hr as ([] & w0 & Hu & Hr). minv Hu. apply bind_Ok in Hr as ([] & w0 & Hop & Hr). minv Hop. zbool.
  apply bind_Ok in Hr as ([] & w0 & Hs & Hr). minv Hs. apply bind_Ok in Hr as ([] & w1 & Hpay & Hr).
  pose proof (lock_of_nonneg _ _ _ Hok) as Hpos. destruct Hok as [Hk Hn Hp Hf Hopen]. injection Hk as Hm Hid.
  assert (∃ l', w1 = mkWorld {| (store w) with Order := <[(m, i) := {| od with lo_status := OrderCancelled |}]> (Order (store w)) |}
      l' (log w) ∧ ∀ tk, tok_balance (ledger w) tk self
        + (if bool_decide (tk = pm_collateral_token x) then - lock_of od else 0) ≤ tok_balance l' tk self) as (l' & -> & Hbal).
  { rewrite Hm, Hid in Hpay. destruct (bool_decide (lo_side od = Buy)) eqn:Hsd; zbool.
    - rewrite lock_of_buy in * by done. apply bind_Ok in Hpay as (rem & w2 & Hrem & Hpay). minv Hrem. arith.
      apply bind_Ok in Hpay as (c & w2 & Hc & Hpay). apply order_cost_spec in Hc as [-> ->].
      destruct (_ >? 0) eqn:Hc0; zbool.
      + minv Hpay. spec unwrap_market_spec as [Hx' ->]. cbn in Hx'. simplify_eq. eexists. split; [done|]. intros tk.
        match goal with Ht : tok_transfer _ _ _ _ _ _ = Some _ |- _ => cbn in Ht; apply transfer_moved in Ht;
          rewrite (wf_self _ _ He) in Ht; rewrite (moved_out _ _ _ _ _ _ _ Ht Hne) end. case_bool_decide; lia.
      + minv Hpay. eexists. split; [done|]. intros tk. case_bool_decide; lia.
    - minv Hpay. eexists. split; [done|]. intros tk. rewrite lock_of_other by (by right). case_bool_decide; lia. }
  minv Hr. eapply (order_move_inv self w _ _ none none (lo_market_id od) (lo_order_id od) x); [done|done|..];
    try reflexivity.
  - by split.
  - cbn. apply Hw.
  - intros tk. specialize (Hbal tk). cbn. rewrite Hod. cbn [from_option]. unfold none.
    rewrite (lock_of_other {| od with lo_status := OrderCancelled |}) by (by left). case_bool_decide; lia.
Qed.

(** The scan of [match_sell_order]: what the buy orders fill is taken from their
    locks and set aside for the seller. *)
Record scanned (w : World State Event) (tk : Address) (rem0 : Z) (acc : Z * Z) (w1 : World State Event)
    : Prop := {
  sc_inv : inv self (only tk (snd acc)) w1;
  sc_ledger : ledger w1 = ledger w;
  sc_market : Market (store w1) = Market (store w);
  sc_counter : OrderCounter (store w1) = OrderCounter (store w);
  sc_rem : 0 ≤ fst acc ≤ rem0;
  sc_rec : 0 ≤ snd acc;
}.

Lemma match_step_scanned seller m so x oid e w rem0 acc acc' w1 w2 :
  match_step seller m so acc oid e w1 = Ok (acc', w2) → Market (store w) !! m = Some x →
  scanned w (pm_collateral_token x) rem0 acc w1 → scanned w (pm_collateral_token x) rem0 acc' w2.
Proof.
  destruct acc as [rem rec]. intros Hr Hx Hs. unfold match_step, get_order, set_order, get_outcome_balance,
    set_outcome_balance in Hr. destruct (rem <=? 0) eqn:Hrem; [by minv Hr|]. zbool.
  apply bind_Ok in Hr as (o & w0 & Ho & Hr). apply gets_Ok in Ho as [Ho ->]. destruct o as [bo|]; [|by minv Hr].
  destruct (negb (matches seller so bo)) eqn:Hmt; [by minv Hr|]. zbool. unfold matches in Hmt. zbool.
  destruct Hs as [Hi Hl Hm Hc [Hrem0 Hrem1] Hrec]. cbn [fst snd] in *. pose proof (proj1 Hi) as Hw. symmetry in Ho.
  destruct (wf_order _ Hw _ _ Ho) as [_ [Hk Hn Hp Hf Hopen]]. injection Hk as Hmk Hid.
  apply bind_Ok in Hr as (br & w0 & Hbr & Hr). minv Hbr. arith. cbv zeta in Hr.
  set (fill := if rem <? lo_quantity bo - lo_filled_quantity bo then rem else lo_quantity bo - lo_filled_quantity bo) in *.
  assert (0 < fill ≤ lo_quantity bo - lo_filled_quantity bo ∧ fill ≤ rem) as Hfill.
  { unfold fill. specialize (Hopen ltac:(done)). destruct (rem <? _) eqn:Hlt; zbool; lia. }
  apply bind_Ok in Hr as (c & w0 & Hcost & Hr). apply order_cost_spec in Hcost as [-> ->].
  minv Hr. inv_checked.
  assert (0 ≤ (lo_price bo * fill) `quot` DECIMAL_FACTOR) by (apply Z.quot_pos; [nia|done]).
  split; cbn; try done; try lia.
  rewrite <- Hm in Hx.
  eapply (order_move_inv self w1 _ _ (only (pm_collateral_token x) rec) _ (lo_market_id bo) (lo_order_id bo) x);
    [done|done|..]; try reflexivity.
  - cbn. split; cbn; try done; try lia. intros Hst. destruct (_ >=? _) eqn:Hge; [done|]. zbool. lia.
  - cbn. intros k z. apply put_balance_pos. apply Hw.
  - intros tk. cbn. rewrite Ho. cbn [from_option]. rewrite (lock_of_buy bo) by done. unfold only.
    case_bool_decide as Htk; [|lia].
    pose proof (quot_split (lo_price bo) fill (lo_quantity bo - lo_filled_quantity bo - fill) ltac:(nia) ltac:(nia)) as Hsplit.
    replace (fill + (lo_quantity bo - lo_filled_quantity bo - fill)) with (lo_quantity bo - lo_filled_quantity bo) in Hsplit by lia.
    destruct (_ >=? _) eqn:Hge; zbool.
    + rewrite lock_of_other by (by left).
      assert (0 ≤ (lo_price bo * (lo_quantity bo - lo_filled_quantity bo - fill)) `quot` DECIMAL_FACTOR)
        by (apply Z.quot_pos; [nia|done]). lia.
    + rewrite lock_of_buy by done. cbn. replace (lo_quantity bo - (lo_filled_quantity bo + fill))
        with (lo_quantity bo - lo_filled_quantity bo - fill) by lia. lia.
Qed.

Lemma match_sell_order_inv u m i e w r w' :
  match_sell_order u m i e w = Ok (r, w') → wf_env self e → inv self none w → inv self none w'.
Proof.
  intros Hr He Hi. pose proof (proj1 Hi) as Hw. unfold match_sell_order, get_order, set_order, get_order_counter,
    get_outcome_balance, set_outcome_balance in Hr.
  apply bind_Ok in Hr as ([] & w0 & Ha & Hr). minv Ha. pose proof (wf_auth_ne _ _ _ He Ha) as Hne.
  apply bind_Ok in Hr as (o & w0 & Ho & Hr). minv Ho. apply bind_Ok in Hr as (so & w0 & Hod & Hr). minv Hod.
  destruct (wf_order _ Hw _ _ Hod) as [[x Hx] [Hk Hn Hp Hf Hopen]]. cbn in Hx.
  apply bind_Ok in Hr as ([] & w0 & Hu & Hr). minv Hu. apply bind_Ok in Hr as ([] & w0 & Hop & Hr). minv Hop.
  apply bind_Ok in Hr as ([] & w0 & Hsd & Hr). minv Hsd. zbool.
  apply bind_Ok in Hr as (rem0 & w0 & Hrem0 & Hr). minv Hrem0. arith.
  apply bind_Ok in Hr as (cnt & w0 & Hcnt & Hr). minv Hcnt.
  apply bind_Ok in Hr as ([rem rec] & w1 & Hscan & Hr).
  assert (scanned w (pm_collateral_token x) (lo_quantity so - lo_filled_quantity so) (rem, rec) w1) as Hs.
  { apply (foldM_inv _ (scanned w (pm_collateral_token x) (lo_quantity so - lo_filled_quantity so)) _ _ _ _ _ _ Hscan).
    - split; cbn; try done; [|lia]. split; [apply Hi|]. intros tk. pose proof (proj2 Hi tk) as Hc.
      unfold only, none in *. case_bool_decide; lia.
    - intros oid acc w2 acc' w3 _ Hacc Hone. by eapply match_step_scanned. }
  clear Hscan. destruct Hs as [Hi1 Hl Hm Hc [Hr0 Hr1] Hrec]. cbn [fst snd] in *. pose proof (proj1 Hi1) as Hw1.
  cbv zeta in Hr. apply bind_Ok in Hr as (sold & w2 & Hsold & Hr). minv Hsold. inv_checked.
  apply bind_Ok in Hr as ([] & w2 & Hset & Hr). minv Hset. apply bind_Ok in Hr as (sb & w2 & Hsb & Hr). minv Hsb.
  apply bind_Ok in Hr as (nb & w2 & Hnb & Hr). minv Hnb. inv_checked. apply bind_Ok in Hr as ([] & w2 & Hset & Hr). minv Hset.
  apply bind_Ok in Hr as ([] & w2 & Hpay & Hr).
  rewrite <- Hm in Hx.
  match type of Hpay with _ _ (mkWorld ?st _ ?lg) = _ =>
    assert (∃ l', w2 = mkWorld st l' lg ∧ ∀ tk, tok_balance (ledger w1) tk self - only (pm_collateral_token x) rec tk
      ≤ tok_balance l' tk self) as (l' & -> & Hbal) end.
  { unfold only. destruct (rec >? 0) eqn:Hpos; zbool.
    - minv Hpay. spec unwrap_market_spec as [Hx' ->]. cbn in Hx'. simplify_eq. eexists. split; [done|]. intros tk.
      match goal with Ht : tok_transfer _ _ _ _ _ _ = Some _ |- _ => cbn in Ht; apply transfer_moved in Ht;
        rewrite (wf_self _ _ He) in Ht; rewrite (moved_out _ _ _ _ _ _ _ Ht Hne) end. lia.
    - minv Hpay. eexists. split; [done|]. intros tk. case_bool_decide; lia. }
  clear Hpay. minv Hr.
  eapply (order_move_inv self w1 _ _ (only (pm_collateral_token x) rec) none (lo_market_id so) (lo_order_id so) x);
    [done|done|..]; try reflexivity.
  - cbn. rewrite Hc. split; cbn; try done; try lia. intros Hst. destruct (rem =? 0) eqn:Hz; [done|]. zbool. lia.
  - cbn. intros k z. apply put_balance_pos. apply Hw1.
  - intros tk. specialize (Hbal tk). cbn. rewrite (lock_of_other (mkOrder _ _ _ _ _ _ _ _ _ _ _)) by (right; cbn; congruence).
    assert (0 ≤ from_option lock_of 0 (Order (store w1) !! (lo_market_id so, lo_order_id so))).
    { destruct (Order (store w1) !! _) as [o|] eqn:Ho; [|done]. cbn.
      by eapply lock_of_nonneg, (wf_order _ Hw1). }
    unfold none. case_bool_decide; lia.
Qed.

(** *** Disputes and resolution *)

Lemma stake_of_pending d : pending d = true → stake_of d = di_stake_amount d.
Proof. intros Hp. unfold stake_of. by rewrite Hp. Qed.

Lemma stake_of_settled d :
  di_status d = ResolvedUpheld ∨ di_status d = ResolvedRejected → stake_of d = 0.
Proof. intros Hd. unfold stake_of, pending. by destruct Hd as [-> | ->]. Qed.

Lemma open_dispute_inv u m o ev n e w r w' :
  open_dispute u m o ev n e w = Ok (r, w') → wf_env self e → 0 ≤ o → inv self none w → inv self none w'.
Proof.
  intros Hr He Ho Hi. pose proof (proj1 Hi) as Hw. unfold open_dispute, get_market, set_market,
    get_dispute_counter, set_dispute, set_dispute_counter in Hr.
  apply bind_Ok in Hr as ([] & w0 & Ha & Hr). minv Ha. pose proof (wf_auth_ne _ _ _ He Ha) as Hne.
  apply bind_Ok in Hr as (ox & w0 & Hox & Hr). minv Hox. apply bind_Ok in Hr as (x & w0 & Hx & Hr). minv Hx.
  pose proof (wf_market _ Hw _ _ Hx) as Hok. destruct (wf_next _ Hw m) as [_ Hn].
  assert (DisputeAt (store w) !! (m, default 0 (DisputeCounter (store w) !! m)) = None) as Hfresh.
  { destruct (DisputeAt (store w) !! _) as [d|] eqn:Hd; [|done].
    destruct (wf_dispute _ Hw _ _ Hd) as (_ & _ & [_ Hlt _ _ _]). cbn in Hlt. lia. }
  destruct Hok as [Hid Hrg Hnum Hfee Hout Hres]. rewrite <- Hid in Hx, Hfresh.
  minv Hr. arith. rewrite (wf_self _ _ He) in *.
  match goal with Ht : tok_transfer _ _ _ _ _ _ = Some _ |- _ => apply transfer_moved in Ht; rename Ht into Htr end.
  eapply (dispute_move_inv self w _ _ none (pm_market_id x) _ x); [done|done|..]; try reflexivity.
  - by split.
  - split; cbn; try done. intros _. apply Hres. by left.
  - cbn. rewrite lookup_insert_eq. split; cbn; try done; try lia. apply Hres. by left.
  - intros m'. cbn. rewrite lookup_insert. case_decide; subst; cbn; lia.
  - intros tk. rewrite Hfresh, (moved_in _ _ _ _ _ _ _ Htr Hne).
    rewrite stake_of_pending by done. cbn. rewrite Z.sub_0_r. lia.
Qed.

Lemma vote_dispute_inv u m d b e w r w' :
  vote_dispute u m d b e w = Ok (r, w') → inv self none w → inv self none w'.
Proof.
  intros Hr Hi. pose proof (proj1 Hi) as Hw. unfold vote_dispute, get_dispute, has_voted, set_vote, set_dispute in Hr.
  apply bind_Ok in Hr as ([] & w0 & Ha & Hr). minv Ha.
  apply bind_Ok in Hr as (o & w0 & Ho & Hr). minv Ho. apply bind_Ok in Hr as (di & w0 & Hdi & Hr). minv Hdi.
  apply bind_Ok in Hr as ([] & w0 & Hop & Hr). minv Hop. apply bind_Ok in Hr as (v & w0 & Hv & Hr). minv Hv.
  apply bind_Ok in Hr as ([] & w0 & Hnv & Hr). minv Hnv.
  apply bind_Ok in Hr as (x & w0 & Hx & Hr). apply unwrap_market_spec in Hx as [Hx ->].
  destruct (wf_dispute _ Hw _ _ Hdi) as (x' & Hx' & Hdok). cbn in Hx'. simplify_eq.
  apply bind_Ok in Hr as (wt & w0 & Hwt & Hr).
  assert (w0 = w) as ->.
  { eapply reads_pure; [|exact Hwt]. apply reads_foldM. intros. unfold get_outcome_balance.
    apply reads_bind; [|eauto with contracts]. apply reads_gets. by intros ? ? ->. }
  assert (pending di = true) as Hpend.
  { unfold pending. destruct (di_status di); try done; by cbn in Hop. }
  destruct Hdok as [Hk Hlt Hstake Hout Hsome]. injection Hk as <- <-.
  apply bind_Ok in Hr as ([] & w0 & Hpos & Hr). minv Hpos. apply bind_Ok in Hr as ([] & w0 & Hs & Hr). minv Hs.
  destruct b; minv Hr; inv_checked;
    (eapply (dispute_move_inv self w _ _ none (di_market_id di) (di_dispute_id di) x x);
      [done|done|by split|by apply (wf_market _ Hw)|..]; try reflexivity;
      [by split| |cbn; by rewrite insert_id];
     intros tk; cbn; rewrite Hdi; cbn [from_option];
     rewrite !stake_of_pending by done; cbn; destruct (bool_decide (tk = _)); lia).
Qed.

Lemma resolve_dispute_inv a m d e w r w' :
  resolve_dispute a m d e w = Ok (r, w') → wf_env self e → inv self none w → inv self none w'.
Proof.
  intros Hr He Hi. pose proof (proj1 Hi) as Hw. unfold resolve_dispute, get_dispute, set_dispute, set_market,
    get_governance_collector in Hr.
  apply bind_Ok in Hr as ([] & w0 & Ha & Hr). minv Ha.
  apply bind_Ok in Hr as ([] & w0 & Had & Hr). apply prediction_assert_admin_spec in Had as [_ ->].
  apply bind_Ok in Hr as (o & w0 & Ho & Hr). minv Ho. apply bind_Ok in Hr as (di & w0 & Hdi & Hr). minv Hdi.
  apply bind_Ok in Hr as ([] & w0 & Hop & Hr). minv Hop. apply bind_Ok in Hr as (t & w0 & Ht & Hr). minv Ht.
  destruct (wf_dispute _ Hw _ _ Hdi) as (x & Hx & Hdok). cbn in Hx.
  assert (stake_of di = di_stake_amount di) as Hst.
  { unfold stake_of, pending. destruct (di_status di); try done; by cbn in Hop. }
  clear Hop.
  destruct Hdok as [Hk Hlt Hstake Hout Hsome]. injection Hk as <- <-.
  pose proof (wf_market _ Hw _ _ Hx) as [Hid Hrg Hnum Hfee Houts Hres].
  destruct (di_votes_for di >? di_votes_against di) eqn:Hv;
    apply bind_Ok in Hr as (x' & w0 & Hx' & Hr); apply unwrap_market_spec in Hx' as [Hx' ->];
    assert (x' = x) as -> by congruence; clear Hx'.
  - minv Hr. rewrite (wf_self _ _ He) in *. rewrite Hid.
    match goal with Ht : tok_transfer _ _ _ _ _ _ = Some _ |- _ => apply transfer_moved in Ht; rename Ht into Htr end.
    eapply (dispute_move_inv self w _ _ none (di_market_id di) (di_dispute_id di) x); [done|done|..]; try reflexivity.
    + by split.
    + split; cbn; try done. by intros ? [= <-].
    + by split.
    + intros tk. rewrite Hdi. cbn [from_option]. rewrite Hst, (stake_of_settled (mkDispute _ _ _ _ _ _ _ _ _ _ _)) by (by left).
      pose proof (moved_out_ge _ _ _ _ _ _ tk Htr ltac:(lia)). case_bool_decide; lia.
  - apply bind_Ok in Hr as (c & w0 & Hc & Hr). minv Hc. apply bind_Ok in Hr as ([] & w0 & Hpay & Hr).
    assert (store w0 = store w ∧ ∀ tk, tok_balance (ledger w) tk self
      - (if bool_decide (tk = pm_collateral_token x) then di_stake_amount di else 0) ≤ tok_balance (ledger w0) tk self)
      as [Hst0 Hbal].
    { minv Hpay; (split; [done|]); intros tk.
      - rewrite (wf_self _ _ He) in *.
        match goal with Ht : tok_transfer _ _ _ _ _ _ = Some _ |- _ => apply transfer_moved in Ht;
          apply (moved_out_ge _ _ _ _ _ _ tk Ht) end. lia.
      - case_bool_decide; lia. }
    clear Hpay. minv Hr. rewrite Hst0, Hid.
    eapply (dispute_move_inv self w _ _ none (di_market_id di) (di_dispute_id di) x); [done|done|..]; try reflexivity.
    + by split.
    + by split.
    + by split.
    + intros tk. specialize (Hbal tk). rewrite Hdi. cbn [from_option].
      rewrite Hst, (stake_of_settled (mkDispute _ _ _ _ _ _ _ _ _ _ _)) by (by right). case_bool_decide; lia.
Qed.

(** *** Creating and resolving markets *)

(** What the seeding loop leaves: [L] in each new pool. *)
Lemma seed_spec m L l e w u w' :
  foldM (λ _ i, seed_pool m L i) tt l e w = Ok (u, w') →
  NoDup l → (∀ i, i ∈ l → OutcomePoolAt (store w) !! (m, i) = None) →
  ∃ pl ts, w' = {| w with store := {| (store w) with OutcomePoolAt := pl; TotalOutcomeSupply := ts |} |} ∧
    (∀ m', reserves pl m' = reserves (OutcomePoolAt (store w)) m'
       + (if bool_decide (m' = m) then L * Z.of_nat (length l) else 0)) ∧
    (∀ m' i p, pl !! (m', i) = Some p → m' = m ∨ OutcomePoolAt (store w) !! (m', i) = Some p).
Proof.
  revert w. induction l as [|i l IH]; intros w Hr Hnd Hfr; simpl in Hr.
  - minv Hr. exists (OutcomePoolAt (store w)), (TotalOutcomeSupply (store w)). split_and!; [by destruct w as [[]]| |auto].
    intros m'. cbn. case_bool_decide; lia.
  - apply bind_Ok in Hr as ([] & w1 & Hone & Hr). apply NoDup_cons in Hnd as [Hi Hnd].
    unfold seed_pool, set_outcome_pool, set_total_outcome_supply in Hone.
    apply bind_Ok in Hone as (p & w0 & Hp & Hone). minv Hp.
    apply bind_Ok in Hone as (sh & w0 & Hsh & Hone). pose proof (reads_pure _ _ _ _ _ (prediction_isqrt_reads _ _) Hsh) as ->.
    minv Hone. inv_checked. apply IH in Hr as (pl & ts & -> & Hres & Hkeys); [|done|].
    + exists pl, ts. split_and!; [done| |].
      * intros m'. rewrite Hres. cbn [store OutcomePoolAt]. rewrite reserves_insert, (Hfr i) by left. cbn.
        case_bool_decide; lia.
      * intros m' i' q Hq. destruct (Hkeys _ _ _ Hq) as [->|Hq']; [by left|]. cbn in Hq'.
        apply lookup_insert_Some in Hq' as [[[= <- <-] _]|[_ Hq']]; [by left|by right].
    + intros j Hj. cbn. rewrite lookup_insert_ne; [apply Hfr; by right|]. intros [= <-]. done.
Qed.

(** Nothing is filed under a market that does not exist yet. *)
Lemma liabilities_new st m x T tk :
  wf st → Market st !! m = None →
  booked (<[m := x]> (Market st)) (<[m := T]> (MarketCollateral st)) tk =
    booked (Market st) (MarketCollateral st) tk + (if bool_decide (tk = pm_collateral_token x) then T else 0) ∧
  locked (<[m := x]> (Market st)) (Order st) tk = locked (Market st) (Order st) tk ∧
  staked (<[m := x]> (Market st)) (DisputeAt st) tk = staked (Market st) (DisputeAt st) tk.
Proof.
  intros Hw Hm.
  assert (∀ m', is_Some (Market st !! m') → of_token (<[m := x]> (Market st)) tk m' = of_token (Market st) tk m') as Hot.
  { intros m' [y Hy]. unfold of_token. rewrite lookup_insert_ne; [done|]. intros <-. congruence. }
  split_and!.
  - rewrite (booked_insert _ _ _ _ x) by apply lookup_insert_eq.
    assert (MarketCollateral st !! m = None) as ->.
    { destruct (MarketCollateral st !! m) eqn:Hc; [|done]. destruct (wf_collateral _ Hw _ _ Hc). congruence. }
    cbn. rewrite Z.sub_0_r. f_equal. apply msum_ext. intros m' c Hc. by rewrite Hot by (by eapply wf_collateral).
  - apply msum_ext. intros k o Ho. by rewrite Hot by (by eapply wf_order).
  - apply msum_ext. intros k d Hd. destruct (wf_dispute _ Hw _ _ Hd) as (y & Hy & _). by rewrite Hot by eauto.
Qed.

Lemma create_move_inv w st' l' x pl T :
  inv self none w → market_ok (market_counter (store w) + 1) (market_counter (store w)) x →
  Market (store w) !! market_counter (store w) = None →
  (∀ m', reserves pl m' = reserves (OutcomePoolAt (store w)) m'
     + (if bool_decide (m' = market_counter (store w)) then T else 0)) →
  (∀ m' i p, pl !! (m', i) = Some p →
     m' = market_counter (store w) ∨ OutcomePoolAt (store w) !! (m', i) = Some p) →
  (∀ tk, tok_balance (ledger w) tk self + (if bool_decide (tk = pm_collateral_token x) then T else 0)
     ≤ tok_balance l' tk self) →
  Market st' = <[market_counter (store w) := x]> (Market (store w)) →
  MarketCounter st' = Some (market_counter (store w) + 1) → OutcomePoolAt st' = pl →
  MarketCollateral st' = <[market_counter (store w) := T]> (MarketCollateral (store w)) →
  Order st' = Order (store w) → DisputeAt st' = DisputeAt (store w) →
  OrderCounter st' = OrderCounter (store w) → DisputeCounter st' = DisputeCounter (store w) →
  OutcomeBalance st' = OutcomeBalance (store w) → Admin st' = Admin (store w) →
  ∀ lg, inv self none (mkWorld st' l' lg).
Proof.
  intros [Hw Hc] Hx Hfr Hres Hkeys Hbl E1 E2 E3 E4 E5 E6 E7 E8 E9 E10 lg.
  pose proof (wf_counter _ Hw) as Hcnt. set (m := market_counter (store w)) in *. split; cbn.
  - split; unfold market_counter; rewrite ?E1, ?E2, ?E3, ?E4, ?E5, ?E6, ?E7, ?E8, ?E9, ?E10; cbn; try apply Hw.
    + intros m' y [[<- <-]|[_ Hy]]%lookup_insert_Some; [done|]. destruct (wf_market _ Hw _ _ Hy) as [? ? ? ? ? ?].
      fold m in mo_range0. split; [done|lia|done..].
    + intros m' i p Hp. destruct (Hkeys _ _ _ Hp) as [->|Hp']; [by rewrite lookup_insert_eq|].
      apply is_Some_insert. by eapply wf_pool.
    + intros m' c [[<- _]|[_ Hq]]%lookup_insert_Some; [by rewrite lookup_insert_eq|].
      apply is_Some_insert. by eapply wf_collateral.
    + intros k o Ho. destruct (wf_order _ Hw _ _ Ho) as [Hm Hok']. split; [by apply is_Some_insert|done].
    + intros k d Hd. destruct (wf_dispute _ Hw _ _ Hd) as (y & Hy & Hok). exists y. split; [|done].
      rewrite lookup_insert_ne; [done|]. intros Heq. rewrite <- Heq in Hy. congruence.
    + lia.
    + intros m'. rewrite Hres. pose proof (wf_reserves _ Hw m') as Hr. destruct (decide (m' = m)) as [->|Hne].
      * rewrite bool_decide_eq_true_2, lookup_insert_eq by done. cbn.
        destruct (MarketCollateral (store w) !! m) eqn:Hq; [|cbn in Hr; lia].
        destruct (wf_collateral _ Hw _ _ Hq). congruence.
      * rewrite bool_decide_eq_false_2, lookup_insert_ne by done. lia.
  - intros tk. specialize (Hc tk). specialize (Hbl tk). unfold owed_in in *. rewrite E1, E4, E5, E6.
    destruct (liabilities_new (store w) m x T tk Hw Hfr) as (-> & -> & ->). lia.
Qed.

Lemma create_market_inv u ps e w r w' :
  create_market u ps e w = Ok (r, w') → wf_env self e → 0 ≤ cp_trading_fee_bps ps →
  inv self none w → inv self none w'.
Proof.
  intros Hr He Hfee Hi. pose proof (proj1 Hi) as Hw. unfold create_market, get_market_counter, set_market, set_market_counter,
    set_market_collateral, set_lp_total_supply in Hr.
  apply bind_Ok in Hr as ([] & w0 & Ha & Hr). minv Ha. pose proof (wf_auth_ne _ _ _ He Ha) as Hne.
  do 6 (let Hg := fresh "Hg" in apply bind_Ok in Hr as ([] & w0 & Hg & Hr); minv Hg). zbool.
  apply bind_Ok in Hr as (m & w0 & Hm & Hr). apply gets_Ok in Hm as [Hm ->]. fold (market_counter (store w)) in Hm.
  apply bind_Ok in Hr as (t & w0 & Ht & Hr). minv Ht. apply bind_Ok in Hr as (we & w0 & Hwe & Hr). minv Hwe.
  apply bind_Ok in Hr as ([] & w0 & Hs & Hr). minv Hs. apply bind_Ok in Hr as (nx & w0 & Hnx & Hr). minv Hnx.
  apply bind_Ok in Hr as ([] & w0 & Hs & Hr). minv Hs. apply bind_Ok in Hr as (sf & w0 & Hsf & Hr). minv Hsf.
  apply bind_Ok in Hr as (T & w0 & HT & Hr). minv HT. arith.
  apply bind_Ok in Hr as ([] & w0 & Htr & Hr). apply token_transfer_Ok in Htr as (l' & Htr & ->). cbn in Htr.
  rewrite (wf_self _ _ He) in Htr. apply transfer_moved in Htr.
  assert (Market (store w) !! market_counter (store w) = None) as Hfr.
  { destruct (Market (store w) !! _) eqn:Hx; [|done]. pose proof (mo_range _ _ _ (wf_market _ Hw _ _ Hx)). lia. }
  apply bind_Ok in Hr as ([] & w0 & Hseed & Hr).
  apply seed_spec in Hseed as (pl & tsup & -> & Hres & Hkeys); [|apply NoDup_seqZ|].
  2: { intros i _. cbn. destruct (OutcomePoolAt (store w) !! _) eqn:Hp; [|done].
       destruct (wf_pool _ Hw _ _ _ Hp). congruence. }
  apply bind_Ok in Hr as ([] & w0 & Hs & Hr). minv Hs. apply bind_Ok in Hr as (pp & w0 & Hpp & Hr). minv Hpp.
  apply bind_Ok in Hr as (sq & w0 & Hsq & Hr). pose proof (reads_pure _ _ _ _ _ (prediction_isqrt_reads _ _) Hsq) as ->. minv Hr.
  clear Hsq. cbn in Hres, Hkeys. rewrite length_seqZ, Z2Nat.id in Hres by lia.
  pose proof (wf_counter _ Hw).
  eapply (create_move_inv w _ _ _ pl (cp_initial_liquidity ps * cp_num_outcomes ps)); [done|..]; try reflexivity; try done.
  - split; cbn; try done; try lia. by intros [|].
  - intros tk. rewrite (moved_in _ _ _ _ _ _ _ Htr Hne). cbn. lia.
Qed.

Lemma resolve_market_inv u m o e w r w' :
  resolve_market u m o e w = Ok (r, w') → 0 ≤ o → inv self none w → inv self none w'.
Proof.
  intros Hr Ho Hi. pose proof (proj1 Hi) as Hw. unfold resolve_market, get_market, set_market, get_default_oracle in Hr.
  apply bind_Ok in Hr as ([] & w0 & Ha & Hr). minv Ha.
  apply bind_Ok in Hr as (ox & w0 & Hox & Hr). minv Hox. apply bind_Ok in Hr as (x & w0 & Hx & Hr). minv Hx.
  apply bind_Ok in Hr as ([] & w0 & Hau & Hr). assert (w0 = w) as -> by (minv Hau; done). clear Hau.
  destruct (wf_market _ Hw _ _ Hx) as [Hid Hrg Hnum Hfee Hout Hres]. minv Hr. zbool.
  eapply (market_move_inv self w _ none (pm_market_id x) x); [done|done|..]; try reflexivity.
  - by split.
  - split; cbn; try done. by intros ? [= <-].
Qed.

Lemma close_market_inv u m e w r w' :
  close_market_early u m e w = Ok (r, w') → inv self none w → inv self none w'.
Proof.
  intros Hr Hi. pose proof (proj1 Hi) as Hw. unfold close_market_early, get_market, set_market, get_admin in Hr.
  apply bind_Ok in Hr as ([] & w0 & Ha & Hr). minv Ha.
  apply bind_Ok in Hr as (ox & w0 & Hox & Hr). minv Hox. apply bind_Ok in Hr as (x & w0 & Hx & Hr). minv Hx.
  destruct (wf_market _ Hw _ _ Hx) as [Hid Hrg Hnum Hfee Hout Hres]. minv Hr.
  eapply (market_move_inv self w _ none (pm_market_id x) x); [done|done|..]; try reflexivity.
  - by split.
  - split; cbn; try done. by intros [|].
Qed.

(** *** The transaction system *)

(** The storage differs only in the administrative fields. *)
Lemma admin_move_inv w st' :
  inv self none w → Market st' = Market (store w) → MarketCounter st' = MarketCounter (store w) →
  OutcomePoolAt st' = OutcomePoolAt (store w) → MarketCollateral st' = MarketCollateral (store w) →
  Order st' = Order (store w) → DisputeAt st' = DisputeAt (store w) →
  OrderCounter st' = OrderCounter (store w) → DisputeCounter st' = DisputeCounter (store w) →
  OutcomeBalance st' = OutcomeBalance (store w) →
  ∀ lg, inv self none (mkWorld st' (ledger w) lg).
Proof.
  intros [Hw Hc] E1 E2 E3 E4 E5 E6 E7 E8 E9 lg. split; cbn.
  - split; unfold market_counter; rewrite ?E1, ?E2, ?E3, ?E4, ?E5, ?E6, ?E7, ?E8, ?E9; apply Hw.
  - intros tk. specialize (Hc tk). unfold owed_in in *. by rewrite E1, E4, E5, E6.
Qed.

(** [initialize] sets the market counter back to zero, and markets can be created
    before it: an initialization that takes effect must come before them. *)
Definition early (c : Call) (st : State) : bool :=
  match c with
  | CInitialize _ _ => bool_decide (is_Some (Admin st)) || (market_counter st =? 0)
  | _ => true
  end.

Lemma early_initialize_inv admin oracle e w w' :
  early (CInitialize admin oracle) (store w) = true → initialize admin oracle e w = Ok (tt, w') →
  inv self none w → inv self none w'.
Proof.
  intros Hal Hr [Hw Hc]. unfold initialize, get_admin, set_admin, set_default_oracle, set_market_counter, set_trading_paused in Hr.
  minv Hr. cbn [early] in Hal. zbool. rewrite bool_decide_eq_false_2 in Hal by done. apply Z.eqb_eq in Hal. cbn.
  split; [|exact Hc]. destruct Hw. split; cbn; try done. by rewrite Hal in *.
Qed.

Lemma prediction_exec_inv c e w w' :
  exec c e w = Ok (tt, w') → wf_env self e → call_ok c → early c (store w) = true → inv self none w → inv self none w'.
Proof.
  intros Hr He Hok Hal Hi.
  destruct c; cbn [exec call_ok] in Hr, Hok; try (apply discard_Ok in Hr as [res Hr]);
    eauto using create_market_inv, resolve_market_inv, close_market_inv, buy_inv, sell_inv, add_liquidity_inv,
      remove_liquidity_inv, place_order_inv, cancel_order_inv, match_sell_order_inv, redeem_inv, open_dispute_inv,
      vote_dispute_inv, resolve_dispute_inv, early_initialize_inv.
  - unfold admin_pause_trading, set_trading_paused in Hr. minv Hr. spec prediction_assert_admin_spec as [Ha ->].
    by apply admin_move_inv.
  - unfold admin_resume_trading, set_trading_paused in Hr. minv Hr. spec prediction_assert_admin_spec as [Ha ->].
    by apply admin_move_inv.
  - unfold admin_set_admin, set_admin in Hr. minv Hr. spec prediction_assert_admin_spec as [Ha ->].
    by apply admin_move_inv.
  - unfold admin_set_fee_config, set_governance_collector, set_fee_share_bps in Hr. minv Hr.
    spec prediction_assert_admin_spec as [Ha ->]. by apply admin_move_inv.
  - unfold admin_set_oracle, set_default_oracle in Hr. minv Hr. spec prediction_assert_admin_spec as [Ha ->].
    by apply admin_move_inv.
Qed.

(** The worlds the calls reach from the deployment, whether the contract is
    initialized or not, if its initialization does not come late. *)
Definition reachable (t : Z) (w : World State Event) : Prop :=
  ∃ t0 l lg, (∀ tk, 0 ≤ tok_balance l tk self) ∧
    rtc (step_in exec call_ok early self) (t0, mkWorld deployed l lg) (t, w).

Lemma prediction_deployed_inv l lg : (∀ tk, 0 ≤ tok_balance l tk self) → inv self none (mkWorld deployed l lg).
Proof.
  intros Hl. split; cbn; [by split|].
  intros tk. unfold owed_in, booked, locked, staked. cbn. rewrite !msum_empty. apply Hl.
Qed.

Lemma prediction_reachable_inv t w : reachable t w → inv self none w.
Proof.
  intros (t0 & l & lg & Hl & Hr).
  apply (reach_in_inv_world exec call_ok early self (λ _, inv self none)) in Hr; [done| | |by apply prediction_deployed_inv].
  - intros t' c e w0 w0' He _ Hok Hal Hi Hrun. by eapply prediction_exec_inv.
  - intros t1 t2 w0 l' _ Hl' [Hw Hc]. split; [done|]. intros tk. specialize (Hc tk). specialize (Hl' tk). cbn in *. lia.
Qed.

End ops.

(** ** What the operations leave alone *)

Section frames.
Context `{TokenHost}.

(** Markets and disputes. *)
Definition governed (s : State) := (Market s, DisputeAt s, DisputeVote s, DisputeCounter s, Admin s).

Definition quiet (c : Call) : Prop :=
  match c with
  | CInitialize _ _ | CCreateMarket _ _ | CResolveMarket _ _ _ | CCloseMarketEarly _ _ | COpenDispute _ _ _ _ _
  | CVoteDispute _ _ _ _ | CResolveDispute _ _ _ | CSetAdmin _ _ => False
  | _ => True
  end.

#[local] Hint Resolve prediction_isqrt_reads buy_amount_reads sell_amount_reads lp_shares_reads average_price_reads : contracts.

Lemma prediction_quiet_keeps c : quiet c → keeps governed (exec c).
Proof.
  intros Hq. destruct c; try done; cbn [exec];
    unfold discard, buy_outcome, sell_outcome, add_liquidity, remove_liquidity, place_order, cancel_order,
      match_sell_order, match_step, redeem_winning_tokens, admin_pause_trading, admin_resume_trading,
      admin_set_fee_config, admin_set_oracle, assert_trading_active, assert_market_active, assert_admin,
      unwrap_market, is_trading_paused, set_trading_paused, get_admin, set_governance_collector,
      set_fee_share_bps, set_default_oracle, get_market, get_outcome_pool, set_outcome_pool,
      get_outcome_balance, set_outcome_balance, get_market_collateral, set_market_collateral, get_lp_shares,
      set_lp_shares, get_lp_total_supply, set_lp_total_supply, get_order_counter, set_order_counter, get_order,
      set_order, update_position, update_position_on_sell, get_user_position, set_user_position,
      get_total_outcome_supply, set_total_outcome_supply, order_cost, calculate_lp_withdraw; frame.
Qed.
End frames.

(** ** The life of a market *)

(** How one call may change the record of market [m]. *)
Inductive transition (c : Call) (e : Env) (st : State) (m : Z) (x : PredictionMarketV2)
    : PredictionMarketV2 → Prop :=
| unchanged : transition c e st m x x
| resolved a o :
    c = CResolveMarket a m o → a = pm_oracle_source x ∨ OracleAddress st = Some a →
    pm_status x ≠ Resolved → pm_resolution_window_end x < timestamp e → o < pm_num_outcomes x →
    transition c e st m x {| x with pm_status := Resolved; pm_resolved_outcome := Some o |}
| closed a :
    c = CCloseMarketEarly a m → Admin st = Some a ∨ pm_creator x = a → pm_status x = Active →
    transition c e st m x {| x with pm_status := Closed |}
| disputed a o ev n :
    c = COpenDispute a m o ev n → 0 < n → pm_status x = Resolved →
    transition c e st m x {| x with pm_status := Disputed |}
| upheld a i d :
    c = CResolveDispute a m i → Admin st = Some a → DisputeAt st !! (m, i) = Some d → pending d = true →
    di_votes_against d < di_votes_for d →
    transition c e st m x
      {| x with pm_resolved_outcome := Some (di_claimed_outcome d); pm_status := Resolved |}
| rejected a i d :
    c = CResolveDispute a m i → Admin st = Some a → DisputeAt st !! (m, i) = Some d → pending d = true →
    di_votes_for d ≤ di_votes_against d →
    transition c e st m x {| x with pm_status := Resolved |}.

Section lifecycle.
Context `{TokenHost} `{!TokenLaws} (self : Address).
Implicit Types (w : World State Event) (e : Env).

(** The call writes the record of one market, as [transition] says. *)
Definition moves (c : Call) (e : Env) (w w' : World State Event) : Prop :=
  ∃ m x x', Market (store w) !! m = Some x ∧ transition c e (store w) m x x' ∧
    Market (store w') = <[m := x']> (Market (store w)).

Lemma create_market_new u ps e w r w' :
  create_market u ps e w = Ok (r, w') →
  ∃ x, Market (store w') = <[market_counter (store w) := x]> (Market (store w)).
Proof.
  intros Hr. unfold create_market, set_market in Hr.
  apply bind_Ok in Hr as ([] & w0 & Ha & Hr). minv Ha.
  do 6 (let Hg := fresh "Hg" in apply bind_Ok in Hr as ([] & w0 & Hg & Hr); minv Hg).
  apply bind_Ok in Hr as (m & w0 & Hm & Hr). minv Hm using get_market_counter.
  apply bind_Ok in Hr as (t & w0 & Ht & Hr). minv Ht. apply bind_Ok in Hr as (we & w0 & Hwe & Hr). minv Hwe.
  apply bind_Ok in Hr as ([] & w0 & Hs & Hr). apply modify_Ok in Hs.
  match type of Hr with ?rest e w0 = _ => assert (keeps Market rest) as Hk end.
  { unfold set_market_counter, seed_pool, set_outcome_pool, set_total_outcome_supply, set_market_collateral,
      set_lp_total_supply. pose proof (prediction_isqrt_reads eq). frame. }
  rewrite (Hk _ _ _ _ Hr), Hs. by eexists.
Qed.

Lemma resolve_market_moves a m o e w r w' :
  resolve_market a m o e w = Ok (r, w') → wf (store w) → moves (CResolveMarket a m o) e w w'.
Proof.
  intros Hr Hw. unfold resolve_market, get_market, set_market, get_default_oracle in Hr.
  apply bind_Ok in Hr as ([] & w0 & Ha & Hr). minv Ha. apply bind_Ok in Hr as (ox & w0 & Hox & Hr). minv Hox.
  apply bind_Ok in Hr as (x & w0 & Hx & Hr). minv Hx. apply bind_Ok in Hr as ([] & w0 & Hau & Hr).
  assert (w0 = w ∧ (a = pm_oracle_source x ∨ OracleAddress (store w) = Some a)) as [-> Hor].
  { minv Hau; zbool; split; try done; subst; auto. }
  clear Hau. minv Hr. zbool. eexists _, x, _. split; [exact Hx|]. split; [by eapply resolved|]. cbn.
  by rewrite (mo_id _ _ _ (wf_market _ Hw _ _ Hx)).
Qed.

Lemma close_market_moves a m e w r w' :
  close_market_early a m e w = Ok (r, w') → wf (store w) → moves (CCloseMarketEarly a m) e w w'.
Proof.
  intros Hr Hw. unfold close_market_early, get_market, set_market, get_admin in Hr.
  apply bind_Ok in Hr as ([] & w0 & Ha & Hr). minv Ha. apply bind_Ok in Hr as (ox & w0 & Hox & Hr). minv Hox.
  apply bind_Ok in Hr as (x & w0 & Hx & Hr). minv Hx. apply bind_Ok in Hr as (o & w0 & Had & Hr). minv Had.
  cbv zeta in Hr. apply bind_Ok in Hr as ([] & w0 & Hau & Hr). minv Hau.
  assert (Admin (store w) = Some a ∨ pm_creator x = a) as Hor.
  { destruct (Admin (store w)) as [a'|]; repeat case_bool_decide; naive_solver. }
  minv Hr. zbool. eexists _, x, _. split; [exact Hx|]. split; [by eapply closed|]. cbn.
  by rewrite (mo_id _ _ _ (wf_market _ Hw _ _ Hx)).
Qed.

Lemma open_dispute_moves a m o ev n e w r w' :
  open_dispute a m o ev n e w = Ok (r, w') → wf (store w) → moves (COpenDispute a m o ev n) e w w'.
Proof.
  intros Hr Hw. unfold open_dispute, get_market, set_market, get_dispute_counter, set_dispute,
    set_dispute_counter in Hr.
  apply bind_Ok in Hr as ([] & w0 & Ha & Hr). minv Ha. apply bind_Ok in Hr as (ox & w0 & Hox & Hr). minv Hox.
  apply bind_Ok in Hr as (x & w0 & Hx & Hr). minv Hx.
  minv Hr. zbool. eexists _, x, _. split; [exact Hx|]. split; [by eapply disputed|]. cbn.
  by rewrite (mo_id _ _ _ (wf_market _ Hw _ _ Hx)).
Qed.

Lemma resolve_dispute_moves a m i e w r w' :
  resolve_dispute a m i e w = Ok (r, w') → wf (store w) → moves (CResolveDispute a m i) e w w'.
Proof.
  intros Hr Hw. unfold resolve_dispute, get_dispute, set_dispute, set_market, get_governance_collector in Hr.
  apply bind_Ok in Hr as ([] & w0 & Ha & Hr). minv Ha.
  apply bind_Ok in Hr as ([] & w0 & Had & Hr). apply prediction_assert_admin_spec in Had as [Had ->].
  apply bind_Ok in Hr as (o & w0 & Ho & Hr). minv Ho. apply bind_Ok in Hr as (d & w0 & Hd & Hr). minv Hd.
  apply bind_Ok in Hr as ([] & w0 & Hop & Hr). minv Hop. apply bind_Ok in Hr as (t & w0 & Ht & Hr). minv Ht.
  assert (pending d = true) as Hp by (unfold pending; destruct (di_status d); try done; by cbn in Hop).
  clear Hop. destruct (di_votes_for d >? di_votes_against d) eqn:Hv; zbool;
    apply bind_Ok in Hr as (x & w0 & Hx & Hr); apply unwrap_market_spec in Hx as [Hx ->].
  - minv Hr. eexists _, x, _. split; [exact Hx|]. split; [eapply upheld; try done; lia|]. cbn.
    by rewrite (mo_id _ _ _ (wf_market _ Hw _ _ Hx)).
  - apply bind_Ok in Hr as (c & w0 & Hc & Hr). minv Hc. apply bind_Ok in Hr as ([] & w0 & Hpay & Hr).
    assert (store w0 = store w) as Hst by (minv Hpay; done). clear Hpay.
    minv Hr. eexists _, x, _. split; [exact Hx|]. split; [by eapply rejected|]. cbn.
    by rewrite Hst, (mo_id _ _ _ (wf_market _ Hw _ _ Hx)).
Qed.

(** What a call does to the markets: nothing, a new one, or one transition. *)
Lemma exec_markets c e w w' :
  exec c e w = Ok (tt, w') → wf (store w) →
  Market (store w') = Market (store w) ∨
  (∃ x, Market (store w') = <[market_counter (store w) := x]> (Market (store w))) ∨ moves c e w w'.
Proof.
  intros Hr Hw.
  destruct c; try (left; match type of Hr with exec ?c _ _ = _ =>
    pose proof (prediction_quiet_keeps c I _ _ _ _ Hr) as Hk; unfold governed in Hk; congruence end);
    cbn [exec] in Hr; try (apply discard_Ok in Hr as [r Hr]);
    eauto using create_market_new, resolve_market_moves, close_market_moves, open_dispute_moves, resolve_dispute_moves.
  - left. unfold initialize, get_admin, set_admin, set_default_oracle, set_market_counter, set_trading_paused in Hr.
    by minv Hr.
  - left. assert (keeps Market (vote_dispute voter market_id dispute_id support)) as Hk.
    { unfold vote_dispute, get_dispute, has_voted, unwrap_market, get_market, get_outcome_balance, set_vote,
        set_dispute. frame. }
    by eapply Hk.
  - left. unfold admin_set_admin, assert_admin, get_admin, set_admin in Hr. by minv Hr.
Qed.
End lifecycle.

(** ** The tally of a dispute *)

(** The votes recorded for dispute [k]. *)
Definition votes (v : gmap (Z * Z * Address) Z) (k : Z * Z) : Z :=
  msum (λ kv n, if bool_decide (fst kv = k) then n else 0) v.

Record tallied (st : State) : Prop := {
  ta_sum k d : DisputeAt st !! k = Some d → votes (DisputeVote st) k = di_votes_for d + di_votes_against d;
  ta_known k u n : DisputeVote st !! (k, u) = Some n → is_Some (DisputeAt st !! k) ∧ 0 < n;
}.

Lemma votes_none v k : (∀ u, v !! (k, u) = None) → votes v k = 0.
Proof.
  intros Hv. apply msum_zero. intros [k' u] n Hn. cbn. case_bool_decide; [|done]. subst. by rewrite Hv in Hn.
Qed.

Lemma votes_insert v k u n k' :
  v !! (k, u) = None → votes (<[(k, u) := n]> v) k' = votes v k' + (if bool_decide (k' = k) then n else 0).
Proof.
  intros Hv. unfold votes. rewrite msum_insert_fresh by done. cbn. repeat case_bool_decide; subst; try done; lia.
Qed.

Section tally.
Context `{TokenHost} `{!TokenLaws} (self : Address).
Implicit Types (w : World State Event) (e : Env).

(** The dispute written keeps the sum of the votes when none is recorded. *)
Lemma tallied_rewrite st st' k d d' :
  tallied st → DisputeAt st !! k = Some d → DisputeAt st' = <[k := d']> (DisputeAt st) →
  DisputeVote st' = DisputeVote st → di_votes_for d' = di_votes_for d → di_votes_against d' = di_votes_against d →
  tallied st'.
Proof.
  intros Ht Hd E1 E2 F1 F2. split; rewrite E1, E2.
  - intros k' q [[<- <-]|[_ Hq]]%lookup_insert_Some; [rewrite F1, F2|]; by apply (ta_sum _ Ht).
  - intros k' u n Hn. destruct (ta_known _ Ht _ _ _ Hn) as [Hk Hpos]. split; [|done].
    by apply is_Some_insert.
Qed.

Lemma open_dispute_tallied a m o ev n e w r w' :
  open_dispute a m o ev n e w = Ok (r, w') → wf (store w) → tallied (store w) → tallied (store w').
Proof.
  intros Hr Hw Ht. destruct (wf_next _ Hw m) as [_ Hn].
  assert (DisputeAt (store w) !! (m, default 0 (DisputeCounter (store w) !! m)) = None) as Hfresh.
  { destruct (DisputeAt (store w) !! _) as [d|] eqn:Hd; [|done].
    destruct (wf_dispute _ Hw _ _ Hd) as (_ & _ & [_ Hlt _ _ _]). cbn in Hlt. lia. }
  unfold open_dispute, get_market, set_market, get_dispute_counter, set_dispute, set_dispute_counter in Hr.
  minv Hr. split; cbn.
  - intros k q [[<- <-]|[_ Hq]]%lookup_insert_Some; [|by apply (ta_sum _ Ht)]. cbn. apply votes_none.
    intros u. destruct (DisputeVote (store w) !! _) eqn:Hv; [|done].
    destruct (ta_known _ Ht _ _ _ Hv) as [[? ?] _]. congruence.
  - intros k u z Hz. destruct (ta_known _ Ht _ _ _ Hz) as [Hk Hpos]. split; [|done].
    by apply is_Some_insert.
Qed.

Lemma vote_dispute_tallied a m i b e w r w' :
  vote_dispute a m i b e w = Ok (r, w') → wf (store w) → tallied (store w) → tallied (store w').
Proof.
  intros Hr Hw Ht. unfold vote_dispute, get_dispute, has_voted, set_vote, set_dispute in Hr.
  apply bind_Ok in Hr as ([] & w0 & Ha & Hr). minv Ha.
  apply bind_Ok in Hr as (o & w0 & Ho & Hr). minv Ho. apply bind_Ok in Hr as (d & w0 & Hd & Hr). minv Hd.
  apply bind_Ok in Hr as ([] & w0 & Hop & Hr). minv Hop. apply bind_Ok in Hr as (v & w0 & Hv & Hr). minv Hv.
  apply bind_Ok in Hr as ([] & w0 & Hnv & Hr). minv Hnv. zbool. apply eq_None_not_Some in Hnv.
  apply bind_Ok in Hr as (x & w0 & Hx & Hr). apply unwrap_market_spec in Hx as [Hx ->].
  apply bind_Ok in Hr as (wt & w0 & Hwt & Hr).
  assert (w0 = w) as ->.
  { eapply reads_pure; [|exact Hwt]. apply reads_foldM. intros. unfold get_outcome_balance.
    apply reads_bind; [|eauto with contracts]. apply reads_gets. by intros ? ? ->. }
  apply bind_Ok in Hr as ([] & w0 & Hpos & Hr). minv Hpos. zbool. clear Hop Hwt.
  pose proof (ta_sum _ Ht _ _ Hd) as Hsum.
  apply bind_Ok in Hr as ([] & w0 & Hs & Hr). minv Hs. apply bind_Ok in Hr as (d' & w0 & Hd' & Hr).
  assert (di_market_id d' = m ∧ di_dispute_id d' = i ∧
    di_votes_for d' + di_votes_against d' = di_votes_for d + di_votes_against d + wt ∧
    store w0 = {| (store w) with DisputeVote := <[(m, i, a) := wt]> (DisputeVote (store w)) |})
    as (Hk1 & Hk2 & Hadd & Hst).
  { destruct b; minv Hd'; inv_checked; cbn; destruct (wf_dispute _ Hw _ _ Hd) as (_ & _ & [Hk _ _ _ _]);
    injection Hk as Hm Hi; split_and!; try done; lia. }
  clear Hd'. minv Hr. rewrite Hst. split; cbn.
  - intros k q [[<- <-]|[Hne Hq]]%lookup_insert_Some; rewrite votes_insert by done.
    + rewrite bool_decide_eq_true_2 by (by f_equal). cbn. lia.
    + rewrite bool_decide_eq_false_2 by congruence. rewrite Z.add_0_r. by apply (ta_sum _ Ht).
  - intros k u z [[Hku <-]|[_ Hz]]%lookup_insert_Some.
    + injection Hku as <- <-. split; [|done]. apply is_Some_insert. by eexists.
    + destruct (ta_known _ Ht _ _ _ Hz) as [Hkn Hz0]. split; [|done].
      by apply is_Some_insert.
Qed.

Lemma resolve_dispute_tallied a m i e w r w' :
  resolve_dispute a m i e w = Ok (r, w') → wf (store w) → tallied (store w) → tallied (store w').
Proof.
  intros Hr Hw Ht. unfold resolve_dispute, get_dispute, set_dispute, set_market, get_governance_collector in Hr.
  apply bind_Ok in Hr as ([] & w0 & Ha & Hr). minv Ha.
  apply bind_Ok in Hr as ([] & w0 & Had & Hr). apply prediction_assert_admin_spec in Had as [Had ->].
  apply bind_Ok in Hr as (o & w0 & Ho & Hr). minv Ho. apply bind_Ok in Hr as (d & w0 & Hd & Hr). minv Hd.
  apply bind_Ok in Hr as ([] & w0 & Hop & Hr). minv Hop. apply bind_Ok in Hr as (t & w0 & Ht' & Hr). minv Ht'.
  clear Hop. destruct (di_votes_for d >? di_votes_against d);
    apply bind_Ok in Hr as (x & w0 & Hx & Hr); apply unwrap_market_spec in Hx as [Hx ->].
  - minv Hr. destruct (wf_dispute _ Hw _ _ Hd) as (_ & _ & [Hk _ _ _ _]). rewrite <- Hk in Hd.
    by eapply (tallied_rewrite _ _ _ _ _ Ht Hd).
  - apply bind_Ok in Hr as (c & w0 & Hc & Hr). minv Hc. apply bind_Ok in Hr as ([] & w0 & Hpay & Hr).
    assert (store w0 = store w) as Hst by (minv Hpay; done). clear Hpay.
    minv Hr. destruct (wf_dispute _ Hw _ _ Hd) as (_ & _ & [Hk _ _ _ _]). rewrite <- Hk in Hd.
    rewrite Hst. by eapply (tallied_rewrite _ _ _ _ _ Ht Hd).
Qed.

Lemma tallied_same st st' :
  DisputeAt st' = DisputeAt st → DisputeVote st' = DisputeVote st → tallied st → tallied st'.
Proof. intros E1 E2 [Hs Hk]. by split; rewrite E1, E2. Qed.

Definition ballots (s : State) := (DisputeAt s, DisputeVote s).

Lemma ballots_tallied {A} (m : M State Empty_set Event A) e w r w' :
  keeps ballots m → m e w = Ok (r, w') → tallied (store w) → tallied (store w').
Proof. intros Hk Hr. specialize (Hk _ _ _ _ Hr). unfold ballots in Hk. by apply tallied_same; congruence. Qed.

Lemma exec_tallied c e w w' :
  exec c e w = Ok (tt, w') → wf (store w) → tallied (store w) → tallied (store w').
Proof.
  intros Hr Hw Ht.
  destruct c; try (match type of Hr with exec ?c _ _ = _ =>
    pose proof (prediction_quiet_keeps c I _ _ _ _ Hr) as Hk; unfold governed in Hk; eapply tallied_same; [| |exact Ht];
    congruence end);
    cbn [exec] in Hr; try (apply discard_Ok in Hr as [r Hr]);
    eauto using open_dispute_tallied, vote_dispute_tallied, resolve_dispute_tallied;
    refine (ballots_tallied _ _ _ _ _ _ Hr Ht);
    unfold initialize, create_market, resolve_market, close_market_early, admin_set_admin, assert_admin, get_admin,
      get_market, set_market, get_market_counter, set_market_counter, get_default_oracle, seed_pool,
      set_outcome_pool, set_total_outcome_supply, set_market_collateral, set_lp_total_supply, set_admin,
      set_default_oracle, set_trading_paused; pose proof (prediction_isqrt_reads eq); frame.
Qed.

Lemma prediction_reach_tallied t w : reachable self t w → tallied (store w).
Proof.
  intros (t0 & l & lg & Hl & Hr).
  apply (reach_in_inv_world exec call_ok early self (λ _ w, inv self none w ∧ tallied (store w))) in Hr; [tauto| | |].
  - intros t' c e w0 w0' He _ Hok Hal [Hi Ht] Hrun. split; [by eapply prediction_exec_inv|].
    eapply exec_tallied; [exact Hrun|apply Hi|done].
  - intros t1 t2 w0 l' _ Hl' [[Hw Hc] Ht]. split; [|done]. split; [done|].
    intros tk. specialize (Hc tk). specialize (Hl' tk). cbn in *. lia.
  - split; [by apply prediction_deployed_inv|by split].
Qed.
End tally.

(** ** The theorems *)

Section theorems.
Context `{TokenHost} `{!TokenLaws} (self : Address).
Implicit Types (w : World State Event) (e : Env).

Lemma reachable_wf t w : reachable self t w → wf (store w).
Proof. intros Hr. apply (prediction_reachable_inv _ _ _ Hr). Qed.

(** C22: in every history from deployment in which
    the initialization does not come late (it resets the market counter, so it
    must precede the first market; the token balances of the contract are not
    negative at the start), the contract
    holds, in each token, at least the collateral booked for the markets that
    trade in it, the collateral locked in open buy orders and the stakes of
    disputes not yet resolved; and the pools of a market never hold more than
    the collateral booked for that market. *)
Theorem prediction_custody t w :
  reachable self t w →
  (∀ tk, owed_in (store w) tk ≤ tok_balance (ledger w) tk self) ∧
  (∀ m, reserves (OutcomePoolAt (store w)) m ≤ default 0 (MarketCollateral (store w) !! m)).
Proof.
  intros Hr. destruct (prediction_reachable_inv _ _ _ Hr) as [Hw Hc]. split; [|apply (wf_reserves _ Hw)].
  intros tk. specialize (Hc tk). unfold none in Hc. lia.
Qed.

(** A purchase delivers what [quote_buy]
    answered just before and never lowers the product of the pool's reserves; a
    sale pays what [quote_sell] answered and lowers the product by less than
    the new outcome reserve. *)
Theorem trade_quotes t w :
  reachable self t w →
  (∀ b m i n min e out w', buy_outcome b m i n min e w = Ok (out, w') →
     quote_buy m i n e w = Ok (out, w) ∧ min ≤ out ∧
     ∃ p p', OutcomePoolAt (store w) !! (m, i) = Some p ∧ OutcomePoolAt (store w') !! (m, i) = Some p' ∧
       op_outcome_reserve p' = op_outcome_reserve p - out ∧
       op_collateral_reserve p * op_outcome_reserve p ≤ op_collateral_reserve p' * op_outcome_reserve p') ∧
  (∀ s m i a min e out w', sell_outcome s m i a min e w = Ok (out, w') →
     quote_sell m i a e w = Ok (out, w) ∧ min ≤ out ∧
     ∃ p p', OutcomePoolAt (store w) !! (m, i) = Some p ∧ OutcomePoolAt (store w') !! (m, i) = Some p' ∧
       op_collateral_reserve p' = op_collateral_reserve p - out ∧
       op_collateral_reserve p * op_outcome_reserve p - op_outcome_reserve p'
         < op_collateral_reserve p' * op_outcome_reserve p').
Proof.
  intros Hr. pose proof (reachable_wf _ _ Hr) as Hw. split.
  - intros b m i n min e out w' Hrun.
    destruct (buy_outcome_spec _ _ _ _ _ _ _ _ _ Hrun Hw)
      as (_ & Hn & Hmin & Hout & x & p & up & Hx & _ & _ & Hp & Hc & Hy & Hnet & Hq & Ho & _ & _ & Hst).
    split; [|split; [done|]].
    + unfold quote_buy, get_outcome_pool, unwrap_market, get_market, gets.
      rewrite (bind_run _ _ _ _ _ _ eq_refl), Hp, (bind_run _ _ _ _ _ _ eq_refl).
      rewrite (bind_run _ _ _ _ x w); [done|]. rewrite (bind_run _ _ _ _ _ _ eq_refl). by rewrite Hx.
    + exists p. rewrite Hst. cbn. rewrite lookup_insert_eq. eexists. split_and!; [done|done|done|]. cbn.
      rewrite Ho. apply bought_product; lia.
  - intros b m i a min e out w' Hrun.
    destruct (sell_outcome_spec _ _ _ _ _ _ _ _ _ Hrun Hw)
      as (_ & Ha & Hmin & Hout & x & p & up & Hx & _ & _ & Hp & _ & Hc & Hy & Hq & Ho & _ & Hst).
    split; [|split; [done|]].
    + unfold quote_sell, get_outcome_pool, unwrap_market, get_market, gets.
      rewrite (bind_run _ _ _ _ _ _ eq_refl), Hp, (bind_run _ _ _ _ _ _ eq_refl).
      rewrite (bind_run _ _ _ _ x w); [done|]. rewrite (bind_run _ _ _ _ _ _ eq_refl). by rewrite Hx.
    + exists p. rewrite Hst. cbn. rewrite lookup_insert_eq. eexists. split_and!; [done|done|done|]. cbn.
      pose proof (mo_fee _ _ _ (wf_market _ Hw _ _ Hx)) as Hfee. unfold MAX_TRADING_FEE_BPS in Hfee.
      rewrite Ho. apply sold_for_bounds; lia.
Qed.

(** C23: whoever buys outcome tokens and sells
    all of them back before anyone else trades receives at most the collateral
    paid, less the fee of the purchase; the pool has its outcome tokens back and
    no less collateral than before. *)
Theorem buy_sell_roundtrip t w b m i n min e out w1 min' e' back w2 :
  reachable self t w → wf_env self e →
  buy_outcome b m i n min e w = Ok (out, w1) → sell_outcome b m i out min' e' w1 = Ok (back, w2) →
  ∃ x p p', Market (store w) !! m = Some x ∧
    OutcomePoolAt (store w) !! (m, i) = Some p ∧ OutcomePoolAt (store w2) !! (m, i) = Some p' ∧
    back ≤ net_of n (pm_trading_fee_bps x) ∧ net_of n (pm_trading_fee_bps x) ≤ n ∧
    op_outcome_reserve p' = op_outcome_reserve p ∧
    op_collateral_reserve p ≤ op_collateral_reserve p'.
Proof.
  intros Hr He Hb Hs. pose proof (prediction_reachable_inv _ _ _ Hr) as Hi. pose proof (proj1 Hi) as Hw.
  pose proof (buy_inv _ _ _ _ _ _ _ _ _ _ Hb He Hi) as [Hw1 _].
  destruct (buy_outcome_spec _ _ _ _ _ _ _ _ _ Hb Hw)
    as (_ & Hn & _ & Hout & x & p & up & Hx & _ & _ & Hp & Hc & Hy & Hnet & _ & Ho & _ & _ & Hst).
  destruct (sell_outcome_spec _ _ _ _ _ _ _ _ _ Hs Hw1)
    as (_ & _ & _ & Hback & x1 & p1 & up1 & Hx1 & _ & _ & Hp1 & _ & Hc1 & Hy1 & _ & Ho1 & _ & Hst1).
  rewrite Hst in Hx1, Hp1. cbn in Hx1, Hp1. rewrite Hx in Hx1. injection Hx1 as <-.
  rewrite lookup_insert_eq in Hp1. injection Hp1 as <-. cbn in Ho1.
  pose proof (mo_fee _ _ _ (wf_market _ Hw _ _ Hx)) as Hfee. unfold MAX_TRADING_FEE_BPS in Hfee.
  pose proof (net_of_bounds n _ ltac:(lia) Hfee) as Hle.
  destruct (bought_product _ _ _ Hc Hy Hnet) as [Hb1 Hk]. rewrite <- Ho in Hb1, Hk.
  destruct (sold_for_bounds (op_collateral_reserve p + net_of n (pm_trading_fee_bps x))
    (op_outcome_reserve p - out) out (pm_trading_fee_bps x)) as [[_ Hsell] _]; [lia..|].
  replace (op_outcome_reserve p - out + out) with (op_outcome_reserve p) in Hsell by lia.
  assert (op_collateral_reserve p ≤ ((op_collateral_reserve p + net_of n (pm_trading_fee_bps x))
    * (op_outcome_reserve p - out)) `div` op_outcome_reserve p) by (apply Z.div_le_lower_bound; lia).
  exists x, p. rewrite Hst1. cbn. rewrite lookup_insert_eq. eexists. split_and!; try done; cbn; lia.
Qed.

(** Once created, a market is never removed,
    and a call changes its record in one of five ways only: the market's oracle
    or the default one resolves it after its window closed, its creator or the
    admin closes it while active, a challenger with a stake disputes a resolved
    market, the admin upholds or rejects a dispute as its votes say. *)
Theorem market_lifecycle t w c e w' m x :
  reachable self t w → exec c e w = Ok (tt, w') → Market (store w) !! m = Some x →
  ∃ x', Market (store w') !! m = Some x' ∧ transition c e (store w) m x x'.
Proof.
  intros Hr Hrun Hx. pose proof (reachable_wf _ _ Hr) as Hw.
  destruct (exec_markets _ _ _ _ Hrun Hw) as [->|[[y ->]|(m' & y & y' & Hy & Ht & ->)]].
  - exists x. split; [done|]. constructor.
  - exists x. split; [|constructor]. rewrite lookup_insert_ne; [done|].
    pose proof (mo_range _ _ _ (wf_market _ Hw _ _ Hx)). lia.
  - destruct (decide (m = m')) as [->|Hne].
    + rewrite lookup_insert_eq. rewrite Hx in Hy. injection Hy as <-. eauto.
    + exists x. split; [by rewrite lookup_insert_ne|constructor].
Qed.

(** The votes counted for and against a dispute
    are exactly the weights recorded for its voters, one record per voter. *)
Theorem dispute_tally t w k d :
  reachable self t w → DisputeAt (store w) !! k = Some d →
  votes (DisputeVote (store w)) k = di_votes_for d + di_votes_against d.
Proof.
  intros Hr Hd. exact (ta_sum _ (prediction_reach_tallied _ _ _ Hr) _ _ Hd).
Qed.

(** A call of the market's own oracle after the window goes through. *)
Lemma resolve_market_runs m x o e w :
  Market (store w) !! m = Some x → authorized e (pm_oracle_source x) = true → pm_status x ≠ Resolved →
  pm_resolution_window_end x < timestamp e → o < pm_num_outcomes x →
  exec (CResolveMarket (pm_oracle_source x) m o) e w = Ok (tt,
    mkWorld {| (store w) with Market := <[pm_market_id x :=
        {| x with pm_status := Resolved; pm_resolved_outcome := Some o |}]> (Market (store w)) |}
      (ledger w) (log w ++ [MarketResolved m o (timestamp e)])).
Proof.
  intros Hx Ha Hs Ht Ho. cbn [exec]. unfold resolve_market, get_market, set_market, modify, gets, now, publish,
    require_auth, expect, panic_if, mbind, M_bind.
  rewrite Ha, Hx. cbn. rewrite bool_decide_eq_false_2 by (intros []; done). cbn.
  rewrite bool_decide_eq_false_2 by done. rewrite (proj2 (Z.leb_gt _ _)) by lia.
  by rewrite Z.geb_leb, (proj2 (Z.leb_gt _ _)) by lia.
Qed.

(** C24: a market can always still be resolved.  In every
    history from deployment in which the initialization does not come late (it
    resets the market counter, so it must precede the first market), and from
    every world of it, a market can be brought to a resolution by further calls:
    once its window is over its own oracle can resolve it, whether it is active,
    closed early or under dispute, and the resolution names one of its outcomes.
    The conditions are that the present time and the end of the window lie below
    the top of u64, so that there is a time after the window, and that the oracle
    is not the contract itself, which cannot sign. *)
Theorem market_resolvable t w m x :
  reachable self t w → t ≤ int_max U64 → Market (store w) !! m = Some x →
  0 ≤ pm_resolution_window_end x < int_max U64 → pm_oracle_source x ≠ self →
  ∃ t' w' x' o, rtc (step exec call_ok self) (t, w) (t', w') ∧
    Market (store w') !! m = Some x' ∧ pm_status x' = Resolved ∧
    pm_resolved_outcome x' = Some o ∧ 0 ≤ o < pm_num_outcomes x'.
Proof.
  intros Hr Ht Hx Hend Hor. pose proof (reachable_wf _ _ Hr) as Hw. pose proof (wf_market _ Hw _ _ Hx) as [].
  destruct (decide (pm_status x = Resolved)) as [Hs|Hs].
  - destruct (mo_resolved0 (or_introl Hs)) as [o Ho]. exists t, w, x, o. split_and!; try done; by apply mo_outcome0.
  - assert (∃ t', t' = Z.max t (pm_resolution_window_end x + 1)) as [t' Ht'] by eauto.
    set (e := mkEnv t' self (λ a, bool_decide (a = pm_oracle_source x)) 0).
    pose proof (resolve_market_runs m x 0 e w Hx) as Hrun.
    eexists t', _, _, 0. split; [|split].
    + eapply rtc_once, (step_call exec call_ok self t _ e); [|cbn; lia| |apply Hrun]; cbn [e timestamp authorized call_ok].
      * split; cbn [current_contract_address timestamp authorized sequence e]; [done|lia| |done].
        by apply bool_decide_eq_false_2.
      * lia.
      * by apply bool_decide_eq_true_2.
      * done.
      * lia.
      * unfold MAX_OUTCOMES in *. lia.
    + cbn. rewrite mo_id0. apply lookup_insert_eq.
    + cbn. unfold MAX_OUTCOMES in *. split_and!; try done; lia.
Qed.
End theorems.

(** ** A concrete market

    A creator opens a market with two outcomes; Alice buys outcome 0, Bob
    outcome 1, the oracle resolves to 0 and Bob disputes. *)

Module PredictionDemo.

Definition self := mkAddress "prediction".
Definition admin := mkAddress "admin".
Definition oracle := mkAddress "oracle".
Definition maker := mkAddress "maker".
Definition alice := mkAddress "alice".
Definition bob := mkAddress "bob".
Definition usd := mkAddress "usd".

Definition l0 : SimpleLedger :=
  sl_of [(usd, maker, 100000); (usd, alice, 100000); (usd, bob, 100000)].
Definition w0 : World State Event := mkWorld deployed l0 [].
Definition params := mkParams "rain tomorrow?" Events usd oracle 2 ["yes"; "no"] 60 1000000 100 10000.

Definition e0 := env_at 10 self [admin].
Definition w1 : World State Event := world_of (exec (CInitialize admin oracle) e0 w0) w0.

Definition opening : list (Z * list Address * Call) := [(100, [maker], CCreateMarket maker params)].
Definition traded := opening ++ [(110, [alice], CBuyOutcome alice 0 0 5000 0);
                                 (120, [bob], CBuyOutcome bob 0 1 2000 0)].
Definition disputed_at := traded ++ [(161, [oracle], CResolveMarket oracle 0 0);
  (170, [bob], COpenDispute bob 0 1 "it was dry" 50); (180, [bob], CVoteDispute bob 0 0 true);
  (180, [alice], CVoteDispute alice 0 0 false)].
Definition w_open := run_script exec self opening w1.
Definition w_traded := run_script exec self traded w1.
Definition w_disputed := run_script exec self disputed_at w1.

Lemma prediction_demo_reach (cs : list (Z * list Address * Call)) :
  script_ok exec self 0 ((10, [admin], CInitialize admin oracle) :: cs) w0 = true →
  script_allowed exec self early ((10, [admin], CInitialize admin oracle) :: cs) w0 = true →
  Forall (λ c, call_ok c.2) cs →
  reachable self (script_end 10 cs) (run_script exec self cs w1).
Proof.
  intros Hs Hal Hok. exists 0, l0, []. split; [intros tk; by apply sl_of_nonneg|].
  refine (run_script_reach_in exec call_ok self early 0 (_ :: cs) w0 Hs Hal _). by constructor.
Qed.

Lemma open_reach : reachable self 100 w_open.
Proof. apply (prediction_demo_reach opening); [vm_compute; reflexivity..|]. repeat constructor; cbn; lia. Qed.
Lemma traded_reach : reachable self 120 w_traded.
Proof. apply (prediction_demo_reach traded); [vm_compute; reflexivity..|]. repeat constructor; cbn; lia. Qed.
Lemma disputed_reach : reachable self 180 w_disputed.
Proof. apply (prediction_demo_reach disputed_at); [vm_compute; reflexivity..|]. repeat constructor; cbn; lia. Qed.

(** A market created and traded before the initialization is replaced by the next
    one, and the orders on it are owed in the new market's token. *)
Definition eur := mkAddress "eur".
Definition lw : World State Event :=
  mkWorld deployed (sl_of [(usd, maker, 100000); (usd, alice, 100000); (eur, maker, 100000)]) [].
Definition late : list (Z * list Address * Call) :=
  [(10, [maker], CCreateMarket maker params); (20, [alice], CPlaceOrder alice 0 0 Buy 500000000000000000 10000);
   (30, [admin], CInitialize admin oracle);
   (40, [maker], CCreateMarket maker (mkParams "snow tomorrow?" Events eur oracle 2 ["yes"; "no"] 60 1000000 100 10000))].

Example late_initialize_uncovered :
  script_ok exec self 0 late lw = true ∧
  tok_balance (ledger (run_script exec self late lw)) eur self < owed_in (store (run_script exec self late lw)) eur.
Proof. split; vm_compute; reflexivity. Qed.

Lemma prediction_custody_witness :
  owed_in (store w_disputed) usd = 27050 ∧ 27050 ≤ tok_balance (ledger w_disputed) usd self.
Proof.
  split; [vm_compute; reflexivity|]. destruct (prediction_custody self 180 w_disputed disputed_reach) as [Hc _].
  specialize (Hc usd). replace (owed_in (store w_disputed) usd) with 27050 in Hc by (vm_compute; reflexivity). exact Hc.
Defined.

Definition e_trade := env_at 130 self [alice].
Definition w_bought := world_of (buy_outcome alice 0 0 1000 0 e_trade w_traded) w_traded.

Lemma trade_quotes_witness : quote_buy 0 0 1000 e_trade w_traded = Ok (415, w_traded).
Proof.
  destruct (trade_quotes self 120 w_traded traded_reach) as [Hb _].
  destruct (Hb alice 0 0 1000 0 e_trade 415 w_bought) as [Hq _]; [|exact Hq].
  unfold w_bought. apply (run_ok_val _ _ 0); vm_compute; reflexivity.
Defined.

Definition w_back := world_of (sell_outcome alice 0 0 415 0 e_trade w_bought) w_bought.

Lemma buy_sell_roundtrip_witness :
  ∃ back x, sell_outcome alice 0 0 415 0 e_trade w_bought = Ok (back, w_back) ∧
    Market (store w_traded) !! 0 = Some x ∧ back ≤ net_of 1000 (pm_trading_fee_bps x).
Proof.
  assert (sell_outcome alice 0 0 415 0 e_trade w_bought
          = Ok (value_of (sell_outcome alice 0 0 415 0 e_trade w_bought) 0, w_back)) as Hs.
  { unfold w_back. apply run_ok. vm_compute. reflexivity. }
  set (back := value_of _ _) in Hs.
  destruct (buy_sell_roundtrip self 120 w_traded alice 0 0 1000 0 e_trade 415 w_bought 0 e_trade back w_back
    traded_reach) as (x & p & p' & Hx & _ & _ & Hle & _).
  - by apply env_at_wf.
  - unfold w_bought. apply (run_ok_val _ _ 0); vm_compute; reflexivity.
  - exact Hs.
  - exists back, x. split; [exact Hs|]. split; [exact Hx|exact Hle].
Defined.

Definition e_resolve := env_at 200 self [admin].
Definition w_settled := world_of (exec (CResolveDispute admin 0 0) e_resolve w_disputed) w_disputed.

Lemma market_lifecycle_witness :
  ∃ x x', Market (store w_disputed) !! 0 = Some x ∧ Market (store w_settled) !! 0 = Some x' ∧
    transition (CResolveDispute admin 0 0) e_resolve (store w_disputed) 0 x x' ∧
    pm_status x = Disputed ∧ pm_status x' = Resolved.
Proof.
  assert (pm_status <$> Market (store w_disputed) !! 0 = Some Disputed) as (x & Hx & Hsx)%fmap_Some
    by (vm_compute; reflexivity).
  destruct (market_lifecycle self 180 w_disputed (CResolveDispute admin 0 0) e_resolve w_settled 0 x
    disputed_reach) as (x' & Hx' & Ht).
  - unfold w_settled. apply run_ok_unit. vm_compute. reflexivity.
  - exact Hx.
  - exists x, x'. split; [done|]. split; [exact Hx'|]. split; [exact Ht|]. split; [done|].
    assert (pm_status <$> Market (store w_settled) !! 0 = Some Resolved) as Hs by (vm_compute; reflexivity).
    rewrite Hx' in Hs. by injection Hs.
Defined.

Lemma dispute_tally_witness :
  ∃ d, DisputeAt (store w_disputed) !! (0, 0) = Some d ∧
    votes (DisputeVote (store w_disputed)) (0, 0) = di_votes_for d + di_votes_against d ∧
    0 < di_votes_for d ∧ 0 < di_votes_against d.
Proof.
  assert ((λ d, (0 <? di_votes_for d) && (0 <? di_votes_against d)) <$> DisputeAt (store w_disputed) !! (0, 0)
    = Some true) as (d & Hd & Hpos)%fmap_Some by (vm_compute; reflexivity).
  exists d. split; [done|]. split; [exact (dispute_tally self 180 w_disputed (0, 0) d disputed_reach Hd)|].
  clear Hd. symmetry in Hpos. by apply andb_prop in Hpos as [?%Z.ltb_lt ?%Z.ltb_lt].
Defined.

Lemma market_resolvable_witness :
  ∃ t' w' x' o, rtc (step exec call_ok self) (180, w_disputed) (t', w') ∧
    Market (store w') !! 0 = Some x' ∧ pm_status x' = Resolved ∧
    pm_resolved_outcome x' = Some o ∧ 0 ≤ o < pm_num_outcomes x'.
Proof.
  assert ((λ x, (pm_resolution_window_end x, pm_oracle_source x)) <$> Market (store w_disputed) !! 0
    = Some (160, oracle)) as (x & Hm & Hx)%fmap_Some by (vm_compute; reflexivity). injection Hx as He Ho.
  refine (market_resolvable self 180 w_disputed 0 x disputed_reach _ Hm _ _).
  - clear. by vm_compute.
  - rewrite <- He. clear. by vm_compute.
  - rewrite <- Ho. clear. discriminate.
Defined.

(** The shares of a market's pools are one balance: shares
    minted by a deposit in the cheap pool redeem the dear one.  Alice deposits
    10000 for outcome 1 and leaves with what Bob's purchases put in the pool of
    outcome 0. *)
Definition raided := opening ++ [(110, [bob], CBuyOutcome bob 0 0 20000 0);
  (120, [alice], CAddLiquidity alice 0 1 10000 10000); (120, [alice], CRemoveLiquidity alice 0 0 10000)].
Definition w_raided := run_script exec self raided w1.

Theorem lp_shares_cross_pools :
  script_ok exec self 10 raided w1 = true ∧
  tok_balance l0 usd alice = 100000 ∧ tok_balance (ledger w_raided) usd alice = 119800.
Proof. vm_compute. repeat split. Qed.

(** While a dispute is being voted on the oracle can resolve the
    market again: only the status [Resolved] is refused. *)
Definition re_resolved := disputed_at ++ [(190, [oracle], CResolveMarket oracle 0 1)].

Theorem disputed_market_resolved_again :
  script_ok exec self 10 re_resolved w1 = true ∧
  option_map pm_resolved_outcome (Market (store w_disputed) !! 0) = Some (Some 0) ∧
  option_map pm_resolved_outcome (Market (store (run_script exec self re_resolved w1)) !! 0) = Some (Some 1).
Proof. vm_compute. repeat split. Qed.

(** The tokens of a sell order stay with the seller: Alice sells
    them to the pool after placing the order, and the match still delivers them
    to Bob.  The tokens the two hold exceed the supply. *)
Definition unbacked := opening ++ [(110, [alice], CBuyOutcome alice 0 0 1000 0);
  (120, [alice], CPlaceOrder alice 0 0 Sell DECIMAL_FACTOR 900); (121, [alice], CSellOutcome alice 0 0 900 0);
  (122, [bob], CPlaceOrder bob 0 0 Buy DECIMAL_FACTOR 900); (123, [alice], CMatchSellOrder alice 0 0)].
Definition w_unbacked := run_script exec self unbacked w1.

Theorem sell_order_unbacked :
  script_ok exec self 10 unbacked w1 = true ∧
  OutcomeBalance (store w_unbacked) !! (0, 0, alice) = None ∧
  OutcomeBalance (store w_unbacked) !! (0, 0, bob) = Some 900 ∧
  TotalOutcomeSupply (store w_unbacked) !! (0, 0) = Some 0.
Proof. vm_compute. repeat split. Qed.
End PredictionDemo.
