(* ===== verification/OracleMath.v ===== *)
(** * contracts/oracle: the records and the price aggregation

    types.rs, the error codes of errors.rs and price_aggregator.rs.  A function
    that raises an [OracleError] aborts the invocation with that code. *)

From stdpp Require Import gmap strings list sorting.
From S2P Require Import Prelude Soroban.
Open Scope Z_scope.

(** ** errors.rs *)

Inductive OracleError :=
| AlreadyInitialized | Unauthorized | ProviderNotFound | ProviderAlreadyExists | FeedNotFound
| FeedAlreadyExists | StalePrice | CircuitBreakerTriggered | RateLimitExceeded | InsufficientStake
| InvalidPrice | UpdateTooEarly | NoActiveProviders | AggregationFailed | SubscriptionExpired
| InvalidInput | NotEnoughSources | ProviderInactive | FeedInactive | CooldownActive
| InsufficientBalance.

(** ** types.rs *)

Inductive OracleProviderType := Chainlink | Pyth | Band | Custom.

Record OracleProvider := mkProvider {
  pv_address : Address;
  pv_provider_type : OracleProviderType;
  pv_is_primary : bool;
  pv_is_active : bool;
  pv_reputation_score : Z;
  pv_total_updates : Z;
  pv_successful_updates : Z;
  pv_staked_amount : Z;
  pv_created_at : Z;
}.

Record PriceFeed := mkFeed {
  pf_feed_id : Symbol;
  pf_asset_symbol : string;
  pf_description : string;
  pf_decimals : Z;
  pf_min_update_interval : Z;
  pf_max_staleness : Z;
  pf_is_active : bool;
  pf_circuit_breaker_enabled : bool;
  pf_max_price_change_bps : Z;
  pf_providers : list Address;
  pf_created_at : Z;
}.

Record PriceEntry := mkEntry {
  pe_price : Z;
  pe_timestamp : Z;
  pe_provider : Address;
  pe_provider_type : OracleProviderType;
  pe_block_number : Z;
}.

Record HistoricalPrice := mkHistorical {
  hp_price : Z;
  hp_timestamp : Z;
  hp_block_number : Z;
  hp_aggregated : bool;
}.

Record AggregatedPrice := mkAggregated {
  ag_price : Z;
  ag_timestamp : Z;
  ag_sources_used : Z;
  ag_min_price : Z;
  ag_max_price : Z;
  ag_median_price : Z;
  ag_is_fresh : bool;
}.

Record CircuitBreakerState := mkBreaker {
  cb_triggered : bool;
  cb_triggered_at : option Z;
  cb_trigger_price : option Z;
  cb_previous_price : option Z;
  cb_price_change_bps : option Z;
  cb_cooldown_period : Z;
  cb_can_resume_at : option Z;
}.

Record QueryRateLimit := mkRateLimit {
  rl_window_seconds : Z;
  rl_max_queries : Z;
  rl_queries_used : Z;
  rl_window_start : Z;
}.

Inductive SubscriptionTier := Free | Basic | Premium | Unlimited.

Record FeedSubscription := mkSubscription {
  fs_subscriber : Address;
  fs_feed_id : Symbol;
  fs_tier : SubscriptionTier;
  fs_expires_at : Z;
  fs_queries_remaining : Z;
  fs_auto_renew : bool;
  fs_created_at : Z;
}.

Inductive RewardType := UpdateReward | QualityReward | Penalty.

Record IncentiveDistribution := mkDistribution {
  id_distribution_id : Z;
  id_provider : Address;
  id_amount : Z;
  id_feed_id : Symbol;
  id_timestamp : Z;
  id_reward_type : RewardType;
}.

Record CustomDataFeed := mkCustomFeed {
  cf_feed_id : Symbol;
  cf_description : string;
  cf_data_type : string;
  cf_is_active : bool;
  cf_authorized_providers : list Address;
  cf_last_update : Z;
  cf_max_staleness : Z;
}.

Record CustomDataEntry := mkCustomEntry {
  ce_data : string;
  ce_timestamp : Z;
  ce_provider : Address;
  ce_block_number : Z;
}.

Record FallbackConfig := mkFallback {
  fb_enabled : bool;
  fb_fallback_providers : list Address;
  fb_primary_failure_threshold : Z;
  fb_current_failures : Z;
  fb_using_fallback : bool;
}.

Record ProviderHealth := mkHealth {
  ph_provider : Address;
  ph_consecutive_failures : Z;
  ph_last_successful_update : Z;
  ph_price_deviation_count : Z;
  ph_availability_score : Z;
}.

#[global] Instance OracleProviderType_eq_dec : EqDecision OracleProviderType.
Proof. solve_decision. Defined.
#[global] Instance SubscriptionTier_eq_dec : EqDecision SubscriptionTier.
Proof. solve_decision. Defined.

(** ** price_aggregator.rs *)

(** [as i128] of a u128, and [as u32]. *)
Definition as_i128 (z : Z) : Z := (z + 2 ^ 127) mod 2 ^ 128 - 2 ^ 127.
Definition as_u32 (z : Z) : Z := z mod 2 ^ 32.

(** [slice::sort] on integers, and an index into a vector. *)
Definition sort : list Z → list Z := merge_sort Z.le.

Section aggregator.
Context `{TokenHost} {S Ev : Type}.

Local Abbreviation C := (M S OracleError Ev).

Definition index {A} (l : list A) (i : nat) : C A := expect (l !! i) "index out of bounds".

(** One round of the staleness filter: the prices kept and whether all were. *)
Definition fresh_step (max_staleness : Z) (acc : list Z * bool) (price : PriceEntry) : C (list Z * bool) :=
  t ← now;
  age ← plain_sub U64 t (pe_timestamp price);
  mret (if age <=? max_staleness then (acc.1 ++ [pe_price price], acc.2) else (acc.1, false)).

(** The middle value of a sorted vector, or the mean of the two middle ones. *)
Definition median (sorted_prices : list Z) : C Z :=
  let n := length sorted_prices in
  let median_idx := (n / 2)%nat in
  if (n mod 2 =? 0)%nat then
    a ← index sorted_prices (median_idx - 1);
    b ← index sorted_prices median_idx;
    s ← plain_add I128 a b;
    plain_div I128 s 2
  else index sorted_prices median_idx.

Definition latest_timestamp_of (prices : list PriceEntry) : Z :=
  foldl (λ latest entry, if pe_timestamp entry >? latest then pe_timestamp entry else latest) 0 prices.

Definition aggregate_prices (prices : list PriceEntry) (min_sources max_staleness : Z) : C AggregatedPrice :=
  throw_if (Z.of_nat (length prices) <? min_sources) NotEnoughSources;;
  acc ← foldM (fresh_step max_staleness) ([], true) prices;
  let valid_prices := fst acc in
  let is_fresh := snd acc in
  throw_if (Z.of_nat (length valid_prices) <? min_sources) NotEnoughSources;;
  let sorted_prices := sort valid_prices in
  let n := length sorted_prices in
  min_price ← index sorted_prices 0;
  max_price ← index sorted_prices (n - 1);
  median_price ← median sorted_prices;
  mret (mkAggregated median_price (latest_timestamp_of prices) (Z.of_nat (length valid_prices))
    min_price max_price median_price is_fresh).

(** The accumulator of [weighted_aggregate]. *)
Record Weighted := mkWeighted {
  wt_total_weight : Z;
  wt_weighted_sum : Z;
  wt_valid_count : Z;
  wt_is_fresh : bool;
  wt_min_price : Z;
  wt_max_price : Z;
  wt_latest_timestamp : Z;
}.

Definition weighted_step (max_staleness : Z) (acc : Weighted) (item : PriceEntry * Z) : C Weighted :=
  let '(entry, reputation) := item in
  t ← now;
  age ← plain_sub U64 t (pe_timestamp entry);
  if age <=? max_staleness then
    let weight := reputation in
    total ← plain_add U128 (wt_total_weight acc) weight;
    p ← plain_mul I128 (pe_price entry) (as_i128 weight);
    sum ← plain_add I128 (wt_weighted_sum acc) p;
    count ← plain_add U32 (wt_valid_count acc) 1;
    mret (mkWeighted total sum count (wt_is_fresh acc)
      (if pe_price entry <? wt_min_price acc then pe_price entry else wt_min_price acc)
      (if pe_price entry >? wt_max_price acc then pe_price entry else wt_max_price acc)
      (if pe_timestamp entry >? wt_latest_timestamp acc then pe_timestamp entry
       else wt_latest_timestamp acc))
  else mret {| acc with wt_is_fresh := false |}.

Definition weighted_aggregate (prices : list (PriceEntry * Z)) (min_sources max_staleness : Z)
    : C AggregatedPrice :=
  throw_if (Z.of_nat (length prices) <? min_sources) NotEnoughSources;;
  acc ← foldM (weighted_step max_staleness)
    (mkWeighted 0 0 0 true (int_max I128) (int_min I128) 0) prices;
  throw_if (wt_valid_count acc <? min_sources) NotEnoughSources;;
  final_price ← plain_div I128 (wt_weighted_sum acc) (as_i128 (wt_total_weight acc));
  mret (mkAggregated final_price (wt_latest_timestamp acc) (wt_valid_count acc) (wt_min_price acc)
    (wt_max_price acc) final_price (wt_is_fresh acc)).

Definition remove_outliers (prices : list PriceEntry) : C (list PriceEntry) :=
  if Z.of_nat (length prices) <? 4 then mret prices
  else
    let price_values := sort (map pe_price prices) in
    let len := length price_values in
    q1 ← index price_values (len / 4);
    q3 ← index price_values (3 * len / 4);
    iqr ← plain_sub I128 q3 q1;
    p ← plain_mul I128 150 iqr;
    d ← plain_div I128 p 100;
    lower_bound ← plain_sub I128 q1 d;
    upper_bound ← plain_add I128 q3 d;
    mret (filter (λ entry, lower_bound ≤ pe_price entry ∧ pe_price entry ≤ upper_bound) prices).

Definition validate_price_divergence (prices : list PriceEntry) (max_divergence_bps : Z) : C bool :=
  if Z.of_nat (length prices) <? 2 then mret true
  else
    let min_price := foldl (λ m entry, if pe_price entry <? m then pe_price entry else m)
      (int_max I128) prices in
    let max_price := foldl (λ m entry, if pe_price entry >? m then pe_price entry else m)
      (int_min I128) prices in
    if min_price =? 0 then mret false
    else
      d ← plain_sub I128 max_price min_price;
      p ← plain_mul I128 d 10000;
      divergence ← plain_div I128 p min_price;
      mret (divergence <=? max_divergence_bps).

(** The loop over the samples of [calculate_twap]: the weighted sum and the total
    weight; the segment of a sample ends at the next one, or now. *)
Fixpoint twap_loop (t : Z) (samples : list (Z * Z)) (acc : Z * Z) : C (Z * Z) :=
  match samples with
  | [] => mret acc
  | (t_i, p_i) :: rest =>
      let t_next := match rest with (t', _) :: _ => t' | [] => t end in
      let segment := saturating_sub U64 t_next t_i in
      p ← plain_mul I128 p_i segment;
      weighted_sum ← plain_add I128 (fst acc) p;
      total_weight ← plain_add U64 (snd acc) segment;
      twap_loop t rest (weighted_sum, total_weight)
  end.

Definition samples_in (history : list HistoricalPrice) (window_start t : Z) : list (Z * Z) :=
  map (λ entry, (hp_timestamp entry, hp_price entry))
    (filter (λ entry, window_start ≤ hp_timestamp entry ∧ hp_timestamp entry ≤ t) history).

Definition calculate_twap (history : list HistoricalPrice) (window_seconds : Z) : C (option Z) :=
  t ← now;
  let window_start := saturating_sub U64 t window_seconds in
  let samples := samples_in history window_start t in
  match last samples with
  | None => mret None
  | Some newest =>
      acc ← twap_loop t samples (0, 0);
      let weighted_sum := fst acc in
      let total_weight := snd acc in
      if total_weight =? 0 then mret (Some (snd newest))
      else
        twap ← plain_div I128 weighted_sum total_weight;
        mret (Some twap)
  end.
End aggregator.
