(* ===== verification/Oracle.v ===== *)
(** * contracts/oracle

    src/contracts/oracle/src: the storage keys, the circuit breaker, the rate
    limiter, the incentives and the entry points of contract.rs. *)

From stdpp Require Import gmap strings list fin_maps.
From S2P Require Import Prelude Soroban OracleMath.
Open Scope Z_scope.

(** One field per variant of [StorageKey]; [None] and absence are the unset key. *)
Record State := mkState {
  Admin : option Address;
  Treasury : option Address;
  ProviderCount : option Z;
  FeedCount : option Z;
  DistributionCount : option Z;
  BaseRewardRate : option Z;
  Provider : gmap Address OracleProvider;
  PriceFeedAt : gmap Symbol PriceFeed;
  LatestPrice : gmap Symbol PriceEntry;
  ProviderPrice : gmap (Symbol * Address) PriceEntry;
  PriceHistory : gmap Symbol (list HistoricalPrice);
  CircuitBreaker : gmap Symbol CircuitBreakerState;
  FallbackConfigAt : gmap Symbol FallbackConfig;
  ProviderHealthAt : gmap Address ProviderHealth;
  CustomFeed : gmap Symbol CustomDataFeed;
  CustomData : gmap Symbol (list CustomDataEntry);
  Subscription : gmap (Address * Symbol) FeedSubscription;
  RateLimit : gmap Address QueryRateLimit;
  IncentiveBalance : gmap Address Z;
}.

Inductive Event :=
| contract_initialized (admin treasury : Address) (t : Z)
| provider_registered (provider : Address) (ty : OracleProviderType) (is_primary : bool) (stake : Z)
| feed_created (feed_id : Symbol) (asset : string) (decimals providers : Z) (breaker : bool)
| price_updated (feed_id : Symbol) (price t : Z) (provider : Address)
| custom_feed_created (feed_id : Symbol) (data_type : string) (providers : Z)
| custom_data_updated (feed_id : Symbol) (t : Z) (provider : Address)
| subscription_granted (user : Address) (feed_id : Symbol) (tier : SubscriptionTier) (expires_at : Z)
| circuit_breaker (feed_id : Symbol) (new_price previous_price change_bps t : Z)
| cb_reset (feed_id : Symbol) (t : Z)
| reward_distributed (provider : Address) (amount : Z) (feed_id : Symbol) (ty : RewardType)
| penalty_applied (provider : Address) (amount : Z) (feed_id : Symbol) (reason : string)
| incentives_withdrawn (provider : Address) (amount t : Z).

Ltac mred v ::= eval cbn [store ledger log Admin Treasury ProviderCount FeedCount DistributionCount
  BaseRewardRate Provider PriceFeedAt LatestPrice ProviderPrice PriceHistory CircuitBreaker
  FallbackConfigAt ProviderHealthAt CustomFeed CustomData Subscription RateLimit IncentiveBalance
  pv_address pv_provider_type pv_is_primary pv_is_active pv_reputation_score pv_total_updates
  pv_successful_updates pv_staked_amount pv_created_at pf_feed_id pf_asset_symbol pf_description
  pf_decimals pf_min_update_interval pf_max_staleness pf_is_active pf_circuit_breaker_enabled
  pf_max_price_change_bps pf_providers pf_created_at pe_price pe_timestamp pe_provider
  pe_provider_type pe_block_number cb_triggered cb_triggered_at cb_trigger_price cb_previous_price
  cb_price_change_bps cb_cooldown_period cb_can_resume_at rl_window_seconds rl_max_queries
  rl_queries_used rl_window_start fs_subscriber fs_feed_id fs_tier fs_expires_at
  fs_queries_remaining fs_auto_renew fs_created_at cf_feed_id cf_description cf_data_type
  cf_is_active cf_authorized_providers cf_last_update cf_max_staleness fb_enabled
  fb_fallback_providers fb_primary_failure_threshold fb_current_failures fb_using_fallback
  ph_provider ph_consecutive_failures ph_last_successful_update ph_price_deviation_count
  ph_availability_score fst snd] in v.

Section contract.
Context `{TokenHost}.

Local Abbreviation C := (M State OracleError Event).

(** ** Storage writes *)

Definition set_provider (provider : Address) (data : OracleProvider) : C () :=
  modify (λ s, {| s with Provider := <[provider := data]> (Provider s) |}).
Definition set_health (provider : Address) (health : ProviderHealth) : C () :=
  modify (λ s, {| s with ProviderHealthAt := <[provider := health]> (ProviderHealthAt s) |}).
Definition set_breaker (feed_id : Symbol) (cb : CircuitBreakerState) : C () :=
  modify (λ s, {| s with CircuitBreaker := <[feed_id := cb]> (CircuitBreaker s) |}).
Definition set_rate_limit (user : Address) (rl : QueryRateLimit) : C () :=
  modify (λ s, {| s with RateLimit := <[user := rl]> (RateLimit s) |}).
Definition set_fallback (feed_id : Symbol) (fb : FallbackConfig) : C () :=
  modify (λ s, {| s with FallbackConfigAt := <[feed_id := fb]> (FallbackConfigAt s) |}).
Definition set_history (feed_id : Symbol) (history : list HistoricalPrice) : C () :=
  modify (λ s, {| s with PriceHistory := <[feed_id := history]> (PriceHistory s) |}).
Definition set_incentive_balance (provider : Address) (amount : Z) : C () :=
  modify (λ s, {| s with IncentiveBalance := <[provider := amount]> (IncentiveBalance s) |}).

(** ** circuit_breaker.rs *)

Definition check_price_movement (feed : PriceFeed) (new_price previous_price : Z) : C (bool * Z) :=
  if negb (pf_circuit_breaker_enabled feed) || (previous_price =? 0) then mret (false, 0)
  else
    price_diff ← (if new_price >? previous_price then plain_sub I128 new_price previous_price
                  else plain_sub I128 previous_price new_price);
    p ← plain_mul I128 price_diff 10000;
    change_bps ← plain_div I128 p previous_price;
    mret (if change_bps >? pf_max_price_change_bps feed then (true, as_u32 change_bps)
          else (false, as_u32 change_bps)).

Definition trigger (feed_id : Symbol) (new_price previous_price change_bps cooldown_period : Z) : C () :=
  t ← now;
  resume ← plain_add U64 t cooldown_period;
  set_breaker feed_id (mkBreaker true (Some t) (Some new_price) (Some previous_price) (Some change_bps)
    cooldown_period (Some resume));;
  publish (circuit_breaker feed_id new_price previous_price change_bps t).

Definition reset (feed_id : Symbol) : C () :=
  set_breaker feed_id (mkBreaker false None None None None 3600 None);;
  t ← now;
  publish (cb_reset feed_id t).

Definition is_triggered (feed_id : Symbol) : C bool :=
  stored ← gets (λ s, CircuitBreaker s !! feed_id);
  match stored with
  | None => mret false
  | Some cb_state =>
      if cb_triggered cb_state then
        t ← now;
        match cb_can_resume_at cb_state with
        | Some can_resume_at =>
            if t <? can_resume_at then mret true
            else reset feed_id;; mret false
        | None => mret true
        end
      else mret false
  end.

Definition admin_reset (feed_id : Symbol) (admin : Address) : C () :=
  require_auth admin;;
  reset feed_id.

Definition get_state (feed_id : Symbol) : C (option CircuitBreakerState) :=
  gets (λ s, CircuitBreaker s !! feed_id).

Definition CircuitBreaker_initialize (feed_id : Symbol) (cooldown_period : Z) : C () :=
  set_breaker feed_id (mkBreaker false None None None None cooldown_period None).

(** ** rate_limiter.rs *)

Definition check_global_rate_limit (user : Address) (window_seconds max_queries : Z) : C () :=
  t ← now;
  stored ← gets (λ s, RateLimit s !! user);
  let rate_limit := default (mkRateLimit window_seconds max_queries 0 t) stored in
  age ← plain_sub U64 t (rl_window_start rate_limit);
  let rate_limit := if age >? rl_window_seconds rate_limit
    then {| rate_limit with rl_window_start := t; rl_queries_used := 0 |} else rate_limit in
  throw_if (rl_queries_used rate_limit >=? rl_max_queries rate_limit) RateLimitExceeded;;
  used ← plain_add U32 (rl_queries_used rate_limit) 1;
  set_rate_limit user {| rate_limit with rl_queries_used := used |}.

Definition check_guest_rate_limit (user : Address) : C () := check_global_rate_limit user 86400 5.

Definition consume_query (user : Address) (feed_id : Symbol) (global_window global_max_queries : Z) : C () :=
  t ← now;
  subscription ← gets (λ s, Subscription s !! (user, feed_id));
  match subscription with
  | Some subscription =>
      throw_if (fs_expires_at subscription <? t) SubscriptionExpired;;
      throw_if ((fs_queries_remaining subscription =? 0)
        && bool_decide (fs_tier subscription ≠ Unlimited)) RateLimitExceeded;;
      (if bool_decide (fs_tier subscription ≠ Unlimited) then
         remaining ← plain_sub U32 (fs_queries_remaining subscription) 1;
         modify (λ s, {| s with Subscription :=
           <[(user, feed_id) := {| subscription with fs_queries_remaining := remaining |}]> (Subscription s) |})
       else mret tt);;
      check_global_rate_limit user global_window global_max_queries
  | None => check_guest_rate_limit user
  end.

Definition consume_batch_query (user : Address) : C () := check_global_rate_limit user 3600 1000.

Definition reset_user_limits (user : Address) : C () :=
  t ← now;
  set_rate_limit user (mkRateLimit 3600 1000 0 t).

Definition update_rate_limit_config (user : Address) (new_window new_max_queries : Z) : C () :=
  stored ← gets (λ s, RateLimit s !! user);
  t ← now;
  let rate_limit := default (mkRateLimit 3600 100 0 t) stored in
  set_rate_limit user {| rate_limit with rl_window_seconds := new_window; rl_max_queries := new_max_queries |}.

Definition get_user_rate_limit (user : Address) : C (option QueryRateLimit) := gets (λ s, RateLimit s !! user).

Definition add_queries (user : Address) (additional_queries : Z) : C () :=
  stored ← gets (λ s, RateLimit s !! user);
  match stored with
  | Some rate_limit =>
      set_rate_limit user {| rate_limit with rl_queries_used :=
        saturating_sub U32 (rl_queries_used rate_limit) additional_queries |}
  | None => mret tt
  end.

(** ** incentives.rs *)

Definition calculate_reward (provider : Address) (base_reward : Z) : C Z :=
  stored_health ← gets (λ s, ProviderHealthAt s !! provider);
  reward ← match stored_health with
    | Some health =>
        p ← plain_mul I128 base_reward (ph_availability_score health);
        reward ← plain_div I128 p 1000;
        if ph_consecutive_failures health >? 0 then
          penalty_bps ← plain_mul I128 (Z.min (ph_consecutive_failures health) 100) 100;
          factor ← plain_sub I128 10000 penalty_bps;
          p ← plain_mul I128 reward factor;
          plain_div I128 p 10000
        else mret reward
    | None => mret base_reward
    end;
  stored_provider ← gets (λ s, Provider s !! provider);
  reward ← match stored_provider with
    | Some provider_data =>
        p ← plain_mul I128 reward (pv_reputation_score provider_data);
        plain_div I128 p 50
    | None => mret reward
    end;
  mret (Z.max reward 0).

(** The distribution counter is passed in and handed back. *)
Definition distribute_update_reward (provider : Address) (feed_id : Symbol)
    (base_reward distribution_counter : Z) : C Z :=
  reward ← calculate_reward provider base_reward;
  current_balance ← gets (λ s, default 0 (IncentiveBalance s !! provider));
  balance ← plain_add I128 current_balance reward;
  set_incentive_balance provider balance;;
  counter ← plain_add U64 distribution_counter 1;
  t ← now;
  let distribution := mkDistribution distribution_counter provider reward feed_id t UpdateReward in
  publish (reward_distributed provider (id_amount distribution) (id_feed_id distribution) UpdateReward);;
  mret counter.

Definition update_health_on_penalty (provider : Address) : C () :=
  stored ← gets (λ s, ProviderHealthAt s !! provider);
  let health := default (mkHealth provider 0 0 0 1000) stored in
  failures ← plain_add U32 (ph_consecutive_failures health) 1;
  deviations ← plain_add U32 (ph_price_deviation_count health) 1;
  set_health provider {| health with ph_consecutive_failures := failures;
    ph_price_deviation_count := deviations;
    ph_availability_score := saturating_sub U32 (ph_availability_score health) 50 |};;
  stored_provider ← gets (λ s, Provider s !! provider);
  match stored_provider with
  | Some provider_data =>
      set_provider provider {| provider_data with pv_reputation_score :=
        saturating_sub U32 (pv_reputation_score provider_data) 5 |}
  | None => mret tt
  end.

Definition apply_penalty (provider : Address) (feed_id : Symbol) (penalty_amount : Z) (reason : string)
    (distribution_counter : Z) : C Z :=
  current_balance ← gets (λ s, default 0 (IncentiveBalance s !! provider));
  balance ← (if current_balance <? penalty_amount then
      stored_provider ← gets (λ s, Provider s !! provider);
      match stored_provider with
      | Some provider_data =>
          remaining_penalty ← plain_sub I128 penalty_amount current_balance;
          if pv_staked_amount provider_data >=? remaining_penalty then
            stake ← plain_sub I128 (pv_staked_amount provider_data) remaining_penalty;
            set_provider provider {| provider_data with pv_staked_amount := stake |};;
            mret 0
          else mret 0
      | None => mret current_balance
      end
    else plain_sub I128 current_balance penalty_amount);
  set_incentive_balance provider balance;;
  counter ← plain_add U64 distribution_counter 1;
  update_health_on_penalty provider;;
  publish (penalty_applied provider penalty_amount feed_id reason);;
  mret counter.

Definition IncentiveManager_withdraw_incentives (provider : Address) : C Z :=
  require_auth provider;;
  current_balance ← gets (λ s, default 0 (IncentiveBalance s !! provider));
  throw_if (current_balance <=? 0) InsufficientBalance;;
  set_incentive_balance provider 0;;
  t ← now;
  publish (incentives_withdrawn provider current_balance t);;
  mret current_balance.

Definition get_balance (provider : Address) : C Z :=
  gets (λ s, default 0 (IncentiveBalance s !! provider)).

Definition record_successful_update (provider : Address) : C () :=
  stored ← gets (λ s, ProviderHealthAt s !! provider);
  t ← now;
  let health := default (mkHealth provider 0 t 0 1000) stored in
  set_health provider {| health with ph_consecutive_failures := 0; ph_last_successful_update := t;
    ph_availability_score := Z.min (saturating_add U32 (ph_availability_score health) 1) 1000 |};;
  stored_provider ← gets (λ s, Provider s !! provider);
  match stored_provider with
  | Some provider_data =>
      total ← plain_add U64 (pv_total_updates provider_data) 1;
      successful ← plain_add U64 (pv_successful_updates provider_data) 1;
      set_provider provider {| provider_data with pv_total_updates := total;
        pv_successful_updates := successful;
        pv_reputation_score := Z.min (saturating_add U32 (pv_reputation_score provider_data) 1) 100 |}
  | None => mret tt
  end.

Definition record_failed_update (provider : Address) : C () :=
  stored ← gets (λ s, ProviderHealthAt s !! provider);
  let health := default (mkHealth provider 1 0 0 950) stored in
  failures ← plain_add U32 (ph_consecutive_failures health) 1;
  set_health provider {| health with ph_consecutive_failures := failures |};;
  stored_provider ← gets (λ s, Provider s !! provider);
  match stored_provider with
  | Some provider_data =>
      total ← plain_add U64 (pv_total_updates provider_data) 1;
      set_provider provider {| provider_data with pv_total_updates := total |}
  | None => mret tt
  end.

(** ** contract.rs *)

Definition initialize (admin treasury : Address) : C () :=
  o ← gets Admin;
  throw_if (bool_decide (is_Some o)) AlreadyInitialized;;
  require_auth admin;;
  modify (λ s, {| s with Admin := Some admin; Treasury := Some treasury; ProviderCount := Some 0;
    FeedCount := Some 0; DistributionCount := Some 0; BaseRewardRate := Some 100 |});;
  t ← now;
  publish (contract_initialized admin treasury t).

Definition verify_admin (caller : Address) : C () :=
  o ← gets Admin;
  admin ← ok_or o Unauthorized;
  throw_if (bool_decide (caller ≠ admin)) Unauthorized.

Definition register_provider (admin provider_address : Address) (provider_type : OracleProviderType)
    (is_primary : bool) (stake_amount min_stake : Z) : C () :=
  require_auth admin;;
  verify_admin admin;;
  throw_if (stake_amount <? min_stake) InsufficientStake;;
  o ← gets (λ s, Provider s !! provider_address);
  throw_if (bool_decide (is_Some o)) ProviderAlreadyExists;;
  t ← now;
  set_provider provider_address (mkProvider provider_address provider_type is_primary true 50 0 0
    stake_amount t);;
  count ← gets (λ s, default 0 (ProviderCount s));
  count' ← plain_add U64 count 1;
  modify (λ s, {| s with ProviderCount := Some count' |});;
  set_health provider_address (mkHealth provider_address 0 0 0 1000);;
  publish (provider_registered provider_address provider_type is_primary stake_amount).

Definition create_price_feed (admin : Address) (feed_id : Symbol) (asset_symbol description : string)
    (decimals min_update_interval max_staleness max_price_change_bps : Z) (providers : list Address)
    (enable_circuit_breaker : bool) : C () :=
  require_auth admin;;
  verify_admin admin;;
  o ← gets (λ s, PriceFeedAt s !! feed_id);
  throw_if (bool_decide (is_Some o)) FeedAlreadyExists;;
  throw_if (Z.of_nat (length providers) <? 2) InvalidInput;;
  t ← now;
  modify (λ s, {| s with PriceFeedAt := <[feed_id := mkFeed feed_id asset_symbol description decimals
    min_update_interval max_staleness true enable_circuit_breaker max_price_change_bps providers t]>
    (PriceFeedAt s) |});;
  set_history feed_id [];;
  (if enable_circuit_breaker then CircuitBreaker_initialize feed_id 3600 else mret tt);;
  set_fallback feed_id (mkFallback true [] 3 0 false);;
  count ← gets (λ s, default 0 (FeedCount s));
  count' ← plain_add U64 count 1;
  modify (λ s, {| s with FeedCount := Some count' |});;
  publish (feed_created feed_id asset_symbol decimals (Z.of_nat (length providers)) enable_circuit_breaker).

(** The loops over the primary and the fallback providers of a feed. *)
Definition is_authorized_for (feed : PriceFeed) (feed_id : Symbol) (provider : Address) : C bool :=
  if bool_decide (provider ∈ pf_providers feed) then mret true
  else
    fallback_config ← gets (λ s, FallbackConfigAt s !! feed_id);
    mret (match fallback_config with
          | Some config => bool_decide (provider ∈ fb_fallback_providers config)
          | None => false
          end).

(** The entry stored for the feed, for the provider and in the history, which
    keeps the last 1000. *)
Definition record_price (feed_id : Symbol) (provider : Address) (new_entry : PriceEntry) : C () :=
  modify (λ s, {| s with LatestPrice := <[feed_id := new_entry]> (LatestPrice s) |});;
  modify (λ s, {| s with ProviderPrice := <[(feed_id, provider) := new_entry]> (ProviderPrice s) |});;
  history ← gets (λ s, default [] (PriceHistory s !! feed_id));
  let history := if (1000 <=? length history)%nat then tail history else history in
  set_history feed_id (history ++
    [mkHistorical (pe_price new_entry) (pe_timestamp new_entry) (pe_block_number new_entry) false]).

(** What follows an update that did not trip the breaker. *)
Definition accept_price (feed_id : Symbol) (provider : Address) (provider_data : OracleProvider)
    (price : Z) : C () :=
  record_successful_update provider;;
  successful ← plain_add U64 (pv_successful_updates provider_data) 1;
  total ← plain_add U64 (pv_total_updates provider_data) 1;
  set_provider provider {| provider_data with pv_successful_updates := successful;
    pv_total_updates := total |};;
  base_reward ← gets (λ s, default 100 (BaseRewardRate s));
  dist_counter ← gets (λ s, default 0 (DistributionCount s));
  dist_counter' ← distribute_update_reward provider feed_id base_reward dist_counter;
  modify (λ s, {| s with DistributionCount := Some dist_counter' |});;
  t ← now;
  publish (price_updated feed_id price t provider).

Definition submit_price (provider : Address) (feed_id : Symbol) (price : Z) : C () :=
  require_auth provider;;
  throw_if (price <=? 0) InvalidPrice;;
  o ← gets (λ s, PriceFeedAt s !! feed_id);
  feed ← ok_or o FeedNotFound;
  throw_if (negb (pf_is_active feed)) FeedInactive;;
  is_authorized ← is_authorized_for feed feed_id provider;
  throw_if (negb is_authorized) Unauthorized;;
  o ← gets (λ s, Provider s !! provider);
  provider_data ← ok_or o ProviderNotFound;
  throw_if (negb (pv_is_active provider_data)) ProviderInactive;;
  last_entry ← gets (λ s, LatestPrice s !! feed_id);
  t ← now;
  (match last_entry with
   | Some last_entry =>
       age ← plain_sub U64 t (pe_timestamp last_entry);
       throw_if (age <? pf_min_update_interval feed) UpdateTooEarly
   | None => mret tt
   end);;
  halted ← is_triggered feed_id;
  throw_if halted CircuitBreakerTriggered;;
  let previous_price := match last_entry with Some last_price => pe_price last_price | None => 0 end in
  seq ← ledger_sequence;
  record_price feed_id provider (mkEntry price t provider (pv_provider_type provider_data) seq);;
  movement ← (if previous_price >? 0 then check_price_movement feed price previous_price
              else mret (false, 0));
  if (fst movement : bool) then
    trigger feed_id price previous_price (snd movement) 3600;;
    record_failed_update provider
  else accept_price feed_id provider provider_data price.

(** The entries the listed providers have submitted to a feed. *)
Definition collect (feed_id : Symbol) (providers : list Address) : C (list PriceEntry) :=
  gets (λ s, omap (λ provider, ProviderPrice s !! (feed_id, provider)) providers).

Definition get_aggregated_price (caller : Address) (feed_id : Symbol) : C AggregatedPrice :=
  consume_query caller feed_id 3600 1000;;
  o ← gets (λ s, PriceFeedAt s !! feed_id);
  feed ← ok_or o FeedNotFound;
  throw_if (negb (pf_is_active feed)) FeedInactive;;
  halted ← is_triggered feed_id;
  throw_if halted CircuitBreakerTriggered;;
  prices ← collect feed_id (pf_providers feed);
  fb ← gets (λ s, FallbackConfigAt s !! feed_id);
  let fallback_config := default (mkFallback false [] 3 0 false) fb in
  let using_fallback := (Z.of_nat (length prices) <? 2) && fb_enabled fallback_config in
  prices ← (if using_fallback then
      failures ← plain_add U32 (fb_current_failures fallback_config) 1;
      set_fallback feed_id {| fallback_config with fb_using_fallback := true;
        fb_current_failures := failures |};;
      more ← collect feed_id (fb_fallback_providers fallback_config);
      mret (prices ++ more)
    else
      set_fallback feed_id {| fallback_config with fb_using_fallback := false; fb_current_failures := 0 |};;
      mret prices);
  filtered_prices ← remove_outliers prices;
  aggregated ← aggregate_prices filtered_prices (if using_fallback then 1 else 2) (pf_max_staleness feed);
  throw_if (negb (ag_is_fresh aggregated)) StalePrice;;
  mret aggregated.

Definition get_historical_prices (caller : Address) (feed_id : Symbol) (limit : Z)
    : C (list HistoricalPrice) :=
  consume_query caller feed_id 3600 1000;;
  throw_if (limit >? 500) InvalidInput;;
  history ← gets (λ s, default [] (PriceHistory s !! feed_id));
  let start_idx := if Z.of_nat (length history) >? limit
    then (length history - Z.to_nat limit)%nat else 0%nat in
  mret (drop start_idx history).

Definition create_custom_feed (admin : Address) (feed_id : Symbol) (description data_type : string)
    (max_staleness : Z) (providers : list Address) : C () :=
  require_auth admin;;
  verify_admin admin;;
  o ← gets (λ s, CustomFeed s !! feed_id);
  throw_if (bool_decide (is_Some o)) FeedAlreadyExists;;
  modify (λ s, {| s with CustomFeed := <[feed_id := mkCustomFeed feed_id description data_type true
    providers 0 max_staleness]> (CustomFeed s) |});;
  modify (λ s, {| s with CustomData := <[feed_id := []]> (CustomData s) |});;
  publish (custom_feed_created feed_id data_type (Z.of_nat (length providers))).

Definition submit_custom_data (provider : Address) (feed_id : Symbol) (data : string) : C () :=
  require_auth provider;;
  o ← gets (λ s, CustomFeed s !! feed_id);
  feed ← ok_or o FeedNotFound;
  throw_if (negb (bool_decide (provider ∈ cf_authorized_providers feed))) Unauthorized;;
  history ← gets (λ s, default [] (CustomData s !! feed_id));
  t ← now;
  seq ← ledger_sequence;
  let history := history ++ [mkCustomEntry data t provider seq] in
  let history := if (500 <? length history)%nat then tail history else history in
  modify (λ s, {| s with CustomData := <[feed_id := history]> (CustomData s) |});;
  modify (λ s, {| s with CustomFeed := <[feed_id := {| feed with cf_last_update := t |}]> (CustomFeed s) |});;
  record_successful_update provider;;
  publish (custom_data_updated feed_id t provider).

Definition get_custom_data (caller : Address) (feed_id : Symbol) : C (option CustomDataEntry) :=
  consume_query caller feed_id 3600 1000;;
  o ← gets (λ s, CustomFeed s !! feed_id);
  feed ← ok_or o FeedNotFound;
  throw_if (negb (cf_is_active feed)) FeedInactive;;
  t ← now;
  age ← plain_sub U64 t (cf_last_update feed);
  throw_if (age >? cf_max_staleness feed) StalePrice;;
  history ← gets (λ s, default [] (CustomData s !! feed_id));
  mret (last history).

Definition withdraw_incentives (provider : Address) : C Z := IncentiveManager_withdraw_incentives provider.

Definition reset_circuit_breaker (admin : Address) (feed_id : Symbol) : C () :=
  require_auth admin;;
  verify_admin admin;;
  reset feed_id.

Definition add_fallback_provider (admin : Address) (feed_id : Symbol) (provider : Address) : C () :=
  require_auth admin;;
  verify_admin admin;;
  o ← gets (λ s, FallbackConfigAt s !! feed_id);
  let config := default (mkFallback true [] 3 0 false) o in
  if bool_decide (provider ∈ fb_fallback_providers config) then mret tt
  else set_fallback feed_id {| config with fb_fallback_providers :=
    fb_fallback_providers config ++ [provider] |}.

Definition get_circuit_breaker_state (feed_id : Symbol) : C (option CircuitBreakerState) := get_state feed_id.

Definition is_data_fresh (feed_id : Symbol) : C bool :=
  o ← gets (λ s, PriceFeedAt s !! feed_id);
  feed ← ok_or o FeedNotFound;
  last_entry ← gets (λ s, LatestPrice s !! feed_id);
  match last_entry with
  | Some last_entry =>
      t ← now;
      age ← plain_sub U64 t (pe_timestamp last_entry);
      mret (age <=? pf_max_staleness feed)
  | None => mret false
  end.

Definition get_provider_balance (provider : Address) : C Z := get_balance provider.

Definition grant_subscription (admin user : Address) (feed_id : Symbol) (tier : SubscriptionTier)
    (duration_seconds : Z) : C () :=
  require_auth admin;;
  verify_admin admin;;
  throw_if (duration_seconds =? 0) InvalidInput;;
  let queries_remaining := match tier with
    | Free => 10 | Basic => 100 | Premium => 1000 | Unlimited => int_max U32 end in
  t ← now;
  expires_at ← plain_add U64 t duration_seconds;
  modify (λ s, {| s with Subscription := <[(user, feed_id) :=
    mkSubscription user feed_id tier expires_at queries_remaining false t]> (Subscription s) |});;
  publish (subscription_granted user feed_id tier expires_at).

Definition get_latest_price (feed_id : Symbol) : C (option PriceEntry) :=
  gets (λ s, LatestPrice s !! feed_id).

Definition get_latest_prices_batch (caller : Address) (feed_ids : list Symbol)
    : C (list (option PriceEntry)) :=
  consume_batch_query caller;;
  gets (λ s, map (λ feed_id, LatestPrice s !! feed_id) feed_ids).

Definition get_twap (caller : Address) (feed_id : Symbol) (window_seconds : Z) : C Z :=
  consume_query caller feed_id 3600 1000;;
  throw_if (negb ((60 <=? window_seconds) && (window_seconds <=? 30 * 24 * 3600))) InvalidInput;;
  history ← gets (λ s, default [] (PriceHistory s !! feed_id));
  twap ← calculate_twap history window_seconds;
  ok_or twap NotEnoughSources.
End contract.

(** ** The contract as a transaction system *)

Inductive Call :=
| CInitialize (admin treasury : Address)
| CRegisterProvider (admin provider : Address) (ty : OracleProviderType) (primary : bool) (stake min : Z)
| CCreatePriceFeed (admin : Address) (feed_id : Symbol) (asset description : string)
    (decimals interval staleness change_bps : Z) (providers : list Address) (breaker : bool)
| CSubmitPrice (provider : Address) (feed_id : Symbol) (price : Z)
| CGetAggregatedPrice (caller : Address) (feed_id : Symbol)
| CGetHistoricalPrices (caller : Address) (feed_id : Symbol) (limit : Z)
| CCreateCustomFeed (admin : Address) (feed_id : Symbol) (description data_type : string)
    (staleness : Z) (providers : list Address)
| CSubmitCustomData (provider : Address) (feed_id : Symbol) (data : string)
| CGetCustomData (caller : Address) (feed_id : Symbol)
| CWithdrawIncentives (provider : Address)
| CResetCircuitBreaker (admin : Address) (feed_id : Symbol)
| CAddFallbackProvider (admin : Address) (feed_id : Symbol) (provider : Address)
| CGrantSubscription (admin user : Address) (feed_id : Symbol) (tier : SubscriptionTier) (duration : Z)
| CGetLatestPricesBatch (caller : Address) (feed_ids : list Symbol)
| CGetTwap (caller : Address) (feed_id : Symbol) (window : Z).

Definition exec `{TokenHost} (c : Call) : M State OracleError Event () :=
  match c with
  | CInitialize admin treasury => initialize admin treasury
  | CRegisterProvider admin p ty primary stake min => register_provider admin p ty primary stake min
  | CCreatePriceFeed admin f a d dec i st bps ps b => create_price_feed admin f a d dec i st bps ps b
  | CSubmitPrice p f price => submit_price p f price
  | CGetAggregatedPrice c f => discard (get_aggregated_price c f)
  | CGetHistoricalPrices c f n => discard (get_historical_prices c f n)
  | CCreateCustomFeed admin f d ty st ps => create_custom_feed admin f d ty st ps
  | CSubmitCustomData p f data => submit_custom_data p f data
  | CGetCustomData c f => discard (get_custom_data c f)
  | CWithdrawIncentives p => discard (withdraw_incentives p)
  | CResetCircuitBreaker admin f => reset_circuit_breaker admin f
  | CAddFallbackProvider admin f p => add_fallback_provider admin f p
  | CGrantSubscription admin u f tier d => grant_subscription admin u f tier d
  | CGetLatestPricesBatch c fs => discard (get_latest_prices_batch c fs)
  | CGetTwap c f n => discard (get_twap c f n)
  end.

(** The unsigned arguments of a call are in range, by their Rust types. *)
Definition call_ok (c : Call) : Prop :=
  match c with
  | CCreatePriceFeed _ _ _ _ dec i st bps _ _ => 0 ≤ dec ∧ 0 ≤ i ∧ 0 ≤ st ∧ 0 ≤ bps
  | CGetHistoricalPrices _ _ n => 0 ≤ n
  | CCreateCustomFeed _ _ _ _ st _ => 0 ≤ st
  | CGrantSubscription _ _ _ _ d => 0 ≤ d
  | CGetTwap _ _ n => 0 ≤ n
  | _ => True
  end.

Definition deployed : State :=
  mkState None None None None None None ∅ ∅ ∅ ∅ ∅ ∅ ∅ ∅ ∅ ∅ ∅ ∅ ∅.
