(* ===== verification/OracleProofs.v ===== *)
(** * contracts/oracle: invariants and theorems

    The aggregated price against a minority of bad providers, the trading halt of
    the circuit breaker, the time-weighted average against the sum over every
    second, the price histories and the incentives. *)

From stdpp Require Import gmap strings list fin_maps sorting.
From S2P Require Import Prelude Soroban TokenModel OracleMath Oracle.
Open Scope Z_scope.

(** ** Ranks in a sorted list *)

(** How many elements a property holds of. *)
Definition count {A} (P : A → Prop) `{∀ x, Decision (P x)} (l : list A) : nat := length (filter P l).

Lemma count_cons {A} (P : A → Prop) `{∀ x, Decision (P x)} (a : A) l :
  count P (a :: l) = ((if decide (P a) then 1 else 0) + count P l)%nat.
Proof. unfold count. rewrite filter_cons. by case_decide. Qed.

Lemma count_le {A} (P : A → Prop) `{∀ x, Decision (P x)} (l : list A) : (count P l ≤ length l)%nat.
Proof. apply length_filter. Qed.

Lemma count_mono {A} (P Q : A → Prop) `{∀ x, Decision (P x)} `{∀ x, Decision (Q x)} (l : list A) :
  (∀ x, P x → Q x) → (count P l ≤ count Q l)%nat.
Proof. intros HPQ. induction l as [|a l IH]; [done|]. rewrite !count_cons. repeat case_decide; naive_solver lia. Qed.

Lemma count_Permutation {A} (P : A → Prop) `{∀ x, Decision (P x)} (l l' : list A) :
  l ≡ₚ l' → count P l = count P l'.
Proof. intros Hl. unfold count. by rewrite Hl. Qed.

Lemma count_map {A B} (f : A → B) (P : B → Prop) `{∀ x, Decision (P x)} (l : list A) :
  count P (map f l) = count (λ a, P (f a)) l.
Proof. induction l as [|a l IH]; [done|]. cbn [map]. rewrite !count_cons. by rewrite IH. Qed.

Lemma filter_all {A} (P : A → Prop) `{∀ x, Decision (P x)} (l : list A) : Forall P l → filter P l = l.
Proof. induction 1; [done|]. rewrite filter_cons, decide_True by done. by f_equal. Qed.

Section ranks.
Implicit Types (l : list Z) (i n : nat) (x lo hi : Z).

(** A small element has only smaller ones to its left, a big one only bigger ones
    to its right. *)
Lemma sorted_below l i x lo :
  StronglySorted Z.le l → l !! i = Some x → x < lo → (S i ≤ count (λ z, (z < lo)%Z) l)%nat.
Proof.
  revert i. induction l as [|a l IH]; intros i Hl Hi Hx; [done|].
  apply StronglySorted_cons in Hl as [Ha Hl]. rewrite count_cons. destruct i as [|i]; simplify_eq/=.
  - rewrite decide_True by done. lia.
  - assert (a ≤ x) by (eapply Forall_lookup_1 in Ha; eauto). rewrite decide_True by lia.
    specialize (IH i Hl Hi Hx). lia.
Qed.

Lemma sorted_above l i x hi :
  StronglySorted Z.le l → l !! i = Some x → hi < x → (length l - i ≤ count (λ z, (hi < z)%Z) l)%nat.
Proof.
  revert i x. induction l as [|a l IH]; intros i x Hl Hi Hx; [done|].
  apply StronglySorted_cons in Hl as [Ha Hl]. rewrite count_cons. cbn [length]. destruct i as [|i]; simplify_eq/=.
  - rewrite decide_True by done. destruct l as [|b l]; [cbn; lia|].
    apply Forall_cons in Ha as [Hb _]. specialize (IH 0%nat b Hl eq_refl ltac:(lia)). cbn [length] in *. lia.
  - specialize (IH i x Hl Hi Hx). lia.
Qed.

Lemma sorted_below_le l i x :
  StronglySorted Z.le l → l !! i = Some x → (count (λ z, (z < x)%Z) l ≤ i)%nat.
Proof.
  revert i x. induction l as [|a l IH]; intros i x Hl Hi; [done|].
  apply StronglySorted_cons in Hl as [Ha Hl]. rewrite count_cons. destruct i as [|i]; simplify_eq/=.
  - rewrite decide_False by lia. destruct l as [|b l]; [done|].
    apply Forall_cons in Ha as [Hb _]. specialize (IH 0%nat b Hl eq_refl).
    pose proof (count_mono (λ z, (z < x)%Z) (λ z, (z < b)%Z) (b :: l) ltac:(cbn; lia)). lia.
  - specialize (IH i x Hl Hi). case_decide; lia.
Qed.

Lemma sorted_above_le l i x :
  StronglySorted Z.le l → l !! i = Some x → (count (λ z, (x < z)%Z) l + S i ≤ length l)%nat.
Proof.
  revert i. induction l as [|a l IH]; intros i Hl Hi; [done|].
  apply StronglySorted_cons in Hl as [Ha Hl]. rewrite count_cons. cbn [length]. destruct i as [|i]; simplify_eq/=.
  - rewrite decide_False by lia. pose proof (count_le (λ z, (x < z)%Z) l). lia.
  - assert (a ≤ x) by (eapply Forall_lookup_1 in Ha; eauto). rewrite decide_False by lia.
    specialize (IH i Hl Hi). lia.
Qed.

Lemma count_split l x y :
  x ≤ y → length l = (count (λ z, (z < x)%Z) l + count (λ z, (x ≤ z ≤ y)%Z) l + count (λ z, (y < z)%Z) l)%nat.
Proof.
  intros Hxy. induction l as [|a l IH]; [done|]. rewrite !count_cons. cbn [length].
  repeat case_decide; lia.
Qed.

Lemma sort_sorted l : StronglySorted Z.le (sort l).
Proof. apply StronglySorted_merge_sort; [intros ???; lia|intros ??; unfold strict; lia]. Qed.
Lemma sort_perm l : sort l ≡ₚ l.
Proof. apply merge_sort_Permutation. Qed.
Lemma length_sort l : length (sort l) = length l.
Proof. by rewrite sort_perm. Qed.
End ranks.

(** ** The median and the outlier filter *)

(** The values out of a range. *)
Definition outside (lo hi : Z) (l : list Z) : nat := count (λ z, ¬ (lo ≤ z ≤ hi)) l.

(** Too few values out of the range to reach a place in the order. *)
Lemma rank_in_range l i x lo hi :
  StronglySorted Z.le l → l !! i = Some x → (outside lo hi l ≤ i)%nat → (outside lo hi l + i < length l)%nat →
  lo ≤ x ≤ hi.
Proof.
  intros Hl Hi Hlo Hhi. unfold outside in *.
  pose proof (count_mono (λ z, z < lo) (λ z, ¬ (lo ≤ z ≤ hi)) l ltac:(cbn; lia)).
  pose proof (count_mono (λ z, hi < z) (λ z, ¬ (lo ≤ z ≤ hi)) l ltac:(cbn; lia)). split.
  - destruct (decide (x < lo)) as [Hx|]; [|lia]. pose proof (sorted_below _ _ _ _ Hl Hi Hx). lia.
  - destruct (decide (hi < x)) as [Hx|]; [|lia]. pose proof (sorted_above _ _ _ _ Hl Hi Hx). lia.
Qed.

Lemma mean_in_range a b lo hi : lo ≤ a ≤ hi → lo ≤ b ≤ hi → lo ≤ (a + b) `quot` 2 ≤ hi.
Proof.
  intros Ha Hb. pose proof (Z.quot_rem' (a + b) 2).
  pose proof (Z.rem_bound_abs (a + b) 2 ltac:(lia)). lia.
Qed.

Section aggregator.
Context `{TokenHost} {S Ev : Type}.
Implicit Types (w : World S Ev) (e : Env).

Lemma index_Ok {A} (l : list A) i e w a w' :
  (index l i : M S OracleError Ev A) e w = Ok (a, w') → l !! i = Some a ∧ w' = w.
Proof. unfold index. by intros [??]%expect_Ok. Qed.

(** A majority in a range keeps the median there. *)
Lemma median_in_range l lo hi e w m w' :
  (median l : M S OracleError Ev Z) e w = Ok (m, w') → StronglySorted Z.le l →
  (2 * outside lo hi l < length l)%nat → lo ≤ m ≤ hi ∧ w' = w.
Proof.
  intros Hr Hl Hn. unfold median in Hr.
  pose proof (Nat.div_mod (length l) 2 ltac:(lia)). pose proof (Nat.mod_upper_bound (length l) 2 ltac:(lia)).
  destruct (length l mod 2 =? 0)%nat eqn:He; [apply Nat.eqb_eq in He|apply Nat.eqb_neq in He].
  - apply bind_Ok in Hr as (a & w1 & [Ha ->]%index_Ok & Hr).
    apply bind_Ok in Hr as (b & w1 & [Hb ->]%index_Ok & Hr).
    pose proof (rank_in_range _ _ _ lo hi Hl Ha ltac:(lia) ltac:(lia)).
    pose proof (rank_in_range _ _ _ lo hi Hl Hb ltac:(lia) ltac:(lia)).
    minv Hr. inv_checked. split; [|done]. by apply mean_in_range.
  - apply index_Ok in Hr as [Hm ->]. split; [|done]. apply (rank_in_range _ _ _ lo hi Hl Hm); lia.
Qed.

(** What the filter keeps, and that it always keeps the middle half. *)
Lemma remove_outliers_spec ps e w kept w' :
  (remove_outliers ps : M S OracleError Ev (list PriceEntry)) e w = Ok (kept, w') →
  w' = w ∧ ((length ps < 4)%nat ∧ kept = ps ∨
    (4 ≤ length ps)%nat ∧ ∃ q1 q3 d, sort (map pe_price ps) !! (length ps / 4)%nat = Some q1 ∧
      sort (map pe_price ps) !! (3 * length ps / 4)%nat = Some q3 ∧ q1 ≤ q3 ∧ 0 ≤ d ∧
      kept = filter (λ p, q1 - d ≤ pe_price p ∧ pe_price p ≤ q3 + d) ps).
Proof.
  intros Hr. unfold remove_outliers in Hr.
  destruct (Z.of_nat (length ps) <? 4) eqn:Hn; zbool; [minv Hr; split; [done|]; left; split; [lia|done]|].
  rewrite length_sort, length_map in Hr.
  apply bind_Ok in Hr as (q1 & w1 & [Hq1 ->]%index_Ok & Hr).
  apply bind_Ok in Hr as (q3 & w1 & [Hq3 ->]%index_Ok & Hr).
  assert (q1 ≤ q3) as Hle.
  { pose proof (sort_sorted (map pe_price ps)) as Hs.
    destruct (decide (q3 < q1)) as [Hlt|]; [|lia].
    pose proof (sorted_below _ _ _ _ Hs Hq3 Hlt). pose proof (sorted_below_le _ _ _ Hs Hq1).
    pose proof (Nat.Div0.div_le_mono (length ps) (3 * length ps) 4 ltac:(lia)). lia. }
  minv Hr. inv_checked. split; [done|]. right. split; [lia|]. exists q1, q3, ((150 * (q3 - q1)) `quot` 100).
  split_and!; try done. rewrite quot_div_nonneg by lia. apply Z.div_pos; lia.
Qed.

Lemma count_filter {A} (P Q : A → Prop) `{∀ x, Decision (P x)} `{∀ x, Decision (Q x)} (l : list A) :
  (count P (filter Q l) ≤ count P l)%nat.
Proof.
  induction l as [|a l IH]; [done|]. rewrite filter_cons, count_cons. case_decide; rewrite ?count_cons; lia.
Qed.

(** When less than a quarter of the entries are out of a range, less than half of
    those the filter keeps are. *)
Lemma remove_outliers_majority ps lo hi e w kept w' :
  (remove_outliers ps : M S OracleError Ev (list PriceEntry)) e w = Ok (kept, w') →
  (4 * outside lo hi (map pe_price ps) < length ps)%nat →
  (2 * outside lo hi (map pe_price kept) < length kept)%nat.
Proof.
  intros Hr Hn. apply remove_outliers_spec in Hr as [_ [[_ ->]|(Hlen & q1 & q3 & d & Hq1 & Hq3 & Hle & Hd & ->)]];
    [lia|].
  unfold outside in *. rewrite count_map in *. set (P := λ p, ¬ (lo ≤ pe_price p ≤ hi)) in *.
  pose proof (count_filter P (λ p, q1 - d ≤ pe_price p ∧ pe_price p ≤ q3 + d) ps) as Hsub.
  pose proof (sort_sorted (map pe_price ps)) as Hs. pose proof (sort_perm (map pe_price ps)) as Hp.
  pose proof (sorted_below_le _ _ _ Hs Hq1) as H1. pose proof (sorted_above_le _ _ _ Hs Hq3) as H3.
  pose proof (count_split (sort (map pe_price ps)) q1 q3 Hle) as Hsp.
  rewrite length_sort, length_map in *.
  pose proof (count_mono (λ p, q1 ≤ pe_price p ≤ q3) (λ p, q1 - d ≤ pe_price p ∧ pe_price p ≤ q3 + d) ps
    ltac:(cbn; lia)) as Hmid.
  rewrite (count_Permutation _ _ _ Hp), count_map in H1. rewrite (count_Permutation _ _ _ Hp), count_map in H3.
  rewrite !(count_Permutation _ _ _ Hp), !count_map in Hsp.
  change (length (filter ?Q ps)) with (count Q ps) in *.
  pose proof (Nat.div_mod (length ps) 4 ltac:(lia)). pose proof (Nat.mod_upper_bound (length ps) 4 ltac:(lia)).
  pose proof (Nat.div_mod (3 * length ps) 4 ltac:(lia)).
  pose proof (Nat.mod_upper_bound (3 * length ps) 4 ltac:(lia)).
  lia.
Qed.

(** The entries that are not stale at time [t]. *)
Definition fresh (t max_staleness : Z) (p : PriceEntry) : Prop := t - pe_timestamp p ≤ max_staleness.
#[global] Instance fresh_dec t st p : Decision (fresh t st p) := decide (_ ≤ _).

Lemma fresh_loop st ps acc e w r w' :
  (foldM (fresh_step st) acc ps : M S OracleError Ev (list Z * bool)) e w = Ok (r, w') →
  w' = w ∧ r.1 = acc.1 ++ map pe_price (filter (fresh (timestamp e) st) ps) ∧
  r.2 = acc.2 && bool_decide (Forall (fresh (timestamp e) st) ps).
Proof.
  revert acc. induction ps as [|p ps IH]; intros acc Hr; cbn [foldM] in Hr.
  - minv Hr. rewrite bool_decide_eq_true_2 by constructor. cbn. by rewrite app_nil_r, andb_true_r.
  - apply bind_Ok in Hr as (acc1 & w1 & Hs & Hr). unfold fresh_step in Hs. minv Hs. inv_checked.
    rewrite filter_cons. apply IH in Hr as (-> & Hr1 & Hr2). split; [done|].
    rewrite Hr1, Hr2, (bool_decide_ext _ _ (Forall_cons _ p ps)), bool_decide_and.
    destruct (_ <=? st) eqn:Hst; zbool.
    + rewrite decide_True, (bool_decide_eq_true_2 (fresh _ _ p)) by done. cbn. by rewrite <- app_assoc.
    + rewrite decide_False, (bool_decide_eq_false_2 (fresh _ _ p)) by (unfold fresh; lia). cbn.
      by rewrite andb_false_r.
Qed.

Lemma aggregate_spec ps n st e w ag w' :
  (aggregate_prices ps n st : M S OracleError Ev AggregatedPrice) e w = Ok (ag, w') →
  let used := map pe_price (filter (fresh (timestamp e) st) ps) in
  w' = w ∧ n ≤ ag_sources_used ag ∧ ag_sources_used ag = Z.of_nat (length used) ∧
  ag_is_fresh ag = bool_decide (Forall (fresh (timestamp e) st) ps) ∧
  sort used !! 0%nat = Some (ag_min_price ag) ∧
  sort used !! (length used - 1)%nat = Some (ag_max_price ag) ∧
  (median (sort used) : M S OracleError Ev Z) e w = Ok (ag_price ag, w) ∧ ag_median_price ag = ag_price ag.
Proof.
  intros Hr used. unfold aggregate_prices in Hr.
  apply bind_Ok in Hr as ([] & w1 & Hn & Hr). minv Hn.
  apply bind_Ok in Hr as (acc & w1 & Hacc & Hr). apply fresh_loop in Hacc as (-> & Hv & Hf).
  cbn in Hv, Hf. fold used in Hv. rewrite Hv, length_sort in Hr.
  apply bind_Ok in Hr as ([] & w1 & Hn2 & Hr). minv Hn2. zbool.
  apply bind_Ok in Hr as (mn & w1 & [Hmn ->]%index_Ok & Hr).
  apply bind_Ok in Hr as (mx & w1 & [Hmx ->]%index_Ok & Hr).
  apply bind_Ok in Hr as (md & w1 & Hmd & Hr).
  assert (w1 = w) as ->.
  { unfold median in Hmd. destruct (_ =? 0)%nat; [|by apply index_Ok in Hmd as [_ ->]].
    apply bind_Ok in Hmd as (a & w2 & [_ ->]%index_Ok & Hmd).
    apply bind_Ok in Hmd as (b & w2 & [_ ->]%index_Ok & Hmd). by minv Hmd. }
  minv Hr. cbn. by split_and!.
Qed.

(** If every entry is fresh and most are in a range, so is the answer. *)
Lemma aggregate_in_range ps n st lo hi e w ag w' :
  (aggregate_prices ps n st : M S OracleError Ev AggregatedPrice) e w = Ok (ag, w') →
  ag_is_fresh ag = true → (2 * outside lo hi (map pe_price ps) < length ps)%nat → lo ≤ ag_price ag ≤ hi.
Proof.
  intros Hr Hf Hn. apply aggregate_spec in Hr as (-> & _ & _ & Hfr & _ & _ & Hmd & _).
  rewrite Hf in Hfr. symmetry in Hfr. apply bool_decide_eq_true_1 in Hfr.
  rewrite filter_all in Hmd by done.
  apply (median_in_range _ lo hi) in Hmd as [? _]; [done|apply sort_sorted|].
  unfold outside in *. by rewrite length_sort, length_map, (count_Permutation _ _ _ (sort_perm _)).
Qed.
End aggregator.

(** ** What the operations leave alone *)

Section frames.
Context `{TokenHost}.

(** Everything but the query limits and the breakers. *)
Definition prices_of (s : State) :=
  (PriceFeedAt s, LatestPrice s, ProviderPrice s, PriceHistory s, FallbackConfigAt s, Provider s).

Lemma consume_query_keeps u f n m : keeps (λ s, (prices_of s, CircuitBreaker s)) (consume_query u f n m).
Proof.
  unfold prices_of, consume_query, check_guest_rate_limit, check_global_rate_limit, set_rate_limit. frame.
Qed.

Lemma consume_batch_keeps u : keeps (λ s, (prices_of s, CircuitBreaker s)) (consume_batch_query u).
Proof. unfold prices_of, consume_batch_query, check_global_rate_limit, set_rate_limit. frame. Qed.

Lemma is_triggered_keeps f : keeps prices_of (is_triggered f).
Proof. unfold prices_of, is_triggered, reset, set_breaker. frame. Qed.
End frames.

(** ** The aggregated price *)

Definition collected (st : State) (f : Symbol) (ps : list Address) : list PriceEntry :=
  omap (λ p, ProviderPrice st !! (f, p)) ps.

(** Fewer than two primary entries, and a fallback to turn to. *)
Definition on_fallback (st : State) (f : Symbol) (feed : PriceFeed) : bool :=
  (Z.of_nat (length (collected st f (pf_providers feed))) <? 2)
  && match FallbackConfigAt st !! f with Some fb => fb_enabled fb | None => false end.

(** The entries the contract consults for feed [f]: those of the primary
    providers, and of the fallback ones when fewer than two have answered. *)
Definition consulted (st : State) (f : Symbol) : list PriceEntry :=
  match PriceFeedAt st !! f with
  | None => []
  | Some feed =>
      collected st f (pf_providers feed) ++
      (if on_fallback st f feed
       then collected st f (from_option fb_fallback_providers [] (FallbackConfigAt st !! f)) else [])
  end.

Lemma prices_of_eq s s' f :
  prices_of s' = prices_of s →
  PriceFeedAt s' = PriceFeedAt s ∧ consulted s' f = consulted s f ∧
  ∀ feed, on_fallback s' f feed = on_fallback s f feed.
Proof.
  unfold prices_of. intros Hk. injection Hk as E1 _ E2 _ E3 _.
  unfold consulted, on_fallback, collected. by rewrite E1, E2, E3.
Qed.

Section aggregated.
Context `{TokenHost}.
Implicit Types (w : World State Event) (e : Env).

Lemma get_aggregated_spec u f e w ag w' :
  get_aggregated_price u f e w = Ok (ag, w') →
  ∃ feed kept w1 w2 n, PriceFeedAt (store w) !! f = Some feed ∧ pf_is_active feed = true ∧
    (remove_outliers (consulted (store w) f) : M State OracleError Event _) e w1 = Ok (kept, w1) ∧
    (aggregate_prices kept n (pf_max_staleness feed) : M State OracleError Event _) e w2 = Ok (ag, w') ∧
    ag_is_fresh ag = true ∧ n = (if on_fallback (store w) f feed then 1 else 2).
Proof.
  intros Hr. unfold get_aggregated_price in Hr.
  apply bind_Ok in Hr as ([] & w1 & Hq & Hr). apply consume_query_keeps in Hq. cbn beta in Hq.
  apply bind_Ok in Hr as (o & w2 & Ho & Hr). minv Ho. apply bind_Ok in Hr as (feed & w2 & Hfd & Hr). minv Hfd.
  apply bind_Ok in Hr as ([] & w2 & Ha & Hr). minv Ha. zbool.
  apply bind_Ok in Hr as (b & w2 & Ht & Hr). apply is_triggered_keeps in Ht.
  assert (prices_of (store w2) = prices_of (store w)) as (Ef & Ec & Eb)%(prices_of_eq _ _ f)
    by (unfold prices_of in *; congruence).
  assert (PriceFeedAt (store w2) !! f = Some feed) as Hf by congruence.
  clear Ht Hfd. unfold collect, set_fallback in Hr.
  apply bind_Ok in Hr as ([] & w3 & Hh & Hr). minv Hh.
  apply bind_Ok in Hr as (ps & w3 & Hps & Hr). minv Hps.
  apply bind_Ok in Hr as (fb & w3 & Hfb & Hr). minv Hfb.
  assert ((Z.of_nat (length (collected (store w2) f (pf_providers feed))) <? 2) && fb_enabled
    (default (mkFallback false [] 3 0 false) (FallbackConfigAt (store w2) !! f)) = on_fallback (store w2) f feed) as Hon.
  { unfold on_fallback. by destruct (FallbackConfigAt (store w2) !! f). }
  unfold collected in Hon. rewrite Hon in Hr. apply bind_Ok in Hr as (all & w3 & Hall & Hr).
  assert (all = consulted (store w2) f) as ->.
  { unfold consulted. rewrite Hf. destruct (on_fallback (store w2) f feed); minv Hall; [|by rewrite app_nil_r].
    unfold collected. by destruct (FallbackConfigAt (store w2) !! f). }
  apply bind_Ok in Hr as (kept & w4 & Hkept & Hr).
  pose proof (proj1 (remove_outliers_spec _ _ _ _ _ Hkept)) as ->.
  apply bind_Ok in Hr as (ag' & w4 & Hag & Hr). minv Hr. zbool.
  exists feed, kept, w3, w3. eexists. rewrite <- Ec, <- Eb. split_and!; try done. congruence.
Qed.
End aggregated.

(** ** Histories and breakers *)

(** Two updates of a feed are at least its interval apart. *)
Definition spaced (interval : Z) (a b : HistoricalPrice) : Prop := hp_timestamp a + interval ≤ hp_timestamp b.

Record history_ok (t interval : Z) (h : list HistoricalPrice) : Prop := {
  ho_length : (length h ≤ 1000)%nat;
  ho_price : Forall (λ x, 0 < hp_price x) h;
  ho_spaced : StronglySorted (spaced interval) h;
  ho_past : Forall (λ x, hp_timestamp x ≤ t) h;
}.

(** The newest sample and the latest price are the same update. *)
Definition newest (h : list HistoricalPrice) : option (Z * Z) :=
  (λ x, (hp_price x, hp_timestamp x)) <$> last h.

Record feeds_ok (t : Z) (st : State) : Prop := {
  fo_feed f feed : PriceFeedAt st !! f = Some feed →
    0 ≤ pf_min_update_interval feed ∧ (2 ≤ length (pf_providers feed))%nat ∧
    ∃ h, PriceHistory st !! f = Some h ∧ history_ok t (pf_min_update_interval feed) h ∧
      newest h = (λ p, (pe_price p, pe_timestamp p)) <$> LatestPrice st !! f;
  fo_known f : is_Some (LatestPrice st !! f) ∨ is_Some (PriceHistory st !! f) → is_Some (PriceFeedAt st !! f);
  fo_tripped f cb : CircuitBreaker st !! f = Some cb → cb_triggered cb = true → is_Some (PriceFeedAt st !! f);
}.

(** The history after one more update. *)
Definition appended (h : list HistoricalPrice) (x : HistoricalPrice) : list HistoricalPrice :=
  (if (1000 <=? length h)%nat then tail h else h) ++ [x].

Lemma StronglySorted_snoc {A} (R : relation A) l x :
  StronglySorted R l → (∀ y, y ∈ l → R y x) → StronglySorted R (l ++ [x]).
Proof.
  intros Hl Hx. apply StronglySorted_app. split_and!; [|done|by repeat constructor].
  intros y z Hy Hz%list_elem_of_singleton. subst. auto.
Qed.

Lemma StronglySorted_tail {A} (R : relation A) l : StronglySorted R l → StronglySorted R (tail l).
Proof. destruct 1; [constructor|done]. Qed.

Lemma Forall_rest {A} (P : A → Prop) l : Forall P l → Forall P (tail l).
Proof. destruct 1; [constructor|done]. Qed.

Lemma sorted_last i h y z :
  0 ≤ i → StronglySorted (spaced i) h → last h = Some z → y ∈ h → hp_timestamp y ≤ hp_timestamp z.
Proof.
  intros Hi Hs [l ->]%last_Some [Hy|Hy%list_elem_of_singleton]%elem_of_app; [|by subst].
  apply StronglySorted_app in Hs as (Hs & _ & _). specialize (Hs y z Hy ltac:(by left)). unfold spaced in Hs. lia.
Qed.

Lemma newest_appended h x : newest (appended h x) = Some (hp_price x, hp_timestamp x).
Proof. unfold newest, appended. by rewrite last_snoc. Qed.

Lemma appended_ok t t' i h x :
  history_ok t i h → t ≤ t' → 0 ≤ i → 0 < hp_price x → hp_timestamp x = t' →
  (∀ z, last h = Some z → hp_timestamp z + i ≤ t') → history_ok t' i (appended h x).
Proof.
  intros [Hlen Hp Hs Ht] Htt Hi Hx Hxt Hz. unfold appended.
  assert (∀ y, y ∈ h → spaced i y x) as Hall.
  { intros y Hy. unfold spaced. rewrite Hxt. destruct (last h) as [z|] eqn:Hl.
    - pose proof (sorted_last _ _ _ _ Hi Hs Hl Hy). specialize (Hz z eq_refl). lia.
    - apply last_None in Hl. subst. by apply not_elem_of_nil in Hy. }
  assert (Forall (λ y, hp_timestamp y ≤ t') h) as Ht' by (eapply Forall_impl; [exact Ht|]; cbn; lia).
  set (k := if (1000 <=? length h)%nat then tail h else h).
  assert ((length k ≤ 999)%nat ∧ Forall (λ y, 0 < hp_price y) k ∧ StronglySorted (spaced i) k ∧
    Forall (λ y, hp_timestamp y ≤ t') k ∧ ∀ y, y ∈ k → y ∈ h) as (K1 & K2 & K3 & K4 & K5).
  { unfold k. destruct (1000 <=? length h)%nat eqn:Hb.
    - apply Nat.leb_le in Hb. split_and!; auto using Forall_rest, StronglySorted_tail.
      + destruct h; cbn in *; lia.
      + destruct h; [done|]. intros y Hy. by right.
    - apply Nat.leb_gt in Hb. split_and!; auto. lia. }
  split.
  - rewrite length_app. cbn. lia.
  - apply Forall_app. by repeat constructor.
  - apply StronglySorted_snoc; auto.
  - apply Forall_app. split; [done|]. constructor; [lia|constructor].
Qed.

Lemma history_ok_later t t' i h : history_ok t i h → t ≤ t' → history_ok t' i h.
Proof. intros [] Ht. split; try done. eapply Forall_impl; [done|]. cbn. lia. Qed.

Lemma feeds_ok_later t t' st : feeds_ok t st → t ≤ t' → feeds_ok t' st.
Proof.
  intros [Hf Hk Hb] Ht. split; try done. intros f feed Hfd.
  destruct (Hf f feed Hfd) as (? & ? & h & ? & Hh & ?). split_and!; [done..|]. exists h.
  split_and!; try done. by eapply history_ok_later.
Qed.

(** A storage with the same feeds and histories, and no new tripped breaker. *)
Lemma feeds_ok_same t st st' :
  feeds_ok t st → PriceFeedAt st' = PriceFeedAt st → LatestPrice st' = LatestPrice st →
  PriceHistory st' = PriceHistory st →
  (∀ f cb, CircuitBreaker st' !! f = Some cb → cb_triggered cb = true →
     CircuitBreaker st !! f = Some cb ∨ is_Some (PriceFeedAt st !! f)) →
  feeds_ok t st'.
Proof.
  intros [Hf Hk Hb] E1 E2 E3 E4. split; rewrite ?E1, ?E2, ?E3; try done.
  intros f cb Hcb Ht. destruct (E4 f cb Hcb Ht); eauto.
Qed.

(** The breaker of [f] is tripped at time [t] and its cooldown is not over. *)
Definition halted (st : State) (f : Symbol) (t : Z) : bool :=
  match CircuitBreaker st !! f with
  | Some cb => cb_triggered cb && match cb_can_resume_at cb with Some T => t <? T | None => true end
  | None => false
  end.

Lemma history_ok_nil t i : history_ok t i [].
Proof. split; try constructor. cbn. lia. Qed.

Lemma feeds_ok_create t st st' f feed :
  feeds_ok t st → PriceFeedAt st !! f = None → 0 ≤ pf_min_update_interval feed →
  (2 ≤ length (pf_providers feed))%nat → PriceFeedAt st' = <[f := feed]> (PriceFeedAt st) →
  LatestPrice st' = LatestPrice st → PriceHistory st' = <[f := []]> (PriceHistory st) →
  (∀ g cb, CircuitBreaker st' !! g = Some cb → cb_triggered cb = true → CircuitBreaker st !! g = Some cb) →
  feeds_ok t st'.
Proof.
  intros [Hf Hk Hb] Hnone Hi Hp E1 E2 E3 E4. split; rewrite ?E1, ?E2, ?E3.
  - intros g fd [[<- <-]|[Hne Hg]]%lookup_insert_Some.
    + split_and!; [done..|]. exists []. rewrite lookup_insert_eq. split_and!; [done|apply history_ok_nil|].
      destruct (LatestPrice st !! f) eqn:Hl; [|done]. destruct (Hk f) as [? ?]; [by left|congruence].
    + rewrite lookup_insert_ne by done. by apply Hf.
  - intros g Hg. destruct (decide (f = g)) as [<-|Hne]; [by rewrite lookup_insert_eq|].
    rewrite lookup_insert_ne by done. rewrite lookup_insert_ne in Hg by done. by apply Hk.
  - intros g cb Hcb Ht. apply is_Some_insert. eauto.
Qed.

Lemma feeds_ok_submit t t' st st' f feed x h :
  feeds_ok t st → t ≤ t' → PriceFeedAt st !! f = Some feed → PriceHistory st !! f = Some h →
  (∀ l, LatestPrice st !! f = Some l → pf_min_update_interval feed ≤ t' - pe_timestamp l) →
  0 < pe_price x → pe_timestamp x = t' → PriceFeedAt st' = PriceFeedAt st →
  LatestPrice st' = <[f := x]> (LatestPrice st) →
  PriceHistory st' = <[f := appended h (mkHistorical (pe_price x) t' (pe_block_number x) false)]> (PriceHistory st) →
  (∀ g cb, CircuitBreaker st' !! g = Some cb → cb_triggered cb = true →
     CircuitBreaker st !! g = Some cb ∨ is_Some (PriceFeedAt st !! g)) →
  feeds_ok t' st'.
Proof.
  intros [Hf Hk Hb] Htt Hfd Hh Hgap Hpos Hxt E1 E2 E3 E4. split; rewrite ?E1, ?E2, ?E3.
  - intros g fd Hg. destruct (decide (f = g)) as [<-|Hne].
    + rewrite Hfd in Hg. injection Hg as <-. destruct (Hf f feed Hfd) as (Hi & Hp & h' & Hh' & Hok & Hn).
      rewrite Hh in Hh'. injection Hh' as <-. split_and!; [done..|]. eexists. rewrite !lookup_insert_eq.
      split_and!; [done| |rewrite newest_appended; cbn; by rewrite Hxt].
      eapply appended_ok; try done. intros z Hz. unfold newest in Hn. rewrite Hz in Hn. cbn in Hn.
      symmetry in Hn. apply fmap_Some in Hn as (l & Hl & Heq). injection Heq as _ Hzt. specialize (Hgap l Hl). lia.
    + rewrite !lookup_insert_ne by done. destruct (Hf g fd Hg) as (? & ? & h' & ? & ? & ?).
      split_and!; [done..|]. exists h'. split_and!; try done. by eapply history_ok_later.
  - intros g Hg. destruct (decide (f = g)) as [<-|Hne]; [by eexists|].
    rewrite !lookup_insert_ne in Hg by done. by apply Hk.
  - intros g cb Hcb Ht. destruct (E4 g cb Hcb Ht); eauto.
Qed.

Section ops.
Context `{TokenHost} (self : Address).
Implicit Types (w : World State Event) (e : Env).

(** Breakers that are the old ones, or not tripped. *)
Definition calmer (cb cb' : gmap Symbol CircuitBreakerState) : Prop :=
  ∀ f c, cb' !! f = Some c → cb_triggered c = true → cb !! f = Some c.

Lemma calmer_refl cb : calmer cb cb.
Proof. by intros f c. Qed.

Lemma calmer_insert cb f c : cb_triggered c = false → calmer cb (<[f := c]> cb).
Proof. intros Hc g c' [[<- <-]|[_ Hg]]%lookup_insert_Some Ht; [congruence|done]. Qed.

Lemma is_triggered_spec f e w b w' :
  is_triggered f e w = Ok (b, w') →
  b = halted (store w) f (timestamp e) ∧ prices_of (store w') = prices_of (store w) ∧
  calmer (CircuitBreaker (store w)) (CircuitBreaker (store w')) ∧ (b = true → w' = w).
Proof.
  intros Hr. unfold is_triggered, reset, set_breaker in Hr. unfold halted.
  apply bind_Ok in Hr as (o & w1 & Ho & Hr). minv Ho.
  destruct (CircuitBreaker (store w) !! f) as [cb|] eqn:Hcb; [|minv Hr; by eauto using calmer_refl].
  destruct (cb_triggered cb) eqn:Ht; cbn [andb]; [|minv Hr; by eauto using calmer_refl].
  apply bind_Ok in Hr as (t & w1 & Hn & Hr). minv Hn.
  destruct (cb_can_resume_at cb) as [T|]; [|minv Hr; by eauto using calmer_refl].
  destruct (timestamp e <? T); minv Hr; [by eauto using calmer_refl|].
  split_and!; try done. cbn. by apply calmer_insert.
Qed.

(** The part of the storage an update of a provider's standing leaves alone. *)
Definition records (s : State) := (PriceFeedAt s, LatestPrice s, PriceHistory s, ProviderPrice s, CircuitBreaker s).

Lemma accept_price_keeps f p d n : keeps records (accept_price f p d n).
Proof.
  unfold records, accept_price, record_successful_update, distribute_update_reward, calculate_reward,
    set_incentive_balance, set_health, set_provider. frame.
Qed.

Lemma record_failed_keeps p : keeps records (record_failed_update p).
Proof. unfold records, record_failed_update, set_health, set_provider. frame. Qed.

Lemma check_price_movement_reads feed a b R : reads R (check_price_movement feed a b : M State OracleError Event _).
Proof. unfold check_price_movement. eauto 12 with contracts. Qed.

Lemma record_price_spec f p x e w w' :
  record_price f p x e w = Ok (tt, w') →
  records (store w') = (PriceFeedAt (store w), <[f := x]> (LatestPrice (store w)),
    <[f := appended (default [] (PriceHistory (store w) !! f))
       (mkHistorical (pe_price x) (pe_timestamp x) (pe_block_number x) false)]> (PriceHistory (store w)),
    <[(f, p) := x]> (ProviderPrice (store w)), CircuitBreaker (store w)).
Proof. intros Hr. unfold record_price, set_history in Hr. by minv Hr. Qed.

Lemma trigger_spec f a b c n e w w' :
  trigger f a b c n e w = Ok (tt, w') →
  ∃ cb, cb_triggered cb = true ∧ cb_can_resume_at cb = Some (timestamp e + n) ∧
    store w' = {| (store w) with CircuitBreaker := <[f := cb]> (CircuitBreaker (store w)) |}.
Proof. intros Hr. unfold trigger, set_breaker in Hr. minv Hr. inv_checked. eexists. split; [|split; [|reflexivity]]; done. Qed.

(** The guards a submission passed, and the steps that followed. *)
Lemma submit_price_run p f price e w w' :
  submit_price p f price e w = Ok (tt, w') →
  ∃ feed d w1 w2 prev (mv : bool * Z), authorized e p = true ∧ 0 < price ∧
    PriceFeedAt (store w) !! f = Some feed ∧ Provider (store w) !! p = Some d ∧
    (∀ l, LatestPrice (store w) !! f = Some l → pf_min_update_interval feed ≤ timestamp e - pe_timestamp l) ∧
    is_triggered f e w = Ok (false, w1) ∧
    record_price f p (mkEntry price (timestamp e) p (pv_provider_type d) (sequence e)) e w1 = Ok (tt, w2) ∧
    (if mv.1 then trigger f price prev mv.2 3600;; record_failed_update p
     else accept_price f p d price) e w2 = Ok (tt, w').
Proof.
  intros Hr. unfold submit_price in Hr.
  apply bind_Ok in Hr as ([] & w1 & Ha & Hr). minv Ha. apply bind_Ok in Hr as ([] & w1 & Hp & Hr). minv Hp. zbool.
  apply bind_Ok in Hr as (o & w1 & Ho & Hr). minv Ho. apply bind_Ok in Hr as (feed & w1 & Hf & Hr). minv Hf.
  apply bind_Ok in Hr as ([] & w1 & Hact & Hr). minv Hact.
  apply bind_Ok in Hr as (b & w1 & Hau & Hr).
  assert (w1 = w) as -> by (unfold is_authorized_for in Hau; minv Hau; done). clear Hau.
  apply bind_Ok in Hr as ([] & w1 & Hb & Hr). minv Hb.
  apply bind_Ok in Hr as (o & w1 & Ho & Hr). minv Ho. apply bind_Ok in Hr as (d & w1 & Hd & Hr). minv Hd.
  apply bind_Ok in Hr as ([] & w1 & Hpa & Hr). minv Hpa.
  apply bind_Ok in Hr as (l & w1 & Hl & Hr). minv Hl. apply bind_Ok in Hr as (t & w1 & Ht & Hr). minv Ht.
  apply bind_Ok in Hr as ([] & w1 & Hint & Hr).
  assert (w1 = w ∧ ∀ l, LatestPrice (store w) !! f = Some l →
    pf_min_update_interval feed ≤ timestamp e - pe_timestamp l) as [-> Hgap].
  { destruct (LatestPrice (store w) !! f) as [l|]; minv Hint; [|done]. inv_checked. zbool. split; [done|].
    intros ? [= <-]. lia. }
  clear Hint. apply bind_Ok in Hr as (h & w1 & Hh & Hr).
  apply bind_Ok in Hr as ([] & w2 & [-> ->]%throw_if_Ok & Hr).
  apply bind_Ok in Hr as (sq & w2 & [-> ->]%ledger_sequence_Ok & Hr).
  apply bind_Ok in Hr as ([] & w2 & Hrec & Hr). apply bind_Ok in Hr as (mv & w3 & Hmv & Hr).
  assert (w3 = w2) as ->.
  { eapply reads_pure; [|exact Hmv]. apply reads_if; [apply check_price_movement_reads|apply reads_ret]. }
  exists feed, d, w1, w2. eexists _, mv. by split_and!.
Qed.

(** What a submission that goes through needed, and what it wrote. *)
Lemma submit_price_spec p f price e w w' :
  submit_price p f price e w = Ok (tt, w') →
  ∃ feed entry, authorized e p = true ∧ 0 < price ∧
    PriceFeedAt (store w) !! f = Some feed ∧ halted (store w) f (timestamp e) = false ∧
    (∀ l, LatestPrice (store w) !! f = Some l → pf_min_update_interval feed ≤ timestamp e - pe_timestamp l) ∧
    pe_price entry = price ∧ pe_timestamp entry = timestamp e ∧ pe_provider entry = p ∧
    PriceFeedAt (store w') = PriceFeedAt (store w) ∧
    LatestPrice (store w') = <[f := entry]> (LatestPrice (store w)) ∧
    ProviderPrice (store w') = <[(f, p) := entry]> (ProviderPrice (store w)) ∧
    PriceHistory (store w') = <[f := appended (default [] (PriceHistory (store w) !! f))
      (mkHistorical price (timestamp e) (pe_block_number entry) false)]> (PriceHistory (store w)) ∧
    (calmer (CircuitBreaker (store w)) (CircuitBreaker (store w')) ∨
     ∃ cb c, CircuitBreaker (store w') = <[f := c]> cb ∧ calmer (CircuitBreaker (store w)) cb).
Proof.
  intros (feed & d & w1 & w2 & prev & mv & Ha & Hp & Hf & Hd & Hgap & Htr & Hrec & Hr)%submit_price_run.
  apply is_triggered_spec in Htr as (Eh & Hk & Hc & _). apply record_price_spec in Hrec.
  unfold prices_of in Hk. injection Hk as E1 E2 E3 E4 _ _. rewrite E1, E2, E3, E4 in Hrec.
  cbn [pe_price pe_timestamp pe_block_number] in Hrec.
  exists feed, (mkEntry price (timestamp e) p (pv_provider_type d) (sequence e)).
  split_and!; try done; cbn [pe_block_number].
  all: destruct (mv.1);
    [apply bind_Ok in Hr as ([] & w3 & (cb & _ & _ & Htr)%trigger_spec & Hr); apply record_failed_keeps in Hr
    |apply accept_price_keeps in Hr];
    unfold records in *; [rewrite Htr in Hr; cbn in Hr|]; try congruence.
  - right. exists (CircuitBreaker (store w1)), cb. split; [congruence|done].
  - left. by replace (CircuitBreaker (store w')) with (CircuitBreaker (store w1)) by congruence.
Qed.

(** The calls that touch no feed. *)
Definition quiet (c : Call) : Prop :=
  match c with
  | CCreatePriceFeed _ _ _ _ _ _ _ _ _ _ | CSubmitPrice _ _ _ | CGetAggregatedPrice _ _
  | CResetCircuitBreaker _ _ => False
  | _ => True
  end.

Lemma index_reads {A} (l : list A) i R : reads R (index l i : M State OracleError Event A).
Proof. apply reads_expect. Qed.
#[local] Hint Resolve index_reads : contracts.

Lemma remove_outliers_reads ps R : reads R (remove_outliers ps : M State OracleError Event _).
Proof. unfold remove_outliers. eauto 20 with contracts. Qed.

Lemma aggregate_reads ps n st R : reads R (aggregate_prices ps n st : M State OracleError Event _).
Proof.
  unfold aggregate_prices, fresh_step, median. apply reads_bind; [apply reads_throw_if|intros _].
  apply reads_bind; [apply reads_foldM; eauto 8 with contracts|]. intros acc. eauto 20 with contracts.
Qed.

Lemma calculate_twap_reads h n R : reads R (calculate_twap h n : M State OracleError Event _).
Proof.
  unfold calculate_twap. apply reads_bind; [apply reads_now|]. intros t.
  apply reads_option; [intros newest|apply reads_ret]. apply reads_bind; [|intros; eauto 8 with contracts].
  generalize (0, 0). induction (samples_in h _ t) as [|[ti pi] l IH]; intros acc; cbn [twap_loop].
  - apply reads_ret.
  - eauto 12 with contracts.
Qed.

Lemma oracle_quiet_keeps c : quiet c → keeps records (exec c).
Proof.
  intros Hq. destruct c; try done; cbn [exec]; unfold discard, initialize, register_provider,
    get_historical_prices, create_custom_feed, submit_custom_data, get_custom_data, withdraw_incentives,
    IncentiveManager_withdraw_incentives, add_fallback_provider, grant_subscription, get_latest_prices_batch,
    consume_batch_query, get_twap, consume_query, check_guest_rate_limit, check_global_rate_limit, verify_admin,
    record_successful_update, set_rate_limit, set_fallback, set_incentive_balance, set_health, set_provider, records;
    pose proof (λ h n, calculate_twap_reads h n eq); frame.
Qed.

Lemma get_aggregated_records u f e w ag w' :
  get_aggregated_price u f e w = Ok (ag, w') →
  halted (store w) f (timestamp e) = false ∧ PriceFeedAt (store w') = PriceFeedAt (store w) ∧
  LatestPrice (store w') = LatestPrice (store w) ∧ PriceHistory (store w') = PriceHistory (store w) ∧
  ProviderPrice (store w') = ProviderPrice (store w) ∧
  calmer (CircuitBreaker (store w)) (CircuitBreaker (store w')).
Proof.
  intros Hr. unfold get_aggregated_price in Hr.
  apply bind_Ok in Hr as ([] & w1 & Hq & Hr). apply consume_query_keeps in Hq. cbn beta in Hq.
  apply bind_Ok in Hr as (o & w2 & [-> ->]%gets_Ok & Hr).
  apply bind_Ok in Hr as (feed & w2 & [_ ->]%ok_or_Ok & Hr).
  apply bind_Ok in Hr as ([] & w2 & [_ ->]%throw_if_Ok & Hr).
  apply bind_Ok in Hr as (b & w2 & Ht & Hr). apply is_triggered_spec in Ht as (Eh & Hk & Hc & _).
  apply bind_Ok in Hr as ([] & w3 & [-> ->]%throw_if_Ok & Hr).
  match type of Hr with ?rest e w2 = _ => assert (keeps records rest) as Hrest end.
  { unfold collect, set_fallback, records. pose proof (λ ps, remove_outliers_reads ps eq). pose proof (λ ps n st, aggregate_reads ps n st eq). frame. }
  apply Hrest in Hr. clear Hrest. unfold records, prices_of, halted in *.
  injection Hq as E1 E2 E3 E4 _ _ E5. injection Hk as F1 F2 F3 F4 _ _. injection Hr as G1 G2 G3 G4 G5.
  rewrite E5 in Eh, Hc. rewrite G5. split_and!; [done|congruence..|exact Hc].
Qed.

Lemma create_price_feed_spec a f x y dec i st bps ps b e w w' :
  create_price_feed a f x y dec i st bps ps b e w = Ok (tt, w') →
  PriceFeedAt (store w) !! f = None ∧ (2 ≤ length ps)%nat ∧
  ∃ feed, pf_min_update_interval feed = i ∧ pf_providers feed = ps ∧
    PriceFeedAt (store w') = <[f := feed]> (PriceFeedAt (store w)) ∧
    LatestPrice (store w') = LatestPrice (store w) ∧
    ProviderPrice (store w') = ProviderPrice (store w) ∧
    PriceHistory (store w') = <[f := []]> (PriceHistory (store w)) ∧
    (CircuitBreaker (store w') = CircuitBreaker (store w) ∨
     ∃ cb, cb_triggered cb = false ∧ CircuitBreaker (store w') = <[f := cb]> (CircuitBreaker (store w))).
Proof.
  intros Hr. unfold create_price_feed, verify_admin, set_history, CircuitBreaker_initialize, set_breaker,
    set_fallback in Hr.
  apply bind_Ok in Hr as ([] & w1 & Ha & Hr). minv Ha. apply bind_Ok in Hr as ([] & w1 & Hv & Hr). minv Hv.
  apply bind_Ok in Hr as (o & w1 & Ho & Hr). minv Ho. apply bind_Ok in Hr as ([] & w1 & Hn & Hr). minv Hn.
  zbool. apply eq_None_not_Some in Hn. split; [done|].
  apply bind_Ok in Hr as ([] & w1 & Hl & Hr). minv Hl. zbool. split; [lia|].
  destruct b; minv Hr; eexists; (split_and!; [| |reflexivity|..]); try done; cbn; [right|by left].
  eexists. split; [|reflexivity]. done.
Qed.

(** Every call keeps the feeds well-formed. *)
Lemma exec_feeds_ok c t e w w' :
  exec c e w = Ok (tt, w') → t ≤ timestamp e → call_ok c → feeds_ok t (store w) → feeds_ok (timestamp e) (store w').
Proof.
  intros Hr Ht Hok Hi. pose proof (feeds_ok_later _ _ _ Hi Ht) as Hl.
  destruct c; try (match type of Hr with exec ?c _ _ = _ =>
    pose proof (oracle_quiet_keeps c I _ _ _ _ Hr) as Hk; unfold records in Hk; injection Hk as E1 E2 E3 _ E5;
    apply (feeds_ok_same _ _ _ Hl E1 E2 E3); rewrite E5; by left end); cbn [exec] in Hr;
    try (apply discard_Ok in Hr as [r Hr]).
  - apply create_price_feed_spec in Hr as (Hnone & Hps & feed & Hfi & Hfp & E1 & E2 & _ & E3 & E4).
    destruct Hok as (_ & Hint & _). apply (feeds_ok_create _ (store w) _ feed_id feed); try done; [lia|congruence|].
    intros g cb. destruct E4 as [->|(cb0 & Hcb0 & ->)]; [done|]. by apply calmer_insert.
  - apply submit_price_spec in Hr as (feed & x & _ & Hpos & Hf & _ & Hgap & Hxp & Hxt & _ & E1 & E2 & _ & E3 & E4).
    destruct (fo_feed _ _ Hi _ _ Hf) as (_ & _ & h & Hh & _). rewrite Hh in E3. cbn [default from_option] in E3.
    eapply (feeds_ok_submit _ _ _ _ _ _ x h Hi Ht Hf Hh Hgap); try done; [by rewrite Hxp|by rewrite Hxp|].
    intros g cb Hcb Htr. destruct E4 as [Hc|(cb0 & c & E & Hc)]; [left; by apply Hc|].
    rewrite E in Hcb. apply lookup_insert_Some in Hcb as [[<- <-]|[_ Hcb]]; [right; by eexists|left; by apply Hc].
  - apply get_aggregated_records in Hr as (_ & E1 & E2 & E3 & _ & Hc).
    apply (feeds_ok_same _ _ _ Hl E1 E2 E3). left. by apply Hc.
  - unfold reset_circuit_breaker, verify_admin, reset, set_breaker in Hr. minv Hr.
    apply (feeds_ok_same _ _ _ Hl); try done. intros g cb Hcb Htr. left. revert Hcb Htr. cbn. by apply calmer_insert.
Qed.
End ops.

(** ** Standing and incentives *)

(** What an accepted update pays at most: twice the base reward of 100. *)
Definition MAX_REWARD : Z := 200.

Record standing_ok (st : State) : Prop := {
  so_admin : is_Some (Admin st);
  so_reputation p d : Provider st !! p = Some d → 0 ≤ pv_reputation_score d ≤ 100;
  so_health p h : ProviderHealthAt st !! p = Some h →
    0 ≤ ph_availability_score h ≤ 1000 ∧ 0 ≤ ph_consecutive_failures h;
  so_base : default 100 (BaseRewardRate st) = 100;
  so_count : 0 ≤ default 0 (DistributionCount st);
  so_balance p b : IncentiveBalance st !! p = Some b → 0 ≤ b;
  so_total : msum (λ _ b, b) (IncentiveBalance st) ≤ MAX_REWARD * default 0 (DistributionCount st);
}.

Section standing.
Context `{TokenHost}.
Implicit Types (w : World State Event) (e : Env).

Lemma calculate_reward_bounds p base e w r w' :
  calculate_reward p base e w = Ok (r, w') → standing_ok (store w) → 0 ≤ base →
  w' = w ∧ 0 ≤ r ≤ 2 * base.
Proof.
  intros Hr Hs Hb. unfold calculate_reward in Hr.
  apply bind_Ok in Hr as (oh & w1 & Ho & Hr). minv Ho. apply bind_Ok in Hr as (r1 & w1 & H1 & Hr).
  assert (w1 = w ∧ 0 ≤ r1 ≤ base) as [-> Hr1].
  { destruct (ProviderHealthAt (store w) !! p) as [h|] eqn:Hh; [|minv H1; split; [done|lia]].
    destruct (so_health _ Hs _ _ Hh) as [Ha Hf].
    assert (0 ≤ (base * ph_availability_score h) `div` 1000 ≤ base) as Hq
      by (split; [apply Z.div_pos; nia|apply div_le_of_le_mul; nia]).
    apply bind_Ok in H1 as (x & w2 & Hx & H1). minv Hx. apply bind_Ok in H1 as (q & w2 & Hq' & H1). minv Hq'.
    inv_checked. rewrite quot_div_nonneg in * by nia. destruct (_ >? 0); minv H1; [|done]. inv_checked.
    split; [done|]. rewrite quot_div_nonneg by nia.
    split; [apply Z.div_pos; nia|]. transitivity ((base * ph_availability_score h) `div` 1000); [|lia].
    apply div_le_of_le_mul; nia. }
  clear H1. apply bind_Ok in Hr as (op & w1 & Ho & Hr). minv Ho. apply bind_Ok in Hr as (r2 & w1 & H2 & Hr).
  assert (w1 = w ∧ 0 ≤ r2 ≤ 2 * base) as [-> Hr2].
  { destruct (Provider (store w) !! p) as [d|] eqn:Hd; minv H2; [|split; [done|lia]]. inv_checked.
    pose proof (so_reputation _ Hs _ _ Hd). split; [done|]. rewrite quot_div_nonneg by nia.
    split; [apply Z.div_pos; nia|]. apply div_le_of_le_mul; nia. }
  minv Hr. split; [done|]. lia.
Qed.

(** A provider and its health are written. *)
Lemma standing_move st st' p d h :
  standing_ok st → 0 ≤ pv_reputation_score d ≤ 100 → 0 ≤ ph_availability_score h ≤ 1000 ∧ 0 ≤ ph_consecutive_failures h →
  Admin st' = Admin st → (Provider st' = Provider st ∨ Provider st' = <[p := d]> (Provider st)) →
  (ProviderHealthAt st' = ProviderHealthAt st ∨ ProviderHealthAt st' = <[p := h]> (ProviderHealthAt st)) →
  BaseRewardRate st' = BaseRewardRate st → DistributionCount st' = DistributionCount st →
  IncentiveBalance st' = IncentiveBalance st → standing_ok st'.
Proof.
  intros [Ha Hr Hh Hb Hc Hbal Ht] Hd Hhd E1 E2 E3 E4 E5 E6.
  split; rewrite ?E1, ?E4, ?E5, ?E6; try done.
  - destruct E2 as [->| ->]; [done|]. by intros q d' [[<- <-]|[_ Hq]]%lookup_insert_Some; [|eapply Hr].
  - destruct E3 as [->| ->]; [done|]. by intros q h' [[<- <-]|[_ Hq]]%lookup_insert_Some; [|eapply Hh].
Qed.

Lemma health_default st p x h :
  standing_ok st → h = default x (ProviderHealthAt st !! p) →
  0 ≤ ph_availability_score x ≤ 1000 ∧ 0 ≤ ph_consecutive_failures x →
  0 ≤ ph_availability_score h ≤ 1000 ∧ 0 ≤ ph_consecutive_failures h.
Proof.
  intros Hs -> Hx. destruct (ProviderHealthAt st !! p) as [h|] eqn:Hh; [|done]. by apply (so_health _ Hs p).
Qed.

Lemma saturating_succ ty a m : 0 ≤ a → 0 ≤ m → 0 ≤ Z.min (saturating_add ty a 1) m ≤ m.
Proof.
  intros Ha Hm. unfold saturating_add, saturate.
  assert (0 ≤ int_max ty) by (destruct ty; by vm_compute). lia.
Qed.

Lemma record_successful_standing p e w w' :
  record_successful_update p e w = Ok (tt, w') → standing_ok (store w) → standing_ok (store w').
Proof.
  intros Hr Hs. unfold record_successful_update, set_health, set_provider in Hr.
  apply bind_Ok in Hr as (oh & w1 & Ho & Hr). minv Ho. apply bind_Ok in Hr as (t & w1 & Ht & Hr). minv Ht.
  assert (∃ h, h = default (mkHealth p 0 (timestamp e) 0 1000) (ProviderHealthAt (store w) !! p)) as [h Eh] by eauto.
  cbv zeta in Hr. rewrite <- Eh in Hr.
  pose proof (health_default _ _ _ _ Hs Eh ltac:(cbn; lia)) as [Hh _]. clear Eh.
  pose proof (saturating_succ U32 (ph_availability_score h) 1000 ltac:(lia) ltac:(lia)) as Hav.
  apply bind_Ok in Hr as ([] & w1 & Hset & Hr). minv Hset. apply bind_Ok in Hr as (op & w1 & Ho & Hr). minv Ho.
  destruct (Provider (store w) !! p) as [d|] eqn:Hd; minv Hr; inv_checked.
  - pose proof (so_reputation _ Hs _ _ Hd).
    pose proof (saturating_succ U32 (pv_reputation_score d) 100 ltac:(lia) ltac:(lia)).
    by eapply (standing_move _ _ p {| d with pv_reputation_score := Z.min (saturating_add U32 (pv_reputation_score d) 1) 100;
      pv_total_updates := pv_total_updates d + 1; pv_successful_updates := pv_successful_updates d + 1 |} _ Hs); auto.
  - assert (0 ≤ 50 ≤ 100) as H50 by lia.
    by eapply (standing_move _ _ p (mkProvider p Custom false false 50 0 0 0 0) _ Hs H50); auto.
Qed.

Lemma record_failed_standing p e w w' :
  record_failed_update p e w = Ok (tt, w') → standing_ok (store w) → standing_ok (store w').
Proof.
  intros Hr Hs. unfold record_failed_update, set_health, set_provider in Hr.
  apply bind_Ok in Hr as (oh & w1 & Ho & Hr). minv Ho.
  assert (∃ h, h = default (mkHealth p 1 0 0 950) (ProviderHealthAt (store w) !! p)) as [h Eh] by eauto.
  cbv zeta in Hr. rewrite <- Eh in Hr.
  pose proof (health_default _ _ _ _ Hs Eh ltac:(cbn; lia)) as [Hh Hf]. clear Eh.
  apply bind_Ok in Hr as (n & w1 & Hn & Hr). minv Hn. inv_checked.
  assert (0 ≤ ph_consecutive_failures h + 1) as Hf' by lia.
  apply bind_Ok in Hr as ([] & w1 & Hset & Hr). minv Hset. apply bind_Ok in Hr as (op & w1 & Ho & Hr). minv Ho.
  destruct (Provider (store w) !! p) as [d|] eqn:Hd; minv Hr; inv_checked.
  - pose proof (so_reputation _ Hs _ _ Hd) as Hrep.
    by eapply (standing_move _ _ p {| d with pv_total_updates := pv_total_updates d + 1 |} _ Hs Hrep); auto.
  - assert (0 ≤ 50 ≤ 100) as H50 by lia.
    by eapply (standing_move _ _ p (mkProvider p Custom false false 50 0 0 0 0) _ Hs H50); auto.
Qed.

(** A reward is added to a balance and counted. *)
Lemma distribute_standing p f e w n w' :
  distribute_update_reward p f 100 (default 0 (DistributionCount (store w))) e w = Ok (n, w') →
  standing_ok (store w) →
  ∃ r, n = default 0 (DistributionCount (store w)) + 1 ∧ 0 ≤ r ≤ MAX_REWARD ∧
    store w' = {| (store w) with IncentiveBalance :=
      <[p := default 0 (IncentiveBalance (store w) !! p) + r]> (IncentiveBalance (store w)) |}.
Proof.
  intros Hr Hs. unfold distribute_update_reward, set_incentive_balance in Hr.
  apply bind_Ok in Hr as (r & w1 & Hrew & Hr).
  apply calculate_reward_bounds in Hrew as [-> Hb]; [|done|lia]. minv Hr. inv_checked.
  exists r. unfold MAX_REWARD. split_and!; [done|lia|lia|done].
Qed.

Lemma reward_standing st st' p r :
  standing_ok st → 0 ≤ r ≤ MAX_REWARD → Admin st' = Admin st → Provider st' = Provider st →
  ProviderHealthAt st' = ProviderHealthAt st → BaseRewardRate st' = BaseRewardRate st →
  DistributionCount st' = Some (default 0 (DistributionCount st) + 1) →
  IncentiveBalance st' = <[p := default 0 (IncentiveBalance st !! p) + r]> (IncentiveBalance st) →
  standing_ok st'.
Proof.
  intros [Ha Hr Hh Hb Hc Hbal Ht] Hrr E1 E2 E3 E4 E5 E6.
  remember (default 0 (DistributionCount st)) as c eqn:Ec. clear Ec.
  split; rewrite ?E1, ?E2, ?E3, ?E4, ?E5, ?E6; try done; [cbn; unfold id; lia| |cbn; unfold id].
  - intros q b [[<- <-]|[_ Hq]]%lookup_insert_Some; [|eauto].
    destruct (IncentiveBalance st !! p) as [b|] eqn:Hbp; cbn; [specialize (Hbal _ _ Hbp)|]; lia.
  - rewrite msum_insert. destruct (IncentiveBalance st !! p); cbn; unfold id in *; lia.
Qed.

Lemma accept_standing f p d n e w w' :
  accept_price f p d n e w = Ok (tt, w') → 0 ≤ pv_reputation_score d ≤ 100 →
  standing_ok (store w) → standing_ok (store w').
Proof.
  intros Hr Hd Hs. unfold accept_price, set_provider in Hr.
  apply bind_Ok in Hr as ([] & w1 & Hsu & Hr). apply record_successful_standing in Hsu; [|done]. clear Hs.
  apply bind_Ok in Hr as (a & w2 & Ha & Hr). minv Ha. apply bind_Ok in Hr as (b & w2 & Hb & Hr). minv Hb.
  inv_checked. apply bind_Ok in Hr as ([] & w2 & Hset & Hr). apply modify_Ok in Hset.
  assert (standing_ok (store w2)) as Hs2.
  { subst w2. assert (0 ≤ 1000 ≤ 1000 ∧ 0 ≤ 0) as Hx by lia.
    by apply (standing_move (store w1) _ p {| d with pv_successful_updates := pv_successful_updates d + 1;
      pv_total_updates := pv_total_updates d + 1 |} (mkHealth p 0 0 0 1000) Hsu Hd Hx); cbn; auto. }
  clear Hset Hsu. apply bind_Ok in Hr as (base & w3 & Hba & Hr). minv Hba.
  apply bind_Ok in Hr as (cnt & w3 & Hcn & Hr). minv Hcn. rewrite (so_base _ Hs2) in Hr.
  apply bind_Ok in Hr as (k & w3 & Hdist & Hr).
  destruct (distribute_standing _ _ _ _ _ _ Hdist Hs2) as (r & -> & Hrr & Est).
  minv Hr. by eapply (reward_standing (store w2) _ p r Hs2 Hrr); cbn; rewrite ?Est.
Qed.

Definition standing_of (s : State) :=
  (Admin s, Provider s, ProviderHealthAt s, BaseRewardRate s, DistributionCount s, IncentiveBalance s).

Lemma standing_same st st' : standing_of st' = standing_of st → standing_ok st → standing_ok st'.
Proof.
  unfold standing_of. intros E. injection E as E1 E2 E3 E4 E5 E6. intros [].
  by split; rewrite ?E1, ?E2, ?E3, ?E4, ?E5, ?E6.
Qed.

Lemma submit_standing p f price e w w' :
  submit_price p f price e w = Ok (tt, w') → standing_ok (store w) → standing_ok (store w').
Proof.
  intros (feed & d & w1 & w2 & prev & mv & _ & _ & _ & Hd & _ & Htr & Hrec & Hr)%submit_price_run Hs.
  pose proof (so_reputation _ Hs _ _ Hd) as Hrep.
  assert (standing_ok (store w2)) as Hs2.
  { eapply standing_same; [|exact Hs]. transitivity (standing_of (store w1)).
    - assert (keeps standing_of (record_price f p (mkEntry price (timestamp e) p (pv_provider_type d) (sequence e)))) as Hk
        by (unfold record_price, set_history, standing_of; frame). by eapply Hk.
    - assert (keeps standing_of (is_triggered f)) as Hk
        by (unfold is_triggered, reset, set_breaker, standing_of; frame). by eapply Hk. }
  destruct (mv.1); [|by eapply accept_standing].
  apply bind_Ok in Hr as ([] & w3 & (cb & _ & _ & Htg)%trigger_spec & Hr).
  eapply record_failed_standing; [exact Hr|]. eapply standing_same; [|exact Hs2]. by rewrite Htg.
Qed.

(** The calls that touch no provider and no balance. *)
Definition bystander (c : Call) : Prop :=
  match c with
  | CInitialize _ _ | CRegisterProvider _ _ _ _ _ _ | CSubmitPrice _ _ _ | CSubmitCustomData _ _ _
  | CWithdrawIncentives _ => False
  | _ => True
  end.

Lemma bystander_keeps c : bystander c → keeps standing_of (exec c).
Proof.
  intros Hq. destruct c; try done; cbn [exec]; unfold discard, create_price_feed, get_aggregated_price,
    get_historical_prices, create_custom_feed, get_custom_data, add_fallback_provider, grant_subscription,
    get_latest_prices_batch, reset_circuit_breaker, consume_batch_query, get_twap, consume_query,
    check_guest_rate_limit, check_global_rate_limit, verify_admin, is_triggered, reset, collect,
    CircuitBreaker_initialize, set_breaker, set_history, set_rate_limit, set_fallback, standing_of;
    pose proof (λ h n, calculate_twap_reads h n eq); pose proof (λ ps, remove_outliers_reads ps eq);
    pose proof (λ ps n st, aggregate_reads ps n st eq); frame.
Qed.

Lemma exec_standing c e w w' :
  exec c e w = Ok (tt, w') → standing_ok (store w) → standing_ok (store w').
Proof.
  intros Hr Hs.
  destruct c; try (match type of Hr with exec ?c _ _ = _ =>
    pose proof (bystander_keeps c I _ _ _ _ Hr) as Hk; by eapply standing_same end); cbn [exec] in Hr;
    try (apply discard_Ok in Hr as [r Hr]); eauto using submit_standing.
  - exfalso. unfold initialize in Hr. pose proof (so_admin _ Hs). minv Hr. zbool. done.
  - unfold register_provider, verify_admin, set_provider, set_health in Hr. minv Hr. inv_checked.
    assert (0 ≤ 50 ≤ 100) as H50 by lia. assert (0 ≤ 1000 ≤ 1000 ∧ 0 ≤ 0) as Hx by lia.
    by eapply (standing_move (store w) _ provider (mkProvider provider ty primary true 50 0 0 stake (timestamp e))
      (mkHealth provider 0 0 0 1000) Hs H50 Hx); cbn; auto.
  - unfold submit_custom_data in Hr.
    do 9 (let Hg := fresh "Hg" in apply bind_Ok in Hr as (? & ? & Hg & Hr); minv Hg).
    apply bind_Ok in Hr as ([] & w1 & Hsu & Hr). minv Hr.
    apply record_successful_standing in Hsu; [done|]. by eapply standing_same; [|exact Hs].
  - unfold withdraw_incentives, IncentiveManager_withdraw_incentives, set_incentive_balance in Hr. minv Hr. zbool.
    destruct Hs as [Ha Hrp Hh Hb Hc Hbal Ht]. split; try done; cbn.
    + intros q b [[<- <-]|[_ Hq]]%lookup_insert_Some; [done|eauto].
    + rewrite msum_insert. destruct (IncentiveBalance (store w) !! provider) eqn:Hp; cbn in *; unfold id in *; lia.
Qed.
End standing.

(** ** The time-weighted average *)

(** The price in force at second [s]: that of the newest sample not after it. *)
Definition price_at (samples : list (Z * Z)) (s : Z) : Z :=
  from_option snd 0 (last (filter (λ x, x.1 ≤ s) samples)).

Definition earlier (a b : Z * Z) : Prop := a.1 ≤ b.1.

(** What the loop adds up: each price times the time it was in force. *)
Fixpoint weigh (t : Z) (samples : list (Z * Z)) : Z :=
  match samples with
  | [] => 0
  | (ti, pi) :: rest => pi * (match rest with (t', _) :: _ => t' | [] => t end - ti) + weigh t rest
  end.

Lemma lsum_const {A} (f : A → Z) (l : list A) c :
  (∀ x, x ∈ l → f x = c) → lsum f l = c * Z.of_nat (length l).
Proof.
  intros Hf. induction l as [|a l IH]; [cbn; lia|]. unfold lsum in *. cbn [foldr length].
  rewrite IH by (intros; apply Hf; by right). rewrite (Hf a) by left. lia.
Qed.

Lemma price_at_first t0 p0 rest s :
  t0 ≤ s → Forall (λ x, s < x.1) rest → price_at ((t0, p0) :: rest) s = p0.
Proof.
  intros Hs Hr. unfold price_at. rewrite filter_cons, decide_True by done.
  assert (filter (λ x : Z * Z, x.1 ≤ s) rest = []) as ->; [|done].
  induction Hr as [|[a b] l Hx Hl IH]; [done|]. rewrite filter_cons, decide_False; [done|]. cbn in *. lia.
Qed.

Lemma price_at_skip x t1 p1 rest s :
  t1 ≤ s → price_at (x :: (t1, p1) :: rest) s = price_at ((t1, p1) :: rest) s.
Proof.
  intros Hs. unfold price_at. rewrite filter_cons. case_decide; [|done].
  rewrite filter_cons, decide_True by done. done.
Qed.

(** The loop's sum is the sum of the price in force over every second. *)
Lemma weigh_price_at t t0 p0 rest :
  StronglySorted earlier ((t0, p0) :: rest) → Forall (λ x, x.1 ≤ t) ((t0, p0) :: rest) →
  weigh t ((t0, p0) :: rest) = lsum (price_at ((t0, p0) :: rest)) (seqZ t0 (t - t0)).
Proof.
  revert t0 p0. induction rest as [|[t1 p1] rest IH]; intros t0 p0 Hs Ht.
  - apply Forall_cons in Ht as [Ht _]. cbn in Ht. cbn [weigh].
    rewrite (lsum_const _ _ p0); [rewrite length_seqZ, Z2Nat.id by lia; lia|].
    intros s Hsq%elem_of_seqZ. apply price_at_first; [lia|constructor].
  - apply StronglySorted_cons in Hs as [H01 Hs]. apply Forall_cons in Ht as [Ht0 Ht].
    change (weigh t ((t0, p0) :: (t1, p1) :: rest)) with (p0 * (t1 - t0) + weigh t ((t1, p1) :: rest)).
    rewrite (IH t1 p1 Hs Ht). apply Forall_cons in H01 as [Hle _]. unfold earlier in Hle. cbn in Hle, Ht0.
    apply Forall_cons in Ht as [Ht1 _]. cbn in Ht1.
    replace (t - t0) with ((t1 - t0) + (t - t1)) by lia. rewrite seqZ_app by lia.
    replace (t0 + (t1 - t0)) with t1 by lia. rewrite lsum_app. f_equal.
    + rewrite (lsum_const _ _ p0); [rewrite length_seqZ, Z2Nat.id by lia; lia|]. intros s Hsq%elem_of_seqZ.
      apply price_at_first; [lia|]. apply StronglySorted_cons in Hs as [H1 _]. constructor; [cbn; lia|].
      eapply Forall_impl; [exact H1|]. intros [a b]. unfold earlier. cbn. lia.
    + apply lsum_ext. intros s Hsq%elem_of_seqZ. symmetry. apply price_at_skip. lia.
Qed.

Lemma samples_sorted i h a b :
  0 ≤ i → StronglySorted (spaced i) h → StronglySorted earlier (samples_in h a b).
Proof.
  intros Hi. induction 1 as [|x h Hs IH Hx]; [constructor|]. unfold samples_in in *. rewrite filter_cons.
  case_decide; [|done]. cbn [map]. constructor; [done|]. apply Forall_forall. intros y Hy.
  apply list_elem_of_In, in_map_iff in Hy as (z & <- & Hz%list_elem_of_In). apply list_elem_of_filter in Hz as [_ Hz].
  rewrite Forall_forall in Hx. specialize (Hx z Hz). unfold spaced in Hx. unfold earlier. cbn. lia.
Qed.

Lemma weigh_bound (R : Z → Z → Prop) t t0 p0 rest c :
  (R = Z.le ∨ R = Z.ge) →
  StronglySorted earlier ((t0, p0) :: rest) → Forall (λ x, x.1 ≤ t) ((t0, p0) :: rest) →
  Forall (λ x, R c x.2) ((t0, p0) :: rest) → R (c * (t - t0)) (weigh t ((t0, p0) :: rest)).
Proof.
  intros HR. revert t0 p0. induction rest as [|[t1 p1] rest IH]; intros t0 p0 Hs Ht Hp.
  - apply Forall_cons in Ht as [Ht _], Hp as [Hp _]. cbn in *. destruct HR; subst R; nia.
  - apply StronglySorted_cons in Hs as [H01 Hs]. apply Forall_cons in Ht as [Ht0 Ht], Hp as [Hp0 Hp].
    change (weigh t ((t0, p0) :: (t1, p1) :: rest)) with (p0 * (t1 - t0) + weigh t ((t1, p1) :: rest)).
    specialize (IH t1 p1 Hs Ht Hp). apply Forall_cons in H01 as [Hle _]. unfold earlier in Hle. cbn in Hle, Hp0.
    destruct HR; subst R; nia.
Qed.

Section twap.
Context `{TokenHost}.
Implicit Types (w : World State Event) (e : Env).

Lemma saturating_sub_exact a b : 0 ≤ b ≤ a → a ≤ int_max U64 → saturating_sub U64 a b = a - b.
Proof. intros Hb Ha. unfold saturating_sub, saturate. cbn [int_min int_max] in *. lia. Qed.

Lemma twap_loop_spec t samples acc e w r w' :
  (twap_loop t samples acc : M State OracleError Event (Z * Z)) e w = Ok (r, w') →
  StronglySorted earlier samples → Forall (λ x, 0 ≤ x.1 ≤ t) samples → t ≤ int_max U64 →
  w' = w ∧ r.1 = acc.1 + weigh t samples ∧
  r.2 = acc.2 + match samples with (t0, _) :: _ => t - t0 | [] => 0 end.
Proof.
  revert acc. induction samples as [|[ti pi] rest IH]; intros acc Hr Hs Ht Hmax; cbn [twap_loop] in Hr.
  - minv Hr. cbn. split_and!; [done|lia..].
  - apply StronglySorted_cons in Hs as [Hle Hs]. apply Forall_cons in Ht as [Hti Ht]. cbn in Hti.
    set (tn := match rest with (t', _) :: _ => t' | [] => t end) in Hr.
    assert (ti ≤ tn ≤ t) as Htn.
    { destruct rest as [|[t1 p1] rest]; cbn in tn; [unfold tn; lia|].
      apply Forall_cons in Hle as [H1 _], Ht as [H2 _]. unfold earlier in H1. cbn in *. unfold tn. lia. }
    cbv zeta in Hr. rewrite saturating_sub_exact in Hr by lia.
    apply bind_Ok in Hr as (a & w1 & Ha & Hr). minv Ha. apply bind_Ok in Hr as (b & w1 & Hb & Hr). minv Hb.
    apply bind_Ok in Hr as (c & w1 & Hc & Hr). minv Hc. inv_checked.
    destruct (IH _ Hr Hs Ht Hmax) as (-> & -> & ->). split; [done|]. cbn [fst snd weigh]. fold tn.
    destruct rest as [|[t1 p1] rest]; unfold tn; cbn [weigh]; lia.
Qed.

(** What [get_twap] answers, from the history it reads. *)
Lemma get_twap_run u f n e w v w' :
  get_twap u f n e w = Ok (v, w') →
  ∃ w1, 60 ≤ n ∧ PriceHistory (store w1) = PriceHistory (store w) ∧
    (calculate_twap (default [] (PriceHistory (store w) !! f)) n : M State OracleError Event _) e w1 = Ok (Some v, w').
Proof.
  intros Hr. unfold get_twap in Hr. apply bind_Ok in Hr as ([] & w1 & Hq & Hr).
  apply consume_query_keeps in Hq. cbn beta in Hq. unfold prices_of in Hq. injection Hq as _ _ _ Eh _ _ _.
  apply bind_Ok in Hr as ([] & w2 & [Hn ->]%throw_if_Ok & Hr). apply bind_Ok in Hr as (h & w2 & [-> ->]%gets_Ok & Hr).
  rewrite Eh in Hr. apply bind_Ok in Hr as (o & w2 & Ht & [-> ->]%ok_or_Ok).
  exists w1. split_and!; [|done..]. zbool. lia.
Qed.

Lemma calculate_twap_spec h i n e w v w' :
  (calculate_twap h n : M State OracleError Event (option Z)) e w = Ok (Some v, w') →
  history_ok (timestamp e) i h → 0 ≤ i → 0 ≤ timestamp e ≤ int_max U64 → 0 ≤ n →
  ∃ t0 p0 rest, samples_in h (Z.max 0 (timestamp e - n)) (timestamp e) = (t0, p0) :: rest ∧
    t0 ≤ timestamp e ∧
    (t0 < timestamp e →
       v = lsum (price_at ((t0, p0) :: rest)) (seqZ t0 (timestamp e - t0)) `div` (timestamp e - t0)) ∧
    (∀ lo hi, Forall (λ x, lo ≤ x.2 ≤ hi) ((t0, p0) :: rest) → lo ≤ v ≤ hi).
Proof.
  intros Hr Hh Hi Ht Hn. unfold calculate_twap in Hr.
  apply bind_Ok in Hr as (t & w1 & [-> ->]%now_Ok & Hr).
  assert (saturating_sub U64 (timestamp e) n = Z.max 0 (timestamp e - n)) as Es.
  { unfold saturating_sub, saturate. cbn [int_min int_max] in *. lia. }
  cbv zeta in Hr. rewrite Es in Hr. set (ws := Z.max 0 (timestamp e - n)) in *.
  pose proof (samples_sorted i h ws (timestamp e) Hi (ho_spaced _ _ _ Hh)) as Hs.
  assert (Forall (λ x, ws ≤ x.1 ≤ timestamp e ∧ 0 < x.2) (samples_in h ws (timestamp e))) as Hx.
  { unfold samples_in. apply Forall_forall. intros y (z & <- & Hz%list_elem_of_In)%list_elem_of_In%in_map_iff.
    apply list_elem_of_filter in Hz as [Hz Hin]. cbn. split; [lia|].
    exact (proj1 (Forall_forall _ _) (ho_price _ _ _ Hh) z Hin). }
  destruct (samples_in h ws (timestamp e)) as [|[t0 p0] rest] eqn:Hsam; [minv Hr|].
  exists t0, p0, rest. split; [done|]. assert (Forall (λ x, x.1 ≤ timestamp e) ((t0, p0) :: rest)) as Hle.
  { eapply Forall_impl; [exact Hx|]. cbn. lia. }
  split; [apply Forall_cons in Hle as [? _]; done|].
  destruct (last ((t0, p0) :: rest)) as [nw|] eqn:Hlast; [|by apply last_None in Hlast].
  apply bind_Ok in Hr as (acc & w1 & Hl & Hr).
  apply twap_loop_spec in Hl as (-> & E1 & E2); [|done|eapply Forall_impl; [exact Hx|]; cbn; unfold ws; lia|lia].
  cbn [fst snd] in E1, E2. rewrite E1, E2, !Z.add_0_l in Hr. rewrite <- weigh_price_at by done.
  destruct (timestamp e - t0 =? 0) eqn:Hz; zbool.
  - minv Hr. split; [lia|]. intros lo hi Hb. rewrite Forall_forall in Hb. apply (Hb nw).
    apply last_Some in Hlast as [l' ->]. apply elem_of_app. right. by left.
  - apply bind_Ok in Hr as (q & w1 & Hq & Hr). minv Hq. minv Hr. inv_checked.
    assert (t0 ≤ timestamp e) as Ht0 by (by apply Forall_cons in Hle as [? _]).
    pose proof (λ c, weigh_bound Z.le (timestamp e) t0 p0 rest c (or_introl eq_refl) Hs Hle) as Hlow.
    pose proof (λ c, weigh_bound Z.ge (timestamp e) t0 p0 rest c (or_intror eq_refl) Hs Hle) as Hup.
    assert (0 ≤ weigh (timestamp e) ((t0, p0) :: rest)) as Hpos.
    { specialize (Hlow 0). rewrite Z.mul_0_l in Hlow. apply Hlow. eapply Forall_impl; [exact Hx|]. cbn. lia. }
    rewrite quot_div_nonneg by lia. split; [done|]. intros lo hi Hb.
    assert (lo * (timestamp e - t0) ≤ weigh (timestamp e) ((t0, p0) :: rest)) as Hlo
      by (apply Hlow; eapply Forall_impl; [exact Hb|]; cbn; lia).
    assert (hi * (timestamp e - t0) >= weigh (timestamp e) ((t0, p0) :: rest)) as Hhi
      by (apply Hup; eapply Forall_impl; [exact Hb|]; cbn; lia).
    split; [apply Z.div_le_lower_bound; lia|apply div_le_of_le_mul; lia].
Qed.
End twap.

(** ** A tripped breaker *)

Section halt.
Context `{TokenHost}.
Implicit Types (w : World State Event) (e : Env).

(** The feed whose breaker a call may write. *)
Definition target (c : Call) : option Symbol :=
  match c with
  | CCreatePriceFeed _ f _ _ _ _ _ _ _ _ | CSubmitPrice _ f _ | CGetAggregatedPrice _ f
  | CResetCircuitBreaker _ f => Some f
  | _ => None
  end.

Lemma set_breaker_other f g cb : f ≠ g → keeps (λ s, CircuitBreaker s !! g) (set_breaker f cb).
Proof. intros Hne. apply keeps_modify. intros s. cbn. by rewrite lookup_insert_ne. Qed.

#[local] Hint Resolve set_breaker_other : contracts.

Lemma other_breaker_keeps c g : target c ≠ Some g → keeps (λ s, CircuitBreaker s !! g) (exec c).
Proof.
  intros Ht. destruct (target c) as [f|] eqn:Hc.
  - assert (f ≠ g) as Hne by congruence. clear Ht. destruct c; try done; injection Hc as ->; cbn [exec];
      unfold discard, create_price_feed, get_aggregated_price, submit_price, accept_price, record_price, trigger,
        reset_circuit_breaker, consume_query, check_guest_rate_limit, check_global_rate_limit, verify_admin,
        is_triggered, reset, collect, CircuitBreaker_initialize, is_authorized_for, record_successful_update,
        record_failed_update, distribute_update_reward, calculate_reward, check_price_movement,
        set_history, set_rate_limit, set_fallback, set_provider, set_health, set_incentive_balance;
      pose proof (λ ps, remove_outliers_reads ps eq); pose proof (λ ps n st, aggregate_reads ps n st eq); frame.
  - assert (quiet c) as Hq by (by destruct c). intros e w a w' Hr. apply (oracle_quiet_keeps _ Hq) in Hr.
    unfold records in Hr. cbn beta. congruence.
Qed.

(** What a tripped breaker freezes of a feed. *)
Definition frozen (st : State) (f : Symbol) :=
  (CircuitBreaker st !! f, LatestPrice st !! f, PriceHistory st !! f).

(** A call before the cooldown is over that is not a reset by the admin. *)
Lemma halt_step c f e w w' :
  exec c e w = Ok (tt, w') → halted (store w) f (timestamp e) = true → is_Some (PriceFeedAt (store w) !! f) →
  (∀ a, c ≠ CResetCircuitBreaker a f) →
  frozen (store w') f = frozen (store w) f ∧
  (∀ p, ProviderPrice (store w') !! (f, p) = ProviderPrice (store w) !! (f, p)) ∧
  is_Some (PriceFeedAt (store w') !! f).
Proof.
  intros Hr Hh Hf Hnr. destruct (decide (target c = Some f)) as [Ht|Ht].
  { exfalso. destruct c; try done; injection Ht as ->; cbn [exec] in Hr; try (apply discard_Ok in Hr as [r Hr]).
    - apply create_price_feed_spec in Hr as (Hn & _). rewrite Hn in Hf. by apply is_Some_None in Hf.
    - apply submit_price_spec in Hr as (? & ? & _ & _ & _ & Hn & _). congruence.
    - apply get_aggregated_records in Hr as (Hn & _). congruence.
    - by eapply Hnr. }
  pose proof (other_breaker_keeps c f Ht _ _ _ _ Hr) as Hcb. cbn beta in Hcb. unfold frozen. rewrite Hcb.
  destruct c; try (match type of Hr with exec ?c _ _ = _ =>
    pose proof (oracle_quiet_keeps c I _ _ _ _ Hr) as Hk; unfold records in Hk; injection Hk as -> -> -> -> _; done end);
    cbn [exec target] in Hr, Ht; try (apply discard_Ok in Hr as [r Hr]).
  - apply create_price_feed_spec in Hr as (_ & _ & fd & _ & _ & -> & -> & -> & -> & _).
    assert (feed_id ≠ f) by congruence. rewrite !lookup_insert_ne by done. done.
  - apply submit_price_spec in Hr as (? & ? & _ & _ & _ & _ & _ & _ & _ & _ & -> & -> & -> & -> & _).
    assert (feed_id ≠ f) by congruence. rewrite !lookup_insert_ne by done. split_and!; try done.
    intros p. by rewrite lookup_insert_ne by congruence.
  - apply get_aggregated_records in Hr as (_ & -> & -> & -> & -> & _). done.
  - unfold reset_circuit_breaker, verify_admin, reset, set_breaker in Hr. minv Hr. done.
Qed.
End halt.

(** ** The theorems *)

Section theorems.
Context `{TokenHost} (self : Address).
Implicit Types (w : World State Event) (e : Env).

(** A deployment whose first call initialized the contract. *)
Definition started (e : Env) (w1 : World State Event) : Prop :=
  ∃ l lg admin treasury, wf_env self e ∧
    exec (CInitialize admin treasury) e (mkWorld deployed l lg) = Ok (tt, w1).

Definition reachable (t : Z) (w : World State Event) : Prop :=
  ∃ e0 w1, started e0 w1 ∧ rtc (step exec call_ok self) (timestamp e0, w1) (t, w).

Lemma oracle_reach_inv t w : reachable t w → feeds_ok t (store w) ∧ standing_ok (store w).
Proof.
  intros (e0 & w1 & (l & lg & admin & treasury & _ & Hi) & Hr).
  apply (reach_inv_world exec call_ok self (λ t w, feeds_ok t (store w) ∧ standing_ok (store w))) in Hr; [done|..].
  - intros t' c e w0 w0' _ Ht Hok [Hf Hs] Hrun. split; [by eapply exec_feeds_ok|by eapply exec_standing].
  - intros t1 t2 w0 l' Ht _ [Hf Hs]. split; [by eapply feeds_ok_later|done].
  - cbn [exec] in Hi. unfold initialize in Hi. minv Hi. split; split; cbn; try done; by intros ? [[? ?]|[? ?]].
Qed.

(** C25: if less than a quarter of the
    entries a query consults report a price outside some range, the aggregated
    price it answers is inside: the filter and the median together withstand
    that many faulty or hostile providers, whatever they report.  The answer
    rests on at least two fresh sources, or one on fallback. *)
Theorem aggregated_price_robust u f e w ag w' lo hi :
  get_aggregated_price u f e w = Ok (ag, w') →
  (4 * outside lo hi (map pe_price (consulted (store w) f)) < length (consulted (store w) f))%nat →
  lo ≤ ag_price ag ≤ hi ∧ ag_is_fresh ag = true ∧
  ∃ feed, PriceFeedAt (store w) !! f = Some feed ∧
    (if on_fallback (store w) f feed then 1 else 2) ≤ ag_sources_used ag.
Proof.
  intros Hr Hn. destruct (get_aggregated_spec _ _ _ _ _ _ Hr) as (feed & kept & w1 & w2 & n & Hf & _ & Hk & Hag & Hfr & Hnn).
  pose proof (remove_outliers_majority _ lo hi _ _ _ _ Hk Hn) as Hmaj. split_and!.
  - by apply (aggregate_in_range _ _ _ lo hi _ _ _ _ Hag Hfr Hmaj).
  - by apply (aggregate_in_range _ _ _ lo hi _ _ _ _ Hag Hfr Hmaj).
  - done.
  - exists feed. split; [done|]. apply aggregate_spec in Hag as (_ & Hs & _). by rewrite <- Hnn.
Qed.

(** Calls other than a reset of [f] by the admin. *)
Definition no_reset (f : Symbol) (c : Call) : Prop := call_ok c ∧ ∀ a, c ≠ CResetCircuitBreaker a f.

(** Once the breaker of a feed has tripped, then
    until its cooldown is over or the admin resets it no sequence of calls
    changes the breaker, the latest price, the history or any provider's price of
    that feed; and meanwhile no submission to the feed and no query of its
    aggregated price succeeds. *)
Theorem breaker_halts t w t' w' f cb T :
  reachable t w → CircuitBreaker (store w) !! f = Some cb → cb_triggered cb = true →
  cb_can_resume_at cb = Some T → rtc (step exec (no_reset f) self) (t, w) (t', w') → t' < T →
  frozen (store w') f = frozen (store w) f ∧
  (∀ p, ProviderPrice (store w') !! (f, p) = ProviderPrice (store w) !! (f, p)) ∧
  ∀ e, timestamp e < T →
    (∀ p price, is_ok (submit_price p f price e w') = false) ∧
    (∀ u, is_ok (get_aggregated_price u f e w') = false).
Proof.
  intros Hre Hcb Htr Hres Hr HT. destruct (oracle_reach_inv _ _ Hre) as [Hf _].
  pose proof (fo_tripped _ _ Hf _ _ Hcb Htr) as Hfeed.
  assert (∀ st e, CircuitBreaker st !! f = Some cb → timestamp e < T → halted st f (timestamp e) = true) as Hh.
  { intros st e Hst Hlt. unfold halted. rewrite Hst, Htr, Hres. cbn. lia. }
  apply (reach_inv_world exec (no_reset f) self (λ t1 w1, t1 < T →
    frozen (store w1) f = frozen (store w) f ∧
    (∀ p, ProviderPrice (store w1) !! (f, p) = ProviderPrice (store w) !! (f, p)) ∧
    is_Some (PriceFeedAt (store w1) !! f))) in Hr as Hinv; [|..|done].
  - destruct Hinv as (Hfr & Hpp & _). cbn [snd] in Hfr, Hpp. split; [done|]. split; [done|].
    assert (CircuitBreaker (store w') !! f = Some cb) as Hcb' by (unfold frozen in Hfr; congruence).
    intros e Hlt. specialize (Hh _ _ Hcb' Hlt). split.
    + intros p price. destruct (submit_price _ _ _ _ _) as [[[] w2]| |] eqn:Hs; try done.
      apply submit_price_spec in Hs as (? & ? & _ & _ & _ & Hn & _). congruence.
    + intros u. destruct (get_aggregated_price _ _ _ _) as [[ag w2]| |] eqn:Hs; try done.
      apply get_aggregated_records in Hs as [Hn _]. congruence.
  - intros t1 c e w1 w2 _ Hle [_ Hnr] IH Hrun Hlt. destruct IH as (Hfr & Hpp & Hfd); [lia|].
    assert (CircuitBreaker (store w1) !! f = Some cb) as Hcb' by (unfold frozen in Hfr; congruence).
    destruct (halt_step _ _ _ _ _ Hrun (Hh _ _ Hcb' Hlt) Hfd Hnr) as (Hfr' & Hpp' & Hfd').
    split_and!; [congruence|intros p; by rewrite Hpp'|done].
  - intros t1 t2 w1 l' Hle _ IH Hlt. apply IH. lia.
  - done.
Qed.

(** The time-weighted average is the average, over
    every second since the first sample of the window, of the price in force at
    that second; it is never above or below all the samples of the window. *)
Theorem twap_exact t w u f n e v w' :
  reachable t w → wf_env self e → t ≤ timestamp e → get_twap u f n e w = Ok (v, w') →
  ∃ h t0 p0 rest, PriceHistory (store w) !! f = Some h ∧
    samples_in h (Z.max 0 (timestamp e - n)) (timestamp e) = (t0, p0) :: rest ∧ t0 ≤ timestamp e ∧
    (t0 < timestamp e →
       v = lsum (price_at ((t0, p0) :: rest)) (seqZ t0 (timestamp e - t0)) `div` (timestamp e - t0)) ∧
    (∀ lo hi, Forall (λ x, lo ≤ x.2 ≤ hi) ((t0, p0) :: rest) → lo ≤ v ≤ hi).
Proof.
  intros Hre He Ht Hr. destruct (oracle_reach_inv _ _ Hre) as [Hf _].
  destruct (get_twap_run _ _ _ _ _ _ _ Hr) as (w1 & Hn & _ & Hc).
  destruct (PriceHistory (store w) !! f) as [h|] eqn:Hh; cbn [default from_option] in Hc.
  - destruct (fo_known _ _ Hf f ltac:(rewrite Hh; eauto)) as [feed Hfd].
    destruct (fo_feed _ _ Hf _ _ Hfd) as (Hi & _ & h' & Hh' & Hok & _). rewrite Hh in Hh'. injection Hh' as <-.
    destruct (calculate_twap_spec _ (pf_min_update_interval feed) _ _ _ _ _ Hc)
      as (t0 & p0 & rest & Hs & Hle & Hv & Hb); [by eapply history_ok_later|done|apply He|lia|].
    by exists h, t0, p0, rest.
  - exfalso. unfold calculate_twap in Hc. apply bind_Ok in Hc as (now & w2 & _ & Hc). by minv Hc.
Qed.

(** C26: every price feed has a history of at most
    1000 positive prices, whose timestamps lie in the past and are at least the
    feed's minimum interval apart, and whose newest entry is the latest price. *)
Theorem oracle_histories t w f feed :
  reachable t w → PriceFeedAt (store w) !! f = Some feed →
  ∃ h, PriceHistory (store w) !! f = Some h ∧ history_ok t (pf_min_update_interval feed) h ∧
    newest h = (λ p, (pe_price p, pe_timestamp p)) <$> LatestPrice (store w) !! f.
Proof.
  intros Hre Hf. destruct (oracle_reach_inv _ _ Hre) as [Hi _]. by destruct (fo_feed _ _ Hi _ _ Hf) as (_ & _ & ?).
Qed.

(** Reputations stay between 0 and 100 and
    availability scores between 0 and 1000; balances are never negative, and
    together they never exceed twice the base reward for every distribution. *)
Theorem incentives_bounded t w :
  reachable t w →
  (∀ p d, Provider (store w) !! p = Some d → 0 ≤ pv_reputation_score d ≤ 100) ∧
  (∀ p h, ProviderHealthAt (store w) !! p = Some h → 0 ≤ ph_availability_score h ≤ 1000) ∧
  (∀ p b, IncentiveBalance (store w) !! p = Some b → 0 ≤ b) ∧
  msum (λ _ b, b) (IncentiveBalance (store w)) ≤ MAX_REWARD * default 0 (DistributionCount (store w)).
Proof.
  intros Hre. destruct (oracle_reach_inv _ _ Hre) as [_ Hs]. split_and!.
  - apply (so_reputation _ Hs).
  - intros p h Hh. by apply (so_health _ Hs p).
  - apply (so_balance _ Hs).
  - apply (so_total _ Hs).
Qed.
End theorems.

(** ** A concrete feed

    Five providers report a price, one of them too high; then a provider doubles
    it and trips the breaker. *)

Module OracleDemo.

Definition self := mkAddress "oracle".
Definition admin := mkAddress "admin".
Definition user := mkAddress "user".
Definition p1 := mkAddress "p1".
Definition p2 := mkAddress "p2".
Definition p3 := mkAddress "p3".
Definition p4 := mkAddress "p4".
Definition p5 := mkAddress "p5".
Definition providers := [p1; p2; p3; p4; p5].

Definition w0 : World State Event := mkWorld deployed (sl_of []) [].
Definition e0 := env_at 10 self [admin].
Definition w1 : World State Event := world_of (exec (CInitialize admin admin) e0 w0) w0.

Definition reporting : list (Z * list Address * Call) :=
  map (λ p, (20, [admin], CRegisterProvider admin p Custom true 1000 100)) providers ++
  [(30, [admin], CCreatePriceFeed admin "ETH" "ETH" "ether" 2 10 3600 1000 providers true);
   (100, [p1], CSubmitPrice p1 "ETH" 100); (110, [p2], CSubmitPrice p2 "ETH" 101);
   (120, [p3], CSubmitPrice p3 "ETH" 102); (130, [p4], CSubmitPrice p4 "ETH" 103);
   (140, [p5], CSubmitPrice p5 "ETH" 113)].
Definition w_rep := run_script exec self reporting w1.
Definition e_query := env_at 150 self [user].
Definition w_query := world_of (get_aggregated_price user "ETH" e_query w_rep) w_rep.

Definition tripping := reporting ++ [(160, [p1], CSubmitPrice p1 "ETH" 200)].
Definition w_trip := run_script exec self tripping w1.
(** After the trip: a query of the history, then nothing until just before the hour. *)
Definition after_trip : list (Z * list Address * Call) := [(200, [user], CGetHistoricalPrices user "ETH" 10)].
Definition w_after := run_script exec self after_trip w_trip.

Lemma oracle_demo_reach (cs : list (Z * list Address * Call)) :
  script_ok exec self 10 cs w1 = true → Forall (λ c, call_ok c.2) cs →
  reachable self (script_end 10 cs) (run_script exec self cs w1).
Proof.
  intros Hs Hok. exists e0, w1. split; [|by apply run_script_reach].
  exists (sl_of []), [], admin, admin. split; [by apply env_at_wf|].
  unfold w1. apply run_ok_unit. vm_compute. reflexivity.
Qed.

Lemma reporting_reach : reachable self 140 w_rep.
Proof. apply (oracle_demo_reach reporting); [vm_compute; reflexivity|]. repeat constructor; cbn; lia. Qed.
Lemma tripping_reach : reachable self 160 w_trip.
Proof. apply (oracle_demo_reach tripping); [vm_compute; reflexivity|]. repeat constructor; cbn; lia. Qed.

(** One entry of five is out of the range from 100 to 103. *)
Lemma aggregated_price_robust_witness :
  ∃ ag, get_aggregated_price user "ETH" e_query w_rep = Ok (ag, w_query) ∧ 100 ≤ ag_price ag ≤ 103.
Proof.
  set (o := get_aggregated_price user "ETH" e_query w_rep).
  assert (o = Ok (value_of o (mkAggregated 0 0 0 0 0 0 false), w_query)) as Hr.
  { unfold w_query. apply run_ok. vm_compute. reflexivity. }
  exists (value_of o (mkAggregated 0 0 0 0 0 0 false)). split; [exact Hr|].
  destruct (aggregated_price_robust user "ETH" e_query w_rep _ w_query 100 103 Hr) as [Hin _]; [|exact Hin].
  vm_compute. lia.
Defined.

Lemma breaker_halts_witness :
  is_ok (submit_price p2 "ETH" 101 (env_at 3000 self [p2]) w_after) = false.
Proof.
  assert ((λ cb, (cb_triggered cb, cb_can_resume_at cb)) <$> CircuitBreaker (store w_trip) !! "ETH"
    = Some (true, Some 3760)) as (cb & Hcb & Hx)%fmap_Some by (vm_compute; reflexivity). injection Hx as Ht HT.
  destruct (breaker_halts self 160 w_trip 200 w_after "ETH" cb 3760 tripping_reach Hcb (eq_sym Ht) (eq_sym HT))
    as (_ & _ & He).
  - apply (run_script_reach exec (no_reset "ETH") self 160 after_trip w_trip); [vm_compute; reflexivity|].
    repeat constructor; cbn; [lia|discriminate].
  - lia.
  - destruct (He (env_at 3000 self [p2])) as [Hsub _]; [by vm_compute|]. exact (Hsub p2 101).
Defined.

Definition w_twap := world_of (get_twap user "ETH" 60 e_query w_rep) w_rep.

Lemma twap_exact_witness :
  ∃ h t0 p0 rest, PriceHistory (store w_rep) !! "ETH" = Some h ∧
    samples_in h 90 150 = (t0, p0) :: rest ∧
    (t0 < 150 → 103 = lsum (price_at ((t0, p0) :: rest)) (seqZ t0 (150 - t0)) `div` (150 - t0)).
Proof.
  destruct (twap_exact self 140 w_rep user "ETH" 60 e_query 103 w_twap reporting_reach)
    as (h & t0 & p0 & rest & Hh & Hs & _ & Hv & _).
  - by apply env_at_wf.
  - cbn. lia.
  - unfold w_twap. apply (run_ok_val _ _ 0); vm_compute; reflexivity.
  - exists h, t0, p0, rest. split; [exact Hh|]. split; [exact Hs|exact Hv].
Defined.

Lemma oracle_histories_witness :
  ∃ feed h, PriceFeedAt (store w_trip) !! "ETH" = Some feed ∧ PriceHistory (store w_trip) !! "ETH" = Some h ∧
    history_ok 160 (pf_min_update_interval feed) h.
Proof.
  assert (pf_decimals <$> PriceFeedAt (store w_trip) !! "ETH" = Some 2) as (feed & Hf & _)%fmap_Some
    by (vm_compute; reflexivity).
  destruct (oracle_histories self 160 w_trip "ETH" feed tripping_reach Hf) as (h & Hh & Hok & _).
  exists feed, h. split; [exact Hf|]. split; [exact Hh|exact Hok].
Defined.

Lemma incentives_bounded_witness :
  DistributionCount (store w_trip) = Some 5 ∧ msum (λ _ b, b) (IncentiveBalance (store w_trip)) ≤ 1000.
Proof.
  split; [vm_compute; reflexivity|].
  destruct (incentives_bounded self 160 w_trip tripping_reach) as (_ & _ & _ & Ht).
  replace (MAX_REWARD * default 0 (DistributionCount (store w_trip))) with 1000 in Ht by (vm_compute; reflexivity).
  exact Ht.
Defined.

(** The price that trips the breaker is stored before it is
    checked: it is the latest price and the provider's price from then on, and
    the next submission is compared with it. *)
Theorem tripping_price_recorded :
  script_ok exec self 10 tripping w1 = true ∧
  halted (store w_trip) "ETH" 160 = true ∧
  pe_price <$> LatestPrice (store w_trip) !! "ETH" = Some 200 ∧
  pe_price <$> ProviderPrice (store w_trip) !! ("ETH", p1) = Some 200.
Proof. vm_compute. repeat split. Qed.

(** The reputation earned by an accepted price is lost: the
    provider's record is written back as it was read, with its counters only. *)
Theorem reputation_not_earned :
  (λ d, (pv_reputation_score d, pv_successful_updates d)) <$> Provider (store w_rep) !! p2 = Some (50, 1).
Proof. vm_compute. reflexivity. Qed.

(** The first query fixes a user's limit: whoever asked once
    as a guest keeps 5 queries a day, also with an unlimited subscription. *)
Definition guest_first := reporting ++ [(150, [user], CGetTwap user "ETH" 60);
  (151, [admin], CGrantSubscription admin user "ETH" Unlimited 100000);
  (152, [user], CGetTwap user "ETH" 60); (153, [user], CGetTwap user "ETH" 60);
  (154, [user], CGetTwap user "ETH" 60); (155, [user], CGetTwap user "ETH" 60)].

Theorem guest_limit_sticks :
  script_ok exec self 10 guest_first w1 = true ∧
  is_ok (get_twap user "ETH" 60 (env_at 156 self [user]) (run_script exec self guest_first w1)) = false.
Proof. vm_compute. repeat split. Qed.
End OracleDemo.
