(* ===== verification/Insurance.v ===== *)
(** * contracts/insurance-protocol

    src/contracts/insurance-protocol/src: pools that underwriters fund and share,
    policies bought from them, claims that are voted on or time-locked, and the
    payout queue. *)

From stdpp Require Import gmap strings list fin_maps.
From S2P Require Import Prelude Soroban.
Open Scope Z_scope.

(** ** errors.rs *)

Inductive InsuranceError :=
| AlreadyInitialized | Unauthorized | PoolNotFound | PoolAlreadyExists | PoolInactive
| InsufficientDeposit | InsufficientShares | InsufficientReserve | PolicyNotFound | PolicyInactive
| PolicyExpired | ClaimNotFound | ClaimAlreadyProcessed | ClaimDenied | ClaimAmountExceedsCoverage
| InvalidCoverageAmount | InvalidPremium | TimelockNotExpired | VotingPeriodNotEnded | AlreadyVoted
| NotAnUnderwriter | MaxUnderwritersReached | ReserveRatioExceeded | InvalidInput | PoolNotPaused
| PayoutQueueEmpty | AlreadyPaused | DeductibleNotMet.

(** ** types.rs *)

Inductive CoverageType := SmartContractRisk | OracleFailure | LiquidationFailure.
Inductive CoverageTier := Basic | Standard | Premium.
Inductive ClaimStatus := Pending | UnderReview | Approved | Denied | Paid.

Record Underwriter := mkUnderwriter {
  uw_address : Address;
  uw_shares : Z;
  uw_total_deposited : Z;
  uw_total_withdrawn : Z;
  uw_deposit_timestamp : Z;
  uw_last_withdrawal_timestamp : Z;
}.

Record InsurancePool := mkPool {
  ip_pool_id : Symbol;
  ip_coverage_type : CoverageType;
  ip_total_assets : Z;
  ip_total_shares : Z;
  ip_reserve_ratio_bps : Z;
  ip_reserve_amount : Z;
  ip_active_policies : Z;
  ip_total_premiums_collected : Z;
  ip_total_claims_paid : Z;
  ip_is_active : bool;
  ip_created_at : Z;
}.

Record CoveragePolicy := mkPolicy {
  cp_policy_id : Z;
  cp_pool_id : Symbol;
  cp_holder : Address;
  cp_coverage_type : CoverageType;
  cp_tier : CoverageTier;
  cp_coverage_limit : Z;
  cp_deductible : Z;
  cp_premium_paid : Z;
  cp_is_active : bool;
  cp_purchased_at : Z;
  cp_expires_at : Z;
}.

Record Claim := mkClaim {
  cl_claim_id : Z;
  cl_policy_id : Z;
  cl_pool_id : Symbol;
  cl_claimant : Address;
  cl_amount : Z;
  cl_evidence : string;
  cl_status : ClaimStatus;
  cl_submitted_at : Z;
  cl_voting_deadline : Z;
  cl_votes_for : Z;
  cl_votes_against : Z;
  cl_total_voters : Z;
  cl_requires_voting : bool;
}.

Record PayoutQueueItem := mkItem {
  qi_claim_id : Z;
  qi_pool_id : Symbol;
  qi_amount : Z;
  qi_priority : Z;
  qi_queued_at : Z;
  qi_processed : bool;
}.

Record RiskParameters := mkRisk {
  rp_coverage_type : CoverageType;
  rp_base_rate_bps : Z;
  rp_risk_multiplier : Z;
  rp_max_coverage_limit : Z;
  rp_min_coverage_limit : Z;
  rp_default_deductible_bps : Z;
  rp_max_payout_bps : Z;
  rp_timelock_period : Z;
  rp_voting_threshold_bps : Z;
}.

Record CoverageTierConfig := mkTierConfig {
  tc_tier : CoverageTier;
  tc_deductible_bps : Z;
  tc_max_payout_multiplier : Z;
  tc_premium_multiplier_bps : Z;
}.

Record VoteRecord := mkVote {
  vr_voter : Address;
  vr_claim_id : Z;
  vr_approve : bool;
  vr_timestamp : Z;
}.

Record PoolInfo := mkPoolInfo {
  pi_pool_id : Symbol;
  pi_coverage_type : CoverageType;
  pi_total_assets : Z;
  pi_total_shares : Z;
  pi_share_price : Z;
  pi_reserve_ratio_bps : Z;
  pi_reserve_amount : Z;
  pi_active_policies : Z;
  pi_total_premiums_collected : Z;
  pi_total_claims_paid : Z;
  pi_is_active : bool;
}.

#[global] Instance ClaimStatus_eq_dec : EqDecision ClaimStatus.
Proof. solve_decision. Defined.

(** ** storage_keys.rs *)

Inductive CoverageTypeKey := KSmartContractRisk | KOracleFailure | KLiquidationFailure.
Inductive CoverageTierKey := KBasic | KStandard | KPremium.

#[global] Instance CoverageTypeKey_eq_dec : EqDecision CoverageTypeKey.
Proof. solve_decision. Defined.
#[global] Instance CoverageTypeKey_countable : Countable CoverageTypeKey.
Proof.
  refine (inj_countable' (λ k, match k with KSmartContractRisk => 0 | KOracleFailure => 1 | KLiquidationFailure => 2 end)%nat
    (λ n, match n with 0 => KSmartContractRisk | 1 => KOracleFailure | _ => KLiquidationFailure end)%nat _).
  by intros [].
Defined.
#[global] Instance CoverageTierKey_eq_dec : EqDecision CoverageTierKey.
Proof. solve_decision. Defined.
#[global] Instance CoverageTierKey_countable : Countable CoverageTierKey.
Proof.
  refine (inj_countable' (λ k, match k with KBasic => 0 | KStandard => 1 | KPremium => 2 end)%nat
    (λ n, match n with 0 => KBasic | 1 => KStandard | _ => KPremium end)%nat _).
  by intros [].
Defined.

(** One field per variant of [StorageKey] the contract uses; [None] and absence
    are the unset key. *)
Record State := mkState {
  Admin : option Address;
  Token : option Address;
  Oracle : option Address;
  Paused : option bool;
  PolicyCounter : option Z;
  ClaimCounter : option Z;
  PayoutQueueCounter : option Z;
  PoolCounter : option Z;
  UnderwriterCount : option Z;
  Pool : gmap Symbol InsurancePool;
  PoolIds : option (list Symbol);
  UnderwriterAt : gmap (Symbol * Address) Underwriter;
  Policy : gmap Z CoveragePolicy;
  PolicyIds : option (list Z);
  HolderPolicies : gmap Address (list Z);
  ClaimAt : gmap Z Claim;
  ClaimIds : option (list Z);
  PoolClaims : gmap Symbol (list Z);
  PayoutQueueItemAt : gmap Z PayoutQueueItem;
  PayoutQueueIds : option (list Z);
  RiskParametersAt : gmap CoverageTypeKey RiskParameters;
  TierConfig : gmap (CoverageTypeKey * CoverageTierKey) CoverageTierConfig;
  VoteRecordAt : gmap (Z * Address) VoteRecord;
}.

Inductive Event :=
| ins_init (admin token oracle : Address) (t : Z)
| pool_cre (pool_id : Symbol) (ct : CoverageType) (ratio : Z)
| uw_dep (underwriter : Address) (pool_id : Symbol) (amount shares assets total : Z)
| uw_wd (underwriter : Address) (pool_id : Symbol) (shares assets total_assets total_shares : Z)
| cov_buy (buyer : Address) (pool_id : Symbol) (policy_id amount premium : Z) (tier : CoverageTier)
| cov_can (buyer : Address) (policy_id refund : Z) (pool_id : Symbol)
| clm_sub (claim_id policy_id : Z) (claimant : Address) (pool_id : Symbol) (amount : Z) (voting : bool)
| clm_vot (underwriter : Address) (claim_id : Z) (approve : bool) (votes_for votes_against : Z)
| clm_deny (claim_id : Z) (pool_id : Symbol) (claimant : Address) (amount : Z)
| clm_apr (claim_id : Z) (pool_id : Symbol) (claimant : Address) (amount queue_id : Z)
| clm_pay (claim_id : Z) (pool_id : Symbol) (claimant : Address) (amount : Z)
| risk_set (ct : CoverageType) (base_rate multiplier : Z)
| rsrv_upd (pool_id : Symbol) (ratio reserve : Z)
| pause (admin : Address)
| unpause (admin : Address).

Ltac mred v ::= eval cbn [store ledger log Admin Token Oracle Paused PolicyCounter ClaimCounter
  PayoutQueueCounter PoolCounter UnderwriterCount Pool PoolIds UnderwriterAt Policy PolicyIds
  HolderPolicies ClaimAt ClaimIds PoolClaims PayoutQueueItemAt PayoutQueueIds RiskParametersAt
  TierConfig VoteRecordAt uw_address uw_shares uw_total_deposited uw_total_withdrawn
  uw_deposit_timestamp uw_last_withdrawal_timestamp ip_pool_id ip_coverage_type ip_total_assets
  ip_total_shares ip_reserve_ratio_bps ip_reserve_amount ip_active_policies
  ip_total_premiums_collected ip_total_claims_paid ip_is_active ip_created_at cp_policy_id
  cp_pool_id cp_holder cp_coverage_type cp_tier cp_coverage_limit cp_deductible cp_premium_paid
  cp_is_active cp_purchased_at cp_expires_at cl_claim_id cl_policy_id cl_pool_id cl_claimant
  cl_amount cl_evidence cl_status cl_submitted_at cl_voting_deadline cl_votes_for cl_votes_against
  cl_total_voters cl_requires_voting qi_claim_id qi_pool_id qi_amount qi_priority qi_queued_at
  qi_processed fst snd] in v.

Definition BPS_DENOMINATOR : Z := 10000.
Definition MAX_UNDERWRITERS_PER_POOL : Z := 1000.
Definition LARGE_CLAIM_THRESHOLD_BPS : Z := 1000.
Definition VOTING_PERIOD_SECONDS : Z := 604800.
Definition DEFAULT_TIMELOCK_PERIOD : Z := 259200.
Definition POLICY_DURATION : Z := 31536000.

Section contract.
Context `{TokenHost}.

Local Abbreviation C := (M State InsuranceError Event).

(** [checked_add(..).expect(..)] and the like. *)
Definition add_ (ty : IntTy) (a b : Z) : C Z := expect (checked_add ty a b) "Overflow".
Definition sub_ (ty : IntTy) (a b : Z) : C Z := expect (checked_sub ty a b) "Underflow".
Definition mul_ (ty : IntTy) (a b : Z) : C Z := expect (checked_mul ty a b) "Overflow".

(** ** Internal helpers *)

Definition admin : C Address := o ← gets Admin; expect o "Not initialized".
Definition token : C Address := o ← gets Token; expect o "Not initialized".
Definition oracle : C Address := o ← gets Oracle; expect o "Not initialized".

Definition assert_admin (caller : Address) : C () :=
  a ← admin;
  throw_if (bool_decide (caller ≠ a)) Unauthorized.

Definition is_paused_fn : C bool := gets (λ s, default false (Paused s)).

Definition load_pool (pool_id : Symbol) : C InsurancePool :=
  o ← gets (λ s, Pool s !! pool_id);
  ok_or o PoolNotFound.
Definition set_pool (pool_id : Symbol) (pool : InsurancePool) : C () :=
  modify (λ s, {| s with Pool := <[pool_id := pool]> (Pool s) |}).

Definition load_underwriter (pool_id : Symbol) (address : Address) : C Underwriter :=
  gets (λ s, default (mkUnderwriter address 0 0 0 0 0) (UnderwriterAt s !! (pool_id, address))).
Definition set_underwriter (pool_id : Symbol) (address : Address) (uw : Underwriter) : C () :=
  modify (λ s, {| s with UnderwriterAt := <[(pool_id, address) := uw]> (UnderwriterAt s) |}).

Definition load_policy (policy_id : Z) : C CoveragePolicy :=
  o ← gets (λ s, Policy s !! policy_id);
  ok_or o PolicyNotFound.
Definition set_policy (policy_id : Z) (policy : CoveragePolicy) : C () :=
  modify (λ s, {| s with Policy := <[policy_id := policy]> (Policy s) |}).

Definition load_claim (claim_id : Z) : C Claim :=
  o ← gets (λ s, ClaimAt s !! claim_id);
  ok_or o ClaimNotFound.
Definition set_claim (claim_id : Z) (claim : Claim) : C () :=
  modify (λ s, {| s with ClaimAt := <[claim_id := claim]> (ClaimAt s) |}).

Definition load_payout_queue_item (queue_id : Z) : C PayoutQueueItem :=
  o ← gets (λ s, PayoutQueueItemAt s !! queue_id);
  ok_or o PayoutQueueEmpty.
Definition set_payout_queue_item (queue_id : Z) (item : PayoutQueueItem) : C () :=
  modify (λ s, {| s with PayoutQueueItemAt := <[queue_id := item]> (PayoutQueueItemAt s) |}).

Definition coverage_type_to_key (ct : CoverageType) : CoverageTypeKey :=
  match ct with
  | SmartContractRisk => KSmartContractRisk
  | OracleFailure => KOracleFailure
  | LiquidationFailure => KLiquidationFailure
  end.
Definition coverage_tier_to_key (tier : CoverageTier) : CoverageTierKey :=
  match tier with Basic => KBasic | Standard => KStandard | Premium => KPremium end.

Definition load_risk_params (ct : CoverageType) : C RiskParameters :=
  o ← gets (λ s, RiskParametersAt s !! coverage_type_to_key ct);
  expect o "Risk parameters not initialized".
Definition load_tier_config (ct : CoverageType) (tier : CoverageTier) : C CoverageTierConfig :=
  o ← gets (λ s, TierConfig s !! (coverage_type_to_key ct, coverage_tier_to_key tier));
  expect o "Tier config not initialized".

Definition next_policy_id : C Z :=
  current ← gets (λ s, default 0 (PolicyCounter s));
  next ← add_ U64 current 1;
  modify (λ s, {| s with PolicyCounter := Some next |});;
  mret next.
Definition next_claim_id : C Z :=
  current ← gets (λ s, default 0 (ClaimCounter s));
  next ← add_ U64 current 1;
  modify (λ s, {| s with ClaimCounter := Some next |});;
  mret next.
Definition next_payout_queue_id : C Z :=
  current ← gets (λ s, default 0 (PayoutQueueCounter s));
  next ← add_ U64 current 1;
  modify (λ s, {| s with PayoutQueueCounter := Some next |});;
  mret next.

Definition count_pool_underwriters (pool_id : Symbol) : C Z :=
  pool ← load_pool pool_id;
  mret (if ip_total_shares pool >? 0 then 0 else 0).

(** One round of the loop of [estimate_total_liabilities]. *)
Definition add_liability (total_liabilities : Z) (cid : Z) : C Z :=
  claim ← load_claim cid;
  if bool_decide (cl_status claim = Pending) || bool_decide (cl_status claim = Approved)
  then add_ I128 total_liabilities (cl_amount claim) else mret total_liabilities.
Definition estimate_total_liabilities (pool_id : Symbol) : C Z :=
  claim_ids ← gets (λ s, default [] (PoolClaims s !! pool_id));
  foldM add_liability 0 claim_ids.

Definition calculate_claim_priority (claim : Claim) : Z :=
  if cl_amount claim <=? 10000 then 1 else if cl_amount claim <=? 100000 then 2 else 3.

Definition coverage_types : list CoverageType := [SmartContractRisk; OracleFailure; LiquidationFailure].
Definition tiers : list CoverageTier := [Basic; Standard; Premium].

Definition set_risk (ct : CoverageType) (params : RiskParameters) : C () :=
  modify (λ s, {| s with RiskParametersAt := <[coverage_type_to_key ct := params]> (RiskParametersAt s) |}).
Definition set_tier (ct : CoverageType) (tier : CoverageTier) (config : CoverageTierConfig) : C () :=
  modify (λ s, {| s with TierConfig :=
    <[(coverage_type_to_key ct, coverage_tier_to_key tier) := config]> (TierConfig s) |}).

Definition init_default_risk_params : C () :=
  foldM (λ _ ct, set_risk ct (mkRisk ct 500 10000 1000000000 100 1000 10000 DEFAULT_TIMELOCK_PERIOD 1000))
    tt coverage_types.

Definition default_tier (tier : CoverageTier) : CoverageTierConfig :=
  match tier with
  | Basic => mkTierConfig tier 2000 10000 8000
  | Standard => mkTierConfig tier 1000 10000 10000
  | Premium => mkTierConfig tier 500 12000 15000
  end.
Definition init_default_tier_configs : C () :=
  foldM (λ _ ct, foldM (λ _ tier, set_tier ct tier (default_tier tier)) tt tiers) tt coverage_types.

(** [assets * ratio / 10000], the reserve of a pool. *)
Definition reserve_of (assets ratio_bps : Z) : C Z :=
  p ← mul_ I128 assets ratio_bps;
  plain_div I128 p BPS_DENOMINATOR.

(** ** Initialization and pools *)

Definition initialize (admin token oracle : Address) : C () :=
  o ← gets Admin;
  throw_if (bool_decide (is_Some o)) AlreadyInitialized;;
  require_auth admin;;
  modify (λ s, {| s with Admin := Some admin; Token := Some token; Oracle := Some oracle;
    Paused := Some false; PolicyCounter := Some 0; ClaimCounter := Some 0;
    PayoutQueueCounter := Some 0; PoolCounter := Some 0; UnderwriterCount := Some 0;
    PoolIds := Some [] |});;
  init_default_risk_params;;
  init_default_tier_configs;;
  t ← now;
  publish (ins_init admin token oracle t).

Definition create_pool (admin : Address) (pool_id : Symbol) (coverage_type : CoverageType)
    (reserve_ratio_bps : Z) : C () :=
  require_auth admin;;
  assert_admin admin;;
  o ← gets (λ s, Pool s !! pool_id);
  throw_if (bool_decide (is_Some o)) PoolAlreadyExists;;
  throw_if (reserve_ratio_bps >? 10000) InvalidInput;;
  t ← now;
  set_pool pool_id (mkPool pool_id coverage_type 0 0 reserve_ratio_bps 0 0 0 0 true t);;
  pool_ids ← gets (λ s, default [] (PoolIds s));
  modify (λ s, {| s with PoolIds := Some (pool_ids ++ [pool_id]) |});;
  counter ← gets (λ s, default 0 (PoolCounter s));
  counter' ← plain_add U32 counter 1;
  modify (λ s, {| s with PoolCounter := Some counter' |});;
  publish (pool_cre pool_id coverage_type reserve_ratio_bps).

Definition deposit_as_underwriter (underwriter : Address) (pool_id : Symbol) (amount : Z) : C () :=
  require_auth underwriter;;
  paused ← is_paused_fn;
  throw_if paused AlreadyPaused;;
  throw_if (amount <=? 0) InvalidInput;;
  pool ← load_pool pool_id;
  throw_if (negb (ip_is_active pool)) PoolInactive;;
  known ← gets (λ s, bool_decide (is_Some (UnderwriterAt s !! (pool_id, underwriter))));
  (if negb known then
     count ← count_pool_underwriters pool_id;
     throw_if (count >=? MAX_UNDERWRITERS_PER_POOL) MaxUnderwritersReached
   else mret tt);;
  shares ← (if (ip_total_shares pool <=? 0) || (ip_total_assets pool <=? 0) then mret amount
            else p ← mul_ I128 amount (ip_total_shares pool);
                 plain_div I128 p (ip_total_assets pool));
  tk ← token;
  contract_address ← self_address;
  token_transfer tk underwriter contract_address amount;;
  assets ← add_ I128 (ip_total_assets pool) amount;
  total ← add_ I128 (ip_total_shares pool) shares;
  reserve ← reserve_of assets (ip_reserve_ratio_bps pool);
  set_pool pool_id {| pool with ip_total_assets := assets; ip_total_shares := total;
    ip_reserve_amount := reserve |};;
  uw ← load_underwriter pool_id underwriter;
  uw_shares' ← add_ I128 (uw_shares uw) shares;
  deposited ← add_ I128 (uw_total_deposited uw) amount;
  t ← now;
  set_underwriter pool_id underwriter {| uw with uw_shares := uw_shares';
    uw_total_deposited := deposited; uw_deposit_timestamp := t |};;
  publish (uw_dep underwriter pool_id amount shares assets total).

Definition withdraw_as_underwriter (underwriter : Address) (pool_id : Symbol) (shares : Z) : C Z :=
  require_auth underwriter;;
  throw_if (shares <=? 0) InvalidInput;;
  pool ← load_pool pool_id;
  throw_if (negb (ip_is_active pool)) PoolInactive;;
  uw ← load_underwriter pool_id underwriter;
  throw_if (uw_shares uw <? shares) InsufficientShares;;
  let total_assets := ip_total_assets pool in
  let total_shares := ip_total_shares pool in
  throw_if (total_shares <=? 0) PoolInactive;;
  p ← mul_ I128 shares total_assets;
  assets ← plain_div I128 p total_shares;
  new_total_assets ← sub_ I128 total_assets assets;
  new_total_shares ← sub_ I128 total_shares shares;
  new_reserve ← (if new_total_shares >? 0 then reserve_of new_total_assets (ip_reserve_ratio_bps pool)
                 else mret 0);
  withdrawable ← (if ip_active_policies pool =? 0 then mret true
    else
      total_liabilities ← estimate_total_liabilities pool_id;
      available_for_withdrawal ← sub_ I128 new_total_assets total_liabilities;
      mret (available_for_withdrawal >=? new_reserve));
  throw_if (negb withdrawable && (ip_active_policies pool >? 0)) ReserveRatioExceeded;;
  tk ← token;
  contract_address ← self_address;
  token_transfer tk contract_address underwriter assets;;
  set_pool pool_id {| pool with ip_total_assets := new_total_assets; ip_total_shares := new_total_shares;
    ip_reserve_amount := new_reserve |};;
  uw_shares' ← sub_ I128 (uw_shares uw) shares;
  withdrawn ← add_ I128 (uw_total_withdrawn uw) assets;
  t ← now;
  set_underwriter pool_id underwriter {| uw with uw_shares := uw_shares';
    uw_total_withdrawn := withdrawn; uw_last_withdrawal_timestamp := t |};;
  publish (uw_wd underwriter pool_id shares assets new_total_assets new_total_shares);;
  mret assets.

(** ** Premiums and policies *)

Definition calculate_premium (pool_id : Symbol) (coverage_amount : Z) (tier : CoverageTier) : C Z :=
  pool ← load_pool pool_id;
  throw_if (negb (ip_is_active pool)) PoolInactive;;
  risk_params ← load_risk_params (ip_coverage_type pool);
  tier_config ← load_tier_config (ip_coverage_type pool) tier;
  let base_rate := rp_base_rate_bps risk_params in
  let risk_multiplier := rp_risk_multiplier risk_params in
  let tier_multiplier := tc_premium_multiplier_bps tier_config in
  let pool_depth := if ip_total_assets pool >? 0 then ip_total_assets pool else 1000000 in
  a ← mul_ I128 base_rate coverage_amount;
  b ← mul_ I128 a risk_multiplier;
  numerator ← mul_ I128 b tier_multiplier;
  q1 ← plain_div I128 numerator pool_depth;
  q2 ← plain_div I128 q1 10000;
  premium ← plain_div I128 q2 10000;
  mret (if premium <? 1 then 1 else premium).

Definition purchase_coverage (buyer : Address) (pool_id : Symbol) (tier : CoverageTier)
    (coverage_amount : Z) : C Z :=
  require_auth buyer;;
  paused ← is_paused_fn;
  throw_if paused AlreadyPaused;;
  throw_if (coverage_amount <=? 0) InvalidCoverageAmount;;
  pool ← load_pool pool_id;
  throw_if (negb (ip_is_active pool)) PoolInactive;;
  risk_params ← load_risk_params (ip_coverage_type pool);
  throw_if (coverage_amount <? rp_min_coverage_limit risk_params) InvalidCoverageAmount;;
  throw_if (coverage_amount >? rp_max_coverage_limit risk_params) ClaimAmountExceedsCoverage;;
  premium ← calculate_premium pool_id coverage_amount tier;
  tier_config ← load_tier_config (ip_coverage_type pool) tier;
  d ← mul_ I128 coverage_amount (tc_deductible_bps tier_config);
  deductible ← plain_div I128 d BPS_DENOMINATOR;
  m ← mul_ I128 coverage_amount (tc_max_payout_multiplier tier_config);
  max_payout ← plain_div I128 m 10000;
  tk ← token;
  contract_address ← self_address;
  token_transfer tk buyer contract_address premium;;
  policy_id ← next_policy_id;
  t ← now;
  expires_at ← plain_add U64 t POLICY_DURATION;
  set_policy policy_id (mkPolicy policy_id pool_id buyer (ip_coverage_type pool) tier max_payout
    deductible premium true t expires_at);;
  policy_ids ← gets (λ s, default [] (PolicyIds s));
  modify (λ s, {| s with PolicyIds := Some (policy_ids ++ [policy_id]) |});;
  holder_policies ← gets (λ s, default [] (HolderPolicies s !! buyer));
  modify (λ s, {| s with HolderPolicies := <[buyer := holder_policies ++ [policy_id]]> (HolderPolicies s) |});;
  premiums ← add_ I128 (ip_total_premiums_collected pool) premium;
  assets ← add_ I128 (ip_total_assets pool) premium;
  policies ← plain_add U32 (ip_active_policies pool) 1;
  reserve ← reserve_of assets (ip_reserve_ratio_bps pool);
  set_pool pool_id {| pool with ip_total_premiums_collected := premiums; ip_total_assets := assets;
    ip_active_policies := policies; ip_reserve_amount := reserve |};;
  publish (cov_buy buyer pool_id policy_id coverage_amount premium tier);;
  mret policy_id.

(** The reserve written by [cancel_policy] and [pay_claim]. *)
Definition reserve_after (pool : InsurancePool) (assets : Z) : C Z :=
  if (assets >? 0) && (ip_total_shares pool >? 0)
  then reserve_of assets (ip_reserve_ratio_bps pool) else mret 0.

Definition cancel_policy (buyer : Address) (policy_id : Z) : C Z :=
  require_auth buyer;;
  policy ← load_policy policy_id;
  throw_if (bool_decide (cp_holder policy ≠ buyer)) Unauthorized;;
  throw_if (negb (cp_is_active policy)) PolicyInactive;;
  t ← now;
  total_duration ← sub_ U64 (cp_expires_at policy) (cp_purchased_at policy);
  elapsed ← sub_ U64 t (cp_purchased_at policy);
  half ← plain_div U64 total_duration 2;
  refund ← (if elapsed <? half then
      left ← plain_sub U64 total_duration elapsed;
      l ← plain_mul U64 left 10000;
      remaining_bps ← plain_div U64 l total_duration;
      p ← mul_ I128 (cp_premium_paid policy) remaining_bps;
      plain_div I128 p 20000
    else mret 0);
  set_policy policy_id {| policy with cp_is_active := false |};;
  pool ← load_pool (cp_pool_id policy);
  let policies := saturating_sub U32 (ip_active_policies pool) 1 in
  assets ← sub_ I128 (ip_total_assets pool) refund;
  reserve ← reserve_after pool assets;
  set_pool (cp_pool_id policy) {| pool with ip_active_policies := policies; ip_total_assets := assets;
    ip_reserve_amount := reserve |};;
  (if refund >? 0 then
     tk ← token;
     contract_address ← self_address;
     token_transfer tk contract_address buyer refund
   else mret tt);;
  publish (cov_can buyer policy_id refund (cp_pool_id policy));;
  mret refund.

(** ** Claims *)

Definition submit_claim (claimant : Address) (policy_id amount : Z) (evidence : string) : C Z :=
  require_auth claimant;;
  paused ← is_paused_fn;
  throw_if paused AlreadyPaused;;
  policy ← load_policy policy_id;
  throw_if (bool_decide (cp_holder policy ≠ claimant)) Unauthorized;;
  throw_if (negb (cp_is_active policy)) PolicyInactive;;
  t ← now;
  throw_if (t >? cp_expires_at policy) PolicyExpired;;
  throw_if (amount <=? 0) InvalidInput;;
  throw_if (amount <=? cp_deductible policy) DeductibleNotMet;;
  payout_amount ← sub_ I128 amount (cp_deductible policy);
  throw_if (payout_amount >? cp_coverage_limit policy) ClaimAmountExceedsCoverage;;
  pool ← load_pool (cp_pool_id policy);
  p ← mul_ I128 (ip_total_assets pool) LARGE_CLAIM_THRESHOLD_BPS;
  threshold ← plain_div I128 p BPS_DENOMINATOR;
  let requires_voting := payout_amount >? threshold in
  risk_params ← load_risk_params (cp_coverage_type policy);
  voting_deadline ← (if requires_voting then plain_add U64 t VOTING_PERIOD_SECONDS
                     else plain_add U64 t (rp_timelock_period risk_params));
  claim_id ← next_claim_id;
  set_claim claim_id (mkClaim claim_id policy_id (cp_pool_id policy) claimant payout_amount evidence
    Pending t voting_deadline 0 0 0 requires_voting);;
  claim_ids ← gets (λ s, default [] (ClaimIds s));
  modify (λ s, {| s with ClaimIds := Some (claim_ids ++ [claim_id]) |});;
  pool_claims ← gets (λ s, default [] (PoolClaims s !! cp_pool_id policy));
  modify (λ s, {| s with PoolClaims :=
    <[cp_pool_id policy := pool_claims ++ [claim_id]]> (PoolClaims s) |});;
  publish (clm_sub claim_id policy_id claimant (cp_pool_id policy) payout_amount requires_voting);;
  mret claim_id.

Definition vote_on_claim (underwriter : Address) (claim_id : Z) (approve : bool) : C () :=
  require_auth underwriter;;
  claim ← load_claim claim_id;
  throw_if (negb (cl_requires_voting claim)) InvalidInput;;
  t ← now;
  throw_if (t >? cl_voting_deadline claim) VotingPeriodNotEnded;;
  v ← gets (λ s, VoteRecordAt s !! (claim_id, underwriter));
  throw_if (bool_decide (is_Some v)) AlreadyVoted;;
  o ← gets (λ s, UnderwriterAt s !! (cl_pool_id claim, underwriter));
  uw ← ok_or o NotAnUnderwriter;
  throw_if (uw_shares uw <=? 0) NotAnUnderwriter;;
  modify (λ s, {| s with VoteRecordAt :=
    <[(claim_id, underwriter) := mkVote underwriter claim_id approve t]> (VoteRecordAt s) |});;
  claim' ← (if approve then
      n ← plain_add U32 (cl_votes_for claim) 1;
      mret {| claim with cl_votes_for := n |}
    else
      n ← plain_add U32 (cl_votes_against claim) 1;
      mret {| claim with cl_votes_against := n |});
  voters ← plain_add U32 (cl_total_voters claim) 1;
  set_claim claim_id {| claim' with cl_total_voters := voters |};;
  publish (clm_vot underwriter claim_id approve (cl_votes_for claim') (cl_votes_against claim')).

(** The payout queue entry of an approved claim. *)
Definition approve_claim (claim_id : Z) (claim : Claim) (t : Z) : C () :=
  let claim := {| claim with cl_status := Approved |} in
  set_claim claim_id claim;;
  let priority := calculate_claim_priority claim in
  queue_id ← next_payout_queue_id;
  set_payout_queue_item queue_id (mkItem claim_id (cl_pool_id claim) (cl_amount claim) priority t false);;
  queue_ids ← gets (λ s, default [] (PayoutQueueIds s));
  modify (λ s, {| s with PayoutQueueIds := Some (queue_ids ++ [queue_id]) |});;
  publish (clm_apr claim_id (cl_pool_id claim) (cl_claimant claim) (cl_amount claim) queue_id).

Definition process_claim (claim_id : Z) : C () :=
  claim ← load_claim claim_id;
  throw_if (bool_decide (cl_status claim ≠ Pending)) ClaimAlreadyProcessed;;
  t ← now;
  throw_if (t <? cl_voting_deadline claim)
    (if cl_requires_voting claim then VotingPeriodNotEnded else TimelockNotExpired);;
  denied ← (if cl_requires_voting claim then
      total_votes ← plain_add U32 (cl_votes_for claim) (cl_votes_against claim);
      mret ((total_votes =? 0) || (cl_votes_for claim <=? cl_votes_against claim))
    else mret false);
  if (denied : bool) then
    set_claim claim_id {| claim with cl_status := Denied |};;
    publish (clm_deny claim_id (cl_pool_id claim) (cl_claimant claim) (cl_amount claim))
  else approve_claim claim_id claim t.

Definition pay_claim (admin : Address) (queue_id : Z) : C Z :=
  require_auth admin;;
  assert_admin admin;;
  queue_item ← load_payout_queue_item queue_id;
  throw_if (qi_processed queue_item) ClaimAlreadyProcessed;;
  claim ← load_claim (qi_claim_id queue_item);
  throw_if (bool_decide (cl_status claim ≠ Approved)) ClaimDenied;;
  pool ← load_pool (qi_pool_id queue_item);
  new_total_assets ← sub_ I128 (ip_total_assets pool) (qi_amount queue_item);
  required_reserve ← reserve_of new_total_assets (ip_reserve_ratio_bps pool);
  (if (ip_total_shares pool >? 0) && (new_total_assets <? required_reserve) then
     available ← sub_ I128 (ip_total_assets pool) required_reserve;
     throw_if (qi_amount queue_item >? available) InsufficientReserve
   else mret tt);;
  tk ← token;
  contract_address ← self_address;
  token_transfer tk contract_address (cl_claimant claim) (qi_amount queue_item);;
  paid ← add_ I128 (ip_total_claims_paid pool) (qi_amount queue_item);
  reserve ← reserve_after pool new_total_assets;
  let pool := {| pool with ip_total_assets := new_total_assets; ip_total_claims_paid := paid;
    ip_reserve_amount := reserve |} in
  set_pool (qi_pool_id queue_item) pool;;
  set_claim (qi_claim_id queue_item) {| claim with cl_status := Paid |};;
  set_payout_queue_item queue_id {| queue_item with qi_processed := true |};;
  policy ← load_policy (cl_policy_id claim);
  set_pool (qi_pool_id queue_item)
    {| pool with ip_active_policies := saturating_sub U32 (ip_active_policies pool) 1 |};;
  set_policy (cl_policy_id claim) {| policy with cp_is_active := false |};;
  publish (clm_pay (qi_claim_id queue_item) (qi_pool_id queue_item) (cl_claimant claim) (qi_amount queue_item));;
  mret (qi_amount queue_item).

(** ** Risk parameters and pause *)

Definition set_risk_parameters (admin : Address) (coverage_type : CoverageType)
    (base_rate_bps risk_multiplier max_coverage_limit min_coverage_limit default_deductible_bps
     max_payout_bps timelock_period voting_threshold_bps : Z) : C () :=
  require_auth admin;;
  assert_admin admin;;
  set_risk coverage_type (mkRisk coverage_type base_rate_bps risk_multiplier max_coverage_limit
    min_coverage_limit default_deductible_bps max_payout_bps timelock_period voting_threshold_bps);;
  publish (risk_set coverage_type base_rate_bps risk_multiplier).

Definition set_tier_config (admin : Address) (coverage_type : CoverageType) (tier : CoverageTier)
    (deductible_bps max_payout_multiplier premium_multiplier_bps : Z) : C () :=
  require_auth admin;;
  assert_admin admin;;
  set_tier coverage_type tier (mkTierConfig tier deductible_bps max_payout_multiplier premium_multiplier_bps).

Definition update_reserve_ratio (admin : Address) (pool_id : Symbol) (new_ratio_bps : Z) : C () :=
  require_auth admin;;
  assert_admin admin;;
  throw_if (new_ratio_bps >? 10000) InvalidInput;;
  pool ← load_pool pool_id;
  reserve ← (if ip_total_assets pool >? 0 then reserve_of (ip_total_assets pool) new_ratio_bps else mret 0);
  set_pool pool_id {| pool with ip_reserve_ratio_bps := new_ratio_bps; ip_reserve_amount := reserve |};;
  publish (rsrv_upd pool_id new_ratio_bps reserve).

Definition emergency_pause (admin : Address) : C () :=
  require_auth admin;;
  assert_admin admin;;
  paused ← is_paused_fn;
  throw_if paused AlreadyPaused;;
  modify (λ s, {| s with Paused := Some true |});;
  publish (pause admin).

Definition emergency_unpause (admin : Address) : C () :=
  require_auth admin;;
  assert_admin admin;;
  paused ← is_paused_fn;
  throw_if (negb paused) PoolNotPaused;;
  modify (λ s, {| s with Paused := Some false |});;
  publish (unpause admin).

(** ** Views *)

Definition get_admin : C Address := admin.
Definition get_token : C Address := token.
Definition get_oracle : C Address := oracle.
Definition is_paused : C bool := is_paused_fn.

Definition get_pool_info (pool_id : Symbol) : C PoolInfo :=
  pool ← load_pool pool_id;
  share_price ← (if ip_total_shares pool >? 0 then
      p ← mul_ I128 (ip_total_assets pool) 10000;
      plain_div I128 p (ip_total_shares pool)
    else mret 10000);
  mret (mkPoolInfo (ip_pool_id pool) (ip_coverage_type pool) (ip_total_assets pool) (ip_total_shares pool)
    share_price (ip_reserve_ratio_bps pool) (ip_reserve_amount pool) (ip_active_policies pool)
    (ip_total_premiums_collected pool) (ip_total_claims_paid pool) (ip_is_active pool)).

Definition get_pool_ids : C (list Symbol) := gets (λ s, default [] (PoolIds s)).
Definition get_underwriter (pool_id : Symbol) (address : Address) : C Underwriter :=
  load_underwriter pool_id address.
Definition get_policy (policy_id : Z) : C CoveragePolicy := load_policy policy_id.
Definition get_claim (claim_id : Z) : C Claim := load_claim claim_id.
Definition get_payout_queue_item (queue_id : Z) : C PayoutQueueItem := load_payout_queue_item queue_id.
Definition get_payout_queue_ids : C (list Z) := gets (λ s, default [] (PayoutQueueIds s)).
Definition get_holder_policies (holder : Address) : C (list Z) :=
  gets (λ s, default [] (HolderPolicies s !! holder)).
Definition get_pool_claims (pool_id : Symbol) : C (list Z) :=
  gets (λ s, default [] (PoolClaims s !! pool_id)).
Definition get_risk_parameters (ct : CoverageType) : C RiskParameters :=
  o ← gets (λ s, RiskParametersAt s !! coverage_type_to_key ct);
  expect o "Risk parameters not found".
Definition get_tier_config (ct : CoverageType) (tier : CoverageTier) : C CoverageTierConfig :=
  o ← gets (λ s, TierConfig s !! (coverage_type_to_key ct, coverage_tier_to_key tier));
  expect o "Tier config not found".
Definition preview_premium (pool_id : Symbol) (coverage_amount : Z) (tier : CoverageTier) : C Z :=
  calculate_premium pool_id coverage_amount tier.
End contract.

(** ** The contract as a transaction system *)

Inductive Call :=
| CInitialize (admin token oracle : Address)
| CCreatePool (admin : Address) (pool_id : Symbol) (ct : CoverageType) (ratio : Z)
| CDeposit (underwriter : Address) (pool_id : Symbol) (amount : Z)
| CWithdraw (underwriter : Address) (pool_id : Symbol) (shares : Z)
| CPurchase (buyer : Address) (pool_id : Symbol) (tier : CoverageTier) (amount : Z)
| CCancelPolicy (buyer : Address) (policy_id : Z)
| CSubmitClaim (claimant : Address) (policy_id amount : Z) (evidence : string)
| CVote (underwriter : Address) (claim_id : Z) (approve : bool)
| CProcessClaim (claim_id : Z)
| CPayClaim (admin : Address) (queue_id : Z)
| CSetRisk (admin : Address) (ct : CoverageType) (base mult max min ded payout lock voting : Z)
| CSetTier (admin : Address) (ct : CoverageType) (tier : CoverageTier) (ded payout premium : Z)
| CUpdateReserveRatio (admin : Address) (pool_id : Symbol) (ratio : Z)
| CPause (admin : Address)
| CUnpause (admin : Address).

Definition exec `{TokenHost} (c : Call) : M State InsuranceError Event () :=
  match c with
  | CInitialize a t o => initialize a t o
  | CCreatePool a p ct r => create_pool a p ct r
  | CDeposit u p n => deposit_as_underwriter u p n
  | CWithdraw u p n => discard (withdraw_as_underwriter u p n)
  | CPurchase b p tier n => discard (purchase_coverage b p tier n)
  | CCancelPolicy b i => discard (cancel_policy b i)
  | CSubmitClaim c i n ev => discard (submit_claim c i n ev)
  | CVote u i b => vote_on_claim u i b
  | CProcessClaim i => process_claim i
  | CPayClaim a i => discard (pay_claim a i)
  | CSetRisk a ct b m mx mn d p l v => set_risk_parameters a ct b m mx mn d p l v
  | CSetTier a ct tier d p m => set_tier_config a ct tier d p m
  | CUpdateReserveRatio a p r => update_reserve_ratio a p r
  | CPause a => emergency_pause a
  | CUnpause a => emergency_unpause a
  end.

(** The unsigned arguments of a call are non-negative, by their Rust types. *)
Definition call_ok (c : Call) : Prop :=
  match c with
  | CCreatePool _ _ _ r | CUpdateReserveRatio _ _ r => 0 ≤ r
  | CSetRisk _ _ b m _ _ d p l v => 0 ≤ b ∧ 0 ≤ m ∧ 0 ≤ d ∧ 0 ≤ p ∧ 0 ≤ l ∧ 0 ≤ v
  | CSetTier _ _ _ d p m => 0 ≤ d ∧ 0 ≤ p ∧ 0 ≤ m
  | _ => True
  end.

Definition deployed : State :=
  mkState None None None None None None None None None ∅ None ∅ ∅ None ∅ ∅ None ∅ ∅ None ∅ ∅ ∅.
