(* ===== verification/InsuranceProofs.v ===== *)
(** * contracts/insurance-protocol: invariants and theorems

    Pools against the contract's balance, shares against their owners, the life
    of a claim, the reserve a withdrawal must leave, and the votes. *)

From stdpp Require Import gmap strings list fin_maps.
From S2P Require Import Prelude Soroban TokenModel Insurance.
Open Scope Z_scope.

(** ** Sums *)

(** The assets of all pools, and the shares of the underwriters of one. *)
Definition pooled (pl : gmap Symbol InsurancePool) : Z := msum (λ _ p, ip_total_assets p) pl.
Definition shares_in (uw : gmap (Symbol * Address) Underwriter) (p : Symbol) : Z :=
  msum (λ k u, if bool_decide (fst k = p) then uw_shares u else 0) uw.

Lemma pooled_insert pl p x :
  pooled (<[p := x]> pl) = pooled pl - from_option ip_total_assets 0 (pl !! p) + ip_total_assets x.
Proof. unfold pooled. by rewrite msum_insert. Qed.

Lemma shares_in_insert uw p a u q :
  shares_in (<[(p, a) := u]> uw) q =
    shares_in uw q + (if bool_decide (q = p) then uw_shares u - from_option uw_shares 0 (uw !! (p, a)) else 0).
Proof.
  unfold shares_in. rewrite msum_insert. destruct (uw !! (p, a)); cbn; repeat case_bool_decide; naive_solver lia.
Qed.

Lemma shares_in_none uw p : (∀ a, uw !! (p, a) = None) → shares_in uw p = 0.
Proof.
  intros Hn. apply msum_zero. intros [q a] u Hu. cbn. case_bool_decide; [|done]. subst. by rewrite Hn in Hu.
Qed.

(** ** Well-formedness *)

Record pool_ok (x : InsurancePool) : Prop := {
  po_ratio : 0 ≤ ip_reserve_ratio_bps x ≤ 10000;
  po_policies : 0 ≤ ip_active_policies x;
}.

(** Pools and shares. *)
Record shares_ok (pl : gmap Symbol InsurancePool) (uw : gmap (Symbol * Address) Underwriter) : Prop := {
  so_pool p x : pl !! p = Some x → pool_ok x ∧ ip_total_shares x = shares_in uw p;
  so_underwriter p a u : uw !! (p, a) = Some u → 0 ≤ uw_shares u ∧ is_Some (pl !! p);
}.

Lemma shares_in_nonneg pl uw p : shares_ok pl uw → 0 ≤ shares_in uw p.
Proof.
  intros Hs. apply msum_nonneg. intros [q a] u Hu. case_bool_decide; [|done]. by apply (so_underwriter _ _ Hs q a).
Qed.

(** A pool is written without its shares. *)
Lemma shares_ok_pool pl uw p x x' :
  shares_ok pl uw → pl !! p = Some x → pool_ok x' → ip_total_shares x' = ip_total_shares x →
  shares_ok (<[p := x']> pl) uw.
Proof.
  intros [Hp Hu] Hx Hok Hsh. split.
  - intros q y [[<- <-]|[_ Hy]]%lookup_insert_Some; [|by apply Hp]. split; [done|]. rewrite Hsh. by apply Hp.
  - intros q a u Hq. destruct (Hu q a u Hq). split; [done|]. by apply is_Some_insert.
Qed.

(** A pool and the shares of one underwriter are written. *)
Lemma shares_ok_move pl uw p x x' a u' d :
  shares_ok pl uw → pl !! p = Some x → pool_ok x' → ip_total_shares x' = ip_total_shares x + d →
  uw_shares u' = from_option uw_shares 0 (uw !! (p, a)) + d → 0 ≤ uw_shares u' →
  shares_ok (<[p := x']> pl) (<[(p, a) := u']> uw).
Proof.
  intros [Hp Hu] Hx Hok Hsh Hu' Hpos. split.
  - intros q y [[<- <-]|[Hne Hy]]%lookup_insert_Some; rewrite shares_in_insert.
    + split; [done|]. rewrite bool_decide_eq_true_2 by done. destruct (Hp p x Hx). lia.
    + rewrite bool_decide_eq_false_2 by done. rewrite Z.add_0_r. by apply Hp.
  - intros q b u [[[= <- <-] <-]|[Hne Hq]]%lookup_insert_Some; [split; [done|by rewrite lookup_insert_eq]|].
    destruct (Hu q b u Hq). split; [done|]. by apply is_Some_insert.
Qed.

(** What of a policy never changes. *)
Definition terms (x : CoveragePolicy) :=
  (cp_pool_id x, cp_holder x, cp_coverage_limit x, cp_deductible x, cp_premium_paid x, cp_purchased_at x, cp_expires_at x).

Record policies_ok (pl : gmap Symbol InsurancePool) (counter : Z) (po : gmap Z CoveragePolicy) : Prop := {
  pk_policy i x : po !! i = Some x →
    1 ≤ i ≤ counter ∧ is_Some (pl !! cp_pool_id x) ∧ 0 < cp_premium_paid x ∧
    cp_expires_at x = cp_purchased_at x + POLICY_DURATION;
  pk_counter : 0 ≤ counter;
}.

Record claims_ok (po : gmap Z CoveragePolicy) (counter : Z) (cl : gmap Z Claim) (pc : gmap Symbol (list Z)) : Prop := {
  ck_claim i x : cl !! i = Some x →
    1 ≤ i ≤ counter ∧ 0 < cl_amount x ∧
    ∃ pol, po !! cl_policy_id x = Some pol ∧ cl_pool_id x = cp_pool_id pol ∧ cl_claimant x = cp_holder pol ∧
      cl_amount x ≤ cp_coverage_limit pol;
  ck_index p i : i ∈ default [] (pc !! p) ↔ ∃ x, cl !! i = Some x ∧ cl_pool_id x = p;
  ck_nodup p : NoDup (default [] (pc !! p));
  ck_counter : 0 ≤ counter;
}.

Record queue_ok (cl : gmap Z Claim) (q : gmap Z PayoutQueueItem) : Prop := {
  qk_item i x : q !! i = Some x →
    ∃ c, cl !! qi_claim_id x = Some c ∧ qi_pool_id x = cl_pool_id c ∧ qi_amount x = cl_amount c;
}.

(** The votes recorded for a claim. *)
Definition ballots (v : gmap (Z * Address) VoteRecord) (i : Z) (b : bool) : Z :=
  msum (λ k r, if bool_decide (fst k = i ∧ vr_approve r = b) then 1 else 0) v.

Record votes_ok (cl : gmap Z Claim) (v : gmap (Z * Address) VoteRecord) : Prop := {
  vk_claim i x : cl !! i = Some x →
    cl_votes_for x = ballots v i true ∧ cl_votes_against x = ballots v i false ∧
    cl_total_voters x = cl_votes_for x + cl_votes_against x;
  vk_known i a r : v !! (i, a) = Some r → is_Some (cl !! i);
}.

Record wf (st : State) : Prop := {
  wf_admin : is_Some (Admin st);
  wf_shares : shares_ok (Pool st) (UnderwriterAt st);
  wf_policies : policies_ok (Pool st) (default 0 (PolicyCounter st)) (Policy st);
  wf_claims : claims_ok (Policy st) (default 0 (ClaimCounter st)) (ClaimAt st) (PoolClaims st);
  wf_queue : queue_ok (ClaimAt st) (PayoutQueueItemAt st);
  wf_votes : votes_ok (ClaimAt st) (VoteRecordAt st);
}.

(** What a claim may still cost, and what those of a pool may. *)
Definition liable (x : Claim) : Z :=
  if bool_decide (cl_status x = Pending) || bool_decide (cl_status x = Approved) then cl_amount x else 0.
Definition liabilities (cl : gmap Z Claim) (p : Symbol) : Z :=
  msum (λ _ x, if bool_decide (cl_pool_id x = p) then liable x else 0) cl.

Lemma policies_ok_pools pl pl' n po :
  policies_ok pl n po → (∀ p, is_Some (pl !! p) → is_Some (pl' !! p)) → policies_ok pl' n po.
Proof. intros [Hp Hn] Hpl. split; [|done]. intros i x Hx. destruct (Hp i x Hx) as (? & ? & ? & ?). auto. Qed.

Lemma policies_ok_same pl n po i x x' :
  policies_ok pl n po → po !! i = Some x → terms x' = terms x → policies_ok pl n (<[i := x']> po).
Proof.
  intros [Hp Hn] Hx Ht. split; [|done]. intros j y [[<- <-]|[_ Hy]]%lookup_insert_Some; [|by apply Hp].
  unfold terms in Ht. injection Ht as -> _ _ _ -> -> ->. by apply Hp.
Qed.

Lemma claims_ok_policy po n cl pc i x x' :
  claims_ok po n cl pc → po !! i = Some x → terms x' = terms x → claims_ok (<[i := x']> po) n cl pc.
Proof.
  intros [Hc Hi Hd Hn] Hx Ht. unfold terms in Ht. injection Ht as E1 E2 E3 _ _ _ _. split; try done.
  intros j c Hj. destruct (Hc j c Hj) as (? & ? & pol & Hpol & ? & ? & ?). split; [done|]. split; [done|].
  destruct (decide (i = cl_policy_id c)) as [->|Hne].
  - rewrite Hx in Hpol. injection Hpol as <-. exists x'. rewrite lookup_insert_eq. split_and!; congruence.
  - exists pol. by rewrite lookup_insert_ne.
Qed.

Lemma claims_ok_policies po po' n cl pc :
  claims_ok po n cl pc → (∀ i x, po !! i = Some x → po' !! i = Some x) → claims_ok po' n cl pc.
Proof.
  intros [Hc Hi Hd Hn] Hpo. split; try done. intros j c Hj.
  destruct (Hc j c Hj) as (? & ? & pol & Hpol & ?). split; [done|]. split; [done|]. exists pol. auto.
Qed.

(** What of a claim never changes. *)
Definition matter (x : Claim) := (cl_policy_id x, cl_pool_id x, cl_claimant x, cl_amount x).

Lemma claims_ok_same po n cl pc i x x' :
  claims_ok po n cl pc → cl !! i = Some x → matter x' = matter x → claims_ok po n (<[i := x']> cl) pc.
Proof.
  intros [Hc Hi Hd Hn] Hx Hm. unfold matter in Hm. injection Hm as E1 E2 E3 E4. split; try done.
  - intros j c [[<- <-]|[_ Hj]]%lookup_insert_Some; [|by apply Hc]. rewrite E1, E2, E3, E4. by apply Hc.
  - intros p j. rewrite Hi. destruct (decide (i = j)) as [<-|Hne].
    + rewrite lookup_insert_eq. split; intros (y & Hy & <-); [exists x'|exists x]; naive_solver.
    + by rewrite lookup_insert_ne.
Qed.

Lemma queue_ok_claim cl q i x x' :
  queue_ok cl q → cl !! i = Some x → matter x' = matter x → queue_ok (<[i := x']> cl) q.
Proof.
  intros [Hq] Hx Hm. unfold matter in Hm. injection Hm as _ E2 _ E4. split. intros j it Hj.
  destruct (Hq j it Hj) as (c & Hc & ? & ?). destruct (decide (i = qi_claim_id it)) as [->|Hne].
  - rewrite Hx in Hc. injection Hc as <-. exists x'. rewrite lookup_insert_eq. split_and!; congruence.
  - exists c. by rewrite lookup_insert_ne.
Qed.

Lemma queue_ok_fresh cl q i x : queue_ok cl q → cl !! i = None → queue_ok (<[i := x]> cl) q.
Proof.
  intros [Hq] Hn. split. intros j it Hj. destruct (Hq j it Hj) as (c & Hc & ?). exists c.
  rewrite lookup_insert_ne; [done|]. by intros ->; rewrite Hn in Hc.
Qed.

Lemma queue_ok_item cl q i it c :
  queue_ok cl q → cl !! qi_claim_id it = Some c → qi_pool_id it = cl_pool_id c → qi_amount it = cl_amount c →
  queue_ok cl (<[i := it]> q).
Proof. intros [Hq] Hc H1 H2. split. intros j it' [[<- <-]|[_ Hj]]%lookup_insert_Some; eauto. Qed.

Lemma votes_ok_same cl v i x x' :
  votes_ok cl v → cl !! i = Some x → cl_votes_for x' = cl_votes_for x → cl_votes_against x' = cl_votes_against x →
  cl_total_voters x' = cl_total_voters x → votes_ok (<[i := x']> cl) v.
Proof.
  intros [Hc Hk] Hx E1 E2 E3. split.
  - intros j c [[<- <-]|[_ Hj]]%lookup_insert_Some; [|by apply Hc]. rewrite E1, E2, E3. by apply Hc.
  - intros j a r Hr. apply is_Some_insert. by eapply Hk.
Qed.

Lemma ballots_none v i b : (∀ a, v !! (i, a) = None) → ballots v i b = 0.
Proof.
  intros Hn. apply msum_zero. intros [q a] u Hu. case_bool_decide as Hq; [|done]. cbn in Hq.
  destruct Hq as [-> _]. by rewrite Hn in Hu.
Qed.

Lemma ballots_insert v i a r j b :
  v !! (i, a) = None →
  ballots (<[(i, a) := r]> v) j b = ballots v j b + (if bool_decide (i = j ∧ vr_approve r = b) then 1 else 0).
Proof. intros Hn. unfold ballots. rewrite msum_insert_fresh by done. cbn. lia. Qed.

Lemma votes_ok_fresh cl v i x :
  votes_ok cl v → cl !! i = None → cl_votes_for x = 0 → cl_votes_against x = 0 → cl_total_voters x = 0 →
  votes_ok (<[i := x]> cl) v.
Proof.
  intros [Hc Hk] Hn E1 E2 E3. split.
  - intros j c [[<- <-]|[_ Hj]]%lookup_insert_Some; [|by apply Hc]. rewrite E1, E2, E3.
    rewrite !ballots_none; [done|..]; intros a; destruct (v !! (i, a)) eqn:Hv; try done;
      destruct (Hk _ _ _ Hv); congruence.
  - intros j a r Hr. apply is_Some_insert. by eapply Hk.
Qed.

Lemma claims_ok_new po n cl pc x pol :
  claims_ok po n cl pc → po !! cl_policy_id x = Some pol → cl_pool_id x = cp_pool_id pol →
  cl_claimant x = cp_holder pol → 0 < cl_amount x ≤ cp_coverage_limit pol →
  cl !! (n + 1) = None ∧
  claims_ok po (n + 1) (<[n + 1 := x]> cl)
    (<[cl_pool_id x := default [] (pc !! cl_pool_id x) ++ [n + 1]]> pc).
Proof.
  intros [Hc Hi Hd Hn] Hpol H1 H2 H3.
  assert (cl !! (n + 1) = None) as Hfresh.
  { destruct (cl !! (n + 1)) as [c|] eqn:Hx; [|done]. destruct (Hc _ _ Hx) as [? _]. lia. }
  split; [done|]. split; [| | |lia].
  - intros j c [[<- <-]|[_ Hj]]%lookup_insert_Some.
    + split; [lia|]. split; [lia|]. exists pol. split_and!; try done. lia.
    + destruct (Hc j c Hj) as (? & ? & ?). split; [lia|done].
  - intros p j. rewrite lookup_insert. case_decide as Hp; cbn [default from_option].
    + subst p. unfold id. rewrite elem_of_app, list_elem_of_singleton, Hi. destruct (decide (j = n + 1)) as [->|Hne].
      * rewrite lookup_insert_eq. naive_solver.
      * rewrite lookup_insert_ne by done. naive_solver.
    + rewrite Hi. destruct (decide (j = n + 1)) as [->|Hne].
      * rewrite lookup_insert_eq, Hfresh. naive_solver.
      * by rewrite lookup_insert_ne by done.
  - intros p. rewrite lookup_insert. case_decide as Hp; [|apply Hd]. cbn. unfold id. subst p.
    apply NoDup_snoc; [apply Hd|]. rewrite Hi. naive_solver.
Qed.

Lemma votes_ok_vote cl v i x x' a r :
  votes_ok cl v → cl !! i = Some x → v !! (i, a) = None →
  cl_votes_for x' = cl_votes_for x + (if vr_approve r then 1 else 0) →
  cl_votes_against x' = cl_votes_against x + (if vr_approve r then 0 else 1) →
  cl_total_voters x' = cl_total_voters x + 1 → votes_ok (<[i := x']> cl) (<[(i, a) := r]> v).
Proof.
  intros [Hc Hk] Hx Hn E1 E2 E3. split.
  - intros j c [[<- <-]|[Hne Hj]]%lookup_insert_Some; rewrite !ballots_insert by done.
    + destruct (Hc i x Hx) as (-> & -> & Ht). rewrite E1, E2, E3, Ht.
      destruct (vr_approve r); repeat case_bool_decide; naive_solver lia.
    + rewrite !bool_decide_eq_false_2 by naive_solver. rewrite !Z.add_0_r. by apply Hc.
  - intros j b r' [[[= <- <-] _]|[_ Hr]]%lookup_insert_Some; [by rewrite lookup_insert_eq|].
    apply is_Some_insert. by eapply Hk.
Qed.

(** ** What the operations do *)

Section ops.
Context `{TokenHost} `{!TokenLaws} (self : Address).
Implicit Types (w : World State Event) (e : Env).

(** The pools are covered by the contract's balance. *)
Definition covered (w : World State Event) : Prop :=
  ∀ tk, Token (store w) = Some tk → pooled (Pool (store w)) ≤ tok_balance (ledger w) tk self.

Definition inv (w : World State Event) : Prop := wf (store w) ∧ covered w.

Lemma insurance_assert_admin_spec a e w u w' :
  assert_admin a e w = Ok (u, w') → Admin (store w) = Some a ∧ w' = w.
Proof. intros Hr. unfold assert_admin, admin in Hr. minv Hr. zbool. by subst. Qed.

Lemma load_pool_spec p e w x w' : load_pool p e w = Ok (x, w') → Pool (store w) !! p = Some x ∧ w' = w.
Proof. intros Hr. unfold load_pool in Hr. by minv Hr. Qed.

Lemma reserve_reads a r R : reads R (reserve_of a r : M State InsuranceError Event Z).
Proof. unfold reserve_of, mul_. eauto with contracts. Qed.

Lemma reserve_spec a r e w v w' :
  (reserve_of a r : M State InsuranceError Event Z) e w = Ok (v, w') → v = (a * r) `quot` 10000 ∧ w' = w.
Proof. intros Hr. unfold reserve_of, mul_, BPS_DENOMINATOR in Hr. minv Hr. by inv_checked. Qed.

Lemma reserve_after_spec x a e w v w' : reserve_after x a e w = Ok (v, w') → w' = w.
Proof. intros Hr. unfold reserve_after in Hr. destruct (_ && _); [by apply reserve_spec in Hr as [_ ->]|by minv Hr]. Qed.

(** The shares minted for a deposit. *)
Definition minted (x : InsurancePool) (n : Z) : Z :=
  if (ip_total_shares x <=? 0) || (ip_total_assets x <=? 0) then n
  else (n * ip_total_shares x) `quot` ip_total_assets x.

Lemma insurance_deposit_spec u p n e w w' :
  deposit_as_underwriter u p n e w = Ok (tt, w') →
  ∃ x tk r u', authorized e u = true ∧ 0 < n ∧ Pool (store w) !! p = Some x ∧ Token (store w) = Some tk ∧
    tok_transfer e (ledger w) tk u (current_contract_address e) n = Some (ledger w') ∧
    uw_shares u' = from_option uw_shares 0 (UnderwriterAt (store w) !! (p, u)) + minted x n ∧
    store w' = {| (store w) with
      Pool := <[p := {| x with ip_total_assets := ip_total_assets x + n;
        ip_total_shares := ip_total_shares x + minted x n; ip_reserve_amount := r |}]> (Pool (store w));
      UnderwriterAt := <[(p, u) := u']> (UnderwriterAt (store w)) |}.
Proof.
  intros Hr. unfold deposit_as_underwriter, is_paused_fn, token, set_pool, load_underwriter, set_underwriter,
    add_, mul_ in Hr.
  apply bind_Ok in Hr as ([] & w1 & Ha & Hr). minv Ha. apply bind_Ok in Hr as (b & w1 & Hb & Hr). minv Hb.
  apply bind_Ok in Hr as ([] & w1 & Hp & Hr). minv Hp. apply bind_Ok in Hr as ([] & w1 & Hn & Hr). minv Hn. zbool.
  apply bind_Ok in Hr as (x & w1 & [Hx ->]%load_pool_spec & Hr).
  apply bind_Ok in Hr as ([] & w1 & Hact & Hr). minv Hact. apply bind_Ok in Hr as (k & w1 & Hk & Hr). minv Hk.
  apply bind_Ok in Hr as ([] & w1 & Hc & Hr).
  assert (w1 = w) as ->.
  { unfold count_pool_underwriters, load_pool in Hc. by minv Hc. }
  clear Hc. apply bind_Ok in Hr as (sh & w1 & Hsh & Hr).
  assert (sh = minted x n ∧ w1 = w) as [-> ->].
  { unfold minted. destruct (_ || _); minv Hsh; [done|]. by inv_checked. }
  clear Hsh. apply bind_Ok in Hr as (tk & w1 & Htk & Hr). minv Htk.
  apply bind_Ok in Hr as (sf & w1 & Hsf & Hr). minv Hsf.
  apply bind_Ok in Hr as ([] & w1 & Htr & Hr). apply token_transfer_Ok in Htr as (l' & Htr & ->).
  apply bind_Ok in Hr as (a' & w1 & Ha' & Hr). minv Ha'. apply bind_Ok in Hr as (s' & w1 & Hs' & Hr). minv Hs'.
  inv_checked. apply bind_Ok in Hr as (r & w1 & [_ ->]%reserve_spec & Hr). minv Hr. inv_checked.
  exists x, tk, r. eexists. split_and!; try done.
  cbn. by destruct (UnderwriterAt (store w) !! (p, u)).
Qed.

Lemma liabilities_loop ids acc e w v w' :
  foldM add_liability acc ids e w = Ok (v, w') →
  w' = w ∧ v = acc + lsum (λ i, from_option liable 0 (ClaimAt (store w) !! i)) ids.
Proof.
  revert acc. induction ids as [|i ids IH]; intros acc Hr; cbn [foldM] in Hr.
  - minv Hr. cbn. split; [done|lia].
  - apply bind_Ok in Hr as (a & w1 & Ha & Hr). unfold add_liability, load_claim, add_ in Ha.
    apply bind_Ok in Ha as (c & w2 & Hc & Ha). minv Hc.
    assert (a = acc + liable c ∧ w1 = w) as [-> ->].
    { unfold liable. destruct (_ || _); minv Ha; [by inv_checked|]. split; [lia|done]. }
    apply IH in Hr as [-> ->]. split; [done|].
    unfold lsum. cbn [foldr]. rewrite Hc. cbn [from_option]. lia.
Qed.

Lemma estimate_spec p e w v w' :
  estimate_total_liabilities p e w = Ok (v, w') → wf (store w) → w' = w ∧ v = liabilities (ClaimAt (store w)) p.
Proof.
  intros Hr Hw. unfold estimate_total_liabilities in Hr.
  apply bind_Ok in Hr as (ids & w1 & [-> ->]%gets_Ok & Hr). apply liabilities_loop in Hr as [-> ->].
  split; [done|]. destruct (wf_claims _ Hw) as [_ Hi Hd _]. unfold liabilities.
  rewrite (msum_support _ _ (default [] (PoolClaims (store w) !! p))); [|apply Hd|..].
  - rewrite Z.add_0_l. apply lsum_ext. intros i (x & Hx & Hp)%Hi. rewrite Hx. cbn.
    by rewrite bool_decide_eq_true_2.
  - intros i (x & Hx & _)%Hi. eauto.
  - intros i x Hx Hn. rewrite bool_decide_eq_false_2; [done|]. intros Hp. apply Hn, Hi. eauto.
Qed.

(** What is due to claims that are neither denied nor paid is never negative. *)
Lemma liabilities_nonneg st p : wf st → 0 ≤ liabilities (ClaimAt st) p.
Proof.
  intros Hw. apply msum_nonneg. intros i x Hx. case_bool_decide; [|done]. unfold liable.
  destruct (ck_claim _ _ _ _ (wf_claims _ Hw) i x Hx) as (_ & ? & _). destruct (_ || _); lia.
Qed.

Lemma insurance_withdraw_spec u p n e w v w' :
  withdraw_as_underwriter u p n e w = Ok (v, w') → wf (store w) →
  ∃ x tk r u', authorized e u = true ∧ 0 < n ∧ Pool (store w) !! p = Some x ∧ Token (store w) = Some tk ∧
    0 < ip_total_shares x ∧ v = (n * ip_total_assets x) `quot` ip_total_shares x ∧
    n ≤ from_option uw_shares 0 (UnderwriterAt (store w) !! (p, u)) ∧
    uw_shares u' = from_option uw_shares 0 (UnderwriterAt (store w) !! (p, u)) - n ∧
    (0 < ip_total_shares x - n → r = ((ip_total_assets x - v) * ip_reserve_ratio_bps x) `quot` 10000) ∧
    (ip_active_policies x ≠ 0 → r ≤ ip_total_assets x - v - liabilities (ClaimAt (store w)) p) ∧
    (ip_total_shares x - n ≤ 0 → r = 0) ∧
    tok_transfer e (ledger w) tk (current_contract_address e) u v = Some (ledger w') ∧
    store w' = {| (store w) with
      Pool := <[p := {| x with ip_total_assets := ip_total_assets x - v;
        ip_total_shares := ip_total_shares x - n; ip_reserve_amount := r |}]> (Pool (store w));
      UnderwriterAt := <[(p, u) := u']> (UnderwriterAt (store w)) |}.
Proof.
  intros Hr Hw. unfold withdraw_as_underwriter, token, set_pool, load_underwriter, set_underwriter, add_, sub_, mul_ in Hr.
  apply bind_Ok in Hr as ([] & w1 & Ha & Hr). minv Ha. apply bind_Ok in Hr as ([] & w1 & Hn & Hr). minv Hn. zbool.
  apply bind_Ok in Hr as (x & w1 & [Hx ->]%load_pool_spec & Hr).
  apply bind_Ok in Hr as ([] & w1 & Hact & Hr). minv Hact. apply bind_Ok in Hr as (uw & w1 & Huw & Hr).
  apply gets_Ok in Huw as [Huw ->].
  assert (uw_shares uw = from_option uw_shares 0 (UnderwriterAt (store w) !! (p, u))) as Eu
    by (rewrite Huw; by destruct (UnderwriterAt (store w) !! (p, u))). clear Huw.
  apply bind_Ok in Hr as ([] & w1 & Hle & Hr). minv Hle. zbool.
  apply bind_Ok in Hr as ([] & w1 & Hts & Hr). minv Hts. zbool.
  apply bind_Ok in Hr as (pr & w1 & Hpr & Hr). minv Hpr. apply bind_Ok in Hr as (v0 & w1 & Hv & Hr). minv Hv.
  apply bind_Ok in Hr as (na & w1 & Hna & Hr). minv Hna. apply bind_Ok in Hr as (ns & w1 & Hns & Hr). minv Hns.
  inv_checked. set (v0 := (n * ip_total_assets x) `quot` ip_total_shares x) in *.
  apply bind_Ok in Hr as (r & w1 & Hres & Hr).
  assert (w1 = w ∧ (0 < ip_total_shares x - n → r = ((ip_total_assets x - v0) * ip_reserve_ratio_bps x) `quot` 10000) ∧
    (ip_total_shares x - n ≤ 0 → r = 0)) as (-> & Hr1 & Hr0).
  { destruct (_ >? 0) eqn:Hgt; zbool; [apply reserve_spec in Hres as [-> ->]|minv Hres]; split_and!; done || lia. }
  clear Hres. apply bind_Ok in Hr as (b & w1 & Hb & Hr).
  assert (w1 = w ∧ (ip_active_policies x ≠ 0 → b = true → r ≤ ip_total_assets x - v0 - liabilities (ClaimAt (store w)) p))
    as (-> & Hliab).
  { destruct (_ =? 0) eqn:Hz; zbool; [minv Hb; split; [done|lia]|].
    apply bind_Ok in Hb as (L & w2 & HL & Hb). apply estimate_spec in HL as [-> ->]; [|done]. minv Hb. inv_checked.
    split; [done|]. intros _ Hge. zbool. lia. }
  clear Hb. apply bind_Ok in Hr as ([] & w1 & Hth & Hr). minv Hth.
  minv Hr. inv_checked. eexists x, _, r, _. split_and!; try done; [lia|cbn; lia|].
  intros Hne. apply Hliab; [done|]. destruct b; [done|]. cbn in Hth.
  pose proof (po_policies _ (proj1 (so_pool _ _ (wf_shares _ Hw) _ _ Hx))). zbool. lia.
Qed.

Lemma premium_spec p n tier e w v w' : calculate_premium p n tier e w = Ok (v, w') → 1 ≤ v ∧ w' = w.
Proof.
  intros Hr. unfold calculate_premium, load_risk_params, load_tier_config, mul_ in Hr.
  apply bind_Ok in Hr as (x & w1 & [_ ->]%load_pool_spec & Hr). minv Hr. split; [|done]. destruct (_ <? 1) eqn:H1; zbool; lia.
Qed.

Lemma purchase_spec b p tier n e w i w' :
  purchase_coverage b p tier n e w = Ok (i, w') →
  ∃ x tk r prem pol ids hs, authorized e b = true ∧ Pool (store w) !! p = Some x ∧ Token (store w) = Some tk ∧
    0 < prem ∧ i = default 0 (PolicyCounter (store w)) + 1 ∧
    cp_pool_id pol = p ∧ cp_holder pol = b ∧ cp_premium_paid pol = prem ∧
    cp_expires_at pol = cp_purchased_at pol + POLICY_DURATION ∧
    tok_transfer e (ledger w) tk b (current_contract_address e) prem = Some (ledger w') ∧
    store w' = {| (store w) with
      Pool := <[p := {| x with ip_total_premiums_collected := ip_total_premiums_collected x + prem;
        ip_total_assets := ip_total_assets x + prem; ip_active_policies := ip_active_policies x + 1;
        ip_reserve_amount := r |}]> (Pool (store w));
      Policy := <[i := pol]> (Policy (store w)); PolicyCounter := Some i; PolicyIds := ids; HolderPolicies := hs |}.
Proof.
  intros Hr. unfold purchase_coverage, is_paused_fn, load_risk_params, load_tier_config, token, next_policy_id,
    set_policy, set_pool, add_, mul_ in Hr.
  apply bind_Ok in Hr as ([] & w1 & Ha & Hr). minv Ha. apply bind_Ok in Hr as (bb & w1 & Hb & Hr). minv Hb.
  apply bind_Ok in Hr as ([] & w1 & Hp & Hr). minv Hp. apply bind_Ok in Hr as ([] & w1 & Hn & Hr). minv Hn.
  apply bind_Ok in Hr as (x & w1 & [Hx ->]%load_pool_spec & Hr).
  apply bind_Ok in Hr as ([] & w1 & Hact & Hr). minv Hact. apply bind_Ok in Hr as (rp & w1 & Hrp & Hr). minv Hrp.
  apply bind_Ok in Hr as ([] & w1 & Hmin & Hr). minv Hmin. apply bind_Ok in Hr as ([] & w1 & Hmax & Hr). minv Hmax.
  apply bind_Ok in Hr as (prem & w1 & [Hprem ->]%premium_spec & Hr).
  apply bind_Ok in Hr as (tc & w1 & Htc & Hr). minv Htc.
  do 4 (let Hg := fresh "Hg" in apply bind_Ok in Hr as (? & w1 & Hg & Hr); minv Hg).
  apply bind_Ok in Hr as (tk & w1 & Htk & Hr). minv Htk. apply bind_Ok in Hr as (sf & w1 & Hsf & Hr). minv Hsf.
  apply bind_Ok in Hr as ([] & w1 & Htr & Hr). apply token_transfer_Ok in Htr as (l' & Htr & ->).
  apply bind_Ok in Hr as (i0 & w1 & Hi0 & Hr). minv Hi0. inv_checked.
  apply bind_Ok in Hr as (t & w1 & Ht & Hr). minv Ht. apply bind_Ok in Hr as (ex & w1 & Hex & Hr). minv Hex. inv_checked.
  do 5 (let Hg := fresh "Hg" in apply bind_Ok in Hr as (? & w1 & Hg & Hr); minv Hg).
  do 3 (let Hg := fresh "Hg" in apply bind_Ok in Hr as (? & w1 & Hg & Hr); minv Hg). inv_checked.
  apply bind_Ok in Hr as (r & w1 & [_ ->]%reserve_spec & Hr). minv Hr.
  eexists x, tk, r, prem, (mkPolicy _ _ _ _ _ _ _ _ _ _ _), _, _. split_and!; try reflexivity; try done. lia.
Qed.

Lemma refund_bounds prem el d :
  0 < prem → 0 ≤ el → 0 < d → 0 ≤ d - el →
  0 ≤ 2 * ((prem * (((d - el) * 10000) `quot` d)) `quot` 20000) ≤ prem.
Proof.
  intros Hp Hel Hd Hle. rewrite (quot_div_nonneg ((d - el) * 10000)) by lia.
  set (q := ((d - el) * 10000) `div` d).
  assert (0 ≤ q ≤ 10000) as Hq by (unfold q; split; [apply Z.div_pos; lia|apply div_le_of_le_mul; lia]).
  rewrite quot_div_nonneg by nia.
  pose proof (Z.mul_div_le (prem * q) 20000 ltac:(lia)). pose proof (Z.div_pos (prem * q) 20000 ltac:(nia) ltac:(lia)). nia.
Qed.

(** The refund of a cancelled policy. *)
Lemma cancel_spec b i e w v w' :
  cancel_policy b i e w = Ok (v, w') → wf (store w) →
  ∃ x pol r, authorized e b = true ∧ Policy (store w) !! i = Some pol ∧ cp_holder pol = b ∧ cp_is_active pol = true ∧
    0 ≤ 2 * v ≤ cp_premium_paid pol ∧ Pool (store w) !! cp_pool_id pol = Some x ∧
    (0 < v → ∃ tk, Token (store w) = Some tk ∧
       tok_transfer e (ledger w) tk (current_contract_address e) b v = Some (ledger w')) ∧
    (v = 0 → ledger w' = ledger w) ∧
    store w' = {| (store w) with
      Pool := <[cp_pool_id pol := {| x with ip_active_policies := saturating_sub U32 (ip_active_policies x) 1;
        ip_total_assets := ip_total_assets x - v; ip_reserve_amount := r |}]> (Pool (store w));
      Policy := <[i := {| pol with cp_is_active := false |}]> (Policy (store w)) |}.
Proof.
  intros Hr Hw. unfold cancel_policy, load_policy, set_policy, set_pool, token, sub_, mul_ in Hr.
  apply bind_Ok in Hr as ([] & w1 & Ha & Hr). minv Ha. apply bind_Ok in Hr as (pol & w1 & Hpol & Hr). minv Hpol.
  apply bind_Ok in Hr as ([] & w1 & Hh & Hr). minv Hh. zbool. apply bind_Ok in Hr as ([] & w1 & Hact & Hr). minv Hact.
  zbool. apply bind_Ok in Hr as (t & w1 & Ht & Hr). minv Ht.
  apply bind_Ok in Hr as (td & w1 & Htd & Hr). minv Htd. apply bind_Ok in Hr as (el & w1 & Hel & Hr). minv Hel.
  apply bind_Ok in Hr as (hf & w1 & Hhf & Hr). minv Hhf. inv_checked.
  destruct (pk_policy _ _ _ (wf_policies _ Hw) i pol Hpol) as (_ & _ & Hprem & Hexp).
  apply bind_Ok in Hr as (v0 & w1 & Hv & Hr).
  assert (w1 = w ∧ 0 ≤ 2 * v0 ≤ cp_premium_paid pol) as [-> Hv0].
  { destruct (_ <? _); [|minv Hv; split; [done|lia]]. minv Hv. inv_checked. split; [done|].
    rewrite Hexp in *. cbn [int_min int_max] in *. unfold POLICY_DURATION in *. apply refund_bounds; lia. }
  clear Hv. apply bind_Ok in Hr as ([] & w1 & Hs & Hr). minv Hs.
  apply bind_Ok in Hr as (x & w1 & Hx & Hr). apply load_pool_spec in Hx as [Hx ->]. cbn in Hx.
  cbv zeta in Hr. apply bind_Ok in Hr as (a & w1 & Has & Hr). minv Has. inv_checked.
  apply bind_Ok in Hr as (r & w1 & Hres & Hr). apply reserve_after_spec in Hres as ->.
  apply bind_Ok in Hr as ([] & w1 & Hs & Hr). minv Hs. apply bind_Ok in Hr as ([] & w1 & Hpay & Hr).
  destruct (v0 >? 0) eqn:Hpos; zbool.
  - minv Hpay. minv Hr. exists x, pol, r. split_and!; try done; [lia..|eauto|lia].
  - minv Hpay. minv Hr. exists x, pol, r. split_and!; try done; lia.
Qed.

Lemma submit_spec c i n ev e w k w' :
  submit_claim c i n ev e w = Ok (k, w') →
  ∃ pol x ids, authorized e c = true ∧ Policy (store w) !! i = Some pol ∧ cp_holder pol = c ∧
    cp_is_active pol = true ∧ timestamp e ≤ cp_expires_at pol ∧ k = default 0 (ClaimCounter (store w)) + 1 ∧
    cl_policy_id x = i ∧ cl_pool_id x = cp_pool_id pol ∧ cl_claimant x = c ∧ cl_status x = Pending ∧
    cl_amount x = n - cp_deductible pol ∧ 0 < cl_amount x ≤ cp_coverage_limit pol ∧
    cl_votes_for x = 0 ∧ cl_votes_against x = 0 ∧ cl_total_voters x = 0 ∧
    ledger w' = ledger w ∧
    store w' = {| (store w) with
      ClaimAt := <[k := x]> (ClaimAt (store w)); ClaimCounter := Some k; ClaimIds := ids;
      PoolClaims := <[cl_pool_id x := default [] (PoolClaims (store w) !! cl_pool_id x) ++ [k]]> (PoolClaims (store w)) |}.
Proof.
  intros Hr. unfold submit_claim, is_paused_fn, load_policy, load_risk_params, next_claim_id, set_claim, add_, sub_, mul_ in Hr.
  apply bind_Ok in Hr as ([] & w1 & Ha & Hr). minv Ha. apply bind_Ok in Hr as (b & w1 & Hb & Hr). minv Hb.
  apply bind_Ok in Hr as ([] & w1 & Hp & Hr). minv Hp. apply bind_Ok in Hr as (pol & w1 & Hpol & Hr). minv Hpol.
  apply bind_Ok in Hr as ([] & w1 & Hh & Hr). minv Hh. zbool. apply bind_Ok in Hr as ([] & w1 & Hact & Hr). minv Hact.
  zbool. apply bind_Ok in Hr as (t & w1 & Ht & Hr). minv Ht.
  apply bind_Ok in Hr as ([] & w1 & Hex & Hr). minv Hex. apply bind_Ok in Hr as ([] & w1 & Hn & Hr). minv Hn.
  apply bind_Ok in Hr as ([] & w1 & Hd & Hr). minv Hd. zbool. apply bind_Ok in Hr as (pay & w1 & Hpay & Hr). minv Hpay.
  inv_checked. apply bind_Ok in Hr as ([] & w1 & Hlim & Hr). minv Hlim. zbool.
  apply bind_Ok in Hr as (x & w1 & [Hx ->]%load_pool_spec & Hr).
  apply bind_Ok in Hr as (q & w1 & Hq & Hr). minv Hq. apply bind_Ok in Hr as (th & w1 & Hth & Hr). minv Hth.
  apply bind_Ok in Hr as (rp & w1 & Hrp & Hr). minv Hrp. apply bind_Ok in Hr as (dl & w1 & Hdl & Hr).
  assert (w1 = w) as -> by (destruct (_ >? _); by minv Hdl). clear Hdl.
  minv Hr. inv_checked.
  eexists pol, (mkClaim _ _ _ _ _ _ _ _ _ _ _ _ _), _. split_and!; try reflexivity; try done; cbn; lia.
Qed.

Lemma vote_spec u i b e w w' :
  vote_on_claim u i b e w = Ok (tt, w') →
  ∃ x x' uw, authorized e u = true ∧ ClaimAt (store w) !! i = Some x ∧ cl_requires_voting x = true ∧
    timestamp e ≤ cl_voting_deadline x ∧ VoteRecordAt (store w) !! (i, u) = None ∧
    UnderwriterAt (store w) !! (cl_pool_id x, u) = Some uw ∧ 0 < uw_shares uw ∧
    x' = {| x with cl_votes_for := cl_votes_for x + (if b then 1 else 0);
      cl_votes_against := cl_votes_against x + (if b then 0 else 1); cl_total_voters := cl_total_voters x + 1 |} ∧
    ledger w' = ledger w ∧
    store w' = {| (store w) with ClaimAt := <[i := x']> (ClaimAt (store w));
      VoteRecordAt := <[(i, u) := mkVote u i b (timestamp e)]> (VoteRecordAt (store w)) |}.
Proof.
  intros Hr. unfold vote_on_claim, load_claim, set_claim in Hr.
  apply bind_Ok in Hr as ([] & w1 & Ha & Hr). minv Ha. apply bind_Ok in Hr as (x & w1 & Hx & Hr). minv Hx.
  do 7 (let Hg := fresh "Hg" in apply bind_Ok in Hr as (? & w1 & Hg & Hr); minv Hg). zbool.
  apply bind_Ok in Hr as ([] & w1 & Hm & Hr). minv Hm. apply bind_Ok in Hr as (x' & w1 & Hx' & Hr).
  assert (VoteRecordAt (store w) !! (i, u) = None) as Hv
    by (destruct (VoteRecordAt (store w) !! (i, u)); [exfalso; naive_solver|done]).
  destruct b; minv Hx'; minv Hr; inv_checked; eexists x, _, _; split_and!; try reflexivity; try done;
    first [lia | cbn; by rewrite ?Z.add_0_r].
Qed.

Lemma insurance_process_spec i e w w' :
  process_claim i e w = Ok (tt, w') →
  ∃ x, ClaimAt (store w) !! i = Some x ∧ cl_status x = Pending ∧ cl_voting_deadline x ≤ timestamp e ∧
    ledger w' = ledger w ∧
    let won := negb (cl_requires_voting x) || (cl_votes_against x <? cl_votes_for x) in
    if won && negb (cl_requires_voting x && (cl_votes_for x + cl_votes_against x =? 0)) then
      ∃ k ids it, qi_claim_id it = i ∧ qi_pool_id it = cl_pool_id x ∧ qi_amount it = cl_amount x ∧
        qi_processed it = false ∧ k = default 0 (PayoutQueueCounter (store w)) + 1 ∧
        store w' = {| (store w) with ClaimAt := <[i := {| x with cl_status := Approved |}]> (ClaimAt (store w));
          PayoutQueueCounter := Some k; PayoutQueueIds := ids;
          PayoutQueueItemAt := <[k := it]> (PayoutQueueItemAt (store w)) |}
    else store w' = {| (store w) with ClaimAt := <[i := {| x with cl_status := Denied |}]> (ClaimAt (store w)) |}.
Proof.
  intros Hr. unfold process_claim, load_claim in Hr.
  apply bind_Ok in Hr as (x & w1 & Hx & Hr). minv Hx.
  do 3 (let Hg := fresh "Hg" in apply bind_Ok in Hr as (? & w1 & Hg & Hr); minv Hg). zbool.
  apply bind_Ok in Hr as (d & w1 & Hd & Hr).
  assert (w1 = w ∧ d = cl_requires_voting x &&
    ((cl_votes_for x + cl_votes_against x =? 0) || (cl_votes_for x <=? cl_votes_against x))) as [-> ->].
  { destruct (cl_requires_voting x); minv Hd; [|done]. by inv_checked. }
  clear Hd. exists x. rewrite Z.leb_antisym in Hr. unfold approve_claim, set_claim, next_payout_queue_id,
    set_payout_queue_item, add_ in Hr.
  destruct (cl_requires_voting x), (cl_votes_for x + cl_votes_against x =? 0), (cl_votes_against x <? cl_votes_for x);
    cbn in Hr |- *; minv Hr; inv_checked; split_and!; try done; try lia;
    eexists _, _, (mkItem _ _ _ _ _ _); split_and!; reflexivity.
Qed.

Lemma pay_spec a k e w v w' :
  pay_claim a k e w = Ok (v, w') →
  ∃ it x pl pol tk r, authorized e a = true ∧ Admin (store w) = Some a ∧
    PayoutQueueItemAt (store w) !! k = Some it ∧ qi_processed it = false ∧
    ClaimAt (store w) !! qi_claim_id it = Some x ∧ cl_status x = Approved ∧
    Pool (store w) !! qi_pool_id it = Some pl ∧ Policy (store w) !! cl_policy_id x = Some pol ∧
    Token (store w) = Some tk ∧ v = qi_amount it ∧
    tok_transfer e (ledger w) tk (current_contract_address e) (cl_claimant x) v = Some (ledger w') ∧
    store w' = {| (store w) with
      Pool := <[qi_pool_id it := {| pl with ip_total_assets := ip_total_assets pl - v;
        ip_total_claims_paid := ip_total_claims_paid pl + v; ip_reserve_amount := r;
        ip_active_policies := saturating_sub U32 (ip_active_policies pl) 1 |}]> (Pool (store w));
      ClaimAt := <[qi_claim_id it := {| x with cl_status := Paid |}]> (ClaimAt (store w));
      PayoutQueueItemAt := <[k := {| it with qi_processed := true |}]> (PayoutQueueItemAt (store w));
      Policy := <[cl_policy_id x := {| pol with cp_is_active := false |}]> (Policy (store w)) |}.
Proof.
  intros Hr. unfold pay_claim, load_payout_queue_item, load_claim, load_policy, set_pool, set_claim,
    set_payout_queue_item, set_policy, token, add_, sub_ in Hr.
  apply bind_Ok in Hr as ([] & w1 & Ha & Hr). minv Ha.
  apply bind_Ok in Hr as ([] & w1 & [Had ->]%insurance_assert_admin_spec & Hr).
  apply bind_Ok in Hr as (it & w1 & Hit & Hr). minv Hit. apply bind_Ok in Hr as ([] & w1 & Hp & Hr). minv Hp. zbool.
  apply bind_Ok in Hr as (x & w1 & Hx & Hr). minv Hx. apply bind_Ok in Hr as ([] & w1 & Hs & Hr). minv Hs. zbool.
  apply bind_Ok in Hr as (pl & w1 & [Hpl ->]%load_pool_spec & Hr).
  apply bind_Ok in Hr as (na & w1 & Hna & Hr). minv Hna. inv_checked.
  apply bind_Ok in Hr as (rr & w1 & [_ ->]%reserve_spec & Hr). apply bind_Ok in Hr as ([] & w1 & Hc & Hr).
  assert (w1 = w) as -> by (destruct (_ && _); by minv Hc). clear Hc.
  apply bind_Ok in Hr as (tk & w1 & Htk & Hr). minv Htk. apply bind_Ok in Hr as (sf & w1 & Hsf & Hr). minv Hsf.
  apply bind_Ok in Hr as ([] & w1 & Htr & Hr). apply token_transfer_Ok in Htr as (l' & Htr & ->).
  apply bind_Ok in Hr as (pd & w1 & Hpd & Hr). minv Hpd. inv_checked.
  apply bind_Ok in Hr as (r & w1 & Hres & Hr). apply reserve_after_spec in Hres as ->.
  minv Hr. rewrite insert_insert_eq. eexists it, x, pl, _, tk, r. split_and!; try reflexivity; done.
Qed.

(** ** Every operation keeps the invariant *)

(** A pool's assets and the contract's balance move together. *)
Lemma covered_move w w' p x x' d :
  covered w → Token (store w') = Token (store w) → Pool (store w') = <[p := x']> (Pool (store w)) →
  Pool (store w) !! p = Some x → ip_total_assets x' = ip_total_assets x + d →
  (∀ tk, Token (store w) = Some tk → tok_balance (ledger w) tk self + d ≤ tok_balance (ledger w') tk self) →
  covered w'.
Proof.
  intros Hc Ht Hp Hx Ha Hl tk Htk. rewrite Ht in Htk. specialize (Hc tk Htk). specialize (Hl tk Htk).
  rewrite Hp, pooled_insert, Hx. cbn. lia.
Qed.

Lemma covered_same w w' :
  covered w → Token (store w') = Token (store w) → Pool (store w') = Pool (store w) → ledger w' = ledger w → covered w'.
Proof. intros Hc Ht Hp Hl tk Htk. rewrite Hp, Hl. apply Hc. by rewrite <- Ht. Qed.

Lemma insurance_minted_nonneg pl uw p x n : shares_ok pl uw → pl !! p = Some x → 0 < n → 0 ≤ minted x n.
Proof.
  intros Hs Hx Hn. unfold minted. destruct (_ || _) eqn:Hz; [lia|]. zbool. apply Z.quot_pos; nia.
Qed.

Lemma saturating_sub_nonneg a b : 0 ≤ saturating_sub U32 a b.
Proof. unfold saturating_sub, saturate. cbn. lia. Qed.

Lemma insurance_deposit_inv u p n e w w' :
  deposit_as_underwriter u p n e w = Ok (tt, w') → wf_env self e → inv w → inv w'.
Proof.
  intros Hr He [Hw Hc]. destruct (insurance_deposit_spec _ _ _ _ _ _ Hr) as (x & tk & r & u' & Ha & Hn & Hx & Htk & Htr & Hu & Hst).
  pose proof (insurance_minted_nonneg _ _ _ _ _ (wf_shares _ Hw) Hx Hn).
  rewrite (wf_self _ _ He) in Htr. apply transfer_moved in Htr. split.
  - rewrite Hst. destruct Hw as [? Hs Hp ? ? ?]. split; try done; cbn.
    + destruct (so_pool _ _ Hs _ _ Hx) as [[] ?]. eapply shares_ok_move; [done..| |done|]; cbn; [done|].
      rewrite Hu. destruct (UnderwriterAt (store w) !! (p, u)) eqn:Hux; cbn; [|lia].
      destruct (so_underwriter _ _ Hs _ _ _ Hux). lia.
    + eapply policies_ok_pools; [done|]. intros q. apply is_Some_insert.
  - eapply (covered_move w _ p x _ n); rewrite ?Hst; try done. intros tk' Htk'. simplify_eq.
    rewrite (moved_in _ _ _ _ _ _ _ Htr (wf_auth_ne _ _ _ He Ha)), bool_decide_eq_true_2 by done. lia.
Qed.

Lemma withdraw_inv u p n e w v w' :
  withdraw_as_underwriter u p n e w = Ok (v, w') → wf_env self e → inv w → inv w'.
Proof.
  intros Hr He [Hw Hc]. destruct (insurance_withdraw_spec _ _ _ _ _ _ _ Hr Hw)
    as (x & tk & r & u' & Ha & Hn & Hx & Htk & Hpos & Hv & Hle & Hu & _ & _ & _ & Htr & Hst).
  rewrite (wf_self _ _ He) in Htr. apply transfer_moved in Htr. split.
  - rewrite Hst. destruct Hw as [? Hs Hp ? ? ?]. split; try done; cbn.
    + destruct (so_pool _ _ Hs _ _ Hx) as [[] ?].
      eapply (shares_ok_move _ _ _ _ _ _ _ (- n)); [done..| | |]; cbn; [done|lia|lia].
    + eapply policies_ok_pools; [done|]. intros q. apply is_Some_insert.
  - eapply (covered_move w _ p x _ (- v)); rewrite ?Hst; try done. intros tk' Htk'. simplify_eq.
    rewrite (moved_out _ _ _ _ _ _ _ Htr (wf_auth_ne _ _ _ He Ha)), bool_decide_eq_true_2 by done. lia.
Qed.

Lemma policies_ok_new pl n po x :
  policies_ok pl n po → is_Some (pl !! cp_pool_id x) → 0 < cp_premium_paid x →
  cp_expires_at x = cp_purchased_at x + POLICY_DURATION →
  po !! (n + 1) = None ∧ policies_ok pl (n + 1) (<[n + 1 := x]> po).
Proof.
  intros [Hp Hn] H1 H2 H3. split.
  - destruct (po !! (n + 1)) as [y|] eqn:Hy; [|done]. destruct (Hp _ _ Hy) as [? _]. lia.
  - split; [|lia]. intros j y [[<- <-]|[_ Hy]]%lookup_insert_Some; [split_and!; done || lia|].
    destruct (Hp j y Hy) as (? & ? & ? & ?). split_and!; done || lia.
Qed.

Lemma purchase_inv b p tier n e w i w' :
  purchase_coverage b p tier n e w = Ok (i, w') → wf_env self e → inv w → inv w'.
Proof.
  intros Hr He [Hw Hc]. destruct (purchase_spec _ _ _ _ _ _ _ _ Hr)
    as (x & tk & r & prem & pol & ids & hs & Ha & Hx & Htk & Hprem & Hi & Hpp & Hh & Hpd & Hex & Htr & Hst).
  rewrite (wf_self _ _ He) in Htr. apply transfer_moved in Htr. split.
  - rewrite Hst. destruct Hw as [? Hs Hp Hcl ? ?]. destruct (so_pool _ _ Hs _ _ Hx) as [[] ?].
    destruct (policies_ok_new _ _ _ pol Hp) as [Hfr Hp']; [by rewrite Hpp, Hx|lia|done|].
    split; try done; cbn.
    + eapply shares_ok_pool; [done..| |done]. split; cbn; lia.
    + rewrite Hi. eapply policies_ok_pools; [done|]. intros q. apply is_Some_insert.
    + eapply claims_ok_policies; [done|]. intros j y Hy. rewrite lookup_insert_ne; [done|]. intros ->. congruence.
  - eapply (covered_move w _ p x _ prem); rewrite ?Hst; try done. intros tk' Htk'. simplify_eq.
    rewrite (moved_in _ _ _ _ _ _ _ Htr (wf_auth_ne _ _ _ He Ha)), bool_decide_eq_true_2 by done. lia.
Qed.

(** A pool loses assets and an active policy, and the policy is closed. *)
Lemma wf_close st p x x' i pol :
  wf st → Pool st !! p = Some x → Policy st !! i = Some pol → ip_total_shares x' = ip_total_shares x →
  ip_reserve_ratio_bps x' = ip_reserve_ratio_bps x → 0 ≤ ip_active_policies x' →
  wf {| st with Pool := <[p := x']> (Pool st); Policy := <[i := {| pol with cp_is_active := false |}]> (Policy st) |}.
Proof.
  intros [? Hs Hp Hcl ? ?] Hx Hpol H1 H2 H3. destruct (so_pool _ _ Hs _ _ Hx) as [[] ?]. split; try done; cbn.
  - eapply shares_ok_pool; [done..| |done]. split; lia.
  - eapply policies_ok_same; [|done|done]. eapply policies_ok_pools; [done|]. intros q. apply is_Some_insert.
  - by eapply claims_ok_policy.
Qed.

Lemma cancel_inv b i e w v w' :
  cancel_policy b i e w = Ok (v, w') → wf_env self e → inv w → inv w'.
Proof.
  intros Hr He [Hw Hc]. destruct (cancel_spec _ _ _ _ _ _ Hr Hw)
    as (x & pol & r & Ha & Hpol & Hh & Hact & Hv & Hx & Hpay & Hfree & Hst). split.
  - rewrite Hst. eapply wf_close; try done. apply saturating_sub_nonneg.
  - eapply (covered_move w _ (cp_pool_id pol) x _ (- v)); rewrite ?Hst; try done. intros tk Htk.
    destruct (decide (0 < v)) as [Hpos|].
    + destruct (Hpay Hpos) as (tk' & Htk' & Htr). simplify_eq. rewrite (wf_self _ _ He) in Htr.
      apply transfer_moved in Htr.
      rewrite (moved_out _ _ _ _ _ _ _ Htr (wf_auth_ne _ _ _ He Ha)), bool_decide_eq_true_2 by done. lia.
    + rewrite Hfree by lia. lia.
Qed.

Lemma submit_inv c i n ev e w k w' : submit_claim c i n ev e w = Ok (k, w') → inv w → inv w'.
Proof.
  intros Hr [Hw Hc]. destruct (submit_spec _ _ _ _ _ _ _ _ Hr)
    as (pol & x & ids & _ & Hpol & Hh & _ & _ & Hk & E1 & E2 & E3 & _ & _ & E4 & E5 & E6 & E7 & Hl & Hst).
  split; [|by apply (covered_same w); rewrite ?Hst]. rewrite Hst. destruct Hw as [? ? ? Hcl Hq Hv].
  destruct (claims_ok_new _ _ _ _ x pol Hcl) as [Hfr Hcl']; [by rewrite E1|done|by rewrite Hh|done|].
  rewrite <- Hk in Hfr, Hcl'. split; try done; cbn.
  - by apply queue_ok_fresh.
  - by apply votes_ok_fresh.
Qed.

(** A claim moves on, its matter and its votes unchanged. *)
Lemma wf_claim st i x s :
  wf st → ClaimAt st !! i = Some x →
  wf {| st with ClaimAt := <[i := {| x with cl_status := s |}]> (ClaimAt st) |}.
Proof.
  intros [? ? ? Hcl Hq Hv] Hx. split; try done; cbn.
  - by eapply claims_ok_same.
  - by eapply queue_ok_claim.
  - by eapply votes_ok_same.
Qed.

Lemma vote_inv u i b e w w' : vote_on_claim u i b e w = Ok (tt, w') → inv w → inv w'.
Proof.
  intros Hr [Hw Hc]. destruct (vote_spec _ _ _ _ _ _ Hr)
    as (x & x' & uw & _ & Hx & _ & _ & Hv & _ & _ & Hx' & Hl & Hst).
  split; [|by apply (covered_same w); rewrite ?Hst]. rewrite Hst. destruct Hw as [? ? ? Hcl Hq Hvo]. split; try done; cbn.
  - eapply claims_ok_same; [done..|]. by rewrite Hx'.
  - eapply queue_ok_claim; [done..|]. by rewrite Hx'.
  - eapply votes_ok_vote; [done..| | |]; by rewrite Hx'.
Qed.

Lemma process_inv i e w w' : process_claim i e w = Ok (tt, w') → inv w → inv w'.
Proof.
  intros Hr [Hw Hc]. destruct (insurance_process_spec _ _ _ _ Hr) as (x & Hx & _ & _ & Hl & Hst). cbv zeta in Hst.
  destruct (_ && _) in Hst.
  - destruct Hst as (k & ids & it & E1 & E2 & E3 & _ & _ & Hst).
    split; [|by apply (covered_same w); rewrite ?Hst]. rewrite Hst.
    destruct (wf_claim _ i x Approved Hw Hx) as [? ? ? Hcl Hq Hv]. split; try done. cbn.
    eapply queue_ok_item; [done|by rewrite E1; cbn; rewrite lookup_insert_eq|done..].
  - split; [rewrite Hst; by apply wf_claim|by apply (covered_same w); rewrite ?Hst].
Qed.

(** The queue entry, the claim and the pool of a payment agree. *)
Lemma pay_inv a k e w v w' : pay_claim a k e w = Ok (v, w') → wf_env self e → inv w → inv w'.
Proof.
  intros Hr He [Hw Hc]. destruct (pay_spec _ _ _ _ _ _ Hr)
    as (it & x & pl & pol & tk & r & _ & _ & Hit & _ & Hx & _ & Hpl & Hpol & Htk & Hv & Htr & Hst).
  destruct (qk_item _ _ (wf_queue _ Hw) _ _ Hit) as (c & Hc' & E1 & E2). rewrite Hx in Hc'. injection Hc' as <-.
  split.
  - rewrite Hst. destruct (wf_close _ _ _ {| pl with ip_total_assets := ip_total_assets pl - v;
        ip_total_claims_paid := ip_total_claims_paid pl + v; ip_reserve_amount := r;
        ip_active_policies := saturating_sub U32 (ip_active_policies pl) 1 |} _ _
      (wf_claim _ _ x Paid Hw Hx) Hpl Hpol) as [? ? ? ? Hq ?]; try done; [apply saturating_sub_nonneg|].
    split; try done. cbn in *. eapply queue_ok_item; [done|by cbn; rewrite lookup_insert_eq|done..].
  - pose proof (ck_claim _ _ _ _ (wf_claims _ Hw) _ _ Hx) as (_ & Hpos & _).
    rewrite (wf_self _ _ He) in Htr. apply transfer_moved in Htr.
    eapply (covered_move w _ (qi_pool_id it) pl _ (- v)); rewrite ?Hst; try done. intros tk' Htk'. simplify_eq.
    pose proof (moved_out_ge _ _ _ _ _ _ tk Htr ltac:(lia)) as Hb. rewrite bool_decide_eq_true_2 in Hb by done. lia.
Qed.

Lemma create_pool_inv a p ct r e w w' : create_pool a p ct r e w = Ok (tt, w') → 0 ≤ r → inv w → inv w'.
Proof.
  intros Hr Hpos [Hw Hc]. unfold create_pool, set_pool in Hr. minv Hr. spec insurance_assert_admin_spec as [Ha ->].
  zbool. assert (Pool (store w) !! p = None) as Hn by (destruct (Pool (store w) !! p); [exfalso; naive_solver|done]).
  split; cbn.
  - destruct Hw as [? [Hp Hu] Hpo ? ? ?]. split; try done; cbn; [|eapply policies_ok_pools; [done|]; intros q; apply is_Some_insert].
    split.
    + intros q y [[<- <-]|[_ Hy]]%lookup_insert_Some; [|by apply Hp]. split; [split; cbn; lia|]. cbn.
      symmetry. apply shares_in_none. intros b. destruct (UnderwriterAt (store w) !! (p, b)) eqn:Hub; [|done].
      destruct (Hu _ _ _ Hub) as [_ []]. congruence.
    + intros q b y Hy. destruct (Hu _ _ _ Hy). split; [done|]. by apply is_Some_insert.
  - intros tk Htk. cbn in *. rewrite pooled_insert, Hn. cbn. specialize (Hc tk Htk). lia.
Qed.

Lemma update_ratio_inv a p r e w w' : update_reserve_ratio a p r e w = Ok (tt, w') → 0 ≤ r → inv w → inv w'.
Proof.
  intros Hr Hpos [Hw Hc]. unfold update_reserve_ratio, set_pool in Hr.
  apply bind_Ok in Hr as ([] & w1 & Ha & Hr). minv Ha.
  apply bind_Ok in Hr as ([] & w1 & [Had ->]%insurance_assert_admin_spec & Hr).
  apply bind_Ok in Hr as ([] & w1 & Hle & Hr). minv Hle. zbool.
  apply bind_Ok in Hr as (x & w1 & [Hx ->]%load_pool_spec & Hr). apply bind_Ok in Hr as (v & w1 & Hv & Hr).
  assert (w1 = w) as -> by (destruct (_ >? 0); [by apply reserve_spec in Hv as [_ ->]|by minv Hv]). minv Hr. split.
  - destruct Hw as [? Hs Hpo ? ? ?]. destruct (so_pool _ _ Hs _ _ Hx) as [[] ?]. split; try done; cbn.
    + eapply shares_ok_pool; [done..| |done]. split; cbn; lia.
    + eapply policies_ok_pools; [done|]. intros q. apply is_Some_insert.
  - eapply (covered_move w _ p x _ 0); try done; [cbn; lia|]. intros tk _. cbn. lia.
Qed.

Lemma initialized_once a t o e w w' : initialize a t o e w = Ok (tt, w') → ¬ is_Some (Admin (store w)).
Proof.
  intros Hr. unfold initialize in Hr. apply bind_Ok in Hr as (x & w1 & Hx & Hr). minv Hx.
  apply bind_Ok in Hr as ([] & w1 & Hp & Hr). minv Hp. by zbool.
Qed.

Lemma insurance_exec_inv c e w w' : exec c e w = Ok (tt, w') → wf_env self e → call_ok c → inv w → inv w'.
Proof.
  intros Hr He Hok Hi. destruct c; cbn [exec call_ok] in Hr, Hok; try apply discard_Ok in Hr as [? Hr];
    eauto using insurance_deposit_inv, withdraw_inv, purchase_inv, cancel_inv, submit_inv, vote_inv, process_inv, pay_inv,
      create_pool_inv, update_ratio_inv.
  - apply initialized_once in Hr. destruct Hr. apply Hi.
  - unfold set_risk_parameters, set_risk in Hr. minv Hr. spec insurance_assert_admin_spec as [Ha ->].
    destruct Hi as [[] Hc]. split; [by split|exact Hc].
  - unfold set_tier_config, set_tier in Hr. minv Hr. spec insurance_assert_admin_spec as [Ha ->].
    destruct Hi as [[] Hc]. split; [by split|exact Hc].
  - unfold emergency_pause, is_paused_fn in Hr. minv Hr. spec insurance_assert_admin_spec as [Ha ->].
    destruct Hi as [[] Hc]. split; [by split|exact Hc].
  - unfold emergency_unpause, is_paused_fn in Hr. minv Hr. spec insurance_assert_admin_spec as [Ha ->].
    destruct Hi as [[] Hc]. split; [by split|exact Hc].
Qed.

(** A deployment whose first call initialized the contract. *)
Definition started (e : Env) (w1 : World State Event) : Prop :=
  ∃ l lg admin token oracle, (∀ tk, 0 ≤ tok_balance l tk self) ∧ wf_env self e ∧
    exec (CInitialize admin token oracle) e (mkWorld deployed l lg) = Ok (tt, w1).

(** The default configuration only writes the risk parameters and the tiers. *)
Definition configured (w w' : World State Event) : Prop :=
  ∃ r tc, w' = {| w with store := {| (store w) with RiskParametersAt := r; TierConfig := tc |} |}.

Lemma configured_refl w : configured w w.
Proof. exists (RiskParametersAt (store w)), (TierConfig (store w)). by destruct w as [[] ? ?]. Qed.

Lemma risk_defaults_spec e w u w' : init_default_risk_params e w = Ok (u, w') → configured w w'.
Proof.
  intros Hr. unfold init_default_risk_params in Hr.
  eapply (foldM_inv _ (λ _, configured w) _ _ _ _ _ _ Hr); [apply configured_refl|].
  intros ct b w1 b' w1' _ (r & tc & ->) Hs. unfold set_risk in Hs. minv Hs. by eexists _, _.
Qed.

Lemma configured_trans w1 w2 w3 : configured w1 w2 → configured w2 w3 → configured w1 w3.
Proof. intros (r & tc & ->) (r' & tc' & ->). by exists r', tc'. Qed.

Lemma tier_loop ct l e w u w' :
  foldM (λ _ tier, set_tier ct tier (default_tier tier)) tt l e w = Ok (u, w') → configured w w'.
Proof.
  intros Hr. eapply (foldM_inv _ (λ _, configured w) _ _ _ _ _ _ Hr); [apply configured_refl|].
  intros tier b w1 b' w1' _ (r & tc & ->) Hs. unfold set_tier in Hs. minv Hs. by eexists _, _.
Qed.

(** Conversion unfolds the definition of the loop first, not the loop. *)
#[local] Strategy 100 [foldM mbind M_bind coverage_types tiers set_tier].

Lemma tier_defaults_spec e w u w' : init_default_tier_configs e w = Ok (u, w') → configured w w'.
Proof.
  intros Hr. unfold init_default_tier_configs in Hr.
  eapply (foldM_inv _ (λ _, configured w) _ _ _ _ _ _ Hr); [apply configured_refl|].
  intros ct b w1 b' w1' _ Hc Hs. cbn beta in Hs. apply tier_loop in Hs. by eapply configured_trans.
Qed.

Lemma insurance_started_inv e w1 : started e w1 → inv w1.
Proof.
  intros (l & lg & admin & tk & oracle & Hl & He & Hr). cbn [exec] in Hr. unfold initialize in Hr.
  do 4 (let Hg := fresh "Hg" in apply bind_Ok in Hr as (? & w2 & Hg & Hr); minv Hg).
  apply bind_Ok in Hr as ([] & w2 & (r & tc & ->)%risk_defaults_spec & Hr).
  apply bind_Ok in Hr as ([] & w2 & (r' & tc' & ->)%tier_defaults_spec & Hr). minv Hr. split; cbn.
  - split; cbn; try done.
    split; [done| |intros; apply NoDup_nil_2|done]. intros p i. rewrite lookup_empty. cbn.
    split; [by intros ?%not_elem_of_nil|naive_solver].
  - intros tk' _. cbn. unfold pooled. rewrite msum_empty. apply Hl.
Qed.

(** The worlds the calls reach once the contract is initialized. *)
Definition reachable (t : Z) (w : World State Event) : Prop :=
  ∃ e0 w1, started e0 w1 ∧ rtc (step exec call_ok self) (timestamp e0, w1) (t, w).

Lemma insurance_reachable_inv t w : reachable t w → inv w.
Proof.
  intros (e0 & w1 & Hs & Hr). apply (reach_inv_world exec call_ok self (λ _, inv)) in Hr;
    [done| | |by eapply insurance_started_inv].
  - intros t' c e w0 w0' He _ Hok Hi Hrun. by eapply insurance_exec_inv.
  - intros t1 t2 w0 l' _ Hl [Hw Hc]. split; [done|]. intros tk Htk. specialize (Hc tk Htk). specialize (Hl tk). cbn in *. lia.
Qed.

Lemma insurance_reachable_wf t w : reachable t w → wf (store w).
Proof. intros Hr. apply (insurance_reachable_inv _ _ Hr). Qed.

(** ** Theorems *)

(** C27: in every reachable state the contract holds at least the
    assets booked for all its pools together, and the total shares of each pool
    are the shares of its underwriters, none of them negative. *)
Theorem insurance_custody t w :
  reachable t w →
  (∀ tk, Token (store w) = Some tk → pooled (Pool (store w)) ≤ tok_balance (ledger w) tk self) ∧
  (∀ p x, Pool (store w) !! p = Some x → ip_total_shares x = shares_in (UnderwriterAt (store w)) p) ∧
  (∀ p a u, UnderwriterAt (store w) !! (p, a) = Some u → 0 ≤ uw_shares u).
Proof.
  intros Hr. destruct (insurance_reachable_inv _ _ Hr) as [Hw Hc]. split; [exact Hc|]. split.
  - intros p x Hx. by apply (so_pool _ _ (wf_shares _ Hw)).
  - intros p a u Hu. by apply (so_underwriter _ _ (wf_shares _ Hw) p a).
Qed.

(** How one successful call at time [t] may change a claim. *)
Inductive claim_moves (t : Z) : Claim → Claim → Prop :=
| cm_same x : claim_moves t x x
| cm_vote x (b : bool) :
    cl_requires_voting x = true → t ≤ cl_voting_deadline x →
    claim_moves t x {| x with cl_votes_for := cl_votes_for x + (if b then 1 else 0);
      cl_votes_against := cl_votes_against x + (if b then 0 else 1); cl_total_voters := cl_total_voters x + 1 |}
| cm_deny x :
    cl_status x = Pending → cl_requires_voting x = true → cl_voting_deadline x ≤ t →
    cl_votes_for x ≤ cl_votes_against x → claim_moves t x {| x with cl_status := Denied |}
| cm_approve x :
    cl_status x = Pending → cl_voting_deadline x ≤ t →
    (cl_requires_voting x = true → cl_votes_against x < cl_votes_for x) →
    claim_moves t x {| x with cl_status := Approved |}
| cm_pay x : cl_status x = Approved → claim_moves t x {| x with cl_status := Paid |}.

(** The calls that leave the claims alone. *)
Definition claimless (c : Call) : Prop :=
  match c with CSubmitClaim _ _ _ _ | CVote _ _ _ | CProcessClaim _ | CPayClaim _ _ => False | _ => True end.

Lemma claimless_keeps c : claimless c → keeps ClaimAt (exec c).
Proof.
  intros Hc. destruct c; try done; cbn [exec]; unfold discard, initialize, create_pool, deposit_as_underwriter,
    withdraw_as_underwriter, purchase_coverage, cancel_policy, set_risk_parameters, set_tier_config,
    update_reserve_ratio, emergency_pause, emergency_unpause, reserve_after, estimate_total_liabilities, add_liability,
    calculate_premium, next_policy_id, init_default_risk_params, init_default_tier_configs, set_risk, set_tier,
    set_pool, set_policy, set_underwriter, count_pool_underwriters, assert_admin, Insurance.admin, Insurance.token, is_paused_fn,
    load_pool, load_underwriter, load_policy, load_claim, load_risk_params, load_tier_config, reserve_of, add_, sub_, mul_;
    frame.
Qed.

(** A claim written at [i] is how any claim may have moved. *)
Lemma claim_written t (cl : gmap Z Claim) i x x' j y :
  cl !! i = Some x → claim_moves t x x' → cl !! j = Some y → ∃ y', <[i := x']> cl !! j = Some y' ∧ claim_moves t y y'.
Proof.
  intros Hx Hm Hy. destruct (decide (i = j)) as [->|Hne].
  - exists x'. rewrite lookup_insert_eq. by simplify_eq.
  - exists y. rewrite lookup_insert_ne by done. split; [done|constructor].
Qed.

Lemma ballots_nonneg v i b : 0 ≤ ballots v i b.
Proof. apply msum_nonneg. intros k r _. case_bool_decide; lia. Qed.

Lemma votes_known st i x : wf st → ClaimAt st !! i = Some x → 0 ≤ cl_votes_for x ∧ 0 ≤ cl_votes_against x.
Proof.
  intros Hw Hx. destruct (vk_claim _ _ (wf_votes _ Hw) _ _ Hx) as (-> & -> & _). split; apply ballots_nonneg.
Qed.

Lemma claim_step w c e w' i x :
  wf (store w) → exec c e w = Ok (tt, w') → ClaimAt (store w) !! i = Some x →
  ∃ x', ClaimAt (store w') !! i = Some x' ∧ claim_moves (timestamp e) x x'.
Proof.
  intros Hw Hrun Hx. destruct c; try (match type of Hrun with exec ?c _ _ = _ =>
    rewrite (claimless_keeps c I _ _ _ _ Hrun); exists x; split; [done|constructor] end); cbn [exec] in Hrun;
    try apply discard_Ok in Hrun as [? Hrun].
  - destruct (submit_spec _ _ _ _ _ _ _ _ Hrun) 
      as (pol & c & ids & _ & _ & _ & _ & _ & Hk & _ & _ & _ & _ & _ & _ & _ & _ & _ & _ & Hst).
    exists x. rewrite Hst. cbn. split; [|constructor].
    rewrite lookup_insert_ne; [done|]. destruct (ck_claim _ _ _ _ (wf_claims _ Hw) _ _ Hx). lia.
  - destruct (vote_spec _ _ _ _ _ _ Hrun) as (y & y' & uw & _ & Hy & Hv & Ht & _ & _ & _ & -> & _ & Hst). rewrite Hst.
    eapply claim_written; [done|by constructor|done].
  - destruct (insurance_process_spec _ _ _ _ Hrun) as (y & Hy & Hp & Ht & _ & Hst). cbv zeta in Hst.
    destruct (votes_known _ _ _ Hw Hy).
    destruct (_ && _) eqn:Hwon in Hst; [destruct Hst as (k & ids & it & _ & _ & _ & _ & _ & Hst)|]; rewrite Hst;
      (eapply claim_written; [done| |done]).
    + apply cm_approve; [done..|]. intros Hrv. rewrite Hrv in Hwon. cbn in Hwon. zbool. lia.
    + assert (cl_requires_voting y = true) as Hrv by (by destruct (cl_requires_voting y)). rewrite Hrv in Hwon.
      apply cm_deny; try done. cbn in Hwon.
      apply andb_false_iff in Hwon as [?|?]; zbool; lia.
  - destruct (pay_spec _ _ _ _ _ _ Hrun) as (it & y & pl & pol & tk & r & _ & _ & _ & _ & Hy & Ha & _ & _ & _ & _ & _ & Hst).
    rewrite Hst. eapply claim_written; [done|by constructor|done].
Qed.

(** C28: a successful call leaves a claim as it is, adds one vote to
    it up to its deadline, denies or approves it while it is pending from its
    deadline on (when the claim is voted on, exactly by whether the
    approvals exceed the rejections), or pays it once approved; nothing else
    about it ever changes, and no claim disappears. *)
Theorem claim_lifecycle t w c e w' i x :
  reachable t w → exec c e w = Ok (tt, w') → ClaimAt (store w) !! i = Some x →
  ∃ x', ClaimAt (store w') !! i = Some x' ∧ claim_moves (timestamp e) x x'.
Proof. intros Hr. eapply claim_step, insurance_reachable_wf, Hr. Qed.

Definition paid (i : Z) (w : World State Event) : Prop :=
  ∃ x, ClaimAt (store w) !! i = Some x ∧ cl_status x = Paid.

(** A paid claim stays paid. *)
Lemma paid_forever i t w t' w' :
  inv w → paid i w → rtc (step exec call_ok self) (t, w) (t', w') → inv w' ∧ paid i w'.
Proof.
  intros Hi Hp Hr. apply (reach_inv_world exec call_ok self (λ _ w, inv w ∧ paid i w)) in Hr; [done| | |done].
  - intros t1 c e w1 w1' He _ Hok [Hi1 (x & Hx & Hs)] Hrun. split; [by eapply insurance_exec_inv|].
    destruct (claim_step _ _ _ _ _ _ (proj1 Hi1) Hrun Hx) as (x' & Hx' & Hm). exists x'. split; [done|].
    destruct Hm; cbn in *; congruence.
  - intros t1 t2 w1 l' _ Hl [[Hw Hc] Hp1]. split; [|done]. split; [done|]. intros tk Htk.
    specialize (Hc tk Htk). specialize (Hl tk). cbn in *. lia.
Qed.

(** A payment of the queue moves exactly the amount of an
    approved claim, positive and within the coverage limit of its policy, out of
    its pool to the holder of that policy, and marks the claim paid; after it no
    call of any later state pays that claim a second time, whatever queue entry
    it names. *)
Theorem claim_paid_once t w a k e v w' :
  reachable t w → wf_env self e → pay_claim a k e w = Ok (v, w') →
  ∃ i x pol pl pl', ClaimAt (store w) !! i = Some x ∧ cl_status x = Approved ∧ v = cl_amount x ∧
    Policy (store w) !! cl_policy_id x = Some pol ∧ cl_claimant x = cp_holder pol ∧ 0 < v ≤ cp_coverage_limit pol ∧
    Pool (store w) !! cl_pool_id x = Some pl ∧ Pool (store w') !! cl_pool_id x = Some pl' ∧
    ip_total_assets pl' = ip_total_assets pl - v ∧
    (∀ tk, Token (store w) = Some tk → cl_claimant x ≠ self →
       tok_balance (ledger w') tk (cl_claimant x) = tok_balance (ledger w) tk (cl_claimant x) + v) ∧
    ∀ t1 t2 w2 a2 k2 it e2 r, rtc (step exec call_ok self) (t1, w') (t2, w2) →
      PayoutQueueItemAt (store w2) !! k2 = Some it → qi_claim_id it = i → pay_claim a2 k2 e2 w2 ≠ Ok r.
Proof.
  intros Hr He Hrun. pose proof (insurance_reachable_inv _ _ Hr) as Hi. pose proof (proj1 Hi) as Hw.
  destruct (pay_spec _ _ _ _ _ _ Hrun)
    as (it & x & pl & pol & tk & r & _ & _ & Hit & _ & Hx & Hs & Hpl & Hpol & Htk & Hv & Htr & Hst).
  destruct (qk_item _ _ (wf_queue _ Hw) _ _ Hit) as (c & Hc & E1 & E2). rewrite Hx in Hc. injection Hc as <-.
  destruct (ck_claim _ _ _ _ (wf_claims _ Hw) _ _ Hx) as (_ & Hpos & pol' & Hpol' & E3 & E4 & Hlim).
  rewrite Hpol in Hpol'. injection Hpol' as <-. rewrite E1 in Hpl.
  eexists (qi_claim_id it), x, pol, pl, _. split_and!; try done; try congruence; try lia.
  - rewrite Hst, E1. cbn. by rewrite lookup_insert_eq.
  - done.
  - intros tk' Htk' Hne. simplify_eq. rewrite (wf_self _ _ He) in Htr. apply transfer_moved in Htr.
    rewrite Htr, !bool_decide_eq_true_2, bool_decide_eq_false_2 by naive_solver. lia.
  - intros t1 t2 w2 a2 k2 it2 e2 [v2 w3] Hsteps Hit2 Hq Hpay.
    assert (paid (qi_claim_id it) w') as Hp.
    { eexists. rewrite Hst. cbn. rewrite lookup_insert_eq. split; [reflexivity|done]. }
    destruct (paid_forever _ _ _ _ _ (pay_inv _ _ _ _ _ _ Hrun He Hi) Hp Hsteps) as [_ (x2 & Hx2 & Hs2)].
    destruct (pay_spec _ _ _ _ _ _ Hpay) as (it3 & x3 & pl3 & pol3 & tk3 & r3 & _ & _ & Hit3 & _ & Hx3 & Hs3 & _).
    congruence.
Qed.

Lemma quot_mul_le a b : 0 ≤ a → 0 < b → (a `quot` b) * b ≤ a.
Proof. intros Ha Hb. rewrite quot_div_nonneg by lia. pose proof (Z.mul_div_le a b Hb). lia. Qed.

(** A deposit into a pool with assets and shares, and a
    withdrawal from one, never lower the assets behind each share of the other
    underwriters; a withdrawal pays the pro-rata part, only of shares the caller
    owns, and while the pool covers policies it leaves the reserve on top of all
    claims that are pending or approved; and depositing and withdrawing the
    shares just minted returns at most the deposit. *)
Theorem underwriting_fair t w u p e x :
  reachable t w → Pool (store w) !! p = Some x → 0 ≤ ip_total_assets x →
  (∀ n w', deposit_as_underwriter u p n e w = Ok (tt, w') → 0 < ip_total_assets x → 0 < ip_total_shares x →
     ∃ x', Pool (store w') !! p = Some x' ∧
       ip_total_assets x * ip_total_shares x' ≤ ip_total_assets x' * ip_total_shares x ∧
       ∀ e2 v w2, wf_env self e → withdraw_as_underwriter u p (minted x n) e2 w' = Ok (v, w2) → v ≤ n) ∧
  (∀ n v w', withdraw_as_underwriter u p n e w = Ok (v, w') →
     ∃ x', Pool (store w') !! p = Some x' ∧
       ip_total_assets x * ip_total_shares x' ≤ ip_total_assets x' * ip_total_shares x ∧
       v * ip_total_shares x ≤ n * ip_total_assets x ∧
       n ≤ from_option uw_shares 0 (UnderwriterAt (store w) !! (p, u)) ∧
       (ip_active_policies x ≠ 0 → ip_reserve_amount x' ≤ ip_total_assets x' - liabilities (ClaimAt (store w)) p)).
Proof.
  intros Hr Hx HA. pose proof (insurance_reachable_inv _ _ Hr) as Hi. split.
  - intros n w' Hrun HA' HS. destruct (insurance_deposit_spec _ _ _ _ _ _ Hrun) as (y & tk & r & u' & _ & Hn & Hy & _ & _ & _ & Hst).
    rewrite Hx in Hy. injection Hy as <-. eexists. rewrite Hst. cbn. rewrite lookup_insert_eq. split; [done|]. cbn.
    pose proof (quot_mul_le (n * ip_total_shares x) (ip_total_assets x) ltac:(nia) HA') as Hq.
    assert (minted x n = (n * ip_total_shares x) `quot` ip_total_assets x) as Hm.
    { unfold minted. destruct (_ || _) eqn:Hz; zbool; [lia|done]. }
    rewrite <- Hm in Hq. split; [nia|]. intros e2 v w2 He Hwd. pose proof (insurance_deposit_inv _ _ _ _ _ _ Hrun He Hi) as Hi'.
    destruct (insurance_withdraw_spec _ _ _ _ _ _ _ Hwd (proj1 Hi')) as (z & tk' & r' & u2 & _ & Hmp & Hz & _ & _ & Hv & _).
    rewrite Hst in Hz. cbn in Hz. rewrite lookup_insert_eq in Hz. injection Hz as <-. cbn in Hv.
    rewrite Hv, quot_div_nonneg by nia. apply div_le_of_le_mul; nia.
  - intros n v w' Hrun. destruct (insurance_withdraw_spec _ _ _ _ _ _ _ Hrun (proj1 Hi))
      as (y & tk & r & u' & _ & Hn & Hy & _ & HS & Hv & Hle & _ & _ & Hres & _ & _ & Hst).
    rewrite Hx in Hy. injection Hy as <-. eexists. rewrite Hst. cbn. rewrite lookup_insert_eq. split; [done|]. cbn.
    pose proof (quot_mul_le (n * ip_total_assets x) (ip_total_shares x) ltac:(nia) HS) as Hq. rewrite <- Hv in Hq.
    split; [nia|]. split; [done|]. split; [done|]. done.
Qed.
End ops.

(** ** A run of the contract *)

Module InsuranceDemo.

Definition self := mkAddress "insurance".
Definition admin := mkAddress "admin".
Definition oracle := mkAddress "oracle".
Definition alice := mkAddress "alice".
Definition bob := mkAddress "bob".
Definition usd := mkAddress "usd".

Definition l0 : SimpleLedger := sl_of [(usd, alice, 1000000); (usd, bob, 100000)].
Definition w0 : World State Event := mkWorld deployed l0 [].
Definition e0 := env_at 10 self [admin].
Definition w1 : World State Event := world_of (exec (CInitialize admin usd oracle) e0 w0) w0.

(** A pool, an underwriter, a policy of 5000 and two claims on it. *)
Definition claimed : list (Z * list Address * Call) :=
  [(20, [admin], CCreatePool admin "p" SmartContractRisk 2000); (30, [alice], CDeposit alice "p" 100000);
   (40, [bob], CPurchase bob "p" Standard 5000);
   (50, [bob], CSubmitClaim bob 1 5000 "exploit"); (50, [bob], CSubmitClaim bob 1 5500 "exploit")].
Definition approved := claimed ++ [(300000, [], CProcessClaim 1); (300000, [], CProcessClaim 2)].
Definition w_claimed := run_script exec self claimed w1.
Definition w_approved := run_script exec self approved w1.

Lemma insurance_demo_started : started self e0 w1.
Proof.
  exists l0, [], admin, usd, oracle. split_and!.
  - intros tk. by apply sl_of_nonneg.
  - by apply env_at_wf.
  - unfold w1. apply run_ok_unit. vm_compute. reflexivity.
Qed.

Lemma insurance_demo_reach (cs : list (Z * list Address * Call)) :
  script_ok exec self 10 cs w1 = true → Forall (λ c, call_ok c.2) cs →
  reachable self (script_end 10 cs) (run_script exec self cs w1).
Proof.
  intros Hs Hok. exists e0, w1. split; [apply insurance_demo_started|]. by apply run_script_reach.
Qed.

Lemma claimed_reach : reachable self 50 w_claimed.
Proof. apply (insurance_demo_reach claimed); [vm_compute; reflexivity|]. repeat constructor; cbn; lia. Qed.
Lemma approved_reach : reachable self 300000 w_approved.
Proof. apply (insurance_demo_reach approved); [vm_compute; reflexivity|]. repeat constructor; cbn; lia. Qed.

Lemma insurance_custody_witness :
  pooled (Pool (store w_approved)) = 100025 ∧ 100025 ≤ tok_balance (ledger w_approved) usd self.
Proof.
  split; [vm_compute; reflexivity|]. destruct (insurance_custody self 300000 w_approved approved_reach) as [Hc _].
  specialize (Hc usd ltac:(vm_compute; reflexivity)).
  replace (pooled (Pool (store w_approved))) with 100025 in Hc by (vm_compute; reflexivity). exact Hc.
Defined.

Definition e_process := env_at 300000 self [].
Definition w_processed := world_of (exec (CProcessClaim 1) e_process w_claimed) w_claimed.

Lemma claim_lifecycle_witness :
  ∃ x x', ClaimAt (store w_claimed) !! 1 = Some x ∧ cl_status x = Pending ∧
    ClaimAt (store w_processed) !! 1 = Some x' ∧ cl_status x' = Approved ∧ claim_moves 300000 x x'.
Proof.
  destruct (ClaimAt (store w_claimed) !! 1) as [x|] eqn:Hx; [|exfalso; vm_compute in Hx; discriminate Hx].
  destruct (claim_lifecycle self 50 w_claimed (CProcessClaim 1) e_process w_processed 1 x claimed_reach)
    as (x' & Hx' & Hm); [unfold w_processed; apply run_ok_unit; vm_compute; reflexivity|exact Hx|].
  exists x, x'. split; [reflexivity|]. split.
  - assert (cl_status <$> ClaimAt (store w_claimed) !! 1 = Some Pending) as Hs by (vm_compute; reflexivity).
    rewrite Hx in Hs. clear -Hs. cbn in Hs. congruence.
  - split; [exact Hx'|]. split; [|exact Hm].
    assert (cl_status <$> ClaimAt (store w_processed) !! 1 = Some Approved) as Hs by (vm_compute; reflexivity).
    rewrite Hx' in Hs. clear -Hs. cbn in Hs. congruence.
Defined.

Definition e_pay := env_at 300010 self [admin].
Definition w_paid := world_of (pay_claim admin 1 e_pay w_approved) w_approved.

Lemma claim_paid_once_witness :
  ∃ x, ClaimAt (store w_approved) !! 1 = Some x ∧ cl_amount x = 4500 ∧
    pay_claim admin 1 e_pay w_approved = Ok (4500, w_paid) ∧ ∃ pol, 4500 ≤ cp_coverage_limit pol.
Proof.
  assert (pay_claim admin 1 e_pay w_approved = Ok (4500, w_paid)) as Hp.
  { unfold w_paid. apply (run_ok_val _ _ 0); vm_compute; reflexivity. }
  destruct (claim_paid_once self 300000 w_approved admin 1 e_pay 4500 w_paid approved_reach)
    as (i & x & pol & pl & pl' & Hx & _ & Hv & _ & _ & Hlim & _); [by apply env_at_wf|exact Hp|].
  destruct (ClaimAt (store w_approved) !! 1) as [y|] eqn:Hy; [|exfalso; vm_compute in Hy; discriminate Hy].
  exists y. split; [reflexivity|]. split; [|split; [exact Hp|exists pol; apply Hlim]].
  assert (cl_amount <$> ClaimAt (store w_approved) !! 1 = Some 4500) as Hs by (vm_compute; reflexivity).
  rewrite Hy in Hs. clear -Hs. cbn in Hs. congruence.
Defined.

(** Two claims on one policy are both paid, 9500 on a coverage of 5000. *)
Example coverage_paid_twice :
  value_of ((v1 ← pay_claim admin 1; v2 ← pay_claim admin 2; pol ← load_policy 1;
             mret (v1 + v2, cp_coverage_limit pol)) e_pay w_approved) (0, 0) = (9500, 5000).
Proof. vm_compute. reflexivity. Qed.

Definition e_out := env_at 300020 self [alice].
Definition w_out := world_of (withdraw_as_underwriter alice "p" 1000 e_out w_approved) w_approved.

Lemma underwriting_fair_witness :
  ∃ x x', Pool (store w_approved) !! ("p" : Symbol) = Some x ∧ Pool (store w_out) !! ("p" : Symbol) = Some x' ∧
    ip_reserve_amount x' ≤ ip_total_assets x' - 9500.
Proof.
  destruct (Pool (store w_approved) !! ("p" : Symbol)) as [x|] eqn:Hx; [|exfalso; vm_compute in Hx; discriminate Hx].
  assert (ip_total_assets <$> Pool (store w_approved) !! ("p" : Symbol) = Some 100025) as Ha by (vm_compute; reflexivity).
  assert (ip_active_policies <$> Pool (store w_approved) !! ("p" : Symbol) = Some 1) as Hp by (vm_compute; reflexivity).
  rewrite Hx in Ha, Hp. apply (inj Some) in Ha. apply (inj Some) in Hp.
  destruct (underwriting_fair self 300000 w_approved alice "p" e_out x approved_reach Hx) as [_ Hw]; [lia|].
  destruct (Hw 1000 1000 w_out) as (x' & Hx' & _ & _ & _ & Hres).
  { unfold w_out. apply (run_ok_val _ _ 0); vm_compute; reflexivity. }
  exists x, x'. split; [reflexivity|]. split; [exact Hx'|]. specialize (Hres ltac:(lia)).
  replace (liabilities _ _) with 9500 in Hres by (vm_compute; reflexivity). exact Hres.
Defined.

(** A pool with a reserve ratio of 100% pays a claim it cannot cover out of the
    assets of another pool. *)
Definition drained := [(20, [admin], CCreatePool admin "p" SmartContractRisk 2000);
  (20, [admin], CCreatePool admin "q" OracleFailure 10000); (30, [alice], CDeposit alice "p" 100000);
  (30, [alice], CDeposit alice "q" 1000); (40, [bob], CPurchase bob "q" Standard 50000);
  (50, [bob], CSubmitClaim bob 1 50000 "stale price"); (60, [alice], CVote alice 1 true);
  (700000, [], CProcessClaim 1); (700010, [admin], CPayClaim admin 1)].

Example pool_overdrawn :
  script_ok exec self 10 drained w1 = true ∧
  ip_total_assets <$> Pool (store (run_script exec self drained w1)) !! ("q" : Symbol) = Some (-19000).
Proof. split; vm_compute; reflexivity. Qed.
End InsuranceDemo.
