(* ===== verification/Workflow.v ===== *)
(** * src/lib: the workflow types

    The records of src/lib/src/types.rs that the execution hub stores and the
    marketplace builds. *)

From stdpp Require Import gmap strings list fin_maps.
From S2P Require Import Prelude Soroban.
Open Scope Z_scope.

(** Soroban's [Bytes]: a list of octets. *)
Definition Bytes := list Z.

Inductive WorkflowStatus := WPending | WRunning | WCompleted | WRolledBack | WFailed | WCancelled.
Inductive WorkflowStepStatus := SPending | SExecuting | SCompleted | SFailed | SRolledBack | SSkipped.

#[global] Instance WorkflowStatus_eq_dec : EqDecision WorkflowStatus.
Proof. solve_decision. Defined.
#[global] Instance WorkflowStepStatus_eq_dec : EqDecision WorkflowStepStatus.
Proof. solve_decision. Defined.

Record WorkflowStep := mkStep {
  ws_step_index : Z;
  ws_name : string;
  ws_target_contract : Address;
  ws_function_name : string;
  ws_encoded_args : Bytes;
  ws_required : bool;
  ws_max_retries : Z;
  ws_retry_count : Z;
  ws_status : WorkflowStepStatus;
  ws_result : option Bytes;
  ws_error : option string;
  ws_updated_at : Z;
}.

Record WorkflowCallback := mkCallback {
  cb_callback_contract : Address;
  cb_fired : bool;
}.

(** [None] and [Some] of the wrapper enum. *)
Definition OptionalWorkflowCallback := option WorkflowCallback.

Record WorkflowInstance := mkWorkflow {
  wi_workflow_id : Z;
  wi_initiator : Address;
  wi_name : string;
  wi_steps : list WorkflowStep;
  wi_status : WorkflowStatus;
  wi_current_step : Z;
  wi_completed_steps : Z;
  wi_created_at : Z;
  wi_updated_at : Z;
  wi_deadline : Z;
  wi_context_tag : option string;
  wi_callback : OptionalWorkflowCallback;
  wi_failure_reason : option string;
  wi_rolled_back_steps : Z;
}.

Record WorkflowSummary := mkSummary {
  su_workflow_id : Z;
  su_name : string;
  su_status : WorkflowStatus;
  su_created_at : Z;
  su_completed_at : option Z;
}.
