(* ===== verification/Hub.v ===== *)
(** * contracts/execution-hub

    src/contracts/execution-hub/src/lib.rs: rules, the nonce-protected actions of
    agents, and workflows whose steps are calls of other contracts. *)

From stdpp Require Import gmap strings list fin_maps.
From S2P Require Import Prelude Soroban Workflow.
Open Scope Z_scope.

Record ActionRecord := mkAction {
  ar_execution_id : Z;
  ar_action : string;
  ar_executor : Address;
  ar_timestamp : Z;
  ar_nonce : Z;
}.

Record RateLimitData := mkRate {
  rl_last_reset : Z;
  rl_count : Z;
}.

(** One field per storage key, named by its constant; [None] and absence are the
    unset key. *)
Record State := mkState {
  ADMIN_KEY : option Address;
  WORKFLOW_CTR_KEY : option Z;
  EXEC_CTR_KEY : option Z;
  WF_PREFIX : gmap Z WorkflowInstance;
  WF_HIST_PREFIX : gmap Address (list WorkflowSummary);
  RULE_PREFIX : gmap (Z * string) Bytes;
  NONCE_PREFIX : gmap Z Z;
  HIST_PREFIX : gmap Z (list ActionRecord);
  RATE_PREFIX : gmap Z RateLimitData;
}.

Inductive Event :=
| hub_init (admin : Address)
| rule_reg (agent_id : Z) (rule_name : string) (owner : Address) (t : Z)
| rule_rev (agent_id : Z) (rule_name : string) (owner : Address)
| act_exec (exec_id agent_id : Z) (action : string) (executor : Address) (t nonce : Z)
| wf_crt (workflow_id : Z) (initiator : Address) (name : string) (t : Z)
| wf_tmout (workflow_id t : Z)
| wf_stp_ok (workflow_id step_index : Z) (name : string) (t : Z)
| wf_done (workflow_id completed t : Z)
| wf_retry (workflow_id step_index t : Z)
| wf_fail (workflow_id step_index t : Z)
| wf_skip (workflow_id step_index t : Z)
| wf_cncl (workflow_id : Z) (caller : Address) (t : Z)
| wf_rb (workflow_id i t : Z)
| wf_cb (workflow_id status t : Z)
| adm_xfer (current_admin new_admin : Address).

Ltac mred v ::= eval cbn [store ledger log ADMIN_KEY WORKFLOW_CTR_KEY EXEC_CTR_KEY WF_PREFIX WF_HIST_PREFIX
  RULE_PREFIX NONCE_PREFIX HIST_PREFIX RATE_PREFIX ar_execution_id ar_action ar_executor ar_timestamp ar_nonce
  rl_last_reset rl_count ws_step_index ws_name ws_target_contract ws_function_name ws_encoded_args ws_required
  ws_max_retries ws_retry_count ws_status ws_result ws_error ws_updated_at cb_callback_contract cb_fired
  wi_workflow_id wi_initiator wi_name wi_steps wi_status wi_current_step wi_completed_steps wi_created_at
  wi_updated_at wi_deadline wi_context_tag wi_callback wi_failure_reason wi_rolled_back_steps su_workflow_id
  su_name su_status su_created_at su_completed_at fst snd] in v.

Definition MAX_STEPS : Z := 10.
Definition MAX_STRING_LENGTH : Z := 256.
Definition MAX_DATA_SIZE : Z := 65536.
Definition MAX_HISTORY_SIZE : Z := 1000.
Definition MAX_HISTORY_QUERY_LIMIT : Z := 500.
Definition DEFAULT_RATE_LIMIT_OPS : Z := 100.
Definition DEFAULT_RATE_LIMIT_WINDOW : Z := 60.
Definition DEFAULT_WORKFLOW_TIMEOUT : Z := 300.
Definition MAX_HISTORY_PER_INITIATOR : Z := 200.

(** The contracts a workflow names: what their [exec_step], [rollback] and
    [wf_done] do to the rest of the ledger, [None] when they trap. *)
Class WorkflowTargets `{TokenHost} := {
  target_exec_step : Address → Z → Bytes → Env → Ledger → option (() * Ledger);
  target_rollback : Address → Bytes → Env → Ledger → option (() * Ledger);
  target_wf_done : Address → Z → Z → Env → Ledger → option (() * Ledger);
}.

Section contract.
Context `{WorkflowTargets}.

Local Abbreviation C := (M State () Event).

(** ** Validation *)

Definition validate_agent_id (agent_id : Z) : C () :=
  panic_if (agent_id =? 0) "Invalid agent ID: must be non-zero".
Definition validate_string (s : string) : C () :=
  panic_if (Z.of_nat (String.length s) >? MAX_STRING_LENGTH) "String exceeds maximum length".
Definition validate_data (data : Bytes) : C () :=
  panic_if (Z.of_nat (length data) >? MAX_DATA_SIZE) "Data exceeds maximum size".

Definition assert_admin (caller : Address) : C () :=
  o ← gets ADMIN_KEY;
  admin ← expect o "Hub not initialized";
  panic_if (bool_decide (caller ≠ admin)) "Unauthorized: caller is not admin".

(** ** Identifiers and storage *)

Definition next_exec_id : C Z :=
  current ← gets (λ s, default 0 (EXEC_CTR_KEY s));
  next ← expect (checked_add U64 current 1) "Execution ID overflow";
  modify (λ s, {| s with EXEC_CTR_KEY := Some next |});;
  mret next.
Definition next_workflow_id : C Z :=
  current ← gets (λ s, default 0 (WORKFLOW_CTR_KEY s));
  next ← expect (checked_add U64 current 1) "Workflow ID overflow";
  modify (λ s, {| s with WORKFLOW_CTR_KEY := Some next |});;
  mret next.

Definition load_workflow (workflow_id : Z) : C WorkflowInstance :=
  o ← gets (λ s, WF_PREFIX s !! workflow_id);
  expect o "Workflow not found".
Definition save_workflow (wf : WorkflowInstance) : C () :=
  modify (λ s, {| s with WF_PREFIX := <[wi_workflow_id wf := wf]> (WF_PREFIX s) |}).

Definition append_history_summary (initiator : Address) (wf : WorkflowInstance) : C () :=
  history ← gets (λ s, default [] (WF_HIST_PREFIX s !! initiator));
  let history := if Z.of_nat (length history) >=? MAX_HISTORY_PER_INITIATOR then drop 1 history else history in
  let history := history ++ [mkSummary (wi_workflow_id wf) (wi_name wf) (wi_status wf) (wi_created_at wf) None] in
  modify (λ s, {| s with WF_HIST_PREFIX := <[initiator := history]> (WF_HIST_PREFIX s) |}).

(** The loop of [update_history_summary]: the first summary of the workflow. *)
Fixpoint close_summary (wf : WorkflowInstance) (t : Z) (history : list WorkflowSummary) : list WorkflowSummary :=
  match history with
  | [] => []
  | s :: rest =>
      if su_workflow_id s =? wi_workflow_id wf
      then {| s with su_status := wi_status wf; su_completed_at := Some t |} :: rest
      else s :: close_summary wf t rest
  end.
Definition update_history_summary (wf : WorkflowInstance) : C () :=
  history ← gets (λ s, default [] (WF_HIST_PREFIX s !! wi_initiator wf));
  t ← now;
  modify (λ s, {| s with WF_HIST_PREFIX := <[wi_initiator wf := close_summary wf t history]> (WF_HIST_PREFIX s) |}).

(** ** Calls of other contracts *)

Definition try_invoke_step (step : WorkflowStep) : C bool :=
  invoke (target_exec_step (ws_target_contract step) (ws_step_index step) (ws_encoded_args step));;
  mret true.

(** One round of the loop of [rollback_completed_steps]. *)
Definition rollback_one (t : Z) (wf : WorkflowInstance) (i : nat) : C WorkflowInstance :=
  step ← expect (wi_steps wf !! i) "Step index out of range";
  if bool_decide (ws_status step ≠ SCompleted) then mret wf
  else
    invoke (target_rollback (ws_target_contract step) (ws_encoded_args step));;
    let step := {| step with ws_status := SRolledBack; ws_updated_at := t |} in
    count ← expect (checked_add U32 (wi_rolled_back_steps wf) 1) "rolled_back_steps overflow";
    let wf := {| wf with wi_steps := <[i := step]> (wi_steps wf); wi_rolled_back_steps := count;
      wi_updated_at := t |} in
    publish (wf_rb (wi_workflow_id wf) (Z.of_nat i) t);;
    mret wf.
Definition rollback_completed_steps (wf : WorkflowInstance) : C WorkflowInstance :=
  t ← now;
  wf ← foldM (rollback_one t) wf (rev (seq 0 (length (wi_steps wf))));
  let any_step_failed := existsb (λ s, bool_decide (ws_status s = SFailed)) (wi_steps wf) in
  mret {| wf with wi_status := if any_step_failed then WFailed else WRolledBack; wi_updated_at := t |}.

Definition status_u32 (s : WorkflowStatus) : Z :=
  match s with WCompleted => 2 | WRolledBack => 3 | WFailed => 4 | WCancelled => 5 | _ => 0 end.
Definition maybe_fire_callback (wf : WorkflowInstance) : C WorkflowInstance :=
  match wi_callback wf with
  | Some c =>
      if cb_fired c then mret wf
      else
        let status := status_u32 (wi_status wf) in
        invoke (target_wf_done (cb_callback_contract c) (wi_workflow_id wf) status);;
        t ← now;
        publish (wf_cb (wi_workflow_id wf) status t);;
        mret {| wf with wi_callback := Some {| c with cb_fired := true |} |}
  | None => mret wf
  end.

(** ** Initialisation and rules *)

Definition initialize (admin : Address) : C () :=
  o ← gets ADMIN_KEY;
  panic_if (bool_decide (is_Some o)) "Already initialized";;
  require_auth admin;;
  modify (λ s, {| s with ADMIN_KEY := Some admin; WORKFLOW_CTR_KEY := Some 0; EXEC_CTR_KEY := Some 0 |});;
  publish (hub_init admin).

Definition register_rule (agent_id : Z) (owner : Address) (rule_name : string) (rule_data : Bytes) : C () :=
  require_auth owner;;
  validate_agent_id agent_id;;
  validate_string rule_name;;
  validate_data rule_data;;
  modify (λ s, {| s with RULE_PREFIX := <[(agent_id, rule_name) := rule_data]> (RULE_PREFIX s) |});;
  t ← now;
  publish (rule_reg agent_id rule_name owner t).

Definition revoke_rule (agent_id : Z) (owner : Address) (rule_name : string) : C () :=
  require_auth owner;;
  validate_agent_id agent_id;;
  modify (λ s, {| s with RULE_PREFIX := delete (agent_id, rule_name) (RULE_PREFIX s) |});;
  publish (rule_rev agent_id rule_name owner).

Definition get_rule (agent_id : Z) (rule_name : string) : C (option Bytes) :=
  validate_agent_id agent_id;;
  gets (λ s, RULE_PREFIX s !! (agent_id, rule_name)).

(** ** Actions *)

Definition get_nonce_inner (agent_id : Z) : C Z := gets (λ s, default 0 (NONCE_PREFIX s !! agent_id)).
Definition set_nonce_inner (agent_id nonce : Z) : C () :=
  modify (λ s, {| s with NONCE_PREFIX := <[agent_id := nonce]> (NONCE_PREFIX s) |}).

Definition append_action_record (agent_id exec_id : Z) (action : string) (executor : Address) (nonce : Z) : C () :=
  history ← gets (λ s, default [] (HIST_PREFIX s !! agent_id));
  panic_if (Z.of_nat (length history) >=? MAX_HISTORY_SIZE) "Action history limit exceeded";;
  t ← now;
  modify (λ s, {| s with HIST_PREFIX :=
    <[agent_id := history ++ [mkAction exec_id action executor t nonce]]> (HIST_PREFIX s) |}).

Definition check_rate_limit (agent_id max_ops window : Z) : C () :=
  t ← now;
  data ← gets (λ s, RATE_PREFIX s !! agent_id);
  let last_reset := from_option rl_last_reset t data in
  let count := from_option rl_count 0 data in
  let elapsed := saturating_sub U64 t last_reset in
  new ← (if elapsed >? window then mret (mkRate t 1)
         else if count <? max_ops then
           n ← plain_add U32 count 1;
           mret (mkRate last_reset n)
         else panic "Rate limit exceeded");
  modify (λ s, {| s with RATE_PREFIX := <[agent_id := new]> (RATE_PREFIX s) |}).

Definition execute_action (agent_id : Z) (executor : Address) (action : string) (parameters : Bytes)
    (nonce : Z) : C Z :=
  require_auth executor;;
  validate_agent_id agent_id;;
  validate_string action;;
  validate_data parameters;;
  stored_nonce ← get_nonce_inner agent_id;
  panic_if (nonce <=? stored_nonce) "Invalid nonce: replay protection triggered";;
  check_rate_limit agent_id DEFAULT_RATE_LIMIT_OPS DEFAULT_RATE_LIMIT_WINDOW;;
  exec_id ← next_exec_id;
  set_nonce_inner agent_id nonce;;
  append_action_record agent_id exec_id action executor nonce;;
  t ← now;
  publish (act_exec exec_id agent_id action executor t nonce);;
  mret exec_id.

Definition get_history (agent_id limit : Z) : C (list ActionRecord) :=
  validate_agent_id agent_id;;
  panic_if (limit >? MAX_HISTORY_QUERY_LIMIT) "Limit exceeds maximum allowed";;
  history ← gets (λ s, default [] (HIST_PREFIX s !! agent_id));
  let len := Z.of_nat (length history) in
  let start := if len >? limit then len - limit else 0 in
  mret (drop (Z.to_nat start) history).

Definition get_action_count (agent_id : Z) : C Z :=
  validate_agent_id agent_id;;
  gets (λ s, Z.of_nat (length (default [] (HIST_PREFIX s !! agent_id)))).

(** ** Workflows *)

Definition create_workflow (initiator : Address) (name : string) (steps : list WorkflowStep)
    (deadline_offset_seconds : option Z) (context_tag : option string)
    (callback_contract : option Address) : C Z :=
  require_auth initiator;;
  panic_if (bool_decide (steps = [])) "Workflow must have at least one step";;
  panic_if (Z.of_nat (length steps) >? MAX_STEPS) "Too many workflow steps";;
  validate_string name;;
  t ← now;
  let offset := default DEFAULT_WORKFLOW_TIMEOUT deadline_offset_seconds in
  deadline ← expect (checked_add U64 t offset) "Deadline overflow";
  let callback := (λ c, mkCallback c false) <$> callback_contract in
  workflow_id ← next_workflow_id;
  let workflow := mkWorkflow workflow_id initiator name steps WPending 0 0 t t deadline context_tag
    callback None 0 in
  save_workflow workflow;;
  append_history_summary initiator workflow;;
  publish (wf_crt workflow_id initiator name t);;
  mret workflow_id.

(** The branches of [execute_workflow_step]: the deadline is over, the call
    returned, it is retried, a required step has failed, an optional one is
    skipped. *)
Definition step_timeout (workflow_id t : Z) (wf : WorkflowInstance) : C WorkflowStepStatus :=
  let wf := {| wf with wi_status := WFailed; wi_failure_reason := Some "Deadline exceeded";
    wi_updated_at := t |} in
  save_workflow wf;;
  wf ← maybe_fire_callback wf;
  save_workflow wf;;
  publish (wf_tmout workflow_id t);;
  mret SFailed.

Definition step_completed (workflow_id step_index t : Z) (wf : WorkflowInstance) (step : WorkflowStep) :
    C WorkflowStepStatus :=
  let step := {| step with ws_status := SCompleted; ws_updated_at := t; ws_error := None |} in
  completed ← expect (checked_add U32 (wi_completed_steps wf) 1) "completed_steps overflow";
  current ← expect (checked_add U32 (wi_current_step wf) 1) "current_step overflow";
  let wf := {| wf with wi_steps := <[Z.to_nat step_index := step]> (wi_steps wf);
    wi_completed_steps := completed; wi_current_step := current; wi_updated_at := t |} in
  publish (wf_stp_ok workflow_id step_index (ws_name step) t);;
  (if wi_current_step wf >=? Z.of_nat (length (wi_steps wf)) then
     let wf := {| wf with wi_status := WCompleted |} in
     update_history_summary wf;;
     save_workflow wf;;
     wf ← maybe_fire_callback wf;
     save_workflow wf;;
     publish (wf_done workflow_id (wi_completed_steps wf) t)
   else save_workflow wf);;
  mret SCompleted.

Definition step_retried (workflow_id step_index t : Z) (wf : WorkflowInstance) (step : WorkflowStep) :
    C WorkflowStepStatus :=
  count ← expect (checked_add U32 (ws_retry_count step) 1) "retry_count overflow";
  let step := {| step with ws_retry_count := count; ws_status := SPending;
    ws_error := Some "Transient failure; will retry"; ws_updated_at := t |} in
  save_workflow {| wf with wi_steps := <[Z.to_nat step_index := step]> (wi_steps wf); wi_updated_at := t |};;
  publish (wf_retry workflow_id step_index t);;
  mret SPending.

Definition step_failed (workflow_id step_index t : Z) (wf : WorkflowInstance) (step : WorkflowStep) :
    C WorkflowStepStatus :=
  let step := {| step with ws_status := SFailed; ws_error := Some "Step failed after all retries";
    ws_updated_at := t |} in
  let wf := {| wf with wi_steps := <[Z.to_nat step_index := step]> (wi_steps wf);
    wi_failure_reason := Some "Required step failed"; wi_updated_at := t |} in
  save_workflow wf;;
  wf ← rollback_completed_steps wf;
  update_history_summary wf;;
  save_workflow wf;;
  wf ← maybe_fire_callback wf;
  save_workflow wf;;
  publish (wf_fail workflow_id step_index t);;
  mret SFailed.

Definition step_skipped (workflow_id step_index t : Z) (wf : WorkflowInstance) (step : WorkflowStep) :
    C WorkflowStepStatus :=
  let step := {| step with ws_status := SSkipped; ws_error := Some "Optional step failed; skipped";
    ws_updated_at := t |} in
  current ← expect (checked_add U32 (wi_current_step wf) 1) "current_step overflow";
  save_workflow {| wf with wi_steps := <[Z.to_nat step_index := step]> (wi_steps wf);
    wi_current_step := current; wi_updated_at := t |};;
  publish (wf_skip workflow_id step_index t);;
  mret SSkipped.

Definition execute_workflow_step (workflow_id : Z) : C WorkflowStepStatus :=
  wf ← load_workflow workflow_id;
  panic_if (bool_decide (wi_status wf ≠ WPending) && bool_decide (wi_status wf ≠ WRunning))
    "Workflow is not in an executable state";;
  t ← now;
  if t >? wi_deadline wf then step_timeout workflow_id t wf
  else
    let wf := {| wf with wi_status := WRunning |} in
    let step_index := wi_current_step wf in
    panic_if (step_index >=? Z.of_nat (length (wi_steps wf))) "All steps already executed";;
    step ← expect (wi_steps wf !! Z.to_nat step_index) "Step not found";
    let step := {| step with ws_status := SExecuting; ws_updated_at := t |} in
    let wf := {| wf with wi_steps := <[Z.to_nat step_index := step]> (wi_steps wf) |} in
    save_workflow wf;;
    call_ok ← try_invoke_step step;
    if (call_ok : bool) then step_completed workflow_id step_index t wf step
    else if ws_retry_count step <? ws_max_retries step then step_retried workflow_id step_index t wf step
    else if ws_required step then step_failed workflow_id step_index t wf step
    else step_skipped workflow_id step_index t wf step.

Definition is_terminal (s : WorkflowStatus) : bool :=
  match s with WCompleted | WRolledBack | WFailed | WCancelled => true | _ => false end.

Definition cancel_workflow (workflow_id : Z) (caller : Address) : C () :=
  require_auth caller;;
  wf ← load_workflow workflow_id;
  o ← gets ADMIN_KEY;
  admin ← expect o "Hub not initialized";
  panic_if (bool_decide (caller ≠ wi_initiator wf) && bool_decide (caller ≠ admin))
    "Unauthorized: only initiator or admin can cancel";;
  panic_if (is_terminal (wi_status wf)) "Workflow already terminal";;
  t ← now;
  let wf := {| wf with wi_failure_reason := Some "Cancelled by caller"; wi_updated_at := t |} in
  wf ← rollback_completed_steps wf;
  let wf := {| wf with wi_status := WCancelled |} in
  update_history_summary wf;;
  save_workflow wf;;
  wf ← maybe_fire_callback wf;
  save_workflow wf;;
  publish (wf_cncl workflow_id caller t).

(** ** Queries and administration *)

Definition get_workflow (workflow_id : Z) : C WorkflowInstance := load_workflow workflow_id.
Definition get_workflow_status (workflow_id : Z) : C WorkflowStatus :=
  wf ← load_workflow workflow_id;
  mret (wi_status wf).
Definition get_workflow_history (initiator : Address) : C (list WorkflowSummary) :=
  gets (λ s, default [] (WF_HIST_PREFIX s !! initiator)).
Definition get_admin : C Address := o ← gets ADMIN_KEY; expect o "Hub not initialized".

Definition transfer_admin (current_admin new_admin : Address) : C () :=
  require_auth current_admin;;
  assert_admin current_admin;;
  modify (λ s, {| s with ADMIN_KEY := Some new_admin |});;
  publish (adm_xfer current_admin new_admin).

Definition get_execution_counter : C Z := gets (λ s, default 0 (EXEC_CTR_KEY s)).
Definition get_workflow_counter : C Z := gets (λ s, default 0 (WORKFLOW_CTR_KEY s)).
End contract.

(** ** The contract as a transaction system *)

Inductive Call :=
| CInitialize (admin : Address)
| CRegisterRule (agent_id : Z) (owner : Address) (rule_name : string) (rule_data : Bytes)
| CRevokeRule (agent_id : Z) (owner : Address) (rule_name : string)
| CExecuteAction (agent_id : Z) (executor : Address) (action : string) (parameters : Bytes) (nonce : Z)
| CCreateWorkflow (initiator : Address) (name : string) (steps : list WorkflowStep) (offset : option Z)
    (tag : option string) (callback : option Address)
| CExecuteStep (workflow_id : Z)
| CCancelWorkflow (workflow_id : Z) (caller : Address)
| CTransferAdmin (current_admin new_admin : Address).

Definition exec `{WorkflowTargets} (c : Call) : M State () Event () :=
  match c with
  | CInitialize a => initialize a
  | CRegisterRule i o n d => register_rule i o n d
  | CRevokeRule i o n => revoke_rule i o n
  | CExecuteAction i x a p n => discard (execute_action i x a p n)
  | CCreateWorkflow i n st o tg cb => discard (create_workflow i n st o tg cb)
  | CExecuteStep i => discard (execute_workflow_step i)
  | CCancelWorkflow i c => cancel_workflow i c
  | CTransferAdmin a b => transfer_admin a b
  end.

(** The unsigned arguments of a call are non-negative, by their Rust types. *)
Definition call_ok (c : Call) : Prop :=
  match c with
  | CExecuteAction i _ _ _ n => 0 ≤ i ∧ 0 ≤ n
  | CCreateWorkflow _ _ _ o _ _ => 0 ≤ default 0 o
  | _ => True
  end.

Definition deployed : State := mkState None None None ∅ ∅ ∅ ∅ ∅ ∅.
