(* ===== verification/HubProofs.v ===== *)
(** * contracts/execution-hub: invariants and theorems

    Workflows run their steps in order and end once, cancelling undoes the
    completed steps in reverse order, and an action needs a fresh nonce. *)

From stdpp Require Import gmap strings list fin_maps.
From S2P Require Import Prelude Soroban TokenModel Workflow Hub.
Open Scope Z_scope.

(** ** Well-formedness *)

(** A callback has been fired exactly when the workflow has ended; the steps
    before the current one are completed as long as nothing was rolled back. *)
Record workflow_ok (n i : Z) (wf : WorkflowInstance) : Prop := {
  wo_id : wi_workflow_id wf = i;
  wo_range : 1 ≤ i ≤ n;
  wo_steps : (0 < length (wi_steps wf) ≤ 10)%nat;
  wo_current : 0 ≤ wi_current_step wf;
  wo_completed : wi_completed_steps wf = wi_current_step wf;
  wo_status :
    match wi_status wf with
    | WPending => wi_current_step wf = 0
    | WCompleted => wi_current_step wf = Z.of_nat (length (wi_steps wf))
    | _ => wi_current_step wf < Z.of_nat (length (wi_steps wf))
    end;
  wo_done j s : wi_steps wf !! j = Some s → Z.of_nat j < wi_current_step wf →
    is_terminal (wi_status wf) = false ∨ wi_status wf = WCompleted → ws_status s = SCompleted;
  wo_callback c : wi_callback wf = Some c → cb_fired c = is_terminal (wi_status wf);
}.

(** The actions of an agent: the nonces grow, the last one is stored, and the
    identifiers grow. *)
Record actions_ok (n : Z) (nonce : Z) (h : list ActionRecord) : Prop := {
  ao_nonces i j a b : (i < j)%nat → h !! i = Some a → h !! j = Some b → ar_nonce a < ar_nonce b;
  ao_ids i j a b : (i < j)%nat → h !! i = Some a → h !! j = Some b → ar_execution_id a < ar_execution_id b;
  ao_last i a : h !! i = Some a → ar_nonce a ≤ nonce ∧ 1 ≤ ar_execution_id a ≤ n;
  ao_size : (length h ≤ 1000)%nat;
}.

Record wf (st : State) : Prop := {
  wf_counters : 0 ≤ default 0 (WORKFLOW_CTR_KEY st) ∧ 0 ≤ default 0 (EXEC_CTR_KEY st);
  wf_workflows i x : WF_PREFIX st !! i = Some x → workflow_ok (default 0 (WORKFLOW_CTR_KEY st)) i x;
  wf_actions a : actions_ok (default 0 (EXEC_CTR_KEY st)) (default 0 (NONCE_PREFIX st !! a)) (default [] (HIST_PREFIX st !! a));
}.

Lemma workflow_ok_le n n' i x : workflow_ok n i x → n ≤ n' → workflow_ok n' i x.
Proof. intros [] Hn. split; try done. lia. Qed.

Lemma actions_ok_le n n' k h : actions_ok n k h → n ≤ n' → actions_ok n' k h.
Proof. intros [H1 H2 H3 H4] Hn. split; try done. intros i a Ha. destruct (H3 i a Ha). lia. Qed.

Lemma actions_ok_snoc n k h x :
  actions_ok n k h → ar_execution_id x = n + 1 → 0 ≤ n → k < ar_nonce x → (length h < 1000)%nat →
  actions_ok (n + 1) (ar_nonce x) (h ++ [x]).
Proof.
  intros [H1 H2 H3 H4] Hid Hn Hk Hlen.
  assert (∀ i a, (h ++ [x]) !! i = Some a → h !! i = Some a ∨ i = length h ∧ a = x) as Hsnoc.
  { intros i a [?|[? Ha]]%lookup_app_Some; [by left|]. right. apply list_lookup_singleton_Some in Ha as [? ->].
    split; [lia|done]. }
  split.
  - intros i j a b Hlt Ha Hb. apply Hsnoc in Ha as [Ha|[-> ->]], Hb as [Hb|[-> ->]]; try lia; [by eapply H1| |].
    + destruct (H3 _ _ Ha). lia.
    + apply lookup_lt_Some in Hb. lia.
  - intros i j a b Hlt Ha Hb. apply Hsnoc in Ha as [Ha|[-> ->]], Hb as [Hb|[-> ->]]; try lia; [by eapply H2| |].
    + destruct (H3 _ _ Ha). lia.
    + apply lookup_lt_Some in Hb. lia.
  - intros i a [Ha|[-> ->]]%Hsnoc; [|lia]. destruct (H3 _ _ Ha). lia.
  - rewrite length_app. cbn. lia.
Qed.

(** ** What the operations do *)

(** The callback of a workflow, fired. *)
Definition fired (x : WorkflowInstance) : WorkflowInstance :=
  {| x with wi_callback := (λ c, {| c with cb_fired := true |}) <$> wi_callback x |}.

(** A step that is undone. *)
Definition undone (t : Z) (s : WorkflowStep) : WorkflowStep :=
  if bool_decide (ws_status s = SCompleted) then {| s with ws_status := SRolledBack; ws_updated_at := t |} else s.

Section ops.
Context `{WorkflowTargets} (self : Address).
Implicit Types (w : World State Event) (e : Env).

(** The call of [wf_done] that a workflow with status [s] still owes. *)
Definition notified (e : Env) (x : WorkflowInstance) (l l' : Ledger) : Prop :=
  match wi_callback x with
  | Some c => if cb_fired c then l' = l
      else target_wf_done (cb_callback_contract c) (wi_workflow_id x) (status_u32 (wi_status x)) e l = Some (tt, l')
  | None => l' = l
  end.

(** The rollbacks of a list of steps, in order. *)
Fixpoint undo (e : Env) (ss : list WorkflowStep) (l : Ledger) : option Ledger :=
  match ss with
  | [] => Some l
  | s :: r => match target_rollback (ws_target_contract s) (ws_encoded_args s) e l with
              | Some (_, l') => undo e r l' | None => None end
  end.

Lemma fire_spec x e w x' w' :
  maybe_fire_callback x e w = Ok (x', w') → store w' = store w ∧ x' = fired x ∧ notified e x (ledger w) (ledger w').
Proof.
  intros Hr. unfold maybe_fire_callback in Hr. unfold fired, notified.
  destruct (wi_callback x) as [[a []]|] eqn:Hc; cbn [cb_fired] in Hr; minv Hr; cbn; split_and!; try done.
  - by destruct x; cbn in *; subst.
  - by destruct x; cbn in *; subst.
Qed.

Lemma undone_id t s : ws_status s ≠ SCompleted → undone t s = s.
Proof. intros Hs. unfold undone. by rewrite bool_decide_eq_false_2. Qed.

Definition completed_steps (ss : list WorkflowStep) : list WorkflowStep :=
  filter (λ s, ws_status s = SCompleted) ss.

Lemma rollback_loop t n x e w x' w' :
  foldM (rollback_one t) x (rev (seq 0 n)) e w = Ok (x', w') → (n ≤ length (wi_steps x))%nat →
  store w' = store w ∧ undo e (rev (completed_steps (take n (wi_steps x)))) (ledger w) = Some (ledger w') ∧
  ∃ k u, x' = {| x with wi_steps := (undone t <$> take n (wi_steps x)) ++ drop n (wi_steps x);
    wi_rolled_back_steps := k; wi_updated_at := u |}.
Proof.
  revert x w. induction n as [|n IH]; intros x w Hr Hn.
  - cbn in Hr. minv Hr. split; [done|]. split; [done|]. exists (wi_rolled_back_steps x), (wi_updated_at x).
    cbn. by destruct x.
  - rewrite seq_S, rev_app_distr in Hr. cbn [rev app foldM] in Hr.
    apply bind_Ok in Hr as (y & w1 & Hy & Hr). unfold rollback_one in Hy. cbn [Nat.add] in Hy.
    apply bind_Ok in Hy as (s & w2 & Hs & Hy). apply expect_Ok in Hs as [Hs ->].
    rewrite (take_S_r _ _ _ Hs). unfold completed_steps. rewrite filter_app, rev_app_distr, fmap_app, <- app_assoc.
    cbn [fmap list_fmap app]. rewrite filter_cons, filter_nil. unfold undone at 2.
    destruct (decide (ws_status s = SCompleted)) as [Hd|Hd].
    + rewrite bool_decide_eq_false_2 in Hy by tauto. rewrite bool_decide_eq_true_2 by done. minv Hy.
      apply IH in Hr; [|cbn; rewrite length_insert; lia]. cbn in Hr. destruct Hr as (Hst & Hu & k & u & ->).
      split; [done|]. rewrite take_insert_ge in * by lia. split.
      * cbn [rev app undo]. match goal with Ht : target_rollback _ _ _ _ = _ |- _ => rewrite Ht end. exact Hu.
      * exists k, u. do 2 f_equal. rewrite drop_insert_ge by lia. rewrite Nat.sub_diag, (drop_S _ _ _ Hs). done.
    + rewrite bool_decide_eq_true_2 in Hy by done. rewrite bool_decide_eq_false_2 by done. minv Hy.
      apply IH in Hr; [|lia]. destruct Hr as (Hst & Hu & k & u & ->). split; [done|]. split; [done|].
      exists k, u. do 2 f_equal. by rewrite (drop_S _ _ _ Hs).
Qed.

(** A workflow whose completed steps are undone. *)
Lemma rollback_spec x e w x' w' :
  rollback_completed_steps x e w = Ok (x', w') →
  store w' = store w ∧ undo e (rev (completed_steps (wi_steps x))) (ledger w) = Some (ledger w') ∧
  ∃ k s, is_terminal s = true ∧ x' = {| x with wi_steps := undone (timestamp e) <$> wi_steps x; wi_rolled_back_steps := k;
    wi_status := s; wi_updated_at := timestamp e |}.
Proof.
  intros Hr. unfold rollback_completed_steps in Hr. apply bind_Ok in Hr as (t & w1 & Ht & Hr). minv Ht.
  apply bind_Ok in Hr as (y & w1 & Hy & Hr). apply rollback_loop in Hy; [|done]. destruct Hy as (Hst & Hu & k & u & ->).
  rewrite firstn_all in Hu. minv Hr. split; [done|]. split; [done|]. exists k. eexists.
  rewrite firstn_all, drop_all, app_nil_r. split; [|reflexivity]. by destruct (existsb _ _).
Qed.

Lemma load_workflow_spec i e w x w' : load_workflow i e w = Ok (x, w') → WF_PREFIX (store w) !! i = Some x ∧ w' = w.
Proof. intros Hr. unfold load_workflow in Hr. by minv Hr. Qed.

(** A step that ran: it is completed, and the workflow moves to the next one. *)
Definition is_last (x : WorkflowInstance) : bool := wi_current_step x + 1 >=? Z.of_nat (length (wi_steps x)).
Definition advanced (t : Z) (x : WorkflowInstance) (s : WorkflowStep) : WorkflowInstance :=
  {| x with
    wi_steps := <[Z.to_nat (wi_current_step x) := {| s with ws_status := SCompleted; ws_error := None; ws_updated_at := t |}]>
      (wi_steps x);
    wi_status := if is_last x then WCompleted else WRunning;
    wi_completed_steps := wi_completed_steps x + 1; wi_current_step := wi_current_step x + 1; wi_updated_at := t |}.

Definition expired (t : Z) (x : WorkflowInstance) : WorkflowInstance :=
  {| x with wi_status := WFailed; wi_failure_reason := Some "Deadline exceeded"; wi_updated_at := t |}.

Lemma timeout_spec i t x e w r w' :
  step_timeout i t x e w = Ok (r, w') →
  r = SFailed ∧ notified e (expired t x) (ledger w) (ledger w') ∧
  store w' = {| (store w) with WF_PREFIX := <[wi_workflow_id x := fired (expired t x)]> (WF_PREFIX (store w)) |}.
Proof.
  intros Hr. unfold step_timeout in Hr. cbv zeta in Hr. unfold save_workflow in Hr.
  apply bind_Ok in Hr as ([] & w1 & Hs & Hr). minv Hs. apply bind_Ok in Hr as (y & w1 & Hy & Hr).
  apply fire_spec in Hy as (Hst & -> & Hn). cbn in Hst, Hn. minv Hr. rewrite Hst. cbn. rewrite insert_insert_eq.
  split_and!; done.
Qed.

Lemma completed_spec i t x s e w r w' :
  step_completed i (wi_current_step x) t {| x with wi_status := WRunning |} s e w = Ok (r, w') →
  r = SCompleted ∧ ∃ h,
    store w' = {| (store w) with
      WF_PREFIX := <[wi_workflow_id x := if is_last x then fired (advanced t x s) else advanced t x s]> (WF_PREFIX (store w));
      WF_HIST_PREFIX := h |} ∧
    (if is_last x then notified e (advanced t x s) (ledger w) (ledger w') else ledger w' = ledger w).
Proof.
  intros Hr. unfold step_completed, update_history_summary, save_workflow in Hr.
  apply bind_Ok in Hr as (n & w1 & Hn & Hr). minv Hn. apply bind_Ok in Hr as (c & w1 & Hc & Hr). minv Hc.
  inv_checked. cbv zeta in Hr. cbn [wi_current_step wi_steps] in Hr. rewrite length_insert in Hr. unfold advanced.
  fold (is_last x) in Hr. destruct (is_last x) eqn:Hl.
  - apply bind_Ok in Hr as ([] & w1 & Hp & Hr). minv Hp. apply bind_Ok in Hr as ([] & w1 & Hb & Hr). minv Hr.
    split; [done|]. apply bind_Ok in Hb as ([] & w2 & Hu & Hb). minv Hu. apply bind_Ok in Hb as ([] & w2 & Hs & Hb). minv Hs.
    apply bind_Ok in Hb as (y & w2 & Hy & Hb). apply fire_spec in Hy as (Hst & -> & Hno). cbn in Hst, Hno. minv Hb.
    rewrite Hst. cbn. rewrite insert_insert_eq. eexists. split; [reflexivity|done].
  - minv Hr. split; [done|]. by exists (WF_HIST_PREFIX (store w)).
Qed.

(** Marking the current step as executing leaves no trace once it has run. *)
Lemma executing_last x s1 :
  is_last {| x with wi_steps := <[Z.to_nat (wi_current_step x) := s1]> (wi_steps x) |} = is_last x.
Proof. unfold is_last. cbn. by rewrite length_insert. Qed.

Lemma executing_advanced t x s s1 :
  (∀ st er u, {| s1 with ws_status := st; ws_error := er; ws_updated_at := u |} =
     {| s with ws_status := st; ws_error := er; ws_updated_at := u |}) →
  advanced t {| x with wi_steps := <[Z.to_nat (wi_current_step x) := s1]> (wi_steps x) |} s1 = advanced t x s.
Proof.
  intros Hs. unfold advanced. rewrite executing_last. cbn. by rewrite list_insert_insert_eq, Hs.
Qed.

(** A successful [execute_workflow_step]: the deadline is over, or exactly the
    current step ran. *)
Lemma hub_execute_spec i e w r w' :
  execute_workflow_step i e w = Ok (r, w') → (∀ i x, WF_PREFIX (store w) !! i = Some x → wi_workflow_id x = i) →
  ∃ x, WF_PREFIX (store w) !! i = Some x ∧ is_terminal (wi_status x) = false ∧
    let t := timestamp e in
    (wi_deadline x < t ∧ r = SFailed ∧ notified e (expired t x) (ledger w) (ledger w') ∧
       store w' = {| (store w) with WF_PREFIX := <[i := fired (expired t x)]> (WF_PREFIX (store w)) |}) ∨
    (t ≤ wi_deadline x ∧ r = SCompleted ∧ wi_current_step x < Z.of_nat (length (wi_steps x)) ∧
     ∃ s l1 h, wi_steps x !! Z.to_nat (wi_current_step x) = Some s ∧
       target_exec_step (ws_target_contract s) (ws_step_index s) (ws_encoded_args s) e (ledger w) = Some (tt, l1) ∧
       store w' = {| (store w) with
         WF_PREFIX := <[i := if is_last x then fired (advanced t x s) else advanced t x s]> (WF_PREFIX (store w));
         WF_HIST_PREFIX := h |} ∧
       (if is_last x then notified e (advanced t x s) l1 (ledger w') else ledger w' = l1)).
Proof.
  intros Hr Hids. unfold execute_workflow_step in Hr.
  apply bind_Ok in Hr as (x & w1 & [Hx ->]%load_workflow_spec & Hr). pose proof (Hids _ _ Hx) as <-.
  apply bind_Ok in Hr as ([] & w1 & Hst & Hr). minv Hst. apply bind_Ok in Hr as (t & w1 & Ht & Hr). minv Ht.
  exists x. split; [done|]. split; [destruct (wi_status x); done|]. cbv zeta. destruct (_ >? _) eqn:Hd; zbool.
  - left. apply timeout_spec in Hr as (-> & Hn & Hs). split_and!; done || lia.
  - right. split; [done|]. cbv zeta in Hr. cbn [wi_current_step wi_steps] in Hr.
    apply bind_Ok in Hr as ([] & w1 & Hlt & Hr). minv Hlt. apply bind_Ok in Hr as (s & w1 & Hs & Hr). minv Hs.
    unfold save_workflow at 1 in Hr. apply bind_Ok in Hr as ([] & w1 & Hsv & Hr). minv Hsv. cbn [wi_workflow_id] in Hr.
    unfold try_invoke_step in Hr. apply bind_Ok in Hr as (b & w1 & Hb & Hr). minv Hb. zbool.
    set (s1 := {| s with ws_status := SExecuting; ws_updated_at := timestamp e |}) in Hr.
    apply (completed_spec _ _ {| x with wi_steps := <[Z.to_nat (wi_current_step x) := s1]> (wi_steps x) |}) in Hr
      as (-> & h & Hst' & Hno).
    rewrite (executing_last x s1) in Hst', Hno. rewrite (executing_advanced (timestamp e) x s s1) in Hst', Hno by done.
    cbn in Hst', Hno. rewrite insert_insert_eq in Hst'. split; [done|]. split; [lia|].
    exists s, l, h. split_and!; done.
Qed.

(** A cancelled workflow, its completed steps undone. *)
Definition withdrawn (t k : Z) (x : WorkflowInstance) : WorkflowInstance :=
  {| x with wi_steps := undone t <$> wi_steps x; wi_rolled_back_steps := k; wi_status := WCancelled;
    wi_failure_reason := Some "Cancelled by caller"; wi_updated_at := t |}.

Lemma cancel_workflow_spec i c e w w' :
  cancel_workflow i c e w = Ok (tt, w') → (∀ i x, WF_PREFIX (store w) !! i = Some x → wi_workflow_id x = i) →
  ∃ x k l1 h, authorized e c = true ∧ WF_PREFIX (store w) !! i = Some x ∧ is_terminal (wi_status x) = false ∧
    (c = wi_initiator x ∨ ADMIN_KEY (store w) = Some c) ∧
    undo e (rev (completed_steps (wi_steps x))) (ledger w) = Some l1 ∧
    notified e (withdrawn (timestamp e) k x) l1 (ledger w') ∧
    store w' = {| (store w) with
      WF_PREFIX := <[i := fired (withdrawn (timestamp e) k x)]> (WF_PREFIX (store w)); WF_HIST_PREFIX := h |}.
Proof.
  intros Hr Hids. unfold cancel_workflow in Hr. apply bind_Ok in Hr as ([] & w1 & Ha & Hr). minv Ha.
  apply bind_Ok in Hr as (x & w1 & [Hx ->]%load_workflow_spec & Hr). pose proof (Hids _ _ Hx) as <-.
  apply bind_Ok in Hr as (o & w1 & Ho & Hr). minv Ho. apply bind_Ok in Hr as (ad & w1 & Had & Hr). minv Had.
  apply bind_Ok in Hr as ([] & w1 & Hun & Hr). minv Hun. apply bind_Ok in Hr as ([] & w1 & Hte & Hr). minv Hte.
  apply bind_Ok in Hr as (t & w1 & Ht & Hr). minv Ht. cbv zeta in Hr.
  apply bind_Ok in Hr as (y & w1 & Hy & Hr). apply rollback_spec in Hy as (Hst & Hu & k & s & _ & ->). cbn in Hu.
  unfold update_history_summary, save_workflow in Hr. apply bind_Ok in Hr as ([] & w2 & Hup & Hr). minv Hup.
  apply bind_Ok in Hr as ([] & w2 & Hs & Hr). minv Hs. apply bind_Ok in Hr as (y & w2 & Hy & Hr).
  apply fire_spec in Hy as (Hst2 & -> & Hno). cbn in Hst2, Hno. minv Hr.
  exists x, k, (ledger w1). eexists. split_and!; try done.
  - destruct (decide (c = wi_initiator x)); [by left|right]. apply andb_false_iff in Hun as [Hun|Hun]; zbool; naive_solver.
  - rewrite Hst2. cbn. rewrite insert_insert_eq, Hst. reflexivity.
Qed.

Lemma create_spec a n ss o tg cb e w i w' :
  create_workflow a n ss o tg cb e w = Ok (i, w') →
  ∃ x h, authorized e a = true ∧ i = default 0 (WORKFLOW_CTR_KEY (store w)) + 1 ∧ (0 < length ss ≤ 10)%nat ∧
    x = mkWorkflow i a n ss WPending 0 0 (timestamp e) (timestamp e)
      (timestamp e + default DEFAULT_WORKFLOW_TIMEOUT o) tg ((λ c, mkCallback c false) <$> cb) None 0 ∧
    ledger w' = ledger w ∧
    store w' = {| (store w) with WF_PREFIX := <[i := x]> (WF_PREFIX (store w)); WORKFLOW_CTR_KEY := Some i;
      WF_HIST_PREFIX := h |}.
Proof.
  intros Hr. unfold create_workflow, validate_string, next_workflow_id, save_workflow, append_history_summary in Hr.
  minv Hr. inv_checked. zbool. eexists _, _. split_and!; try reflexivity; try done.
  - destruct ss; [done|cbn; lia].
  - unfold MAX_STEPS in *. lia.
Qed.

Lemma action_spec a x n p k e w i w' :
  execute_action a x n p k e w = Ok (i, w') →
  ∃ r, authorized e x = true ∧ a ≠ 0 ∧ default 0 (NONCE_PREFIX (store w) !! a) < k ∧
    i = default 0 (EXEC_CTR_KEY (store w)) + 1 ∧ (length (default [] (HIST_PREFIX (store w) !! a)) < 1000)%nat ∧
    ledger w' = ledger w ∧
    store w' = {| (store w) with RATE_PREFIX := r; EXEC_CTR_KEY := Some i; NONCE_PREFIX := <[a := k]> (NONCE_PREFIX (store w));
      HIST_PREFIX := <[a := default [] (HIST_PREFIX (store w) !! a) ++ [mkAction i n x (timestamp e) k]]>
        (HIST_PREFIX (store w)) |}.
Proof.
  intros Hr. unfold execute_action, validate_agent_id, validate_string, validate_data, get_nonce_inner,
    set_nonce_inner, next_exec_id, append_action_record in Hr.
  apply bind_Ok in Hr as ([] & w1 & Ha & Hr). minv Ha.
  do 5 (let Hg := fresh "Hg" in apply bind_Ok in Hr as (? & w1 & Hg & Hr); minv Hg). zbool.
  apply bind_Ok in Hr as ([] & w1 & Hrl & Hr).
  assert (∃ r, w1 = {| w with store := {| (store w) with RATE_PREFIX := r |} |}) as [r ->].
  { unfold check_rate_limit in Hrl. minv Hrl; eauto. }
  clear Hrl. minv Hr. inv_checked. zbool. exists r. unfold MAX_HISTORY_SIZE in *. split_and!; done || lia.
Qed.

(** ** Every operation keeps the invariant *)

Lemma running_lt n i x :
  workflow_ok n i x → is_terminal (wi_status x) = false → wi_current_step x < Z.of_nat (length (wi_steps x)).
Proof. intros [] Ht. destruct (wi_status x); try done; lia. Qed.

Lemma fired_callback x c :
  wi_callback (fired x) = Some c → cb_fired c = true.
Proof. unfold fired. cbn. destruct (wi_callback x); naive_solver. Qed.

Lemma expired_ok n i x t :
  workflow_ok n i x → is_terminal (wi_status x) = false → workflow_ok n i (fired (expired t x)).
Proof.
  intros Hok Ht. pose proof (running_lt _ _ _ Hok Ht). destruct Hok. split; try done.
  - cbn. intros j s _ _ [?|?]; done.
  - apply fired_callback.
Qed.

Lemma withdrawn_ok n i x t k :
  workflow_ok n i x → is_terminal (wi_status x) = false → workflow_ok n i (fired (withdrawn t k x)).
Proof.
  intros Hok Ht. pose proof (running_lt _ _ _ Hok Ht). destruct Hok. split; try done; cbn.
  - by rewrite length_fmap.
  - by rewrite length_fmap.
  - intros j s _ _ [?|?]; done.
  - apply fired_callback.
Qed.

(** Everything but the callback of an advanced workflow. *)
Lemma advanced_steps t x s j s' :
  (∀ j s, wi_steps x !! j = Some s → Z.of_nat j < wi_current_step x → ws_status s = SCompleted) → 0 ≤ wi_current_step x →
  wi_steps (advanced t x s) !! j = Some s' → Z.of_nat j < wi_current_step x + 1 → ws_status s' = SCompleted.
Proof.
  intros Hd Hc Hj Hlt. cbn in Hj. destruct (decide (j = Z.to_nat (wi_current_step x))) as [->|Hne].
  - apply list_lookup_insert_Some in Hj as [(_ & <- & _)|(? & _)]; done.
  - rewrite list_lookup_insert_ne in Hj by done. apply (Hd j); [done|lia].
Qed.

Lemma advanced_ok n i x t s :
  workflow_ok n i x → is_terminal (wi_status x) = false →
  workflow_ok n i (if is_last x then fired (advanced t x s) else advanced t x s).
Proof.
  intros Hok Ht. pose proof (running_lt _ _ _ Hok Ht). destruct Hok as [Hid Hr Hl Hc Hco Hs Hd Hcb].
  assert (∀ j s, wi_steps x !! j = Some s → Z.of_nat j < wi_current_step x → ws_status s = SCompleted) as Hd'
    by (intros j s1 Hj Hlt; apply (Hd j); auto).
  destruct (is_last x) eqn:Hlast; split; try done; cbn; rewrite ?length_insert, ?Hlast; try done; try lia.
  - unfold is_last in Hlast. zbool. lia.
  - intros j s' Hj Hlt _. by eapply (advanced_steps t x s).
  - apply fired_callback.
  - unfold is_last in Hlast. zbool. lia.
  - intros j s' Hj Hlt _. by eapply (advanced_steps t x s).
  - intros c Hcc. rewrite (Hcb c Hcc). done.
Qed.

Lemma wf_ids st : wf st → ∀ i x, WF_PREFIX st !! i = Some x → wi_workflow_id x = i.
Proof. intros Hw i x Hx. by apply (wf_workflows _ Hw). Qed.

(** A workflow is written over. *)
Lemma wf_workflow st i x h :
  wf st → workflow_ok (default 0 (WORKFLOW_CTR_KEY st)) i x →
  wf {| st with WF_PREFIX := <[i := x]> (WF_PREFIX st); WF_HIST_PREFIX := h |}.
Proof.
  intros [Hc Hw Ha] Hx. split; try done. cbn. intros j y [[<- <-]|[_ Hy]]%lookup_insert_Some; auto.
Qed.

Lemma execute_wf i e w r w' : execute_workflow_step i e w = Ok (r, w') → wf (store w) → wf (store w').
Proof.
  intros Hr Hw. destruct (hub_execute_spec _ _ _ _ _ Hr (wf_ids _ Hw)) as (x & Hx & Ht & [Hd|Hd]); cbv zeta in Hd.
  - destruct Hd as (_ & _ & _ & ->). apply (wf_workflow _ _ _ _ Hw). apply expired_ok; [by apply (wf_workflows _ Hw)|done].
  - destruct Hd as (_ & _ & _ & s & l1 & h & _ & _ & -> & _). apply wf_workflow; [done|].
    apply advanced_ok; [by apply (wf_workflows _ Hw)|done].
Qed.

Lemma cancel_wf i c e w w' : cancel_workflow i c e w = Ok (tt, w') → wf (store w) → wf (store w').
Proof.
  intros Hr Hw. destruct (cancel_workflow_spec _ _ _ _ _ Hr (wf_ids _ Hw)) as (x & k & l1 & h & _ & Hx & Ht & _ & _ & _ & ->).
  apply wf_workflow; [done|]. apply withdrawn_ok; [by apply (wf_workflows _ Hw)|done].
Qed.

Lemma create_wf a n ss o tg cb e w i w' : create_workflow a n ss o tg cb e w = Ok (i, w') → wf (store w) → wf (store w').
Proof.
  intros Hr [Hc Hw Ha]. destruct (create_spec _ _ _ _ _ _ _ _ _ _ Hr) as (x & h & _ & Hi & Hl & Hx & _ & ->).
  split; cbn; [lia| |done]. intros j y [[<- <-]|[_ Hy]]%lookup_insert_Some.
  - subst x. split; try done; cbn; try lia. intros c Hcb. destruct cb; naive_solver.
  - eapply workflow_ok_le; [by apply Hw|]. lia.
Qed.

Lemma action_wf a x n p k e w i w' : execute_action a x n p k e w = Ok (i, w') → wf (store w) → wf (store w').
Proof.
  intros Hr [Hc Hw Ha]. destruct (action_spec _ _ _ _ _ _ _ _ _ Hr) as (r & _ & _ & Hk & Hi & Hlen & _ & ->).
  split; cbn; [lia|done|]. intros b. rewrite !lookup_insert. rewrite Hi. case_decide as Hb; cbn [default from_option].
  - subst b. unfold id. apply (actions_ok_snoc _ _ _ (mkAction _ _ _ _ _) (Ha a)); [done|lia|exact Hk|exact Hlen].
  - eapply actions_ok_le; [apply Ha|]. lia.
Qed.

(** [initialize] sets both counters back to zero, and the contract can be used
    before it: an initialization that takes effect must come before the first
    workflow and the first action. *)
Definition early (c : Call) (st : State) : bool :=
  match c with
  | CInitialize _ => bool_decide (is_Some (ADMIN_KEY st)) ||
      (default 0 (WORKFLOW_CTR_KEY st) =? 0) && (default 0 (EXEC_CTR_KEY st) =? 0)
  | _ => true
  end.

Lemma hub_exec_wf c e w w' :
  early c (store w) = true → exec c e w = Ok (tt, w') → wf (store w) → wf (store w').
Proof.
  intros Hal Hr Hw. destruct c; cbn [exec] in Hr; try apply discard_Ok in Hr as [? Hr];
    eauto using execute_wf, cancel_wf, create_wf, action_wf.
  - unfold initialize in Hr. minv Hr. cbn [early] in Hal. zbool.
    rewrite bool_decide_eq_false_2 in Hal by done. cbn in Hal. apply andb_prop in Hal as [Hn1%Z.eqb_eq Hn2%Z.eqb_eq].
    destruct Hw as [Hc Hx Ha]. rewrite Hn1 in Hx. rewrite Hn2 in Ha. split; cbn; done.
  - unfold register_rule, validate_agent_id, validate_string, validate_data in Hr. minv Hr. by destruct Hw.
  - unfold revoke_rule, validate_agent_id in Hr. minv Hr. by destruct Hw.
  - unfold transfer_admin, assert_admin in Hr. minv Hr. by destruct Hw.
Qed.

(** The worlds the calls reach from the deployment, whether the contract is
    initialized or not, if its initialization does not come late. *)
Definition reachable (t : Z) (w : World State Event) : Prop :=
  ∃ t0 l lg, rtc (step_in exec call_ok early self) (t0, mkWorld deployed l lg) (t, w).

Lemma hub_deployed_wf : wf deployed.
Proof. split; cbn; try done. intros a. rewrite !lookup_empty. split; cbn; try done. lia. Qed.

Lemma hub_reachable_wf t w : reachable t w → wf (store w).
Proof.
  intros (t0 & l & lg & Hr).
  apply (reach_in_inv_world exec call_ok early self (λ _ w, wf (store w))) in Hr; [done| | |apply hub_deployed_wf].
  - intros t' c e w0 w0' _ _ _ Hal Hw Hrun. by eapply hub_exec_wf.
  - intros t1 t2 w0 l' _ _ Hw. done.
Qed.

(** ** Theorems *)

(** How one successful call at time [t] may change a workflow. *)
Inductive workflow_moves (t : Z) : WorkflowInstance → WorkflowInstance → Prop :=
| wm_same x : workflow_moves t x x
| wm_step x s :
    is_terminal (wi_status x) = false → t ≤ wi_deadline x → wi_steps x !! Z.to_nat (wi_current_step x) = Some s →
    workflow_moves t x (if is_last x then fired (advanced t x s) else advanced t x s)
| wm_expire x :
    is_terminal (wi_status x) = false → wi_deadline x < t → workflow_moves t x (fired (expired t x))
| wm_cancel x k :
    is_terminal (wi_status x) = false → workflow_moves t x (fired (withdrawn t k x)).

Definition workflowless (c : Call) : Prop :=
  match c with CCreateWorkflow _ _ _ _ _ _ | CExecuteStep _ | CCancelWorkflow _ _ => False | _ => True end.

Lemma workflowless_keeps c : workflowless c → keeps WF_PREFIX (exec c).
Proof.
  intros Hc. destruct c; try done; cbn [exec]; unfold discard, initialize, register_rule, revoke_rule, execute_action,
    transfer_admin, assert_admin, validate_agent_id, validate_string, validate_data, get_nonce_inner, set_nonce_inner,
    check_rate_limit, next_exec_id, append_action_record; frame.
Qed.

Lemma workflow_written t (m : gmap Z WorkflowInstance) i x x' j y :
  m !! i = Some x → workflow_moves t x x' → m !! j = Some y → ∃ y', <[i := x']> m !! j = Some y' ∧ workflow_moves t y y'.
Proof.
  intros Hx Hm Hy. destruct (decide (i = j)) as [->|Hne].
  - exists x'. rewrite lookup_insert_eq. by simplify_eq.
  - exists y. rewrite lookup_insert_ne by done. split; [done|constructor].
Qed.

(** C33: in every history from deployment in which the
    initialization does not come late (it resets the workflow counter, so it must
    precede the first workflow and the first action), a successful call leaves a
    workflow as it is, or, when it has not ended, runs its current step before the
    deadline, marks it failed after the deadline, or cancels it; a workflow that
    has completed, failed or been cancelled never changes again. *)
Theorem workflow_lifecycle t w c e w' i x :
  reachable t w → exec c e w = Ok (tt, w') → WF_PREFIX (store w) !! i = Some x →
  ∃ x', WF_PREFIX (store w') !! i = Some x' ∧ workflow_moves (timestamp e) x x' ∧
    (is_terminal (wi_status x) = true → x' = x).
Proof.
  intros Hr Hrun Hx. pose proof (hub_reachable_wf _ _ Hr) as Hw.
  assert (∃ x', WF_PREFIX (store w') !! i = Some x' ∧ workflow_moves (timestamp e) x x') as (x' & Hx' & Hm).
  { destruct c; try (match type of Hrun with exec ?c _ _ = _ =>
      rewrite (workflowless_keeps c I _ _ _ _ Hrun); exists x; split; [done|constructor] end); cbn [exec] in Hrun;
      try apply discard_Ok in Hrun as [? Hrun].
    - destruct (create_spec _ _ _ _ _ _ _ _ _ _ Hrun) as (y & h & _ & Hi & _ & _ & _ & ->). exists x. cbn.
      split; [|constructor]. rewrite lookup_insert_ne; [done|]. pose proof (wo_range _ _ _ (wf_workflows _ Hw _ _ Hx)). lia.
    - destruct (hub_execute_spec _ _ _ _ _ Hrun (wf_ids _ Hw)) as (y & Hy & Ht & [Hd|Hd]); cbv zeta in Hd.
      + destruct Hd as (Hd & _ & _ & ->). cbn. eapply workflow_written; [done|by constructor|done].
      + destruct Hd as (Hd & _ & _ & s & l1 & h & Hs & _ & -> & _). cbn. eapply workflow_written; [done|by constructor|done].
    - destruct (cancel_workflow_spec _ _ _ _ _ Hrun (wf_ids _ Hw)) as (y & k & l1 & h & _ & Hy & Ht & _ & _ & _ & ->).
      cbn. eapply workflow_written; [done|by constructor|done]. }
  exists x'. split; [done|]. split; [done|]. intros Hterm. destruct Hm; congruence.
Qed.

(** A successful [execute_workflow_step] before the deadline
    calls [exec_step] of exactly the workflow's current step, answers
    [Completed] and moves to the next step; after the last one the workflow is
    completed, every step of it, and its callback is told so; after the deadline
    no step is called, the workflow fails and its callback is told that. No other
    answer is possible. *)
Theorem workflow_step_exact t w e i r w' :
  reachable t w → execute_workflow_step i e w = Ok (r, w') →
  ∃ x x', WF_PREFIX (store w) !! i = Some x ∧ WF_PREFIX (store w') !! i = Some x' ∧
    (wi_deadline x < timestamp e ∧ r = SFailed ∧ wi_status x' = WFailed ∧ wi_steps x' = wi_steps x ∧
       notified e (expired (timestamp e) x) (ledger w) (ledger w') ∨
     timestamp e ≤ wi_deadline x ∧ r = SCompleted ∧ wi_current_step x' = wi_current_step x + 1 ∧
     ∃ s l1, wi_steps x !! Z.to_nat (wi_current_step x) = Some s ∧
       target_exec_step (ws_target_contract s) (ws_step_index s) (ws_encoded_args s) e (ledger w) = Some (tt, l1) ∧
       (wi_current_step x' < Z.of_nat (length (wi_steps x)) ∧ wi_status x' = WRunning ∧ ledger w' = l1 ∨
        wi_current_step x' = Z.of_nat (length (wi_steps x)) ∧ wi_status x' = WCompleted ∧
        Forall (λ s, ws_status s = SCompleted) (wi_steps x') ∧ notified e (advanced (timestamp e) x s) l1 (ledger w'))).
Proof.
  intros Hr Hrun. pose proof (hub_reachable_wf _ _ Hr) as Hw. pose proof (execute_wf _ _ _ _ _ Hrun Hw) as Hw'.
  destruct (hub_execute_spec _ _ _ _ _ Hrun (wf_ids _ Hw)) as (x & Hx & Ht & [Hd|Hd]); cbv zeta in Hd; exists x.
  - destruct Hd as (Hd & -> & Hn & Hst). exists (fired (expired (timestamp e) x)). rewrite Hst at 1. cbn.
    rewrite lookup_insert_eq. split; [done|]. split; [done|]. left. split_and!; done.
  - destruct Hd as (Hd & -> & Hlt & s & l1 & h & Hs & Hcall & Hst & Hno). eexists. split; [done|].
    split; [rewrite Hst; cbn; by rewrite lookup_insert_eq|]. right.
    split; [done|]. split; [done|]. split; [by destruct (is_last x)|]. exists s, l1. split; [done|]. split; [done|].
    destruct (is_last x) eqn:Hlast; unfold is_last in Hlast; zbool.
    + right. split; [cbn; lia|]. split; [cbn; unfold is_last; by rewrite (proj2 (Z.geb_le _ _))|]. split; [|done].
      apply Forall_lookup. intros j s' Hj. assert (workflow_ok (default 0 (WORKFLOW_CTR_KEY (store w'))) i
        (fired (advanced (timestamp e) x s))) as Hok.
      { apply (wf_workflows _ Hw'). rewrite Hst. cbn. by rewrite lookup_insert_eq. }
      pose proof (lookup_lt_Some _ _ _ Hj). cbn in *. rewrite length_insert in *.
      eapply (wo_done _ _ _ Hok j); [done|cbn; lia|]. right. cbn. unfold is_last. by rewrite (proj2 (Z.geb_le _ _)).
    + left. split; [cbn; lia|]. split; [|done]. cbn. unfold is_last. by rewrite Z.geb_leb, (proj2 (Z.leb_gt _ _)).
Qed.

(** Cancelling, by the initiator or the administrator and only while
    the workflow has not ended, calls [rollback] for exactly its completed
    steps, the last first, then tells the callback; each of those steps is rolled
    back and no other step changes. *)
Theorem cancel_undoes t w i c e w' :
  reachable t w → cancel_workflow i c e w = Ok (tt, w') →
  ∃ x x' l1, WF_PREFIX (store w) !! i = Some x ∧ WF_PREFIX (store w') !! i = Some x' ∧ wi_status x' = WCancelled ∧
    authorized e c = true ∧ (c = wi_initiator x ∨ ADMIN_KEY (store w) = Some c) ∧ is_terminal (wi_status x) = false ∧
    undo e (rev (completed_steps (wi_steps x))) (ledger w) = Some l1 ∧
    wi_steps x' = undone (timestamp e) <$> wi_steps x ∧
    match wi_callback x with
    | Some cb => target_wf_done (cb_callback_contract cb) i 5 e l1 = Some (tt, ledger w')
    | None => ledger w' = l1
    end.
Proof.
  intros Hr Hrun. pose proof (hub_reachable_wf _ _ Hr) as Hw.
  destruct (cancel_workflow_spec _ _ _ _ _ Hrun (wf_ids _ Hw)) as (x & k & l1 & h & Ha & Hx & Ht & Hwho & Hu & Hno & Hst).
  exists x, (fired (withdrawn (timestamp e) k x)), l1. rewrite Hst at 1. cbn. rewrite lookup_insert_eq.
  split_and!; try done. unfold notified in Hno. cbn in Hno. rewrite (wf_ids _ Hw _ _ Hx) in Hno.
  destruct (wi_callback x) as [cb|] eqn:Hcb; [|done].
  by rewrite (wo_callback _ _ _ (wf_workflows _ Hw _ _ Hx) _ Hcb), Ht in Hno.
Qed.

(** The recorded actions of an agent have strictly growing
    nonces and execution identifiers, at most 1000 of them are kept, and an
    action whose nonce is not above every recorded one is refused. *)
Theorem hub_actions_once t w a :
  reachable t w →
  let h := default [] (HIST_PREFIX (store w) !! a) in
  (∀ i j x y, (i < j)%nat → h !! i = Some x → h !! j = Some y →
     ar_nonce x < ar_nonce y ∧ ar_execution_id x < ar_execution_id y) ∧
  (length h ≤ 1000)%nat ∧
  ∀ x y n p k e r, x ∈ h → k ≤ ar_nonce x → execute_action a y n p k e w ≠ Ok r.
Proof.
  intros Hr h. destruct (wf_actions _ (hub_reachable_wf _ _ Hr) a) as [H1 H2 H3 H4].
  split; [intros; split; [by eapply H1|by eapply H2]|]. split; [done|].
  intros x y n p k e [i w'] Hx Hk Hrun. apply list_elem_of_lookup in Hx as [j Hx]. destruct (H3 _ _ Hx).
  destruct (action_spec _ _ _ _ _ _ _ _ _ Hrun) as (r & _ & _ & Hlt & _). lia.
Qed.
End ops.

(** ** A run of the contract *)

Module HubDemo.

Definition self := mkAddress "hub".
Definition admin := mkAddress "admin".
Definition alice := mkAddress "alice".
Definition bob := mkAddress "bob".
Definition worker := mkAddress "worker".

(** The steps of [worker] return, those of any other contract trap. *)
#[local] Instance workers : WorkflowTargets := {|
  target_exec_step a _ _ _ l := if bool_decide (a = worker) then Some (tt, l) else None;
  target_rollback a _ _ l := if bool_decide (a = worker) then Some (tt, l) else None;
  target_wf_done _ _ _ _ l := Some (tt, l);
|}.

Definition l0 : SimpleLedger := sl_of [].
Definition w0 : World State Event := mkWorld deployed l0 [].
Definition e0 := env_at 10 self [admin].
Definition w1 : World State Event := world_of (exec (CInitialize admin) e0 w0) w0.

Definition task (i : Z) (a : Address) : WorkflowStep :=
  mkStep i "task" a "task" [] true 1 0 SPending None None 0.
Definition running : list (Z * list Address * Call) :=
  [(20, [alice], CCreateWorkflow alice "job" [task 0 worker; task 1 worker] (Some 100) None (Some alice));
   (30, [bob], CExecuteAction 7 bob "trade" [] 1); (40, [bob], CExecuteAction 7 bob "trade" [] 5);
   (50, [], CExecuteStep 1)].
Definition w_running := run_script exec self running w1.

Lemma running_reach : reachable self 50 w_running.
Proof.
  exists 0, l0, []. change w_running with (run_script exec self ((10, [admin], CInitialize admin) :: running) w0).
  apply (run_script_reach_in exec call_ok self early 0 ((10, [admin], CInitialize admin) :: running));
    [vm_compute; reflexivity..|]. repeat constructor; cbn; lia.
Qed.

(** The contract works before it is initialized, and the initialization then starts
    the ids again: the workflow that was completed is replaced by a new one. *)
Definition before_init : list (Z * list Address * Call) :=
  [(10, [alice], CCreateWorkflow alice "job" [task 0 worker] (Some 100) None None); (20, [], CExecuteStep 1)].
Definition late_init : list (Z * list Address * Call) :=
  [(30, [admin], CInitialize admin); (40, [bob], CCreateWorkflow bob "other" [task 0 worker] (Some 100) None None)].

Example late_initialize_replaces :
  script_ok exec self 0 (before_init ++ late_init) w0 = true ∧
  wi_status <$> WF_PREFIX (store (run_script exec self before_init w0)) !! 1 = Some WCompleted ∧
  wi_status <$> WF_PREFIX (store (run_script exec self (before_init ++ late_init) w0)) !! 1 = Some WPending.
Proof. vm_compute. split_and!; reflexivity. Qed.

Definition e_run := env_at 60 self [alice].
Definition w_done := world_of (execute_workflow_step 1 e_run w_running) w_running.
Definition w_cancelled := world_of (cancel_workflow 1 alice e_run w_running) w_running.

Lemma workflow_step_exact_witness :
  execute_workflow_step 1 e_run w_running = Ok (SCompleted, w_done) ∧
  ∃ x', WF_PREFIX (store w_done) !! 1 = Some x' ∧ wi_status x' = WCompleted.
Proof.
  assert (execute_workflow_step 1 e_run w_running = Ok (SCompleted, w_done)) as Hx.
  { unfold w_done. apply (run_ok_val _ _ SPending); vm_compute; reflexivity. }
  split; [exact Hx|].
  destruct (workflow_step_exact self 50 w_running e_run 1 SCompleted w_done running_reach Hx) as (x & x' & _ & Hx' & _).
  exists x'. split; [exact Hx'|].
  assert (wi_status <$> WF_PREFIX (store w_done) !! 1 = Some WCompleted) as Hs by (vm_compute; reflexivity).
  rewrite Hx' in Hs. clear -Hs. cbn in Hs. congruence.
Defined.

Lemma workflow_lifecycle_witness :
  ∃ x x', WF_PREFIX (store w_running) !! 1 = Some x ∧ WF_PREFIX (store w_cancelled) !! 1 = Some x' ∧
    workflow_moves 60 x x' ∧ wi_status x' = WCancelled.
Proof.
  destruct (WF_PREFIX (store w_running) !! 1) as [x|] eqn:Hx; [|exfalso; vm_compute in Hx; discriminate Hx].
  destruct (workflow_lifecycle self 50 w_running (CCancelWorkflow 1 alice) e_run w_cancelled 1 x running_reach)
    as (x' & Hx' & Hm & _); [unfold w_cancelled; apply run_ok_unit; vm_compute; reflexivity|exact Hx|].
  exists x, x'. split; [reflexivity|]. split; [exact Hx'|]. split; [exact Hm|].
  assert (wi_status <$> WF_PREFIX (store w_cancelled) !! 1 = Some WCancelled) as Hs by (vm_compute; reflexivity).
  rewrite Hx' in Hs. clear -Hs. cbn in Hs. congruence.
Defined.

Lemma cancel_undoes_witness :
  ∃ x l1, WF_PREFIX (store w_running) !! 1 = Some x ∧ length (completed_steps (wi_steps x)) = 1%nat ∧
    undo e_run (rev (completed_steps (wi_steps x))) (ledger w_running) = Some l1.
Proof.
  destruct (cancel_undoes self 50 w_running 1 alice e_run w_cancelled running_reach)
    as (x & x' & l1 & Hx & _ & _ & _ & _ & _ & Hu & _); [unfold w_cancelled; apply run_ok_unit; vm_compute; reflexivity|].
  exists x, l1. split; [exact Hx|]. split; [|exact Hu].
  assert (length ∘ completed_steps ∘ wi_steps <$> WF_PREFIX (store w_running) !! 1 = Some 1%nat) as Hs by (vm_compute; reflexivity).
  rewrite Hx in Hs. clear -Hs. cbn in Hs. congruence.
Defined.

Lemma hub_actions_once_witness : execute_action 7 bob "trade" [] 5 e_run w_running ≠ Ok (3, w_running).
Proof.
  destruct (hub_actions_once self 50 w_running 7 running_reach) as (_ & _ & Hn).
  eapply (Hn (mkAction 2 "trade" bob 40 5)); [|cbn; lia].
  apply (list_elem_of_lookup_2 _ 1). vm_compute. reflexivity.
Defined.

(** A step that traps is never recorded as failed: an optional step with a retry
    left is neither retried nor skipped, the call that drives it fails. *)
Example optional_step_blocks :
  let steps := [{| (task 0 bob) with ws_required := false |}; task 1 worker] in
  let w := run_script exec self [(20, [alice], CCreateWorkflow alice "job" steps None None None)] w1 in
  is_ok (exec (CExecuteStep 1) (env_at 30 self []) w) = false.
Proof. vm_compute. reflexivity. Qed.

(** A workflow that misses its deadline stays pending in its initiator's history. *)
Example expired_summary_pending :
  let w := run_script exec self [(20, [alice], CCreateWorkflow alice "job" [task 0 worker] None None None);
                                 (400, [], CExecuteStep 1)] w1 in
  wi_status <$> WF_PREFIX (store w) !! 1 = Some WFailed ∧
  map su_status <$> WF_HIST_PREFIX (store w) !! alice = Some [WPending].
Proof. split; vm_compute; reflexivity. Qed.
End HubDemo.
