(* ===== verification/MarketTypes.v ===== *)
(** * contracts/marketplace: data, storage and arithmetic

    The records of src/lib/src/types.rs and of src/contracts/marketplace/src/lib.rs,
    the storage of the contract, and its leaf functions: identifiers, fees, the
    Dutch price and the encoding of workflow arguments. *)

From stdpp Require Import gmap strings list fin_maps.
From S2P Require Import Prelude Soroban Workflow.
Open Scope Z_scope.

(** ** src/lib/src/types.rs *)

Inductive NftStandard := SorobanNative | Erc721 | Erc1155.
Inductive ListingType := Sale | Lease | ListingAuction.
Inductive AssetType := AgentAsset | PredictionShares.
Inductive AuctionType := English | Dutch | Sealed.
Inductive DisputeStatus := Open | Resolved | Rejected.
Inductive AuctionStatus := Created | Active | Ended | Cancelled | Won.

#[global] Instance AuctionType_eq_dec : EqDecision AuctionType.
Proof. solve_decision. Defined.
#[global] Instance DisputeStatus_eq_dec : EqDecision DisputeStatus.
Proof. solve_decision. Defined.
#[global] Instance AuctionStatus_eq_dec : EqDecision AuctionStatus.
Proof. solve_decision. Defined.

Record NftTokenRef := mkTokenRef {
  nr_contract_address : option Address;
  nr_token_id : Z;
  nr_standard : NftStandard;
}.

Record FeeSplitRecipient := mkSplit {
  fr_recipient : Address;
  fr_share_bps : Z;
}.

Record FeeSplitConfig := mkSplits {
  fc_platform_share_bps : Z;
  fc_creator_share_bps : Z;
  fc_collection_share_bps : Z;
  fc_extra_recipients : list FeeSplitRecipient;
  fc_total_bps : Z;
}.

Record Agent := mkAgent {
  ag_id : Z;
  ag_owner : Address;
  ag_name : string;
  ag_model_hash : string;
  ag_metadata_cid : string;
  ag_capabilities : list string;
  ag_evolution_level : Z;
  ag_created_at : Z;
  ag_updated_at : Z;
  ag_nonce : Z;
  ag_escrow_locked : bool;
  ag_escrow_holder : option Address;
}.

Record Listing := mkListing {
  ls_listing_id : Z;
  ls_asset_id : Z;
  ls_asset_type : AssetType;
  ls_seller : Address;
  ls_price : Z;
  ls_listing_type : ListingType;
  ls_active : bool;
  ls_created_at : Z;
  ls_expires_at : Z;
}.

Record RoyaltyInfo := mkRoyaltyInfo {
  ri_recipient : Address;
  ri_fee : Z;
}.

Record RoyaltyRecipient := mkRoyaltyRecipient {
  rr_recipient : Address;
  rr_share_bps : Z;
  rr_role : string;
}.

Record RoyaltyConfig := mkRoyaltyConfig {
  rc_recipients : list RoyaltyRecipient;
  rc_total_bps : Z;
  rc_min_threshold : Z;
  rc_max_cap : option Z;
}.

Record Dispute := mkDispute {
  ds_dispute_id : Z;
  ds_listing_id : Z;
  ds_asset_type : AssetType;
  ds_initiator : Address;
  ds_reason : string;
  ds_evidence_cid : option string;
  ds_status : DisputeStatus;
  ds_created_at : Z;
  ds_resolved_at : option Z;
}.

Record Auction := mkAuction {
  au_auction_id : Z;
  au_agent_id : Z;
  au_seller : Address;
  au_auction_type : AuctionType;
  au_start_price : Z;
  au_reserve_price : Z;
  au_current_price : Z;
  au_highest_bidder : option Address;
  au_highest_bid : Z;
  au_start_time : Z;
  au_end_time : Z;
  au_min_bid_increment_bps : Z;
  au_status : AuctionStatus;
  au_dutch_config : option Bytes;
  au_sealed_commit_end : option Z;
  au_sealed_reveal_end : option Z;
}.

Record SealedCommit := mkCommit {
  sc_bidder : Address;
  sc_commitment : Bytes;
  sc_deposit : Z;
  sc_timestamp : Z;
}.

Record SealedReveal := mkReveal {
  sr_bidder : Address;
  sr_amount : Z;
  sr_nonce : string;
  sr_deposit : Z;
  sr_timestamp : Z;
}.

Record BidRecord := mkBid {
  br_bidder : Address;
  br_amount : Z;
  br_timestamp : Z;
  br_bid_increment : Z;
  br_sequence : Z;
}.

(** ** The contract's own records *)

Record PendingSale := mkPending {
  ps_listing_id : Z;
  ps_buyer : Address;
  ps_amount : Z;
  ps_seller : Address;
  ps_agent_id : Z;
  ps_workflow_id : Z;
  ps_created_at : Z;
}.

Record Offer := mkOffer {
  of_offer_id : Z;
  of_listing_id : Z;
  of_offerer : Address;
  of_amount : Z;
  of_active : bool;
  of_created_at : Z;
  of_expires_at : Z;
}.

Record TransactionRecord := mkTxn {
  tx_txn_id : Z;
  tx_listing_id : Z;
  tx_asset_id : Z;
  tx_seller : Address;
  tx_buyer : Address;
  tx_amount : Z;
  tx_royalty_amount : Z;
  tx_platform_fee : Z;
  tx_timestamp : Z;
  tx_txn_type : string;
}.

Record PlatformFeeConfig := mkFeeConfig {
  pf_fee_bps : Z;
  pf_recipient : Address;
  pf_min_fee : option Z;
  pf_max_fee : option Z;
}.

Record Collection := mkCollection {
  co_collection_id : Z;
  co_creator : Address;
  co_name : string;
  co_members : list Z;
  co_royalty_config : RoyaltyConfig;
  co_created_at : Z;
  co_updated_at : Z;
}.

Record CounterOffer := mkCounter {
  cn_counter_id : Z;
  cn_listing_id : Z;
  cn_in_response_to_offer_id : Z;
  cn_by_seller : Address;
  cn_amount : Z;
  cn_active : bool;
  cn_created_at : Z;
  cn_expires_at : Z;
}.

Record NftListing := mkNftListing {
  nl_nft_listing_id : Z;
  nl_nft_token_ref : NftTokenRef;
  nl_seller : Address;
  nl_price : Z;
  nl_currency_symbol : string;
  nl_currency_token_address : option Address;
  nl_active : bool;
  nl_created_at : Z;
  nl_expires_at : Z;
  nl_metadata_uri : string;
}.

Record CurrencyRecord := mkCurrency {
  cr_currency_id : Z;
  cr_symbol : string;
  cr_token_address : option Address;
  cr_decimals : Z;
  cr_active : bool;
}.

(** ** Storage

    One field per storage key, named by its constant; [None] and absence are the
    unset key. *)
Record State := mkState {
  ADMIN_KEY : option Address;
  AGENT_NFT_KEY : option Address;
  HUB_KEY : option Address;
  PLATFORM_FEE_KEY : option PlatformFeeConfig;
  FEE_SPLIT_KEY : option FeeSplitConfig;
  GOV_ROLE_KEY : option (list Address);
  KYC_ROLE_KEY : option (list Address);
  ACCEPTED_CURRENCY_KEY : option (list string);
  LISTING_CTR_KEY : option Z;
  AUCTION_CTR_KEY : option Z;
  OFFER_CTR_KEY : option Z;
  DISPUTE_CTR_KEY : option Z;
  COLLECTION_CTR_KEY : option Z;
  COUNTER_OFFER_CTR_KEY : option Z;
  NFT_LISTING_CTR_KEY : option Z;
  CURRENCY_CTR_KEY : option Z;
  txn_ctr : option Z;
  AGENT_KEY_PREFIX : gmap Z Agent;
  LISTING_PREFIX : gmap Z Listing;
  ROYALTY_PREFIX : gmap Z RoyaltyInfo;
  PENDING_SALE_PREFIX : gmap Z PendingSale;
  WF_LISTING_PREFIX : gmap Z Z;
  AUCTION_PREFIX : gmap Z Auction;
  BID_RECORD_PREFIX : gmap Z (list BidRecord);
  OFFER_PREFIX : gmap Z Offer;
  DISPUTE_PREFIX : gmap Z Dispute;
  TRANSACTION_HISTORY_PREFIX : gmap Z TransactionRecord;
  COLLECTION_PREFIX : gmap Z Collection;
  COLLECTION_ROYALTY_PREFIX : gmap Z RoyaltyConfig;
  COUNTER_OFFER_PREFIX : gmap Z CounterOffer;
  SEALED_COMMIT_PREFIX : gmap (Z * Address) SealedCommit;
  SEALED_REVEAL_PREFIX : gmap (Z * Address) SealedReveal;
  NFT_LISTING_PREFIX : gmap Z NftListing;
  CURRENCY_PREFIX : gmap Z CurrencyRecord;
  IPFS_METADATA_PREFIX : gmap Z string;
  ext_cfg : gmap Z (Z * Z);
}.

Definition deployed : State :=
  mkState None None None None None None None None None None None None None None None None None
    ∅ ∅ ∅ ∅ ∅ ∅ ∅ ∅ ∅ ∅ ∅ ∅ ∅ ∅ ∅ ∅ ∅ ∅ ∅.

Inductive Event :=
| nft_set (agent_nft : Address)
| hub_set (hub : Address)
| lst_creat (listing_id agent_id : Z) (seller : Address) (price : Z)
| esc_lock (agent_id : Z) (seller marketplace : Address)
| sale_init (listing_id : Z) (buyer : Address) (workflow_id t : Z)
| sale_vfy (listing_id t : Z)
| own_xfer (asset_id : Z) (seller buyer : Address) (t : Z)
| agnt_sold (listing_id asset_id : Z) (buyer : Address) (seller_amount royalty fee : Z)
| esc_rel (asset_id : Z) (buyer marketplace : Address)
| rb_own (asset_id : Z) (buyer seller : Address) (t : Z)
| rb_esc (asset_id t : Z)
| cb_ok (workflow_id listing_id t : Z)
| cb_fail (workflow_id listing_id status t : Z)
| lst_exp (listing_id asset_id t : Z)
| lst_cncl (listing_id asset_id : Z) (seller : Address)
| ofr_made (offer_id listing_id : Z) (offerer : Address) (amount expires_at : Z)
| ofr_rjct (offer_id : Z) (caller : Address) (t : Z)
| auc_creat (auction_id agent_id : Z) (seller : Address) (start_price end_time : Z)
| bid_refnd (auction_id : Z) (prev_bidder : Address) (amount t : Z)
| bid_plcd (auction_id : Z) (bidder : Address) (amount sequence t : Z)
| auc_won (auction_id : Z) (winner : option Address) (amount t : Z)
| auc_exp (auction_id reserve amount t : Z)
| auc_sold (auction_id agent_id : Z) (seller buyer : Address) (seller_amount royalty fee : Z)
| dsp_open (dispute_id listing_id : Z) (initiator : Address) (t : Z)
| dsp_res (dispute_id : Z) (ruling : bool) (t : Z) (notes : option string)
| fee_upd (fee_bps : Z) (recipient : Address) (t : Z)
| roy_set (agent_id percentage : Z)
| batch_lst (seller : Address) (count t : Z)
| batch_cnl (seller : Address) (cancelled t : Z)
| coll_new (collection_id : Z) (creator : Address) (t : Z)
| coll_add (collection_id : Z) (creator : Address) (added t : Z)
| coll_rm (collection_id : Z) (creator : Address) (removed t : Z)
| coll_roy (collection_id total_bps t : Z)
| cofr_made (counter_id offer_id : Z) (seller : Address) (amount expires_at : Z)
| cofr_rjct (counter_id : Z) (caller : Address) (t : Z)
| dutch_new (auction_id agent_id : Z) (seller : Address) (start_price end_time : Z)
| seal_new (auction_id agent_id : Z) (seller : Address) (start_price reveal_end : Z)
| scm_made (auction_id : Z) (bidder : Address) (deposit t : Z)
| srev_done (auction_id : Z) (bidder : Address) (amount t : Z)
| seal_end (auction_id reserve amount t : Z)
| gov_add (a : Address) (t : Z)
| kyc_add (a : Address) (t : Z)
| gov_rm (a : Address) (t : Z)
| kyc_rm (a : Address) (t : Z)
| nft_lst (id token_id : Z) (seller : Address) (price : Z) (currency : string)
| nft_sold (id token_id : Z) (buyer : Address) (royalty fee : Z)
| nft_cncl (id token_id : Z) (seller : Address)
| ccy_reg (currency_id : Z) (symbol : string) (decimals : Z)
| ccy_off (currency_id : Z) (symbol : string)
| auc_ext_new (auction_id agent_id start_price end_time ext_window ext_secs : Z)
| auc_ext (auction_id new_end_time t : Z)
| ipfs_set (collection_id : Z) (uri : string) (t : Z)
| fee_split (platform creator collection total : Z).

Ltac mred v ::= eval cbn [store ledger log ADMIN_KEY AGENT_NFT_KEY HUB_KEY PLATFORM_FEE_KEY FEE_SPLIT_KEY GOV_ROLE_KEY
  KYC_ROLE_KEY ACCEPTED_CURRENCY_KEY LISTING_CTR_KEY AUCTION_CTR_KEY OFFER_CTR_KEY DISPUTE_CTR_KEY COLLECTION_CTR_KEY
  COUNTER_OFFER_CTR_KEY NFT_LISTING_CTR_KEY CURRENCY_CTR_KEY txn_ctr AGENT_KEY_PREFIX LISTING_PREFIX ROYALTY_PREFIX
  PENDING_SALE_PREFIX WF_LISTING_PREFIX AUCTION_PREFIX BID_RECORD_PREFIX OFFER_PREFIX DISPUTE_PREFIX
  TRANSACTION_HISTORY_PREFIX COLLECTION_PREFIX COLLECTION_ROYALTY_PREFIX COUNTER_OFFER_PREFIX SEALED_COMMIT_PREFIX
  SEALED_REVEAL_PREFIX NFT_LISTING_PREFIX CURRENCY_PREFIX IPFS_METADATA_PREFIX ext_cfg
  ag_id ag_owner ag_name ag_model_hash ag_metadata_cid ag_capabilities ag_evolution_level ag_created_at ag_updated_at
  ag_nonce ag_escrow_locked ag_escrow_holder ls_listing_id ls_asset_id ls_asset_type ls_seller ls_price ls_listing_type
  ls_active ls_created_at ls_expires_at au_auction_id au_agent_id au_seller au_auction_type au_start_price
  au_reserve_price au_current_price au_highest_bidder au_highest_bid au_start_time au_end_time
  au_min_bid_increment_bps au_status au_dutch_config au_sealed_commit_end au_sealed_reveal_end
  of_offer_id of_listing_id of_offerer of_amount of_active of_created_at of_expires_at
  cn_counter_id cn_listing_id cn_in_response_to_offer_id cn_by_seller cn_amount cn_active cn_created_at cn_expires_at
  nl_nft_listing_id nl_nft_token_ref nl_seller nl_price nl_currency_symbol nl_currency_token_address nl_active
  nl_created_at nl_expires_at nl_metadata_uri ps_listing_id ps_buyer ps_amount ps_seller ps_agent_id ps_workflow_id
  ps_created_at ds_status ds_resolved_at co_members co_creator co_royalty_config cr_active fst snd] in v.

Definition MAX_ROYALTY_PERCENTAGE : Z := 10000.
Definition PRICE_UPPER_BOUND : Z := int_max I128 / 2.
Definition PRICE_LOWER_BOUND : Z := 0.
Definition MAX_DURATION_DAYS : Z := 36500.
Definition DEFAULT_LISTING_DURATION : Z := 30 * 24 * 60 * 60.
Definition MIN_BID_INCREMENT_BPS : Z := 100.
Definition MAX_COLLECTION_NAME_LEN : Z := 64.
Definition MAX_BATCH_SIZE : Z := 25.
Definition DEFAULT_COUNTER_OFFER_DAYS : Z := 5.
Definition EXTENSION_WINDOW_SECS : Z := 300.
Definition DEFAULT_EXTENSION_SECS : Z := 300.

(** ** Arguments of workflow steps: 8 big-endian bytes *)

(** [u64::to_be_bytes] and [u64::from_be_bytes]. *)
Definition to_be_bytes (value : Z) : list Z :=
  map (λ k, Z.land (Z.shiftr value (8 * k)) 255) [7; 6; 5; 4; 3; 2; 1; 0].
Definition from_be_bytes (arr : list Z) : Z :=
  fold_left (λ acc b, Z.lor (Z.shiftl acc 8) b) arr 0.

Definition encode_u64 (value : Z) : Bytes := to_be_bytes value.

(** The index of the last occurrence of an element, which the loops over members
    and roles look for, and [Vec::remove]. *)
Fixpoint last_index `{EqDecision A} (x : A) (l : list A) : option nat :=
  match l with
  | [] => None
  | y :: r => match last_index x r with
              | Some i => Some (S i)
              | None => if bool_decide (y = x) then Some 0%nat else None
              end
  end.
Definition vec_remove {A} (i : nat) (l : list A) : list A := take i l ++ drop (S i) l.

Section helpers.
Context `{TokenHost}.

Local Abbreviation C := (M State () Event).

Definition decode_u64 (data : Bytes) : C Z :=
  panic_if (Z.of_nat (length data) <? 8) "Encoded args too short";;
  mret (from_be_bytes (take 8 data)).

(** ** Loading and saving *)

Definition load_agent (agent_id : Z) : C Agent :=
  o ← gets (λ s, AGENT_KEY_PREFIX s !! agent_id);
  expect o "Agent not found".
Definition try_load_agent (agent_id : Z) : C (option Agent) := gets (λ s, AGENT_KEY_PREFIX s !! agent_id).
Definition save_agent (agent_id : Z) (agent : Agent) : C () :=
  modify (λ s, {| s with AGENT_KEY_PREFIX := <[agent_id := agent]> (AGENT_KEY_PREFIX s) |}).

Definition load_listing (listing_id : Z) : C Listing :=
  o ← gets (λ s, LISTING_PREFIX s !! listing_id);
  expect o "Listing not found".
Definition try_load_listing (listing_id : Z) : C (option Listing) := gets (λ s, LISTING_PREFIX s !! listing_id).
Definition set_listing (listing_id : Z) (listing : Listing) : C () :=
  modify (λ s, {| s with LISTING_PREFIX := <[listing_id := listing]> (LISTING_PREFIX s) |}).

Definition load_auction (auction_id : Z) : C Auction :=
  o ← gets (λ s, AUCTION_PREFIX s !! auction_id);
  expect o "Auction not found".
Definition set_auction (auction_id : Z) (auction : Auction) : C () :=
  modify (λ s, {| s with AUCTION_PREFIX := <[auction_id := auction]> (AUCTION_PREFIX s) |}).

Definition load_offer (offer_id : Z) : C Offer :=
  o ← gets (λ s, OFFER_PREFIX s !! offer_id);
  expect o "Offer not found".
Definition set_offer (offer_id : Z) (offer : Offer) : C () :=
  modify (λ s, {| s with OFFER_PREFIX := <[offer_id := offer]> (OFFER_PREFIX s) |}).

Definition load_counter_offer (counter_id : Z) : C CounterOffer :=
  o ← gets (λ s, COUNTER_OFFER_PREFIX s !! counter_id);
  expect o "Counter offer not found".
Definition set_counter_offer (counter_id : Z) (counter : CounterOffer) : C () :=
  modify (λ s, {| s with COUNTER_OFFER_PREFIX := <[counter_id := counter]> (COUNTER_OFFER_PREFIX s) |}).

Definition load_collection (collection_id : Z) : C Collection :=
  o ← gets (λ s, COLLECTION_PREFIX s !! collection_id);
  expect o "Collection not found".
Definition set_collection (collection_id : Z) (coll : Collection) : C () :=
  modify (λ s, {| s with COLLECTION_PREFIX := <[collection_id := coll]> (COLLECTION_PREFIX s) |}).
Definition set_member_royalty (agent_id : Z) (config : RoyaltyConfig) : C () :=
  modify (λ s, {| s with COLLECTION_ROYALTY_PREFIX := <[agent_id := config]> (COLLECTION_ROYALTY_PREFIX s) |}).

Definition load_nft_listing (nft_listing_id : Z) : C NftListing :=
  o ← gets (λ s, NFT_LISTING_PREFIX s !! nft_listing_id);
  expect o "NFT listing not found".
Definition set_nft_listing (nft_listing_id : Z) (l : NftListing) : C () :=
  modify (λ s, {| s with NFT_LISTING_PREFIX := <[nft_listing_id := l]> (NFT_LISTING_PREFIX s) |}).

Definition set_pending_sale (listing_id : Z) (pending : PendingSale) : C () :=
  modify (λ s, {| s with PENDING_SALE_PREFIX := <[listing_id := pending]> (PENDING_SALE_PREFIX s) |}).
Definition remove_pending_sale (listing_id : Z) : C () :=
  modify (λ s, {| s with PENDING_SALE_PREFIX := delete listing_id (PENDING_SALE_PREFIX s) |}).

Definition try_load_dispute (dispute_id : Z) : C (option Dispute) := gets (λ s, DISPUTE_PREFIX s !! dispute_id).

Definition get_hub : C Address := o ← gets HUB_KEY; expect o "Execution hub not set".

Definition assert_admin (caller : Address) : C () :=
  o ← gets ADMIN_KEY;
  admin ← expect o "Not initialized";
  panic_if (bool_decide (caller ≠ admin)) "Unauthorized".

(** ** Identifiers *)

Definition next_listing_id : C Z :=
  current ← gets (λ s, default 0 (LISTING_CTR_KEY s));
  next ← expect (checked_add U64 current 1) "Listing ID overflow";
  modify (λ s, {| s with LISTING_CTR_KEY := Some next |});;
  mret next.
Definition next_auction_id : C Z :=
  current ← gets (λ s, default 0 (AUCTION_CTR_KEY s));
  next ← expect (checked_add U64 current 1) "Auction ID overflow";
  modify (λ s, {| s with AUCTION_CTR_KEY := Some next |});;
  mret next.
Definition next_offer_id : C Z :=
  current ← gets (λ s, default 0 (OFFER_CTR_KEY s));
  next ← expect (checked_add U64 current 1) "Offer ID overflow";
  modify (λ s, {| s with OFFER_CTR_KEY := Some next |});;
  mret next.
Definition next_dispute_id : C Z :=
  current ← gets (λ s, default 0 (DISPUTE_CTR_KEY s));
  next ← expect (checked_add U64 current 1) "Dispute ID overflow";
  modify (λ s, {| s with DISPUTE_CTR_KEY := Some next |});;
  mret next.
Definition next_collection_id : C Z :=
  current ← gets (λ s, default 0 (COLLECTION_CTR_KEY s));
  next ← expect (checked_add U64 current 1) "Collection ID overflow";
  modify (λ s, {| s with COLLECTION_CTR_KEY := Some next |});;
  mret next.
Definition next_counter_offer_id : C Z :=
  current ← gets (λ s, default 0 (COUNTER_OFFER_CTR_KEY s));
  next ← expect (checked_add U64 current 1) "Counter-offer ID overflow";
  modify (λ s, {| s with COUNTER_OFFER_CTR_KEY := Some next |});;
  mret next.
Definition next_nft_listing_id : C Z :=
  current ← gets (λ s, default 0 (NFT_LISTING_CTR_KEY s));
  next ← expect (checked_add U64 current 1) "NFT listing ID overflow";
  modify (λ s, {| s with NFT_LISTING_CTR_KEY := Some next |});;
  mret next.
Definition next_currency_id : C Z :=
  current ← gets (λ s, default 0 (CURRENCY_CTR_KEY s));
  next ← expect (checked_add U64 current 1) "Currency ID overflow";
  modify (λ s, {| s with CURRENCY_CTR_KEY := Some next |});;
  mret next.

(** ** Arithmetic *)

(** [current_time + days * 24 * 60 * 60]. *)
Definition after_days (current_time days : Z) : C Z :=
  h ← plain_mul U64 days 24;
  m ← plain_mul U64 h 60;
  s ← plain_mul U64 m 60;
  plain_add U64 current_time s.

(** The linearly decayed price of a Dutch auction. *)
Definition dutch_current_price (auction : Auction) : C Z :=
  now ← now;
  let window := saturating_sub U64 (au_end_time auction) (au_start_time auction) in
  if window =? 0 then mret (au_reserve_price auction)
  else if now <=? au_start_time auction then mret (au_start_price auction)
  else if now >=? au_end_time auction then mret (au_reserve_price auction)
  else
    let drop := saturating_sub I128 (au_start_price auction) (au_reserve_price auction) in
    let elapsed := saturating_sub U64 now (au_start_time auction) in
    percent ← plain_div I128 (saturating_mul I128 drop elapsed) window;
    mret (saturating_sub I128 (au_start_price auction) percent).

(** [amount.checked_mul(bps).checked_div(10_000)]. *)
Definition bps_part (amount bps : Z) : C Z :=
  p ← expect (checked_mul I128 amount bps) "share overflow";
  plain_div I128 p 10000.

(** One recipient of a collection's royalty. *)
Definition royalty_share (amount total : Z) (r : RoyaltyRecipient) : C Z :=
  panic_if (rr_share_bps r >? MAX_ROYALTY_PERCENTAGE) "Invalid recipient share";;
  part ← bps_part amount (rr_share_bps r);
  expect (checked_add I128 total part) "total overflow".

Definition compute_settlement_fees (asset_id amount : Z) : C (Z * Z) :=
  royalty_config ← gets (λ s, COLLECTION_ROYALTY_PREFIX s !! asset_id);
  royalty_amount ← (match royalty_config with
    | Some cfg =>
        panic_if (rc_total_bps cfg >? MAX_ROYALTY_PERCENTAGE) "Invalid royalty percentage";;
        foldM (royalty_share amount) 0 (rc_recipients cfg)
    | None =>
        royalty_info ← gets (λ s, ROYALTY_PREFIX s !! asset_id);
        match royalty_info with
        | Some r => if ri_fee r <=? MAX_ROYALTY_PERCENTAGE then bps_part amount (ri_fee r) else mret 0
        | None => mret 0
        end
    end);
  o ← gets PLATFORM_FEE_KEY;
  platform_fee_config ← expect o "Platform fee not configured";
  platform_fee ← (if pf_fee_bps platform_fee_config >? MAX_ROYALTY_PERCENTAGE then mret 0
                  else bps_part amount (pf_fee_bps platform_fee_config));
  mret (royalty_amount, platform_fee).

(** The lowest acceptable bid. *)
Definition min_bid (auction : Auction) : C Z :=
  if au_highest_bid auction =? 0 then mret (au_start_price auction)
  else
    p ← plain_mul I128 (au_highest_bid auction) (au_min_bid_increment_bps auction);
    min_increment ← plain_div I128 p 10000;
    plain_add I128 (au_highest_bid auction) min_increment.

(** ** Records of what happened *)

Definition record_bid (auction_id : Z) (bidder : Address) (amount timestamp : Z) : C Z :=
  bids ← gets (λ s, default [] (BID_RECORD_PREFIX s !! auction_id));
  sequence ← plain_add U64 (Z.of_nat (length bids)) 1;
  bid_increment ← (match last bids with
    | Some prev_bid => plain_sub I128 amount (br_amount prev_bid)
    | None => mret 0
    end);
  modify (λ s, {| s with BID_RECORD_PREFIX :=
    <[auction_id := bids ++ [mkBid bidder amount timestamp bid_increment sequence]]> (BID_RECORD_PREFIX s) |});;
  mret sequence.

Definition record_transaction (listing_id asset_id : Z) (seller buyer : Address)
    (amount royalty_amount platform_fee : Z) (txn_type : string) : C Z :=
  current ← gets (λ s, default 0 (txn_ctr s));
  txn_id ← plain_add U64 current 1;
  t ← now;
  modify (λ s, {| s with txn_ctr := Some txn_id; TRANSACTION_HISTORY_PREFIX :=
    <[txn_id := mkTxn txn_id listing_id asset_id seller buyer amount royalty_amount platform_fee t txn_type]>
      (TRANSACTION_HISTORY_PREFIX s) |});;
  mret txn_id.

Definition build_sale_steps (marketplace : Address) (listing_id : Z) : list WorkflowStep :=
  let encoded := encode_u64 listing_id in
  [mkStep 0 "verify_sale" marketplace "verify_sale" encoded true 0 0 SPending None None 0;
   mkStep 1 "transfer_ownership" marketplace "transfer_ownership" encoded true 1 0 SPending None None 0;
   mkStep 2 "record_sale" marketplace "record_sale" encoded true 0 0 SPending None None 0].

(** ** Escrow of an agent

    The updates of an agent that recur: locked for the marketplace, released,
    released with its nonce raised. *)
Definition locked (marketplace : Address) (t : Z) (agent : Agent) : Agent :=
  {| agent with ag_escrow_locked := true; ag_escrow_holder := Some marketplace; ag_updated_at := t |}.
Definition released (t : Z) (agent : Agent) : Agent :=
  {| agent with ag_escrow_locked := false; ag_escrow_holder := None; ag_updated_at := t |}.
Definition release_bumped (t : Z) (agent : Agent) : C Agent :=
  nonce ← expect (checked_add U64 (ag_nonce agent) 1) "Nonce overflow";
  mret {| (released t agent) with ag_nonce := nonce |}.
Definition held_by (marketplace : Address) (agent : Agent) : bool :=
  bool_decide (ag_escrow_holder agent = Some marketplace).
End helpers.
