(* ===== verification/Marketplace.v ===== *)
(** * contracts/marketplace: the entry points

    src/contracts/marketplace/src/lib.rs: listings and sales driven by the
    execution hub, offers and counter-offers, English, Dutch and sealed-bid
    auctions, disputes, royalties, collections, roles, NFT listings and
    currencies. *)

From stdpp Require Import gmap strings list fin_maps.
From S2P Require Import Prelude Soroban Workflow MarketTypes.
Open Scope Z_scope.

(** What the marketplace asks of the execution hub, another contract: the calls
    return a value and the rest of the ledger after them, or trap. *)
Class HubClient `{TokenHost} := {
  (* hub, initiator, name, steps, deadline offset, tag, callback *)
  hub_create_workflow : Address → Address → string → list WorkflowStep → option Z → option string →
    option Address → Env → Ledger → option (Z * Ledger);
  (* hub, workflow *)
  hub_execute_workflow_step : Address → Z → Env → Ledger → option (WorkflowStepStatus * Ledger);
}.

Section contract.
Context `{HubClient}.

Local Abbreviation C := (M State () Event).

(** ** Initialisation *)

Definition init_contract (admin : Address) : C () :=
  o ← gets ADMIN_KEY;
  panic_if (bool_decide (is_Some o)) "Already initialized";;
  require_auth admin;;
  modify (λ s, {| s with ADMIN_KEY := Some admin; LISTING_CTR_KEY := Some 0; AUCTION_CTR_KEY := Some 0;
    COLLECTION_CTR_KEY := Some 0; COUNTER_OFFER_CTR_KEY := Some 0; OFFER_CTR_KEY := Some 0;
    DISPUTE_CTR_KEY := Some 0; NFT_LISTING_CTR_KEY := Some 0; CURRENCY_CTR_KEY := Some 0;
    PLATFORM_FEE_KEY := Some (mkFeeConfig 250 admin None None) |}).

Definition set_agent_nft_contract (admin agent_nft : Address) : C () :=
  require_auth admin;;
  assert_admin admin;;
  modify (λ s, {| s with AGENT_NFT_KEY := Some agent_nft |});;
  publish (nft_set agent_nft).

Definition set_execution_hub (admin hub : Address) : C () :=
  require_auth admin;;
  assert_admin admin;;
  modify (λ s, {| s with HUB_KEY := Some hub |});;
  publish (hub_set hub).

(** ** Listings *)

Definition listing_type_of (listing_type : Z) : C ListingType :=
  if listing_type =? 0 then mret Sale
  else if listing_type =? 1 then mret Lease
  else if listing_type =? 2 then mret ListingAuction
  else panic "Invalid listing type".

Definition price_in_range (price : Z) : bool := (PRICE_LOWER_BOUND <=? price) && (price <=? PRICE_UPPER_BOUND).

(** The checks that an agent can be put up by its owner. *)
Definition load_own_agent (agent_id : Z) (seller : Address) (msg : string) : C Agent :=
  agent ← load_agent agent_id;
  panic_if (bool_decide (ag_owner agent ≠ seller)) msg;;
  panic_if (ag_escrow_locked agent) "Agent already locked in escrow";;
  mret agent.

Definition create_listing (agent_id : Z) (seller : Address) (listing_type price : Z)
    (duration_days : option Z) : C Z :=
  require_auth seller;;
  panic_if (agent_id =? 0) "Invalid agent ID";;
  panic_if (listing_type >? 2) "Invalid listing type";;
  panic_if (negb (price_in_range price)) "Price out of valid range";;
  (if listing_type =? 1 then
     dur ← expect duration_days "Duration required for leases";
     panic_if ((dur =? 0) || (dur >? MAX_DURATION_DAYS)) "Lease duration out of valid range"
   else mret tt);;
  agent ← load_own_agent agent_id seller "Only agent owner can create listings";
  listing_id ← next_listing_id;
  marketplace ← self_address;
  current_time ← now;
  expires_at ← (match duration_days with
    | Some days => after_days current_time days
    | None => plain_add U64 current_time DEFAULT_LISTING_DURATION
    end);
  listing_type_enum ← listing_type_of listing_type;
  set_listing listing_id (mkListing listing_id agent_id AgentAsset seller price listing_type_enum true
    current_time expires_at);;
  save_agent agent_id (locked marketplace current_time agent);;
  publish (lst_creat listing_id agent_id seller price);;
  publish (esc_lock agent_id seller marketplace);;
  mret listing_id.

(** ** Sales driven by the execution hub *)

Definition buy_agent (listing_id : Z) (buyer : Address) (amount : Z) : C (Z * Z) :=
  require_auth buyer;;
  panic_if (listing_id =? 0) "Invalid listing ID";;
  listing ← load_listing listing_id;
  panic_if (negb (ls_active listing)) "Listing is not active";;
  panic_if (amount <? ls_price listing) "Insufficient payment";;
  panic_if (amount >? PRICE_UPPER_BOUND) "Payment exceeds safe maximum";;
  marketplace ← self_address;
  agent ← load_agent (ls_asset_id listing);
  panic_if (negb (ag_escrow_locked agent)) "Agent not in escrow";;
  panic_if (negb (held_by marketplace agent)) "Agent locked by a different contract";;
  t ← now;
  set_pending_sale listing_id (mkPending listing_id buyer amount (ls_seller listing) (ls_asset_id listing) 0 t);;
  hub ← get_hub;
  let steps := build_sale_steps marketplace listing_id in
  workflow_id ← invoke (hub_create_workflow hub marketplace "agent_sale" steps None (Some "agent_sale")
    (Some marketplace));
  o ← gets (λ s, PENDING_SALE_PREFIX s !! listing_id);
  updated_pending ← expect o "Pending sale disappeared";
  set_pending_sale listing_id {| updated_pending with ps_workflow_id := workflow_id |};;
  modify (λ s, {| s with WF_LISTING_PREFIX := <[workflow_id := listing_id]> (WF_LISTING_PREFIX s) |});;
  publish (sale_init listing_id buyer workflow_id t);;
  invoke (hub_execute_workflow_step hub workflow_id);;
  mret (listing_id, workflow_id).

Definition verify_sale (encoded_args : Bytes) : C () :=
  listing_id ← decode_u64 encoded_args;
  listing ← load_listing listing_id;
  panic_if (negb (ls_active listing)) "Listing no longer active";;
  o ← gets (λ s, PENDING_SALE_PREFIX s !! listing_id);
  panic_if (bool_decide (o = None)) "No pending sale for this listing";;
  marketplace ← self_address;
  agent ← load_agent (ls_asset_id listing);
  panic_if (negb (ag_escrow_locked agent)) "Agent not in escrow at verify time";;
  panic_if (negb (held_by marketplace agent)) "Escrow holder mismatch at verify time";;
  t ← now;
  publish (sale_vfy listing_id t).

Definition transfer_ownership (encoded_args : Bytes) : C () :=
  listing_id ← decode_u64 encoded_args;
  listing ← load_listing listing_id;
  o ← gets (λ s, PENDING_SALE_PREFIX s !! listing_id);
  pending ← expect o "No pending sale";
  agent ← load_agent (ls_asset_id listing);
  nonce ← expect (checked_add U64 (ag_nonce agent) 1) "Agent nonce overflow";
  t ← now;
  save_agent (ls_asset_id listing) {| agent with ag_owner := ps_buyer pending; ag_nonce := nonce;
    ag_updated_at := t |};;
  publish (own_xfer (ls_asset_id listing) (ls_seller listing) (ps_buyer pending) t).

Definition record_sale (encoded_args : Bytes) : C () :=
  listing_id ← decode_u64 encoded_args;
  listing ← load_listing listing_id;
  o ← gets (λ s, PENDING_SALE_PREFIX s !! listing_id);
  pending ← expect o "No pending sale";
  fees ← compute_settlement_fees (ls_asset_id listing) (ps_amount pending);
  let royalty_amount := fst fees in
  let platform_fee := snd fees in
  rest ← expect (checked_sub I128 (ps_amount pending) royalty_amount) "Seller amount underflow";
  seller_amount ← expect (checked_sub I128 rest platform_fee) "Platform-fee underflow";
  agent ← load_agent (ls_asset_id listing);
  t ← now;
  save_agent (ls_asset_id listing) (released t agent);;
  set_listing listing_id {| listing with ls_active := false |};;
  record_transaction listing_id (ls_asset_id listing) (ls_seller listing) (ps_buyer pending) (ps_amount pending)
    royalty_amount platform_fee "sale";;
  remove_pending_sale listing_id;;
  publish (agnt_sold listing_id (ls_asset_id listing) (ps_buyer pending) seller_amount royalty_amount platform_fee);;
  marketplace ← self_address;
  publish (esc_rel (ls_asset_id listing) (ps_buyer pending) marketplace).

(** The agent after a rolled back sale: ownership restored if it had moved, escrow
    released if it was held. *)
Definition rollback_agent (pending : PendingSale) (asset_id : Z) (agent : Agent) : C () :=
  t ← now;
  agent ← (if bool_decide (ag_owner agent = ps_buyer pending) then
      nonce ← expect (checked_add U64 (ag_nonce agent) 1) "Nonce overflow";
      publish (rb_own asset_id (ps_buyer pending) (ps_seller pending) t);;
      mret {| agent with ag_owner := ps_seller pending; ag_nonce := nonce; ag_updated_at := t |}
    else mret agent);
  agent ← (if ag_escrow_locked agent then
      publish (rb_esc asset_id t);;
      mret (released t agent)
    else mret agent);
  save_agent asset_id agent.
Definition rollback (encoded_args : Bytes) : C () :=
  if bool_decide (encoded_args = []) then mret tt
  else
    listing_id ← decode_u64 encoded_args;
    pending_opt ← gets (λ s, PENDING_SALE_PREFIX s !! listing_id);
    match pending_opt with
    | None => mret tt
    | Some pending =>
        listing_opt ← try_load_listing listing_id;
        (match listing_opt with
         | Some listing =>
             agent_opt ← try_load_agent (ls_asset_id listing);
             match agent_opt with
             | Some agent => rollback_agent pending (ls_asset_id listing) agent
             | None => mret tt
             end
         | None => mret tt
         end);;
        remove_pending_sale listing_id
    end.

Definition exec_step (step_index : Z) (encoded_args : Bytes) : C () :=
  if step_index =? 0 then verify_sale encoded_args
  else if step_index =? 1 then transfer_ownership encoded_args
  else if step_index =? 2 then record_sale encoded_args
  else panic "Unknown step index".

Definition wf_done (workflow_id status : Z) : C () :=
  listing_id ← gets (λ s, WF_LISTING_PREFIX s !! workflow_id);
  match listing_id with
  | None => mret tt
  | Some lid =>
      t ← now;
      if status =? 2 then
        modify (λ s, {| s with WF_LISTING_PREFIX := delete workflow_id (WF_LISTING_PREFIX s) |});;
        publish (cb_ok workflow_id lid t)
      else if (3 <=? status) && (status <=? 5) then
        o ← try_load_listing lid;
        (match o with
         | Some listing =>
             if negb (ls_active listing) then set_listing lid {| listing with ls_active := true |} else mret tt
         | None => mret tt
         end);;
        remove_pending_sale lid;;
        modify (λ s, {| s with WF_LISTING_PREFIX := delete workflow_id (WF_LISTING_PREFIX s) |});;
        publish (cb_fail workflow_id lid status t)
      else mret tt
  end.

(** ** Expiry and cancellation *)

(** One listing of [cleanup_expired_listings]. *)
Definition expire_one (current_time : Z) (marketplace : Address) (expired_listings : list Z) (listing_id : Z) :
    C (list Z) :=
  o ← try_load_listing listing_id;
  match o with
  | None => mret expired_listings
  | Some listing =>
      if ls_active listing && (ls_expires_at listing <? current_time) then
        set_listing listing_id {| listing with ls_active := false |};;
        agent ← load_agent (ls_asset_id listing);
        (if ag_escrow_locked agent && held_by marketplace agent then
           agent ← release_bumped current_time agent;
           save_agent (ls_asset_id listing) agent
         else mret tt);;
        publish (lst_exp listing_id (ls_asset_id listing) current_time);;
        mret (expired_listings ++ [listing_id])
      else mret expired_listings
  end.
Definition cleanup_expired_listings (listing_ids : list Z) : C (list Z) :=
  current_time ← now;
  marketplace ← self_address;
  foldM (expire_one current_time marketplace) [] listing_ids.

Definition cancel_listing (listing_id : Z) (seller : Address) : C () :=
  require_auth seller;;
  panic_if (listing_id =? 0) "Invalid listing ID";;
  listing ← load_listing listing_id;
  panic_if (bool_decide (ls_seller listing ≠ seller)) "Only seller can cancel listing";;
  panic_if (negb (ls_active listing)) "Listing is not active";;
  marketplace ← self_address;
  agent ← load_agent (ls_asset_id listing);
  (if ag_escrow_locked agent then
     panic_if (negb (held_by marketplace agent)) "Agent locked by a different contract";;
     t ← now;
     agent ← release_bumped t agent;
     save_agent (ls_asset_id listing) agent
   else mret tt);;
  set_listing listing_id {| listing with ls_active := false |};;
  publish (lst_cncl listing_id (ls_asset_id listing) seller).

(** ** Offers *)

Definition make_offer (listing_id : Z) (offerer : Address) (amount : Z) (duration_days : option Z) : C Z :=
  require_auth offerer;;
  panic_if (listing_id =? 0) "Invalid listing ID";;
  panic_if ((amount <=? 0) || (amount >? PRICE_UPPER_BOUND)) "Invalid offer amount";;
  listing ← load_listing listing_id;
  panic_if (negb (ls_active listing)) "Listing is not active";;
  t ← now;
  panic_if (ls_expires_at listing <? t) "Listing has expired";;
  offer_id ← next_offer_id;
  expires_at ← after_days t (default 7 duration_days);
  set_offer offer_id (mkOffer offer_id listing_id offerer amount true t expires_at);;
  publish (ofr_made offer_id listing_id offerer amount expires_at);;
  mret offer_id.

Definition accept_offer (offer_id : Z) (seller : Address) : C (Z * Z) :=
  require_auth seller;;
  panic_if (offer_id =? 0) "Invalid offer ID";;
  offer ← load_offer offer_id;
  panic_if (negb (of_active offer)) "Offer is not active";;
  t ← now;
  panic_if (of_expires_at offer <? t) "Offer has expired";;
  listing ← load_listing (of_listing_id offer);
  panic_if (bool_decide (ls_seller listing ≠ seller)) "Only listing seller can accept offers";;
  panic_if (negb (ls_active listing)) "Listing is no longer active";;
  set_offer offer_id {| offer with of_active := false |};;
  buy_agent (of_listing_id offer) (of_offerer offer) (of_amount offer).

Definition reject_offer (offer_id : Z) (caller : Address) : C () :=
  require_auth caller;;
  offer ← load_offer offer_id;
  listing ← load_listing (of_listing_id offer);
  panic_if (bool_decide (ls_seller listing ≠ caller) && bool_decide (of_offerer offer ≠ caller))
    "Only involved parties can reject offers";;
  if of_active offer then
    set_offer offer_id {| offer with of_active := false |};;
    t ← now;
    publish (ofr_rjct offer_id caller t)
  else mret tt.

Definition make_counter_offer (seller : Address) (offer_id amount : Z) (duration_days : option Z) : C Z :=
  require_auth seller;;
  panic_if (offer_id =? 0) "Invalid offer ID";;
  panic_if ((amount <=? 0) || (amount >? PRICE_UPPER_BOUND)) "Invalid counter-offer amount";;
  offer ← load_offer offer_id;
  panic_if (negb (of_active offer)) "Original offer is not active";;
  listing ← load_listing (of_listing_id offer);
  panic_if (bool_decide (ls_seller listing ≠ seller)) "Only listing seller can counter-offer";;
  panic_if (negb (ls_active listing)) "Listing is not active";;
  counter_id ← next_counter_offer_id;
  t ← now;
  let days := default DEFAULT_COUNTER_OFFER_DAYS duration_days in
  secs ← expect (checked_mul U64 days (24 * 60 * 60)) "Duration overflow";
  expires_at ← expect (checked_add U64 t secs) "Expiry overflow";
  set_counter_offer counter_id (mkCounter counter_id (of_listing_id offer) offer_id seller amount true t expires_at);;
  publish (cofr_made counter_id offer_id seller amount expires_at);;
  mret counter_id.

Definition accept_counter_offer (offerer : Address) (counter_id : Z) : C (Z * Z) :=
  require_auth offerer;;
  panic_if (counter_id =? 0) "Invalid counter ID";;
  counter ← load_counter_offer counter_id;
  panic_if (negb (cn_active counter)) "Counter offer is not active";;
  t ← now;
  panic_if (cn_expires_at counter <? t) "Counter offer has expired";;
  original_offer ← load_offer (cn_in_response_to_offer_id counter);
  panic_if (bool_decide (of_offerer original_offer ≠ offerer)) "Only original offerer can accept counter";;
  set_counter_offer counter_id {| counter with cn_active := false |};;
  set_offer (cn_in_response_to_offer_id counter) {| original_offer with of_active := false |};;
  buy_agent (cn_listing_id counter) offerer (cn_amount counter).

Definition reject_counter_offer (caller : Address) (counter_id : Z) : C () :=
  require_auth caller;;
  counter ← load_counter_offer counter_id;
  original_offer ← load_offer (cn_in_response_to_offer_id counter);
  panic_if (bool_decide (cn_by_seller counter ≠ caller) && bool_decide (of_offerer original_offer ≠ caller))
    "Only involved parties can reject counter";;
  if cn_active counter then
    set_counter_offer counter_id {| counter with cn_active := false |};;
    t ← now;
    publish (cofr_rjct counter_id caller t)
  else mret tt.

(** ** Auctions *)

Definition cancel_auction_asset_return (auction : Auction) : C () :=
  marketplace ← self_address;
  agent ← load_agent (au_agent_id auction);
  if ag_escrow_locked agent then
    panic_if (negb (held_by marketplace agent)) "Agent locked by different contract";;
    t ← now;
    save_agent (au_agent_id auction) (released t agent)
  else mret tt.

Definition process_auction_sale (auction : Auction) (buyer : Address) : C () :=
  agent ← load_agent (au_agent_id auction);
  t ← now;
  nonce ← expect (checked_add U64 (ag_nonce agent) 1) "Nonce overflow";
  save_agent (au_agent_id auction) {| (released t agent) with ag_owner := buyer; ag_nonce := nonce |};;
  royalty_info ← gets (λ s, ROYALTY_PREFIX s !! au_agent_id auction);
  o ← gets PLATFORM_FEE_KEY;
  platform_fee_config ← expect o "Platform fee not configured";
  royalty_amount ← (match royalty_info with
    | Some r =>
        if ri_fee r <=? MAX_ROYALTY_PERCENTAGE then
          p ← plain_mul I128 (au_highest_bid auction) (ri_fee r);
          plain_div I128 p 10000
        else mret 0
    | None => mret 0
    end);
  p ← plain_mul I128 (au_highest_bid auction) (pf_fee_bps platform_fee_config);
  platform_fee ← plain_div I128 p 10000;
  rest ← plain_sub I128 (au_highest_bid auction) royalty_amount;
  seller_amount ← plain_sub I128 rest platform_fee;
  record_transaction 0 (au_agent_id auction) (au_seller auction) buyer (au_highest_bid auction) royalty_amount
    platform_fee "auction_won";;
  publish (auc_sold (au_auction_id auction) (au_agent_id auction) (au_seller auction) buyer seller_amount
    royalty_amount platform_fee).

(** The checks and the record of an English auction. *)
Definition check_auction_args (agent_id start_price reserve_price duration_days : Z) : C () :=
  panic_if (agent_id =? 0) "Invalid agent ID";;
  panic_if ((start_price <=? 0) || (reserve_price <=? 0)) "Prices must be positive";;
  panic_if (reserve_price >? start_price) "Reserve price cannot exceed start price";;
  panic_if ((duration_days =? 0) || (duration_days >? 365)) "Invalid auction duration".
Definition open_auction (agent_id : Z) (seller : Address) (start_price reserve_price duration_days : Z)
    (min_bid_increment_bps : option Z) : C (Z * Z) :=
  agent ← load_own_agent agent_id seller "Only owner can create auctions";
  auction_id ← next_auction_id;
  current_time ← now;
  end_time ← after_days current_time duration_days;
  let min_increment := default MIN_BID_INCREMENT_BPS min_bid_increment_bps in
  panic_if ((min_increment <? 10) || (min_increment >? 10000)) "Invalid bid increment (must be 0.1% to 100%)";;
  marketplace ← self_address;
  save_agent agent_id (locked marketplace current_time agent);;
  set_auction auction_id (mkAuction auction_id agent_id seller English start_price reserve_price start_price
    None 0 current_time end_time min_increment Active None None None);;
  mret (auction_id, end_time).

Definition create_auction (agent_id : Z) (seller : Address) (start_price reserve_price duration_days : Z)
    (min_bid_increment_bps : option Z) : C Z :=
  require_auth seller;;
  check_auction_args agent_id start_price reserve_price duration_days;;
  r ← open_auction agent_id seller start_price reserve_price duration_days min_bid_increment_bps;
  publish (auc_creat (fst r) agent_id seller start_price (snd r));;
  mret (fst r).

Definition create_auction_with_extension (agent_id : Z) (seller : Address)
    (start_price reserve_price duration_days : Z) (min_bid_increment_bps extension_window_secs extension_secs : option Z) :
    C Z :=
  require_auth seller;;
  check_auction_args agent_id start_price reserve_price duration_days;;
  r ← open_auction agent_id seller start_price reserve_price duration_days min_bid_increment_bps;
  let ext_window := default EXTENSION_WINDOW_SECS extension_window_secs in
  let ext_secs := default DEFAULT_EXTENSION_SECS extension_secs in
  panic_if (ext_secs =? 0) "Extension duration must be positive";;
  modify (λ s, {| s with ext_cfg := <[fst r := (ext_window, ext_secs)]> (ext_cfg s) |});;
  publish (auc_ext_new (fst r) agent_id start_price (snd r) ext_window ext_secs);;
  mret (fst r).

(** The checks of a bid, and the refund notice to the bidder who is outbid. *)
Definition check_bid (auction_id : Z) (bidder : Address) (bid_amount : Z) : C Auction :=
  require_auth bidder;;
  panic_if (auction_id =? 0) "Invalid auction ID";;
  panic_if (bid_amount <=? 0) "Bid amount must be positive";;
  auction ← load_auction auction_id;
  current_time ← now;
  panic_if (bool_decide (au_status auction ≠ Active)) "Auction is not active";;
  panic_if (current_time >? au_end_time auction) "Auction has ended";;
  minimum ← min_bid auction;
  panic_if (bid_amount <? minimum) "Bid too low";;
  (match au_highest_bidder auction with
   | Some prev_bidder => publish (bid_refnd auction_id prev_bidder (au_highest_bid auction) current_time)
   | None => mret tt
   end);;
  mret auction.

(** The new highest bid is recorded and stored. *)
Definition store_bid (auction_id : Z) (bidder : Address) (bid_amount : Z) (auction : Auction) : C () :=
  current_time ← now;
  bid_sequence ← record_bid auction_id bidder bid_amount current_time;
  set_auction auction_id {| auction with au_highest_bidder := Some bidder; au_highest_bid := bid_amount;
    au_current_price := bid_amount |};;
  publish (bid_plcd auction_id bidder bid_amount bid_sequence current_time).

Definition place_bid (auction_id : Z) (bidder : Address) (bid_amount : Z) : C () :=
  auction ← check_bid auction_id bidder bid_amount;
  store_bid auction_id bidder bid_amount auction.

(** The auction with its end moved when the bid falls in the extension window. *)
Definition extend_auction (auction_id : Z) (auction : Auction) : C Auction :=
  current_time ← now;
  ext_config ← gets (λ s, ext_cfg s !! auction_id);
  match ext_config with
  | Some (ext_window, ext_secs) =>
      let time_remaining := saturating_sub U64 (au_end_time auction) current_time in
      if time_remaining <=? ext_window then
        new_end_time ← plain_add U64 (au_end_time auction) ext_secs;
        publish (auc_ext auction_id new_end_time current_time);;
        mret {| auction with au_end_time := new_end_time |}
      else mret auction
  | None => mret auction
  end.
Definition place_bid_with_extension (auction_id : Z) (bidder : Address) (bid_amount : Z) : C () :=
  auction ← check_bid auction_id bidder bid_amount;
  auction ← extend_auction auction_id auction;
  store_bid auction_id bidder bid_amount auction.

Definition finalize_auction (auction_id : Z) : C () :=
  panic_if (auction_id =? 0) "Invalid auction ID";;
  auction ← load_auction auction_id;
  current_time ← now;
  panic_if (bool_decide (au_status auction ≠ Active)) "Auction already processed";;
  panic_if (current_time <=? au_end_time auction) "Auction has not ended yet";;
  auction ← (if au_highest_bid auction >=? au_reserve_price auction then
      let auction := {| auction with au_status := Won |} in
      (match au_highest_bidder auction with
       | Some buyer => process_auction_sale auction buyer
       | None => mret tt
       end);;
      publish (auc_won auction_id (au_highest_bidder auction) (au_highest_bid auction) current_time);;
      mret auction
    else
      let auction := {| auction with au_status := Ended |} in
      cancel_auction_asset_return auction;;
      publish (auc_exp auction_id (au_reserve_price auction) (au_highest_bid auction) current_time);;
      mret auction);
  set_auction auction_id auction.

Definition create_dutch_auction (agent_id : Z) (seller : Address) (start_price reserve_price duration_days : Z) : C Z :=
  require_auth seller;;
  panic_if (agent_id =? 0) "Invalid agent ID";;
  panic_if ((start_price <=? 0) || (reserve_price <? 0) || (start_price <? reserve_price))
    "Invalid Dutch auction price bounds";;
  panic_if ((duration_days =? 0) || (duration_days >? 365)) "Invalid auction duration";;
  agent ← load_own_agent agent_id seller "Only owner can create auctions";
  auction_id ← next_auction_id;
  t ← now;
  secs ← expect (checked_mul U64 duration_days (24 * 60 * 60)) "Duration overflow";
  end_time ← expect (checked_add U64 t secs) "end_time overflow";
  marketplace ← self_address;
  save_agent agent_id (locked marketplace t agent);;
  set_auction auction_id (mkAuction auction_id agent_id seller Dutch start_price reserve_price start_price
    None 0 t end_time MIN_BID_INCREMENT_BPS Active (Some (to_be_bytes t)) None None);;
  publish (dutch_new auction_id agent_id seller start_price end_time);;
  mret auction_id.

Definition dutch_buy_now (auction_id : Z) (buyer : Address) (bid_amount : Z) : C () :=
  require_auth buyer;;
  panic_if (auction_id =? 0) "Invalid auction ID";;
  panic_if (bid_amount <=? 0) "Bid amount must be positive";;
  auction ← load_auction auction_id;
  panic_if (bool_decide (au_auction_type auction ≠ Dutch)) "Auction is not Dutch";;
  panic_if (bool_decide (au_status auction ≠ Active)) "Dutch auction is not active";;
  t ← now;
  panic_if (t >? au_end_time auction) "Dutch auction has ended";;
  panic_if (t <? au_start_time auction) "Dutch auction has not started";;
  decay_price ← dutch_current_price auction;
  panic_if (bid_amount <? decay_price) "Bid below current Dutch price";;
  panic_if (bid_amount <? au_reserve_price auction) "Bid below reserve price";;
  let auction := {| auction with au_highest_bidder := Some buyer; au_highest_bid := bid_amount;
    au_current_price := bid_amount; au_status := Won |} in
  set_auction auction_id auction;;
  process_auction_sale auction buyer.

Definition create_sealed_bid_auction (agent_id : Z) (seller : Address)
    (start_price reserve_price commit_duration_secs reveal_duration_secs : Z) : C Z :=
  require_auth seller;;
  panic_if ((agent_id =? 0) || (start_price <=? 0) || (reserve_price <=? 0)) "Invalid sealed-bid auction params";;
  panic_if (reserve_price >? start_price) "Reserve cannot exceed start";;
  panic_if ((commit_duration_secs =? 0) || (reveal_duration_secs <=? commit_duration_secs))
    "Invalid sealed-bid timeline";;
  agent ← load_own_agent agent_id seller "Only owner can create auctions";
  auction_id ← next_auction_id;
  t ← now;
  commit_end ← expect (checked_add U64 t commit_duration_secs) "commit-end overflow";
  reveal_end ← expect (checked_add U64 commit_end reveal_duration_secs) "reveal-end overflow";
  marketplace ← self_address;
  save_agent agent_id (locked marketplace t agent);;
  set_auction auction_id (mkAuction auction_id agent_id seller Sealed start_price reserve_price start_price
    None 0 t reveal_end MIN_BID_INCREMENT_BPS Active None (Some commit_end) (Some reveal_end));;
  publish (seal_new auction_id agent_id seller start_price reveal_end);;
  mret auction_id.

Definition commit_bid (auction_id : Z) (bidder : Address) (commitment : Bytes) (deposit : Z) : C () :=
  require_auth bidder;;
  panic_if (auction_id =? 0) "Invalid auction ID";;
  panic_if (deposit <=? 0) "Deposit must be positive";;
  auction ← load_auction auction_id;
  panic_if (bool_decide (au_auction_type auction ≠ Sealed)) "Auction is not sealed";;
  t ← now;
  commit_end ← expect (au_sealed_commit_end auction) "missing commit end";
  panic_if (t >? commit_end) "Commit phase has ended";;
  modify (λ s, {| s with SEALED_COMMIT_PREFIX :=
    <[(auction_id, bidder) := mkCommit bidder commitment deposit t]> (SEALED_COMMIT_PREFIX s) |});;
  publish (scm_made auction_id bidder deposit t).

Definition reveal_bid (auction_id : Z) (bidder : Address) (amount : Z) (nonce : string) : C () :=
  require_auth bidder;;
  panic_if (auction_id =? 0) "Invalid auction ID";;
  panic_if (amount <=? 0) "Reveal amount must be positive";;
  auction ← load_auction auction_id;
  panic_if (bool_decide (au_auction_type auction ≠ Sealed)) "Auction is not sealed";;
  t ← now;
  commit_end ← expect (au_sealed_commit_end auction) "missing commit end";
  reveal_end ← expect (au_sealed_reveal_end auction) "missing reveal end";
  panic_if (t <=? commit_end) "Reveal phase has not started";;
  panic_if (t >? reveal_end) "Reveal phase has ended";;
  o ← gets (λ s, SEALED_COMMIT_PREFIX s !! (auction_id, bidder));
  commit ← expect o "No commit found for this bidder";
  modify (λ s, {| s with SEALED_REVEAL_PREFIX :=
    <[(auction_id, bidder) := mkReveal bidder amount nonce (sc_deposit commit) t]> (SEALED_REVEAL_PREFIX s) |});;
  (if amount >? au_highest_bid auction then
     set_auction auction_id {| auction with au_highest_bidder := Some bidder; au_highest_bid := amount;
       au_current_price := amount |}
   else mret tt);;
  publish (srev_done auction_id bidder amount t).

Definition finalize_sealed_auction (auction_id : Z) : C () :=
  panic_if (auction_id =? 0) "Invalid auction ID";;
  auction ← load_auction auction_id;
  panic_if (bool_decide (au_auction_type auction ≠ Sealed)) "Auction is not sealed";;
  t ← now;
  reveal_end ← expect (au_sealed_reveal_end auction) "missing reveal end";
  panic_if (t <=? reveal_end) "Reveal phase has not ended";;
  panic_if (bool_decide (au_status auction ≠ Active)) "Auction already processed";;
  auction ← (if bool_decide (is_Some (au_highest_bidder auction)) &&
                (au_highest_bid auction >=? au_reserve_price auction) then
      let auction := {| auction with au_status := Won |} in
      winner ← expect (au_highest_bidder auction) "winner present";
      process_auction_sale auction winner;;
      mret auction
    else
      let auction := {| auction with au_status := Ended |} in
      cancel_auction_asset_return auction;;
      publish (seal_end auction_id (au_reserve_price auction) (au_highest_bid auction) t);;
      mret auction);
  set_auction auction_id auction.

(** ** Disputes and history *)

Definition open_dispute (listing_id : Z) (initiator : Address) (reason : string) (evidence_cid : option string) : C Z :=
  require_auth initiator;;
  panic_if (listing_id =? 0) "Invalid listing ID";;
  panic_if (bool_decide (reason = "") || (Z.of_nat (String.length reason) >? 1024)) "Invalid dispute reason length";;
  dispute_id ← next_dispute_id;
  t ← now;
  modify (λ s, {| s with DISPUTE_PREFIX :=
    <[dispute_id := mkDispute dispute_id listing_id AgentAsset initiator reason evidence_cid Open t None]>
      (DISPUTE_PREFIX s) |});;
  publish (dsp_open dispute_id listing_id initiator t);;
  mret dispute_id.

Definition resolve_dispute (dispute_id : Z) (admin : Address) (ruling : bool) (resolution_notes : option string) : C () :=
  require_auth admin;;
  assert_admin admin;;
  panic_if (dispute_id =? 0) "Invalid dispute ID";;
  o ← gets (λ s, DISPUTE_PREFIX s !! dispute_id);
  dispute ← expect o "Dispute not found";
  panic_if (bool_decide (ds_status dispute ≠ Open)) "Dispute is already resolved";;
  t ← now;
  modify (λ s, {| s with DISPUTE_PREFIX :=
    <[dispute_id := {| dispute with ds_resolved_at := Some t;
        ds_status := if ruling then Resolved else Rejected |}]> (DISPUTE_PREFIX s) |});;
  publish (dsp_res dispute_id ruling t resolution_notes).

Definition get_active_disputes (dispute_ids : list Z) : C (list Dispute) :=
  foldM (λ active_disputes dispute_id,
    o ← try_load_dispute dispute_id;
    mret (match o with
          | Some dispute => if bool_decide (ds_status dispute = Open) then active_disputes ++ [dispute]
                            else active_disputes
          | None => active_disputes
          end)) [] dispute_ids.

Definition get_user_transactions (user : Address) (txn_ids : list Z) : C (list TransactionRecord) :=
  foldM (λ user_txns txn_id,
    o ← gets (λ s, TRANSACTION_HISTORY_PREFIX s !! txn_id);
    mret (match o with
          | Some record =>
              if bool_decide (tx_seller record = user) || bool_decide (tx_buyer record = user)
              then user_txns ++ [record] else user_txns
          | None => user_txns
          end)) [] txn_ids.

Definition get_platform_analytics (admin : Address) : C (Z * Z * Z) :=
  require_auth admin;;
  assert_admin admin;;
  mret (0, 0, 0).

(** ** Fees and royalties *)

Definition set_platform_fee (admin : Address) (fee_bps : Z) (recipient : Address) : C () :=
  require_auth admin;;
  assert_admin admin;;
  panic_if (fee_bps >? 1000) "Platform fee cannot exceed 10%";;
  o ← gets PLATFORM_FEE_KEY;
  config ← expect o "Platform fee config not found";
  modify (λ s, {| s with PLATFORM_FEE_KEY := Some {| config with pf_fee_bps := fee_bps; pf_recipient := recipient |} |});;
  t ← now;
  publish (fee_upd fee_bps recipient t).

Definition set_royalty (agent_id : Z) (creator recipient : Address) (percentage : Z) : C () :=
  require_auth creator;;
  panic_if (agent_id =? 0) "Invalid agent ID";;
  panic_if (percentage >? MAX_ROYALTY_PERCENTAGE) "Royalty exceeds maximum";;
  agent ← load_agent agent_id;
  panic_if (bool_decide (ag_owner agent ≠ creator)) "Only agent owner can set royalty";;
  modify (λ s, {| s with ROYALTY_PREFIX := <[agent_id := mkRoyaltyInfo recipient percentage]> (ROYALTY_PREFIX s) |});;
  publish (roy_set agent_id percentage).

Definition get_royalty (agent_id : Z) : C (option RoyaltyInfo) :=
  panic_if (agent_id =? 0) "Invalid agent ID";;
  gets (λ s, ROYALTY_PREFIX s !! agent_id).

Definition set_fee_splits (admin : Address) (platform_share_bps creator_share_bps collection_share_bps : Z)
    (extra_recipients : list FeeSplitRecipient) : C () :=
  require_auth admin;;
  assert_admin admin;;
  two ← plain_add U32 platform_share_bps creator_share_bps;
  three ← plain_add U32 two collection_share_bps;
  total ← foldM (λ total r, expect (checked_add U32 total (fr_share_bps r)) "Fee share overflow") three extra_recipients;
  panic_if (total >? 10000) "Total fee shares exceed 100%";;
  modify (λ s, {| s with FEE_SPLIT_KEY :=
    Some (mkSplits platform_share_bps creator_share_bps collection_share_bps extra_recipients total) |});;
  publish (fee_split platform_share_bps creator_share_bps collection_share_bps total).

Definition get_fee_splits : C (option FeeSplitConfig) := gets FEE_SPLIT_KEY.

(** ** Batches *)

(** One listing of [batch_create_listings]. *)
Definition list_one (seller : Address) (listing_type_enum : ListingType) (price current_time expires_at : Z)
    (marketplace : Address) (listing_ids : list Z) (agent_id : Z) : C (list Z) :=
  panic_if (agent_id =? 0) "Invalid agent ID";;
  agent ← load_own_agent agent_id seller "Only agent owner can create listings";
  listing_id ← next_listing_id;
  set_listing listing_id (mkListing listing_id agent_id AgentAsset seller price listing_type_enum true
    current_time expires_at);;
  save_agent agent_id (locked marketplace current_time agent);;
  publish (lst_creat listing_id agent_id seller price);;
  mret (listing_ids ++ [listing_id]).
Definition batch_create_listings (seller : Address) (listing_type price : Z) (agent_ids : list Z) : C (list Z) :=
  require_auth seller;;
  let count := Z.of_nat (length agent_ids) in
  panic_if ((count =? 0) || (count >? MAX_BATCH_SIZE)) "Batch size out of bounds";;
  panic_if (listing_type >? 2) "Invalid listing type";;
  panic_if (negb (price_in_range price)) "Price out of valid range";;
  listing_type_enum ← listing_type_of listing_type;
  current_time ← now;
  expires_at ← expect (checked_add U64 current_time DEFAULT_LISTING_DURATION) "Expiry overflow";
  marketplace ← self_address;
  listing_ids ← foldM (list_one seller listing_type_enum price current_time expires_at marketplace) [] agent_ids;
  publish (batch_lst seller count current_time);;
  mret listing_ids.

(** One listing of [batch_cancel_listings]. *)
Definition cancel_one (seller marketplace : Address) (cancelled : Z) (listing_id : Z) : C Z :=
  o ← try_load_listing listing_id;
  match o with
  | None => mret cancelled
  | Some listing =>
      if bool_decide (ls_seller listing ≠ seller) || negb (ls_active listing) then mret cancelled
      else
        a ← try_load_agent (ls_asset_id listing);
        (match a with
         | Some agent =>
             if ag_escrow_locked agent && held_by marketplace agent then
               t ← now;
               agent ← release_bumped t agent;
               save_agent (ls_asset_id listing) agent
             else mret tt
         | None => mret tt
         end);;
        set_listing listing_id {| listing with ls_active := false |};;
        cancelled ← expect (checked_add U32 cancelled 1) "Counter overflow";
        publish (lst_cncl listing_id (ls_asset_id listing) seller);;
        mret cancelled
  end.
Definition batch_cancel_listings (seller : Address) (listing_ids : list Z) : C Z :=
  require_auth seller;;
  let count := Z.of_nat (length listing_ids) in
  panic_if ((count =? 0) || (count >? MAX_BATCH_SIZE)) "Batch size out of bounds";;
  marketplace ← self_address;
  cancelled ← foldM (cancel_one seller marketplace) 0 listing_ids;
  t ← now;
  publish (batch_cnl seller cancelled t);;
  mret cancelled.

(** ** Collections *)

Definition create_collection (creator : Address) (name : string) (royalty_bps : Z) : C Z :=
  require_auth creator;;
  panic_if (bool_decide (name = "") || (Z.of_nat (String.length name) >? MAX_COLLECTION_NAME_LEN))
    "Invalid collection name";;
  panic_if (royalty_bps >? MAX_ROYALTY_PERCENTAGE) "Royalty exceeds maximum";;
  collection_id ← next_collection_id;
  t ← now;
  set_collection collection_id (mkCollection collection_id creator name [] (mkRoyaltyConfig [] royalty_bps 0 None) t t);;
  publish (coll_new collection_id creator t);;
  mret collection_id.

(** The checks of a change of a collection. *)
Definition load_own_collection (creator : Address) (collection_id : Z) : C Collection :=
  panic_if (collection_id =? 0) "Invalid collection ID";;
  coll ← load_collection collection_id;
  panic_if (bool_decide (co_creator coll ≠ creator)) "Only creator can modify collection";;
  mret coll.

(** One agent of [add_to_collection]. *)
Definition add_member (acc : Collection * Z) (agent_id : Z) : C (Collection * Z) :=
  let coll := fst acc in
  let added := snd acc in
  panic_if (agent_id =? 0) "Invalid agent ID";;
  if bool_decide (agent_id ∈ co_members coll) then mret (coll, added)
  else
    set_member_royalty agent_id (co_royalty_config coll);;
    added ← expect (checked_add U32 added 1) "Counter overflow";
    mret ({| coll with co_members := co_members coll ++ [agent_id] |}, added).
Definition add_to_collection (creator : Address) (collection_id : Z) (agent_ids : list Z) : C Z :=
  require_auth creator;;
  coll ← load_own_collection creator collection_id;
  let count := Z.of_nat (length agent_ids) in
  panic_if ((count =? 0) || (count >? MAX_BATCH_SIZE)) "Batch size out of bounds";;
  r ← foldM add_member (coll, 0) agent_ids;
  t ← now;
  set_collection collection_id {| (fst r) with co_updated_at := t |};;
  publish (coll_add collection_id creator (snd r) t);;
  mret (snd r).

(** One agent of [remove_from_collection]. *)
Definition remove_member (acc : Collection * Z) (agent_id : Z) : C (Collection * Z) :=
  let coll := fst acc in
  let removed := snd acc in
  match last_index agent_id (co_members coll) with
  | None => mret (coll, removed)
  | Some found_idx =>
      modify (λ s, {| s with COLLECTION_ROYALTY_PREFIX := delete agent_id (COLLECTION_ROYALTY_PREFIX s) |});;
      removed ← expect (checked_add U32 removed 1) "Counter overflow";
      mret ({| coll with co_members := vec_remove found_idx (co_members coll) |}, removed)
  end.
Definition remove_from_collection (creator : Address) (collection_id : Z) (agent_ids : list Z) : C Z :=
  require_auth creator;;
  coll ← load_own_collection creator collection_id;
  let count := Z.of_nat (length agent_ids) in
  panic_if ((count =? 0) || (count >? MAX_BATCH_SIZE)) "Batch size out of bounds";;
  r ← foldM remove_member (coll, 0) agent_ids;
  t ← now;
  set_collection collection_id {| (fst r) with co_updated_at := t |};;
  publish (coll_rm collection_id creator (snd r) t);;
  mret (snd r).

Definition set_collection_royalty (creator : Address) (collection_id : Z) (recipients : list RoyaltyRecipient)
    (total_bps : Z) : C () :=
  require_auth creator;;
  panic_if (collection_id =? 0) "Invalid collection ID";;
  panic_if (total_bps >? MAX_ROYALTY_PERCENTAGE) "Royalty exceeds maximum";;
  coll ← load_own_collection creator collection_id;
  sum ← foldM (λ sum r, expect (checked_add U32 sum (rr_share_bps r)) "Royalty overflow") 0 recipients;
  panic_if (negb (sum =? total_bps)) "Royalty share total mismatch";;
  let config := mkRoyaltyConfig recipients total_bps 0 None in
  t ← now;
  set_collection collection_id {| coll with co_royalty_config := config; co_updated_at := t |};;
  foldM (λ _ m, set_member_royalty m config) tt (co_members coll);;
  publish (coll_roy collection_id total_bps t).

Definition get_collection (collection_id : Z) : C Collection := load_collection collection_id.
Definition get_collection_items (collection_id : Z) : C (list Z) :=
  coll ← load_collection collection_id;
  mret (co_members coll).

Definition set_collection_ipfs_metadata (creator : Address) (collection_id : Z) (metadata_uri : string) : C () :=
  require_auth creator;;
  panic_if (collection_id =? 0) "Invalid collection ID";;
  coll ← load_collection collection_id;
  panic_if (bool_decide (co_creator coll ≠ creator)) "Only creator can set collection metadata";;
  modify (λ s, {| s with IPFS_METADATA_PREFIX := <[collection_id := metadata_uri]> (IPFS_METADATA_PREFIX s) |});;
  t ← now;
  publish (ipfs_set collection_id metadata_uri t).
Definition get_collection_ipfs_metadata (collection_id : Z) : C (option string) :=
  gets (λ s, IPFS_METADATA_PREFIX s !! collection_id).

(** ** Roles *)

Definition assign_marketplace_governance (admin new_governance : Address) : C () :=
  require_auth admin;;
  assert_admin admin;;
  gov ← gets (λ s, default [] (GOV_ROLE_KEY s));
  (if bool_decide (new_governance ∈ gov) then mret tt
   else modify (λ s, {| s with GOV_ROLE_KEY := Some (gov ++ [new_governance]) |}));;
  t ← now;
  publish (gov_add new_governance t).
Definition assign_marketplace_kyc_operator (admin new_kyc : Address) : C () :=
  require_auth admin;;
  assert_admin admin;;
  kyc ← gets (λ s, default [] (KYC_ROLE_KEY s));
  (if bool_decide (new_kyc ∈ kyc) then mret tt
   else modify (λ s, {| s with KYC_ROLE_KEY := Some (kyc ++ [new_kyc]) |}));;
  t ← now;
  publish (kyc_add new_kyc t).

Definition remove_marketplace_governance (admin target : Address) : C () :=
  require_auth admin;;
  assert_admin admin;;
  gov ← gets (λ s, default [] (GOV_ROLE_KEY s));
  match last_index target gov with
  | Some found_idx =>
      modify (λ s, {| s with GOV_ROLE_KEY := Some (vec_remove found_idx gov) |});;
      t ← now;
      publish (gov_rm target t)
  | None => mret tt
  end.
Definition remove_marketplace_kyc_operator (admin target : Address) : C () :=
  require_auth admin;;
  assert_admin admin;;
  kyc ← gets (λ s, default [] (KYC_ROLE_KEY s));
  match last_index target kyc with
  | Some found_idx =>
      modify (λ s, {| s with KYC_ROLE_KEY := Some (vec_remove found_idx kyc) |});;
      t ← now;
      publish (kyc_rm target t)
  | None => mret tt
  end.

Definition require_governance_or_admin (caller : Address) : C () :=
  admin_opt ← gets ADMIN_KEY;
  gov_opt ← gets GOV_ROLE_KEY;
  if bool_decide (admin_opt = Some caller) then mret tt
  else if bool_decide (caller ∈ default [] gov_opt) then mret tt
  else panic "Unauthorized".

(** ** NFT listings and currencies *)

Definition create_nft_listing (nft_token_ref : NftTokenRef) (seller : Address) (price : Z) (currency_symbol : string)
    (currency_token_address : option Address) (duration_days : option Z) (metadata_uri : string) : C Z :=
  require_auth seller;;
  panic_if ((price <=? 0) || (price >? PRICE_UPPER_BOUND)) "Price out of valid range";;
  panic_if (bool_decide (currency_symbol = "")) "Currency symbol required";;
  nft_listing_id ← next_nft_listing_id;
  t ← now;
  expires_at ← (match duration_days with
    | Some days => after_days t days
    | None => plain_add U64 t DEFAULT_LISTING_DURATION
    end);
  set_nft_listing nft_listing_id (mkNftListing nft_listing_id nft_token_ref seller price currency_symbol
    currency_token_address true t expires_at metadata_uri);;
  publish (nft_lst nft_listing_id (nr_token_id nft_token_ref) seller price currency_symbol);;
  mret nft_listing_id.

Definition buy_nft_listing (nft_listing_id : Z) (buyer : Address) (payment_amount : Z) : C () :=
  require_auth buyer;;
  panic_if (nft_listing_id =? 0) "Invalid NFT listing ID";;
  panic_if (payment_amount <=? 0) "Payment must be positive";;
  nft_listing ← load_nft_listing nft_listing_id;
  panic_if (negb (nl_active nft_listing)) "NFT listing is not active";;
  t ← now;
  panic_if (nl_expires_at nft_listing <? t) "NFT listing has expired";;
  panic_if (payment_amount <? nl_price nft_listing) "Insufficient payment";;
  let token_id := nr_token_id (nl_nft_token_ref nft_listing) in
  fees ← compute_settlement_fees token_id payment_amount;
  let royalty_amount := fst fees in
  let platform_fee := snd fees in
  rest ← expect (checked_sub I128 payment_amount royalty_amount) "Seller amount underflow";
  _seller_amount ← expect (checked_sub I128 rest platform_fee) "Platform fee underflow";
  set_nft_listing nft_listing_id {| nft_listing with nl_active := false |};;
  record_transaction nft_listing_id token_id (nl_seller nft_listing) buyer payment_amount royalty_amount
    platform_fee "nft_sale";;
  publish (nft_sold nft_listing_id token_id buyer royalty_amount platform_fee).

Definition cancel_nft_listing (nft_listing_id : Z) (seller : Address) : C () :=
  require_auth seller;;
  panic_if (nft_listing_id =? 0) "Invalid NFT listing ID";;
  nft_listing ← load_nft_listing nft_listing_id;
  panic_if (bool_decide (nl_seller nft_listing ≠ seller)) "Only seller can cancel NFT listing";;
  panic_if (negb (nl_active nft_listing)) "NFT listing is not active";;
  set_nft_listing nft_listing_id {| nft_listing with nl_active := false |};;
  publish (nft_cncl nft_listing_id (nr_token_id (nl_nft_token_ref nft_listing)) seller).

Definition get_nft_listing (nft_listing_id : Z) : C NftListing := load_nft_listing nft_listing_id.

Definition register_currency (admin : Address) (symbol : string) (token_address : option Address) (decimals : Z) : C Z :=
  require_auth admin;;
  assert_admin admin;;
  panic_if (bool_decide (symbol = "")) "Currency symbol required";;
  panic_if (decimals >? 18) "Decimals cannot exceed 18";;
  currency_id ← next_currency_id;
  modify (λ s, {| s with CURRENCY_PREFIX :=
    <[currency_id := mkCurrency currency_id symbol token_address decimals true]> (CURRENCY_PREFIX s) |});;
  accepted ← gets (λ s, default [] (ACCEPTED_CURRENCY_KEY s));
  modify (λ s, {| s with ACCEPTED_CURRENCY_KEY := Some (accepted ++ [symbol]) |});;
  publish (ccy_reg currency_id symbol decimals);;
  mret currency_id.

Definition get_currency (currency_id : Z) : C CurrencyRecord :=
  o ← gets (λ s, CURRENCY_PREFIX s !! currency_id);
  expect o "Currency not found".
Definition deactivate_currency (admin : Address) (currency_id : Z) : C () :=
  require_auth admin;;
  assert_admin admin;;
  panic_if (currency_id =? 0) "Invalid currency ID";;
  record ← get_currency currency_id;
  modify (λ s, {| s with CURRENCY_PREFIX :=
    <[currency_id := {| record with cr_active := false |}]> (CURRENCY_PREFIX s) |});;
  publish (ccy_off currency_id (cr_symbol record)).
Definition get_accepted_currencies : C (list string) := gets (λ s, default [] (ACCEPTED_CURRENCY_KEY s)).

(** ** Queries *)

Definition get_auction_extension_config (auction_id : Z) : C (option (Z * Z)) := gets (λ s, ext_cfg s !! auction_id).
Definition get_listing (listing_id : Z) : C Listing := load_listing listing_id.
Definition get_pending_sale (listing_id : Z) : C (option PendingSale) := gets (λ s, PENDING_SALE_PREFIX s !! listing_id).
Definition get_admin : C Address := o ← gets ADMIN_KEY; expect o "Not initialized".
Definition get_execution_hub : C Address := get_hub.
End contract.

(** ** The contract as a transaction system *)

Inductive Call :=
| CInit (admin : Address)
| CSetAgentNft (admin nft : Address)
| CSetHub (admin hub : Address)
| CCreateListing (agent_id : Z) (seller : Address) (listing_type price : Z) (days : option Z)
| CBuyAgent (listing_id : Z) (buyer : Address) (amount : Z)
| CExecStep (step_index : Z) (args : Bytes)
| CRollback (args : Bytes)
| CWfDone (workflow_id status : Z)
| CCleanup (listing_ids : list Z)
| CCancelListing (listing_id : Z) (seller : Address)
| CMakeOffer (listing_id : Z) (offerer : Address) (amount : Z) (days : option Z)
| CAcceptOffer (offer_id : Z) (seller : Address)
| CRejectOffer (offer_id : Z) (caller : Address)
| CMakeCounter (seller : Address) (offer_id amount : Z) (days : option Z)
| CAcceptCounter (offerer : Address) (counter_id : Z)
| CRejectCounter (caller : Address) (counter_id : Z)
| CCreateAuction (agent_id : Z) (seller : Address) (start reserve days : Z) (bps : option Z)
| CCreateAuctionExt (agent_id : Z) (seller : Address) (start reserve days : Z) (bps window secs : option Z)
| CPlaceBid (auction_id : Z) (bidder : Address) (amount : Z)
| CPlaceBidExt (auction_id : Z) (bidder : Address) (amount : Z)
| CFinalize (auction_id : Z)
| CCreateDutch (agent_id : Z) (seller : Address) (start reserve days : Z)
| CDutchBuy (auction_id : Z) (buyer : Address) (amount : Z)
| CCreateSealed (agent_id : Z) (seller : Address) (start reserve commit reveal : Z)
| CCommit (auction_id : Z) (bidder : Address) (commitment : Bytes) (deposit : Z)
| CReveal (auction_id : Z) (bidder : Address) (amount : Z) (nonce : string)
| CFinalizeSealed (auction_id : Z)
| COpenDispute (listing_id : Z) (initiator : Address) (reason : string) (evidence : option string)
| CResolveDispute (dispute_id : Z) (admin : Address) (ruling : bool) (notes : option string)
| CSetPlatformFee (admin : Address) (fee_bps : Z) (recipient : Address)
| CSetRoyalty (agent_id : Z) (creator recipient : Address) (percentage : Z)
| CSetFeeSplits (admin : Address) (platform creator collection : Z) (extra : list FeeSplitRecipient)
| CBatchCreate (seller : Address) (listing_type price : Z) (agent_ids : list Z)
| CBatchCancel (seller : Address) (listing_ids : list Z)
| CCreateCollection (creator : Address) (name : string) (royalty_bps : Z)
| CAddToCollection (creator : Address) (collection_id : Z) (agent_ids : list Z)
| CRemoveFromCollection (creator : Address) (collection_id : Z) (agent_ids : list Z)
| CSetCollectionRoyalty (creator : Address) (collection_id : Z) (recipients : list RoyaltyRecipient) (total_bps : Z)
| CSetIpfs (creator : Address) (collection_id : Z) (uri : string)
| CAssignGov (admin a : Address)
| CAssignKyc (admin a : Address)
| CRemoveGov (admin a : Address)
| CRemoveKyc (admin a : Address)
| CCreateNft (ref : NftTokenRef) (seller : Address) (price : Z) (symbol : string) (tk : option Address)
    (days : option Z) (uri : string)
| CBuyNft (nft_listing_id : Z) (buyer : Address) (amount : Z)
| CCancelNft (nft_listing_id : Z) (seller : Address)
| CRegisterCurrency (admin : Address) (symbol : string) (tk : option Address) (decimals : Z)
| CDeactivateCurrency (admin : Address) (currency_id : Z).

Definition exec `{HubClient} (c : Call) : M State () Event () :=
  match c with
  | CInit a => init_contract a
  | CSetAgentNft a n => set_agent_nft_contract a n
  | CSetHub a h => set_execution_hub a h
  | CCreateListing i s ty p d => discard (create_listing i s ty p d)
  | CBuyAgent i b n => discard (buy_agent i b n)
  | CExecStep k args => exec_step k args
  | CRollback args => rollback args
  | CWfDone i st => wf_done i st
  | CCleanup ids => discard (cleanup_expired_listings ids)
  | CCancelListing i s => cancel_listing i s
  | CMakeOffer i o n d => discard (make_offer i o n d)
  | CAcceptOffer i s => discard (accept_offer i s)
  | CRejectOffer i c => reject_offer i c
  | CMakeCounter s i n d => discard (make_counter_offer s i n d)
  | CAcceptCounter o i => discard (accept_counter_offer o i)
  | CRejectCounter c i => reject_counter_offer c i
  | CCreateAuction i s p r d b => discard (create_auction i s p r d b)
  | CCreateAuctionExt i s p r d b w x => discard (create_auction_with_extension i s p r d b w x)
  | CPlaceBid i b n => place_bid i b n
  | CPlaceBidExt i b n => place_bid_with_extension i b n
  | CFinalize i => finalize_auction i
  | CCreateDutch i s p r d => discard (create_dutch_auction i s p r d)
  | CDutchBuy i b n => dutch_buy_now i b n
  | CCreateSealed i s p r c v => discard (create_sealed_bid_auction i s p r c v)
  | CCommit i b m d => commit_bid i b m d
  | CReveal i b n k => reveal_bid i b n k
  | CFinalizeSealed i => finalize_sealed_auction i
  | COpenDispute i a r ev => discard (open_dispute i a r ev)
  | CResolveDispute i a r n => resolve_dispute i a r n
  | CSetPlatformFee a f r => set_platform_fee a f r
  | CSetRoyalty i c r p => set_royalty i c r p
  | CSetFeeSplits a p c l x => set_fee_splits a p c l x
  | CBatchCreate s ty p ids => discard (batch_create_listings s ty p ids)
  | CBatchCancel s ids => discard (batch_cancel_listings s ids)
  | CCreateCollection c n r => discard (create_collection c n r)
  | CAddToCollection c i ids => discard (add_to_collection c i ids)
  | CRemoveFromCollection c i ids => discard (remove_from_collection c i ids)
  | CSetCollectionRoyalty c i rs t => set_collection_royalty c i rs t
  | CSetIpfs c i u => set_collection_ipfs_metadata c i u
  | CAssignGov a b => assign_marketplace_governance a b
  | CAssignKyc a b => assign_marketplace_kyc_operator a b
  | CRemoveGov a b => remove_marketplace_governance a b
  | CRemoveKyc a b => remove_marketplace_kyc_operator a b
  | CCreateNft r s p y t d u => discard (create_nft_listing r s p y t d u)
  | CBuyNft i b n => buy_nft_listing i b n
  | CCancelNft i s => cancel_nft_listing i s
  | CRegisterCurrency a y t d => discard (register_currency a y t d)
  | CDeactivateCurrency a i => deactivate_currency a i
  end.

(** The unsigned arguments of a call are non-negative, by their Rust types. *)
Definition call_ok (c : Call) : Prop :=
  match c with
  | CCreateListing i _ ty _ d => 0 ≤ i ∧ 0 ≤ ty ∧ 0 ≤ default 0 d
  | CCreateAuction i _ _ _ d b => 0 ≤ i ∧ 0 ≤ d ∧ 0 ≤ default 0 b
  | CCreateAuctionExt i _ _ _ d b w x => 0 ≤ i ∧ 0 ≤ d ∧ 0 ≤ default 0 b ∧ 0 ≤ default 0 w ∧ 0 ≤ default 0 x
  | CCreateDutch i _ _ _ d => 0 ≤ i ∧ 0 ≤ d
  | CCreateSealed i _ _ _ c r => 0 ≤ i ∧ 0 ≤ c ∧ 0 ≤ r
  | CSetPlatformFee _ f _ => 0 ≤ f
  | CSetRoyalty i _ _ p => 0 ≤ i ∧ 0 ≤ p
  | CSetFeeSplits _ p c l x => 0 ≤ p ∧ 0 ≤ c ∧ 0 ≤ l ∧ Forall (λ r, 0 ≤ fr_share_bps r) x
  | CSetCollectionRoyalty _ _ rs t => 0 ≤ t ∧ Forall (λ r, 0 ≤ rr_share_bps r) rs
  | CCreateCollection _ _ r => 0 ≤ r
  | CMakeOffer _ _ _ d | CMakeCounter _ _ _ d => 0 ≤ default 0 d
  | CCreateNft r _ _ _ _ d _ => 0 ≤ nr_token_id r ∧ 0 ≤ default 0 d
  | _ => True
  end.
