(* ===== verification/MarketSpec.v ===== *)
(** * contracts/marketplace: the market as a state machine

    What of the storage decides who owns and who may sell an agent, the steps it
    can take, and the refinement: every call of the contract is one such step. *)

From stdpp Require Import gmap strings list fin_maps.
From S2P Require Import Prelude Soroban Workflow MarketTypes Marketplace.
Open Scope Z_scope.

Record Market := mkMarket {
  m_agents : gmap Z Agent;
  m_listings : gmap Z Listing;
  m_auctions : gmap Z Auction;
  m_pending : gmap Z PendingSale;
  m_workflows : gmap Z Z;
  m_listing_ctr : Z;
  m_auction_ctr : Z;
  m_ext : gmap Z (Z * Z);
}.

Definition view (st : State) : Market :=
  mkMarket (AGENT_KEY_PREFIX st) (LISTING_PREFIX st) (AUCTION_PREFIX st) (PENDING_SALE_PREFIX st)
    (WF_LISTING_PREFIX st) (default 0 (LISTING_CTR_KEY st)) (default 0 (AUCTION_CTR_KEY st)) (ext_cfg st).

(** ** The steps *)

Section machine.
Context (self : Address) (t : Z).

(** An agent that the marketplace holds is given back. *)
Definition give_back (x : Agent) : Agent :=
  if ag_escrow_locked x && held_by self x then released t x else x.
(** The same with the agent's nonce raised. *)
Definition unlist_agent (x : Agent) : Agent :=
  if ag_escrow_locked x && held_by self x then {| (released t x) with ag_nonce := ag_nonce x + 1 |} else x.
(** A sale is undone. *)
Definition undo_sale (p : PendingSale) (x : Agent) : Agent :=
  let y := if bool_decide (ag_owner x = ps_buyer p)
           then {| x with ag_owner := ps_seller p; ag_nonce := ag_nonce x + 1; ag_updated_at := t |} else x in
  if ag_escrow_locked y then released t y else y.

(** Listings put up and taken down. *)
Inductive shelf : Market → Market → Prop :=
| sh_list m a x ty price ex :
    m_agents m !! a = Some x → ag_escrow_locked x = false →
    shelf m {| m with
      m_listings := <[m_listing_ctr m + 1 :=
        mkListing (m_listing_ctr m + 1) a AgentAsset (ag_owner x) price ty true t ex]> (m_listings m);
      m_listing_ctr := m_listing_ctr m + 1;
      m_agents := <[a := locked self t x]> (m_agents m) |}
| sh_unlist m i l :
    m_listings m !! i = Some l → ls_active l = true →
    shelf m {| m with
      m_listings := <[i := {| l with ls_active := false |}]> (m_listings m);
      m_agents := alter unlist_agent (ls_asset_id l) (m_agents m) |}.

(** An auction as it is opened. *)
Record opened (id : Z) (x : Agent) (a : Z) (au : Auction) : Prop := {
  op_id : au_auction_id au = id;
  op_agent : au_agent_id au = a;
  op_seller : au_seller au = ag_owner x;
  op_status : au_status au = Active;
  op_bidder : au_highest_bidder au = None;
  op_bid : au_highest_bid au = 0;
  op_prices : 0 ≤ au_reserve_price au ≤ au_start_price au ∧ 0 < au_start_price au;
  op_reserve : au_auction_type au ≠ Dutch → 0 < au_reserve_price au;
  op_times : au_start_time au = t ∧ t ≤ au_end_time au;
  op_bps : 0 ≤ au_min_bid_increment_bps au;
  op_sealed : au_auction_type au = Sealed → au_sealed_reveal_end au = Some (au_end_time au);
}.

(** The time of an auction is over. *)
Definition over (au : Auction) : Prop :=
  au_end_time au < t ∨ au_auction_type au = Sealed ∧ ∃ r, au_sealed_reveal_end au = Some r ∧ r < t.

Inductive mstep : Market → Market → Prop :=
| ms_shelf m m' : rtc shelf m m' → mstep m m'
| ms_open m a x au ext :
    m_agents m !! a = Some x → ag_escrow_locked x = false → opened (m_auction_ctr m + 1) x a au →
    (∀ c, ext = Some c → au_auction_type au = English ∧ 0 ≤ snd c) →
    mstep m {| m with
      m_auctions := <[m_auction_ctr m + 1 := au]> (m_auctions m);
      m_auction_ctr := m_auction_ctr m + 1;
      m_agents := <[a := locked self t x]> (m_agents m);
      m_ext := match ext with Some c => <[m_auction_ctr m + 1 := c]> (m_ext m) | None => m_ext m end |}
| ms_bid m i au b n end' :
    m_auctions m !! i = Some au → au_status au = Active → t ≤ au_end_time au →
    (if au_highest_bid au =? 0 then au_start_price au
     else au_highest_bid au + (au_highest_bid au * au_min_bid_increment_bps au) `quot` 10000) ≤ n → 0 < n →
    (end' = au_end_time au ∨ ∃ c, m_ext m !! i = Some c ∧ end' = au_end_time au + snd c) →
    mstep m {| m with m_auctions := <[i := {| au with au_highest_bidder := Some b; au_highest_bid := n;
      au_current_price := n; au_end_time := end' |}]> (m_auctions m) |}
| ms_reveal m i au b n c r :
    m_auctions m !! i = Some au → au_auction_type au = Sealed → au_sealed_commit_end au = Some c →
    au_sealed_reveal_end au = Some r → c < t ≤ r → 0 < n → au_highest_bid au < n →
    mstep m {| m with m_auctions := <[i := {| au with au_highest_bidder := Some b; au_highest_bid := n;
      au_current_price := n |}]> (m_auctions m) |}
| ms_sold m i au b x :
    m_auctions m !! i = Some au → au_status au = Active → over au → au_highest_bidder au = Some b →
    au_reserve_price au ≤ au_highest_bid au → m_agents m !! au_agent_id au = Some x →
    mstep m {| m with
      m_auctions := <[i := {| au with au_status := Won |}]> (m_auctions m);
      m_agents := <[au_agent_id au := {| (released t x) with ag_owner := b; ag_nonce := ag_nonce x + 1 |}]> (m_agents m) |}
| ms_dutch m i au b n x :
    m_auctions m !! i = Some au → au_status au = Active → au_auction_type au = Dutch →
    au_start_time au ≤ t ≤ au_end_time au → au_reserve_price au ≤ n → 0 < n → m_agents m !! au_agent_id au = Some x →
    mstep m {| m with
      m_auctions := <[i := {| au with au_highest_bidder := Some b; au_highest_bid := n; au_current_price := n;
        au_status := Won |}]> (m_auctions m);
      m_agents := <[au_agent_id au := {| (released t x) with ag_owner := b; ag_nonce := ag_nonce x + 1 |}]> (m_agents m) |}
| ms_unsold m i au :
    m_auctions m !! i = Some au → au_status au = Active → over au →
    (au_highest_bid au < au_reserve_price au ∨ au_auction_type au = Sealed ∧ au_highest_bidder au = None) →
    mstep m {| m with
      m_auctions := <[i := {| au with au_status := Ended |}]> (m_auctions m);
      m_agents := alter give_back (au_agent_id au) (m_agents m) |}
| ms_stuck m i au :
    m_auctions m !! i = Some au → au_status au = Active → over au → au_highest_bidder au = None →
    au_reserve_price au ≤ au_highest_bid au →
    mstep m {| m with m_auctions := <[i := {| au with au_status := Won |}]> (m_auctions m) |}
| ms_pend m i l x b n wid :
    m_listings m !! i = Some l → ls_active l = true → m_agents m !! ls_asset_id l = Some x →
    ag_escrow_locked x = true → ag_escrow_holder x = Some self → ls_price l ≤ n →
    mstep m {| m with
      m_pending := <[i := mkPending i b n (ls_seller l) (ls_asset_id l) wid t]> (m_pending m);
      m_workflows := <[wid := i]> (m_workflows m) |}
| ms_transfer m i l p x :
    m_listings m !! i = Some l → m_pending m !! i = Some p → m_agents m !! ls_asset_id l = Some x →
    mstep m {| m with m_agents := <[ls_asset_id l :=
      {| x with ag_owner := ps_buyer p; ag_nonce := ag_nonce x + 1; ag_updated_at := t |}]> (m_agents m) |}
| ms_record m i l p x :
    m_listings m !! i = Some l → m_pending m !! i = Some p → m_agents m !! ls_asset_id l = Some x →
    mstep m {| m with
      m_agents := <[ls_asset_id l := released t x]> (m_agents m);
      m_listings := <[i := {| l with ls_active := false |}]> (m_listings m);
      m_pending := delete i (m_pending m) |}
| ms_rollback m i p :
    m_pending m !! i = Some p →
    mstep m {| m with
      m_agents := match m_listings m !! i with
                  | Some l => alter (undo_sale p) (ls_asset_id l) (m_agents m) | None => m_agents m end;
      m_pending := delete i (m_pending m) |}
| ms_done m wid i :
    m_workflows m !! wid = Some i → mstep m {| m with m_workflows := delete wid (m_workflows m) |}
| ms_failed m wid i :
    m_workflows m !! wid = Some i →
    mstep m {| m with
      m_listings := alter (λ l, {| l with ls_active := true |}) i (m_listings m);
      m_pending := delete i (m_pending m);
      m_workflows := delete wid (m_workflows m) |}.
End machine.

(** ** The calls refine the steps *)

Section refinement.
Context `{HubClient}.
Implicit Types (w : World State Event) (e : Env).

Local Abbreviation steps e w w' :=
  (mstep (current_contract_address e) (timestamp e) (view (store w)) (view (store w'))).

(** The calls that leave the market alone. *)
Definition bystander (c : Call) : Prop :=
  match c with
  | CSetAgentNft _ _ | CSetHub _ _ | CMakeOffer _ _ _ _ | CRejectOffer _ _ | CMakeCounter _ _ _ _ | CRejectCounter _ _
  | CCommit _ _ _ _ | COpenDispute _ _ _ _ | CResolveDispute _ _ _ _ | CSetPlatformFee _ _ _ | CSetRoyalty _ _ _ _
  | CSetFeeSplits _ _ _ _ _ | CCreateCollection _ _ _ | CAddToCollection _ _ _ | CRemoveFromCollection _ _ _
  | CSetCollectionRoyalty _ _ _ _ | CSetIpfs _ _ _ | CAssignGov _ _ | CAssignKyc _ _ | CRemoveGov _ _ | CRemoveKyc _ _
  | CCreateNft _ _ _ _ _ _ _ | CBuyNft _ _ _ | CCancelNft _ _ | CRegisterCurrency _ _ _ _ | CDeactivateCurrency _ _ => True
  | _ => False
  end.

Lemma bystander_view c : bystander c → keeps view (exec c).
Proof.
  intros Hc. destruct c; try done; cbn [exec]; unfold discard, set_agent_nft_contract, set_execution_hub, make_offer,
    reject_offer, make_counter_offer, reject_counter_offer, commit_bid, open_dispute, resolve_dispute, set_platform_fee,
    set_royalty, set_fee_splits, create_collection, add_to_collection, remove_from_collection, set_collection_royalty,
    set_collection_ipfs_metadata, assign_marketplace_governance, assign_marketplace_kyc_operator,
    remove_marketplace_governance, remove_marketplace_kyc_operator, create_nft_listing, buy_nft_listing,
    cancel_nft_listing, register_currency, deactivate_currency, get_currency, load_own_collection, add_member,
    remove_member, compute_settlement_fees, royalty_share, bps_part, record_transaction, after_days, assert_admin,
    load_offer, load_listing, load_auction, load_counter_offer, load_collection, load_nft_listing, load_agent,
    set_offer, set_counter_offer, set_collection, set_member_royalty, set_nft_listing, next_offer_id,
    next_counter_offer_id, next_dispute_id, next_collection_id, next_nft_listing_id, next_currency_id; frame.
Qed.

Lemma load_agent_spec i e w x w' : load_agent i e w = Ok (x, w') → AGENT_KEY_PREFIX (store w) !! i = Some x ∧ w' = w.
Proof. intros Hr. unfold load_agent in Hr. by minv Hr. Qed.

Lemma load_own_agent_spec i s msg e w x w' :
  load_own_agent i s msg e w = Ok (x, w') →
  AGENT_KEY_PREFIX (store w) !! i = Some x ∧ ag_owner x = s ∧ ag_escrow_locked x = false ∧ w' = w.
Proof. intros Hr. unfold load_own_agent, load_agent in Hr. minv Hr. zbool. done. Qed.

Lemma load_listing_spec i e w x w' : load_listing i e w = Ok (x, w') → LISTING_PREFIX (store w) !! i = Some x ∧ w' = w.
Proof. intros Hr. unfold load_listing in Hr. by minv Hr. Qed.

Lemma load_auction_spec i e w x w' : load_auction i e w = Ok (x, w') → AUCTION_PREFIX (store w) !! i = Some x ∧ w' = w.
Proof. intros Hr. unfold load_auction in Hr. by minv Hr. Qed.

Lemma after_days_spec t d e w v w' :
  (after_days t d : M State () Event Z) e w = Ok (v, w') → v = t + d * 86400 ∧ w' = w.
Proof. intros Hr. unfold after_days in Hr. minv Hr. inv_checked. split; [lia|done]. Qed.

Lemma release_bumped_spec t x e w y w' :
  (release_bumped t x : M State () Event Agent) e w = Ok (y, w') →
  y = {| (released t x) with ag_nonce := ag_nonce x + 1 |} ∧ w' = w.
Proof. intros Hr. unfold release_bumped in Hr. minv Hr. by inv_checked. Qed.

Lemma listing_type_reads n : reads eq (listing_type_of n).
Proof. unfold listing_type_of. eauto with contracts. Qed.

Lemma shelf_once self t m m' : shelf self t m m' → mstep self t m m'.
Proof. intros Hs. by apply ms_shelf, rtc_once. Qed.

Lemma create_listing_step i s ty p d e w r w' : create_listing i s ty p d e w = Ok (r, w') → steps e w w'.
Proof.
  intros Hr. unfold create_listing in Hr. apply bind_Ok in Hr as ([] & w1 & Ha & Hr). minv Ha.
  do 3 (let Hg := fresh "Hg" in apply bind_Ok in Hr as ([] & w1 & Hg & Hr); minv Hg).
  apply bind_Ok in Hr as ([] & w1 & Hl & Hr). assert (w1 = w) as -> by (destruct (ty =? 1); by minv Hl). clear Hl.
  apply bind_Ok in Hr as (x & w1 & (Hx & Ho & Hk & ->)%load_own_agent_spec & Hr).
  unfold next_listing_id in Hr. apply bind_Ok in Hr as (n & w1 & Hn & Hr). minv Hn. inv_checked.
  apply bind_Ok in Hr as (mk & w1 & Hmk & Hr). minv Hmk. apply bind_Ok in Hr as (ct & w1 & Hct & Hr). minv Hct.
  apply bind_Ok in Hr as (ex & w1 & Hex & Hr). match type of Hex with _ ?w0 = _ => assert (w1 = w0) as -> end.
  { destruct d; [by apply after_days_spec in Hex as [_ ->]|by minv Hex]. }
  clear Hex. apply bind_Ok in Hr as (lt & w1 & Hlt & Hr). apply (reads_pure _ _ _ _ _ (listing_type_reads _)) in Hlt as ->.
  unfold set_listing, save_agent in Hr. minv Hr. apply shelf_once. cbn.
  by apply (sh_list _ _ (view (store w)) i x).
Qed.

(** Taking an agent out of escrow, when it is held, is what [unlist_agent] does. *)
Lemma unlist_held self t (m : gmap Z Agent) i x :
  m !! i = Some x → ag_escrow_locked x = true → ag_escrow_holder x = Some self →
  <[i := {| (released t x) with ag_nonce := ag_nonce x + 1 |}]> m = alter (unlist_agent self t) i m.
Proof.
  intros Hx Hk Hh. rewrite <- (insert_alter _ _ _ x) by done. unfold unlist_agent, held_by.
  by rewrite Hk, Hh, bool_decide_eq_true_2.
Qed.

Lemma unlist_free self t (m : gmap Z Agent) i :
  (∀ x, m !! i = Some x → ag_escrow_locked x && held_by self x = false) → alter (unlist_agent self t) i m = m.
Proof. intros Hx. apply alter_id. intros x Hi. unfold unlist_agent. by rewrite (Hx x). Qed.

Lemma cancel_listing_step i s e w w' : cancel_listing i s e w = Ok (tt, w') → steps e w w'.
Proof.
  intros Hr. unfold cancel_listing in Hr. apply bind_Ok in Hr as ([] & w1 & Ha & Hr). minv Ha.
  apply bind_Ok in Hr as ([] & w1 & Hi & Hr). minv Hi. apply bind_Ok in Hr as (l & w1 & [Hl ->]%load_listing_spec & Hr).
  apply bind_Ok in Hr as ([] & w1 & Hs & Hr). minv Hs. apply bind_Ok in Hr as ([] & w1 & Hact & Hr). minv Hact. zbool.
  apply bind_Ok in Hr as (mk & w1 & Hmk & Hr). minv Hmk. apply bind_Ok in Hr as (x & w1 & [Hx ->]%load_agent_spec & Hr).
  apply bind_Ok in Hr as ([] & w1 & Hrel & Hr). apply shelf_once.
  pose proof (sh_unlist (current_contract_address e) (timestamp e) (view (store w)) i l Hl Hact) as Hstep.
  destruct (ag_escrow_locked x) eqn:Hk.
  - apply bind_Ok in Hrel as ([] & w2 & Hh & Hrel). minv Hh. unfold held_by in Hh. zbool.
    apply bind_Ok in Hrel as (t & w2 & Ht & Hrel). minv Ht.
    apply bind_Ok in Hrel as (y & w2 & [-> ->]%release_bumped_spec & Hrel). unfold save_agent in Hrel. minv Hrel.
    unfold set_listing in Hr. minv Hr. cbn in Hstep. by rewrite <- (unlist_held _ _ _ _ x) in Hstep.
  - minv Hrel. unfold set_listing in Hr. minv Hr. cbn in Hstep. rewrite unlist_free in Hstep; [exact Hstep|].
    intros y Hy. rewrite Hx in Hy. injection Hy as <-. by rewrite Hk.
Qed.

Lemma expire_one_step mk t acc i e w r w' :
  expire_one t mk acc i e w = Ok (r, w') → rtc (shelf mk t) (view (store w)) (view (store w')).
Proof.
  intros Hr. unfold expire_one, try_load_listing in Hr. apply bind_Ok in Hr as (o & w1 & Ho & Hr). minv Ho.
  destruct (LISTING_PREFIX (store w) !! i) as [l|] eqn:Hl; [|by minv Hr].
  destruct (_ && _) eqn:Hc; [|by minv Hr]. apply andb_prop in Hc as [Hact _].
  unfold set_listing in Hr. apply bind_Ok in Hr as ([] & w1 & Hs & Hr). minv Hs.
  apply bind_Ok in Hr as (x & w1 & Hx & Hr). apply load_agent_spec in Hx as [Hx ->]. cbn in Hx.
  apply bind_Ok in Hr as ([] & w1 & Hrel & Hr).
  apply rtc_once. pose proof (sh_unlist mk t (view (store w)) i l Hl Hact) as Hstep.
  destruct (ag_escrow_locked x && held_by mk x) eqn:Hh.
  - apply bind_Ok in Hrel as (y & w2 & [-> ->]%release_bumped_spec & Hrel). unfold save_agent in Hrel. minv Hrel. minv Hr.
    apply andb_prop in Hh as [Hk Hh]. unfold held_by in Hh. zbool. cbn in Hstep. by rewrite <- (unlist_held _ _ _ _ x) in Hstep.
  - minv Hrel. minv Hr. cbn in Hstep. rewrite unlist_free in Hstep; [exact Hstep|].
    intros y Hy. rewrite Hx in Hy. by injection Hy as <-.
Qed.

Lemma cleanup_step ids e w r w' : cleanup_expired_listings ids e w = Ok (r, w') → steps e w w'.
Proof.
  intros Hr. unfold cleanup_expired_listings in Hr. apply bind_Ok in Hr as (t & w1 & Ht & Hr). minv Ht.
  apply bind_Ok in Hr as (mk & w1 & Hmk & Hr). minv Hmk. apply ms_shelf.
  eapply (foldM_inv _ (λ _ w1, rtc (shelf _ _) (view (store w)) (view (store w1))) _ _ _ _ _ _ Hr); [done|].
  intros i b w1 b' w1' _ Hrt Hs. etrans; [exact Hrt|]. by eapply expire_one_step.
Qed.

Lemma cancel_one_step s mk n i e w r w' :
  cancel_one s mk n i e w = Ok (r, w') → rtc (shelf mk (timestamp e)) (view (store w)) (view (store w')).
Proof.
  intros Hr. unfold cancel_one, try_load_listing, try_load_agent in Hr. apply bind_Ok in Hr as (o & w1 & Ho & Hr). minv Ho.
  destruct (LISTING_PREFIX (store w) !! i) as [l|] eqn:Hl; [|by minv Hr].
  destruct (_ || _) eqn:Hc; [by minv Hr|]. apply orb_false_elim in Hc as [_ Hact]. zbool.
  apply bind_Ok in Hr as (o & w1 & Ho & Hr). minv Ho. apply bind_Ok in Hr as ([] & w1 & Hrel & Hr).
  apply rtc_once. pose proof (sh_unlist mk (timestamp e) (view (store w)) i l Hl Hact) as Hstep.
  destruct (AGENT_KEY_PREFIX (store w) !! ls_asset_id l) as [x|] eqn:Hx.
  2: { minv Hrel. unfold set_listing in Hr. minv Hr. cbn in Hstep. rewrite unlist_free in Hstep; [exact Hstep|].
       intros y Hy. congruence. }
  destruct (ag_escrow_locked x && held_by mk x) eqn:Hh.
  - apply bind_Ok in Hrel as (t & w2 & Ht & Hrel). minv Ht.
    apply bind_Ok in Hrel as (y & w2 & [-> ->]%release_bumped_spec & Hrel). unfold save_agent in Hrel. minv Hrel.
    unfold set_listing in Hr. minv Hr.
    apply andb_prop in Hh as [Hk Hh]. unfold held_by in Hh. zbool. cbn in Hstep. by rewrite <- (unlist_held _ _ _ _ x) in Hstep.
  - minv Hrel. unfold set_listing in Hr. minv Hr. cbn in Hstep. rewrite unlist_free in Hstep; [exact Hstep|].
    intros y Hy. rewrite Hx in Hy. by injection Hy as <-.
Qed.

Lemma batch_cancel_step s ids e w r w' : batch_cancel_listings s ids e w = Ok (r, w') → steps e w w'.
Proof.
  intros Hr. unfold batch_cancel_listings in Hr. apply bind_Ok in Hr as ([] & w1 & Ha & Hr). minv Ha.
  cbv zeta in Hr. apply bind_Ok in Hr as ([] & w1 & Hn & Hr). minv Hn.
  apply bind_Ok in Hr as (mk & w1 & Hmk & Hr). minv Hmk. apply bind_Ok in Hr as (c & w1 & Hl & Hr). minv Hr. cbn.
  apply ms_shelf.
  eapply (foldM_inv _ (λ _ w1, rtc (shelf _ _) (view (store w)) (view (store w1))) _ _ _ _ _ _ Hl); [done|].
  intros i b w2 b' w2' _ Hrt Hs. etrans; [exact Hrt|]. by eapply cancel_one_step.
Qed.

Lemma list_one_step s ty p t ex mk acc i e w r w' :
  list_one s ty p t ex mk acc i e w = Ok (r, w') → rtc (shelf mk t) (view (store w)) (view (store w')).
Proof.
  intros Hr. unfold list_one in Hr. apply bind_Ok in Hr as ([] & w1 & Hi & Hr). minv Hi.
  apply bind_Ok in Hr as (x & w1 & (Hx & Ho & Hk & ->)%load_own_agent_spec & Hr).
  unfold next_listing_id, set_listing, save_agent in Hr. minv Hr. inv_checked. apply rtc_once. cbn.
  by apply (sh_list _ _ (view (store w)) i x).
Qed.

Lemma batch_create_step s ty p ids e w r w' : batch_create_listings s ty p ids e w = Ok (r, w') → steps e w w'.
Proof.
  intros Hr. unfold batch_create_listings in Hr. apply bind_Ok in Hr as ([] & w1 & Ha & Hr). minv Ha. cbv zeta in Hr.
  do 3 (let Hg := fresh "Hg" in apply bind_Ok in Hr as ([] & w1 & Hg & Hr); minv Hg).
  apply bind_Ok in Hr as (lt & w1 & Hlt & Hr). apply (reads_pure _ _ _ _ _ (listing_type_reads _)) in Hlt as ->.
  apply bind_Ok in Hr as (ct & w1 & Hct & Hr). minv Hct. apply bind_Ok in Hr as (ex & w1 & Hex & Hr). minv Hex.
  apply bind_Ok in Hr as (mk & w1 & Hmk & Hr). minv Hmk. apply bind_Ok in Hr as (c & w1 & Hl & Hr). minv Hr. cbn.
  apply ms_shelf.
  eapply (foldM_inv _ (λ _ w1, rtc (shelf _ _) (view (store w)) (view (store w1))) _ _ _ _ _ _ Hl); [done|].
  intros i b w2 b' w2' _ Hrt Hs. etrans; [exact Hrt|]. by eapply list_one_step.
Qed.

Lemma check_auction_args_spec a p r d e w w' :
  check_auction_args a p r d e w = Ok (tt, w') → 0 < r ≤ p ∧ w' = w.
Proof. intros Hr. unfold check_auction_args in Hr. minv Hr. zbool. split; [lia|done]. Qed.

(** What [open_auction] does, its arguments checked. *)
Lemma open_auction_spec a s p r d bps e w v w' :
  open_auction a s p r d bps e w = Ok (v, w') → 0 < r ≤ p → 0 ≤ d →
  ∃ x au, AGENT_KEY_PREFIX (store w) !! a = Some x ∧ ag_escrow_locked x = false ∧
    let n := default 0 (AUCTION_CTR_KEY (store w)) + 1 in
    fst v = n ∧ opened (timestamp e) n x a au ∧ au_auction_type au = English ∧
    store w' = {| (store w) with AUCTION_PREFIX := <[n := au]> (AUCTION_PREFIX (store w)); AUCTION_CTR_KEY := Some n;
      AGENT_KEY_PREFIX := <[a := locked (current_contract_address e) (timestamp e) x]> (AGENT_KEY_PREFIX (store w)) |}.
Proof.
  intros Hr Hp Hd. unfold open_auction in Hr.
  apply bind_Ok in Hr as (x & w1 & (Hx & Ho & Hk & ->)%load_own_agent_spec & Hr).
  unfold next_auction_id in Hr. apply bind_Ok in Hr as (n & w1 & Hn & Hr). minv Hn. inv_checked.
  apply bind_Ok in Hr as (t & w1 & Ht & Hr). minv Ht. apply bind_Ok in Hr as (en & w1 & [-> ->]%after_days_spec & Hr).
  cbv zeta in Hr. unfold save_agent, set_auction in Hr. minv Hr. zbool.
  eexists x, _. split; [done|]. split; [done|]. cbv zeta. split; [reflexivity|].
  split; [|split; [|reflexivity]]; [split; cbn; try done; lia|done].
Qed.

Lemma create_auction_step a s p r d bps e w v w' :
  create_auction a s p r d bps e w = Ok (v, w') → 0 ≤ d → steps e w w'.
Proof.
  intros Hr Hd. unfold create_auction in Hr. apply bind_Ok in Hr as ([] & w1 & Ha & Hr). minv Ha.
  apply bind_Ok in Hr as ([] & w1 & [Hp ->]%check_auction_args_spec & Hr).
  apply bind_Ok in Hr as (v0 & w1 & Ho & Hr). destruct (open_auction_spec _ _ _ _ _ _ _ _ _ _ Ho Hp Hd)
    as (x & au & Hx & Hk & Hv & Hop & _ & Hst). minv Hr. cbn. rewrite Hst.
  apply (ms_open _ _ (view (store w)) a x au None); try done.
Qed.

Lemma create_auction_ext_step a s p r d bps wi se e w v w' :
  create_auction_with_extension a s p r d bps wi se e w = Ok (v, w') → 0 ≤ d → 0 ≤ default 0 se → steps e w w'.
Proof.
  intros Hr Hd Hse. unfold create_auction_with_extension in Hr. apply bind_Ok in Hr as ([] & w1 & Ha & Hr). minv Ha.
  apply bind_Ok in Hr as ([] & w1 & [Hp ->]%check_auction_args_spec & Hr).
  apply bind_Ok in Hr as (v0 & w1 & Ho & Hr). destruct (open_auction_spec _ _ _ _ _ _ _ _ _ _ Ho Hp Hd)
    as (x & au & Hx & Hk & Hv & Hop & Hty & Hst). cbv zeta in Hr. minv Hr. cbn. rewrite Hst, Hv.
  apply (ms_open _ _ (view (store w)) a x au (Some _)); try done. intros c [= <-]. split; [done|]. by destruct se.
Qed.

Lemma create_dutch_step a s p r d e w v w' : create_dutch_auction a s p r d e w = Ok (v, w') → 0 ≤ d → steps e w w'.
Proof.
  intros Hr Hd. unfold create_dutch_auction in Hr.
  do 4 (let Hg := fresh "Hg" in apply bind_Ok in Hr as ([] & w1 & Hg & Hr); minv Hg). zbool.
  apply bind_Ok in Hr as (x & w1 & (Hx & Ho & Hk & ->)%load_own_agent_spec & Hr).
  unfold next_auction_id, save_agent, set_auction in Hr. minv Hr. inv_checked. cbn.
  apply (ms_open _ _ (view (store w)) a x _ None); try done.
  split; cbn; try done; lia.
Qed.

Lemma create_sealed_step a s p r c v e w i w' :
  create_sealed_bid_auction a s p r c v e w = Ok (i, w') → 0 ≤ c → steps e w w'.
Proof.
  intros Hr Hc. unfold create_sealed_bid_auction in Hr.
  do 4 (let Hg := fresh "Hg" in apply bind_Ok in Hr as ([] & w1 & Hg & Hr); minv Hg). zbool.
  apply bind_Ok in Hr as (x & w1 & (Hx & Ho & Hk & ->)%load_own_agent_spec & Hr).
  unfold next_auction_id, save_agent, set_auction in Hr. minv Hr. inv_checked. cbn.
  apply (ms_open _ _ (view (store w)) a x _ None); try done.
  split; cbn; try done; lia.
Qed.

(** The lowest bid an auction accepts. *)
Definition lowest (au : Auction) : Z :=
  if au_highest_bid au =? 0 then au_start_price au
  else au_highest_bid au + (au_highest_bid au * au_min_bid_increment_bps au) `quot` 10000.

Lemma check_bid_spec i b n e w au w' :
  check_bid i b n e w = Ok (au, w') →
  authorized e b = true ∧ AUCTION_PREFIX (store w) !! i = Some au ∧ au_status au = Active ∧
  timestamp e ≤ au_end_time au ∧ lowest au ≤ n ∧ 0 < n ∧ store w' = store w.
Proof.
  intros Hr. unfold check_bid in Hr.
  do 3 (let Hg := fresh "Hg" in apply bind_Ok in Hr as ([] & w1 & Hg & Hr); minv Hg).
  apply bind_Ok in Hr as (x & w1 & [Hx ->]%load_auction_spec & Hr). apply bind_Ok in Hr as (t & w1 & Ht & Hr). minv Ht.
  apply bind_Ok in Hr as ([] & w1 & Hs & Hr). minv Hs. apply bind_Ok in Hr as ([] & w1 & He & Hr). minv He. zbool.
  apply bind_Ok in Hr as (mi & w1 & Hmi & Hr).
  assert (mi = lowest x ∧ w1 = w) as [-> ->].
  { unfold min_bid in Hmi. unfold lowest. destruct (_ =? 0); minv Hmi; [done|]. by inv_checked. }
  clear Hmi. minv Hr; zbool; split_and!; done || lia.
Qed.

Lemma store_bid_spec i b n au e w w' :
  store_bid i b n au e w = Ok (tt, w') →
  ∃ bs, store w' = {| (store w) with BID_RECORD_PREFIX := bs; AUCTION_PREFIX :=
    <[i := {| au with au_highest_bidder := Some b; au_highest_bid := n; au_current_price := n |}]> (AUCTION_PREFIX (store w)) |}.
Proof. intros Hr. unfold store_bid, record_bid, set_auction in Hr. minv Hr; eexists; reflexivity. Qed.

Lemma place_bid_step i b n e w w' : place_bid i b n e w = Ok (tt, w') → steps e w w'.
Proof.
  intros Hr. unfold place_bid in Hr. apply bind_Ok in Hr as (au & w1 & (_ & Hx & Hs & Ht & Hn & Hp & Hst)%check_bid_spec & Hr).
  apply store_bid_spec in Hr as [bs ->]. rewrite Hst.
  by apply (ms_bid _ _ (view (store w)) i au b n (au_end_time au)); try (left; done).
Qed.

Lemma extend_spec i au e w au' w' :
  extend_auction i au e w = Ok (au', w') →
  store w' = store w ∧ ∃ en, au' = {| au with au_end_time := en |} ∧
    (en = au_end_time au ∨ ∃ c, ext_cfg (store w) !! i = Some c ∧ en = au_end_time au + snd c).
Proof.
  intros Hr. unfold extend_auction in Hr. apply bind_Ok in Hr as (t & w1 & Ht & Hr). minv Ht.
  apply bind_Ok in Hr as (o & w1 & Ho & Hr). minv Ho.
  destruct (ext_cfg (store w) !! i) as [[wi se]|] eqn:Hc; [cbv zeta in Hr|].
  - destruct (_ <=? wi); minv Hr; inv_checked; (split; [done|]).
    + eexists. split; [reflexivity|]. right. eauto.
    + exists (au_end_time au). split; [by destruct au|by left].
  - minv Hr. split; [done|]. exists (au_end_time au). split; [by destruct au|by left].
Qed.

Lemma place_bid_ext_step i b n e w w' : place_bid_with_extension i b n e w = Ok (tt, w') → steps e w w'.
Proof.
  intros Hr. unfold place_bid_with_extension in Hr.
  apply bind_Ok in Hr as (au & w1 & (_ & Hx & Hs & Ht & Hn & Hp & Hst)%check_bid_spec & Hr).
  apply bind_Ok in Hr as (au' & w2 & (Hst' & en & -> & Hen)%extend_spec & Hr).
  apply store_bid_spec in Hr as [bs ->]. rewrite Hst in Hen. rewrite Hst', Hst.
  by apply (ms_bid _ _ (view (store w)) i au b n en).
Qed.

(** The agent of an auction that is won. *)
Lemma auction_sale_spec au b e w w' :
  process_auction_sale au b e w = Ok (tt, w') →
  ∃ x tc th, AGENT_KEY_PREFIX (store w) !! au_agent_id au = Some x ∧
    store w' = {| (store w) with txn_ctr := tc; TRANSACTION_HISTORY_PREFIX := th; AGENT_KEY_PREFIX :=
      <[au_agent_id au := {| (released (timestamp e) x) with ag_owner := b; ag_nonce := ag_nonce x + 1 |}]>
        (AGENT_KEY_PREFIX (store w)) |}.
Proof.
  intros Hr. unfold process_auction_sale in Hr. apply bind_Ok in Hr as (x & w1 & [Hx ->]%load_agent_spec & Hr).
  unfold save_agent, record_transaction in Hr. apply bind_Ok in Hr as (t & w1 & Ht & Hr). minv Ht.
  apply bind_Ok in Hr as (n & w1 & Hn & Hr). minv Hn. inv_checked.
  do 4 (let Hg := fresh "Hg" in apply bind_Ok in Hr as (? & w1 & Hg & Hr); minv Hg).
  apply bind_Ok in Hr as (ro & w2 & Hro & Hr). match type of Hro with _ ?w0 = _ => assert (w2 = w0) as -> end.
  { clear -Hro. minv Hro; done. }
  clear Hro. minv Hr. eexists x, _, _. split; [done|]. reflexivity.
Qed.

Lemma asset_return_spec au e w w' :
  cancel_auction_asset_return au e w = Ok (tt, w') →
  store w' = {| (store w) with AGENT_KEY_PREFIX :=
    alter (give_back (current_contract_address e) (timestamp e)) (au_agent_id au) (AGENT_KEY_PREFIX (store w)) |}.
Proof.
  intros Hr. unfold cancel_auction_asset_return in Hr. apply bind_Ok in Hr as (mk & w1 & Hmk & Hr). minv Hmk.
  apply bind_Ok in Hr as (x & w1 & [Hx ->]%load_agent_spec & Hr). unfold save_agent in Hr.
  rewrite <- (insert_alter _ _ _ x) by done. unfold give_back.
  destruct (ag_escrow_locked x) eqn:Hk.
  - minv Hr. zbool. cbn. use_tests. done.
  - minv Hr. cbn. rewrite insert_id by done. by destruct (store w).
Qed.

Lemma finalize_step i e w w' : finalize_auction i e w = Ok (tt, w') → steps e w w'.
Proof.
  intros Hr. unfold finalize_auction in Hr. apply bind_Ok in Hr as ([] & w1 & Hi & Hr). minv Hi.
  apply bind_Ok in Hr as (au & w1 & [Hx ->]%load_auction_spec & Hr). apply bind_Ok in Hr as (t & w1 & Ht & Hr). minv Ht.
  apply bind_Ok in Hr as ([] & w1 & Hs & Hr). minv Hs. apply bind_Ok in Hr as ([] & w1 & He & Hr). minv He. zbool.
  apply bind_Ok in Hr as (au' & w1 & Hb & Hr). unfold set_auction in Hr. minv Hr. cbn.
  assert (over (timestamp e) au) as Hov by (left; lia). destruct (_ >=? _) eqn:Hge; zbool; cbv zeta in Hb; cbn in Hb.
  - apply bind_Ok in Hb as ([] & w2 & Hsale & Hb). minv Hb. destruct (au_highest_bidder au) as [b|] eqn:Hbid.
    + apply auction_sale_spec in Hsale as (x & tc & th & Hag & Hst). cbn in Hag, Hst. rewrite Hst. cbn.
      rewrite <- Hbid. by apply (ms_sold _ _ (view (store w)) i au b x).
    + minv Hsale. rewrite <- Hbid. by apply (ms_stuck _ _ (view (store w)) i au).
  - apply bind_Ok in Hb as ([] & w2 & Hret & Hb). minv Hb. apply asset_return_spec in Hret. cbn in Hret.
    rewrite Hret. cbn. apply (ms_unsold _ _ (view (store w)) i au); try done. left. lia.
Qed.

Lemma finalize_sealed_step i e w w' : finalize_sealed_auction i e w = Ok (tt, w') → steps e w w'.
Proof.
  intros Hr. unfold finalize_sealed_auction in Hr. apply bind_Ok in Hr as ([] & w1 & Hi & Hr). minv Hi.
  apply bind_Ok in Hr as (au & w1 & [Hx ->]%load_auction_spec & Hr). apply bind_Ok in Hr as ([] & w1 & Hty & Hr). minv Hty.
  apply bind_Ok in Hr as (t & w1 & Ht & Hr). minv Ht. apply bind_Ok in Hr as (re & w1 & Hre & Hr). minv Hre.
  apply bind_Ok in Hr as ([] & w1 & He & Hr). minv He. apply bind_Ok in Hr as ([] & w1 & Hs & Hr). minv Hs. zbool.
  apply bind_Ok in Hr as (au' & w1 & Hb & Hr). unfold set_auction in Hr. minv Hr. cbn.
  assert (over (timestamp e) au) as Hov by (right; eauto). destruct (_ && _) eqn:Hge; cbv zeta in Hb; cbn in Hb.
  - apply andb_prop in Hge as [_ Hge]. zbool. apply bind_Ok in Hb as (b & w2 & Hwin & Hb). minv Hwin.
    apply bind_Ok in Hb as ([] & w2 & Hsale & Hb). minv Hb.
    apply auction_sale_spec in Hsale as (x & tc & th & Hag & Hst). cbn in Hag, Hst. rewrite Hst. cbn.
    by apply (ms_sold _ _ (view (store w)) i au b x).
  - apply bind_Ok in Hb as ([] & w2 & Hret & Hb). minv Hb. apply asset_return_spec in Hret. cbn in Hret.
    rewrite Hret. cbn. apply (ms_unsold _ _ (view (store w)) i au); try done.
    apply andb_false_iff in Hge as [Hge|Hge]; zbool; [right|left; lia]. split; [done|].
    by destruct (au_highest_bidder au); [exfalso; apply Hge|].
Qed.

Lemma dutch_price_reads au : reads eq (dutch_current_price au).
Proof. unfold dutch_current_price. auto 20 with contracts. Qed.

Lemma dutch_buy_step i b n e w w' : dutch_buy_now i b n e w = Ok (tt, w') → steps e w w'.
Proof.
  intros Hr. unfold dutch_buy_now in Hr.
  do 3 (let Hg := fresh "Hg" in apply bind_Ok in Hr as ([] & w1 & Hg & Hr); minv Hg).
  apply bind_Ok in Hr as (au & w1 & [Hx ->]%load_auction_spec & Hr). apply bind_Ok in Hr as ([] & w1 & Hty & Hr). minv Hty.
  apply bind_Ok in Hr as ([] & w1 & Hs & Hr). minv Hs. apply bind_Ok in Hr as (t & w1 & Ht & Hr). minv Ht.
  apply bind_Ok in Hr as ([] & w1 & He & Hr). minv He. apply bind_Ok in Hr as ([] & w1 & Hb & Hr). minv Hb.
  apply bind_Ok in Hr as (pr & w1 & Hpr & Hr). apply (reads_pure _ _ _ _ _ (dutch_price_reads _)) in Hpr as ->.
  apply bind_Ok in Hr as ([] & w1 & Hd & Hr). minv Hd. apply bind_Ok in Hr as ([] & w1 & Hre & Hr). minv Hre. zbool.
  cbv zeta in Hr. unfold set_auction in Hr. apply bind_Ok in Hr as ([] & w1 & Hset & Hr). minv Hset.
  apply auction_sale_spec in Hr as (x & tc & th & Hag & Hst). cbn in Hag, Hst. rewrite Hst. cbn.
  apply (ms_dutch _ _ (view (store w)) i au b n x); done || lia.
Qed.

Lemma reveal_step i b n k e w w' : reveal_bid i b n k e w = Ok (tt, w') → steps e w w'.
Proof.
  intros Hr. unfold reveal_bid in Hr.
  do 3 (let Hg := fresh "Hg" in apply bind_Ok in Hr as ([] & w1 & Hg & Hr); minv Hg).
  apply bind_Ok in Hr as (au & w1 & [Hx ->]%load_auction_spec & Hr). apply bind_Ok in Hr as ([] & w1 & Hty & Hr). minv Hty.
  do 7 (let Hg := fresh "Hg" in apply bind_Ok in Hr as (? & w1 & Hg & Hr); minv Hg). zbool.
  apply bind_Ok in Hr as ([] & w1 & Hset & Hr). minv Hset. unfold set_auction in Hr. minv Hr; zbool; cbn.
  - eapply (ms_reveal _ _ (view (store w)) i au b n); done || lia.
  - apply ms_shelf. done.
Qed.

Lemma buy_agent_step i b n e w v w' : buy_agent i b n e w = Ok (v, w') → steps e w w'.
Proof.
  intros Hr. unfold buy_agent in Hr. apply bind_Ok in Hr as ([] & w1 & Ha & Hr). minv Ha.
  apply bind_Ok in Hr as ([] & w1 & Hi & Hr). minv Hi. apply bind_Ok in Hr as (l & w1 & [Hl ->]%load_listing_spec & Hr).
  do 3 (let Hg := fresh "Hg" in apply bind_Ok in Hr as ([] & w1 & Hg & Hr); minv Hg). zbool.
  apply bind_Ok in Hr as (mk & w1 & Hmk & Hr). minv Hmk. apply bind_Ok in Hr as (x & w1 & [Hx ->]%load_agent_spec & Hr).
  apply bind_Ok in Hr as ([] & w1 & Hk & Hr). minv Hk. apply bind_Ok in Hr as ([] & w1 & Hh & Hr). minv Hh.
  unfold held_by in Hh. zbool. unfold set_pending_sale, get_hub in Hr. cbv zeta in Hr. minv Hr. cbn in *.
  match goal with Hp : <[_ := _]> _ !! _ = Some _ |- _ => rewrite lookup_insert_eq in Hp; injection Hp as <- end.
  rewrite insert_insert_eq. by apply (ms_pend _ _ (view (store w)) i l x b n).
Qed.

Lemma decode_spec args e w i w' : (decode_u64 args : M State () Event Z) e w = Ok (i, w') → w' = w.
Proof. intros Hr. unfold decode_u64 in Hr. by minv Hr. Qed.

#[local] Hint Extern 1 (reads eq (gets _)) => (apply reads_gets; by intros ? ? ->) : contracts.

Lemma fees_reads a n : reads eq (compute_settlement_fees a n).
Proof.
  unfold compute_settlement_fees, royalty_share, bps_part. repeat (apply reads_bind; [|intros ?]); auto 20 with contracts.
Qed.

Lemma exec_step_step k args e w w' : exec_step k args e w = Ok (tt, w') → steps e w w'.
Proof.
  intros Hr. unfold exec_step in Hr. destruct (k =? 0); [|destruct (k =? 1); [|destruct (k =? 2); [|minv Hr]]].
  - unfold verify_sale in Hr. apply bind_Ok in Hr as (i & w1 & ->%decode_spec & Hr).
    apply bind_Ok in Hr as (l & w1 & [Hl ->]%load_listing_spec & Hr). unfold load_agent in Hr. minv Hr. by apply ms_shelf.
  - unfold transfer_ownership in Hr. apply bind_Ok in Hr as (i & w1 & ->%decode_spec & Hr).
    apply bind_Ok in Hr as (l & w1 & [Hl ->]%load_listing_spec & Hr). unfold load_agent, save_agent in Hr. minv Hr.
    inv_checked. cbn. by eapply (ms_transfer _ _ (view (store w)) i l).
  - unfold record_sale in Hr. apply bind_Ok in Hr as (i & w1 & ->%decode_spec & Hr).
    apply bind_Ok in Hr as (l & w1 & [Hl ->]%load_listing_spec & Hr). apply bind_Ok in Hr as (o & w1 & Ho & Hr). minv Ho.
    apply bind_Ok in Hr as (p & w1 & Hp & Hr). minv Hp. apply bind_Ok in Hr as (fe & w1 & Hfe & Hr).
    apply (reads_pure _ _ _ _ _ (fees_reads _ _)) in Hfe as ->.
    unfold load_agent, save_agent, set_listing, record_transaction, remove_pending_sale in Hr. minv Hr. cbn.
    by eapply (ms_record _ _ (view (store w)) i l).
Qed.

(** The agent after a rollback. *)
Lemma rollback_agent_spec p a x e w w' :
  rollback_agent p a x e w = Ok (tt, w') →
  store w' = {| (store w) with AGENT_KEY_PREFIX := <[a := undo_sale (timestamp e) p x]> (AGENT_KEY_PREFIX (store w)) |}.
Proof.
  intros Hr. unfold rollback_agent in Hr. apply bind_Ok in Hr as (t & w1 & Ht & Hr). minv Ht. unfold undo_sale.
  apply bind_Ok in Hr as (y & w1 & Hy & Hr).
  destruct (bool_decide (ag_owner x = ps_buyer p)); minv Hy; inv_checked; apply bind_Ok in Hr as (z & w1 & Hz & Hr);
    cbn in Hz |- *; destruct (ag_escrow_locked x) eqn:Hk; minv Hz; unfold save_agent in Hr; minv Hr; reflexivity.
Qed.

Lemma rollback_step args e w w' : rollback args e w = Ok (tt, w') → steps e w w'.
Proof.
  intros Hr. unfold rollback in Hr. destruct (bool_decide _); [minv Hr; by apply ms_shelf|].
  apply bind_Ok in Hr as (i & w1 & ->%decode_spec & Hr). apply bind_Ok in Hr as (o & w1 & Ho & Hr). minv Ho.
  destruct (PENDING_SALE_PREFIX (store w) !! i) as [p|] eqn:Hp; [|minv Hr; by apply ms_shelf].
  pose proof (ms_rollback (current_contract_address e) (timestamp e) (view (store w)) i p Hp) as Hstep. cbn in Hstep.
  unfold try_load_listing, try_load_agent, remove_pending_sale in Hr. apply bind_Ok in Hr as (o & w1 & Ho & Hr). minv Ho.
  apply bind_Ok in Hr as ([] & w1 & Hb & Hr). minv Hr.
  destruct (LISTING_PREFIX (store w) !! i) as [l|] eqn:Hl; [|minv Hb; exact Hstep].
  apply bind_Ok in Hb as (o & w2 & Ho & Hb). minv Ho.
  destruct (AGENT_KEY_PREFIX (store w) !! ls_asset_id l) as [x|] eqn:Hx.
  - apply rollback_agent_spec in Hb. rewrite Hb. cbn. rewrite <- (insert_alter _ _ _ _ Hx) in Hstep. exact Hstep.
  - minv Hb. rewrite alter_id in Hstep; [exact Hstep|]. intros y Hy. congruence.
Qed.

Lemma wf_done_step i st e w w' : wf_done i st e w = Ok (tt, w') → steps e w w'.
Proof.
  intros Hr. unfold wf_done in Hr. apply bind_Ok in Hr as (o & w1 & Ho & Hr). minv Ho.
  destruct (WF_LISTING_PREFIX (store w) !! i) as [k|] eqn:Hk; [|minv Hr; by apply ms_shelf].
  apply bind_Ok in Hr as (t & w1 & Ht & Hr). minv Ht. destruct (st =? 2).
  { minv Hr. by apply (ms_done _ _ (view (store w)) i k). }
  destruct (_ && _); [|minv Hr; by apply ms_shelf].
  pose proof (ms_failed (current_contract_address e) (timestamp e) (view (store w)) i k Hk) as Hstep. cbn in Hstep.
  unfold try_load_listing, set_listing, remove_pending_sale in Hr. apply bind_Ok in Hr as (o & w1 & Ho & Hr). minv Ho.
  apply bind_Ok in Hr as ([] & w1 & Hb & Hr). minv Hr.
  destruct (LISTING_PREFIX (store w) !! k) as [l|] eqn:Hl.
  - destruct (ls_active l) eqn:Hact; cbn in Hb; minv Hb.
    + rewrite alter_id in Hstep; [exact Hstep|]. intros y Hy. rewrite Hl in Hy. injection Hy as <-. by destruct l; cbn in *; subst.
    + cbn. rewrite <- (insert_alter _ _ _ _ Hl) in Hstep. exact Hstep.
  - minv Hb. rewrite alter_id in Hstep; [exact Hstep|]. intros y Hy. congruence.
Qed.

(** Peel the binds off the front of a run. *)
Ltac peel H :=
  repeat lazymatch type of H with
  | (_ ≫= _) _ _ = Ok _ =>
      let Hg := fresh "Hg" in apply bind_Ok in H; destruct H as (? & ? & Hg & H); minv Hg
  end.

Lemma accept_offer_step i s e w v w' : accept_offer i s e w = Ok (v, w') → steps e w w'.
Proof.
  intros Hr. unfold accept_offer, load_offer, load_listing, set_offer in Hr. peel Hr. by apply buy_agent_step in Hr.
Qed.

Lemma accept_counter_step o i e w v w' : accept_counter_offer o i e w = Ok (v, w') → steps e w w'.
Proof.
  intros Hr. unfold accept_counter_offer, load_counter_offer, load_offer, set_offer, set_counter_offer in Hr.
  peel Hr. by apply buy_agent_step in Hr.
Qed.

(** [init_contract] sets the counters back to zero, and listings and auctions can be
    put up before it: one that takes effect must come before them. *)
Definition early (c : Call) (st : State) : bool :=
  match c with
  | CInit _ => bool_decide (is_Some (ADMIN_KEY st)) ||
      (default 0 (LISTING_CTR_KEY st) =? 0) && (default 0 (AUCTION_CTR_KEY st) =? 0)
  | _ => true
  end.

Lemma init_view admin e w w' :
  early (CInit admin) (store w) = true → init_contract admin e w = Ok (tt, w') → view (store w') = view (store w).
Proof.
  intros Hal Hr. unfold init_contract in Hr. minv Hr. cbn [early] in Hal. zbool.
  rewrite bool_decide_eq_false_2 in Hal by done. apply andb_prop in Hal as [Hl%Z.eqb_eq Ha%Z.eqb_eq].
  unfold view. cbn. by rewrite Hl, Ha.
Qed.

(** Every call, but a late initialization, is one step of the machine. *)
Lemma market_refines c e w w' :
  exec c e w = Ok (tt, w') → call_ok c → early c (store w) = true → steps e w w'.
Proof.
  intros Hr Hok Hal. destruct c; try (match type of Hr with exec ?c _ _ = _ =>
    rewrite (bystander_view c I _ _ _ _ Hr); by apply ms_shelf end); cbn [exec call_ok] in Hr, Hok;
    try apply discard_Ok in Hr as [? Hr]; destruct_and? Hok;
    eauto using create_listing_step, buy_agent_step, exec_step_step, rollback_step, wf_done_step, cleanup_step,
      cancel_listing_step, accept_offer_step, accept_counter_step, create_auction_step, create_auction_ext_step,
      place_bid_step, place_bid_ext_step, finalize_step, create_dutch_step, dutch_buy_step, create_sealed_step,
      reveal_step, finalize_sealed_step, batch_create_step, batch_cancel_step.
  rewrite (init_view _ _ _ _ Hal Hr). by apply ms_shelf.
Qed.
End refinement.
