(* ===== verification/MarketProofs.v ===== *)
(** * contracts/marketplace: theorems

    Through the refinement of MarketSpec: every call of the contract follows the
    smaller machine, who can come to own an agent, and the life of an auction
    over the histories in which
    init_contract does not come late. *)

From stdpp Require Import gmap strings list fin_maps.
From S2P Require Import Prelude Soroban TokenModel Workflow MarketTypes Marketplace MarketSpec.
Open Scope Z_scope.

(** ** The invariant of the machine *)

Record auction_ok (t n i : Z) (au : Auction) : Prop := {
  ak_id : au_auction_id au = i ∧ 1 ≤ i ≤ n;
  ak_prices : 0 ≤ au_reserve_price au ≤ au_start_price au ∧ 0 < au_start_price au;
  ak_reserve : au_auction_type au ≠ Dutch → 0 < au_reserve_price au;
  ak_bid : 0 ≤ au_highest_bid au ∧ (au_highest_bidder au = None ↔ au_highest_bid au = 0);
  ak_bps : 0 ≤ au_min_bid_increment_bps au;
  ak_sealed : au_auction_type au = Sealed → au_sealed_reveal_end au = Some (au_end_time au);
  ak_closed : au_auction_type au = Sealed → au_status au ≠ Active → au_end_time au < t;
}.

Record market_ok (t : Z) (m : Market) : Prop := {
  mo_counters : 0 ≤ m_listing_ctr m ∧ 0 ≤ m_auction_ctr m;
  mo_listing i l : m_listings m !! i = Some l → 1 ≤ i ≤ m_listing_ctr m;
  mo_auction i au : m_auctions m !! i = Some au → auction_ok t (m_auction_ctr m) i au;
  mo_ext i c : m_ext m !! i = Some c →
    0 ≤ snd c ∧ ∃ au, m_auctions m !! i = Some au ∧ au_auction_type au = English;
}.

Lemma auction_ok_le t t' n n' i au : auction_ok t n i au → t ≤ t' → n ≤ n' → auction_ok t' n' i au.
Proof. intros [] Ht Hn. split; try done; try lia. intros Hs Ha. specialize (ak_closed0 Hs Ha). lia. Qed.

Lemma market_ok_le t t' m : market_ok t m → t ≤ t' → market_ok t' m.
Proof. intros [] Ht. split; try done. intros i au Hau. eapply auction_ok_le; [by apply mo_auction0|done|done]. Qed.

(** The time of an auction is over once its end is. *)
Lemma over_end t n i au : auction_ok t n i au → over t au → au_end_time au < t.
Proof. intros Hok [He|(Hs & r & Hr & Hlt)]; [done|]. rewrite (ak_sealed _ _ _ _ Hok Hs) in Hr. by injection Hr as <-. Qed.

(** An auction is written over, its type unchanged. *)
Lemma market_ok_auction t m i au au' ag :
  market_ok t m → m_auctions m !! i = Some au → au_auction_type au' = au_auction_type au →
  auction_ok t (m_auction_ctr m) i au' →
  market_ok t {| m with m_auctions := <[i := au']> (m_auctions m); m_agents := ag |}.
Proof.
  intros [Hc Hl Ha He] Hau Hty Hok. split; try done; cbn.
  - intros j x [[<- <-]|[_ Hj]]%lookup_insert_Some; auto.
  - intros j c Hj. destruct (He j c Hj) as [Hc' (x & Hx & Hx')]. split; [done|].
    destruct (decide (i = j)) as [->|Hne].
    + exists au'. rewrite lookup_insert_eq. split; [done|]. congruence.
    + exists x. by rewrite lookup_insert_ne.
Qed.

(** A listing is written over. *)
Lemma market_ok_listing t m i l l' ag p wf :
  market_ok t m → m_listings m !! i = Some l →
  market_ok t {| m with m_listings := <[i := l']> (m_listings m); m_agents := ag; m_pending := p; m_workflows := wf |}.
Proof.
  intros [Hc Hl Ha He] Hi. split; try done. cbn. intros j x [[<- <-]|[_ Hj]]%lookup_insert_Some; by eapply Hl.
Qed.

Lemma lowest_pos t n i au : auction_ok t n i au → au_highest_bid au ≤ lowest au ∧ 0 < lowest au.
Proof.
  intros []. unfold lowest. destruct (_ =? 0) eqn:Hz; zbool; [lia|].
  assert (0 ≤ (au_highest_bid au * au_min_bid_increment_bps au) `quot` 10000) by (apply Z.quot_pos; nia). lia.
Qed.

Lemma shelf_ok self t m m' : shelf self t m m' → market_ok t m → market_ok t m'.
Proof.
  intros Hs Hm. destruct Hs as [m a x ty price ex Hx Hk|m i l Hl Hact].
  - destruct Hm as [Hc Hl Ha He]. split; try done; cbn; [lia|].
    intros j y [[<- <-]|[_ Hj]]%lookup_insert_Some; [lia|]. specialize (Hl j y Hj). lia.
  - destruct (market_ok_listing t m i l {| l with ls_active := false |} (alter (unlist_agent self t) (ls_asset_id l) (m_agents m))
      (m_pending m) (m_workflows m) Hm Hl). by split.
Qed.

Lemma open_ok self t m a x au ext :
  market_ok t m → opened t (m_auction_ctr m + 1) x a au →
  (∀ c, ext = Some c → au_auction_type au = English ∧ 0 ≤ snd c) →
  market_ok t {| m with m_auctions := <[m_auction_ctr m + 1 := au]> (m_auctions m); m_auction_ctr := m_auction_ctr m + 1;
    m_agents := <[a := locked self t x]> (m_agents m);
    m_ext := match ext with Some c => <[m_auction_ctr m + 1 := c]> (m_ext m) | None => m_ext m end |}.
Proof.
  intros [Hc Hl Ha He] Hop Hext.
  assert (∀ j c, m_ext m !! j = Some c → 0 ≤ snd c ∧ ∃ au', <[m_auction_ctr m + 1 := au]> (m_auctions m) !! j = Some au' ∧
    au_auction_type au' = English) as He'.
  { intros j c Hj. destruct (He j c Hj) as (? & y & Hy & ?). split; [done|]. exists y. split; [|done].
    rewrite lookup_insert_ne; [done|]. destruct (ak_id _ _ _ _ (Ha _ _ Hy)). lia. }
  split; try done; cbn; [lia| |].
  - intros j y [[<- <-]|[_ Hj]]%lookup_insert_Some; [|eapply auction_ok_le; [by apply Ha|lia..]].
    destruct Hop. split; try done; try lia. all: try (split; [lia|]; by rewrite op_bidder, op_bid).
  - intros j c. destruct ext as [c'|]; [|apply He']. intros [[<- <-]|[_ Hj]]%lookup_insert_Some; [|by apply He'].
    destruct (Hext c' eq_refl). split; [done|]. exists au. by rewrite lookup_insert_eq.
Qed.

(** A positive bid is recorded, the end of the auction pushed back if it is not sealed. *)
Lemma auction_ok_bid t n i au b v en st :
  auction_ok t n i au → 0 < v → (au_auction_type au = Sealed → en = au_end_time au) →
  (st = au_status au ∨ au_auction_type au ≠ Sealed) →
  auction_ok t n i {| au with au_highest_bidder := Some b; au_highest_bid := v; au_current_price := v;
    au_end_time := en; au_status := st |}.
Proof.
  intros [] Hv He Hst. split; cbn; try done.
  - split; [lia|]. split; [done|lia].
  - intros Hs. by rewrite (He Hs), ak_sealed0.
  - intros Hs. destruct Hst as [->|Hst]; [|done]. rewrite (He Hs). by apply ak_closed0.
Qed.

(** An auction is closed after its end. *)
Lemma auction_ok_close t n i au st :
  auction_ok t n i au → over t au → auction_ok t n i {| au with au_status := st |}.
Proof. intros Hok Hov. pose proof (over_end _ _ _ _ Hok Hov). destruct Hok. by split. Qed.

Lemma mstep_ok self t m m' : mstep self t m m' → market_ok t m → market_ok t m'.
Proof.
  intros Hs Hm. destruct Hs as [m m' Hs|m a x au ext|m i au b n en Hau Hst Ht Hn Hp Hen|m i au b n c r Hau Hty Hc Hr Ht Hp Hn
    |m i au b x Hau Hst Hov|m i au b n x Hau Hst Hty|m i au Hau Hst Hov|m i au Hau Hst Hov|m i l x b n wid
    |m i l p x|m i l p x Hl|m i p|m wid i|m wid i];
    try (pose proof (mo_auction _ _ Hm _ _ Hau) as Hok).
  - induction Hs; eauto using shelf_ok.
  - by apply open_ok.
  - apply (market_ok_auction t m i au _ (m_agents m)); try done.
    apply (auction_ok_bid _ _ _ au b n en (au_status au)); try done; [|by left].
    intros Hse. destruct Hen as [->|(c & Hc & _)]; [done|].
    destruct (mo_ext _ _ Hm _ _ Hc) as (_ & y & Hy & Hye). congruence.
  - apply (market_ok_auction t m i au _ (m_agents m)); try done.
    apply (auction_ok_bid _ _ _ au b n (au_end_time au) (au_status au)); try done. by left.
  - apply (market_ok_auction t m i au); try done. by apply auction_ok_close.
  - apply (market_ok_auction t m i au); try done.
    apply (auction_ok_bid _ _ _ au b n (au_end_time au) Won); try done. right. by rewrite Hty.
  - apply (market_ok_auction t m i au); try done. by apply auction_ok_close.
  - apply (market_ok_auction t m i au _ (m_agents m)); try done. by apply auction_ok_close.
  - destruct Hm. by split.
  - destruct Hm. by split.
  - by apply (market_ok_listing t m i l _ _ _ (m_workflows m)).
  - destruct Hm. by split.
  - destruct Hm. by split.
  - destruct Hm as [Hc Hl Ha He]. split; try done. cbn. intros j y Hy.
    apply lookup_alter_Some in Hy as [(-> & z & Hz & _)|[_ Hz]]; by eapply Hl.
Qed.

(** ** Reachable worlds *)

(** [frame_call]: a call leaves a part of the storage alone, by its body. *)
Ltac frame_call :=
  cbn [exec]; unfold discard, init_contract, set_agent_nft_contract, set_execution_hub,
    create_listing, accept_offer, accept_counter_offer, buy_agent, exec_step, verify_sale, transfer_ownership, record_sale,
    rollback, wf_done, cleanup_expired_listings, cancel_listing, make_offer, reject_offer, make_counter_offer,
    reject_counter_offer, create_auction, create_auction_with_extension, open_auction, check_auction_args, place_bid,
    place_bid_with_extension, extend_auction, check_bid, store_bid, min_bid, record_bid, finalize_auction,
    create_dutch_auction, dutch_buy_now, create_sealed_bid_auction, commit_bid, reveal_bid, finalize_sealed_auction,
    process_auction_sale, cancel_auction_asset_return, open_dispute, resolve_dispute, set_platform_fee, set_royalty,
    set_fee_splits, batch_create_listings, batch_cancel_listings, create_collection, add_to_collection,
    remove_from_collection, set_collection_royalty, set_collection_ipfs_metadata, assign_marketplace_governance,
    assign_marketplace_kyc_operator, remove_marketplace_governance, remove_marketplace_kyc_operator, create_nft_listing,
    buy_nft_listing, cancel_nft_listing, register_currency, deactivate_currency, get_currency, list_one, cancel_one,
    expire_one, load_own_collection, load_own_agent, listing_type_of, add_member, remove_member, rollback_agent,
    compute_settlement_fees, royalty_share, bps_part, dutch_current_price, release_bumped, record_transaction, after_days,
    assert_admin, get_hub, decode_u64, load_offer, load_listing, try_load_listing, load_auction, load_counter_offer,
    load_collection, load_nft_listing, load_agent, try_load_agent, save_agent, set_listing, set_auction,
    set_pending_sale, remove_pending_sale, try_load_dispute,
    set_offer, set_counter_offer, set_collection, set_member_royalty, set_nft_listing, next_offer_id, next_listing_id,
    next_auction_id, next_counter_offer_id, next_dispute_id, next_collection_id, next_nft_listing_id, next_currency_id; frame.

Section reach.
Context `{HubClient} (self : Address).
Implicit Types (w : World State Event) (e : Env).

(** The worlds the calls reach from the deployment, in whose storage some agents
    may be recorded, whether the contract is initialized or not, if its
    initialization does not come late. *)
Definition reachable (t : Z) (w : World State Event) : Prop :=
  ∃ t0 ag l lg,
    rtc (step_in exec call_ok early self) (t0, mkWorld {| deployed with AGENT_KEY_PREFIX := ag |} l lg) (t, w).

Lemma deployed_view ag : view {| deployed with AGENT_KEY_PREFIX := ag |} = mkMarket ag ∅ ∅ ∅ ∅ 0 0 ∅.
Proof. done. Qed.

Lemma market_exec_ok t c e w w' :
  call_ok c → early c (store w) = true → t ≤ timestamp e → exec c e w = Ok (tt, w') →
  market_ok t (view (store w)) → market_ok (timestamp e) (view (store w')).
Proof.
  intros Hok Hal Ht Hr Hm. eapply mstep_ok; [by eapply market_refines|]. by eapply market_ok_le.
Qed.

Lemma market_reachable_ok t w : reachable t w → market_ok t (view (store w)).
Proof.
  intros (t0 & ag & l & lg & Hr).
  apply (reach_in_inv_world exec call_ok early self (λ t w, market_ok t (view (store w)))) in Hr; [done| | |].
  - intros t' c e w0 w0' _ Ht Hok Hal Hw Hrun. by eapply market_exec_ok.
  - intros t1 t2 w0 l' Ht _ Hm. by eapply market_ok_le.
  - cbn [fst snd store]. rewrite deployed_view. split; cbn; done.
Qed.

(** A call in a reachable world is a step of the machine from a good market; a late
    initialization leaves agents and auctions alone. *)
Lemma reachable_step t w c e w' :
  reachable t w → t ≤ timestamp e → call_ok c → exec c e w = Ok (tt, w') →
  market_ok (timestamp e) (view (store w)) ∧
  (early c (store w) = true →
     mstep (current_contract_address e) (timestamp e) (view (store w)) (view (store w'))) ∧
  (early c (store w) = false →
     AUCTION_PREFIX (store w') = AUCTION_PREFIX (store w) ∧ AGENT_KEY_PREFIX (store w') = AGENT_KEY_PREFIX (store w)).
Proof.
  intros Hm%market_reachable_ok Ht Hok Hr. split; [by eapply market_ok_le|]. split; [by apply (market_refines c)|].
  intros Hal. destruct c; try discriminate Hal. cbn [exec] in Hr. unfold init_contract in Hr. by minv Hr.
Qed.
End reach.

(** ** Auctions *)

(** How one successful call at time [t] may change an auction. *)
Inductive auction_moves (t : Z) (au : Auction) : Auction → Prop :=
| am_same : auction_moves t au au
| am_bid b n en :
    t ≤ au_end_time au → lowest au ≤ n → au_end_time au ≤ en →
    auction_moves t au {| au with au_highest_bidder := Some b; au_highest_bid := n; au_current_price := n;
      au_end_time := en |}
| am_reveal b n c :
    au_auction_type au = Sealed → au_sealed_commit_end au = Some c → c < t ≤ au_end_time au → au_highest_bid au < n →
    auction_moves t au {| au with au_highest_bidder := Some b; au_highest_bid := n; au_current_price := n |}
| am_dutch b n :
    au_auction_type au = Dutch → au_start_time au ≤ t ≤ au_end_time au → au_reserve_price au ≤ n → 0 < n →
    auction_moves t au {| au with au_highest_bidder := Some b; au_highest_bid := n; au_current_price := n;
      au_status := Won |}
| am_won b :
    au_end_time au < t → au_highest_bidder au = Some b → au_reserve_price au ≤ au_highest_bid au →
    auction_moves t au {| au with au_status := Won |}
| am_unsold :
    au_end_time au < t → au_highest_bid au < au_reserve_price au →
    auction_moves t au {| au with au_status := Ended |}
| am_stuck :
    au_end_time au < t → au_auction_type au = Dutch → au_reserve_price au = 0 → au_highest_bidder au = None →
    auction_moves t au {| au with au_status := Won |}.

Lemma shelf_auctions self t m m' : rtc (shelf self t) m m' → m_auctions m' = m_auctions m.
Proof. induction 1 as [|m m1 m2 Hs _ IH]; [done|]. rewrite IH. by destruct Hs. Qed.

(** The auction after [i] was written over. *)
Lemma auction_written (t : Z) (m : gmap Z Auction) i j au x y :
  m !! i = Some x → m !! j = Some au → (au_status x = Active ∧ auction_moves t x y) →
  ∃ au', <[i := y]> m !! j = Some au' ∧ auction_moves t au au' ∧ (au_status au ≠ Active → au' = au).
Proof.
  intros Hx Hau [Hact Hm]. destruct (decide (i = j)) as [->|Hne].
  - exists y. rewrite lookup_insert_eq. assert (au = x) as -> by congruence. done.
  - exists au. rewrite lookup_insert_ne by done. split; [done|]. split; [constructor|done].
Qed.

Lemma mstep_auction self t m m' i au :
  mstep self t m m' → market_ok t m → m_auctions m !! i = Some au →
  ∃ au', m_auctions m' !! i = Some au' ∧ auction_moves t au au' ∧ (au_status au ≠ Active → au' = au).
Proof.
  intros Hs Hm Hau.
  assert (∃ au', m_auctions m !! i = Some au' ∧ auction_moves t au au' ∧ (au_status au ≠ Active → au' = au)) as Hsame.
  { exists au. split; [done|]. split; [constructor|done]. }
  destruct Hs as [m m' Hs|m a x y ext _ _ Hop|m j x b n en Hx Hst Ht Hn Hp Hen|m j x b n c r Hx Hty Hc Hr Ht Hp Hn
    |m j x b z Hx Hst Hov|m j x b n z Hx Hst Hty|m j x Hx Hst Hov Hlow|m j x Hx Hst Hov|m j l x b n wid
    |m j l p x|m j l p x Hl|m j p|m wid j|m wid j]; cbn; try exact Hsame;
    try (pose proof (mo_auction _ _ Hm _ _ Hx) as Hok; try pose proof (over_end _ _ _ _ Hok Hov) as He).
  - by rewrite (shelf_auctions _ _ _ _ Hs).
  - rewrite lookup_insert_ne; [done|]. pose proof (ak_id _ _ _ _ (mo_auction _ _ Hm _ _ Hau)). lia.
  - eapply auction_written; [done..|]. split; [done|]. constructor; try done.
    destruct Hen as [->|(c & Hc & ->)]; [done|]. destruct (mo_ext _ _ Hm _ _ Hc) as [? _]. lia.
  - rewrite (ak_sealed _ _ _ _ Hok Hty) in Hr. injection Hr as <-.
    eapply auction_written; [done..|]. split; [|by eapply am_reveal].
    destruct (au_status x) eqn:Hst; try done; pose proof (ak_closed _ _ _ _ Hok Hty); rewrite Hst in *; 
      (assert (au_end_time x < t); [auto|lia]).
  - eapply auction_written; [done..|]. split; [done|]. by eapply am_won.
  - eapply auction_written; [done..|]. split; [done|]. by eapply am_dutch.
  - eapply auction_written; [done..|]. split; [done|]. apply am_unsold; [done|].
    destruct Hlow as [?|[Hty Hno]]; [done|]. destruct Hok as [_ _ Hres [_ Hb]].
    rewrite (proj1 Hb Hno). apply Hres. by rewrite Hty.
  - eapply auction_written; [done..|]. split; [done|]. destruct Hok as [_ Hpr Hres [_ Hb] _ _ _].
    assert (au_highest_bid x = 0) as Hz by by apply Hb.
    assert (au_reserve_price x = 0) by lia. apply am_stuck; try done.
    destruct (decide (au_auction_type x = Dutch)); [done|]. assert (0 < au_reserve_price x); [auto|lia].
Qed.

(** ** Ownership of agents *)

(** The agents before and after a step, one by one. *)
Definition agents_rel (R : Z → Agent → Agent → Prop) (m m' : gmap Z Agent) : Prop :=
  ∀ a, option_Forall2 (R a) (m !! a) (m' !! a).

Section agents_rel.
Context (R : Z → Agent → Agent → Prop) (Hrefl : ∀ a x, R a x x).

Lemma agents_rel_refl m : agents_rel R m m.
Proof using Hrefl. intros a. destruct (m !! a); by constructor. Qed.

Lemma agents_rel_insert m a x y : m !! a = Some x → R a x y → agents_rel R m (<[a := y]> m).
Proof using Hrefl.
  intros Hx Hy b. destruct (decide (a = b)) as [->|Hne].
  - rewrite lookup_insert_eq, Hx. by constructor.
  - rewrite lookup_insert_ne by done. by apply agents_rel_refl.
Qed.

Lemma agents_rel_alter m a f : (∀ x, m !! a = Some x → R a x (f x)) → agents_rel R m (alter f a m).
Proof using Hrefl.
  intros Hf. destruct (m !! a) as [x|] eqn:Hx.
  - rewrite <- (insert_alter _ _ _ x) by done. eapply agents_rel_insert; eauto.
  - rewrite alter_id; [apply agents_rel_refl|]. intros x Hx'. congruence.
Qed.
End agents_rel.

(** The owner stays and the nonce does not fall. *)
Definition same_owner (x y : Agent) : Prop := ag_owner y = ag_owner x ∧ ag_nonce x ≤ ag_nonce y.

(** Why the owner of agent [a] changes, in the market [m] at time [t]: *)
Inductive new_owner (t : Z) (m : Market) (a : Z) (old new : Address) : Prop :=
| no_won i au : m_auctions m !! i = Some au → au_agent_id au = a → au_status au = Active → au_end_time au < t →
    au_highest_bidder au = Some new → au_reserve_price au ≤ au_highest_bid au → new_owner t m a old new
| no_dutch i au : m_auctions m !! i = Some au → au_agent_id au = a → au_status au = Active → au_auction_type au = Dutch →
    au_start_time au ≤ t ≤ au_end_time au → new_owner t m a old new
| no_sale i l p : m_listings m !! i = Some l → ls_asset_id l = a → m_pending m !! i = Some p → new = ps_buyer p →
    new_owner t m a old new
| no_undo i l p : m_listings m !! i = Some l → ls_asset_id l = a → m_pending m !! i = Some p →
    old = ps_buyer p → new = ps_seller p → new_owner t m a old new.

Definition agent_moves (t : Z) (m : Market) (a : Z) (x y : Agent) : Prop :=
  same_owner x y ∨ ag_nonce y = ag_nonce x + 1 ∧ new_owner t m a (ag_owner x) (ag_owner y).

Lemma agent_moves_refl t m a x : agent_moves t m a x x.
Proof. left. by split. Qed.

Lemma shelf_agents self t m m' :
  rtc (shelf self t) m m' → agents_rel (λ _, same_owner) (m_agents m) (m_agents m').
Proof.
  assert (∀ (a : Z) x, same_owner x x) as Hrefl by (by split).
  induction 1 as [|m m1 m2 Hs _ IH]; [by apply agents_rel_refl|]. intros a. specialize (IH a).
  assert (option_Forall2 same_owner (m_agents m !! a) (m_agents m1 !! a)) as H1.
  { revert a IH. destruct Hs as [m b x ty price ex Hx Hk|m i l Hl Hact]; cbn; intros a _.
    - by apply (agents_rel_insert (λ _, same_owner)) with x.
    - apply (agents_rel_alter (λ _, same_owner)); [done|]. intros x _. unfold unlist_agent.
      destruct (_ && _); split; cbn; lia || done. }
  destruct H1 as [x y [Hxy Hn]|]; [|by inversion_clear IH; constructor].
  inversion_clear IH as [? z [Hyz Hn']|]. constructor. split; [congruence|lia].
Qed.

Lemma undo_sale_moves t m i l p x :
  m_listings m !! i = Some l → m_pending m !! i = Some p → agent_moves t m (ls_asset_id l) x (undo_sale t p x).
Proof.
  intros Hl Hp. unfold undo_sale. destruct (bool_decide _) eqn:Hb; zbool.
  - right. cbn [ag_escrow_locked]. split; [by destruct (ag_escrow_locked x)|].
    eapply no_undo; try done. by destruct (ag_escrow_locked x).
  - left. by destruct (ag_escrow_locked x).
Qed.

Lemma mstep_agents self t m m' :
  mstep self t m m' → market_ok t m → agents_rel (agent_moves t m) (m_agents m) (m_agents m').
Proof.
  intros Hs Hm. pose proof (agent_moves_refl t m) as Hrefl. pose proof (agents_rel_refl _ Hrefl (m_agents m)) as Hsame.
  destruct Hs as [m m' Hs|m a x y ext Hx Hk Hop|m j x b n en Hx Hst Ht Hn Hp Hen|m j x b n c r Hx Hty Hc Hr Ht Hp Hn
    |m j x b z Hx Hst Hov Hb Hres Hz|m j x b n z Hx Hst Hty Ht Hn Hp Hz|m j x Hx Hst Hov Hlow|m j x Hx Hst Hov|m j l x b n wid
    |m j l p x Hl Hp Hx|m j l p x Hl Hp Hx|m j p Hp|m wid j|m wid j]; cbn; try exact Hsame.
  - intros a. destruct (shelf_agents _ _ _ _ Hs a); constructor. by left.
  - eapply agents_rel_insert; [done..|]. by left.
  - eapply agents_rel_insert; [done..|]. right. split; [done|].
    eapply no_won; try done. eapply over_end; [by apply (mo_auction _ _ Hm)|done].
  - eapply agents_rel_insert; [done..|]. right. split; [done|]. by eapply no_dutch.
  - apply agents_rel_alter; [done|]. intros y _. left. unfold give_back. by destruct (_ && _).
  - eapply agents_rel_insert; [done..|]. right. split; [done|]. by eapply no_sale.
  - eapply agents_rel_insert; [done..|]. by left.
  - destruct (m_listings m !! j) as [l|] eqn:Hl; [|exact Hsame].
    apply agents_rel_alter; [done|]. intros x _. by eapply undo_sale_moves.
Qed.

Section theorems.
Context `{HubClient} (self : Address).
Implicit Types (w : World State Event) (e : Env).

(** C29: every successful call of the marketplace is a step of the
    abstract market, which has listings put up and taken down, auctions opened,
    bid on and closed, and sales pending, carried out and undone, and nothing
    else.  It holds in every history from deployment in which the initialization,
    this call included, does not come late (it resets the counters of listings and
    auctions, so it must precede them); in particular for every call of a
    marketplace initialized by its first call. *)
Theorem market_calls_refine t w c e w' :
  reachable self t w → t ≤ timestamp e → call_ok c → early c (store w) = true → exec c e w = Ok (tt, w') →
  mstep (current_contract_address e) (timestamp e) (view (store w)) (view (store w')).
Proof. intros Hr Ht Hok Hal Hrun. by apply (reachable_step _ _ _ _ _ _ Hr Ht Hok Hrun). Qed.

(** C30: in every history from deployment in which the initialization
    does not come late (it resets the counters of listings and auctions, so it must
    precede them), a successful call leaves an auction as it is, or, while it is
    active, records a bid of at least the lowest one allowed before its end, a
    higher revealed bid in the reveal phase of a sealed one, or a purchase at or
    above the reserve during a Dutch one; after its end it is closed as won with a
    bidder at or above the reserve, as ended below the reserve, or, for a Dutch
    auction with reserve zero that nobody bought, as won without a buyer.  An
    auction that is no longer active never changes again, and outside Dutch
    auctions the highest bid never falls. *)
Theorem auction_lifecycle t w c e w' i au :
  reachable self t w → t ≤ timestamp e → call_ok c → exec c e w = Ok (tt, w') →
  AUCTION_PREFIX (store w) !! i = Some au →
  ∃ au', AUCTION_PREFIX (store w') !! i = Some au' ∧ auction_moves (timestamp e) au au' ∧
    (au_status au ≠ Active → au' = au) ∧
    (au_auction_type au ≠ Dutch → au_highest_bid au ≤ au_highest_bid au').
Proof.
  intros Hr Ht Hok Hrun Hau. destruct (reachable_step _ _ _ _ _ _ Hr Ht Hok Hrun) as (Hm & Hs & Hl).
  destruct (early c (store w)) eqn:Hal;
    [specialize (Hs eq_refl)|destruct (Hl eq_refl) as [-> _]; exists au; split_and!; by constructor || done].
  destruct (mstep_auction _ _ _ _ _ _ Hs Hm Hau) as (au' & Hau' & Hmv & Hfin).
  exists au'. do 3 (split; [done|]). intros Hd.
  pose proof (lowest_pos _ _ _ _ (mo_auction _ _ Hm _ _ Hau)). destruct Hmv; cbn; lia || done.
Qed.

(** A successful call neither creates nor removes agents, and
    never lowers an agent's nonce.  It changes the owner of an agent only to the
    highest bidder of an active auction of that agent whose time is over, at or
    above the reserve, to the buyer in a running Dutch auction of it, to the
    buyer of a pending sale of a listing of it, or from that buyer back to the
    seller; the nonce then grows by one. *)
Theorem agent_ownership t w c e w' :
  reachable self t w → t ≤ timestamp e → call_ok c → exec c e w = Ok (tt, w') →
  ∀ a, option_Forall2 (agent_moves (timestamp e) (view (store w)) a)
    (AGENT_KEY_PREFIX (store w) !! a) (AGENT_KEY_PREFIX (store w') !! a).
Proof.
  intros Hr Ht Hok Hrun a. destruct (reachable_step _ _ _ _ _ _ Hr Ht Hok Hrun) as (Hm & Hs & Hl).
  destruct (early c (store w)) eqn:Hal; [by apply (mstep_agents _ _ _ _ (Hs eq_refl) Hm)|].
  destruct (Hl eq_refl) as [_ ->]. destruct (AGENT_KEY_PREFIX (store w) !! a); constructor. by constructor.
Qed.
End theorems.
