(* ===== verification/MarketEscrow.v ===== *)
(** * contracts/marketplace: agents in escrow

    As long as no purchase has succeeded, an agent that is for sale is held by the
    marketplace, still owned by the seller, and for sale in one place only; that
    holds with any execution hub.  (A sale under way breaks it: while the hub runs
    the steps, the buyer owns the agent and may put it up again.)

    A purchase asks the execution hub to run its first step at once, a call back
    into the marketplace, which the host refuses while the marketplace is running.
    Against a hub that calls the contract its steps name, the interface [CallsBack],
    which the hub of Hub.v implements, no purchase ever succeeds. *)

From stdpp Require Import gmap strings list fin_maps.
From S2P Require Import Prelude Soroban TokenModel Workflow MarketTypes Marketplace MarketSpec MarketProofs.
Open Scope Z_scope.

(** ** Places where an agent is for sale *)

(** Listing [inl i] or auction [inr i] offers agent [a] for seller [s]. *)
Definition stall (m : Market) (k : Z + Z) (a : Z) (s : Address) : Prop :=
  match k with
  | inl i => ∃ l, m_listings m !! i = Some l ∧ ls_active l = true ∧ ls_asset_id l = a ∧ ls_seller l = s
  | inr i => ∃ au, m_auctions m !! i = Some au ∧ au_status au = Active ∧ au_agent_id au = a ∧ au_seller au = s
  end.

Section escrow.
Context (self : Address).

Definition in_escrow (x : Agent) (s : Address) : Prop :=
  ag_escrow_locked x = true ∧ ag_escrow_holder x = Some self ∧ ag_owner x = s.

Record exclusive (m : Market) : Prop := {
  ex_held k a s : stall m k a s → ∃ x, m_agents m !! a = Some x ∧ in_escrow x s;
  ex_one k k' a s s' : stall m k a s → stall m k' a s' → k = k';
}.

(** No new stall, and the agents of those that stay untouched. *)
Lemma exclusive_sub m m' :
  exclusive m → (∀ k a s, stall m' k a s → stall m k a s ∧ m_agents m' !! a = m_agents m !! a) → exclusive m'.
Proof.
  intros [Hh Ho] Hsub. split.
  - intros k a s [Hk ->]%Hsub. by eapply Hh.
  - intros k k' a s s' [Hk _]%Hsub [Hk' _]%Hsub. by eapply Ho.
Qed.

(** A stall is taken down: no other one has its agent. *)
Lemma exclusive_drop m m' k a s :
  exclusive m → stall m k a s →
  (∀ k' a' s', stall m' k' a' s' → stall m k' a' s' ∧ k' ≠ k) → (∀ b, b ≠ a → m_agents m' !! b = m_agents m !! b) →
  exclusive m'.
Proof.
  intros Hex Hk Hsub Hag. apply (exclusive_sub m); [done|]. intros k' a' s' [Hk' Hne]%Hsub. split; [done|].
  apply Hag. intros ->. by apply Hne, (ex_one _ Hex k' k a s' s).
Qed.

(** A stall is put up for an agent that was not in escrow. *)
Lemma exclusive_add t m m' k a x :
  exclusive m → m_agents m !! a = Some x → ag_escrow_locked x = false →
  m_agents m' = <[a := locked self t x]> (m_agents m) →
  (∀ k' a' s', stall m' k' a' s' → stall m k' a' s' ∨ k' = k ∧ a' = a ∧ s' = ag_owner x) → exclusive m'.
Proof.
  intros Hex Hx Hk Hag Hsub.
  assert (∀ k' s', ¬ stall m k' a s') as Hnone.
  { intros k' s' (y & Hy & Hl & _)%(ex_held _ Hex). congruence. }
  split.
  - intros k' a' s' [Hst|(-> & -> & ->)]%Hsub; rewrite Hag.
    + rewrite lookup_insert_ne; [by apply (ex_held _ Hex k')|]. intros <-. by apply (Hnone k' s').
    + rewrite lookup_insert_eq. by eexists.
  - intros k1 k2 a' s1 s2 [H1|(-> & -> & ->)]%Hsub [H2|(-> & Ha & ->)]%Hsub; try done; try (subst a'; by edestruct Hnone).
    + by apply (ex_one _ Hex k1 k2 a' s1 s2).
    + by edestruct Hnone.
Qed.

(** The stalls after listing [i] or auction [i] was written over. *)
Lemma stall_listing m m' i l k a s :
  stall m' k a s → m_listings m' = <[i := l]> (m_listings m) → m_auctions m' = m_auctions m →
  stall m k a s ∧ k ≠ inl i ∨ k = inl i ∧ a = ls_asset_id l ∧ s = ls_seller l ∧ ls_active l = true.
Proof.
  intros Hk Hl Ha. revert Hk. destruct k as [j|j]; cbn; rewrite ?Hl, ?Ha; [|by left; split].
  intros (l' & [[<- <-]|[Hne Hj]]%lookup_insert_Some & Hact & <- & <-); [by right|].
  left. split; [by exists l'|congruence].
Qed.
Lemma stall_auction m m' i au k a s :
  stall m' k a s → m_auctions m' = <[i := au]> (m_auctions m) → m_listings m' = m_listings m →
  stall m k a s ∧ k ≠ inr i ∨ k = inr i ∧ a = au_agent_id au ∧ s = au_seller au ∧ au_status au = Active.
Proof.
  intros Hk Ha Hl. revert Hk. destruct k as [j|j]; cbn; rewrite ?Hl, ?Ha; [by left; split|].
  intros (l' & [[<- <-]|[Hne Hj]]%lookup_insert_Some & Hact & <- & <-); [by right|].
  left. split; [by exists l'|congruence].
Qed.

(** An auction stays up. *)
Lemma exclusive_auction m m' i au au' :
  exclusive m → m_auctions m !! i = Some au → m_auctions m' = <[i := au']> (m_auctions m) →
  m_listings m' = m_listings m → m_agents m' = m_agents m →
  au_agent_id au' = au_agent_id au → au_seller au' = au_seller au → (au_status au' = Active → au_status au = Active) →
  exclusive m'.
Proof.
  intros Hex Hau Ha Hl Hag Hi Hs Hst. apply (exclusive_sub m); [done|]. rewrite Hag. intros k a s Hk. split; [|done].
  destruct (stall_auction _ _ _ _ _ _ _ Hk Ha Hl) as [[? _]|(-> & -> & -> & Hact)]; [done|]. exists au. auto.
Qed.

(** An auction is closed. *)
Lemma exclusive_close m m' i au au' :
  exclusive m → m_auctions m !! i = Some au → au_status au = Active →
  m_auctions m' = <[i := au']> (m_auctions m) → m_listings m' = m_listings m → au_status au' ≠ Active →
  (∀ b, b ≠ au_agent_id au → m_agents m' !! b = m_agents m !! b) → exclusive m'.
Proof.
  intros Hex Hau Hact Ha Hl Hst Hag. apply (exclusive_drop m m' (inr i) (au_agent_id au) (au_seller au)); try done.
  - by exists au.
  - intros k a s Hk. destruct (stall_auction _ _ _ _ _ _ _ Hk Ha Hl) as [?|(-> & _ & _ & ?)]; [done|congruence].
Qed.

Lemma shelf_exclusive t m m' : shelf self t m m' → exclusive m → exclusive m'.
Proof.
  intros Hs Hex. destruct Hs as [m a x ty price ex Hx Hk|m i l Hl Hact].
  - eapply (exclusive_add t m _ (inl (m_listing_ctr m + 1)) a x); [done..|].
    intros k a' s' Hst.
    destruct (stall_listing m _ _ _ _ _ _ Hst eq_refl eq_refl) as [[? _]|(-> & -> & -> & _)]; [by left|by right].
  - apply (exclusive_drop m _ (inl i) (ls_asset_id l) (ls_seller l)); [done|by exists l| |].
    + intros k a s Hk. by destruct (stall_listing m _ _ _ _ _ _ Hk eq_refl eq_refl) as [?|(_ & _ & _ & ?)].
    + intros b Hb. cbn. by rewrite lookup_alter_ne.
Qed.

(** Without pending sales, and if none is started, the steps keep agents exclusive. *)
Definition quiet (m : Market) : Prop := m_pending m = ∅ ∧ m_workflows m = ∅.

Lemma shelf_quiet t m m' : rtc (shelf self t) m m' → quiet m → quiet m'.
Proof. induction 1 as [|m m1 m2 Hs _ IH]; [done|]. intros Hq. apply IH. by destruct Hs. Qed.

Local Ltac empty_lookup :=
  match goal with
  | Hm : ?m = ∅, Hl : ?m !! _ = Some _ |- _ => exfalso; rewrite Hm, lookup_empty in Hl; discriminate Hl
  end.

Lemma mstep_exclusive t m m' :
  mstep self t m m' → quiet m → m_workflows m' = ∅ → exclusive m → quiet m' ∧ exclusive m'.
Proof.
  intros Hs [Hp Hw] Hw' Hex. split.
  - destruct Hs; cbn in *; try done; try empty_lookup; try (by apply insert_non_empty in Hw').
    by eapply shelf_quiet.
  - destruct Hs as [m m' Hs|m a x y ext Hx Hk Hop|m j x b n en Hx Hst Ht Hn Hp' Hen|m j x b n c r Hx Hty Hc Hr Ht Hp' Hn
      |m j x b z Hx Hst Hov Hb Hres Hz|m j x b n z Hx Hst Hty Ht Hn Hp' Hz|m j x Hx Hst Hov Hlow|m j x Hx Hst Hov|m j l x b n wid
      |m j l p x Hl Hp' Hx|m j l p x Hl Hp' Hx|m j p Hp'|m wid j Hj|m wid j Hj]; cbn in *;
      try empty_lookup; try (by apply insert_non_empty in Hw').
    + clear Hp Hw Hw'. induction Hs; [done|]. eauto using shelf_exclusive.
    + eapply (exclusive_add t m _ (inr (m_auction_ctr m + 1)) a x); [done..|].
      intros k a' s' Hst. destruct Hop.
      destruct (stall_auction m _ _ _ _ _ _ Hst eq_refl eq_refl) as [[? _]|(-> & -> & -> & _)]; [by left|].
      right. by rewrite op_agent, op_seller.
    + by eapply (exclusive_auction m _ j x).
    + by eapply (exclusive_auction m _ j x).
    + eapply (exclusive_close m _ j x); [done..|]. intros b' Hb'. cbn. by rewrite lookup_insert_ne.
    + eapply (exclusive_close m _ j x); [done..|]. intros b' Hb'. cbn. by rewrite lookup_insert_ne.
    + eapply (exclusive_close m _ j x); [done..|]. intros b' Hb'. cbn. by rewrite lookup_alter_ne.
    + by eapply (exclusive_close m _ j x).
Qed.
End escrow.

Definition is_purchase (c : Call) : bool :=
  match c with CBuyAgent _ _ _ | CAcceptOffer _ _ | CAcceptCounter _ _ => true | _ => false end.

(** ** Histories without a purchase *)

Section unsold.
Context `{HubClient} (self : Address).
Implicit Types (w : World State Event) (e : Env).

(** The calls of a history in which the initialization does not come late and no
    purchase has succeeded. *)
Definition unsold (c : Call) (st : State) : bool := early c st && negb (is_purchase c).

Definition reachable_unsold (t : Z) (w : World State Event) : Prop :=
  ∃ t0 ag l lg,
    rtc (step_in exec call_ok unsold self) (t0, mkWorld {| deployed with AGENT_KEY_PREFIX := ag |} l lg) (t, w).

(** Only a purchase starts a workflow. *)
Lemma workflows_stay_empty c e w w' :
  is_purchase c = false → exec c e w = Ok (tt, w') → WF_LISTING_PREFIX (store w) = ∅ → WF_LISTING_PREFIX (store w') = ∅.
Proof.
  intros Hc Hr Hw. assert ((∃ i st, c = CWfDone i st) ∨ ∀ i st, c ≠ CWfDone i st) as [(i & st & ->)|Hn] by (destruct c; eauto).
  - cbn [exec] in Hr. unfold wf_done in Hr. apply bind_Ok in Hr as (o & w1 & Ho & Hr). minv Ho.
    rewrite Hw, lookup_empty in Hr. by minv Hr.
  - assert (keeps WF_LISTING_PREFIX (exec c)) as Hk; [|by rewrite (Hk _ _ _ _ Hr)]. clear Hr.
    destruct c; try done; try (by edestruct Hn); frame_call.
Qed.

Lemma deployed_exclusive ag : exclusive self (mkMarket ag ∅ ∅ ∅ ∅ 0 0 ∅).
Proof.
  split; [intros [i|i] a s|intros [i|i] k' a s s']; cbn; intros (? & Hl & _); by rewrite lookup_empty in Hl.
Qed.

Lemma unsold_exclusive t w : reachable_unsold t w → exclusive self (view (store w)).
Proof.
  intros (t0 & ag & l & lg & Hr).
  apply (reach_in_inv_world exec call_ok unsold self (λ t w, quiet (view (store w)) ∧ exclusive self (view (store w)))) in Hr;
    [by destruct Hr| | |].
  - intros t' c e w0 w0' He Ht Hok Hal (Hq & Hex) Hrun. apply andb_prop in Hal as [Hal Hc%negb_true_iff].
    pose proof (market_refines _ _ _ _ Hrun Hok Hal) as Hst. destruct He as [Hself _]. rewrite Hself in Hst.
    eapply mstep_exclusive; [done|done| |done]. cbn. eapply workflows_stay_empty; [done..|]. apply Hq.
  - done.
  - cbn [snd store]. rewrite deployed_view. split; [done|apply deployed_exclusive].
Qed.

(** C31: whatever the execution hub, in every history from deployment
    in which no purchase ([buy_agent], or the acceptance of an offer or of a
    counter-offer) has succeeded and the initialization does not come late (it
    resets the counters of listings and auctions, so it must precede them), an
    agent that an active listing or an active auction offers is locked in escrow by
    the marketplace and still belongs to the seller, and it is offered in one place
    only. *)
Theorem escrow_exclusive t w : reachable_unsold t w → exclusive self (view (store w)).
Proof. apply unsold_exclusive. Qed.
End unsold.

(** ** Hubs that call back *)

(** The first step of a workflow just created cannot be run if it calls the
    contract that asks for it: so it is with a hub that runs a step by calling the
    contract it names, on a host that refuses re-entrancy. *)
Class CallsBack `{HubClient} :=
  first_step_refused hub initiator name s steps deadline tag callback e l wid l' :
    ws_target_contract s = current_contract_address e → 0 ≤ default 0 deadline →
    hub_create_workflow hub initiator name (s :: steps) deadline tag callback e l = Some (wid, l') →
    hub_execute_workflow_step hub wid e l' = None.

Section callback.
Context `{HubClient} {Hre : CallsBack} (self : Address).
Implicit Types (w : World State Event) (e : Env).

(** The hub is asked to run the first step of the sale, which calls back. *)
Lemma buy_agent_refused i b n e w r : buy_agent i b n e w ≠ Ok r.
Proof.
  intros Hr. destruct r as [v w']. unfold buy_agent in Hr.
  do 2 (let Hg := fresh "Hg" in apply bind_Ok in Hr as ([] & w1 & Hg & Hr); minv Hg).
  apply bind_Ok in Hr as (l & w1 & [Hl ->]%load_listing_spec & Hr).
  do 3 (let Hg := fresh "Hg" in apply bind_Ok in Hr as ([] & w1 & Hg & Hr); minv Hg).
  apply bind_Ok in Hr as (mk & w1 & Hmk & Hr). minv Hmk. apply bind_Ok in Hr as (x & w1 & [Hx ->]%load_agent_spec & Hr).
  do 2 (let Hg := fresh "Hg" in apply bind_Ok in Hr as ([] & w1 & Hg & Hr); minv Hg).
  unfold set_pending_sale, get_hub in Hr. cbv zeta in Hr. minv Hr. cbn in *.
  unfold build_sale_steps in *.
  match goal with H1 : hub_create_workflow _ _ _ _ _ _ _ _ _ = Some _, H2 : hub_execute_workflow_step _ _ _ _ = Some _ |- _ =>
    pose proof (λ Ht Hd, first_step_refused _ _ _ _ _ _ _ _ _ _ _ _ Ht Hd H1) as Hno;
    rewrite Hno in H2 by done; discriminate H2 end.
Qed.

Lemma purchase_refused c e w r : is_purchase c = true → exec c e w ≠ Ok r.
Proof.
  intros Hc Hr. destruct r as [[] w']. destruct c; try done; cbn [exec] in Hr; apply discard_Ok in Hr as [v Hr].
  - by apply buy_agent_refused in Hr.
  - unfold accept_offer in Hr. do 10 (let x := fresh in let w1 := fresh in let Hg := fresh in
      apply bind_Ok in Hr as (x & w1 & Hg & Hr)). by apply buy_agent_refused in Hr.
  - unfold accept_counter_offer in Hr. do 10 (let x := fresh in let w1 := fresh in let Hg := fresh in
      apply bind_Ok in Hr as (x & w1 & Hg & Hr)). by apply buy_agent_refused in Hr.
Qed.

(** With such a hub every history is one without a purchase. *)
Lemma callback_exclusive t w : reachable self t w → exclusive self (view (store w)).
Proof.
  intros (t0 & ag & l & lg & Hr). apply (unsold_exclusive self t). exists t0, ag, l, lg.
  revert Hr. apply rtc_subrel. intros x y [t1 c e w1 w2 He Ht Hok Hal Hrun|t1 t2 w1 l' Ht Hl]; [|by constructor].
  eapply step_in_call; [done..| |done]. unfold unsold. rewrite Hal. apply negb_true_iff.
  destruct (is_purchase c) eqn:Hc; [|done]. by destruct (purchase_refused _ _ _ _ Hc Hrun).
Qed.

(** Against such a hub no purchase ever succeeds: neither [buy_agent] nor the
    acceptance of an offer or of a counter-offer. *)
Theorem sale_refused c e w r : is_purchase c = true → exec c e w ≠ Ok r.
Proof. apply purchase_refused. Qed.
End callback.
