(* ===== verification/MarketFees.v ===== *)
(** * contracts/marketplace: encoding, prices and fees

    The bytes the steps of a sale carry, the price of a Dutch auction, and what a
    settlement takes from a payment. *)

From stdpp Require Import gmap strings list fin_maps.
From S2P Require Import Prelude Soroban TokenModel Workflow MarketTypes Marketplace MarketSpec MarketProofs.
Open Scope Z_scope.

(** ** The encoding of workflow arguments *)

(** Appending byte [k] of a number to its higher bytes. *)
Lemma next_byte v k j :
  0 ≤ k → j = k + 1 → Z.lor (Z.shiftl (Z.shiftr v (8 * j)) 8) (Z.land (Z.shiftr v (8 * k)) 255) = Z.shiftr v (8 * k).
Proof.
  intros Hk ->. apply Z.bits_inj'. intros n Hn. change 255 with (Z.ones 8).
  rewrite Z.lor_spec, Z.land_spec, Z.shiftl_spec, Z.testbit_ones, (Z.shiftr_spec v (8 * k)) by lia.
  destruct (decide (n < 8)) as [Hlt|Hge].
  - rewrite (Z.testbit_neg_r _ (n - 8)) by lia. cbn [orb].
    rewrite (proj2 (Z.leb_le _ _)), (proj2 (Z.ltb_lt _ _)), andb_true_r by lia. done.
  - rewrite Z.shiftr_spec by lia. rewrite (proj2 (Z.ltb_ge n 8)), !andb_false_r, orb_false_r by lia.
    f_equal. lia.
Qed.

Lemma from_to_be_bytes v : 0 ≤ v < 2 ^ 64 → from_be_bytes (to_be_bytes v) = v.
Proof.
  intros Hv. unfold from_be_bytes, to_be_bytes. cbn [map fold_left].
  assert (Z.shiftr v (8 * 8) = 0) as H0 by (rewrite Z.shiftr_div_pow2 by lia; by apply Z.div_small).
  rewrite <- H0 at 1. rewrite (next_byte v 7 8), (next_byte v 6 7), (next_byte v 5 6), (next_byte v 4 5), (next_byte v 3 4),
    (next_byte v 2 3), (next_byte v 1 2), (next_byte v 0 1) by lia. apply Z.shiftr_0_r.
Qed.

Section codec.
Context `{HubClient}.

(** A listing id written into the arguments of a sale step
    is read back by the step, whatever bytes follow it; fewer than eight bytes
    are refused. *)
Theorem workflow_args_roundtrip v data rest e w :
  0 ≤ v ≤ int_max U64 →
  decode_u64 (encode_u64 v ++ rest) e w = Ok (v, w) ∧
  ((length data < 8)%nat → decode_u64 data e w = Panic "Encoded args too short").
Proof.
  intros Hv. unfold decode_u64, encode_u64. split.
  - rewrite length_app. change (length (to_be_bytes v)) with 8%nat.
    rewrite (proj2 (Z.ltb_ge _ _)) by lia. rewrite take_app_length' by done.
    rewrite from_to_be_bytes; [done|]. cbn in Hv. lia.
  - intros Hl. rewrite (proj2 (Z.ltb_lt _ _)) by lia. done.
Qed.
End codec.

(** ** The price of a Dutch auction *)

Section dutch.
Context `{HubClient}.

(** What [dutch_current_price] computes inside the auction: the fall of the price is
    the part of the whole fall that has elapsed, up to the largest i128. *)
Definition dutch_fall (au : Auction) (t : Z) : Z :=
  Z.min ((au_start_price au - au_reserve_price au) * (t - au_start_time au)) (int_max I128)
    `div` (au_end_time au - au_start_time au).
Definition dutch_price (au : Auction) (t : Z) : Z :=
  if t <=? au_start_time au then (if au_end_time au <=? au_start_time au then au_reserve_price au else au_start_price au)
  else if au_end_time au <=? t then au_reserve_price au
  else au_start_price au - dutch_fall au t.

(** The prices and times of an auction are values of their types. *)
Record dutch_ok (au : Auction) : Prop := {
  dk_prices : 0 ≤ au_reserve_price au ≤ au_start_price au ∧ au_start_price au ≤ int_max I128;
  dk_times : 0 ≤ au_start_time au ≤ int_max U64 ∧ 0 ≤ au_end_time au ≤ int_max U64;
}.

Lemma dutch_fall_bounds au t :
  dutch_ok au → au_start_time au < t < au_end_time au →
  0 ≤ dutch_fall au t ≤ au_start_price au - au_reserve_price au.
Proof.
  intros [Hp Ht] Hin. unfold dutch_fall. set (d := au_start_price au - au_reserve_price au).
  assert (0 ≤ d) by lia. split; [apply Z.div_pos; [|lia]; change (int_max I128) with (2 ^ 127 - 1); nia|].
  apply Z.div_le_upper_bound; [lia|]. nia.
Qed.

Lemma dutch_slope au e w :
  dutch_ok au → 0 ≤ timestamp e ≤ int_max U64 → au_start_time au < timestamp e < au_end_time au →
  (percent ← plain_div I128
     (saturating_mul I128 (saturating_sub I128 (au_start_price au) (au_reserve_price au))
        (saturating_sub U64 (timestamp e) (au_start_time au)))
     (Z.max 0 (au_end_time au - au_start_time au));
   mret (saturating_sub I128 (au_start_price au) percent) : M State () Event Z) e w =
  Ok (au_start_price au - dutch_fall au (timestamp e), w).
Proof.
  intros Hok Ht Hin. pose proof (dutch_fall_bounds au (timestamp e) Hok Hin) as Hf. destruct Hok as [Hp Htm].
  change (int_max U64) with (2 ^ 64 - 1) in *. change (int_max I128) with (2 ^ 127 - 1) in *.
  unfold dutch_fall in *. unfold saturating_sub, saturating_mul, saturate.
  change (int_max U64) with (2 ^ 64 - 1) in *. change (int_max I128) with (2 ^ 127 - 1) in *.
  change (int_min I128) with (- 2 ^ 127). change (int_min U64) with 0.
  set (d := au_start_price au - au_reserve_price au) in *. set (x := timestamp e - au_start_time au) in *.
  assert (0 ≤ d * x) by nia.
  rewrite (Z.max_r 0 (au_end_time au - _)), (Z.min_l d), (Z.min_l x), (Z.max_r _ d), (Z.max_r _ x), (Z.max_r _ (Z.min _ _)) by lia.
  apply bind_Ok. eexists _, w. split; [apply plain_div_Ok; split; [lia|]|].
  - rewrite quot_div_nonneg by lia. split; [|done]. apply checked_Some. split; [done|].
    change (int_max I128) with (2 ^ 127 - 1). change (int_min I128) with (- 2 ^ 127). lia.
  - rewrite Z.min_l, Z.max_r by lia. done.
Qed.

Lemma dutch_price_spec au e w :
  dutch_ok au → 0 ≤ timestamp e ≤ int_max U64 → dutch_current_price au e w = Ok (dutch_price au (timestamp e), w).
Proof.
  intros Hok Ht. pose proof (dutch_fall_bounds au (timestamp e) Hok) as Hf. destruct Hok as [Hp Htm].
  assert (saturating_sub U64 (au_end_time au) (au_start_time au) = Z.max 0 (au_end_time au - au_start_time au)) as Hw.
  { unfold saturating_sub, saturate. change (int_min U64) with 0. lia. }
  unfold dutch_current_price, dutch_price.
  match goal with |- (now ≫= ?k) _ _ = _ => change (k (timestamp e) e w = Ok (dutch_price au (timestamp e), w)) end.
  cbv beta zeta. rewrite Hw. unfold dutch_price. rewrite Z.geb_leb.
  destruct (Z.leb_spec (timestamp e) (au_start_time au)), (Z.leb_spec (au_end_time au) (au_start_time au)),
    (Z.leb_spec (au_end_time au) (timestamp e)); try lia;
    try (rewrite (proj2 (Z.eqb_eq _ 0)) by lia; done); rewrite (proj2 (Z.eqb_neq _ 0)) by lia; try done.
  by apply dutch_slope.
Qed.

Lemma dutch_price_le au t1 t2 :
  dutch_ok au → t1 ≤ t2 → au_reserve_price au ≤ dutch_price au t2 ≤ dutch_price au t1 ∧ dutch_price au t1 ≤ au_start_price au.
Proof.
  intros Hok Ht. pose proof (dutch_fall_bounds au t1 Hok) as H1. pose proof (dutch_fall_bounds au t2 Hok) as H2.
  destruct Hok as [Hp Htm]. unfold dutch_price.
  destruct (Z.leb_spec t1 (au_start_time au)), (Z.leb_spec t2 (au_start_time au)),
    (Z.leb_spec (au_end_time au) t1), (Z.leb_spec (au_end_time au) t2),
    (Z.leb_spec (au_end_time au) (au_start_time au)); try lia.
  assert (dutch_fall au t1 ≤ dutch_fall au t2); [|lia].
  unfold dutch_fall. apply Z.div_le_mono; [lia|]. nia.
Qed.

(** The price of a Dutch auction is computed without a panic at
    every time and never rises; it stays between the reserve and the start
    price, is the start price until the auction starts, the reserve from its end
    on, and in between it falls linearly, if the product fits an i128. *)
Theorem dutch_price_falls au e1 e2 w1 w2 :
  dutch_ok au → 0 ≤ timestamp e1 ≤ timestamp e2 → timestamp e2 ≤ int_max U64 →
  ∃ p1 p2, dutch_current_price au e1 w1 = Ok (p1, w1) ∧ dutch_current_price au e2 w2 = Ok (p2, w2) ∧
    au_reserve_price au ≤ p2 ≤ p1 ∧ p1 ≤ au_start_price au ∧
    (timestamp e1 ≤ au_start_time au < au_end_time au → p1 = au_start_price au) ∧
    (au_end_time au ≤ timestamp e1 → p1 = au_reserve_price au) ∧
    (au_start_time au < timestamp e1 < au_end_time au →
     (au_start_price au - au_reserve_price au) * (timestamp e1 - au_start_time au) ≤ int_max I128 →
     p1 = au_start_price au - ((au_start_price au - au_reserve_price au) * (timestamp e1 - au_start_time au))
            `div` (au_end_time au - au_start_time au)).
Proof.
  intros Hok Ht Ht2. exists (dutch_price au (timestamp e1)), (dutch_price au (timestamp e2)).
  rewrite (dutch_price_spec au e1 w1), (dutch_price_spec au e2 w2); try done; try lia.
  destruct (dutch_price_le au _ _ Hok (proj2 Ht)) as [? ?].
  do 2 (split; [done|]). split; [done|]. split; [done|]. unfold dutch_price.
  split; [|split].
  - intros Hs. rewrite (proj2 (Z.leb_le _ _)), (proj2 (Z.leb_gt _ _)) by lia. done.
  - intros He. destruct (Z.leb_spec (timestamp e1) (au_start_time au)); rewrite (proj2 (Z.leb_le _ _)) by lia; done.
  - intros Hin Hfit. rewrite (proj2 (Z.leb_gt (timestamp e1) _)), (proj2 (Z.leb_gt (au_end_time au) _)) by lia.
    unfold dutch_fall. by rewrite Z.min_l.
Qed.
End dutch.

(** ** Fees of a settlement *)

Definition royalty_ok (cfg : RoyaltyConfig) : Prop :=
  lsum rr_share_bps (rc_recipients cfg) ≤ 10000 ∧ Forall (λ r, 0 ≤ rr_share_bps r) (rc_recipients cfg).

(** What the fees are computed from. *)
Definition fee_state (st : State) :=
  (PLATFORM_FEE_KEY st, ROYALTY_PREFIX st, COLLECTION_ROYALTY_PREFIX st, COLLECTION_PREFIX st).

Record fees_ok (st : State) : Prop := {
  fk_platform c : PLATFORM_FEE_KEY st = Some c → 0 ≤ pf_fee_bps c ≤ 1000;
  fk_royalty a r : ROYALTY_PREFIX st !! a = Some r → 0 ≤ ri_fee r ≤ 10000;
  fk_member a cfg : COLLECTION_ROYALTY_PREFIX st !! a = Some cfg → royalty_ok cfg;
  fk_collection i c : COLLECTION_PREFIX st !! i = Some c → royalty_ok (co_royalty_config c);
}.

Section fees.
Context `{HubClient} (self : Address).
Implicit Types (w : World State Event) (e : Env).

Definition sets_fees (c : Call) : bool :=
  match c with
  | CInit _ | CSetPlatformFee _ _ _ | CSetRoyalty _ _ _ _ | CCreateCollection _ _ _ | CAddToCollection _ _ _
  | CRemoveFromCollection _ _ _ | CSetCollectionRoyalty _ _ _ _ => true
  | _ => false
  end.

Lemma fees_frame c : sets_fees c = false → keeps fee_state (exec c).
Proof. intros Hc. destruct c; try done; frame_call. Qed.

Lemma fees_ok_frame st st' : fee_state st' = fee_state st → fees_ok st → fees_ok st'.
Proof. intros [= H1 H2 H3 H4] []. split; rewrite ?H1, ?H2, ?H3, ?H4; done. Qed.

Lemma bps_part_spec n b e w v w' :
  (bps_part n b : M State () Event Z) e w = Ok (v, w') → v = (n * b) `quot` 10000 ∧ w' = w.
Proof. intros Hr. unfold bps_part in Hr. minv Hr. by inv_checked. Qed.

(** The shares of several recipients are no more than the share of their sum. *)
Lemma royalty_shares n l e w b v w' :
  foldM (royalty_share n) b l e w = Ok (v, w') → 0 ≤ n → Forall (λ r, 0 ≤ rr_share_bps r) l → 0 ≤ b →
  b ≤ v ∧ 10000 * (v - b) ≤ n * lsum rr_share_bps l ∧ w' = w.
Proof.
  intros Hr Hn Hl. revert b w Hr. induction Hl as [|r l Hr0 Hl IH]; intros b w Hr Hb.
  - cbn in Hr. minv Hr. split_and!; [lia|cbn; lia|done].
  - cbn [foldM] in Hr. apply bind_Ok in Hr as (b1 & w1 & H1 & Hr). unfold royalty_share in H1.
    apply bind_Ok in H1 as ([] & w2 & Hp & H1). minv Hp. apply bind_Ok in H1 as (p & w2 & [-> ->]%bps_part_spec & H1).
    minv H1. inv_checked. rewrite quot_div_nonneg in * by nia.
    assert (0 ≤ (n * rr_share_bps r) `div` 10000) by (apply Z.div_pos; nia).
    pose proof (Z.mul_div_le (n * rr_share_bps r) 10000).
    destruct (IH _ _ Hr) as (? & ? & ->); [lia|]. cbn [lsum]. unfold lsum in *. cbn. split_and!; [lia| |done]. nia.
Qed.

Lemma settlement_spec a n e w r f w' :
  compute_settlement_fees a n e w = Ok ((r, f), w') → fees_ok (store w) → 0 ≤ n → 0 ≤ r ≤ n ∧ 0 ≤ f ∧ 10 * f ≤ n ∧ w' = w.
Proof.
  intros Hr [Hpf Hri Hco _] Hn. unfold compute_settlement_fees in Hr.
  apply bind_Ok in Hr as (o & w1 & Ho & Hr). minv Ho. apply bind_Ok in Hr as (roy & w1 & Hroy & Hr).
  assert (0 ≤ roy ≤ n ∧ w1 = w) as [Hb ->].
  { destruct (COLLECTION_ROYALTY_PREFIX (store w) !! a) as [cfg|] eqn:Hc.
    - apply bind_Ok in Hroy as ([] & w2 & Hg & Hroy). minv Hg. destruct (Hco _ _ Hc) as [Hs Hf].
      destruct (royalty_shares _ _ _ _ _ _ _ Hroy Hn Hf) as (? & ? & ->); [done|]. split; [nia|done].
    - apply bind_Ok in Hroy as (o & w2 & Ho & Hroy). minv Ho.
      destruct (ROYALTY_PREFIX (store w) !! a) as [ri|] eqn:Hr0; [|minv Hroy; split; [lia|done]].
      pose proof (Hri _ _ Hr0). destruct (ri_fee ri <=? _); [|minv Hroy; split; [lia|done]].
      apply bps_part_spec in Hroy as [-> ->]. split; [|done]. rewrite quot_div_nonneg by nia.
      split; [apply Z.div_pos; nia|apply div_le_of_le_mul; nia]. }
  apply bind_Ok in Hr as (o & w1 & Ho & Hr). minv Ho. apply bind_Ok in Hr as (c & w1 & Hc & Hr). minv Hc.
  pose proof (Hpf _ Hc). apply bind_Ok in Hr as (pf & w1 & Hfee & Hr). minv Hr.
  destruct (pf_fee_bps c >? _); [minv Hfee; split_and!; lia || done|]. apply bps_part_spec in Hfee as [-> ->].
  rewrite quot_div_nonneg by nia. pose proof (Z.mul_div_le (n * pf_fee_bps c) 10000).
  assert (0 ≤ (n * pf_fee_bps c) `div` 10000) by (apply Z.div_pos; nia). split_and!; try done; nia.
Qed.

(** A royalty configuration is stored for an agent, or in a collection. *)
Lemma fees_ok_member st a cfg :
  fees_ok st → royalty_ok cfg →
  fees_ok {| st with COLLECTION_ROYALTY_PREFIX := <[a := cfg]> (COLLECTION_ROYALTY_PREFIX st) |}.
Proof. intros [] Hc. split; try done. cbn. intros b c' [[<- <-]|[_ ?]]%lookup_insert_Some; eauto. Qed.
Lemma fees_ok_collection st i c :
  fees_ok st → royalty_ok (co_royalty_config c) →
  fees_ok {| st with COLLECTION_PREFIX := <[i := c]> (COLLECTION_PREFIX st) |}.
Proof. intros [] Hc. split; try done. cbn. intros b c' [[<- <-]|[_ ?]]%lookup_insert_Some; eauto. Qed.

Lemma load_own_collection_spec s i e w c w' :
  load_own_collection s i e w = Ok (c, w') → COLLECTION_PREFIX (store w) !! i = Some c ∧ w' = w.
Proof. intros Hr. unfold load_own_collection, load_collection in Hr. by minv Hr. Qed.

(** The loops over members keep the configuration of the collection. *)
Definition members_ok (cfg : RoyaltyConfig) (acc : Collection * Z) (w : World State Event) : Prop :=
  co_royalty_config (fst acc) = cfg ∧ fees_ok (store w).

Lemma add_members_ok cfg b l e w b' w' :
  foldM add_member b l e w = Ok (b', w') → royalty_ok cfg → members_ok cfg b w → members_ok cfg b' w'.
Proof.
  intros Hr Hc Hb. eapply (foldM_inv _ (members_ok cfg) _ _ _ _ _ _ Hr); [done|]. clear -Hc.
  intros a b w b' w' _ [Hcfg Hf] Hr. unfold add_member in Hr. cbv zeta in Hr.
  apply bind_Ok in Hr as ([] & w1 & Hg & Hr). minv Hg. destruct (bool_decide _); [by minv Hr|].
  unfold set_member_royalty in Hr. minv Hr. split; [done|]. cbn. by apply fees_ok_member.
Qed.

Lemma remove_members_ok cfg b l e w b' w' :
  foldM remove_member b l e w = Ok (b', w') → members_ok cfg b w → members_ok cfg b' w'.
Proof.
  intros Hr Hb. eapply (foldM_inv _ (members_ok cfg) _ _ _ _ _ _ Hr); [done|]. clear.
  intros a b w b' w' _ [Hcfg Hf] Hr. unfold remove_member in Hr. cbv zeta in Hr.
  destruct (last_index _ _) as [k|]; minv Hr; [|by split]. split; [done|]. cbn. destruct Hf. split; try done. cbn.
  intros k' c [_ Hk]%lookup_delete_Some. eauto.
Qed.

Lemma sum_shares l e w b v w' :
  (foldM (λ sum r, expect (checked_add U32 sum (rr_share_bps r)) "Royalty overflow") b l : M State () Event Z) e w = Ok (v, w') →
  v = b + lsum rr_share_bps l ∧ w' = w.
Proof.
  revert b w. induction l as [|r l IH]; intros b w Hr.
  - cbn in Hr. minv Hr. split; [cbn; lia|done].
  - cbn [foldM] in Hr. apply bind_Ok in Hr as (b1 & w1 & H1 & Hr). minv H1. inv_checked.
    destruct (IH _ _ Hr) as [-> ->]. split; [unfold lsum; cbn; lia|done].
Qed.

Lemma set_collection_royalty_ok s i rs tot e w w' :
  set_collection_royalty s i rs tot e w = Ok (tt, w') → Forall (λ r, 0 ≤ rr_share_bps r) rs →
  fees_ok (store w) → fees_ok (store w').
Proof.
  intros Hr Hrs Hf. unfold set_collection_royalty in Hr.
  do 3 (let Hg := fresh "Hg" in apply bind_Ok in Hr as ([] & w1 & Hg & Hr); minv Hg).
  apply bind_Ok in Hr as (c & w1 & [Hc ->]%load_own_collection_spec & Hr).
  apply bind_Ok in Hr as (sm & w1 & [-> ->]%sum_shares & Hr). apply bind_Ok in Hr as ([] & w1 & Hs & Hr). minv Hs. zbool.
  cbv zeta in Hr. apply bind_Ok in Hr as (t & w1 & Ht & Hr). minv Ht.
  unfold set_collection in Hr. apply bind_Ok in Hr as ([] & w1 & Hset & Hr). minv Hset.
  apply bind_Ok in Hr as ([] & w1 & Hl & Hr). minv Hr. cbn.
  assert (royalty_ok (mkRoyaltyConfig rs (0 + lsum rr_share_bps rs) 0 None)) as Hok.
  { split; [cbn [rc_recipients]; unfold MAX_ROYALTY_PERCENTAGE in *; lia|done]. }
  eapply (foldM_inv _ (λ _ w, fees_ok (store w)) _ _ _ _ _ _ Hl); [by apply fees_ok_collection|].
  intros a [] w2 [] w2' _ Hw2 Hm. unfold set_member_royalty in Hm. minv Hm. by apply fees_ok_member.
Qed.

Lemma exec_fees c e w w' :
  exec c e w = Ok (tt, w') → call_ok c → fees_ok (store w) → fees_ok (store w').
Proof.
  intros Hr Hok Hf. destruct (sets_fees c) eqn:Hc; [|by eapply fees_ok_frame; [by apply (fees_frame c Hc _ _ _ _ Hr)|]].
  destruct c; try discriminate Hc; cbn [exec call_ok] in Hr, Hok.
  - unfold init_contract in Hr. minv Hr. destruct Hf. split; try done. cbn. by intros c [= <-].
  - unfold set_platform_fee, assert_admin in Hr. minv Hr. zbool. destruct Hf. split; try done. cbn. intros c [= <-]. cbn. lia.
  - unfold set_royalty, load_agent in Hr. minv Hr. zbool. destruct Hf. split; try done. cbn.
    intros b c [[<- <-]|[_ ?]]%lookup_insert_Some; [|eauto]. cbn. unfold MAX_ROYALTY_PERCENTAGE in *. lia.
  - apply discard_Ok in Hr as [i Hr]. unfold create_collection, next_collection_id, set_collection in Hr. minv Hr.
    match goal with Hn : checked_add _ _ _ = Some ?n |- _ =>
      apply (fees_ok_collection {| (store w) with COLLECTION_CTR_KEY := Some n |}) end; [by destruct Hf|].
    split; [done|by constructor].
  - apply discard_Ok in Hr as [n Hr]. unfold add_to_collection in Hr. apply bind_Ok in Hr as ([] & w1 & Hau & Hr). minv Hau.
    apply bind_Ok in Hr as (cl & w1 & [Hcl ->]%load_own_collection_spec & Hr). cbv zeta in Hr.
    apply bind_Ok in Hr as ([] & w1 & Hn & Hr). minv Hn. apply bind_Ok in Hr as (r & w1 & Hl & Hr).
    pose proof (fk_collection _ Hf _ _ Hcl) as Hcfg.
    destruct (add_members_ok _ _ _ _ _ _ _ Hl Hcfg) as [Hr1 Hw1]; [by split|].
    unfold set_collection in Hr. minv Hr. cbn. apply fees_ok_collection; [done|cbn; congruence].
  - apply discard_Ok in Hr as [n Hr]. unfold remove_from_collection in Hr. apply bind_Ok in Hr as ([] & w1 & Hau & Hr). minv Hau.
    apply bind_Ok in Hr as (cl & w1 & [Hcl ->]%load_own_collection_spec & Hr). cbv zeta in Hr.
    apply bind_Ok in Hr as ([] & w1 & Hn & Hr). minv Hn. apply bind_Ok in Hr as (r & w1 & Hl & Hr).
    pose proof (fk_collection _ Hf _ _ Hcl) as Hcfg.
    destruct (remove_members_ok (co_royalty_config cl) _ _ _ _ _ _ Hl) as [Hr1 Hw1]; [by split|].
    unfold set_collection in Hr. minv Hr. cbn. apply fees_ok_collection; [done|cbn; congruence].
  - destruct Hok as [_ Hrs]. by eapply set_collection_royalty_ok.
Qed.

Lemma reachable_fees t0 ag l lg t w :
  rtc (step exec call_ok self) (t0, mkWorld {| deployed with AGENT_KEY_PREFIX := ag |} l lg) (t, w) → fees_ok (store w).
Proof.
  intros Hr. apply (reach_inv_world exec call_ok self (λ t w, fees_ok (store w))) in Hr; [done| |done|by split].
  intros t' c e w0 w0' He Ht Hok Hf Hrun. by eapply exec_fees.
Qed.

(** C32: in every world reached from deployment by any calls, what a
    settlement takes from a payment is a royalty between nothing and the whole
    payment and a platform fee of at most a tenth of it (the limits that
    [set_royalty], 10000 bps, and [set_platform_fee], 1000 bps, enforce), so that
    the seller may be left with a debt of at most a tenth of the payment; and the
    computation changes nothing. *)
Theorem settlement_bounded t0 ag l lg t w a n e r f w' :
  rtc (step exec call_ok self) (t0, mkWorld {| deployed with AGENT_KEY_PREFIX := ag |} l lg) (t, w) →
  0 ≤ n → compute_settlement_fees a n e w = Ok ((r, f), w') →
  0 ≤ r ≤ n ∧ 0 ≤ f ∧ 10 * f ≤ n ∧ - n ≤ 10 * (n - r - f) ∧ w' = w.
Proof.
  intros Hreach Hn Hr.
  destruct (settlement_spec _ _ _ _ _ _ _ Hr (reachable_fees _ _ _ _ _ _ Hreach) Hn) as (? & ? & ? & ->).
  split_and!; lia || done.
Qed.
End fees.
