(* ===== verification/MarketLink.v ===== *)
(** * The marketplace linked to the execution hub

    The hub the marketplace asks is the hub of Hub.v, deployed at an address of the
    ledger.  While the marketplace waits for it, the host lets the hub call any
    contract but the two that are running. *)

From stdpp Require Import gmap strings list fin_maps.
From S2P Require Import Prelude Soroban TokenModel Workflow Hub HubProofs.
From S2P Require Import MarketTypes Marketplace MarketSpec MarketProofs MarketEscrow MarketFees.
Open Scope Z_scope.

Section link.
Context `{base : TokenHost} {others : WorkflowTargets}.

(** The ledger of the marketplace: the tokens, and the storage and events of the
    hubs. *)
Record LinkedLedger := mkLinked {
  lk_tokens : @Ledger base;
  lk_hubs : gmap Address (Hub.State * list Hub.Event);
}.

Definition linked_tokens : TokenHost := {|
  Ledger := LinkedLedger;
  tok_balance l := tok_balance (lk_tokens l);
  tok_allowance l := tok_allowance (lk_tokens l);
  tok_transfer e l tk a b n := (λ t, {| l with lk_tokens := t |}) <$> tok_transfer e (lk_tokens l) tk a b n;
  tok_transfer_from e l tk s a b n :=
    (λ t, {| l with lk_tokens := t |}) <$> tok_transfer_from e (lk_tokens l) tk s a b n;
|}.

(** The contracts a hub can call while [stack] is running. *)
Definition off_stack (stack : list Address) : WorkflowTargets := {|
  target_exec_step a k args e l := if bool_decide (a ∈ stack) then None else target_exec_step a k args e l;
  target_rollback a args e l := if bool_decide (a ∈ stack) then None else target_rollback a args e l;
  target_wf_done a i st e l := if bool_decide (a ∈ stack) then None else target_wf_done a i st e l;
|}.

(** A call of the hub deployed at [hub], which the calling contract signs. *)
Definition hub_env (hub : Address) (e : Env) : Env :=
  mkEnv (timestamp e) hub (λ a, authorized e a || bool_decide (a = current_contract_address e)) (sequence e).
Definition run_hub {A} (hub : Address) (f : WorkflowTargets → M Hub.State () Hub.Event A) (e : Env) (l : LinkedLedger) :
    option (A * LinkedLedger) :=
  '(st, lg) ← lk_hubs l !! hub;
  match f (off_stack [current_contract_address e; hub]) (hub_env hub e) (mkWorld st (lk_tokens l) lg) with
  | Ok (a, w) => Some (a, mkLinked (ledger w) (<[hub := (store w, log w)]> (lk_hubs l)))
  | _ => None
  end.

Lemma run_hub_Some {A} hub (f : WorkflowTargets → M Hub.State () Hub.Event A) e l a l' :
  run_hub hub f e l = Some (a, l') →
  ∃ st lg w, lk_hubs l !! hub = Some (st, lg) ∧
    f (off_stack [current_contract_address e; hub]) (hub_env hub e) (mkWorld st (lk_tokens l) lg) = Ok (a, w) ∧
    l' = mkLinked (ledger w) (<[hub := (store w, log w)]> (lk_hubs l)).
Proof.
  intros Hr. unfold run_hub in Hr. apply bind_Some in Hr as ([st lg] & Hh & Hr).
  destruct (f _ _ _) as [[a' w]| |] eqn:Hf; try done. injection Hr as <- <-. by exists st, lg, w.
Qed.

(** The hub's part of the argument: a workflow just created runs its first step
    at once, and traps if that is refused. *)
Lemma first_step_called (stack : list Address) a n s ss d tg cb e1 w wid w' r :
  @Hub.create_workflow base a n (s :: ss) d tg cb e1 w = Ok (wid, w') → 0 ≤ default 0 d →
  ws_target_contract s ∈ stack →
  @Hub.execute_workflow_step base (off_stack stack) wid e1 w' ≠ Ok r.
Proof.
  intros Hc Hd Hin Hr. destruct r as [v w2].
  apply create_spec in Hc as (x & h & _ & Hi & _ & Hx & Hl & Hst).
  unfold Hub.execute_workflow_step, load_workflow in Hr.
  apply bind_Ok in Hr as (y & w3 & Hy & Hr). minv Hy. rewrite Hst in Hy. cbn in Hy.
  rewrite lookup_insert_eq in Hy. injection Hy as <-.
  apply bind_Ok in Hr as ([] & w3 & Hg & Hr). minv Hg. apply bind_Ok in Hr as (t & w3 & Ht & Hr). minv Ht.
  destruct (_ >? _) eqn:Hdl.
  { cbn in Hdl. zbool. unfold DEFAULT_WORKFLOW_TIMEOUT in Hdl. destruct d; cbn in *; lia. }
  cbv zeta in Hr. cbn [wi_steps wi_current_step length] in Hr.
  apply bind_Ok in Hr as ([] & w3 & Hn & Hr). minv Hn. cbn in Hr. apply bind_Ok in Hr as (st & w3 & Hs & Hr).
  apply expect_Ok in Hs as [[= <-] ->]. unfold save_workflow in Hr. apply bind_Ok in Hr as ([] & w3 & Hsv & Hr). minv Hsv.
  apply bind_Ok in Hr as (ok & w3 & Hcall & Hr). unfold try_invoke_step in Hcall.
  apply bind_Ok in Hcall as ([] & w4 & Hinv & _). unfold invoke in Hinv. cbn in Hinv.
  by rewrite bool_decide_eq_true_2 in Hinv.
Qed.

#[local] Instance linked_host : TokenHost := linked_tokens.
#[local] Instance linked_hub : @HubClient linked_tokens := @Build_HubClient linked_tokens
  (λ hub initiator name steps deadline tag callback,
     run_hub hub (λ _, Hub.create_workflow initiator name steps deadline tag callback))
  (λ hub wid, run_hub hub (λ targets, @Hub.execute_workflow_step base targets wid)).

#[local] Instance linked_calls_back : CallsBack.
Proof.
  intros hub ini name s ss d tg cb e l wid l' Ht Hd Hc. apply run_hub_Some in Hc as (st & lg & w & Hh & Hc & ->).
  destruct (hub_execute_workflow_step _ _ _ _) as [[v l2]|] eqn:Hx; [|done].
  apply run_hub_Some in Hx as (st' & lg' & w' & Hh' & Hx & _). cbn in Hh'. rewrite lookup_insert_eq in Hh'.
  injection Hh' as <- <-. destruct w as [sw lw gw]. eapply first_step_called in Hx; [done|exact Hc|done|].
  rewrite Ht. by left.
Qed.
End link.

(** ** A concrete history *)

Module MarketDemo.

Definition self := mkAddress "marketplace".
Definition hub := mkAddress "hub".
Definition admin := mkAddress "admin".
Definition alice := mkAddress "alice".
Definition bob := mkAddress "bob".
Definition carol := mkAddress "carol".

(** The other contracts accept every call. *)
#[local] Instance obliging : @WorkflowTargets simple_tokens := {|
  target_exec_step _ _ _ _ l := Some (tt, l);
  target_rollback _ _ _ l := Some (tt, l);
  target_wf_done _ _ _ _ l := Some (tt, l);
|}.
#[local] Instance demo_host : TokenHost := @linked_tokens simple_tokens.
#[local] Instance demo_hub : HubClient := @linked_hub simple_tokens obliging.
#[local] Instance demo_calls_back : CallsBack := @linked_calls_back simple_tokens obliging.

Definition agent (i : Z) (owner : Address) : Agent :=
  mkAgent i owner "agent" "hash" "cid" [] 0 0 0 0 false None.
Definition agents : gmap Z Agent := list_to_map [(1, agent 1 alice); (2, agent 2 bob); (3, agent 3 carol)].

(** A hub is deployed and initialized beside the marketplace. *)
Definition hub_state : Hub.State :=
  {| Hub.deployed with Hub.ADMIN_KEY := Some admin; WORKFLOW_CTR_KEY := Some 0; EXEC_CTR_KEY := Some 0 |}.
Definition l0 : @LinkedLedger simple_tokens := @mkLinked simple_tokens (sl_of []) {[ hub := (hub_state, []) ]}.
Definition w0 : World State Event := mkWorld {| deployed with AGENT_KEY_PREFIX := agents |} l0 [].

(** A listing, an English auction with a bid and a Dutch auction without a reserve. *)
Definition opening : list (Z * list Address * Call) :=
  [(20, [admin], CSetHub admin hub); (30, [alice], CSetRoyalty 1 alice bob 1000);
   (40, [alice], CCreateListing 1 alice 0 5000 None); (50, [bob], CCreateAuction 2 bob 100 50 1 None);
   (60, [carol], CCreateDutch 3 carol 1000 0 1); (70, [carol], CPlaceBid 1 carol 150)].
Definition history : list (Z * list Address * Call) := (10, [admin], CInit admin) :: opening.
Definition w_open := run_script exec self history w0.

Lemma market_opening_reach_in allowed :
  script_allowed exec self allowed history w0 = true → rtc (step_in exec call_ok allowed self) (0, w0) (70, w_open).
Proof.
  intros Hal. assert (script_ok exec self 0 history w0 = true) as Hs by (vm_compute; reflexivity).
  assert (Forall (λ c, call_ok c.2) history) as Hf by (repeat constructor; cbn; lia).
  exact (run_script_reach_in exec call_ok self allowed 0 history w0 Hs Hal Hf).
Qed.

Lemma market_opening_reach : reachable self 70 w_open.
Proof. exists 0, agents, l0, []. apply market_opening_reach_in. vm_compute. reflexivity. Qed.

Lemma market_opening_calls : rtc (step exec call_ok self) (0, w0) (70, w_open).
Proof.
  assert (script_ok exec self 0 history w0 = true) as Hs by (vm_compute; reflexivity).
  assert (Forall (λ c, call_ok c.2) history) as Hf by (repeat constructor; cbn; lia).
  exact (run_script_reach exec call_ok self 0 history w0 Hs Hf).
Qed.

Lemma market_opening_unsold : reachable_unsold self 70 w_open.
Proof. exists 0, agents, l0, []. apply market_opening_reach_in. vm_compute. reflexivity. Qed.

(** Auctions can be opened before the initialization, which then starts the ids
    again: an auction that was closed is replaced by a new one. *)
Definition late : list (Z * list Address * Call) :=
  [(10, [bob], CCreateAuction 2 bob 100 50 1 None); (90000, [], CFinalize 1);
   (90010, [admin], CInit admin); (90020, [alice], CCreateAuction 1 alice 100 50 1 None)].
Example late_init_replaces :
  script_ok exec self 0 late w0 = true ∧
  au_status <$> AUCTION_PREFIX (store (run_script exec self (take 2 late) w0)) !! 1 = Some Ended ∧
  au_status <$> AUCTION_PREFIX (store (run_script exec self late w0)) !! 1 = Some Active.
Proof. split_and!; vm_compute; reflexivity. Qed.

(** The auction of agent 2 is over: it goes to the highest bidder. *)
Definition e_final := env_at 90000 self [].
Definition w_final := world_of (exec (CFinalize 1) e_final w_open) w_open.

Lemma final_run : exec (CFinalize 1) e_final w_open = Ok (tt, w_final).
Proof. unfold w_final. apply run_ok_unit. vm_compute. reflexivity. Qed.

Lemma market_calls_refine_witness :
  exec (CFinalize 1) e_final w_open = Ok (tt, w_final) ∧
  mstep self 90000 (view (store w_open)) (view (store w_final)).
Proof.
  split; [exact final_run|].
  exact (market_calls_refine self 70 w_open (CFinalize 1) e_final w_final market_opening_reach ltac:(done) I eq_refl final_run).
Defined.

Lemma auction_lifecycle_witness :
  au_status <$> AUCTION_PREFIX (store w_open) !! 1 = Some Active ∧
  ∃ au', AUCTION_PREFIX (store w_final) !! 1 = Some au' ∧ au_status au' = Won.
Proof.
  assert (au_status <$> AUCTION_PREFIX (store w_open) !! 1 = Some Active) as Ho by (vm_compute; reflexivity).
  split; [exact Ho|]. apply fmap_Some in Ho as (au & Hau & _).
  destruct (auction_lifecycle self 70 w_open (CFinalize 1) e_final w_final 1 au market_opening_reach ltac:(done) I final_run Hau)
    as (au' & Hau' & _).
  exists au'. split; [exact Hau'|].
  assert (au_status <$> AUCTION_PREFIX (store w_final) !! 1 = Some Won) as Hs by (vm_compute; reflexivity).
  rewrite Hau' in Hs. clear -Hs. cbn in Hs. congruence.
Defined.

Lemma agent_ownership_witness :
  ag_owner <$> AGENT_KEY_PREFIX (store w_open) !! 2 = Some bob ∧
  ag_owner <$> AGENT_KEY_PREFIX (store w_final) !! 2 = Some carol ∧
  option_Forall2 (agent_moves 90000 (view (store w_open)) 2)
    (AGENT_KEY_PREFIX (store w_open) !! 2) (AGENT_KEY_PREFIX (store w_final) !! 2).
Proof.
  split; [vm_compute; reflexivity|]. split; [vm_compute; reflexivity|].
  exact (agent_ownership self 70 w_open (CFinalize 1) e_final w_final market_opening_reach ltac:(done) I final_run 2).
Defined.

(** The listing of agent 1 is open and the hub is set, but the purchase traps. *)
Lemma sale_refused_witness :
  ls_active <$> LISTING_PREFIX (store w_open) !! 1 = Some true ∧ HUB_KEY (store w_open) = Some hub ∧
  is_ok (exec (CBuyAgent 1 bob 5000) (env_at 80 self [bob]) w_open) = false.
Proof.
  split; [vm_compute; reflexivity|]. split; [vm_compute; reflexivity|].
  destruct (exec (CBuyAgent 1 bob 5000) (env_at 80 self [bob]) w_open) as [r| |] eqn:Hr; [|reflexivity..].
  destruct (sale_refused (CBuyAgent 1 bob 5000) (env_at 80 self [bob]) w_open r eq_refl Hr).
Defined.

Lemma escrow_exclusive_witness :
  ∃ x, m_agents (view (store w_open)) !! 1 = Some x ∧ in_escrow self x alice.
Proof.
  destruct (escrow_exclusive self 70 w_open market_opening_unsold) as [Hh _]. apply (Hh (inl 1) 1 alice).
  assert ((λ l, (ls_active l, ls_asset_id l, ls_seller l)) <$> LISTING_PREFIX (store w_open) !! 1 = Some (true, 1, alice)) as Hs
    by (vm_compute; reflexivity).
  apply fmap_Some in Hs as (l & Hl & Hs). exists l. split; [exact Hl|]. clear -Hs. by injection Hs as <- <- <-.
Defined.

Definition some_auction := mkAuction 1 1 carol Dutch 1000 0 1000 None 0 100 200 100 Active None None None.

Lemma dutch_price_falls_witness :
  ∃ p1 p2, dutch_current_price some_auction (env_at 130 self []) w_open = Ok (p1, w_open) ∧
    dutch_current_price some_auction (env_at 150 self []) w_open = Ok (p2, w_open) ∧ p2 ≤ p1 ∧ p1 = 700.
Proof.
  destruct (dutch_price_falls some_auction (env_at 130 self []) (env_at 150 self []) w_open w_open)
    as (p1 & p2 & H1 & H2 & H3 & _ & _ & _ & Hp); [split; cbn; lia|cbn; lia|cbn; lia|].
  exists p1, p2. split; [exact H1|]. split; [exact H2|]. split; [lia|]. rewrite Hp; cbn; lia || reflexivity.
Defined.

Lemma workflow_args_roundtrip_witness :
  decode_u64 (encode_u64 7 ++ []) e_final w_open = Ok (7, w_open).
Proof. apply (workflow_args_roundtrip 7 [] [] e_final w_open). cbn. lia. Defined.

Lemma settlement_bounded_witness :
  ∃ r f w', compute_settlement_fees 1 5000 e_final w_open = Ok ((r, f), w') ∧ r = 500 ∧ f = 125 ∧ 10 * f ≤ 5000.
Proof.
  assert (compute_settlement_fees 1 5000 e_final w_open =
    Ok ((500, 125), world_of (compute_settlement_fees 1 5000 e_final w_open) w_open)) as Hr.
  { apply (run_ok_val _ _ (0, 0)); vm_compute; reflexivity. }
  destruct (settlement_bounded self 0 agents (ledger w0) [] 70 w_open 1 5000 e_final 500 125 _ market_opening_calls ltac:(lia) Hr) as (_ & _ & Hf & _).
  exists 500, 125, (world_of (compute_settlement_fees 1 5000 e_final w_open) w_open). split; [exact Hr|].
  split; [reflexivity|]. split; [reflexivity|exact Hf].
Defined.

(** A Dutch auction with reserve zero that nobody bought is closed as won, and its
    agent stays in escrow. *)
Definition w_stuck := world_of (exec (CFinalize 2) e_final w_open) w_open.
Example dutch_without_reserve_stuck :
  is_ok (exec (CFinalize 2) e_final w_open) = true ∧
  (λ au, (au_status au, au_highest_bidder au)) <$> AUCTION_PREFIX (store w_stuck) !! 2 = Some (Won, None) ∧
  (λ x, (ag_owner x, ag_escrow_locked x)) <$> AGENT_KEY_PREFIX (store w_stuck) !! 3 = Some (carol, true).
Proof. vm_compute. done. Qed.

(** A royalty of everything and the platform fee leave the seller a debt. *)
Definition w_greedy := world_of (exec (CSetRoyalty 1 alice bob 10000) (env_at 80 self [alice]) w_open) w_open.
(** Platform fees above 1000 bps are refused, royalties above 2500 bps are not. *)
Example fee_limits :
  is_ok (exec (CSetPlatformFee admin 1000 admin) (env_at 80 self [admin]) w_open) = true ∧
  is_ok (exec (CSetPlatformFee admin 1001 admin) (env_at 80 self [admin]) w_open) = false ∧
  is_ok (exec (CSetRoyalty 1 alice bob 2501) (env_at 80 self [alice]) w_open) = true.
Proof. vm_compute. split_and!; reflexivity. Qed.

Example royalty_and_fee_exceed_price :
  value_of (compute_settlement_fees 1 5000 e_final w_greedy) (0, 0) = (5000, 125).
Proof. vm_compute. reflexivity. Qed.
End MarketDemo.
