(* ===== verification/Bridge.v ===== *)
(** * contracts/bridge

    src/contracts/bridge/src/contract.rs and storage.rs, with the bridge types and
    limits of src/shared/src/lib.rs: transfers between chains that validators
    approve, the wrapped assets they move, fee tiers, liquidity pools, the
    emergency stop and disputes. *)

From stdpp Require Import gmap strings list fin_maps.
From S2P Require Import Prelude Soroban.
Open Scope Z_scope.

(** ** shared: types and limits *)

Inductive SupportedChain := Ethereum | Solana | Polygon | Bsc.
#[global] Instance SupportedChain_eq_dec : EqDecision SupportedChain.
Proof. solve_decision. Defined.
#[global] Instance SupportedChain_countable : Countable SupportedChain.
Proof.
  refine (inj_countable' (λ c, match c with Ethereum => 0 | Solana => 1 | Polygon => 2 | Bsc => 3 end%nat)
    (λ n, match n with 0 => Ethereum | 1 => Solana | 2 => Polygon | _ => Bsc end%nat) _).
  by intros [].
Defined.

Inductive BridgeStatus := Pending | Validated | Completed | Failed | Disputed | Cancelled.
#[global] Instance BridgeStatus_eq_dec : EqDecision BridgeStatus.
Proof. solve_decision. Defined.

Inductive BridgeDirection := Outbound | Inbound.
#[global] Instance BridgeDirection_eq_dec : EqDecision BridgeDirection.
Proof. solve_decision. Defined.

Record BridgeTransaction := mkTx {
  bt_tx_id : Z;
  bt_direction : BridgeDirection;
  bt_source_chain : SupportedChain;
  bt_dest_chain : SupportedChain;
  bt_sender : Address;
  bt_recipient : Address;
  bt_asset_code : string;
  bt_amount : Z;
  bt_fee : Z;
  bt_status : BridgeStatus;
  bt_source_tx_hash : string;
  bt_dest_tx_hash : option string;
  bt_nonce : Z;
  bt_timestamp : Z;
  bt_validator_approvals : Z;
  bt_merkle_root : option string;
}.

Record ValidatorSignature := mkSig {
  vg_validator : Address;
  vg_tx_id : Z;
  vg_approved : bool;
  vg_timestamp : Z;
  vg_signature_data : string;
}.

Record ValidatorSetConfig := mkValidatorSet {
  vs_chain : SupportedChain;
  vs_validators : list Address;
  vs_required_approvals : Z;
  vs_active : bool;
}.

Record WrappedAsset := mkWrapped {
  wa_asset_code : string;
  wa_asset_issuer : Address;
  wa_wrapped_address : string;
  wa_chain : SupportedChain;
  wa_total_supply : Z;
  wa_total_locked : Z;
  wa_active : bool;
}.

Record BridgeFeeTier := mkTier {
  ft_chain : SupportedChain;
  ft_min_amount : Z;
  ft_max_amount : Z;
  ft_fee_bps : Z;
  ft_active : bool;
}.

Record LiquidityPool := mkPool {
  lp_pool_id : Z;
  lp_asset_code : string;
  lp_chain : SupportedChain;
  lp_total_liquidity : Z;
  lp_total_volume : Z;
  lp_lp_token_balance : Z;
  lp_active : bool;
}.

Record LiquidityProviderDeposit := mkDeposit {
  ld_provider : Address;
  ld_pool_id : Z;
  ld_amount : Z;
  ld_lp_tokens : Z;
  ld_timestamp : Z;
}.

Record EmergencyConfig := mkEmergency {
  em_paused : bool;
  em_paused_by : option Address;
  em_paused_at : option Z;
  em_unpause_after : option Z;
  em_reason : option string;
}.

Record BridgeDispute := mkDispute {
  bd_dispute_id : Z;
  bd_tx_id : Z;
  bd_disputer : Address;
  bd_reason : string;
  bd_resolved : bool;
  bd_resolution : option string;
  bd_created_at : Z;
  bd_resolved_at : option Z;
}.

Record BridgeConfig := mkConfig {
  bc_admin : Address;
  bc_paused : bool;
  bc_timelock_duration : Z;
  bc_min_bridge_amount : Z;
  bc_max_bridge_amount : Z;
  bc_default_fee_bps : Z;
  bc_tx_counter : Z;
  bc_dispute_counter : Z;
  bc_lp_counter : Z;
}.

Definition MAX_VALIDATORS_PER_CHAIN : Z := 50.
Definition MIN_VALIDATORS_PER_CHAIN : Z := 3.
Definition MAX_FEE_BPS : Z := 500.
Definition DEFAULT_TIMELOCK_DURATION : Z := 86400.
Definition MAX_BRIDGE_AMOUNT : Z := 50000000000000000.
Definition MIN_BRIDGE_AMOUNT : Z := 1000000.
Definition MAX_DISPUTE_REASON_LENGTH : Z := 512.
Definition DEFAULT_FEE_BPS : Z := 10.

(** ** storage.rs *)

(** [vsig] is the key family [approve_transaction] writes signatures to; it is not
    the [ValidatorSig] family that the duplicate check reads. *)
Record State := mkState {
  Config : option BridgeConfig;
  Tx : gmap Z BridgeTransaction;
  TxHash : gmap string Z;
  ValidatorSig : gmap (Z * Z) ValidatorSignature;
  vsig : gmap (Z * Z) ValidatorSignature;
  ValidatorSet : gmap SupportedChain ValidatorSetConfig;
  WrappedAssets : gmap (string * SupportedChain) WrappedAsset;
  FeeTier : gmap (SupportedChain * Z) BridgeFeeTier;
  LiquidityPools : gmap Z LiquidityPool;
  LpDeposit : gmap (Z * Z) LiquidityProviderDeposit;
  Emergency : option EmergencyConfig;
  Dispute : gmap Z BridgeDispute;
  SupportedChains : option (list SupportedChain);
}.

Definition deployed : State := mkState None ∅ ∅ ∅ ∅ ∅ ∅ ∅ ∅ ∅ None ∅ None.

Inductive Event :=
| assets_locked (tx_id : Z) (sender : Address) (dest : SupportedChain) (asset_code : string) (amount fee : Z)
    (source_tx_hash : string)
| tx_approved (tx_id : Z) (validator : Address) (approvals required : Z)
| tx_completed (tx_id amount : Z) (asset_code : string) (dest : SupportedChain) (dest_tx_hash : string)
| mint_requested (tx_id : Z) (sender : Address) (source : SupportedChain) (asset_code : string) (amount : Z)
| assets_released (tx_id amount : Z) (asset_code : string) (sender : Address)
| pool_created (pool_id : Z)
| liquidity_added (provider : Address) (pool_id amount lp_tokens : Z)
| liquidity_removed (provider : Address) (pool_id amount lp_amount : Z)
| bridge_paused (admin : Address) (reason : string) (unpause_after : Z)
| bridge_unpaused (admin : Address)
| dispute_filed (dispute_id tx_id : Z) (disputer : Address) (reason : string)
| dispute_resolved (dispute_id : Z) (resolution : string)
| tx_cancelled (tx_id : Z) (caller : Address).

Ltac mred v ::= eval cbn [store ledger log Config Tx TxHash ValidatorSig vsig ValidatorSet WrappedAssets FeeTier
  LiquidityPools LpDeposit Emergency Dispute SupportedChains bt_tx_id bt_direction bt_source_chain bt_dest_chain
  bt_sender bt_recipient bt_asset_code bt_amount bt_fee bt_status bt_source_tx_hash bt_dest_tx_hash bt_nonce
  bt_timestamp bt_validator_approvals bt_merkle_root vs_chain vs_validators vs_required_approvals vs_active
  wa_asset_code wa_asset_issuer wa_wrapped_address wa_chain wa_total_supply wa_total_locked wa_active
  lp_pool_id lp_asset_code lp_chain lp_total_liquidity lp_total_volume lp_lp_token_balance lp_active
  em_paused em_paused_by em_paused_at em_unpause_after em_reason bd_dispute_id bd_tx_id bd_disputer bd_reason
  bd_resolved bd_resolution bd_created_at bd_resolved_at bc_admin bc_paused bc_timelock_duration
  bc_min_bridge_amount bc_max_bridge_amount bc_default_fee_bps bc_tx_counter bc_dispute_counter bc_lp_counter
  fst snd] in v.

Section contract.
Context `{TokenHost}.

Local Abbreviation C := (M State () Event).

(** [assert!]. *)
Definition assert_that (c : bool) (msg : string) : C () := panic_if (negb c) msg.

Definition initialize_bridge (admin : Address) : C BridgeConfig :=
  let config := mkConfig admin false DEFAULT_TIMELOCK_DURATION MIN_BRIDGE_AMOUNT MAX_BRIDGE_AMOUNT
    DEFAULT_FEE_BPS 0 0 0 in
  modify (λ s, {| s with Config := Some config |});;
  modify (λ s, {| s with Emergency := Some (mkEmergency false None None None None) |});;
  modify (λ s, {| s with SupportedChains := Some [] |});;
  mret config.

Definition get_config : C BridgeConfig := o ← gets Config; expect o "Bridge not initialized".
Definition set_config (config : BridgeConfig) : C () := modify (λ s, {| s with Config := Some config |}).

Definition get_emergency : C EmergencyConfig :=
  gets (λ s, default (mkEmergency false None None None None) (Emergency s)).
Definition set_emergency (emergency : EmergencyConfig) : C () :=
  modify (λ s, {| s with Emergency := Some emergency |}).
Definition require_not_paused : C () :=
  emergency ← get_emergency;
  if em_paused emergency then
    match em_unpause_after emergency with
    | Some unpause_after =>
        t ← now;
        panic_if (t <? unpause_after) "Bridge is paused";;
        set_emergency {| emergency with em_paused := false; em_unpause_after := None |}
    | None => panic "Bridge is paused"
    end
  else mret tt.

Definition is_chain_supported (chain : SupportedChain) : C bool :=
  chains ← gets (λ s, default [] (SupportedChains s));
  mret (bool_decide (chain ∈ chains)).
Definition add_supported_chain (chain : SupportedChain) : C () :=
  chains ← gets (λ s, default [] (SupportedChains s));
  supported ← is_chain_supported chain;
  if (supported : bool) then mret tt
  else modify (λ s, {| s with SupportedChains := Some (chains ++ [chain]) |}).
Definition remove_supported_chain (chain : SupportedChain) : C () :=
  chains ← gets (λ s, default [] (SupportedChains s));
  modify (λ s, {| s with SupportedChains := Some (filter (λ c, c ≠ chain) chains) |}).

Definition get_validator_set (chain : SupportedChain) : C (option ValidatorSetConfig) :=
  gets (λ s, ValidatorSet s !! chain).
Definition set_validator_set (config : ValidatorSetConfig) : C () :=
  modify (λ s, {| s with ValidatorSet := <[vs_chain config := config]> (ValidatorSet s) |}).

Definition next_tx_id : C Z :=
  config ← get_config;
  n ← plain_add U64 (bc_tx_counter config) 1;
  set_config {| config with bc_tx_counter := n |};;
  mret n.
Definition store_transaction (tx : BridgeTransaction) : C () :=
  modify (λ s, {| s with Tx := <[bt_tx_id tx := tx]> (Tx s) |});;
  modify (λ s, {| s with TxHash := <[bt_source_tx_hash tx := bt_tx_id tx]> (TxHash s) |}).
Definition get_transaction (tx_id : Z) : C (option BridgeTransaction) := gets (λ s, Tx s !! tx_id).
Definition set_transaction (tx : BridgeTransaction) : C () :=
  modify (λ s, {| s with Tx := <[bt_tx_id tx := tx]> (Tx s) |}).
Definition is_duplicate_tx (source_tx_hash : string) : C bool :=
  gets (λ s, bool_decide (is_Some (TxHash s !! source_tx_hash))).

Definition get_validator_signature (tx_id validator_index : Z) : C (option ValidatorSignature) :=
  gets (λ s, ValidatorSig s !! (tx_id, validator_index)).

Definition get_wrapped_asset (asset_code : string) (chain : SupportedChain) : C (option WrappedAsset) :=
  gets (λ s, WrappedAssets s !! (asset_code, chain)).
Definition set_wrapped_asset (asset : WrappedAsset) : C () :=
  modify (λ s, {| s with WrappedAssets := <[(wa_asset_code asset, wa_chain asset) := asset]> (WrappedAssets s) |}).

Definition get_fee_tier (chain : SupportedChain) (tier_index : Z) : C (option BridgeFeeTier) :=
  gets (λ s, FeeTier s !! (chain, tier_index)).
Definition set_fee_tier_at (chain : SupportedChain) (index : Z) (tier : BridgeFeeTier) : C () :=
  modify (λ s, {| s with FeeTier := <[(chain, index) := tier]> (FeeTier s) |}).

(** The loop of [calculate_fee] over the tiers of a chain, with fuel. *)
Fixpoint fee_tier_loop (fuel : nat) (chain : SupportedChain) (amount default_bps index : Z) : C Z :=
  match fuel with
  | O => panic "out of fuel"
  | S fuel =>
      o ← get_fee_tier chain index;
      match o with
      | Some tier =>
          if ft_active tier && (amount >=? ft_min_amount tier) && (amount <=? ft_max_amount tier)
          then mret (ft_fee_bps tier)
          else
            index ← plain_add U32 index 1;
            fee_tier_loop fuel chain amount default_bps index
      | None => mret default_bps
      end
  end.
Definition calculate_fee (chain : SupportedChain) (amount : Z) : C Z :=
  config ← get_config;
  n ← gets (λ s, size (FeeTier s));
  fee_bps ← fee_tier_loop (S n) chain amount (bc_default_fee_bps config) 0;
  p ← plain_mul I128 amount fee_bps;
  plain_div I128 p 10000.

Definition get_liquidity_pool (pool_id : Z) : C (option LiquidityPool) := gets (λ s, LiquidityPools s !! pool_id).
Definition set_liquidity_pool (pool : LiquidityPool) : C () :=
  modify (λ s, {| s with LiquidityPools := <[lp_pool_id pool := pool]> (LiquidityPools s) |}).
Definition next_lp_id : C Z :=
  config ← get_config;
  n ← plain_add U64 (bc_lp_counter config) 1;
  set_config {| config with bc_lp_counter := n |};;
  mret n.
Definition get_lp_deposit (pool_id deposit_index : Z) : C (option LiquidityProviderDeposit) :=
  gets (λ s, LpDeposit s !! (pool_id, deposit_index)).

(** The loop of [set_lp_deposit]: the first free index, with fuel. *)
Fixpoint free_deposit_loop (fuel : nat) (pool_id index : Z) : C Z :=
  match fuel with
  | O => panic "out of fuel"
  | S fuel =>
      o ← get_lp_deposit pool_id index;
      match o with
      | Some _ => index ← plain_add U32 index 1; free_deposit_loop fuel pool_id index
      | None => mret index
      end
  end.
Definition set_lp_deposit (deposit : LiquidityProviderDeposit) : C () :=
  n ← gets (λ s, size (LpDeposit s));
  index ← free_deposit_loop (S n) (ld_pool_id deposit) 0;
  modify (λ s, {| s with LpDeposit := <[(ld_pool_id deposit, index) := deposit]> (LpDeposit s) |}).

Definition get_dispute (dispute_id : Z) : C (option BridgeDispute) := gets (λ s, Dispute s !! dispute_id).
Definition set_dispute (dispute : BridgeDispute) : C () :=
  modify (λ s, {| s with Dispute := <[bd_dispute_id dispute := dispute]> (Dispute s) |}).
Definition next_dispute_id : C Z :=
  config ← get_config;
  n ← plain_add U64 (bc_dispute_counter config) 1;
  set_config {| config with bc_dispute_counter := n |};;
  mret n.

(** ** contract.rs: configuration, chains and validators *)

(** The check of the administrator that opens most entry points. *)
Definition admin_config (admin : Address) : C BridgeConfig :=
  require_auth admin;;
  config ← get_config;
  panic_if (bool_decide (admin ≠ bc_admin config)) "Unauthorized: not admin";;
  mret config.

Definition initialize (admin : Address) : C BridgeConfig :=
  config ← get_config;
  panic_if (bc_tx_counter config >? 0) "Bridge already initialized";;
  require_auth admin;;
  initialize_bridge admin.

Definition update_config (admin : Address) (timelock_duration min_bridge_amount max_bridge_amount
    default_fee_bps : option Z) : C BridgeConfig :=
  config ← admin_config admin;
  let config := match timelock_duration with Some td => {| config with bc_timelock_duration := td |} | None => config end in
  let config := match min_bridge_amount with Some m => {| config with bc_min_bridge_amount := m |} | None => config end in
  let config := match max_bridge_amount with Some m => {| config with bc_max_bridge_amount := m |} | None => config end in
  config ← (match default_fee_bps with
    | Some fee =>
        assert_that (fee <=? MAX_FEE_BPS) "Fee exceeds maximum";;
        mret {| config with bc_default_fee_bps := fee |}
    | None => mret config
    end);
  set_config config;;
  mret config.

Definition transfer_admin (admin new_admin : Address) : C () :=
  config ← admin_config admin;
  set_config {| config with bc_admin := new_admin |}.

Definition add_chain (admin : Address) (chain : SupportedChain) : C () :=
  admin_config admin;;
  add_supported_chain chain.
Definition remove_chain (admin : Address) (chain : SupportedChain) : C () :=
  admin_config admin;;
  remove_supported_chain chain.

Definition register_validator_set (admin : Address) (chain : SupportedChain) (validators : list Address)
    (required_approvals : Z) : C () :=
  admin_config admin;;
  let validator_count := Z.of_nat (length validators) in
  assert_that (validator_count >=? MIN_VALIDATORS_PER_CHAIN) "Need at least {} validators";;
  assert_that (validator_count <=? MAX_VALIDATORS_PER_CHAIN) "Too many validators (max {})";;
  assert_that ((required_approvals >? 0) && (required_approvals <=? validator_count))
    "Invalid threshold: must be 1..=count";;
  set_validator_set (mkValidatorSet chain validators required_approvals true).

Definition update_validator_threshold (admin : Address) (chain : SupportedChain) (new_threshold : Z) : C () :=
  admin_config admin;;
  o ← get_validator_set chain;
  vs ← expect o "Validator set not found";
  assert_that ((new_threshold >? 0) && (new_threshold <=? Z.of_nat (length (vs_validators vs)))) "Invalid threshold";;
  set_validator_set {| vs with vs_required_approvals := new_threshold |}.

Definition add_validator (admin : Address) (chain : SupportedChain) (validator : Address) : C () :=
  admin_config admin;;
  o ← get_validator_set chain;
  vs ← expect o "Validator set not found";
  panic_if (bool_decide (validator ∈ vs_validators vs)) "Validator already in set";;
  assert_that (Z.of_nat (length (vs_validators vs)) <? MAX_VALIDATORS_PER_CHAIN) "Validator set is full";;
  set_validator_set {| vs with vs_validators := vs_validators vs ++ [validator] |}.

Definition remove_validator (admin : Address) (chain : SupportedChain) (validator : Address) : C () :=
  admin_config admin;;
  o ← get_validator_set chain;
  vs ← expect o "Validator set not found";
  let new_validators := filter (λ v, v ≠ validator) (vs_validators vs) in
  panic_if (negb (bool_decide (validator ∈ vs_validators vs))) "Validator not in set";;
  let count := Z.of_nat (length new_validators) in
  assert_that (count >=? MIN_VALIDATORS_PER_CHAIN) "Cannot go below minimum validators";;
  set_validator_set {| vs with
    vs_required_approvals := if vs_required_approvals vs >? count then count else vs_required_approvals vs;
    vs_validators := new_validators |}.

(** ** Wrapped assets and fee tiers *)

Definition register_wrapped_asset (admin : Address) (asset_code : string) (asset_issuer : Address)
    (chain : SupportedChain) : C () :=
  admin_config admin;;
  supported ← is_chain_supported chain;
  panic_if (negb supported) "Chain not supported";;
  set_wrapped_asset (mkWrapped asset_code asset_issuer "" chain 0 0 true).

Definition deactivate_wrapped_asset (admin : Address) (asset_code : string) (chain : SupportedChain) : C () :=
  admin_config admin;;
  o ← get_wrapped_asset asset_code chain;
  asset ← expect o "Wrapped asset not found";
  set_wrapped_asset {| asset with wa_active := false |}.

Definition set_fee_tier (admin : Address) (chain : SupportedChain) (tier_index min_amount max_amount fee_bps : Z) : C () :=
  admin_config admin;;
  assert_that (fee_bps <=? MAX_FEE_BPS) "Fee exceeds maximum";;
  assert_that (min_amount >=? 0) "Min amount must be non-negative";;
  assert_that (max_amount >? min_amount) "Max must be greater than min";;
  set_fee_tier_at chain tier_index (mkTier chain min_amount max_amount fee_bps true).

(** ** Transfers *)

Definition lock_assets (sender : Address) (dest_chain : SupportedChain) (asset_code : string) (amount : Z)
    (dest_address source_tx_hash : string) : C Z :=
  require_auth sender;;
  require_not_paused;;
  config ← get_config;
  supported ← is_chain_supported dest_chain;
  assert_that supported "Chain not supported";;
  assert_that (amount >=? bc_min_bridge_amount config) "Amount below minimum";;
  assert_that (amount <=? bc_max_bridge_amount config) "Amount exceeds maximum";;
  assert_that (negb (bool_decide (source_tx_hash = ""))) "Source tx hash required";;
  assert_that (negb (bool_decide (dest_address = ""))) "Destination address required";;
  duplicate ← is_duplicate_tx source_tx_hash;
  panic_if duplicate "Double spend detected: duplicate source tx hash";;
  o ← get_wrapped_asset asset_code dest_chain;
  wrapped ← expect o "Wrapped asset not found for this chain";
  panic_if (negb (wa_active wrapped)) "Wrapped asset is not active";;
  fee ← calculate_fee dest_chain amount;
  bridge_amount ← plain_sub I128 amount fee;
  tx_id ← next_tx_id;
  timestamp ← now;
  store_transaction (mkTx tx_id Outbound Ethereum dest_chain sender sender asset_code bridge_amount fee Pending
    source_tx_hash None tx_id timestamp 0 None);;
  locked ← plain_add I128 (wa_total_locked wrapped) bridge_amount;
  set_wrapped_asset {| wrapped with wa_total_locked := locked |};;
  publish (assets_locked tx_id sender dest_chain asset_code amount fee source_tx_hash);;
  mret tx_id.

Definition approve_transaction (validator : Address) (tx_id : Z) (chain : SupportedChain) (signature_data : string) :
    C Z :=
  require_auth validator;;
  require_not_paused;;
  o ← get_transaction tx_id;
  tx ← expect o "Transaction not found";
  assert_that (bool_decide (bt_status tx = Pending)) "Transaction not in pending state";;
  assert_that (bool_decide (bt_dest_chain tx = chain) || bool_decide (bt_source_chain tx = chain)) "Chain mismatch";;
  o ← get_validator_set chain;
  vs ← expect o "Validator set not found for chain";
  assert_that (vs_active vs) "Validator set is not active";;
  assert_that (bool_decide (validator ∈ vs_validators vs)) "Validator not in set";;
  (if bt_validator_approvals tx >? 0 then
     existing ← get_validator_signature tx_id (bt_validator_approvals tx);
     match existing with
     | Some sig => panic_if (bool_decide (vg_validator sig = validator)) "Validator already approved"
     | None => mret tt
     end
   else mret tt);;
  t ← now;
  modify (λ s, {| s with vsig :=
    <[(tx_id, bt_validator_approvals tx) := mkSig validator tx_id true t signature_data]> (vsig s) |});;
  approvals ← plain_add U32 (bt_validator_approvals tx) 1;
  let tx := {| tx with bt_validator_approvals := approvals |} in
  let tx := if bt_validator_approvals tx >=? vs_required_approvals vs then {| tx with bt_status := Validated |} else tx in
  set_transaction tx;;
  publish (tx_approved tx_id validator (bt_validator_approvals tx) (vs_required_approvals vs));;
  mret (bt_validator_approvals tx).

Definition complete_transaction (admin : Address) (tx_id : Z) (dest_tx_hash : string) : C () :=
  admin_config admin;;
  o ← get_transaction tx_id;
  tx ← expect o "Transaction not found";
  assert_that (bool_decide (bt_status tx = Validated)) "Transaction must be validated first";;
  o ← get_wrapped_asset (bt_asset_code tx) (bt_dest_chain tx);
  wrapped ← expect o "Wrapped asset not found";
  supply ← plain_add I128 (wa_total_supply wrapped) (bt_amount tx);
  set_wrapped_asset {| wrapped with wa_total_supply := supply |};;
  set_transaction {| tx with bt_status := Completed; bt_dest_tx_hash := Some dest_tx_hash |};;
  publish (tx_completed tx_id (bt_amount tx) (bt_asset_code tx) (bt_dest_chain tx) dest_tx_hash).

Definition mint_assets (sender : Address) (source_chain : SupportedChain) (asset_code : string) (amount : Z)
    (source_tx_hash merkle_root : string) : C Z :=
  require_auth sender;;
  require_not_paused;;
  config ← get_config;
  supported ← is_chain_supported source_chain;
  assert_that supported "Chain not supported";;
  assert_that (amount >=? bc_min_bridge_amount config) "Amount below minimum";;
  duplicate ← is_duplicate_tx source_tx_hash;
  panic_if duplicate "Double spend detected";;
  o ← get_wrapped_asset asset_code source_chain;
  wrapped ← expect o "Wrapped asset not found";
  panic_if (negb (wa_active wrapped)) "Wrapped asset not active";;
  tx_id ← next_tx_id;
  timestamp ← now;
  store_transaction (mkTx tx_id Inbound source_chain Ethereum sender sender asset_code amount 0 Pending
    source_tx_hash None tx_id timestamp 0 (Some merkle_root));;
  publish (mint_requested tx_id sender source_chain asset_code amount);;
  mret tx_id.

Definition release_assets (admin : Address) (tx_id : Z) : C () :=
  admin_config admin;;
  o ← get_transaction tx_id;
  tx ← expect o "Transaction not found";
  assert_that (bool_decide (bt_status tx = Validated)) "Transaction must be validated";;
  assert_that (bool_decide (bt_direction tx = Inbound)) "Only inbound transactions release assets";;
  o ← get_wrapped_asset (bt_asset_code tx) (bt_source_chain tx);
  wrapped ← expect o "Wrapped asset not found";
  set_wrapped_asset {| wrapped with
    wa_total_supply := saturating_sub I128 (wa_total_supply wrapped) (bt_amount tx);
    wa_total_locked := saturating_sub I128 (wa_total_locked wrapped) (bt_amount tx) |};;
  set_transaction {| tx with bt_status := Completed |};;
  publish (assets_released tx_id (bt_amount tx) (bt_asset_code tx) (bt_sender tx)).

Definition cancel_transaction (caller : Address) (tx_id : Z) : C () :=
  require_auth caller;;
  o ← get_transaction tx_id;
  tx ← expect o "Transaction not found";
  config ← get_config;
  panic_if (bool_decide (caller ≠ bt_sender tx) && bool_decide (caller ≠ bc_admin config))
    "Unauthorized: not sender or admin";;
  assert_that (bool_decide (bt_status tx = Pending)) "Can only cancel pending transactions";;
  set_transaction {| tx with bt_status := Cancelled |};;
  (if bool_decide (bt_direction tx = Outbound) then
     o ← get_wrapped_asset (bt_asset_code tx) (bt_dest_chain tx);
     wrapped ← expect o "Wrapped asset not found";
     set_wrapped_asset {| wrapped with wa_total_locked := saturating_sub I128 (wa_total_locked wrapped) (bt_amount tx) |}
   else mret tt);;
  publish (tx_cancelled tx_id caller).

(** ** Liquidity pools *)

Definition create_liquidity_pool (admin : Address) (asset_code : string) (chain : SupportedChain) : C Z :=
  admin_config admin;;
  pool_id ← next_lp_id;
  set_liquidity_pool (mkPool pool_id asset_code chain 0 0 0 true);;
  publish (pool_created pool_id);;
  mret pool_id.

Definition add_liquidity (provider : Address) (pool_id amount : Z) : C Z :=
  require_auth provider;;
  assert_that (amount >? 0) "Amount must be positive";;
  o ← get_liquidity_pool pool_id;
  pool ← expect o "Pool not found";
  assert_that (lp_active pool) "Pool not active";;
  lp_tokens ← (if lp_total_liquidity pool =? 0 then mret amount
    else
      p ← plain_mul I128 amount (lp_lp_token_balance pool);
      plain_div I128 p (lp_total_liquidity pool));
  liquidity ← plain_add I128 (lp_total_liquidity pool) amount;
  balance ← plain_add I128 (lp_lp_token_balance pool) lp_tokens;
  set_liquidity_pool {| pool with lp_total_liquidity := liquidity; lp_lp_token_balance := balance |};;
  t ← now;
  set_lp_deposit (mkDeposit provider pool_id amount lp_tokens t);;
  publish (liquidity_added provider pool_id amount lp_tokens);;
  mret lp_tokens.

Definition remove_liquidity (provider : Address) (pool_id lp_amount : Z) : C Z :=
  require_auth provider;;
  assert_that (lp_amount >? 0) "LP amount must be positive";;
  o ← get_liquidity_pool pool_id;
  pool ← expect o "Pool not found";
  assert_that (lp_active pool) "Pool not active";;
  assert_that (lp_amount <=? lp_lp_token_balance pool) "Insufficient LP tokens";;
  p ← plain_mul I128 lp_amount (lp_total_liquidity pool);
  withdraw_amount ← plain_div I128 p (lp_lp_token_balance pool);
  liquidity ← plain_sub I128 (lp_total_liquidity pool) withdraw_amount;
  balance ← plain_sub I128 (lp_lp_token_balance pool) lp_amount;
  set_liquidity_pool {| pool with lp_total_liquidity := liquidity; lp_lp_token_balance := balance |};;
  publish (liquidity_removed provider pool_id withdraw_amount lp_amount);;
  mret withdraw_amount.

(** ** Emergency stop and disputes *)

Definition pause_bridge (admin : Address) (reason : string) (unpause_after : option Z) : C () :=
  admin_config admin;;
  t ← now;
  set_emergency (mkEmergency true (Some admin) (Some t) unpause_after (Some reason));;
  publish (bridge_paused admin reason (default 0 unpause_after)).
Definition unpause_bridge (admin : Address) : C () :=
  admin_config admin;;
  set_emergency (mkEmergency false None None None None);;
  publish (bridge_unpaused admin).
Definition get_emergency_status : C EmergencyConfig := get_emergency.

Definition file_dispute (disputer : Address) (tx_id : Z) (reason : string) : C Z :=
  require_auth disputer;;
  assert_that (negb (bool_decide (reason = ""))) "Reason required";;
  assert_that (Z.of_nat (String.length reason) <=? MAX_DISPUTE_REASON_LENGTH) "Reason too long";;
  o ← get_transaction tx_id;
  tx ← expect o "Transaction not found";
  assert_that (bool_decide (bt_status tx = Pending) || bool_decide (bt_status tx = Validated))
    "Transaction cannot be disputed in current state";;
  dispute_id ← next_dispute_id;
  t ← now;
  set_dispute (mkDispute dispute_id tx_id disputer reason false None t None);;
  set_transaction {| tx with bt_status := Disputed |};;
  publish (dispute_filed dispute_id tx_id disputer reason);;
  mret dispute_id.

Definition resolve_dispute (admin : Address) (dispute_id : Z) (resolution : string) : C () :=
  admin_config admin;;
  o ← get_dispute dispute_id;
  dispute ← expect o "Dispute not found";
  assert_that (negb (bd_resolved dispute)) "Dispute already resolved";;
  t ← now;
  set_dispute {| dispute with bd_resolved := true; bd_resolution := Some resolution; bd_resolved_at := Some t |};;
  (if bool_decide (resolution = "cancel") then
     o ← get_transaction (bd_tx_id dispute);
     match o with
     | Some tx => set_transaction {| tx with bt_status := Cancelled |}
     | None => mret tt
     end
   else mret tt);;
  publish (dispute_resolved dispute_id resolution).

(** ** Queries *)

Definition check_duplicate (source_tx_hash : string) : C bool := is_duplicate_tx source_tx_hash.
Definition get_tx_count : C Z := config ← get_config; mret (bc_tx_counter config).
End contract.

(** ** The entry points *)

(** The views. *)
Inductive Query :=
| QConfig
| QChainSupported (chain : SupportedChain)
| QValidatorSet (chain : SupportedChain)
| QWrappedAsset (code : string) (chain : SupportedChain)
| QFee (chain : SupportedChain) (amount : Z)
| QPool (pool_id : Z)
| QEmergency
| QDispute (dispute_id : Z)
| QTransaction (tx_id : Z)
| QDuplicate (hash : string)
| QTxCount.

Definition query `{TokenHost} (q : Query) : M State () Event () :=
  match q with
  | QConfig => discard get_config
  | QChainSupported c => discard (is_chain_supported c)
  | QValidatorSet c => discard (get_validator_set c)
  | QWrappedAsset k c => discard (get_wrapped_asset k c)
  | QFee c n => discard (calculate_fee c n)
  | QPool i => discard (get_liquidity_pool i)
  | QEmergency => discard get_emergency_status
  | QDispute i => discard (get_dispute i)
  | QTransaction i => discard (get_transaction i)
  | QDuplicate h => discard (check_duplicate h)
  | QTxCount => discard get_tx_count
  end.

Inductive Call :=
| CInitialize (admin : Address)
| CUpdateConfig (admin : Address) (timelock min_amount max_amount fee : option Z)
| CTransferAdmin (admin new_admin : Address)
| CAddChain (admin : Address) (chain : SupportedChain)
| CRemoveChain (admin : Address) (chain : SupportedChain)
| CRegisterValidators (admin : Address) (chain : SupportedChain) (validators : list Address) (required : Z)
| CUpdateThreshold (admin : Address) (chain : SupportedChain) (threshold : Z)
| CAddValidator (admin : Address) (chain : SupportedChain) (validator : Address)
| CRemoveValidator (admin : Address) (chain : SupportedChain) (validator : Address)
| CRegisterAsset (admin : Address) (code : string) (issuer : Address) (chain : SupportedChain)
| CDeactivateAsset (admin : Address) (code : string) (chain : SupportedChain)
| CSetFeeTier (admin : Address) (chain : SupportedChain) (index min_amount max_amount fee_bps : Z)
| CLock (sender : Address) (dest : SupportedChain) (code : string) (amount : Z) (dest_address hash : string)
| CApprove (validator : Address) (tx_id : Z) (chain : SupportedChain) (sig : string)
| CComplete (admin : Address) (tx_id : Z) (dest_hash : string)
| CMint (sender : Address) (source : SupportedChain) (code : string) (amount : Z) (hash root : string)
| CRelease (admin : Address) (tx_id : Z)
| CCancel (caller : Address) (tx_id : Z)
| CCreatePool (admin : Address) (code : string) (chain : SupportedChain)
| CAddLiquidity (provider : Address) (pool_id amount : Z)
| CRemoveLiquidity (provider : Address) (pool_id lp_amount : Z)
| CPause (admin : Address) (reason : string) (unpause_after : option Z)
| CUnpause (admin : Address)
| CFileDispute (disputer : Address) (tx_id : Z) (reason : string)
| CResolveDispute (admin : Address) (dispute_id : Z) (resolution : string)
| CView (q : Query).

Definition exec `{TokenHost} (c : Call) : M State () Event () :=
  match c with
  | CInitialize a => discard (initialize a)
  | CUpdateConfig a t m x f => discard (update_config a t m x f)
  | CTransferAdmin a n => transfer_admin a n
  | CAddChain a c => add_chain a c
  | CRemoveChain a c => remove_chain a c
  | CRegisterValidators a c v r => register_validator_set a c v r
  | CUpdateThreshold a c t => update_validator_threshold a c t
  | CAddValidator a c v => add_validator a c v
  | CRemoveValidator a c v => remove_validator a c v
  | CRegisterAsset a k i c => register_wrapped_asset a k i c
  | CDeactivateAsset a k c => deactivate_wrapped_asset a k c
  | CSetFeeTier a c i m x f => set_fee_tier a c i m x f
  | CLock s d k n x h => discard (lock_assets s d k n x h)
  | CApprove v i c s => discard (approve_transaction v i c s)
  | CComplete a i h => complete_transaction a i h
  | CMint s c k n h r => discard (mint_assets s c k n h r)
  | CRelease a i => release_assets a i
  | CCancel a i => cancel_transaction a i
  | CCreatePool a k c => discard (create_liquidity_pool a k c)
  | CAddLiquidity p i n => discard (add_liquidity p i n)
  | CRemoveLiquidity p i n => discard (remove_liquidity p i n)
  | CPause a r u => pause_bridge a r u
  | CUnpause a => unpause_bridge a
  | CFileDispute d i r => discard (file_dispute d i r)
  | CResolveDispute a i r => resolve_dispute a i r
  | CView q => query q
  end.

(** The unsigned arguments of a call are non-negative, by their Rust types. *)
Definition call_ok (c : Call) : Prop :=
  match c with
  | CUpdateConfig _ t _ _ f => 0 ≤ default 0 t ∧ 0 ≤ default 0 f
  | CRegisterValidators _ _ _ r => 0 ≤ r
  | CUpdateThreshold _ _ r => 0 ≤ r
  | CSetFeeTier _ _ i _ _ f => 0 ≤ i ∧ 0 ≤ f
  | CPause _ _ u => 0 ≤ default 0 u
  | _ => True
  end.
