(* ===== verification/BridgeProofs.v ===== *)
(** * contracts/bridge: theorems

    That a deployed bridge can never be initialized; and, for a bridge whose
    configuration is in place, the life of a transfer, that a source transaction is
    used once, the fee of a transfer, and the fairness of the liquidity pools. *)

From stdpp Require Import gmap strings list fin_maps.
From S2P Require Import Prelude Soroban TokenModel Bridge.
Open Scope Z_scope.

(** ** Deployment *)

Section deployment.
Context `{TokenHost}.
Implicit Types (w : World State Event) (e : Env).

Lemma get_config_None e w : Config (store w) = None → get_config e w = Panic "Bridge not initialized".
Proof. intros Hc. unfold get_config, mbind, M_bind, gets, expect. by rewrite Hc. Qed.

Lemma admin_config_None a e w r : Config (store w) = None → admin_config a e w ≠ Ok r.
Proof.
  intros Hc Hr. destruct r as [c w']. unfold admin_config in Hr.
  apply bind_Ok in Hr as ([] & w1 & Ha & Hr). minv Ha. apply bind_Ok in Hr as (c1 & w1 & Hg & _).
  by rewrite get_config_None in Hg.
Qed.

End deployment.

(** ** Transfers as a state machine *)

(** How a transfer may change, given the validator sets. *)
Inductive tx_moves (sets : gmap SupportedChain ValidatorSetConfig) (tx : BridgeTransaction) : BridgeTransaction → Prop :=
| tm_same : tx_moves sets tx tx
| tm_approved chain vs v :
    bt_status tx = Pending → chain = bt_dest_chain tx ∨ chain = bt_source_chain tx →
    sets !! chain = Some vs → vs_active vs = true → v ∈ vs_validators vs →
    tx_moves sets tx {| tx with bt_validator_approvals := bt_validator_approvals tx + 1;
      bt_status := if bt_validator_approvals tx + 1 >=? vs_required_approvals vs then Validated else Pending |}
| tm_completed h :
    bt_status tx = Validated → tx_moves sets tx {| tx with bt_status := Completed; bt_dest_tx_hash := Some h |}
| tm_released :
    bt_status tx = Validated → bt_direction tx = Inbound → tx_moves sets tx {| tx with bt_status := Completed |}
| tm_cancelled : bt_status tx = Pending → tx_moves sets tx {| tx with bt_status := Cancelled |}
| tm_disputed :
    bt_status tx = Pending ∨ bt_status tx = Validated → tx_moves sets tx {| tx with bt_status := Disputed |}
| tm_dropped : bt_status tx = Disputed → tx_moves sets tx {| tx with bt_status := Cancelled |}.

(** What of the storage the transfers are. *)
Record Core := mkCore {
  k_txs : Z;
  k_disputes : Z;
  k_tx : gmap Z BridgeTransaction;
  k_hash : gmap string Z;
  k_dispute : gmap Z BridgeDispute;
}.
Definition core (st : State) : option Core :=
  (λ c, mkCore (bc_tx_counter c) (bc_dispute_counter c) (Tx st) (TxHash st) (Dispute st)) <$> Config st.

Inductive bstep (sets : gmap SupportedChain ValidatorSetConfig) (k : Core) : Core → Prop :=
| bs_same : bstep sets k k
| bs_reset : k_txs k ≤ 0 → bstep sets k {| k with k_txs := 0; k_disputes := 0 |}
| bs_new tx h :
    k_hash k !! h = None → bt_tx_id tx = k_txs k + 1 → bt_source_tx_hash tx = h → bt_status tx = Pending →
    bt_validator_approvals tx = 0 →
    bstep sets k {| k with k_txs := k_txs k + 1; k_tx := <[k_txs k + 1 := tx]> (k_tx k);
      k_hash := <[h := k_txs k + 1]> (k_hash k) |}
| bs_move i tx tx' :
    k_tx k !! i = Some tx → tx_moves sets tx tx' → bt_status tx ≠ Disputed →
    bstep sets k {| k with k_tx := <[i := tx']> (k_tx k) |}
| bs_dispute i tx d :
    k_tx k !! i = Some tx → bt_status tx = Pending ∨ bt_status tx = Validated →
    bd_dispute_id d = k_disputes k + 1 → bd_tx_id d = i → bd_resolved d = false →
    bstep sets k {| k with k_disputes := k_disputes k + 1; k_dispute := <[k_disputes k + 1 := d]> (k_dispute k);
      k_tx := <[i := {| tx with bt_status := Disputed |}]> (k_tx k) |}
| bs_resolve d x x' b :
    k_dispute k !! d = Some x → bd_resolved x = false → bd_resolved x' = true → bd_dispute_id x' = bd_dispute_id x →
    bd_tx_id x' = bd_tx_id x →
    bstep sets k {| k with k_dispute := <[d := x']> (k_dispute k);
      k_tx := if (b : bool) then alter (λ tx, {| tx with bt_status := Cancelled |}) (bd_tx_id x) (k_tx k) else k_tx k |}.

Record core_ok (k : Core) : Prop := {
  ck_counters : 0 ≤ k_txs k ∧ 0 ≤ k_disputes k;
  ck_tx i tx : k_tx k !! i = Some tx → bt_tx_id tx = i ∧ 1 ≤ i ≤ k_txs k ∧ k_hash k !! bt_source_tx_hash tx = Some i;
  ck_dispute d x : k_dispute k !! d = Some x →
    bd_dispute_id x = d ∧ 1 ≤ d ≤ k_disputes k ∧
    ∃ tx, k_tx k !! bd_tx_id x = Some tx ∧ (bd_resolved x = false → bt_status tx = Disputed);
  ck_one d d' x x' : k_dispute k !! d = Some x → k_dispute k !! d' = Some x' →
    bd_resolved x = false → bd_resolved x' = false → bd_tx_id x = bd_tx_id x' → d = d';
}.

(** A transfer keeps what it was created with. *)
Record same_transfer (tx tx' : BridgeTransaction) : Prop := {
  st_id : bt_tx_id tx' = bt_tx_id tx;
  st_direction : bt_direction tx' = bt_direction tx;
  st_source : bt_source_chain tx' = bt_source_chain tx;
  st_dest : bt_dest_chain tx' = bt_dest_chain tx;
  st_sender : bt_sender tx' = bt_sender tx;
  st_asset : bt_asset_code tx' = bt_asset_code tx;
  st_amount : bt_amount tx' = bt_amount tx;
  st_fee : bt_fee tx' = bt_fee tx;
  st_hash : bt_source_tx_hash tx' = bt_source_tx_hash tx;
}.

Lemma tx_moves_same sets tx tx' : tx_moves sets tx tx' → same_transfer tx tx'.
Proof. intros []; done. Qed.

Lemma core_ok_move k i tx tx' :
  core_ok k → k_tx k !! i = Some tx → same_transfer tx tx' → bt_status tx ≠ Disputed →
  core_ok {| k with k_tx := <[i := tx']> (k_tx k) |}.
Proof.
  intros [Hc Ht Hd Ho] Hi Hs Hst. split; try done; cbn.
  - intros j y [[<- <-]|[_ Hj]]%lookup_insert_Some; [|by apply Ht]. rewrite (st_id _ _ Hs), (st_hash _ _ Hs). by apply Ht.
  - intros d x Hx. destruct (Hd d x Hx) as (? & ? & y & Hy & Hy'). split; [done|]. split; [done|].
    destruct (decide (bd_tx_id x = i)) as [Heq|Hne]; [|exists y; by rewrite lookup_insert_ne].
    rewrite Heq in *. exists tx'. rewrite lookup_insert_eq. split; [done|]. intros Hr. specialize (Hy' Hr). congruence.
Qed.

Lemma bstep_ok sets k k' : bstep sets k k' → core_ok k → core_ok k'.
Proof.
  intros Hs Hk. destruct Hs as [|Hz|tx h Hh Hi Hth Hst Ha|i tx tx' Hi Hm Hst|i tx d Hi Hst Hdi Hdt Hdr|d x x' b Hx Hr Hr' Hid Htx].
  - done.
  - destruct Hk as [Hc Ht Hd Ho]. assert (∀ i, k_tx k !! i = None) as Hnone.
    { intros i. destruct (k_tx k !! i) as [tx|] eqn:Hi; [|done]. destruct (Ht _ _ Hi) as (_ & ? & _). lia. }
    split; try done; cbn.
    + intros i tx Hi. by rewrite Hnone in Hi.
    + intros d x Hx. destruct (Hd _ _ Hx) as (_ & _ & tx & Htx & _). by rewrite Hnone in Htx.
  - destruct Hk as [Hc Ht Hd Ho]. split; cbn; [lia| | |done].
    + intros i y [[<- <-]|[Hne Hy]]%lookup_insert_Some; [rewrite Hth, lookup_insert_eq; split_and!; done || lia|].
      destruct (Ht _ _ Hy) as (? & ? & Hhy). split; [done|]. split; [lia|]. rewrite lookup_insert_ne; [done|]. congruence.
    + intros d x Hx. destruct (Hd _ _ Hx) as (? & ? & y & Hy & ?). split; [done|]. split; [done|]. exists y. split; [|done].
      rewrite lookup_insert_ne; [done|]. destruct (Ht _ _ Hy) as (_ & ? & _). lia.
  - eapply core_ok_move; eauto using tx_moves_same.
  - assert (bt_status tx ≠ Disputed) as Hnd by (destruct Hst; congruence).
    destruct (core_ok_move k i tx {| tx with bt_status := Disputed |} Hk Hi) as [Hc Ht Hd Ho]; [done|done|]. cbn in *.
    assert (∀ j x, k_dispute k !! j = Some x → bd_resolved x = false → bd_tx_id x ≠ i) as Hfree.
    { intros j x Hx Hr Heq. destruct (ck_dispute _ Hk _ _ Hx) as (_ & _ & y & Hy & Hy'). rewrite Heq in Hy.
      specialize (Hy' Hr). congruence. }
    split; cbn; [lia|done| |].
    + intros j x [[<- <-]|[_ Hj]]%lookup_insert_Some.
      * split; [done|]. split; [lia|]. exists {| tx with bt_status := Disputed |}. by rewrite Hdt, lookup_insert_eq.
      * destruct (Hd _ _ Hj) as (? & ? & ?). split; [done|]. split; [lia|done].
    + intros d1 d2 x1 x2 [[<- <-]|[Hn1 H1]]%lookup_insert_Some [[<- <-]|[Hn2 H2]]%lookup_insert_Some Hr1 Hr2 Heq; try done.
      * exfalso. eapply (Hfree _ _ H2 Hr2). congruence.
      * exfalso. eapply (Hfree _ _ H1 Hr1). congruence.
      * by eapply Ho.
  - destruct (ck_dispute _ Hk _ _ Hx) as (Hdx & Hrange & tx & Hi & Hstx). specialize (Hstx Hr).
    set (tx' := if b then {| tx with bt_status := Cancelled |} else tx).
    assert ((if b then alter (λ tx, {| tx with bt_status := Cancelled |}) (bd_tx_id x) (k_tx k) else k_tx k) =
      <[bd_tx_id x := tx']> (k_tx k)) as ->.
    { unfold tx'. destruct b; [|by rewrite insert_id].
      symmetry. by apply (insert_alter (λ tx, {| tx with bt_status := Cancelled |}) (k_tx k)). }
    assert (same_transfer tx tx') as Hs by (unfold tx'; by destruct b).
    destruct Hk as [Hc Ht Hd Ho]. split; cbn; [done| | |].
    + intros j y [[<- <-]|[_ Hj]]%lookup_insert_Some; [|by apply Ht]. rewrite (st_id _ _ Hs), (st_hash _ _ Hs). by apply Ht.
    + intros j y [[<- <-]|[Hne Hj]]%lookup_insert_Some.
      * split; [congruence|]. split; [done|]. exists tx'. rewrite Htx, lookup_insert_eq. split; [done|congruence].
      * destruct (Hd _ _ Hj) as (? & ? & z & Hz & Hz'). split; [done|]. split; [done|].
        destruct (decide (bd_tx_id x = bd_tx_id y)) as [Heq|Hnt]; [|exists z; by rewrite lookup_insert_ne].
        exists tx'. rewrite <- Heq, lookup_insert_eq. split; [done|]. intros Hry. by destruct (Hne (Ho _ _ _ _ Hx Hj Hr Hry Heq)).
    + intros d1 d2 x1 x2 [[<- <-]|[Hn1 H1]]%lookup_insert_Some [[<- <-]|[Hn2 H2]]%lookup_insert_Some Hr1 Hr2 Heq;
        try congruence. by eapply Ho.
Qed.

Section refinement.
Context `{TokenHost}.
Implicit Types (w : World State Event) (e : Env).

#[local] Hint Extern 1 (reads eq (gets _)) => (apply reads_gets; by intros ? ? ->) : contracts.

Lemma fee_tier_reads n c a d i : reads eq (fee_tier_loop n c a d i).
Proof.
  revert i. induction n as [|n IH]; intros i; cbn [fee_tier_loop]; [auto with contracts|]. unfold get_fee_tier.
  apply reads_bind; [auto with contracts|]. intros [t|]; [|auto with contracts].
  destruct (_ && _); [auto with contracts|]. apply reads_bind; auto with contracts.
Qed.

Lemma free_deposit_reads n p i : reads eq (free_deposit_loop n p i).
Proof.
  revert i. induction n as [|n IH]; intros i; cbn [free_deposit_loop]; [auto with contracts|]. unfold get_lp_deposit.
  apply reads_bind; [auto with contracts|]. intros [t|]; [|auto with contracts].
  apply reads_bind; auto with contracts.
Qed.

Lemma calculate_fee_reads c a : reads eq (calculate_fee c a).
Proof.
  unfold calculate_fee, get_config. repeat first [apply fee_tier_reads|apply reads_bind; [|intros ?]|solve [auto with contracts]].
Qed.

Lemma query_reads q : reads eq (query q).
Proof.
  destruct q; cbn [query]; unfold discard, get_config, is_chain_supported, get_validator_set, get_wrapped_asset,
    get_liquidity_pool, get_emergency_status, get_emergency, get_dispute, get_transaction, check_duplicate, is_duplicate_tx,
    get_tx_count, get_config;
    repeat first [apply calculate_fee_reads|apply reads_bind; [|intros ?]|solve [auto with contracts]].
Qed.

(** The calls that leave the transfers alone. *)
Definition tx_bystander (c : Call) : bool :=
  match c with
  | CAddChain _ _ | CRemoveChain _ _ | CRegisterValidators _ _ _ _ | CUpdateThreshold _ _ _ | CAddValidator _ _ _
  | CRemoveValidator _ _ _ | CRegisterAsset _ _ _ _ | CDeactivateAsset _ _ _ | CSetFeeTier _ _ _ _ _ _
  | CAddLiquidity _ _ _ | CRemoveLiquidity _ _ _ | CPause _ _ _ | CUnpause _ | CView _ => true
  | _ => false
  end.

Lemma tx_bystander_core c : tx_bystander c = true → keeps core (exec c).
Proof.
  intros Hc. destruct c; try done; cbn [exec]; unfold discard, add_chain, remove_chain, register_validator_set,
    update_validator_threshold, add_validator, remove_validator, register_wrapped_asset, deactivate_wrapped_asset,
    set_fee_tier, add_liquidity, remove_liquidity, pause_bridge, unpause_bridge, add_supported_chain, remove_supported_chain,
    is_chain_supported, get_validator_set, set_validator_set, get_wrapped_asset, set_wrapped_asset, set_fee_tier_at,
    get_liquidity_pool, set_liquidity_pool, set_lp_deposit, set_emergency, admin_config, get_config, assert_that; frame;
    try (apply keeps_reads, free_deposit_reads); try (apply keeps_reads, query_reads).
Qed.

Local Abbreviation steps w w' :=
  (∀ k, core (store w) = Some k → core_ok k →
     ∃ k', core (store w') = Some k' ∧ bstep (ValidatorSet (store w)) k k').

Lemma core_Some st k :
  core st = Some k →
  ∃ c, Config st = Some c ∧ k = mkCore (bc_tx_counter c) (bc_dispute_counter c) (Tx st) (TxHash st) (Dispute st).
Proof. unfold core. intros (c & Hc & ->)%fmap_Some. by exists c. Qed.

Lemma admin_config_spec a e w c w' :
  admin_config a e w = Ok (c, w') → authorized e a = true ∧ Config (store w) = Some c ∧ bc_admin c = a ∧ w' = w.
Proof. intros Hr. unfold admin_config, get_config in Hr. minv Hr. zbool. done. Qed.

Lemma not_paused_core e w w' :
  require_not_paused e w = Ok (tt, w') →
  store w' = {| (store w) with Emergency := Emergency (store w') |} ∧ ledger w' = ledger w.
Proof.
  intros Hr. unfold require_not_paused, get_emergency, set_emergency in Hr. minv Hr; by destruct w as [[] ? ?].
Qed.

Lemma initialize_step a e w v w' : initialize a e w = Ok (v, w') → steps w w'.
Proof.
  intros Hr k (c & Hc & ->)%core_Some Hok. unfold initialize, initialize_bridge, get_config in Hr. cbv zeta in Hr.
  minv Hr. zbool. eexists. split; [reflexivity|]. by apply bs_reset.
Qed.

Lemma config_step f w w' :
  (∀ c, bc_tx_counter (f c) = bc_tx_counter c ∧ bc_dispute_counter (f c) = bc_dispute_counter c) →
  (∃ c, Config (store w) = Some c ∧ store w' = {| (store w) with Config := Some (f c) |}) → steps w w'.
Proof.
  intros Hf (c & Hc & Hst) k (c' & Hc' & ->)%core_Some Hok. rewrite Hc in Hc'. injection Hc' as <-.
  unfold core. rewrite Hst. cbn. destruct (Hf c) as [-> ->]. eexists. split; [done|]. constructor.
Qed.

(** A transfer is written over. *)
Lemma move_step w w' i tx tx' :
  Tx (store w) !! i = Some tx → tx_moves (ValidatorSet (store w)) tx tx' → bt_status tx ≠ Disputed →
  Config (store w') = Config (store w) → Tx (store w') = <[bt_tx_id tx := tx']> (Tx (store w)) →
  TxHash (store w') = TxHash (store w) → Dispute (store w') = Dispute (store w) → steps w w'.
Proof.
  intros Hi Hm Hst H1 H2 H3 H4 k (c & Hc & ->)%core_Some Hok. destruct (ck_tx _ Hok i tx Hi) as [Hid _].
  unfold core. rewrite H1, H2, H3, H4, Hc, Hid. eexists. split; [reflexivity|]. by eapply bs_move.
Qed.

Lemma complete_step a i h e w w' : complete_transaction a i h e w = Ok (tt, w') → steps w w'.
Proof.
  intros Hr. unfold complete_transaction in Hr.
  apply bind_Ok in Hr as (c' & w1 & (_ & _ & _ & ->)%admin_config_spec & Hr).
  unfold get_transaction, assert_that, get_wrapped_asset, set_wrapped_asset, set_transaction in Hr. minv Hr. zbool.
  eapply move_step; [done|by apply (tm_completed _ _ h)|congruence|done..].
Qed.

Lemma release_step a i e w w' : release_assets a i e w = Ok (tt, w') → steps w w'.
Proof.
  intros Hr. unfold release_assets in Hr.
  apply bind_Ok in Hr as (c' & w1 & (_ & _ & _ & ->)%admin_config_spec & Hr).
  unfold get_transaction, assert_that, get_wrapped_asset, set_wrapped_asset, set_transaction in Hr. minv Hr. zbool.
  eapply move_step; [done|by apply tm_released|congruence|done..].
Qed.

Lemma cancel_step a i e w w' : cancel_transaction a i e w = Ok (tt, w') → steps w w'.
Proof.
  intros Hr. unfold cancel_transaction, get_transaction, assert_that, get_wrapped_asset, set_wrapped_asset, set_transaction,
    get_config in Hr. minv Hr; zbool; (eapply move_step; [done|by apply tm_cancelled|congruence|done..]).
Qed.

Lemma approve_step v i ch s e w r w' : approve_transaction v i ch s e w = Ok (r, w') → steps w w'.
Proof.
  intros Hr. unfold approve_transaction in Hr. apply bind_Ok in Hr as ([] & w1 & Ha & Hr). minv Ha.
  apply bind_Ok in Hr as ([] & w1 & [Hst _]%not_paused_core & Hr).
  apply bind_Ok in Hr as (o & w2 & Ho & Hr). unfold get_transaction in Ho. minv Ho.
  apply bind_Ok in Hr as (tx & w2 & Htx & Hr). minv Htx. unfold assert_that, get_validator_set in Hr.
  do 2 (let Hg := fresh "Hg" in apply bind_Ok in Hr as ([] & w2 & Hg & Hr); minv Hg).
  apply bind_Ok in Hr as (o & w2 & Ho & Hr). minv Ho. apply bind_Ok in Hr as (vs & w2 & Hvs & Hr). minv Hvs.
  do 2 (let Hg := fresh "Hg" in apply bind_Ok in Hr as ([] & w2 & Hg & Hr); minv Hg).
  apply bind_Ok in Hr as ([] & w2 & Hdup & Hr). assert (w2 = w1) as ->.
  { unfold get_validator_signature in Hdup. by minv Hdup. }
  clear Hdup. unfold set_transaction in Hr. cbv zeta in Hr. minv Hr. inv_checked. zbool. rewrite Hst in Htx, Hvs. cbn in Htx, Hvs.
  apply orb_prop in Hg0. assert (ch = bt_dest_chain tx ∨ ch = bt_source_chain tx) as Hch by (destruct Hg0; zbool; auto).
  eapply (move_step w _ i tx _ Htx (tm_approved _ _ ch vs v Hg Hch Hvs Hg1 Hg2)); [congruence|cbn; rewrite Hst; try done..].
  cbn. rewrite <- Hg. by destruct (_ >=? _).
Qed.

(** A transfer is created: [lock_assets] and [mint_assets] end alike. *)
Lemma new_step w w' c tx :
  Config (store w) = Some c → TxHash (store w) !! bt_source_tx_hash tx = None →
  bt_tx_id tx = bc_tx_counter c + 1 → bt_status tx = Pending → bt_validator_approvals tx = 0 →
  Config (store w') = Some {| c with bc_tx_counter := bc_tx_counter c + 1 |} →
  Tx (store w') = <[bt_tx_id tx := tx]> (Tx (store w)) →
  TxHash (store w') = <[bt_source_tx_hash tx := bt_tx_id tx]> (TxHash (store w)) →
  Dispute (store w') = Dispute (store w) → steps w w'.
Proof.
  intros Hc Hh Hid Hst Hap H1 H2 H3 H4 k (c' & Hc' & ->)%core_Some Hok. rewrite Hc in Hc'. injection Hc' as <-.
  unfold core. rewrite H1, H2, H3, H4, Hid. eexists. split; [reflexivity|].
  by apply (bs_new _ (mkCore _ _ _ _ _) tx (bt_source_tx_hash tx)).
Qed.

Lemma duplicate_false h e w w' :
  (is_duplicate_tx h : M State () Event bool) e w = Ok (false, w') → TxHash (store w) !! h = None ∧ w' = w.
Proof.
  intros Hr. unfold is_duplicate_tx in Hr. apply gets_Ok in Hr as [Hb ->]. symmetry in Hb. zbool. split; [|done].
  by apply eq_None_not_Some.
Qed.

(** A transfer is created only for a new source transaction. *)
Lemma mint_fresh s ch k n h r e w v w' : mint_assets s ch k n h r e w = Ok (v, w') → TxHash (store w) !! h = None.
Proof.
  intros Hr. unfold mint_assets, get_config, is_chain_supported, assert_that in Hr.
  apply bind_Ok in Hr as ([] & w1 & Ha & Hr). minv Ha. apply bind_Ok in Hr as ([] & w1 & [Hst _]%not_paused_core & Hr).
  apply bind_Ok in Hr as (c & w2 & Hc & Hr). minv Hc. apply bind_Ok in Hr as (sp & w2 & Hsp & Hr). minv Hsp.
  do 2 (let Hg := fresh "Hg" in apply bind_Ok in Hr as ([] & w2 & Hg & Hr); minv Hg).
  apply bind_Ok in Hr as (d & w2 & Hd & Hr). destruct d; [apply bind_Ok in Hr as ([] & w3 & Hp & _); minv Hp|].
  apply duplicate_false in Hd as [Hd _]. by rewrite Hst in Hd.
Qed.
Lemma lock_fresh s ch k n x h e w v w' : lock_assets s ch k n x h e w = Ok (v, w') → TxHash (store w) !! h = None.
Proof.
  intros Hr. unfold lock_assets, get_config, is_chain_supported, assert_that in Hr.
  apply bind_Ok in Hr as ([] & w1 & Ha & Hr). minv Ha. apply bind_Ok in Hr as ([] & w1 & [Hst _]%not_paused_core & Hr).
  apply bind_Ok in Hr as (c & w2 & Hc & Hr). minv Hc. apply bind_Ok in Hr as (sp & w2 & Hsp & Hr). minv Hsp.
  do 5 (let Hg := fresh "Hg" in apply bind_Ok in Hr as ([] & w2 & Hg & Hr); minv Hg).
  apply bind_Ok in Hr as (d & w2 & Hd & Hr). destruct d; [apply bind_Ok in Hr as ([] & w3 & Hp & _); minv Hp|].
  apply duplicate_false in Hd as [Hd _]. by rewrite Hst in Hd.
Qed.

Lemma mint_step s ch k n h r e w v w' : mint_assets s ch k n h r e w = Ok (v, w') → steps w w'.
Proof.
  intros Hr. unfold mint_assets in Hr. apply bind_Ok in Hr as ([] & w1 & Ha & Hr). minv Ha.
  apply bind_Ok in Hr as ([] & w1 & [Hst _]%not_paused_core & Hr). unfold get_config, is_chain_supported, assert_that in Hr.
  apply bind_Ok in Hr as (c & w2 & Hc & Hr). minv Hc. apply bind_Ok in Hr as (sp & w2 & Hsp & Hr). minv Hsp.
  do 2 (let Hg := fresh "Hg" in apply bind_Ok in Hr as ([] & w2 & Hg & Hr); minv Hg).
  apply bind_Ok in Hr as (d & w2 & Hd & Hr). destruct d; [apply bind_Ok in Hr as ([] & w3 & Hp & _); minv Hp|].
  apply duplicate_false in Hd as [Hd ->].
  unfold get_wrapped_asset, next_tx_id, get_config, set_config, store_transaction in Hr. minv Hr. inv_checked.
  rewrite Hst in Hc, Hd. cbn in Hc, Hd.
  eapply (new_step w _ c (mkTx (bc_tx_counter c + 1) Inbound ch Ethereum s s k n 0 Pending h None (bc_tx_counter c + 1)
    (timestamp e) 0 (Some r))); try done; cbn; by rewrite Hst.
Qed.

Lemma lock_step s ch k n x h e w v w' : lock_assets s ch k n x h e w = Ok (v, w') → steps w w'.
Proof.
  intros Hr. unfold lock_assets in Hr. apply bind_Ok in Hr as ([] & w1 & Ha & Hr). minv Ha.
  apply bind_Ok in Hr as ([] & w1 & [Hst _]%not_paused_core & Hr). unfold get_config, is_chain_supported, assert_that in Hr.
  apply bind_Ok in Hr as (c & w2 & Hc & Hr). minv Hc. apply bind_Ok in Hr as (sp & w2 & Hsp & Hr). minv Hsp.
  do 5 (let Hg := fresh "Hg" in apply bind_Ok in Hr as ([] & w2 & Hg & Hr); minv Hg).
  apply bind_Ok in Hr as (d & w2 & Hd & Hr). destruct d; [apply bind_Ok in Hr as ([] & w3 & Hp & _); minv Hp|].
  apply duplicate_false in Hd as [Hd ->]. apply bind_Ok in Hr as ([] & w2 & Hdp & Hr). minv Hdp.
  unfold get_wrapped_asset in Hr. apply bind_Ok in Hr as (o & w2 & Ho & Hr). minv Ho.
  apply bind_Ok in Hr as (wa & w2 & Hwa & Hr). minv Hwa. apply bind_Ok in Hr as ([] & w2 & Hact & Hr). minv Hact.
  apply bind_Ok in Hr as (fee & w2 & Hfee & Hr). apply (reads_pure _ _ _ _ _ (calculate_fee_reads _ _)) in Hfee as ->.
  unfold next_tx_id, get_config, set_config, store_transaction, set_wrapped_asset in Hr. minv Hr. inv_checked.
  rewrite Hst in Hc, Hd. cbn in Hc, Hd.
  eapply (new_step w _ c (mkTx (bc_tx_counter c + 1) Outbound Ethereum ch s s k (n - fee) fee Pending h None
    (bc_tx_counter c + 1) (timestamp e) 0 None)); try done; cbn; by rewrite Hst.
Qed.

Lemma dispute_step a i r e w v w' : file_dispute a i r e w = Ok (v, w') → steps w w'.
Proof.
  intros Hr k (c & Hc & ->)%core_Some Hok.
  unfold file_dispute, get_transaction, assert_that, next_dispute_id, get_config, set_config, set_dispute,
    set_transaction in Hr. minv Hr. inv_checked. simplify_eq.
  match goal with Ht : Tx (store w) !! i = Some ?t, Hs : negb (_ || _) = false |- _ =>
    rename t into tx; rename Ht into Htx; rename Hs into Hdis end.
  destruct (ck_tx _ Hok i tx Htx) as [Hid _]. apply negb_false_iff, orb_prop in Hdis.
  subst i. eexists. split; [reflexivity|].
  eapply (bs_dispute _ (mkCore _ _ _ _ _) _ tx (mkDispute _ _ _ _ _ _ _ _)); try done. destruct Hdis; zbool; auto.
Qed.

Lemma resolve_step a d r e w w' : resolve_dispute a d r e w = Ok (tt, w') → steps w w'.
Proof.
  intros Hr k (c & Hc & ->)%core_Some Hok. unfold resolve_dispute in Hr.
  apply bind_Ok in Hr as (c' & w1 & (_ & _ & _ & ->)%admin_config_spec & Hr).
  unfold get_dispute, assert_that, set_dispute in Hr. apply bind_Ok in Hr as (o & w1 & Ho & Hr). minv Ho.
  apply bind_Ok in Hr as (x & w1 & Hx & Hr). minv Hx. apply bind_Ok in Hr as ([] & w1 & Hn & Hr). minv Hn. zbool.
  apply bind_Ok in Hr as (t & w1 & Ht & Hr). minv Ht. apply bind_Ok in Hr as ([] & w1 & Hset & Hr). minv Hset.
  destruct (ck_dispute _ Hok d x Hx) as (Hid & _ & tx & Htx & _). destruct (ck_tx _ Hok _ tx Htx) as [Hti _]. cbn in Htx.
  set (x' := {| x with bd_resolved := true; bd_resolution := Some r; bd_resolved_at := Some (timestamp e) |}) in *.
  pose proof (λ b, bs_resolve (ValidatorSet (store w)) (mkCore (bc_tx_counter c) (bc_dispute_counter c) (Tx (store w))
    (TxHash (store w)) (Dispute (store w))) d x x' b Hx Hn eq_refl eq_refl eq_refl) as Hstep.
  apply bind_Ok in Hr as ([] & w1 & Hcan & Hr). minv Hr. destruct (bool_decide (r = "cancel")).
  - apply bind_Ok in Hcan as (o & w2 & Ho & Hcan). unfold get_transaction in Ho. minv Ho. cbn in Hcan. rewrite Htx in Hcan.
    unfold set_transaction in Hcan. minv Hcan. eexists. split; [unfold core; cbn; rewrite Hc; reflexivity|].
    specialize (Hstep true). cbn in Hstep. rewrite <- (insert_alter _ _ _ tx Htx), <- Hti in Hstep. exact Hstep.
  - minv Hcan. eexists. split; [unfold core; cbn; rewrite Hc; reflexivity|]. exact (Hstep false).
Qed.

Lemma update_config_step a t m x f e w v w' : update_config a t m x f e w = Ok (v, w') → steps w w'.
Proof.
  intros Hr. unfold update_config in Hr. apply bind_Ok in Hr as (c & w1 & (_ & Hc & _ & ->)%admin_config_spec & Hr).
  cbv zeta in Hr. apply bind_Ok in Hr as (c' & w1 & Hf & Hr). unfold assert_that, set_config in *.
  assert (bc_tx_counter c' = bc_tx_counter c ∧ bc_dispute_counter c' = bc_dispute_counter c ∧ w1 = w) as (H1 & H2 & ->).
  { destruct t, m, x, f; minv Hf; done. }
  minv Hr. intros k (c0 & Hc0 & ->)%core_Some Hok. rewrite Hc in Hc0. injection Hc0 as <-. unfold core. cbn. rewrite H1, H2.
  eexists. split; [done|]. constructor.
Qed.

(** Every call is a step of the transfers. *)
Lemma bridge_refines c e w w' : exec c e w = Ok (tt, w') → steps w w'.
Proof.
  intros Hr. destruct (tx_bystander c) eqn:Hb.
  { intros k Hk _. exists k. rewrite (tx_bystander_core c Hb _ _ _ _ Hr). split; [done|constructor]. }
  destruct c; try discriminate Hb; cbn [exec] in Hr; try apply discard_Ok in Hr as [? Hr];
    eauto using initialize_step, update_config_step, complete_step, release_step, cancel_step, approve_step, lock_step,
      mint_step, dispute_step, resolve_step.
  - unfold transfer_admin in Hr. apply bind_Ok in Hr as (c & w1 & (_ & Hc & _ & ->)%admin_config_spec & Hr).
    unfold set_config in Hr. minv Hr.
    apply (config_step (λ c, {| c with bc_admin := new_admin |})); [done|]. by exists c.
  - unfold create_liquidity_pool in Hr. apply bind_Ok in Hr as (c & w1 & (_ & Hc & _ & ->)%admin_config_spec & Hr).
    unfold next_lp_id, get_config, set_config, set_liquidity_pool in Hr. minv Hr.
    intros k (c0 & Hc0 & ->)%core_Some Hok. rewrite Hc in Hc0. injection Hc0 as <-. unfold core. cbn.
    eexists. split; [done|]. constructor.
Qed.
End refinement.

(** ** The deployed bridge *)

Section never.
Context `{TokenHost} (self : Address).
Implicit Types (w : World State Event) (e : Env).

(** The views that answer without a configuration. *)
Definition answers (q : Query) : bool :=
  match q with QConfig | QFee _ _ | QTxCount => false | _ => true end.

Lemma deployed_refuses c e w r : store w = deployed → (∀ q, c ≠ CView q) → exec c e w ≠ Ok r.
Proof.
  intros Hst Hq Hr. destruct r as [[] w'].
  destruct c; try (by edestruct Hq); cbn [exec] in Hr; try apply discard_Ok in Hr as [? Hr];
    try (unfold update_config, transfer_admin, add_chain, remove_chain, register_validator_set, update_validator_threshold,
      add_validator, remove_validator, register_wrapped_asset, deactivate_wrapped_asset, set_fee_tier, complete_transaction,
      release_assets, create_liquidity_pool, pause_bridge, unpause_bridge, resolve_dispute in Hr;
      apply bind_Ok in Hr as (? & ? & Hg & _); apply admin_config_None in Hg; [done|by rewrite Hst]).
  all: destruct w as [st l lg]; cbn in Hst; subst st.
  all: unfold initialize, lock_assets, approve_transaction, mint_assets, cancel_transaction, add_liquidity, remove_liquidity,
    file_dispute, get_transaction, get_liquidity_pool, assert_that in Hr; minv Hr.
Qed.

Lemma deployed_query q e w : store w = deployed →
  if answers q then query q e w = Ok (tt, w) else query q e w = Panic "Bridge not initialized".
Proof. intros Hst. destruct w as [st l lg]. cbn in Hst. subst st. by destruct q. Qed.

Lemma bridge_deployed_calls c e w w' : store w = deployed →
  exec c e w = Ok (tt, w') ↔ w' = w ∧ ∃ q, c = CView q ∧ answers q = true.
Proof.
  intros Hst. assert ((∃ q, c = CView q) ∨ ∀ q, c ≠ CView q) as [[q ->]|Hq] by (destruct c; eauto).
  - pose proof (deployed_query q e w Hst) as Hrun. cbn [exec]. destruct (answers q) eqn:Ha; rewrite Hrun.
    + split; [intros [= <-]; eauto|]. by intros [-> _].
    + split; [done|]. intros (_ & q' & [= <-] & ?). congruence.
  - split; [by intros ?%deployed_refuses|]. intros (_ & q & -> & _). by edestruct Hq.
Qed.

(** C38: a deployed bridge stays as it was deployed for ever.  Its
    [initialize] reads the configuration before there is one and panics, and so, for
    want of a configuration, a transfer or a pool, does every other entry point that
    could change anything, and the views [get_config], [calculate_fee] and
    [get_tx_count]; the other views answer, and change nothing. *)
Theorem bridge_never_starts t0 l lg t w :
  rtc (step exec call_ok self) (t0, mkWorld deployed l lg) (t, w) →
  store w = deployed ∧
  ∀ c e w', exec c e w = Ok (tt, w') ↔ w' = w ∧ ∃ q, c = CView q ∧ answers q = true.
Proof.
  intros Hr. assert (store w = deployed) as Hst; [|split; [done|intros; by apply bridge_deployed_calls]].
  apply (reach_inv_world exec call_ok self (λ _ w, store w = deployed)) in Hr; [done| |done|done].
  intros t' c e w0 w0' _ _ _ Hw Hrun. by apply bridge_deployed_calls in Hrun as [-> _].
Qed.
End never.

(** ** Reachable worlds *)

Section reach.
Context `{TokenHost} (self : Address).
Implicit Types (w : World State Event) (e : Env).

(** A bridge whose storage is what [initialize_bridge] writes. *)
Definition configured (e : Env) (w1 : World State Event) : Prop :=
  ∃ l lg admin c, wf_env self e ∧ initialize_bridge admin e (mkWorld deployed l lg) = Ok (c, w1).

Definition reachable (t : Z) (w : World State Event) : Prop :=
  ∃ e0 w1, configured e0 w1 ∧ rtc (step exec call_ok self) (timestamp e0, w1) (t, w).

Lemma bridge_reachable_core t w : reachable t w → ∃ k, core (store w) = Some k ∧ core_ok k.
Proof.
  intros (e0 & w1 & Hs & Hr).
  apply (reach_inv_world exec call_ok self (λ _ w, ∃ k, core (store w) = Some k ∧ core_ok k)) in Hr; [done| |done|].
  - intros t' c e w0 w0' _ _ _ (k & Hk & Hok) Hrun. destruct (bridge_refines c e w0 w0' Hrun k Hk Hok) as (k' & Hk' & Hst).
    exists k'. split; [done|]. by eapply bstep_ok.
  - destruct Hs as (l & lg & admin & c & _ & Hi). unfold initialize_bridge in Hi. cbv zeta in Hi. minv Hi. cbn.
    eexists. split; [reflexivity|]. split; cbn; done.
Qed.

Lemma bstep_tx sets k k' i tx :
  bstep sets k k' → core_ok k → k_tx k !! i = Some tx → ∃ tx', k_tx k' !! i = Some tx' ∧ tx_moves sets tx tx'.
Proof.
  intros Hs Hk Hi. assert (∃ tx', k_tx k !! i = Some tx' ∧ tx_moves sets tx tx') as Hsame.
  { exists tx. split; [done|constructor]. }
  destruct Hs as [|Hz|ty h Hh Hid Hth Hst Ha|j ty ty' Hj Hm Hst|j ty d Hj Hst Hdi Hdt Hdr|d x x' b Hx Hr Hr' Hid Htx]; cbn;
    try exact Hsame.
  - rewrite lookup_insert_ne; [done|]. destruct (ck_tx _ Hk _ _ Hi) as (_ & ? & _). lia.
  - destruct (decide (j = i)) as [->|Hne]; [|by rewrite lookup_insert_ne].
    exists ty'. rewrite lookup_insert_eq. assert (tx = ty) as -> by congruence. done.
  - destruct (decide (j = i)) as [->|Hne]; [|by rewrite lookup_insert_ne].
    eexists. rewrite lookup_insert_eq. split; [done|]. assert (tx = ty) as -> by congruence. by apply tm_disputed.
  - destruct b; [|done]. destruct (decide (bd_tx_id x = i)) as [Heq|Hne]; [|by rewrite lookup_alter_ne].
    destruct (ck_dispute _ Hk _ _ Hx) as (_ & _ & ty & Hty & Hd). rewrite Heq in *.
    assert (tx = ty) as -> by congruence. eexists. rewrite lookup_alter_eq, Hi. split; [done|]. by apply tm_dropped, Hd.
Qed.

(** A successful call leaves a transfer as it is, counts the
    approval of a validator of one of its chains while it is pending, validating
    it when the threshold is reached, completes it once validated, cancels it while
    pending, marks it disputed before it is completed, or cancels it by the
    resolution of its dispute.  What was transferred, from whom and where, never
    changes, and a completed or cancelled transfer is final. *)
Theorem bridge_tx_lifecycle t w c e w' i tx :
  reachable t w → exec c e w = Ok (tt, w') → Tx (store w) !! i = Some tx →
  ∃ tx', Tx (store w') !! i = Some tx' ∧ tx_moves (ValidatorSet (store w)) tx tx' ∧ same_transfer tx tx' ∧
    (bt_status tx = Completed ∨ bt_status tx = Cancelled → tx' = tx).
Proof.
  intros (k & Hk & Hok)%bridge_reachable_core Hrun Hi. destruct (bridge_refines _ _ _ _ Hrun k Hk Hok) as (k' & Hk' & Hs).
  apply core_Some in Hk as (c1 & _ & ->). apply core_Some in Hk' as (c2 & _ & ->).
  destruct (bstep_tx _ _ _ i tx Hs Hok Hi) as (tx' & Hi' & Hm). exists tx'. split; [done|]. split; [done|].
  split; [by eapply tx_moves_same|]. intros Hf. destruct Hm; try done; destruct Hf; try congruence; naive_solver congruence.
Qed.

(** No two transfers have the same source transaction, and a
    source transaction that has a transfer is refused. *)
Theorem bridge_source_once t w i j tx tx' :
  reachable t w → Tx (store w) !! i = Some tx → Tx (store w) !! j = Some tx' →
  bt_source_tx_hash tx = bt_source_tx_hash tx' →
  i = j ∧ ∀ s ch k n x r e, is_ok (lock_assets s ch k n x (bt_source_tx_hash tx) e w) = false ∧
    is_ok (mint_assets s ch k n (bt_source_tx_hash tx) r e w) = false.
Proof.
  intros (k & Hk & Hok)%bridge_reachable_core Hi Hj Hh. apply core_Some in Hk as (c & _ & ->).
  destruct (ck_tx _ Hok _ _ Hi) as (_ & _ & H1). destruct (ck_tx _ Hok _ _ Hj) as (_ & _ & H2). cbn in H1, H2.
  split; [congruence|]. intros s ch k n x r e. split.
  - destruct (lock_assets _ _ _ _ _ _ _ _) as [[v w']| |] eqn:Hr; [|done..]. apply lock_fresh in Hr. congruence.
  - destruct (mint_assets _ _ _ _ _ _ _ _) as [[v w']| |] eqn:Hr; [|done..]. apply mint_fresh in Hr. congruence.
Qed.
End reach.

(** ** Fees *)

Section fees.
Context `{TokenHost}.

(** The tier that applies: the first active one that holds the amount, before the
    first index without a tier. *)
Inductive tier_search (m : gmap (SupportedChain * Z) BridgeFeeTier) (ch : SupportedChain) (n d : Z) : Z → Z → Prop :=
| ts_none i : m !! (ch, i) = None → tier_search m ch n d i d
| ts_found i t : m !! (ch, i) = Some t → ft_active t = true → ft_min_amount t ≤ n ≤ ft_max_amount t →
    tier_search m ch n d i (ft_fee_bps t)
| ts_next i t b : m !! (ch, i) = Some t → ¬ (ft_active t = true ∧ ft_min_amount t ≤ n ≤ ft_max_amount t) →
    tier_search m ch n d (i + 1) b → tier_search m ch n d i b.

(** The indexes from [i] on that hold a tier, [n] of them, are as many keys of the map. *)
Lemma run_size {V} (m : gmap (SupportedChain * Z) V) ch (n : nat) :
  (∀ j, 0 ≤ j < Z.of_nat n → is_Some (m !! (ch, j))) → (n ≤ size m)%nat.
Proof.
  intros Hm. assert (length ((λ j, (ch, Z.of_nat j)) <$> seq 0 n) = n) as Hl by by rewrite length_fmap, length_seq.
  rewrite <- Hl at 1. rewrite <- size_dom.
  rewrite <- (size_list_to_set (C := gset (SupportedChain * Z))).
  - apply subseteq_size. intros k. rewrite elem_of_list_to_set, elem_of_dom. intros (j & -> & Hj)%list_elem_of_fmap.
    apply elem_of_seq in Hj. apply Hm. lia.
  - apply NoDup_fmap_2_strong; [|apply NoDup_seq]. intros x y _ _ [= Hxy]. lia.
Qed.

(** The loop finds the tier, if it has enough fuel for the tiers still ahead. *)
Lemma fee_loop_spec fuel ch n d i e (w : World State Event) :
  0 ≤ i → (∀ j, 0 ≤ j < i → is_Some (FeeTier (store w) !! (ch, j))) →
  Z.of_nat (size (FeeTier (store w))) < i + Z.of_nat fuel → Z.of_nat (size (FeeTier (store w))) ≤ int_max U32 →
  ∃ b, fee_tier_loop fuel ch n d i e w = Ok (b, w) ∧ tier_search (FeeTier (store w)) ch n d i b.
Proof.
  revert i. induction fuel as [|fuel IH]; intros i Hi Hprev Hf Hmax.
  - exfalso. pose proof (run_size (FeeTier (store w)) ch (Z.to_nat i)) as Hs. 
    assert (Z.to_nat i ≤ size (FeeTier (store w)))%nat; [apply Hs; intros j Hj; apply Hprev; lia|lia].
  - cbn [fee_tier_loop]. unfold get_fee_tier, mbind at 1, M_bind at 1, gets.
    destruct (FeeTier (store w) !! (ch, i)) as [t|] eqn:Ht; [|exists d; split; [done|by constructor]].
    destruct (ft_active t && (n >=? ft_min_amount t) && (n <=? ft_max_amount t)) eqn:Hc.
    { exists (ft_fee_bps t). split; [done|]. zbool. by apply ts_found. }
    assert (∀ j, 0 ≤ j < i + 1 → is_Some (FeeTier (store w) !! (ch, j))) as Hprev'.
    { intros j Hj. destruct (decide (j = i)) as [->|]; [by rewrite Ht|apply Hprev; lia]. }
    assert (i + 1 ≤ Z.of_nat (size (FeeTier (store w)))).
    { pose proof (run_size (FeeTier (store w)) ch (Z.to_nat (i + 1))) as Hs.
      assert (Z.to_nat (i + 1) ≤ size (FeeTier (store w)))%nat; [apply Hs; intros j Hj; apply Hprev'; lia|lia]. }
    destruct (IH (i + 1)) as (b & Hb & Hts); [lia|done|lia|done|]. exists b. split.
    + apply bind_Ok. exists (i + 1), w. split; [|exact Hb]. unfold plain_add. apply expect_Ok. split; [|done].
      apply checked_Some. split; [done|]. change (int_min U32) with 0. lia.
    + eapply ts_next; [done| |done]. intros (Ha & Hb1 & Hb2). rewrite Ha in Hc. cbn in Hc.
      rewrite Z.geb_leb, (proj2 (Z.leb_le _ _) Hb1), (proj2 (Z.leb_le _ _) Hb2) in Hc. done.
Qed.

Definition fee_cfg (st : State) := (bc_default_fee_bps <$> Config st, FeeTier st).
Record fee_ok (st : State) : Prop := {
  fo_default : ∃ c, Config st = Some c ∧ 0 ≤ bc_default_fee_bps c ≤ MAX_FEE_BPS;
  fo_tier k t : FeeTier st !! k = Some t → 0 ≤ ft_fee_bps t ≤ MAX_FEE_BPS;
}.

Definition sets_fee (c : Call) : bool :=
  match c with CInitialize _ | CUpdateConfig _ _ _ _ _ | CSetFeeTier _ _ _ _ _ _ => true | _ => false end.

Lemma admin_config_pure a e (w : World State Event) c w' : admin_config a e w = Ok (c, w') → w' = w.
Proof. by intros (_ & _ & _ & ->)%admin_config_spec. Qed.

(** The counters are not fees. *)
Lemma next_ids_fees : keeps fee_cfg next_tx_id ∧ keeps fee_cfg next_lp_id ∧ keeps fee_cfg next_dispute_id.
Proof.
  split_and!; intros e w a w' Hr; unfold next_tx_id, next_lp_id, next_dispute_id, get_config, set_config in Hr; minv Hr;
    unfold fee_cfg; cbn; by match goal with Hc : Config _ = Some _ |- _ => rewrite Hc end.
Qed.

Lemma transfer_admin_fees a n : keeps fee_cfg (transfer_admin a n).
Proof.
  intros e w [] w' Hr. unfold transfer_admin in Hr.
  apply bind_Ok in Hr as (c & w1 & (_ & Hc & _ & ->)%admin_config_spec & Hr). unfold set_config in Hr. minv Hr.
  unfold fee_cfg. cbn. by rewrite Hc.
Qed.

Lemma bridge_fees_frame c : sets_fee c = false → keeps fee_cfg (exec c).
Proof.
  destruct next_ids_fees as (Htx & Hlp & Hdp).
  intros Hc. destruct c; try done; cbn [exec]; try apply transfer_admin_fees; unfold discard, add_chain, remove_chain,
    register_validator_set, update_validator_threshold, add_validator, remove_validator, register_wrapped_asset,
    deactivate_wrapped_asset, lock_assets, approve_transaction, complete_transaction, mint_assets, release_assets,
    cancel_transaction, create_liquidity_pool, add_liquidity, remove_liquidity, pause_bridge, unpause_bridge, file_dispute,
    resolve_dispute, require_not_paused, get_emergency, add_supported_chain, remove_supported_chain, is_chain_supported,
    is_duplicate_tx, get_transaction, set_transaction, store_transaction, get_validator_set, set_validator_set,
    get_validator_signature, get_wrapped_asset, set_wrapped_asset, get_dispute, set_dispute, get_liquidity_pool,
    set_liquidity_pool, set_lp_deposit, set_emergency, admin_config, get_config, assert_that; frame;
    try (apply keeps_reads, free_deposit_reads); try (apply keeps_reads, calculate_fee_reads); try (apply keeps_reads, query_reads).
Qed.

Lemma fee_ok_frame st st' : fee_cfg st' = fee_cfg st → fee_ok st → fee_ok st'.
Proof.
  unfold fee_cfg. intros [= H1 H2] [(c & Hc & Hd) Ht]. split; [|by rewrite H2]. rewrite Hc in H1. cbn in H1.
  apply fmap_Some in H1 as (c' & Hc' & Heq). exists c'. split; [done|]. by rewrite <- Heq.
Qed.

Lemma bridge_exec_fees c e (w w' : World State Event) :
  exec c e w = Ok (tt, w') → call_ok c → fee_ok (store w) → fee_ok (store w').
Proof.
  intros Hr Hok Hf. destruct (sets_fee c) eqn:Hc; [|by eapply fee_ok_frame; [by apply (bridge_fees_frame c Hc _ _ _ _ Hr)|]].
  destruct c; try discriminate Hc; cbn [exec call_ok] in Hr, Hok; try apply discard_Ok in Hr as [v Hr].
  - unfold initialize, initialize_bridge, get_config in Hr. cbv zeta in Hr. minv Hr. destruct Hf as [_ Ht].
    split; [|done]. eexists. split; [done|]. cbn. done.
  - unfold update_config in Hr. apply bind_Ok in Hr as (c & w1 & (_ & Hcc & _ & ->)%admin_config_spec & Hr). cbv zeta in Hr.
    apply bind_Ok in Hr as (c' & w1 & Hfee & Hr). unfold assert_that, set_config in *. destruct Hf as [(c0 & Hc0 & Hd) Ht].
    rewrite Hcc in Hc0. injection Hc0 as <-.
    assert (0 ≤ bc_default_fee_bps c' ≤ MAX_FEE_BPS ∧ w1 = w) as [Hb ->].
    { destruct timelock, min_amount, max_amount, fee; cbn in Hok; minv Hfee; zbool; split; done || (cbn; lia). }
    minv Hr. split; [|done]. by exists c'.
  - unfold set_fee_tier in Hr. apply bind_Ok in Hr as (c & w1 & ->%admin_config_pure & Hr).
    unfold assert_that, set_fee_tier_at in Hr. minv Hr. zbool. destruct Hf as [Hd Ht]. split; [done|]. cbn.
    intros k t [[<- <-]|[_ ?]]%lookup_insert_Some; [cbn; lia|eauto].
Qed.

Lemma tier_search_bounds st ch n d i b :
  fee_ok st → 0 ≤ d ≤ MAX_FEE_BPS → tier_search (FeeTier st) ch n d i b → 0 ≤ b ≤ MAX_FEE_BPS.
Proof. intros [_ Ht] Hd Hs. induction Hs; eauto. Qed.

Context (self : Address).

Lemma bridge_reachable_fees t (w : World State Event) : reachable self t w → fee_ok (store w).
Proof.
  intros (e0 & w1 & Hs & Hr).
  apply (reach_inv_world exec call_ok self (λ _ w, fee_ok (store w))) in Hr; [done| |done|].
  - intros t' c e w0 w0' _ _ Hok Hf Hrun. by eapply bridge_exec_fees.
  - destruct Hs as (l & lg & admin & c & _ & Hi). unfold initialize_bridge in Hi. cbv zeta in Hi. minv Hi. cbn.
    split; [|done]. eexists. split; [done|]. done.
Qed.

(** The search for a fee tier always ends, within one step per
    tier stored, and finds the first active tier that holds the amount, or the
    default rate; the fee is that share of the amount, rounded down, and at most a
    twentieth of it. *)
Theorem bridge_fee_exact t w ch n e :
  reachable self t w → 0 ≤ n → n * MAX_FEE_BPS ≤ int_max I128 →
  Z.of_nat (size (FeeTier (store w))) ≤ int_max U32 →
  ∃ c bps, Config (store w) = Some c ∧ tier_search (FeeTier (store w)) ch n (bc_default_fee_bps c) 0 bps ∧
    calculate_fee ch n e w = Ok ((n * bps) `div` 10000, w) ∧ 0 ≤ (n * bps) `div` 10000 ∧ 20 * ((n * bps) `div` 10000) ≤ n.
Proof.
  intros Hr Hn Hmax Hsize. pose proof (bridge_reachable_fees _ _ Hr) as Hf. destruct (fo_default _ Hf) as (c & Hc & Hd).
  destruct (fee_loop_spec (S (size (FeeTier (store w)))) ch n (bc_default_fee_bps c) 0 e w) as (b & Hb & Hts);
    [lia|lia|lia|done|].
  pose proof (tier_search_bounds _ _ _ _ _ _ Hf Hd Hts) as Hbb. unfold MAX_FEE_BPS in *.
  exists c, b. split; [done|]. split; [done|]. split.
  - unfold calculate_fee, get_config. apply bind_Ok. exists c, w. split; [apply bind_Ok; exists (Some c), w; split; [by apply gets_Ok|done]|].
    apply bind_Ok. exists (size (FeeTier (store w))), w. split; [by apply gets_Ok|]. apply bind_Ok. exists b, w. split; [done|].
    change (int_max I128) with (2 ^ 127 - 1) in *.
    apply bind_Ok. exists (n * b), w. split; [unfold plain_mul; apply expect_Ok; split; [apply checked_Some; split; [done|]|done]|].
    { change (int_max I128) with (2 ^ 127 - 1). change (int_min I128) with (- 2 ^ 127). nia. }
    apply plain_div_Ok. split; [done|]. split; [|done]. rewrite quot_div_nonneg by nia. apply checked_Some. split; [done|].
    change (int_max I128) with (2 ^ 127 - 1). change (int_min I128) with (- 2 ^ 127).
    pose proof (Z.mul_div_le (n * b) 10000). assert (0 ≤ (n * b) `div` 10000) by (apply Z.div_pos; nia). nia.
  - pose proof (Z.mul_div_le (n * b) 10000). split; [apply Z.div_pos; nia|]. nia.
Qed.
End fees.

(** ** Liquidity pools *)

(** A pool has liquidity exactly when it has shares. *)
Record pool_ok (p : LiquidityPool) : Prop := {
  po_nonneg : 0 ≤ lp_total_liquidity p ∧ 0 ≤ lp_lp_token_balance p;
  po_empty : lp_total_liquidity p = 0 ↔ lp_lp_token_balance p = 0;
}.

(** The liquidity behind a share does not fall. *)
Definition no_dilution (p p' : LiquidityPool) : Prop :=
  lp_total_liquidity p * lp_lp_token_balance p' ≤ lp_total_liquidity p' * lp_lp_token_balance p.

Section pools.
Context `{TokenHost} (self : Address).
Implicit Types (w : World State Event) (e : Env).

Lemma set_lp_deposit_pools d : keeps LiquidityPools (set_lp_deposit d).
Proof. unfold set_lp_deposit. frame. apply keeps_reads, free_deposit_reads. Qed.

Lemma add_liquidity_spec a i n e w v w' :
  add_liquidity a i n e w = Ok (v, w') → (∀ j q, LiquidityPools (store w) !! j = Some q → lp_pool_id q = j ∧ pool_ok q) →
  ∃ p p', LiquidityPools (store w) !! i = Some p ∧ LiquidityPools (store w') = <[i := p']> (LiquidityPools (store w)) ∧
    lp_pool_id p' = i ∧ pool_ok p' ∧ no_dilution p p' ∧ lp_total_liquidity p' = lp_total_liquidity p + n.
Proof.
  intros Hr Hall. unfold add_liquidity, get_liquidity_pool, assert_that in Hr.
  do 2 (let Hg := fresh "Hg" in apply bind_Ok in Hr as ([] & w1 & Hg & Hr); minv Hg).
  apply bind_Ok in Hr as (o & w1 & Ho & Hr). minv Ho. apply bind_Ok in Hr as (p & w1 & Hp & Hr). minv Hp.
  apply bind_Ok in Hr as ([] & w1 & Hact & Hr). minv Hact. zbool.
  destruct (Hall _ _ Hp) as [Hid [Hnn Hem]]. apply bind_Ok in Hr as (tk & w1 & Htk & Hr).
  assert (w1 = w ∧ 0 ≤ tk ∧ (lp_total_liquidity p = 0 ∧ tk = n ∨
    0 < lp_total_liquidity p ∧ tk = (n * lp_lp_token_balance p) `div` lp_total_liquidity p)) as (-> & Htk0 & Hcase).
  { destruct (_ =? 0) eqn:Hz; zbool; minv Htk; [split_and!; [done|lia|auto]|]. inv_checked.
    rewrite quot_div_nonneg by nia. split; [done|]. split; [apply Z.div_pos; nia|]. right. split; [lia|done]. }
  unfold set_liquidity_pool in Hr. apply bind_Ok in Hr as (li & w1 & Hli & Hr). minv Hli.
  apply bind_Ok in Hr as (ba & w1 & Hba & Hr). minv Hba. inv_checked. apply bind_Ok in Hr as ([] & w1 & Hset & Hr). minv Hset.
  apply bind_Ok in Hr as (t & w1 & Ht & Hr). minv Ht. apply bind_Ok in Hr as ([] & w1 & Hdep%set_lp_deposit_pools & Hr). minv Hr.
  exists p. eexists. split; [done|]. cbn. rewrite Hdep. cbn. split; [done|]. split; [done|]. unfold no_dilution. cbn.
  destruct Hcase as [[Hz ->]|[Hpos ->]].
  - split; [split; cbn; lia|]. split; [|done]. rewrite Hz. rewrite (proj1 Hem Hz). lia.
  - pose proof (Z.mul_div_le (n * lp_lp_token_balance p) (lp_total_liquidity p) Hpos).
    split; [|split; [|done]]; [split; cbn; lia|nia].
Qed.

Lemma remove_liquidity_spec a i n e w v w' :
  remove_liquidity a i n e w = Ok (v, w') → (∀ j q, LiquidityPools (store w) !! j = Some q → lp_pool_id q = j ∧ pool_ok q) →
  ∃ p p', LiquidityPools (store w) !! i = Some p ∧ LiquidityPools (store w') = <[i := p']> (LiquidityPools (store w)) ∧
    lp_pool_id p' = i ∧ pool_ok p' ∧ no_dilution p p' ∧ lp_total_liquidity p' = lp_total_liquidity p - v.
Proof.
  intros Hr Hall. unfold remove_liquidity, get_liquidity_pool, assert_that, set_liquidity_pool in Hr. minv Hr. inv_checked. zbool.
  match goal with Hp : LiquidityPools (store w) !! i = Some ?q |- _ => rename q into p; rename Hp into Hpool end.
  destruct (Hall _ _ Hpool) as [Hid [Hnn Hem]]. clear Hall.
  set (B := lp_lp_token_balance p) in *. set (L := lp_total_liquidity p) in *.
  assert (0 < L) by (destruct (decide (L = 0)) as [Hz|]; [apply Hem in Hz; lia|lia]).
  rewrite quot_div_nonneg in * by nia. set (x := (n * L) `div` B) in *.
  assert (B * x ≤ n * L) by (apply Z.mul_div_le; lia). assert (0 ≤ x) by (apply Z.div_pos; nia).
  assert (n = B → x = L) by (unfold x; intros ->; rewrite Z.mul_comm; apply Z.div_mul; lia).
  assert (n < B → x < L) by nia.
  exists p. eexists. split; [done|]. cbn. rewrite Hid. split; [done|]. split; [done|]. unfold no_dilution. cbn. fold B L.
  split; [split; cbn; lia|]. split; [nia|done].
Qed.

(** The calls that do not write pools. *)
Definition writes_pools (c : Call) : bool :=
  match c with CCreatePool _ _ _ | CAddLiquidity _ _ _ | CRemoveLiquidity _ _ _ => true | _ => false end.

Lemma pools_frame c : writes_pools c = false → keeps LiquidityPools (exec c).
Proof.
  intros Hc. destruct c; try done; cbn [exec]; unfold discard, initialize, initialize_bridge, update_config, transfer_admin,
    add_chain, remove_chain, register_validator_set, update_validator_threshold, add_validator, remove_validator,
    register_wrapped_asset, deactivate_wrapped_asset, set_fee_tier, lock_assets, approve_transaction, complete_transaction,
    mint_assets, release_assets, cancel_transaction, pause_bridge, unpause_bridge, file_dispute, resolve_dispute,
    require_not_paused, get_emergency, add_supported_chain, remove_supported_chain, is_chain_supported, set_fee_tier_at,
    is_duplicate_tx, get_transaction, set_transaction, store_transaction, get_validator_set, set_validator_set,
    get_validator_signature, get_wrapped_asset, set_wrapped_asset, get_dispute, set_dispute, set_emergency, next_tx_id,
    next_dispute_id, set_config, admin_config, get_config, assert_that; frame;
    try (apply keeps_reads, calculate_fee_reads); try (apply keeps_reads, query_reads).
Qed.

Definition pools_ok (st : State) : Prop := ∀ j q, LiquidityPools st !! j = Some q → lp_pool_id q = j ∧ pool_ok q.

Lemma bridge_exec_pools c e w w' : exec c e w = Ok (tt, w') → pools_ok (store w) → pools_ok (store w').
Proof.
  intros Hr Hp. destruct (writes_pools c) eqn:Hc.
  2: { unfold pools_ok. by rewrite (pools_frame c Hc _ _ _ _ Hr). }
  assert (∀ i p' m, lp_pool_id p' = i → pool_ok p' → (∀ j q, m !! j = Some q → lp_pool_id q = j ∧ pool_ok q) →
    ∀ j q, (<[i := p']> m : gmap Z LiquidityPool) !! j = Some q → lp_pool_id q = j ∧ pool_ok q) as Hins.
  { intros i p' m Hi Hok Hm j q [[<- <-]|[_ Hj]]%lookup_insert_Some; [done|by apply Hm]. }
  destruct c; try discriminate Hc; cbn [exec] in Hr; apply discard_Ok in Hr as [v Hr].
  - unfold create_liquidity_pool in Hr. apply bind_Ok in Hr as (c & w1 & ->%admin_config_pure & Hr).
    unfold next_lp_id, get_config, set_config, set_liquidity_pool in Hr. minv Hr. unfold pools_ok. cbn.
    by apply Hins; [|split|].
  - destruct (add_liquidity_spec _ _ _ _ _ _ _ Hr Hp) as (p & p' & _ & Hst & Hi & Hok & _). unfold pools_ok. rewrite Hst. by apply Hins.
  - destruct (remove_liquidity_spec _ _ _ _ _ _ _ Hr Hp) as (p & p' & _ & Hst & Hi & Hok & _). unfold pools_ok. rewrite Hst. by apply Hins.
Qed.

Lemma bridge_reachable_pools t w : reachable self t w → pools_ok (store w).
Proof.
  intros (e0 & w1 & Hs & Hr).
  apply (reach_inv_world exec call_ok self (λ _ w, pools_ok (store w))) in Hr; [done| |done|].
  - intros t' c e w0 w0' _ _ _ Hp Hrun. by eapply bridge_exec_pools.
  - destruct Hs as (l & lg & admin & c & _ & Hi). unfold initialize_bridge in Hi. cbv zeta in Hi. by minv Hi.
Qed.

(** Adding liquidity to a pool or removing it never lowers the
    liquidity behind the shares that others hold, and moves the liquidity by the
    amount added or paid out; a pool has liquidity exactly when it has shares. *)
Theorem bridge_pool_fair t w a i n e v w' p :
  reachable self t w → LiquidityPools (store w) !! i = Some p →
  add_liquidity a i n e w = Ok (v, w') ∨ remove_liquidity a i n e w = Ok (v, w') →
  ∃ p', LiquidityPools (store w') !! i = Some p' ∧ pool_ok p' ∧ no_dilution p p' ∧
    (lp_total_liquidity p' = lp_total_liquidity p + n ∨ lp_total_liquidity p' = lp_total_liquidity p - v).
Proof.
  intros Hall%bridge_reachable_pools Hp [Hr|Hr].
  - destruct (add_liquidity_spec _ _ _ _ _ _ _ Hr Hall) as (q & p' & Hq & Hst & _ & Hok & Hd & Hl).
    assert (p = q) as -> by congruence. exists p'. rewrite Hst, lookup_insert_eq. auto.
  - destruct (remove_liquidity_spec _ _ _ _ _ _ _ Hr Hall) as (q & p' & Hq & Hst & _ & Hok & Hd & Hl).
    assert (p = q) as -> by congruence. exists p'. rewrite Hst, lookup_insert_eq. auto.
Qed.
End pools.

(** ** A concrete history *)

Module BridgeDemo.

Definition self := mkAddress "bridge".
Definition admin := mkAddress "admin".
Definition alice := mkAddress "alice".
Definition v1 := mkAddress "v1".
Definition v2 := mkAddress "v2".
Definition v3 := mkAddress "v3".

Definition e0 := env_at 10 self [admin].
Definition w0 : World State Event := mkWorld deployed (sl_of []) [].
Definition w1 : World State Event := world_of (initialize_bridge admin e0 w0) w0.

(** Two views of the deployed bridge; nothing else would be a step. *)
Definition looked : list (Z * list Address * Call) :=
  [(5, [], CView QEmergency); (7, [], CView (QDuplicate "h1"))].
Definition w_looked := run_script exec self looked w0.

Lemma looked_reach : rtc (step exec call_ok self) (0, w0) (7, w_looked).
Proof.
  assert (script_ok exec self 0 looked w0 = true) as Hs by (vm_compute; reflexivity).
  assert (Forall (λ c, call_ok c.2) looked) as Hf by (repeat constructor).
  exact (run_script_reach exec call_ok self 0 looked w0 Hs Hf).
Qed.

Lemma bridge_never_starts_witness :
  store w_looked = deployed ∧ ∀ w', exec (CInitialize admin) e0 w_looked ≠ Ok (tt, w').
Proof.
  destruct (bridge_never_starts self 0 (ledger w0) [] 7 w_looked looked_reach) as [Hst Hc]. split; [exact Hst|].
  intros w' Hr. destruct (proj1 (Hc _ _ _) Hr) as (_ & q & Hq & _). discriminate Hq.
Defined.

Definition setup : list (Z * list Address * Call) :=
  [(20, [admin], CAddChain admin Solana); (30, [admin], CRegisterValidators admin Solana [v1; v2; v3] 2);
   (40, [admin], CRegisterAsset admin "XLM" alice Solana); (50, [admin], CSetFeeTier admin Solana 0 0 5000000 100);
   (60, [alice], CLock alice Solana "XLM" 4000000 "dest" "h1"); (70, [v1], CApprove v1 1 Solana "sig");
   (80, [admin], CCreatePool admin "XLM" Solana); (90, [alice], CAddLiquidity alice 1 1000)].
Definition w2 := run_script exec self setup w1.

Lemma bridge_setup_reach : reachable self 90 w2.
Proof.
  exists e0, w1. split.
  - exists (sl_of []), [], admin, (value_of (initialize_bridge admin e0 w0) (mkConfig admin false 0 0 0 0 0 0 0)).
    split; [by apply env_at_wf|]. unfold w1. apply run_ok. vm_compute. reflexivity.
  - assert (script_ok exec self 10 setup w1 = true) as Hs by (vm_compute; reflexivity).
    assert (Forall (λ c, call_ok c.2) setup) as Hf by (repeat constructor; cbn; lia).
    exact (run_script_reach exec call_ok self 10 setup w1 Hs Hf).
Qed.

(** The second approval comes from the same validator, and is counted. *)
Definition again := CApprove v1 1 Solana "sig".
Definition e_again := env_at 100 self [v1].
Definition w3 := world_of (exec again e_again w2) w2.
Lemma again_run : exec again e_again w2 = Ok (tt, w3).
Proof. unfold w3. apply run_ok_unit. vm_compute. reflexivity. Qed.

Lemma bridge_tx_lifecycle_witness :
  bt_status <$> Tx (store w2) !! 1 = Some Pending ∧ ∃ tx', Tx (store w3) !! 1 = Some tx' ∧ bt_status tx' = Validated.
Proof.
  assert (bt_status <$> Tx (store w2) !! 1 = Some Pending) as Ho by (vm_compute; reflexivity).
  split; [exact Ho|]. apply fmap_Some in Ho as (tx & Htx & _).
  destruct (bridge_tx_lifecycle self 90 w2 again e_again w3 1 tx bridge_setup_reach again_run Htx) as (tx' & Htx' & _).
  exists tx'. split; [exact Htx'|].
  assert (bt_status <$> Tx (store w3) !! 1 = Some Validated) as Hs by (vm_compute; reflexivity).
  rewrite Htx' in Hs. clear -Hs. cbn in Hs. congruence.
Defined.

Lemma bridge_source_once_witness :
  is_ok (lock_assets alice Solana "XLM" 2000000 "dest" "h1" (env_at 100 self [alice]) w2) = false.
Proof.
  assert (bt_source_tx_hash <$> Tx (store w2) !! 1 = Some "h1") as Hs by (vm_compute; reflexivity).
  apply fmap_Some in Hs as (tx & Htx & Hh).
  destruct (bridge_source_once self 90 w2 1 1 tx tx bridge_setup_reach Htx Htx eq_refl) as [_ Hno].
  destruct (Hno alice Solana "XLM" 2000000 "dest" "root" (env_at 100 self [alice])) as [Hl _]. rewrite <- Hh in Hl. exact Hl.
Defined.

Lemma bridge_fee_exact_witness :
  calculate_fee Solana 4000000 e_again w2 = Ok (40000, w2) ∧ 20 * 40000 ≤ 4000000.
Proof.
  destruct (bridge_fee_exact self 90 w2 Solana 4000000 e_again bridge_setup_reach) as (c & bps & _ & _ & Hf & _ & Hle).
  - lia.
  - vm_compute. discriminate.
  - vm_compute. discriminate.
  - assert (value_of (calculate_fee Solana 4000000 e_again w2) 0 = 40000) as Hv by (vm_compute; reflexivity).
    rewrite Hf in Hv. cbn in Hv. rewrite Hv in Hf, Hle. split; [exact Hf|exact Hle].
Defined.

Definition w4 := world_of (remove_liquidity v1 1 400 e_again w2) w2.
Lemma bridge_pool_fair_witness :
  ∃ p', LiquidityPools (store w4) !! 1 = Some p' ∧ pool_ok p'.
Proof.
  assert (lp_total_liquidity <$> LiquidityPools (store w2) !! 1 = Some 1000) as Hs by (vm_compute; reflexivity).
  apply fmap_Some in Hs as (p & Hp & _).
  assert (remove_liquidity v1 1 400 e_again w2 = Ok (400, w4)) as Hr.
  { unfold w4. apply (run_ok_val _ _ 0); vm_compute; reflexivity. }
  destruct (bridge_pool_fair self 90 w2 v1 1 400 e_again 400 w4 p bridge_setup_reach Hp (or_intror Hr)) as (p' & Hp' & Hok & _).
  exists p'. split; [exact Hp'|exact Hok].
Defined.

(** One validator alone reaches the threshold of two. *)
Example one_validator_validates :
  (λ tx, (bt_status tx, bt_validator_approvals tx)) <$> Tx (store w3) !! 1 = Some (Validated, 2).
Proof. vm_compute. reflexivity. Qed.

(** Shares are not tied to their owner: [v1], who added nothing, withdraws. *)
Example stranger_withdraws : value_of (remove_liquidity v1 1 400 e_again w2) 0 = 400.
Proof. vm_compute. reflexivity. Qed.

(** Before the first transfer anyone becomes the administrator. *)
Example anyone_reinitializes :
  bc_admin <$> Config (store (world_of (exec (CInitialize alice) (env_at 20 self [alice]) w1) w1)) = Some alice.
Proof. vm_compute. reflexivity. Qed.
End BridgeDemo.
