(* ===== verification/CrossBridge.v ===== *)
(** * contracts/cross-chain-bridge

    src/contracts/cross-chain-bridge/src (contract.rs, types.rs, errors.rs,
    storage_keys.rs): a bridge that locks or burns tokens for another chain, under
    volume limits and a fee, and pays transfers out against validator signatures. *)

From stdpp Require Import gmap strings list fin_maps.
From S2P Require Import Prelude Soroban.
Open Scope Z_scope.

(** ** Bytes *)

(** [Bytes]: each element is a byte, [0 .. 255]. *)
Definition Bytes : Type := list Z.

(** [to_be_bytes] of an integer of [n] bytes, two's complement if negative. *)
Fixpoint to_be_bytes (n : nat) (z : Z) : Bytes :=
  match n with
  | O => []
  | S n => (z `div` 256 ^ Z.of_nat n) `mod` 256 :: to_be_bytes n z
  end.

(** [try_into] a [BytesN<n>]: succeeds at that length only. *)
Definition has_length (n : Z) (b : Bytes) : option Bytes :=
  if Z.of_nat (length b) =? n then Some b else None.

(** ** types.rs *)

Inductive ChainID := Stellar | Ethereum | BSC | Polygon | Arbitrum | Optimism.
#[global] Instance ChainID_eq_dec : EqDecision ChainID.
Proof. solve_decision. Defined.
Definition chain_as_u32 (c : ChainID) : Z :=
  match c with Stellar => 1 | Ethereum => 2 | BSC => 3 | Polygon => 4 | Arbitrum => 5 | Optimism => 6 end.
#[global] Instance ChainID_countable : Countable ChainID.
Proof.
  refine (inj_countable' chain_as_u32
    (λ n, match n with 1 => Stellar | 2 => Ethereum | 3 => BSC | 4 => Polygon | 5 => Arbitrum | _ => Optimism end) _).
  by intros [].
Defined.

Inductive TransactionStatus := Pending | Locked | Minted | Burned | Unlocked | Failed | Reverted.
#[global] Instance TransactionStatus_eq_dec : EqDecision TransactionStatus.
Proof. solve_decision. Defined.

Inductive TransferDirection := LockAndMint | BurnAndUnlock.
#[global] Instance TransferDirection_eq_dec : EqDecision TransferDirection.
Proof. solve_decision. Defined.

Record BridgeTransfer := mkTransfer {
  tr_transfer_id : Z;
  tr_source_chain : ChainID;
  tr_destination_chain : ChainID;
  tr_sender : Address;
  tr_recipient : Bytes;
  tr_token_address : Address;
  tr_amount : Z;
  tr_fee : Z;
  tr_nonce : Z;
  tr_timestamp : Z;
  tr_status : TransactionStatus;
  tr_direction : TransferDirection;
  tr_signatures : list Bytes;
}.

Record Validator := mkValidator {
  vl_address : Address;
  vl_public_key : Bytes;
  vl_is_active : bool;
  vl_power : Z;
  vl_joined_at : Z;
}.

Record RateLimitConfig := mkRateConfig {
  rc_daily_limit : Z;
  rc_monthly_limit : Z;
  rc_per_transaction_max : Z;
  rc_per_transaction_min : Z;
}.

Record RateLimitState := mkRateState {
  rs_daily_used : Z;
  rs_monthly_used : Z;
  rs_last_daily_reset : Z;
  rs_last_monthly_reset : Z;
  rs_per_user_daily : gmap Address Z;
}.

Record SupportedToken := mkToken {
  tk_token_address : Address;
  tk_symbol : string;
  tk_decimals : Z;
  tk_is_mintable : bool;
  tk_is_locked : bool;
  tk_bridge_address_on_other_chains : gmap ChainID Bytes;
}.

Record FeeConfig := mkFeeConfig {
  fc_basis_points : Z;
  fc_min_fee : Z;
  fc_fee_collector : Address;
}.

Record SignatureConfig := mkSigConfig {
  sc_required_signatures : Z;
  sc_total_validators : Z;
  sc_quorum_percentage : Z;
}.

(** ** errors.rs *)

Inductive BridgeError :=
| Unauthorized | AlreadyInitialized | NotInitialized | InvalidArgument | BridgePaused
| TokenNotSupported | InsufficientBalance | TokenTransferFailed | MintFailed | BurnFailed | LockFailed | UnlockFailed
| TransferNotFound | InvalidTransferStatus | TransferAlreadyProcessed | InvalidChainPair | InvalidAmount
| NonceAlreadyUsed | InvalidNonce
| RateLimitExceeded | DailyLimitExceeded | MonthlyLimitExceeded | PerTransactionLimitExceeded | TransactionBelowMinimum
| ValidatorNotFound | ValidatorAlreadyExists | ValidatorAlreadyRemoved | InsufficientValidators | DuplicateSignature
| InvalidSignature | InsufficientSignatures | SignerNotValidator
| AlreadyPaused | AlreadyUnpaused | FeeCollectionFailed | InvalidFeeConfiguration.

(** ** storage_keys.rs: one field per key or key family *)

Record State := mkState {
  ADMIN_KEY : option Address;
  PAUSED_KEY : option bool;
  INITIALIZED_KEY : option bool;
  CHAIN_ID_KEY : option ChainID;
  TRANSFER_COUNTER_KEY : option Z;
  VALIDATOR_COUNT_KEY : option Z;
  VALIDATOR_LIST_KEY : option (list Address);
  validator_key : gmap Address Validator;
  SIGNATURE_CONFIG_KEY : option SignatureConfig;
  TOKEN_COUNT_KEY : option Z;
  token_key : gmap Address SupportedToken;
  transfer_key : gmap Z BridgeTransfer;
  nonce_key : gmap (Address * Z) bool;
  RATE_LIMIT_CONFIG_KEY : option RateLimitConfig;
  RATE_LIMIT_STATE_KEY : option RateLimitState;
  FEE_CONFIG_KEY : option FeeConfig;
  TOTAL_FEES_KEY : option Z;
}.

Definition deployed : State :=
  mkState None None None None None None None ∅ None None ∅ ∅ ∅ None None None None.

Inductive Event :=
| validator_removed (validator : Address)
| transfer_initiated (transfer_id : Z) (source dest : ChainID) (token : Address) (amount fee : Z)
| transfer_completed (transfer_id : Z) (recipient : Address) (amount : Z) (status : TransactionStatus)
| bridge_paused
| bridge_unpaused.

Ltac mred v ::= eval cbn [store ledger log ADMIN_KEY PAUSED_KEY INITIALIZED_KEY CHAIN_ID_KEY TRANSFER_COUNTER_KEY
  VALIDATOR_COUNT_KEY VALIDATOR_LIST_KEY validator_key SIGNATURE_CONFIG_KEY TOKEN_COUNT_KEY token_key transfer_key
  nonce_key RATE_LIMIT_CONFIG_KEY RATE_LIMIT_STATE_KEY FEE_CONFIG_KEY TOTAL_FEES_KEY tr_transfer_id tr_source_chain
  tr_destination_chain tr_sender tr_recipient tr_token_address tr_amount tr_fee tr_nonce tr_timestamp tr_status
  tr_direction tr_signatures vl_address vl_public_key vl_is_active vl_power vl_joined_at rc_daily_limit rc_monthly_limit
  rc_per_transaction_max rc_per_transaction_min rs_daily_used rs_monthly_used rs_last_daily_reset rs_last_monthly_reset
  rs_per_user_daily tk_token_address tk_symbol tk_decimals tk_is_mintable tk_is_locked tk_bridge_address_on_other_chains
  fc_basis_points fc_min_fee fc_fee_collector sc_required_signatures sc_total_validators sc_quorum_percentage
  fst snd] in v.

(** ** What the contract calls

    Minting and burning are functions of the token contract (token.rs declares
    them); signature verification and the decoding of an address are the host's. *)
Class BridgeHost `{TokenHost} := {
  (* environment, ledger, token, to, amount *)
  tok_mint : Env → Ledger → Address → Address → Z → option Ledger;
  (* environment, ledger, token, from, amount *)
  tok_burn : Env → Ledger → Address → Address → Z → option Ledger;
  (* public key, message, signature; the host traps when it does not hold *)
  ed25519_valid : Bytes → Bytes → Bytes → bool;
  from_string_bytes : Bytes → option Address;
}.

Section contract.
Context `{BridgeHost}.

Local Abbreviation C := (M State BridgeError Event).

Definition token_mint (tk to : Address) (amount : Z) : C () :=
  invoke (λ e l, l' ← tok_mint e l tk to amount; Some (tt, l')).
Definition token_burn (tk from : Address) (amount : Z) : C () :=
  invoke (λ e l, l' ← tok_burn e l tk from amount; Some (tt, l')).
Definition ed25519_verify (public_key message signature : Bytes) : C () :=
  panic_if (negb (ed25519_valid public_key message signature)) "ed25519 verification failed".

(** ** Set-up *)

Definition initialize (admin : Address) (chain_id : ChainID) (signature_config : SignatureConfig)
    (fee_config : FeeConfig) (rate_limit_config : RateLimitConfig) : C () :=
  i ← gets INITIALIZED_KEY;
  throw_if (bool_decide (is_Some i)) AlreadyInitialized;;
  throw_if ((sc_quorum_percentage signature_config <? 51) || (sc_quorum_percentage signature_config >? 100))
    InvalidArgument;;
  throw_if (fc_basis_points fee_config >? 1000) InvalidFeeConfiguration;;
  modify (λ s, {| s with ADMIN_KEY := Some admin |});;
  modify (λ s, {| s with CHAIN_ID_KEY := Some chain_id |});;
  modify (λ s, {| s with SIGNATURE_CONFIG_KEY := Some signature_config |});;
  modify (λ s, {| s with FEE_CONFIG_KEY := Some fee_config |});;
  modify (λ s, {| s with RATE_LIMIT_CONFIG_KEY := Some rate_limit_config |});;
  current_time ← now;
  modify (λ s, {| s with RATE_LIMIT_STATE_KEY := Some (mkRateState 0 0 current_time current_time ∅) |});;
  modify (λ s, {| s with TRANSFER_COUNTER_KEY := Some 0 |});;
  modify (λ s, {| s with VALIDATOR_COUNT_KEY := Some 0 |});;
  modify (λ s, {| s with VALIDATOR_LIST_KEY := Some [] |});;
  modify (λ s, {| s with TOKEN_COUNT_KEY := Some 0 |});;
  modify (λ s, {| s with TOTAL_FEES_KEY := Some 0 |});;
  modify (λ s, {| s with INITIALIZED_KEY := Some true |});;
  modify (λ s, {| s with PAUSED_KEY := Some false |}).

Definition ensure_not_paused : C () :=
  paused ← gets (λ s, default false (PAUSED_KEY s));
  throw_if paused BridgePaused.

(** The administrator is read and must have signed: how every guarded function begins. *)
Definition require_admin : C () :=
  o ← gets ADMIN_KEY;
  admin ← ok_or o Unauthorized;
  require_auth admin.

(** [((total as u64 * quorum as u64) / 100) as u32], at least one. *)
Definition required_for (total quorum : Z) : C Z :=
  p ← plain_mul U64 total quorum;
  q ← plain_div U64 p 100;
  mret (Z.max (q `mod` 2 ^ 32) 1).

Definition add_validator (validator_address : Address) (public_key : Bytes) (power : Z) : C () :=
  require_admin;;
  ensure_not_paused;;
  o ← gets (λ s, validator_key s !! validator_address);
  throw_if (bool_decide (is_Some o)) ValidatorAlreadyExists;;
  t ← now;
  modify (λ s, {| s with validator_key :=
    <[validator_address := mkValidator validator_address public_key true power t]> (validator_key s) |});;
  validators ← gets (λ s, default [] (VALIDATOR_LIST_KEY s));
  modify (λ s, {| s with VALIDATOR_LIST_KEY := Some (validators ++ [validator_address]) |});;
  count ← gets (λ s, default 0 (VALIDATOR_COUNT_KEY s));
  count ← plain_add U32 count 1;
  modify (λ s, {| s with VALIDATOR_COUNT_KEY := Some count |});;
  o ← gets SIGNATURE_CONFIG_KEY;
  sig_config ← ok_or o InvalidArgument;
  required ← required_for count (sc_quorum_percentage sig_config);
  modify (λ s, {| s with SIGNATURE_CONFIG_KEY :=
    Some {| sig_config with sc_total_validators := count; sc_required_signatures := required |} |}).

Definition remove_validator (validator_address : Address) : C () :=
  require_admin;;
  ensure_not_paused;;
  o ← gets (λ s, validator_key s !! validator_address);
  validator ← ok_or o ValidatorNotFound;
  throw_if (negb (vl_is_active validator)) ValidatorAlreadyRemoved;;
  modify (λ s, {| s with validator_key :=
    <[validator_address := {| validator with vl_is_active := false |}]> (validator_key s) |});;
  o ← gets SIGNATURE_CONFIG_KEY;
  sig_config ← ok_or o InvalidArgument;
  let total := saturating_sub U32 (sc_total_validators sig_config) 1 in
  required ← required_for total (sc_quorum_percentage sig_config);
  modify (λ s, {| s with SIGNATURE_CONFIG_KEY :=
    Some {| sig_config with sc_total_validators := total; sc_required_signatures := required |} |});;
  publish (validator_removed validator_address).

Definition add_supported_token (token_address : Address) (symbol : string) (decimals : Z) (is_mintable is_locked : bool)
    (bridge_addresses : gmap ChainID Bytes) : C () :=
  require_admin;;
  ensure_not_paused;;
  o ← gets (λ s, token_key s !! token_address);
  throw_if (bool_decide (is_Some o)) InvalidArgument;;
  modify (λ s, {| s with token_key :=
    <[token_address := mkToken token_address symbol decimals is_mintable is_locked bridge_addresses]> (token_key s) |});;
  count ← gets (λ s, default 0 (TOKEN_COUNT_KEY s));
  count ← plain_add U32 count 1;
  modify (λ s, {| s with TOKEN_COUNT_KEY := Some count |}).

(** ** Limits *)

(** The counters that are due are reset: daily ones after 24 hours, monthly ones
    after 30 days. *)
Definition reset_limits (rate_state : RateLimitState) : C RateLimitState :=
  current_time ← now;
  day ← plain_sub U64 current_time (rs_last_daily_reset rate_state);
  let rate_state :=
    if day >? 86400
    then {| rate_state with rs_daily_used := 0; rs_last_daily_reset := current_time; rs_per_user_daily := ∅ |}
    else rate_state in
  month ← plain_sub U64 current_time (rs_last_monthly_reset rate_state);
  mret (if month >? 2592000
    then {| rate_state with rs_monthly_used := 0; rs_last_monthly_reset := current_time |}
    else rate_state).

Definition check_rate_limits (user : Address) (amount : Z) : C () :=
  o ← gets RATE_LIMIT_CONFIG_KEY;
  rate_config ← ok_or o InvalidArgument;
  o ← gets RATE_LIMIT_STATE_KEY;
  rate_state ← ok_or o InvalidArgument;
  rate_state ← reset_limits rate_state;
  throw_if (amount >? rc_per_transaction_max rate_config) PerTransactionLimitExceeded;;
  throw_if (amount <? rc_per_transaction_min rate_config) TransactionBelowMinimum;;
  daily ← plain_add I128 (rs_daily_used rate_state) amount;
  throw_if (daily >? rc_daily_limit rate_config) DailyLimitExceeded;;
  monthly ← plain_add I128 (rs_monthly_used rate_state) amount;
  throw_if (monthly >? rc_monthly_limit rate_config) MonthlyLimitExceeded;;
  user_used ← plain_add I128 (default 0 (rs_per_user_daily rate_state !! user)) amount;
  modify (λ s, {| s with RATE_LIMIT_STATE_KEY := Some {| rate_state with
    rs_per_user_daily := <[user := user_used]> (rs_per_user_daily rate_state);
    rs_daily_used := daily; rs_monthly_used := monthly |} |}).

(** ** Transfers *)

(** The tokens leave the sender: into the contract, or out of existence. *)
Definition take_tokens (token : SupportedToken) (token_address sender : Address) (total_amount : Z) : C () :=
  if tk_is_locked token then
    self ← self_address;
    token_transfer token_address sender self total_amount
  else if tk_is_mintable token then token_burn token_address sender total_amount
  else throw InvalidArgument.

Definition initiate_transfer (destination_chain : ChainID) (recipient : Bytes) (token_address : Address)
    (amount nonce : Z) (sender : Address) : C Z :=
  ensure_not_paused;;
  require_auth sender;;
  throw_if (nonce =? 0) InvalidNonce;;
  o ← gets (λ s, nonce_key s !! (sender, nonce));
  throw_if (bool_decide (is_Some o)) NonceAlreadyUsed;;
  o ← gets (λ s, token_key s !! token_address);
  token ← ok_or o TokenNotSupported;
  o ← gets CHAIN_ID_KEY;
  source_chain ← ok_or o InvalidArgument;
  throw_if (bool_decide (source_chain = destination_chain)) InvalidChainPair;;
  throw_if (amount <=? 0) InvalidAmount;;
  check_rate_limits sender amount;;
  o ← gets FEE_CONFIG_KEY;
  fee_config ← ok_or o InvalidFeeConfiguration;
  p ← plain_mul I128 amount (fc_basis_points fee_config);
  q ← plain_div I128 p 10000;
  let fee := Z.max q (fc_min_fee fee_config) in
  total_amount ← plain_add I128 amount fee;
  take_tokens token token_address sender total_amount;;
  modify (λ s, {| s with nonce_key := <[(sender, nonce) := true]> (nonce_key s) |});;
  total_fees ← gets (λ s, default 0 (TOTAL_FEES_KEY s));
  total_fees ← plain_add I128 total_fees fee;
  modify (λ s, {| s with TOTAL_FEES_KEY := Some total_fees |});;
  transfer_counter ← gets (λ s, default 0 (TRANSFER_COUNTER_KEY s));
  transfer_counter ← plain_add U64 transfer_counter 1;
  t ← now;
  modify (λ s, {| s with transfer_key := <[transfer_counter :=
    mkTransfer transfer_counter source_chain destination_chain sender recipient token_address amount fee nonce t Locked
      (if tk_is_locked token then LockAndMint else BurnAndUnlock) []]> (transfer_key s) |});;
  modify (λ s, {| s with TRANSFER_COUNTER_KEY := Some transfer_counter |});;
  publish (transfer_initiated transfer_counter source_chain destination_chain token_address amount fee);;
  mret transfer_counter.

(** ** Signatures *)

Definition get_all_validators : C (list Address) := gets (λ s, default [] (VALIDATOR_LIST_KEY s)).

(** The message the validators sign. *)
Definition transfer_message (transfer : BridgeTransfer) : Bytes :=
  to_be_bytes 8 (tr_transfer_id transfer) ++ to_be_bytes 4 (chain_as_u32 (tr_source_chain transfer)) ++
  to_be_bytes 4 (chain_as_u32 (tr_destination_chain transfer)) ++ to_be_bytes 16 (tr_amount transfer).

(** The inner loop of [verify_transfer_signatures]: the validator the signature is
    checked against, [None] when the loop ends without one. *)
Fixpoint find_signer (message signature : Bytes) (seen_validators validators : list Address) : C (option Address) :=
  match validators with
  | [] => mret None
  | validator_addr :: validators =>
      if bool_decide (validator_addr ∈ seen_validators) then find_signer message signature seen_validators validators
      else
        o ← gets (λ s, validator_key s !! validator_addr);
        validator ← ok_or o ValidatorNotFound;
        if negb (vl_is_active validator) then find_signer message signature seen_validators validators
        else
          pub_key ← ok_or (has_length 32 (vl_public_key validator)) InvalidSignature;
          ed25519_verify pub_key message signature;;
          mret (Some validator_addr)
  end.

(** One round of the outer loop, on the validators seen and the signatures counted. *)
Definition verify_signature (message : Bytes) (acc : list Address * Z) (sig_bytes : Bytes) : C (list Address * Z) :=
  let '(seen_validators, valid_signatures) := acc in
  signature ← ok_or (has_length 64 sig_bytes) InvalidSignature;
  validators ← get_all_validators;
  found ← find_signer message signature seen_validators validators;
  match found with
  | Some validator_addr =>
      n ← plain_add U32 valid_signatures 1;
      mret (seen_validators ++ [validator_addr], n)
  | None => throw InvalidSignature
  end.

Definition verify_transfer_signatures (transfer : BridgeTransfer) (signatures : list Bytes) : C () :=
  o ← gets SIGNATURE_CONFIG_KEY;
  sig_config ← ok_or o InvalidArgument;
  throw_if (Z.of_nat (length signatures) <? sc_required_signatures sig_config) InsufficientSignatures;;
  acc ← foldM (verify_signature (transfer_message transfer)) ([], 0) signatures;
  throw_if (acc.2 <? sc_required_signatures sig_config) InsufficientSignatures.

(** The tokens reach the recipient: minted, or out of the contract; the new status. *)
Definition pay_tokens (token : SupportedToken) (token_address recipient : Address) (amount : Z) : C TransactionStatus :=
  if tk_is_mintable token then
    token_mint token_address recipient amount;;
    mret Minted
  else if tk_is_locked token then
    self ← self_address;
    token_transfer token_address self recipient amount;;
    mret Unlocked
  else throw InvalidArgument.

Definition complete_transfer (transfer_id : Z) (signatures : list Bytes) : C () :=
  ensure_not_paused;;
  o ← gets (λ s, transfer_key s !! transfer_id);
  transfer ← ok_or o TransferNotFound;
  throw_if (negb (bool_decide (tr_status transfer = Locked)) && negb (bool_decide (tr_status transfer = Pending)))
    InvalidTransferStatus;;
  throw_if (negb (bool_decide (tr_status transfer = Locked))) TransferAlreadyProcessed;;
  verify_transfer_signatures transfer signatures;;
  o ← gets CHAIN_ID_KEY;
  current_chain ← ok_or o InvalidArgument;
  throw_if (negb (bool_decide (current_chain = tr_destination_chain transfer))) InvalidChainPair;;
  o ← gets (λ s, token_key s !! tr_token_address transfer);
  token ← ok_or o TokenNotSupported;
  recipient ← expect (from_string_bytes (tr_recipient transfer)) "invalid address";
  status ← pay_tokens token (tr_token_address transfer) recipient (tr_amount transfer);
  modify (λ s, {| s with transfer_key :=
    <[transfer_id := {| transfer with tr_status := status; tr_signatures := signatures |}]> (transfer_key s) |});;
  publish (transfer_completed transfer_id recipient (tr_amount transfer) status).

(** ** Emergency stop, queries and fees *)

Definition pause_bridge : C () :=
  require_admin;;
  paused ← gets (λ s, default false (PAUSED_KEY s));
  throw_if paused AlreadyPaused;;
  modify (λ s, {| s with PAUSED_KEY := Some true |});;
  publish bridge_paused.

Definition unpause_bridge : C () :=
  require_admin;;
  paused ← gets (λ s, default false (PAUSED_KEY s));
  throw_if (negb paused) AlreadyUnpaused;;
  modify (λ s, {| s with PAUSED_KEY := Some false |});;
  publish bridge_unpaused.

Definition get_transfer_status (transfer_id : Z) : C TransactionStatus :=
  o ← gets (λ s, transfer_key s !! transfer_id);
  transfer ← ok_or o TransferNotFound;
  mret (tr_status transfer).

Definition get_transfer (transfer_id : Z) : C BridgeTransfer :=
  o ← gets (λ s, transfer_key s !! transfer_id);
  ok_or o TransferNotFound.

Definition collect_fees (token_address : Address) : C () :=
  require_admin;;
  o ← gets FEE_CONFIG_KEY;
  fee_config ← ok_or o InvalidFeeConfiguration;
  total_fees ← gets (λ s, default 0 (TOTAL_FEES_KEY s));
  if total_fees >? 0 then
    self ← self_address;
    token_transfer token_address self (fc_fee_collector fee_config) total_fees;;
    modify (λ s, {| s with TOTAL_FEES_KEY := Some 0 |})
  else mret tt.
End contract.

(** ** The entry points *)

Inductive Call :=
| CInitialize (admin : Address) (chain : ChainID) (sig : SignatureConfig) (fee : FeeConfig) (rate : RateLimitConfig)
| CAddValidator (validator : Address) (public_key : Bytes) (power : Z)
| CRemoveValidator (validator : Address)
| CAddToken (token : Address) (symbol : string) (decimals : Z) (mintable locked : bool) (bridges : gmap ChainID Bytes)
| CInitiate (dest : ChainID) (recipient : Bytes) (token : Address) (amount nonce : Z) (sender : Address)
| CComplete (transfer_id : Z) (signatures : list Bytes)
| CPause
| CUnpause
| CCollect (token : Address).

Definition exec `{BridgeHost} (c : Call) : M State BridgeError Event () :=
  match c with
  | CInitialize a ch s f r => initialize a ch s f r
  | CAddValidator v k p => add_validator v k p
  | CRemoveValidator v => remove_validator v
  | CAddToken a s d m l b => add_supported_token a s d m l b
  | CInitiate d r a n k s => discard (initiate_transfer d r a n k s)
  | CComplete i s => complete_transfer i s
  | CPause => pause_bridge
  | CUnpause => unpause_bridge
  | CCollect a => collect_fees a
  end.

(** Unsigned arguments are non-negative, by their Rust types. *)
Definition call_ok (c : Call) : Prop :=
  match c with
  | CInitialize _ _ s f _ => 0 ≤ sc_total_validators s ∧ 0 ≤ sc_required_signatures s ∧ 0 ≤ fc_basis_points f
  | CInitiate _ _ _ _ k _ => 0 ≤ k
  | _ => True
  end.
