(* ===== verification/CrossBridgeProofs.v ===== *)
(** * contracts/cross-chain-bridge: theorems

    The message and its signatures, the invariant of the storage, and what follows:
    transfers that stay locked, nonces used once, volumes within their limits. *)

From stdpp Require Import gmap strings list fin_maps.
From S2P Require Import Prelude Soroban TokenModel CrossBridge.
Open Scope Z_scope.

(** ** The message *)

Lemma length_to_be_bytes n z : length (to_be_bytes n z) = n.
Proof. induction n as [|n IH]; simpl; congruence. Qed.

Fixpoint of_be_bytes (b : Bytes) : Z :=
  match b with
  | [] => 0
  | x :: b => x * 256 ^ Z.of_nat (length b) + of_be_bytes b
  end.

Lemma of_to_be_bytes n z : of_be_bytes (to_be_bytes n z) = z `mod` 256 ^ Z.of_nat n.
Proof.
  induction n as [|n IH]; [by rewrite Z.mod_1_r|]. cbn [to_be_bytes of_be_bytes]. rewrite IH, length_to_be_bytes.
  rewrite Nat2Z.inj_succ, Z.pow_succ_r by lia. set (p := 256 ^ Z.of_nat n). assert (0 < p) by (apply Z.pow_pos_nonneg; lia).
  rewrite (Z.mul_comm 256 p), Z.rem_mul_r by lia. lia.
Qed.

Lemma to_be_bytes_inj n z z' :
  to_be_bytes n z = to_be_bytes n z' → z `mod` 256 ^ Z.of_nat n = z' `mod` 256 ^ Z.of_nat n.
Proof. intros Heq. by rewrite <- !of_to_be_bytes, Heq. Qed.

Lemma signed_mod_inj z z' :
  int_min I128 ≤ z ≤ int_max I128 → int_min I128 ≤ z' ≤ int_max I128 → z `mod` 2 ^ 128 = z' `mod` 2 ^ 128 → z = z'.
Proof.
  change (int_max I128) with (2 ^ 127 - 1). change (int_min I128) with (- 2 ^ 127). intros Hz Hz' Hm.
  pose proof (Z.div_mod z (2 ^ 128)). pose proof (Z.div_mod z' (2 ^ 128)). nia.
Qed.

(** The message determines the identifier, the chains and the amount. *)
Lemma transfer_message_injective tr tr' :
  0 ≤ tr_transfer_id tr ≤ int_max U64 → 0 ≤ tr_transfer_id tr' ≤ int_max U64 →
  int_min I128 ≤ tr_amount tr ≤ int_max I128 → int_min I128 ≤ tr_amount tr' ≤ int_max I128 →
  transfer_message tr = transfer_message tr' →
  tr_transfer_id tr = tr_transfer_id tr' ∧ tr_source_chain tr = tr_source_chain tr' ∧
  tr_destination_chain tr = tr_destination_chain tr' ∧ tr_amount tr = tr_amount tr'.
Proof.
  intros Hi Hi' Ha Ha' Hm. unfold transfer_message in Hm.
  apply app_inj_1 in Hm as [Hid Hm]; [|by rewrite !length_to_be_bytes].
  apply app_inj_1 in Hm as [Hs Hm]; [|by rewrite !length_to_be_bytes].
  apply app_inj_1 in Hm as [Hd Hn]; [|by rewrite !length_to_be_bytes].
  apply to_be_bytes_inj in Hid. rewrite !Z.mod_small in Hid by (change (int_max U64) with (2 ^ 64 - 1) in *; lia).
  apply to_be_bytes_inj in Hn. change (256 ^ Z.of_nat 16) with (2 ^ 128) in Hn. apply signed_mod_inj in Hn; [|done..].
  split; [done|]. split; [|split; [|done]].
  - by destruct (tr_source_chain tr), (tr_source_chain tr').
  - by destruct (tr_destination_chain tr), (tr_destination_chain tr').
Qed.

(** ** Signatures *)

Definition active_in (st : State) (a : Address) : bool := from_option vl_is_active false (validator_key st !! a).
Definition validators_of (st : State) : list Address := default [] (VALIDATOR_LIST_KEY st).
Definition active_validators (st : State) : list Address := filter (λ a, active_in st a = true) (validators_of st).

Record validators_ok (st : State) : Prop := {
  vo_nodup : NoDup (validators_of st);
  vo_known a : a ∈ validators_of st ↔ is_Some (validator_key st !! a);
  vo_count : Z.of_nat (length (validators_of st)) = default 0 (VALIDATOR_COUNT_KEY st);
  vo_fits : default 0 (VALIDATOR_COUNT_KEY st) ≤ int_max U32;
}.

Lemma active_fits st : validators_ok st → Z.of_nat (length (active_validators st)) ≤ int_max U32.
Proof.
  intros [_ _ Hc Hf]. pose proof (length_filter (λ a, active_in st a = true) (validators_of st)).
  unfold active_validators. lia.
Qed.

Lemma length_snoc {A} (l : list A) x : Z.of_nat (length (l ++ [x])) = Z.of_nat (length l) + 1.
Proof. rewrite length_app. cbn. lia. Qed.

Section signatures.
Context `{BridgeHost}.
Implicit Types (w : World State Event) (e : Env).

(** A signature of the message by a validator, under the key registered for it. *)
Definition signed_by (st : State) (message sig : Bytes) (a : Address) : Prop :=
  ∃ v, validator_key st !! a = Some v ∧ length sig = 64%nat ∧ length (vl_public_key v) = 32%nat ∧
    ed25519_valid (vl_public_key v) message sig = true.

Lemma has_length_Some n b b' : has_length (Z.of_nat n) b = Some b' ↔ b' = b ∧ length b = n.
Proof. unfold has_length. destruct (_ =? _) eqn:Hn; zbool; split; intros; destruct_and?; simplify_eq; split_and?; try done; lia. Qed.

(** The inner loop stops at the first active validator that is not yet seen. *)
Lemma find_signer_run message sig seen vals e w :
  (∀ a, a ∈ vals → is_Some (validator_key (store w) !! a)) →
  find_signer message sig seen vals e w =
  match filter (λ a, a ∉ seen) (filter (λ a, active_in (store w) a = true) vals) with
  | [] => Ok (None, w)
  | a :: _ => match validator_key (store w) !! a with
      | Some v => (pub_key ← ok_or (has_length 32 (vl_public_key v)) InvalidSignature;
                   ed25519_verify pub_key message sig;; mret (Some a)) e w
      | None => Panic ""
      end
  end.
Proof.
  induction vals as [|a vals IH]; intros Hall; [done|].
  destruct (Hall a ltac:(left)) as [v Hv]. specialize (IH (λ b Hb, Hall b ltac:(by right))).
  cbn [find_signer]. assert (active_in (store w) a = vl_is_active v) as Ha by (unfold active_in; by rewrite Hv).
  case_bool_decide as Hs.
  - rewrite IH. destruct (vl_is_active v) eqn:Hact.
    + rewrite (filter_cons_True _ a vals) by done. by rewrite (filter_cons_False _ a) by auto.
    + rewrite (filter_cons_False _ a vals); [done|congruence].
  - rewrite (bind_run _ _ e w (Some v) w) by (unfold gets; by rewrite Hv).
    rewrite (bind_run _ _ e w v w) by done. destruct (vl_is_active v) eqn:Hact; cbn [negb].
    + rewrite (filter_cons_True _ a vals) by done. rewrite (filter_cons_True _ a) by done. by rewrite Hv.
    + rewrite IH. rewrite (filter_cons_False _ a vals); [done|congruence].
Qed.

Lemma filter_unseen (pre post : list Address) : NoDup (pre ++ post) → filter (λ a, a ∉ pre) (pre ++ post) = post.
Proof.
  intros (_ & Hd & _)%NoDup_app.
  assert (∀ pre', (∀ a, a ∈ pre' → a ∈ pre) → filter (λ a, a ∉ pre) (pre' ++ post) = post) as Hall; [|by apply Hall].
  intros pre'. induction pre' as [|a pre' IH]; intros Hin; simpl.
  - clear Hin. induction post as [|b post IH]; [done|]. rewrite filter_cons_True.
    + rewrite IH; [done|]. intros x Hx Hp. apply (Hd x Hx). by right.
    + intros Hb. apply (Hd b Hb). left.
  - rewrite filter_cons_False by (intros Hn; apply Hn, Hin; left). apply IH. intros b Hb. apply Hin. by right.
Qed.

(** One round: the signature must be by the next active validator in the list. *)
Lemma verify_signature_run message pre post n sig e w r :
  validators_ok (store w) → active_validators (store w) = pre ++ post → n = Z.of_nat (length pre) →
  verify_signature message (pre, n) sig e w = Ok r ↔
  ∃ a post', post = a :: post' ∧ signed_by (store w) message sig a ∧ r = (pre ++ [a], n + 1, w).
Proof.
  intros Hvo Hact Hn. destruct r as [[seen k] w']. unfold verify_signature. rewrite bind_Ok.
  pose proof (λ s, find_signer_run message s pre (validators_of (store w)) e w
    (λ a Ha, proj1 (vo_known _ Hvo a) Ha)) as Hrun.
  assert (filter (λ a, a ∉ pre) (active_validators (store w)) = post) as Hpost.
  { rewrite Hact. apply filter_unseen. rewrite <- Hact. apply NoDup_filter, (vo_nodup _ Hvo). }
  unfold active_validators in Hpost. rewrite Hpost in Hrun. clear Hpost.
  split.
  - intros (s & w1 & Hs & Hr). minv Hs. apply (has_length_Some 64) in Hs as [-> Hlen].
    unfold get_all_validators in Hr. apply bind_Ok in Hr as (vals & w1 & Hv & Hr). apply gets_Ok in Hv as [-> ->].
    apply bind_Ok in Hr as (o & w1 & Hf & Hr). fold (validators_of (store w)) in Hf. rewrite Hrun in Hf.
    destruct post as [|a post]; [by minv Hf; minv Hr|].
    destruct (validator_key (store w) !! a) as [v|] eqn:Hv; [|done]. unfold ed25519_verify in Hf. minv Hf. zbool.
    minv Hr. inv_checked. apply (has_length_Some 32) in Hr0 as [-> Hpk]. exists a, post. split; [done|]. split; [by exists v|done].
  - intros (a & post' & -> & (v & Hv & Hs & Hpk & Hval) & Heq). simplify_eq. exists sig, w.
    split; [apply ok_or_Ok; split; [by apply (has_length_Some 64)|done]|].
    rewrite (bind_run _ _ e w (validators_of (store w)) w) by done.
    rewrite (bind_run _ _ e w (Some a) w).
    2: { rewrite Hrun, Hv. apply bind_Ok. exists (vl_public_key v), w. split; [apply ok_or_Ok; split; [by apply (has_length_Some 32)|done]|].
      unfold ed25519_verify. rewrite Hval. done. }
    apply bind_Ok. exists (Z.of_nat (length pre) + 1), w. split; [|done]. unfold plain_add. apply expect_Ok. split; [|done].
    apply checked_Some. split; [done|]. change (int_min U32) with 0.
    pose proof (active_fits _ Hvo) as Hfit. rewrite Hact, length_app in Hfit. cbn [length] in Hfit. lia.
Qed.

Lemma verify_signatures_run message sigs pre post e w r :
  validators_ok (store w) → active_validators (store w) = pre ++ post →
  foldM (verify_signature message) (pre, Z.of_nat (length pre)) sigs e w = Ok r ↔
  ∃ signers post', post = signers ++ post' ∧ Forall2 (signed_by (store w) message) sigs signers ∧
    r = (pre ++ signers, Z.of_nat (length (pre ++ signers)), w).
Proof.
  intros Hvo. revert pre post. induction sigs as [|sig sigs IH]; intros pre post Hact.
  - cbn. split.
    + intros [= <-]. exists [], post. by rewrite app_nil_r.
    + intros (signers & post' & -> & Hf & ->). apply Forall2_nil_inv_l in Hf as ->. by rewrite app_nil_r.
  - destruct r as [acc w']. cbn [foldM]. rewrite bind_Ok. split.
    + intros (acc1 & w1 & (a & post' & -> & Hsig & Heq)%(verify_signature_run _ pre post) & Hr); [|done..].
      simplify_eq. rewrite <- (length_snoc pre a) in Hr. apply (IH _ post') in Hr as (signers & rest & -> & Hf & Heq).
      2: { by rewrite <- app_assoc. }
      exists (a :: signers), rest. rewrite <- app_assoc in Heq. split; [done|]. split; [by constructor|done].
    + intros (signers & rest & -> & (a & signers' & Hsig & Hf & ->)%Forall2_cons_inv_l & Heq).
      exists (pre ++ [a], Z.of_nat (length pre) + 1), w. split.
      * apply (verify_signature_run _ pre ((a :: signers') ++ rest)); [done..|]. by exists a, (signers' ++ rest).
      * rewrite <- (length_snoc pre a). apply (IH _ (signers' ++ rest)); [by rewrite <- app_assoc|].
        exists signers', rest. by rewrite <- app_assoc.
Qed.

(** [verify_transfer_signatures] accepts exactly: at least as many signatures as
    required, the k-th by the k-th active validator. *)
Lemma verify_run tr sigs e w cfg :
  validators_ok (store w) → SIGNATURE_CONFIG_KEY (store w) = Some cfg →
  verify_transfer_signatures tr sigs e w = Ok (tt, w) ↔
  sc_required_signatures cfg ≤ Z.of_nat (length sigs) ∧
  ∃ signers rest, active_validators (store w) = signers ++ rest ∧
    Forall2 (signed_by (store w) (transfer_message tr)) sigs signers.
Proof.
  intros Hvo Hc. unfold verify_transfer_signatures. split.
  - intros Hr. apply bind_Ok in Hr as (o & w1 & Ho & Hr). minv Ho. rewrite Hc in Hr.
    do 2 (let Hg := fresh "Hg" in apply bind_Ok in Hr as (? & w1 & Hg & Hr); minv Hg). zbool.
    apply bind_Ok in Hr as (acc & w1 & Hf & Hr). split; [lia|].
    apply (verify_signatures_run _ _ [] (active_validators (store w))) in Hf as (signers & rest & Heq & Hall & _); [|done..].
    by exists signers, rest.
  - intros (Hreq & signers & rest & Hact & Hall). pose proof (Forall2_length _ _ _ Hall) as Hlen.
    rewrite (bind_run _ _ e w (Some cfg) w) by (unfold gets; by rewrite Hc). rewrite (bind_run _ _ e w cfg w) by done.
    apply bind_Ok. exists tt, w. split; [apply throw_if_Ok; split; [apply Z.ltb_ge; lia|done]|].
    apply bind_Ok. exists (signers, Z.of_nat (length signers)), w. split.
    + apply (verify_signatures_run _ _ [] (active_validators (store w))); [done..|]. by exists signers, rest.
    + apply throw_if_Ok. split; [apply Z.ltb_ge; cbn; lia|done].
Qed.

End signatures.

(** ** Volumes *)

Definition volume (p : BridgeTransfer → bool) (m : gmap Z BridgeTransfer) : Z :=
  msum (λ _ tr, if p tr then tr_amount tr else 0) m.
Definition since (t : Z) (tr : BridgeTransfer) : bool := t <=? tr_timestamp tr.
Definition since_by (t : Z) (u : Address) (tr : BridgeTransfer) : bool := since t tr && bool_decide (tr_sender tr = u).

Lemma volume_new p m i tr : m !! i = None → volume p (<[i := tr]> m) = volume p m + (if p tr then tr_amount tr else 0).
Proof. intros Hi. unfold volume. rewrite msum_insert_fresh by done. lia. Qed.

Lemma volume_none p m : (∀ i tr, m !! i = Some tr → p tr = false) → volume p m = 0.
Proof. intros Hp. apply msum_zero. intros i tr Hi. by rewrite (Hp i tr Hi). Qed.

(** The counters are the volumes since the last resets, and within the limits. *)
Record rate_ok (cfg : RateLimitConfig) (rs : RateLimitState) (m : gmap Z BridgeTransfer) : Prop := {
  ro_window i tr : m !! i = Some tr →
    tr_timestamp tr ≤ rs_last_daily_reset rs + 86400 ∧ tr_timestamp tr ≤ rs_last_monthly_reset rs + 2592000;
  ro_daily : rs_daily_used rs = volume (since (rs_last_daily_reset rs)) m;
  ro_monthly : rs_monthly_used rs = volume (since (rs_last_monthly_reset rs)) m;
  ro_user u : default 0 (rs_per_user_daily rs !! u) = volume (since_by (rs_last_daily_reset rs) u) m;
  ro_limits : rs_daily_used rs ≤ Z.max 0 (rc_daily_limit cfg) ∧ rs_monthly_used rs ≤ Z.max 0 (rc_monthly_limit cfg);
}.

Section rates.
Context `{BridgeHost}.
Implicit Types (w : World State Event) (e : Env).

Lemma reset_daily_ok cfg rs m t :
  rate_ok cfg rs m → rs_last_daily_reset rs + 86400 < t →
  rate_ok cfg {| rs with rs_daily_used := 0; rs_last_daily_reset := t; rs_per_user_daily := ∅ |} m.
Proof.
  intros [Hw Hd Hm Hu Hl] Ht. assert (∀ i tr, m !! i = Some tr → since t tr = false) as Hold.
  { intros i tr Hi. apply Z.leb_gt. destruct (Hw i tr Hi). lia. }
  split; cbn; [| | |intros u|].
  - intros i tr Hi. destruct (Hw i tr Hi). lia.
  - by rewrite volume_none.
  - done.
  - rewrite lookup_empty, volume_none; [done|]. intros i tr Hi. unfold since_by. by rewrite (Hold i tr Hi).
  - split; [lia|apply Hl].
Qed.

Lemma reset_monthly_ok cfg rs m t :
  rate_ok cfg rs m → rs_last_monthly_reset rs + 2592000 < t →
  rate_ok cfg {| rs with rs_monthly_used := 0; rs_last_monthly_reset := t |} m.
Proof.
  intros [Hw Hd Hm Hu Hl] Ht. split; cbn; [|done| |done|].
  - intros i tr Hi. destruct (Hw i tr Hi). lia.
  - rewrite volume_none; [done|]. intros i tr Hi. apply Z.leb_gt. destruct (Hw i tr Hi). lia.
  - split; [apply Hl|lia].
Qed.

(** After the resets the present moment is inside both windows. *)
Lemma reset_limits_spec rs e w rs' w' cfg m :
  reset_limits rs e w = Ok (rs', w') → rate_ok cfg rs m →
  w' = w ∧ rate_ok cfg rs' m ∧
  rs_last_daily_reset rs' ≤ timestamp e ≤ rs_last_daily_reset rs' + 86400 ∧
  rs_last_monthly_reset rs' ≤ timestamp e ≤ rs_last_monthly_reset rs' + 2592000.
Proof.
  intros Hr Hok. unfold reset_limits in Hr. minv Hr. apply checked_sub_Some in Hr0 as [-> Hd].
  change (int_min U64) with 0 in *.
  assert (rate_ok cfg (if timestamp e - rs_last_daily_reset rs >? 86400
    then {| rs with rs_daily_used := 0; rs_last_daily_reset := timestamp e; rs_per_user_daily := ∅ |} else rs) m) as Hok1.
  { destruct (_ >? _) eqn:Hc; zbool; [|done]. apply reset_daily_ok; [done|lia]. }
  set (rs1 := if _ >? 86400 then _ else rs) in *. assert (rs_last_daily_reset rs1 ≤ timestamp e ≤ rs_last_daily_reset rs1 + 86400).
  { unfold rs1. destruct (_ >? _) eqn:Hc; zbool; cbn; lia. }
  clearbody rs1. apply checked_sub_Some in Hr1 as [-> Hm]. change (int_min U64) with 0 in Hm. split; [done|].
  destruct (_ >? 2592000) eqn:Hc; zbool; [|split_and!; done || lia].
  split; [apply reset_monthly_ok; [done|lia]|]. cbn. lia.
Qed.

Lemma rate_ok_new cfg rs m i tr d mo uu :
  rate_ok cfg rs m → m !! i = None → 0 < tr_amount tr →
  rs_last_daily_reset rs ≤ tr_timestamp tr ≤ rs_last_daily_reset rs + 86400 →
  rs_last_monthly_reset rs ≤ tr_timestamp tr ≤ rs_last_monthly_reset rs + 2592000 →
  d = rs_daily_used rs + tr_amount tr → d ≤ rc_daily_limit cfg →
  mo = rs_monthly_used rs + tr_amount tr → mo ≤ rc_monthly_limit cfg →
  uu = default 0 (rs_per_user_daily rs !! tr_sender tr) + tr_amount tr →
  rate_ok cfg {| rs with rs_per_user_daily := <[tr_sender tr := uu]> (rs_per_user_daily rs);
    rs_daily_used := d; rs_monthly_used := mo |} (<[i := tr]> m).
Proof.
  intros [Hw Hd Hm Hu Hl] Hi Hn Ht1 Ht2 -> Hdl -> Hml ->. split; cbn; [| | |intros u|lia].
  - intros j y [[<- <-]|[_ Hj]]%lookup_insert_Some; [lia|by apply (Hw j)].
  - rewrite volume_new, Hd by done. unfold since at 3. by rewrite (proj2 (Z.leb_le _ _) (proj1 Ht1)).
  - rewrite volume_new, Hm by done. unfold since at 3. by rewrite (proj2 (Z.leb_le _ _) (proj1 Ht2)).
  - rewrite volume_new by done. rewrite <- Hu. unfold since_by, since. rewrite (proj2 (Z.leb_le _ _) (proj1 Ht1)). cbn [andb].
    case_bool_decide as Hs; [rewrite Hs, lookup_insert_eq; done|]. rewrite lookup_insert_ne by done. lia.
Qed.

Lemma cross_check_rate_limits_spec u n e w w' cfg rs m :
  check_rate_limits u n e w = Ok (tt, w') → RATE_LIMIT_CONFIG_KEY (store w) = Some cfg →
  RATE_LIMIT_STATE_KEY (store w) = Some rs → rate_ok cfg rs m → 0 < n →
  ∃ rs', w' = {| w with store := {| (store w) with RATE_LIMIT_STATE_KEY := Some rs' |} |} ∧
    rc_per_transaction_min cfg ≤ n ≤ rc_per_transaction_max cfg ∧
    ∀ i tr, m !! i = None → tr_amount tr = n → tr_sender tr = u → tr_timestamp tr = timestamp e →
      rate_ok cfg rs' (<[i := tr]> m).
Proof.
  intros Hr Hc Hs Hok Hn. unfold check_rate_limits in Hr.
  do 4 (let Hg := fresh "Hg" in apply bind_Ok in Hr as (? & w1 & Hg & Hr); minv Hg).
  apply bind_Ok in Hr as (rs1 & w1 & Hreset & Hr).
  destruct (reset_limits_spec _ _ _ _ _ _ _ Hreset Hok) as (-> & Hok1 & Hd & Hm).
  minv Hr. inv_checked. zbool. eexists. split; [reflexivity|]. split; [lia|].
  intros i tr Hi <- <- Ht. rewrite <- Ht in Hd, Hm. by eapply rate_ok_new.
Qed.
End rates.

(** ** The invariant *)

(** A transfer, from the moment it is made: locked, for another chain. *)
Record transfer_ok (st : State) (i : Z) (tr : BridgeTransfer) : Prop := {
  tf_id : tr_transfer_id tr = i ∧ 1 ≤ i ≤ default 0 (TRANSFER_COUNTER_KEY st);
  tf_chain : CHAIN_ID_KEY st = Some (tr_source_chain tr) ∧ tr_destination_chain tr ≠ tr_source_chain tr;
  tf_locked : tr_status tr = Locked ∧ tr_signatures tr = [];
  tf_amount : 0 < tr_amount tr;
  tf_fee : ∃ f, FEE_CONFIG_KEY st = Some f ∧
    tr_fee tr = Z.max ((tr_amount tr * fc_basis_points f) `div` 10000) (fc_min_fee f);
  tf_nonce : tr_nonce tr ≠ 0 ∧ nonce_key st !! (tr_sender tr, tr_nonce tr) = Some true;
}.

(** The required signatures are the quorum of the validators counted, which are at
    least the active ones. *)
Record quorum_ok (st : State) (cfg : SignatureConfig) : Prop := {
  qo_percentage : 51 ≤ sc_quorum_percentage cfg ≤ 100;
  qo_required : validators_of st ≠ [] →
    Z.of_nat (length (active_validators st)) ≤ sc_total_validators cfg ≤ Z.of_nat (length (validators_of st)) ∧
    sc_required_signatures cfg = Z.max ((sc_total_validators cfg * sc_quorum_percentage cfg) `div` 100) 1;
}.

Record live (st : State) : Prop := {
  lv_init : INITIALIZED_KEY st = Some true;
  lv_validators : validators_ok st;
  lv_quorum : ∃ cfg, SIGNATURE_CONFIG_KEY st = Some cfg ∧ quorum_ok st cfg;
  lv_counter : 0 ≤ default 0 (TRANSFER_COUNTER_KEY st);
  lv_fee : ∃ f, FEE_CONFIG_KEY st = Some f ∧ 0 ≤ fc_basis_points f ≤ 1000;
  lv_transfer i tr : transfer_key st !! i = Some tr → transfer_ok st i tr;
  lv_once i j tr tr' : transfer_key st !! i = Some tr → transfer_key st !! j = Some tr' →
    tr_sender tr = tr_sender tr' → tr_nonce tr = tr_nonce tr' → i = j;
  lv_used s k : is_Some (nonce_key st !! (s, k)) →
    ∃ i tr, transfer_key st !! i = Some tr ∧ tr_sender tr = s ∧ tr_nonce tr = k;
  lv_rate : ∃ cfg rs, RATE_LIMIT_CONFIG_KEY st = Some cfg ∧ RATE_LIMIT_STATE_KEY st = Some rs ∧
    rate_ok cfg rs (transfer_key st) ∧
    ∀ i tr, transfer_key st !! i = Some tr → rc_per_transaction_min cfg ≤ tr_amount tr ≤ rc_per_transaction_max cfg;
}.

(** The parts of the storage that the transfers and the validators are. *)
Definition transfer_part (st : State) :=
  (INITIALIZED_KEY st, CHAIN_ID_KEY st, TRANSFER_COUNTER_KEY st, FEE_CONFIG_KEY st, transfer_key st, nonce_key st,
   RATE_LIMIT_CONFIG_KEY st, RATE_LIMIT_STATE_KEY st).
Definition validator_part (st : State) :=
  (VALIDATOR_LIST_KEY st, validator_key st, VALIDATOR_COUNT_KEY st, SIGNATURE_CONFIG_KEY st).

Lemma live_transfer_part st st' :
  live st → transfer_part st' = transfer_part st → validators_ok st' →
  (∃ cfg, SIGNATURE_CONFIG_KEY st' = Some cfg ∧ quorum_ok st' cfg) → live st'.
Proof.
  unfold transfer_part. intros Hl Heq Hv Hq. injection Heq as Hi Hc Hn Hf Ht Hk Hrc Hrs.
  split; try done; rewrite ?Hi, ?Hn, ?Hf, ?Ht, ?Hk, ?Hrc, ?Hrs; try by apply Hl.
  intros i tr Htr. destruct (lv_transfer _ Hl i tr Htr). by split; rewrite ?Hc, ?Hn, ?Hf, ?Hk.
Qed.

Lemma live_validator_part st st' :
  live st → validator_part st' = validator_part st →
  validators_ok st' ∧ ∃ cfg, SIGNATURE_CONFIG_KEY st' = Some cfg ∧ quorum_ok st' cfg.
Proof.
  unfold validator_part. intros Hl Heq. injection Heq as H1 H2 H3 H4.
  assert (validators_of st' = validators_of st) as Hvs by (unfold validators_of; by rewrite H1).
  assert (active_validators st' = active_validators st) as Hact.
  { unfold active_validators, active_in. by rewrite Hvs, H2. }
  split.
  - destruct (lv_validators _ Hl). by split; rewrite ?Hvs, ?H2, ?H3.
  - destruct (lv_quorum _ Hl) as (cfg & Hc & [Hq1 Hq2]). exists cfg. rewrite H4. split; [done|]. by split; rewrite ?Hvs, ?Hact.
Qed.

Section invariant.
Context `{BridgeHost}.
Implicit Types (w : World State Event) (e : Env).

Lemma required_for_spec total q e w r w' :
  required_for total q e w = Ok (r, w') → 0 ≤ total ≤ int_max U32 → 51 ≤ q ≤ 100 →
  w' = w ∧ r = Z.max ((total * q) `div` 100) 1.
Proof.
  intros Hr Ht Hq. unfold required_for in Hr. minv Hr. inv_checked. split; [done|].
  rewrite quot_div_nonneg by nia. rewrite Z.mod_small; [done|]. change (int_max U32) with (2 ^ 32 - 1) in Ht.
  split; [apply Z.div_pos; nia|]. apply Z.div_lt_upper_bound; nia.
Qed.

Lemma cross_require_admin_spec e w u w' :
  require_admin e w = Ok (u, w') → ∃ a, ADMIN_KEY (store w) = Some a ∧ authorized e a = true ∧ w' = w.
Proof. intros Hr. unfold require_admin in Hr. minv Hr. eauto. Qed.

Lemma ensure_not_paused_spec e w u w' :
  ensure_not_paused e w = Ok (u, w') → default false (PAUSED_KEY (store w)) = false ∧ w' = w.
Proof. intros Hr. unfold ensure_not_paused in Hr. minv Hr. done. Qed.

Lemma add_validator_live v k p e w w' : add_validator v k p e w = Ok (tt, w') → live (store w) → live (store w').
Proof.
  intros Hr Hl. unfold add_validator in Hr.
  apply bind_Ok in Hr as ([] & w1 & (? & _ & _ & ->)%cross_require_admin_spec & Hr).
  apply bind_Ok in Hr as ([] & w1 & (_ & ->)%ensure_not_paused_spec & Hr).
  do 11 (let Hg := fresh "Hg" in apply bind_Ok in Hr as (? & w1 & Hg & Hr); minv Hg). zbool. inv_checked.
  apply bind_Ok in Hr as (r & w1 & Hreq & Hr). destruct (lv_quorum _ Hl) as (cfg & Hcfg & [Hpct Hq]).
  destruct (lv_validators _ Hl) as [Hnd Hkn Hcnt Hfit]. rewrite Hcfg in *. simplify_eq.
  apply required_for_spec in Hreq as [-> ->]; [|lia|done]. minv Hr.
  match goal with |- live ?st => set (st' := st) end.
  assert (validators_of st' = validators_of (store w) ++ [v]) as Hvs by done.
  assert (Z.of_nat (length (validators_of st')) = default 0 (VALIDATOR_COUNT_KEY (store w)) + 1) as Hlen.
  { rewrite Hvs, length_snoc. lia. }
  apply (live_transfer_part (store w)); [done|done| |].
  - split; [rewrite Hvs; apply NoDup_snoc; [done|by rewrite Hkn]| |by rewrite Hlen|apply Hg0].
    intros a. rewrite Hvs, elem_of_app, list_elem_of_singleton, Hkn. cbn. rewrite lookup_insert_is_Some'. naive_solver.
  - eexists. split; [reflexivity|]. split; [done|]. intros _. rewrite Hlen. cbn [sc_total_validators sc_required_signatures sc_quorum_percentage]. split; [|done].
    pose proof (length_filter (λ a, active_in st' a = true) (validators_of st')). unfold active_validators. lia.
Qed.

(** Deactivating an active validator shortens the list of active ones. *)
Lemma deactivate_shorter st st' v x :
  NoDup (validators_of st) → v ∈ validators_of st → validator_key st !! v = Some x → vl_is_active x = true →
  validators_of st' = validators_of st →
  validator_key st' = <[v := {| x with vl_is_active := false |}]> (validator_key st) →
  (length (active_validators st') < length (active_validators st))%nat.
Proof.
  intros Hnd Hv Hx Hact Hvs Hk. unfold active_validators. rewrite Hvs.
  rewrite <- (list_filter_filter_l (λ a, active_in st' a = true) (λ a, active_in st a = true)).
  - apply (length_filter_lt _ _ v).
    + apply list_elem_of_filter. split; [|done]. unfold active_in. by rewrite Hx.
    + unfold active_in. rewrite Hk, lookup_insert_eq. done.
  - intros a. unfold active_in. rewrite Hk. destruct (decide (a = v)) as [->|Hne]; [by rewrite lookup_insert_eq|].
    by rewrite lookup_insert_ne.
Qed.

Lemma remove_validator_live v e w w' : remove_validator v e w = Ok (tt, w') → live (store w) → live (store w').
Proof.
  intros Hr Hl. unfold remove_validator in Hr.
  apply bind_Ok in Hr as ([] & w1 & (? & _ & _ & ->)%cross_require_admin_spec & Hr).
  apply bind_Ok in Hr as ([] & w1 & (_ & ->)%ensure_not_paused_spec & Hr).
  do 6 (let Hg := fresh "Hg" in apply bind_Ok in Hr as (? & w1 & Hg & Hr); minv Hg). zbool. cbv zeta in Hr.
  apply bind_Ok in Hr as (r & w1 & Hreq & Hr). destruct (lv_quorum _ Hl) as (cfg & Hcfg & [Hpct Hq]).
  pose proof (lv_validators _ Hl) as [Hnd Hkn Hcnt Hfit]. rewrite Hcfg in *. simplify_eq.
  match goal with Hx : validator_key (store w) !! v = Some ?y |- _ => rename y into rec; rename Hx into Hrec end.
  assert (v ∈ validators_of (store w)) as Hv by (apply Hkn; eauto).
  destruct Hq as [Htot _]; [by intros Hn; rewrite Hn in Hv; apply not_elem_of_nil in Hv|].
  assert (1 ≤ Z.of_nat (length (active_validators (store w)))) as Hone.
  { assert (v ∈ active_validators (store w)) as Hin; [|destruct (active_validators _); [by apply not_elem_of_nil in Hin|cbn; lia]].
    apply list_elem_of_filter. unfold active_in. by rewrite Hrec. }
  match type of Hcfg with _ = Some ?c => rename c into cfg end.
  assert (saturating_sub U32 (sc_total_validators cfg) 1 = sc_total_validators cfg - 1) as Hsat.
  { unfold saturating_sub, saturate. change (int_min U32) with 0. lia. }
  rewrite Hsat in *. apply required_for_spec in Hreq as [-> ->]; [|lia|done]. minv Hr.
  match goal with |- live ?st => set (st' := st) end.
  assert (length (active_validators st') < length (active_validators (store w)))%nat as Hlt by by eapply deactivate_shorter.
  apply (live_transfer_part (store w)); [done|done| |].
  - split; [done| |done|done]. intros a. change (validators_of st') with (validators_of (store w)). rewrite Hkn. cbn.
    rewrite lookup_insert_is_Some'. naive_solver.
  - eexists. split; [reflexivity|]. split; [done|]. intros _. change (validators_of st') with (validators_of (store w)).
    cbn [sc_total_validators sc_required_signatures sc_quorum_percentage]. split; [lia|done].
Qed.

(** What leaves the sender: locked tokens reach the contract, others are burned. *)
Definition taken (tk : SupportedToken) (e : Env) (l l' : Ledger) (a s : Address) (n : Z) : Prop :=
  if tk_is_locked tk then tok_transfer e l a s (current_contract_address e) n = Some l'
  else tk_is_mintable tk = true ∧ tok_burn e l a s n = Some l'.

Lemma take_tokens_spec tk a s n e w w' :
  take_tokens tk a s n e w = Ok (tt, w') → w' = {| w with ledger := ledger w' |} ∧ taken tk e (ledger w) (ledger w') a s n.
Proof.
  intros Hr. unfold take_tokens, token_burn in Hr. unfold taken. minv Hr.
  - done.
  - match goal with Hb : tok_burn _ _ _ _ _ ≫= _ = Some _ |- _ => apply bind_Some in Hb as (l' & Hb & ?) end. by simplify_eq.
Qed.

(** A run of [initiate_transfer]: the new record, and what was checked. *)
Record initiated (d : ChainID) (r : Bytes) (a : Address) (n k : Z) (s : Address) (e : Env) (st : State) (l : Ledger) (i : Z)
    (st' : State) (l' : Ledger) (tr : BridgeTransfer) : Prop := {
  ii_id : i = default 0 (TRANSFER_COUNTER_KEY st) + 1;
  ii_state : transfer_part st' = (INITIALIZED_KEY st, CHAIN_ID_KEY st, Some i, FEE_CONFIG_KEY st,
    <[i := tr]> (transfer_key st), <[(s, k) := true]> (nonce_key st), RATE_LIMIT_CONFIG_KEY st, RATE_LIMIT_STATE_KEY st');
  ii_validators : validator_part st' = validator_part st;
  ii_fresh : nonce_key st !! (s, k) = None;
  ii_transfer : transfer_ok st' i tr;
  ii_fields : tr_sender tr = s ∧ tr_nonce tr = k ∧ tr_amount tr = n ∧ tr_timestamp tr = timestamp e ∧
    tr_destination_chain tr = d ∧ tr_recipient tr = r ∧ tr_token_address tr = a;
  ii_limits : ∃ cfg rs', RATE_LIMIT_CONFIG_KEY st = Some cfg ∧ RATE_LIMIT_STATE_KEY st' = Some rs' ∧
    rc_per_transaction_min cfg ≤ n ≤ rc_per_transaction_max cfg ∧
    (transfer_key st !! i = None → rate_ok cfg rs' (<[i := tr]> (transfer_key st)));
  ii_fees : TOTAL_FEES_KEY st' = Some (default 0 (TOTAL_FEES_KEY st) + tr_fee tr);
  ii_tokens : ∃ tk, token_key st !! a = Some tk ∧ taken tk e l l' a s (n + tr_fee tr);
}.

Lemma initiate_spec d r a n k s e w i w' :
  initiate_transfer d r a n k s e w = Ok (i, w') → live (store w) →
  ∃ tr, initiated d r a n k s e (store w) (ledger w) i (store w') (ledger w') tr.
Proof.
  intros Hr Hl. unfold initiate_transfer in Hr.
  apply bind_Ok in Hr as ([] & w1 & (_ & ->)%ensure_not_paused_spec & Hr).
  do 10 (let Hg := fresh "Hg" in apply bind_Ok in Hr as (? & w1 & Hg & Hr); minv Hg). zbool.
  apply bind_Ok in Hr as ([] & w1 & Hlim & Hr). destruct (lv_rate _ Hl) as (cfg & rs & Hcfg & Hrs & Hok & _).
  destruct (cross_check_rate_limits_spec _ _ _ _ _ _ _ _ Hlim Hcfg Hrs Hok) as (rs' & -> & Hmm & Hnew); [lia|].
  destruct (lv_fee _ Hl) as (f & Hf & Hbps).
  do 4 (let Hg := fresh "Hg" in apply bind_Ok in Hr as (? & w1 & Hg & Hr); minv Hg). cbv zeta in Hr.
  apply bind_Ok in Hr as (tot & w1 & Htot & Hr). minv Htot.
  apply bind_Ok in Hr as ([] & w1 & Htake & Hr). destruct (take_tokens_spec _ _ _ _ _ _ _ Htake) as [Hw1 Htk].
  rewrite Hw1 in Hr. clear Htake Hw1.
  minv Hr. inv_checked. rewrite quot_div_nonneg in * by nia. pose proof (lv_counter _ Hl) as Hcn.
  eexists. split; cbn [store]; [done|reflexivity|done|by apply eq_None_not_Some| |by split_and!| |done|by eexists].
  - split; cbn [tr_transfer_id tr_source_chain tr_destination_chain tr_status tr_signatures tr_amount tr_fee tr_nonce tr_sender];
      [split; [done|cbn; lia]|done|done|lia|by eexists|]. split; [done|]. cbn. apply lookup_insert_eq.
  - exists cfg, rs'. split_and!; [done|done|lia|lia|]. intros Hi. by apply Hnew.
Qed.

Lemma live_fresh st : live st → transfer_key st !! (default 0 (TRANSFER_COUNTER_KEY st) + 1) = None.
Proof.
  intros Hl. apply eq_None_not_Some. intros [tr Htr]. destruct (tf_id _ _ _ (lv_transfer _ Hl _ _ Htr)). lia.
Qed.

Lemma initiate_live d r a n k s e w i w' :
  initiate_transfer d r a n k s e w = Ok (i, w') → live (store w) → live (store w').
Proof.
  intros Hr Hl. destruct (initiate_spec _ _ _ _ _ _ _ _ _ _ Hr Hl) as (tr & Hii).
  destruct Hii as [Hi Hst Hval Hfr Htr (Hs & Hk & Hn & _) (cfg & rs' & Hcfg & Hrs & Hmm & Hok) _ _].
  pose proof (live_fresh _ Hl) as Hnone. rewrite <- Hi in Hnone. specialize (Hok Hnone).
  destruct (live_validator_part _ _ Hl Hval) as [Hv Hq]. pose proof (lv_counter _ Hl).
  unfold transfer_part in Hst. injection Hst as E1 E2 E3 E4 E5 E6 E7.
  split; [rewrite E1; by apply Hl|done|done|rewrite E3; cbn; lia|rewrite E4; by apply Hl| | | |].
  - intros j y. rewrite E5. intros [[<- <-]|[Hne Hj]]%lookup_insert_Some; [done|].
    destruct (lv_transfer _ Hl j y Hj) as [T1 T2 T3 T4 T5 [T6 T7]]. split; rewrite ?E2, ?E3, ?E4; try done; [cbn; lia|].
    rewrite E6. split; [done|]. rewrite lookup_insert_ne; [done|]. intros Heq. rewrite <- Heq in T7. congruence.
  - assert (∀ j y, transfer_key (store w) !! j = Some y → tr_sender y = s → tr_nonce y = k → False) as Hno.
    { intros j y Hj Hys Hyk. destruct (tf_nonce _ _ _ (lv_transfer _ Hl j y Hj)) as [_ Hu]. congruence. }
    intros j1 j2 y1 y2. rewrite E5. intros [[<- <-]|[_ Hj1]]%lookup_insert_Some [[<- <-]|[_ Hj2]]%lookup_insert_Some Hes Hek.
    + done.
    + destruct (Hno j2 y2); congruence.
    + destruct (Hno j1 y1); congruence.
    + by apply (lv_once _ Hl _ _ _ _ Hj1 Hj2).
  - intros s' k'. rewrite E5, E6. destruct (decide ((s', k') = (s, k))) as [Heq|Hne].
    + intros _. exists i, tr. rewrite lookup_insert_eq. by simplify_eq.
    + rewrite lookup_insert_ne by done. intros (j & y & Hj & ?)%(lv_used _ Hl). exists j, y.
      rewrite lookup_insert_ne; [done|]. intros <-. congruence.
  - exists cfg, rs'. rewrite E5, E7. split_and!; [done|done|done|]. intros j y [[<- <-]|[_ Hj]]%lookup_insert_Some; [lia|].
    destruct (lv_rate _ Hl) as (cfg' & _ & Hcfg' & _ & _ & Hall). assert (cfg' = cfg) as -> by congruence. by apply (Hall j).
Qed.

#[local] Hint Extern 1 (reads eq (gets _)) => (apply reads_gets; by intros ? ? ->) : contracts.

Lemma find_signer_reads m s seen l : reads eq (find_signer m s seen l).
Proof.
  induction l as [|a l IH]; cbn [find_signer]; [auto with contracts|]. case_bool_decide; [done|].
  unfold ed25519_verify. repeat first [done|apply reads_bind; [auto with contracts|intros ?]|destruct (negb _)|solve [auto with contracts]].
Qed.

Lemma verify_reads tr sigs : reads eq (verify_transfer_signatures tr sigs).
Proof.
  unfold verify_transfer_signatures. repeat first [apply reads_bind; [|intros ?]|solve [auto with contracts]].
  apply reads_foldM. intros [seen n] sig. unfold verify_signature, get_all_validators.
  repeat first [apply find_signer_reads|apply reads_bind; [|intros ?]|solve [auto with contracts]].
  apply reads_option; [|done]. intros ?. auto with contracts.
Qed.

(** A transfer is never paid out: its destination is another chain. *)
Lemma complete_never i sigs e w r : live (store w) → complete_transfer i sigs e w ≠ Ok r.
Proof.
  intros Hl Hr. destruct r as [[] w']. unfold complete_transfer in Hr.
  apply bind_Ok in Hr as ([] & w1 & (_ & ->)%ensure_not_paused_spec & Hr).
  do 4 (let Hg := fresh "Hg" in apply bind_Ok in Hr as (? & w1 & Hg & Hr); minv Hg).
  apply bind_Ok in Hr as ([] & w1 & Hv & Hr). apply reads_pure in Hv as ->; [|apply verify_reads].
  do 3 (let Hg := fresh "Hg" in apply bind_Ok in Hr as (? & w1 & Hg & Hr); minv Hg). zbool.
  match goal with Ht : transfer_key _ !! _ = Some _ |- _ => destruct (tf_chain _ _ _ (lv_transfer _ Hl _ _ Ht)) end. congruence.
Qed.

Definition bookkeeping (c : Call) : bool :=
  match c with CAddToken _ _ _ _ _ _ | CPause | CUnpause | CCollect _ => true | _ => false end.

Lemma bookkeeping_frame c : bookkeeping c = true → keeps transfer_part (exec c) ∧ keeps validator_part (exec c).
Proof.
  intros Hc. destruct c; try done; cbn [exec]; unfold add_supported_token, pause_bridge, unpause_bridge, collect_fees,
    require_admin, ensure_not_paused; split; frame.
Qed.

Lemma cross_initialize_live a ch sg f r e w w' :
  initialize a ch sg f r e w = Ok (tt, w') → call_ok (CInitialize a ch sg f r) → store w = deployed → live (store w').
Proof.
  intros Hr Hok Hd. unfold initialize in Hr. minv Hr. rewrite Hd. zbool. destruct Hok as (? & ? & ?).
  split; cbn [store]; try done.
  - split; [constructor| |done|done]. intros v. cbn. rewrite lookup_empty. split; [by intros ?%not_elem_of_nil|by intros []].
  - exists sg. split; [done|]. split; [|done]. lia.
  - exists f. split; [done|lia].
  - cbn. intros s k [].
    by rewrite lookup_empty in *.
  - exists r. eexists. split; [done|]. split; [done|]. cbn. split; [|done]. split; cbn; done || lia.
Qed.

(** A deployed contract accepts only [initialize], a live one stays live. *)
Lemma cross_deployed_calls c e w w' :
  exec c e w = Ok (tt, w') → store w = deployed → ∃ a ch sg f r, c = CInitialize a ch sg f r.
Proof.
  intros Hr Hd. destruct c; [by eauto 10|exfalso..]; cbn [exec] in Hr; try apply discard_Ok in Hr as [? Hr];
    unfold add_validator, remove_validator, add_supported_token, initiate_transfer, complete_transfer, pause_bridge,
      unpause_bridge, collect_fees, require_admin, ensure_not_paused in Hr;
    repeat (let Hg := fresh "Hg" in apply bind_Ok in Hr as (? & ? & Hg & Hr); minv Hg; rewrite ?Hd in *; cbn in *; try done).
Qed.

Lemma cross_exec_live c e w w' :
  exec c e w = Ok (tt, w') → call_ok c → store w = deployed ∨ live (store w) → live (store w').
Proof.
  intros Hr Hok [Hd|Hl].
  - destruct (cross_deployed_calls _ _ _ _ Hr Hd) as (a & ch & sg & f & r & ->). by eapply cross_initialize_live.
  - destruct (bookkeeping c) eqn:Hb.
    { destruct (bookkeeping_frame c Hb) as [Ht Hv]. apply Hv in Hr as Hv'. apply Ht in Hr.
      destruct (live_validator_part _ _ Hl Hv'). by eapply live_transfer_part. }
    destruct c; try discriminate Hb; cbn [exec] in Hr.
    + unfold initialize in Hr. apply bind_Ok in Hr as (o & w1 & Ho & Hr). minv Ho. rewrite (lv_init _ Hl) in Hr. by minv Hr.
    + by eapply add_validator_live.
    + by eapply remove_validator_live.
    + apply discard_Ok in Hr as [i Hr]. by eapply initiate_live.
    + by apply complete_never in Hr.
Qed.
End invariant.

(** ** Theorems *)

Section theorems.
Context `{BridgeHost} (self : Address).
Implicit Types (w : World State Event) (e : Env).

Definition reachable (t : Z) (w : World State Event) : Prop :=
  ∃ t0 l lg, rtc (step exec call_ok self) (t0, mkWorld deployed l lg) (t, w).

Lemma cross_reachable_live t w : reachable t w → store w = deployed ∨ live (store w).
Proof.
  intros (t0 & l & lg & Hr).
  apply (reach_inv_world exec call_ok self (λ _ w, store w = deployed ∨ live (store w))) in Hr; [done| |done|by left].
  intros t' c e w0 w0' _ _ Hok Hl Hrun. right. by eapply cross_exec_live.
Qed.

Lemma cross_exec_keeps c e w w' i tr :
  exec c e w = Ok (tt, w') → live (store w) → transfer_key (store w) !! i = Some tr → transfer_key (store w') !! i = Some tr.
Proof.
  intros Hr Hl Hi. destruct (bookkeeping c) eqn:Hb.
  { destruct (bookkeeping_frame c Hb) as [Ht _]. apply Ht in Hr. unfold transfer_part in Hr. congruence. }
  destruct c; try discriminate Hb; cbn [exec] in Hr.
  - unfold initialize in Hr. by minv Hr.
  - unfold add_validator, require_admin, ensure_not_paused, required_for in Hr. by minv Hr.
  - unfold remove_validator, require_admin, ensure_not_paused, required_for in Hr. by minv Hr.
  - apply discard_Ok in Hr as [j Hr]. destruct (initiate_spec _ _ _ _ _ _ _ _ _ _ Hr Hl) as (y & [Hj Hst _ _ _ _ _ _ _]).
    unfold transfer_part in Hst. injection Hst as _ _ _ _ E5 _ _. rewrite E5. rewrite lookup_insert_ne; [done|].
    destruct (tf_id _ _ _ (lv_transfer _ Hl _ _ Hi)). lia.
  - by apply complete_never in Hr.
Qed.

(** A transfer that has been made stays for ever what it is:
    locked, unpaid, for a chain that is not the contract's.  No signatures complete
    it, and no sequence of calls changes or removes its record. *)
Theorem cross_transfers_stuck t w i tr :
  reachable t w → transfer_key (store w) !! i = Some tr →
  tr_status tr = Locked ∧ tr_signatures tr = [] ∧ CHAIN_ID_KEY (store w) ≠ Some (tr_destination_chain tr) ∧
  (∀ sigs e r, complete_transfer i sigs e w ≠ Ok r) ∧
  (∀ t' w', rtc (step exec call_ok self) (t, w) (t', w') → transfer_key (store w') !! i = Some tr).
Proof.
  intros Hr Hi. destruct (cross_reachable_live _ _ Hr) as [Hd|Hl]; [by rewrite Hd in Hi|].
  destruct (lv_transfer _ Hl _ _ Hi) as [_ [Hc Hne] [Hs Hg] _ _ _]. split; [done|]. split; [done|]. split; [congruence|].
  split; [intros sigs e r; by apply complete_never|]. intros t' w' Hsteps.
  apply (reach_inv_world exec call_ok self (λ _ w, live (store w) ∧ transfer_key (store w) !! i = Some tr)) in Hsteps as [_ Hi'];
    [done| |done|done].
  intros t1 c e w0 w0' _ _ Hok [Hl0 Hi0] Hrun. split; [by eapply cross_exec_live; eauto|by eapply cross_exec_keeps].
Qed.

(** C37: the volume of the transfers made since the last daily reset is
    what the daily counter says and at most the daily limit (none, if that is
    negative), likewise for the month;
    the counter of a user is what that user sent; and every transfer is within the
    limits of a single one. *)
Theorem cross_rate_limits t w cfg rs :
  reachable t w → RATE_LIMIT_CONFIG_KEY (store w) = Some cfg → RATE_LIMIT_STATE_KEY (store w) = Some rs →
  rs_daily_used rs = volume (since (rs_last_daily_reset rs)) (transfer_key (store w)) ∧
  rs_daily_used rs ≤ Z.max 0 (rc_daily_limit cfg) ∧
  rs_monthly_used rs = volume (since (rs_last_monthly_reset rs)) (transfer_key (store w)) ∧
  rs_monthly_used rs ≤ Z.max 0 (rc_monthly_limit cfg) ∧
  (∀ u, default 0 (rs_per_user_daily rs !! u) = volume (since_by (rs_last_daily_reset rs) u) (transfer_key (store w))) ∧
  (∀ i tr, transfer_key (store w) !! i = Some tr → rc_per_transaction_min cfg ≤ tr_amount tr ≤ rc_per_transaction_max cfg).
Proof.
  intros Hr Hc Hs. destruct (cross_reachable_live _ _ Hr) as [Hd|Hl]; [by rewrite Hd in Hc|].
  destruct (lv_rate _ Hl) as (cfg' & rs' & Hc' & Hs' & [Hw Hday Hmon Hu [Hld Hlm]] & Hall). simplify_eq. by split_and!.
Qed.

(** C36: [verify_transfer_signatures] accepts exactly the lists of at
    least the required number of signatures whose k-th is a valid signature of the
    message by the k-th active validator; once there is a validator, the required
    number is the quorum, rounded down but at least one, of a count that is not
    below the active ones. *)
Theorem cross_quorum_exact t w cfg tr sigs e :
  reachable t w → SIGNATURE_CONFIG_KEY (store w) = Some cfg →
  (verify_transfer_signatures tr sigs e w = Ok (tt, w) ↔
    sc_required_signatures cfg ≤ Z.of_nat (length sigs) ∧
    ∃ signers rest, active_validators (store w) = signers ++ rest ∧
      Forall2 (signed_by (store w) (transfer_message tr)) sigs signers) ∧
  (validators_of (store w) ≠ [] →
    Z.of_nat (length (active_validators (store w))) ≤ sc_total_validators cfg ∧
    sc_required_signatures cfg = Z.max ((sc_total_validators cfg * sc_quorum_percentage cfg) `div` 100) 1).
Proof.
  intros Hr Hc. destruct (cross_reachable_live _ _ Hr) as [Hd|Hl]; [by rewrite Hd in Hc|].
  split; [by apply verify_run, Hc; apply Hl|]. destruct (lv_quorum _ Hl) as (cfg' & Hc' & [_ Hq]). simplify_eq.
  intros Hne. destruct (Hq Hne) as [? ?]. split; [lia|done].
Qed.

(** A sender's nonce names at most one transfer, zero none, and a
    nonce that has been used is refused. *)
Theorem cross_nonce_once t w i tr :
  reachable t w → transfer_key (store w) !! i = Some tr →
  tr_nonce tr ≠ 0 ∧
  (∀ j tr', transfer_key (store w) !! j = Some tr' → tr_sender tr' = tr_sender tr → tr_nonce tr' = tr_nonce tr → j = i) ∧
  (∀ d r a n e x, initiate_transfer d r a n (tr_nonce tr) (tr_sender tr) e w ≠ Ok x).
Proof.
  intros Hr Hi. destruct (cross_reachable_live _ _ Hr) as [Hd|Hl]; [by rewrite Hd in Hi|].
  destruct (tf_nonce _ _ _ (lv_transfer _ Hl _ _ Hi)) as [Hz Hu]. split; [done|]. split.
  - intros j tr' Hj Hs Hk. by apply (lv_once _ Hl _ _ _ _ Hj Hi).
  - intros d r a n e [j w'] Hrun. destruct (initiate_spec _ _ _ _ _ _ _ _ _ _ Hrun Hl) as (y & Hy).
    pose proof (ii_fresh _ _ _ _ _ _ _ _ _ _ _ _ _ Hy). congruence.
Qed.

(** A transfer that is accepted: the next identifier, a record with what was asked,
    the fee of the configuration on top of the amount, both taken from the sender,
    and the fee added to the fees to collect. *)
Theorem cross_initiate_exact t w d r a n k s e i w' :
  reachable t w → initiate_transfer d r a n k s e w = Ok (i, w') →
  ∃ tr f tk, i = default 0 (TRANSFER_COUNTER_KEY (store w)) + 1 ∧
    transfer_key (store w') = <[i := tr]> (transfer_key (store w)) ∧
    tr_sender tr = s ∧ tr_recipient tr = r ∧ tr_token_address tr = a ∧ tr_destination_chain tr = d ∧ tr_amount tr = n ∧
    FEE_CONFIG_KEY (store w) = Some f ∧ tr_fee tr = Z.max ((n * fc_basis_points f) `div` 10000) (fc_min_fee f) ∧
    TOTAL_FEES_KEY (store w') = Some (default 0 (TOTAL_FEES_KEY (store w)) + tr_fee tr) ∧
    token_key (store w) !! a = Some tk ∧ taken tk e (ledger w) (ledger w') a s (n + tr_fee tr).
Proof.
  intros Hr Hrun. destruct (cross_reachable_live _ _ Hr) as [Hd|Hl].
  { assert (exec (CInitiate d r a n k s) e w = Ok (tt, w')) as Hx by (apply discard_Ok; by exists i).
    by apply cross_deployed_calls in Hx as (? & ? & ? & ? & ? & ?). }
  destruct (initiate_spec _ _ _ _ _ _ _ _ _ _ Hrun Hl) as (tr & [Hi Hst _ _ Htr (Hs & _ & Hn & _ & Hdc & Hrc & Hta) _ Hfee (tk & Htk & Htaken)]).
  unfold transfer_part in Hst. injection Hst as _ _ _ Ef Et _ _. destruct (tf_fee _ _ _ Htr) as (f & Hf & Hfe).
  rewrite Hn in Hfe. rewrite Ef in Hf. exists tr, f, tk. by split_and!.
Qed.
End theorems.

(** A verification that evaluates to [Ok] has changed nothing. *)
Lemma verified_ok `{BridgeHost} o tr sigs e (w : World State Event) :
  o = Some tr → from_option (λ tr, is_ok (verify_transfer_signatures tr sigs e w)) false o = true →
  verify_transfer_signatures tr sigs e w = Ok (tt, w).
Proof.
  intros -> Hok. simpl in Hok. destruct (verify_transfer_signatures tr sigs e w) as [[[] w']| |] eqn:Hrun; try discriminate Hok.
  by rewrite (proj1 (verify_reads tr sigs e w w tt w' eq_refl Hrun)).
Qed.

(** ** A concrete history *)

Module CrossBridgeDemo.

Definition self := mkAddress "bridge".
Definition admin := mkAddress "admin".
Definition alice := mkAddress "alice".
Definition xlm := mkAddress "XLM".
Definition usd := mkAddress "USD".
Definition v1 := mkAddress "v1".
Definition v2 := mkAddress "v2".
Definition v3 := mkAddress "v3".
Definition v4 := mkAddress "v4".
Definition v5 := mkAddress "v5".

(** Tokens that mint and burn in the ledger; a signature is the key and the message. *)
#[local] Instance simple_bridge_host : BridgeHost := {|
  tok_mint := λ _ l tk to n, if n <? 0 then None else Some (sl_credit l tk to n);
  tok_burn := λ e l tk from n,
    if (n <? 0) || (sl_balance l tk from <? n) || negb (authorized e from) then None else Some (sl_credit l tk from (- n));
  ed25519_valid := λ key message sig, bool_decide (sig = key ++ message);
  from_string_bytes := λ b, Some (mkAddress (String.string_of_list_ascii (map (λ z, Ascii.ascii_of_N (Z.to_N z)) b)));
|}.

Definition key (n : Z) : Bytes := replicate 32 n.
Definition w0 : World State Event := mkWorld deployed (sl_of [(xlm, alice, 5000); (usd, alice, 5000)]) [].

(** Four validators and a quorum of 67 percent; a token that is locked, one that is burned. *)
Definition setup : list (Z * list Address * Call) :=
  [(10, [], CInitialize admin Stellar (mkSigConfig 0 0 67) (mkFeeConfig 1000 5 admin) (mkRateConfig 1000 3000 800 1));
   (20, [admin], CAddValidator v1 (key 1) 1); (20, [admin], CAddValidator v2 (key 2) 1);
   (20, [admin], CAddValidator v3 (key 3) 1); (20, [admin], CAddValidator v4 (key 4) 1);
   (30, [admin], CAddToken xlm "XLM" 7 false true ∅); (30, [admin], CAddToken usd "USD" 7 true false ∅);
   (40, [alice], CInitiate Ethereum [98] xlm 600 1 alice); (50, [alice], CInitiate Ethereum [98] usd 300 2 alice)].
Definition w1 := run_script exec self setup w0.

Lemma cross_setup_reach : reachable self 50 w1.
Proof.
  exists 0, (ledger w0), []. change (mkWorld deployed (ledger w0) []) with w0.
  assert (script_ok exec self 0 setup w0 = true) as Hs by (vm_compute; reflexivity).
  assert (Forall (λ c, call_ok c.2) setup) as Hf by (repeat constructor; cbn; lia).
  exact (run_script_reach exec call_ok self 0 setup w0 Hs Hf).
Qed.

Definition e1 := env_at 60 self [admin; alice].
Definition message1 : Bytes := from_option transfer_message [] (transfer_key (store w1) !! 1).
Definition sigs : list Bytes := [key 1 ++ message1; key 2 ++ message1].
Definition err_of {A} (o : Outcome BridgeError A) : option BridgeError := match o with Err y => Some y | _ => None end.
Definition panics {A} (o : Outcome BridgeError A) : bool := match o with Panic _ => true | _ => false end.

Lemma cross_transfers_stuck_witness :
  tr_status <$> transfer_key (store w1) !! 1 = Some Locked ∧ ∀ r, complete_transfer 1 sigs e1 w1 ≠ Ok r.
Proof.
  assert (tr_status <$> transfer_key (store w1) !! 1 = Some Locked) as Hs by (vm_compute; reflexivity).
  split; [exact Hs|]. apply fmap_Some in Hs as (tr & Htr & _).
  destruct (cross_transfers_stuck self 50 w1 1 tr cross_setup_reach Htr) as (_ & _ & _ & Hno & _). exact (Hno sigs e1).
Defined.

Lemma cross_rate_limits_witness :
  ∃ rs, RATE_LIMIT_STATE_KEY (store w1) = Some rs ∧ rs_daily_used rs = 900 ∧
    volume (since (rs_last_daily_reset rs)) (transfer_key (store w1)) = 900.
Proof.
  assert (rs_daily_used <$> RATE_LIMIT_STATE_KEY (store w1) = Some 900) as Hs by (vm_compute; reflexivity).
  assert (rc_daily_limit <$> RATE_LIMIT_CONFIG_KEY (store w1) = Some 1000) as Hc by (vm_compute; reflexivity).
  apply fmap_Some in Hs as (rs & Hrs & Hu). apply fmap_Some in Hc as (cfg & Hcfg & _).
  destruct (cross_rate_limits self 50 w1 cfg rs cross_setup_reach Hcfg Hrs) as (Hd & _). exists rs.
  split; [exact Hrs|]. split; [exact (eq_sym Hu)|]. rewrite <- Hd. exact (eq_sym Hu).
Defined.

Lemma cross_quorum_exact_witness :
  ∃ tr cfg, transfer_key (store w1) !! 1 = Some tr ∧ SIGNATURE_CONFIG_KEY (store w1) = Some cfg ∧
    sc_required_signatures cfg = 2 ∧ sc_required_signatures cfg ≤ Z.of_nat (length sigs).
Proof.
  assert (tr_status <$> transfer_key (store w1) !! 1 = Some Locked) as Hs by (vm_compute; reflexivity).
  apply fmap_Some in Hs as (tr & Htr & _).
  assert (sc_required_signatures <$> SIGNATURE_CONFIG_KEY (store w1) = Some 2) as Hc by (vm_compute; reflexivity).
  apply fmap_Some in Hc as (cfg & Hcfg & H2). exists tr, cfg. split; [exact Htr|]. split; [exact Hcfg|]. split; [exact (eq_sym H2)|].
  destruct (cross_quorum_exact self 50 w1 cfg tr sigs e1 cross_setup_reach Hcfg) as ([Hv _] & _).
  destruct Hv as [Hle _]; [|exact Hle].
  assert (from_option (λ tr, is_ok (verify_transfer_signatures tr sigs e1 w1)) false (transfer_key (store w1) !! 1) = true) as Hok
    by (vm_compute; reflexivity).
  exact (verified_ok _ tr sigs e1 w1 Htr Hok).
Defined.

Lemma cross_nonce_once_witness : ∀ x, initiate_transfer Ethereum [98] xlm 1 1 alice e1 w1 ≠ Ok x.
Proof.
  assert ((λ tr, (tr_nonce tr, tr_sender tr)) <$> transfer_key (store w1) !! 1 = Some (1, alice)) as Hs by (vm_compute; reflexivity).
  apply fmap_Some in Hs as (tr & Htr & Heq). injection Heq as Hk Ha.
  destruct (cross_nonce_once self 50 w1 1 tr cross_setup_reach Htr) as (_ & _ & Hno). rewrite <- Hk, <- Ha in Hno.
  exact (Hno Ethereum [98] xlm 1 e1).
Defined.

(** Valid signatures of a quorum, and still no payment. *)
Example completion_refused : err_of (complete_transfer 1 sigs e1 w1) = Some InvalidChainPair.
Proof. vm_compute. reflexivity. Qed.

(** The same signatures in the other order: the host traps. *)
Example order_matters : panics (complete_transfer 1 (reverse sigs) e1 w1) = true.
Proof. vm_compute. reflexivity. Qed.

(** 67 percent of four validators are two of them. *)
Example half_is_a_quorum : sc_required_signatures <$> SIGNATURE_CONFIG_KEY (store w1) = Some 2.
Proof. vm_compute. reflexivity. Qed.

Example daily_limit_holds : err_of (initiate_transfer Ethereum [98] xlm 200 3 alice e1 w1) = Some DailyLimitExceeded.
Proof. vm_compute. reflexivity. Qed.

(** Three of four validators leave and one joins: three signatures are required of
    two active validators. *)
Definition turnover : list (Z * list Address * Call) :=
  [(60, [admin], CRemoveValidator v1); (60, [admin], CRemoveValidator v2); (60, [admin], CRemoveValidator v3);
   (70, [admin], CAddValidator v5 (key 5) 1)].
Example quorum_out_of_reach :
  let st := store (run_script exec self turnover w1) in
  (sc_required_signatures <$> SIGNATURE_CONFIG_KEY st, length (active_validators st)) = (Some 3, 2%nat).
Proof. vm_compute. reflexivity. Qed.

(** The fee of a burned token was burned, and is paid out again in the locked one:
    the contract then holds less than the 600 it has locked. *)
Definition w2 := world_of (collect_fees xlm e1 w1) w1.
Example fees_of_all_tokens_in_one : sl_balance (ledger w1) xlm self = 660 ∧ sl_balance (ledger w2) xlm self = 570.
Proof. vm_compute. split; reflexivity. Qed.

(** [per_user_daily] limits nobody, and [initialize] needs no signature. *)
Example anyone_initializes :
  is_ok (exec (CInitialize alice Stellar (mkSigConfig 0 0 67) (mkFeeConfig 0 0 alice) (mkRateConfig 1 1 1 1)) (env_at 1 self []) w0) = true.
Proof. vm_compute. reflexivity. Qed.
End CrossBridgeDemo.
