(* ===== verification/Compliance.v ===== *)
(** * contracts/compliance-integration

    src/contracts/compliance-integration/src/lib.rs, with the roles of
    src/lib/src/rbac.rs: KYC records as a state machine that operators advance and
    governance may reset after a delay, and the reports that verified parties issue. *)

From stdpp Require Import gmap strings list fin_maps.
From S2P Require Import Prelude Soroban.
Open Scope Z_scope.

Inductive Error :=
| Unauthorized | InvalidDID | ReportNotFound | InvalidCredential | CredentialExpired | CredentialRevoked
| ComplianceCheckFailed | InvalidRiskLevel | DuplicateReport | RateLimitExceeded | AuditRequired
| KycSubjectNotFound | KycInvalidTransition | KycTerminalState | KycRequestExpired | KycOperatorRequired
| KycSelfAssignment | KycNotVerified | KycOverrideNotScheduled | KycOverrideNotReady | KycOverrideAlreadyScheduled.

Inductive ComplianceType := KYC | AML | Sanctions | TaxCompliance | DataPrivacy | FinancialRegulation.
Inductive ComplianceStatus := Compliant | NonCompliant | CPending | UnderReview | Exempt.
Inductive RiskLevel := Low | Medium | High | Critical.

Record ComplianceFinding := mkFinding {
  cf_category : string;
  cf_severity : string;
  cf_description : string;
  cf_recommendation : option string;
}.

Record ComplianceReport := mkReport {
  cr_report_id : Z;
  cr_entity_did : string;
  cr_compliance_type : ComplianceType;
  cr_status : ComplianceStatus;
  cr_score : Z;
  cr_risk_level : RiskLevel;
  cr_findings : list ComplianceFinding;
  cr_issued_by : Address;
  cr_issued_at : Z;
  cr_expires_at : Z;
}.

Inductive KycStatus := Pending | InReview | Verified | Rejected.
#[global] Instance KycStatus_eq_dec : EqDecision KycStatus.
Proof. solve_decision. Defined.

Record KycRecord := mkKyc {
  ky_subject : Address;
  ky_subject_did : string;
  ky_status : KycStatus;
  ky_updated_by : Address;
  ky_updated_at : Z;
  ky_created_at : Z;
  ky_finalized_at : option Z;
  ky_expires_at : option Z;
}.

Record KycOverrideRequest := mkOverride {
  ov_subject : Address;
  ov_requested_by : Address;
  ov_execute_after : Z;
  ov_created_at : Z;
}.

Definition KYC_PENDING_EXPIRY_SECS : Z := 86400 * 7.
Definition KYC_OVERRIDE_TIMELOCK_SECS : Z := 86400 * 2.

(** The storage.  Records are keyed [(KYC_RECORDS, subject)]; [kyc_init] also asks for
    [(KYC_RECORDS, did)], another family of keys, which nothing writes. *)
Record State := mkState {
  REPORTS : gmap Z ComplianceReport;
  KYC_RECORDS : gmap Address KycRecord;
  KYC_RECORDS_did : gmap string KycRecord;
  KYC_OVERRIDES : gmap Address KycOverrideRequest;
  NEXT_REPORT_ID : option Z;
  ADMIN_KEY : option Address;
  GOVERNANCE_ROLE_KEY : option (list Address);
  KYC_OPERATOR_ROLE_KEY : option (list Address);
}.

Definition deployed : State := mkState ∅ ∅ ∅ ∅ None None None None.

Inductive Event :=
| kyc_initiated (subject : Address) (did : string) (expires_at : option Z)
| kyc_expired (subject : Address) (did : string) (expires_at : Z)
| kyc_transitioned (subject : Address) (previous new : KycStatus) (operator : Address)
| kyc_overridden (subject governance : Address).

Ltac mred v ::= eval cbn [store ledger log REPORTS KYC_RECORDS KYC_RECORDS_did KYC_OVERRIDES NEXT_REPORT_ID ADMIN_KEY
  GOVERNANCE_ROLE_KEY KYC_OPERATOR_ROLE_KEY ky_subject ky_subject_did ky_status ky_updated_by ky_updated_at
  ky_created_at ky_finalized_at ky_expires_at ov_subject ov_requested_by ov_execute_after ov_created_at fst snd] in v.

(** ** lib/src/errors.rs and lib/src/rbac.rs *)

Inductive ContractError :=
| AlreadyInitialized | CUnauthorized | DuplicateAgentId | AgentNotFound | InvalidAgentId | InvalidInput | AgentLeased
| OverflowError | SameAddressTransfer | NotOwner | InvalidAmount | NotEnoughBalance | AlreadyExists | InvalidMetadata
| OracleError | CRateLimitExceeded | RoleEscalationAttempt | RoleConflict | MetadataTooLong | CapabilitiesExceeded.

Section rbac.
Context `{TokenHost}.

Local Abbreviation R := (M State ContractError Event).

Definition get_admin : R Address := o ← gets ADMIN_KEY; ok_or o CUnauthorized.
Definition require_admin (caller : Address) : R () :=
  admin ← get_admin;
  throw_if (negb (bool_decide (caller = admin))) RoleEscalationAttempt.

Definition has_governance_role (address : Address) : R bool :=
  gets (λ s, bool_decide (address ∈ default [] (GOVERNANCE_ROLE_KEY s))).
Definition has_kyc_operator_role (address : Address) : R bool :=
  gets (λ s, bool_decide (address ∈ default [] (KYC_OPERATOR_ROLE_KEY s))).

Definition require_governance_role (caller : Address) : R () :=
  governance_roles ← gets (λ s, default [] (GOVERNANCE_ROLE_KEY s));
  if bool_decide (caller ∈ governance_roles) then
    conflict ← has_kyc_operator_role caller;
    throw_if conflict RoleConflict
  else throw RoleEscalationAttempt.
Definition require_kyc_operator_role (caller : Address) : R () :=
  kyc_operators ← gets (λ s, default [] (KYC_OPERATOR_ROLE_KEY s));
  if bool_decide (caller ∈ kyc_operators) then
    conflict ← has_governance_role caller;
    throw_if conflict RoleConflict
  else throw RoleEscalationAttempt.

(** A list is stored, or its key removed when it is empty. *)
Definition stored (l : list Address) : option (list Address) := match l with [] => None | _ => Some l end.

Definition remove_from_governance (address : Address) : R () :=
  governance_roles ← gets (λ s, default [] (GOVERNANCE_ROLE_KEY s));
  if bool_decide (address ∈ governance_roles)
  then modify (λ s, {| s with GOVERNANCE_ROLE_KEY := stored (remove_first address governance_roles) |})
  else mret tt.
Definition remove_from_kyc_operators (address : Address) : R () :=
  kyc_operators ← gets (λ s, default [] (KYC_OPERATOR_ROLE_KEY s));
  if bool_decide (address ∈ kyc_operators)
  then modify (λ s, {| s with KYC_OPERATOR_ROLE_KEY := stored (remove_first address kyc_operators) |})
  else mret tt.

Definition assign_governance_role (admin new_governance : Address) : R () :=
  require_admin admin;;
  remove_from_kyc_operators new_governance;;
  governance_roles ← gets (λ s, default [] (GOVERNANCE_ROLE_KEY s));
  if bool_decide (new_governance ∈ governance_roles) then mret tt
  else modify (λ s, {| s with GOVERNANCE_ROLE_KEY := Some (governance_roles ++ [new_governance]) |}).
Definition assign_kyc_operator_role (admin new_operator : Address) : R () :=
  require_admin admin;;
  remove_from_governance new_operator;;
  kyc_operators ← gets (λ s, default [] (KYC_OPERATOR_ROLE_KEY s));
  if bool_decide (new_operator ∈ kyc_operators) then mret tt
  else modify (λ s, {| s with KYC_OPERATOR_ROLE_KEY := Some (kyc_operators ++ [new_operator]) |}).
Definition remove_kyc_operator_role (admin operator : Address) : R () :=
  require_admin admin;;
  remove_from_kyc_operators operator.
End rbac.

(** ** The contract *)

Section contract.
Context `{TokenHost}.

Local Abbreviation C := (M State Error Event).

(** [map_err(|_| x)]. *)
Definition map_err {A} (x : Error) (m : M State ContractError Event A) : C A := λ e w,
  match m e w with Ok r => Ok r | Err _ => Err x | Panic msg => Panic msg end.

Definition is_terminal_kyc_status (status : KycStatus) : bool :=
  match status with Verified | Rejected => true | _ => false end.
Definition is_valid_kyc_transition (old new : KycStatus) : bool :=
  match old, new with
  | Pending, InReview | InReview, Verified | InReview, Rejected => true
  | _, _ => false
  end.

Definition get_kyc_record (subject : Address) : C KycRecord :=
  o ← gets (λ s, KYC_RECORDS s !! subject);
  ok_or o KycSubjectNotFound.
Definition put_kyc_record (subject : Address) (record : KycRecord) : C () :=
  modify (λ s, {| s with KYC_RECORDS := <[subject := record]> (KYC_RECORDS s) |}).
Definition get_next_report_id : C Z := gets (λ s, default 1 (NEXT_REPORT_ID s)).
Definition verify_admin (caller : Address) : C () :=
  o ← gets ADMIN_KEY;
  admin ← ok_or o Unauthorized;
  throw_if (negb (bool_decide (caller = admin))) Unauthorized.

Definition kyc_get (subject : Address) : C KycRecord := get_kyc_record subject.
Definition kyc_is_verified (subject : Address) : C bool :=
  gets (λ s, match KYC_RECORDS s !! subject with
             | Some record => bool_decide (ky_status record = Verified)
             | None => false
             end).
Definition require_verified_kyc (subject : Address) : C () :=
  verified ← kyc_is_verified subject;
  throw_if (negb verified) KycNotVerified.

Definition generate_compliance_report (entity_did : string) (compliance_type : ComplianceType) (status : ComplianceStatus)
    (score : Z) (risk_level : RiskLevel) (findings : list ComplianceFinding) (issuer : Address) (validity_days : Z) : C Z :=
  require_auth issuer;;
  require_verified_kyc issuer;;
  report_id ← get_next_report_id;
  t ← now;
  validity ← plain_mul U64 validity_days 86400;
  expires_at ← plain_add U64 t validity;
  modify (λ s, {| s with REPORTS := <[report_id := mkReport report_id entity_did compliance_type status score risk_level
    findings issuer t expires_at]> (REPORTS s) |});;
  next ← plain_add U64 report_id 1;
  modify (λ s, {| s with NEXT_REPORT_ID := Some next |});;
  mret report_id.

Definition get_compliance_report (report_id : Z) : C ComplianceReport :=
  o ← gets (λ s, REPORTS s !! report_id);
  ok_or o ReportNotFound.

Definition verify_creds_compliance (entity_did : string) (credential_ids : list Z) (compliance_type : ComplianceType)
    (caller : Address) : C bool :=
  require_auth caller;;
  require_verified_kyc caller;;
  mret true.

Definition create_risk_assessment (entity_did : string) (risk_level : RiskLevel) (jurisdictions : list string)
    (mitigation_strategy : option string) (assessor : Address) : C Z :=
  require_auth assessor;;
  require_verified_kyc assessor;;
  assessment_id ← get_next_report_id;
  next ← plain_add U64 assessment_id 1;
  modify (λ s, {| s with NEXT_REPORT_ID := Some next |});;
  mret assessment_id.

Definition kyc_init (operator subject : Address) (subject_did : string) : C () :=
  map_err Unauthorized (require_kyc_operator_role operator);;
  throw_if (bool_decide (operator = subject)) KycSelfAssignment;;
  o ← gets (λ s, KYC_RECORDS_did s !! subject_did);
  throw_if (bool_decide (is_Some o)) DuplicateReport;;
  t ← now;
  expires ← plain_add U64 t KYC_PENDING_EXPIRY_SECS;
  put_kyc_record subject (mkKyc subject subject_did Pending operator t t None (Some expires));;
  publish (kyc_initiated subject subject_did (Some expires)).

Definition kyc_transition (operator subject : Address) (new_status : KycStatus) : C () :=
  map_err KycOperatorRequired (require_kyc_operator_role operator);;
  throw_if (bool_decide (operator = subject)) KycSelfAssignment;;
  map_err Unauthorized (require_kyc_operator_role operator);;
  throw_if (bool_decide (operator = subject)) KycSelfAssignment;;
  record ← get_kyc_record subject;
  (if bool_decide (ky_status record = Pending) then
     match ky_expires_at record with
     | Some expires_at =>
         t ← now;
         if t >=? expires_at then
           publish (kyc_expired subject (ky_subject_did record) expires_at);;
           throw KycRequestExpired
         else mret tt
     | None => mret tt
     end
   else mret tt);;
  throw_if (is_terminal_kyc_status (ky_status record)) KycTerminalState;;
  throw_if (negb (is_valid_kyc_transition (ky_status record) new_status)) KycInvalidTransition;;
  t ← now;
  put_kyc_record subject {| record with ky_status := new_status; ky_updated_by := operator; ky_updated_at := t;
    ky_expires_at := None; ky_finalized_at := if is_terminal_kyc_status new_status then Some t else None |};;
  publish (kyc_transitioned subject (ky_status record) new_status operator).

Definition kyc_schedule_override (governance subject : Address) : C Z :=
  map_err Unauthorized (require_governance_role governance);;
  record ← get_kyc_record subject;
  throw_if (negb (is_terminal_kyc_status (ky_status record))) KycInvalidTransition;;
  o ← gets (λ s, KYC_OVERRIDES s !! subject);
  throw_if (bool_decide (is_Some o)) KycOverrideAlreadyScheduled;;
  t ← now;
  execute_after ← plain_add U64 t KYC_OVERRIDE_TIMELOCK_SECS;
  modify (λ s, {| s with KYC_OVERRIDES := <[subject := mkOverride subject governance execute_after t]> (KYC_OVERRIDES s) |});;
  mret execute_after.

Definition kyc_execute_override (governance subject : Address) : C () :=
  map_err Unauthorized (require_governance_role governance);;
  o ← gets (λ s, KYC_OVERRIDES s !! subject);
  request ← ok_or o KycOverrideNotScheduled;
  t ← now;
  throw_if (t <? ov_execute_after request) KycOverrideNotReady;;
  record ← get_kyc_record subject;
  throw_if (negb (is_terminal_kyc_status (ky_status record))) KycInvalidTransition;;
  expires ← plain_add U64 t KYC_PENDING_EXPIRY_SECS;
  put_kyc_record subject {| record with ky_status := Pending; ky_updated_by := governance; ky_updated_at := t;
    ky_created_at := t; ky_finalized_at := None; ky_expires_at := Some expires |};;
  modify (λ s, {| s with KYC_OVERRIDES := delete subject (KYC_OVERRIDES s) |});;
  publish (kyc_overridden subject governance).

Definition kyc_set_operator (admin operator : Address) (is_operator : bool) : C () :=
  verify_admin admin;;
  if is_operator then map_err Unauthorized (assign_kyc_operator_role admin operator)
  else map_err Unauthorized (remove_kyc_operator_role admin operator).
End contract.

(** ** The entry points *)

Inductive Call :=
| CReport (did : string) (type : ComplianceType) (status : ComplianceStatus) (score : Z) (risk : RiskLevel)
    (findings : list ComplianceFinding) (issuer : Address) (validity_days : Z)
| CVerifyCreds (did : string) (ids : list Z) (type : ComplianceType) (caller : Address)
| CRiskAssessment (did : string) (risk : RiskLevel) (jurisdictions : list string) (mitigation : option string)
    (assessor : Address)
| CKycInit (operator subject : Address) (did : string)
| CKycTransition (operator subject : Address) (new_status : KycStatus)
| CKycSchedule (governance subject : Address)
| CKycOverride (governance subject : Address)
| CKycSetOperator (admin operator : Address) (is_operator : bool).

Definition exec `{TokenHost} (c : Call) : M State Error Event () :=
  match c with
  | CReport d t s n r f i v => discard (generate_compliance_report d t s n r f i v)
  | CVerifyCreds d i t a => discard (verify_creds_compliance d i t a)
  | CRiskAssessment d r j m a => discard (create_risk_assessment d r j m a)
  | CKycInit o s d => kyc_init o s d
  | CKycTransition o s n => kyc_transition o s n
  | CKycSchedule g s => discard (kyc_schedule_override g s)
  | CKycOverride g s => kyc_execute_override g s
  | CKycSetOperator a o b => kyc_set_operator a o b
  end.

(** Unsigned arguments are non-negative, by their Rust types. *)
Definition call_ok (c : Call) : Prop :=
  match c with CReport _ _ _ n _ _ _ v => 0 ≤ n ∧ 0 ≤ v | _ => True end.
