(* ===== verification/ComplianceProofs.v ===== *)
(** * contracts/compliance-integration: theorems

    That a deployed contract can do nothing; and, whatever administrator and roles
    its storage holds, the separation of the roles, the life of a KYC record and
    the reports. *)

From stdpp Require Import gmap strings list fin_maps.
From S2P Require Import Prelude Soroban TokenModel Compliance.
Open Scope Z_scope.

Section runs.
Context `{TokenHost}.
Implicit Types (w : World State Event) (e : Env).

Lemma map_err_Ok {A} x (m : M State ContractError Event A) e w r : map_err x m e w = Ok r ↔ m e w = Ok r.
Proof. unfold map_err. destruct (m e w); split; congruence. Qed.

Definition operators (st : State) : list Address := default [] (KYC_OPERATOR_ROLE_KEY st).
Definition governors (st : State) : list Address := default [] (GOVERNANCE_ROLE_KEY st).

(** Holding one role and not the other. *)
Definition is_operator (st : State) (a : Address) : Prop := a ∈ operators st ∧ a ∉ governors st.
Definition is_governor (st : State) (a : Address) : Prop := a ∈ governors st ∧ a ∉ operators st.

Lemma require_operator_spec a e w u w' :
  require_kyc_operator_role a e w = Ok (u, w') → is_operator (store w) a ∧ w' = w.
Proof. intros Hr. unfold require_kyc_operator_role, has_governance_role in Hr. minv Hr. zbool. done. Qed.

Lemma require_governor_spec a e w u w' :
  require_governance_role a e w = Ok (u, w') → is_governor (store w) a ∧ w' = w.
Proof. intros Hr. unfold require_governance_role, has_kyc_operator_role in Hr. minv Hr. zbool. done. Qed.

Lemma verified_spec a e w u w' :
  require_verified_kyc a e w = Ok (u, w') →
  w' = w ∧ ∃ r, KYC_RECORDS (store w) !! a = Some r ∧ ky_status r = Verified.
Proof.
  intros Hr. unfold require_verified_kyc, kyc_is_verified in Hr. minv Hr. split; [done|].
  destruct (KYC_RECORDS (store w) !! a) as [r|]; [|done]. zbool. eauto.
Qed.

(** On a deployed contract no call succeeds: there is no
    administrator and no way to set one, so there are no operators, no KYC records
    and nobody who may issue a report. *)
Theorem compliance_never_starts c e l lg r : exec c e (mkWorld deployed l lg) ≠ Ok r.
Proof.
  intros Hr. destruct r as [[] w']. destruct c; cbn [exec] in Hr; try apply discard_Ok in Hr as [? Hr].
  1-3: unfold generate_compliance_report, verify_creds_compliance, create_risk_assessment in Hr;
    apply bind_Ok in Hr as ([] & w1 & Ha & Hr); minv Ha;
    apply bind_Ok in Hr as ([] & w1 & (_ & ? & Hv & _)%verified_spec & _); by rewrite lookup_empty in Hv.
  1-4: unfold kyc_init, kyc_transition, kyc_schedule_override, kyc_execute_override in Hr;
    apply bind_Ok in Hr as ([] & w1 & Hm & _); apply map_err_Ok in Hm;
    first [apply require_operator_spec in Hm as [[Hm _] _]|apply require_governor_spec in Hm as [[Hm _] _]];
    by apply not_elem_of_nil in Hm.
  unfold kyc_set_operator, verify_admin in Hr. by minv Hr.
Qed.

(** ** Roles *)

Record roles_ok (st : State) : Prop := {
  rk_operators : NoDup (operators st);
  rk_governors : NoDup (governors st);
  rk_disjoint a : a ∈ operators st → a ∉ governors st;
}.

Lemma stored_default l : default [] (stored l) = l.
Proof. by destruct l. Qed.

Lemma set_operator_roles a o b e w w' :
  kyc_set_operator a o b e w = Ok (tt, w') → roles_ok (store w) →
  roles_ok (store w') ∧ REPORTS (store w') = REPORTS (store w) ∧ KYC_RECORDS (store w') = KYC_RECORDS (store w) ∧
  KYC_OVERRIDES (store w') = KYC_OVERRIDES (store w) ∧ NEXT_REPORT_ID (store w') = NEXT_REPORT_ID (store w) ∧
  ADMIN_KEY (store w) = Some a.
Proof.
  intros Hr [Hno Hng Hd]. unfold kyc_set_operator in Hr.
  apply bind_Ok in Hr as ([] & w1 & Hv & Hr). unfold verify_admin in Hv. minv Hv. zbool. simplify_eq.
  unfold operators, governors in *.
  destruct b; apply map_err_Ok in Hr; unfold assign_kyc_operator_role, remove_kyc_operator_role, remove_from_governance,
    remove_from_kyc_operators, require_admin, get_admin in Hr; minv Hr; zbool; (split; [|done]);
    split; unfold operators, governors; cbn; rewrite ?stored_default; eauto using NoDup_snoc, NoDup_remove_first.
  all: intros x; rewrite ?elem_of_app, ?list_elem_of_singleton, ?elem_of_remove_first_NoDup by done; naive_solver.
Qed.
End runs.

(** ** The life of a KYC record *)

(** How the record of a subject may change at time [t], given the storage before. *)
Inductive kyc_moves (st : State) (t : Z) (s : Address) : option KycRecord → option KycRecord → Prop :=
| km_same o : kyc_moves st t s o o
| km_init o op did :
    is_operator st op → op ≠ s →
    kyc_moves st t s o (Some (mkKyc s did Pending op t t None (Some (t + KYC_PENDING_EXPIRY_SECS))))
| km_review r op :
    is_operator st op → op ≠ s → ky_status r = Pending → (∀ x, ky_expires_at r = Some x → t < x) →
    kyc_moves st t s (Some r) (Some {| r with ky_status := InReview; ky_updated_by := op; ky_updated_at := t;
      ky_expires_at := None; ky_finalized_at := None |})
| km_decide r op new :
    is_operator st op → op ≠ s → ky_status r = InReview → new = Verified ∨ new = Rejected →
    kyc_moves st t s (Some r) (Some {| r with ky_status := new; ky_updated_by := op; ky_updated_at := t;
      ky_expires_at := None; ky_finalized_at := Some t |})
| km_override r g req :
    is_governor st g → is_terminal_kyc_status (ky_status r) = true → KYC_OVERRIDES st !! s = Some req →
    ov_created_at req + KYC_OVERRIDE_TIMELOCK_SECS ≤ t →
    kyc_moves st t s (Some r) (Some {| r with ky_status := Pending; ky_updated_by := g; ky_updated_at := t;
      ky_created_at := t; ky_finalized_at := None; ky_expires_at := Some (t + KYC_PENDING_EXPIRY_SECS) |}).

Record record_ok (t : Z) (s : Address) (r : KycRecord) : Prop := {
  ro_subject : ky_subject r = s;
  ro_finalized : is_Some (ky_finalized_at r) ↔ is_terminal_kyc_status (ky_status r) = true;
  ro_expires : is_Some (ky_expires_at r) ↔ ky_status r = Pending;
  ro_times : ky_created_at r ≤ ky_updated_at r ≤ t;
}.

Record override_ok (t : Z) (s : Address) (o : KycOverrideRequest) : Prop := {
  oo_subject : ov_subject o = s;
  oo_delay : ov_execute_after o = ov_created_at o + KYC_OVERRIDE_TIMELOCK_SECS;
  oo_time : ov_created_at o ≤ t;
}.

Record live (t : Z) (st : State) : Prop := {
  lv_roles : roles_ok st;
  lv_record s r : KYC_RECORDS st !! s = Some r → record_ok t s r;
  lv_override s o : KYC_OVERRIDES st !! s = Some o → override_ok t s o;
  lv_report i r : REPORTS st !! i = Some r → cr_report_id r = i ∧ 1 ≤ i < default 1 (NEXT_REPORT_ID st) ∧ cr_issued_at r ≤ t;
  lv_next : 1 ≤ default 1 (NEXT_REPORT_ID st);
}.

Lemma live_later t t' st : live t st → t ≤ t' → live t' st.
Proof.
  intros [Hr Hk Ho Hp Hn] Ht. split; [done| | | |done].
  - intros s r Hs. destruct (Hk s r Hs). split; try done. lia.
  - intros s o Hs. destruct (Ho s o Hs). split; try done. lia.
  - intros i r Hi. destruct (Hp i r Hi) as (? & ? & ?). split_and!; done || lia.
Qed.

(** A move keeps a record well-formed. *)
Lemma kyc_moves_ok st t s o o' :
  kyc_moves st t s o o' → (∀ r, o = Some r → record_ok t s r) → ∀ r, o' = Some r → record_ok t s r.
Proof.
  assert (∀ x : Z, is_Some (Some x)) as Hsome by eauto.
  assert (¬ is_Some (None : option Z)) as Hnone by by intros [? ?].
  intros [o1|o1 op did ? ?|r op ? ? Hs ?|r op new ? ? Hs Hnew|r g req ? Hs ? ?] Hok r' Heq; [by apply Hok|..];
    injection Heq as <-.
  - split; cbn; done || lia || naive_solver.
  - destruct (Hok r eq_refl). split; cbn; done || lia || naive_solver.
  - destruct (Hok r eq_refl). destruct Hnew as [-> | ->]; split; cbn; done || lia || naive_solver.
  - destruct (Hok r eq_refl). split; cbn; done || lia || naive_solver.
Qed.

Section lifecycle.
Context `{TokenHost}.
Implicit Types (w : World State Event) (e : Env).

Lemma writes_moves s r w w' t :
  KYC_RECORDS (store w') = <[s := r]> (KYC_RECORDS (store w)) →
  kyc_moves (store w) t s (KYC_RECORDS (store w) !! s) (Some r) →
  ∀ s', kyc_moves (store w) t s' (KYC_RECORDS (store w) !! s') (KYC_RECORDS (store w') !! s').
Proof.
  intros Hw Hm s'. rewrite Hw. destruct (decide (s' = s)) as [Heq|Hne].
  - rewrite Heq, lookup_insert_eq. done.
  - rewrite lookup_insert_ne by done. constructor.
Qed.

Lemma kyc_init_moves o s d e w w' :
  kyc_init o s d e w = Ok (tt, w') →
  (∃ r, store w' = {| (store w) with KYC_RECORDS := <[s := r]> (KYC_RECORDS (store w)) |} ∧
    kyc_moves (store w) (timestamp e) s (KYC_RECORDS (store w) !! s) (Some r)).
Proof.
  intros Hr. unfold kyc_init, put_kyc_record in Hr.
  apply bind_Ok in Hr as ([] & w1 & [Hop ->]%map_err_Ok%require_operator_spec & Hr). minv Hr. inv_checked. zbool.
  eexists. split; [reflexivity|]. by apply km_init.
Qed.

Lemma kyc_transition_moves o s n e w w' :
  kyc_transition o s n e w = Ok (tt, w') →
  (∃ r, store w' = {| (store w) with KYC_RECORDS := <[s := r]> (KYC_RECORDS (store w)) |} ∧
    kyc_moves (store w) (timestamp e) s (KYC_RECORDS (store w) !! s) (Some r)).
Proof.
  intros Hr. unfold kyc_transition, put_kyc_record, get_kyc_record in Hr.
  apply bind_Ok in Hr as ([] & w1 & [Hop ->]%map_err_Ok%require_operator_spec & Hr).
  apply bind_Ok in Hr as ([] & w1 & Hne & Hr). minv Hne.
  apply bind_Ok in Hr as ([] & w1 & [_ ->]%map_err_Ok%require_operator_spec & Hr).
  apply bind_Ok in Hr as ([] & w1 & Hne2 & Hr). minv Hne2. zbool.
  apply bind_Ok in Hr as (r & w1 & Hg & Hr). minv Hg.
  apply bind_Ok in Hr as ([] & w1 & Hexp & Hr).
  assert (w1 = w ∧ (ky_status r = Pending → ∀ x, ky_expires_at r = Some x → timestamp e < x)) as [-> Hx].
  { minv Hexp; zbool; split; try done; intros; simplify_eq; done || lia. }
  minv Hr. zbool. eexists. split; [reflexivity|]. match goal with Hk : KYC_RECORDS _ !! s = _ |- _ => rewrite Hk end.
  destruct (ky_status r) eqn:Hs, n; try discriminate Hr1; cbn [is_terminal_kyc_status].
  - apply km_review; auto.
  - apply km_decide; auto.
  - apply km_decide; auto.
Qed.

Lemma override_moves g s e w w' t :
  kyc_execute_override g s e w = Ok (tt, w') → live t (store w) →
  (∃ r, store w' = {| (store w) with KYC_RECORDS := <[s := r]> (KYC_RECORDS (store w));
      KYC_OVERRIDES := delete s (KYC_OVERRIDES (store w)) |} ∧
    kyc_moves (store w) (timestamp e) s (KYC_RECORDS (store w) !! s) (Some r)).
Proof.
  intros Hr Hl. unfold kyc_execute_override, put_kyc_record, get_kyc_record in Hr.
  apply bind_Ok in Hr as ([] & w1 & [Hg ->]%map_err_Ok%require_governor_spec & Hr). minv Hr. inv_checked. zbool.
  eexists. split; [reflexivity|].
  match goal with Hk : KYC_RECORDS _ !! s = _, Ho : KYC_OVERRIDES _ !! s = Some ?req |- _ =>
    rewrite Hk; apply (km_override _ _ _ _ g req); try done; rewrite <- (oo_delay _ _ _ (lv_override _ _ Hl _ _ Ho)); lia end.
Qed.

Lemma schedule_run g s e w x w' :
  kyc_schedule_override g s e w = Ok (x, w') →
  ∃ o, store w' = {| (store w) with KYC_OVERRIDES := <[s := o]> (KYC_OVERRIDES (store w)) |} ∧ override_ok (timestamp e) s o.
Proof.
  intros Hr. unfold kyc_schedule_override, get_kyc_record in Hr.
  apply bind_Ok in Hr as ([] & w1 & [Hg ->]%map_err_Ok%require_governor_spec & Hr). minv Hr. inv_checked.
  eexists. split; [reflexivity|]. split; cbn; done || lia.
Qed.

(** Issuing a report, or numbering an assessment. *)
Lemma report_run d ty sta n ri f i v e w x w' :
  generate_compliance_report d ty sta n ri f i v e w = Ok (x, w') →
  x = default 1 (NEXT_REPORT_ID (store w)) ∧ authorized e i = true ∧
  (∃ k, KYC_RECORDS (store w) !! i = Some k ∧ ky_status k = Verified) ∧
  store w' = {| (store w) with REPORTS := <[x := mkReport x d ty sta n ri f i (timestamp e) (timestamp e + v * 86400)]> (REPORTS (store w));
    NEXT_REPORT_ID := Some (x + 1) |}.
Proof.
  intros Hr. unfold generate_compliance_report, get_next_report_id in Hr.
  apply bind_Ok in Hr as ([] & w1 & Ha & Hr). minv Ha. apply bind_Ok in Hr as ([] & w1 & [-> Hv]%verified_spec & Hr).
  minv Hr. inv_checked. done.
Qed.

Lemma assessment_run d r j m a e w x w' :
  create_risk_assessment d r j m a e w = Ok (x, w') →
  x = default 1 (NEXT_REPORT_ID (store w)) ∧ store w' = {| (store w) with NEXT_REPORT_ID := Some (x + 1) |}.
Proof.
  intros Hr. unfold create_risk_assessment, get_next_report_id in Hr.
  apply bind_Ok in Hr as ([] & w1 & Ha & Hr). minv Ha. apply bind_Ok in Hr as ([] & w1 & [-> Hv]%verified_spec & Hr).
  minv Hr. inv_checked. done.
Qed.

(** What a call does to the reports: at most one is added, by a verified issuer who signed. *)
Definition reports_grow (e : Env) (st st' : State) : Prop :=
  ∀ i r, REPORTS st' !! i = Some r ↔
    REPORTS st !! i = Some r ∨
    REPORTS st !! i = None ∧ REPORTS st' !! i = Some r ∧ authorized e (cr_issued_by r) = true ∧
      ∃ k, KYC_RECORDS st !! cr_issued_by r = Some k ∧ ky_status k = Verified.

Lemma reports_same e st st' : REPORTS st' = REPORTS st → reports_grow e st st'.
Proof. intros Heq i r. rewrite Heq. naive_solver. Qed.

Lemma moves_live t st ov s r :
  live t st → kyc_moves st t s (KYC_RECORDS st !! s) (Some r) →
  (∀ s o, ov !! s = Some o → KYC_OVERRIDES st !! s = Some o) →
  live t {| st with KYC_RECORDS := <[s := r]> (KYC_RECORDS st); KYC_OVERRIDES := ov |}.
Proof.
  intros [Hr Hk Ho Hp Hn] Hm Hov. split; [by destruct Hr; split| | |done|done]; cbn in *.
  - intros s' r' [[<- <-]|[_ Hs]]%lookup_insert_Some; [|by apply Hk].
    apply (kyc_moves_ok _ _ _ _ _ Hm); [|done]. intros y. apply Hk.
  - intros s' o Hs. by apply Ho, Hov.
Qed.

Lemma compliance_exec c e w w' t :
  exec c e w = Ok (tt, w') → live t (store w) → t ≤ timestamp e →
  live (timestamp e) (store w') ∧
  (∀ s, kyc_moves (store w) (timestamp e) s (KYC_RECORDS (store w) !! s) (KYC_RECORDS (store w') !! s)) ∧
  reports_grow e (store w) (store w').
Proof.
  intros Hr Hl0 Ht. pose proof (live_later _ _ _ Hl0 Ht) as Hl.
  assert (∀ st s, kyc_moves st (timestamp e) s (KYC_RECORDS st !! s) (KYC_RECORDS st !! s)) as Hsame by (intros; constructor).
  destruct c; cbn [exec] in Hr; try apply discard_Ok in Hr as [x Hr].
  - apply report_run in Hr as (Hx & Ha & Hv & Hst). rewrite Hst. pose proof (lv_next _ _ Hl) as Hn.
    assert (REPORTS (store w) !! x = None) as Hnone.
    { apply eq_None_not_Some. intros [r Hi]. destruct (lv_report _ _ Hl _ _ Hi) as (_ & ? & _). lia. }
    split; [|split; [exact (Hsame (store w))|]].
    + destruct Hl as [Hro Hk Ho Hp _]. split; [by destruct Hro; split|done|done| |cbn; lia]. cbn.
      intros i r [[<- <-]|[_ Hi]]%lookup_insert_Some; [cbn; split_and!; done || lia|].
      destruct (Hp i r Hi) as (? & ? & ?). split_and!; done || lia.
    + intros i r. cbn. rewrite lookup_insert. case_decide as Hi; [rewrite <- Hi, Hnone|]; naive_solver.
  - unfold verify_creds_compliance in Hr. apply bind_Ok in Hr as ([] & w1 & Ha & Hr). minv Ha.
    apply bind_Ok in Hr as ([] & w1 & [-> _]%verified_spec & Hr). minv Hr. split; [done|]. split; [exact (Hsame _)|]. by apply reports_same.
  - apply assessment_run in Hr as [Hx Hst]. rewrite Hst. split; [|split; [exact (Hsame (store w))|by apply reports_same]].
    destruct Hl as [Hro Hk Ho Hp Hn]. split; [by destruct Hro; split|done|done| |cbn; lia]. cbn.
    intros i r Hi. destruct (Hp i r Hi) as (? & ? & ?). split_and!; done || lia.
  - apply kyc_init_moves in Hr as (r & Hst & Hm). rewrite Hst. split; [by apply (moves_live _ _ (KYC_OVERRIDES (store w)))|].
    split; [eapply (writes_moves _ r w {| w with store := _ |}); done|by apply reports_same].
  - apply kyc_transition_moves in Hr as (r & Hst & Hm). rewrite Hst. split; [by apply (moves_live _ _ (KYC_OVERRIDES (store w)))|].
    split; [eapply (writes_moves _ r w {| w with store := _ |}); done|by apply reports_same].
  - apply schedule_run in Hr as (o & Hst & Ho). rewrite Hst. split; [|split; [exact (Hsame (store w))|by apply reports_same]].
    destruct Hl as [Hro Hk Hov Hp Hn]. split; [by destruct Hro; split|done| |done|done]. cbn.
    intros s o' [[<- <-]|[_ Hs]]%lookup_insert_Some; [done|by apply Hov].
  - eapply override_moves in Hr as (r & Hst & Hm); [|done]. rewrite Hst. split.
    { apply moves_live; [done|done|]. by intros s o [_ Hs]%lookup_delete_Some. }
    split; [eapply (writes_moves _ r w {| w with store := _ |}); done|by apply reports_same].
  - apply set_operator_roles in Hr as (Hro & H1 & H2 & H3 & H4 & _); [|apply Hl]. rewrite H2. split; [|split; [exact (Hsame (store w))|by apply reports_same]].
    destruct Hl as [_ Hk Ho Hp Hn]. by split; rewrite ?H1, ?H2, ?H3, ?H4.
Qed.
End lifecycle.

(** ** Theorems *)

(** A storage that holds roles and nothing else: the deployed one, which has none,
    and any with an administrator and lists of operators and governors that do not
    overlap, written beside the contract's own entry points, which cannot install
    the first administrator. *)
Definition configured (st : State) : Prop :=
  roles_ok st ∧ ∃ admin g k, st = {| deployed with ADMIN_KEY := admin; GOVERNANCE_ROLE_KEY := g; KYC_OPERATOR_ROLE_KEY := k |}.

Section theorems.
Context `{TokenHost} (self : Address).
Implicit Types (w : World State Event) (e : Env).

Definition reachable (t : Z) (w : World State Event) : Prop :=
  ∃ st0 t0 l lg, configured st0 ∧ rtc (step exec call_ok self) (t0, mkWorld st0 l lg) (t, w).

Lemma configured_live st t : configured st → live t st.
Proof. intros [Hr (a & g & k & ->)]. split; [done|done|done|done|]. cbn. lia. Qed.

Lemma compliance_reachable_live t w : reachable t w → live t (store w).
Proof.
  intros (st0 & t0 & l & lg & Hc & Hr).
  apply (reach_inv_world exec call_ok self (λ t w, live t (store w))) in Hr; [done| | |by apply configured_live].
  - intros t' c e w0 w0' _ Ht _ Hl Hrun. by eapply compliance_exec in Hrun as [? _].
  - intros t1 t2 w0 l' Ht _ Hl. by eapply live_later.
Qed.

(** C34: whatever roles are in place at the start (none, as
    deployed, in which case no record is ever made, since the contract has no entry
    point that installs its first administrator; or an administrator, operators and
    governors that do not overlap, written to its storage from outside, as the
    repository's tests do) and whatever calls follow, a KYC record changes only
    along the transition table, by an operator who is neither the subject nor of the
    governance, a pending one before it expires, seven days after it was made; or from
    a final status back to pending by the governance, two days or more after the
    override was scheduled; or by being initialized again.  It stays well-formed: a
    pending record has an expiry, a final one the time of the decision. *)
Theorem kyc_lifecycle t w c e w' s :
  reachable t w → t ≤ timestamp e → exec c e w = Ok (tt, w') →
  kyc_moves (store w) (timestamp e) s (KYC_RECORDS (store w) !! s) (KYC_RECORDS (store w') !! s) ∧
  (∀ r, KYC_RECORDS (store w') !! s = Some r → record_ok (timestamp e) s r) ∧
  (∀ a, a ∈ operators (store w') → a ∉ governors (store w')).
Proof.
  intros Hl%compliance_reachable_live Ht Hr. destruct (compliance_exec _ _ _ _ _ Hr Hl Ht) as (Hl' & Hm & _).
  split; [apply Hm|]. split; [apply Hl'|apply Hl'].
Qed.

(** A call adds at most one report, under a new identifier, issued by
    a signer whose KYC is verified at that moment; no report is changed or removed. *)
Theorem compliance_reports t w c e w' :
  reachable t w → t ≤ timestamp e → exec c e w = Ok (tt, w') → reports_grow e (store w) (store w').
Proof. intros Hl%compliance_reachable_live Ht Hr. by destruct (compliance_exec _ _ _ _ _ Hr Hl Ht) as (_ & _ & Hg). Qed.

Definition is_kyc_call (c : Call) : bool :=
  match c with CReport _ _ _ _ _ _ _ _ | CVerifyCreds _ _ _ _ | CRiskAssessment _ _ _ _ _ => false | _ => true end.

Lemma time_only_map_err {A} x (m : M State ContractError Event A) : time_only m → time_only (map_err x m).
Proof. intros Hm e e' w Ht. unfold map_err. by rewrite (Hm e e' w Ht). Qed.

Lemma time_only_rbac x o a :
  time_only (map_err x (require_kyc_operator_role o)) ∧ time_only (map_err x (require_governance_role o)) ∧
  time_only (map_err x (assign_kyc_operator_role a o)) ∧ time_only (map_err x (remove_kyc_operator_role a o)).
Proof.
  unfold require_kyc_operator_role, require_governance_role, assign_kyc_operator_role, remove_kyc_operator_role, require_admin,
    remove_from_governance, remove_from_kyc_operators.
  split_and!; apply time_only_map_err; repeat first [apply time_only_bind; [|intros ?]|apply time_only_if|done].
Qed.

(** The functions that initialize, advance, override and decide about operators ask for
    no signature: what they do depends on the time only, whoever sends them. *)
Theorem kyc_calls_unsigned c : is_kyc_call c = true → time_only (exec c).
Proof.
  intros Hc. destruct c; try discriminate Hc; cbn [exec]; unfold discard, kyc_init, kyc_transition, kyc_schedule_override,
    kyc_execute_override, kyc_set_operator, verify_admin, get_kyc_record, put_kyc_record;
    repeat first [by apply time_only_rbac|apply time_only_now|apply time_only_bind; [|intros ?]|apply time_only_if|done|case_match].
Qed.
End theorems.

(** ** A concrete history *)

Module ComplianceDemo.

Definition self := mkAddress "compliance".
Definition admin := mkAddress "admin".
Definition gov := mkAddress "gov".
Definition op1 := mkAddress "op1".
Definition alice := mkAddress "alice".

Definition st0 : State :=
  {| deployed with ADMIN_KEY := Some admin; GOVERNANCE_ROLE_KEY := Some [gov]; KYC_OPERATOR_ROLE_KEY := Some [op1] |}.
Definition w0 : World State Event := mkWorld st0 (sl_of []) [].

Lemma st0_configured : configured st0.
Proof.
  split; [|by exists (Some admin), (Some [gov]), (Some [op1])]. split; cbn.
  - apply NoDup_singleton.
  - apply NoDup_singleton.
  - intros a ->%list_elem_of_singleton Hg%list_elem_of_singleton. discriminate Hg.
Qed.

(** Nobody has signed any of these but the report. *)
Definition setup : list (Z * list Address * Call) :=
  [(10, [], CKycInit op1 alice "did:alice"); (20, [], CKycTransition op1 alice InReview);
   (30, [], CKycTransition op1 alice Verified); (40, [alice], CReport "did:x" AML Compliant 90 Low [] alice 30)].
Definition w1 := run_script exec self setup w0.

Lemma compliance_setup_reach : reachable self 40 w1.
Proof.
  exists st0, 0, (ledger w0), []. split; [exact st0_configured|]. change (mkWorld st0 (ledger w0) []) with w0.
  assert (script_ok exec self 0 setup w0 = true) as Hs by (vm_compute; reflexivity).
  assert (Forall (λ c, call_ok c.2) setup) as Hf by (repeat constructor; cbn; lia).
  exact (run_script_reach exec call_ok self 0 setup w0 Hs Hf).
Qed.

(** The operator initializes the verified record again: no delay, no governance. *)
Definition again := CKycInit op1 alice "did:alice".
Definition e1 := env_at 50 self [].
Definition w2 := world_of (exec again e1 w1) w1.
Lemma kyc_again_run : exec again e1 w1 = Ok (tt, w2).
Proof. unfold w2. apply run_ok_unit. vm_compute. reflexivity. Qed.

Lemma kyc_lifecycle_witness :
  ky_status <$> KYC_RECORDS (store w1) !! alice = Some Verified ∧
  kyc_moves (store w1) 50 alice (KYC_RECORDS (store w1) !! alice) (KYC_RECORDS (store w2) !! alice).
Proof.
  assert (ky_status <$> KYC_RECORDS (store w1) !! alice = Some Verified) as Hs by (vm_compute; reflexivity).
  split; [exact Hs|]. assert (40 ≤ timestamp e1) as Ht by (cbn; lia).
  exact (proj1 (kyc_lifecycle self 40 w1 again e1 w2 alice compliance_setup_reach Ht kyc_again_run)).
Defined.

Lemma compliance_reports_witness : reports_grow e1 (store w1) (store w2).
Proof.
  assert (40 ≤ timestamp e1) as Ht by (cbn; lia).
  exact (compliance_reports self 40 w1 again e1 w2 compliance_setup_reach Ht kyc_again_run).
Defined.

Example verified_reset_by_operator : ky_status <$> KYC_RECORDS (store w2) !! alice = Some Pending.
Proof. vm_compute. reflexivity. Qed.

(** The intended path: an override is refused until its delay is over. *)
Definition w3 := world_of (exec (CKycSchedule gov alice) e1 w1) w1.
Example override_early : is_ok (exec (CKycOverride gov alice) (env_at 172849 self []) w3) = false.
Proof. vm_compute. reflexivity. Qed.
Example override_in_time : is_ok (exec (CKycOverride gov alice) (env_at 172850 self []) w3) = true.
Proof. vm_compute. reflexivity. Qed.

(** A pending request is not advanced once it has expired. *)
Example expired_request : is_ok (exec (CKycTransition op1 alice InReview) (env_at 604850 self []) w2) = false.
Proof. vm_compute. reflexivity. Qed.
End ComplianceDemo.
