(* ===== verification/PortfolioTypes.v ===== *)
(** * contracts/portfolio-manager: types and templates

    src/contracts/portfolio-manager/src/types.rs, templates.rs and the keys of
    storage.rs. *)

From stdpp Require Import gmap strings list fin_maps.
From S2P Require Import Prelude Soroban.
Open Scope Z_scope.

(** ** types.rs *)

Definition BPS_DENOMINATOR : Z := 10000.
Definition PRECISION_FACTOR : Z := 10 ^ 18.
Definition MAX_ASSETS : Z := 50.
Definition DRIFT_TOLERANCE_BPS : Z := 200.
Definition MAX_REBALANCE_SLIPPAGE_BPS : Z := 500.

Inductive PortfolioType := Conservative | Balanced | Aggressive | Thematic | Custom.
Inductive WeightingStrategy := EqualWeight | CustomWeight | MarketCapWeighted.
Inductive RebalanceFrequency := Monthly | Quarterly | SemiAnnual | Annual.
Inductive PortfolioStatus := Active | Paused | Closed.
#[global] Instance PortfolioStatus_eq_dec : EqDecision PortfolioStatus.
Proof. solve_decision. Defined.
Inductive RebalanceTrigger := TimeBased | DriftTriggered | GovernanceForced.

Record AssetAllocation := mkAlloc {
  al_token : Address;
  al_weight_bps : Z;
  al_feed_id : option string;
}.

Record Portfolio := mkPortfolio {
  pf_portfolio_id : Z;
  pf_creator : Address;
  pf_name : string;
  pf_portfolio_type : PortfolioType;
  pf_weighting_strategy : WeightingStrategy;
  pf_status : PortfolioStatus;
  pf_target_weights : list AssetAllocation;
  pf_deposit_token : Address;
  pf_oracle_address : Address;
  pf_total_assets : Z;
  pf_total_supply : Z;
  pf_accumulated_dividends : Z;
  pf_rebalance_frequency : RebalanceFrequency;
  pf_drift_tolerance_bps : Z;
  pf_max_slippage_bps : Z;
  pf_last_rebalance_time : Z;
  pf_last_dividend_time : Z;
  pf_rebalance_count : Z;
  pf_governance_managed : bool;
  pf_created_at : Z;
}.

Record AssetPosition := mkAsset {
  as_token : Address;
  as_balance : Z;
  as_target_weight_bps : Z;
  as_current_weight_bps : Z;
  as_last_price : Z;
  as_last_price_update : Z;
}.

Record UserPosition := mkUser {
  up_user : Address;
  up_portfolio_id : Z;
  up_shares : Z;
  up_total_deposited : Z;
  up_total_withdrawn : Z;
  up_pending_dividends : Z;
  up_first_deposit_at : Z;
  up_last_activity_at : Z;
}.

Record SwapRecord := mkSwap {
  sw_token : Address;
  sw_amount_in : Z;
  sw_amount_out : Z;
  sw_price_impact_bps : Z;
}.

Record RebalanceRecord := mkRebalance {
  rb_portfolio_id : Z;
  rb_rebalance_id : Z;
  rb_timestamp : Z;
  rb_buys : list SwapRecord;
  rb_sells : list SwapRecord;
  rb_slippage_bps : Z;
  rb_trigger : RebalanceTrigger;
  rb_nav_before : Z;
  rb_nav_after : Z;
}.

Record DividendRecord := mkDividend {
  dv_portfolio_id : Z;
  dv_record_id : Z;
  dv_timestamp : Z;
  dv_total_collected : Z;
  dv_compounded : Z;
  dv_per_share_amount : Z;
}.

Record PerformanceSnapshot := mkSnapshot {
  sn_portfolio_id : Z;
  sn_snapshot_id : Z;
  sn_timestamp : Z;
  sn_nav_per_share : Z;
  sn_total_assets : Z;
  sn_sharpe_ratio : Z;
  sn_max_drawdown_bps : Z;
  sn_peak_nav : Z;
  sn_twr_bps : Z;
  sn_annualized_return_bps : Z;
}.

Record PerformanceAccumulator := mkAcc {
  pa_portfolio_id : Z;
  pa_return_sum : Z;
  pa_return_squared_sum : Z;
  pa_observation_count : Z;
  pa_previous_nav : Z;
  pa_previous_nav_time : Z;
  pa_peak_nav : Z;
  pa_max_drawdown_bps : Z;
}.

Record PortfolioInfo := mkInfo {
  in_portfolio_id : Z;
  in_name : string;
  in_portfolio_type : PortfolioType;
  in_weighting_strategy : WeightingStrategy;
  in_status : PortfolioStatus;
  in_total_assets : Z;
  in_total_supply : Z;
  in_nav_per_share : Z;
  in_rebalance_frequency : RebalanceFrequency;
  in_drift_tolerance_bps : Z;
  in_asset_count : Z;
  in_rebalance_count : Z;
  in_last_rebalance_time : Z;
  in_created_at : Z;
}.

(** ** templates.rs *)

Record AllocationSlot := mkSlot {
  sl_weight_bps : Z;
  sl_feed_id : option string;
  sl_label : string;
}.

Record PortfolioTemplate := mkTemplate {
  tm_template_type : PortfolioType;
  tm_name : string;
  tm_description : string;
  tm_weighting_strategy : WeightingStrategy;
  tm_rebalance_frequency : RebalanceFrequency;
  tm_drift_tolerance_bps : Z;
  tm_max_slippage_bps : Z;
  tm_allocation_template : list AllocationSlot;
}.

Definition conservative_template : PortfolioTemplate :=
  mkTemplate Conservative "Conservative" "60bonds_40eq" CustomWeight Quarterly 200 300
    [mkSlot 2000 (Some "us_bonds") "us_treasuries"; mkSlot 2000 (Some "corp_bonds") "corp_bonds";
     mkSlot 2000 (Some "intl_bonds") "intl_bonds"; mkSlot 1500 (Some "us_large_cap") "us_large_eq";
     mkSlot 1000 (Some "us_small_cap") "us_small_eq"; mkSlot 1000 (Some "intl_developed") "intl_eq";
     mkSlot 500 (Some "emerging_markets") "em_eq"].
Definition balanced_template : PortfolioTemplate :=
  mkTemplate Balanced "Balanced" "50eq_30bond_20alt" CustomWeight Quarterly 200 400
    [mkSlot 2000 (Some "us_large_cap") "us_large_eq"; mkSlot 1000 (Some "us_small_cap") "us_small_eq";
     mkSlot 1000 (Some "intl_developed") "intl_eq"; mkSlot 1000 (Some "emerging_markets") "em_eq";
     mkSlot 1500 (Some "us_bonds") "us_treasuries"; mkSlot 1500 (Some "corp_bonds") "corp_bonds";
     mkSlot 1000 (Some "gold") "gold"; mkSlot 1000 (Some "real_estate") "reit"].
Definition aggressive_template : PortfolioTemplate :=
  mkTemplate Aggressive "Aggressive" "80eq_20alt" CustomWeight Monthly 150 500
    [mkSlot 3000 (Some "us_large_cap") "us_large_eq"; mkSlot 2000 (Some "us_small_cap") "us_small_eq";
     mkSlot 1500 (Some "intl_developed") "intl_eq"; mkSlot 1500 (Some "emerging_markets") "em_eq";
     mkSlot 1000 (Some "gold") "gold"; mkSlot 500 (Some "real_estate") "reit"; mkSlot 500 (Some "crypto") "crypto"].
Definition thematic_template : PortfolioTemplate :=
  mkTemplate Thematic "CryptoThematic" "crypto_index" CustomWeight Monthly 300 800
    [mkSlot 3000 (Some "btc") "bitcoin"; mkSlot 2500 (Some "eth") "ethereum"; mkSlot 1500 (Some "sol") "solana";
     mkSlot 1500 (Some "defi_index") "defi"; mkSlot 1500 (Some "nft_index") "nft_tokens"].

(** [None] where the source panics. *)
Definition get_template (template_type : PortfolioType) : option PortfolioTemplate :=
  match template_type with
  | Conservative => Some conservative_template
  | Balanced => Some balanced_template
  | Aggressive => Some aggressive_template
  | Thematic => Some thematic_template
  | Custom => None
  end.

(** The sum of u32 weights in an i128 does not overflow: a vector has fewer than 2^32 entries. *)
Definition validate_weights (allocations : list AssetAllocation) : bool :=
  lsum al_weight_bps allocations =? BPS_DENOMINATOR.

Definition equal_weight_allocations (tokens : list Address) : list AssetAllocation :=
  let count := Z.of_nat (length tokens) in
  if count =? 0 then []
  else
    let base_weight := BPS_DENOMINATOR `quot` count in
    let remainder := BPS_DENOMINATOR - base_weight * count in
    imap (λ i token,
      let extra := if Z.of_nat i <? remainder then 1 else 0 in
      mkAlloc token ((base_weight + extra) `mod` 2 ^ 32) None) tokens.

(** [None] where the source panics: the numbers of slots and tokens differ. *)
Definition template_to_allocations (template : PortfolioTemplate) (tokens : list Address) : option (list AssetAllocation) :=
  let slots := tm_allocation_template template in
  if negb (Z.of_nat (length slots) =? Z.of_nat (length tokens)) then None
  else Some (zip_with (λ slot token, mkAlloc token (sl_weight_bps slot) (sl_feed_id slot)) slots tokens).

(** ** storage.rs: the keys *)

Record State := mkState {
  Admin : option Address;
  PausedKey : option bool;
  PortfolioCounter : option Z;
  Portfolios : gmap Z Portfolio;
  AssetPositions : gmap (Z * Z) AssetPosition;
  UserPositions : gmap (Address * Z) UserPosition;
  UserPortfolioIds : gmap Address (list Z);
  RebalanceCounter : gmap Z Z;
  RebalanceRecords : gmap (Z * Z) RebalanceRecord;
  DividendCounter : gmap Z Z;
  DividendRecords : gmap (Z * Z) DividendRecord;
  SnapshotCounter : gmap Z Z;
  PerformanceSnapshots : gmap (Z * Z) PerformanceSnapshot;
  PerformanceAccumulators : gmap Z PerformanceAccumulator;
  TotalDividendsCollected : gmap Z Z;
  ReentrancyLock : option bool;
}.

Definition deployed : State := mkState None None None ∅ ∅ ∅ ∅ ∅ ∅ ∅ ∅ ∅ ∅ ∅ ∅ None.

Inductive Event :=
| pm_init (admin : Address) (t : Z)
| pm_dep (user : Address) (portfolio_id amount shares total_assets total_supply : Z)
| pm_wth (user : Address) (portfolio_id shares assets nav : Z)
| pm_rbal (portfolio_id rebalance_id nav_before nav_after slippage_bps : Z)
| pm_aupd (portfolio_id asset_index balance price : Z)
| pm_div (portfolio_id total total_assets per_share : Z)
| pm_dclm (user : Address) (portfolio_id amount : Z)
| pm_perf (portfolio_id nav sharpe max_drawdown_bps : Z)
| pm_gov (portfolio_id : Z) (parameter : string) (value : Z)
| pm_pause_portfolio (portfolio_id : Z)
| pm_unpse_portfolio (portfolio_id : Z)
| pm_close (portfolio_id : Z)
| pm_pause (admin : Address)
| pm_unpse (admin : Address)
| pm_crt (portfolio_id : Z) (creator : Address) (name : string) (assets : Z).

(** [as u32] and [as i32]; [i32] subtraction, which panics on overflow. *)
Definition as_u32 (z : Z) : Z := z `mod` 2 ^ 32.
Definition as_i32 (z : Z) : Z := (z + 2 ^ 31) `mod` 2 ^ 32 - 2 ^ 31.
Definition checked_i32 (z : Z) : option Z := if (- 2 ^ 31 <=? z) && (z <? 2 ^ 31) then Some z else None.
