(* ===== verification/Portfolio.v ===== *)
(** * contracts/portfolio-manager

    src/contracts/portfolio-manager/src/contract.rs and storage.rs: portfolios with
    target weights, shares for deposits, rebalancing, dividends, performance
    snapshots, forks and governance. *)

From stdpp Require Import gmap strings list fin_maps.
From S2P Require Import Prelude Soroban AmmMath PortfolioTypes.
Open Scope Z_scope.

Ltac mred v ::= eval cbn [store ledger log Admin PausedKey PortfolioCounter Portfolios AssetPositions UserPositions
  UserPortfolioIds RebalanceCounter RebalanceRecords DividendCounter DividendRecords SnapshotCounter PerformanceSnapshots
  PerformanceAccumulators TotalDividendsCollected ReentrancyLock pf_portfolio_id pf_creator pf_name pf_portfolio_type
  pf_weighting_strategy pf_status pf_target_weights pf_deposit_token pf_oracle_address pf_total_assets pf_total_supply
  pf_accumulated_dividends pf_rebalance_frequency pf_drift_tolerance_bps pf_max_slippage_bps pf_last_rebalance_time
  pf_last_dividend_time pf_rebalance_count pf_governance_managed pf_created_at as_token as_balance as_target_weight_bps
  as_current_weight_bps as_last_price as_last_price_update up_user up_portfolio_id up_shares up_total_deposited
  up_total_withdrawn up_pending_dividends up_first_deposit_at up_last_activity_at pa_portfolio_id pa_return_sum
  pa_return_squared_sum pa_observation_count pa_previous_nav pa_previous_nav_time pa_peak_nav pa_max_drawdown_bps
  fst snd] in v.

Definition SECONDS_PER_MONTH : Z := 2592000.
Definition SECONDS_PER_QUARTER : Z := 7776000.
Definition SECONDS_PER_SEMI_ANNUAL : Z := 15552000.
Definition SECONDS_PER_YEAR : Z := 31557600.
Definition RISK_FREE_RATE_BPS : Z := 500.

(** The indices of a vector. *)
Definition indices {A} (l : list A) : list Z := seqZ 0 (Z.of_nat (length l)).

Section contract.
Context `{TokenHost}.

Local Abbreviation C := (M State () Event).

(** ** storage.rs *)

Definition get_admin : C Address := o ← gets Admin; expect o "Contract not initialized".
Definition set_admin (admin : Address) : C () := modify (λ s, {| s with Admin := Some admin |}).
Definition is_paused : C bool := gets (λ s, default false (PausedKey s)).
Definition set_paused (paused : bool) : C () := modify (λ s, {| s with PausedKey := Some paused |}).

Definition next_portfolio_id : C Z :=
  current ← gets (λ s, default 0 (PortfolioCounter s));
  next ← plain_add U64 current 1;
  modify (λ s, {| s with PortfolioCounter := Some next |});;
  mret next.
Definition get_portfolio (portfolio_id : Z) : C Portfolio :=
  o ← gets (λ s, Portfolios s !! portfolio_id);
  expect o "Portfolio not found".
Definition set_portfolio (portfolio : Portfolio) : C () :=
  modify (λ s, {| s with Portfolios := <[pf_portfolio_id portfolio := portfolio]> (Portfolios s) |}).

Definition get_asset_position (portfolio_id asset_index : Z) : C AssetPosition :=
  o ← gets (λ s, AssetPositions s !! (portfolio_id, asset_index));
  expect o "Asset position not found".
Definition set_asset_position (portfolio_id asset_index : Z) (pos : AssetPosition) : C () :=
  modify (λ s, {| s with AssetPositions := <[(portfolio_id, asset_index) := pos]> (AssetPositions s) |}).

Definition get_user_position (user : Address) (portfolio_id : Z) : C UserPosition :=
  o ← gets (λ s, UserPositions s !! (user, portfolio_id));
  expect o "User position not found".
Definition set_user_position (user : Address) (portfolio_id : Z) (pos : UserPosition) : C () :=
  modify (λ s, {| s with UserPositions := <[(user, portfolio_id) := pos]> (UserPositions s) |}).
Definition has_user_position (user : Address) (portfolio_id : Z) : C bool :=
  gets (λ s, bool_decide (is_Some (UserPositions s !! (user, portfolio_id)))).
Definition get_user_portfolio_ids (user : Address) : C (list Z) := gets (λ s, default [] (UserPortfolioIds s !! user)).
Definition add_user_portfolio (user : Address) (portfolio_id : Z) : C () :=
  ids ← get_user_portfolio_ids user;
  modify (λ s, {| s with UserPortfolioIds := <[user := ids ++ [portfolio_id]]> (UserPortfolioIds s) |}).

Definition next_rebalance_id (portfolio_id : Z) : C Z :=
  current ← gets (λ s, default 0 (RebalanceCounter s !! portfolio_id));
  next ← plain_add U64 current 1;
  modify (λ s, {| s with RebalanceCounter := <[portfolio_id := next]> (RebalanceCounter s) |});;
  mret next.
Definition get_rebalance_record (portfolio_id rebalance_id : Z) : C RebalanceRecord :=
  o ← gets (λ s, RebalanceRecords s !! (portfolio_id, rebalance_id));
  expect o "Rebalance record not found".
Definition set_rebalance_record (record : RebalanceRecord) : C () :=
  modify (λ s, {| s with RebalanceRecords :=
    <[(rb_portfolio_id record, rb_rebalance_id record) := record]> (RebalanceRecords s) |}).

Definition next_dividend_id (portfolio_id : Z) : C Z :=
  current ← gets (λ s, default 0 (DividendCounter s !! portfolio_id));
  next ← plain_add U64 current 1;
  modify (λ s, {| s with DividendCounter := <[portfolio_id := next]> (DividendCounter s) |});;
  mret next.
Definition set_dividend_record (record : DividendRecord) : C () :=
  modify (λ s, {| s with DividendRecords :=
    <[(dv_portfolio_id record, dv_record_id record) := record]> (DividendRecords s) |}).
Definition total_dividends_collected (portfolio_id : Z) : C Z :=
  gets (λ s, default 0 (TotalDividendsCollected s !! portfolio_id)).
Definition set_total_dividends_collected (portfolio_id total : Z) : C () :=
  modify (λ s, {| s with TotalDividendsCollected := <[portfolio_id := total]> (TotalDividendsCollected s) |}).

Definition next_snapshot_id (portfolio_id : Z) : C Z :=
  current ← gets (λ s, default 0 (SnapshotCounter s !! portfolio_id));
  next ← plain_add U64 current 1;
  modify (λ s, {| s with SnapshotCounter := <[portfolio_id := next]> (SnapshotCounter s) |});;
  mret next.
Definition get_performance_snapshot (portfolio_id snapshot_id : Z) : C PerformanceSnapshot :=
  o ← gets (λ s, PerformanceSnapshots s !! (portfolio_id, snapshot_id));
  expect o "Snapshot not found".
Definition set_performance_snapshot (snapshot : PerformanceSnapshot) : C () :=
  modify (λ s, {| s with PerformanceSnapshots :=
    <[(sn_portfolio_id snapshot, sn_snapshot_id snapshot) := snapshot]> (PerformanceSnapshots s) |}).
Definition get_performance_accumulator (portfolio_id : Z) : C PerformanceAccumulator :=
  gets (λ s, default (mkAcc portfolio_id 0 0 0 PRECISION_FACTOR 0 PRECISION_FACTOR 0)
    (PerformanceAccumulators s !! portfolio_id)).
Definition set_performance_accumulator (acc : PerformanceAccumulator) : C () :=
  modify (λ s, {| s with PerformanceAccumulators := <[pa_portfolio_id acc := acc]> (PerformanceAccumulators s) |}).

Definition enter_non_reentrant : C () :=
  locked ← gets (λ s, default false (ReentrancyLock s));
  panic_if locked "Reentrant call blocked";;
  modify (λ s, {| s with ReentrancyLock := Some true |}).
Definition exit_non_reentrant : C () := modify (λ s, {| s with ReentrancyLock := Some false |}).

(** ** Arithmetic *)

(** [a * b / c], each operation checked. *)
Definition mul_div (a b c : Z) : C Z :=
  p ← plain_mul I128 a b;
  plain_div I128 p c.

Definition calculate_shares_for_deposit (amount total_assets total_supply : Z) : C Z :=
  if total_supply =? 0 then mret amount else mul_div amount total_supply total_assets.
Definition calculate_assets_for_withdrawal (shares total_assets total_supply : Z) : C Z :=
  mul_div shares total_assets total_supply.

(** The net asset value of a share, [1e18] while there are none. *)
Definition nav_of (total_assets total_supply : Z) : C Z :=
  if total_supply >? 0 then mul_div total_assets PRECISION_FACTOR total_supply else mret PRECISION_FACTOR.

(** The share of a value in the portfolio, in basis points. *)
Definition weight_of (value total_assets : Z) : C Z :=
  if total_assets >? 0 then
    q ← mul_div value BPS_DENOMINATOR total_assets;
    mret (as_u32 q)
  else mret 0.

Definition rebalance_interval_seconds (freq : RebalanceFrequency) : Z :=
  match freq with
  | Monthly => SECONDS_PER_MONTH
  | Quarterly => SECONDS_PER_QUARTER
  | SemiAnnual => SECONDS_PER_SEMI_ANNUAL
  | Annual => SECONDS_PER_YEAR
  end.

Definition sum_swap_values (buys sells : list SwapRecord) : C Z :=
  total ← foldM (λ total swap, expect (checked_add I128 total (sw_amount_in swap)) "Swap sum overflow") 0 buys;
  foldM (λ total swap, expect (checked_add I128 total (sw_amount_in swap)) "Swap sum overflow") total sells.

(** The loop is that of the AMM's square root, statement for statement. *)
Definition isqrt (n : Z) : C Z :=
  if n <? 0 then mret 0
  else if n =? 0 then mret 0
  else
    s ← plain_add I128 n 1;
    y ← plain_div I128 s 2;
    isqrt_loop 130 n n y.

Definition calculate_sharpe (return_sum return_squared_sum count : Z) : C Z :=
  if count <? 2 then mret 0
  else
    p ← plain_mul I128 return_sum PRECISION_FACTOR;
    q ← plain_div I128 p count;
    mean_return ← plain_div I128 q PRECISION_FACTOR;
    mean_return_sq ← plain_div I128 return_squared_sum count;
    m ← mul_div mean_return mean_return PRECISION_FACTOR;
    variance ← plain_sub I128 mean_return_sq m;
    if variance <=? 0 then mret 0
    else
      v ← plain_mul I128 variance PRECISION_FACTOR;
      std_dev ← isqrt v;
      if std_dev =? 0 then mret 0
      else
        r ← mul_div RISK_FREE_RATE_BPS PRECISION_FACTOR BPS_DENOMINATOR;
        excess_return ← plain_sub I128 mean_return r;
        mul_div excess_return PRECISION_FACTOR std_dev.

(** ** Initialization and creation *)

Definition assert_admin (caller : Address) : C () :=
  admin ← get_admin;
  panic_if (negb (bool_decide (caller = admin))) "Unauthorized".

Definition initialize (admin : Address) : C () :=
  o ← gets Admin;
  panic_if (bool_decide (is_Some o)) "Already initialized";;
  require_auth admin;;
  set_admin admin;;
  set_paused false;;
  modify (λ s, {| s with ReentrancyLock := Some false |});;
  t ← now;
  publish (pm_init admin t).

(** The initial position of an asset. *)
Definition init_position (portfolio_id t : Z) (allocations : list AssetAllocation) (i : Z) : C () :=
  alloc ← expect (allocations !! Z.to_nat i) "index out of bounds";
  set_asset_position portfolio_id i (mkAsset (al_token alloc) 0 (al_weight_bps alloc) 0 PRECISION_FACTOR t).

Definition create_portfolio_inner (creator : Address) (name : string) (portfolio_type : PortfolioType)
    (weighting_strategy : WeightingStrategy) (rebalance_frequency : RebalanceFrequency)
    (drift_tolerance_bps max_slippage_bps : Z) (deposit_token oracle_address : Address)
    (allocations : list AssetAllocation) : C Z :=
  portfolio_id ← next_portfolio_id;
  t ← now;
  set_portfolio (mkPortfolio portfolio_id creator name portfolio_type weighting_strategy Active allocations deposit_token
    oracle_address 0 0 0 rebalance_frequency drift_tolerance_bps max_slippage_bps t t 0 true t);;
  foldM (λ _ i, init_position portfolio_id t allocations i) tt (indices allocations);;
  set_performance_accumulator (mkAcc portfolio_id 0 0 0 PRECISION_FACTOR t PRECISION_FACTOR 0);;
  publish (pm_crt portfolio_id creator name (Z.of_nat (length allocations)));;
  mret portfolio_id.

Definition create_from_template (creator : Address) (name : string) (template_type : PortfolioType)
    (deposit_token oracle_address : Address) (tokens : list Address) : C Z :=
  require_auth creator;;
  paused ← is_paused;
  panic_if paused "Contract is paused";;
  panic_if (Z.of_nat (length tokens) >? MAX_ASSETS) "Too many assets";;
  template ← expect (get_template template_type) "Custom templates must be built manually";
  allocations ← expect (template_to_allocations template tokens) "Token count must match template slot count";
  create_portfolio_inner creator name template_type (tm_weighting_strategy template) (tm_rebalance_frequency template)
    (tm_drift_tolerance_bps template) (tm_max_slippage_bps template) deposit_token oracle_address allocations.

Definition create_custom (creator : Address) (name : string) (deposit_token oracle_address : Address)
    (allocations : list AssetAllocation) (weighting_strategy : WeightingStrategy)
    (rebalance_frequency : RebalanceFrequency) (drift_tolerance_bps max_slippage_bps : option Z) : C Z :=
  require_auth creator;;
  paused ← is_paused;
  panic_if paused "Contract is paused";;
  panic_if (Z.of_nat (length allocations) >? MAX_ASSETS) "Too many assets";;
  panic_if (negb (validate_weights allocations)) "Weights must sum to 10000 BPS";;
  create_portfolio_inner creator name Custom weighting_strategy rebalance_frequency
    (default DRIFT_TOLERANCE_BPS drift_tolerance_bps) (default MAX_REBALANCE_SLIPPAGE_BPS max_slippage_bps)
    deposit_token oracle_address allocations.

Definition create_equal_weight (creator : Address) (name : string) (deposit_token oracle_address : Address)
    (tokens : list Address) (rebalance_frequency : RebalanceFrequency) : C Z :=
  require_auth creator;;
  paused ← is_paused;
  panic_if paused "Contract is paused";;
  panic_if (Z.of_nat (length tokens) >? MAX_ASSETS) "Too many assets";;
  panic_if (bool_decide (tokens = [])) "No tokens provided";;
  create_portfolio_inner creator name Custom EqualWeight rebalance_frequency DRIFT_TOLERANCE_BPS
    MAX_REBALANCE_SLIPPAGE_BPS deposit_token oracle_address (equal_weight_allocations tokens).

(** ** Deposits and withdrawals *)

(** The position of a depositor is updated or made. *)
Definition credit_user (user : Address) (portfolio_id amount shares t : Z) : C () :=
  known ← has_user_position user portfolio_id;
  if (known : bool) then
    pos ← get_user_position user portfolio_id;
    n ← expect (checked_add I128 (up_shares pos) shares) "Shares overflow";
    d ← expect (checked_add I128 (up_total_deposited pos) amount) "Deposit overflow";
    set_user_position user portfolio_id {| pos with up_shares := n; up_total_deposited := d; up_last_activity_at := t |}
  else
    set_user_position user portfolio_id (mkUser user portfolio_id shares amount 0 0 t t);;
    add_user_portfolio user portfolio_id.

Definition deposit (user : Address) (portfolio_id amount : Z) : C Z :=
  require_auth user;;
  panic_if (amount <=? 0) "Deposit amount must be positive";;
  portfolio ← get_portfolio portfolio_id;
  panic_if (negb (bool_decide (pf_status portfolio = Active))) "Portfolio is not active";;
  self ← self_address;
  token_transfer (pf_deposit_token portfolio) user self amount;;
  shares ← calculate_shares_for_deposit amount (pf_total_assets portfolio) (pf_total_supply portfolio);
  assets ← expect (checked_add I128 (pf_total_assets portfolio) amount) "Assets overflow";
  supply ← expect (checked_add I128 (pf_total_supply portfolio) shares) "Supply overflow";
  set_portfolio {| portfolio with pf_total_assets := assets; pf_total_supply := supply |};;
  t ← now;
  credit_user user portfolio_id amount shares t;;
  publish (pm_dep user portfolio_id amount shares assets supply);;
  mret shares.

Definition withdraw (user : Address) (portfolio_id shares : Z) : C Z :=
  require_auth user;;
  panic_if (shares <=? 0) "Shares must be positive";;
  portfolio ← get_portfolio portfolio_id;
  pos ← get_user_position user portfolio_id;
  panic_if (up_shares pos <? shares) "Insufficient shares";;
  panic_if (pf_total_supply portfolio <=? 0) "No assets in portfolio";;
  gross_assets ← calculate_assets_for_withdrawal shares (pf_total_assets portfolio) (pf_total_supply portfolio);
  assets ← expect (checked_sub I128 (pf_total_assets portfolio) gross_assets) "Assets underflow";
  supply ← expect (checked_sub I128 (pf_total_supply portfolio) shares) "Supply underflow";
  new_nav ← nav_of assets supply;
  set_portfolio {| portfolio with pf_total_assets := assets; pf_total_supply := supply |};;
  n ← expect (checked_sub I128 (up_shares pos) shares) "Shares underflow";
  d ← expect (checked_add I128 (up_total_withdrawn pos) gross_assets) "Withdraw overflow";
  t ← now;
  set_user_position user portfolio_id {| pos with up_shares := n; up_total_withdrawn := d; up_last_activity_at := t |};;
  self ← self_address;
  enter_non_reentrant;;
  token_transfer (pf_deposit_token portfolio) self user gross_assets;;
  exit_non_reentrant;;
  publish (pm_wth user portfolio_id shares gross_assets new_nav);;
  mret gross_assets.

(** ** Rebalancing *)

(** One asset takes its new balance; the running total of the values. *)
Definition rebalance_one (portfolio_id total_assets : Z) (new_asset_balances : list Z) (total_new_value i : Z) : C Z :=
  pos ← get_asset_position portfolio_id i;
  new_balance ← expect (new_asset_balances !! Z.to_nat i) "index out of bounds";
  new_value ← mul_div new_balance (as_last_price pos) PRECISION_FACTOR;
  weight ← weight_of new_value total_assets;
  set_asset_position portfolio_id i {| pos with as_balance := new_balance; as_current_weight_bps := weight |};;
  expect (checked_add I128 total_new_value new_value) "Value overflow".

Definition rebalance (caller : Address) (portfolio_id : Z) (buys sells : list SwapRecord) (new_asset_balances : list Z)
    : C RebalanceRecord :=
  require_auth caller;;
  portfolio ← get_portfolio portfolio_id;
  panic_if (negb (bool_decide (pf_status portfolio = Active))) "Portfolio is not active";;
  paused ← is_paused;
  panic_if paused "Contract is paused";;
  t ← now;
  let min_interval := rebalance_interval_seconds (pf_rebalance_frequency portfolio) in
  due ← plain_add U64 (pf_last_rebalance_time portfolio) min_interval;
  (if t <? due then
     admin ← get_admin;
     panic_if (negb (bool_decide (caller = admin))) "Rebalance too frequent"
   else mret tt);;
  let asset_count := Z.of_nat (length (pf_target_weights portfolio)) in
  panic_if (negb (Z.of_nat (length new_asset_balances) =? asset_count)) "Balance count must match asset count";;
  let nav_before := pf_total_assets portfolio in
  total_swapped ← sum_swap_values buys sells;
  slippage_bps ← (if nav_before >? 0 then
      q ← mul_div total_swapped BPS_DENOMINATOR nav_before;
      mret (as_u32 q)
    else mret 0);
  panic_if (slippage_bps >? pf_max_slippage_bps portfolio) "Slippage exceeded maximum";;
  total_new_value ← foldM (rebalance_one portfolio_id (pf_total_assets portfolio) new_asset_balances) 0
    (indices (pf_target_weights portfolio));
  count ← expect (checked_add U32 (pf_rebalance_count portfolio) 1) "Count overflow";
  let trigger := if t <? due then GovernanceForced else TimeBased in
  set_portfolio {| portfolio with pf_total_assets := total_new_value; pf_last_rebalance_time := t; pf_rebalance_count := count |};;
  rebalance_id ← next_rebalance_id portfolio_id;
  let record := mkRebalance portfolio_id rebalance_id t buys sells slippage_bps trigger nav_before total_new_value in
  set_rebalance_record record;;
  publish (pm_rbal portfolio_id rebalance_id nav_before total_new_value slippage_bps);;
  mret record.

(** The value of an asset at its last price, with a new balance. *)
Definition value_at (portfolio_id : Z) (new_balances : list Z) (i : Z) : C (Z * AssetPosition) :=
  pos ← get_asset_position portfolio_id i;
  balance ← expect (new_balances !! Z.to_nat i) "index out of bounds";
  value ← mul_div balance (as_last_price pos) PRECISION_FACTOR;
  mret (value, pos).

(** [(target as i32 - current as i32).unsigned_abs()]. *)
Definition drift_between (target current : Z) : C Z :=
  d ← expect (checked_i32 (as_i32 target - as_i32 current)) "attempt to subtract with overflow";
  mret (Z.abs d).

Definition max_drift (portfolio_id : Z) (new_balances : list Z) : C Z :=
  portfolio ← get_portfolio portfolio_id;
  total_value ← foldM (λ total i,
    vp ← value_at portfolio_id new_balances i;
    expect (checked_add I128 total vp.1) "Value overflow") 0 (indices (pf_target_weights portfolio));
  if total_value <=? 0 then mret 0
  else
    foldM (λ worst i,
      vp ← value_at portfolio_id new_balances i;
      q ← mul_div vp.1 BPS_DENOMINATOR total_value;
      drift ← drift_between (as_target_weight_bps vp.2) q;
      mret (if drift >? worst then drift else worst)) 0 (indices (pf_target_weights portfolio)).
Definition calculate_max_drift (portfolio_id : Z) (current_balances : list Z) : C Z :=
  max_drift portfolio_id current_balances.

Definition check_and_rebalance (caller : Address) (portfolio_id : Z) (new_asset_balances : list Z)
    (buys sells : list SwapRecord) : C (option RebalanceRecord) :=
  portfolio ← get_portfolio portfolio_id;
  t ← now;
  due ← plain_add U64 (pf_last_rebalance_time portfolio) (rebalance_interval_seconds (pf_rebalance_frequency portfolio));
  if t >=? due then
    record ← rebalance caller portfolio_id buys sells new_asset_balances;
    mret (Some record)
  else
    drift ← max_drift portfolio_id new_asset_balances;
    if drift >? pf_drift_tolerance_bps portfolio then
      record ← rebalance caller portfolio_id buys sells new_asset_balances;
      mret (Some record)
    else mret None.

Definition update_asset_position (caller : Address) (portfolio_id asset_index new_balance price : Z) : C () :=
  require_auth caller;;
  assert_admin caller;;
  portfolio ← get_portfolio portfolio_id;
  pos ← get_asset_position portfolio_id asset_index;
  new_value ← mul_div new_balance price PRECISION_FACTOR;
  old_value ← mul_div (as_balance pos) (as_last_price pos) PRECISION_FACTOR;
  value_diff ← plain_sub I128 new_value old_value;
  t ← now;
  weight ← weight_of new_value (pf_total_assets portfolio);
  set_asset_position portfolio_id asset_index {| pos with as_balance := new_balance; as_last_price := price;
    as_last_price_update := t; as_current_weight_bps := weight |};;
  assets ← expect (checked_add I128 (pf_total_assets portfolio) value_diff) "NAV overflow";
  set_portfolio {| portfolio with pf_total_assets := assets |};;
  publish (pm_aupd portfolio_id asset_index new_balance price).

(** ** Dividends *)

(** The inner loop of [collect_dividends]: the first position in the token takes the
    amount; what is added to the total. *)
Fixpoint add_dividend (portfolio_id : Z) (token : Address) (amount total_dividend : Z) (js : list Z) : C Z :=
  match js with
  | [] => mret total_dividend
  | j :: js =>
      pos ← get_asset_position portfolio_id j;
      if bool_decide (as_token pos = token) then
        b ← expect (checked_add I128 (as_balance pos) amount) "Balance overflow";
        set_asset_position portfolio_id j {| pos with as_balance := b |};;
        expect (checked_add I128 total_dividend amount) "Dividend overflow"
      else add_dividend portfolio_id token amount total_dividend js
  end.

Definition collect_dividends (caller : Address) (portfolio_id : Z) (dividend_amounts : list (Address * Z)) : C DividendRecord :=
  require_auth caller;;
  assert_admin caller;;
  portfolio ← get_portfolio portfolio_id;
  panic_if (negb (bool_decide (pf_status portfolio = Active))) "Portfolio is not active";;
  total_dividend ← foldM (λ total ta, add_dividend portfolio_id ta.1 ta.2 total (indices (pf_target_weights portfolio))) 0
    dividend_amounts;
  assets ← expect (checked_add I128 (pf_total_assets portfolio) total_dividend) "Assets overflow";
  accumulated ← expect (checked_add I128 (pf_accumulated_dividends portfolio) total_dividend) "Accum overflow";
  t ← now;
  divs ← total_dividends_collected portfolio_id;
  total_divs ← expect (checked_add I128 divs total_dividend) "Total div overflow";
  set_total_dividends_collected portfolio_id total_divs;;
  per_share ← (if pf_total_supply portfolio >? 0 then mul_div total_dividend PRECISION_FACTOR (pf_total_supply portfolio)
    else mret 0);
  set_portfolio {| portfolio with pf_total_assets := assets; pf_accumulated_dividends := accumulated; pf_last_dividend_time := t |};;
  record_id ← next_dividend_id portfolio_id;
  let record := mkDividend portfolio_id record_id t total_dividend total_dividend per_share in
  set_dividend_record record;;
  publish (pm_div portfolio_id total_dividend assets per_share);;
  mret record.

Definition claim_dividends (user : Address) (portfolio_id : Z) : C Z :=
  require_auth user;;
  pos ← get_user_position user portfolio_id;
  panic_if (up_pending_dividends pos <=? 0) "No dividends to claim";;
  let amount := up_pending_dividends pos in
  t ← now;
  set_user_position user portfolio_id {| pos with up_pending_dividends := 0; up_last_activity_at := t |};;
  portfolio ← get_portfolio portfolio_id;
  self ← self_address;
  enter_non_reentrant;;
  token_transfer (pf_deposit_token portfolio) self user amount;;
  exit_non_reentrant;;
  publish (pm_dclm user portfolio_id amount);;
  mret amount.

(** ** Performance *)

Definition record_performance_snapshot (caller : Address) (portfolio_id : Z) : C PerformanceSnapshot :=
  require_auth caller;;
  portfolio ← get_portfolio portfolio_id;
  t ← now;
  nav_per_share ← nav_of (pf_total_assets portfolio) (pf_total_supply portfolio);
  acc ← get_performance_accumulator portfolio_id;
  periodic_return ← (if pa_previous_nav acc >? 0 then
      d ← plain_sub I128 nav_per_share (pa_previous_nav acc);
      mul_div d PRECISION_FACTOR (pa_previous_nav acc)
    else mret 0);
  return_sum ← expect (checked_add I128 (pa_return_sum acc) periodic_return) "Return sum overflow";
  sq ← mul_div periodic_return periodic_return PRECISION_FACTOR;
  return_squared_sum ← expect (checked_add I128 (pa_return_squared_sum acc) sq) "Return sq overflow";
  observation_count ← expect (checked_add U32 (pa_observation_count acc) 1) "Count overflow";
  let peak_nav := if nav_per_share >? pa_peak_nav acc then nav_per_share else pa_peak_nav acc in
  current_drawdown_bps ← (if peak_nav >? 0 then
      d ← plain_sub I128 peak_nav nav_per_share;
      q ← mul_div d BPS_DENOMINATOR peak_nav;
      mret (as_u32 q)
    else mret 0);
  let max_drawdown_bps :=
    if current_drawdown_bps >? pa_max_drawdown_bps acc then current_drawdown_bps else pa_max_drawdown_bps acc in
  sharpe ← calculate_sharpe return_sum return_squared_sum observation_count;
  d ← plain_sub I128 nav_per_share PRECISION_FACTOR;
  q ← mul_div d BPS_DENOMINATOR PRECISION_FACTOR;
  let twr_bps := as_i32 q in
  annualized_return_bps ← (if t >? pf_created_at portfolio then
      elapsed ← plain_sub U64 t (pf_created_at portfolio);
      q ← mul_div twr_bps SECONDS_PER_YEAR elapsed;
      mret (as_i32 q)
    else mret 0);
  snapshot_id ← next_snapshot_id portfolio_id;
  let snapshot := mkSnapshot portfolio_id snapshot_id t nav_per_share (pf_total_assets portfolio) sharpe max_drawdown_bps
    peak_nav twr_bps annualized_return_bps in
  set_performance_snapshot snapshot;;
  set_performance_accumulator (mkAcc (pa_portfolio_id acc) return_sum return_squared_sum observation_count nav_per_share t
    peak_nav max_drawdown_bps);;
  publish (pm_perf portfolio_id nav_per_share sharpe max_drawdown_bps);;
  mret snapshot.

(** ** Forks and governance *)

(** The tokens of two lists of allocations agree, in order. *)
Definition same_tokens (l k : list AssetAllocation) : bool := bool_decide (al_token <$> l = al_token <$> k).

Definition fork_portfolio (creator : Address) (source_portfolio_id : Z) (name : string)
    (custom_weights : option (list AssetAllocation)) (custom_rebalance_frequency : option RebalanceFrequency) : C Z :=
  require_auth creator;;
  source ← get_portfolio source_portfolio_id;
  panic_if (bool_decide (pf_status source = Closed)) "Cannot fork closed portfolio";;
  allocations ← (match custom_weights with
    | Some weights =>
        panic_if (negb (validate_weights weights)) "Custom weights must sum to 10000 BPS";;
        panic_if (negb (same_tokens (pf_target_weights source) weights)) "Fork must use same set of tokens";;
        mret weights
    | None => mret (pf_target_weights source)
    end);
  create_portfolio_inner creator name Custom (pf_weighting_strategy source)
    (default (pf_rebalance_frequency source) custom_rebalance_frequency) (pf_drift_tolerance_bps source)
    (pf_max_slippage_bps source) (pf_deposit_token source) (pf_oracle_address source) allocations.

Definition set_drift_tolerance (admin : Address) (portfolio_id new_tolerance_bps : Z) : C () :=
  require_auth admin;;
  assert_admin admin;;
  portfolio ← get_portfolio portfolio_id;
  set_portfolio {| portfolio with pf_drift_tolerance_bps := new_tolerance_bps |};;
  publish (pm_gov portfolio_id "drift_tol" new_tolerance_bps).

Definition frequency_as_i128 (f : RebalanceFrequency) : Z :=
  match f with Monthly => 0 | Quarterly => 1 | SemiAnnual => 2 | Annual => 3 end.
Definition set_rebalance_frequency (admin : Address) (portfolio_id : Z) (frequency : RebalanceFrequency) : C () :=
  require_auth admin;;
  assert_admin admin;;
  portfolio ← get_portfolio portfolio_id;
  set_portfolio {| portfolio with pf_rebalance_frequency := frequency |};;
  publish (pm_gov portfolio_id "rbal_freq" (frequency_as_i128 frequency)).

Definition set_max_slippage (admin : Address) (portfolio_id max_slippage_bps : Z) : C () :=
  require_auth admin;;
  assert_admin admin;;
  portfolio ← get_portfolio portfolio_id;
  set_portfolio {| portfolio with pf_max_slippage_bps := max_slippage_bps |};;
  publish (pm_gov portfolio_id "max_slip" max_slippage_bps).

(** The position of one asset takes its new target. *)
Definition retarget (portfolio_id total_assets : Z) (new_weights : list AssetAllocation) (i : Z) : C () :=
  new_weight ← expect (new_weights !! Z.to_nat i) "index out of bounds";
  pos ← get_asset_position portfolio_id i;
  current ← (if total_assets >? 0 then
      asset_value ← mul_div (as_balance pos) (as_last_price pos) PRECISION_FACTOR;
      weight_of asset_value total_assets
    else mret (as_current_weight_bps pos));
  set_asset_position portfolio_id i
    {| pos with as_target_weight_bps := al_weight_bps new_weight; as_current_weight_bps := current |}.

Definition set_target_weights (admin : Address) (portfolio_id : Z) (new_weights : list AssetAllocation) : C () :=
  require_auth admin;;
  assert_admin admin;;
  panic_if (negb (validate_weights new_weights)) "Weights must sum to 10000 BPS";;
  portfolio ← get_portfolio portfolio_id;
  panic_if (negb (Z.of_nat (length new_weights) =? Z.of_nat (length (pf_target_weights portfolio))))
    "Cannot change number of assets";;
  panic_if (negb (same_tokens (pf_target_weights portfolio) new_weights)) "Cannot change token addresses";;
  foldM (λ _ i, retarget portfolio_id (pf_total_assets portfolio) new_weights i) tt (indices new_weights);;
  set_portfolio {| portfolio with pf_target_weights := new_weights |};;
  publish (pm_gov portfolio_id "weights" 0).

Definition pause_portfolio (admin : Address) (portfolio_id : Z) : C () :=
  require_auth admin;;
  assert_admin admin;;
  portfolio ← get_portfolio portfolio_id;
  panic_if (negb (bool_decide (pf_status portfolio = Active))) "Portfolio is not active";;
  set_portfolio {| portfolio with pf_status := Paused |};;
  publish (pm_pause_portfolio portfolio_id).
Definition unpause_portfolio (admin : Address) (portfolio_id : Z) : C () :=
  require_auth admin;;
  assert_admin admin;;
  portfolio ← get_portfolio portfolio_id;
  panic_if (negb (bool_decide (pf_status portfolio = Paused))) "Portfolio is not paused";;
  set_portfolio {| portfolio with pf_status := Active |};;
  publish (pm_unpse_portfolio portfolio_id).
Definition close_portfolio (admin : Address) (portfolio_id : Z) : C () :=
  require_auth admin;;
  assert_admin admin;;
  portfolio ← get_portfolio portfolio_id;
  panic_if (bool_decide (pf_status portfolio = Closed)) "Portfolio already closed";;
  set_portfolio {| portfolio with pf_status := Closed |};;
  publish (pm_close portfolio_id).

Definition pause (admin : Address) : C () :=
  require_auth admin;;
  assert_admin admin;;
  set_paused true;;
  publish (pm_pause admin).
Definition unpause (admin : Address) : C () :=
  require_auth admin;;
  assert_admin admin;;
  set_paused false;;
  publish (pm_unpse admin).

(** ** Views *)

Definition get_portfolio_info (portfolio_id : Z) : C PortfolioInfo :=
  p ← get_portfolio portfolio_id;
  nav ← nav_of (pf_total_assets p) (pf_total_supply p);
  mret (mkInfo (pf_portfolio_id p) (pf_name p) (pf_portfolio_type p) (pf_weighting_strategy p) (pf_status p)
    (pf_total_assets p) (pf_total_supply p) nav (pf_rebalance_frequency p) (pf_drift_tolerance_bps p)
    (Z.of_nat (length (pf_target_weights p))) (pf_rebalance_count p) (pf_last_rebalance_time p) (pf_created_at p)).
Definition get_nav_per_share (portfolio_id : Z) : C Z :=
  p ← get_portfolio portfolio_id;
  nav_of (pf_total_assets p) (pf_total_supply p).
Definition get_drifts (portfolio_id : Z) : C (list Z) :=
  portfolio ← get_portfolio portfolio_id;
  foldM (λ drifts i,
    pos ← get_asset_position portfolio_id i;
    drift ← drift_between (as_target_weight_bps pos) (as_current_weight_bps pos);
    mret (drifts ++ [drift])) [] (indices (pf_target_weights portfolio)).
Definition get_asset_positions (portfolio_id : Z) : C (list AssetPosition) :=
  portfolio ← get_portfolio portfolio_id;
  foldM (λ positions i,
    pos ← get_asset_position portfolio_id i;
    mret (positions ++ [pos])) [] (indices (pf_target_weights portfolio)).
Definition get_latest_snapshot (portfolio_id : Z) : C (option PerformanceSnapshot) :=
  counter ← gets (λ s, default 0 (SnapshotCounter s !! portfolio_id));
  if counter =? 0 then mret None
  else
    snapshot ← get_performance_snapshot portfolio_id counter;
    mret (Some snapshot).
Definition get_total_dividends (portfolio_id : Z) : C Z := total_dividends_collected portfolio_id.
End contract.

(** ** The entry points *)

Inductive Call :=
| CInitialize (admin : Address)
| CFromTemplate (creator : Address) (name : string) (type : PortfolioType) (token oracle : Address) (tokens : list Address)
| CCustom (creator : Address) (name : string) (token oracle : Address) (allocations : list AssetAllocation)
    (strategy : WeightingStrategy) (frequency : RebalanceFrequency) (drift slippage : option Z)
| CEqualWeight (creator : Address) (name : string) (token oracle : Address) (tokens : list Address)
    (frequency : RebalanceFrequency)
| CDeposit (user : Address) (portfolio_id amount : Z)
| CWithdraw (user : Address) (portfolio_id shares : Z)
| CRebalance (caller : Address) (portfolio_id : Z) (buys sells : list SwapRecord) (balances : list Z)
| CCheckRebalance (caller : Address) (portfolio_id : Z) (balances : list Z) (buys sells : list SwapRecord)
| CUpdateAsset (caller : Address) (portfolio_id index balance price : Z)
| CCollectDividends (caller : Address) (portfolio_id : Z) (amounts : list (Address * Z))
| CClaimDividends (user : Address) (portfolio_id : Z)
| CSnapshot (caller : Address) (portfolio_id : Z)
| CFork (creator : Address) (source : Z) (name : string) (weights : option (list AssetAllocation))
    (frequency : option RebalanceFrequency)
| CSetDrift (admin : Address) (portfolio_id bps : Z)
| CSetFrequency (admin : Address) (portfolio_id : Z) (frequency : RebalanceFrequency)
| CSetSlippage (admin : Address) (portfolio_id bps : Z)
| CSetWeights (admin : Address) (portfolio_id : Z) (weights : list AssetAllocation)
| CPausePortfolio (admin : Address) (portfolio_id : Z)
| CUnpausePortfolio (admin : Address) (portfolio_id : Z)
| CClose (admin : Address) (portfolio_id : Z)
| CPause (admin : Address)
| CUnpause (admin : Address).

Definition exec `{TokenHost} (c : Call) : M State () Event () :=
  match c with
  | CInitialize a => initialize a
  | CFromTemplate c n t d o k => discard (create_from_template c n t d o k)
  | CCustom c n d o al s f dr sl => discard (create_custom c n d o al s f dr sl)
  | CEqualWeight c n d o k f => discard (create_equal_weight c n d o k f)
  | CDeposit u i n => discard (deposit u i n)
  | CWithdraw u i n => discard (withdraw u i n)
  | CRebalance c i b s n => discard (rebalance c i b s n)
  | CCheckRebalance c i n b s => discard (check_and_rebalance c i n b s)
  | CUpdateAsset c i j b p => update_asset_position c i j b p
  | CCollectDividends c i l => discard (collect_dividends c i l)
  | CClaimDividends u i => discard (claim_dividends u i)
  | CSnapshot c i => discard (record_performance_snapshot c i)
  | CFork c i n w f => discard (fork_portfolio c i n w f)
  | CSetDrift a i b => set_drift_tolerance a i b
  | CSetFrequency a i f => set_rebalance_frequency a i f
  | CSetSlippage a i b => set_max_slippage a i b
  | CSetWeights a i w => set_target_weights a i w
  | CPausePortfolio a i => pause_portfolio a i
  | CUnpausePortfolio a i => unpause_portfolio a i
  | CClose a i => close_portfolio a i
  | CPause a => pause a
  | CUnpause a => unpause a
  end.

(** Unsigned arguments are non-negative, by their Rust types. *)
Definition weights_unsigned (l : list AssetAllocation) : Prop := Forall (λ a, 0 ≤ al_weight_bps a) l.
Definition call_ok (c : Call) : Prop :=
  match c with
  | CCustom _ _ _ _ al _ _ dr sl => weights_unsigned al ∧ 0 ≤ default 0 dr ∧ 0 ≤ default 0 sl
  | CUpdateAsset _ _ j _ _ => 0 ≤ j
  | CFork _ _ _ w _ => weights_unsigned (default [] w)
  | CSetDrift _ _ b | CSetSlippage _ _ b => 0 ≤ b
  | CSetWeights _ _ w => weights_unsigned w
  | _ => True
  end.
