(* ===== verification/PortfolioProofs.v ===== *)
(** * contracts/portfolio-manager: theorems

    The weights of a portfolio and the positions of its assets agree; the shares of
    its holders add up to its supply; deposits and withdrawals are fair to the other
    holders; a closed portfolio stays closed. *)

From stdpp Require Import gmap strings list fin_maps.
From S2P Require Import Prelude Soroban TokenModel AmmMath PortfolioTypes Portfolio.
Open Scope Z_scope.

(** ** Weights *)

Definition weights_ok (l : list AssetAllocation) : Prop :=
  lsum al_weight_bps l = BPS_DENOMINATOR ∧ Forall (λ a, 0 ≤ al_weight_bps a) l.

(** Every template is complete. *)
Lemma template_weights ty tm tokens l :
  get_template ty = Some tm → template_to_allocations tm tokens = Some l → weights_ok l.
Proof.
  intros Ht Hl. assert (lsum sl_weight_bps (tm_allocation_template tm) = BPS_DENOMINATOR ∧
    Forall (λ s, 0 ≤ sl_weight_bps s) (tm_allocation_template tm)) as [Hs Hf].
  { destruct ty; try discriminate Ht; injection Ht as <-; (split; [reflexivity|repeat constructor; cbn; lia]). }
  unfold template_to_allocations in Hl. destruct (_ =? _) eqn:Hlen; [|done]. cbn in Hl. injection Hl as <-. zbool.
  apply Nat2Z.inj in Hlen. clear Ht. unfold weights_ok. rewrite <- Hs. clear Hs. revert tokens Hlen.
  induction (tm_allocation_template tm) as [|s slots IH]; intros [|t tokens] Hlen; cbn in *; try done.
  apply Forall_cons in Hf as [Hs Hf]. destruct (IH Hf tokens ltac:(lia)) as [Heq Hall]. split; [|by constructor].
  unfold lsum in *. by rewrite Heq.
Qed.

(** The weights of [equal_weight_allocations] from position [k] on. *)
Lemma equal_weights_sum base r tokens k :
  0 ≤ base → base + 1 < 2 ^ 32 → 
  lsum al_weight_bps (imap (λ i token, mkAlloc token ((base + (if Z.of_nat (k + i) <? r then 1 else 0)) `mod` 2 ^ 32) None) tokens)
  = base * Z.of_nat (length tokens) + Z.max 0 (Z.min (Z.of_nat (length tokens)) (r - Z.of_nat k)).
Proof.
  intros Hb Hb2. revert k. induction tokens as [|t tokens IH]; intros k; [cbn; lia|].
  cbn [imap lsum foldr al_weight_bps length]. 
  rewrite (imap_ext _ (λ i token, mkAlloc token ((base + (if Z.of_nat (S k + i) <? r then 1 else 0)) `mod` 2 ^ 32) None)).
  2: { intros i t' _. cbn. do 4 f_equal. by rewrite Nat.add_succ_r. }
  change (foldr (λ x acc, al_weight_bps x + acc) 0) with (lsum al_weight_bps). rewrite IH, Nat.add_0_r.
  destruct (_ <? _) eqn:Hr; zbool; rewrite Z.mod_small by lia; lia.
Qed.

Lemma equal_weights_ok tokens :
  tokens ≠ [] → Z.of_nat (length tokens) ≤ MAX_ASSETS → weights_ok (equal_weight_allocations tokens).
Proof.
  intros Hne Hmax. unfold MAX_ASSETS in Hmax. set (n := Z.of_nat (length tokens)) in *.
  assert (0 < n) by (unfold n; destruct tokens; [done|cbn; lia]).
  unfold equal_weight_allocations. fold n. rewrite (proj2 (Z.eqb_neq _ _)) by lia. cbv zeta. unfold BPS_DENOMINATOR.
  rewrite quot_div_nonneg by lia. pose proof (Z.mul_div_le 10000 n ltac:(lia)).
  pose proof (Z.mul_succ_div_gt 10000 n ltac:(lia)).
  assert (0 ≤ 10000 `div` n) by (apply Z.div_pos; lia). assert (10000 `div` n ≤ 10000) by (apply Z.div_le_upper_bound; nia).
  split.
  - pose proof (equal_weights_sum (10000 `div` n) (10000 - 10000 `div` n * n) tokens 0) as Hs. cbn [Nat.add] in Hs.
    rewrite Hs by lia. fold n. unfold BPS_DENOMINATOR. nia.
  - apply Forall_forall. intros a Ha. apply list_elem_of_lookup in Ha as [i Hi]. rewrite list_lookup_imap in Hi.
    apply fmap_Some in Hi as (t & _ & ->). cbn. apply Z.mod_pos. lia.
Qed.

Lemma validated_weights l : validate_weights l = true → weights_unsigned l → weights_ok l.
Proof. intros Hv Hu. unfold validate_weights in Hv. zbool. by split. Qed.

(** ** The invariant *)

(** The shares of a portfolio that its holders have. *)
Definition shares_of (i : Z) (m : gmap (Address * Z) UserPosition) : Z :=
  msum (λ k u, if k.2 =? i then up_shares u else 0) m.

(** The assets of a portfolio have positions with their tokens and targets. *)
Definition positions_ok (i : Z) (l : list AssetAllocation) (m : gmap (Z * Z) AssetPosition) : Prop :=
  ∀ k a, l !! k = Some a → ∃ pos, m !! (i, Z.of_nat k) = Some pos ∧ as_token pos = al_token a ∧
    as_target_weight_bps pos = al_weight_bps a.

Record portfolio_ok (st : State) (i : Z) (p : Portfolio) : Prop := {
  po_id : pf_portfolio_id p = i ∧ 1 ≤ i ≤ default 0 (PortfolioCounter st);
  po_weights : weights_ok (pf_target_weights p);
  po_positions : positions_ok i (pf_target_weights p) (AssetPositions st);
  po_supply : pf_total_supply p = shares_of i (UserPositions st);
}.

Record user_ok (st : State) (u : Address) (i : Z) (x : UserPosition) : Prop := {
  uo_portfolio : is_Some (Portfolios st !! i);
  uo_dividends : up_pending_dividends x = 0;
}.

(** The invariant, with portfolios [K] that are known to be closed. *)
Record live (K : gset Z) (st : State) : Prop := {
  lv_counter : 0 ≤ default 0 (PortfolioCounter st);
  lv_portfolio i p : Portfolios st !! i = Some p → portfolio_ok st i p;
  lv_user u i x : UserPositions st !! (u, i) = Some x → user_ok st u i x;
  lv_lock : default false (ReentrancyLock st) = false;
  lv_closed i : i ∈ K → pf_status <$> Portfolios st !! i = Some Closed;
}.

(** Positions that may have new balances, prices and weights, not other tokens or targets. *)
Definition same_assets (m m' : gmap (Z * Z) AssetPosition) : Prop :=
  ∀ k pos, m !! k = Some pos → ∃ pos', m' !! k = Some pos' ∧ as_token pos' = as_token pos ∧
    as_target_weight_bps pos' = as_target_weight_bps pos.

#[global] Instance same_assets_preorder : PreOrder same_assets.
Proof.
  split.
  - intros m k pos Hk. by exists pos.
  - intros m1 m2 m3 H12 H23 k pos Hk. destruct (H12 k pos Hk) as (p2 & H2 & ? & ?).
    destruct (H23 k p2 H2) as (p3 & H3 & ? & ?). exists p3. split_and!; congruence.
Qed.

Lemma same_assets_insert m k pos pos' :
  m !! k = Some pos → as_token pos' = as_token pos → as_target_weight_bps pos' = as_target_weight_bps pos →
  same_assets m (<[k := pos']> m).
Proof.
  intros Hk Ht Hw k' x Hx. destruct (decide (k' = k)) as [Heq|Hne].
  - rewrite Heq in *. exists pos'. rewrite lookup_insert_eq. split_and!; congruence.
  - exists x. by rewrite lookup_insert_ne.
Qed.

Lemma positions_same i l m m' : positions_ok i l m → same_assets m m' → positions_ok i l m'.
Proof.
  intros Hp Hs k a Hk. destruct (Hp k a Hk) as (pos & Hpos & Ht & Hw). destruct (Hs _ _ Hpos) as (pos' & ? & ? & ?).
  exists pos'. split_and!; congruence.
Qed.

(** What the invariant is about. *)
Definition books (st : State) := (PortfolioCounter st, Portfolios st, UserPositions st, ReentrancyLock st).

Lemma closed_insert (m : gmap Z Portfolio) i p p' j :
  m !! i = Some p → (pf_status p = Closed → pf_status p' = Closed) → pf_status <$> m !! j = Some Closed →
  pf_status <$> <[i := p']> m !! j = Some Closed.
Proof.
  intros Hi Hp Hj. destruct (decide (j = i)) as [Heq|Hne]; [|by rewrite lookup_insert_ne].
  rewrite Heq in *. rewrite lookup_insert_eq. rewrite Hi in Hj. cbn in *. f_equal. apply Hp. congruence.
Qed.

(** A portfolio is written over; its weights and its supply stay. *)
Lemma live_update K st st' i p p' :
  live K st → Portfolios st !! i = Some p →
  books st' = (PortfolioCounter st, <[pf_portfolio_id p := p']> (Portfolios st), UserPositions st, ReentrancyLock st) →
  pf_portfolio_id p' = pf_portfolio_id p →
  pf_target_weights p' = pf_target_weights p → pf_total_supply p' = pf_total_supply p →
  (pf_status p = Closed → pf_status p' = Closed) →
  same_assets (AssetPositions st) (AssetPositions st') → live K st'.
Proof.
  intros Hl Hi Hb Hid Hw Hs Hcl Ha. unfold books in Hb. injection Hb as E1 E2 E3 E4.
  destruct (po_id _ _ _ (lv_portfolio _ _ Hl i p Hi)) as [Hpi _]. rewrite Hpi in E2.
  split; rewrite ?E1, ?E2, ?E3, ?E4; try apply Hl.
  - intros j q Hj. assert (∃ q0, Portfolios st !! j = Some q0 ∧ pf_portfolio_id q = pf_portfolio_id q0 ∧
      pf_target_weights q = pf_target_weights q0 ∧ pf_total_supply q = pf_total_supply q0) as (q0 & Hq0 & Q1 & Q2 & Q3).
    { apply lookup_insert_Some in Hj as [[<- <-]|[_ Hj]]; eauto. }
    destruct (lv_portfolio _ _ Hl j q0 Hq0) as [P1 P2 P3 P4].
    split; rewrite ?E1, ?E3, ?Q1, ?Q2, ?Q3; try done. by eapply positions_same.
  - intros u j x Hx. destruct (lv_user _ _ Hl u j x Hx) as [U1 U2]. split; [|done]. rewrite E2. by apply is_Some_insert.
  - intros j Hj. pose proof (lv_closed _ _ Hl j Hj) as Hc. by apply (closed_insert _ i p p').
Qed.

(** A computation that leaves the books alone. *)
Lemma live_frame K st st' : live K st → books st' = books st → same_assets (AssetPositions st) (AssetPositions st') → live K st'.
Proof.
  intros Hl Hb Ha. unfold books in Hb. injection Hb as E1 E2 E3 E4. split; rewrite ?E1, ?E2, ?E3, ?E4; try apply Hl.
  - intros j q Hj. destruct (lv_portfolio _ _ Hl j q Hj) as [P1 P2 P3 P4]. split; rewrite ?E1, ?E3; try done.
    by eapply positions_same.
  - intros u j x Hx. destruct (lv_user _ _ Hl u j x Hx). split; by rewrite ?E2.
Qed.

Section invariant.
Context `{TokenHost} (K : gset Z).
Implicit Types (w : World State Event) (e : Env).

#[local] Hint Extern 1 (reads eq (gets _)) => (apply reads_gets; by intros ? ? ->) : contracts.

(** The computations that write nothing. *)
Lemma mul_div_reads a b c : reads eq (mul_div a b c).
Proof. unfold mul_div. apply reads_bind; auto with contracts. Qed.
#[local] Hint Resolve mul_div_reads : contracts.

Lemma nav_of_reads a s : reads eq (nav_of a s).
Proof. unfold nav_of. auto with contracts. Qed.
Lemma weight_of_reads v a : reads eq (weight_of v a).
Proof. unfold weight_of. apply reads_if; [|auto with contracts]. apply reads_bind; auto with contracts. Qed.
#[local] Hint Resolve nav_of_reads weight_of_reads : contracts.

Lemma assert_admin_pure a e w u w' : assert_admin a e w = Ok (u, w') → w' = w ∧ Admin (store w) = Some a.
Proof. intros Hr. unfold assert_admin, get_admin in Hr. minv Hr. zbool. by subst. Qed.

Lemma mul_div_Ok a b c e w r w' :
  (mul_div a b c : M State () Event Z) e w = Ok (r, w') → w' = w ∧ c ≠ 0 ∧ r = (a * b) `quot` c.
Proof. intros Hr. unfold mul_div in Hr. minv Hr. inv_checked. done. Qed.

(** A step that writes asset positions only, and keeps their tokens and targets. *)
Definition asset_step w w' : Prop :=
  books (store w') = books (store w) ∧ same_assets (AssetPositions (store w)) (AssetPositions (store w')).

Lemma asset_step_refl w : asset_step w w.
Proof. split; [done|reflexivity]. Qed.
Lemma asset_step_trans w1 w2 w3 : asset_step w1 w2 → asset_step w2 w3 → asset_step w1 w3.
Proof. intros [B1 A1] [B2 A2]. split; [congruence|]. by etransitivity. Qed.

Lemma loop_assets {A B} (f : B → A → M State () Event B) l b e w b' w' :
  (∀ b a e w b' w', f b a e w = Ok (b', w') → asset_step w w') → foldM f b l e w = Ok (b', w') → asset_step w w'.
Proof.
  intros Hf. revert b w. induction l as [|a l IH]; intros b w Hr; cbn [foldM] in Hr.
  - minv Hr. apply asset_step_refl.
  - apply bind_Ok in Hr as (b1 & w1 & H1 & Hr). eapply asset_step_trans; [by eapply Hf|by eapply IH].
Qed.

Lemma set_asset_step i j pos pos' e w u w' :
  AssetPositions (store w) !! (i, j) = Some pos → as_token pos' = as_token pos →
  as_target_weight_bps pos' = as_target_weight_bps pos →
  (set_asset_position i j pos' : M State () Event ()) e w = Ok (u, w') → asset_step w w'.
Proof.
  intros Hp Ht Hw Hr. unfold set_asset_position in Hr. minv Hr. split; [done|]. cbn. by eapply same_assets_insert.
Qed.

Lemma get_asset_Ok i j e w pos w' :
  (get_asset_position i j : M State () Event AssetPosition) e w = Ok (pos, w') →
  AssetPositions (store w) !! (i, j) = Some pos ∧ w' = w.
Proof. intros Hr. unfold get_asset_position in Hr. by minv Hr. Qed.

Lemma rebalance_one_step i ta bs tot j e w v w' : rebalance_one i ta bs tot j e w = Ok (v, w') → asset_step w w'.
Proof.
  intros Hr. unfold rebalance_one in Hr. apply bind_Ok in Hr as (pos & w1 & (Hp & ->)%get_asset_Ok & Hr).
  apply bind_Ok in Hr as (nb & w1 & Hb & Hr). minv Hb. apply bind_Ok in Hr as (nv & w1 & (-> & _)%mul_div_Ok & Hr).
  apply bind_Ok in Hr as (wt & w1 & ->%reads_pure & Hr); [|apply weight_of_reads].
  apply bind_Ok in Hr as ([] & w1 & Hset & Hr). minv Hr. by eapply set_asset_step in Hset.
Qed.

Lemma add_dividend_step i tk n tot js e w v w' : add_dividend i tk n tot js e w = Ok (v, w') → asset_step w w'.
Proof.
  revert tot. induction js as [|j js IH]; intros tot Hr; cbn [add_dividend] in Hr; [minv Hr; apply asset_step_refl|].
  apply bind_Ok in Hr as (pos & w1 & (Hp & ->)%get_asset_Ok & Hr). case_bool_decide; [|by eapply IH].
  apply bind_Ok in Hr as (b & w1 & Hb & Hr). minv Hb. apply bind_Ok in Hr as ([] & w1 & Hset & Hr). minv Hr.
  by eapply set_asset_step in Hset.
Qed.

Lemma sum_swap_reads b s : reads eq (sum_swap_values b s).
Proof. unfold sum_swap_values. apply reads_bind; [|intros ?]; apply reads_foldM; auto with contracts. Qed.

Lemma get_portfolio_Ok i e w p w' :
  (get_portfolio i : M State () Event Portfolio) e w = Ok (p, w') → Portfolios (store w) !! i = Some p ∧ w' = w.
Proof. intros Hr. unfold get_portfolio in Hr. by minv Hr. Qed.

(** A portfolio is written after its assets. *)
Lemma live_asset_update w w1 st' i p p' :
  live K (store w) → Portfolios (store w) !! i = Some p → asset_step w w1 →
  books st' = (PortfolioCounter (store w1), <[pf_portfolio_id p := p']> (Portfolios (store w1)), UserPositions (store w1),
    ReentrancyLock (store w1)) →
  pf_portfolio_id p' = pf_portfolio_id p →
  pf_target_weights p' = pf_target_weights p → pf_total_supply p' = pf_total_supply p →
  (pf_status p = Closed → pf_status p' = Closed) →
  AssetPositions st' = AssetPositions (store w1) → live K st'.
Proof.
  intros Hl Hi [Hb Ha] Hst H1 H2 H3 H4 Has. apply (live_update K (store w1) st' i p p'); [by eapply live_frame| |done..|].
  - unfold books in Hb. congruence.
  - by rewrite Has.
Qed.

Lemma rebalance_live c i b s bs e w r w' : rebalance c i b s bs e w = Ok (r, w') → live K (store w) → live K (store w').
Proof.
  intros Hr Hl. unfold rebalance in Hr. apply bind_Ok in Hr as ([] & w1 & Ha & Hr). minv Ha.
  apply bind_Ok in Hr as (p & w1 & (Hp & ->)%get_portfolio_Ok & Hr). unfold is_paused in Hr.
  do 4 (let Hg := fresh "Hg" in apply bind_Ok in Hr as (? & w1 & Hg & Hr); minv Hg). cbv zeta in Hr.
  apply bind_Ok in Hr as (due & w1 & Hdue & Hr). minv Hdue.
  apply bind_Ok in Hr as ([] & w1 & Hadm & Hr). assert (w1 = w) as ->.
  { unfold get_admin in Hadm. by minv Hadm. }
  apply bind_Ok in Hr as ([] & w1 & Hlen & Hr). minv Hlen.
  apply bind_Ok in Hr as (sw & w1 & ->%reads_pure & Hr); [|apply sum_swap_reads].
  apply bind_Ok in Hr as (sl & w1 & Hsl & Hr). assert (w1 = w) as ->.
  { destruct (_ >? 0); [|by minv Hsl]. apply bind_Ok in Hsl as (q & w2 & (-> & _)%mul_div_Ok & Hsl). by minv Hsl. }
  apply bind_Ok in Hr as ([] & w1 & Hg2 & Hr). minv Hg2. apply bind_Ok in Hr as (tv & w1 & Hloop & Hr).
  apply loop_assets in Hloop; [|intros; by eapply rebalance_one_step].
  unfold set_portfolio, next_rebalance_id, set_rebalance_record in Hr. minv Hr.
  by eapply (live_asset_update w w1 _ i p _ Hl Hp Hloop); [reflexivity|..].
Qed.

Lemma get_asset_reads i j : reads eq (get_asset_position i j).
Proof. unfold get_asset_position. apply reads_bind; auto with contracts. Qed.
Lemma get_portfolio_reads i : reads eq (get_portfolio i).
Proof. unfold get_portfolio. apply reads_bind; auto with contracts. Qed.
#[local] Hint Resolve get_asset_reads get_portfolio_reads : contracts.

Lemma value_at_reads i bs j : reads eq (value_at i bs j).
Proof. unfold value_at. repeat first [apply reads_bind; [|intros ?]|solve [auto with contracts]]. Qed.
#[local] Hint Resolve value_at_reads : contracts.

Lemma max_drift_reads i bs : reads eq (max_drift i bs).
Proof.
  unfold max_drift, drift_between. repeat first [apply reads_bind; [|intros ?]|apply reads_foldM; intros ? ?|apply reads_if|solve [auto with contracts]].
Qed.

Lemma check_rebalance_live c i bs b s e w r w' :
  check_and_rebalance c i bs b s e w = Ok (r, w') → live K (store w) → live K (store w').
Proof.
  intros Hr Hl. unfold check_and_rebalance in Hr. apply bind_Ok in Hr as (p & w1 & (Hp & ->)%get_portfolio_Ok & Hr).
  do 2 (let Hg := fresh "Hg" in apply bind_Ok in Hr as (? & w1 & Hg & Hr); minv Hg). destruct (_ >=? _).
  - apply bind_Ok in Hr as (r1 & w1 & Hreb & Hr). minv Hr. by eapply rebalance_live.
  - apply bind_Ok in Hr as (d & w1 & ->%reads_pure & Hr); [|apply max_drift_reads]. destruct (_ >? _); [|by minv Hr].
    apply bind_Ok in Hr as (r1 & w1 & Hreb & Hr). minv Hr. by eapply rebalance_live.
Qed.

Lemma update_asset_live c i j b pr e w w' : update_asset_position c i j b pr e w = Ok (tt, w') → live K (store w) → live K (store w').
Proof.
  intros Hr Hl. unfold update_asset_position in Hr. apply bind_Ok in Hr as ([] & w1 & Ha & Hr). minv Ha.
  apply bind_Ok in Hr as ([] & w1 & [-> _]%assert_admin_pure & Hr).
  apply bind_Ok in Hr as (p & w1 & (Hp & ->)%get_portfolio_Ok & Hr).
  apply bind_Ok in Hr as (pos & w1 & (Hpos & ->)%get_asset_Ok & Hr).
  apply bind_Ok in Hr as (nv & w1 & (-> & _)%mul_div_Ok & Hr). apply bind_Ok in Hr as (ov & w1 & (-> & _)%mul_div_Ok & Hr).
  do 2 (let Hg := fresh "Hg" in apply bind_Ok in Hr as (? & w1 & Hg & Hr); minv Hg).
  apply bind_Ok in Hr as (wt & w1 & ->%reads_pure & Hr); [|apply weight_of_reads].
  apply bind_Ok in Hr as ([] & w1 & Hset & Hr). eapply set_asset_step in Hset; [|done..].
  unfold set_portfolio in Hr. minv Hr. by eapply (live_asset_update w w1 _ i p _ Hl Hp Hset); [reflexivity|..].
Qed.

Lemma collect_live c i l e w r w' : collect_dividends c i l e w = Ok (r, w') → live K (store w) → live K (store w').
Proof.
  intros Hr Hl. unfold collect_dividends in Hr. apply bind_Ok in Hr as ([] & w1 & Ha & Hr). minv Ha.
  apply bind_Ok in Hr as ([] & w1 & [-> _]%assert_admin_pure & Hr).
  apply bind_Ok in Hr as (p & w1 & (Hp & ->)%get_portfolio_Ok & Hr). apply bind_Ok in Hr as ([] & w1 & Hact & Hr). minv Hact.
  apply bind_Ok in Hr as (tot & w1 & Hloop & Hr). apply loop_assets in Hloop; [|intros; by eapply add_dividend_step].
  unfold total_dividends_collected, set_total_dividends_collected in Hr.
  do 6 (let Hg := fresh "Hg" in apply bind_Ok in Hr as (? & w2 & Hg & Hr); minv Hg).
  apply bind_Ok in Hr as (ps & w2 & Hps & Hr). unfold set_portfolio, next_dividend_id, set_dividend_record in Hr.
  apply reads_pure in Hps as ->; [|apply reads_if; [apply mul_div_reads|apply reads_ret]]. minv Hr.
  by eapply (live_asset_update w w1 _ i p _ Hl Hp Hloop); [reflexivity|..].
Qed.

(** Nobody has dividends to claim. *)
Lemma claim_never u i e w r : live K (store w) → claim_dividends u i e w ≠ Ok r.
Proof.
  intros Hl Hr. destruct r as [n w']. unfold claim_dividends, get_user_position in Hr.
  apply bind_Ok in Hr as ([] & w1 & Ha & Hr). minv Ha. apply bind_Ok in Hr as (pos & w1 & Hpos & Hr). minv Hpos.
  apply bind_Ok in Hr as ([] & w1 & Hg & _). minv Hg. zbool. rewrite (uo_dividends _ _ _ _ (lv_user _ _ Hl _ _ _ Hpos)) in Hg. lia.
Qed.

(** Governance: one portfolio is written, with its weights and supply. *)
Definition is_parameter_call (c : Call) : bool :=
  match c with
  | CSetDrift _ _ _ | CSetFrequency _ _ _ | CSetSlippage _ _ _ | CPausePortfolio _ _ | CUnpausePortfolio _ _ | CClose _ _ => true
  | _ => false
  end.

Lemma parameter_run c e w w' :
  is_parameter_call c = true → exec c e w = Ok (tt, w') →
  ∃ i p p', Portfolios (store w) !! i = Some p ∧
    store w' = {| (store w) with Portfolios := <[pf_portfolio_id p := p']> (Portfolios (store w)) |} ∧
    pf_portfolio_id p' = pf_portfolio_id p ∧ pf_target_weights p' = pf_target_weights p ∧
    pf_total_supply p' = pf_total_supply p ∧ pf_total_assets p' = pf_total_assets p ∧
    (pf_status p = Closed → pf_status p' = Closed).
Proof.
  intros Hc Hr. destruct c; try discriminate Hc; cbn [exec] in Hr;
    unfold set_drift_tolerance, set_rebalance_frequency, set_max_slippage, pause_portfolio, unpause_portfolio, close_portfolio in Hr;
    apply bind_Ok in Hr as ([] & w1 & Ha & Hr); minv Ha; apply bind_Ok in Hr as ([] & w1 & [-> _]%assert_admin_pure & Hr);
    apply bind_Ok in Hr as (p & w1 & (Hp & ->)%get_portfolio_Ok & Hr); unfold set_portfolio in Hr; minv Hr; zbool;
    exists portfolio_id, p; eexists; (split; [done|]); (split; [reflexivity|]); split_and!; try done; cbn; congruence.
Qed.

Lemma parameter_live c e w w' : is_parameter_call c = true → exec c e w = Ok (tt, w') → live K (store w) → live K (store w').
Proof.
  intros Hc Hr Hl. destruct (parameter_run _ _ _ _ Hc Hr) as (i & p & p' & Hp & Hst & H1 & H2 & H3 & _ & H4).
  eapply (live_update K (store w) _ i p p'); try done; by rewrite Hst.
Qed.

Definition is_bystander (c : Call) : bool :=
  match c with CSnapshot _ _ | CPause _ | CUnpause _ => true | _ => false end.

Lemma portfolio_isqrt_reads n : reads eq (isqrt n : M State () Event Z).
Proof.
  assert (∀ f n x y, reads eq (isqrt_loop f n x y : M State () Event Z)) as Hl.
  { induction f as [|f IH]; intros; cbn [isqrt_loop]; [apply reads_panic|]. apply reads_if; [|apply reads_ret].
    apply reads_bind; [apply reads_plain_div|intros ?]. apply reads_bind; [apply reads_plain_add|intros ?].
    apply reads_bind; [apply reads_plain_div|intros ?]. apply IH. }
  unfold isqrt. apply reads_if; [apply reads_ret|]. apply reads_if; [apply reads_ret|].
  apply reads_bind; [apply reads_plain_add|intros ?]. apply reads_bind; [apply reads_plain_div|intros ?]. apply Hl.
Qed.

Lemma calculate_sharpe_reads a b c : reads eq (calculate_sharpe a b c).
Proof.
  unfold calculate_sharpe. apply reads_if; [apply reads_ret|].
  apply reads_bind; [apply reads_plain_mul|intros ?]. do 3 (apply reads_bind; [apply reads_plain_div|intros ?]).
  apply reads_bind; [apply mul_div_reads|intros ?]. apply reads_bind; [apply reads_plain_sub|intros ?].
  apply reads_if; [apply reads_ret|]. apply reads_bind; [apply reads_plain_mul|intros ?].
  apply reads_bind; [apply portfolio_isqrt_reads|intros ?]. apply reads_if; [apply reads_ret|].
  apply reads_bind; [apply mul_div_reads|intros ?]. apply reads_bind; [apply reads_plain_sub|intros ?]. apply mul_div_reads.
Qed.

Lemma bystander_frame c : is_bystander c = true → keeps (λ st, (books st, AssetPositions st)) (exec c).
Proof.
  intros Hc. destruct c; try discriminate Hc; cbn [exec]; unfold discard, record_performance_snapshot, pause, unpause,
    get_performance_accumulator, next_snapshot_id, set_performance_snapshot, set_performance_accumulator, assert_admin,
    get_admin, set_paused, get_portfolio, mul_div, nav_of; frame; try (apply keeps_reads, calculate_sharpe_reads).
Qed.

Lemma bystander_live c e w w' : is_bystander c = true → exec c e w = Ok (tt, w') → live K (store w) → live K (store w').
Proof.
  intros Hc Hr Hl. apply (bystander_frame c Hc) in Hr. injection Hr as E1 E2 E3 E4 E5.
  apply (live_frame K (store w)); [done|unfold books; congruence|by rewrite E5].
Qed.

(** A loop over the assets of one portfolio: what each round establishes of its asset holds at the end. *)
Lemma loop_positions (f : Z → M State () Event ()) (i : Z) (I : gmap (Z * Z) AssetPosition → Prop)
    (G : gmap (Z * Z) AssetPosition → Z → Prop) js e w u w' :
  (∀ j w w', j ∈ js → f j e w = Ok (tt, w') → I (AssetPositions (store w)) →
     books (store w') = books (store w) ∧ I (AssetPositions (store w')) ∧
     (∀ k j', k ≠ i → AssetPositions (store w') !! (k, j') = AssetPositions (store w) !! (k, j')) ∧
     G (AssetPositions (store w')) j ∧ ∀ j', G (AssetPositions (store w)) j' → G (AssetPositions (store w')) j') →
  foldM (λ _ j, f j) tt js e w = Ok (u, w') → I (AssetPositions (store w)) →
  books (store w') = books (store w) ∧
  (∀ k j', k ≠ i → AssetPositions (store w') !! (k, j') = AssetPositions (store w) !! (k, j')) ∧
  (∀ j, G (AssetPositions (store w)) j ∨ j ∈ js → G (AssetPositions (store w')) j).
Proof.
  revert w. induction js as [|j js IH]; intros w Hf Hr HI; cbn [foldM] in Hr.
  - minv Hr. split; [done|]. split; [done|]. intros j [Hj|Hj]; [done|by apply not_elem_of_nil in Hj].
  - apply bind_Ok in Hr as ([] & w1 & Hj & Hr). destruct (Hf j _ _ ltac:(left) Hj HI) as (B1 & I1 & F1 & G1 & P1).
    destruct (IH w1) as (B2 & F2 & G2); [intros; apply Hf; [by right|done..]|done|done|]. split; [congruence|]. split.
    + intros k j' Hk. by rewrite F2, F1.
    + intros j' [Hj'|[Heq|Hj']%elem_of_cons]; apply G2; [left; by apply P1| |by right]. left. by rewrite Heq.
Qed.

Definition on_target (l : list AssetAllocation) (i : Z) (m : gmap (Z * Z) AssetPosition) (j : Z) : Prop :=
  ∃ a pos, l !! Z.to_nat j = Some a ∧ m !! (i, j) = Some pos ∧ as_token pos = al_token a ∧
    as_target_weight_bps pos = al_weight_bps a.

Lemma on_target_insert l (i : Z) m j j' pos a :
  l !! Z.to_nat j = Some a → as_token pos = al_token a → as_target_weight_bps pos = al_weight_bps a →
  on_target l i m j' → on_target l i (<[(i, j) := pos]> m) j'.
Proof.
  intros Ha Ht Hw (a' & pos' & Ha' & Hp & ? & ?). destruct (decide (j' = j)) as [Heq|Hne].
  - rewrite Heq in *. exists a, pos. by rewrite lookup_insert_eq.
  - exists a', pos'. by rewrite lookup_insert_ne by congruence.
Qed.

Lemma on_target_positions l i m : (∀ j, j ∈ indices l → on_target l i m j) → positions_ok i l m.
Proof.
  intros Hall k a Hk. destruct (Hall (Z.of_nat k)) as (a' & pos & Ha & Hp & Ht & Hw).
  - apply elem_of_seqZ. apply lookup_lt_Some in Hk. lia.
  - rewrite Nat2Z.id in Ha. exists pos. split_and!; congruence.
Qed.

Lemma init_loop i t l e w u w' :
  foldM (λ _ j, init_position i t l j) tt (indices l) e w = Ok (u, w') →
  books (store w') = books (store w) ∧
  (∀ k j, k ≠ i → AssetPositions (store w') !! (k, j) = AssetPositions (store w) !! (k, j)) ∧
  positions_ok i l (AssetPositions (store w')).
Proof.
  intros Hr. apply (loop_positions _ i (λ _, True) (on_target l i)) in Hr as (B & F & G); [|clear|done].
  - split; [done|]. split; [done|]. apply on_target_positions. auto.
  - intros j w w' _ Hr _. unfold init_position, set_asset_position in Hr. minv Hr. cbn. split; [done|]. split; [done|].
    split; [intros k j' Hk; by rewrite lookup_insert_ne by congruence|]. split.
    + eexists _, _. split; [done|]. by rewrite lookup_insert_eq.
    + intros j'. by apply (on_target_insert _ _ _ _ _ _ _ Hr0).
Qed.

Lemma retarget_loop i ta l0 l e w u w' :
  foldM (λ _ j, retarget i ta l j) tt (indices l) e w = Ok (u, w') →
  positions_ok i l0 (AssetPositions (store w)) → same_tokens l0 l = true →
  books (store w') = books (store w) ∧
  (∀ k j, k ≠ i → AssetPositions (store w') !! (k, j) = AssetPositions (store w) !! (k, j)) ∧
  positions_ok i l (AssetPositions (store w')).
Proof.
  intros Hr Hp0 Hst. unfold same_tokens in Hst. zbool.
  set (I := λ m : gmap (Z * Z) AssetPosition, ∀ k a, l !! k = Some a → ∃ pos, m !! (i, Z.of_nat k) = Some pos ∧ as_token pos = al_token a).
  apply (loop_positions _ i I (on_target l i)) in Hr as (B & F & G).
  - split; [done|]. split; [done|]. apply on_target_positions. auto.
  - clear -I. intros j w w' Hj Hr HI. apply elem_of_seqZ in Hj. unfold retarget in Hr. apply bind_Ok in Hr as (a & w1 & Ha & Hr). minv Ha.
    apply bind_Ok in Hr as (pos & w1 & (Hpos & ->)%get_asset_Ok & Hr). apply bind_Ok in Hr as (cur & w1 & Hc & Hr).
    apply reads_pure in Hc as ->; [|apply reads_if; [apply reads_bind; [apply mul_div_reads|intros; apply weight_of_reads]|apply reads_ret]].
    unfold set_asset_position in Hr. minv Hr. cbn.
    assert (as_token pos = al_token a) as Htok.
    { destruct (HI _ _ Ha) as (pos' & Hp' & Ht). rewrite Z2Nat.id in Hp' by lia. congruence. }
    split; [done|]. split; [|split; [intros k j' Hk; by rewrite lookup_insert_ne by congruence|split]].
    + intros k b Hk. destruct (decide (Z.of_nat k = j)) as [Heq|Hne].
      * rewrite Heq, lookup_insert_eq. eexists. split; [done|]. cbn. rewrite <- Heq, Nat2Z.id in Ha. congruence.
      * rewrite lookup_insert_ne by congruence. by apply HI.
    + eexists a, _. split; [done|]. by rewrite lookup_insert_eq.
    + intros j'. by apply (on_target_insert _ _ _ _ _ _ _ Ha).
  - intros k a Hk. destruct (lookup_lt_is_Some_2 l0 k) as [a0 Ha0].
    { apply lookup_lt_Some in Hk. apply (f_equal length) in Hst. rewrite !length_fmap in Hst. lia. }
    destruct (Hp0 k a0 Ha0) as (pos & Hpos & Ht & _). exists pos. split; [done|]. rewrite Ht.
    apply (f_equal (.!! k)) in Hst. rewrite !list_lookup_fmap, Hk, Ha0 in Hst. by injection Hst.
Qed.

Lemma set_weights_live a i l e w w' :
  set_target_weights a i l e w = Ok (tt, w') → weights_unsigned l → live K (store w) → live K (store w').
Proof.
  intros Hr Hu Hl. unfold set_target_weights in Hr. apply bind_Ok in Hr as ([] & w1 & Ha & Hr). minv Ha.
  apply bind_Ok in Hr as ([] & w1 & [-> _]%assert_admin_pure & Hr). apply bind_Ok in Hr as ([] & w1 & Hv & Hr). minv Hv.
  apply bind_Ok in Hr as (p & w1 & (Hp & ->)%get_portfolio_Ok & Hr).
  do 2 (let Hg := fresh "Hg" in apply bind_Ok in Hr as ([] & w1 & Hg & Hr); minv Hg).
  apply negb_false_iff in Hv, Hg0. destruct (lv_portfolio _ _ Hl i p Hp) as [[Hid Hrg] Hw0 Hp0 Hsup].
  apply bind_Ok in Hr as ([] & w1 & Hloop & Hr). destruct (retarget_loop _ _ _ _ _ _ _ _ Hloop Hp0 Hg0) as (B & F & G).
  unfold books in B. injection B as B1 B2 B3 B4. unfold set_portfolio in Hr. minv Hr.
  split; cbn; rewrite ?B1, ?B3, ?B4; try apply Hl.
  - rewrite B2. intros j q [[<- <-]|[Hne Hq]]%lookup_insert_Some.
    + split; cbn; rewrite ?B1, ?B3; [done|by apply validated_weights|done|done].
    + destruct (lv_portfolio _ _ Hl j q Hq) as [Q1 Q2 Q3 Q4]. split; cbn; rewrite ?B1, ?B3; try done.
      intros k b Hk. rewrite F by done. by apply Q3.
  - intros u j x Hx. destruct (lv_user _ _ Hl u j x Hx) as [U1 U2]. split; [|done]. cbn. rewrite B2. by apply is_Some_insert.
  - intros j Hj. rewrite B2. apply (closed_insert _ (pf_portfolio_id p) p); [done|done|]. by apply (lv_closed _ _ Hl).
Qed.

Lemma create_live c n ty ws rf dt ms tk o l e w i w' :
  create_portfolio_inner c n ty ws rf dt ms tk o l e w = Ok (i, w') → weights_ok l → live K (store w) → live K (store w').
Proof.
  intros Hr Hw Hl. unfold create_portfolio_inner, next_portfolio_id, set_portfolio in Hr.
  apply bind_Ok in Hr as (j & w1 & Hid & Hr). minv Hid. inv_checked. apply bind_Ok in Hr as (t & w1 & Ht & Hr). minv Ht.
  apply bind_Ok in Hr as ([] & w1 & Hset & Hr). minv Hset. apply bind_Ok in Hr as ([] & w1 & Hloop & Hr).
  apply init_loop in Hloop as (B & F & G). unfold books in B. cbn in B. injection B as B1 B2 B3 B4.
  unfold set_performance_accumulator in Hr. minv Hr. pose proof (lv_counter _ _ Hl) as Hc.
  assert (Portfolios (store w) !! (default 0 (PortfolioCounter (store w)) + 1) = None) as Hfresh.
  { apply eq_None_not_Some. intros [p Hp]. destruct (po_id _ _ _ (lv_portfolio _ _ Hl _ _ Hp)). lia. }
  split; cbn; rewrite ?B1, ?B3, ?B4; cbn; [lia| | |apply Hl|].
  - rewrite B2. intros j q [[<- <-]|[Hne Hq]]%lookup_insert_Some.
    + split; cbn; rewrite ?B1, ?B3; cbn; [split; [done|lia]|done|done|]. symmetry. apply msum_zero.
      intros [u k] x Hx. cbn. destruct (_ =? _) eqn:Hk; [|done]. zbool. destruct (uo_portfolio _ _ _ _ (lv_user _ _ Hl u k x Hx)). congruence.
    + destruct (lv_portfolio _ _ Hl j q Hq) as [[Q0 Q1] Q2 Q3 Q4]. split; cbn; rewrite ?B1, ?B3; cbn; [split; [done|lia]|done| |done].
      intros k b Hk. rewrite F by done. by apply Q3.
  - intros u j x Hx. destruct (lv_user _ _ Hl u j x Hx) as [U1 U2]. split; [|done]. cbn. rewrite B2. by apply is_Some_insert.
  - intros j Hj. rewrite B2. pose proof (lv_closed _ _ Hl j Hj) as Hc'. rewrite lookup_insert_ne; [done|].
    intros <-. by rewrite Hfresh in Hc'.
Qed.

(** Shares are made or redeemed: one portfolio and one of its holders are written. *)
Lemma live_shares st st' i p p' u x d :
  live K st → Portfolios st !! i = Some p →
  books st' = (PortfolioCounter st, <[pf_portfolio_id p := p']> (Portfolios st), <[(u, i) := x]> (UserPositions st), ReentrancyLock st') →
  pf_portfolio_id p' = pf_portfolio_id p → pf_target_weights p' = pf_target_weights p →
  (pf_status p = Closed → pf_status p' = Closed) → AssetPositions st' = AssetPositions st → default false (ReentrancyLock st') = false →
  up_pending_dividends x = 0 → pf_total_supply p' = pf_total_supply p + d →
  up_shares x = from_option up_shares 0 (UserPositions st !! (u, i)) + d → live K st'.
Proof.
  intros Hl Hi Hb Hid Hw Hcl Ha Hk Hpd Hs Hx. unfold books in Hb. injection Hb as E1 E2 E3.
  destruct (lv_portfolio _ _ Hl i p Hi) as [[Hpi Hrg] Hwo Hpo Hsup]. rewrite Hpi in E2.
  assert (∀ j, shares_of j (UserPositions st') = shares_of j (UserPositions st) + (if i =? j then d else 0)) as Hsh.
  { intros j. unfold shares_of. rewrite E3, msum_insert. cbn. destruct (i =? j); destruct (UserPositions st !! (u, i)); cbn in *; lia. }
  split; rewrite ?E1, ?E2; [apply Hl| | |done|].
  - intros j q [[<- <-]|[Hne Hq]]%lookup_insert_Some.
    + split; rewrite ?E1, ?Hsh, ?Z.eqb_refl, ?Ha, ?Hw; [split; [congruence|done]|done|done|lia].
    + destruct (lv_portfolio _ _ Hl j q Hq) as [Q1 Q2 Q3 Q4]. split; rewrite ?E1, ?Hsh, ?Ha; try done.
      rewrite (proj2 (Z.eqb_neq _ _) Hne). lia.
  - intros v j y. rewrite E3. intros [[[= <- <-] <-]|[_ Hy]]%lookup_insert_Some.
    + split; [|done]. rewrite E2, lookup_insert_eq. eauto.
    + destruct (lv_user _ _ Hl v j y Hy) as [U1 U2]. split; [|done]. rewrite E2. by apply is_Some_insert.
  - intros j Hj. apply (closed_insert _ i p p'); [done|done|]. by apply (lv_closed _ _ Hl).
Qed.

Lemma credit_user_spec u i n sh t e w w' :
  credit_user u i n sh t e w = Ok (tt, w') →
  (∀ x, UserPositions (store w) !! (u, i) = Some x → up_pending_dividends x = 0) →
  ∃ x, books (store w') = (PortfolioCounter (store w), Portfolios (store w), <[(u, i) := x]> (UserPositions (store w)),
      ReentrancyLock (store w)) ∧ AssetPositions (store w') = AssetPositions (store w) ∧ ledger w' = ledger w ∧
    up_pending_dividends x = 0 ∧ up_shares x = from_option up_shares 0 (UserPositions (store w) !! (u, i)) + sh.
Proof.
  intros Hr Hpd. unfold credit_user, has_user_position, get_user_position, set_user_position, add_user_portfolio,
    get_user_portfolio_ids in Hr. apply bind_Ok in Hr as (k & w1 & Hk & Hr). apply gets_Ok in Hk as [Hk ->].
  destruct (UserPositions (store w) !! (u, i)) as [x|] eqn:Hx; destruct k; try discriminate Hk.
  - minv Hr. inv_checked. eexists. split; [reflexivity|]. split_and!; try done. cbn. by apply Hpd.
  - minv Hr. eexists. split; [reflexivity|]. split_and!; done.
Qed.

(** What a deposit does. *)
Lemma portfolio_deposit_spec u i n e w v w' :
  deposit u i n e w = Ok (v, w') → live K (store w) →
  ∃ p x, Portfolios (store w) !! i = Some p ∧ pf_status p = Active ∧ 0 < n ∧ authorized e u = true ∧
    tok_transfer e (ledger w) (pf_deposit_token p) u (current_contract_address e) n = Some (ledger w') ∧
    (if pf_total_supply p =? 0 then v = n else pf_total_assets p ≠ 0 ∧ v = (n * pf_total_supply p) `quot` pf_total_assets p) ∧
    books (store w') = (PortfolioCounter (store w), <[pf_portfolio_id p := {| p with pf_total_assets := pf_total_assets p + n;
      pf_total_supply := pf_total_supply p + v |}]> (Portfolios (store w)), <[(u, i) := x]> (UserPositions (store w)),
      ReentrancyLock (store w)) ∧
    AssetPositions (store w') = AssetPositions (store w) ∧ up_pending_dividends x = 0 ∧
    up_shares x = from_option up_shares 0 (UserPositions (store w) !! (u, i)) + v.
Proof.
  intros Hr Hl. unfold deposit in Hr.
  do 2 (let Hg := fresh "Hg" in apply bind_Ok in Hr as ([] & w1 & Hg & Hr); minv Hg). zbool.
  apply bind_Ok in Hr as (p & w1 & (Hp & ->)%get_portfolio_Ok & Hr). apply bind_Ok in Hr as ([] & w1 & Hact & Hr). minv Hact. zbool.
  apply bind_Ok in Hr as (sf & w1 & Hsf & Hr). minv Hsf. apply bind_Ok in Hr as ([] & w1 & Htr & Hr). minv Htr.
  apply bind_Ok in Hr as (sh & w1 & Hsh & Hr).
  assert (w1 = mkWorld (store w) l (log w) ∧ (if pf_total_supply p =? 0 then sh = n else
    pf_total_assets p ≠ 0 ∧ sh = (n * pf_total_supply p) `quot` pf_total_assets p)) as [-> Hshares].
  { unfold calculate_shares_for_deposit in Hsh. destruct (_ =? 0); [by minv Hsh|]. by apply mul_div_Ok in Hsh as (-> & ? & ?). }
  unfold set_portfolio in Hr. do 4 (let Hg := fresh "Hg" in apply bind_Ok in Hr as (? & w1 & Hg & Hr); minv Hg). inv_checked.
  apply bind_Ok in Hr as ([] & w1 & Hcr & Hr).
  apply credit_user_spec in Hcr as (x & Hb & Has & Hled & Hpd & Hx); [|cbn; intros y Hy; apply (lv_user _ _ Hl _ _ _ Hy)].
  minv Hr. exists p, x. cbn in *. rewrite Hb, Has, Hled. split_and!; done.
Qed.

(** What a withdrawal does. *)
Lemma withdraw_spec u i n e w v w' :
  withdraw u i n e w = Ok (v, w') → live K (store w) →
  ∃ p x x', Portfolios (store w) !! i = Some p ∧ UserPositions (store w) !! (u, i) = Some x ∧ 0 < n ≤ up_shares x ∧
    authorized e u = true ∧ 0 < pf_total_supply p ∧ v = (n * pf_total_assets p) `quot` pf_total_supply p ∧
    tok_transfer e (ledger w) (pf_deposit_token p) (current_contract_address e) u v = Some (ledger w') ∧
    books (store w') = (PortfolioCounter (store w), <[pf_portfolio_id p := {| p with pf_total_assets := pf_total_assets p - v;
      pf_total_supply := pf_total_supply p - n |}]> (Portfolios (store w)), <[(u, i) := x']> (UserPositions (store w)), Some false) ∧
    AssetPositions (store w') = AssetPositions (store w) ∧ up_pending_dividends x' = 0 ∧ up_shares x' = up_shares x - n.
Proof.
  intros Hr Hl. unfold withdraw in Hr.
  do 2 (let Hg := fresh "Hg" in apply bind_Ok in Hr as ([] & w1 & Hg & Hr); minv Hg). zbool.
  apply bind_Ok in Hr as (p & w1 & (Hp & ->)%get_portfolio_Ok & Hr). unfold get_user_position in Hr.
  apply bind_Ok in Hr as (x & w1 & Hx & Hr). minv Hx.
  do 2 (let Hg := fresh "Hg" in apply bind_Ok in Hr as ([] & w1 & Hg & Hr); minv Hg). zbool.
  apply bind_Ok in Hr as (g & w1 & (-> & _ & Hg3)%mul_div_Ok & Hr).
  do 2 (let Hg := fresh "Hg" in apply bind_Ok in Hr as (? & w1 & Hg & Hr); minv Hg). inv_checked.
  apply bind_Ok in Hr as (nav & w1 & ->%reads_pure & Hr); [|apply nav_of_reads].
  unfold set_portfolio, set_user_position, enter_non_reentrant, exit_non_reentrant in Hr. minv Hr. inv_checked.
  exists p, x. eexists. split_and!; try done; try reflexivity. cbn. apply (lv_user _ _ Hl _ _ _ Hx).
Qed.

Lemma deposit_live u i n e w v w' : deposit u i n e w = Ok (v, w') → live K (store w) → live K (store w').
Proof.
  intros Hr Hl. destruct (portfolio_deposit_spec _ _ _ _ _ _ _ Hr Hl) as (p & x & Hp & _ & _ & _ & _ & _ & Hb & Ha & Hpd & Hx).
  assert (ReentrancyLock (store w') = ReentrancyLock (store w)) as Hk by (unfold books in Hb; congruence).
  eapply (live_shares (store w) (store w') i p _ u x v Hl Hp); [rewrite Hk; exact Hb|done|done|done|done|rewrite Hk; apply Hl|done|done|done].
Qed.

Lemma withdraw_live u i n e w v w' : withdraw u i n e w = Ok (v, w') → live K (store w) → live K (store w').
Proof.
  intros Hr Hl. destruct (withdraw_spec _ _ _ _ _ _ _ Hr Hl) as (p & x & x' & Hp & Hu & _ & _ & _ & _ & _ & Hb & Ha & Hpd & Hx).
  assert (ReentrancyLock (store w') = Some false) as Hk by (unfold books in Hb; congruence).
  eapply (live_shares (store w) (store w') i p _ u x' (- n) Hl Hp); [rewrite Hk; exact Hb|done|done|done|done|by rewrite Hk|done|done|].
  rewrite Hu. cbn. lia.
Qed.

Lemma template_live c n ty tk o l e w i w' :
  create_from_template c n ty tk o l e w = Ok (i, w') → live K (store w) → live K (store w').
Proof.
  intros Hr Hl. unfold create_from_template, is_paused in Hr.
  do 4 (let Hg := fresh "Hg" in apply bind_Ok in Hr as (? & w1 & Hg & Hr); minv Hg).
  apply bind_Ok in Hr as (tm & w1 & Htm & Hr). minv Htm. apply bind_Ok in Hr as (al & w1 & Hal & Hr). minv Hal.
  eapply create_live; [exact Hr|by eapply template_weights|done].
Qed.

Lemma custom_live c n tk o al ws rf dt ms e w i w' :
  create_custom c n tk o al ws rf dt ms e w = Ok (i, w') → weights_unsigned al → live K (store w) → live K (store w').
Proof.
  intros Hr Hu Hl. unfold create_custom, is_paused in Hr.
  do 4 (let Hg := fresh "Hg" in apply bind_Ok in Hr as (? & w1 & Hg & Hr); minv Hg).
  apply bind_Ok in Hr as ([] & w1 & Hv & Hr). minv Hv. apply negb_false_iff in Hv.
  eapply create_live; [exact Hr|by apply validated_weights|done].
Qed.

Lemma equal_weight_live c n tk o l rf e w i w' :
  create_equal_weight c n tk o l rf e w = Ok (i, w') → live K (store w) → live K (store w').
Proof.
  intros Hr Hl. unfold create_equal_weight, is_paused in Hr.
  do 3 (let Hg := fresh "Hg" in apply bind_Ok in Hr as (? & w1 & Hg & Hr); minv Hg).
  apply bind_Ok in Hr as ([] & w1 & Hmax & Hr). minv Hmax. apply bind_Ok in Hr as ([] & w1 & Hne & Hr). minv Hne. zbool.
  eapply create_live; [exact Hr|by apply equal_weights_ok|done].
Qed.

Lemma fork_live c i n ws rf e w j w' :
  fork_portfolio c i n ws rf e w = Ok (j, w') → weights_unsigned (default [] ws) → live K (store w) → live K (store w').
Proof.
  intros Hr Hu Hl. unfold fork_portfolio in Hr. apply bind_Ok in Hr as ([] & w1 & Ha & Hr). minv Ha.
  apply bind_Ok in Hr as (p & w1 & (Hp & ->)%get_portfolio_Ok & Hr). apply bind_Ok in Hr as ([] & w1 & Hcl & Hr). minv Hcl.
  apply bind_Ok in Hr as (al & w1 & Hal & Hr).
  assert (w1 = w ∧ weights_ok al) as [-> Hok].
  { destruct ws as [ws|]; minv Hal; (split; [done|]); [|apply (lv_portfolio _ _ Hl i p Hp)].
    apply validated_weights; [|done]. by apply negb_false_iff. }
  by eapply create_live.
Qed.

Lemma portfolio_initialize_live a e w w' : initialize a e w = Ok (tt, w') → live K (store w) → live K (store w').
Proof.
  intros Hr [L1 L2 L3 L4 L5]. unfold initialize, set_admin, set_paused in Hr. minv Hr. split; try done; cbn.
  - intros i p Hp. by destruct (L2 i p Hp); split.
  - intros u i x Hx. by destruct (L3 u i x Hx); split.
Qed.

Lemma portfolio_exec_live c e w w' : exec c e w = Ok (tt, w') → call_ok c → live K (store w) → live K (store w').
Proof.
  intros Hr Hok Hl. destruct (is_parameter_call c) eqn:Hp; [by eapply parameter_live|].
  destruct (is_bystander c) eqn:Hb; [by eapply bystander_live|].
  destruct c; try discriminate Hp; try discriminate Hb; cbn [exec] in Hr; try apply discard_Ok in Hr as [v Hr];
    eauto using portfolio_initialize_live, template_live, equal_weight_live, deposit_live, withdraw_live, rebalance_live,
      check_rebalance_live, update_asset_live, collect_live.
  - destruct Hok. by eapply custom_live.
  - by apply claim_never in Hr.
  - by eapply fork_live.
  - by eapply set_weights_live.
Qed.
End invariant.

(** The square root of the Sharpe ratio terminates and is the integer square root. *)
Lemma portfolio_isqrt_correct `{TokenHost} n e (w : World State Event) :
  n < int_max I128 → (isqrt n : M State () Event Z) e w = Ok (Z.sqrt n, w).
Proof.
  intros Hn. unfold isqrt. destruct (n <? 0) eqn:E1; zbool; [by rewrite Z.sqrt_neg|].
  destruct (n =? 0) eqn:E2; zbool; [by subst|]. apply isqrt_start_ok. lia.
Qed.

(** ** Theorems *)

Section theorems.
Context `{TokenHost} (self : Address).
Implicit Types (w : World State Event) (e : Env).

Definition reachable (t : Z) (w : World State Event) : Prop :=
  ∃ t0 l lg, rtc (step exec call_ok self) (t0, mkWorld deployed l lg) (t, w).

Lemma live_reach K t w t' w' : rtc (step exec call_ok self) (t, w) (t', w') → live K (store w) → live K (store w').
Proof.
  intros Hr Hl. apply (reach_inv_world exec call_ok self (λ _ w, live K (store w))) in Hr; [done| |done|done].
  intros t1 c e w1 w2 _ _ Hok Hl1 Hrun. by eapply portfolio_exec_live.
Qed.

Lemma portfolio_reachable_live t w : reachable t w → live ∅ (store w).
Proof. intros (t0 & l & lg & Hr). apply (live_reach ∅) in Hr; [done|]. split; cbn; try done. Qed.

(** C35: the target weights of a portfolio add up to the whole, however it was
    created and retargeted; each of its assets has a position with its token and target;
    and its supply is what its holders' shares add up to. *)
Theorem portfolio_books t w i p :
  reachable t w → Portfolios (store w) !! i = Some p →
  lsum al_weight_bps (pf_target_weights p) = BPS_DENOMINATOR ∧
  positions_ok i (pf_target_weights p) (AssetPositions (store w)) ∧
  pf_total_supply p = shares_of i (UserPositions (store w)).
Proof.
  intros Hl%portfolio_reachable_live Hi. destruct (lv_portfolio _ _ Hl i p Hi) as [_ [Hw _] Hp Hs]. done.
Qed.

(** A closed portfolio stays closed. *)
Theorem portfolio_closed_final t w t' w' i :
  reachable t w → pf_status <$> Portfolios (store w) !! i = Some Closed →
  rtc (step exec call_ok self) (t, w) (t', w') → pf_status <$> Portfolios (store w') !! i = Some Closed.
Proof.
  intros Hl%portfolio_reachable_live Hi Hr. assert (live {[i]} (store w)) as Hk.
  { destruct Hl as [L1 L2 L3 L4 _]. split; try done. by intros j ->%elem_of_singleton. }
  apply (live_reach _ _ _ _ _ Hr) in Hk. apply (lv_closed _ _ Hk). set_solver.
Qed.

(** Dividends are collected into the portfolio but credited to nobody, so no claim succeeds. *)
Theorem dividends_never_claimed t w u i e r : reachable t w → claim_dividends u i e w ≠ Ok r.
Proof. intros Hl%portfolio_reachable_live. by eapply claim_never. Qed.

(** The assets behind a share do not fall. *)
Definition no_dilution (p p' : Portfolio) : Prop :=
  pf_total_assets p * pf_total_supply p' ≤ pf_total_assets p' * pf_total_supply p.

(** While a portfolio has shares and assets, a deposit or a withdrawal does not
    lower the assets behind a share, and moves the deposit token and the assets by the same
    amount. *)
Theorem portfolio_share_fair t w u i n e v w' p :
  reachable t w → Portfolios (store w) !! i = Some p → 0 < pf_total_supply p → 0 < pf_total_assets p →
  (deposit u i n e w = Ok (v, w') →
    ∃ p', Portfolios (store w') !! i = Some p' ∧ no_dilution p p' ∧ pf_total_assets p' = pf_total_assets p + n ∧
      pf_total_supply p' = pf_total_supply p + v ∧
      tok_transfer e (ledger w) (pf_deposit_token p) u (current_contract_address e) n = Some (ledger w')) ∧
  (withdraw u i n e w = Ok (v, w') →
    ∃ p', Portfolios (store w') !! i = Some p' ∧ no_dilution p p' ∧ pf_total_assets p' = pf_total_assets p - v ∧
      pf_total_supply p' = pf_total_supply p - n ∧
      tok_transfer e (ledger w) (pf_deposit_token p) (current_contract_address e) u v = Some (ledger w')).
Proof.
  intros Hl%portfolio_reachable_live Hi Hs Ha. destruct (po_id _ _ _ (lv_portfolio _ _ Hl i p Hi)) as [Hid _].
  split; intros Hr.
  - destruct (portfolio_deposit_spec _ _ _ _ _ _ _ _ Hr Hl) as (q & x & Hq & _ & Hn & _ & Htr & Hv & Hb & _).
    assert (q = p) as -> by congruence. unfold books in Hb. injection Hb as _ Hb _ _. rewrite Hb, Hid, lookup_insert_eq.
    eexists. split; [done|]. unfold no_dilution. cbn. split; [|done].
    rewrite (proj2 (Z.eqb_neq _ _)) in Hv by lia. destruct Hv as [_ ->]. rewrite quot_div_nonneg by nia.
    pose proof (Z.mul_div_le (n * pf_total_supply p) (pf_total_assets p) Ha). nia.
  - destruct (withdraw_spec _ _ _ _ _ _ _ _ Hr Hl) as (q & x & x' & Hq & _ & Hn & _ & Hsup & -> & Htr & Hb & _).
    assert (q = p) as -> by congruence. unfold books in Hb. injection Hb as _ Hb _ _. rewrite Hb, Hid, lookup_insert_eq.
    eexists. split; [done|]. unfold no_dilution. cbn. split; [|done]. rewrite quot_div_nonneg by nia.
    pose proof (Z.mul_div_le (n * pf_total_assets p) (pf_total_supply p) Hsup). nia.
Qed.

(** Depositing and withdrawing the shares received returns at most the deposit. *)
Theorem portfolio_roundtrip t w u i n e v w1 e' v' w2 p :
  reachable t w → Portfolios (store w) !! i = Some p → 0 < pf_total_supply p → 0 < pf_total_assets p →
  deposit u i n e w = Ok (v, w1) → withdraw u i v e' w1 = Ok (v', w2) → v' ≤ n.
Proof.
  intros Hl%portfolio_reachable_live Hi Hs Ha Hd Hw. destruct (po_id _ _ _ (lv_portfolio _ _ Hl i p Hi)) as [Hid _].
  pose proof (deposit_live _ _ _ _ _ _ _ _ Hd Hl) as Hl1.
  destruct (portfolio_deposit_spec _ _ _ _ _ _ _ _ Hd Hl) as (q & x & Hq & _ & Hn & _ & _ & Hv & Hb & _).
  assert (q = p) as -> by congruence. unfold books in Hb. injection Hb as _ Hb _ _. rewrite Hid in Hb.
  destruct (withdraw_spec _ _ _ _ _ _ _ _ Hw Hl1) as (q & y & y' & Hq1 & _ & Hn1 & _ & Hsup & -> & _).
  rewrite Hb, lookup_insert_eq in Hq1. injection Hq1 as <-. cbn in *. rewrite (proj2 (Z.eqb_neq _ _)) in Hv by lia.
  destruct Hv as [_ ->]. rewrite quot_div_nonneg in * by nia. set (k := (n * pf_total_supply p) `div` pf_total_assets p) in *.
  pose proof (Z.mul_div_le (n * pf_total_supply p) (pf_total_assets p) Ha) as Hle. fold k in Hle.
  rewrite quot_div_nonneg by nia. apply div_le_of_le_mul; nia.
Qed.
End theorems.

(** ** A concrete history *)

Module PortfolioDemo.

Definition self := mkAddress "portfolios".
Definition admin := mkAddress "admin".
Definition alice := mkAddress "alice".
Definition bob := mkAddress "bob".
Definition usd := mkAddress "USD".
Definition oracle := mkAddress "oracle".
Definition t1 := mkAddress "T1".
Definition t2 := mkAddress "T2".
Definition t3 := mkAddress "T3".

Definition w0 : World State Event := mkWorld deployed (sl_of [(usd, alice, 5000); (usd, bob, 50)]) [].
Definition setup : list (Z * list Address * Call) :=
  [(10, [admin], CInitialize admin); (20, [alice], CEqualWeight alice "even" usd oracle [t1; t2; t3] Monthly);
   (30, [bob], CCustom bob "mine" usd oracle [mkAlloc t1 10000 None] CustomWeight Monthly None None);
   (40, [alice], CDeposit alice 1 1000); (50, [bob], CDeposit bob 2 10);
   (60, [admin], CCollectDividends admin 1 [(t2, 500)])].
Definition w1 := run_script exec self setup w0.

Lemma portfolio_setup_reach : reachable self 60 w1.
Proof.
  exists 0, (ledger w0), []. change (mkWorld deployed (ledger w0) []) with w0.
  assert (script_ok exec self 0 setup w0 = true) as Hs by (vm_compute; reflexivity).
  assert (Forall (λ c, call_ok c.2) setup) as Hf.
  { repeat constructor; cbn; lia. }
  exact (run_script_reach exec call_ok self 0 setup w0 Hs Hf).
Qed.

Example even_weights : (λ p, al_weight_bps <$> pf_target_weights p) <$> Portfolios (store w1) !! 1 = Some [3334; 3333; 3333].
Proof. vm_compute. reflexivity. Qed.

Lemma portfolio_books_witness :
  ∃ p, Portfolios (store w1) !! 1 = Some p ∧ lsum al_weight_bps (pf_target_weights p) = BPS_DENOMINATOR ∧
    pf_total_supply p = 1000 ∧ shares_of 1 (UserPositions (store w1)) = 1000.
Proof.
  assert (pf_total_supply <$> Portfolios (store w1) !! 1 = Some 1000) as Hs by (vm_compute; reflexivity).
  apply fmap_Some in Hs as (p & Hp & Hsup). destruct (portfolio_books self 60 w1 1 p portfolio_setup_reach Hp) as (Hw & _ & Hsh).
  exists p. split; [exact Hp|]. split; [exact Hw|]. split; [exact (eq_sym Hsup)|]. rewrite <- Hsh. exact (eq_sym Hsup).
Defined.

Definition e1 := env_at 70 self [alice; bob; admin].
Definition w2 := world_of (deposit alice 1 300 e1 w1) w1.
Lemma demo_deposit : deposit alice 1 300 e1 w1 = Ok (200, w2).
Proof. unfold w2. apply (run_ok_val _ _ 0); vm_compute; reflexivity. Qed.
Definition w3 := world_of (withdraw alice 1 200 e1 w2) w2.
Lemma demo_withdraw : withdraw alice 1 200 e1 w2 = Ok (300, w3).
Proof. unfold w3. apply (run_ok_val _ _ 0); vm_compute; reflexivity. Qed.

Lemma portfolio_share_fair_witness : ∃ p p', Portfolios (store w1) !! 1 = Some p ∧ Portfolios (store w2) !! 1 = Some p' ∧ no_dilution p p'.
Proof.
  assert ((λ p, (pf_total_supply p, pf_total_assets p)) <$> Portfolios (store w1) !! 1 = Some (1000, 1500)) as Hs
    by (vm_compute; reflexivity).
  apply fmap_Some in Hs as (p & Hp & Heq). injection Heq as Hsup Hass.
  destruct (portfolio_share_fair self 60 w1 alice 1 300 e1 200 w2 p portfolio_setup_reach Hp) as [Hd _]; [lia|lia|].
  destruct (Hd demo_deposit) as (p' & Hp' & Hn & _). exists p, p'. split; [exact Hp|]. split; [exact Hp'|exact Hn].
Defined.

Lemma portfolio_roundtrip_witness : withdraw alice 1 200 e1 w2 = Ok (300, w3) ∧ 300 ≤ 300.
Proof.
  split; [exact demo_withdraw|].
  assert ((λ p, (pf_total_supply p, pf_total_assets p)) <$> Portfolios (store w1) !! 1 = Some (1000, 1500)) as Hs
    by (vm_compute; reflexivity).
  apply fmap_Some in Hs as (p & Hp & Heq). injection Heq as Hsup Hass.
  apply (portfolio_roundtrip self 60 w1 alice 1 300 e1 200 w2 e1 300 w3 p portfolio_setup_reach Hp);
    [lia|lia|exact demo_deposit|exact demo_withdraw].
Defined.

Definition closing : list (Z * list Address * Call) := [(70, [admin], CClose admin 1)].
Definition w4 := run_script exec self closing w1.
Definition later : list (Z * list Address * Call) := [(80, [alice], CWithdraw alice 1 400); (90, [admin], CSetDrift admin 1 5)].
Definition w5 := run_script exec self later w4.
Lemma portfolio_closed_final_witness : pf_status <$> Portfolios (store w5) !! 1 = Some Closed.
Proof.
  assert (reachable self 70 w4) as Hr.
  { destruct portfolio_setup_reach as (t0 & l & lg & Hr). exists t0, l, lg. transitivity (60, w1); [exact Hr|].
    assert (script_ok exec self 60 closing w1 = true) as Hs by (vm_compute; reflexivity).
    assert (Forall (λ c, call_ok c.2) closing) as Hf by (repeat constructor).
    exact (run_script_reach exec call_ok self 60 closing w1 Hs Hf). }
  assert (pf_status <$> Portfolios (store w4) !! 1 = Some Closed) as Hc by (vm_compute; reflexivity).
  assert (script_ok exec self 70 later w4 = true) as Hs by (vm_compute; reflexivity).
  assert (Forall (λ c, call_ok c.2) later) as Hf by (repeat constructor; cbn; lia).
  exact (portfolio_closed_final self 70 w4 90 w5 1 Hr Hc (run_script_reach exec call_ok self 70 later w4 Hs Hf)).
Defined.

(** Anyone reports the balances of a rebalance, and with them the value of the shares:
    the owner of a portfolio of 10 withdraws what was deposited into another. *)
Definition raid : list (Z * list Address * Call) :=
  [(3000000, [bob], CRebalance bob 2 [] [] [1010]); (3000000, [bob], CWithdraw bob 2 10)].
Example rebalance_sets_the_value :
  script_ok exec self 60 raid w1 = true ∧ sl_balance (ledger (run_script exec self raid w1)) usd bob = 1050 ∧
  sl_balance (ledger (run_script exec self raid w1)) usd self = 0.
Proof. split_and!; vm_compute; reflexivity. Qed.

(** Dividends raise the value of the shares, not the balance they are paid from. *)
Example dividends_unfunded :
  pf_total_assets <$> Portfolios (store w1) !! 1 = Some 1500 ∧ sl_balance (ledger w1) usd self = 1010.
Proof. split; vm_compute; reflexivity. Qed.
End PortfolioDemo.
