(* ===== verification/Atomic.v ===== *)
(** * src/lib: atomic transactions

    The transaction types of src/lib/src/types.rs and the utilities of
    src/lib/src/atomic.rs: the validation of a transaction and the order in which
    its steps run.  The order is computed by repeated passes over the steps that
    are left; the theorems show that the passes end, that the result is the set
    of runnable steps ([Runnable], the least set closed under dependencies) with
    every step after the one it depends on, and that a validated transaction has
    all its steps in the order. *)

From stdpp Require Import gmap strings list fin_maps.
From S2P Require Import Prelude Soroban.
Open Scope Z_scope.

(** ** Data *)

(** A host value is a 64-bit word. *)
Definition Val := Z.

Inductive TransactionStatus :=
| Initiated | Preparing | Prepared | Committing | Committed | RollingBack | RolledBack | Failed | TimedOut.

Record TransactionStep := mkTxStep {
  step_id : Z;
  contract : Address;
  function : Symbol;
  args : list Val;
  depends_on : option Z;
  rollback_contract : option Address;
  rollback_function : option Symbol;
  rollback_args : option (list Val);
  executed : bool;
  result : option string;
}.

Record AtomicTransaction := mkTx {
  transaction_id : Z;
  initiator : Address;
  steps : list TransactionStep;
  status : TransactionStatus;
  created_at : Z;
  deadline : Z;
  prepared_steps : list Z;
  executed_steps : list Z;
  failure_reason : option string;
}.

Record TransactionJournalEntry := mkJournal {
  je_transaction_id : Z;
  je_step_id : Z;
  je_action : string;
  je_timestamp : Z;
  je_success : bool;
  je_error_message : option string;
  je_state_snapshot : option string;
}.

Definition MAX_TRANSACTION_STEPS : Z := 10.

(** ** Operations *)

(** The test [steps.iter().any(|s| s.step_id == id)]. *)
Definition has_step (l : list TransactionStep) (id : Z) : bool :=
  existsb (λ s, step_id s =? id) l.

(** The loop of the validation: the first offending step decides the error. *)
Fixpoint check_dependencies (all l : list TransactionStep) : string + () :=
  match l with
  | [] => inr tt
  | s :: l' =>
    match depends_on s with
    | None => check_dependencies all l'
    | Some d =>
      if step_id s <=? d then inl "Invalid dependency: step cannot depend on itself or later steps"%string
      else if negb (has_step all d) then inl "Dependency step not found"%string
      else check_dependencies all l'
    end
  end.

Definition validate_transaction (t : AtomicTransaction) : string + () :=
  if (Z.of_nat (length (steps t)) =? 0) then inl "Transaction must have at least one step"%string
  else if MAX_TRANSACTION_STEPS <? Z.of_nat (length (steps t)) then inl "Too many transaction steps"%string
  else check_dependencies (steps t) (steps t).

(** Can a step run, once the steps of the given ids have? *)
Definition can_execute (ordered : list Z) (s : TransactionStep) : bool :=
  match depends_on s with
  | None => true
  | Some d => existsb (λ j, j =? d) ordered
  end.

(** The inner loop, at index [length kept] of the vector [kept ++ rest]: a step
    that can run is removed there, another is stepped over. *)
Fixpoint scan (ordered : list Z) (kept rest : list TransactionStep) (progress : bool)
    : list Z * list TransactionStep * bool :=
  match rest with
  | [] => (ordered, kept, progress)
  | s :: rest' =>
    if can_execute ordered s then scan (ordered ++ [step_id s]) kept rest' true
    else scan ordered (kept ++ [s]) rest' progress
  end.

(** The outer loop; [None] is fuel run out. *)
Fixpoint rounds (fuel : nat) (ordered : list Z) (remaining : list TransactionStep) : option (list Z) :=
  match fuel with
  | O => None
  | S fuel' =>
    match remaining with
    | [] => Some ordered
    | _ =>
      let '(ordered', remaining', progress) := scan ordered [] remaining false in
      if progress then rounds fuel' ordered' remaining' else Some ordered'
    end
  end.

(** One pass per step and a last one suffice ([rounds_total]). *)
Definition resolve_execution_order (l : list TransactionStep) : option (list Z) :=
  rounds (S (length l)) [] l.

Definition is_transaction_timed_out (e : Env) (t : AtomicTransaction) : bool :=
  deadline t <? timestamp e.

Definition create_journal_entry (transaction_id step_id : Z) (action : string) (timestamp : Z)
    (success : bool) (error_message : option string) : TransactionJournalEntry :=
  mkJournal transaction_id step_id action timestamp success error_message None.

(** ** The reference: which steps can ever run *)

Inductive Runnable (all : list TransactionStep) : TransactionStep → Prop :=
| runnable_free s : s ∈ all → depends_on s = None → Runnable all s
| runnable_after s s' :
    s ∈ all → Runnable all s' → depends_on s = Some (step_id s') → Runnable all s.

(** Every step comes after a step that bears the id it depends on. *)
Definition in_order (l : list TransactionStep) : Prop :=
  ∀ pre s post, l = pre ++ s :: post → ∀ d, depends_on s = Some d → d ∈ map step_id pre.

(** ** Lemmas *)

Lemma can_execute_spec o s :
  can_execute o s = true ↔ (∀ d, depends_on s = Some d → d ∈ o).
Proof.
  unfold can_execute. destruct (depends_on s) as [d|]; [|naive_solver].
  rewrite existsb_exists. split.
  - intros (j & Hj & He) d' [= <-]. zbool. subst j. by apply list_elem_of_In.
  - intros Ho. exists d. split; [apply list_elem_of_In; auto|apply Z.eqb_refl].
Qed.

Lemma has_step_spec l d : has_step l d = true ↔ ∃ s, s ∈ l ∧ step_id s = d.
Proof.
  unfold has_step. rewrite existsb_exists. setoid_rewrite <- list_elem_of_In.
  split; intros (s & Hs & He); exists s; (split; [done|]); zbool; [done|lia].
Qed.

Lemma in_order_nil : in_order [].
Proof. intros [] s post; discriminate. Qed.

Lemma snoc_or_nil {A} (l : list A) : l = [] ∨ ∃ l' x, l = l' ++ [x].
Proof. destruct l using rev_ind; eauto. Qed.

Lemma in_order_snoc l s :
  in_order l → can_execute (map step_id l) s = true → in_order (l ++ [s]).
Proof.
  intros Hl Hs pre s' post Heq d Hd. destruct (snoc_or_nil post) as [->|(post' & x & ->)].
  - apply app_inj_tail in Heq as [-> ->]. by eapply can_execute_spec.
  - rewrite app_comm_cons, app_assoc in Heq. apply app_inj_tail in Heq as [-> ->]. by eapply Hl.
Qed.

(** What one pass does: it moves a list of steps, none of which runs too early. *)
Lemma scan_spec rest : ∀ dn kept p o' r' p',
  in_order dn →
  scan (map step_id dn) kept rest p = (o', r', p') →
  ∃ new, o' = map step_id (dn ++ new) ∧ kept ++ rest ≡ₚ new ++ r' ∧ in_order (dn ++ new) ∧
    (p' = false → p = false ∧ new = [] ∧ r' = kept ++ rest ∧
       ∀ s, s ∈ rest → can_execute (map step_id dn) s = false) ∧
    (p' = true → p = false → new ≠ []).
Proof.
  induction rest as [|s rest IH]; intros dn kept p o' r' p' Hdn; simpl.
  - intros [= <- <- <-]. exists []. rewrite !app_nil_r. split_and!; auto; intros ->; [|done].
    split_and!; auto. by intros s ?%not_elem_of_nil.
  - destruct (can_execute (map step_id dn) s) eqn:Hc.
    + replace (map step_id dn ++ [step_id s]) with (map step_id (dn ++ [s])) by by rewrite map_app.
      intros (new & -> & Hp & Hord & Hf & _)%IH; [|by apply in_order_snoc].
      exists (s :: new). rewrite <- app_assoc in Hord |- *. split_and!; auto; [|by intros [? _]%Hf].
      simpl. rewrite <- Hp. by rewrite Permutation_middle.
    + intros (new & -> & Hp & Hord & Hf & Ht)%IH; [|done].
      rewrite <- app_assoc in Hp, Hf. exists new. split_and!; auto.
      intros (-> & -> & -> & Hall)%Hf. split_and!; auto.
      intros s' [->|Hs']%elem_of_cons; auto.
Qed.

(** The passes end before the fuel does, and only blocked steps are left. *)
Lemma rounds_total fuel : ∀ dn rem,
  (length rem < fuel)%nat → in_order dn →
  ∃ new left, rounds fuel (map step_id dn) rem = Some (map step_id (dn ++ new)) ∧
    rem ≡ₚ new ++ left ∧ in_order (dn ++ new) ∧
    ∀ s, s ∈ left → can_execute (map step_id (dn ++ new)) s = false.
Proof.
  induction fuel as [|fuel IH]; intros dn rem Hlen Hdn; [lia|].
  assert (Hrem : rem = [] ∨ rem ≠ []) by (destruct rem; auto). destruct Hrem as [->|Hne].
  { exists [], []. simpl. rewrite app_nil_r. split_and!; auto. by intros s ?%not_elem_of_nil. }
  replace (rounds (S fuel) (map step_id dn) rem) with
    (let '(o, r, p) := scan (map step_id dn) [] rem false in if p then rounds fuel o r else Some o)
    by (by destruct rem).
  destruct (scan _ [] rem false) as [[o r] p] eqn:Hs.
  destruct (scan_spec _ _ _ _ _ _ _ Hdn Hs) as (new & -> & Hp & Hord & Hf & Ht). simpl in Hp.
  destruct p.
  - specialize (Ht eq_refl eq_refl). pose proof (Permutation_length Hp) as Hl. rewrite length_app in Hl.
    destruct (IH (dn ++ new) r) as (new' & left & -> & Hp' & Hord' & Hleft);
      [destruct new; [done|simpl in Hl; lia]|done|].
    exists (new ++ new'), left. rewrite <- app_assoc in Hord', Hleft |- *. split_and!; auto.
    by rewrite Hp, Hp', app_assoc.
  - destruct (Hf eq_refl) as (_ & -> & -> & Hall). exists [], rem. simpl.
    rewrite app_nil_r. split_and!; auto.
Qed.

Lemma in_order_can_execute l s : in_order l → s ∈ l → can_execute (map step_id l) s = true.
Proof.
  intros Hl (pre & post & ->)%list_elem_of_split. apply can_execute_spec. intros d Hd.
  rewrite map_app. apply elem_of_app. left. by eapply Hl.
Qed.

(** A prefix of an ordered list of steps is ordered. *)
Lemma in_order_prefix l1 l2 : in_order (l1 ++ l2) → in_order l1.
Proof. intros Ho pre s post -> d Hd. eapply (Ho pre s (post ++ l2)); [by rewrite <- app_assoc|done]. Qed.

Lemma in_order_runnable all l : in_order l → (∀ s, s ∈ l → s ∈ all) → ∀ s, s ∈ l → Runnable all s.
Proof.
  induction l as [|x l IH] using rev_ind; intros Ho Hall s Hs; [by apply not_elem_of_nil in Hs|].
  assert (IH' : ∀ s, s ∈ l → Runnable all s).
  { apply IH; [by eapply in_order_prefix|]. intros; apply Hall; set_solver. }
  apply elem_of_app in Hs as [Hs|Hs]; [auto|]. apply list_elem_of_singleton in Hs as ->.
  assert (Hx : x ∈ all) by (apply Hall; set_solver).
  destruct (depends_on x) as [d|] eqn:Hd; [|by apply runnable_free].
  destruct (proj1 (list_elem_of_fmap step_id l d) (Ho l x [] eq_refl d Hd)) as (y & -> & Hy).
  eapply runnable_after; eauto.
Qed.

(** The result of the passes, as lists of steps: those that ran and those left. *)
Lemma resolve_spec l :
  ∃ dn left, resolve_execution_order l = Some (map step_id dn) ∧ l ≡ₚ dn ++ left ∧ in_order dn ∧
    (∀ s, Runnable l s → s ∈ dn) ∧ (∀ s, s ∈ left → ¬ Runnable l s).
Proof.
  destruct (rounds_total (S (length l)) [] l) as (dn & left & Hr & Hp & Ho & Hleft);
    [lia|apply in_order_nil|]. simpl in *.
  assert (Hin : ∀ s, Runnable l s → s ∈ dn).
  { induction 1 as [s Hs Hd|s s' Hs _ IH Hd]; rewrite Hp in Hs;
      apply elem_of_app in Hs as [Hs|Hs]; auto; apply Hleft, not_true_iff_false in Hs; destruct Hs;
      apply can_execute_spec; rewrite Hd; [done|]. intros d [= <-]. by apply list_elem_of_fmap_2. }
  exists dn, left. split_and!; auto.
  intros s Hs Hrun%Hin. apply (in_order_can_execute dn) in Hrun; [|done]. by rewrite Hleft in Hrun.
Qed.

(** The execution order is always computed.  It lists the
    ids of exactly the steps that can run, those without a dependency and those
    whose dependency can run, each as often as it occurs, and each after the step
    it depends on. *)
Theorem resolve_order_exact (l : list TransactionStep) :
  ∃ dn left, resolve_execution_order l = Some (map step_id dn) ∧ l ≡ₚ dn ++ left ∧ in_order dn ∧
    (∀ s, s ∈ dn ↔ Runnable l s) ∧ (∀ s, s ∈ left → ¬ Runnable l s).
Proof.
  destruct (resolve_spec l) as (dn & left & Hr & Hp & Ho & Hin & Hleft).
  exists dn, left. split_and!; auto. intros s. split; [|auto].
  apply in_order_runnable; [done|]. intros x Hx. rewrite Hp. set_solver.
Qed.

(** ** Validated transactions *)

Lemma check_dependencies_ok all l :
  check_dependencies all l = inr tt →
  ∀ s d, s ∈ l → depends_on s = Some d → d < step_id s ∧ ∃ s', s' ∈ all ∧ step_id s' = d.
Proof.
  induction l as [|x l IH]; simpl; intros Hc s d Hs Hd; [by apply not_elem_of_nil in Hs|].
  apply elem_of_cons in Hs as [->|Hs].
  - rewrite Hd in Hc. destruct (step_id x <=? d) eqn:E; [done|].
    destruct (has_step all d) eqn:E2; simpl in Hc; [|done]. zbool. by apply has_step_spec in E2.
  - destruct (depends_on x) as [d'|]; [|by eapply IH].
    destruct (step_id x <=? d'); [done|]. destruct (has_step all d'); [|done]. by eapply IH.
Qed.

(** Dependencies point to smaller ids, so all steps of a validated list can run. *)
Lemma validated_runnable l :
  (∀ s, s ∈ l → 0 ≤ step_id s) → check_dependencies l l = inr tt → ∀ s, s ∈ l → Runnable l s.
Proof.
  intros Hpos Hc s Hs. remember (step_id s) as n eqn:Hn.
  assert (H0 : 0 ≤ n) by (subst; auto). revert s Hs Hn.
  revert n H0. refine (Zlt_0_ind _ _).
  intros n IH _ s Hs ->. destruct (depends_on s) as [d|] eqn:Hd; [|by apply runnable_free].
  destruct (check_dependencies_ok _ _ Hc s d Hs Hd) as (Hlt & s' & Hs' & <-).
  eapply runnable_after; eauto.
Qed.

(** C39: a transaction that passes the validation has at most
    ten steps, and its execution order is a permutation of all of them in which a
    step comes after the one it depends on. *)
Theorem validated_order_complete (t : AtomicTransaction) :
  (∀ s, s ∈ steps t → 0 ≤ step_id s) →
  validate_transaction t = inr tt →
  ∃ order, resolve_execution_order (steps t) = Some (map step_id order) ∧ order ≡ₚ steps t ∧
    in_order order ∧ (0 < length order ≤ 10)%nat.
Proof.
  unfold validate_transaction, MAX_TRANSACTION_STEPS. intros Hpos Hv.
  destruct (_ =? 0) eqn:E1; [done|]. destruct (10 <? _) eqn:E2; [done|]. zbool.
  destruct (resolve_spec (steps t)) as (dn & left & Hr & Hp & Ho & _ & Hleft).
  assert (left = []) as ->.
  { destruct left as [|s left]; [done|]. destruct (Hleft s); [set_solver|].
    apply validated_runnable; auto. rewrite Hp. set_solver. }
  rewrite app_nil_r in Hp. exists dn. split_and!; auto; [by rewrite Hp| |];
    apply Permutation_length in Hp; lia.
Qed.

(** ** A concrete transaction *)

Module AtomicDemo.

Definition market : Address := mkAddress "market".

Definition demo_step (id : Z) (dep : option Z) : TransactionStep :=
  mkTxStep id market "run" [] dep None None None false None.

(** Settle, pay and notify, listed out of order. *)
Definition demo : AtomicTransaction :=
  mkTx 1 market [demo_step 5 (Some 3); demo_step 3 (Some 1); demo_step 1 None; demo_step 4 None]
    Initiated 0 300 [] [] None.

(** A cycle of two steps, refused by the validation, is left out of the order. *)
Definition cyclic : AtomicTransaction :=
  mkTx 2 market [demo_step 1 (Some 2); demo_step 2 (Some 1); demo_step 3 None] Initiated 0 300 [] [] None.

Example demo_order : resolve_execution_order (steps demo) = Some [1; 4; 3; 5].
Proof. reflexivity. Qed.

Example cyclic_refused : validate_transaction cyclic = inl "Invalid dependency: step cannot depend on itself or later steps"%string.
Proof. reflexivity. Qed.

Example cyclic_order : resolve_execution_order (steps cyclic) = Some [3].
Proof. reflexivity. Qed.

(** Nothing in the validation asks the ids of the steps to differ. *)
Example repeated_ids_accepted :
  validate_transaction (mkTx 3 market [demo_step 1 None; demo_step 1 None] Initiated 0 300 [] [] None) = inr tt.
Proof. reflexivity. Qed.

Lemma validated_order_complete_witness :
  ∃ order, resolve_execution_order (steps demo) = Some (map step_id order) ∧ order ≡ₚ steps demo ∧
    in_order order ∧ (0 < length order ≤ 10)%nat.
Proof.
  apply (validated_order_complete demo); [|reflexivity].
  intros s Hs. repeat (apply elem_of_cons in Hs as [->|Hs]; [simpl; lia|]).
  destruct (not_elem_of_nil s Hs).
Defined.

End AtomicDemo.
