(* ===== verification/AuditTrail.v ===== *)
(** * src/lib: the audit log

    src/lib/src/audit.rs and the logging helpers of src/lib/src/audit_helpers.rs:
    entries with increasing ids, queries by pages, export.  The theorems: the log
    is complete and only grows, a query returns the entries of its range up to
    the limit and says truly whether there are more, and successive pages put
    together are the range. *)

From stdpp Require Import gmap strings list fin_maps.
From S2P Require Import Prelude Soroban TokenModel.
Open Scope Z_scope.

(** ** Data *)

Inductive OperationType :=
| AdminMint | AdminTransfer | AdminApprove | AdminSettingsChange | AdminAddMinter
| SaleCreated | SaleCompleted | LeaseStarted | LeaseEnded | RoyaltyPaid
| AuctionCreated | AuctionBidPlaced | AuctionEnded | LeaseExtensionRequested | LeaseExtended
| LeaseRenewed | LeaseOverdue | LeasePaymentProcessed
| AuthFailure | PermissionCheck | UnauthorizedAttempt
| ConfigurationChange | ParameterUpdate
| ErrorOccurred | ValidationFailed | OverflowDetected.

#[global] Instance OperationType_eq_dec : EqDecision OperationType.
Proof. solve_decision. Defined.

Record AuditLog := mkLog {
  id : Z;
  log_timestamp : Z;
  operator : Address;
  operation_type : OperationType;
  before_state : string;
  after_state : string;
  tx_hash : string;
  description : option string;
}.

Record AuditLogExportEntry := mkExport {
  ex_id : string;
  ex_timestamp : string;
  ex_operator : string;
  ex_operation_type : string;
  ex_before_state : string;
  ex_after_state : string;
  ex_tx_hash : string;
  ex_description : option string;
}.

Record AuditLogQueryResult := mkResult {
  logs : list AuditLog;
  total_count : Z;
  start_id : Z;
  end_id : Z;
  has_more : bool;
}.

(** The two storage keys of the module. *)
Record State := mkState {
  LogIdCounter : option Z;
  LogEntry : gmap Z AuditLog;
}.

(** The module publishes no event. *)
Definition Event := Empty_set.

Section ops.
Context `{TokenHost}.

Local Abbreviation C := (M State () Event).

(** ** Storage *)

Definition get_log_id_counter : C Z :=
  c ← gets LogIdCounter; mret (default 0 c).

Definition increment_log_id_counter : C Z :=
  current ← get_log_id_counter;
  let next := saturating_add U64 current 1 in
  modify (λ s, mkState (Some next) (LogEntry s));;
  mret next.

Definition store_audit_log (l : AuditLog) : C () :=
  modify (λ s, mkState (LogIdCounter s) (<[id l := l]> (LogEntry s))).

Definition get_audit_log (log_id : Z) : C (option AuditLog) :=
  m ← gets LogEntry; mret (m !! log_id).

(** ** Creation *)

Definition create_audit_log (operator : Address) (operation_type : OperationType)
    (before_state after_state tx_hash : string) (description : option string) : C Z :=
  log_id ← increment_log_id_counter;
  timestamp ← now;
  store_audit_log (mkLog log_id timestamp operator operation_type before_state after_state tx_hash description);;
  mret log_id.

Definition log_admin_operation (operation_type : OperationType) (operator : Address)
    (before_state after_state tx_hash : string) (description : option string) : C Z :=
  create_audit_log operator operation_type before_state after_state tx_hash description.

Definition log_transaction_operation (operation_type : OperationType) (operator : Address)
    (before_state after_state tx_hash : string) (description : option string) : C Z :=
  create_audit_log operator operation_type before_state after_state tx_hash description.

Definition log_security_operation (operation_type : OperationType) (operator : Address)
    (before_state after_state tx_hash : string) (description : option string) : C Z :=
  create_audit_log operator operation_type before_state after_state tx_hash description.

Definition log_error_operation (operation_type : OperationType) (operator : Address)
    (error_description : string) : C Z :=
  create_audit_log operator operation_type "{}" "{}" "error-log" (Some error_description).

(** ** Queries *)

(** The loop of the query; the state is the vector, the count and the current id. *)
Fixpoint collect (fuel : nat) (actual_end limit : Z) (acc : list AuditLog) (count current_id : Z)
    : C (list AuditLog * Z * Z) :=
  match fuel with
  | O => panic "out of fuel"
  | S fuel' =>
    if (current_id <=? actual_end) && (count <? limit) then
      o ← get_audit_log current_id;
      count' ← match o with Some _ => plain_add U32 count 1 | None => mret count end;
      current_id' ← plain_add U64 current_id 1;
      collect fuel' actual_end limit (match o with Some l => acc ++ [l] | None => acc end) count' current_id'
    else mret (acc, count, current_id)
  end.

Definition query_audit_logs (start end_ max_results : Z) : C AuditLogQueryResult :=
  total_count ← get_log_id_counter;
  let actual_start := if start =? 0 then 1 else start in
  let actual_end := if total_count <? end_ then total_count else end_ in
  let limit := if max_results =? 0 then 100 else max_results in
  if (total_count <? actual_start) || (actual_end <? actual_start) then
    mret (mkResult [] total_count actual_start actual_end false)
  else
    r ← collect (Z.to_nat (actual_end - actual_start + 2)) actual_end limit [] 0 actual_start;
    let '(logs, count, current_id) := r in
    let has_more := (count =? limit) && (current_id <=? actual_end) in
    last ← (if has_more then plain_sub U64 current_id 1 else mret actual_end);
    mret (mkResult logs total_count actual_start last has_more).

Definition get_total_audit_log_count : C Z := get_log_id_counter.

Definition get_retention_info : C (Z * string) :=
  total ← get_log_id_counter;
  mret (total, "All audit logs are permanently retained. No deletion or modification allowed."%string).

Definition operation_type_to_string (op_type : OperationType) : string :=
  match op_type with
  | AdminMint => "AdminMint" | AdminTransfer => "AdminTransfer" | AdminApprove => "AdminApprove"
  | AdminSettingsChange => "AdminSettingsChange" | AdminAddMinter => "AdminAddMinter"
  | SaleCreated => "SaleCreated" | SaleCompleted => "SaleCompleted"
  | LeaseStarted => "LeaseStarted" | LeaseEnded => "LeaseEnded" | RoyaltyPaid => "RoyaltyPaid"
  | AuctionCreated => "AuctionCreated" | AuctionBidPlaced => "AuctionBidPlaced"
  | AuctionEnded => "AuctionEnded" | LeaseExtensionRequested => "LeaseExtensionRequested"
  | LeaseExtended => "LeaseExtended" | LeaseRenewed => "LeaseRenewed" | LeaseOverdue => "LeaseOverdue"
  | LeasePaymentProcessed => "LeasePaymentProcessed" | AuthFailure => "AuthFailure"
  | PermissionCheck => "PermissionCheck" | UnauthorizedAttempt => "UnauthorizedAttempt"
  | ConfigurationChange => "ConfigurationChange" | ParameterUpdate => "ParameterUpdate"
  | ErrorOccurred => "ErrorOccurred" | ValidationFailed => "ValidationFailed"
  | OverflowDetected => "OverflowDetected"
  end%string.

(** The body of the export loop; the ids and times are placeholders. *)
Definition export_entry (l : AuditLog) : AuditLogExportEntry :=
  mkExport "" "" (strkey (operator l)) (operation_type_to_string (operation_type l))
    (before_state l) (after_state l) (tx_hash l) (description l).

Definition export_audit_logs (start end_ max_results : Z) : C (list AuditLogExportEntry) :=
  query_result ← query_audit_logs start end_ max_results;
  mret (map export_entry (logs query_result)).

(** ** The system *)

Inductive Call :=
| Create (operator : Address) (operation_type : OperationType)
    (before_state after_state tx_hash : string) (description : option string)
| LogError (operation_type : OperationType) (operator : Address) (error_description : string)
| Query (start end_ max_results : Z)
| Export (start end_ max_results : Z).

Definition exec (c : Call) : C () :=
  match c with
  | Create o ty b a h d => discard (create_audit_log o ty b a h d)
  | LogError ty o d => discard (log_error_operation ty o d)
  | Query s n m => discard (query_audit_logs s n m)
  | Export s n m => discard (export_audit_logs s n m)
  end.

End ops.

(** Unsigned arguments are not negative. *)
Definition call_ok (c : Call) : Prop :=
  match c with
  | Query s n m | Export s n m => 0 ≤ s ∧ 0 ≤ n ∧ 0 ≤ m ≤ int_max U32
  | _ => True
  end.

Definition init : State := mkState None ∅.

(** ** The invariant *)

Definition counter (s : State) : Z := default 0 (LogIdCounter s).

(** The ids in use are 1 to the counter, each entry is stored under its id. *)
Record Inv (t : Z) (s : State) : Prop := {
  inv_counter : 0 ≤ counter s ≤ int_max U64;
  inv_complete i : is_Some (LogEntry s !! i) ↔ 1 ≤ i ≤ counter s;
  inv_entry i l : LogEntry s !! i = Some l → id l = i ∧ log_timestamp l ≤ t;
}.

(** The entries with ids from [a] to [b]. *)
Definition range (s : State) (a b : Z) : list AuditLog :=
  omap (λ i, LogEntry s !! i) (seqZ a (b - a + 1)).

Section proofs.
Context `{TokenHost}.
Implicit Types (w : World State Event) (e : Env).

(** ** Creation *)

(** What a creation writes. *)
Lemma create_audit_log_run o ty b a h d e w :
  let next := saturating_add U64 (counter (store w)) 1 in
  create_audit_log o ty b a h d e w =
    Ok (next, {| w with store := mkState (Some next) (<[next := mkLog next (timestamp e) o ty b a h d]> (LogEntry (store w))) |}).
Proof. reflexivity. Qed.

Lemma next_id s t : Inv t s → counter s < int_max U64 → saturating_add U64 (counter s) 1 = counter s + 1.
Proof. intros [Hc _ _] Hlt. unfold saturating_add, saturate. simpl in *. lia. Qed.

Lemma next_id_bounds s t : Inv t s → counter s ≤ saturating_add U64 (counter s) 1 ≤ int_max U64 ∧
  1 ≤ saturating_add U64 (counter s) 1 ∧ saturating_add U64 (counter s) 1 ≤ counter s + 1.
Proof. intros [Hc _ _]. unfold saturating_add, saturate. simpl in *. lia. Qed.

Lemma create_inv t t' s o ty b a h d :
  let next := saturating_add U64 (counter s) 1 in
  t ≤ t' → Inv t s → Inv t' (mkState (Some next) (<[next := mkLog next t' o ty b a h d]> (LogEntry s))).
Proof.
  intros next Ht Hi. pose proof (next_id_bounds s t Hi) as Hb. fold next in Hb.
  destruct Hi as [Hc Hcomp Hent]. split; unfold counter in *; simpl in *; [lia| |].
  - intros i. destruct (decide (i = next)) as [->|Hne].
    + rewrite lookup_insert_eq. split; [lia|eauto].
    + rewrite lookup_insert_ne by done. rewrite Hcomp. lia.
  - intros i l. destruct (decide (i = next)) as [->|Hne].
    + rewrite lookup_insert_eq. by intros [= <-].
    + rewrite lookup_insert_ne by done. intros [-> Hl]%Hent. split; [done|lia].
Qed.

(** ** Queries *)

Lemma range_cons s a b l : a ≤ b → LogEntry s !! a = Some l → range s a b = l :: range s (a + 1) b.
Proof.
  intros Hab Hl. unfold range. rewrite (seqZ_cons a) by lia. simpl. rewrite Hl. simpl. f_equal.
  by replace (Z.pred (b - a + 1)) with (b - (a + 1) + 1) by lia.
Qed.

Lemma range_empty s a b : b < a → range s a b = [].
Proof. intros Hab. unfold range. by rewrite seqZ_nil by lia. Qed.

Lemma range_split s a m b : a ≤ m + 1 → m ≤ b → range s a b = range s a m ++ range s (m + 1) b.
Proof.
  intros H1 H2. unfold range. rewrite <- omap_app. f_equal.
  replace (b - a + 1) with ((m - a + 1) + (b - (m + 1) + 1)) by lia.
  rewrite seqZ_app by lia. do 2 f_equal; lia.
Qed.

Lemma length_omap_total {A B} (f : A → option B) l : (∀ x, x ∈ l → is_Some (f x)) → length (omap f l) = length l.
Proof.
  induction l as [|x l IH]; intros Hf; [done|]. simpl. destruct (Hf x) as [y ->]; [set_solver|].
  simpl. f_equal. apply IH. intros; apply Hf; set_solver.
Qed.

Lemma length_range s a b :
  (∀ i, a ≤ i ≤ b → is_Some (LogEntry s !! i)) → length (range s a b) = Z.to_nat (b - a + 1).
Proof.
  intros Hin. unfold range. rewrite length_omap_total, length_seqZ; [done|].
  intros i Hi%elem_of_seqZ. apply Hin. lia.
Qed.

(** The loop, in a log that has every id of the range: it reaches its end, or stops at the limit. *)
Lemma collect_spec fuel : ∀ b limit acc n a e w,
  (∀ i, a ≤ i ≤ b → is_Some (LogEntry (store w) !! i)) →
  0 ≤ n ≤ limit → limit ≤ int_max U32 → 0 ≤ a ≤ b + 1 → b < int_max U64 → b + 1 - a < Z.of_nat fuel →
  let k := Z.min (limit - n) (b + 1 - a) in
  collect fuel b limit acc n a e w = Ok (acc ++ range (store w) a (a + k - 1), n + k, a + k, w).
Proof.
  induction fuel as [|fuel IH]; intros b limit acc n a e w Hin Hn Hlim Ha Hb Hf; [lia|]. cbv zeta. simpl collect.
  destruct ((a <=? b) && (n <? limit)) eqn:Hc; zbool.
  - destruct (Hin a) as [l Hl]; [lia|].
    assert (Hadd : ∀ ty x, 0 ≤ x → x < int_max ty → checked_add ty x 1 = Some (x + 1)).
    { intros ty x ? ?. apply checked_in. destruct ty; simpl in *; lia. }
    unfold get_audit_log, mbind, M_bind, gets, mret, M_ret. rewrite Hl.
    unfold plain_add, expect. rewrite !Hadd by lia.
    rewrite IH by (try (intros i ?; apply Hin); lia).
    replace (Z.min (limit - n) (b + 1 - a)) with (Z.min (limit - (n + 1)) (b + 1 - (a + 1)) + 1) by lia.
    set (k := Z.min _ _). assert (0 ≤ k) by lia.
    rewrite (range_cons _ a (a + (k + 1) - 1) l) by (done || lia). rewrite <- app_assoc. simpl.
    replace (a + (k + 1) - 1) with (a + 1 + k - 1) by lia.
    replace (n + (k + 1)) with (n + 1 + k) by lia. by replace (a + (k + 1)) with (a + 1 + k) by lia.
  - apply andb_false_iff in Hc. assert (Z.min (limit - n) (b + 1 - a) = 0) as -> by lia.
    rewrite range_empty by lia. by rewrite app_nil_r, !Z.add_0_r.
Qed.

(** What a query answers, in a complete log below the top of u64. *)
Lemma query_run s n m e w t :
  Inv t (store w) → counter (store w) < int_max U64 → 0 ≤ s → 0 ≤ n → 0 ≤ m ≤ int_max U32 →
  let a := if s =? 0 then 1 else s in
  let b := Z.min n (counter (store w)) in
  let limit := if m =? 0 then 100 else m in
  let k := Z.min limit (b + 1 - a) in
  query_audit_logs s n m e w =
    Ok (if b <? a then mkResult [] (counter (store w)) a b false
        else mkResult (range (store w) a (a + k - 1)) (counter (store w)) a (a + k - 1) (a + k <=? b), w).
Proof.
  intros [Hc Hcomp _] Htop Hs Hn Hm a b limit k. unfold query_audit_logs.
  rewrite (bind_run _ _ _ _ (counter (store w)) w) by reflexivity. fold a limit.
  assert (1 ≤ a) by (unfold a; destruct (s =? 0) eqn:E; zbool; lia).
  assert (1 ≤ limit ≤ int_max U32) by (unfold limit; destruct (m =? 0) eqn:E; zbool; simpl in *; lia).
  replace (if counter (store w) <? n then counter (store w) else n) with b
    by (unfold b; destruct (_ <? n) eqn:E; zbool; lia).
  destruct (b <? a) eqn:Hba; zbool.
  - rewrite orb_true_r. reflexivity.
  - rewrite orb_false_r, (proj2 (Z.ltb_ge _ _)) by lia.
    rewrite (bind_run _ _ _ _ (range (store w) a (a + k - 1), k, a + k) w).
    2: { rewrite (collect_spec _ b limit [] 0 a e w); rewrite ?Z.sub_0_r; try lia; [done|].
         intros i ?. apply Hcomp. lia. }
    destruct (a + k <=? b) eqn:Hk; zbool.
    + replace (k =? limit) with true by (symmetry; apply Z.eqb_eq; lia). simpl andb.
      unfold plain_sub. rewrite (bind_run _ _ _ _ (a + k - 1) w); [done|].
      unfold checked_sub, expect. rewrite checked_in; [done|]. simpl in *. lia.
    + rewrite andb_false_r. replace b with (a + k - 1) by lia. reflexivity.
Qed.

(** ** Theorems *)

Variable self : Address.
Local Abbreviation astep := (step exec call_ok self).

(** A query leaves the world as it was, whatever it answers. *)
Lemma collect_pure fuel : ∀ b limit acc n a e w r w',
  collect fuel b limit acc n a e w = Ok (r, w') → w' = w.
Proof.
  induction fuel as [|fuel IH]; intros b limit acc n a e w r w' Hr; [done|]. simpl in Hr.
  destruct (_ && _); [|by apply ret_Ok in Hr as [_ ->]].
  unfold get_audit_log in Hr. minv Hr; by eapply IH.
Qed.

Lemma query_pure s n m e w r w' : query_audit_logs s n m e w = Ok (r, w') → w' = w.
Proof.
  unfold query_audit_logs, get_log_id_counter. intros Hr. minv Hr; [done|by eapply collect_pure..].
Qed.

(** Every call is a creation or leaves the world alone. *)
Lemma exec_cases c e w w' :
  exec c e w = Ok (tt, w') →
  w' = w ∨ ∃ o ty b a h d i, create_audit_log o ty b a h d e w = Ok (i, w').
Proof.
  destruct c; simpl; rewrite discard_Ok; intros [r Hr].
  - right. eauto 10.
  - right. unfold log_error_operation in Hr. eauto 10.
  - left. by eapply query_pure.
  - left. unfold export_audit_logs in Hr. minv Hr. by eapply query_pure.
Qed.

Lemma exec_inv t c e w w' :
  t ≤ timestamp e → Inv t (store w) → exec c e w = Ok (tt, w') → Inv (timestamp e) (store w').
Proof.
  intros Ht Hi [->|(o & ty & b & a & h & d & i & Hr)]%exec_cases.
  - destruct Hi as [? ? Hent]. split; auto. intros i l [-> Hl]%Hent. split; [done|lia].
  - rewrite create_audit_log_run in Hr. simplify_eq. by eapply create_inv.
Qed.

Lemma init_inv t : Inv t init.
Proof.
  split; unfold counter; simpl; [lia| |by intros ? ? ?%lookup_empty_Some].
  intros i. rewrite lookup_empty. split; [by intros []|lia].
Qed.

Lemma reach_audit t0 t w0 w : store w0 = init → rtc astep (t0, w0) (t, w) → Inv t (store w).
Proof.
  intros H0 Hs. refine (reach_inv exec call_ok self (λ t s _, Inv t s) _ _ _ _ Hs _); simpl.
  - intros; by eapply exec_inv.
  - intros t1 t2 s _ _ Hle _ [? ? Hent]. split; auto. intros i l [-> Hl]%Hent. split; [done|lia].
  - rewrite H0. apply init_inv.
Qed.

(** One call keeps every entry below the top of u64. *)
Lemma exec_keeps t c e w w' i l :
  Inv t (store w) → exec c e w = Ok (tt, w') → i < int_max U64 →
  LogEntry (store w) !! i = Some l → LogEntry (store w') !! i = Some l.
Proof.
  intros Hi [->|(o & ty & b & a & h & d & j & Hr)]%exec_cases Htop Hl; [done|].
  rewrite create_audit_log_run in Hr. simplify_eq. simpl.
  pose proof (inv_counter _ _ Hi). pose proof (proj1 (inv_complete _ _ Hi i) (ex_intro _ _ Hl)).
  rewrite lookup_insert_ne; [done|].
  destruct (decide (counter (store w) < int_max U64)); [rewrite (next_id _ _ Hi) by done; lia|].
  unfold saturating_add, saturate. simpl in *. lia.
Qed.

(** From an empty log, the ids in use are always 1 to the
    counter, each entry is stored under its own id and dated in the past; and an
    entry, once written, is the same in every later state (the top id of u64, at
    which the counter saturates, apart). *)
Theorem audit_append_only t0 t1 t2 w0 w1 w2 :
  store w0 = init → rtc astep (t0, w0) (t1, w1) → rtc astep (t1, w1) (t2, w2) →
  (∀ i, is_Some (LogEntry (store w2) !! i) ↔ 1 ≤ i ≤ counter (store w2)) ∧
  (∀ i l, LogEntry (store w2) !! i = Some l → id l = i ∧ log_timestamp l ≤ t2) ∧
  (∀ i l, i < int_max U64 → LogEntry (store w1) !! i = Some l → LogEntry (store w2) !! i = Some l).
Proof.
  intros H0 H1 H2. pose proof (reach_audit _ _ _ _ H0 H1) as Hi.
  assert (Hboth : Inv t2 (store w2) ∧
    ∀ i l, i < int_max U64 → LogEntry (store w1) !! i = Some l → LogEntry (store w2) !! i = Some l).
  { refine (reach_inv exec call_ok self (λ t s _, Inv t s ∧ ∀ i l, i < int_max U64 →
      LogEntry (store w1) !! i = Some l → LogEntry s !! i = Some l) _ _ _ _ H2 _); simpl; [| |done].
    - intros t c e w w' _ Ht _ [Hw Hk] Hr. split; [by eapply exec_inv|]. intros. by eapply exec_keeps; eauto.
    - intros t t' s _ _ Hle _ [[? ? Hent] Hk]. split; [|done]. split; auto.
      intros i l [-> Hl]%Hent. split; [done|lia]. }
  destruct Hboth as [[_ Hcomp Hent] Hk]. auto.
Qed.

(** C40: a query of a reachable log (whose counter is below the top of u64)
    returns; its entries are the first of those with ids from the start (from 1 if
    it is 0) to the end, or to the last entry if that comes earlier, up to the
    limit (100 if it is 0), in the order of their ids; it says that there are more
    exactly when some are missing; and the entries after the last id it names are
    exactly the missing ones, so that successive pages put together are the whole
    range.  An end of 0 is no exception: the range is then empty. *)
Theorem audit_pages t0 t w0 w s n m e :
  store w0 = init → rtc astep (t0, w0) (t, w) → counter (store w) < int_max U64 →
  0 ≤ s → 0 ≤ n → 0 ≤ m ≤ int_max U32 →
  let b := Z.min n (counter (store w)) in
  let all := range (store w) (Z.max 1 s) b in
  let limit := if m =? 0 then 100 else m in
  ∃ r, query_audit_logs s n m e w = Ok (r, w) ∧
    all = logs r ++ range (store w) (end_id r + 1) b ∧
    logs r = take (Z.to_nat limit) all ∧
    (has_more r = false ↔ logs r = all).
Proof.
  intros H0 Hs Htop Hs0 Hn Hm b all limit. pose proof (reach_audit _ _ _ _ H0 Hs) as Hi.
  eexists. split; [by apply (query_run s n m e w t)|]. fold b limit.
  replace (if s =? 0 then 1 else s) with (Z.max 1 s) by (destruct (s =? 0) eqn:E; zbool; lia).
  set (a := Z.max 1 s) in *. set (k := Z.min limit (b + 1 - a)).
  destruct (b <? a) eqn:Hba; zbool; simpl.
  { subst all. rewrite !range_empty by lia. by rewrite take_nil. }
  assert (1 ≤ limit) by (unfold limit; destruct (m =? 0) eqn:E; zbool; lia).
  assert (Hin : ∀ i, a ≤ i ≤ b → is_Some (LogEntry (store w) !! i)) by (intros; apply (inv_complete _ _ Hi); lia).
  assert (Hall : all = range (store w) a (a + k - 1) ++ range (store w) (a + k) b).
  { unfold all. rewrite (range_split _ a (a + k - 1) b) by lia. by replace (a + k - 1 + 1) with (a + k) by lia. }
  replace (a + k - 1 + 1) with (a + k) by lia. rewrite Hall.
  assert (Hl1 : length (range (store w) a (a + k - 1)) = Z.to_nat k)
    by (rewrite length_range; [f_equal; lia|intros; apply Hin; lia]).
  assert (Hl2 : length (range (store w) (a + k) b) = Z.to_nat (b - (a + k) + 1))
    by (apply length_range; intros; apply Hin; lia).
  split_and!; [done| |].
  - destruct (decide (k = limit)) as [Hk|Hk].
    + by rewrite <- Hk, <- Hl1, take_app_length.
    + rewrite (range_empty _ (a + k) b), app_nil_r by lia. rewrite take_ge; [done|lia].
  - rewrite Z.leb_gt. split; [intros; by rewrite (range_empty _ (a + k) b), app_nil_r by lia|].
    intros Heq%(f_equal length). rewrite length_app in Heq. lia.
Qed.

End proofs.

(** ** A concrete log *)

Module AuditDemo.

Definition self := mkAddress "registry".
Definition admin := mkAddress "admin".

Definition w0 : World State Event := mkWorld init (sl_of []) [].
Definition first : list (Z * list Address * Call) :=
  [(10, [admin], Create admin AdminMint "{}" "{}" "tx1" None); (20, [admin], LogError AuthFailure admin "denied")].
Definition second : list (Z * list Address * Call) :=
  [(30, [admin], Create admin SaleCreated "{}" "{}" "tx2" None); (40, [], Query 0 100 2);
   (50, [admin], Create admin SaleCompleted "{}" "{}" "tx3" None)].
Definition w1 := run_script exec self first w0.
Definition w2 := run_script exec self second w1.
Definition e0 : Env := mkEnv 60 self (λ _, false) 0.

Lemma first_reach : rtc (step exec call_ok self) (0, w0) (20, w1).
Proof.
  assert (script_ok exec self 0 first w0 = true) as Hs by (vm_compute; reflexivity).
  assert (Forall (λ c, call_ok c.2) first) as Hf by (repeat constructor; cbn; lia).
  exact (run_script_reach exec call_ok self 0 first w0 Hs Hf).
Qed.

Lemma second_reach : rtc (step exec call_ok self) (20, w1) (50, w2).
Proof.
  assert (script_ok exec self 20 second w1 = true) as Hs by (vm_compute; reflexivity).
  assert (Forall (λ c, call_ok c.2) second) as Hf by (repeat constructor; cbn; lia).
  exact (run_script_reach exec call_ok self 20 second w1 Hs Hf).
Qed.

Definition page (s n m : Z) : option (list Z * Z * bool) :=
  match query_audit_logs s n m e0 w2 with
  | Ok (r, _) => Some (map id (logs r), end_id r, has_more r)
  | _ => None
  end.

Example pages : page 0 100 3 = Some ([1; 2; 3], 3, true) ∧ page 4 100 3 = Some ([4], 4, false).
Proof. vm_compute. split; reflexivity. Qed.

(** An end of 0 asks for nothing, whatever the start. *)
Example end_zero_is_empty : page 2 0 0 = Some ([], 0, false).
Proof. vm_compute. reflexivity. Qed.

(** At the top of u64 the counter saturates, and a new entry replaces the last. *)
Definition full : State := mkState (Some (int_max U64)) {[int_max U64 := mkLog (int_max U64) 5 self AdminMint "{}" "{}" "old" None]}.

Example top_entry_replaced :
  match create_audit_log admin AdminMint "{}" "{}" "new" None e0 (mkWorld full (sl_of []) []) with
  | Ok (_, w) => tx_hash <$> LogEntry (store w) !! int_max U64
  | _ => None
  end = Some "new"%string.
Proof. vm_compute. reflexivity. Qed.

Lemma audit_append_only_witness : ∃ l, LogEntry (store w1) !! 2 = Some l ∧ LogEntry (store w2) !! 2 = Some l.
Proof.
  destruct (audit_append_only self 0 20 50 w0 w1 w2 eq_refl first_reach second_reach) as (_ & _ & Hk).
  eexists. split; [vm_compute; reflexivity|]. apply Hk; [simpl; lia|vm_compute; reflexivity].
Defined.

Lemma audit_pages_witness : ∃ r, query_audit_logs 2 100 2 e0 w2 = Ok (r, w2) ∧ (has_more r = false ↔ logs r = range (store w2) 2 4).
Proof.
  destruct (audit_pages self 0 50 w0 w2 2 100 2 e0 eq_refl) as (r & Hr & _ & _ & Hm).
  - transitivity (20, w1); [exact first_reach|exact second_reach].
  - vm_compute. reflexivity.
  - lia.
  - lia.
  - simpl. lia.
  - exists r. split; [exact Hr|]. exact Hm.
Defined.

End AuditDemo.
