(* ===== verification/Proxy.v ===== *)
(** * src/lib: the upgradeable proxy

    src/lib/src/proxy.rs: a contract that keeps the address of an implementation
    and forwards calls to it.  The implementations are other contracts, the
    parameter [Implementations].  The theorems: the history of upgrades ends with
    the implementation in use, is dated in order and only grows, by calls its
    administrator has signed; a call is forwarded exactly when the proxy is not
    paused. *)

From stdpp Require Import gmap strings list fin_maps sorting.
From S2P Require Import Prelude Soroban TokenModel.
Open Scope Z_scope.

(** A host value is a 64-bit word. *)
Definition Val := Z.

(** The code behind an address: function and arguments, run on the rest of the
    ledger; [None] is a trap. *)
Class Implementations `{TokenHost} := {
  impl_call : Address → Symbol → list Val → Env → Ledger → option (Val * Ledger);
}.

Record State := mkState {
  AdminKey : option Address;
  ImplementationKey : option Address;
  IsPausedKey : option bool;
  UpgradeHistoryKey : option (list (Z * Address));
  PrxInit : option bool;
}.

Inductive Event :=
| Upgraded (new_implementation : Address)
| Paused
| Resumed.

Section ops.
Context `{Implementations}.

Local Abbreviation C := (M State () Event).

Definition set_paused (b : bool) (s : State) : State :=
  mkState (AdminKey s) (ImplementationKey s) (Some b) (UpgradeHistoryKey s) (PrxInit s).

Definition init_proxy (admin initial_implementation : Address) : C () :=
  i ← gets PrxInit;
  panic_if (bool_decide (is_Some i)) "Proxy already initialized";;
  require_auth admin;;
  modify (λ s, mkState (Some admin) (ImplementationKey s) (IsPausedKey s) (UpgradeHistoryKey s) (PrxInit s));;
  modify (λ s, mkState (AdminKey s) (Some initial_implementation) (IsPausedKey s) (UpgradeHistoryKey s) (PrxInit s));;
  modify (set_paused false);;
  modify (λ s, mkState (AdminKey s) (ImplementationKey s) (IsPausedKey s) (Some []) (PrxInit s));;
  modify (λ s, mkState (AdminKey s) (ImplementationKey s) (IsPausedKey s) (UpgradeHistoryKey s) (Some true)).

Definition upgrade (new_implementation : Address) : C () :=
  a ← gets AdminKey;
  admin ← expect a "Proxy not initialized";
  require_auth admin;;
  modify (set_paused true);;
  h ← gets UpgradeHistoryKey;
  t ← now;
  let history := default [] h ++ [(t, new_implementation)] in
  modify (λ s, mkState (AdminKey s) (ImplementationKey s) (IsPausedKey s) (Some history) (PrxInit s));;
  modify (λ s, mkState (AdminKey s) (Some new_implementation) (IsPausedKey s) (UpgradeHistoryKey s) (PrxInit s));;
  _ ← invoke (impl_call new_implementation "migrate" []);
  modify (set_paused false);;
  publish (Upgraded new_implementation).

Definition pause : C () :=
  a ← gets AdminKey;
  admin ← expect a "Proxy not initialized";
  require_auth admin;;
  modify (set_paused true);;
  publish Paused.

Definition resume : C () :=
  a ← gets AdminKey;
  admin ← expect a "Proxy not initialized";
  require_auth admin;;
  modify (set_paused false);;
  publish Resumed.

Definition is_paused : C bool :=
  p ← gets IsPausedKey; mret (default false p).

Definition implementation : C Address :=
  i ← gets ImplementationKey; expect i "Implementation not set".

Definition upgrade_history : C (list (Z * Address)) :=
  h ← gets UpgradeHistoryKey; mret (default [] h).

Definition dispatch (function : Symbol) (args : list Val) : C Val :=
  p ← gets IsPausedKey;
  panic_if (default false p) "Proxy is paused — migration in progress";;
  i ← gets ImplementationKey;
  impl_addr ← expect i "Implementation not set";
  invoke (impl_call impl_addr function args).

Inductive Call :=
| CInitProxy (admin initial_implementation : Address)
| CUpgrade (new_implementation : Address)
| CPause
| CResume
| CDispatch (function : Symbol) (args : list Val).

Definition exec (c : Call) : C () :=
  match c with
  | CInitProxy a i => init_proxy a i
  | CUpgrade i => upgrade i
  | CPause => pause
  | CResume => resume
  | CDispatch f l => discard (dispatch f l)
  end.

End ops.

Definition deployed : State := mkState None None None None None.

Definition history (s : State) : list (Z * Address) := default [] (UpgradeHistoryKey s).
Definition paused (s : State) : bool := default false (IsPausedKey s).

(** Nothing is set, or everything is; the dates of the history do not decrease and
    are past, and its last entry is the implementation in use. *)
Record Inv (t : Z) (s : State) : Prop := {
  inv_set : s = deployed ∨ ∃ a i p h, s = mkState (Some a) (Some i) (Some p) (Some h) (Some true);
  inv_dates : StronglySorted Z.le (map fst (history s) ++ [t]);
  inv_last d i : last (history s) = Some (d, i) → ImplementationKey s = Some i;
}.

Section proofs.
Context `{Implementations}.
Implicit Types (w : World State Event) (e : Env).

(** What a call does to the storage. *)
Inductive proxy_step (e : Env) : State → State → Prop :=
| proxy_init a i : authorized e a = true → proxy_step e deployed (mkState (Some a) (Some i) (Some false) (Some []) (Some true))
| proxy_upgrade a i p h n : authorized e a = true →
    proxy_step e (mkState (Some a) (Some i) p (Some h) (Some true))
      (mkState (Some a) (Some n) (Some false) (Some (h ++ [(timestamp e, n)])) (Some true))
| proxy_pause a i p h q : authorized e a = true →
    proxy_step e (mkState (Some a) i p h (Some true)) (mkState (Some a) i (Some q) h (Some true))
| proxy_same s : proxy_step e s s.

Lemma exec_proxy_step t c e w w' : Inv t (store w) → exec c e w = Ok (tt, w') → proxy_step e (store w) (store w').
Proof.
  intros [Hset _ _] Hr. destruct w as [s l g]. simpl in *.
  destruct c; simpl in Hr;
    unfold init_proxy, upgrade, pause, resume, dispatch, discard in Hr; minv Hr;
    destruct Hset as [->|(a' & i' & p' & h' & ->)]; simplify_eq/=; try (by constructor).
Qed.

Lemma sorted_later (l : list Z) t t' : t ≤ t' → StronglySorted Z.le (l ++ [t]) → StronglySorted Z.le (l ++ [t']).
Proof.
  rewrite !StronglySorted_app. intros Ht (Hall & Hs & _). split_and!; [|done|repeat constructor].
  intros x y Hx ->%list_elem_of_singleton. specialize (Hall x t Hx (list_elem_of_here _ _)). lia.
Qed.

Lemma inv_later t t' s : t ≤ t' → Inv t s → Inv t' s.
Proof. intros Ht [? ? ?]. split; auto. by eapply sorted_later. Qed.

Lemma proxy_step_inv t e s s' : t ≤ timestamp e → Inv t s → proxy_step e s s' → Inv (timestamp e) s'.
Proof.
  intros Ht Hi Hs. apply (inv_later t (timestamp e)) in Hi; [|done].
  destruct Hs as [a i Ha|a i p h n Ha|a i p h q Ha|s]; [| | |done]; destruct Hi as [Hset Hd Hl].
  - split; [right; eauto 10|repeat constructor|done].
  - split; [right; eauto 10| |].
    + unfold history in *. simpl in *. rewrite map_app. simpl. apply StronglySorted_app in Hd as Hd'.
      destruct Hd' as (Hall & Hs & _). apply StronglySorted_app_2; [|done|repeat constructor].
      intros x y [Hx| ->%list_elem_of_singleton]%elem_of_app ->%list_elem_of_singleton; [|lia].
      apply Hall; [done|]. set_solver.
    + intros d j. unfold history. simpl. rewrite last_snoc. by intros [= _ ->].
  - split; [|done|done]. right. destruct Hset as [|(a' & i' & p' & h' & Heq)]; [done|]. simplify_eq. eauto 10.
Qed.

(** A step extends the history and keeps the administrator. *)
Lemma proxy_step_grows t e s s' : Inv t s → proxy_step e s s' →
  history s `prefix_of` history s' ∧ (∀ a, AdminKey s = Some a → AdminKey s' = Some a).
Proof.
  intros _ Hs. destruct Hs; unfold history; simpl; split; auto; try done.
  - by apply prefix_app_r.
Qed.

Variable self : Address.
Local Abbreviation pstep := (step exec (λ _ : Call, True) self).

Lemma reach_proxy t1 t2 w1 w2 :
  Inv t1 (store w1) → rtc pstep (t1, w1) (t2, w2) →
  Inv t2 (store w2) ∧ history (store w1) `prefix_of` history (store w2) ∧
  (∀ a, AdminKey (store w1) = Some a → AdminKey (store w2) = Some a).
Proof.
  intros Hi Hs. refine (reach_inv exec (λ _ : Call, True) self (λ t s _, Inv t s ∧
    history (store w1) `prefix_of` history s ∧ (∀ a, AdminKey (store w1) = Some a → AdminKey s = Some a)) _ _ _ _ Hs _); simpl.
  - intros t c e w w' _ Ht _ (Hw & Hp & Ha) Hr. pose proof (exec_proxy_step _ _ _ _ _ Hw Hr) as Hps.
    destruct (proxy_step_grows _ _ _ _ Hw Hps) as [Hp' Ha']. split_and!; auto.
    + by eapply proxy_step_inv.
    + by etrans.
  - intros t t' s _ _ Hle _ (Hw & ? & ?). split_and!; auto. by eapply inv_later.
  - auto.
Qed.

Lemma proxy_deployed_inv t : Inv t deployed.
Proof. split; [by left|repeat constructor|done]. Qed.

(** An upgrade, in full. *)
Lemma upgrade_Ok i e w u w' : upgrade i e w = Ok (u, w') →
  ∃ a v, AdminKey (store w) = Some a ∧ authorized e a = true ∧
    impl_call i "migrate" [] e (ledger w) = Some (v, ledger w') ∧
    history (store w') = history (store w) ++ [(timestamp e, i)] ∧
    ImplementationKey (store w') = Some i ∧ paused (store w') = false ∧ AdminKey (store w') = Some a.
Proof. unfold upgrade. intros Hr. minv Hr. simpl in *. eexists _, _. by split_and!. Qed.

Lemma is_upgrade c : (∃ i, c = CUpgrade i) ∨ (∀ i, c ≠ CUpgrade i).
Proof. destruct c; eauto. Qed.

Lemma other_calls_keep_history t c e w w' :
  Inv t (store w) → (∀ i, c ≠ CUpgrade i) → exec c e w = Ok (tt, w') → history (store w') = history (store w).
Proof.
  intros [Hset _ _] Hne Hr. destruct w as [s l g]. simpl in *. unfold history.
  destruct c as [a i|i| | |f args]; simpl in Hr; [|by destruct (Hne i)|..];
    unfold init_proxy, pause, resume, dispatch, discard in Hr; minv Hr; try done.
  destruct Hset as [->|(a' & i' & p' & h' & ->)]; simplify_eq/=; done.
Qed.

(** The last entry of the upgrade history is the implementation in
    use, its dates are in order and past; entries are never removed and the
    administrator never changes.  The history changes only by an upgrade that the
    administrator signed and whose migration ran, which records it, installs the
    implementation and leaves the proxy unpaused. *)
Theorem proxy_upgrades t0 t1 t2 w0 w1 w2 c e w' :
  store w0 = deployed → rtc pstep (t0, w0) (t1, w1) → rtc pstep (t1, w1) (t2, w2) →
  exec c e w2 = Ok (tt, w') →
  (∀ d i, last (history (store w2)) = Some (d, i) → ImplementationKey (store w2) = Some i) ∧
  StronglySorted Z.le (map fst (history (store w2)) ++ [t2]) ∧
  history (store w1) `prefix_of` history (store w2) ∧
  (∀ a, AdminKey (store w1) = Some a → AdminKey (store w2) = Some a) ∧
  (history (store w') ≠ history (store w2) →
     ∃ i a v, c = CUpgrade i ∧ AdminKey (store w2) = Some a ∧ authorized e a = true ∧
       impl_call i "migrate" [] e (ledger w2) = Some (v, ledger w') ∧
       history (store w') = history (store w2) ++ [(timestamp e, i)] ∧
       ImplementationKey (store w') = Some i ∧ paused (store w') = false).
Proof.
  intros Hw0 Hr1 Hr2 Hr. destruct (reach_proxy t0 t1 w0 w1) as (Hi1 & _); [rewrite Hw0; apply proxy_deployed_inv|done|].
  destruct (reach_proxy t1 t2 w1 w2) as (Hi & Hp & Ha); [done..|]. pose proof Hi as [Hset Hd Hl].
  split_and!; auto. intros Hne. destruct (is_upgrade c) as [[i ->]|Hc].
  - destruct (upgrade_Ok _ _ _ _ _ Hr) as (a & v & Hu). exists i, a, v. naive_solver.
  - destruct Hne. by eapply other_calls_keep_history.
Qed.

(** A call is forwarded when the proxy is not paused and has an
    implementation, and then it is the implementation's call. *)
Theorem dispatch_exact f l e w v w' :
  dispatch f l e w = Ok (v, w') ↔
  paused (store w) = false ∧ ∃ i l', ImplementationKey (store w) = Some i ∧
    impl_call i f l e (ledger w) = Some (v, l') ∧ w' = {| w with ledger := l' |}.
Proof.
  unfold dispatch, paused. split.
  - intros Hr. minv Hr. eauto 10.
  - intros (Hp & i & l' & Hi & Hc & ->). rewrite (bind_run _ _ _ _ (IsPausedKey (store w)) w) by done.
    rewrite (bind_run _ _ _ _ tt w) by (unfold panic_if; by rewrite Hp).
    rewrite (bind_run _ _ _ _ (Some i) w) by (unfold gets; by rewrite Hi).
    rewrite (bind_run _ _ _ _ i w) by done. unfold invoke. by rewrite Hc.
Qed.
End proofs.

(** ** A concrete proxy *)

Module ProxyDemo.

Definition self := mkAddress "proxy".
Definition admin := mkAddress "admin".
Definition v1 := mkAddress "v1".
Definition v2 := mkAddress "v2".
Definition broken := mkAddress "broken".

(** Implementations that answer the number of their arguments; one traps. *)
#[export] Instance demo_impls : Implementations := {|
  impl_call i f l e g := if decide (i = broken) then None else Some (Z.of_nat (length l), g);
|}.

Definition w0 : World State Event := mkWorld deployed (sl_of []) [].
Definition setup : list (Z * list Address * Call) :=
  [(10, [admin], CInitProxy admin v1); (20, [], CDispatch "ping" [7]); (30, [admin], CUpgrade v2)].
Definition w1 := run_script exec self setup w0.
Definition e1 : Env := env_at 40 self [admin].
Definition w2 : World State Event := world_of (exec (CUpgrade v1) e1 w1) w1.
Lemma demo_upgrade : exec (CUpgrade v1) e1 w1 = Ok (tt, w2).
Proof. apply run_ok_unit. vm_compute. reflexivity. Qed.

Lemma setup_reach : rtc (step exec (λ _ : Call, True) self) (0, w0) (30, w1).
Proof.
  assert (script_ok exec self 0 setup w0 = true) as Hs by (vm_compute; reflexivity).
  assert (Forall (λ c, (λ _ : Call, True) c.2) setup) as Hf by (repeat constructor).
  exact (run_script_reach exec (λ _ : Call, True) self 0 setup w0 Hs Hf).
Qed.

Definition panics {A} (o : Outcome () A) : bool := match o with Panic _ => true | _ => false end.

(** A migration that traps leaves everything as it was. *)
Example broken_upgrade_refused : panics (upgrade broken e1 w1) = true.
Proof. vm_compute. reflexivity. Qed.

(** An upgrade ends an emergency stop: a paused proxy serves calls after it. *)
Definition stopped : World State Event := run_script exec self [(35, [admin], CPause)] w1.
Example upgrade_resumes :
  paused (store stopped) = true ∧ panics (dispatch "ping" [] e1 stopped) = true ∧
  paused (store (run_script exec self [(40, [admin], CUpgrade v1)] stopped)) = false.
Proof. vm_compute. split_and!; reflexivity. Qed.

Lemma proxy_upgrades_witness :
  history (store w2) = [(30, v2); (40, v1)] ∧ ImplementationKey (store w2) = Some v1.
Proof.
  destruct (proxy_upgrades self 0 30 30 w0 w1 w1 (CUpgrade v1) e1 w2 eq_refl setup_reach (rtc_refl _ _) demo_upgrade)
    as (_ & _ & _ & _ & Hc).
  destruct Hc as (i & a & v & Hi & _ & _ & _ & Hh & Him & _); [intros Heq; apply (f_equal length) in Heq; vm_compute in Heq; discriminate|].
  injection Hi as <-. split; [rewrite Hh; vm_compute; reflexivity|exact Him].
Defined.

End ProxyDemo.
